(* ===== verification/_CoqProject ===== *)
-Q . S2P
Prelude.v
Types.v
Wtf8.v
UsnRecord.v
UsnOps.v
LayoutParse.v
Frame.v
Binary.v
Proto.v
Filetime.v
Fold.v
FrnMap.v
NameStore.v
NameOrder.v
EntryTable.v
Chain.v
Volume.v
VolumeInv.v
VolumeOps.v
VolumeEdit.v
VolumeUpsert.v
VolumeBatch.v
VolumeCompact.v
VolumeLinks.v
VolumeRead.v
VolumeNew.v
VolumeBuild.v
VolumeListing.v
VolumeClaims.v
Text.v
Dates.v
Output.v
EsSwitches.v
Argv.v
ArgvRead.v
EsNames.v
ArgvPlan.v
ArgvSame.v
Client.v
ClientRead.v
Budget.v
Wildcard.v
Query.v
Prefilter.v
TopK.v
Compiled.v
FolderPaths.v
Scope.v
Engine.v
FolderRank.v
FolderTree.v
NameLevel.v
NameRows.v
TopRows.v
EngineView.v
Page.v
Merge.v
Stream.v
StreamRead.v
StreamMerge.v
StreamPages.v
Server.v
ServerQuery.v
Registry.v
Pulse.v
Supervisor.v
SupervisorOk.v
SupervisorTails.v
SupervisorRun.v
SupervisorClaims.v
SupervisorBudget.v
Winfs.v
WinfsLinks.v
Bootstrap.v
BootstrapBuild.v
Tail.v
TailSpec.v
TailOk.v
TailClaims.v
ClientRun.v
