(* ===== verification/Prelude.v ===== *)
(** * goz: a verification development

    goz is a file-name search service for Windows: a daemon builds an in-memory
    index of every NTFS volume (first from the master file table, through
    [FSCTL_ENUM_USN_DATA] and [FSCTL_QUERY_FILE_LAYOUT]), keeps it current from
    the USN change journal, and answers queries over a named pipe.  This
    development models the platform-independent core, [crates/goz-core/src],
    and proves it correct.

    ** The parts and how they fit

    Buffers from the kernel are parsed into records ([usn/record.rs],
    [layout/parse.rs]); names arrive as UTF-16 and are kept as WTF-8
    ([wtf8.rs]); a record's reason bits are reduced to index operations
    ([usn/ops.rs]); a saved journal position is checked before replay
    ([usn/cursor.rs]).  The per-volume index ([index/volume.rs]) applies the
    operations: it owns a table of entries in columns, an interned name store
    with a sorted order, and a map from record numbers to entries
    ([index/store.rs]); names are matched case-folded ([fold.rs]).  A query is
    text in Everything's syntax ([query/parse.rs], [query/dates.rs]); the engine
    ([query/engine.rs]) compiles it, searches one volume's index under a budget
    of time ([query/budget.rs]), sorts the matches and cuts out a page.  Results
    go out as binary pages ([proto/binary.rs]) in length-prefixed frames
    ([proto/frame.rs]) with dates converted from FILETIME ([output/filetime.rs]);
    the client writes the pages out in one of es's formats ([output/]).  The
    daemon's query server ([goz-daemon/src/server.rs]) routes a request to the
    indexed volumes ([volume_state.rs]), searches each, merges their rows in one
    order and streams them page by page.  The client ([goz-cli/src/]) reads an
    es-compatible command line ([escompat/]) into a plan, asks the daemon and
    waits for its replies ([reply.rs], [client.rs]), and prints them with an exit
    code ([main.rs]).  The daemon's supervisor ([supervisor.rs]) keeps the indexed
    volumes in step with the machine and a tail on each of them.  A tail
    ([tail.rs]) builds the index of its volume from the file layout
    ([bootstrap.rs]), follows the journal, and rebuilds when the journal is lost;
    both work through the volume calls of [goz-winfs].

    ** The files

    - [Prelude]: results, the state-and-panic monad [ST] with its weakest
      preconditions [wp], machine integers, byte lists, little-endian codecs,
      the tactics and hint databases.
    - [Types] ([types.rs]), [Wtf8] ([wtf8.rs]), [UsnRecord] ([usn/record.rs]),
      [UsnOps] ([usn/ops.rs], [usn/cursor.rs]), [LayoutParse]
      ([layout/parse.rs]), [Frame] ([proto/frame.rs]), [Binary]
      ([proto/binary.rs], [proto/types.rs]), [Filetime] ([output/filetime.rs]),
      [Fold] ([fold.rs]).
    - [FrnMap], [NameStore], [NameOrder], [EntryTable]: the four containers of
      [index/store.rs].  The hasher is a parameter (class [Hasher]); the Unicode
      tables are a parameter (class [Unicode]).
    - [Chain]: doubly linked chains threaded through columns, the shape the
      index uses for same-name entries, children and hard links.
    - [Volume]: the whole of [index/volume.rs], one definition per function.
    - [VolumeInv]: the invariant [vol_ok] of the index and the rules for its
      primitive operations; [VolumeOps]: removal; [VolumeEdit]: deletion,
      insertion and parents; [VolumeUpsert]: rewriting and upserting;
      [VolumeBatch]: journal batches; [VolumeCompact]: compaction and swapping
      it in; [VolumeLinks]: reconciling a record's hard links; [VolumeRead]:
      paths, children and the other readers; [VolumeNew] and [VolumeClaims]: a
      fresh index and the theorems about the index's public operations;
      [VolumeBuild]: the files of a listing, their links, sizes and dates;
      [VolumeListing]: a whole listing.
    - [Text] (characters, numbers and separators of the query language), [Dates]
      ([query/dates.rs], against a class for the local clock), [Budget]
      ([query/budget.rs]; the clock, the cancel flag and the other threads are a
      class [Env]), [Wildcard] and [Query] ([query/parse.rs]: the wildcard
      matcher with its backtracking, and the tokenizer, filters and routing of
      terms).
    - [Prefilter]: the substring scan of the name arena; [TopK]: keys, ordering
      and the best-rows buffers; [Compiled]: [CompiledQuery] and which bytes
      every match must hold; [FolderPaths]: the cached builder of folder paths
      and what each path term needs of a name; [Scope]: [resolve_scope] in
      both of its ways;
      [Engine]: evaluation and the four ways to find candidates, over an
      [IndexView]; [EngineView]: a [VolumeIndex] provides such a view; [Page]:
      a page of references, its sum of sizes and the rows with their paths.
    - [NameLevel]: the shortcuts of a page whose filters read only names (the
      bit set of matching names, the rows walked in name order, the best rows
      gathered straight from the arena); [NameRows] and [TopRows] prove that they
      list and offer exactly the matching rows.
    - [Output] ([output/mod.rs], [csv.rs], [plain.rs], [list.rs], [json.rs],
      [writer.rs]): the writers, as the bytes each call appends.
    - [FolderRank] and [FolderTree] ([query/folder_rank.rs]): the ranks of parent
      folders that a path sort compares, and the tree they are read off.
    - [Proto] ([proto/types.rs], [proto/frame.rs]): requests, responses and their
      tagged frames.
    - [Merge]: merging sorted runs, ties to the earlier one.  [Stream]: the merge
      and the pages of [server.rs]; [StreamRead]: what they read of an index;
      [StreamMerge]: the next row taken is the next of the merged order;
      [StreamPages]: the frames of a reply read back to the merged rows.
    - [Server] ([server.rs], [volume_state.rs]): volumes, the routing of scopes and
      its cache, the search of every volume, negotiation, status and the throttle
      of log lines; [ServerQuery]: a whole query, from the request to the frames;
      [Registry]: the registry of volumes and the order queries lock them in.
    - [Pulse] ([pulse.rs], and the verdicts of [supervisor.rs]): the word a tail
      publishes and what is made of it.  [Supervisor] ([supervisor.rs]): the fleet
      of supervised volumes, one definition per function; [SupervisorOk]: its
      invariant and the steps that keep it; [SupervisorTails]: the books of the
      starts launched and the tails handed over; [SupervisorRun]: listings, removals
      and whole turns; [SupervisorClaims]: the theorems over time;
      [SupervisorBudget]: the revivals.
    - [Winfs] ([goz-winfs/src/journal.rs], [file_layout.rs], [file_stat.rs],
      [links.rs]): the volume calls, over a class of worlds [Win];
      [WinfsLinks]: the walk over the hard links of a file.
    - [Bootstrap] ([bootstrap.rs]): the setup of a journal, the passes over a
      volume, the build; [BootstrapBuild]: a build holds the listing.
    - [Tail] ([tail.rs]): the whole thread, with a trace of what it did;
      [TailSpec]: the language of such traces and the index they leave;
      [TailOk]: the thread keeps to it; [TailClaims]: the theorems, and a small
      machine a tail is run on.
    - [EsSwitches] ([escompat/exit.rs], [es_only.rs] and the tables of [argv.rs]):
      exit codes, switches, sort keys.  [Argv] ([argv.rs]): the readers of split
      arguments and of a raw command line, the names of switches and the plan they
      build; [ArgvRead]: reading always ends in a plan that can be carried out or
      in es's exit codes; [EsNames]: which names mean which switch; [ArgvPlan]: a
      command line for every plan; [ArgvSame]: where the two readers agree.
    - [Client] ([reply.rs], [client.rs], [main.rs]): the replies, the query and the
      writer of a plan, the exit codes; [ClientRead]: a pipe that delivers bytes in
      its own time, and the pages read from it; [ClientRun]: from a plan to what
      is printed.

    ** Interfaces

    [Hasher], [Unicode] (with [UnicodeAscii], [UnicodeText]), [Memchr]
    ([MemchrOk]), [Select] ([SelectOk]), [SortUnstable]
    ([SortUnstableOk]), [Pool] ([PoolOk]), [Serde], [SerdeJson]
    ([SerdeJsonOk]), [MemoryReport], [Env] and the local clock stand for code
    outside the repository: crates, the standard library's unspecified choices,
    the operating system.  [Tokens] ([TokensOk]) is the source's trait for what a
    command line is read from, with both its implementations as instances;
    [PipeIo] is its trait for the pipe and the clock, [Sink] what output is written
    to, [Machine] ([MachineOk]) what the supervisor asks of the system and of other
    threads.  [Win] is what the volume calls and the tail ask of Windows, each
    call from one world to the next; [WinOk] says that time does not run back and
    that reads of a journal follow one list of records, [Searches] what a volume
    at rest promises of handles and searches for names.  [Allocator] is the
    capacity of a hash map.  [ViewOk] of [Engine] is the interface between index
    and engine: what an [IndexView] promises (names, chains, subtrees and paths
    agree); [SortOk] of [FolderTree] is what sorting adds (rank keys, one tree) and
    [NamesOk] of [NameLevel] what the shortcuts add (chains by name, which names
    are alive, the synthetic entries).  The engine is proved against them, and
    [EngineView] proves that every index satisfying [vol_ok] gives a view that
    keeps all three.

    ** How the code is represented

    Unsigned integers are [N] and signed ones [Z], with their bounds and
    truncations written out where the code depends on them; bytes are [list N].
    A [Vec] is a list, and indexing out of range is a panic.  Code that mutates
    [self] is a computation of [ST S A]: [None] is a panic or a loop that ran out
    of fuel, so every theorem stated with [wp] says the code returns.  The fuel
    of a loop along a chain is the number of slots of the table, which the chain
    invariants show to be enough; the walks up the parents are bounded in the
    source itself ([MAX_PATH_HOPS]); parsers use the buffer length, and their
    totality theorems show it is enough; the wildcard matcher's fuel is a bound
    on its backtracking, proved enough.  Counters that only feed diagnostics
    are unbounded.  The loops of a build and of a tail go on as long as Windows
    has more to say: they are [Task]s with a number of turns, whose result [None]
    is a thread still at work (a panic is the outer [None]), and what is proved
    of a tail holds after any number of turns; where the volume does come to an
    end, the build is proved to end in that many turns.  The fuel of the walk
    over links covers every buffer length a 32-bit count can ask for.
    [FxHashMap] is a [gmap].  Work the source splits over threads
    is written in the order of its sequential branch where the result does not
    depend on the split, and with an explicit list of parts where that is the
    point ([TopK.top_k_page], and the schedule of chunks a [Pool] picks in
    [NameLevel]).

    ** What the theorems show

    - Parsers: they terminate on any bytes; what they return is well formed and
      bounded by the buffer; a buffer written by the kernel's rules is read back
      exactly.
    - WTF-8 and folding: UTF-16 round trips, the decoder accepts exactly the
      shortest forms, the lossy form is valid UTF-8, the ASCII fast path agrees
      with the general one.
    - Frames and pages: the decoder yields exactly the payloads however the
      stream is cut; pages decode to what was encoded.
    - Dates: civil dates and day numbers are inverse; conversions stay in range;
      a written or named date filter accepts exactly the period it names.
    - Name store: interning and releasing keep exact bytes and counts, no match
      in the arena straddles names or hits a dead one; the order is sorted,
      merging equals re-sorting, rank keys order names as their bytes do,
      compaction preserves every live name.
    - FRN map: both backings are one finite map.
    - Index: the invariant says that every live entry is on exactly the chains its
      columns name, that every name's count is the number of its entries, that the
      scope index lists exactly the real directories, that the map and the
      hard-link chains give exactly the entries of each record, that free slots
      are exactly the dead ones and that parents are live.  A new index satisfies
      it; upserts, deletions, link reconciliation, compaction and whole journal
      batches preserve it on every input, and change the abstract contents [abs]
      only as specified.  Paths and child lookups read that content; reconciled
      links are chained in the order reported.  A listing inserted file by file,
      in any order, is held exactly: each name in its folder with size and date,
      and nothing else.
    - Query language: what the parser returns is well formed, quoting makes any
      text literal, unsupported operators are errors, size comparisons mean what
      they say; the wildcard matcher equals its declarative meaning, and the
      literals it extracts occur in every match; a scope resolves to a folder of that
      path, with and without regard to case.
    - Engine: the prefilter scan finds exactly the names that hold its literal;
      the cached folder paths equal the paths built from scratch; the best-rows
      buffers of any number of threads give the page a full sort gives; whichever
      way candidates are found, a page holds exactly the entries that satisfy the
      query, counted, summed and in the order the sort means, the shortcuts by
      name and by best rows included, however the pool divides the work; folder
      ranks order folders as their folded paths.  A search whose budget ends
      notices it.
    - Output: CSV reads back to the same cells, plain lines are laid out in
      columns with sizes in the locale's groups, and how rows are cut into pages
      never shows in any format.
    - Query server: the reply to a query is exactly the asked rows of all matches
      of the volumes it reaches, in one order, in frames that fit and read back,
      with the totals and flags of every volume, or the error of a spent budget;
      no two queries lock volumes in opposite orders.
    - Supervision: whatever the machine answers and other threads do, no volume is
      indexed twice or while its disk is being removed, no start and no tail is
      ever lost track of, a removal is answered only when its disk is free and the
      thread ends only when nothing runs any more, tails handed over meanwhile
      included, the indexed volumes follow the listing, and a tail that keeps
      dying is given up on.
    - Volume calls and the build: the hard links of a file are read whole or not at
      all and every handle is given back; a build of a volume that lists its files
      ends with an index that holds them.
    - Tail: whatever Windows answers, indexes are published only with the journal
      position asked for before they were built, the records applied since are
      exactly those of the journal up to the next read, the phase shown is
      [Offline] exactly when reads have been seen to fail for five seconds, a
      volume is read whole at most five times without a record in between, and no
      wait looks like a stall to the supervisor.
    - Command line: every line is read to a plan or to an exit code of es; every
      plan has a line that is read back to it; names of switches are unambiguous;
      split arguments and the raw line agree where quotes do not matter, but for one
      case, a value given to a switch that takes the rest of the line.
    - Client: however slowly and in whatever pieces a reply comes, as long as the
      daemon is never silent for the deadline, the rows, the count or the size
      asked for are written in the format of the plan, and the exit code says so.

    ** Not modelled

    The threads of the daemon as such (starting them, accepting clients, the
    service) with their pipes and timeouts, the Windows bindings, the listing and
    opening of volumes, the layout of the help screens, the status report and the messages on
    stderr.  Allocator behaviour (capacities, headroom, heap accounting) is left
    out: the growth policy is one flag. *)

From stdpp Require Import base list gmap numbers option.
From Stdlib Require Import NArith ZArith Lia.

Declare Scope goz_scope.
Delimit Scope goz_scope with goz.
Open Scope N_scope.

(** ** Results: Rust's [Result<A, E>] *)

Inductive result (E A : Type) : Type :=
| Ok (a : A)
| Err (e : E).
Arguments Ok {E A} _.
Arguments Err {E A} _.

Definition result_bind {E A B} (f : A -> result E B) (m : result E A) : result E B :=
  match m with Ok a => f a | Err e => Err e end.

(** [expr?] of the source: bind, propagating the error. *)
Notation "x <-? m ; k" := (result_bind (fun x => k) m)
  (at level 20, m at level 100, k at level 200) : goz_scope.
Notation "' p <-? m ; k" := (result_bind (fun x => match x with p => k end) m)
  (at level 20, p pattern, m at level 100, k at level 200) : goz_scope.
Open Scope goz_scope.

Definition is_ok {E A} (r : result E A) : bool :=
  match r with Ok _ => true | Err _ => false end.

(** [Option::is_some]. *)
Definition is_some {A} (o : option A) : bool := match o with Some _ => true | None => false end.

(** [Option::ok_or]. *)
Definition ok_or {E A} (e : E) (o : option A) : result E A :=
  match o with Some a => Ok a | None => Err e end.

Lemma result_bind_ok {E A B} (f : A -> result E B) m b :
  result_bind f m = Ok b <-> exists a, m = Ok a /\ f a = Ok b.
Proof. destruct m; simpl; naive_solver. Qed.

(** A fuelled loop that may fail: [None] is out of fuel, which the totality
    theorems exclude. *)
Definition run_bind {E A B} (f : A -> option (result E B)) (m : option (result E A))
  : option (result E B) :=
  match m with
  | Some (Ok a) => f a
  | Some (Err e) => Some (Err e)
  | None => None
  end.
Notation "x <-! m ; k" := (run_bind (fun x => k) m)
  (at level 20, m at level 100, k at level 200) : goz_scope.

Lemma run_bind_ok {E A B} (f : A -> option (result E B)) m b :
  run_bind f m = Some (Ok b) <-> exists a, m = Some (Ok a) /\ f a = Some (Ok b).
Proof. destruct m as [[a|e]|]; simpl; naive_solver. Qed.

Lemma run_bind_total {E A B} (f : A -> option (result E B)) m :
  (exists r, m = Some r) -> (forall a, m = Some (Ok a) -> exists r, f a = Some r) ->
  exists r, run_bind f m = Some r.
Proof. intros [[a|e] ->] Hf; simpl; eauto. Qed.

(** ** State passing with panics

    The index code mutates its tables through [&mut self] and indexes [Vec]s,
    which panics out of range.  A computation is a state transformer that
    returns [None] when the Rust code would panic (or when a fuelled loop runs
    out of fuel, which the theorems exclude). *)

Definition ST (S A : Type) : Type := S -> option (A * S).

Definition st_ret {S A} (a : A) : ST S A := fun s => Some (a, s).
Definition st_bind {S A B} (m : ST S A) (f : A -> ST S B) : ST S B :=
  fun s => match m s with Some (a, s') => f a s' | None => None end.
Definition st_get {S A} (f : S -> A) : ST S A := fun s => Some (f s, s).
Definition st_modify {S} (f : S -> S) : ST S unit := fun s => Some (tt, f s).
(** Reading something the source would panic on if absent. *)
Definition st_read {S A} (f : S -> option A) : ST S A :=
  fun s => match f s with Some a => Some (a, s) | None => None end.
Definition st_update {S} (f : S -> option S) : ST S unit :=
  fun s => match f s with Some s' => Some (tt, s') | None => None end.

(** Runs a computation of a component inside the state of its owner. *)
Definition st_zoom {S T A} (get : S -> T) (set : T -> S -> S) (m : ST T A) : ST S A :=
  fun s => match m (get s) with Some (a, t) => Some (a, set t s) | None => None end.

Notation "x <- m ;; k" := (st_bind m (fun x => k))
  (at level 100, m at next level, right associativity) : goz_scope.
Notation "m ;;; k" := (st_bind m (fun _ => k))
  (at level 100, right associativity) : goz_scope.

Fixpoint st_for {S A} (f : A -> ST S unit) (l : list A) : ST S unit :=
  match l with
  | [] => st_ret tt
  | x :: l' => f x ;;; st_for f l'
  end.

Definition st_fail {S A} : ST S A := fun _ => None.
Definition st_when {S} (b : bool) (m : ST S unit) : ST S unit := if b then m else st_ret tt.

Fixpoint st_map {S A B} (f : A -> ST S B) (l : list A) : ST S (list B) :=
  match l with
  | [] => st_ret []
  | x :: l' => y <- f x ;; ys <- st_map f l' ;; st_ret (y :: ys)
  end.

(** Total-correctness weakest precondition: the computation does not panic and
    its result and final state satisfy [Q]. *)
Definition wp {S A} (m : ST S A) (Q : A -> S -> Prop) (s : S) : Prop :=
  match m s with Some (a, s') => Q a s' | None => False end.

Section wp_rules.
Context {S : Type}.

Lemma wp_ret {A} (a : A) Q (s : S) : Q a s -> wp (st_ret a) Q s.
Proof. done. Qed.

Lemma wp_bind {A B} (m : ST S A) (f : A -> ST S B) Q s :
  wp m (fun a s' => wp (f a) Q s') s -> wp (st_bind m f) Q s.
Proof. unfold wp, st_bind. by destruct (m s) as [[a s']|]. Qed.

Lemma wp_get {A} (f : S -> A) Q s : Q (f s) s -> wp (st_get f) Q s.
Proof. done. Qed.

Lemma wp_modify (f : S -> S) Q s : Q tt (f s) -> wp (st_modify f) Q s.
Proof. done. Qed.

Lemma wp_read {A} (f : S -> option A) Q s a :
  f s = Some a -> Q a s -> wp (st_read f) Q s.
Proof. unfold wp, st_read. by intros ->. Qed.

Lemma wp_update (f : S -> option S) Q s s' :
  f s = Some s' -> Q tt s' -> wp (st_update f) Q s.
Proof. unfold wp, st_update. by intros ->. Qed.

Lemma wp_mono {A} (m : ST S A) (Q R : A -> S -> Prop) s :
  wp m Q s -> (forall a s', Q a s' -> R a s') -> wp m R s.
Proof. unfold wp. destruct (m s) as [[a s']|]; naive_solver. Qed.

Lemma wp_zoom {T A} (get : S -> T) (set : T -> S -> S) (m : ST T A) Q s :
  wp m (fun a t => Q a (set t s)) (get s) -> wp (st_zoom get set m) Q s.
Proof. unfold wp, st_zoom. by destruct (m (get s)) as [[a t]|]. Qed.

(** A loop over a list keeps an invariant indexed by what is left. *)
Lemma wp_for {A} (I : list A -> S -> Prop) (f : A -> ST S unit) :
  (forall x l s, I (x :: l) s -> wp (f x) (fun _ s' => I l s') s) ->
  forall l s, I l s -> wp (st_for f l) (fun _ s' => I [] s') s.
Proof.
  intros Hstep l. induction l as [|x l IH]; intros s HI; simpl; [done|].
  apply wp_bind. eapply wp_mono; [by apply Hstep|]. intros [] s' Hs'. by apply IH.
Qed.

Lemma wp_when b (m : ST S unit) Q s :
  (b = true -> wp m Q s) -> (b = false -> Q tt s) -> wp (st_when b m) Q s.
Proof. intros H1 H2. destruct b; simpl; [by apply H1|by apply H2]. Qed.

Lemma wp_run {A} (m : ST S A) Q s :
  wp m Q s <-> exists a s', m s = Some (a, s') /\ Q a s'.
Proof. unfold wp. destruct (m s) as [[a s']|]; naive_solver. Qed.
End wp_rules.

(** One symbolic-execution step. *)
Ltac wp_step :=
  first
    [ apply wp_bind
    | apply wp_ret
    | apply wp_get
    | apply wp_modify ].
Ltac wp_steps := repeat wp_step; simpl.

(** ** Machine integers

    An unsigned [w]-bit integer is an [N] below [2^w]; a signed one is a [Z].
    [USIZE_MAX] is that of a 64-bit target. *)

Definition u8_max : N := 255.
Definition u16_max : N := 65535.
Definition u32_max : N := 4294967295.
Definition u64_max : N := 18446744073709551615.
Definition usize_max : N := u64_max.
Definition i64_min : Z := (-9223372036854775808)%Z.
Definition i64_max : Z := 9223372036854775807%Z.

(** [x as u8], [x as u16], [x as u32]: truncation. *)
Definition as_u8 (x : N) : N := x mod 256.
Definition as_u16 (x : N) : N := x mod 65536.
Definition as_u32 (x : N) : N := x mod 4294967296.

(** [usize::checked_add]. *)
Definition checked_add (a b : N) : option N :=
  if a + b <=? usize_max then Some (a + b) else None.

(** Two's complement reading of a 64-bit pattern, and its inverse. *)
Definition i64_of_bits (x : N) : Z :=
  if x <? 9223372036854775808 then Z.of_N x
  else (Z.of_N x - 18446744073709551616)%Z.
Definition i64_to_bits (z : Z) : N :=
  Z.to_N (z mod 18446744073709551616)%Z.

Definition in_i64 (z : Z) : Prop := (i64_min <= z <= i64_max)%Z.

Lemma i64_bits_roundtrip z : in_i64 z -> i64_of_bits (i64_to_bits z) = z.
Proof.
  unfold in_i64, i64_min, i64_max, i64_of_bits, i64_to_bits. intros Hz.
  destruct (Z.ltb_spec z 0).
  - replace (z mod 18446744073709551616)%Z with (z + 18446744073709551616)%Z
      by (symmetry; rewrite <- (Z.mod_add z 1 18446744073709551616) by lia;
          rewrite Z.mul_1_l; apply Z.mod_small; lia).
    destruct (N.ltb_spec (Z.to_N (z + 18446744073709551616)) 9223372036854775808); lia.
  - rewrite Z.mod_small by lia.
    destruct (N.ltb_spec (Z.to_N z) 9223372036854775808); lia.
Qed.

Lemma i64_to_bits_bound z : i64_to_bits z < 18446744073709551616.
Proof.
  unfold i64_to_bits.
  pose proof (Z.mod_pos_bound z 18446744073709551616). lia.
Qed.

Lemma i64_of_bits_range x : x < 18446744073709551616 -> in_i64 (i64_of_bits x).
Proof.
  unfold in_i64, i64_of_bits, i64_min, i64_max. intros.
  destruct (N.ltb_spec x 9223372036854775808); lia.
Qed.

(** ** Bytes and slices *)

Abbreviation byte := N (only parsing).
Abbreviation bytes := (list N) (only parsing).

Definition is_byte (b : N) : Prop := b < 256.
Definition is_bytes (l : list N) : Prop := Forall is_byte l.

(** [l.len()]. *)
Definition len {A} (l : list A) : N := N.of_nat (length l).

(** [&l[off..off + n]] where the source has checked the range. *)
Definition slice {A} (off n : N) (l : list A) : list A :=
  take (N.to_nat n) (drop (N.to_nat off) l).

(** [l.get(i)]. *)
Definition getN {A} (i : N) (l : list A) : option A := l !! N.to_nat i.

(** [l[i] = x], which panics out of range. *)
Definition setN {A} (i : N) (x : A) (l : list A) : option (list A) :=
  if i <? len l then Some (<[N.to_nat i := x]> l) else None.

(** ** Little-endian codecs *)

Fixpoint le_decode (l : list N) : N :=
  match l with
  | [] => 0
  | b :: l' => b + 256 * le_decode l'
  end.

Fixpoint le_encode (n : nat) (v : N) : list N :=
  match n with
  | O => []
  | S n' => v mod 256 :: le_encode n' (v / 256)
  end.

Lemma length_le_encode n v : length (le_encode n v) = n.
Proof. revert v; induction n; intros; simpl; auto. Qed.

Lemma le_decode_encode n v : v < 256 ^ N.of_nat n -> le_decode (le_encode n v) = v.
Proof.
  revert v; induction n as [|n IH]; intros v Hv.
  - simpl in *. change (256 ^ N.of_nat 0) with 1 in Hv. lia.
  - simpl. rewrite IH.
    + pose proof (N.div_mod v 256). lia.
    + rewrite Nat2N.inj_succ, N.pow_succ_r' in Hv.
      apply N.Div0.div_lt_upper_bound; lia.
Qed.

Lemma le_encode_decode l : is_bytes l -> le_encode (length l) (le_decode l) = l.
Proof.
  induction 1 as [|b l Hb Hl IH]; simpl; [done|]. unfold is_byte in Hb.
  replace ((b + 256 * le_decode l) mod 256) with b
    by (rewrite (N.mul_comm 256), N.Div0.mod_add, N.mod_small; lia).
  replace ((b + 256 * le_decode l) / 256) with (le_decode l)
    by (rewrite (N.mul_comm 256), N.div_add, N.div_small; lia).
  by rewrite IH.
Qed.

Lemma le_decode_bound l : is_bytes l -> le_decode l < 256 ^ len l.
Proof.
  unfold len. induction 1 as [|b l Hb Hl IH].
  - simpl. change (256 ^ N.of_nat 0) with 1. lia.
  - simpl length. rewrite Nat2N.inj_succ, N.pow_succ_r'. simpl. unfold is_byte in Hb. lia.
Qed.

Lemma is_bytes_le_encode n v : is_bytes (le_encode n v).
Proof.
  revert v; induction n as [|n IH]; intros; simpl; constructor; [|apply IH].
  unfold is_byte. apply N.mod_lt. lia.
Qed.

(** ** List lemmas shared by the components *)

Lemma len_app {A} (l k : list A) : len (l ++ k) = len l + len k.
Proof. unfold len. rewrite length_app. lia. Qed.

Lemma len_cons {A} (x : A) l : len (x :: l) = 1 + len l.
Proof. unfold len. simpl. lia. Qed.

Lemma len_nil {A} : len (@nil A) = 0.
Proof. done. Qed.

Lemma len_le_encode n v : len (le_encode n v) = N.of_nat n.
Proof. unfold len. by rewrite length_le_encode. Qed.

Lemma slice_app_l {A} (l k : list A) n : n = len l -> slice 0 n (l ++ k) = l.
Proof.
  unfold slice, len. intros ->. rewrite Nat2N.id. change (N.to_nat 0) with 0%nat.
  rewrite drop_0. by rewrite take_app_length.
Qed.

Lemma len_slice {A} off n (l : list A) : off + n <= len l -> len (slice off n l) = n.
Proof. unfold slice, len. intros. rewrite length_take, length_drop. lia. Qed.

Lemma slice_skip {A} (l k : list A) off n :
  off = len l -> slice off n (l ++ k) = slice 0 n k.
Proof.
  unfold slice, len. intros ->. rewrite Nat2N.id, drop_app_length. done.
Qed.

Lemma slice_app_ge {A} (l k : list A) off n :
  len l <= off -> slice off n (l ++ k) = slice (off - len l) n k.
Proof.
  unfold slice, len. intros. rewrite drop_app_ge by lia. do 2 f_equal. lia.
Qed.

Lemma slice_full {A} (l : list A) n : n = len l -> slice 0 n l = l.
Proof. intros ->. rewrite <- (app_nil_r l) at 2. by apply slice_app_l. Qed.

Lemma is_bytes_slice off n l : is_bytes l -> is_bytes (slice off n l).
Proof. intros. by apply Forall_take, Forall_drop. Qed.

Lemma getN_lt {A} i (l : list A) x : getN i l = Some x -> i < len l.
Proof. unfold getN, len. intros H%lookup_lt_Some. lia. Qed.

Lemma getN_is_Some {A} i (l : list A) : i < len l -> is_Some (getN i l).
Proof. unfold getN, len. intros. apply lookup_lt_is_Some_2. lia. Qed.

Lemma getN_ge {A} i (l : list A) : len l <= i -> getN i l = None.
Proof. unfold getN, len. intros. apply lookup_ge_None_2. lia. Qed.

Lemma setN_some {A} i (x : A) l : i < len l -> setN i x l = Some (<[N.to_nat i := x]> l).
Proof. unfold setN. by intros ->%N.ltb_lt. Qed.

Lemma len_insert {A} i (x : A) (l : list A) : len (<[i := x]> l) = len l.
Proof. unfold len. by rewrite length_insert. Qed.

Lemma getN_insert {A} i j (x : A) (l : list A) :
  i < len l ->
  getN j (<[N.to_nat i := x]> l) = if decide (i = j) then Some x else getN j l.
Proof.
  unfold getN, len. intros Hi. case_decide as Hij; subst.
  - apply list_lookup_insert_eq. lia.
  - apply list_lookup_insert_ne. lia.
Qed.

Lemma getN_app_last {A} (l : list A) x : getN (len l) (l ++ [x]) = Some x.
Proof. unfold getN, len. rewrite Nat2N.id. by rewrite list_lookup_middle. Qed.

Lemma getN_app_l {A} (l k : list A) i : i < len l -> getN i (l ++ k) = getN i l.
Proof. unfold getN, len. intros. apply lookup_app_l. lia. Qed.

Lemma getN_snoc {A} (l : list A) x i :
  getN i (l ++ [x]) = if decide (i = len l) then Some x else getN i l.
Proof.
  case_decide as H; subst; [apply getN_app_last|].
  destruct (N.lt_ge_cases i (len l)).
  - by apply getN_app_l.
  - rewrite !getN_ge; [done|lia|]. rewrite len_app, len_cons. unfold len in *. simpl. lia.
Qed.

(** ** Finite checks on small integers *)

(** A boolean property of every number below [n], checked by evaluation: how
    the identities on bytes and flag words are proved. *)
Fixpoint check_from (k : nat) (i : N) (f : N -> bool) : bool :=
  match k with
  | O => true
  | S k' => if f i then check_from k' (i + 1) f else false
  end.
Definition check_below (n : N) (f : N -> bool) : bool := check_from (N.to_nat n) 0 f.

Lemma check_from_spec k i f x :
  check_from k i f = true -> i <= x < i + N.of_nat k -> f x = true.
Proof.
  revert i. induction k as [|k IH]; intros i Hc Hx; [lia|]. simpl in Hc.
  destruct (f i) eqn:E; [|done]. destruct (N.eq_dec x i) as [->|]; [done|].
  apply (IH (i + 1)); [done|lia].
Qed.

Lemma check_below_spec n f x : check_below n f = true -> x < n -> f x = true.
Proof. intros Hc Hx. eapply check_from_spec; [exact Hc|]. lia. Qed.

(** ** Tactics for boolean comparisons *)

(** Turns boolean comparisons of hypotheses into propositions. *)
Ltac simpl_cmp :=
  repeat match goal with
  | H : _ && _ = true |- _ => apply andb_true_iff in H as [? ?]
  | H : _ || _ = false |- _ => apply orb_false_iff in H as [? ?]
  | H : negb _ = true |- _ => apply negb_true_iff in H
  | H : negb _ = false |- _ => apply negb_false_iff in H
  | H : (_ <=? _) = true |- _ => apply N.leb_le in H
  | H : (_ <=? _) = false |- _ => apply N.leb_gt in H
  | H : (_ <? _) = true |- _ => apply N.ltb_lt in H
  | H : (_ <? _) = false |- _ => apply N.ltb_ge in H
  | H : (_ =? _) = true |- _ => apply N.eqb_eq in H
  | H : (_ =? _) = false |- _ => apply N.eqb_neq in H
  end.

(** Splits the [N] comparisons of the goal. *)
Ltac split_cmp :=
  repeat match goal with
  | |- context [?x <=? ?y] => destruct (N.leb_spec x y); try lia
  | |- context [?x <? ?y] => destruct (N.ltb_spec x y); try lia
  | |- context [?x =? ?y] => destruct (N.eqb_spec x y); try lia
  end.

Create HintDb goz.
Create Rewrite HintDb goz_len.
#[export] Hint Rewrite @len_app @len_cons @len_nil @len_le_encode @length_le_encode @len_insert : goz_len.
(** Length side conditions of concatenations. *)
Ltac len_solve := autorewrite with goz_len in *; lia.
#[export] Hint Resolve is_bytes_le_encode i64_to_bits_bound : goz.
