(* ===== verification/Types.v ===== *)
(** Shared identifier types: [crates/goz-core/src/types.rs].

    File reference numbers, the [NIL] entry index, the sort keys and the
    lifecycle phase of a volume, with the rule that decides whether a result
    set is complete. *)

From stdpp Require Import base strings.
From Stdlib Require Import NArith Lia.
From S2P Require Import Prelude.

(** [Frn(u64)]: the newtype is the number itself. *)
Abbreviation Frn := N (only parsing).

(** The 48-bit MFT record number. *)
Definition record_number (f : Frn) : N := N.land f 0x0000FFFFFFFFFFFF.

(** The 16-bit sequence number. *)
Definition sequence (f : Frn) : N := as_u16 (N.shiftr f 48).

Definition MAX_NAME_UTF16_BYTES : N := 510.

Abbreviation EntryIdx := N (only parsing).
Definition NIL : EntryIdx := u32_max.

Inductive SortKey := Name | Path | Size | DateModified.
Inductive SortDir := Asc | Desc.
Record SortSpec := { key : SortKey; dir : SortDir }.

#[export] Instance SortKey_eq_dec : EqDecision SortKey.
Proof. solve_decision. Defined.
#[export] Instance SortDir_eq_dec : EqDecision SortDir.
Proof. solve_decision. Defined.

Definition default_for (k : SortKey) : SortSpec :=
  let d := match k with
           | Name | Path => Asc
           | Size | DateModified => Desc
           end in
  {| key := k; dir := d |}.

(** [impl Default for SortSpec]. *)
Definition sort_spec_default : SortSpec := default_for Name.

Inductive EsColumn := ColSize | ColDateModified.

#[export] Instance EsColumn_eq_dec : EqDecision EsColumn.
Proof. solve_decision. Defined.

Inductive VolumePhase :=
| Bootstrapping
| Live
| Rescanning
| Snapshot
| Offline
| Failed (reason : string).

#[export] Instance VolumePhase_eq_dec : EqDecision VolumePhase.
Proof. solve_decision. Defined.

Definition is_complete (p : VolumePhase) : bool :=
  match p with Live | Snapshot => true | _ => false end.

(** [impl Display for VolumePhase]. *)
Definition display_phase (p : VolumePhase) : string :=
  match p with
  | Bootstrapping => "bootstrapping"
  | Live => "live"
  | Rescanning => "rescanning"
  | Snapshot => "snapshot (no journal; cannot track changes)"
  | Offline => "offline"
  | Failed reason => "failed (" +:+ reason +:+ ")"
  end.

(** ** Record and sequence number determine the reference number *)

Lemma record_number_mod f : record_number f = f mod 2 ^ 48.
Proof. unfold record_number. change 0x0000FFFFFFFFFFFF with (N.ones 48). apply N.land_ones. Qed.

Lemma sequence_div f : f < 2 ^ 64 -> sequence f = f / 2 ^ 48.
Proof.
  intros Hf. unfold sequence, as_u16. rewrite N.shiftr_div_pow2.
  apply N.mod_small. apply N.Div0.div_lt_upper_bound. simpl. lia.
Qed.

Lemma record_number_bound f : record_number f < 2 ^ 48.
Proof. rewrite record_number_mod. apply N.mod_lt. lia. Qed.

Lemma frn_split f : f < 2 ^ 64 -> f = 2 ^ 48 * sequence f + record_number f.
Proof.
  intros Hf. rewrite sequence_div, record_number_mod by done. apply N.Div0.div_mod.
Qed.

(** Two reference numbers with the same record number are the same file
    exactly when their sequence numbers agree: what lets the FRN map be keyed
    by record number. *)
Lemma frn_eq_iff f g :
  f < 2 ^ 64 -> g < 2 ^ 64 ->
  f = g <-> record_number f = record_number g /\ sequence f = sequence g.
Proof.
  intros Hf Hg. split; [by intros ->|]. intros [Hr Hs].
  rewrite (frn_split f), (frn_split g) by done. by rewrite Hr, Hs.
Qed.
