(* ===== verification/Wtf8.v ===== *)
(** WTF-8 encoding of NTFS names: [crates/goz-core/src/wtf8.rs].

    [from_utf16] turns arbitrary [u16] sequences into bytes, [CodePoints]
    decodes bytes (total on any input), [to_utf16] goes back and
    [to_string_lossy] produces valid UTF-8.  The iterator state
    [(bytes, i)] of [CodePoints] is the suffix [bytes[i..]]. *)

From stdpp Require Import base list option.
From Stdlib Require Import NArith Lia.
From S2P Require Import Prelude.

(** ** Encoding *)

Definition is_high_surrogate (u : N) : bool := (0xD800 <=? u) && (u <? 0xDC00).
Definition is_low_surrogate (u : N) : bool := (0xDC00 <=? u) && (u <? 0xE000).

(** [encode_code_point], as the bytes it pushes. *)
Definition encode_code_point (cp : N) : list N :=
  if cp <? 0x80 then [as_u8 cp]
  else if cp <? 0x800 then
    [N.lor 0xC0 (as_u8 (N.shiftr cp 6)); N.lor 0x80 (as_u8 (N.land cp 0x3F))]
  else if cp <? 0x10000 then
    [N.lor 0xE0 (as_u8 (N.shiftr cp 12));
     N.lor 0x80 (as_u8 (N.land (N.shiftr cp 6) 0x3F));
     N.lor 0x80 (as_u8 (N.land cp 0x3F))]
  else
    [N.lor 0xF0 (as_u8 (N.shiftr cp 18));
     N.lor 0x80 (as_u8 (N.land (N.shiftr cp 12) 0x3F));
     N.lor 0x80 (as_u8 (N.land (N.shiftr cp 6) 0x3F));
     N.lor 0x80 (as_u8 (N.land cp 0x3F))].

(** The supplementary code point of a surrogate pair. *)
Definition pair_code_point (u lo : N) : N :=
  0x10000 + N.lor (N.shiftl (u - 0xD800) 10) (lo - 0xDC00).

(** The [while] loop of [from_utf16] from position [i] on: the bytes pushed and
    whether a lone surrogate was seen. *)
Fixpoint from_utf16_loop (units : list N) : list N * bool :=
  match units with
  | [] => ([], false)
  | u :: rest =>
      let single (lone : bool) :=
        let '(bs, l) := from_utf16_loop rest in
        (encode_code_point u ++ bs, lone || l) in
      if is_high_surrogate u then
        match rest with
        | lo :: rest' =>
            if is_low_surrogate lo then
              let '(bs, l) := from_utf16_loop rest' in
              (encode_code_point (pair_code_point u lo) ++ bs, l)
            else single true
        | [] => single true
        end
      else single (is_low_surrogate u)
  end.

(** [from_utf16(units, &mut out)]. *)
Definition from_utf16 (units out : list N) : list N * bool :=
  let '(bs, l) := from_utf16_loop units in (out ++ bs, l).

(** ** Decoding *)

(** Length and initial bits of a sequence, from its lead byte. *)
Definition lead (b : N) : option (nat * N) :=
  if b <=? 0x7F then Some (1%nat, b)
  else if (0xC0 <=? b) && (b <=? 0xDF) then Some (2%nat, N.land b 0x1F)
  else if (0xE0 <=? b) && (b <=? 0xEF) then Some (3%nat, N.land b 0x0F)
  else if (0xF0 <=? b) && (b <=? 0xF7) then Some (4%nat, N.land b 0x07)
  else None.

(** The loop [for k in 1..len] over the continuation bytes. *)
Fixpoint continuation (cs : list N) (cp : N) : option N :=
  match cs with
  | [] => Some cp
  | c :: cs' =>
      if N.land c 0xC0 =? 0x80
      then continuation cs' (N.lor (N.shiftl cp 6) (N.land c 0x3F))
      else None
  end.

(** [[0, 0, 0x80, 0x800, 0x10000][len]]. *)
Definition min_of_len (len : nat) : N :=
  match len with
  | 2%nat => 0x80
  | 3%nat => 0x800
  | 4%nat => 0x10000
  | _ => 0
  end.

(** [CodePoints::next] on the suffix still to read. *)
Definition code_points_next (s : list N) : option (N * list N) :=
  match s with
  | [] => None
  | b :: rest =>
      let bogus := Some (0xFFFD, rest) in
      match lead b with
      | None => bogus
      | Some (len, init) =>
          if (length s <? len)%nat then bogus
          else match continuation (take (len - 1) rest) init with
               | None => bogus
               | Some cp =>
                   if (cp <? min_of_len len) || (0x10FFFF <? cp) then bogus
                   else Some (cp, drop (len - 1) rest)
               end
      end
  end.

Fixpoint code_points_fuel (fuel : nat) (s : list N) : list N :=
  match fuel with
  | O => []
  | S fuel' =>
      match code_points_next s with
      | None => []
      | Some (cp, s') => cp :: code_points_fuel fuel' s'
      end
  end.

(** Collecting the iterator: a step consumes a byte, so its length is fuel
    enough ([code_points_unfold]). *)
Definition code_points (s : list N) : list N := code_points_fuel (length s) s.

Definition utf16_of_code_point (cp : N) : list N :=
  if cp <? 0x10000 then [as_u16 cp]
  else let v := cp - 0x10000 in
       [0xD800 + as_u16 (N.shiftr v 10); 0xDC00 + as_u16 (N.land v 0x3FF)].

Definition to_utf16 (s : list N) : list N :=
  flat_map utf16_of_code_point (code_points s).

(** ** Lossy strings *)

(** [char::from_u32]: a Unicode scalar value. *)
Definition is_scalar (cp : N) : bool :=
  (cp <? 0xD800) || ((0xE000 <=? cp) && (cp <=? 0x10FFFF)).

Definition in_range (lo hi b : N) : bool := (lo <=? b) && (b <=? hi).

(** [core::str::from_utf8(bytes).is_ok()]: the well-formed byte sequences of
    the Unicode standard (table 3-7). *)
Fixpoint utf8_valid (s : list N) : bool :=
  match s with
  | [] => true
  | b :: s1 =>
      if b <=? 0x7F then utf8_valid s1
      else if in_range 0xC2 0xDF b then
        match s1 with
        | c1 :: s2 => in_range 0x80 0xBF c1 && utf8_valid s2
        | _ => false
        end
      else if in_range 0xE0 0xEF b then
        match s1 with
        | c1 :: c2 :: s3 =>
            in_range (if b =? 0xE0 then 0xA0 else 0x80) (if b =? 0xED then 0x9F else 0xBF) c1
            && in_range 0x80 0xBF c2 && utf8_valid s3
        | _ => false
        end
      else if in_range 0xF0 0xF4 b then
        match s1 with
        | c1 :: c2 :: c3 :: s4 =>
            in_range (if b =? 0xF0 then 0x90 else 0x80) (if b =? 0xF4 then 0x8F else 0xBF) c1
            && in_range 0x80 0xBF c2 && in_range 0x80 0xBF c3 && utf8_valid s4
        | _ => false
        end
      else false
  end.

(** [to_string_lossy]: a [String] is its UTF-8 bytes. *)
Definition to_string_lossy (s : list N) : list N :=
  if utf8_valid s then s
  else flat_map (fun cp => encode_code_point (if is_scalar cp then cp else 0xFFFD))
         (code_points s).

(** ** The encoder in arithmetic *)

Lemma land_3f x : N.land x 0x3F = x mod 64.
Proof. change 0x3F with (N.ones 6). by rewrite N.land_ones. Qed.

Lemma lor_base base n x :
  check_below n (fun y => N.lor base y =? base + y) = true -> x < n ->
  N.lor base x = base + x.
Proof. intros Hc Hx. apply N.eqb_eq. by apply (check_below_spec n _ x Hc). Qed.

Lemma lor_c0 x : x < 32 -> N.lor 0xC0 x = 0xC0 + x.
Proof. by apply lor_base. Qed.
Lemma lor_e0 x : x < 16 -> N.lor 0xE0 x = 0xE0 + x.
Proof. by apply lor_base. Qed.
Lemma lor_f0 x : x < 8 -> N.lor 0xF0 x = 0xF0 + x.
Proof. by apply lor_base. Qed.
Lemma lor_80 x : x < 64 -> N.lor 0x80 x = 0x80 + x.
Proof. by apply lor_base. Qed.

(** [hi << 6 | lo] with a 6-bit [lo] is a sum. *)
Lemma shift6_lor hi lo : lo < 64 -> N.lor (N.shiftl hi 6) lo = hi * 64 + lo.
Proof.
  intros Hlo. rewrite N.shiftl_mul_pow2. change (2 ^ 6) with 64.
  rewrite <- (N.mod_small lo 64) at 1 by done. rewrite <- land_3f.
  rewrite <- N.lxor_lor.
  - rewrite <- N.add_nocarry_lxor; [by rewrite land_3f, N.mod_small|].
    apply N.bits_inj. intros i. rewrite N.bits_0, !N.land_spec.
    change 0x3F with (N.ones 6). change 64 with (2 ^ 6).
    destruct (N.lt_ge_cases i 6).
    + by rewrite N.mul_pow2_bits_low.
    + rewrite N.ones_spec_high by done. by rewrite !andb_false_r.
  - apply N.bits_inj. intros i. rewrite N.bits_0, !N.land_spec.
    change 0x3F with (N.ones 6). change 64 with (2 ^ 6).
    destruct (N.lt_ge_cases i 6).
    + by rewrite N.mul_pow2_bits_low.
    + rewrite N.ones_spec_high by done. by rewrite !andb_false_r.
Qed.

Ltac Zify.zify_post_hook ::= Z.to_euclidean_division_equations.

Lemma encode_code_point_arith cp :
  cp <= 0x10FFFF ->
  encode_code_point cp =
    if cp <? 0x80 then [cp]
    else if cp <? 0x800 then [0xC0 + cp / 64; 0x80 + cp mod 64]
    else if cp <? 0x10000 then [0xE0 + cp / 4096; 0x80 + cp / 64 mod 64; 0x80 + cp mod 64]
    else [0xF0 + cp / 262144; 0x80 + cp / 4096 mod 64; 0x80 + cp / 64 mod 64; 0x80 + cp mod 64].
Proof.
  intros Hcp. unfold encode_code_point, as_u8.
  rewrite !land_3f, !N.shiftr_div_pow2.
  change (2 ^ 6) with 64. change (2 ^ 12) with 4096. change (2 ^ 18) with 262144.
  destruct (N.ltb_spec cp 0x80); [f_equal; apply N.mod_small; lia|].
  destruct (N.ltb_spec cp 0x800).
  { rewrite !(N.mod_small _ 256) by lia. rewrite lor_c0, lor_80 by lia. done. }
  destruct (N.ltb_spec cp 0x10000).
  { rewrite !(N.mod_small _ 256) by lia. rewrite lor_e0, !lor_80 by lia. done. }
  rewrite !(N.mod_small _ 256) by lia. rewrite lor_f0, !lor_80 by lia. done.
Qed.

(** ** The decoder in arithmetic *)

Lemma is_continuation_spec c :
  is_byte c -> (N.land c 0xC0 =? 0x80) = (0x80 <=? c) && (c <? 0xC0).
Proof.
  intros Hc. apply eqb_prop.
  by apply (check_below_spec 256
    (fun c => Bool.eqb (N.land c 0xC0 =? 0x80) ((0x80 <=? c) && (c <? 0xC0)))).
Qed.

Lemma continuation_cons c cs cp :
  is_byte c ->
  continuation (c :: cs) cp =
    if (0x80 <=? c) && (c <? 0xC0) then continuation cs (cp * 64 + (c - 0x80)) else None.
Proof.
  intros Hc. simpl. rewrite is_continuation_spec, land_3f by done.
  destruct (N.leb_spec 0x80 c), (N.ltb_spec c 0xC0); simpl; try done.
  rewrite shift6_lor by (apply N.mod_lt; lia). do 2 f_equal. lia.
Qed.

Lemma lead_spec b :
  is_byte b ->
  lead b = if b <? 0x80 then Some (1%nat, b)
           else if b <? 0xC0 then None
           else if b <? 0xE0 then Some (2%nat, b - 0xC0)
           else if b <? 0xF0 then Some (3%nat, b - 0xE0)
           else if b <? 0xF8 then Some (4%nat, b - 0xF0)
           else None.
Proof.
  intros Hb. unfold lead, is_byte in *.
  change 0x1F with (N.ones 5). change 0x0F with (N.ones 4). change 0x07 with (N.ones 3).
  rewrite !N.land_ones. change (2 ^ 5) with 32. change (2 ^ 4) with 16. change (2 ^ 3) with 8.
  repeat match goal with
  | |- context [?x <=? ?y] => destruct (N.leb_spec x y)
  | |- context [?x <? ?y] => destruct (N.ltb_spec x y)
  end; simpl; try lia; try done; do 2 f_equal; lia.
Qed.

Lemma code_points_next_encode cp rest :
  cp <= 0x10FFFF ->
  code_points_next (encode_code_point cp ++ rest) = Some (cp, rest).
Proof.
  intros Hcp. rewrite encode_code_point_arith by done.
  assert (Hb : forall c, c < 256 -> is_byte c) by done.
  split_cmp; simpl app; unfold code_points_next; rewrite lead_spec by (apply Hb; lia);
    split_cmp; simpl length; simpl Nat.ltb; cbv iota; simpl take; simpl drop;
    rewrite ?continuation_cons by (apply Hb; lia);
    split_cmp; simpl andb; cbv iota; simpl continuation; cbv iota;
    simpl min_of_len; split_cmp; simpl; do 3 f_equal; lia.
Qed.

(** Equality of explicit byte lists, component by component. *)
Ltac bytes_eq := simpl; repeat (apply (f_equal2 cons); [lia|]); done.

(** Reads one continuation byte in [Hn]; a bogus one is closed by [auto]. *)
Ltac read_continuation Hn c :=
  rewrite continuation_cons in Hn by done;
  destruct ((0x80 <=? c) && (c <? 0xC0)) eqn:?; [|by auto].
(** The final minimality check in [Hn], and the encoding it determines. *)
Ltac read_minimal Hn :=
  simpl continuation in Hn; cbv iota in Hn;
  destruct (_ || _) eqn:? in Hn; [by auto|]; simplify_eq Hn; intros <- <-; left;
  simpl min_of_len in *; simpl_cmp; rewrite encode_code_point_arith by lia;
  split_cmp; split; [bytes_eq|lia].
Ltac reduce_next Hn :=
  simpl length in Hn; simpl Nat.ltb in Hn; cbv iota in Hn; simpl take in Hn; simpl drop in Hn.

(** A step either reads exactly the shortest encoding of the code point it
    yields, or yields U+FFFD for one byte. *)
Lemma code_points_next_inv s cp s' :
  is_bytes s -> code_points_next s = Some (cp, s') ->
  (s = encode_code_point cp ++ s' /\ cp <= 0x10FFFF) \/ (cp = 0xFFFD /\ exists b, s = b :: s').
Proof.
  intros Hs Hn. destruct s as [|b rest]; [done|].
  apply Forall_cons_1 in Hs as [Hb Hrest]. unfold code_points_next in Hn.
  rewrite lead_spec in Hn by done.
  assert (Hbogus : Some (0xFFFD, rest) = Some (cp, s') ->
    (b :: rest = encode_code_point cp ++ s' /\ cp <= 0x10FFFF) \/
    (cp = 0xFFFD /\ exists b0, b :: rest = b0 :: s')) by (intros [= <- <-]; eauto).
  destruct (N.ltb_spec b 0x80).
  { simpl in Hn. revert Hn. split_cmp. simpl. intros [= <- <-]. left.
    rewrite encode_code_point_arith by lia. split_cmp. done. }
  destruct (N.ltb_spec b 0xC0); [by auto|].
  destruct (N.ltb_spec b 0xE0); [|destruct (N.ltb_spec b 0xF0); [|destruct (N.ltb_spec b 0xF8)]].
  - destruct rest as [|c1 rest]; [by auto|]. apply Forall_cons_1 in Hrest as [? ?].
    reduce_next Hn. read_continuation Hn c1. read_minimal Hn.
  - destruct rest as [|c1 [|c2 rest]]; [by auto|by auto|].
    apply Forall_cons_1 in Hrest as [? [? ?]%Forall_cons_1].
    reduce_next Hn. read_continuation Hn c1. read_continuation Hn c2. read_minimal Hn.
  - destruct rest as [|c1 [|c2 [|c3 rest]]]; [by auto|by auto|by auto|].
    apply Forall_cons_1 in Hrest as [? [? [? ?]%Forall_cons_1]%Forall_cons_1].
    reduce_next Hn. read_continuation Hn c1. read_continuation Hn c2. read_continuation Hn c3.
    read_minimal Hn.
  - by auto.
Qed.

(** ** Collecting code points *)

Lemma code_points_next_shorter s cp s' :
  code_points_next s = Some (cp, s') -> (length s' < length s)%nat.
Proof.
  unfold code_points_next. destruct s as [|b rest]; [done|].
  intros H. repeat case_match; simplify_eq; simpl; rewrite ?length_drop; lia.
Qed.

Lemma code_points_fuel_enough n m s :
  (length s <= n)%nat -> (length s <= m)%nat -> code_points_fuel n s = code_points_fuel m s.
Proof.
  revert m s. induction n as [|n IH]; intros m s Hn Hm.
  { destruct s, m; simpl in *; done || lia. }
  destruct m as [|m]; [destruct s; simpl in *; done || lia|].
  simpl. destruct (code_points_next s) as [[cp s']|] eqn:E; [|done].
  apply code_points_next_shorter in E. f_equal. apply IH; lia.
Qed.

Lemma code_points_unfold s :
  code_points s =
    match code_points_next s with Some (cp, s') => cp :: code_points s' | None => [] end.
Proof.
  unfold code_points. destruct s as [|b s]; [done|].
  cbn [length code_points_fuel]. destruct (code_points_next (b :: s)) as [[cp s']|] eqn:E; [|done].
  apply code_points_next_shorter in E. simpl in E. f_equal. apply code_points_fuel_enough; lia.
Qed.

Lemma code_points_encode cp rest :
  cp <= 0x10FFFF -> code_points (encode_code_point cp ++ rest) = cp :: code_points rest.
Proof. intros. by rewrite code_points_unfold, code_points_next_encode. Qed.

(** Induction on the number of units, for the loops that read one or two. *)
Lemma units_ind (P : list N -> Prop) :
  P [] ->
  (forall u rest, P rest -> (forall lo rest', rest = lo :: rest' -> P rest') -> P (u :: rest)) ->
  forall units, P units.
Proof.
  intros H0 Hstep units.
  enough (P units /\ forall lo rest', units = lo :: rest' -> P rest') by tauto.
  induction units as [|u rest [IH1 IH2]]; split; [done|done| |].
  - apply Hstep; auto.
  - intros ?? [= <- <-]. done.
Qed.

Lemma from_utf16_loop_single u rest :
  (is_high_surrogate u = true -> forall lo rest', rest = lo :: rest' -> is_low_surrogate lo = false) ->
  from_utf16_loop (u :: rest) =
    (encode_code_point u ++ (from_utf16_loop rest).1,
     is_high_surrogate u || is_low_surrogate u || (from_utf16_loop rest).2).
Proof.
  intros Hs. cbn [from_utf16_loop]. destruct (is_high_surrogate u) eqn:Hh.
  - simpl. destruct rest as [|lo rest']; [done|]. rewrite (Hs eq_refl lo rest') by done.
    by destruct (from_utf16_loop (lo :: rest')).
  - simpl. by destruct (from_utf16_loop rest).
Qed.

Lemma from_utf16_loop_pair u lo rest :
  is_high_surrogate u = true -> is_low_surrogate lo = true ->
  from_utf16_loop (u :: lo :: rest) =
    (encode_code_point (pair_code_point u lo) ++ (from_utf16_loop rest).1, (from_utf16_loop rest).2).
Proof. intros Hu Hlo. cbn [from_utf16_loop]. rewrite Hu, Hlo. by destruct (from_utf16_loop rest). Qed.

(** The pair case analysis of every induction over [from_utf16_loop]. *)
Lemma pair_dec u rest :
  (is_high_surrogate u = true /\ exists lo rest', rest = lo :: rest' /\ is_low_surrogate lo = true) \/
  (is_high_surrogate u = true -> forall lo rest', rest = lo :: rest' -> is_low_surrogate lo = false).
Proof.
  destruct (is_high_surrogate u); [|by right].
  destruct rest as [|lo rest']; [right; naive_solver|].
  destruct (is_low_surrogate lo) eqn:E; [left|right]; naive_solver.
Qed.

Lemma lor_shift10 hi lo : hi < 1024 -> lo < 1024 -> N.lor (N.shiftl hi 10) lo = hi * 1024 + lo.
Proof.
  intros Hhi Hlo. rewrite N.shiftl_mul_pow2. change (2 ^ 10) with 1024.
  assert (Hd : N.land (hi * 1024) lo = 0).
  { apply N.bits_inj. intros i. rewrite N.bits_0, N.land_spec. change 1024 with (2 ^ 10) in *.
    destruct (N.lt_ge_cases i 10).
    - by rewrite N.mul_pow2_bits_low.
    - rewrite <- (N.mod_small lo (2 ^ 10)), N.mod_pow2_bits_high by done. apply andb_false_r. }
  rewrite <- N.lxor_lor by done. by rewrite <- N.add_nocarry_lxor.
Qed.

Lemma pair_code_point_arith u lo :
  is_high_surrogate u = true -> is_low_surrogate lo = true ->
  pair_code_point u lo = 0x10000 + ((u - 0xD800) * 1024 + (lo - 0xDC00)) /\
  0x10000 <= pair_code_point u lo <= 0x10FFFF /\
  utf16_of_code_point (pair_code_point u lo) = [u; lo].
Proof.
  unfold is_high_surrogate, is_low_surrogate. intros Hu Hl. simpl_cmp.
  assert (E : pair_code_point u lo = 0x10000 + ((u - 0xD800) * 1024 + (lo - 0xDC00)))
    by (unfold pair_code_point; rewrite lor_shift10 by lia; done).
  split; [done|]. rewrite E. split; [lia|].
  unfold utf16_of_code_point, as_u16. split_cmp.
  change 0x3FF with (N.ones 10). rewrite N.land_ones, N.shiftr_div_pow2. change (2 ^ 10) with 1024.
  bytes_eq.
Qed.

Definition is_units (l : list N) : Prop := Forall (fun u => u < 65536) l.

Lemma to_utf16_encode_app cp rest :
  cp <= 0x10FFFF -> to_utf16 (encode_code_point cp ++ rest) = utf16_of_code_point cp ++ to_utf16 rest.
Proof. intros. unfold to_utf16. by rewrite code_points_encode. Qed.

(** ** Validity of the encoder's output *)

Lemma in_range_true lo hi b : lo <= b <= hi -> in_range lo hi b = true.
Proof. intros [??]. unfold in_range. by rewrite (proj2 (N.leb_le _ _)), (proj2 (N.leb_le _ _)). Qed.
Lemma in_range_false lo hi b : b < lo \/ hi < b -> in_range lo hi b = false.
Proof.
  unfold in_range. intros [?|?].
  - by rewrite (proj2 (N.leb_gt _ _)).
  - rewrite (proj2 (N.leb_gt b hi)) by done. apply andb_false_r.
Qed.

Lemma utf8_valid_2 b c1 s :
  0xC2 <= b < 0xE0 -> 0x80 <= c1 < 0xC0 -> utf8_valid (b :: c1 :: s) = utf8_valid s.
Proof.
  intros. cbn [utf8_valid]. rewrite (proj2 (N.leb_gt b _)) by lia.
  rewrite (in_range_true 0xC2), (in_range_true 0x80) by lia. done.
Qed.

Lemma utf8_valid_3 b c1 c2 s :
  0xE0 <= b < 0xF0 -> 0x80 <= c1 < 0xC0 -> 0x80 <= c2 < 0xC0 -> (b = 0xE0 -> 0xA0 <= c1) ->
  utf8_valid (b :: c1 :: c2 :: s) = ((b <? 0xED) || (0xED <? b) || (c1 <? 0xA0)) && utf8_valid s.
Proof.
  intros. cbn [utf8_valid]. rewrite (proj2 (N.leb_gt b _)) by lia.
  rewrite (in_range_false 0xC2), (in_range_true 0xE0), (in_range_true 0x80 _ c2) by lia.
  rewrite andb_true_r. f_equal.
  destruct (N.eqb_spec b 0xE0), (N.eqb_spec b 0xED); subst; try lia;
    unfold in_range; split_cmp; done.
Qed.

Lemma utf8_valid_4 b c1 c2 c3 s :
  0xF0 <= b < 0xF5 -> 0x80 <= c1 < 0xC0 -> 0x80 <= c2 < 0xC0 -> 0x80 <= c3 < 0xC0 ->
  (b = 0xF0 -> 0x90 <= c1) -> (b = 0xF4 -> c1 < 0x90) ->
  utf8_valid (b :: c1 :: c2 :: c3 :: s) = utf8_valid s.
Proof.
  intros. cbn [utf8_valid]. rewrite (proj2 (N.leb_gt b _)) by lia.
  rewrite (in_range_false 0xC2), (in_range_false 0xE0), (in_range_true 0xF0),
    (in_range_true 0x80 _ c2), (in_range_true 0x80 _ c3) by lia.
  rewrite in_range_true; [done|].
  destruct (N.eqb_spec b 0xF0), (N.eqb_spec b 0xF4); subst; lia.
Qed.

Lemma utf8_valid_encode_app cp rest :
  cp <= 0x10FFFF -> utf8_valid (encode_code_point cp ++ rest) = is_scalar cp && utf8_valid rest.
Proof.
  intros Hcp. rewrite encode_code_point_arith by done. unfold is_scalar.
  destruct (N.ltb_spec cp 0x80).
  { cbn [app utf8_valid]. rewrite (proj2 (N.leb_le cp _)), (proj2 (N.ltb_lt cp _)) by lia. done. }
  destruct (N.ltb_spec cp 0x800).
  { cbn [app]. rewrite utf8_valid_2 by lia. rewrite (proj2 (N.ltb_lt cp _)) by lia. done. }
  destruct (N.ltb_spec cp 0x10000).
  { cbn [app]. rewrite utf8_valid_3 by lia. f_equal.
    rewrite (proj2 (N.leb_le cp 0x10FFFF)), andb_true_r by lia. 
    destruct (N.ltb_spec cp 0xD800), (N.leb_spec 0xE000 cp); simpl; split_cmp; done. }
  cbn [app]. rewrite utf8_valid_4 by lia.
  rewrite (proj2 (N.leb_le cp 0x10FFFF)), (proj2 (N.leb_le 0xE000 cp)) by lia.
  by rewrite orb_true_r.
Qed.

Lemma from_utf16_loop_flag units :
  is_units units -> (from_utf16_loop units).2 = negb (utf8_valid (from_utf16_loop units).1).
Proof.
  induction units as [|u rest IH IH2] using units_ind; intros Hu; [done|].
  apply Forall_cons_1 in Hu as [Hu Hrest].
  destruct (pair_dec u rest) as [(Hh & lo & rest' & -> & Hlo)|Hs].
  - rewrite from_utf16_loop_pair by done. simpl.
    destruct (pair_code_point_arith u lo) as (_ & Hr & _); [done..|].
    rewrite utf8_valid_encode_app by lia. unfold is_scalar.
    rewrite (proj2 (N.leb_le 0xE000 _)), (proj2 (N.leb_le _ 0x10FFFF)), orb_true_r by lia.
    simpl. apply (IH2 lo rest'); [done|]. by apply Forall_cons_1 in Hrest as [_ ?].
  - rewrite from_utf16_loop_single by done. simpl.
    rewrite utf8_valid_encode_app by lia. rewrite IH, negb_andb by done. f_equal.
    unfold is_high_surrogate, is_low_surrogate, is_scalar. split_cmp; done.
Qed.

Lemma to_utf16_from_utf16_loop units :
  is_units units -> to_utf16 (from_utf16_loop units).1 = units.
Proof.
  induction units as [|u rest IH IH2] using units_ind; intros Hu; [done|].
  apply Forall_cons_1 in Hu as [Hu Hrest].
  destruct (pair_dec u rest) as [(Hh & lo & rest' & -> & Hlo)|Hs].
  - rewrite from_utf16_loop_pair by done. simpl.
    destruct (pair_code_point_arith u lo) as (_ & ? & Hp); [done..|].
    rewrite to_utf16_encode_app, Hp by lia. apply Forall_cons_1 in Hrest as [_ Hrest].
    simpl. do 2 f_equal. by eapply IH2.
  - rewrite from_utf16_loop_single by done. simpl.
    rewrite to_utf16_encode_app by lia. rewrite IH by done.
    unfold utf16_of_code_point, as_u16. split_cmp. by rewrite N.mod_small.
Qed.

(** ** Theorems *)

(** C37: converting any UTF-16 name, unpaired surrogates included, to WTF-8 and
    back gives exactly the original code units: the conversion is total and
    lossless. *)
Theorem utf16_round_trip units :
  is_units units -> to_utf16 (from_utf16 units []).1 = units.
Proof.
  intros Hu. pose proof (to_utf16_from_utf16_loop units Hu) as H. unfold from_utf16.
  by destruct (from_utf16_loop units).
Qed.

Lemma utf16_round_trip_witness :
  is_units [0x61; 0xD800; 0xD834; 0xDD1E; 0xDC00] /\
  to_utf16 (from_utf16 [0x61; 0xD800; 0xD834; 0xDD1E; 0xDC00] []).1
    = [0x61; 0xD800; 0xD834; 0xDD1E; 0xDC00].
Proof.
  assert (H : is_units [0x61; 0xD800; 0xD834; 0xDD1E; 0xDC00])
    by (unfold is_units; repeat constructor).
  split; [exact H|apply (utf16_round_trip _ H)].
Defined.

(** The flag [from_utf16] returns is exactly "the bytes pushed are not
    valid UTF-8": it is set if and only if a lone surrogate occurred. *)
Theorem from_utf16_flag units :
  is_units units -> (from_utf16 units []).2 = negb (utf8_valid (from_utf16 units []).1).
Proof.
  intros Hu. pose proof (from_utf16_loop_flag units Hu) as H. unfold from_utf16.
  by destruct (from_utf16_loop units).
Qed.

Lemma from_utf16_flag_witness :
  is_units [0x61; 0xD800] /\
  (from_utf16 [0x61; 0xD800] []).2 = negb (utf8_valid (from_utf16 [0x61; 0xD800] []).1).
Proof.
  assert (H : is_units [0x61; 0xD800]) by (unfold is_units; repeat constructor).
  split; [exact H|apply (from_utf16_flag _ H)].
Defined.

(** On arbitrary untrusted bytes the decoder terminates, and every step
    that is not a one-byte U+FFFD replacement consumes exactly the shortest
    encoding of a code point in range, so an overlong form never smuggles in a
    separator. *)
Theorem code_points_canonical s cp s' :
  is_bytes s -> code_points_next s = Some (cp, s') ->
  code_points s = cp :: code_points s' /\ (length s' < length s)%nat /\
  ((s = encode_code_point cp ++ s' /\ cp <= 0x10FFFF) \/
   (cp = 0xFFFD /\ exists b, s = b :: s')).
Proof.
  intros Hs Hn. split; [by rewrite code_points_unfold, Hn|].
  split; [by eapply code_points_next_shorter|by apply code_points_next_inv].
Qed.

Lemma code_points_canonical_witness :
  code_points [0xC0; 0xAF] = 0xFFFD :: code_points [0xAF].
Proof.
  apply (code_points_canonical [0xC0; 0xAF] 0xFFFD [0xAF]); [|reflexivity].
  unfold is_bytes, is_byte. repeat constructor.
Defined.

(** [to_string_lossy] returns valid UTF-8 for any bytes, and the bytes
    themselves when they already are. *)
Theorem to_string_lossy_valid s :
  utf8_valid (to_string_lossy s) = true /\ (utf8_valid s = true -> to_string_lossy s = s).
Proof.
  unfold to_string_lossy. destruct (utf8_valid s) eqn:E; [done|]. split; [|done].
  induction (code_points s) as [|cp cps IH]; [done|]. simpl.
  assert (Hsc : is_scalar (if is_scalar cp then cp else 0xFFFD) = true)
    by (by destruct (is_scalar cp) eqn:?).
  rewrite utf8_valid_encode_app; [by rewrite Hsc|].
  revert Hsc. generalize (if is_scalar cp then cp else 0xFFFD). unfold is_scalar. intros c Hc.
  apply orb_true_iff in Hc as [Hc|Hc]; simpl_cmp; lia.
Qed.

(** The decoder never yields a value above U+10FFFF. *)
Lemma code_points_bound s : is_bytes s -> Forall (fun cp => cp <= 0x10FFFF) (code_points s).
Proof.
  remember (length s) as n eqn:Hn. revert s Hn.
  induction (lt_wf n) as [n _ IH]; intros s -> Hs.
  rewrite code_points_unfold. destruct (code_points_next s) as [[cp s']|] eqn:E; [|constructor].
  pose proof (code_points_next_shorter _ _ _ E) as Hlt.
  destruct (code_points_next_inv s cp s' Hs E) as [[-> ?]|[-> [b ->]]].
  - constructor; [done|]. eapply IH; [exact Hlt|done|]. by apply Forall_app in Hs as [_ ?].
  - constructor; [lia|]. eapply IH; [exact Hlt|done|]. by apply Forall_cons_1 in Hs as [_ ?].
Qed.

Lemma is_bytes_encode cp : cp <= 0x10FFFF -> is_bytes (encode_code_point cp).
Proof.
  intros. rewrite encode_code_point_arith by done. unfold is_bytes, is_byte.
  split_cmp; repeat constructor; lia.
Qed.
