(* ===== verification/UsnRecord.v ===== *)
(** USN record parsing and ENUM/READ buffer walking:
    [crates/goz-core/src/usn/record.rs].

    Both ioctls return one leading 8-byte value and then packed records, each
    starting on an 8-byte boundary.  Offsets and lengths are [usize]s ([N] with
    [checked_add]); a [zerocopy] view of a fixed header is a set of
    little-endian reads guarded by the length test [ref_from_prefix] makes. *)

From stdpp Require Import base list option.
From Stdlib Require Import NArith ZArith Lia.
From S2P Require Import Prelude Types Wtf8.

Definition USN_REASON_DATA_OVERWRITE : N := 0x00000001.
Definition USN_REASON_DATA_EXTEND : N := 0x00000002.
Definition USN_REASON_DATA_TRUNCATION : N := 0x00000004.
Definition USN_REASON_FILE_CREATE : N := 0x00000100.
Definition USN_REASON_FILE_DELETE : N := 0x00000200.
Definition USN_REASON_RENAME_OLD_NAME : N := 0x00001000.
Definition USN_REASON_RENAME_NEW_NAME : N := 0x00002000.
Definition USN_REASON_BASIC_INFO_CHANGE : N := 0x00008000.
Definition USN_REASON_HARD_LINK_CHANGE : N := 0x00010000.
Definition USN_REASON_CLOSE : N := 0x80000000.
Definition FILE_ATTRIBUTE_DIRECTORY : N := 0x10.
Definition LEADING_VALUE_LEN : N := 8.

Record ParsedUsnRecord := {
  major_version : N;
  frn : Frn;
  parent_frn : Frn;
  usn : Z;
  timestamp_ft : Z;
  reason : N;
  attributes : N;
  name : list N;
  name_lossy : bool
}.

Definition is_dir (r : ParsedUsnRecord) : bool :=
  negb (N.land (attributes r) FILE_ATTRIBUTE_DIRECTORY =? 0).

Inductive WalkError :=
| ZeroRecordLength (offset : N)
| RecordOverrun (offset : N)
| TruncatedHeader (offset : N)
| MalformedName (offset : N).

Record SkipCounts := { v4 : N; unknown_version : N }.
Record EnumWalk := {
  next_start_frn : N; enum_records : list ParsedUsnRecord; enum_skipped : SkipCounts }.
Record JournalWalk := {
  next_usn : Z; journal_records : list ParsedUsnRecord; journal_skipped : SkipCounts }.

(** Little-endian fields of a byte slice. *)
Definition u16_at (off : N) (l : list N) : N := le_decode (slice off 2 l).
Definition u32_at (off : N) (l : list N) : N := le_decode (slice off 4 l).
Definition u64_at (off : N) (l : list N) : N := le_decode (slice off 8 l).
Definition i64_at (off : N) (l : list N) : Z := i64_of_bits (u64_at off l).

(** [size_of] of the view structs. *)
Definition RawCommonHeader_size : N := 8.
Definition RawV2_size : N := 60.
Definition RawV3_size : N := 76.

(** [as_chunks::<2>().0.iter().map(u16::from_le_bytes)]: a trailing odd byte
    is not part of a chunk. *)
Fixpoint utf16le_units (l : list N) : list N :=
  match l with
  | lo :: hi :: l' => lo + 256 * hi :: utf16le_units l'
  | _ => []
  end.

Definition extract_name (rec : list N) (name_off name_len min_name_off offset : N)
  : result WalkError (list N * bool) :=
  if negb (name_len mod 2 =? 0) || (MAX_NAME_UTF16_BYTES <? name_len)
  then Err (MalformedName offset)
  else if name_off <? min_name_off then Err (MalformedName offset)
  else
    span_end <-? ok_or (MalformedName offset) (checked_add name_off name_len);
    if len rec <? span_end then Err (MalformedName offset)
    else Ok (from_utf16 (utf16le_units (slice name_off (span_end - name_off) rec)) []).

Definition parse_v2 (rec : list N) (offset : N) : result WalkError ParsedUsnRecord :=
  if len rec <? RawV2_size then Err (TruncatedHeader offset)
  else
    '(nm, lossy) <-? extract_name rec (u16_at 58 rec) (u16_at 56 rec) RawV2_size offset;
    Ok {| major_version := 2;
          frn := u64_at 8 rec;
          parent_frn := u64_at 16 rec;
          usn := i64_at 24 rec;
          timestamp_ft := i64_at 32 rec;
          reason := u32_at 40 rec;
          attributes := u32_at 52 rec;
          name := nm;
          name_lossy := lossy |}.

Definition parse_v3 (rec : list N) (offset : N) : result WalkError ParsedUsnRecord :=
  if len rec <? RawV3_size then Err (TruncatedHeader offset)
  else
    '(nm, lossy) <-? extract_name rec (u16_at 74 rec) (u16_at 72 rec) RawV3_size offset;
    Ok {| major_version := 3;
          frn := u64_at 8 rec;
          parent_frn := u64_at 24 rec;
          usn := i64_at 40 rec;
          timestamp_ft := i64_at 48 rec;
          reason := u32_at 56 rec;
          attributes := u32_at 68 rec;
          name := nm;
          name_lossy := lossy |}.

(** [usize::checked_next_multiple_of(8)]. *)
Definition checked_next_multiple_of_8 (x : N) : option N :=
  if x mod 8 =? 0 then Some x else checked_add x (8 - x mod 8).

(** The [while] loop of [walk_records] at offset [off].  [None] is out of
    fuel. *)
Fixpoint walk_records_loop (fuel : nat) (buf : list N) (off : N)
    (records : list ParsedUsnRecord) (skipped : SkipCounts)
  : option (result WalkError (list ParsedUsnRecord * SkipCounts)) :=
  match fuel with
  | O => None
  | S fuel' =>
      if len buf <? off + RawCommonHeader_size then Some (Ok (records, skipped))
      else
        let rec_len := u32_at off buf in
        if rec_len =? 0 then Some (Err (ZeroRecordLength off))
        else match checked_add off rec_len with
        | None => Some (Err (RecordOverrun off))
        | Some end_ =>
            if len buf <? end_ then Some (Err (RecordOverrun off))
            else
              let rec := slice off (end_ - off) buf in
              let step :=
                match u16_at (off + 4) buf with
                | 2 => r <-? parse_v2 rec off; Ok (records ++ [r], skipped)
                | 3 => r <-? parse_v3 rec off; Ok (records ++ [r], skipped)
                | 4 => Ok (records, {| v4 := v4 skipped + 1; unknown_version := unknown_version skipped |})
                | _ => Ok (records, {| v4 := v4 skipped; unknown_version := unknown_version skipped + 1 |})
                end in
              match step with
              | Err e => Some (Err e)
              | Ok (records', skipped') =>
                  match checked_next_multiple_of_8 end_ with
                  | Some next => walk_records_loop fuel' buf next records' skipped'
                  | None => Some (Ok (records', skipped'))
                  end
              end
        end
  end.

(** Each iteration consumes at least a byte, so the buffer's length is fuel
    enough ([walk_records_total]). *)
Definition walk_records (buf : list N)
  : option (result WalkError (list ParsedUsnRecord * SkipCounts)) :=
  walk_records_loop (S (length buf)) buf LEADING_VALUE_LEN [] {| v4 := 0; unknown_version := 0 |}.

Definition walk_enum_buffer (buf : list N) : option (result WalkError EnumWalk) :=
  if len buf <? 8 then Some (Err (TruncatedHeader 0))
  else
    r ← walk_records buf;
    Some ('(records, skipped) <-? r;
          Ok {| next_start_frn := u64_at 0 buf; enum_records := records; enum_skipped := skipped |}).

Definition walk_journal_buffer (buf : list N) : option (result WalkError JournalWalk) :=
  if len buf <? 8 then Some (Err (TruncatedHeader 0))
  else
    r ← walk_records buf;
    Some ('(records, skipped) <-? r;
          Ok {| next_usn := i64_at 0 buf; journal_records := records; journal_skipped := skipped |}).

(** ** Reading fields of a concatenation *)

Lemma slice_le n m v k : N.of_nat n = m -> slice 0 m (le_encode n v ++ k) = le_encode n v.
Proof. intros <-. apply slice_app_l. by rewrite len_le_encode. Qed.

Lemma u16_at_here v k : v < 65536 -> u16_at 0 (le_encode 2 v ++ k) = v.
Proof. intros. unfold u16_at. rewrite slice_le by done. by apply le_decode_encode. Qed.
Lemma u32_at_here v k : v < 4294967296 -> u32_at 0 (le_encode 4 v ++ k) = v.
Proof. intros. unfold u32_at. rewrite slice_le by done. by apply le_decode_encode. Qed.
Lemma u64_at_here v k : v < 18446744073709551616 -> u64_at 0 (le_encode 8 v ++ k) = v.
Proof. intros. unfold u64_at. rewrite slice_le by done. by apply le_decode_encode. Qed.
Lemma i64_at_here z k : in_i64 z -> i64_at 0 (le_encode 8 (i64_to_bits z) ++ k) = z.
Proof.
  intros. unfold i64_at. rewrite u64_at_here by apply i64_to_bits_bound. by apply i64_bits_roundtrip.
Qed.

Lemma u16_at_skip l k off : len l <= off -> u16_at off (l ++ k) = u16_at (off - len l) k.
Proof. intros. unfold u16_at. by rewrite slice_app_ge. Qed.
Lemma u32_at_skip l k off : len l <= off -> u32_at off (l ++ k) = u32_at (off - len l) k.
Proof. intros. unfold u32_at. by rewrite slice_app_ge. Qed.
Lemma u64_at_skip l k off : len l <= off -> u64_at off (l ++ k) = u64_at (off - len l) k.
Proof. intros. unfold u64_at. by rewrite slice_app_ge. Qed.
Lemma i64_at_skip l k off : len l <= off -> i64_at off (l ++ k) = i64_at (off - len l) k.
Proof. intros. unfold i64_at. by rewrite u64_at_skip. Qed.

(** Skips the fields in front of the one at a constant offset. *)
Ltac skip_fields :=
  repeat first
    [ rewrite u16_at_skip by (rewrite ?len_le_encode; vm_compute; congruence)
    | rewrite u32_at_skip by (rewrite ?len_le_encode; vm_compute; congruence)
    | rewrite u64_at_skip by (rewrite ?len_le_encode; vm_compute; congruence)
    | rewrite i64_at_skip by (rewrite ?len_le_encode; vm_compute; congruence) ];
  rewrite ?len_le_encode;
  repeat match goal with
  | |- context [?a - N.of_nat ?b] =>
      let v := eval vm_compute in (a - N.of_nat b) in change (a - N.of_nat b) with v
  end.

(** ** The wire format as an encoder *)

(** The ids of a version 2 or version 3 record: version 3 has 128-bit ids, of
    which the parser keeps the low halves. *)
Inductive WireIds := IdsV2 | IdsV3 (frn_high parent_high : N).

Record Wire := {
  w_ids : WireIds;
  w_minor : N; w_source : N; w_security : N;
  w_frn : N; w_parent : N; w_usn : Z; w_timestamp : Z; w_reason : N; w_attributes : N;
  w_units : list N
}.

Definition round8 (n : N) : N := (n + 7) / 8 * 8.
Definition units_bytes (units : list N) : list N := flat_map (le_encode 2) units.
Definition w_version (w : Wire) : N := match w_ids w with IdsV2 => 2 | IdsV3 _ _ => 3 end.
Definition w_header_len (w : Wire) : N :=
  match w_ids w with IdsV2 => RawV2_size | IdsV3 _ _ => RawV3_size end.
Definition w_record_len (w : Wire) : N := round8 (w_header_len w + 2 * len (w_units w)).

(** One record as NTFS writes it: the fixed header, the name, zero padding up
    to the 8-byte boundary. *)
Definition encode_wire (w : Wire) : list N :=
  le_encode 4 (w_record_len w) ++ le_encode 2 (w_version w) ++ le_encode 2 (w_minor w) ++
  match w_ids w with
  | IdsV2 => le_encode 8 (w_frn w) ++ le_encode 8 (w_parent w)
  | IdsV3 hi phi =>
      le_encode 8 (w_frn w) ++ le_encode 8 hi ++ le_encode 8 (w_parent w) ++ le_encode 8 phi
  end ++
  le_encode 8 (i64_to_bits (w_usn w)) ++ le_encode 8 (i64_to_bits (w_timestamp w)) ++
  le_encode 4 (w_reason w) ++ le_encode 4 (w_source w) ++ le_encode 4 (w_security w) ++
  le_encode 4 (w_attributes w) ++
  le_encode 2 (2 * len (w_units w)) ++ le_encode 2 (w_header_len w) ++
  units_bytes (w_units w) ++
  replicate (N.to_nat (w_record_len w - (w_header_len w + 2 * len (w_units w)))) 0.

(** The fields fit their widths and the name is an NTFS name. *)
Record wire_ok (w : Wire) : Prop := {
  wo_frn : w_frn w < 18446744073709551616;
  wo_parent : w_parent w < 18446744073709551616;
  wo_usn : in_i64 (w_usn w);
  wo_timestamp : in_i64 (w_timestamp w);
  wo_reason : w_reason w < 4294967296;
  wo_attributes : w_attributes w < 4294967296;
  wo_units : is_units (w_units w);
  wo_len : len (w_units w) <= 255
}.

(** What the parser must return for it. *)
Definition decoded (w : Wire) : ParsedUsnRecord :=
  {| major_version := w_version w; frn := w_frn w; parent_frn := w_parent w;
     usn := w_usn w; timestamp_ft := w_timestamp w; reason := w_reason w;
     attributes := w_attributes w;
     name := (from_utf16 (w_units w) []).1; name_lossy := (from_utf16 (w_units w) []).2 |}.

Lemma round8_bounds n : n <= round8 n /\ round8 n < n + 8 /\ round8 n mod 8 = 0.
Proof.
  unfold round8. split; [|split]; [lia|lia|]. rewrite N.mul_comm. 
  rewrite N.mul_comm. apply N.Div0.mod_mul.
Qed.

Lemma len_units_bytes units : len (units_bytes units) = 2 * len units.
Proof.
  induction units as [|u units IH]; [done|]. unfold units_bytes in *. cbn [flat_map].
  rewrite len_app, IH, len_cons, len_le_encode. lia.
Qed.

Lemma utf16le_units_bytes units : is_units units -> utf16le_units (units_bytes units) = units.
Proof.
  induction 1 as [|u units Hu Hus IH]; [done|].
  change (units_bytes (u :: units)) with ([u mod 256; u / 256 mod 256] ++ units_bytes units).
  cbn [app utf16le_units]. rewrite IH. f_equal. lia.
Qed.

Lemma len_encode_wire w : len (encode_wire w) = w_record_len w.
Proof.
  unfold encode_wire. destruct (w_ids w) eqn:E;
  rewrite !len_app, !len_le_encode, len_units_bytes; unfold len at 2; rewrite length_replicate;
  pose proof (round8_bounds (w_header_len w + 2 * len (w_units w))) as [H1 _];
  unfold w_record_len, w_header_len in *; rewrite E in *; unfold RawV2_size, RawV3_size in *; lia.
Qed.

Lemma slice_wire_name w :
  slice (w_header_len w) (2 * len (w_units w)) (encode_wire w) = units_bytes (w_units w).
Proof.
  unfold encode_wire, w_header_len. destruct (w_ids w);
  repeat (rewrite slice_app_ge by (rewrite ?len_app, ?len_le_encode; vm_compute; congruence));
  rewrite ?len_app, ?len_le_encode;
  (replace (_ - _) with 0 by reflexivity);
  apply slice_app_l; by rewrite len_units_bytes.
Qed.

Lemma extract_name_wire w off :
  wire_ok w ->
  extract_name (encode_wire w) (w_header_len w) (2 * len (w_units w)) (w_header_len w) off
    = Ok (from_utf16 (w_units w) []).
Proof.
  intros Hw. pose proof (wo_len w Hw) as Hl. unfold extract_name, MAX_NAME_UTF16_BYTES.
  rewrite (N.mul_comm 2), N.Div0.mod_mul, (N.mul_comm _ 2).
  rewrite (proj2 (N.ltb_ge 510 _)) by lia. simpl.
  rewrite N.ltb_irrefl. unfold checked_add.
  assert (w_header_len w <= 76) by (unfold w_header_len; destruct (w_ids w); done).
  rewrite (proj2 (N.leb_le _ usize_max)) by (unfold usize_max, u64_max; lia). simpl.
  rewrite len_encode_wire.
  pose proof (round8_bounds (w_header_len w + 2 * len (w_units w))) as [? _].
  rewrite (proj2 (N.ltb_ge (w_record_len w) _)) by (unfold w_record_len; lia).
  replace (w_header_len w + 2 * len (w_units w) - w_header_len w) with (2 * len (w_units w)) by lia.
  rewrite slice_wire_name, utf16le_units_bytes by apply Hw. done.
Qed.

(** Parsing one record of either version. *)
Definition parse_version (v : N) (rec : list N) (off : N) : result WalkError ParsedUsnRecord :=
  match v with 2 => parse_v2 rec off | _ => parse_v3 rec off end.

(** Reads the constant-offset field of a wire record. *)
Ltac wire_field E lem :=
  unfold encode_wire, w_header_len; rewrite E; rewrite <- ?app_assoc; skip_fields;
  apply lem; first [by apply i64_to_bits_bound | assumption | lia].

Lemma parse_wire w off :
  wire_ok w -> parse_version (w_version w) (encode_wire w) off = Ok (decoded w).
Proof.
  intros Hw. pose proof (extract_name_wire w off Hw) as Hn. pose proof (len_encode_wire w) as Hlen.
  pose proof (round8_bounds (w_header_len w + 2 * len (w_units w))) as [Hge _].
  destruct Hw as [? ? ? ? ? ? ? ?].
  unfold decoded, w_record_len, w_version, w_header_len in *.
  destruct (w_ids w) eqn:E; cbn [parse_version]; unfold parse_v2, parse_v3, RawV2_size, RawV3_size in *;
    (rewrite (proj2 (N.ltb_ge _ _)) by lia).
  - assert (u16_at 58 (encode_wire w) = 60) as -> by wire_field E u16_at_here.
    assert (u16_at 56 (encode_wire w) = 2 * len (w_units w)) as -> by wire_field E u16_at_here.
    rewrite Hn. destruct (from_utf16 (w_units w) []) as [nm lossy]. simpl. do 2 f_equal.
    + wire_field E u64_at_here.
    + wire_field E u64_at_here.
    + wire_field E i64_at_here.
    + wire_field E i64_at_here.
    + wire_field E u32_at_here.
    + wire_field E u32_at_here.
  - assert (u16_at 74 (encode_wire w) = 76) as -> by wire_field E u16_at_here.
    assert (u16_at 72 (encode_wire w) = 2 * len (w_units w)) as -> by wire_field E u16_at_here.
    rewrite Hn. destruct (from_utf16 (w_units w) []) as [nm lossy]. simpl. do 2 f_equal.
    + wire_field E u64_at_here.
    + wire_field E u64_at_here.
    + wire_field E i64_at_here.
    + wire_field E i64_at_here.
    + wire_field E u32_at_here.
    + wire_field E u32_at_here.
Qed.

Lemma w_record_len_bounds w :
  wire_ok w -> 60 <= w_record_len w < 600 /\ w_record_len w mod 8 = 0.
Proof.
  intros Hw. pose proof (wo_len w Hw).
  pose proof (round8_bounds (w_header_len w + 2 * len (w_units w))) as (? & ? & ?).
  assert (60 <= w_header_len w <= 76) by (unfold w_header_len; destruct (w_ids w); done).
  unfold w_record_len. split; [lia|done].
Qed.

Lemma checked_next_multiple_of_8_aligned x : x mod 8 = 0 -> checked_next_multiple_of_8 x = Some x.
Proof. unfold checked_next_multiple_of_8. by intros ->. Qed.

(** One iteration over a well-formed record. *)
Lemma walk_step fuel pre w rest records skipped :
  wire_ok w -> len pre mod 8 = 0 -> len (pre ++ encode_wire w ++ rest) <= usize_max ->
  walk_records_loop (S fuel) (pre ++ encode_wire w ++ rest) (len pre) records skipped =
  walk_records_loop fuel (pre ++ encode_wire w ++ rest) (len (pre ++ encode_wire w))
    (records ++ [decoded w]) skipped.
Proof.
  intros Hw Hpre Hmax. pose proof (w_record_len_bounds w Hw) as [Hlen Hmod].
  pose proof (len_encode_wire w) as Hlw. pose proof (parse_wire w (len pre) Hw) as Hparse.
  rewrite !len_app, Hlw in Hmax. cbn [walk_records_loop]. rewrite !len_app, Hlw.
  rewrite (proj2 (N.ltb_ge _ (_ + RawCommonHeader_size))) by (unfold RawCommonHeader_size; lia).
  rewrite u32_at_skip, N.sub_diag by lia.
  assert (u32_at 0 (encode_wire w ++ rest) = w_record_len w) as ->.
  { unfold encode_wire. rewrite <- ?app_assoc. apply u32_at_here. lia. }
  rewrite (proj2 (N.eqb_neq _ _)) by lia. unfold checked_add.
  rewrite (proj2 (N.leb_le _ usize_max)) by lia.
  rewrite (proj2 (N.ltb_ge _ (_ + w_record_len w))) by lia.
  rewrite slice_app_ge, N.sub_diag, slice_app_l by lia.
  rewrite u16_at_skip by lia. replace (len pre + 4 - len pre) with 4 by lia.
  assert (u16_at 4 (encode_wire w ++ rest) = w_version w) as ->.
  { unfold encode_wire. rewrite <- ?app_assoc. skip_fields. apply u16_at_here.
    unfold w_version. by destruct (w_ids w). }
  assert (Hal : (len pre + w_record_len w) mod 8 = 0) by lia.
  rewrite (checked_next_multiple_of_8_aligned _ Hal).
  unfold w_version in *. destruct (w_ids w) eqn:E; cbn [parse_version] in Hparse;
    rewrite Hparse; done.
Qed.

Lemma walk_all ws : Forall wire_ok ws -> forall fuel pre records skipped,
  len pre mod 8 = 0 -> len (pre ++ concat (map encode_wire ws)) <= usize_max ->
  walk_records_loop (S (length ws + fuel)) (pre ++ concat (map encode_wire ws)) (len pre) records skipped
    = Some (Ok (records ++ map decoded ws, skipped)).
Proof.
  induction 1 as [|w ws Hw Hws IH]; intros fuel pre records skipped Hpre Hmax.
  - cbn [map concat]. rewrite !app_nil_r. cbn [walk_records_loop].
    rewrite (proj2 (N.ltb_lt _ _)); [done|unfold RawCommonHeader_size; lia].
  - cbn [map concat length Nat.add] in *. rewrite walk_step by done. rewrite app_assoc.
    rewrite IH.
    + by rewrite <- app_assoc.
    + pose proof (w_record_len_bounds w Hw) as [_ ?]. rewrite len_app, len_encode_wire. lia.
    + by rewrite <- app_assoc.
Qed.

(** Enough fuel makes the loop return. *)
Lemma walk_records_loop_total fuel buf off records skipped :
  (N.to_nat (len buf - off) < fuel)%nat ->
  exists r, walk_records_loop fuel buf off records skipped = Some r.
Proof.
  revert off records skipped. induction fuel as [|fuel IH]; intros off records skipped Hf; [lia|].
  cbn [walk_records_loop]. destruct (N.ltb_spec (len buf) (off + RawCommonHeader_size)); [by eauto|].
  destruct (N.eqb_spec (u32_at off buf) 0); [by eauto|].
  unfold checked_add. destruct (_ <=? usize_max); [|by eauto].
  destruct (N.ltb_spec (len buf) (off + u32_at off buf)); [by eauto|].
  match goal with |- exists r, match ?st with _ => _ end = _ => destruct st as [[r' s']|]; [|by eauto] end.
  unfold checked_next_multiple_of_8, checked_add.
  assert (forall x, (N.to_nat (len buf - (off + u32_at off buf + x)) < fuel)%nat) as Hx.
  { intros x. unfold RawCommonHeader_size in *. lia. }
  destruct (_ =? 0); [|destruct (_ <=? usize_max); [|by eauto]].
  - apply IH. specialize (Hx 0). rewrite N.add_0_r in Hx. done.
  - apply IH, Hx.
Qed.

(** ** Invariants of the records returned *)

Lemma len_from_utf16_loop units : is_units units -> len (from_utf16_loop units).1 <= 3 * len units.
Proof.
  assert (He : forall cp, cp <= 0x10FFFF -> len (encode_code_point cp) <= if cp <? 0x10000 then 3 else 4).
  { intros cp Hcp. rewrite encode_code_point_arith by done. split_cmp; vm_compute; congruence. }
  induction units as [|u rest IH IH2] using units_ind; intros Hu; [done|].
  apply Forall_cons_1 in Hu as [Hu Hrest].
  destruct (pair_dec u rest) as [(Hh & lo & rest' & -> & Hlo)|Hs].
  - rewrite from_utf16_loop_pair by done. cbn [fst].
    destruct (pair_code_point_arith u lo) as (_ & Hr & _); [done..|].
    apply Forall_cons_1 in Hrest as [_ Hrest]. specialize (IH2 lo rest' eq_refl Hrest).
    specialize (He (pair_code_point u lo)). rewrite len_app, !len_cons.
    rewrite (proj2 (N.ltb_ge _ _)) in He by lia. lia.
  - rewrite from_utf16_loop_single by done. cbn [fst]. specialize (IH Hrest).
    specialize (He u). rewrite (proj2 (N.ltb_lt _ _)) in He by lia. rewrite len_app, len_cons. lia.
Qed.

Lemma utf16le_units_bounds n l :
  (length l < n)%nat -> is_bytes l -> is_units (utf16le_units l) /\ 2 * len (utf16le_units l) <= len l.
Proof.
  revert l. induction n as [|n IH]; intros l Hn Hl; [lia|].
  destruct l as [|lo [|hi l]]; [by (split; [apply Forall_nil_2|unfold len; simpl; lia])..|]. cbn [utf16le_units].
  apply Forall_cons_1 in Hl as [Hlo [Hhi Hl]%Forall_cons_1]. simpl in Hn.
  destruct (IH l) as [H1 H2]; [lia|done|]. rewrite !len_cons. unfold is_byte in *.
  split; [|lia]. constructor; [lia|done].
Qed.

(** The widths a parsed record's fields have, and the bound on its name. *)
Record record_ok (r : ParsedUsnRecord) : Prop := {
  ro_frn : frn r < 18446744073709551616;
  ro_parent : parent_frn r < 18446744073709551616;
  ro_reason : reason r < 4294967296;
  ro_usn : in_i64 (usn r);
  ro_name_len : len (name r) <= 765;
  ro_lossy : name_lossy r = negb (utf8_valid (name r))
}.

Lemma extract_name_ok rec no nl mn off nm lossy :
  is_bytes rec -> extract_name rec no nl mn off = Ok (nm, lossy) ->
  len nm <= 765 /\ lossy = negb (utf8_valid nm).
Proof.
  unfold extract_name. intros Hb H.
  destruct (negb _ || _) eqn:E1; [done|]. destruct (no <? mn); [done|].
  unfold ok_or, checked_add in H. destruct (_ <=? usize_max); [|done]. simpl in H.
  destruct (len rec <? _) eqn:E2; [done|]. simpl_cmp. unfold MAX_NAME_UTF16_BYTES in *.
  replace (no + nl - no) with nl in H by lia. set (us := utf16le_units _) in H.
  destruct (utf16le_units_bounds (S (length (slice no nl rec))) (slice no nl rec)) as [Hu Hul];
    [lia|by apply is_bytes_slice|]. fold us in Hu, Hul.
  assert (nm = (from_utf16 us []).1 /\ lossy = (from_utf16 us []).2) as [-> ->]
    by (destruct (from_utf16 us []); naive_solver).
  pose proof (len_from_utf16_loop us Hu). rewrite len_slice in Hul by lia.
  pose proof (from_utf16_loop_flag us Hu).
  unfold from_utf16. destruct (from_utf16_loop us); simpl in *. split; [lia|done].
Qed.

Lemma u64_at_bound off l : is_bytes l -> u64_at off l < 18446744073709551616.
Proof.
  intros. unfold u64_at. eapply N.lt_le_trans; [by apply le_decode_bound, is_bytes_slice|].
  change 18446744073709551616 with (256 ^ 8). apply N.pow_le_mono_r; [done|].
  unfold slice, len. rewrite length_take. lia.
Qed.
Lemma u32_at_bound off l : is_bytes l -> u32_at off l < 4294967296.
Proof.
  intros. unfold u32_at. eapply N.lt_le_trans; [by apply le_decode_bound, is_bytes_slice|].
  change 4294967296 with (256 ^ 4). apply N.pow_le_mono_r; [done|].
  unfold slice, len. rewrite length_take. lia.
Qed.
#[export] Hint Resolve u64_at_bound u32_at_bound is_bytes_slice i64_of_bits_range : goz.

Lemma parse_v2_ok rec off r : is_bytes rec -> parse_v2 rec off = Ok r -> record_ok r.
Proof.
  unfold parse_v2. intros Hb H. destruct (len rec <? _); [done|].
  apply result_bind_ok in H as ([nm lossy] & Hn & [= <-]).
  apply extract_name_ok in Hn as [? ?]; [|done].
  constructor; simpl; unfold i64_at; auto with goz.
Qed.

Lemma parse_v3_ok rec off r : is_bytes rec -> parse_v3 rec off = Ok r -> record_ok r.
Proof.
  unfold parse_v3. intros Hb H. destruct (len rec <? _); [done|].
  apply result_bind_ok in H as ([nm lossy] & Hn & [= <-]).
  apply extract_name_ok in Hn as [? ?]; [|done].
  constructor; simpl; unfold i64_at; auto with goz.
Qed.

(** ** Theorems *)

(** Walking any buffer terminates with a value, whatever its record
    lengths say. *)
Theorem walk_records_total buf : exists r, walk_records buf = Some r.
Proof. apply walk_records_loop_total. unfold LEADING_VALUE_LEN, len. lia. Qed.

Lemma walk_records_loop_ok fuel buf off records skipped out sk :
  is_bytes buf -> Forall record_ok records ->
  walk_records_loop fuel buf off records skipped = Some (Ok (out, sk)) -> Forall record_ok out.
Proof.
  intros Hb. revert off records skipped. induction fuel as [|fuel IH]; intros off records skipped Hr H; [done|].
  cbn [walk_records_loop] in H. destruct (len buf <? _); [by simplify_eq|].
  destruct (_ =? 0); [done|]. destruct (checked_add _ _) as [end_|]; [|done].
  destruct (len buf <? end_); [done|].
  match type of H with match ?st with _ => _ end = _ => destruct st as [[r' s']|] eqn:Est end; [|done].
  assert (Forall record_ok r') as Hr'.
  { clear H IH. repeat case_match; simplify_eq/=; try done;
      apply result_bind_ok in Est as (r & Hp & [= <- <-]);
      (apply Forall_app; split; [done|]; apply Forall_singleton);
      first [eapply parse_v2_ok; [|eassumption] | eapply parse_v3_ok; [|eassumption]]; auto with goz. }
  destruct (checked_next_multiple_of_8 end_); [by eapply IH|by simplify_eq].
Qed.

(** Every record a walk of a journal buffer returns is well formed: its
    fields fit their widths, its name is at most 765 bytes of WTF-8 (far below
    the name store's 64 KiB limit) and the lossy flag says exactly whether the
    name is valid UTF-8. *)
Theorem walk_journal_records_ok buf w :
  is_bytes buf -> walk_journal_buffer buf = Some (Ok w) -> Forall record_ok (journal_records w).
Proof.
  unfold walk_journal_buffer. intros Hb H. destruct (len buf <? 8); [done|].
  destruct (walk_records buf) as [r|] eqn:Hw; [|done]. cbn in H. injection H as H.
  apply result_bind_ok in H as ([rs sk] & -> & [= <-]). simpl.
  by eapply walk_records_loop_ok.
Qed.

(** C35: a buffer of well-formed version 2 and version 3 records, packed on
    8-byte boundaries behind the leading cursor, is walked to exactly those
    records in order: nothing is dropped, skipped or misread. *)
Theorem walk_journal_round_trip lead_usn ws :
  in_i64 lead_usn -> Forall wire_ok ws ->
  len (le_encode 8 (i64_to_bits lead_usn) ++ concat (map encode_wire ws)) <= usize_max ->
  walk_journal_buffer (le_encode 8 (i64_to_bits lead_usn) ++ concat (map encode_wire ws)) =
    Some (Ok {| next_usn := lead_usn; journal_records := map decoded ws;
                journal_skipped := {| v4 := 0; unknown_version := 0 |} |}).
Proof.
  intros Hl Hws Hmax. unfold walk_journal_buffer.
  set (buf := le_encode 8 _ ++ _) in *.
  assert (len buf <? 8 = false) as -> by (apply N.ltb_ge; unfold buf; rewrite len_app, len_le_encode; lia).
  assert (exists k, S (length buf) = S (length ws + k)) as [k Hk].
  { exists (length buf - length ws)%nat. unfold buf. rewrite length_app.
    assert (length ws <= length (concat (map encode_wire ws)))%nat; [|lia].
    clear -Hws. induction Hws as [|w ws Hw Hws IH]; [done|]. simpl. rewrite length_app.
    pose proof (w_record_len_bounds w Hw) as [Hb _]. pose proof (len_encode_wire w).
    unfold len in *. lia. }
  assert (walk_records buf = Some (Ok (map decoded ws, {| v4 := 0; unknown_version := 0 |}))) as ->.
  { unfold walk_records. rewrite Hk. unfold buf.
    change LEADING_VALUE_LEN with (N.of_nat 8). rewrite <- (len_le_encode 8 (i64_to_bits lead_usn)).
    apply (walk_all ws Hws k (le_encode 8 (i64_to_bits lead_usn)) []); [by rewrite len_le_encode|done]. }
  simpl. unfold buf. by rewrite i64_at_here.
Qed.

Definition wire_example : list Wire :=
  [ {| w_ids := IdsV2; w_minor := 0; w_source := 0; w_security := 7; w_frn := 0x0005000000000030;
       w_parent := 0x0005000000000005; w_usn := 4096; w_timestamp := 133000000000000000;
       w_reason := 0x100; w_attributes := 0x20; w_units := [0x61; 0xD800; 0x62] |};
    {| w_ids := IdsV3 0 0; w_minor := 0; w_source := 0; w_security := 0; w_frn := 0x0001000000000031;
       w_parent := 0x0005000000000005; w_usn := 4192; w_timestamp := -1;
       w_reason := 0x80000200; w_attributes := 0x10; w_units := [] |} ].

Lemma wire_example_ok : Forall wire_ok wire_example.
Proof.
  repeat constructor; unfold is_units, in_i64, i64_min, i64_max; simpl; try (vm_compute; congruence);
    repeat constructor.
Defined.

Lemma walk_journal_round_trip_witness :
  walk_journal_buffer (le_encode 8 (i64_to_bits 5000) ++ concat (map encode_wire wire_example)) =
    Some (Ok {| next_usn := 5000; journal_records := map decoded wire_example;
                journal_skipped := {| v4 := 0; unknown_version := 0 |} |}).
Proof.
  apply (walk_journal_round_trip 5000 wire_example);
    [split; vm_compute; congruence|apply wire_example_ok|vm_compute; congruence].
Defined.

Lemma walk_journal_records_ok_witness :
  exists w, walk_journal_buffer (le_encode 8 (i64_to_bits 5000) ++ concat (map encode_wire wire_example))
              = Some (Ok w) /\ journal_records w <> [] /\ Forall record_ok (journal_records w).
Proof.
  eexists. split; [vm_compute; reflexivity|]. split; [discriminate|].
  eapply (walk_journal_records_ok
    (le_encode 8 (i64_to_bits 5000) ++ concat (map encode_wire wire_example))).
  - unfold is_bytes, is_byte. vm_compute. repeat constructor.
  - vm_compute. reflexivity.
Defined.
