(* ===== verification/UsnOps.v ===== *)
(** Reason-mask normalisation and cursor validation:
    [crates/goz-core/src/usn/ops.rs] and [crates/goz-core/src/usn/cursor.rs]. *)

From stdpp Require Import base list option sets.
From Stdlib Require Import NArith ZArith Lia.
From S2P Require Import Prelude Types UsnRecord.

(** ** Operations of one record *)

Inductive UsnOp :=
| Upsert (frn parent : Frn) (name : list N) (name_lossy is_dir : bool)
| Delete (frn : Frn)
| LinkDirty (frn : Frn)
| StatDirty (frn : Frn)
| RenameOldSeen (frn : Frn).

#[export] Instance UsnOp_eq_dec : EqDecision UsnOp.
Proof. solve_decision. Defined.

Definition NAME_CHANGES : N :=
  N.lor (N.lor (N.lor (N.lor USN_REASON_FILE_CREATE USN_REASON_FILE_DELETE)
    USN_REASON_RENAME_OLD_NAME) USN_REASON_RENAME_NEW_NAME) USN_REASON_HARD_LINK_CHANGE.

(** [reason & mask != 0]. *)
Definition any (reason mask : N) : bool := negb (N.land reason mask =? 0).

Definition ops_for (rec : ParsedUsnRecord) : list UsnOp :=
  let r := reason rec in
  if any r USN_REASON_FILE_DELETE then [Delete (frn rec); StatDirty (parent_frn rec)]
  else
    (if any r (N.lor USN_REASON_RENAME_NEW_NAME USN_REASON_FILE_CREATE)
     then [Upsert (frn rec) (parent_frn rec) (name rec) (name_lossy rec) (is_dir rec)] else []) ++
    (if any r USN_REASON_RENAME_OLD_NAME &&
        negb (any r (N.lor (N.lor USN_REASON_RENAME_NEW_NAME USN_REASON_FILE_CREATE) USN_REASON_FILE_DELETE))
     then [RenameOldSeen (frn rec)] else []) ++
    (if any r USN_REASON_HARD_LINK_CHANGE then [LinkDirty (frn rec)] else []) ++
    (if any r (N.lor (N.lor (N.lor (N.lor USN_REASON_FILE_CREATE USN_REASON_DATA_OVERWRITE)
          USN_REASON_DATA_EXTEND) USN_REASON_DATA_TRUNCATION) USN_REASON_BASIC_INFO_CHANGE)
     then [StatDirty (frn rec)] else []) ++
    (if any r NAME_CHANGES then [StatDirty (parent_frn rec)] else []).

(** ** Cursor validation *)

Record SavedCursor := { saved_journal_id : N; saved_next_usn : Z }.
Record JournalInfo := {
  journal_id : N; first_usn : Z; live_next_usn : Z; lowest_valid_usn : Z; max_usn : Z }.

Inductive RescanReason :=
| JournalIdChanged | CursorPurged | JournalNotActive | JournalDeleteInProgress
| EntryDeletedError | RestampDiscontinuity | ParserAnomaly | NoCursor
| ReadsKeptFailing | VolumeReattached.

Inductive Resync := InSync | FullRescan (r : RescanReason).

Definition validate_cursor (saved : SavedCursor) (live : JournalInfo) : Resync :=
  if negb (saved_journal_id saved =? journal_id live) then FullRescan JournalIdChanged
  else if (saved_next_usn saved <? first_usn live)%Z then FullRescan CursorPurged
  else if (saved_next_usn saved <? lowest_valid_usn live)%Z then FullRescan RestampDiscontinuity
  else if (live_next_usn live <? saved_next_usn saved)%Z then FullRescan RestampDiscontinuity
  else InSync.

(** ** Masks as bit tests *)

Lemma any_lor r m n : any r (N.lor m n) = any r m || any r n.
Proof.
  unfold any. rewrite N.land_lor_distr_r.
  destruct (N.eqb_spec (N.land r m) 0) as [->|Hm]; [by rewrite N.lor_0_l|].
  simpl. apply negb_true_iff, N.eqb_neq. by intros [? _]%N.lor_eq_0_iff.
Qed.

Lemma any_pow2 r k : any r (2 ^ k) = N.testbit r k.
Proof.
  unfold any. destruct (N.testbit r k) eqn:E.
  - apply negb_true_iff, N.eqb_neq. intros H. apply (f_equal (fun x => N.testbit x k)) in H.
    by rewrite N.land_spec, N.pow2_bits_true, E, N.bits_0 in H.
  - apply negb_false_iff, N.eqb_eq. apply N.bits_inj. intros i. rewrite N.land_spec, N.bits_0.
    destruct (N.eq_dec i k) as [->|Hne]; [by rewrite E|].
    rewrite N.pow2_bits_false by done. apply andb_false_r.
Qed.

(** Membership in a conditional singleton. *)
Lemma elem_of_if {A} (b : bool) (x y : A) : x ∈ (if b then [y] else []) <-> b = true /\ x = y.
Proof. destruct b; set_solver. Qed.

Lemma Forall_if {A} (P : A -> Prop) (b : bool) y : P y -> Forall P (if b then [y] else []).
Proof. destruct b; by repeat constructor. Qed.

(** ** Theorems *)

(** What the ops of a record are, by its reason bits.  A delete yields the
    delete and a re-stat of the parent folder and nothing else.  Otherwise: an
    upsert of the record's own name exactly when it was created or renamed to
    that name; an old-name telemetry op only without either; a link walk
    exactly when a hard link changed (never an upsert on its account); a stat
    of the file on a create, data or basic-info change, and a stat of the
    parent exactly when a name in it changed. *)
Theorem ops_for_spec rec :
  let r := reason rec in
  let create := any r USN_REASON_FILE_CREATE in
  let renamed := any r USN_REASON_RENAME_NEW_NAME in
  let old := any r USN_REASON_RENAME_OLD_NAME in
  let link := any r USN_REASON_HARD_LINK_CHANGE in
  let data := any r USN_REASON_DATA_OVERWRITE || any r USN_REASON_DATA_EXTEND
              || any r USN_REASON_DATA_TRUNCATION || any r USN_REASON_BASIC_INFO_CHANGE in
  (any r USN_REASON_FILE_DELETE = true ->
     ops_for rec = [Delete (frn rec); StatDirty (parent_frn rec)]) /\
  (any r USN_REASON_FILE_DELETE = false -> forall op,
     op ∈ ops_for rec <->
       match op with
       | Upsert f p n l d => create || renamed = true /\ f = frn rec /\ p = parent_frn rec /\
                             n = name rec /\ l = name_lossy rec /\ d = is_dir rec
       | Delete _ => False
       | RenameOldSeen f => old = true /\ create || renamed = false /\ f = frn rec
       | LinkDirty f => link = true /\ f = frn rec
       | StatDirty f => (create || data = true /\ f = frn rec) \/
                        (create || renamed || old || link = true /\ f = parent_frn rec)
       end).
Proof.
  cbv zeta. unfold ops_for. split; intros Hd; rewrite Hd; [done|]. intros op.
  unfold NAME_CHANGES. rewrite !any_lor, Hd. rewrite !elem_of_app, !elem_of_if.
  set (c := any _ USN_REASON_FILE_CREATE). set (n := any _ USN_REASON_RENAME_NEW_NAME).
  set (o := any _ USN_REASON_RENAME_OLD_NAME). set (h := any _ USN_REASON_HARD_LINK_CHANGE).
  rewrite !orb_false_r.
  destruct op; destruct c, n, o, h; simpl; intuition (try congruence).
Qed.

(** At most one upsert comes out of a record, and it comes first: a
    record's own name is applied before any link walk or stat of it is
    requested. *)
Theorem ops_for_upsert_first rec :
  exists tail, Forall (fun op => match op with Upsert _ _ _ _ _ => False | _ => True end) tail /\
    (ops_for rec = tail \/
     ops_for rec = Upsert (frn rec) (parent_frn rec) (name rec) (name_lossy rec) (is_dir rec) :: tail).
Proof.
  unfold ops_for. destruct (any (reason rec) USN_REASON_FILE_DELETE).
  - eexists. split; [|by left]. repeat constructor.
  - match goal with |- context [_ ++ ?t] => exists t end. split.
    + repeat (apply Forall_app; split); apply Forall_if; done.
    + destruct (any _ (N.lor USN_REASON_RENAME_NEW_NAME _)); [by right|by left].
Qed.

(** A saved cursor is replayed exactly when it belongs to the live journal
    and lies between the oldest readable USN and the next one to be written;
    every other case is a full rescan, for one of the three causes this
    function may name. *)
Theorem validate_cursor_spec saved live :
  (validate_cursor saved live = InSync <->
     saved_journal_id saved = journal_id live /\
     (Z.max (first_usn live) (lowest_valid_usn live) <= saved_next_usn saved <= live_next_usn live)%Z) /\
  (forall r, validate_cursor saved live = FullRescan r ->
     r = JournalIdChanged \/ r = CursorPurged \/ r = RestampDiscontinuity) /\
  (validate_cursor saved live = FullRescan CursorPurged ->
     (saved_next_usn saved < first_usn live)%Z).
Proof.
  unfold validate_cursor.
  destruct (N.eqb_spec (saved_journal_id saved) (journal_id live)); simpl;
    [|naive_solver].
  destruct (Z.ltb_spec (saved_next_usn saved) (first_usn live));
    [split; [split; [done|lia]|naive_solver]|].
  destruct (Z.ltb_spec (saved_next_usn saved) (lowest_valid_usn live));
    [split; [split; [done|lia]|naive_solver]|].
  destruct (Z.ltb_spec (live_next_usn live) (saved_next_usn saved));
    [split; [split; [done|lia]|naive_solver]|].
  split; [split; [intros _; split; [done|lia]|done]|naive_solver].
Qed.
