(* ===== verification/LayoutParse.v ===== *)
(** The [FSCTL_QUERY_FILE_LAYOUT] buffer parser:
    [crates/goz-core/src/layout/parse.rs].

    A buffer is a chain of file entries, each with satellite chains of names
    and streams and an optional info block, linked by relative offsets.  Every
    hop is checked to advance past the structure that holds it, which is what
    bounds the walk on corrupt input. *)

From stdpp Require Import base list option strings.
From Stdlib Require Import NArith ZArith Lia.
From S2P Require Import Prelude Types Wtf8 UsnRecord.

Definition QUERY_FILE_LAYOUT_RESTART : N := 0x00000001.
Definition QUERY_FILE_LAYOUT_INCLUDE_NAMES : N := 0x00000002.
Definition QUERY_FILE_LAYOUT_INCLUDE_STREAMS : N := 0x00000004.
Definition QUERY_FILE_LAYOUT_INCLUDE_EXTRA_INFO : N := 0x00000010.
Definition QUERY_FILE_LAYOUT_INCLUDE_STREAMS_WITH_NO_CLUSTERS_ALLOCATED : N := 0x00000020.
Definition RECOMMENDED_LAYOUT_FLAGS : N :=
  N.lor (N.lor (N.lor QUERY_FILE_LAYOUT_INCLUDE_NAMES QUERY_FILE_LAYOUT_INCLUDE_STREAMS)
    QUERY_FILE_LAYOUT_INCLUDE_EXTRA_INFO)
    QUERY_FILE_LAYOUT_INCLUDE_STREAMS_WITH_NO_CLUSTERS_ALLOCATED.
Definition FILE_LAYOUT_NAME_ENTRY_PRIMARY : N := 0x00000001.
Definition FILE_LAYOUT_NAME_ENTRY_DOS : N := 0x00000002.
Definition INFO_ENTRY_LEGACY_LEN : N := 56.

(** UTF-16LE bytes of ["::$DATA"]. *)
Definition UNNAMED_DATA_IDENTIFIER_UTF16LE : list N :=
  [0x3A; 0; 0x3A; 0; 0x24; 0; 0x44; 0; 0x41; 0; 0x54; 0; 0x41; 0].

Record LayoutName := {
  ln_parent_frn : Frn; ln_name : list N; ln_name_lossy : bool; dos_only : bool }.
Record LayoutFile := {
  lf_frn : Frn; lf_attributes : N; lf_size : option N; lf_mtime_ft : option Z;
  lf_names : list LayoutName }.

Inductive LayoutWalkError :=
| Truncated (what : string) (offset need blen : N)
| OffsetOutOfBounds (what : string) (offset blen : N)
| OffsetCycle (what : string) (offset rel min : N)
| OddUtf16Length (what : string) (offset l : N)
| NameTooLong (what : string) (offset l max : N)
| TooManyNames (count max blen : N).

(** Sizes of the view structs. *)
Definition RawOutputHeader_size : N := 16.
Definition RawFileEntry_size : N := 40.
Definition RawNameEntry_size : N := 24.
Definition RawInfoPrefix_size : N := 24.
Definition RawStreamEntry_size : N := 48.

Definition follow_offset (buf : list N) (base rel min_rel : N) (what : string)
  : result LayoutWalkError N :=
  if rel <? min_rel then Err (OffsetCycle what base rel min_rel)
  else
    abs <-? ok_or (OffsetOutOfBounds what usize_max (len buf)) (checked_add base rel);
    if len buf <=? abs then Err (OffsetOutOfBounds what abs (len buf)) else Ok abs.

Definition read_bytes (buf : list N) (offset need : N) (what : string)
  : result LayoutWalkError (list N) :=
  if need =? 0 then Ok []
  else if len buf <=? offset then Err (OffsetOutOfBounds what offset (len buf))
  else
    end_ <-? ok_or (Truncated what offset need (len buf)) (checked_add offset need);
    if len buf <? end_ then Err (Truncated what offset need (len buf))
    else Ok (slice offset (end_ - offset) buf).

(** [read_struct::<T>]: the [size_of::<T>()] bytes of the view, whose fields
    are then read little-endian. *)
Definition read_struct (buf : list N) (offset size : N) (what : string)
  : result LayoutWalkError (list N) :=
  read_bytes buf offset size what.

Definition is_unnamed_data_identifier (identifier : list N) : bool :=
  match identifier with [] => true | _ => bool_decide (identifier = UNNAMED_DATA_IDENTIFIER_UTF16LE) end.

(** The name of the [FILE_LAYOUT_NAME_ENTRY] at [name_off] and its
    [NextNameOffset]: one turn of the name loop up to the break. *)
Definition parse_name (buf : list N) (name_off : N) : result LayoutWalkError (LayoutName * N) :=
  raw <-? read_struct buf name_off RawNameEntry_size "FILE_LAYOUT_NAME_ENTRY";
  let name_len := u32_at 16 raw in
  if MAX_NAME_UTF16_BYTES <? name_len
  then Err (NameTooLong "FILE_LAYOUT_NAME_ENTRY.FileName" name_off name_len MAX_NAME_UTF16_BYTES)
  else if negb (name_len mod 2 =? 0)
  then Err (OddUtf16Length "FILE_LAYOUT_NAME_ENTRY.FileNameLength" name_off name_len)
  else
    name_bytes <-? read_bytes buf (name_off + RawNameEntry_size) name_len "FILE_LAYOUT_NAME_ENTRY.FileName";
    let '(nm, lossy) := from_utf16 (utf16le_units name_bytes) [] in
    let flags := u32_at 4 raw in
    Ok ({| ln_parent_frn := u64_at 8 raw; ln_name := nm; ln_name_lossy := lossy;
           dos_only := negb (N.land flags FILE_LAYOUT_NAME_ENTRY_DOS =? 0) &&
                       (N.land flags FILE_LAYOUT_NAME_ENTRY_PRIMARY =? 0) |},
        u32_at 0 raw).

Fixpoint name_chain_loop (fuel : nat) (buf : list N) (name_off : N) (names : list LayoutName)
  : option (result LayoutWalkError (list LayoutName)) :=
  match fuel with
  | O => None
  | S fuel' =>
      nx <-! Some (parse_name buf name_off);
      let '(nm, next) := nx in
      if next =? 0 then Some (Ok (names ++ [nm]))
      else
        off <-! Some (follow_offset buf name_off next RawNameEntry_size
                        "FILE_LAYOUT_NAME_ENTRY.NextNameOffset");
        name_chain_loop fuel' buf off (names ++ [nm])
  end.

(** One turn of the stream loop: the size found so far and [NextStreamOffset]. *)
Definition parse_stream (buf : list N) (stream_off : N) (is_dir : bool) (size : option N)
  : result LayoutWalkError (option N * N) :=
  raw <-? read_struct buf stream_off RawStreamEntry_size "STREAM_LAYOUT_ENTRY";
  let id_len := u32_at 44 raw in
  if negb (id_len mod 2 =? 0)
  then Err (OddUtf16Length "STREAM_LAYOUT_ENTRY.StreamIdentifierLength" stream_off id_len)
  else
    identifier <-? read_bytes buf (stream_off + RawStreamEntry_size) id_len "STREAM_LAYOUT_ENTRY.StreamIdentifier";
    let size' :=
      if negb is_dir && negb (is_some size) && is_unnamed_data_identifier identifier
      then Some (Z.to_N (Z.max (i64_at 24 raw) 0)) else size in
    Ok (size', u32_at 4 raw).

Fixpoint stream_chain_loop (fuel : nat) (buf : list N) (stream_off : N) (is_dir : bool) (size : option N)
  : option (result LayoutWalkError (option N)) :=
  match fuel with
  | O => None
  | S fuel' =>
      nx <-! Some (parse_stream buf stream_off is_dir size);
      let '(size', next) := nx in
      if next =? 0 then Some (Ok size')
      else
        off <-! Some (follow_offset buf stream_off next RawStreamEntry_size
                        "STREAM_LAYOUT_ENTRY.NextStreamOffset");
        stream_chain_loop fuel' buf off is_dir size'
  end.

(** The extra-info block: [LastWriteTime] when it is there and long enough. *)
Definition parse_info (buf : list N) (entry_off extra_off extra_len : N)
  : result LayoutWalkError (option Z) :=
  if extra_off =? 0 then Ok None
  else
    info_off <-? follow_offset buf entry_off extra_off RawFileEntry_size "FILE_LAYOUT_ENTRY.ExtraInfoOffset";
    let available := if extra_len =? 0 then INFO_ENTRY_LEGACY_LEN else extra_len in
    if RawInfoPrefix_size <=? available then
      info <-? read_struct buf info_off RawInfoPrefix_size "FILE_LAYOUT_INFO_ENTRY";
      Ok (Some (i64_at 16 info))
    else Ok None.

(** [parse_file] on the 40 bytes [entry] read at [entry_off]. *)
Definition parse_file (buf : list N) (entry_off : N) (entry : list N)
  : option (result LayoutWalkError LayoutFile) :=
  let attributes := u32_at 12 entry in
  let is_dir := negb (N.land attributes FILE_ATTRIBUTE_DIRECTORY =? 0) in
  let first_name := u32_at 24 entry in
  let first_stream := u32_at 28 entry in
  names <-! (if first_name =? 0 then Some (Ok [])
             else off <-! Some (follow_offset buf entry_off first_name RawFileEntry_size
                                  "FILE_LAYOUT_ENTRY.FirstNameOffset");
                  name_chain_loop (S (length buf)) buf off []);
  mtime <-! Some (parse_info buf entry_off (u32_at 32 entry) (u32_at 36 entry));
  size <-! (if first_stream =? 0 then Some (Ok None)
            else off <-! Some (follow_offset buf entry_off first_stream RawFileEntry_size
                                 "FILE_LAYOUT_ENTRY.FirstStreamOffset");
                 stream_chain_loop (S (length buf)) buf off is_dir None);
  Some (Ok {| lf_frn := u64_at 16 entry; lf_attributes := attributes; lf_size := size;
              lf_mtime_ft := mtime; lf_names := names |}).

(** The [loop] of [walk_layout_buffer] at [entry_off], with [names] counted so
    far. *)
Fixpoint file_chain_loop (fuel : nat) (buf : list N) (entry_off names : N) (files : list LayoutFile)
  : option (result LayoutWalkError (list LayoutFile)) :=
  match fuel with
  | O => None
  | S fuel' =>
      let max_names := len buf / RawNameEntry_size in
      entry <-! Some (read_struct buf entry_off RawFileEntry_size "FILE_LAYOUT_ENTRY");
      file <-! parse_file buf entry_off entry;
      let names' := names + len (lf_names file) in
      if max_names <? names' then Some (Err (TooManyNames names' max_names (len buf)))
      else
        let next := u32_at 4 entry in
        if next =? 0 then Some (Ok (files ++ [file]))
        else
          off <-! Some (follow_offset buf entry_off next RawFileEntry_size
                          "FILE_LAYOUT_ENTRY.NextFileOffset");
          file_chain_loop fuel' buf off names' (files ++ [file])
  end.

Definition walk_layout_buffer (buf : list N) : option (result LayoutWalkError (list LayoutFile)) :=
  match buf with
  | [] => Some (Ok [])
  | _ =>
      header <-! Some (read_struct buf 0 RawOutputHeader_size "QUERY_FILE_LAYOUT_OUTPUT");
      if u32_at 0 header =? 0 then Some (Ok [])
      else
        off <-! Some (follow_offset buf 0 (u32_at 4 header) RawOutputHeader_size
                        "QUERY_FILE_LAYOUT_OUTPUT.FirstFileOffset");
        file_chain_loop (S (length buf)) buf off 0 []
  end.

(** ** Every hop advances *)

Lemma follow_offset_ok buf base rel min_rel what abs :
  follow_offset buf base rel min_rel what = Ok abs ->
  abs = base + rel /\ min_rel <= rel /\ abs < len buf.
Proof.
  unfold follow_offset, checked_add, ok_or. intros H.
  destruct (N.ltb_spec rel min_rel); [done|]. destruct (_ <=? usize_max); [|done].
  simpl in H. destruct (N.leb_spec (len buf) (base + rel)); simplify_eq. done.
Qed.

Lemma read_bytes_ok buf offset need what bs :
  read_bytes buf offset need what = Ok bs ->
  len bs = need /\ (is_bytes buf -> is_bytes bs) /\ (0 < need -> offset + need <= len buf).
Proof.
  unfold read_bytes, checked_add, ok_or. intros H.
  destruct (N.eqb_spec need 0); [simplify_eq; repeat split; try constructor; lia|].
  destruct (N.leb_spec (len buf) offset); [done|]. destruct (_ <=? usize_max); [|done].
  simpl in H. destruct (N.ltb_spec (len buf) (offset + need)); simplify_eq.
  replace (offset + need - offset) with need by lia.
  split; [by apply len_slice|split; [by apply is_bytes_slice|done]].
Qed.

Lemma name_chain_total fuel buf off names :
  (N.to_nat (len buf - off) < fuel)%nat -> exists r, name_chain_loop fuel buf off names = Some r.
Proof.
  revert off names. induction fuel as [|fuel IH]; intros off names Hf; [lia|].
  cbn [name_chain_loop]. apply run_bind_total; [by eauto|]. intros [nm next] _.
  destruct (next =? 0); [by eauto|]. apply run_bind_total; [by eauto|].
  intros off' [= H%follow_offset_ok]. apply IH. unfold RawNameEntry_size in H. lia.
Qed.

Lemma stream_chain_total fuel buf off d size :
  (N.to_nat (len buf - off) < fuel)%nat -> exists r, stream_chain_loop fuel buf off d size = Some r.
Proof.
  revert off size. induction fuel as [|fuel IH]; intros off size Hf; [lia|].
  cbn [stream_chain_loop]. apply run_bind_total; [by eauto|]. intros [sz next] _.
  destruct (next =? 0); [by eauto|]. apply run_bind_total; [by eauto|].
  intros off' [= H%follow_offset_ok]. apply IH. unfold RawStreamEntry_size in H. lia.
Qed.

Lemma parse_file_total buf off entry : exists r, parse_file buf off entry = Some r.
Proof.
  unfold parse_file. cbv zeta. apply run_bind_total.
  { destruct (_ =? 0); [by eauto|]. apply run_bind_total; [by eauto|].
    intros. apply name_chain_total. unfold len. lia. }
  intros names _. apply run_bind_total; [by eauto|]. intros mtime _. apply run_bind_total; [|by eauto].
  destruct (_ =? 0); [by eauto|]. apply run_bind_total; [by eauto|].
  intros. apply stream_chain_total. unfold len. lia.
Qed.

Lemma file_chain_total fuel buf off n files :
  (N.to_nat (len buf - off) < fuel)%nat -> exists r, file_chain_loop fuel buf off n files = Some r.
Proof.
  revert off n files. induction fuel as [|fuel IH]; intros off n files Hf; [lia|].
  cbn [file_chain_loop]. apply run_bind_total; [by eauto|]. intros entry _.
  apply run_bind_total; [by apply parse_file_total|]. intros file _.
  destruct (_ <? _); [by eauto|]. destruct (_ =? 0); [by eauto|]. apply run_bind_total; [by eauto|].
  intros off' [= H%follow_offset_ok]. apply IH. unfold RawFileEntry_size in H. lia.
Qed.

(** ** What a successful walk returns *)

(** A name as the index may take it: short, and flagged lossy exactly when it
    is not UTF-8. *)
Definition layout_name_ok (n : LayoutName) : Prop :=
  ln_parent_frn n < 18446744073709551616 /\ len (ln_name n) <= 765 /\
  ln_name_lossy n = negb (utf8_valid (ln_name n)).

Definition layout_file_ok (f : LayoutFile) : Prop :=
  lf_frn f < 18446744073709551616 /\ Forall layout_name_ok (lf_names f) /\
  (N.land (lf_attributes f) FILE_ATTRIBUTE_DIRECTORY <> 0 -> lf_size f = None) /\
  (forall sz, lf_size f = Some sz -> sz < 9223372036854775808).

Lemma parse_name_ok buf off nm next :
  is_bytes buf -> parse_name buf off = Ok (nm, next) -> layout_name_ok nm.
Proof.
  unfold parse_name. intros Hb H.
  apply result_bind_ok in H as (raw & (_ & Hraw & _)%read_bytes_ok & H). specialize (Hraw Hb).
  destruct (N.ltb_spec MAX_NAME_UTF16_BYTES (u32_at 16 raw)) as [|Hmax]; [done|].
  destruct (negb _); [done|].
  apply result_bind_ok in H as (nb & (Hlen & Hnb & _)%read_bytes_ok & H). specialize (Hnb Hb).
  destruct (utf16le_units_bounds (S (length nb)) nb) as [Hu Hul]; [lia|done|].
  set (us := utf16le_units nb) in *.
  pose proof (len_from_utf16_loop us Hu). pose proof (from_utf16_loop_flag us Hu).
  unfold from_utf16 in H. destruct (from_utf16_loop us) as [bs l]. simpl in *. simplify_eq/=.
  unfold MAX_NAME_UTF16_BYTES in Hmax.
  split; [by apply u64_at_bound|]. split; [simpl; lia|done].
Qed.

Lemma name_chain_ok fuel buf off names out :
  is_bytes buf -> Forall layout_name_ok names ->
  name_chain_loop fuel buf off names = Some (Ok out) -> Forall layout_name_ok out.
Proof.
  intros Hb. revert off names. induction fuel as [|fuel IH]; intros off names Hn H; [done|].
  cbn [name_chain_loop] in H. apply run_bind_ok in H as ([nm next] & [= Hp%parse_name_ok] & H); [|done].
  assert (Forall layout_name_ok (names ++ [nm]))
    by (apply Forall_app; split; [done|by apply Forall_singleton]).
  destruct (next =? 0); [by simplify_eq|]. apply run_bind_ok in H as (off' & _ & H). by eapply IH.
Qed.

Lemma i64_at_upper off l : is_bytes l -> (i64_at off l < 9223372036854775808)%Z.
Proof.
  intros. pose proof (i64_of_bits_range (u64_at off l)) as Hr.
  unfold i64_at, in_i64, i64_max in *. destruct Hr; [by apply u64_at_bound|lia].
Qed.

Lemma stream_chain_ok fuel buf off d size out :
  is_bytes buf -> (d = true -> size = None) -> (forall sz, size = Some sz -> sz < 9223372036854775808) ->
  stream_chain_loop fuel buf off d size = Some (Ok out) ->
  (d = true -> out = None) /\ (forall sz, out = Some sz -> sz < 9223372036854775808).
Proof.
  intros Hb. revert off size. induction fuel as [|fuel IH]; intros off size Hd Hs H; [done|].
  cbn [stream_chain_loop] in H. apply run_bind_ok in H as ([sz next] & [= Hp] & H).
  assert ((d = true -> sz = None) /\ (forall x, sz = Some x -> x < 9223372036854775808)) as [Hd' Hs'].
  { unfold parse_stream in Hp. apply result_bind_ok in Hp as (raw & (_ & Hraw & _)%read_bytes_ok & Hp).
    destruct (negb (_ =? 0)); [done|]. apply result_bind_ok in Hp as (id & _ & [= <- _]).
    pose proof (i64_at_upper 24 raw (Hraw Hb)). destruct (_ && _ && _) eqn:E; [|by split].
    simpl_cmp. subst. split; [done|]. intros ? [= <-]. lia. }
  destruct (next =? 0); [by simplify_eq|]. apply run_bind_ok in H as (off' & _ & H). by eapply IH.
Qed.

Lemma parse_file_ok buf off entry f :
  is_bytes buf -> is_bytes entry -> parse_file buf off entry = Some (Ok f) -> layout_file_ok f.
Proof.
  intros Hb He H. unfold parse_file in H. cbv zeta in H.
  apply run_bind_ok in H as (names & Hn & H). apply run_bind_ok in H as (mtime & _ & H).
  apply run_bind_ok in H as (size & Hs & [= <-]).
  split; [by apply u64_at_bound|]. split; [|split].
  - destruct (u32_at 24 entry =? 0); [simplify_eq; constructor|]. apply run_bind_ok in Hn as (o & _ & Hn).
    by eapply name_chain_ok; [| |exact Hn].
  - simpl. intros Hd. destruct (u32_at 28 entry =? 0); [by simplify_eq|].
    apply run_bind_ok in Hs as (o & _ & Hs). eapply stream_chain_ok in Hs; [|done..].
    apply Hs. by apply negb_true_iff, N.eqb_neq.
  - simpl. destruct (u32_at 28 entry =? 0); [by simplify_eq|].
    apply run_bind_ok in Hs as (o & _ & Hs). eapply stream_chain_ok in Hs; [|done..]. apply Hs.
Qed.

Definition name_count (files : list LayoutFile) : N :=
  N.of_nat (sum_list_with (fun f => length (lf_names f)) files).

Lemma name_count_snoc files f : name_count (files ++ [f]) = name_count files + len (lf_names f).
Proof. unfold name_count, len. rewrite sum_list_with_app. simpl. lia. Qed.

(** The files found so far are well formed and list at most [max_names] names,
    and their entries lie below the current offset. *)
Lemma file_chain_ok fuel buf off files out :
  is_bytes buf -> Forall layout_file_ok files -> RawFileEntry_size * len files <= off ->
  file_chain_loop fuel buf off (name_count files) files = Some (Ok out) ->
  Forall layout_file_ok out /\
  name_count out <= len buf / RawNameEntry_size /\ RawFileEntry_size * len out <= len buf.
Proof.
  intros Hb. revert off files. induction fuel as [|fuel IH]; intros off files Hf Hoff H; [done|].
  cbn [file_chain_loop] in H. apply run_bind_ok in H as (entry & [= (_ & He & Hend)%read_bytes_ok] & H).
  specialize (He Hb). specialize (Hend eq_refl).
  apply run_bind_ok in H as (file & Hp%parse_file_ok & H); [|done..].
  assert (Forall layout_file_ok (files ++ [file]))
    by (apply Forall_app; split; [done|by apply Forall_singleton]).
  rewrite <- name_count_snoc in H. destruct (N.ltb_spec (len buf / RawNameEntry_size) (name_count (files ++ [file])));
    [done|].
  assert (RawFileEntry_size * len (files ++ [file]) <= off + RawFileEntry_size)
    by (rewrite len_app; unfold len at 2; simpl; lia).
  destruct (_ =? 0); [simplify_eq; split; [done|]; split; [done|lia]|].
  apply run_bind_ok in H as (off' & [= Hfo%follow_offset_ok] & H). eapply IH; [done| |exact H]. lia.
Qed.

(** ** Theorems *)

(** The walk of any buffer, however corrupt its offsets, terminates with a
    value: no chain of files, names or streams can be followed forever. *)
Theorem walk_layout_total buf : exists r, walk_layout_buffer buf = Some r.
Proof.
  unfold walk_layout_buffer. destruct buf as [|b buf]; [by eauto|].
  apply run_bind_total; [by eauto|]. intros header _. destruct (_ =? 0); [by eauto|].
  apply run_bind_total; [by eauto|]. intros off _. apply file_chain_total. unfold len. lia.
Qed.

(** A successful walk returns only well-formed files (names of at most 765
    bytes with an exact lossy flag, sizes that fit 63 bits, no size on a
    directory), and the total of names and of files is bounded by what the
    buffer can physically hold: 24 bytes a name, 40 bytes a file. *)
Theorem walk_layout_ok buf files :
  is_bytes buf -> walk_layout_buffer buf = Some (Ok files) ->
  Forall layout_file_ok files /\
  RawNameEntry_size * name_count files <= len buf /\ RawFileEntry_size * len files <= len buf.
Proof.
  intros Hb H. unfold walk_layout_buffer in H. destruct buf as [|b buf].
  { simplify_eq. split; [constructor|]. split; vm_compute; congruence. }
  apply run_bind_ok in H as (header & _ & H). destruct (_ =? 0).
  { simplify_eq. split; [constructor|].
    change (name_count []) with 0. change (len []) with 0. lia. }
  apply run_bind_ok in H as (off & _ & H).
  apply (file_chain_ok _ (b :: buf) off [] files) in H as (? & Hn & ?);
    [|done|constructor|change (len []) with 0; lia].
  split; [done|]. split; [|done]. unfold RawNameEntry_size in *. lia.
Qed.

(** A one-file buffer: header, entry, a name, a stream and an info block. *)
Definition layout_example : list N :=
  le_encode 4 1 ++ le_encode 4 16 ++ le_encode 4 1 ++ le_encode 4 0 ++
  le_encode 4 1 ++ le_encode 4 0 ++ le_encode 4 0 ++ le_encode 4 0x20 ++
  le_encode 8 0x0001000000000030 ++ le_encode 4 40 ++ le_encode 4 72 ++ le_encode 4 120 ++ le_encode 4 0 ++
  le_encode 4 0 ++ le_encode 4 FILE_LAYOUT_NAME_ENTRY_PRIMARY ++ le_encode 8 0x0005000000000005 ++
  le_encode 4 4 ++ le_encode 4 0 ++ [0x61; 0; 0x62; 0] ++ le_encode 4 0 ++
  le_encode 4 1 ++ le_encode 4 0 ++ le_encode 4 0 ++ le_encode 4 0 ++ le_encode 8 4096 ++ le_encode 8 1234 ++
  le_encode 4 0 ++ le_encode 4 0 ++ le_encode 4 0 ++ le_encode 4 0 ++
  le_encode 8 1 ++ le_encode 8 2 ++ le_encode 8 133000000000000000 ++ le_encode 32 0.

Definition layout_example_file : LayoutFile :=
  {| lf_frn := 0x0001000000000030; lf_attributes := 0x20; lf_size := Some 1234;
     lf_mtime_ft := Some 133000000000000000%Z;
     lf_names := [ {| ln_parent_frn := 0x0005000000000005; ln_name := [0x61; 0x62];
                      ln_name_lossy := false; dos_only := false |} ] |}.

Lemma walk_layout_ok_witness :
  walk_layout_buffer layout_example = Some (Ok [layout_example_file]) /\
  Forall layout_file_ok [layout_example_file] /\
  RawNameEntry_size * name_count [layout_example_file] <= len layout_example.
Proof.
  assert (H : walk_layout_buffer layout_example = Some (Ok [layout_example_file]))
    by (vm_compute; reflexivity).
  split; [exact H|].
  destruct (walk_layout_ok layout_example [layout_example_file]) as (H1 & H2 & _);
    [|exact H|split; [exact H1|exact H2]].
  unfold is_bytes, is_byte. vm_compute. repeat constructor.
Defined.
