(* ===== verification/Frame.v ===== *)
(** The sans-io frame codec: [crates/goz-core/src/proto/frame.rs].

    A frame is a 4-byte little-endian length and a payload.  [FrameDecoder] is
    fed whatever chunks a transport produced and pops complete frames; an
    oversize prefix poisons it for good.  The decoder's buffer with its read
    offset and compaction refines a plain byte stream ([Stream]). *)

From stdpp Require Import base list option.
From Stdlib Require Import NArith Lia.
From S2P Require Import Prelude UsnRecord.

Definition PREFIX_LEN : N := 4.
Definition COMPACT_THRESHOLD : N := 64 * 1024.

(** [encode_frame(payload, &mut out)]; [None] is its documented panic. *)
Definition encode_frame (payload out : list N) : option (list N) :=
  if len payload <=? u32_max then Some (out ++ le_encode 4 (len payload) ++ payload) else None.

Inductive FrameError := TooLarge (l max : N).

#[export] Instance FrameError_eq_dec : EqDecision FrameError.
Proof. solve_decision. Defined.

Record FrameDecoder := {
  buf : list N;
  read : N;
  max_frame : N;
  poisoned : option (N * N)
}.

Definition new (max : N) : FrameDecoder :=
  {| buf := []; read := 0; max_frame := max; poisoned := None |}.

Definition feed (bs : list N) (d : FrameDecoder) : FrameDecoder :=
  {| buf := buf d ++ bs; read := read d; max_frame := max_frame d; poisoned := poisoned d |}.

Definition is_empty (d : FrameDecoder) : bool := read d =? len (buf d).

(** [next_frame]: panics if [read] is past the end of [buf]. *)
Definition next_frame : ST FrameDecoder (result FrameError (option (list N))) := fun d =>
  match poisoned d with
  | Some (l, max) => Some (Err (TooLarge l max), d)
  | None =>
      if len (buf d) <? read d then None
      else
        let avail := drop (N.to_nat (read d)) (buf d) in
        if len avail <? PREFIX_LEN then Some (Ok None, d)
        else
          let l := u32_at 0 avail in
          if max_frame d <? l then
            Some (Err (TooLarge l (max_frame d)),
                  {| buf := buf d; read := read d; max_frame := max_frame d;
                     poisoned := Some (l, max_frame d) |})
          else
            let total := PREFIX_LEN + l in
            if len avail <? total then Some (Ok None, d)
            else
              let frame := slice PREFIX_LEN (total - PREFIX_LEN) avail in
              let r := read d + total in
              let '(b, r) :=
                if r =? len (buf d) then ([], 0)
                else if COMPACT_THRESHOLD <=? r then (drop (N.to_nat r) (buf d), 0)
                else (buf d, r) in
              Some (Ok (Some frame),
                    {| buf := b; read := r; max_frame := max_frame d; poisoned := poisoned d |})
  end.

(** How the daemon and the client drive a decoder: pop frames until it asks
    for more bytes or fails. *)
Fixpoint pop_frames (fuel : nat) : ST FrameDecoder (list (list N) * option FrameError) :=
  match fuel with
  | O => fun _ => None
  | S fuel' =>
      r <- next_frame ;;
      match r with
      | Ok None => st_ret ([], None)
      | Err e => st_ret ([], Some e)
      | Ok (Some f) =>
          rest <- pop_frames fuel' ;;
          st_ret (f :: rest.1, rest.2)
      end
  end.

(** Feeding chunks as they arrive, popping after each. *)
Fixpoint feed_chunks (chunks : list (list N)) : ST FrameDecoder (list (list N)) :=
  match chunks with
  | [] => st_ret []
  | c :: chunks' =>
      st_modify (feed c) ;;;
      d <- st_get id ;;
      fs <- pop_frames (S (length (buf d))) ;;
      rest <- feed_chunks chunks' ;;
      st_ret (fs.1 ++ rest)
  end.

(** ** The stream specification *)

Module Stream.
(** What a reader of the byte stream [s] must do: the frame at its head and
    the rest, the oversize error, or wait. *)
Inductive outcome :=
| Frame (payload rest : list N)
| Oversize (l : N)
| NeedMore.

Definition next (max : N) (s : list N) : outcome :=
  if len s <? PREFIX_LEN then NeedMore
  else
    let l := u32_at 0 s in
    if max <? l then Oversize l
    else if len s <? PREFIX_LEN + l then NeedMore
    else Frame (slice PREFIX_LEN l s) (drop (N.to_nat (PREFIX_LEN + l)) s).
End Stream.

(** The bytes of the stream the decoder has not consumed. *)
Definition unconsumed (d : FrameDecoder) : list N := drop (N.to_nat (read d)) (buf d).

(** The decoder's invariant: the read offset is inside the buffer and below
    the compaction threshold, so at most 64 KiB of consumed bytes linger. *)
Definition decoder_ok (d : FrameDecoder) : Prop :=
  read d <= len (buf d) /\ read d < COMPACT_THRESHOLD.

Lemma decoder_ok_new max : decoder_ok (new max).
Proof. split; vm_compute; congruence. Qed.

Lemma decoder_ok_feed bs d : decoder_ok d -> decoder_ok (feed bs d).
Proof. intros [? ?]. split; simpl; [rewrite len_app; lia|done]. Qed.

Lemma unconsumed_feed bs d : decoder_ok d -> unconsumed (feed bs d) = unconsumed d ++ bs.
Proof. intros [? _]. unfold unconsumed. simpl. apply drop_app_le. unfold len in *. lia. Qed.

Lemma len_unconsumed d : len (unconsumed d) = len (buf d) - read d.
Proof. unfold unconsumed, len. rewrite length_drop. lia. Qed.

(** One call of [next_frame] implements one step of the specification. *)
Lemma next_frame_refines d :
  decoder_ok d -> poisoned d = None ->
  wp next_frame (fun r d' =>
    decoder_ok d' /\ max_frame d' = max_frame d /\
    match Stream.next (max_frame d) (unconsumed d) with
    | Stream.Frame p rest => r = Ok (Some p) /\ unconsumed d' = rest /\ poisoned d' = None
    | Stream.Oversize l =>
        r = Err (TooLarge l (max_frame d)) /\ poisoned d' = Some (l, max_frame d) /\
        unconsumed d' = unconsumed d
    | Stream.NeedMore => r = Ok None /\ d' = d
    end) d.
Proof.
  intros [Hr Ht] Hp. unfold wp, next_frame, Stream.next. rewrite Hp.
  rewrite (proj2 (N.ltb_ge _ _)) by done. fold (unconsumed d).
  destruct (len (unconsumed d) <? PREFIX_LEN) eqn:E1; [done|].
  destruct (max_frame d <? u32_at 0 (unconsumed d)); [done|].
  set (l := u32_at 0 (unconsumed d)).
  destruct (N.ltb_spec (len (unconsumed d)) (PREFIX_LEN + l)) as [|Hfit]; [done|].
  replace (PREFIX_LEN + l - PREFIX_LEN) with l by lia. rewrite len_unconsumed in Hfit.
  assert (Hdrop : drop (N.to_nat (PREFIX_LEN + l)) (unconsumed d)
                  = drop (N.to_nat (read d + (PREFIX_LEN + l))) (buf d)).
  { unfold unconsumed. rewrite drop_drop. f_equal. lia. }
  rewrite Hdrop.
  destruct (N.eqb_spec (read d + (PREFIX_LEN + l)) (len (buf d))) as [E|E].
  { split; [split; vm_compute; congruence|]. split; [done|]. split; [done|]. split; [|done].
    rewrite drop_ge; [done|unfold len in *; lia]. }
  destruct (N.leb_spec COMPACT_THRESHOLD (read d + (PREFIX_LEN + l))) as [Hc|Hc].
  { split; [split; simpl; [apply N.le_0_l|vm_compute; congruence]|]. done. }
  split; [split; simpl; [lia|done]|]. done.
Qed.

(** Once poisoned, every later call fails the same way, whatever is fed. *)
Lemma next_frame_poisoned d l m :
  poisoned d = Some (l, m) -> next_frame d = Some (Err (TooLarge l m), d).
Proof. intros H. unfold next_frame. by rewrite H. Qed.

(** ** Streams of frames *)

Definition frame_bytes (p : list N) : list N := le_encode 4 (len p) ++ p.
Definition stream_of (ps : list (list N)) : list N := concat (map frame_bytes ps).

Lemma encode_frame_bytes p out :
  len p <= u32_max -> encode_frame p out = Some (out ++ frame_bytes p).
Proof. unfold encode_frame. by intros ->%N.leb_le. Qed.

Lemma u32_at_0_app l k : 4 <= len l -> u32_at 0 (l ++ k) = u32_at 0 l.
Proof.
  intros. unfold u32_at, slice. change (N.to_nat 0) with 0%nat. rewrite !drop_0.
  rewrite take_app_le; [done|unfold len in *; lia].
Qed.

Lemma stream_next_frame max p s :
  len p <= u32_max -> len p <= max -> Stream.next max (frame_bytes p ++ s) = Stream.Frame p s.
Proof.
  intros Hp Hmax. unfold Stream.next, frame_bytes. rewrite <- app_assoc, !len_app, len_le_encode.
  unfold PREFIX_LEN, u32_max in *.
  rewrite (proj2 (N.ltb_ge _ 4)) by lia. rewrite u32_at_here by lia.
  rewrite !(proj2 (N.ltb_ge _ _)) by lia.
  rewrite slice_app_ge by (rewrite len_le_encode; lia). rewrite len_le_encode.
  change (4 - N.of_nat 4) with 0. rewrite slice_app_l by done. f_equal.
  rewrite drop_app_ge by (rewrite length_le_encode; lia). rewrite length_le_encode.
  rewrite drop_app_ge by (unfold len; lia). replace (_ - _ - _)%nat with 0%nat by (unfold len; lia). done.
Qed.

Definition payload_ok (max : N) (p : list N) : Prop := len p <= u32_max /\ len p <= max.

(** A part of a frame is not a frame: the reader waits. *)
Lemma stream_next_partial max p u fut s :
  payload_ok max p -> u ++ fut = frame_bytes p ++ s -> len u < len (frame_bytes p) ->
  Stream.next max u = Stream.NeedMore.
Proof.
  intros [Hp Hmax] Heq Hlt. unfold Stream.next, PREFIX_LEN, u32_max in *.
  unfold frame_bytes in Heq, Hlt. rewrite len_app, len_le_encode in Hlt.
  destruct (N.ltb_spec (len u) 4) as [|H4]; [done|].
  assert (u32_at 0 u = len p) as ->.
  { rewrite <- (u32_at_0_app u fut) by done. rewrite Heq, <- app_assoc. apply u32_at_here. lia. }
  rewrite (proj2 (N.ltb_ge max _)) by lia. rewrite (proj2 (N.ltb_lt _ _)) by lia. done.
Qed.

Lemma app_split_long {A} (u fut x s : list A) :
  u ++ fut = x ++ s -> len x <= len u -> exists u', u = x ++ u' /\ u' ++ fut = s.
Proof.
  intros Heq Hle. exists (drop (length x) u).
  assert (u = x ++ drop (length x) u) as Hu.
  { rewrite <- (take_drop (length x) u) at 1. f_equal.
    apply (f_equal (take (length x))) in Heq.
    rewrite take_app_length, take_app_le in Heq; [done|unfold len in *; lia]. }
  split; [done|]. rewrite Hu, <- app_assoc in Heq. by apply app_inv_head in Heq.
Qed.

(** Popping from a decoder whose bytes are a prefix of a stream of frames. *)
Lemma pop_frames_spec max ps : Forall (payload_ok max) ps -> forall fuel d fut,
  decoder_ok d -> poisoned d = None -> max_frame d = max ->
  unconsumed d ++ fut = stream_of ps -> (length (unconsumed d) < fuel)%nat ->
  wp (pop_frames fuel) (fun r d' => exists ps1 ps2,
    ps = ps1 ++ ps2 /\ r = (ps1, None) /\ decoder_ok d' /\ poisoned d' = None /\ max_frame d' = max /\
    unconsumed d' ++ fut = stream_of ps2 /\ (fut = [] -> ps2 = [])) d.
Proof.
  induction 1 as [|p ps Hp Hps IH]; intros fuel d fut Hd Hn Hm Heq Hfuel.
  - destruct fuel as [|fuel]; [lia|]. cbn [pop_frames]. apply wp_bind.
    eapply wp_mono; [by apply next_frame_refines|]. intros r d' (Hd' & Hm' & Hs).
    apply app_eq_nil in Heq as [Hu ->]. rewrite Hu in Hs. simpl in Hs.
    destruct Hs as [-> ->]. apply wp_ret. exists [], []. rewrite Hu. naive_solver.
  - destruct fuel as [|fuel]; [lia|]. cbn [pop_frames]. apply wp_bind.
    eapply wp_mono; [by apply next_frame_refines|]. intros r d' (Hd' & Hm' & Hs). rewrite Hm in Hs, Hm'.
    change (stream_of (p :: ps)) with (frame_bytes p ++ stream_of ps) in Heq.
    destruct (N.lt_ge_cases (len (unconsumed d)) (len (frame_bytes p))) as [Hlt|Hge].
    + rewrite (stream_next_partial max p _ fut (stream_of ps)) in Hs by done.
      destruct Hs as [-> ->]. apply wp_ret. exists [], (p :: ps). do 6 (split; [done|]).
      intros ->. rewrite app_nil_r in Heq. rewrite Heq, len_app in Hlt. lia.
    + apply app_split_long in Heq as (u' & Hu & Hfut); [|done].
      rewrite Hu, stream_next_frame in Hs by apply Hp.
      destruct Hs as (-> & Hu' & Hn'). apply wp_bind. eapply wp_mono.
      { apply (IH fuel d' fut); [done..|by rewrite Hu'|].
        rewrite Hu' . apply (f_equal length) in Hu. revert Hu. unfold frame_bytes.
        rewrite !length_app, length_le_encode. lia. }
      intros [fs e] d'' (ps1 & ps2 & -> & [= -> ->] & ?). apply wp_ret.
      exists (p :: ps1), ps2. naive_solver.
Qed.

(** ** Theorems *)

(** C36: however the transport cuts a stream of frames into chunks, feeding the
    chunks and popping after each delivers exactly the frames' payloads, in
    order, with no panic and no error, and leaves no byte behind. *)
Theorem frames_survive_chunking max ps chunks :
  Forall (payload_ok max) ps -> concat chunks = stream_of ps ->
  wp (feed_chunks chunks) (fun out d => out = ps /\ is_empty d = true /\ poisoned d = None) (new max).
Proof.
  intros Hps Hc.
  enough (H : forall chunks d ps, Forall (payload_ok max) ps ->
    decoder_ok d -> poisoned d = None -> max_frame d = max ->
    unconsumed d ++ concat chunks = stream_of ps ->
    (concat chunks = [] -> ps = []) ->
    wp (feed_chunks chunks) (fun out d => out = ps /\ is_empty d = true /\ poisoned d = None) d).
  { apply H; [done|apply decoder_ok_new|done..|]. intros E. rewrite E in Hc.
    destruct ps; [done|]. by destruct (frame_bytes l) eqn:?. }
  clear. intros chunks. induction chunks as [|c chunks IH]; intros d ps Hps Hd Hn Hm Heq Hlast.
  - specialize (Hlast eq_refl) as ->. simpl in *. rewrite app_nil_r in Heq.
    apply wp_ret. split; [done|]. split; [|done]. unfold is_empty. apply N.eqb_eq.
    pose proof (len_unconsumed d) as Hl. rewrite Heq in Hl. destruct Hd. unfold len in Hl at 1. simpl in Hl. lia.
  - cbn [feed_chunks]. apply wp_bind, wp_modify, wp_bind, wp_get, wp_bind. eapply wp_mono.
    { apply (pop_frames_spec max ps Hps _ _ (concat chunks)); [by apply decoder_ok_feed|done..| |].
      - rewrite unconsumed_feed, <- app_assoc by done. done.
      - unfold unconsumed. rewrite length_drop. simpl. lia. }
    intros r d' (ps1 & ps2 & -> & -> & Hd' & Hn' & Hm' & Heq' & Hl). apply wp_bind.
    apply Forall_app in Hps as [_ Hps2]. eapply wp_mono; [by apply IH|].
    intros out d'' (-> & ?). apply wp_ret. done.
Qed.

Lemma frames_survive_chunking_witness :
  wp (feed_chunks [[2; 0; 0]; [0; 104]; [105; 0; 0; 0; 0; 1]; [0; 0; 0; 33]])
     (fun out d => out = [[104; 105]; []; [33]] /\ is_empty d = true /\ poisoned d = None) (new 1024).
Proof.
  apply (frames_survive_chunking 1024 [[104; 105]; []; [33]]); [|reflexivity].
  repeat constructor; vm_compute; congruence.
Defined.

(** The decoder refines the stream specification at every call: it returns
    the frame at the head of the unconsumed bytes, asks for more, or reports
    an oversize prefix as soon as its four bytes are there; it never panics
    and keeps less than 64 KiB of consumed bytes. *)
Theorem next_frame_refines_stream d :
  decoder_ok d -> poisoned d = None ->
  exists r d', next_frame d = Some (r, d') /\ decoder_ok d' /\
    match Stream.next (max_frame d) (unconsumed d) with
    | Stream.Frame p rest => r = Ok (Some p) /\ unconsumed d' = rest /\ poisoned d' = None
    | Stream.Oversize l =>
        r = Err (TooLarge l (max_frame d)) /\ poisoned d' = Some (l, max_frame d) /\
        unconsumed d' = unconsumed d
    | Stream.NeedMore => r = Ok None /\ d' = d
    end.
Proof.
  intros Hd Hn. destruct (proj1 (wp_run _ _ _) (next_frame_refines d Hd Hn)) as (r & d' & ? & ? & _ & ?).
  by exists r, d'.
Qed.

Lemma next_frame_refines_stream_witness :
  exists r d', next_frame (feed [1; 0; 0; 0; 7; 9] (new 16)) = Some (r, d') /\ r = Ok (Some [7]) /\
    unconsumed d' = [9].
Proof.
  destruct (next_frame_refines_stream (feed [1; 0; 0; 0; 7; 9] (new 16))) as (r & d' & H1 & _ & H2);
    [split; vm_compute; congruence|reflexivity|].
  exists r, d'. split; [exact H1|]. vm_compute in H2. destruct H2 as (-> & Hu & _). split; [done|exact Hu].
Defined.

(** An oversize prefix poisons the stream for good: after the error, no
    amount of further input makes the decoder return anything but that same
    error, so a peer cannot resynchronise past it. *)
Theorem oversize_is_sticky d l m chunks :
  poisoned d = Some (l, m) ->
  next_frame (fold_left (fun d c => feed c d) chunks d) =
    Some (Err (TooLarge l m), fold_left (fun d c => feed c d) chunks d).
Proof.
  revert d. induction chunks as [|c chunks IH]; intros d H; simpl.
  - by apply next_frame_poisoned.
  - by apply IH.
Qed.

Lemma oversize_is_sticky_witness :
  exists d, next_frame (feed [0; 0; 0; 1] (new 16)) = Some (Err (TooLarge 16777216 16), d) /\
    next_frame (fold_left (fun d c => feed c d) [[1]; [2; 3]] d) =
      Some (Err (TooLarge 16777216 16), fold_left (fun d c => feed c d) [[1]; [2; 3]] d).
Proof.
  eexists. split; [vm_compute; reflexivity|]. apply (oversize_is_sticky _ 16777216 16 [[1]; [2; 3]]).
  reflexivity.
Defined.
