(* ===== verification/Binary.v ===== *)
(** The binary results page: [crates/goz-core/src/proto/binary.rs], with the
    page types of [crates/goz-core/src/proto/types.rs].

    A Rust [String] is its UTF-8 bytes. *)

From stdpp Require Import base list option strings.
From Stdlib Require Import NArith ZArith Lia.
From S2P Require Import Prelude Wtf8 UsnRecord.

(** ** Page types *)

Definition MAX_CLIENT_FRAME : N := N.shiftl 1 20.
Definition MAX_SERVER_FRAME : N := N.shiftl 16 20.
Definition PAGE_ROWS : N := 4096.

Record ResultItem := {
  path : list N;
  path_u16 : option (list N);
  size : option N;
  mtime_ft : option Z;
  is_dir : bool
}.

Record QueryResults := {
  total : N;
  items : list ResultItem;
  more : bool;
  volumes_incomplete : bool;
  metadata_pending : bool;
  generation : N;
  total_size : option N
}.

(** ** Encoder *)

Definition RESP_TAG_JSON : N := 0.
Definition RESP_TAG_RESULTS : N := 1.
Definition FLAG_MORE : N := 1.
Definition FLAG_VOLUMES_INCOMPLETE : N := N.shiftl 1 1.
Definition FLAG_METADATA_PENDING : N := N.shiftl 1 2.
Definition FLAG_TOTAL_SIZE : N := N.shiftl 1 3.
Definition IFLAG_IS_DIR : N := 1.
Definition IFLAG_HAS_SIZE : N := N.shiftl 1 1.
Definition IFLAG_HAS_MTIME : N := N.shiftl 1 2.

(** [if b { flags |= bit }]. *)
Definition flag_if (b : bool) (bit flags : N) : N := if b then N.lor flags bit else flags.

Definition page_flags (more volumes_incomplete metadata_pending has_total_size : bool) : N :=
  flag_if has_total_size FLAG_TOTAL_SIZE
    (flag_if metadata_pending FLAG_METADATA_PENDING
      (flag_if volumes_incomplete FLAG_VOLUMES_INCOMPLETE (flag_if more FLAG_MORE 0))).

Definition push_results_header (out : list N) (total generation : N)
    (more volumes_incomplete metadata_pending : bool) (total_size : option N) (count : N) : list N :=
  out ++ [RESP_TAG_RESULTS] ++ le_encode 8 total ++ le_encode 8 generation ++
  [page_flags more volumes_incomplete metadata_pending (is_some total_size)] ++
  le_encode 4 count ++
  match total_size with Some s => le_encode 8 s | None => [] end.

Definition FLAGS_AT : N := 1 + 8 + 8.
Definition COUNT_AT : N := FLAGS_AT + 1.

(** [patch_results_header]: panics on a page shorter than a header. *)
Definition patch_results_header (page : list N) (more : bool) (count : N) : option (list N) :=
  flags ← getN FLAGS_AT page;
  page ← setN FLAGS_AT (if more then N.lor flags FLAG_MORE else N.land flags (N.lxor 255 FLAG_MORE)) page;
  if len page <? COUNT_AT + 4 then None
  else Some (take (N.to_nat COUNT_AT) page ++ le_encode 4 count ++ drop (N.to_nat (COUNT_AT + 4)) page).

Definition item_flags (is_dir has_size has_mtime : bool) : N :=
  flag_if has_mtime IFLAG_HAS_MTIME (flag_if has_size IFLAG_HAS_SIZE (flag_if is_dir IFLAG_IS_DIR 0)).

Definition push_item (out raw_path : list N) (is_dir : bool) (size : option N) (mtime : option Z) : list N :=
  out ++ le_encode 4 (as_u32 (len raw_path)) ++ raw_path ++
  [item_flags is_dir (is_some size) (is_some mtime)] ++
  match size with Some s => le_encode 8 s | None => [] end ++
  match mtime with Some m => le_encode 8 (i64_to_bits m) | None => [] end.

Definition raw_path_bytes (it : ResultItem) : list N :=
  match path_u16 it with
  | Some units => (from_utf16 units []).1
  | None => path it
  end.

Definition encode_results_payload (page : QueryResults) (out : list N) : list N :=
  fold_left (fun out it => push_item out (raw_path_bytes it) (is_dir it) (size it) (mtime_ft it))
    (items page)
    (push_results_header out (total page) (generation page) (more page) (volumes_incomplete page)
       (metadata_pending page) (total_size page) (as_u32 (len (items page)))).

(** ** Decoder *)

(** [BinError(&'static str)]. *)
Inductive BinError := bin_error (what : string).

Record Reader := { rbuf : list N; pos : N }.

Definition reader_u8 (r : Reader) : result BinError (N * Reader) :=
  b <-? ok_or (bin_error "truncated") (getN (pos r) (rbuf r));
  Ok (b, {| rbuf := rbuf r; pos := pos r + 1 |}).

(** [Reader::bytes], and [Reader::arr] which differs only in returning a fixed
    array. *)
Definition reader_bytes (n : N) (r : Reader) : result BinError (list N * Reader) :=
  end_ <-? ok_or (bin_error "overflow") (checked_add (pos r) n);
  if len (rbuf r) <? end_ then Err (bin_error "truncated")
  else Ok (slice (pos r) (end_ - pos r) (rbuf r), {| rbuf := rbuf r; pos := end_ |}).

Definition reader_u32 (r : Reader) : result BinError (N * Reader) :=
  '(bs, r) <-? reader_bytes 4 r; Ok (le_decode bs, r).
Definition reader_u64 (r : Reader) : result BinError (N * Reader) :=
  '(bs, r) <-? reader_bytes 8 r; Ok (le_decode bs, r).
Definition reader_i64 (r : Reader) : result BinError (Z * Reader) :=
  '(bs, r) <-? reader_bytes 8 r; Ok (i64_of_bits (le_decode bs), r).

(** [cond.then(|| read()).transpose()?]. *)
Definition read_if {A} (cond : bool) (rd : Reader -> result BinError (A * Reader)) (r : Reader)
  : result BinError (option A * Reader) :=
  if cond then '(a, r) <-? rd r; Ok (Some a, r) else Ok (None, r).

Definition has_flag (flags bit : N) : bool := negb (N.land flags bit =? 0).

Definition decode_item (r : Reader) : result BinError (ResultItem * Reader) :=
  '(plen, r) <-? reader_u32 r;
  '(p, r) <-? reader_bytes plen r;
  '(iflags, r) <-? reader_u8 r;
  '(sz, r) <-? read_if (has_flag iflags IFLAG_HAS_SIZE) reader_u64 r;
  '(mt, r) <-? read_if (has_flag iflags IFLAG_HAS_MTIME) reader_i64 r;
  let lossy := negb (utf8_valid p) in
  Ok ({| path := to_string_lossy p;
         path_u16 := if lossy then Some (to_utf16 p) else None;
         size := sz; mtime_ft := mt; is_dir := has_flag iflags IFLAG_IS_DIR |}, r).

(** [for _ in 0..count]: [count] comes off the wire, but every item takes at
    least five bytes, so the loop fails on truncation long before a hostile
    count is reached; [fuel] bounds it by the bytes there are. *)
Fixpoint decode_items (fuel : nat) (count : N) (r : Reader) (acc : list ResultItem)
  : option (result BinError (list ResultItem)) :=
  if count =? 0 then Some (Ok acc)
  else match fuel with
  | O => None
  | S fuel' =>
      ir <-! Some (decode_item r);
      decode_items fuel' (count - 1) ir.2 (acc ++ [ir.1])
  end.

Definition decode_results_payload (body : list N) : option (result BinError QueryResults) :=
  hd <-! Some ('(total, r) <-? reader_u64 {| rbuf := body; pos := 0 |};
               '(generation, r) <-? reader_u64 r;
               '(flags, r) <-? reader_u8 r;
               '(count, r) <-? reader_u32 r;
               '(ts, r) <-? read_if (has_flag flags FLAG_TOTAL_SIZE) reader_u64 r;
               Ok (total, generation, flags, count, ts, r));
  let '(total, generation, flags, count, ts, r) := hd in
  its <-! decode_items (S (length body)) count r [];
  Some (Ok {| total := total; items := its; more := has_flag flags FLAG_MORE;
              volumes_incomplete := has_flag flags FLAG_VOLUMES_INCOMPLETE;
              metadata_pending := has_flag flags FLAG_METADATA_PENDING;
              generation := generation; total_size := ts |}).

(** ** Reading back what was written *)

(** A reader in front of [post], having consumed [pre]. *)
Definition reader_at (pre post : list N) : Reader := {| rbuf := pre ++ post; pos := len pre |}.

Lemma reader_bytes_at n pre x post :
  n = len x -> len (pre ++ x ++ post) <= usize_max ->
  reader_bytes n (reader_at pre (x ++ post)) = Ok (x, reader_at (pre ++ x) post).
Proof.
  intros -> Hmax. unfold reader_bytes, reader_at, checked_add, ok_or. simpl.
  rewrite !len_app in *. rewrite (proj2 (N.leb_le _ usize_max)) by lia. simpl.
  rewrite (proj2 (N.ltb_ge _ _)) by lia. replace (len pre + len x - len pre) with (len x) by lia.
  rewrite slice_app_ge, N.sub_diag, slice_app_l by done. by rewrite app_assoc.
Qed.

Lemma reader_u8_at pre b post : reader_u8 (reader_at pre (b :: post)) = Ok (b, reader_at (pre ++ [b]) post).
Proof.
  unfold reader_u8, reader_at. simpl. unfold getN, len. rewrite Nat2N.id, list_lookup_middle by done.
  simpl. rewrite length_app, <- app_assoc. simpl. do 2 f_equal. f_equal. lia.
Qed.

Lemma reader_u32_at pre v post :
  v < 4294967296 -> len (pre ++ le_encode 4 v ++ post) <= usize_max ->
  reader_u32 (reader_at pre (le_encode 4 v ++ post)) = Ok (v, reader_at (pre ++ le_encode 4 v) post).
Proof.
  intros. unfold reader_u32. rewrite reader_bytes_at by done. cbn [result_bind].
  by rewrite le_decode_encode.
Qed.

Lemma reader_u64_at pre v post :
  v < 18446744073709551616 -> len (pre ++ le_encode 8 v ++ post) <= usize_max ->
  reader_u64 (reader_at pre (le_encode 8 v ++ post)) = Ok (v, reader_at (pre ++ le_encode 8 v) post).
Proof.
  intros. unfold reader_u64. rewrite reader_bytes_at by done. cbn [result_bind].
  by rewrite le_decode_encode.
Qed.

Lemma reader_i64_at pre z post :
  in_i64 z -> len (pre ++ le_encode 8 (i64_to_bits z) ++ post) <= usize_max ->
  reader_i64 (reader_at pre (le_encode 8 (i64_to_bits z) ++ post))
    = Ok (z, reader_at (pre ++ le_encode 8 (i64_to_bits z)) post).
Proof.
  intros. unfold reader_i64. rewrite reader_bytes_at by done. cbn [result_bind].
  rewrite le_decode_encode by apply i64_to_bits_bound. by rewrite i64_bits_roundtrip.
Qed.

Lemma item_flags_spec d s m :
  has_flag (item_flags d s m) IFLAG_IS_DIR = d /\ has_flag (item_flags d s m) IFLAG_HAS_SIZE = s /\
  has_flag (item_flags d s m) IFLAG_HAS_MTIME = m.
Proof. by destruct d, s, m. Qed.

Lemma page_flags_spec mo vi mp ts :
  has_flag (page_flags mo vi mp ts) FLAG_MORE = mo /\
  has_flag (page_flags mo vi mp ts) FLAG_VOLUMES_INCOMPLETE = vi /\
  has_flag (page_flags mo vi mp ts) FLAG_METADATA_PENDING = mp /\
  has_flag (page_flags mo vi mp ts) FLAG_TOTAL_SIZE = ts.
Proof. by destruct mo, vi, mp, ts. Qed.

(** An item as the index produces it: a valid UTF-8 path, or a lossy one
    together with the exact units it came from. *)
Definition item_ok (it : ResultItem) : Prop :=
  match path_u16 it with
  | None => utf8_valid (path it) = true
  | Some units => is_units units /\ (from_utf16 units []).2 = true /\
                  path it = to_string_lossy (from_utf16 units []).1
  end /\
  len (raw_path_bytes it) < 4294967296 /\
  (forall s, size it = Some s -> s < 18446744073709551616) /\
  (forall m, mtime_ft it = Some m -> in_i64 m).

Lemma push_item_app out raw d s m : push_item out raw d s m = out ++ push_item [] raw d s m.
Proof. reflexivity. Qed.

(** The path fields survive: the bytes determine both. *)
Lemma item_path it : item_ok it ->
  to_string_lossy (raw_path_bytes it) = path it /\
  (if negb (utf8_valid (raw_path_bytes it)) then Some (to_utf16 (raw_path_bytes it)) else None) = path_u16 it.
Proof.
  intros [Hp _]. unfold raw_path_bytes. destruct (path_u16 it) as [units|].
  - destruct Hp as (Hu & Hl & Hpath). pose proof (from_utf16_loop_flag units Hu) as Hf.
    pose proof (to_utf16_from_utf16_loop units Hu) as Hr.
    unfold from_utf16 in *. destruct (from_utf16_loop units) as [bs l]. simpl in *. subst l.
    rewrite <- Hf. rewrite Hr. by rewrite Hpath.
  - rewrite Hp. simpl. split; [|done]. unfold to_string_lossy. by rewrite Hp.
Qed.

(** What a pushed row reads as. *)
Record RawItem := { ri_path : list N; ri_is_dir : bool; ri_size : option N; ri_mtime : option Z }.
Definition pushed (w : RawItem) : list N := push_item [] (ri_path w) (ri_is_dir w) (ri_size w) (ri_mtime w).
Definition shown (w : RawItem) : ResultItem :=
  {| path := to_string_lossy (ri_path w); path_u16 := if negb (utf8_valid (ri_path w)) then Some (to_utf16 (ri_path w)) else None;
     size := ri_size w; mtime_ft := ri_mtime w; is_dir := ri_is_dir w |}.
Definition raw_ok (w : RawItem) : Prop :=
  len (ri_path w) < 4294967296 /\ (forall s, ri_size w = Some s -> s < 18446744073709551616) /\ (forall m, ri_mtime w = Some m -> in_i64 m).

Lemma decode_raw_at pre w post :
  raw_ok w -> len (pre ++ pushed w ++ post) <= usize_max ->
  decode_item (reader_at pre (pushed w ++ post)) = Ok (shown w, reader_at (pre ++ pushed w) post).
Proof.
  destruct w as [raw d sz mt]. intros (Hlen & Hsz & Hmt) Hmax. unfold pushed, shown, push_item, decode_item, as_u32 in *.
  cbn [ri_path ri_is_dir ri_size ri_mtime] in *. rewrite N.mod_small in * by done.
  destruct (item_flags_spec d (is_some sz) (is_some mt)) as (Hf1 & Hf2 & Hf3).
  cbn [app] in *. rewrite <- !app_assoc in *. cbn [app] in *.
  rewrite reader_u32_at by len_solve. cbn [result_bind].
  rewrite reader_bytes_at by (done || len_solve). cbn [result_bind].
  rewrite reader_u8_at. cbn [result_bind]. rewrite Hf1, Hf2, Hf3. clear Hf1 Hf2 Hf3.
  destruct sz as [s|], mt as [m|]; cbn [is_some read_if app] in *; rewrite <- ?app_assoc in *;
    repeat first
      [ rewrite reader_u64_at by first [by apply Hsz | len_solve]
      | rewrite reader_i64_at by first [by apply Hmt | len_solve]
      | progress cbn [result_bind] ];
    rewrite ?app_nil_r, <- ?app_assoc; cbn [app]; done.
Qed.

(** The raw row of an item. *)
Definition raw_of (it : ResultItem) : RawItem :=
  {| ri_path := raw_path_bytes it; ri_is_dir := is_dir it; ri_size := size it; ri_mtime := mtime_ft it |}.

Lemma shown_raw it : item_ok it -> shown (raw_of it) = it /\ raw_ok (raw_of it).
Proof.
  intros Hit. destruct (item_path it Hit) as [Hp Hu]. destruct Hit as (_ & ? & ? & ?). split; [|done].
  unfold shown, raw_of. cbn [ri_path ri_is_dir ri_size ri_mtime]. rewrite Hp, Hu. by destruct it.
Qed.

Definition items_bytes (ws : list RawItem) : list N := concat (map pushed ws).

Lemma encode_items its out :
  fold_left (fun out it => push_item out (raw_path_bytes it) (is_dir it) (size it) (mtime_ft it)) its out
    = out ++ items_bytes (raw_of <$> its).
Proof.
  revert out. induction its as [|it its IH]; intros out; cbn [fold_left].
  - unfold items_bytes. simpl. by rewrite app_nil_r.
  - rewrite IH, push_item_app. unfold items_bytes. cbn [fmap list_fmap map concat]. by rewrite app_assoc.
Qed.

Lemma decode_items_at ws : Forall raw_ok ws -> forall fuel pre post acc,
  (length ws <= fuel)%nat -> len (pre ++ items_bytes ws ++ post) <= usize_max ->
  decode_items fuel (len ws) (reader_at pre (items_bytes ws ++ post)) acc = Some (Ok (acc ++ (shown <$> ws))).
Proof.
  induction 1 as [|w ws Hw Hws IH]; intros fuel pre post acc Hf Hmax.
  - destruct fuel; simpl; by rewrite app_nil_r.
  - destruct fuel as [|fuel]; [simpl in Hf; lia|]. cbn [decode_items].
    rewrite len_cons, (proj2 (N.eqb_neq _ _)) by lia.
    change (items_bytes (w :: ws)) with (pushed w ++ items_bytes ws) in *.
    rewrite <- app_assoc in *. rewrite decode_raw_at by done. cbn [run_bind fst snd].
    replace (1 + len ws - 1) with (len ws) by lia.
    rewrite IH; [by rewrite <- app_assoc|simpl in Hf; lia|by rewrite <- app_assoc].
Qed.

Lemma pushed_len w : 5 <= len (pushed w).
Proof. unfold pushed, push_item. cbn [app]. autorewrite with goz_len. lia. Qed.

Lemma items_bytes_len ws : 5 * len ws <= len (items_bytes ws).
Proof.
  induction ws as [|w ws IH]; [done|].
  change (items_bytes (w :: ws)) with (pushed w ++ items_bytes ws).
  pose proof (pushed_len w). rewrite len_app, len_cons. lia.
Qed.

(** ** The decoder on arbitrary bytes *)

Lemma reader_bytes_ok n r x r' :
  reader_bytes n r = Ok (x, r') -> rbuf r' = rbuf r /\ pos r' = pos r + n /\ pos r' <= len (rbuf r).
Proof.
  unfold reader_bytes, checked_add, ok_or. intros H. destruct (_ <=? usize_max); [|done].
  simpl in H. destruct (N.ltb_spec (len (rbuf r)) (pos r + n)); simplify_eq/=. done.
Qed.

Lemma decode_item_advances r it r' :
  decode_item r = Ok (it, r') -> rbuf r' = rbuf r /\ pos r < pos r' /\ pos r < len (rbuf r).
Proof.
  unfold decode_item. intros H. apply result_bind_ok in H as ([plen r1] & H1 & H).
  unfold reader_u32 in H1. apply result_bind_ok in H1 as ([x r1'] & H1%reader_bytes_ok & [= _ <-]).
  apply result_bind_ok in H as ([p r2] & H2%reader_bytes_ok & H).
  apply result_bind_ok in H as ([fl r3] & H3 & H).
  unfold reader_u8, ok_or in H3. destruct (getN _ _); [|done]. cbn [result_bind] in H3. simplify_eq/=.
  apply result_bind_ok in H as ([sz r4] & H4 & H). apply result_bind_ok in H as ([mt r5] & H5 & [= _ <-]).
  assert (forall (c : bool) r0 o r0', read_if c reader_u64 r0 = Ok (o, r0') -> rbuf r0' = rbuf r0 /\ pos r0 <= pos r0') as R1.
  { intros [] r0 o r0' E; simpl in E; [|by simplify_eq].
    apply result_bind_ok in E as ([a q] & E & [= _ <-]). unfold reader_u64 in E.
    apply result_bind_ok in E as ([x0 q'] & E%reader_bytes_ok & [= _ <-]). destruct E as (? & ? & _). split; [done|lia]. }
  assert (forall (c : bool) r0 o r0', read_if c reader_i64 r0 = Ok (o, r0') -> rbuf r0' = rbuf r0 /\ pos r0 <= pos r0') as R2.
  { intros [] r0 o r0' E; simpl in E; [|by simplify_eq].
    apply result_bind_ok in E as ([a q] & E & [= _ <-]). unfold reader_i64 in E.
    apply result_bind_ok in E as ([x0 q'] & E%reader_bytes_ok & [= _ <-]). destruct E as (? & ? & _). split; [done|lia]. }
  apply R1 in H4. apply R2 in H5. simpl in *. destruct_and!.
  split; [congruence|]. split; lia.
Qed.

Lemma decode_items_total fuel count r acc :
  (N.to_nat (len (rbuf r) - pos r) < fuel)%nat -> exists o, decode_items fuel count r acc = Some o.
Proof.
  revert count r acc. induction fuel as [|fuel IH]; intros count r acc Hf; [lia|].
  cbn [decode_items]. destruct (count =? 0); [by eauto|]. apply run_bind_total; [by eauto|].
  intros [it r'] [= H%decode_item_advances]. apply IH. simpl. destruct H as (-> & ? & ?). lia.
Qed.

(** Patching touches the flag byte and the four count bytes only. *)
Lemma patch_at h fl c rest mo count :
  len h = FLAGS_AT -> len c = 4 ->
  patch_results_header (h ++ fl :: c ++ rest) mo count =
    Some (h ++ (if mo then N.lor fl FLAG_MORE else N.land fl (N.lxor 255 FLAG_MORE))
            :: le_encode 4 count ++ rest).
Proof.
  unfold patch_results_header, COUNT_AT, FLAGS_AT. intros Hh Hc.
  assert (length h = 17%nat) as Hh' by (unfold len in Hh; lia).
  assert (length c = 4%nat) as Hc' by (unfold len in Hc; lia).
  assert (Hins : forall v, <[17%nat := v]> (h ++ fl :: c ++ rest) = h ++ v :: c ++ rest).
  { intros v. replace 17%nat with (length h + 0)%nat by lia. by rewrite insert_app_r. }
  assert (Hget : (h ++ fl :: c ++ rest) !! 17%nat = Some fl)
    by (rewrite <- Hh'; by apply list_lookup_middle).
  unfold getN. change (N.to_nat (1 + 8 + 8)) with 17%nat. rewrite Hget. cbn [mbind option_bind].
  rewrite setN_some by (rewrite len_app, Hh, len_cons; lia). cbn [mbind option_bind].
  change (N.to_nat (1 + 8 + 8)) with 17%nat. rewrite Hins. set (v := if mo then _ else _).
  rewrite (proj2 (N.ltb_ge _ _)) by (rewrite len_app, Hh, len_cons, len_app, Hc; lia).
  f_equal. change (N.to_nat (1 + 8 + 8 + 1)) with 18%nat. change (N.to_nat (1 + 8 + 8 + 1 + 4)) with 22%nat.
  replace (h ++ v :: c ++ rest) with ((h ++ [v]) ++ c ++ rest) by (by rewrite <- app_assoc).
  rewrite take_app_length' by (rewrite length_app; simpl; lia).
  rewrite (app_assoc (h ++ [v]) c rest), drop_app_length' by (rewrite !length_app; simpl; lia).
  by rewrite <- app_assoc.
Qed.

(** ** Theorems *)

(** What a page must satisfy to fit the wire: 64-bit fields, 32-bit counts and
    items as the index produces them. *)
Record page_ok (p : QueryResults) : Prop := {
  po_total : total p < 18446744073709551616;
  po_generation : generation p < 18446744073709551616;
  po_total_size : forall s, total_size p = Some s -> s < 18446744073709551616;
  po_items : Forall item_ok (items p);
  po_count : len (items p) < 4294967296
}.

(** A header and the rows after it read back as they were written. *)
Lemma decode_pushed t g mo vi mp ts ws :
  t < 18446744073709551616 -> g < 18446744073709551616 -> (forall s, ts = Some s -> s < 18446744073709551616) ->
  Forall raw_ok ws -> len ws < 4294967296 ->
  len (push_results_header [] t g mo vi mp ts (len ws) ++ items_bytes ws) <= usize_max ->
  exists body, push_results_header [] t g mo vi mp ts (len ws) ++ items_bytes ws = RESP_TAG_RESULTS :: body /\
    decode_results_payload body = Some (Ok {| total := t; items := shown <$> ws; more := mo; volumes_incomplete := vi;
      metadata_pending := mp; generation := g; total_size := ts |}).
Proof.
  intros Ht Hg Hts Hws Hc Hmax. unfold push_results_header in *. cbn [app] in *. eexists. split; [reflexivity|].
  unfold decode_results_payload. destruct (page_flags_spec mo vi mp (is_some ts)) as (Hf1 & Hf2 & Hf3 & Hf4).
  rewrite <- !app_assoc in *. cbn [app] in *. rewrite <- !app_assoc in *.
  set (fl := page_flags _ _ _ _) in *. rewrite len_cons in Hmax.
  match goal with |- context [decode_items (S ?n) _ _ _] => set (fuel := S n) end.
  assert (length ws <= fuel)%nat as Hfuel.
  { unfold fuel. pose proof (items_bytes_len ws) as Hl. repeat (rewrite !length_app || cbn [length]). unfold len in Hl. lia. }
  match goal with |- context [{| rbuf := ?b; pos := 0 |}] =>
    change {| rbuf := b; pos := 0 |} with (reader_at [] b) end.
  rewrite reader_u64_at by len_solve. cbn [result_bind].
  rewrite reader_u64_at by len_solve. cbn [result_bind].
  rewrite reader_u8_at. cbn [result_bind].
  rewrite reader_u32_at by len_solve. cbn [result_bind]. rewrite Hf4.
  clearbody fuel.
  destruct ts as [ts|]; cbn [is_some read_if app] in *;
    [rewrite reader_u64_at by first [by apply Hts | len_solve]|]; cbn [result_bind run_bind];
    rewrite <- (app_nil_r (items_bytes ws));
    rewrite decode_items_at by (done || len_solve); cbn [run_bind app];
    by rewrite Hf1, Hf2, Hf3.
Qed.

(** C38: a results page survives the wire: decoding the payload of an encoded
    page (behind its tag byte) gives back the identical page, paths with lone
    surrogates and absent metadata included. *)
Theorem page_round_trip p :
  page_ok p -> len (encode_results_payload p []) <= usize_max ->
  exists body, encode_results_payload p [] = RESP_TAG_RESULTS :: body /\
    decode_results_payload body = Some (Ok p).
Proof.
  intros [Ht Hg Hts Hits Hc] Hmax. unfold encode_results_payload in *. rewrite encode_items in *.
  unfold as_u32 in *. rewrite N.mod_small in * by done.
  assert (El : len (items p) = len (raw_of <$> items p)) by (unfold len; by rewrite length_fmap). rewrite El in *.
  destruct (decode_pushed (total p) (generation p) (more p) (volumes_incomplete p) (metadata_pending p) (total_size p) (raw_of <$> items p))
    as (body & E & D); [done|done|done| |done|done|].
  { apply Forall_fmap. eapply Forall_impl; [exact Hits|]. intros it Hit. by apply shown_raw. }
  exists body. split; [exact E|]. rewrite D, <- list_fmap_compose. destruct p as [t its mo vi mp g ts]. simpl in *. do 3 f_equal.
  rewrite <- (list_fmap_id its) at 2. apply list_fmap_ext. intros i it Hit. cbn. apply shown_raw. by eapply Forall_lookup_1.
Qed.

(** Decoding arbitrary bytes terminates with a page or an error: a hostile
    item count cannot make the decoder loop past the bytes it was given. *)
Theorem decode_total body : exists r, decode_results_payload body = Some r.
Proof.
  unfold decode_results_payload. apply run_bind_total; [by eauto|].
  intros [[[[[t g] fl] c] ts] r] [= H]. apply run_bind_total; [|by eauto].
  apply decode_items_total. 
  assert (rbuf r = body) as ->; [|unfold len; lia].
  unfold reader_u64, reader_u32, reader_u8, ok_or in H.
  repeat match goal with
  | H : result_bind _ _ = Ok _ |- _ => apply result_bind_ok in H as (? & ? & ?)
  | H : reader_bytes _ _ = Ok (_, _) |- _ => apply reader_bytes_ok in H
  | H : _ * _ |- _ => destruct H
  | H : read_if ?c _ _ = Ok _ |- _ => destruct c; simpl in H
  | H : context [getN ?i ?l] |- _ => destruct (getN i l)
  | _ => progress (simplify_eq/=; destruct_and?)
  end; congruence.
Qed.

(** Patching [more] and [count] into a header that was already written
    gives exactly the header written with those values: no other byte of the
    page moves. *)
Theorem patch_results_header_spec total generation mo vi mp ts count items mo' count' :
  patch_results_header (push_results_header [] total generation mo vi mp ts count ++ items) mo' count'
  = Some (push_results_header [] total generation mo' vi mp ts count' ++ items).
Proof.
  unfold push_results_header. set (tsb := match ts with Some s => le_encode 8 s | None => [] end).
  set (h := RESP_TAG_RESULTS :: le_encode 8 total ++ le_encode 8 generation).
  assert (E : forall fl c,
    ([] ++ [RESP_TAG_RESULTS] ++ le_encode 8 total ++ le_encode 8 generation ++ [fl] ++ le_encode 4 c ++ tsb) ++ items
    = h ++ fl :: le_encode 4 c ++ tsb ++ items) by reflexivity.
  rewrite !E, patch_at by done. do 3 f_equal. by destruct mo, mo', vi, mp, ts.
Qed.

Definition page_example : QueryResults :=
  {| total := 2;
     items := [ {| path := [0x43; 0x3A; 0x5C; 0x61]; path_u16 := None; size := Some 7;
                   mtime_ft := Some (-5)%Z; is_dir := false |};
                {| path := [0x43; 0xEF; 0xBF; 0xBD]; path_u16 := Some [0x43; 0xD800]; size := None;
                   mtime_ft := None; is_dir := true |} ];
     more := true; volumes_incomplete := false; metadata_pending := true; generation := 0;
     total_size := Some 99 |}.

Lemma page_round_trip_witness :
  exists body, encode_results_payload page_example [] = RESP_TAG_RESULTS :: body /\
    decode_results_payload body = Some (Ok page_example).
Proof.
  apply (page_round_trip page_example); [|vm_compute; congruence].
  constructor; [reflexivity|reflexivity|intros ? [= <-]; reflexivity| |reflexivity].
  apply Forall_cons_2; [|apply Forall_cons_2; [|apply Forall_nil_2]];
    (split; [|split; [reflexivity|split; [intros ? [=]; subst; reflexivity|]]]).
  - reflexivity.
  - intros ? [= <-]. split; vm_compute; congruence.
  - split; [unfold is_units; repeat constructor|split; reflexivity].
  - intros ? [=].
Defined.
