(* ===== verification/Proto.v ===== *)
(** The messages of the protocol and their frames: [Request], [Response] and
    what they carry, from [crates/goz-core/src/proto/types.rs], and the encoders
    and decoders over them, from [crates/goz-core/src/proto/frame.rs].

    JSON is serde's: a class of the functions used, with the law that reading
    back what was written gives the same value. *)

From stdpp Require Import base list option.
From Stdlib Require Import NArith Lia.
From S2P Require Import Prelude Types Wtf8 Frame Binary.

Definition PROTO_VERSION : N := 1.

(** ** Requests *)

Record QueryRequest := {
  qr_query : list N;
  qr_scope : option (list N);
  qr_sort : SortSpec;
  qr_offset : N;
  qr_limit : option N;
  qr_want_size : bool;
  qr_want_mtime : bool;
  qr_match_case : bool;
  qr_want_total_size : bool
}.

Inductive Request :=
| RHello (proto_min proto_max : N) (client : list N)
| RQuery (q : QueryRequest)
| RStatus.

(** ** Responses *)

Inductive ProtoError := BadQuery | Internal | ErrTooLarge | Unsupported.

Record MemPair := { used : N; alloc : N }.
Record VolumeMemory := {
  m_entries : MemPair; m_arena_raw : MemPair; m_arena_folded : MemPair; m_frn_map : MemPair; m_name_tables : MemPair;
  m_dir_children : MemPair; m_frn_map_kind : list N
}.

Record VolumeStatus := {
  vs_guid : list N;
  vs_mounts : list (list N);
  vs_phase : VolumePhase;
  vs_entries : N;
  vs_generation : N;
  vs_metadata_pending : bool;
  vs_journal_max_bytes : option N;
  vs_has_orphans : bool;
  vs_has_parent_cycle : bool;
  vs_names_waiting : N;
  vs_placeholders_created : N;
  vs_delete_of_unknown : N;
  vs_stale_slots : N;
  vs_link_reconciles_dropped : N;
  vs_memory : option VolumeMemory
}.

Record DaemonStatus := {
  ds_volumes : list VolumeStatus;
  ds_volumes_incomplete : bool;
  ds_process_working_set : N;
  ds_process_private_bytes : N
}.

Inductive Response :=
| Hello (proto : N) (server : list N) (ready : bool)
| Results (page : QueryResults)
| Status (s : DaemonStatus)
| Error (code : ProtoError) (message : list N).

(** ** JSON *)

(** [serde_json]: writing cannot fail for these types; reading may. *)
Class SerdeJson := {
  JsonError : Type;
  request_json : Request -> list N;
  response_json : Response -> list N;
  request_of_json : list N -> result JsonError Request;
  response_of_json : list N -> result JsonError Response
}.

Class SerdeJsonOk (J : SerdeJson) := {
  request_json_back r : request_of_json (request_json r) = Ok r;
  response_json_back r : response_of_json (response_json r) = Ok r
}.

Section frames.
Context {J : SerdeJson}.

Definition encode_request (req : Request) (out : list N) : option (list N) := encode_frame (request_json req) out.
Definition encode_response (resp : Response) (out : list N) : option (list N) := encode_frame (response_json resp) out.
Definition decode_request (frame : list N) : result JsonError Request := request_of_json frame.
Definition decode_response (frame : list N) : result JsonError Response := response_of_json frame.

Inductive RespFrameError :=
| RespJson (e : JsonError)
| RespBinary (e : BinError)
| UnknownTag (tag : N)
| Empty.

(** The payload of a tagged frame. *)
Definition response_payload (resp : Response) : list N :=
  match resp with
  | Results page => encode_results_payload page []
  | other => RESP_TAG_JSON :: response_json other
  end.

Definition encode_response_frame (resp : Response) (out : list N) : option (list N) := encode_frame (response_payload resp) out.

(** [decode_response_frame]; [None] would be a decoder out of fuel. *)
Definition decode_response_frame (frame : list N) : option (result RespFrameError Response) :=
  match frame with
  | [] => Some (Err Empty)
  | tag :: body =>
      if tag =? RESP_TAG_JSON then Some (match response_of_json body with Ok r => Ok r | Err e => Err (RespJson e) end)
      else if tag =? RESP_TAG_RESULTS then
        r ← decode_results_payload body;
        Some (match r with Ok page => Ok (Results page) | Err e => Err (RespBinary e) end)
      else Some (Err (UnknownTag tag))
  end.

(** ** Round trips *)

Lemma encode_response_bytes resp : len (response_payload resp) <= u32_max -> encode_response_frame resp [] = Some (frame_bytes (response_payload resp)).
Proof. intros Hl. unfold encode_response_frame. by rewrite encode_frame_bytes. Qed.

(** A results page comes off the wire tagged, and reads as itself. *)
Lemma page_frame_read payload body page : payload = RESP_TAG_RESULTS :: body -> decode_results_payload body = Some (Ok page) ->
  decode_response_frame payload = Some (Ok (Results page)).
Proof. intros -> E. simpl. by rewrite E. Qed.

Lemma json_frame_read {Jok : SerdeJsonOk J} resp : (forall p, resp <> Results p) -> decode_response_frame (response_payload resp) = Some (Ok resp).
Proof. intros Hn. destruct resp; simpl; try (by rewrite response_json_back). by destruct (Hn page). Qed.

Lemma decode_response_total frame : exists r, decode_response_frame frame = Some r.
Proof.
  destruct frame as [|tag body]; [by eexists|]. simpl. destruct (tag =? RESP_TAG_JSON); [by eexists|]. destruct (tag =? RESP_TAG_RESULTS); [|by eexists].
  destruct (decode_total body) as [r ->]. by eexists.
Qed.
End frames.
