(* ===== verification/Filetime.v ===== *)
(** FILETIME conversion and calendar arithmetic:
    [crates/goz-core/src/output/filetime.rs].

    Values are [i64]s: [Z] with the saturating operations written out.  Rust's
    [div_euclid] and [rem_euclid] by a positive divisor are [Z.div] and
    [Z.modulo]. *)

From stdpp Require Import base list strings pretty.
From Stdlib Require Import ZArith NArith Lia.
From S2P Require Import Prelude.
Open Scope Z_scope.

Definition FILETIME_UNIX_EPOCH : Z := 116444736000000000.
Definition DAYS_1601_TO_1970 : Z := 134774.

(** [i64::saturating_*]. *)
Definition saturate (z : Z) : Z := Z.max i64_min (Z.min i64_max z).

Definition filetime_to_unix_ms (ft : Z) : Z := saturate (ft - FILETIME_UNIX_EPOCH) / 10000.
Definition unix_ms_to_filetime (ms : Z) : Z :=
  saturate (saturate (ms * 10000) + FILETIME_UNIX_EPOCH).

Definition civil_from_days (days : Z) : Z * Z * Z :=
  let z := days + 719468 in
  let era := z / 146097 in
  let doe := z mod 146097 in
  let yoe := (doe - doe / 1460 + doe / 36524 - doe / 146096) / 365 in
  let y := yoe + era * 400 in
  let doy := doe - (365 * yoe + yoe / 4 - yoe / 100) in
  let mp := (5 * doy + 2) / 153 in
  let d := doy - (153 * mp + 2) / 5 + 1 in
  let m := if mp <? 10 then mp + 3 else mp - 9 in
  ((if m <=? 2 then y + 1 else y), m, d).

Definition days_from_civil (year month day : Z) : Z :=
  let y := if month <=? 2 then year - 1 else year in
  let era := y / 400 in
  let yoe := y mod 400 in
  let mp := (month + 9) mod 12 in
  let doy := (153 * mp + 2) / 5 + day - 1 in
  let doe := yoe * 365 + yoe / 4 - yoe / 100 + doy in
  era * 146097 + doe - 719468.

(** [{z:0w}]: decimal, zero-padded to width [w], the sign included in it. *)
Definition pad_int (w : nat) (z : Z) : string :=
  let digits := pretty (Z.to_N (Z.abs z)) in
  let sign := if z <? 0 then "-" else "" in
  let have := (String.length digits + String.length sign)%nat in
  sign +:+ String.concat "" (replicate (w - have) "0") +:+ digits.

Definition format_filetime_utc (ft : Z) : string :=
  let secs := ft / 10000000 in
  let days := secs / 86400 in
  let tod := secs mod 86400 in
  let '(y, m, d) := civil_from_days (days - DAYS_1601_TO_1970) in
  let hh := tod / 3600 in
  let mm := (tod mod 3600) / 60 in
  let ss := tod mod 60 in
  pad_int 4 y +:+ "-" +:+ pad_int 2 m +:+ "-" +:+ pad_int 2 d +:+ "T" +:+
  pad_int 2 hh +:+ ":" +:+ pad_int 2 mm +:+ ":" +:+ pad_int 2 ss.

Example format_epoch : format_filetime_utc FILETIME_UNIX_EPOCH = "1970-01-01T00:00:00".
Proof. vm_compute. reflexivity. Qed.
Example format_before_1601 : format_filetime_utc (-1) = "1600-12-31T23:59:59".
Proof. vm_compute. reflexivity. Qed.

(** ** The Gregorian calendar *)

Definition is_leap (y : Z) : bool := (y mod 4 =? 0) && (negb (y mod 100 =? 0) || (y mod 400 =? 0)).

Definition days_in_month (y m : Z) : Z :=
  if m =? 2 then (if is_leap y then 29 else 28)
  else if (m =? 4) || (m =? 6) || (m =? 9) || (m =? 11) then 30 else 31.

Definition valid_date (y m d : Z) : Prop := 1 <= m <= 12 /\ 1 <= d <= days_in_month y m.

Ltac Zify.zify_post_hook ::= Z.to_euclidean_division_equations.

(** ** One 400-year era *)

(** Year of era and day of (March-based) year, from the day of era. *)
Definition yoe_of (doe : Z) : Z := (doe - doe / 1460 + doe / 36524 - doe / 146096) / 365.
Definition doy_of (doe : Z) : Z := doe - (365 * yoe_of doe + yoe_of doe / 4 - yoe_of doe / 100).
Definition doe_of (yoe doy : Z) : Z := yoe * 365 + yoe / 4 - yoe / 100 + doy.

(** A March-based year ends on the leap day of the civil year it ends in. *)
Definition leap_ended (yoe : Z) : Prop :=
  (yoe + 1) mod 4 = 0 /\ ((yoe + 1) mod 100 <> 0 \/ (yoe + 1) mod 400 = 0).

Lemma yoe_bounds doe : 0 <= doe < 146097 -> 0 <= yoe_of doe <= 399.
Proof. unfold yoe_of. lia. Qed.

Lemma doy_bounds doe :
  0 <= doe < 146097 -> 0 <= doy_of doe <= 365 /\ (doy_of doe = 365 -> leap_ended (yoe_of doe)).
Proof.
  intros H. pose proof (yoe_bounds doe H) as Hy. unfold doy_of, leap_ended, yoe_of in *. lia.
Qed.

Lemma yoe_of_doe_of yoe doy :
  0 <= yoe <= 399 -> 0 <= doy <= 365 -> (doy = 365 -> leap_ended yoe) ->
  0 <= doe_of yoe doy < 146097 /\ yoe_of (doe_of yoe doy) = yoe.
Proof.
  intros Hy Hd Hl. unfold leap_ended in Hl.
  assert (0 <= doe_of yoe doy < 146097) as Hb by (unfold doe_of; lia).
  split; [done|]. unfold yoe_of, doe_of in *. lia.
Qed.

(** The months of a March-based year: month and day from the day of year. *)
Definition mp_of (doy : Z) : Z := (5 * doy + 2) / 153.
Definition day_of (doy : Z) : Z := doy - (153 * mp_of doy + 2) / 5 + 1.
Definition month_of (mp : Z) : Z := if mp <? 10 then mp + 3 else mp - 9.

Lemma civil_from_days_eq days :
  let doe := (days + 719468) mod 146097 in
  let y := yoe_of doe + (days + 719468) / 146097 * 400 in
  let m := month_of (mp_of (doy_of doe)) in
  civil_from_days days = ((if m <=? 2 then y + 1 else y), m, day_of (doy_of doe)).
Proof. reflexivity. Qed.

Lemma month_of_bounds mp : 0 <= mp <= 11 -> 1 <= month_of mp <= 12 /\ (month_of mp + 9) mod 12 = mp.
Proof. unfold month_of. intros. destruct (Z.ltb_spec mp 10); lia. Qed.

Lemma mp_bounds doy : 0 <= doy <= 365 -> 0 <= mp_of doy <= 11 /\ 1 <= day_of doy.
Proof. unfold day_of, mp_of. lia. Qed.

(** A condition on the twelve months, checked one by one. *)
Lemma month_cases (P : Z -> Prop) mp :
  0 <= mp <= 11 -> Forall P [0;1;2;3;4;5;6;7;8;9;10;11] -> P mp.
Proof.
  intros Hmp HP. rewrite Forall_forall in HP. apply HP.
  assert (mp = 0 \/ mp = 1 \/ mp = 2 \/ mp = 3 \/ mp = 4 \/ mp = 5 \/ mp = 6 \/ mp = 7 \/ mp = 8 \/
    mp = 9 \/ mp = 10 \/ mp = 11) as H by lia.
  rewrite !elem_of_cons. tauto.
Qed.

Lemma is_leap_spec y : is_leap y = true <-> y mod 4 = 0 /\ (y mod 100 <> 0 \/ y mod 400 = 0).
Proof.
  unfold is_leap. rewrite andb_true_iff, orb_true_iff, negb_true_iff, !Z.eqb_eq, Z.eqb_neq. done.
Qed.

Lemma is_leap_era yoe era : is_leap (yoe + era * 400 + 1) = true <-> leap_ended yoe.
Proof. rewrite is_leap_spec. unfold leap_ended. lia. Qed.

(** Evaluates the comparisons and month numbers of a concrete month. *)
Ltac eval_month :=
  repeat match goal with
  | |- context [month_of ?a] =>
      let v := eval vm_compute in (month_of a) in
      first [is_var a; fail 1 | change (month_of a) with v]
  | |- context [?a =? ?b] =>
      let v := eval vm_compute in (a =? b) in
      match v with true => idtac | false => idtac end; change (a =? b) with v
  | |- context [?a <=? ?b] =>
      let v := eval vm_compute in (a <=? b) in
      match v with true => idtac | false => idtac end; change (a <=? b) with v
  end; cbn [orb].

(** The day is at most the length of its month. *)
Lemma day_of_max doy y yoe era :
  0 <= doy <= 365 -> (doy = 365 -> leap_ended yoe) ->
  y = (if month_of (mp_of doy) <=? 2 then yoe + era * 400 + 1 else yoe + era * 400) ->
  day_of doy <= days_in_month y (month_of (mp_of doy)).
Proof.
  intros Hd Hl ->. pose proof (mp_bounds doy Hd) as [Hmp _].
  pose proof (is_leap_era yoe era) as Hle.
  unfold day_of. revert Hmp. assert (mp_of doy = (5 * doy + 2) / 153) as Hq by done. revert Hq.
  generalize (mp_of doy). intros mp Hq Hmp.
  revert Hq. pattern mp. apply month_cases; [done|].
  repeat apply Forall_cons_2; try apply Forall_nil_2; intros Hq;
    unfold days_in_month; eval_month; try lia.
  (* February: the 29th is day 365 of the March-based year. *)
  destruct (is_leap (yoe + era * 400 + 1)); [lia|].
  assert (doy <> 365) by (intros ->; by apply Hle in Hl). lia.
Qed.

(** ** Theorems *)

(** For every day number the civil date computed is a real Gregorian date
    (month 1 to 12, day within its month, February 29 only in leap years) and
    [days_from_civil] takes it back to the same day. *)
Lemma civil_from_days_valid days y m d :
  civil_from_days days = (y, m, d) -> valid_date y m d /\ days_from_civil y m d = days.
Proof.
  rewrite civil_from_days_eq. cbv zeta. set (doe := (days + 719468) mod 146097).
  set (era := (days + 719468) / 146097). intros [= <- <- <-].
  assert (0 <= doe < 146097) as Hdoe by (unfold doe; lia).
  pose proof (doy_bounds doe Hdoe) as [Hdoy Hleap]. pose proof (yoe_bounds doe Hdoe) as Hyoe.
  pose proof (mp_bounds (doy_of doe) Hdoy) as [Hmp Hday].
  pose proof (month_of_bounds (mp_of (doy_of doe)) Hmp) as [Hm Hmod].
  split; [split; [done|split; [done|]]|].
  - by eapply (day_of_max (doy_of doe) _ (yoe_of doe) era).
  - unfold days_from_civil. rewrite Hmod.
    match goal with |- context [?y / 400] =>
      replace y with (yoe_of doe + era * 400) by (destruct (_ <=? 2); lia) end.
    replace ((yoe_of doe + era * 400) / 400) with era by lia.
    replace ((yoe_of doe + era * 400) mod 400) with (yoe_of doe) by lia.
    unfold day_of. assert (days = era * 146097 + doe - 719468) as Hdays by (unfold era, doe; lia).
    unfold doy_of. lia.
Qed.

Lemma doy_of_date m y d :
  valid_date y m d ->
  let mp := (m + 9) mod 12 in
  let doy := (153 * mp + 2) / 5 + d - 1 in
  0 <= doy <= 365 /\ mp_of doy = mp /\ day_of doy = d /\ month_of mp = m /\
  (doy = 365 -> m = 2 /\ is_leap y = true).
Proof.
  intros [Hm Hd]. revert Hd. pattern m.
  replace m with (month_of ((m + 9) mod 12)).
  2:{ unfold month_of. destruct (Z.ltb_spec ((m + 9) mod 12) 10); lia. }
  assert (0 <= (m + 9) mod 12 <= 11) as Hmp by lia. revert Hmp. generalize ((m + 9) mod 12).
  clear m Hm. intros mp Hmp. pattern mp. apply month_cases; [done|].
  repeat apply Forall_cons_2; try apply Forall_nil_2;
    unfold days_in_month, mp_of, day_of, mp_of; eval_month; intros Hd;
    try (destruct (is_leap y) eqn:El); repeat split; try lia; try done.
Qed.

(** Every real date is the civil date of its own day number: with the
    previous theorem, the two functions are inverse bijections between day
    numbers and Gregorian dates. *)
Lemma days_from_civil_inverse y m d :
  valid_date y m d -> civil_from_days (days_from_civil y m d) = (y, m, d).
Proof.
  intros Hv. pose proof (doy_of_date m y d Hv) as (Hdoy & Hmp & Hday & Hmo & Hleap).
  cbv zeta in *. rewrite civil_from_days_eq. cbv zeta. unfold days_from_civil.
  set (y' := if m <=? 2 then y - 1 else y). set (doy := (153 * _ + 2) / 5 + d - 1) in *.
  assert (0 <= y' mod 400 <= 399) as Hyoe by lia.
  assert (doy = 365 -> leap_ended (y' mod 400)) as Hl.
  { intros [-> Hy]%Hleap. apply is_leap_spec in Hy. unfold leap_ended, y'. simpl. lia. }
  destruct (yoe_of_doe_of (y' mod 400) doy Hyoe Hdoy Hl) as [Hb Hyo].
  fold (doe_of (y' mod 400) doy). set (doe := doe_of (y' mod 400) doy) in *.
  replace ((y' / 400 * 146097 + doe - 719468 + 719468) mod 146097) with doe by lia.
  replace ((y' / 400 * 146097 + doe - 719468 + 719468) / 146097) with (y' / 400) by lia.
  rewrite Hyo. assert (doy_of doe = doy) as -> by (unfold doy_of; rewrite Hyo; unfold doe, doe_of; lia).
  rewrite Hmp, Hmo, Hday. do 2 f_equal.
  replace (y' mod 400 + y' / 400 * 400) with y' by lia. unfold y'. destruct (m <=? 2); lia.
Qed.

(** [civil_from_days] and [days_from_civil] are inverse bijections between
    all day numbers and the real Gregorian dates: every day number yields a real
    date that maps back to it, and every real date is the date of its number. *)
Theorem civil_bijection :
  (forall days y m d, civil_from_days days = (y, m, d) -> valid_date y m d /\ days_from_civil y m d = days) /\
  (forall y m d, valid_date y m d -> civil_from_days (days_from_civil y m d) = (y, m, d)).
Proof. split; [exact civil_from_days_valid|exact days_from_civil_inverse]. Qed.

(** The millisecond conversions never leave [i64]; away from the ends of
    the range, ticks to milliseconds and back loses only the sub-millisecond
    ticks (rounding down, before the epochs too) and milliseconds to ticks and
    back is exact. *)
Theorem filetime_unix_round_trip ft ms :
  in_i64 ft -> in_i64 ms ->
  in_i64 (filetime_to_unix_ms ft) /\ in_i64 (unix_ms_to_filetime ms) /\
  (i64_min + FILETIME_UNIX_EPOCH + 10000 <= ft ->
     unix_ms_to_filetime (filetime_to_unix_ms ft) = ft - (ft - FILETIME_UNIX_EPOCH) mod 10000) /\
  (i64_min <= ms * 10000 <= i64_max - FILETIME_UNIX_EPOCH ->
     filetime_to_unix_ms (unix_ms_to_filetime ms) = ms).
Proof.
  unfold in_i64, filetime_to_unix_ms, unix_ms_to_filetime, saturate, i64_min, i64_max, FILETIME_UNIX_EPOCH.
  lia.
Qed.

Lemma filetime_unix_round_trip_witness :
  unix_ms_to_filetime (filetime_to_unix_ms 133000000000000001) = 133000000000000000 /\
  filetime_to_unix_ms (unix_ms_to_filetime (-5)) = -5.
Proof.
  destruct (filetime_unix_round_trip 133000000000000001 (-5)) as (_ & _ & H1 & H2);
    [split; vm_compute; congruence..|].
  rewrite H1, H2; [split; reflexivity|split; vm_compute; congruence|vm_compute; congruence].
Defined.
