(* ===== verification/Fold.v ===== *)
(** Case folding: [crates/goz-core/src/fold.rs].

    The Unicode tables (the [unicode-normalization] crate and the standard
    library's lowercase mapping) are operations of a class; what the code
    relies on about ASCII is a second class, and [ascii_tables] is a concrete
    instance of both. *)

From stdpp Require Import base list option.
From Stdlib Require Import NArith Lia.
From S2P Require Import Prelude Wtf8.

Class Unicode := {
  (** [unicode_normalization::char::decompose_canonical]: the scalars emitted. *)
  decompose_canonical : N -> list N;
  (** [UnicodeNormalization::nfc] of a run of scalars. *)
  nfc : list N -> list N;
  (** [char::to_lowercase]: the full lowercase mapping. *)
  to_lowercase : N -> list N
}.

(** [u8::to_ascii_lowercase]. *)
Definition to_ascii_lowercase (b : N) : N := if (0x41 <=? b) && (b <=? 0x5A) then b + 0x20 else b.

(** [<[u8]>::is_ascii]. *)
Definition is_ascii (l : list N) : bool := forallb (fun b => b <? 0x80) l.

(** What the fast path relies on: an ASCII scalar has no decomposition, its
    lowercase is the ASCII one, and ASCII text is in normal form C. *)
Class UnicodeAscii `{Unicode} : Prop := {
  decompose_ascii c : c < 0x80 -> decompose_canonical c = [c];
  lowercase_ascii c : c < 0x80 -> to_lowercase c = [to_ascii_lowercase c];
  nfc_ascii run : is_ascii run = true -> nfc run = run
}.

(** [encode] of this module, a second copy of the WTF-8 encoder. *)
Definition encode (cp : N) : list N :=
  if cp <? 0x80 then [as_u8 cp]
  else if cp <? 0x800 then
    [N.lor 0xC0 (as_u8 (N.shiftr cp 6)); N.lor 0x80 (as_u8 (N.land cp 0x3F))]
  else if cp <? 0x10000 then
    [N.lor 0xE0 (as_u8 (N.shiftr cp 12));
     N.lor 0x80 (as_u8 (N.land (N.shiftr cp 6) 0x3F));
     N.lor 0x80 (as_u8 (N.land cp 0x3F))]
  else
    [N.lor 0xF0 (as_u8 (N.shiftr cp 18));
     N.lor 0x80 (as_u8 (N.land (N.shiftr cp 12) 0x3F));
     N.lor 0x80 (as_u8 (N.land (N.shiftr cp 6) 0x3F));
     N.lor 0x80 (as_u8 (N.land cp 0x3F))].

Section fold.
Context `{Unicode}.

(** The first scalar of the full mapping. *)
Definition lower_char (c : N) : N := default c (head (to_lowercase c)).

(** [compose_into]: the bytes appended; the run is cleared. *)
Definition compose_into (run : list N) : list N :=
  match run with [] => [] | _ => flat_map encode (nfc run) end.

(** The loop of [fold_non_ascii], with the run gathered so far. *)
Fixpoint fold_non_ascii_loop (cps run : list N) : list N :=
  match cps with
  | [] => compose_into run
  | cp :: cps' =>
      if is_scalar cp then fold_non_ascii_loop cps' (run ++ map lower_char (decompose_canonical cp))
      else compose_into run ++ encode cp ++ fold_non_ascii_loop cps' []
  end.

Definition fold_non_ascii (s out : list N) : list N := out ++ fold_non_ascii_loop (code_points s) [].

Definition fold_into (s out : list N) : list N :=
  if is_ascii s then out ++ map to_ascii_lowercase s else fold_non_ascii s out.

Definition fold (s : list N) : list N := fold_into s [].

Lemma encode_eq cp : encode cp = encode_code_point cp.
Proof. reflexivity. Qed.

Lemma code_points_ascii s : is_ascii s = true -> code_points s = s.
Proof.
  induction s as [|b s IH]; [done|]. simpl. intros [Hb%N.ltb_lt Hs]%andb_true_iff.
  assert (b :: s = encode_code_point b ++ s) as ->.
  { rewrite encode_code_point_arith by lia. by rewrite (proj2 (N.ltb_lt b 0x80)) by done. }
  rewrite code_points_encode by lia. rewrite IH by done.
  rewrite encode_code_point_arith by lia. by rewrite (proj2 (N.ltb_lt b 0x80)) by done.
Qed.

Lemma to_ascii_lowercase_bound c : c < 0x80 -> to_ascii_lowercase c < 0x80.
Proof. unfold to_ascii_lowercase. intros. destruct (_ && _) eqn:?; simpl_cmp; lia. Qed.

Lemma flat_map_encode_ascii s : is_ascii s = true -> flat_map encode s = s.
Proof.
  induction s as [|b s IH]; [done|]. simpl. intros [Hb%N.ltb_lt Hs]%andb_true_iff.
  rewrite IH by done. rewrite encode_eq, encode_code_point_arith by lia.
  by rewrite (proj2 (N.ltb_lt b 0x80)).
Qed.

Lemma is_ascii_app s t : is_ascii (s ++ t) = is_ascii s && is_ascii t.
Proof. apply forallb_app. Qed.

Lemma fold_loop_ascii `{!UnicodeAscii} s run :
  is_ascii s = true -> is_ascii run = true ->
  fold_non_ascii_loop s run = run ++ map to_ascii_lowercase s.
Proof.
  revert run. induction s as [|c s IH]; intros run Hs Hr; simpl.
  - rewrite app_nil_r. unfold compose_into. destruct run; [done|].
    rewrite nfc_ascii by done. by apply flat_map_encode_ascii.
  - simpl in Hs. apply andb_true_iff in Hs as [Hc%N.ltb_lt Hs].
    assert (is_scalar c = true) as ->.
    { unfold is_scalar. apply orb_true_iff. left. apply N.ltb_lt. lia. }
    rewrite decompose_ascii by done. simpl. unfold lower_char. rewrite lowercase_ascii by done. simpl.
    rewrite IH; [by rewrite <- app_assoc|done|].
    rewrite is_ascii_app, Hr. simpl. by rewrite (proj2 (N.ltb_lt _ _) (to_ascii_lowercase_bound c Hc)).
Qed.
End fold.

(** Tables for ASCII only: no decomposition, no composition. *)
#[export] Instance ascii_tables : Unicode | 100 :=
  {| decompose_canonical := fun c => [c]; nfc := id; to_lowercase := fun c => [to_ascii_lowercase c] |}.
#[export] Instance ascii_tables_ok : UnicodeAscii | 100.
Proof. constructor; done. Qed.

(** ** Theorems *)

(** The ASCII fast path computes what the general path (decode, decompose,
    lowercase, recompose, encode) computes, for any Unicode tables that leave
    ASCII alone: splitting it out changed no result. *)
Theorem fold_fast_path `{Unicode, !UnicodeAscii} s :
  is_ascii s = true -> fold s = fold_non_ascii s [].
Proof.
  intros Hs. unfold fold, fold_into, fold_non_ascii. rewrite Hs. simpl.
  rewrite code_points_ascii by done. by rewrite fold_loop_ascii.
Qed.

Lemma fold_fast_path_witness :
  fold [0x41; 0x62; 0x2E; 0x54] = fold_non_ascii [0x41; 0x62; 0x2E; 0x54] [] /\
  fold [0x41; 0x62; 0x2E; 0x54] = [0x61; 0x62; 0x2E; 0x74].
Proof. split; [apply (fold_fast_path [0x41; 0x62; 0x2E; 0x54]); reflexivity|reflexivity]. Defined.
