(* ===== verification/FrnMap.v ===== *)
(** The record-number map: [FrnMap] of [crates/goz-core/src/index/store.rs].

    Two backings, a [Vec] indexed by record number and a hash map, behind one
    interface.  Both refine a finite map ([contents]); switching between them
    changes no lookup. *)

From stdpp Require Import gmap. From stdpp Require Import base option list.
From Stdlib Require Import NArith Lia.
From S2P Require Import Prelude Types.

Definition DENSE_GROWTH_SLACK : N := N.shiftl 1 16.

Inductive FrnMap :=
| Dense (v : list N)
| Sparse (m : gmap N N).

Definition sparse : FrnMap := Sparse ∅.
Definition dense (capacity : N) : FrnMap := Dense (replicate (N.to_nat capacity) NIL).

Definition get (fm : FrnMap) (record : N) : option N :=
  match fm with
  | Dense v => i ← getN record v; if i =? NIL then None else Some i
  | Sparse m => m !! record
  end.

(** The entries of a dense map as (record, index) pairs. *)
Fixpoint dense_pairs (r : N) (v : list N) : list (N * N) :=
  match v with
  | [] => []
  | i :: v' => (if i =? NIL then [] else [(r, i)]) ++ dense_pairs (r + 1) v'
  end.

(** [v.resize(n, NIL)] for [n] at least the length. *)
Definition resize (n : N) (v : list N) : list N := v ++ replicate (N.to_nat n - length v) NIL.

Definition go_sparse (record : N) (fm : FrnMap) : FrnMap :=
  match fm with
  | Dense v => if len v * 2 + DENSE_GROWTH_SLACK <? record
               then Sparse (list_to_map (dense_pairs 0 v)) else fm
  | Sparse _ => fm
  end.

Definition set (record idx : N) (fm : FrnMap) : FrnMap :=
  match go_sparse record fm with
  | Dense v =>
      let v := if len v <=? record then resize (record + 1) v else v in
      Dense (<[N.to_nat record := idx]> v)
  | Sparse m => Sparse (<[record := idx]> m)
  end.

Definition remove (record : N) (fm : FrnMap) : FrnMap :=
  match fm with
  | Dense v => Dense (<[N.to_nat record := NIL]> v)
  | Sparse m => Sparse (delete record m)
  end.

(** [u128::next_power_of_two]. *)
Definition next_power_of_two (n : N) : N := 2 ^ N.log2_up n.

Definition max_key (m : gmap N N) : option N :=
  match (map_to_list m).*1 with
  | [] => None
  | k :: ks => Some (fold_left N.max ks k)
  end.

(** [densify_if_smaller]; [capacity] is what the hash map reports. *)
Definition densify_if_smaller (capacity : N) (fm : FrnMap) : FrnMap :=
  match fm with
  | Dense _ => fm
  | Sparse m =>
      match max_key m with
      | None => fm
      | Some max =>
          let per_bucket := 16 + 1 in
          let buckets := next_power_of_two (capacity * 8 / 7) in
          let dense_bytes := (max + 1) * 4 in
          if dense_bytes <? buckets * per_bucket then
            Dense (fold_left (fun v p => <[N.to_nat p.1 := p.2]> v) (map_to_list m)
                     (replicate (N.to_nat (max + 1)) NIL))
          else fm
      end
  end.

(** ** Refinement of a finite map *)

(** No entry of a map is the sentinel. *)
Definition frn_map_ok (fm : FrnMap) : Prop :=
  match fm with Dense _ => True | Sparse m => forall r i, m !! r = Some i -> i <> NIL end.

Lemma get_not_nil fm r i : frn_map_ok fm -> get fm r = Some i -> i <> NIL.
Proof.
  destruct fm as [v|m]; simpl; [|by eauto]. intros _ Hg.
  destruct (getN r v) as [j|]; [|done]. simpl in Hg.
  destruct (N.eqb_spec j NIL); [done|]. by simplify_eq.
Qed.

Lemma get_dense_lookup v r i :
  get (Dense v) r = Some i <-> getN r v = Some i /\ i <> NIL.
Proof.
  simpl. destruct (getN r v) as [j|]; simpl; [|naive_solver].
  destruct (N.eqb_spec j NIL); naive_solver.
Qed.

Lemma getN_cons_succ {A} (x : A) v k : getN (1 + k) (x :: v) = getN k v.
Proof. unfold getN. rewrite N2Nat.inj_add. done. Qed.

Lemma elem_of_dense_pairs v r0 r i :
  (r, i) ∈ dense_pairs r0 v <-> exists k, r = r0 + k /\ getN k v = Some i /\ i <> NIL.
Proof.
  revert r0. induction v as [|j v IH]; intros r0; simpl.
  { rewrite elem_of_nil. split; [done|]. intros (k & _ & Hk & _). unfold getN in Hk. by rewrite lookup_nil in Hk. }
  rewrite elem_of_app, IH. split.
  - intros [Hj|(k & -> & Hk & Hi)].
    + destruct (N.eqb_spec j NIL); [by apply elem_of_nil in Hj|].
      apply list_elem_of_singleton in Hj. simplify_eq. exists 0. rewrite N.add_0_r. done.
    + exists (1 + k). rewrite getN_cons_succ. split; [lia|done].
  - intros (k & -> & Hk & Hi). destruct (N.eq_0_gt_0_cases k) as [->|Hpos].
    + left. unfold getN in Hk. simpl in Hk. simplify_eq. rewrite (proj2 (N.eqb_neq _ _)) by done.
      rewrite N.add_0_r. by apply list_elem_of_singleton.
    + right. exists (k - 1). replace k with (1 + (k - 1)) in Hk by lia. rewrite getN_cons_succ in Hk.
      split; [lia|done].
Qed.

Lemma NoDup_dense_pairs v r0 : NoDup (dense_pairs r0 v).*1.
Proof.
  revert r0. induction v as [|j v IH]; intros r0; simpl; [constructor|].
  destruct (j =? NIL); [apply IH|]. simpl. constructor; [|apply IH].
  rewrite list_elem_of_fmap. intros ([r i] & -> & Hr). apply elem_of_dense_pairs in Hr as (k & ? & _).
  simpl in *. lia.
Qed.

Lemma get_go_sparse record fm r : get (go_sparse record fm) r = get fm r.
Proof.
  destruct fm as [v|m]; cbn [go_sparse]; [|done]. destruct (_ <? record); [|done].
  apply option_eq. intros i. rewrite get_dense_lookup. cbn [get].
  rewrite <- elem_of_list_to_map by apply NoDup_dense_pairs.
  rewrite elem_of_dense_pairs. split.
  - intros (k & -> & ?). by rewrite N.add_0_l.
  - intros. exists r. by rewrite N.add_0_l.
Qed.

Lemma frn_map_ok_go_sparse record fm : frn_map_ok fm -> frn_map_ok (go_sparse record fm).
Proof.
  destruct fm as [v|m]; simpl; [|done]. intros _. destruct (_ <? record); [|done]. simpl.
  intros r i Hi. rewrite <- elem_of_list_to_map in Hi by apply NoDup_dense_pairs.
  by apply elem_of_dense_pairs in Hi as (k & _ & _ & ?).
Qed.

Lemma getN_resize n v r :
  len v <= n -> getN r (resize n v) = if r <? len v then getN r v else if r <? n then Some NIL else None.
Proof.
  intros Hn. unfold resize, getN, len in *. destruct (N.ltb_spec r (N.of_nat (length v))).
  - apply lookup_app_l. lia.
  - rewrite lookup_app_r by lia. destruct (N.ltb_spec r n).
    + apply lookup_replicate_2. lia.
    + apply lookup_replicate_None. lia.
Qed.

Lemma len_resize n v : len v <= n -> len (resize n v) = n.
Proof. unfold resize, len. rewrite length_app, length_replicate. lia. Qed.

Lemma get_set fm r i r' :
  i <> NIL -> get (set r i fm) r' = if decide (r = r') then Some i else get fm r'.
Proof.
  intros Hi. rewrite <- (get_go_sparse r fm r'). unfold set.
  destruct (go_sparse r fm) as [v|m].
  - set (v' := if len v <=? r then resize (r + 1) v else v). cbn [get].
    assert (r < len v') as Hlen.
    { unfold v'. destruct (N.leb_spec (len v) r); [rewrite len_resize; lia|done]. }
    rewrite getN_insert by done. case_decide as Hr.
    + simpl. by rewrite (proj2 (N.eqb_neq _ _)).
    + unfold v'. destruct (N.leb_spec (len v) r); [|done].
      rewrite getN_resize by lia. destruct (N.ltb_spec r' (len v)); [done|].
      rewrite (getN_ge r' v) by done. destruct (r' <? r + 1); done.
  - cbn [get]. rewrite lookup_insert. done.
Qed.

Lemma frn_map_ok_set fm r i : frn_map_ok fm -> i <> NIL -> frn_map_ok (set r i fm).
Proof.
  intros Hok Hi. apply (frn_map_ok_go_sparse r) in Hok. unfold set.
  destruct (go_sparse r fm) as [v|m]; [done|]. simpl in *.
  intros r' i'. rewrite lookup_insert. case_decide; naive_solver.
Qed.

Lemma get_remove fm r r' :
  get (remove r fm) r' = if decide (r = r') then None else get fm r'.
Proof.
  destruct fm as [v|m]; cbn [remove get]; [|apply lookup_delete].
  destruct (N.lt_ge_cases r (len v)).
  - rewrite getN_insert by done. case_decide; done.
  - rewrite list_insert_ge by (unfold len in *; lia). case_decide; [|done]. subst. by rewrite getN_ge.
Qed.

Lemma frn_map_ok_remove fm r : frn_map_ok fm -> frn_map_ok (remove r fm).
Proof.
  destruct fm as [v|m]; simpl; [done|]. intros Hok r' i. rewrite lookup_delete_Some. naive_solver.
Qed.

Lemma fold_max_ge ks k x : x ∈ k :: ks -> x <= fold_left N.max ks k.
Proof.
  revert k x. induction ks as [|k' ks IH]; intros k x Hx; simpl.
  - apply list_elem_of_singleton in Hx. lia.
  - apply elem_of_cons in Hx as [->|[->|Hx]%elem_of_cons].
    + transitivity (N.max k k'); [lia|]. apply IH. by left.
    + transitivity (N.max k k'); [lia|]. apply IH. by left.
    + apply IH. by right.
Qed.

Lemma getN_fold_insert l v r :
  NoDup l.*1 -> Forall (fun p => p.1 < len v) l ->
  getN r (fold_left (fun v p => <[N.to_nat p.1 := p.2]> v) l v) =
    match list_to_map (M := gmap N N) l !! r with Some i => Some i | None => getN r v end.
Proof.
  revert v. induction l as [|[k i] l IH]; intros v Hnd Hlt; simpl; [by rewrite lookup_empty|].
  apply NoDup_cons in Hnd as [Hk Hnd]. apply Forall_cons_1 in Hlt as [Hk2 Hlt]. simpl in *.
  rewrite IH; [|done|].
  - rewrite getN_insert, lookup_insert by done. case_decide as E; [subst|done].
    assert (list_to_map (M := gmap N N) l !! r = None) as -> by (by apply not_elem_of_list_to_map_1).
    done.
  - eapply Forall_impl; [exact Hlt|]. intros p. by rewrite len_insert.
Qed.

(** Switching to a dense backing changes no lookup. *)
Lemma densify_spec fm capacity r' :
  frn_map_ok fm -> get (densify_if_smaller capacity fm) r' = get fm r' /\ frn_map_ok (densify_if_smaller capacity fm).
Proof.
  intros Hok. destruct fm as [v|m]; [done|]. unfold densify_if_smaller.
  destruct (max_key m) as [mx|] eqn:Hmx; [|done]. destruct (_ <? _); [|done]. split; [|done].
  unfold max_key in Hmx. apply option_eq. intros j. rewrite get_dense_lookup.
  rewrite getN_fold_insert; [| apply NoDup_fst_map_to_list |].
  - rewrite list_to_map_to_list. cbn [get]. simpl in Hok.
    destruct (m !! r') as [j'|] eqn:Hj; [naive_solver|]. split; [|done].
    unfold getN. intros [[-> _]%lookup_replicate_1 ?]. done.
  - apply Forall_forall. intros [k j'] Hkj. unfold len. rewrite length_replicate. simpl.
    destruct ((map_to_list m).*1) as [|k0 ks] eqn:Ek; [done|]. simplify_eq.
    pose proof (fold_max_ge ks k0 k) as Hle. rewrite <- Ek in Hle.
    specialize (Hle ltac:(apply list_elem_of_fmap; by exists (k, j'))). lia.
Qed.

(** ** Theorems *)

(** The map behaves as a finite map whatever its backing: a lookup after
    [set] or [remove] sees that change and no other, and the backing switches
    (dense to sparse for a far record number, sparse to dense at publish)
    change no lookup. *)
Theorem frn_map_refines fm r i r' capacity :
  frn_map_ok fm -> i <> NIL ->
  get (set r i fm) r' = (if decide (r = r') then Some i else get fm r') /\
  get (remove r fm) r' = (if decide (r = r') then None else get fm r') /\
  get (densify_if_smaller capacity fm) r' = get fm r' /\
  frn_map_ok (set r i fm) /\ frn_map_ok (remove r fm) /\ frn_map_ok (densify_if_smaller capacity fm).
Proof.
  intros Hok Hi. split; [by apply get_set|]. split; [apply get_remove|].
  pose proof (densify_spec fm capacity r' Hok) as Hd.
  split; [apply Hd|]. split; [by apply frn_map_ok_set|].
  split; [by apply frn_map_ok_remove|apply Hd].
Qed.

Lemma frn_map_refines_witness :
  get (set 5 1 (Dense [0; NIL; 2])) 2 = Some 2 /\ get (set 100000 1 (Dense [0; NIL; 2])) 2 = Some 2.
Proof.
  split.
  - destruct (frn_map_refines (Dense [0; NIL; 2]) 5 1 2 0) as [H _]; [exact I|discriminate|].
    rewrite H. reflexivity.
  - destruct (frn_map_refines (Dense [0; NIL; 2]) 100000 1 2 0) as [H _]; [exact I|discriminate|].
    rewrite H. reflexivity.
Defined.
