(* ===== verification/NameStore.v ===== *)
(** The interned name store: [NameStore] of
    [crates/goz-core/src/index/store.rs].

    Every distinct name is stored once, in two NUL-separated byte arenas, and
    named by a 4-byte id.  The state is the source's: the arenas, the per-id
    tables, the intern table, the name order and its ranks.  Buffer capacities
    ([room_for], [shrink_with_headroom]) are allocation policy with no effect
    on contents and are not part of the state; [settled] is kept.

    A computation of [ST NameStore] is [None] exactly where the source panics
    or where a [u32] counter would wrap. *)

From stdpp Require Import gmap.
From stdpp Require Import base option list sorting.
From Stdlib Require Import NArith Lia.
From S2P Require Import Prelude Types Wtf8 Fold.

(** [rustc_hash::FxHasher] over a byte slice: any function of the bytes. *)
Class Hasher := hash_bytes : list N -> N.

Abbreviation NameId := N (only parsing).

Record NameRef := { off : N; nlen : N }.
Definition RAW_IN_FOLDED : N := N.shiftl 1 31.
Record NamePair := { raw_ref : NameRef; folded_ref : NameRef }.
Definition UNRANKED : N := u32_max.

Record NameStore := {
  raw : list N;
  folded : list N;
  pairs : list NamePair;
  refcount : list N;
  head : list N;
  by_bytes : list (N * N);
  garbage : N;
  order : list N;
  rank_of : list N;
  unranked : list N;
  dead_ranked : N;
  settled : bool
}.

Definition empty_store : NameStore :=
  {| raw := []; folded := []; pairs := []; refcount := []; head := []; by_bytes := []; garbage := 0;
     order := []; rank_of := []; unranked := []; dead_ranked := 0; settled := false |}.

(** ** Reading names *)

(** [&buf[off..off + len]]: panics out of range. *)
Definition arena_slice (o n : N) (buf : list N) : option (list N) :=
  if o + n <=? len buf then Some (slice o n buf) else None.

Definition in_folded (r : NameRef) : bool := negb (N.land (off r) RAW_IN_FOLDED =? 0).

(** [raw_bytes_of] (and [raw_bytes_in], which takes the tables one by one). *)
Definition raw_bytes_of (ns : NameStore) (p : NamePair) : option (list N) :=
  let r := raw_ref p in
  let buf := if in_folded r then folded ns else raw ns in
  arena_slice (N.land (off r) (N.lxor u32_max RAW_IN_FOLDED)) (nlen r) buf.

Definition raw_bytes (ns : NameStore) (id : NameId) : option (list N) :=
  p ← getN id (pairs ns); raw_bytes_of ns p.

(** [folded_bytes_of] (and [folded_in]). *)
Definition folded_bytes_of (ns : NameStore) (id : NameId) : option (list N) :=
  p ← getN id (pairs ns); arena_slice (off (folded_ref p)) (nlen (folded_ref p)) (folded ns).

Definition ids (ns : NameStore) : N := len (pairs ns).
Definition chain_head (id : NameId) (ns : NameStore) : option N := getN id (head ns).
Definition refcount_of (id : NameId) (ns : NameStore) : option N := getN id (refcount ns).

Definition with_head (h : list N) (ns : NameStore) : NameStore :=
  {| raw := raw ns; folded := folded ns; pairs := pairs ns; refcount := refcount ns; head := h;
     by_bytes := by_bytes ns; garbage := garbage ns; order := order ns; rank_of := rank_of ns;
     unranked := unranked ns; dead_ranked := dead_ranked ns; settled := settled ns |}.

Definition with_refcount (rc : list N) (ns : NameStore) : NameStore :=
  {| raw := raw ns; folded := folded ns; pairs := pairs ns; refcount := rc; head := head ns;
     by_bytes := by_bytes ns; garbage := garbage ns; order := order ns; rank_of := rank_of ns;
     unranked := unranked ns; dead_ranked := dead_ranked ns; settled := settled ns |}.

Definition set_chain_head (id : NameId) (e : N) (ns : NameStore) : option NameStore :=
  h ← setN id e (head ns); Some (with_head h ns).

(** ** Interning *)

(** The arena after [push] and the reference it returns. *)
Definition push (buf bs : list N) : list N * NameRef :=
  (buf ++ bs ++ [0], {| off := as_u32 (len buf); nlen := as_u16 (len bs) |}).

(** [hashbrown::HashTable]: entries are (hash, id) pairs, [find] returns an
    entry stored under the hash for which the test holds. *)
Fixpoint table_find (eq : NameId -> bool) (hash : N) (t : list (N * N)) : option NameId :=
  match t with
  | [] => None
  | (h, id) :: t' => if (h =? hash) && eq id then Some id else table_find eq hash t'
  end.

(** [find_entry(hash, |&cand| cand == id)] and, if found, [entry.remove()]. *)
Fixpoint table_remove (hash id : N) (t : list (N * N)) : list (N * N) :=
  match t with
  | [] => []
  | (h, i) :: t' => if (h =? hash) && (i =? id) then t' else (h, i) :: table_remove hash id t'
  end.

(** Overwrites [n] bytes at [o] with zeros; panics out of range. *)
Definition zero_fill (o n : N) (buf : list N) : option (list N) :=
  if o + n <=? len buf
  then Some (take (N.to_nat o) buf ++ replicate (N.to_nat n) 0 ++ drop (N.to_nat (o + n)) buf)
  else None.

Section ops.
Context {U : Unicode} {H : Hasher}.

Definition intern (name : list N) : ST NameStore NameId := fun ns =>
  let hash := hash_bytes name in
  match table_find (fun id => bool_decide (raw_bytes ns id = Some name)) hash (by_bytes ns) with
  | Some id =>
      rc ← getN id (refcount ns);
      if rc =? u32_max then None
      else rcs ← setN id (rc + 1) (refcount ns); Some (id, with_refcount rcs ns)
  | None =>
      let folded_bytes := fold name in
      let '(fbuf, fref) := push (folded ns) folded_bytes in
      let '(rbuf, rref) :=
        if bool_decide (folded_bytes = name)
        then (raw ns, {| off := N.lor (off fref) RAW_IN_FOLDED; nlen := nlen fref |})
        else push (raw ns) name in
      let id := as_u32 (len (pairs ns)) in
      Some (id,
        {| raw := rbuf; folded := fbuf;
           pairs := pairs ns ++ [{| raw_ref := rref; folded_ref := fref |}];
           refcount := refcount ns ++ [1];
           head := head ns ++ [NIL];
           by_bytes := (hash, id) :: by_bytes ns;
           garbage := garbage ns;
           order := order ns;
           rank_of := rank_of ns ++ [UNRANKED];
           unranked := unranked ns ++ [id];
           dead_ranked := dead_ranked ns;
           settled := settled ns |})
  end.

Definition release (id : NameId) : ST NameStore unit := fun ns =>
  rc ← getN id (refcount ns);
  if rc =? 0 then None
  else
    rcs ← setN id (rc - 1) (refcount ns);
    if 0 <? rc - 1 then Some (tt, with_refcount rcs ns)
    else
      pair ← getN id (pairs ns);
      bs ← raw_bytes_of ns pair;
      rk ← getN id (rank_of ns);
      let f := folded_ref pair in
      fbuf ← zero_fill (off f) (nlen f) (folded ns);
      let r := raw_ref pair in
      rbuf ← (if in_folded r then Some (raw ns) else zero_fill (off r) (nlen r) (raw ns));
      let garbage' := garbage ns + (nlen f + 1) + (if in_folded r then 0 else nlen r + 1) in
      Some (tt,
        {| raw := rbuf; folded := fbuf; pairs := pairs ns; refcount := rcs; head := head ns;
           by_bytes := table_remove (hash_bytes bs) id (by_bytes ns);
           garbage := garbage';
           order := order ns; rank_of := rank_of ns; unranked := unranked ns;
           dead_ranked := dead_ranked ns + (if rk =? UNRANKED then 0 else 1);
           settled := settled ns |}).
End ops.

(** The compaction cue. *)
Definition should_compact (ns : NameStore) : bool :=
  let total := len (raw ns) + len (folded ns) in
  (8192 <? total) && (total <? garbage ns * 4).

(** ** Segments: the arenas as a concatenation *)

(** An arena is the concatenation of one segment per id.  [seg_off segs i] is
    where segment [i] starts. *)
Definition seg_off (segs : list (list N)) (i : N) : N := len (concat (take (N.to_nat i) segs)).

Lemma seg_off_bound segs i s :
  getN i segs = Some s -> seg_off segs i + len s <= len (concat segs).
Proof.
  unfold seg_off, getN. intros Hi. rewrite <- (take_drop_middle segs (N.to_nat i) s Hi) at 2.
  rewrite concat_app, len_app. cbn [concat]. rewrite len_app. lia.
Qed.

Lemma slice_seg segs i s n :
  getN i segs = Some s -> n <= len s -> slice (seg_off segs i) n (concat segs) = take (N.to_nat n) s.
Proof.
  unfold seg_off, getN. intros Hi Hn. rewrite <- (take_drop_middle segs (N.to_nat i) s Hi) at 2.
  rewrite concat_app, slice_app_ge, N.sub_diag by lia. cbn [concat]. unfold slice.
  change (N.to_nat 0) with 0%nat. rewrite drop_0. apply take_app_le. unfold len in *. lia.
Qed.

Lemma seg_off_snoc segs s i : i <= len segs -> seg_off (segs ++ [s]) i = seg_off segs i.
Proof. unfold seg_off, len. intros. rewrite take_app_le; [done|]. lia. Qed.

Lemma seg_off_len segs s : seg_off (segs ++ [s]) (len segs) = len (concat segs).
Proof. unfold seg_off, len. rewrite Nat2N.id, take_app_length. done. Qed.

Lemma len_concat_insert segs i (s s' : list N) :
  getN i segs = Some s -> len s' = len s -> forall k,
  len (concat (take k (<[N.to_nat i := s']> segs))) = len (concat (take k segs)).
Proof.
  unfold getN. revert i. induction segs as [|x segs IH]; intros i Hi Hlen k; [done|].
  destruct k as [|k]; [done|]. destruct (N.to_nat i) as [|n] eqn:E; simpl in Hi.
  - simplify_eq. simpl. rewrite !len_app. lia.
  - simpl. rewrite !len_app. f_equal. specialize (IH (N.of_nat n)). rewrite Nat2N.id in IH. by apply IH.
Qed.

Lemma seg_off_insert segs i (s s' : list N) j :
  getN i segs = Some s -> len s' = len s -> seg_off (<[N.to_nat i := s']> segs) j = seg_off segs j.
Proof. intros. unfold seg_off. by eapply len_concat_insert. Qed.

(** Zeroing the first [n] bytes of a segment rewrites that segment only. *)
Lemma zero_fill_seg segs i s n :
  getN i segs = Some s -> n <= len s ->
  zero_fill (seg_off segs i) n (concat segs) =
    Some (concat (<[N.to_nat i := replicate (N.to_nat n) 0 ++ drop (N.to_nat n) s]> segs)).
Proof.
  intros Hi Hn. pose proof (seg_off_bound segs i s Hi). unfold zero_fill.
  rewrite (proj2 (N.leb_le _ _)) by lia. f_equal. unfold seg_off, getN in *.
  rewrite insert_take_drop by (by eapply lookup_lt_Some). rewrite concat_app. cbn [concat].
  set (a := concat (take (N.to_nat i) segs)) in *.
  assert (concat segs = a ++ s ++ concat (drop (S (N.to_nat i)) segs)) as ->.
  { rewrite <- (take_drop_middle segs (N.to_nat i) s Hi) at 1. rewrite concat_app. done. }
  unfold len in *.
  rewrite Nat2N.id, take_app_length. f_equal. rewrite <- app_assoc. f_equal.
  rewrite drop_app_ge by lia. rewrite drop_app_le by lia. do 2 f_equal. lia.
Qed.


(** ** The store invariant *)

(** What the arenas hold for one id: the folded bytes and, unless the name
    folds to itself, the raw bytes. *)
Record Slot := { sfold : list N; sraw : option (list N) }.

Definition raw_of (g : Slot) : list N := default (sfold g) (sraw g).
Definition fseg (g : Slot) : list N := sfold g ++ [0].
Definition rseg (g : Slot) : list N := match sraw g with Some b => b ++ [0] | None => [] end.

Definition pair_of (gs : list Slot) (i : N) (g : Slot) : NamePair :=
  let foff := seg_off (map fseg gs) i in
  {| raw_ref := match sraw g with
                | Some b => {| off := seg_off (map rseg gs) i; nlen := len b |}
                | None => {| off := N.lor foff RAW_IN_FOLDED; nlen := len (sfold g) |}
                end;
     folded_ref := {| off := foff; nlen := len (sfold g) |} |}.

Definition zeros (l : list N) : Prop := Forall (fun b => b = 0) l.

Definition live (ns : NameStore) (id : N) : Prop := exists rc, refcount_of id ns = Some rc /\ 0 < rc.

#[export] Instance live_dec ns id : Decision (live ns id).
Proof.
  destruct (refcount_of id ns) as [rc|] eqn:E.
  - destruct (decide (0 < rc)); [left; exists rc; auto|right; intros (? & ? & ?); simplify_eq; lia].
  - right. intros (? & ? & ?). simplify_eq.
Defined.

Section invariant.
Context {U : Unicode} {H : Hasher}.

Record repr (ns : NameStore) (gs : list Slot) : Prop := {
  r_folded : folded ns = concat (map fseg gs);
  r_raw : raw ns = concat (map rseg gs);
  r_pairs : pairs ns = imap (fun i g => pair_of gs (N.of_nat i) g) gs;
  r_refcount : len (refcount ns) = len gs;
  r_head : len (head ns) = len gs;
  r_rank : len (rank_of ns) = len gs;
  r_small : Forall (fun g => len (sfold g) <= u16_max /\ len (raw_of g) <= u16_max) gs;
  r_dead i g : getN i gs = Some g -> ~ live ns i -> zeros (sfold g) /\ zeros (raw_of g);
  r_live i g : getN i gs = Some g -> live ns i -> sfold g = fold (raw_of g);
  r_unique i j g g' : getN i gs = Some g -> getN j gs = Some g' -> live ns i -> live ns j ->
    raw_of g = raw_of g' -> i = j;
  r_table_nodup : NoDup (by_bytes ns);
  r_table h id : (h, id) ∈ by_bytes ns <->
    exists g, getN id gs = Some g /\ live ns id /\ h = hash_bytes (raw_of g);
  r_bounds : len (folded ns) <= 2 ^ 31 /\ len (raw ns) <= 2 ^ 31 /\ len gs <= NIL
}.

Definition ns_ok (ns : NameStore) : Prop := exists gs, repr ns gs.
End invariant.

(** *** Offsets with and without the selector bit *)

Lemma land_selector o : o < 2 ^ 31 -> N.land o RAW_IN_FOLDED = 0.
Proof.
  intros Ho. rewrite <- (N.mod_small o (2 ^ 31)), <- N.land_ones by done.
  by rewrite <- N.land_assoc, N.land_0_r.
Qed.

Lemma land_offset o : o < 2 ^ 31 -> N.land o (N.lxor u32_max RAW_IN_FOLDED) = o.
Proof.
  intros Ho. change (N.lxor u32_max RAW_IN_FOLDED) with (N.ones 31).
  rewrite N.land_ones. by apply N.mod_small.
Qed.

Lemma selector_set o : o < 2 ^ 31 -> N.land (N.lor o RAW_IN_FOLDED) RAW_IN_FOLDED = RAW_IN_FOLDED.
Proof. intros Ho. by rewrite N.land_lor_distr_l, land_selector. Qed.

Lemma selector_offset o :
  o < 2 ^ 31 -> N.land (N.lor o RAW_IN_FOLDED) (N.lxor u32_max RAW_IN_FOLDED) = o.
Proof. intros Ho. rewrite N.land_lor_distr_l, land_offset, N.lor_0_r; done. Qed.

Section store_lemmas.
Context {U : Unicode} {H : Hasher}.
Implicit Types (ns : NameStore) (gs : list Slot).

Lemma getN_map {A B} (f : A -> B) i l : getN i (map f l) = f <$> getN i l.
Proof. unfold getN. apply list_lookup_fmap. Qed.

Lemma getN_pairs ns gs i : repr ns gs -> getN i (pairs ns) = pair_of gs i <$> getN i gs.
Proof.
  intros R. rewrite (r_pairs _ _ R). unfold getN. rewrite list_lookup_imap, N2Nat.id. done.
Qed.

Lemma len_pairs ns gs : repr ns gs -> len (pairs ns) = len gs.
Proof. intros R. rewrite (r_pairs _ _ R). unfold len. by rewrite length_imap. Qed.

(** Segment bounds of a slot. *)
Lemma fold_bound ns gs i g :
  repr ns gs -> getN i gs = Some g ->
  seg_off (map fseg gs) i + len (sfold g) < len (folded ns) /\ seg_off (map fseg gs) i < 2 ^ 31.
Proof.
  intros R Hi. assert (Hs : getN i (map fseg gs) = Some (fseg g)) by (by rewrite getN_map, Hi).
  apply seg_off_bound in Hs. rewrite <- (r_folded _ _ R) in Hs. unfold fseg at 2 in Hs.
  pose proof (r_bounds _ _ R) as (? & ? & ?). len_solve.
Qed.

Lemma raw_bound ns gs i g b :
  repr ns gs -> getN i gs = Some g -> sraw g = Some b ->
  seg_off (map rseg gs) i + len b < len (raw ns) /\ seg_off (map rseg gs) i < 2 ^ 31.
Proof.
  intros R Hi Hb. assert (Hs : getN i (map rseg gs) = Some (b ++ [0])).
  { rewrite getN_map, Hi. simpl. unfold rseg. by rewrite Hb. }
  apply seg_off_bound in Hs. rewrite <- (r_raw _ _ R) in Hs.
  pose proof (r_bounds _ _ R) as (? & ? & ?). len_solve.
Qed.

Lemma arena_slice_seg segs i s n :
  getN i segs = Some s -> n <= len s ->
  arena_slice (seg_off segs i) n (concat segs) = Some (take (N.to_nat n) s).
Proof.
  intros Hi Hn. unfold arena_slice. pose proof (seg_off_bound _ _ _ Hi).
  rewrite (proj2 (N.leb_le _ _)) by lia. by rewrite (slice_seg _ _ s).
Qed.

Lemma take_len_app {A} (l k : list A) : take (N.to_nat (len l)) (l ++ k) = l.
Proof. unfold len. rewrite Nat2N.id. by rewrite take_app_length. Qed.

Lemma folded_bytes_slot ns gs i g :
  repr ns gs -> getN i gs = Some g -> folded_bytes_of ns i = Some (sfold g).
Proof.
  intros R Hi. unfold folded_bytes_of. rewrite (getN_pairs _ gs), Hi by done. simpl.
  rewrite (r_folded _ _ R), (arena_slice_seg _ _ (fseg g)); [|by rewrite getN_map, Hi|unfold fseg; len_solve].
  unfold fseg. by rewrite take_len_app.
Qed.

Lemma in_folded_pair ns gs i g :
  repr ns gs -> getN i gs = Some g ->
  in_folded (raw_ref (pair_of gs i g)) = match sraw g with Some _ => false | None => true end.
Proof.
  intros R Hi. destruct (fold_bound _ _ _ _ R Hi). unfold in_folded, pair_of. simpl.
  destruct (sraw g) as [b|] eqn:Hb; simpl.
  - destruct (raw_bound _ _ _ _ _ R Hi Hb). by rewrite land_selector.
  - by rewrite selector_set.
Qed.

Lemma raw_bytes_pair ns gs i g :
  repr ns gs -> getN i gs = Some g -> raw_bytes_of ns (pair_of gs i g) = Some (raw_of g).
Proof.
  intros R Hi. unfold raw_bytes_of. rewrite (in_folded_pair _ _ _ _ R Hi).
  destruct (fold_bound _ _ _ _ R Hi). unfold pair_of, raw_of. simpl.
  destruct (sraw g) as [b|] eqn:Hb; simpl.
  - destruct (raw_bound _ _ _ _ _ R Hi Hb). rewrite land_offset, (r_raw _ _ R) by done.
    rewrite (arena_slice_seg _ _ (rseg g)); [|by rewrite getN_map, Hi|unfold rseg; rewrite Hb; len_solve].
    unfold rseg. rewrite Hb. by rewrite take_len_app.
  - rewrite selector_offset, (r_folded _ _ R) by done.
    rewrite (arena_slice_seg _ _ (fseg g)); [|by rewrite getN_map, Hi|unfold fseg; len_solve].
    unfold fseg. by rewrite take_len_app.
Qed.

Lemma raw_bytes_slot ns gs i g :
  repr ns gs -> getN i gs = Some g -> raw_bytes ns i = Some (raw_of g).
Proof.
  intros R Hi. unfold raw_bytes. rewrite (getN_pairs _ gs), Hi by done. simpl.
  by apply raw_bytes_pair.
Qed.

Lemma live_slot ns gs i : repr ns gs -> live ns i -> exists g, getN i gs = Some g.
Proof.
  intros R (rc & Hrc & _). apply getN_lt in Hrc. rewrite (r_refcount _ _ R) in Hrc.
  destruct (getN_is_Some i gs Hrc); eauto.
Qed.

Lemma raw_bytes_None ns gs i : repr ns gs -> getN i gs = None -> raw_bytes ns i = None.
Proof. intros R Hi. unfold raw_bytes. by rewrite (getN_pairs _ gs), Hi. Qed.

Lemma repr_empty : repr empty_store [].
Proof.
  split; try done; [constructor|]. intros h id.
  split; intros Hin; [by apply not_elem_of_nil in Hin|]. by destruct Hin as (? & [=] & _).
Qed.
End store_lemmas.

(** ** Interning and releasing *)

(** Everything the rest of the index can see of an id. *)
Record NameView := { v_raw : list N; v_folded : list N; v_refcount : N; v_head : N }.

Definition view (ns : NameStore) (id : N) : option NameView :=
  r ← raw_bytes ns id; f ← folded_bytes_of ns id; rc ← refcount_of id ns; h ← chain_head id ns;
  Some {| v_raw := r; v_folded := f; v_refcount := rc; v_head := h |}.

(** Room for one more name: what the comments on [NameRef] assume. *)
Record room `{Unicode} (ns : NameStore) (name : list N) : Prop := {
  room_name : len name <= u16_max;
  room_fold : len (fold name) <= u16_max;
  room_folded : len (folded ns) + len (fold name) + 1 <= 2 ^ 31;
  room_raw : len (raw ns) + len name + 1 <= 2 ^ 31;
  room_ids : ids ns < NIL;
  room_refs : Forall (fun rc => rc < u32_max) (refcount ns)
}.

Lemma table_find_Some eq h t id : table_find eq h t = Some id -> (h, id) ∈ t /\ eq id = true.
Proof.
  induction t as [|[h' i] t IH]; simpl; [done|].
  destruct ((h' =? h) && eq i) eqn:E.
  - intros. simplify_eq. simpl_cmp. subst. split; [left|done].
  - intros [? ?]%IH. split; [by right|done].
Qed.

Lemma table_find_None eq h t id : table_find eq h t = None -> (h, id) ∈ t -> eq id = false.
Proof.
  induction t as [|[h' i] t IH]; simpl; [intros _ Hin; by apply not_elem_of_nil in Hin|].
  destruct ((h' =? h) && eq i) eqn:E; [done|]. intros Hf [E'|Hin]%elem_of_cons; [|auto].
  simplify_eq. by rewrite N.eqb_refl in E.
Qed.

Lemma elem_of_table_remove h id t x :
  NoDup t -> x ∈ table_remove h id t <-> x ∈ t /\ x <> (h, id).
Proof.
  induction 1 as [|[h' i] t Hni Hnd IH]; simpl; [set_solver|].
  destruct ((h' =? h) && (i =? id)) eqn:E.
  - simpl_cmp. subst. split; [|set_solver]. intros Hx. split; [set_solver|]. by intros ->.
  - rewrite !elem_of_cons, IH. split; [|set_solver]. intros [->|[? ?]]; [|set_solver].
    split; [by left|]. intros [= -> ->]. by rewrite !N.eqb_refl in E.
Qed.

Lemma NoDup_table_remove h id t : NoDup t -> NoDup (table_remove h id t).
Proof.
  induction 1 as [|[h' i] t Hni Hnd IH]; simpl; [constructor|].
  destruct ((h' =? h) && (i =? id)); [done|]. constructor; [|done].
  rewrite elem_of_table_remove by done. naive_solver.
Qed.

Section intern_release.
Context {U : Unicode} {H : Hasher}.
Implicit Types (ns : NameStore) (gs : list Slot).

Lemma view_slot ns gs i g rc h :
  repr ns gs -> getN i gs = Some g -> refcount_of i ns = Some rc -> chain_head i ns = Some h ->
  view ns i = Some {| v_raw := raw_of g; v_folded := sfold g; v_refcount := rc; v_head := h |}.
Proof.
  intros R Hi Hrc Hh. unfold view.
  by rewrite (raw_bytes_slot _ _ _ _ R Hi), (folded_bytes_slot _ _ _ _ R Hi); simpl; rewrite Hrc; simpl; rewrite Hh.
Qed.

Lemma view_None ns gs i : repr ns gs -> getN i gs = None -> view ns i = None.
Proof. intros R Hi. unfold view. by rewrite (raw_bytes_None _ _ _ R Hi). Qed.

Lemma view_inv ns gs i v :
  repr ns gs -> view ns i = Some v ->
  exists g, getN i gs = Some g /\ v_raw v = raw_of g /\ v_folded v = sfold g /\
    refcount_of i ns = Some (v_refcount v) /\ chain_head i ns = Some (v_head v).
Proof.
  intros R Hv. destruct (getN i gs) as [g|] eqn:Hi; [|by rewrite (view_None _ _ _ R Hi) in Hv].
  exists g. unfold view in Hv.
  rewrite (raw_bytes_slot _ _ _ _ R Hi), (folded_bytes_slot _ _ _ _ R Hi) in Hv. simpl in Hv.
  destruct (refcount_of i ns); simpl in Hv; [|done].
  destruct (chain_head i ns); simpl in Hv; [|done]. by simplify_eq.
Qed.

(** Two states whose slots, counts and heads agree at an id look the same. *)
Lemma view_eq ns ns' gs gs' i :
  repr ns gs -> repr ns' gs' -> getN i gs' = getN i gs ->
  refcount_of i ns' = refcount_of i ns -> chain_head i ns' = chain_head i ns ->
  view ns' i = view ns i.
Proof.
  intros R R' Hi Hrc Hh. unfold view. rewrite Hrc, Hh.
  destruct (getN i gs) as [g|] eqn:E.
  - by rewrite (raw_bytes_slot _ _ _ _ R E), (raw_bytes_slot _ _ _ _ R' Hi),
      (folded_bytes_slot _ _ _ _ R E), (folded_bytes_slot _ _ _ _ R' Hi).
  - by rewrite (raw_bytes_None _ _ _ R E), (raw_bytes_None _ _ _ R' Hi).
Qed.

Lemma live_insert ns i rc rc' j :
  refcount_of i ns = Some rc -> (0 < rc <-> 0 < rc') ->
  live (with_refcount (<[N.to_nat i := rc']> (refcount ns)) ns) j <-> live ns j.
Proof.
  intros Hrc Hiff. unfold live, refcount_of, with_refcount in *. simpl.
  rewrite getN_insert by (by eapply getN_lt). case_decide; [subst|done].
  rewrite Hrc. naive_solver.
Qed.

(** Changing a positive count to a positive count. *)
Lemma repr_refcount ns gs i rc rc' :
  repr ns gs -> refcount_of i ns = Some rc -> 0 < rc -> 0 < rc' ->
  repr (with_refcount (<[N.to_nat i := rc']> (refcount ns)) ns) gs.
Proof.
  intros R Hrc H1 H2.
  assert (HL : forall j, live (with_refcount (<[N.to_nat i := rc']> (refcount ns)) ns) j <-> live ns j)
    by (intros; by apply (live_insert _ _ rc)).
  destruct R. split; try done; simpl.
  - by rewrite len_insert.
  - intros j g. rewrite HL. eauto.
  - intros j g. rewrite HL. eauto.
  - intros j k g g'. rewrite !HL. eauto.
  - intros h id. rewrite r_table0. by setoid_rewrite HL.
Qed.

Lemma repr_head ns gs h : repr ns gs -> len h = len gs -> repr (with_head h ns) gs.
Proof. intros [] ?. by split. Qed.

(** *** A new name *)

Definition new_slot (name : list N) : Slot :=
  {| sfold := fold name; sraw := if bool_decide (fold name = name) then None else Some name |}.

Lemma raw_of_new_slot name : raw_of (new_slot name) = name.
Proof. unfold raw_of, new_slot. simpl. by case_bool_decide. Qed.

Definition added (name : list N) ns : NameStore :=
  {| raw := raw ns ++ rseg (new_slot name); folded := folded ns ++ fseg (new_slot name);
     pairs := pairs ns ++
       [{| raw_ref := if bool_decide (fold name = name)
                      then {| off := N.lor (len (folded ns)) RAW_IN_FOLDED; nlen := len (fold name) |}
                      else {| off := len (raw ns); nlen := len name |};
           folded_ref := {| off := len (folded ns); nlen := len (fold name) |} |}];
     refcount := refcount ns ++ [1]; head := head ns ++ [NIL];
     by_bytes := (hash_bytes name, len (pairs ns)) :: by_bytes ns; garbage := garbage ns;
     order := order ns; rank_of := rank_of ns ++ [UNRANKED]; unranked := unranked ns ++ [len (pairs ns)];
     dead_ranked := dead_ranked ns; settled := settled ns |}.

Lemma intern_miss name ns :
  room ns name ->
  table_find (fun id => bool_decide (raw_bytes ns id = Some name)) (hash_bytes name) (by_bytes ns) = None ->
  intern name ns = Some (ids ns, added name ns).
Proof.
  intros [R1 R2 R3 R4 R5 _] Hf. unfold intern. rewrite Hf. unfold push, ids, NIL in *.
  unfold as_u32, as_u16. rewrite !N.mod_small by (unfold u16_max, u32_max in *; lia).
  unfold added, fseg, rseg, new_slot. simpl. case_bool_decide; [by rewrite app_nil_r|done].
Qed.

Lemma live_added name ns i :
  live (added name ns) i <-> i = len (refcount ns) \/ live ns i.
Proof.
  unfold live, refcount_of, added. simpl. rewrite getN_snoc.
  case_decide as E; [|naive_solver]. subst.
  split; [by left|]. intros _. by exists 1.
Qed.

Lemma pair_of_snoc gs g i g' :
  i < len gs -> pair_of (gs ++ [g]) i g' = pair_of gs i g'.
Proof.
  intros Hi. unfold pair_of. rewrite !map_app. simpl.
  rewrite !seg_off_snoc by (unfold len in *; rewrite length_map; lia). done.
Qed.

Lemma pairs_added name ns gs :
  repr ns gs ->
  pairs (added name ns) = imap (fun i g => pair_of (gs ++ [new_slot name]) (N.of_nat i) g) (gs ++ [new_slot name]).
Proof.
  intros R. rewrite imap_app. unfold added. simpl. rewrite (r_pairs _ _ R). f_equal.
  - apply imap_ext. intros i g Hi. apply lookup_lt_Some in Hi. rewrite pair_of_snoc; [done|unfold len; lia].
  - f_equal. rewrite Nat.add_0_r. change (N.of_nat (length gs)) with (len gs). unfold pair_of.
    rewrite !map_app. simpl.
    assert (Hs : forall (f : Slot -> list N) s, seg_off (map f gs ++ [s]) (len gs) = len (concat (map f gs))).
    { intros f s. rewrite <- (seg_off_len _ s). f_equal. unfold len. by rewrite length_map. }
    rewrite !Hs, <- (r_folded _ _ R), <- (r_raw _ _ R).
    by case_bool_decide.
Qed.

Lemma repr_added name ns gs :
  repr ns gs -> room ns name ->
  (forall i g, getN i gs = Some g -> live ns i -> raw_of g <> name) ->
  repr (added name ns) (gs ++ [new_slot name]).
Proof.
  intros R Hroom Hnew. pose proof (r_refcount _ _ R) as Hrc. pose proof (len_pairs _ _ R) as Hp.
  pose proof (r_bounds _ _ R) as (B1 & B2 & B3). pose proof Hroom as [M1 M2 M3 M4 M5 _].
  assert (HL : forall i, live (added name ns) i <-> i = len gs \/ live ns i)
    by (intros; by rewrite live_added, Hrc).
  assert (Hlt : forall i, live ns i -> i <> len gs).
  { intros i (rc & Hi & _) ->. apply getN_lt in Hi. lia. }
  split.
  - simpl. rewrite map_app, concat_app, <- (r_folded _ _ R). simpl. by rewrite app_nil_r.
  - simpl. rewrite map_app, concat_app, <- (r_raw _ _ R). simpl. by rewrite app_nil_r.
  - by apply pairs_added.
  - simpl. len_solve.
  - simpl. pose proof (r_head _ _ R). len_solve.
  - simpl. pose proof (r_rank _ _ R). len_solve.
  - apply Forall_app_2; [apply (r_small _ _ R)|]. apply Forall_singleton. by rewrite raw_of_new_slot.
  - intros i g. rewrite getN_snoc, HL. case_decide; [naive_solver|]. intros. apply (r_dead _ _ R i); naive_solver.
  - intros i g. rewrite getN_snoc, HL. case_decide; [intros; simplify_eq; by rewrite raw_of_new_slot|].
    intros. apply (r_live _ _ R i); naive_solver.
  - intros i j g g'. rewrite !getN_snoc, !HL. repeat case_decide; subst; [done| | |].
    + intros ? ? _ [?|?]; [done|]. simplify_eq. rewrite raw_of_new_slot. intros. by exfalso; eapply Hnew.
    + intros ? ? [?|?]; [done|]. intros _. simplify_eq. rewrite raw_of_new_slot. intros. by exfalso; eapply Hnew.
    + intros ? ? [?|?] [?|?]; try done. by eapply (r_unique _ _ R).
  - simpl. constructor; [|apply (r_table_nodup _ _ R)]. rewrite (r_table _ _ R). intros (g & Hg & Hl & _).
    rewrite Hp in Hl. by eapply Hlt.
  - intros h id. simpl. rewrite elem_of_cons, (r_table _ _ R), Hp. split.
    + intros [E|(g & Hg & Hl & ->)].
      * simplify_eq. exists (new_slot name). rewrite getN_app_last, raw_of_new_slot, HL. auto.
      * exists g. rewrite getN_snoc, HL. rewrite decide_False by (by apply Hlt). auto.
    + intros (g & Hg & Hl & ->). rewrite getN_snoc in Hg. apply HL in Hl. case_decide; subst.
      * simplify_eq. left. by rewrite raw_of_new_slot.
      * right. exists g. naive_solver.
  - simpl. unfold ids in M5. rewrite Hp in M5. unfold fseg, rseg, new_slot. simpl.
    case_bool_decide; len_solve.
Qed.

(** Interning: the id names exactly the bytes asked for, one reference more
    than before, and nothing else the index can see changes. *)
Definition intern_post name ns (id : N) ns' : Prop :=
  ns_ok ns' /\
  view ns' id = Some {| v_raw := name; v_folded := fold name;
                        v_refcount := default 0 (refcount_of id ns) + 1;
                        v_head := default NIL (chain_head id ns) |} /\
  (forall j, j <> id -> view ns' j = view ns j) /\
  ids ns <= ids ns' <= ids ns + 1 /\ id < ids ns' /\ (id < ids ns -> live ns id) /\
  (id < ids ns \/ id = ids ns).

(** The two ways [intern] returns. *)
Lemma intern_cases name ns gs :
  repr ns gs -> room ns name ->
  (exists id rc g, getN id gs = Some g /\ raw_of g = name /\ refcount_of id ns = Some rc /\ 0 < rc /\
     intern name ns = Some (id, with_refcount (<[N.to_nat id := rc + 1]> (refcount ns)) ns)) \/
  (intern name ns = Some (ids ns, added name ns) /\ repr (added name ns) (gs ++ [new_slot name])).
Proof.
  intros R Hroom.
  destruct (table_find (fun id => bool_decide (raw_bytes ns id = Some name)) (hash_bytes name) (by_bytes ns))
    as [id|] eqn:Hf.
  - left. pose proof Hf as [Hin Heq]%table_find_Some. apply bool_decide_eq_true in Heq.
    apply (r_table _ _ R) in Hin as (g & Hg & (rc & Hrc & Hpos) & _).
    rewrite (raw_bytes_slot _ _ _ _ R Hg) in Heq. simplify_eq.
    assert (rc < u32_max) by (apply (Forall_lookup_1 _ _ _ _ (room_refs _ _ Hroom) Hrc)).
    exists id, rc, g. split_and!; try done. unfold intern. rewrite Hf. unfold refcount_of in Hrc. rewrite Hrc. simpl.
    rewrite (proj2 (N.eqb_neq _ _)), setN_some by (lia || by eapply getN_lt). done.
  - right. split; [by apply intern_miss|]. apply repr_added; try done.
    intros i g Hg Hl <-. assert (Hin : (hash_bytes (raw_of g), i) ∈ by_bytes ns) by (apply (r_table _ _ R); eauto).
    eapply table_find_None in Hf; [|done]. rewrite (raw_bytes_slot _ _ _ _ R Hg) in Hf.
    by apply bool_decide_eq_false in Hf.
Qed.

Lemma intern_hit_post ns gs id rc g :
  repr ns gs -> getN id gs = Some g -> refcount_of id ns = Some rc -> 0 < rc ->
  intern_post (raw_of g) ns id (with_refcount (<[N.to_nat id := rc + 1]> (refcount ns)) ns).
Proof.
  intros R Hg Hrc Hpos. assert (Hl : live ns id) by (by exists rc).
  pose proof (getN_lt _ _ _ Hrc) as Hlt. pose proof (getN_lt _ _ _ Hg) as Hltg. pose proof (len_pairs _ _ R) as Hp.
  destruct (getN_is_Some id (head ns)) as [h Hh]; [rewrite (r_head _ _ R); done|].
  pose proof (repr_refcount _ _ _ _ (rc + 1) R Hrc Hpos ltac:(lia)) as R'.
  split; [by exists gs|]. unfold ids. simpl. rewrite Hp. split_and!; try lia; try done.
  - erewrite (view_slot _ gs id g); [|done..| |done]; unfold refcount_of, chain_head in *; simpl.
    + by rewrite (r_live _ _ R _ _ Hg), Hh, Hrc by done.
    + by rewrite getN_insert, decide_True by lia.
  - intros j Hj. apply (view_eq _ _ gs gs); try done. unfold refcount_of. simpl.
    by rewrite getN_insert, decide_False by (done || lia).
Qed.

Lemma intern_added_post name ns gs :
  repr ns gs -> repr (added name ns) (gs ++ [new_slot name]) -> intern_post name ns (ids ns) (added name ns).
Proof.
  intros R R'. assert (E : ids ns = len gs) by exact (len_pairs _ _ R).
  assert (E1 : getN (len gs) (refcount ns) = None) by (rewrite getN_ge; [done|]; rewrite (r_refcount _ _ R); lia).
  assert (E2 : getN (len gs) (head ns) = None) by (rewrite getN_ge; [done|]; rewrite (r_head _ _ R); lia).
  split; [by exists (gs ++ [new_slot name])|]. unfold refcount_of, chain_head. rewrite E, E1, E2.
  split; [|split; [|unfold ids in *; simpl; autorewrite with goz_len; split_and!; try lia; intros; lia]].
  - rewrite (view_slot _ (gs ++ [new_slot name]) (len gs) (new_slot name) 1 NIL);
      [by rewrite raw_of_new_slot|done|apply getN_app_last| |].
    + unfold refcount_of. simpl. by rewrite <- (r_refcount _ _ R), getN_app_last.
    + unfold chain_head. simpl. by rewrite <- (r_head _ _ R), getN_app_last.
  - intros j Hj. apply (view_eq _ _ gs (gs ++ [new_slot name])); try done.
    + by rewrite getN_snoc, decide_False.
    + unfold refcount_of. simpl. rewrite getN_snoc, (r_refcount _ _ R), decide_False; done.
    + unfold chain_head. simpl. rewrite getN_snoc, (r_head _ _ R), decide_False; done.
Qed.

Lemma wp_intern name ns :
  ns_ok ns -> room ns name -> wp (intern name) (fun id ns' => intern_post name ns id ns') ns.
Proof.
  intros [gs R] Hroom. apply wp_run.
  destruct (intern_cases _ _ _ R Hroom) as [(id & rc & g & Hg & <- & Hrc & Hpos & E)|[E R']].
  - eexists id, _. split; [exact E|]. by apply intern_hit_post with gs.
  - eexists (ids ns), _. split; [exact E|]. by apply intern_added_post with gs.
Qed.
End intern_release.

(** *** The last reference goes *)

Definition zero_slot (g : Slot) : Slot :=
  {| sfold := replicate (length (sfold g)) 0;
     sraw := (fun b => replicate (length b) 0) <$> sraw g |}.

Lemma zeros_replicate n : zeros (replicate n 0).
Proof. by apply Forall_replicate. Qed.

Lemma zeros_zero_slot g : zeros (sfold (zero_slot g)) /\ zeros (raw_of (zero_slot g)).
Proof. unfold raw_of, zero_slot. destruct (sraw g); simpl; split; apply zeros_replicate. Qed.

Lemma len_zero_slot g :
  len (sfold (zero_slot g)) = len (sfold g) /\ len (raw_of (zero_slot g)) = len (raw_of g) /\
  len (fseg (zero_slot g)) = len (fseg g) /\ len (rseg (zero_slot g)) = len (rseg g).
Proof.
  unfold raw_of, zero_slot, fseg, rseg, len. destruct (sraw g); simpl;
    rewrite ?length_app, ?length_replicate; done.
Qed.

Section release.
Context {U : Unicode} {H : Hasher}.
Implicit Types (ns : NameStore) (gs : list Slot).

Lemma zero_fill_slot gs i g :
  getN i gs = Some g ->
  zero_fill (seg_off (map fseg gs) i) (len (sfold g)) (concat (map fseg gs)) =
    Some (concat (map fseg (<[N.to_nat i := zero_slot g]> gs))).
Proof.
  intros Hi. rewrite (zero_fill_seg _ _ (fseg g)); [|by rewrite getN_map, Hi|unfold fseg; len_solve].
  do 2 f_equal. rewrite list_fmap_insert. f_equal. unfold fseg, zero_slot, len. simpl.
  rewrite Nat2N.id, drop_app_length. done.
Qed.

Lemma zero_fill_raw_slot gs i g b :
  getN i gs = Some g -> sraw g = Some b ->
  zero_fill (seg_off (map rseg gs) i) (len b) (concat (map rseg gs)) =
    Some (concat (map rseg (<[N.to_nat i := zero_slot g]> gs))).
Proof.
  intros Hi Hb. assert (Hs : rseg g = b ++ [0]) by (unfold rseg; by rewrite Hb).
  rewrite (zero_fill_seg _ _ (rseg g)); [|by rewrite getN_map, Hi|rewrite Hs; len_solve].
  do 2 f_equal. rewrite list_fmap_insert. f_equal. rewrite Hs. unfold rseg, zero_slot, len. rewrite Hb. simpl.
  rewrite Nat2N.id, drop_app_length. done.
Qed.

Lemma rseg_shared gs i g :
  getN i gs = Some g -> sraw g = None -> map rseg (<[N.to_nat i := zero_slot g]> gs) = map rseg gs.
Proof.
  intros Hi Hb. rewrite list_fmap_insert. apply list_insert_id.
  change (map rseg gs !! N.to_nat i) with (getN i (map rseg gs)).
  rewrite getN_map, Hi. simpl. f_equal. unfold rseg, zero_slot. by rewrite Hb.
Qed.

Lemma pair_of_zeroed gs i g j g' :
  getN i gs = Some g -> getN j (<[N.to_nat i := zero_slot g]> gs) = Some g' ->
  Some (pair_of (<[N.to_nat i := zero_slot g]> gs) j g') = pair_of gs j <$> getN j gs.
Proof.
  intros Hi Hj. pose proof (getN_lt _ _ _ Hi).
  destruct (len_zero_slot g) as (L1 & L2 & L3 & L4).
  assert (Hoff : forall f : Slot -> list N, len (f (zero_slot g)) = len (f g) ->
            seg_off (map f (<[N.to_nat i := zero_slot g]> gs)) j = seg_off (map f gs) j).
  { intros f Hf. rewrite list_fmap_insert. apply (seg_off_insert _ _ (f g)); [by rewrite getN_map, Hi|done]. }
  rewrite getN_insert in Hj by done. unfold pair_of. rewrite !Hoff by done.
  case_decide; subst; simplify_eq; [rewrite Hi|by rewrite Hj]. simpl.
  unfold len. rewrite length_replicate. destruct (sraw g); simpl; [|done]. by rewrite length_replicate.
Qed.

Definition killed (i : N) (g : Slot) (gs : list Slot) (garb dead : N) ns : NameStore :=
  {| raw := concat (map rseg (<[N.to_nat i := zero_slot g]> gs));
     folded := concat (map fseg (<[N.to_nat i := zero_slot g]> gs));
     pairs := pairs ns; refcount := <[N.to_nat i := 0]> (refcount ns); head := head ns;
     by_bytes := table_remove (hash_bytes (raw_of g)) i (by_bytes ns);
     garbage := garb; order := order ns; rank_of := rank_of ns; unranked := unranked ns;
     dead_ranked := dead; settled := settled ns |}.

Lemma release_last i ns gs g :
  repr ns gs -> getN i gs = Some g -> refcount_of i ns = Some 1 ->
  exists garb dead, release i ns = Some (tt, killed i g gs garb dead ns).
Proof.
  intros R Hi Hrc. unfold release. pose proof (getN_lt _ _ _ Hrc). unfold refcount_of in Hrc. rewrite Hrc. simpl.
  rewrite setN_some by done. simpl. rewrite (getN_pairs _ gs), Hi by done. simpl.
  rewrite (raw_bytes_pair _ _ _ _ R Hi). simpl.
  destruct (getN_is_Some i (rank_of ns)) as [rk ->].
  { rewrite (r_rank _ _ R). by eapply getN_lt. }
  simpl. rewrite (r_folded _ _ R), zero_fill_slot by done. simpl.
  pose proof (in_folded_pair _ _ _ _ R Hi) as Hin. unfold pair_of in Hin. simpl in Hin. rewrite Hin.
  rewrite (r_raw _ _ R). destruct (sraw g) as [b|] eqn:Hb.
  - simpl. rewrite (zero_fill_raw_slot _ _ g) by done. simpl. by eexists _, _.
  - simpl. unfold killed. rewrite (rseg_shared _ _ g) by done. by eexists _, _.
Qed.

Lemma repr_killed i g gs garb dead ns :
  repr ns gs -> getN i gs = Some g -> live ns i ->
  repr (killed i g gs garb dead ns) (<[N.to_nat i := zero_slot g]> gs).
Proof.
  intros R Hi Hlive. pose proof (getN_lt _ _ _ Hi) as Hlt. pose proof (r_refcount _ _ R) as Hrc.
  destruct (len_zero_slot g) as (L1 & L2 & L3 & L4).
  set (gs' := <[N.to_nat i := zero_slot g]> gs).
  assert (HL : forall j, live (killed i g gs garb dead ns) j <-> j <> i /\ live ns j).
  { intros j. unfold live, refcount_of, killed. simpl. rewrite getN_insert by lia.
    case_decide; naive_solver lia. }
  assert (HG : forall j, j <> i -> getN j gs' = getN j gs)
    by (intros; unfold gs'; by rewrite getN_insert, decide_False by congruence).
  assert (HS : forall j g', getN j gs' = Some g' -> j <> i -> getN j gs = Some g') by (intros; by rewrite <- HG).
  assert (Hcat : forall f : Slot -> list N, len (f (zero_slot g)) = len (f g) ->
            len (concat (map f gs')) = len (concat (map f gs))).
  { intros f Hf. unfold gs'. rewrite list_fmap_insert.
    pose proof (len_concat_insert (map f gs) i (f g) (f (zero_slot g))) as E.
    specialize (E ltac:(by rewrite getN_map, Hi) Hf (length gs)).
    rewrite !take_ge in E by (rewrite ?length_insert, ?length_map; lia). exact E. }
  split; simpl; try done.
  - apply list_eq. intros k. rewrite list_lookup_imap.
    pose proof (getN_pairs _ _ (N.of_nat k) R) as Hk. unfold getN in Hk. rewrite Nat2N.id in Hk. rewrite Hk.
    destruct (gs' !! k) as [g'|] eqn:Ek.
    + simpl. pose proof (pair_of_zeroed gs i g (N.of_nat k) g' Hi) as E. unfold getN in E. rewrite Nat2N.id in E.
      by rewrite <- E.
    + apply lookup_ge_None in Ek. unfold gs' in Ek. rewrite length_insert in Ek. simpl.
      by rewrite lookup_ge_None_2.
  - unfold gs'. by rewrite !len_insert.
  - unfold gs'. rewrite len_insert. apply (r_head _ _ R).
  - unfold gs'. rewrite len_insert. apply (r_rank _ _ R).
  - apply Forall_insert; [apply (r_small _ _ R)|]. rewrite L1, L2.
    apply (Forall_lookup_1 _ _ _ _ (r_small _ _ R) Hi).
  - intros j g'. rewrite HL. intros Hj Hnl. destruct (decide (j = i)) as [->|Hne].
    + unfold gs' in Hj. rewrite getN_insert, decide_True in Hj by done. simplify_eq. apply zeros_zero_slot.
    + apply (r_dead _ _ R j); [by apply HS|]. naive_solver.
  - intros j g' Hj. rewrite HL. intros [? ?]. apply (r_live _ _ R j); [by apply HS|done].
  - intros j k gj gk Hj Hk. rewrite !HL. intros [? ?] [? ?]. apply (r_unique _ _ R); by auto.
  - apply NoDup_table_remove, (r_table_nodup _ _ R).
  - intros h id. rewrite elem_of_table_remove by apply (r_table_nodup _ _ R). rewrite (r_table _ _ R).
    setoid_rewrite HL. split.
    + intros [(g' & Hg' & Hl & ->) Hne]. assert (id <> i) by (intros ->; simplify_eq). exists g'. by rewrite HG.
    + intros (g' & Hg' & [Hne Hl] & ->). split; [exists g'; by rewrite <- HG|congruence].
  - pose proof (r_bounds _ _ R) as (B1 & B2 & B3). fold gs'. rewrite (Hcat fseg), (Hcat rseg) by done.
    rewrite <- (r_folded _ _ R), <- (r_raw _ _ R). unfold gs'. by rewrite len_insert.
Qed.

(** Releasing: one reference fewer and nothing else changes; with the last
    one the id is dead and its bytes are zeros. *)
Definition release_post ns (id rc : N) ns' : Prop :=
  ns_ok ns' /\ refcount_of id ns' = Some (rc - 1) /\ chain_head id ns' = chain_head id ns /\
  (1 < rc -> raw_bytes ns' id = raw_bytes ns id /\ folded_bytes_of ns' id = folded_bytes_of ns id) /\
  (forall j, j <> id -> view ns' j = view ns j) /\ ids ns' = ids ns.

Lemma wp_release id rc ns :
  ns_ok ns -> refcount_of id ns = Some rc -> 0 < rc ->
  wp (release id) (fun _ ns' => release_post ns id rc ns') ns.
Proof.
  intros [gs R] Hrc Hpos. assert (Hl : live ns id) by (by exists rc).
  destruct (live_slot _ _ _ R Hl) as [g Hg]. pose proof (getN_lt _ _ _ Hrc) as Hlt.
  apply wp_run. destruct (decide (rc = 1)) as [->|Hne].
  - destruct (release_last _ _ _ _ R Hg Hrc) as (garb & dead & E).
    pose proof (repr_killed id g gs garb dead ns R Hg Hl) as R'.
    exists tt, (killed id g gs garb dead ns). split; [done|].
    split; [by eexists|]. split; [|split; [done|split; [lia|split; [|done]]]].
    + unfold refcount_of. simpl. by rewrite getN_insert, decide_True.
    + intros j Hj. apply (view_eq _ _ gs (<[N.to_nat id := zero_slot g]> gs)); try done.
      * rewrite getN_insert, decide_False; [done|done|by eapply getN_lt].
      * unfold refcount_of. simpl. by rewrite getN_insert, decide_False by (done || lia).
  - exists tt, (with_refcount (<[N.to_nat id := rc - 1]> (refcount ns)) ns).
    pose proof (repr_refcount _ _ _ _ (rc - 1) R Hrc Hpos ltac:(lia)) as R'.
    split.
    { unfold release, refcount_of in *. rewrite Hrc. simpl. rewrite (proj2 (N.eqb_neq _ _)), setN_some by lia.
      simpl. by rewrite (proj2 (N.ltb_lt _ _)) by lia. }
    split; [by exists gs|]. split; [|split; [done|split; [done|split; [|done]]]].
    + unfold refcount_of. simpl. by rewrite getN_insert, decide_True.
    + intros j Hj. apply (view_eq _ _ gs gs); try done.
      unfold refcount_of. simpl. by rewrite getN_insert, decide_False by (done || lia).
Qed.
End release.

(** ** The scan haystack *)

Lemma seg_off_cons s segs i : 0 < i -> seg_off (s :: segs) i = len s + seg_off segs (i - 1).
Proof.
  intros. unfold seg_off. destruct (N.to_nat i) as [|n] eqn:E; [lia|]. simpl. rewrite len_app. do 4 f_equal. lia.
Qed.

Lemma slice_app_in {A} (l k : list A) o n : o + n <= len l -> slice o n (l ++ k) = slice o n l.
Proof.
  unfold slice, len. intros. rewrite drop_app_le by lia. apply take_app_le. rewrite length_drop. lia.
Qed.

Lemma slice_in_seg segs i (s : list N) k n :
  getN i segs = Some s -> k + n <= len s -> slice (seg_off segs i + k) n (concat segs) = slice k n s.
Proof.
  unfold seg_off, getN. intros Hi Hn. rewrite <- (take_drop_middle segs (N.to_nat i) s Hi) at 2.
  rewrite concat_app, slice_app_ge by lia. cbn [concat]. rewrite slice_app_in by lia. f_equal. lia.
Qed.

Lemma getN_cons_pos {A} (x : A) l i : 0 < i -> getN i (x :: l) = getN (i - 1) l.
Proof. intros. unfold getN. destruct (N.to_nat i) as [|n] eqn:E; [lia|]. simpl. f_equal. lia. Qed.

Lemma len_fseg g : len (fseg g) = len (sfold g) + 1.
Proof. unfold fseg. len_solve. Qed.

(** A NUL-free needle found in the arena lies inside one name. *)
Lemma match_in_segment gs needle pos :
  needle <> [] -> 0 ∉ needle -> pos + len needle <= len (concat (map fseg gs)) ->
  slice pos (len needle) (concat (map fseg gs)) = needle ->
  exists i g, getN i gs = Some g /\ seg_off (map fseg gs) i <= pos /\
    pos + len needle <= seg_off (map fseg gs) i + len (sfold g).
Proof.
  intros Hne Hnul. revert pos. induction gs as [|g gs IH]; intros pos Hb Hs.
  { simpl in Hb. destruct needle; [done|]. len_solve. }
  destruct (N.le_gt_cases (pos + len needle) (len (sfold g))) as [Hin|Hout].
  { exists 0, g. split; [done|]. unfold seg_off. simpl. unfold len at 1 3. simpl. lia. }
  destruct (N.le_gt_cases (len (fseg g)) pos) as [Hpast|Hspan].
  - cbn [map concat] in *. rewrite slice_app_ge in Hs by done.
    assert (Hb' : pos - len (fseg g) + len needle <= len (concat (map fseg gs))) by len_solve.
    destruct (IH _ Hb' Hs) as (i & g' & Hi & H1 & H2). exists (i + 1), g'.
    rewrite getN_cons_pos, seg_off_cons by lia. replace (i + 1 - 1) with i by lia. split; [done|]. lia.
  - exfalso. apply Hnul. rewrite <- Hs.
    assert (Hpos : pos <= len (sfold g)) by (unfold fseg in Hspan; len_solve).
    apply list_elem_of_lookup. exists (N.to_nat (len (sfold g) - pos)). unfold slice.
    rewrite lookup_take_lt by lia. rewrite lookup_drop. simpl. unfold fseg at 1.
    rewrite <- app_assoc, lookup_app_r by (unfold len in *; lia).
    replace (N.to_nat pos + N.to_nat (len (sfold g) - pos) - length (sfold g))%nat with 0%nat
      by (unfold len in *; lia). done.
Qed.

Section claims.
Context {U : Unicode} {H : Hasher}.
Implicit Types (ns : NameStore).

Lemma ns_unique ns i j b :
  ns_ok ns -> live ns i -> live ns j -> raw_bytes ns i = Some b -> raw_bytes ns j = Some b -> i = j.
Proof.
  intros [gs R] Hi Hj Hbi Hbj. destruct (live_slot _ _ _ R Hi) as [gi Ei]. destruct (live_slot _ _ _ R Hj) as [gj Ej].
  rewrite (raw_bytes_slot _ _ _ _ R Ei) in Hbi. rewrite (raw_bytes_slot _ _ _ _ R Ej) in Hbj.
  apply (r_unique _ _ R i j gi gj); congruence.
Qed.

Lemma view_live ns j v : view ns j = Some v -> 0 < v_refcount v -> live ns j.
Proof.
  unfold view, live. destruct (raw_bytes ns j); [|done]. destruct (folded_bytes_of ns j); [|done]. simpl.
  destruct (refcount_of j ns) as [rc|]; [|done]. destruct (chain_head j ns); [|done].
  intros [= <-] Hrc. by exists rc.
Qed.

Lemma view_raw ns j v : view ns j = Some v -> raw_bytes ns j = Some (v_raw v).
Proof.
  unfold view. destruct (raw_bytes ns j); [|done]. destruct (folded_bytes_of ns j); [|done]. simpl.
  destruct (refcount_of j ns); [|done]. destruct (chain_head j ns); [|done]. by intros [= <-].
Qed.

Lemma live_view ns j : ns_ok ns -> live ns j -> exists v, view ns j = Some v /\ 0 < v_refcount v.
Proof.
  intros [gs R] Hl. destruct (live_slot _ _ _ R Hl) as [g Hg]. destruct Hl as (rc & Hrc & Hpos).
  destruct (getN_is_Some j (head ns)) as [h Hh]; [rewrite (r_head _ _ R); by eapply getN_lt|].
  by eexists; split; [apply (view_slot _ _ _ _ _ _ R Hg Hrc Hh)|].
Qed.

(** An interned name keeps its id while it lives. *)
Lemma intern_post_known name ns id ns' j :
  ns_ok ns -> intern_post name ns id ns' -> live ns j -> raw_bytes ns j = Some name -> id = j.
Proof.
  intros Hok (Hok' & Hid & Hoth & _) Hl Hb. destruct (decide (j = id)) as [|Hne]; [done|].
  destruct (live_view _ _ Hok Hl) as (v & Hv & Hpos). pose proof (Hoth _ Hne) as Hj. rewrite Hv in Hj.
  apply (ns_unique ns' id j name); [done| | |by apply (view_raw _ _ _ Hid)|].
  - apply (view_live _ _ _ Hid). simpl. lia.
  - by apply (view_live _ _ _ Hj).
  - rewrite (view_raw _ _ _ Hj), <- (view_raw _ _ _ Hv). done.
Qed.
End claims.

(** Interning a name succeeds and returns an id whose bytes are exactly
    that name and whose folded bytes are its fold, with one reference more than
    the id had; a live name is always found again under its own id, a dead id
    is never handed out again, and no other id changes in anything the index
    reads of it. *)
Theorem intern_correct `{Unicode, Hasher} name ns :
  ns_ok ns -> room ns name ->
  exists id ns', intern name ns = Some (id, ns') /\ ns_ok ns' /\
    view ns' id = Some {| v_raw := name; v_folded := fold name;
                          v_refcount := default 0 (refcount_of id ns) + 1;
                          v_head := default NIL (chain_head id ns) |} /\
    (forall j, live ns j -> raw_bytes ns j = Some name -> id = j) /\
    (id < ids ns -> live ns id) /\
    (forall j, j <> id -> view ns' j = view ns j).
Proof.
  intros Hok Hroom. pose proof (wp_intern _ _ Hok Hroom) as (id & ns' & E & Hpost)%wp_run.
  exists id, ns'. split; [done|]. pose proof Hpost as (Hok' & Hid & Hoth & _ & _ & Hlive & _).
  split_and!; try done. intros j. by apply (intern_post_known name ns id ns' j).
Qed.

(** Releasing a live name takes away exactly one reference; its bytes stay
    until the last reference goes, at which point its bytes are zeroed and the
    name is in the intern table no more; no other id changes. *)
Theorem release_correct `{Unicode, Hasher} id rc ns :
  ns_ok ns -> refcount_of id ns = Some rc -> 0 < rc ->
  exists ns', release id ns = Some (tt, ns') /\ ns_ok ns' /\
    refcount_of id ns' = Some (rc - 1) /\
    (1 < rc -> raw_bytes ns' id = raw_bytes ns id) /\
    (rc = 1 -> exists b, raw_bytes ns' id = Some b /\ zeros b /\ forall h, (h, id) ∉ by_bytes ns') /\
    (forall j, j <> id -> view ns' j = view ns j).
Proof.
  intros Hok Hrc Hpos. pose proof (wp_release _ _ _ Hok Hrc Hpos) as ([] & ns' & E & Hpost)%wp_run.
  exists ns'. destruct Hpost as ([gs' R'] & Hrc' & _ & Hsame & Hoth & Hids).
  split; [done|]. split; [by exists gs'|]. split; [done|]. split; [by intros [? _]%Hsame|]. split; [|done].
  intros ->. assert (Hd : ~ live ns' id) by (intros (? & ? & ?); simplify_eq; lia).
  destruct (getN_is_Some id gs') as [g Hg].
  { rewrite <- (r_refcount _ _ R'). by eapply getN_lt. }
  exists (raw_of g). split; [by apply raw_bytes_slot with gs'|].
  split; [by apply (r_dead _ _ R' id g)|]. intros h Hin. apply (r_table _ _ R') in Hin as (? & _ & ? & _). done.
Qed.

(** The query scan cannot be misled: a non-empty needle without NULs that
    occurs anywhere in the contiguous folded arena occurs inside one single
    live name, never across two names and never in a dead one. *)
Theorem haystack_match_is_live `{Unicode, Hasher} ns needle pos :
  ns_ok ns -> needle <> [] -> 0 ∉ needle ->
  arena_slice pos (len needle) (folded ns) = Some needle ->
  exists id p bs, live ns id /\ getN id (pairs ns) = Some p /\ folded_bytes_of ns id = Some bs /\
    off (folded_ref p) <= pos /\ pos + len needle <= off (folded_ref p) + nlen (folded_ref p) /\
    slice (pos - off (folded_ref p)) (len needle) bs = needle.
Proof.
  intros [gs R] Hne Hnul Hs. unfold arena_slice in Hs.
  destruct (N.leb_spec (pos + len needle) (len (folded ns))) as [Hb|]; [|done]. simplify_eq.
  rewrite (r_folded _ _ R) in Hb, Hs.
  destruct (match_in_segment _ _ _ Hne Hnul Hb Hs) as (i & g & Hi & H1 & H2).
  assert (Hsl : slice (pos - seg_off (map fseg gs) i) (len needle) (sfold g) = needle).
  { rewrite <- Hs at 2. replace pos with (seg_off (map fseg gs) i + (pos - seg_off (map fseg gs) i)) at 2 by lia.
    rewrite (slice_in_seg _ _ (fseg g)); [|by rewrite getN_map, Hi|rewrite len_fseg; lia].
    symmetry. apply slice_app_in. lia. }
  exists i, (pair_of gs i g), (sfold g). rewrite (getN_pairs _ gs), Hi by done.
  split; [|split; [done|split; [by apply folded_bytes_slot with gs|done]]].
  destruct (decide (live ns i)) as [|Hd]; [done|]. exfalso.
  destruct (r_dead _ _ R i g Hi Hd) as [Hz _].
  assert (Hzn : zeros needle) by (rewrite <- Hsl; by apply Forall_take, Forall_drop).
  destruct Hzn as [|b needle ->]; [done|]. apply Hnul. left.
Qed.

(** *** Witnesses: a hasher that sends every name to the same bucket *)

#[local] Instance one_bucket : Hasher := fun _ => 0.

(** "A", then "b", which folds to itself. *)
Definition store_a : NameStore := Eval vm_compute in default empty_store (snd <$> intern [0x41] empty_store).
Definition store_ab : NameStore := Eval vm_compute in default empty_store (snd <$> intern [0x62] store_a).

Lemma ns_ok_empty `{Unicode, Hasher} : ns_ok empty_store.
Proof. exists []. apply repr_empty. Qed.

Lemma room_small ns name :
  len name <= u16_max -> len (fold name) <= u16_max -> len (folded ns) + len (fold name) + 1 <= 2 ^ 31 ->
  len (raw ns) + len name + 1 <= 2 ^ 31 -> ids ns < NIL ->
  forallb (fun rc => rc <? u32_max) (refcount ns) = true -> room ns name.
Proof.
  intros ? ? ? ? ? Hrc. split; try done. apply Forall_forall. intros rc Hin.
  apply N.ltb_lt. rewrite forallb_forall in Hrc. by apply Hrc, list_elem_of_In.
Qed.

Lemma store_a_ok : ns_ok store_a.
Proof.
  destruct (proj1 (wp_run _ _ _) (wp_intern [0x41] empty_store ns_ok_empty ltac:(apply room_small; vm_compute; done)))
    as (i & ns & E & Hok & _).
  assert (C : intern [0x41] empty_store = Some (0, store_a)) by (vm_compute; reflexivity). congruence.
Qed.

Lemma store_ab_ok : ns_ok store_ab.
Proof.
  destruct (proj1 (wp_run _ _ _) (wp_intern [0x62] store_a store_a_ok ltac:(apply room_small; vm_compute; done)))
    as (i & ns & E & Hok & _).
  assert (C : intern [0x62] store_a = Some (1, store_ab)) by (vm_compute; reflexivity). congruence.
Qed.

Lemma intern_correct_witness :
  ns_ok store_a /\ room store_a [0x41] /\
  exists id ns', intern [0x41] store_a = Some (id, ns') /\ raw_bytes ns' id = Some [0x41].
Proof.
  assert (R0 : room store_a [0x41]) by (apply room_small; vm_compute; done).
  split; [exact store_a_ok|]. split; [exact R0|].
  destruct (intern_correct [0x41] store_a store_a_ok R0) as (id & ns' & E & _ & Hv & _).
  exists id, ns'. split; [exact E|]. apply (view_raw _ _ _ Hv).
Defined.

Lemma release_correct_witness :
  ns_ok store_ab /\ refcount_of 1 store_ab = Some 1 /\
  exists ns', release 1 store_ab = Some (tt, ns') /\ refcount_of 1 ns' = Some 0.
Proof.
  assert (Hrc : refcount_of 1 store_ab = Some 1) by (vm_compute; reflexivity).
  split; [exact store_ab_ok|]. split; [exact Hrc|].
  destruct (release_correct 1 1 store_ab store_ab_ok Hrc) as (ns' & E' & _ & Hrc' & _); [lia|].
  exists ns'. split; [exact E'|exact Hrc'].
Defined.

Lemma haystack_match_is_live_witness :
  ns_ok store_ab /\ arena_slice 2 1 (folded store_ab) = Some [0x62] /\ exists id, live store_ab id.
Proof.
  assert (Hs : arena_slice 2 (len [0x62]) (folded store_ab) = Some [0x62]) by (vm_compute; reflexivity).
  split; [exact store_ab_ok|]. split; [exact Hs|].
  destruct (haystack_match_is_live store_ab [0x62] 2 store_ab_ok ltac:(done) ltac:(set_solver) Hs) as (id & _ & _ & Hl & _).
  exists id. exact Hl.
Defined.
