(* ===== verification/NameOrder.v ===== *)
(** The name order and compaction of the name store: [build_order],
    [merge_unranked], [rerank], [rank_key], [insertion_point], [plan_compact]
    and [install_compacted] of [crates/goz-core/src/index/store.rs].

    The parallel sort of the source is a sort of distinct ids by a total order
    on (folded bytes, id), whose result is unique; it is stdpp's [merge_sort]
    here.  A loop over positions takes its bound as fuel. *)

From stdpp Require Import gmap.
From stdpp Require Import base option list sorting.
From Stdlib Require Import NArith Lia.
From S2P Require Import Prelude Types Wtf8 Fold NameStore.

(** ** Lexicographic order on byte strings: [Ord] for [&[u8]] *)

Fixpoint bytes_cmp (a b : list N) : comparison :=
  match a, b with
  | [], [] => Eq
  | [], _ :: _ => Lt
  | _ :: _, [] => Gt
  | x :: a', y :: b' =>
      match N.compare x y with Eq => bytes_cmp a' b' | c => c end
  end.

(** [(folded_in(id), id)] as the source's closures compare it. *)
Definition key_cmp (a b : list N * N) : comparison :=
  match bytes_cmp a.1 b.1 with Eq => N.compare a.2 b.2 | c => c end.

Definition key_le (a b : list N * N) : Prop := key_cmp a b <> Gt.
#[export] Instance key_le_dec : RelDecision key_le.
Proof. intros a b. unfold key_le. destruct (key_cmp a b); [left|left|right]; congruence. Defined.

Definition with_order (ord rk un : list N) (dead : N) (ns : NameStore) : NameStore :=
  {| raw := raw ns; folded := folded ns; pairs := pairs ns; refcount := refcount ns; head := head ns;
     by_bytes := by_bytes ns; garbage := garbage ns; order := ord; rank_of := rk; unranked := un;
     dead_ranked := dead; settled := settled ns |}.

(** Every id of a list with its folded bytes; panics on an id out of range. *)
Definition keyed (ns : NameStore) (l : list N) : option (list (list N * N)) :=
  mapM (fun id => f ← folded_bytes_of ns id; Some (f, id)) l.

(** The ids of a list whose [refcount[id] > 0]. *)
Fixpoint live_only (ns : NameStore) (l : list N) : option (list N) :=
  match l with
  | [] => Some []
  | id :: l' =>
      rc ← getN id (refcount ns); rest ← live_only ns l';
      Some (if 0 <? rc then id :: rest else rest)
  end.
Definition all_ids (ns : NameStore) : list N := N.of_nat <$> seq 0 (length (pairs ns)).

(** ** Ranking *)

Fixpoint rerank_loop (ns : NameStore) (pos : N) (ord : list N) (group_start : N) (prev_live : option (list N))
    (rk : list N) : option (list N) :=
  match ord with
  | [] => Some rk
  | id :: ord' =>
      rc ← getN id (refcount ns);
      if rc =? 0 then rerank_loop ns (pos + 1) ord' group_start prev_live rk
      else
        f ← folded_bytes_of ns id;
        let same := bool_decide (prev_live = Some f) in
        let group_start := if same then group_start else pos in
        rk ← setN id (as_u32 group_start) rk;
        rerank_loop ns (pos + 1) ord' group_start (Some f) rk
  end.

Definition rerank : ST NameStore unit := fun ns =>
  rk ← rerank_loop ns 0 (order ns) 0 None ((fun _ => UNRANKED) <$> rank_of ns);
  Some (tt, with_order (order ns) rk (unranked ns) (dead_ranked ns) ns).

Definition build_order : ST NameStore unit := fun ns =>
  live ← live_only ns (all_ids ns);
  ks ← keyed ns live;
  rerank (with_order ((merge_sort key_le ks).*2) (rank_of ns) [] 0 ns).

Definition wants_merge (ns : NameStore) : bool :=
  let limit := N.max 1024 (len (order ns) / 1000) in
  (limit <? len (unranked ns)) || (limit <? dead_ranked ns).

Definition merge_unranked : ST NameStore unit := fun ns =>
  match order ns with
  | [] => build_order ns
  | _ =>
      new_live ← live_only ns (unranked ns);
      news ← keyed ns new_live;
      old_live ← live_only ns (order ns);
      old ← keyed ns old_live;
      let merged := list_merge key_le old (merge_sort key_le news) in
      rerank (with_order (merged.*2) (rank_of ns) [] 0 ns)
  end.

(** ** Positions of names outside the order *)

(** First position at or after [from] holding a live id. *)
Fixpoint first_live_from (ns : NameStore) (pos : N) (ord : list N) : option (option N) :=
  match ord with
  | [] => Some None
  | id :: ord' =>
      rc ← getN id (refcount ns);
      if 0 <? rc then Some (Some pos) else first_live_from ns (pos + 1) ord'
  end.
Definition first_live_at (ns : NameStore) (from : N) : option (option N) :=
  first_live_from ns from (drop (N.to_nat from) (order ns)).

Definition bytes_ltb (a b : list N) : bool := match bytes_cmp a b with Lt => true | _ => false end.

(** Folded bytes of the id at a position of the order. *)
Definition folded_at (ns : NameStore) (p : N) : option (list N) := id ← getN p (order ns); folded_bytes_of ns id.

Fixpoint insertion_loop (fuel : nat) (ns : NameStore) (x : list N) (lo hi : N) : option N :=
  if hi <=? lo then Some lo
  else match fuel with
  | O => None
  | S fuel =>
      let mid := lo + (hi - lo) / 2 in
      found ← first_live_at ns mid;
      match found with
      | Some p =>
          if p <? hi then
            f ← folded_at ns p;
            if bytes_ltb f x then insertion_loop fuel ns x (p + 1) hi else insertion_loop fuel ns x lo mid
          else insertion_loop fuel ns x lo mid
      | None => insertion_loop fuel ns x lo mid
      end
  end.
Definition insertion_point (ns : NameStore) (x : list N) : option N :=
  insertion_loop (length (order ns)) ns x 0 (len (order ns)).

Definition rank_key (ns : NameStore) (id : NameId) : option N :=
  r ← getN id (rank_of ns);
  if negb (r =? UNRANKED) then Some (2 * r + 1)
  else
    x ← folded_bytes_of ns id;
    p ← insertion_point ns x;
    found ← first_live_at ns p;
    match found with
    | Some pos =>
        f ← folded_at ns pos;
        if bool_decide (f = x) then
          oid ← getN pos (order ns); rk ← getN oid (rank_of ns); Some (2 * rk + 1)
        else Some (2 * p)
    | None => Some (2 * p)
    end.

(** ** Compaction *)

Record CompactedNames := {
  k_raw : list N; k_folded : list N; k_pairs : list NamePair; k_refcount : list N; k_head : list N;
  k_remap : list N
}.

Fixpoint plan_loop (ns : NameStore) (i : N) (rcs : list N) (c : CompactedNames) : option CompactedNames :=
  match rcs with
  | [] => Some c
  | rc :: rcs' =>
      if rc =? 0 then plan_loop ns (i + 1) rcs' c
      else
        pair ← getN i (pairs ns);
        fb ← folded_bytes_of ns i;
        let '(fbuf, fref) := push (k_folded c) fb in
        rp ← (if in_folded (raw_ref pair)
              then Some (k_raw c, {| off := N.lor (off fref) RAW_IN_FOLDED; nlen := nlen fref |})
              else rb ← raw_bytes_of ns pair; Some (push (k_raw c) rb));
        remap ← setN i (as_u32 (len (k_pairs c))) (k_remap c);
        h ← getN i (head ns);
        plan_loop ns (i + 1) rcs'
          {| k_raw := rp.1; k_folded := fbuf;
             k_pairs := k_pairs c ++ [{| raw_ref := rp.2; folded_ref := fref |}];
             k_refcount := k_refcount c ++ [rc]; k_head := k_head c ++ [h]; k_remap := remap |}
  end.

Definition plan_compact (ns : NameStore) : option CompactedNames :=
  plan_loop ns 0 (refcount ns)
    {| k_raw := []; k_folded := []; k_pairs := []; k_refcount := []; k_head := [];
       k_remap := replicate (length (pairs ns)) NIL |}.

(** The ids of a list that survive, renumbered; panics on an id out of range. *)
Fixpoint renumber (remap : list N) (l : list N) : option (list N) :=
  match l with
  | [] => Some []
  | id :: l' =>
      n ← getN id remap; rest ← renumber remap l';
      Some (if negb (n =? NIL) then n :: rest else rest)
  end.

Section compaction.
Context {U : Unicode} {H : Hasher}.

(** The intern table rebuilt from the installed tables. *)
Fixpoint rebuild_table (ns : NameStore) (ids : list N) (table : list (N * N)) : option (list (N * N)) :=
  match ids with
  | [] => Some table
  | id :: ids' => b ← raw_bytes ns id; rebuild_table ns ids' ((hash_bytes b, id) :: table)
  end.

Definition install_compacted (c : CompactedNames) : ST NameStore (list N) := fun ns =>
  ord ← renumber (k_remap c) (order ns);
  un ← renumber (k_remap c) (unranked ns);
  let ns1 :=
    {| raw := k_raw c; folded := k_folded c; pairs := k_pairs c; refcount := k_refcount c; head := k_head c;
       by_bytes := []; garbage := 0; order := ord; rank_of := replicate (length (k_pairs c)) UNRANKED;
       unranked := un; dead_ranked := 0; settled := settled ns |} in
  table ← rebuild_table ns1 (all_ids ns1) [];
  let ns2 :=
    {| raw := raw ns1; folded := folded ns1; pairs := pairs ns1; refcount := refcount ns1; head := head ns1;
       by_bytes := table; garbage := 0; order := ord; rank_of := rank_of ns1;
       unranked := un; dead_ranked := 0; settled := settled ns |} in
  '(_, ns3) ← rerank ns2;
  Some (k_remap c, ns3).
End compaction.

Definition name_shrink_with_headroom : ST NameStore unit := st_modify (fun ns =>
  {| raw := raw ns; folded := folded ns; pairs := pairs ns; refcount := refcount ns; head := head ns;
     by_bytes := by_bytes ns; garbage := garbage ns; order := order ns; rank_of := rank_of ns;
     unranked := unranked ns; dead_ranked := dead_ranked ns; settled := true |}).

(** ** The orders *)

Lemma bytes_cmp_eq a b : bytes_cmp a b = Eq <-> a = b.
Proof.
  revert b. induction a as [|x a IH]; intros [|y b]; simpl; try done.
  destruct (N.compare_spec x y); [subst; rewrite IH; naive_solver| |]; (split; [done|]); intros; simplify_eq; lia.
Qed.

Lemma bytes_cmp_antisym a b : bytes_cmp b a = CompOpp (bytes_cmp a b).
Proof.
  revert b. induction a as [|x a IH]; intros [|y b]; simpl; try done.
  rewrite (N.compare_antisym x y). destruct (x ?= y); simpl; auto.
Qed.

Lemma bytes_cmp_lt_trans a b c : bytes_cmp a b = Lt -> bytes_cmp b c = Lt -> bytes_cmp a c = Lt.
Proof.
  revert b c. induction a as [|x a IH]; intros [|y b] [|z c]; simpl; try done.
  destruct (N.compare_spec x y), (N.compare_spec y z), (N.compare_spec x z);
    intros; subst; try done; try lia. by eapply IH.
Qed.

Lemma key_cmp_eq a b : key_cmp a b = Eq <-> a = b.
Proof.
  destruct a as [fa a], b as [fb b]. unfold key_cmp. simpl. destruct (bytes_cmp fa fb) eqn:E.
  - apply bytes_cmp_eq in E as ->. rewrite N.compare_eq_iff. naive_solver.
  - split; [done|]. intros [= -> ->]. by rewrite (proj2 (bytes_cmp_eq fb fb) eq_refl) in E.
  - split; [done|]. intros [= -> ->]. by rewrite (proj2 (bytes_cmp_eq fb fb) eq_refl) in E.
Qed.

Lemma key_cmp_antisym a b : key_cmp b a = CompOpp (key_cmp a b).
Proof.
  unfold key_cmp. rewrite (bytes_cmp_antisym a.1 b.1), (N.compare_antisym a.2 b.2).
  by destruct (bytes_cmp a.1 b.1).
Qed.

Lemma key_cmp_lt_trans a b c : key_cmp a b = Lt -> key_cmp b c = Lt -> key_cmp a c = Lt.
Proof.
  unfold key_cmp. destruct (bytes_cmp a.1 b.1) eqn:E1; [|intros _|done].
  - apply bytes_cmp_eq in E1 as ->. destruct (bytes_cmp b.1 c.1) eqn:E2; try done.
    rewrite !N.compare_lt_iff. lia.
  - destruct (bytes_cmp b.1 c.1) eqn:E2; [|intros _|done].
    + apply bytes_cmp_eq in E2 as <-. by rewrite E1.
    + by rewrite (bytes_cmp_lt_trans _ _ _ E1 E2).
Qed.

#[export] Instance key_le_trans : Transitive key_le.
Proof.
  intros a b c. unfold key_le. intros H1 H2.
  destruct (key_cmp a b) eqn:E1; [apply key_cmp_eq in E1 as ->; done| |done].
  destruct (key_cmp b c) eqn:E2; [apply key_cmp_eq in E2 as <-; by rewrite E1| |done].
  by rewrite (key_cmp_lt_trans _ _ _ E1 E2).
Qed.

#[export] Instance key_le_total : Total key_le.
Proof. intros a b. unfold key_le. rewrite (key_cmp_antisym a b). destruct (key_cmp a b); [left|left|right]; done. Qed.

#[export] Instance key_le_antisym : AntiSymm (=) key_le.
Proof.
  intros a b. unfold key_le. rewrite (key_cmp_antisym a b). destruct (key_cmp a b) eqn:E; try done.
  by apply key_cmp_eq in E.
Qed.

(** The folded parts of ordered keys are ordered. *)
Lemma key_le_bytes a b : key_le a b -> bytes_cmp a.1 b.1 <> Gt.
Proof. unfold key_le, key_cmp. by destruct (bytes_cmp a.1 b.1). Qed.

(** ** The order invariant *)

(** Folded bytes, total: what [folded_bytes_of] returns on ids in range. *)
Definition fold_of (ns : NameStore) (id : N) : list N := default [] (folded_bytes_of ns id).
Definition key_of (ns : NameStore) (id : N) : list N * N := (fold_of ns id, id).
Definition live_part (ns : NameStore) (l : list N) : list N := base.filter (fun id => NameStore.live ns id) l.

(** Ranks order the live ids of the order as their folded bytes do, and never
    exceed a position; a rank is that of the group's first id when the order
    was last rebuilt, whether or not that id is still alive. *)
Definition ranks_ok (ns : NameStore) : Prop :=
  forall pos id, getN pos (order ns) = Some id -> NameStore.live ns id ->
    exists r, getN id (rank_of ns) = Some r /\ r <> UNRANKED /\ r <= pos /\
      forall pos' id', getN pos' (order ns) = Some id' -> NameStore.live ns id' ->
        (fold_of ns id' = fold_of ns id -> getN id' (rank_of ns) = Some r) /\
        (bytes_cmp (fold_of ns id') (fold_of ns id) = Lt -> pos' < r).

Record order_ok (ns : NameStore) : Prop := {
  o_order_range : Forall (fun id => id < ids ns) (order ns);
  o_unranked_range : Forall (fun id => id < ids ns) (unranked ns);
  o_order_len : len (order ns) <= ids ns;
  o_sorted : Sorted key_le (key_of ns <$> live_part ns (order ns));
  o_partition : live_part ns (order ns) ++ live_part ns (unranked ns) ≡ₚ live_part ns (all_ids ns);
  o_waiting id : id ∈ unranked ns -> getN id (rank_of ns) = Some UNRANKED;
  o_ranks : ranks_ok ns
}.

(** *** The option-valued helpers, on ids in range *)

Section order_lemmas.
Context {U : Unicode} {H : Hasher}.
Implicit Types (ns : NameStore).

Lemma live_only_spec ns l :
  Forall (fun id => id < len (refcount ns)) l -> live_only ns l = Some (live_part ns l).
Proof.
  induction 1 as [|id l Hid Hl IH]; [done|]. simpl. destruct (getN_is_Some id (refcount ns) Hid) as [rc Hrc].
  rewrite Hrc, IH. simpl. unfold live_part. rewrite filter_cons. f_equal.
  destruct (N.ltb_spec 0 rc).
  - rewrite decide_True; [done|]. by exists rc.
  - rewrite decide_False; [done|]. intros (rc' & Hrc' & ?). unfold refcount_of in Hrc'. simplify_eq. lia.
Qed.

Lemma folded_total ns id : ns_ok ns -> id < ids ns -> folded_bytes_of ns id = Some (fold_of ns id).
Proof.
  intros [gs R] Hid. unfold ids in Hid. rewrite (len_pairs _ _ R) in Hid. destruct (getN_is_Some id gs Hid) as [g Hg].
  unfold fold_of. by rewrite (folded_bytes_slot _ _ _ _ R Hg).
Qed.

Lemma keyed_spec ns l : ns_ok ns -> Forall (fun id => id < ids ns) l -> keyed ns l = Some (key_of ns <$> l).
Proof.
  intros Hok. induction 1 as [|id l Hid Hl IH]; [done|]. unfold keyed in *. simpl.
  rewrite (folded_total _ _ Hok Hid). simpl. rewrite IH. done.
Qed.

Lemma live_lt ns id : ns_ok ns -> NameStore.live ns id -> id < ids ns.
Proof.
  intros [gs R] (rc & Hrc & _). apply getN_lt in Hrc. unfold ids. rewrite (len_pairs _ _ R).
  by rewrite <- (r_refcount _ _ R).
Qed.

Lemma ids_refcount ns : ns_ok ns -> len (refcount ns) = ids ns.
Proof. intros [gs R]. unfold ids. by rewrite (len_pairs _ _ R), (r_refcount _ _ R). Qed.

Lemma elem_of_all_ids ns id : id ∈ all_ids ns <-> id < ids ns.
Proof.
  unfold all_ids, ids, len. rewrite list_elem_of_fmap. setoid_rewrite elem_of_seq. split.
  - intros (n & -> & ?). lia.
  - intros. exists (N.to_nat id). lia.
Qed.

Lemma all_ids_range ns : Forall (fun id => id < ids ns) (all_ids ns).
Proof. apply Forall_forall. intros. by apply elem_of_all_ids. Qed.

Lemma NoDup_all_ids ns : NoDup (all_ids ns).
Proof. unfold all_ids. apply NoDup_fmap_2; [intros ? ? ?; lia|apply NoDup_seq]. Qed.

Lemma elem_of_live_part ns l id : id ∈ live_part ns l <-> NameStore.live ns id /\ id ∈ l.
Proof. unfold live_part. apply list_elem_of_filter. Qed.

Lemma live_part_range ns l : ns_ok ns -> Forall (fun id => id < ids ns) (live_part ns l).
Proof. intros. apply Forall_forall. intros id [? ?]%elem_of_live_part. by apply live_lt. Qed.

Lemma key_of_snd ns l : (key_of ns <$> l).*2 = l.
Proof. induction l as [|x l IH]; [done|]. rewrite !fmap_cons. by f_equal. Qed.

(** A sorted list of keys is determined by the ids it holds. *)
Lemma sorted_keys_unique (l k : list (list N * N)) : Sorted key_le l -> Sorted key_le k -> l ≡ₚ k -> l = k.
Proof. apply Sorted_unique; apply _. Qed.
End order_lemmas.

(** ** Ranking is correct *)

Lemma sorted_lookup {A} (R : relation A) `{!Transitive R} (l : list A) i j a b :
  Sorted R l -> (i < j)%nat -> l !! i = Some a -> l !! j = Some b -> R a b.
Proof.
  intros Hs%Sorted_StronglySorted; [|done]. revert i j. induction Hs as [|x l Hl IH Hx]; intros i j; [done|].
  destruct j as [|j]; [lia|]. destruct i as [|i]; simpl.
  - intros _ [= <-] Hb. by eapply Forall_lookup_1.
  - intros. eapply IH; [|done..]. lia.
Qed.

(** In an order sorted by key, folded bytes never decrease. *)
Lemma sorted_folds ns o i j a b :
  Sorted key_le (key_of ns <$> o) -> i <= j -> getN i o = Some a -> getN j o = Some b ->
  bytes_cmp (fold_of ns a) (fold_of ns b) <> Gt.
Proof.
  intros Hs Hij Ha Hb. destruct (decide (i = j)) as [->|Hne].
  - simplify_eq. by rewrite (proj2 (bytes_cmp_eq _ _) eq_refl).
  - apply (key_le_bytes (key_of ns a) (key_of ns b)).
    eapply (sorted_lookup key_le _ (N.to_nat i) (N.to_nat j)); [exact Hs|lia|..];
      rewrite list_lookup_fmap; unfold getN in *; [by rewrite Ha|by rewrite Hb].
Qed.

(** [r] is the first position whose id folds to [f]. *)
Definition first_pos ns (o : list N) (f : list N) (r : N) : Prop :=
  (exists id, getN r o = Some id /\ fold_of ns id = f) /\
  forall q id, q < r -> getN q o = Some id -> fold_of ns id <> f.

Lemma first_pos_unique ns o f r r' : first_pos ns o f r -> first_pos ns o f r' -> r = r'.
Proof.
  intros [(id & Hid & Hf) Hlt] [(id' & Hid' & Hf') Hlt'].
  destruct (N.lt_trichotomy r r') as [Hl|[?|Hl]]; [|done|]; exfalso; [by apply (Hlt' r id)|by apply (Hlt r' id')].
Qed.

Section rank_lemmas.
Context {U : Unicode} {H : Hasher}.
Implicit Types (ns : NameStore).

(** A name unlike its predecessor in a sorted order opens its group. *)
Lemma first_pos_new ns o pos id prev :
  Sorted key_le (key_of ns <$> o) -> getN pos o = Some id ->
  (0 < pos -> exists p, prev = Some (fold_of ns p) /\ getN (pos - 1) o = Some p) ->
  prev <> Some (fold_of ns id) -> first_pos ns o (fold_of ns id) pos.
Proof.
  intros Hs Hid Hprev Hne. split; [by exists id|]. intros q id' Hq Hid' E.
  destruct Hprev as (p & -> & Hp); [lia|]. apply Hne. f_equal.
  apply bytes_cmp_eq.
  pose proof (sorted_folds ns o q (pos - 1) id' p Hs ltac:(lia) Hid' Hp) as H1.
  pose proof (sorted_folds ns o (pos - 1) pos p id Hs ltac:(lia) Hp Hid) as H2.
  rewrite E in H1. rewrite bytes_cmp_antisym in H1. destruct (bytes_cmp (fold_of ns p) (fold_of ns id)); done.
Qed.

Lemma rerank_loop_spec ns o pre rest g prev rk :
  ns_ok ns -> o = pre ++ rest -> Forall (NameStore.live ns) o -> NoDup o -> len o <= u32_max ->
  Sorted key_le (key_of ns <$> o) -> len rk = ids ns ->
  (forall q id, q < len pre -> getN q o = Some id ->
     exists r, getN id rk = Some r /\ first_pos ns o (fold_of ns id) r) ->
  (0 < len pre -> exists p, prev = Some (fold_of ns p) /\ getN (len pre - 1) o = Some p) ->
  (forall f, prev = Some f -> first_pos ns o f g) ->
  exists rk', rerank_loop ns (len pre) rest g prev rk = Some rk' /\ len rk' = len rk /\
    (forall q id, getN q o = Some id -> exists r, getN id rk' = Some r /\ first_pos ns o (fold_of ns id) r) /\
    (forall id, id ∉ rest -> getN id rk' = getN id rk).
Proof.
  intros Hok Ho Hlive Hnd Hlen Hs Hrk. revert pre g prev rk Ho Hrk.
  induction rest as [|id rest IH]; intros pre g prev rk Ho Hrk Hdone Hprev Hg.
  { rewrite app_nil_r in Ho. subst o. exists rk. split_and!; try done. intros q id Hq. apply (Hdone q); [by eapply getN_lt|done]. }
  assert (Hid : getN (len pre) o = Some id) by (subst o; unfold getN, len; rewrite Nat2N.id; apply list_lookup_middle; done).
  assert (Hl : NameStore.live ns id) by (eapply Forall_lookup_1; [exact Hlive|exact Hid]).
  pose proof (live_lt _ _ Hok Hl) as Hidlt. destruct Hl as (rc & Hrc & Hpos). cbn [rerank_loop].
  unfold refcount_of in Hrc. rewrite Hrc. simpl. rewrite (proj2 (N.eqb_neq rc 0)) by lia.
  rewrite (folded_total _ _ Hok Hidlt). simpl.
  set (g' := if bool_decide (prev = Some (fold_of ns id)) then g else len pre).
  assert (Hg' : first_pos ns o (fold_of ns id) g').
  { unfold g'. case_bool_decide; [by apply Hg|]. by apply (first_pos_new ns o (len pre) id prev). }
  assert (Hgo : g' < len o) by (destruct Hg' as [(? & ?%getN_lt & _) _]; done).
  assert (as_u32 g' = g') as ->.
  { unfold as_u32. apply N.mod_small. unfold u32_max in Hlen. lia. }
  rewrite setN_some by lia. simpl. rewrite <- (len_app pre [id] : _ = len pre + 1).
  assert (Hni : forall q id', q < len pre -> getN q o = Some id' -> id <> id').
  { intros q id' Hq Hq' ->. pose proof (NoDup_lookup o _ _ _ Hnd Hid Hq'). unfold len in *. lia. }
  assert (Hidr : id ∉ rest).
  { intros Hin. subst o. apply NoDup_app in Hnd as (_ & _ & Hnd). by apply NoDup_cons in Hnd as [? _]. }
  destruct (IH (pre ++ [id]) g' (Some (fold_of ns id)) (<[N.to_nat id := g']> rk)) as (rk' & E & Hl' & Hr & Hf).
  - by rewrite <- app_assoc.
  - by rewrite len_insert.
  - intros q id' Hq Hq'. rewrite len_app in Hq. unfold len at 2 in Hq. simpl in Hq.
    rewrite getN_insert by lia. destruct (decide (q = len pre)) as [->|Hne].
    + assert (id' = id) as -> by congruence. exists g'. rewrite decide_True by done. by split.
    + rewrite decide_False by (apply (Hni q); [lia|done]). apply (Hdone q); [lia|done].
  - intros _. exists id. split; [done|]. rewrite len_app, len_cons, len_nil.
    by replace (len pre + (1 + 0) - 1) with (len pre) by lia.
  - intros f [= <-]. done.
  - exists rk'. rewrite len_insert in Hl'. split_and!; try done. intros id' [Hne Hin]%not_elem_of_cons.
    rewrite Hf by done. by rewrite getN_insert, decide_False by (congruence || lia).
Qed.

(** [rerank] over an order that holds only live ids. *)
Lemma rerank_spec ns :
  ns_ok ns -> Forall (NameStore.live ns) (order ns) -> NoDup (order ns) -> len (order ns) <= u32_max ->
  Sorted key_le (key_of ns <$> order ns) -> len (rank_of ns) = ids ns ->
  exists rk, rerank ns = Some (tt, with_order (order ns) rk (unranked ns) (dead_ranked ns) ns) /\
    len rk = len (rank_of ns) /\
    (forall q id, getN q (order ns) = Some id ->
       exists r, getN id rk = Some r /\ first_pos ns (order ns) (fold_of ns id) r) /\
    (forall id, id < ids ns -> id ∉ order ns -> getN id rk = Some UNRANKED).
Proof.
  intros Hok Hlive Hnd Hlen Hs Hrk.
  destruct (rerank_loop_spec ns (order ns) [] (order ns) 0 None ((fun _ => UNRANKED) <$> rank_of ns))
    as (rk & E & Hl & Hr & Hf); try done; try (rewrite len_nil; lia).
  { unfold len in *. by rewrite length_fmap. }
  exists rk. unfold rerank. change (len []) with 0 in E. rewrite E. simpl.
  split; [done|]. split; [unfold len in *; by rewrite length_fmap in Hl|]. split; [done|].
  intros id Hid Hni. rewrite Hf by done. destruct (getN_is_Some id (rank_of ns)) as [r Hr']; [lia|].
  unfold getN in *. by rewrite list_lookup_fmap, Hr'.
Qed.
End rank_lemmas.

(** ** Building and merging *)

Section build.
Context {U : Unicode} {H : Hasher}.
Implicit Types (ns : NameStore).

Lemma ns_ok_with_order ns o rk u d : ns_ok ns -> len rk = ids ns -> ns_ok (with_order o rk u d ns).
Proof.
  intros [gs R] Hrk. exists gs. unfold ids in Hrk. rewrite (len_pairs _ _ R) in Hrk. destruct R. by split.
Qed.

Lemma rank_len ns : ns_ok ns -> len (rank_of ns) = ids ns.
Proof. intros [gs R]. unfold ids. by rewrite (len_pairs _ _ R), (r_rank _ _ R). Qed.

Lemma ids_bound ns : ns_ok ns -> ids ns <= u32_max.
Proof. intros [gs R]. unfold ids. rewrite (len_pairs _ _ R). apply (r_bounds _ _ R). Qed.

Lemma keys_of_perm ns (ks : list (list N * N)) l : ks ≡ₚ key_of ns <$> l -> ks = key_of ns <$> ks.*2.
Proof.
  intros Hp. assert (Hall : Forall (fun k => k = key_of ns k.2) ks).
  { apply Forall_forall. intros k. rewrite Hp, list_elem_of_fmap. intros (id & -> & _). done. }
  clear Hp. induction Hall as [|k ks Hk _ IH]; [done|]. rewrite !fmap_cons. congruence.
Qed.

Lemma live_part_all ns l : Forall (NameStore.live ns) l -> live_part ns l = l.
Proof.
  induction 1 as [|id l Hid _ IH]; [done|]. unfold live_part in *. rewrite filter_cons, decide_True by done. by f_equal.
Qed.

(** Ranks that are first positions satisfy [ranks_ok]. *)
Lemma ranks_from_first ns rk u d :
  Sorted key_le (key_of ns <$> order ns) -> len (order ns) <= u32_max ->
  (forall q id, getN q (order ns) = Some id ->
     exists r, getN id rk = Some r /\ first_pos ns (order ns) (fold_of ns id) r) ->
  ranks_ok (with_order (order ns) rk u d ns).
Proof.
  intros Hs Hlen Hr pos id Hpos Hl. simpl in Hpos. destruct (Hr _ _ Hpos) as (r & Hrid & Hfp).
  exists r. split; [done|]. pose proof Hfp as [(id0 & Hid0 & Hf0) Hlt].
  split; [apply getN_lt in Hid0; unfold UNRANKED; lia|].
  split.
  { destruct (N.le_gt_cases r pos); [done|]. exfalso. by apply (Hlt pos id). }
  change (fold_of (with_order (order ns) rk u d ns)) with (fold_of ns).
  intros pos' id' Hpos' Hl'. simpl in *. split.
  - intros Hf. destruct (Hr _ _ Hpos') as (r' & Hrid' & Hfp'). rewrite Hrid'. f_equal.
    eapply first_pos_unique; [exact Hfp'|]. by rewrite Hf.
  - intros Hf. destruct (N.lt_ge_cases pos' r); [done|]. exfalso.
    eapply (sorted_folds ns (order ns) r pos' id0 id'); [done..|].
    rewrite Hf0, bytes_cmp_antisym, Hf. done.
Qed.

(** Whatever sorted arrangement of the live ids is installed, ranking it
    yields a correct order. *)
Lemma install_order ns ks :
  ns_ok ns -> Sorted key_le ks -> ks ≡ₚ key_of ns <$> live_part ns (all_ids ns) ->
  exists rk, rerank (with_order (ks.*2) (rank_of ns) [] 0 ns) = Some (tt, with_order (ks.*2) rk [] 0 ns) /\
    ns_ok (with_order (ks.*2) rk [] 0 ns) /\ order_ok (with_order (ks.*2) rk [] 0 ns).
Proof.
  intros Hok Hs Hp. pose proof (keys_of_perm _ _ _ Hp) as Hks.
  assert (Hids : ks.*2 ≡ₚ live_part ns (all_ids ns)) by (rewrite Hp; by rewrite key_of_snd).
  assert (Hlive : Forall (NameStore.live ns) (ks.*2)).
  { apply Forall_forall. intros id. rewrite Hids. by intros [? _]%elem_of_live_part. }
  assert (Hnd : NoDup (ks.*2)) by (rewrite Hids; apply NoDup_filter, NoDup_all_ids).
  assert (Hlen : len (ks.*2) <= ids ns).
  { transitivity (len (all_ids ns)).
    - unfold len. rewrite Hids. unfold live_part. pose proof (length_filter (fun id => NameStore.live ns id) (all_ids ns)). lia.
    - unfold all_ids, len, ids, len. rewrite length_fmap, length_seq. lia. }
  pose proof (ids_bound _ Hok) as Hb. pose proof (rank_len _ Hok) as Hrl.
  set (ns1 := with_order (ks.*2) (rank_of ns) [] 0 ns).
  assert (Hok1 : ns_ok ns1) by (by apply ns_ok_with_order).
  destruct (rerank_spec ns1) as (rk & E & Hrk & Hr & Hun); try done.
  { simpl. lia. }
  { simpl. change (key_of ns1) with (key_of ns). by rewrite <- Hks. }
  exists rk. split; [exact E|]. simpl in Hrk.
  assert (Hok2 : ns_ok (with_order (ks.*2) rk [] 0 ns)) by (apply ns_ok_with_order; [done|lia]).
  split; [done|]. 
  assert (Hlp : live_part ns (ks.*2) = ks.*2).
  { by apply live_part_all. }
  split; simpl.
  - apply Forall_forall. intros id Hin. rewrite Forall_forall in Hlive. apply live_lt; [done|]. by apply Hlive.
  - constructor.
  - done.
  - change (Sorted key_le (key_of ns <$> live_part ns (ks.*2))). rewrite Hlp. by rewrite <- Hks.
  - change (live_part ns (ks.*2) ++ [] ≡ₚ live_part ns (all_ids ns)). by rewrite app_nil_r, Hlp.
  - intros id Hin. by apply not_elem_of_nil in Hin.
  - apply (ranks_from_first ns1); simpl; try done; [|lia]. change (key_of ns1) with (key_of ns). by rewrite <- Hks.
Qed.

Definition sorted_keys ns : list (list N * N) := merge_sort key_le (key_of ns <$> live_part ns (all_ids ns)).

Lemma sorted_keys_sorted ns : Sorted key_le (sorted_keys ns).
Proof. apply Sorted_merge_sort; apply _. Qed.
Lemma sorted_keys_perm ns : sorted_keys ns ≡ₚ key_of ns <$> live_part ns (all_ids ns).
Proof. apply merge_sort_Permutation. Qed.

Lemma build_order_eq ns :
  ns_ok ns -> build_order ns = rerank (with_order ((sorted_keys ns).*2) (rank_of ns) [] 0 ns).
Proof.
  intros Hok. unfold build_order. rewrite live_only_spec.
  - simpl. rewrite keyed_spec; [done|done|]. by apply live_part_range.
  - rewrite ids_refcount by done. apply all_ids_range.
Qed.

Lemma merge_unranked_eq ns :
  ns_ok ns -> order_ok ns -> merge_unranked ns = rerank (with_order ((sorted_keys ns).*2) (rank_of ns) [] 0 ns).
Proof.
  intros Hok Ho. destruct (order ns) as [|x o] eqn:Eo.
  { unfold merge_unranked. rewrite Eo. by apply build_order_eq. }
  assert (E : merge_unranked ns = rerank (with_order
    ((list_merge key_le (key_of ns <$> live_part ns (order ns))
        (merge_sort key_le (key_of ns <$> live_part ns (unranked ns)))).*2) (rank_of ns) [] 0 ns)).
  { unfold merge_unranked. rewrite Eo, <- Eo.
    assert (L1 := o_unranked_range _ Ho). assert (L2 := o_order_range _ Ho).
    rewrite <- ids_refcount in L1, L2 by done.
    rewrite (live_only_spec _ _ L1). simpl. rewrite keyed_spec by (try done; by apply live_part_range). simpl.
    rewrite (live_only_spec _ _ L2). simpl. rewrite keyed_spec by (try done; by apply live_part_range). done. }
  rewrite E. do 3 f_equal. apply sorted_keys_unique.
  - apply Sorted_list_merge; [apply _|apply (o_sorted _ Ho)|apply Sorted_merge_sort; apply _].
  - apply sorted_keys_sorted.
  - rewrite merge_Permutation, merge_sort_Permutation, <- fmap_app, (o_partition _ Ho).
    symmetry. apply sorted_keys_perm.
Qed.
End build.

(** ** Interning and releasing keep the order *)

Lemma Sorted_filter {A} (R : relation A) `{!Transitive R} (P : A -> Prop) `{!forall x, Decision (P x)} l :
  Sorted R l -> Sorted R (base.filter P l).
Proof.
  intros Hs%Sorted_StronglySorted; [|done]. apply StronglySorted_Sorted.
  induction Hs as [|x l Hl IH Hx]; [constructor|]. rewrite filter_cons. case_decide; [|done].
  constructor; [done|]. rewrite Forall_forall in Hx. apply Forall_forall. intros y [_ ?]%list_elem_of_filter. auto.
Qed.

Section preserve.
Context {U : Unicode} {H : Hasher}.
Implicit Types (ns : NameStore).

Lemma live_part_shrink ns ns' l :
  (forall j, NameStore.live ns' j -> NameStore.live ns j) ->
  live_part ns' l = base.filter (fun id => NameStore.live ns' id) (live_part ns l).
Proof.
  intros Hl. unfold live_part. symmetry. by apply list_filter_filter_l.
Qed.

(** Names may die, and keep their bytes while they live: the order, the
    waiting list and the ranks stay correct untouched. *)
Lemma order_ok_shrink ns ns' :
  order_ok ns -> ids ns' = ids ns ->
  order ns' = order ns -> unranked ns' = unranked ns -> rank_of ns' = rank_of ns ->
  (forall j, NameStore.live ns' j -> NameStore.live ns j /\ fold_of ns' j = fold_of ns j) -> order_ok ns'.
Proof.
  intros [H1 H2 H3 H4 H5 H6 H7] Hids Eo Eu Er Hl.
  assert (Hl1 : forall j, NameStore.live ns' j -> NameStore.live ns j) by (intros j ?; by apply Hl).
  assert (Hall : all_ids ns' = all_ids ns).
  { unfold all_ids. unfold ids, len in Hids. do 2 f_equal. lia. }
  split; rewrite ?Hids, ?Eo, ?Eu, ?Er, ?Hall; try done.
  - rewrite (live_part_shrink ns) by done.
    assert (E : key_of ns' <$> base.filter (fun id => NameStore.live ns' id) (live_part ns (order ns)) =
                base.filter (fun k => NameStore.live ns' k.2) (key_of ns <$> live_part ns (order ns))).
    { clear H4 H5. induction (live_part ns (order ns)) as [|x l IH]; [done|].
      rewrite fmap_cons, !filter_cons. simpl. case_decide as Hx; [|exact IH].
      rewrite fmap_cons, IH. f_equal. unfold key_of. f_equal. by apply Hl. }
    rewrite E. apply Sorted_filter; [apply _|done].
  - rewrite !(live_part_shrink ns ns') by done. rewrite <- filter_app. by rewrite H5.
  - intros pos id. rewrite Eo, Er. intros Hpos Hlive. destruct (Hl _ Hlive) as [Hlive' Hfold].
    destruct (H7 pos id Hpos Hlive') as (r & Hr & Hne & Hle & Hoth). exists r. split_and!; try done.
    intros pos' id'. intros Hpos' [Hlive'' Hfold']%Hl. rewrite Hfold, Hfold'. by apply (Hoth pos' id').
Qed.

Lemma fold_of_view ns ns' j : view ns' j = view ns j -> ns_ok ns -> ns_ok ns' -> NameStore.live ns j -> fold_of ns' j = fold_of ns j.
Proof.
  intros E Hok Hok' Hl. destruct (live_view _ _ Hok Hl) as (v & Hv & _). rewrite Hv in E.
  destruct Hok as [gs R], Hok' as [gs' R'].
  destruct (view_inv _ _ _ _ R Hv) as (g & Hg & _ & Hf & _). destruct (view_inv _ _ _ _ R' E) as (g' & Hg' & _ & Hf' & _).
  unfold fold_of. rewrite (folded_bytes_slot _ _ _ _ R Hg), (folded_bytes_slot _ _ _ _ R' Hg'). simpl. congruence.
Qed.

Lemma live_of_view ns ns' j : view ns' j = view ns j -> ns_ok ns -> ns_ok ns' -> NameStore.live ns' j -> NameStore.live ns j.
Proof.
  intros E Hok Hok' Hl. destruct (live_view _ _ Hok' Hl) as (v & Hv & Hpos). rewrite E in Hv.
  by eapply view_live.
Qed.

Lemma release_fields id x ns ns' :
  release id ns = Some (x, ns') ->
  order ns' = order ns /\ unranked ns' = unranked ns /\ rank_of ns' = rank_of ns /\ head ns' = head ns /\
  exists rc, getN id (refcount ns) = Some rc /\ refcount ns' = <[N.to_nat id := rc - 1]> (refcount ns).
Proof.
  unfold release, mbind, option_bind, setN. intros E. destruct (getN id (refcount ns)) as [rc|] eqn:Hrc; [|done].
  destruct (rc =? 0); [done|]. destruct (id <? len (refcount ns)); [|done].
  destruct (0 <? rc - 1); [simplify_eq; simpl; eauto 10|].
  destruct (getN id (pairs ns)); [|done]. destruct (raw_bytes_of ns n); [|done].
  destruct (getN id (rank_of ns)); [|done]. destruct (zero_fill _ _ _); [|done].
  destruct (if in_folded _ then _ else _); [|done]. simplify_eq. simpl. eauto 10.
Qed.

Lemma order_ok_release id rc ns ns' x :
  ns_ok ns -> order_ok ns -> refcount_of id ns = Some rc -> 0 < rc ->
  release id ns = Some (x, ns') -> order_ok ns'.
Proof.
  intros Hok Ho Hrc Hpos E. destruct (release_fields _ _ _ _ E) as (E1 & E2 & E3 & _).
  pose proof (wp_release _ _ _ Hok Hrc Hpos) as (u & ns2 & E' & Hpost)%wp_run. rewrite E in E'. simplify_eq.
  destruct Hpost as (Hok' & Hrc' & _ & Hsame & Hoth & Hids). apply (order_ok_shrink ns); try done.
  intros j Hj. destruct (decide (j = id)) as [->|Hne].
  - split; [by exists rc|]. destruct Hj as (rc' & Hj & Hj'). simplify_eq. unfold fold_of.
    destruct Hsame as [_ ->]; [lia|done].
  - specialize (Hoth _ Hne). assert (Hlj : NameStore.live ns j) by (by eapply live_of_view).
    split; [done|]. by apply fold_of_view.
Qed.

(** Releasing never moves a byte: the arenas keep their lengths. *)
Lemma release_arena_len id rc ns ns' x :
  ns_ok ns -> refcount_of id ns = Some rc -> 0 < rc -> release id ns = Some (x, ns') ->
  len (folded ns') = len (folded ns) /\ len (raw ns') = len (raw ns).
Proof.
  intros [gs R] Hrc Hpos E. destruct (decide (rc = 1)) as [->|Hne].
  - destruct (live_slot _ gs id R) as [g Hg]; [by exists 1|].
    destruct (release_last _ _ _ _ R Hg Hrc) as (ga & de & E'). rewrite E in E'. simplify_eq. simpl.
    pose proof (len_zero_slot g) as (_ & _ & L3 & L4). rewrite (r_folded _ _ R), (r_raw _ _ R), !list_fmap_insert.
    assert (Hc : forall f : Slot -> list N, len (f (zero_slot g)) = len (f g) ->
      len (concat (<[N.to_nat id := f (zero_slot g)]> (map f gs))) = len (concat (map f gs))).
    { intros f Hf. pose proof (len_concat_insert (map f gs) id (f g) (f (zero_slot g))) as K.
      specialize (K ltac:(by rewrite getN_map, Hg) Hf (length gs)).
      rewrite !take_ge in K by (rewrite ?length_insert, ?length_map; lia). exact K. }
    split; by apply Hc.
  - unfold release, refcount_of in *. rewrite Hrc in E. simpl in E. rewrite (proj2 (N.eqb_neq _ _)) in E by lia.
    rewrite setN_some in E by (by eapply getN_lt). simpl in E. rewrite (proj2 (N.ltb_lt _ _)) in E by lia. by simplify_eq.
Qed.

Lemma live_part_ext ns ns' l :
  Forall (fun j => NameStore.live ns' j <-> NameStore.live ns j) l -> live_part ns' l = live_part ns l.
Proof.
  unfold live_part. induction 1 as [|x l Hx _ IH]; [done|]. rewrite !filter_cons, IH.
  repeat case_decide; tauto.
Qed.

Lemma all_ids_added name ns : all_ids (added name ns) = all_ids ns ++ [ids ns].
Proof.
  unfold all_ids. simpl. rewrite length_app. simpl. rewrite Nat.add_1_r, seq_S, fmap_app. done.
Qed.

Lemma order_ok_added name ns :
  ns_ok ns -> ns_ok (added name ns) -> order_ok ns -> order_ok (added name ns).
Proof.
  intros Hok Hok' [H1 H2 H3 H4 H5 H6 H7].
  assert (Hids : ids (added name ns) = ids ns + 1) by (unfold ids; simpl; len_solve).
  assert (Hrc : len (refcount ns) = ids ns) by (by apply ids_refcount).
  assert (Hrl : len (rank_of ns) = ids ns) by (by apply rank_len).
  assert (HL : forall j, j < ids ns -> NameStore.live (added name ns) j <-> NameStore.live ns j)
    by (intros j ?; rewrite live_added, Hrc; split; [intros [?|?]; [lia|done]|by right]).
  assert (Hfold : forall j, j < ids ns -> fold_of (added name ns) j = fold_of ns j).
  { intros j Hj. destruct Hok as [gs R]. assert (Hg : j < len gs) by (unfold ids in Hj; by rewrite (len_pairs _ _ R) in Hj).
    destruct (getN_is_Some j gs Hg) as [g E]. unfold fold_of, folded_bytes_of. simpl.
    rewrite getN_app_l by done. rewrite (getN_pairs _ gs), E by done. simpl.
    destruct (fold_bound _ _ _ _ R E) as [Hb _]. unfold arena_slice.
    rewrite !(proj2 (N.leb_le _ _)) by (rewrite ?len_app; lia). by rewrite slice_app_in by lia. }
  assert (HP : forall l, Forall (fun id => id < ids ns) l -> live_part (added name ns) l = live_part ns l).
  { intros l Hl. apply live_part_ext. eapply Forall_impl; [exact Hl|]. simpl. auto. }
  assert (Hself : live_part (added name ns) [ids ns] = [ids ns]).
  { unfold live_part. rewrite filter_cons, decide_True; [done|]. apply live_added. left. by rewrite Hrc. }
  split; rewrite ?Hids; simpl.
  - eapply Forall_impl; [exact H1|]. simpl. lia.
  - apply Forall_app_2; [eapply Forall_impl; [exact H2|]; simpl; lia|]. apply Forall_singleton. unfold ids. lia.
  - lia.
  - rewrite HP by done. erewrite list_fmap_ext; [exact H4|]. intros i x Hx%list_elem_of_lookup_2.
    apply elem_of_live_part in Hx as [Hx _]. unfold key_of. by rewrite Hfold by (by apply live_lt).
  - rewrite all_ids_added. unfold live_part at 2 3. rewrite !filter_app. fold (live_part (added name ns) (unranked ns)).
    fold (live_part (added name ns) (all_ids ns)). change (len (pairs ns)) with (ids ns).
    fold (live_part (added name ns) [ids ns]). rewrite Hself, !HP by (done || apply all_ids_range).
    by rewrite app_assoc, H5.
  - intros id [Hin|Hin]%elem_of_app.
    2:{ apply list_elem_of_singleton in Hin as ->. change (len (pairs ns)) with (ids ns). rewrite <- Hrl.
        apply getN_app_last. }
    rewrite getN_snoc, decide_False; [by apply H6|]. rewrite Forall_forall in H2. specialize (H2 _ Hin). simpl in H2. lia.
  - intros pos id Hpos Hl. simpl in *.
    assert (Hid : id < ids ns) by (eapply (Forall_lookup_1 _ _ _ _ H1); exact Hpos).
    destruct (H7 pos id Hpos) as (r & Hr & Hne & Hle & Hoth); [by apply HL|]. exists r.
    rewrite getN_app_l by lia. split_and!; try done. intros pos' id' Hpos' Hl'.
    assert (Hid' : id' < ids ns) by (eapply (Forall_lookup_1 _ _ _ _ H1); exact Hpos').
    rewrite !Hfold, getN_app_l by lia. apply Hoth; [done|]. by apply HL.
Qed.

Lemma order_ok_intern name ns id ns' :
  ns_ok ns -> order_ok ns -> room ns name -> intern name ns = Some (id, ns') -> order_ok ns'.
Proof.
  intros Hok Ho Hroom E. pose proof Hok as [gs R].
  destruct (intern_cases _ _ _ R Hroom) as [(i & rc & g & Hg & <- & Hrc & Hpos & E')|[E' R']]; rewrite E in E'; simplify_eq.
  - apply (order_ok_shrink ns); try done. intros j Hj. split; [|done].
    by apply (live_insert ns i rc (rc + 1)) in Hj; [| |lia].
  - apply order_ok_added; try done. by eexists.
Qed.
End preserve.

(** ** Searching the order *)

Section search.
Context {U : Unicode} {H : Hasher}.
Implicit Types (ns : NameStore) (x : list N).

Lemma not_live_zero ns id rc : getN id (refcount ns) = Some rc -> (0 <? rc) = false -> ~ NameStore.live ns id.
Proof. intros Hrc Hz (rc' & Hrc' & ?). unfold refcount_of in Hrc'. simplify_eq. simpl_cmp. lia. Qed.

Lemma first_live_from_spec ns pos ord :
  Forall (fun id => id < len (refcount ns)) ord ->
  exists o, first_live_from ns pos ord = Some o /\
    match o with
    | Some p => pos <= p /\ (exists id, getN (p - pos) ord = Some id /\ NameStore.live ns id) /\
        forall q id, q < p - pos -> getN q ord = Some id -> ~ NameStore.live ns id
    | None => forall q id, getN q ord = Some id -> ~ NameStore.live ns id
    end.
Proof.
  intros Hr. revert pos. induction Hr as [|id ord Hid Hr IH]; intros pos; [by exists None|]. simpl.
  destruct (getN_is_Some id (refcount ns) Hid) as [rc Hrc]. rewrite Hrc. simpl. destruct (0 <? rc) eqn:Hz.
  - exists (Some pos). split; [done|]. split; [lia|]. rewrite N.sub_diag. split; [|lia].
    exists id. split; [done|]. exists rc. simpl_cmp. done.
  - pose proof (not_live_zero _ _ _ Hrc Hz) as Hd. destruct (IH (pos + 1)) as (o & E & Ho). exists o. split; [done|].
    destruct o as [p|].
    + destruct Ho as (Hle & (id' & Hid' & Hl) & Hbefore). split; [lia|]. split.
      * exists id'. split; [|done]. rewrite getN_cons_pos by lia. rewrite <- Hid'. f_equal. lia.
      * intros q id0 Hq. destruct (decide (q = 0)) as [->|]; [intros [= <-]; done|].
        rewrite getN_cons_pos by lia. apply Hbefore. lia.
    + intros q id0. destruct (decide (q = 0)) as [->|]; [intros [= <-]; done|].
      rewrite getN_cons_pos by lia. apply Ho.
Qed.

Lemma getN_drop {A} (l : list A) n q : getN q (drop (N.to_nat n) l) = getN (n + q) l.
Proof. unfold getN. rewrite lookup_drop. f_equal. lia. Qed.

Lemma first_live_at_spec ns from :
  ns_ok ns -> order_ok ns ->
  exists o, first_live_at ns from = Some o /\
    match o with
    | Some p => from <= p /\ (exists id, getN p (order ns) = Some id /\ NameStore.live ns id) /\
        forall q id, from <= q < p -> getN q (order ns) = Some id -> ~ NameStore.live ns id
    | None => forall q id, from <= q -> getN q (order ns) = Some id -> ~ NameStore.live ns id
    end.
Proof.
  intros Hok Ho. destruct (first_live_from_spec ns from (drop (N.to_nat from) (order ns))) as (o & E & Hp).
  { apply Forall_drop. rewrite ids_refcount by done. apply (o_order_range _ Ho). }
  exists o. split; [done|]. destruct o as [p|].
  - destruct Hp as (Hle & (id & Hid & Hl) & Hb). rewrite getN_drop in Hid. split; [done|]. split.
    + exists id. split; [|done]. rewrite <- Hid. f_equal. lia.
    + intros q id' Hq Hq'. apply (Hb (q - from)); [lia|]. rewrite getN_drop, <- Hq'. f_equal. lia.
  - intros q id' Hq Hq'. apply (Hp (q - from)). rewrite getN_drop, <- Hq'. f_equal. lia.
Qed.

(** Live ids appear in the order by non-decreasing folded bytes. *)
Lemma live_sorted ns i j a b :
  order_ok ns -> i <= j -> getN i (order ns) = Some a -> getN j (order ns) = Some b ->
  NameStore.live ns a -> NameStore.live ns b -> bytes_cmp (fold_of ns a) (fold_of ns b) <> Gt.
Proof.
  intros Ho Hij Ha Hb Hla Hlb. destruct (decide (i = j)) as [->|Hne].
  { simplify_eq. by rewrite (proj2 (bytes_cmp_eq _ _) eq_refl). }
  apply (key_le_bytes (key_of ns a) (key_of ns b)). pose proof (o_sorted _ Ho) as Hs.
  apply Sorted_StronglySorted in Hs; [|apply _]. unfold getN in Ha, Hb. assert (N.to_nat i < N.to_nat j)%nat as Hlt by lia.
  clear Hij Hne. revert Hlt Ha Hb Hs. generalize (N.to_nat i) as m. generalize (N.to_nat j) as n. unfold live_part.
  induction (order ns) as [|y o IH]; intros n m Hlt Ha Hb Hs; [done|].
  destruct n as [|n]; [lia|]. simpl in Hb. rewrite filter_cons in Hs. destruct m as [|m]; simpl in Ha.
  - simplify_eq. rewrite decide_True in Hs by done. rewrite fmap_cons in Hs. inversion_clear Hs as [|? ? _ Hall].
    rewrite Forall_forall in Hall. apply Hall. apply list_elem_of_fmap_2, list_elem_of_filter. split; [done|].
    by eapply list_elem_of_lookup_2.
  - apply (IH n m); [lia|done|done|]. case_decide; [|done]. rewrite fmap_cons in Hs. by inversion_clear Hs.
Qed.

(** What [insertion_point] promises: the boundary between the live names below
    [x] and those at or above it, just behind the last live name below it. *)
Definition insertion_ok ns x (p : N) : Prop :=
  p <= len (order ns) /\
  (forall q id, getN q (order ns) = Some id -> NameStore.live ns id ->
     if q <? p then bytes_cmp (fold_of ns id) x = Lt else bytes_cmp (fold_of ns id) x <> Lt) /\
  (0 < p -> exists id, getN (p - 1) (order ns) = Some id /\ NameStore.live ns id /\
     bytes_cmp (fold_of ns id) x = Lt).

Lemma bytes_cmp_le_lt a b c : bytes_cmp a b <> Gt -> bytes_cmp b c = Lt -> bytes_cmp a c = Lt.
Proof.
  intros Hab Hbc. destruct (bytes_cmp a b) eqn:E; [|by eapply bytes_cmp_lt_trans|done].
  by apply bytes_cmp_eq in E as ->.
Qed.

Lemma insertion_loop_spec fuel ns x lo hi :
  ns_ok ns -> order_ok ns -> (N.to_nat (hi - lo) <= fuel)%nat -> lo <= hi -> hi <= len (order ns) ->
  (forall q id, getN q (order ns) = Some id -> NameStore.live ns id -> q < lo -> bytes_cmp (fold_of ns id) x = Lt) ->
  (forall q id, getN q (order ns) = Some id -> NameStore.live ns id -> hi <= q -> bytes_cmp (fold_of ns id) x <> Lt) ->
  (0 < lo -> exists id, getN (lo - 1) (order ns) = Some id /\ NameStore.live ns id /\
     bytes_cmp (fold_of ns id) x = Lt) ->
  exists p, insertion_loop fuel ns x lo hi = Some p /\ insertion_ok ns x p.
Proof.
  intros Hok Ho. revert lo hi. induction fuel as [|fuel IH]; intros lo hi Hf Hlh Hhi Hlow Hhigh Hlast.
  - assert (lo = hi) as -> by lia. exists hi. simpl. rewrite (proj2 (N.leb_le _ _)) by lia.
    split; [done|]. split; [done|]. split; [|done]. intros q id Hq Hl. destruct (N.ltb_spec q hi); eauto.
  - simpl. destruct (N.leb_spec hi lo).
    { assert (lo = hi) as -> by lia. exists hi. split; [done|]. split; [done|]. split; [|done].
      intros q id Hq Hl. destruct (N.ltb_spec q hi); eauto. }
    assert (Hmid : lo <= lo + (hi - lo) / 2 < hi).
    { pose proof (N.div_lt (hi - lo) 2). lia. }
    set (mid := lo + (hi - lo) / 2) in *.
    destruct (first_live_at_spec ns mid Hok Ho) as (o & E & Hp). rewrite E. simpl.
    (* everything live from mid on is at or above x *)
    assert (Hleft : (forall q id, getN q (order ns) = Some id -> NameStore.live ns id -> mid <= q ->
              bytes_cmp (fold_of ns id) x <> Lt) ->
              exists p, insertion_loop fuel ns x lo mid = Some p /\ insertion_ok ns x p).
    { intros Hm. apply IH; try done; lia. }
    destruct o as [p|]; [|apply Hleft; intros q id Hq Hl Hmq; exfalso; by eapply Hp].
    destruct Hp as (Hmp & (id & Hid & Hl) & Hbetween). destruct (N.ltb_spec p hi).
    + unfold folded_at. rewrite Hid. simpl.
      rewrite (folded_total _ _ Hok) by (by apply live_lt). simpl. unfold bytes_ltb.
      destruct (bytes_cmp (fold_of ns id) x) eqn:Hc.
      * apply Hleft. intros q id' Hq Hl' Hmq Hlt. destruct (N.lt_ge_cases q p); [by eapply Hbetween|].
        pose proof (live_sorted ns p q id id' Ho ltac:(lia) Hid Hq Hl Hl') as Hle.
        by rewrite (bytes_cmp_le_lt _ _ _ Hle Hlt) in Hc.
      * apply IH; try lia; try done.
        -- intros q id' Hq Hl' Hqp. apply (bytes_cmp_le_lt _ (fold_of ns id)); [|done].
           eapply (live_sorted ns q p); [done|lia|done..].
        -- intros _. replace (p + 1 - 1) with p by lia. by exists id.
      * apply Hleft. intros q id' Hq Hl' Hmq Hlt. destruct (N.lt_ge_cases q p); [by eapply Hbetween|].
        pose proof (live_sorted ns p q id id' Ho ltac:(lia) Hid Hq Hl Hl') as Hle.
        by rewrite (bytes_cmp_le_lt _ _ _ Hle Hlt) in Hc.
    + apply Hleft. intros q id' Hq Hl' Hmq. destruct (N.lt_ge_cases q p).
      * exfalso. by eapply Hbetween.
      * apply Hhigh with q; try done. lia.
Qed.

Lemma insertion_point_spec ns x :
  ns_ok ns -> order_ok ns -> exists p, insertion_point ns x = Some p /\ insertion_ok ns x p.
Proof.
  intros Hok Ho. unfold insertion_point. apply insertion_loop_spec; try done; try lia.
  - unfold len. lia.
  - intros q id ?%getN_lt. lia.
Qed.
End search.

(** ** Rank keys order names as their folded bytes do *)

Section rank_key.
Context {U : Unicode} {H : Hasher}.
Implicit Types (ns : NameStore) (f x : list N).

(** The key of a folded name: that of its ranked group, or that of the gap it
    falls in. *)
Definition key_spec ns f (k : N) : Prop :=
  (exists pos id r, getN pos (order ns) = Some id /\ NameStore.live ns id /\ fold_of ns id = f /\
     getN id (rank_of ns) = Some r /\ k = 2 * r + 1) \/
  ((forall pos id, getN pos (order ns) = Some id -> NameStore.live ns id -> fold_of ns id <> f) /\
   exists p, insertion_ok ns f p /\ k = 2 * p).

Lemma live_placed ns id :
  ns_ok ns -> order_ok ns -> NameStore.live ns id ->
  (exists pos, getN pos (order ns) = Some id) \/ id ∈ unranked ns.
Proof.
  intros Hok Ho Hl. assert (Hin : id ∈ live_part ns (all_ids ns)).
  { apply elem_of_live_part. split; [done|]. apply elem_of_all_ids. by apply live_lt. }
  rewrite <- (o_partition _ Ho) in Hin. apply elem_of_app in Hin as [[_ Hin]%elem_of_live_part|[_ Hin]%elem_of_live_part].
  - left. apply list_elem_of_lookup in Hin as [i Hi]. exists (N.of_nat i). unfold getN. by rewrite Nat2N.id.
  - by right.
Qed.

Lemma rank_key_spec ns id :
  ns_ok ns -> order_ok ns -> NameStore.live ns id ->
  exists k, rank_key ns id = Some k /\ key_spec ns (fold_of ns id) k.
Proof.
  intros Hok Ho Hl. pose proof (live_lt _ _ Hok Hl) as Hid. unfold rank_key.
  destruct (getN_is_Some id (rank_of ns)) as [r Hr]; [by rewrite rank_len|]. rewrite Hr. simpl.
  destruct (N.eqb_spec r UNRANKED) as [->|Hne]; simpl.
  2:{ eexists. split; [done|]. left. destruct (live_placed _ _ Hok Ho Hl) as [[pos Hpos]|Hun].
      - by exists pos, id, r.
      - apply (o_waiting _ Ho) in Hun. simplify_eq. }
  rewrite (folded_total _ _ Hok Hid). simpl.
  destruct (insertion_point_spec ns (fold_of ns id) Hok Ho) as (p & E & Hp). rewrite E. simpl.
  destruct (first_live_at_spec ns p Hok Ho) as (o & E' & Hfl). rewrite E'. simpl.
  assert (Hgap : (forall pos id', getN pos (order ns) = Some id' -> NameStore.live ns id' -> p <= pos ->
            fold_of ns id' <> fold_of ns id) -> key_spec ns (fold_of ns id) (2 * p)).
  { intros Hno. right. split; [|by exists p]. intros pos id' Hpos Hl' Heq.
    destruct (N.lt_ge_cases pos p); [|by eapply Hno]. destruct Hp as (_ & Hp & _). specialize (Hp _ _ Hpos Hl').
    rewrite (proj2 (N.ltb_lt _ _)) in Hp by done. rewrite Heq in Hp.
    by rewrite (proj2 (bytes_cmp_eq _ _) eq_refl) in Hp. }
  destruct o as [pos|].
  - destruct Hfl as (Hle & (id0 & Hid0 & Hl0) & Hbetween). unfold folded_at. rewrite Hid0. simpl.
    rewrite (folded_total _ _ Hok) by (by apply live_lt). simpl. case_bool_decide as Hf.
    + destruct (o_ranks _ Ho pos id0 Hid0 Hl0) as (r & Hr0 & _). rewrite Hr0. simpl. eexists. split; [done|].
      left. by exists pos, id0, r.
    + eexists. split; [done|]. apply Hgap. intros q id' Hq Hl' Hpq Heq.
      destruct (N.lt_ge_cases q pos); [by eapply Hbetween|]. apply Hf. apply bytes_cmp_eq.
      pose proof (live_sorted ns pos q id0 id' Ho ltac:(lia) Hid0 Hq Hl0 Hl') as Hle'. rewrite Heq in Hle'.
      destruct Hp as (_ & Hp & _). specialize (Hp _ _ Hid0 Hl0). rewrite (proj2 (N.ltb_ge _ _)) in Hp by done.
      by destruct (bytes_cmp (fold_of ns id0) (fold_of ns id)).
  - eexists. split; [done|]. apply Hgap. intros pos id' Hpos Hl' Hle _. by eapply Hfl.
Qed.

(** A gap lies behind everything live that is smaller. *)
Lemma insertion_above ns f p q id :
  insertion_ok ns f p -> getN q (order ns) = Some id -> NameStore.live ns id ->
  bytes_cmp (fold_of ns id) f = Lt -> q < p.
Proof.
  intros (_ & Hp & _) Hq Hl Hlt. specialize (Hp _ _ Hq Hl). destruct (N.ltb_spec q p); [done|]. by rewrite Hlt in Hp.
Qed.

Lemma insertion_mono ns f f' p p' :
  insertion_ok ns f p -> insertion_ok ns f' p' -> bytes_cmp f f' <> Gt -> p <= p'.
Proof.
  intros Hp Hp' Hle. destruct (decide (p = 0)) as [->|]; [lia|]. pose proof Hp as (_ & _ & Hlast).
  destruct Hlast as (id & Hid & Hl & Hlt); [lia|].
  assert (p - 1 < p'); [|lia]. eapply (insertion_above ns f'); try done.
  destruct (bytes_cmp f f') eqn:E; [by apply bytes_cmp_eq in E as <-|by eapply bytes_cmp_lt_trans|done].
Qed.

Lemma key_spec_lt ns f f' k k' :
  order_ok ns -> key_spec ns f k -> key_spec ns f' k' -> bytes_cmp f f' = Lt ->
  k < k' \/ (k = k' /\
    (forall pos id, getN pos (order ns) = Some id -> NameStore.live ns id -> fold_of ns id <> f /\ fold_of ns id <> f')).
Proof.
  intros Ho [(pos & id & r & Hpos & Hl & <- & Hr & ->)|[Hno (p & Hp & ->)]]
    [(pos' & id' & r' & Hpos' & Hl' & <- & Hr' & ->)|[Hno' (p' & Hp' & ->)]] Hlt.
  - left. destruct (o_ranks _ Ho _ _ Hpos Hl) as (r0 & E & _ & Hle & _).
    destruct (o_ranks _ Ho _ _ Hpos' Hl') as (r0' & E' & _ & _ & Hoth). simplify_eq.
    destruct (Hoth _ _ Hpos Hl) as [_ Hord]. specialize (Hord Hlt). lia.
  - left. destruct (o_ranks _ Ho _ _ Hpos Hl) as (r0 & E & _ & Hle & _). simplify_eq.
    pose proof (insertion_above _ _ _ _ _ Hp' Hpos Hl Hlt). lia.
  - left. destruct (decide (p = 0)) as [->|]; [lia|]. destruct Hp as (_ & _ & Hlast).
    destruct Hlast as (id0 & Hid0 & Hl0 & Hlt0); [lia|].
    destruct (o_ranks _ Ho _ _ Hpos' Hl') as (r0' & E' & _ & _ & Hoth). simplify_eq.
    destruct (Hoth _ _ Hid0 Hl0) as [_ Hord]. assert (p - 1 < r'); [|lia]. apply Hord.
    by eapply bytes_cmp_lt_trans.
  - pose proof (insertion_mono _ _ _ _ _ Hp Hp' ltac:(by rewrite Hlt)).
    destruct (decide (p = p')) as [->|]; [right|left; lia]. split; [done|]. eauto.
Qed.

Lemma key_spec_eq ns f k k' : order_ok ns -> key_spec ns f k -> key_spec ns f k' -> k = k'.
Proof.
  intros Ho [(pos & id & r & Hpos & Hl & Hf & Hr & ->)|[Hno (p & Hp & ->)]]
    [(pos' & id' & r' & Hpos' & Hl' & Hf' & Hr' & ->)|[Hno' (p' & Hp' & ->)]].
  - destruct (o_ranks _ Ho _ _ Hpos Hl) as (r0 & E & _ & _ & Hoth). destruct (Hoth _ _ Hpos' Hl') as [Hsame _].
    rewrite Hsame in Hr' by congruence. by simplify_eq.
  - exfalso. by eapply Hno'.
  - exfalso. by eapply Hno.
  - assert (bytes_cmp f f <> Gt) by (by rewrite (proj2 (bytes_cmp_eq f f) eq_refl)).
    pose proof (insertion_mono _ _ _ _ _ Hp Hp'). pose proof (insertion_mono _ _ _ _ _ Hp' Hp). f_equal.
    apply N.le_antisymm; auto.
Qed.
End rank_key.

(** Every live name has a rank key, found without panicking; equal folded
    names get equal keys, keys order names exactly as their folded bytes do,
    and two different folded names tie only if neither has a ranked name: an
    unmerged name sorts where a full re-sort would put it, whatever died since
    the order was built. *)
Theorem rank_key_orders `{Unicode, Hasher} ns a b :
  ns_ok ns -> order_ok ns -> NameStore.live ns a -> NameStore.live ns b ->
  exists ka kb, rank_key ns a = Some ka /\ rank_key ns b = Some kb /\
    (fold_of ns a = fold_of ns b -> ka = kb) /\
    (ka < kb -> bytes_cmp (fold_of ns a) (fold_of ns b) = Lt) /\
    (ka = kb -> fold_of ns a = fold_of ns b \/ (a ∈ unranked ns /\ b ∈ unranked ns)).
Proof.
  intros Hok Ho Ha Hb. destruct (rank_key_spec ns a Hok Ho Ha) as (ka & Ea & Ka).
  destruct (rank_key_spec ns b Hok Ho Hb) as (kb & Eb & Kb). exists ka, kb. split; [done|]. split; [done|].
  assert (Hcmp : bytes_cmp (fold_of ns b) (fold_of ns a) = CompOpp (bytes_cmp (fold_of ns a) (fold_of ns b)))
    by apply bytes_cmp_antisym.
  split_and!.
  - intros E. rewrite E in Ka. by eapply key_spec_eq.
  - intros Hlt. destruct (bytes_cmp (fold_of ns a) (fold_of ns b)) eqn:E; [|done|].
    + apply bytes_cmp_eq in E. rewrite E in Ka. pose proof (key_spec_eq _ _ _ _ Ho Ka Kb). lia.
    + destruct (key_spec_lt _ _ _ _ _ Ho Kb Ka Hcmp) as [?|[? _]]; lia.
  - intros ->. destruct (bytes_cmp (fold_of ns a) (fold_of ns b)) eqn:E; [left; by apply bytes_cmp_eq|right..].
    + destruct (key_spec_lt _ _ _ _ _ Ho Ka Kb E) as [?|[_ Hno]]; [lia|].
      split; (edestruct live_placed as [[pos Hpos]|?]; [exact Hok|exact Ho| | |done]); [exact Ha| |exact Hb|];
        (edestruct Hno as [? ?]; [exact Hpos|done|done]).
    + destruct (key_spec_lt _ _ _ _ _ Ho Kb Ka Hcmp) as [?|[_ Hno]]; [lia|].
      split; (edestruct live_placed as [[pos Hpos]|?]; [exact Hok|exact Ho| | |done]); [exact Ha| |exact Hb|];
        (edestruct Hno as [? ?]; [exact Hpos|done|done]).
Qed.

(** Merging the waiting names into the order gives exactly the state that
    re-sorting every live name would give: the same order, the same ranks. *)
Theorem merge_is_resort `{Unicode, Hasher} ns :
  ns_ok ns -> order_ok ns ->
  exists ns', merge_unranked ns = Some (tt, ns') /\ build_order ns = Some (tt, ns') /\
    ns_ok ns' /\ order_ok ns' /\ unranked ns' = [] /\ (forall j, view ns' j = view ns j).
Proof.
  intros Hok Ho. rewrite merge_unranked_eq, build_order_eq by done.
  destruct (install_order ns (sorted_keys ns) Hok (sorted_keys_sorted _) (sorted_keys_perm _)) as (rk & E & Hok' & Ho').
  eexists. split; [exact E|]. split; [exact E|]. done.
Qed.

(** ** Compaction *)

Section plan.
Context {U : Unicode} {H : Hasher}.
Implicit Types (ns : NameStore) (gs ks : list Slot).

(** What a plan holds once the ids below [i] have been visited: [kept] are the
    live ones among them, in order, and [ks] their slots. *)
Record plan_ok ns gs (i : N) (kept : list N) ks (c : CompactedNames) : Prop := {
  p_kept id : id ∈ kept <-> id < i /\ NameStore.live ns id;
  p_mono a b x y : getN a kept = Some x -> getN b kept = Some y -> a < b -> x < y;
  p_slots : Forall2 (fun id g => getN id gs = Some g) kept ks;
  p_folded : k_folded c = concat (map fseg ks);
  p_raw : k_raw c = concat (map rseg ks);
  p_pairs : k_pairs c = imap (fun j g => pair_of ks (N.of_nat j) g) ks;
  p_refcount : k_refcount c = (fun id => default 0 (getN id (refcount ns))) <$> kept;
  p_head : k_head c = (fun id => default NIL (getN id (head ns))) <$> kept;
  p_remap_len : len (k_remap c) = ids ns;
  p_remap pos id : getN pos kept = Some id -> getN id (k_remap c) = Some pos;
  p_remap_nil id : id < ids ns -> id ∉ kept -> getN id (k_remap c) = Some NIL;
  p_bounds : len (k_folded c) <= len (concat (map fseg (take (N.to_nat i) gs))) /\
             len (k_raw c) <= len (concat (map rseg (take (N.to_nat i) gs))) /\ len kept <= i
}.

Lemma take_snoc {A} (l : list A) i g :
  getN i l = Some g -> take (N.to_nat (i + 1)) l = take (N.to_nat i) l ++ [g].
Proof. unfold getN. intros Hi. rewrite N.add_1_r, N2Nat.inj_succ. by apply take_S_r. Qed.

Lemma len_concat_take (f : Slot -> list N) gs i g :
  getN i gs = Some g ->
  len (concat (map f (take (N.to_nat (i + 1)) gs))) = len (concat (map f (take (N.to_nat i) gs))) + len (f g).
Proof.
  intros Hi. rewrite (take_snoc _ _ _ Hi), map_app, concat_app, len_app. simpl. by rewrite app_nil_r.
Qed.

Lemma len_concat_take_le (f : Slot -> list N) gs i :
  len (concat (map f (take (N.to_nat i) gs))) <= len (concat (map f gs)).
Proof.
  rewrite <- (take_drop (N.to_nat i) gs) at 2. rewrite map_app, concat_app, len_app. lia.
Qed.

(** Visiting a dead id changes nothing. *)
Lemma plan_skip ns gs i kept ks c :
  repr ns gs -> i < len gs -> ~ NameStore.live ns i -> plan_ok ns gs i kept ks c -> plan_ok ns gs (i + 1) kept ks c.
Proof.
  intros R Hi Hd P. destruct (getN_is_Some i gs Hi) as [g Hg]. destruct P. split; try done.
  - intros id. rewrite p_kept0. split; [intros [? ?]; split; [lia|done]|].
    intros [? ?]. split; [|done]. destruct (decide (id = i)) as [->|]; [done|lia].
  - rewrite !(len_concat_take _ _ _ _ Hg). lia.
Qed.

(** Visiting a live one appends its slot. *)
Definition plan_step ns (i : N) (g : Slot) (c : CompactedNames) : CompactedNames :=
  {| k_raw := k_raw c ++ rseg g; k_folded := k_folded c ++ fseg g;
     k_pairs := k_pairs c ++
       [{| raw_ref := match sraw g with
                      | Some b => {| off := len (k_raw c); nlen := len b |}
                      | None => {| off := N.lor (len (k_folded c)) RAW_IN_FOLDED; nlen := len (sfold g) |}
                      end;
           folded_ref := {| off := len (k_folded c); nlen := len (sfold g) |} |}];
     k_refcount := k_refcount c ++ [default 0 (getN i (refcount ns))];
     k_head := k_head c ++ [default NIL (getN i (head ns))];
     k_remap := <[N.to_nat i := len (k_pairs c)]> (k_remap c) |}.

Lemma imap_pair_snoc gs g :
  imap (fun j x => pair_of (gs ++ [g]) (N.of_nat j) x) (gs ++ [g]) =
  imap (fun j x => pair_of gs (N.of_nat j) x) gs ++
    [{| raw_ref := match sraw g with
                   | Some b => {| off := len (concat (map rseg gs)); nlen := len b |}
                   | None => {| off := N.lor (len (concat (map fseg gs))) RAW_IN_FOLDED; nlen := len (sfold g) |}
                   end;
        folded_ref := {| off := len (concat (map fseg gs)); nlen := len (sfold g) |} |}].
Proof.
  rewrite imap_app. f_equal.
  - apply imap_ext. intros i x Hi. apply lookup_lt_Some in Hi. rewrite pair_of_snoc; [done|unfold len; lia].
  - simpl. f_equal. rewrite Nat.add_0_r. change (N.of_nat (length gs)) with (len gs). unfold pair_of.
    rewrite !map_app. simpl.
    assert (Hs : forall (f : Slot -> list N) s, seg_off (map f gs ++ [s]) (len gs) = len (concat (map f gs))).
    { intros f s. rewrite <- (seg_off_len _ s). f_equal. unfold len. by rewrite length_map. }
    by rewrite !Hs.
Qed.

Lemma plan_keep ns gs i kept ks c g :
  repr ns gs -> getN i gs = Some g -> NameStore.live ns i -> plan_ok ns gs i kept ks c ->
  plan_ok ns gs (i + 1) (kept ++ [i]) (ks ++ [g]) (plan_step ns i g c).
Proof.
  intros R Hg Hl P. pose proof (getN_lt _ _ _ Hg) as Hlt.
  assert (Hids : ids ns = len gs) by (unfold ids; by apply len_pairs).
  assert (Hni : i ∉ kept) by (rewrite (p_kept _ _ _ _ _ _ P); lia).
  assert (Hkp : len (k_pairs c) = len kept).
  { rewrite (p_pairs _ _ _ _ _ _ P). unfold len. rewrite length_imap.
    by rewrite (Forall2_length _ _ _ (p_slots _ _ _ _ _ _ P)). }
  split.
  - intros id. rewrite elem_of_app, list_elem_of_singleton, (p_kept _ _ _ _ _ _ P). split.
    + intros [[? ?]| ->]; [split; [lia|done]|split; [lia|done]].
    + intros [? ?]. destruct (decide (id = i)) as [->|]; [by right|left; split; [lia|done]].
  - intros a b x y Ha Hb Hab. rewrite getN_snoc in Ha, Hb. repeat case_decide; simplify_eq; try lia.
    + apply (p_kept _ _ _ _ _ _ P). by eapply list_elem_of_lookup_2.
    + apply getN_lt in Hb. lia.
    + by eapply (p_mono _ _ _ _ _ _ P a b).
  - apply Forall2_app; [apply (p_slots _ _ _ _ _ _ P)|by constructor].
  - simpl. rewrite (p_folded _ _ _ _ _ _ P), map_app, concat_app. simpl. by rewrite app_nil_r.
  - simpl. rewrite (p_raw _ _ _ _ _ _ P), map_app, concat_app. simpl. by rewrite app_nil_r.
  - rewrite imap_pair_snoc. simpl.
    by rewrite (p_pairs _ _ _ _ _ _ P), (p_folded _ _ _ _ _ _ P), (p_raw _ _ _ _ _ _ P).
  - simpl. by rewrite (p_refcount _ _ _ _ _ _ P), fmap_app.
  - simpl. by rewrite (p_head _ _ _ _ _ _ P), fmap_app.
  - simpl. rewrite len_insert. apply (p_remap_len _ _ _ _ _ _ P).
  - intros pos id Hpos. simpl. rewrite getN_insert by (rewrite (p_remap_len _ _ _ _ _ _ P); lia).
    rewrite getN_snoc in Hpos. case_decide; simplify_eq; [by rewrite decide_True, Hkp by done|].
    rewrite decide_False; [by apply (p_remap _ _ _ _ _ _ P)|].
    intros ->. apply Hni. by eapply list_elem_of_lookup_2.
  - intros id Hid [Hk Hne]%not_elem_of_app. simpl. rewrite getN_insert by (rewrite (p_remap_len _ _ _ _ _ _ P); lia).
    rewrite decide_False by set_solver. by apply (p_remap_nil _ _ _ _ _ _ P).
  - simpl. rewrite !(len_concat_take _ _ _ _ Hg). pose proof (p_bounds _ _ _ _ _ _ P). len_solve.
Qed.

Lemma plan_loop_spec ns gs rcs pre kept ks c :
  repr ns gs -> refcount ns = pre ++ rcs -> plan_ok ns gs (len pre) kept ks c ->
  exists kept' ks' c', plan_loop ns (len pre) rcs c = Some c' /\ plan_ok ns gs (len (refcount ns)) kept' ks' c'.
Proof.
  intros R. revert pre kept ks c. induction rcs as [|rc rcs IH]; intros pre kept ks c Hrc P.
  { rewrite app_nil_r in Hrc. exists kept, ks, c. by rewrite Hrc. }
  assert (Hi : getN (len pre) (refcount ns) = Some rc).
  { rewrite Hrc. unfold getN, len. rewrite Nat2N.id. by apply list_lookup_middle. }
  assert (Hlt : len pre < len gs) by (rewrite <- (r_refcount _ _ R); by eapply getN_lt).
  destruct (getN_is_Some _ gs Hlt) as [g Hg].
  assert (Hpre : len (pre ++ [rc]) = len pre + 1) by len_solve.
  cbn [plan_loop]. destruct (N.eqb_spec rc 0) as [->|Hne].
  - rewrite <- Hpre. eapply IH; [by rewrite <- app_assoc|]. rewrite Hpre. eapply plan_skip; try done.
    intros (rc' & Hrc' & ?). unfold refcount_of in Hrc'. simplify_eq. lia.
  - assert (Hl : NameStore.live ns (len pre)) by (exists rc; split; [done|lia]).
    rewrite (getN_pairs _ gs), Hg by done. simpl. rewrite (folded_bytes_slot _ _ _ _ R Hg). simpl.
    pose proof (in_folded_pair _ _ _ _ R Hg) as Hin. unfold pair_of in Hin. simpl in Hin. rewrite Hin.
    pose proof (r_bounds _ _ R) as (B1 & B2 & B3). pose proof (p_bounds _ _ _ _ _ _ P) as (P1 & P2 & P3).
    pose proof (len_concat_take_le fseg gs (len pre)) as Q1. pose proof (len_concat_take_le rseg gs (len pre)) as Q2.
    rewrite <- (r_folded _ _ R) in Q1. rewrite <- (r_raw _ _ R) in Q2.
    assert (Hsm : len (sfold g) <= u16_max /\ len (raw_of g) <= u16_max)
      by (apply (Forall_lookup_1 _ _ _ _ (r_small _ _ R) Hg)).
    assert (Hkp : len (k_pairs c) <= len pre).
    { rewrite (p_pairs _ _ _ _ _ _ P). unfold len in *. rewrite length_imap.
      by rewrite <- (Forall2_length _ _ _ (p_slots _ _ _ _ _ _ P)). }
    assert (T1 : as_u32 (len (k_folded c)) = len (k_folded c)) by (apply N.mod_small; lia).
    assert (T2 : as_u32 (len (k_raw c)) = len (k_raw c)) by (apply N.mod_small; lia).
    assert (T3 : as_u32 (len (k_pairs c)) = len (k_pairs c)) by (apply N.mod_small; unfold NIL, u32_max in *; lia).
    assert (T4 : as_u16 (len (sfold g)) = len (sfold g)) by (apply N.mod_small; unfold u16_max in *; lia).
    assert (T5 : as_u16 (len (raw_of g)) = len (raw_of g)) by (apply N.mod_small; unfold u16_max in *; lia).
    destruct (getN_is_Some (len pre) (head ns)) as [h Hh]; [by rewrite (r_head _ _ R)|].
    assert (Hids : ids ns = len gs) by (unfold ids; by apply len_pairs).
    destruct (IH (pre ++ [rc]) (kept ++ [len pre]) (ks ++ [g]) (plan_step ns (len pre) g c)) as (k' & s' & c' & E & P').
    { by rewrite <- app_assoc. }
    { rewrite Hpre. by apply plan_keep. }
    exists k', s', c'. split; [|done]. rewrite <- E, Hpre. unfold plan_step, rseg, fseg.
    unfold push. rewrite (raw_bytes_pair _ _ _ _ R Hg), Hh, Hi, T1, T3, T4. unfold raw_of in T5.
    rewrite setN_some by (rewrite (p_remap_len _ _ _ _ _ _ P); lia).
    destruct (sraw g) as [b|] eqn:Hb.
    + unfold raw_of. rewrite Hb in *. simpl in *. by rewrite T2, T5.
    + simpl. by rewrite app_nil_r.
Qed.

Lemma plan_compact_spec ns gs :
  repr ns gs -> exists kept ks c, plan_compact ns = Some c /\ plan_ok ns gs (ids ns) kept ks c.
Proof.
  intros R. assert (Hids : ids ns = len gs) by (unfold ids; by apply len_pairs).
  destruct (plan_loop_spec ns gs (refcount ns) [] [] []
    {| k_raw := []; k_folded := []; k_pairs := []; k_refcount := []; k_head := [];
       k_remap := replicate (length (pairs ns)) NIL |}) as (kept & ks & c & E & P); try done.
  { split; simpl; try done.
    - intros id. rewrite len_nil. split; [by intros ?%not_elem_of_nil|lia].
    - unfold len, ids, len. by rewrite length_replicate.
    - intros id Hid _. unfold getN. apply lookup_replicate_2. unfold ids, len in Hid. lia. }
  exists kept, ks, c. split; [exact E|]. rewrite (r_refcount _ _ R), <- Hids in P. done.
Qed.
End plan.

Section install.
Context {U : Unicode} {H : Hasher}.
Implicit Types (ns : NameStore) (gs ks : list Slot).

(** The store as installed, before ranking. *)
Definition installed (c : CompactedNames) (ord un : list N) (table : list (N * N)) (st : bool) : NameStore :=
  {| raw := k_raw c; folded := k_folded c; pairs := k_pairs c; refcount := k_refcount c; head := k_head c;
     by_bytes := table; garbage := 0; order := ord; rank_of := replicate (length (k_pairs c)) UNRANKED;
     unranked := un; dead_ranked := 0; settled := st |}.

Definition table_of ks : list (N * N) := imap (fun i g => (hash_bytes (raw_of g), N.of_nat i)) ks.

Lemma elem_of_table_of ks h id : (h, id) ∈ table_of ks <-> exists g, getN id ks = Some g /\ h = hash_bytes (raw_of g).
Proof.
  unfold table_of. rewrite elem_of_lookup_imap. unfold getN. split.
  - intros (i & g & [= -> ->] & Hi). exists g. by rewrite Nat2N.id.
  - intros (g & Hg & ->). exists (N.to_nat id), g. by rewrite N2Nat.id.
Qed.

Lemma NoDup_table_of ks : NoDup (table_of ks).
Proof.
  apply NoDup_alt. intros i j [h id] Hi Hj. unfold table_of in *. rewrite list_lookup_imap in Hi, Hj.
  destruct (ks !! i), (ks !! j); simplify_eq/=. lia.
Qed.

Lemma kept_slot ns gs kept ks c pos g :
  plan_ok ns gs (ids ns) kept ks c -> getN pos ks = Some g ->
  exists id, getN pos kept = Some id /\ getN id gs = Some g /\ NameStore.live ns id.
Proof.
  intros P Hg. destruct (Forall2_lookup_r _ _ _ _ _ (p_slots _ _ _ _ _ _ P) Hg) as (id & Hid & Hgs).
  exists id. split_and!; try done. apply (p_kept _ _ _ _ _ _ P). by eapply list_elem_of_lookup_2.
Qed.

Lemma len_kept ns gs i kept ks c : plan_ok ns gs i kept ks c -> len kept = len ks.
Proof. intros P. unfold len. by rewrite (Forall2_length _ _ _ (p_slots _ _ _ _ _ _ P)). Qed.

Lemma live_installed ns gs kept ks c ord un T st pos :
  plan_ok ns gs (ids ns) kept ks c -> NameStore.live (installed c ord un T st) pos <-> pos < len ks.
Proof.
  intros P. rewrite <- (len_kept _ _ _ _ _ _ P). unfold NameStore.live, refcount_of, installed. simpl.
  rewrite (p_refcount _ _ _ _ _ _ P). unfold getN. rewrite list_lookup_fmap. split.
  - intros (rc & Hrc & _). destruct (kept !! N.to_nat pos) eqn:E; [|done]. apply lookup_lt_Some in E. unfold len. lia.
  - intros Hpos. destruct (getN_is_Some pos kept Hpos) as [id Hid]. unfold getN in Hid. rewrite Hid. simpl.
    assert (Hl : NameStore.live ns id) by (apply (p_kept _ _ _ _ _ _ P); by eapply list_elem_of_lookup_2).
    destruct Hl as (rc & Hrc & ?). unfold refcount_of, getN in Hrc. rewrite Hrc. by exists rc.
Qed.

Lemma repr_installed ns gs kept ks c ord un st :
  repr ns gs -> plan_ok ns gs (ids ns) kept ks c ->
  repr (installed c ord un (reverse (table_of ks)) st) ks.
Proof.
  intros R P. assert (Hids : ids ns = len gs) by (unfold ids; by apply len_pairs).
  assert (Hslot := kept_slot ns gs kept ks c). pose proof (len_kept _ _ _ _ _ _ P) as Hlk.
  pose proof (r_bounds _ _ R) as (B1 & B2 & B3). pose proof (p_bounds _ _ _ _ _ _ P) as (P1 & P2 & P3).
  rewrite Hids in P1, P2, P3. split; try apply P; simpl.
  - rewrite (p_refcount _ _ _ _ _ _ P). unfold len in *. by rewrite length_fmap.
  - rewrite (p_head _ _ _ _ _ _ P). unfold len in *. by rewrite length_fmap.
  - rewrite (p_pairs _ _ _ _ _ _ P). unfold len. by rewrite length_replicate, length_imap.
  - apply Forall_lookup. intros i g Hi. destruct (Hslot (N.of_nat i) g P) as (id & _ & Hg & _).
    { unfold getN. by rewrite Nat2N.id. }
    apply (Forall_lookup_1 _ _ _ _ (r_small _ _ R) Hg).
  - intros i g Hi Hd. exfalso. apply Hd. eapply live_installed; [exact P|]. by eapply getN_lt.
  - intros i g Hi _. destruct (Hslot _ _ P Hi) as (id & _ & Hg & Hl). by apply (r_live _ _ R id).
  - intros i j g g' Hi Hj _ _ E. destruct (Hslot _ _ P Hi) as (id & Hid & Hg & Hl).
    destruct (Hslot _ _ P Hj) as (id' & Hid' & Hg' & Hl').
    assert (id = id') as <- by (by apply (r_unique _ _ R id id' g g')).
    apply (p_remap _ _ _ _ _ _ P) in Hid, Hid'. congruence.
  - rewrite reverse_Permutation. apply NoDup_table_of.
  - intros h id. rewrite elem_of_reverse, elem_of_table_of. split.
    + intros (g & Hg & ->). exists g. split_and!; try done. eapply live_installed; [exact P|]. by eapply getN_lt.
    + intros (g & Hg & _ & ->). by exists g.
  - rewrite !take_ge in P1, P2 by (unfold len; lia). rewrite <- (r_folded _ _ R) in P1. rewrite <- (r_raw _ _ R) in P2.
    split_and!; [lia|lia|]. rewrite <- Hlk. lia.
Qed.

(** The intern table is rebuilt from the new tables, one entry per id. *)
Lemma rebuild_table_spec ns ks l acc :
  (forall id g, getN id ks = Some g -> raw_bytes ns id = Some (raw_of g)) -> Forall (fun id => id < len ks) l ->
  rebuild_table ns l acc =
    Some (reverse ((fun id => (hash_bytes (default [] (raw_of <$> getN id ks)), id)) <$> l) ++ acc).
Proof.
  intros R Hl. revert acc. induction Hl as [|id l Hid Hl IH]; intros acc; [done|]. simpl.
  destruct (getN_is_Some id ks Hid) as [g Hg]. rewrite (R _ _ Hg). simpl. rewrite IH, Hg. simpl.
  by rewrite reverse_cons, <- app_assoc.
Qed.

Lemma table_of_ids ks :
  (fun id => (hash_bytes (default [] (raw_of <$> getN id ks)), id)) <$> (N.of_nat <$> seq 0 (length ks)) = table_of ks.
Proof.
  apply list_eq. intros i. unfold table_of. rewrite list_lookup_imap, !list_lookup_fmap.
  destruct (ks !! i) as [g|] eqn:E; simpl.
  - rewrite lookup_seq_lt by (by eapply lookup_lt_Some). simpl. unfold getN. by rewrite Nat2N.id, E.
  - rewrite lookup_seq_ge by (by apply lookup_ge_None). done.
Qed.

(** The new id of a kept name. *)
Definition moved (c : CompactedNames) (id : N) : N := default NIL (getN id (k_remap c)).

Lemma moved_kept ns gs kept ks c id :
  plan_ok ns gs (ids ns) kept ks c -> NameStore.live ns id -> id < ids ns ->
  getN (moved c id) kept = Some id /\ getN id (k_remap c) = Some (moved c id).
Proof.
  intros P Hl Hid. assert (Hin : id ∈ kept) by (by apply (p_kept _ _ _ _ _ _ P)).
  apply list_elem_of_lookup in Hin as [i Hi]. assert (Hi' : getN (N.of_nat i) kept = Some id) by (unfold getN; by rewrite Nat2N.id).
  pose proof (p_remap _ _ _ _ _ _ P _ _ Hi') as Hr. unfold moved. rewrite Hr. simpl. done.
Qed.

Lemma renumber_spec ns gs kept ks c l :
  repr ns gs -> plan_ok ns gs (ids ns) kept ks c -> Forall (fun id => id < ids ns) l ->
  renumber (k_remap c) l = Some (moved c <$> live_part ns l).
Proof.
  intros R P. assert (Hids : ids ns = len gs) by (unfold ids; by apply len_pairs).
  pose proof (r_bounds _ _ R) as (_ & _ & B3). pose proof (p_bounds _ _ _ _ _ _ P) as (_ & _ & P3).
  induction 1 as [|id l Hid Hl IH]; [done|]. simpl. unfold live_part in *. rewrite filter_cons.
  destruct (decide (NameStore.live ns id)) as [Hlive|Hd].
  - destruct (moved_kept _ _ _ _ _ _ P Hlive Hid) as [Hk Hr]. rewrite Hr. simpl. rewrite IH. simpl.
    apply getN_lt in Hk. by rewrite (proj2 (N.eqb_neq _ _)) by lia.
  - rewrite (p_remap_nil _ _ _ _ _ _ P) by (try done; by intros [_ ?]%(p_kept _ _ _ _ _ _ P)). simpl.
    by rewrite IH.
Qed.

Lemma view_installed ns gs kept ks c ord un T st id :
  repr ns gs -> plan_ok ns gs (ids ns) kept ks c -> repr (installed c ord un T st) ks -> NameStore.live ns id ->
  view (installed c ord un T st) (moved c id) = view ns id.
Proof.
  intros R P R' Hl. assert (Hid : id < ids ns) by (apply live_lt; [by exists gs|done]).
  destruct (moved_kept _ _ _ _ _ _ P Hl Hid) as [Hk _]. pose proof Hk as Hk'. unfold getN in Hk'.
  destruct (Forall2_lookup_l _ _ _ _ _ (p_slots _ _ _ _ _ _ P) Hk') as (g & Hg & Hgs).
  pose proof Hl as (rc & Hrc & _). destruct (getN_is_Some id (head ns)) as [h Hh].
  { rewrite (r_head _ _ R). by eapply getN_lt. }
  rewrite (view_slot _ _ _ _ _ _ R Hgs Hrc Hh). eapply view_slot; [exact R'|exact Hg| |].
  - unfold refcount_of, installed. simpl. rewrite (p_refcount _ _ _ _ _ _ P). unfold getN at 1.
    rewrite list_lookup_fmap, Hk'. simpl. unfold refcount_of in Hrc. by rewrite Hrc.
  - unfold chain_head, installed. simpl. rewrite (p_head _ _ _ _ _ _ P). unfold getN at 1.
    rewrite list_lookup_fmap, Hk'. simpl. by rewrite Hh.
Qed.
End install.

Lemma Sorted_fmap_mono {A B} (R : relation A) (R' : relation B) (f : A -> B) l :
  (forall x y, x ∈ l -> y ∈ l -> R x y -> R' (f x) (f y)) -> Sorted R l -> Sorted R' (f <$> l).
Proof.
  intros Hf Hs. induction Hs as [|x l Hs IH Hx]; [constructor|]. rewrite fmap_cons. constructor.
  - apply IH. intros y z Hy Hz. apply Hf; by right.
  - destruct Hx as [|y l Hxy]; constructor. apply Hf; [left|right; left|done].
Qed.

Section install_spec.
Context {U : Unicode} {H : Hasher}.
Implicit Types (ns : NameStore) (gs ks : list Slot).

Lemma moved_mono ns gs kept ks c a b :
  plan_ok ns gs (ids ns) kept ks c -> NameStore.live ns a -> NameStore.live ns b -> a < ids ns -> b < ids ns ->
  a <= b -> moved c a <= moved c b.
Proof.
  intros P Ha Hb Hla Hlb Hab. destruct (moved_kept _ _ _ _ _ _ P Ha Hla) as [Ka _].
  destruct (moved_kept _ _ _ _ _ _ P Hb Hlb) as [Kb _].
  destruct (N.le_gt_cases (moved c a) (moved c b)) as [|Hgt]; [done|].
  pose proof (p_mono _ _ _ _ _ _ P _ _ _ _ Kb Ka Hgt). lia.
Qed.

Lemma moved_inj ns gs kept ks c a b :
  plan_ok ns gs (ids ns) kept ks c -> NameStore.live ns a -> NameStore.live ns b -> a < ids ns -> b < ids ns ->
  moved c a = moved c b -> a = b.
Proof.
  intros P Ha Hb Hla Hlb E. destruct (moved_kept _ _ _ _ _ _ P Ha Hla) as [Ka _].
  destruct (moved_kept _ _ _ _ _ _ P Hb Hlb) as [Kb _]. rewrite E in Ka. congruence.
Qed.

Lemma NoDup_moved ns gs kept ks c l :
  ns_ok ns -> plan_ok ns gs (ids ns) kept ks c -> Forall (NameStore.live ns) l -> NoDup l -> NoDup (moved c <$> l).
Proof.
  intros Hok P Hl. induction 1 as [|x l Hni Hnd IH]; [constructor|]. apply Forall_cons_1 in Hl as [Hx Hl].
  rewrite fmap_cons. constructor; [|by apply IH]. intros (y & E & Hy)%list_elem_of_fmap.
  rewrite Forall_forall in Hl. assert (x = y) as <-; [|done].
  eapply (moved_inj ns gs kept ks c); try done; try (by apply live_lt); auto. apply live_lt; auto.
Qed.

Lemma all_ids_moved ns gs kept ks c ord un T st :
  ns_ok ns -> repr ns gs -> plan_ok ns gs (ids ns) kept ks c ->
  moved c <$> live_part ns (all_ids ns) ≡ₚ all_ids (installed c ord un T st).
Proof.
  intros Hok R P. apply NoDup_Permutation.
  - eapply NoDup_moved; try done; [|apply NoDup_filter, NoDup_all_ids].
    apply Forall_forall. by intros id [? _]%elem_of_live_part.
  - apply NoDup_all_ids.
  - assert (Hk : ids (installed c ord un T st) = len kept).
    { unfold ids, installed. simpl. rewrite (p_pairs _ _ _ _ _ _ P), (len_kept _ _ _ _ _ _ P). unfold len.
      by rewrite length_imap. }
    intros n. rewrite elem_of_all_ids, Hk, list_elem_of_fmap. split.
    + intros (id & -> & [Hl Hid%elem_of_all_ids]%elem_of_live_part).
      destruct (moved_kept _ _ _ _ _ _ P Hl Hid) as [?%getN_lt _]. done.
    + intros Hn. destruct (getN_is_Some n kept Hn) as [id Hid]. exists id.
      assert (Hin : id ∈ kept) by (by eapply list_elem_of_lookup_2). apply (p_kept _ _ _ _ _ _ P) in Hin as [? ?].
      split; [unfold moved; by rewrite (p_remap _ _ _ _ _ _ P _ _ Hid)|].
      apply elem_of_live_part. by rewrite elem_of_all_ids.
Qed.

(** The store between installation and ranking. *)
Definition staged ns c ks : NameStore :=
  installed c (moved c <$> live_part ns (order ns)) (moved c <$> live_part ns (unranked ns))
    (reverse (table_of ks)) (settled ns).

Lemma install_compacted_eq ns gs kept ks c :
  ns_ok ns -> repr ns gs -> order_ok ns -> plan_ok ns gs (ids ns) kept ks c ->
  install_compacted c ns = '(_, ns3) ← rerank (staged ns c ks); Some (k_remap c, ns3).
Proof.
  intros Hok R Ho P. unfold install_compacted.
  rewrite (renumber_spec ns gs kept ks c (order ns)) by (done || apply (o_order_range _ Ho)). simpl.
  rewrite (renumber_spec ns gs kept ks c (unranked ns)) by (done || apply (o_unranked_range _ Ho)). simpl.
  pose proof (repr_installed ns gs kept ks c (moved c <$> live_part ns (order ns))
    (moved c <$> live_part ns (unranked ns)) (settled ns) R P) as R'.
  rewrite (rebuild_table_spec _ ks).
  - simpl. rewrite app_nil_r. unfold all_ids. simpl.
    assert (Hl : length (k_pairs c) = length ks) by (rewrite (p_pairs _ _ _ _ _ _ P); by rewrite length_imap).
    unfold staged. by rewrite <- table_of_ids, <- Hl.
  - intros id g Hg. exact (raw_bytes_slot _ _ _ _ R' Hg).
  - apply Forall_forall. intros id Hid%elem_of_all_ids. unfold ids in Hid. simpl in Hid.
    rewrite (p_pairs _ _ _ _ _ _ P) in Hid. unfold len in *. by rewrite length_imap in Hid.
Qed.

Lemma staged_ranked ns gs kept ks c :
  ns_ok ns -> repr ns gs -> order_ok ns -> plan_ok ns gs (ids ns) kept ks c ->
  exists rk, rerank (staged ns c ks) =
      Some (tt, with_order (order (staged ns c ks)) rk (unranked (staged ns c ks)) 0 (staged ns c ks)) /\
    len rk = ids (staged ns c ks) /\
    order_ok (with_order (order (staged ns c ks)) rk (unranked (staged ns c ks)) 0 (staged ns c ks)).
Proof.
  intros Hok R Ho P. set (ns2 := staged ns c ks).
  assert (R2 : repr ns2 ks) by (by apply repr_installed with ns gs kept).
  assert (Hok2 : ns_ok ns2) by (by exists ks).
  assert (HL : forall j, j < ids ns2 -> NameStore.live ns2 j).
  { intros j Hj. eapply live_installed; [exact P|]. unfold ids in Hj. by rewrite (len_pairs _ _ R2) in Hj. }
  assert (Hlp : Forall (NameStore.live ns) (live_part ns (order ns) ++ live_part ns (unranked ns))).
  { rewrite (o_partition _ Ho). apply Forall_forall. by intros id [? _]%elem_of_live_part. }
  assert (Hnd : NoDup (live_part ns (order ns) ++ live_part ns (unranked ns)))
    by (rewrite (o_partition _ Ho); apply NoDup_filter, NoDup_all_ids).
  assert (Hall : (order ns2 ++ unranked ns2) ≡ₚ all_ids ns2).
  { unfold ns2, staged. simpl. rewrite <- fmap_app, (o_partition _ Ho). by apply all_ids_moved with gs kept ks. }
  assert (Hall' : NoDup (order ns2 ++ unranked ns2)) by (rewrite Hall; apply NoDup_all_ids).
  assert (Hrange : Forall (fun id => id < ids ns2) (order ns2 ++ unranked ns2)) by (rewrite Hall; apply all_ids_range).
  apply Forall_app in Hrange as [Hro Hru].
  assert (Hfold : forall id, NameStore.live ns id -> fold_of ns2 (moved c id) = fold_of ns id).
  { intros id Hl. pose proof (view_installed ns gs kept ks c _ _ _ _ id R P R2 Hl) as Hv.
    destruct (live_view _ _ Hok Hl) as (v & Hv' & _). rewrite Hv' in Hv.
    destruct (view_inv _ _ _ _ R Hv') as (g & Hg & _ & E & _). destruct (view_inv _ _ _ _ R2 Hv) as (g' & Hg' & _ & E' & _).
    unfold fold_of. rewrite (folded_bytes_slot _ _ _ _ R Hg), (folded_bytes_slot _ _ _ _ R2 Hg'). simpl. congruence. }
  assert (Hlen : len (order ns2) <= ids ns2).
  { assert (Hl : length (order ns2 ++ unranked ns2) = length (all_ids ns2)) by (by rewrite Hall).
    rewrite length_app in Hl. unfold all_ids in Hl. rewrite length_fmap, length_seq in Hl. unfold ids, len. lia. }
  pose proof (ids_bound _ Hok2) as Hb.
  assert (Hsort : Sorted key_le (key_of ns2 <$> order ns2)).
  { unfold ns2 at 2, staged. simpl. rewrite <- list_fmap_compose.
    assert (E : (key_of ns2 ∘ moved c) <$> live_part ns (order ns) =
                (fun k : list N * N => (k.1, moved c k.2)) <$> (key_of ns <$> live_part ns (order ns))).
    { rewrite <- list_fmap_compose. apply list_fmap_ext. intros i id Hi%list_elem_of_lookup_2.
      apply elem_of_live_part in Hi as [Hi _]. unfold key_of, compose. simpl. by rewrite Hfold. }
    rewrite E. apply Sorted_fmap_mono with key_le; [|apply (o_sorted _ Ho)].
    intros x y (a & -> & [Ha _]%elem_of_live_part)%list_elem_of_fmap (b & -> & [Hb' _]%elem_of_live_part)%list_elem_of_fmap.
    unfold key_le, key_cmp. simpl. destruct (bytes_cmp _ _); try done. rewrite !N.compare_gt_iff.
    intros Hab Hgt. pose proof (moved_mono ns gs kept ks c a b P Ha Hb' (live_lt _ _ Hok Ha) (live_lt _ _ Hok Hb')). lia. }
  destruct (rerank_spec ns2) as (rk & E & Hrk & Hr & Hun); try done.
  { eapply Forall_impl; [exact Hro|]. auto. }
  { by apply NoDup_app in Hall' as (? & _ & _). }
  { lia. }
  { by apply rank_len. }
  exists rk. split; [exact E|]. split; [by rewrite Hrk, rank_len|].
  assert (HLP : forall l, Forall (fun id => id < ids ns2) l -> live_part ns2 l = l).
  { intros l Hl. apply live_part_all. eapply Forall_impl; [exact Hl|]. auto. }
  split; simpl; try done.
  - change (Sorted key_le (key_of ns2 <$> live_part ns2 (order ns2))). by rewrite HLP.
  - change (live_part ns2 (order ns2) ++ live_part ns2 (unranked ns2) ≡ₚ live_part ns2 (all_ids ns2)).
    by rewrite !HLP by (done || apply all_ids_range).
  - intros id Hin. rewrite Forall_forall in Hru. apply Hun; [by apply Hru|]. apply NoDup_app in Hall' as (_ & Hd & _).
    intros Hin'. by apply (Hd id).
  - apply (ranks_from_first ns2); try done. lia.
Qed.
End install_spec.

Section compaction_spec.
Context {U : Unicode} {H : Hasher}.
Implicit Types (ns : NameStore).

(** What the rest of the index relies on. *)
Definition compaction_post ns (remap : list N) ns' : Prop :=
  ns_ok ns' /\ order_ok ns' /\ garbage ns' = 0 /\ len remap = ids ns /\
  (forall id, NameStore.live ns id ->
     exists id', getN id remap = Some id' /\ id' <> NIL /\ view ns' id' = view ns id) /\
  (forall id, id < ids ns -> ~ NameStore.live ns id -> getN id remap = Some NIL) /\
  (forall a b n, getN a remap = Some n -> getN b remap = Some n -> n <> NIL -> a = b) /\
  (forall id', id' < ids ns' -> exists id, NameStore.live ns id /\ getN id remap = Some id').

Lemma compaction_spec ns :
  ns_ok ns -> order_ok ns ->
  exists c remap ns', plan_compact ns = Some c /\ install_compacted c ns = Some (remap, ns') /\
    compaction_post ns remap ns'.
Proof.
  intros Hok Ho. pose proof Hok as [gs R]. destruct (plan_compact_spec ns gs R) as (kept & ks & c & E & P).
  destruct (staged_ranked ns gs kept ks c Hok R Ho P) as (rk & E' & Hrk & Ho').
  assert (R2 : repr (staged ns c ks) ks) by (by apply repr_installed with ns gs kept).
  set (ns' := with_order (order (staged ns c ks)) rk (unranked (staged ns c ks)) 0 (staged ns c ks)).
  exists c, (k_remap c), ns'. split; [done|]. split.
  { rewrite (install_compacted_eq ns gs kept ks c) by done. by rewrite E'. }
  assert (Hok' : ns_ok ns') by (apply ns_ok_with_order; [by exists ks|done]).
  assert (Hnil : forall id, NameStore.live ns id -> moved c id <> NIL).
  { intros id Hl. destruct (moved_kept _ _ _ _ _ _ P Hl (live_lt _ _ Hok Hl)) as [Hk%getN_lt _].
    pose proof (p_bounds _ _ _ _ _ _ P) as (_ & _ & ?). pose proof (ids_bound _ Hok). unfold NIL. lia. }
  split; [done|]. split; [exact Ho'|]. split; [done|]. split; [apply (p_remap_len _ _ _ _ _ _ P)|]. split_and!.
  - intros id Hl. exists (moved c id). destruct (moved_kept _ _ _ _ _ _ P Hl (live_lt _ _ Hok Hl)) as [_ Hr].
    split_and!; [done|by apply Hnil|]. rewrite <- (view_installed ns gs kept ks c _ _ _ _ id R P R2 Hl). done.
  - intros id Hid Hd. apply (p_remap_nil _ _ _ _ _ _ P); [done|]. by intros [_ ?]%(p_kept _ _ _ _ _ _ P).
  - assert (Hl : forall a n, getN a (k_remap c) = Some n -> n <> NIL -> NameStore.live ns a /\ a < ids ns).
    { intros a n Ha Hn. assert (Hlt : a < ids ns) by (rewrite <- (p_remap_len _ _ _ _ _ _ P); by eapply getN_lt).
      destruct (decide (NameStore.live ns a)) as [|Hd]; [done|]. exfalso.
      rewrite (p_remap_nil _ _ _ _ _ _ P) in Ha by (try done; by intros [_ ?]%(p_kept _ _ _ _ _ _ P)). congruence. }
    intros a b n Ha Hb Hn. destruct (Hl _ _ Ha Hn). destruct (Hl _ _ Hb Hn).
    eapply (moved_inj ns gs kept ks c); try done. unfold moved. by rewrite Ha, Hb.
  - intros id' Hid'. assert (Hin : id' ∈ all_ids ns') by (by apply elem_of_all_ids).
    change (id' ∈ all_ids (staged ns c ks)) in Hin. unfold staged in Hin.
    rewrite <- (all_ids_moved ns gs kept ks c _ _ _ _ Hok R P) in Hin.
    apply list_elem_of_fmap in Hin as (id & -> & [Hl _]%elem_of_live_part). exists id. split; [done|].
    by destruct (moved_kept _ _ _ _ _ _ P Hl (live_lt _ _ Hok Hl)) as [_ Hr].
Qed.

Lemma compaction_run ns c remap ns' :
  ns_ok ns -> order_ok ns -> plan_compact ns = Some c -> install_compacted c ns = Some (remap, ns') ->
  compaction_post ns remap ns'.
Proof.
  intros Hok Ho E E'. destruct (compaction_spec ns Hok Ho) as (c0 & r0 & n0 & F & F' & Hpost). congruence.
Qed.
End compaction_spec.

(** Compaction loses nothing and mixes nothing up: planning and installing
    succeed; every live name gets a new id under which its bytes, folded bytes,
    reference count and chain head are unchanged; dead names map to the
    sentinel; distinct live names keep distinct ids; no id of the new store is
    anything else; the order is still correct; and no garbage is left. *)
Theorem compaction_correct `{Unicode, Hasher} ns :
  ns_ok ns -> order_ok ns ->
  exists c remap ns', plan_compact ns = Some c /\ install_compacted c ns = Some (remap, ns') /\
    ns_ok ns' /\ order_ok ns' /\ garbage ns' = 0 /\
    (forall id, NameStore.live ns id ->
       exists id', getN id remap = Some id' /\ id' <> NIL /\ view ns' id' = view ns id) /\
    (forall id, id < ids ns -> ~ NameStore.live ns id -> getN id remap = Some NIL) /\
    (forall a b n, getN a remap = Some n -> getN b remap = Some n -> n <> NIL -> a = b) /\
    (forall id', id' < ids ns' -> exists id, NameStore.live ns id /\ getN id remap = Some id').
Proof.
  intros Hok Ho. destruct (compaction_spec ns Hok Ho) as (c & remap & ns' & E & E' & Hpost).
  exists c, remap, ns'. split; [done|]. split; [done|]. unfold compaction_post in Hpost. tauto.
Qed.

(** *** Witnesses, on the store holding "A" and "b" *)

#[local] Existing Instance one_bucket.

Lemma order_ok_empty `{Unicode, Hasher} : order_ok empty_store.
Proof.
  split; try constructor; simpl; try done. intros id Hin. by apply not_elem_of_nil in Hin.
Qed.

Lemma store_a_order : order_ok store_a.
Proof.
  apply (order_ok_intern [0x41] empty_store 0); [exact ns_ok_empty|exact order_ok_empty|
    apply room_small; vm_compute; done|vm_compute; reflexivity].
Qed.

Lemma store_ab_order : order_ok store_ab.
Proof.
  apply (order_ok_intern [0x62] store_a 1); [exact store_a_ok|exact store_a_order|
    apply room_small; vm_compute; done|vm_compute; reflexivity].
Qed.

Lemma rank_key_orders_witness :
  ns_ok store_ab /\ order_ok store_ab /\ NameStore.live store_ab 0 /\ NameStore.live store_ab 1 /\
  exists ka kb, rank_key store_ab 0 = Some ka /\ rank_key store_ab 1 = Some kb.
Proof.
  assert (L0 : NameStore.live store_ab 0) by (exists 1; split; [reflexivity|lia]).
  assert (L1 : NameStore.live store_ab 1) by (exists 1; split; [reflexivity|lia]).
  split; [exact store_ab_ok|]. split; [exact store_ab_order|]. split; [exact L0|]. split; [exact L1|].
  destruct (rank_key_orders store_ab 0 1 store_ab_ok store_ab_order L0 L1) as (ka & kb & Ea & Eb & _).
  exists ka, kb. split; [exact Ea|exact Eb].
Defined.

Lemma merge_is_resort_witness :
  ns_ok store_ab /\ order_ok store_ab /\
  exists ns', merge_unranked store_ab = Some (tt, ns') /\ build_order store_ab = Some (tt, ns').
Proof.
  split; [exact store_ab_ok|]. split; [exact store_ab_order|].
  destruct (merge_is_resort store_ab store_ab_ok store_ab_order) as (ns' & E & E' & _).
  exists ns'. split; [exact E|exact E'].
Defined.

Lemma compaction_correct_witness :
  ns_ok store_ab /\ order_ok store_ab /\
  exists c remap ns', plan_compact store_ab = Some c /\ install_compacted c store_ab = Some (remap, ns').
Proof.
  split; [exact store_ab_ok|]. split; [exact store_ab_order|].
  destruct (compaction_correct store_ab store_ab_ok store_ab_order) as (c & remap & ns' & E & E' & _).
  exists c, remap, ns'. split; [exact E|exact E'].
Defined.

(** The rank of a name is not always "the position of the first live id with
    the same folded bytes": once "A" is released, "a" keeps the rank 0 its
    group had, although the first live id of the group is now at position 1.
    [rank_key_orders] holds all the same. *)
Definition aA_ranked : NameStore := Eval vm_compute in
  default empty_store ('(_, ns) ← intern [0x61] store_a; '(_, ns) ← build_order ns; Some ns).
Definition aA_released : NameStore := Eval vm_compute in default empty_store (snd <$> release 0 aA_ranked).

Lemma rank_outlives_group_head :
  order aA_ranked = [0; 1] /\ release 0 aA_ranked = Some (tt, aA_released) /\
  getN 1 (rank_of aA_released) = Some 0 /\ first_live_at aA_released 0 = Some (Some 1) /\
  folded_at aA_released 1 = folded_bytes_of aA_released 1.
Proof. repeat split; vm_compute; reflexivity. Qed.
