(* ===== verification/EntryTable.v ===== *)
(** The struct-of-arrays entry table: [EntryFlags] and [EntryTable] of
    [crates/goz-core/src/index/store.rs].

    A column is a list; the table is the source's twelve columns, the free list
    and the live count.  Reading or writing past the end of a column panics in
    the source and is [None] here.  The free list is the source's [Vec] read
    from its end: its head is the slot [pop] takes.  Buffer capacities
    ([make_room], [shrink_with_headroom]) are allocation policy and only the
    [settled] flag of them is kept. *)

From stdpp Require Import base option list.
From Stdlib Require Import NArith ZArith Lia.
From S2P Require Import Prelude Types.

(** ** Flags *)

Definition DIR : N := N.shiftl 1 0.
Definition TOMBSTONE : N := N.shiftl 1 1.
Definition LOST_FOUND : N := N.shiftl 1 2.
Definition PLACEHOLDER : N := N.shiftl 1 3.
Definition NON_UNICODE_NAME : N := N.shiftl 1 4.
Definition EMPTY : N := 0.

Definition contains (f other : N) : bool := N.land f other =? other.
(** [with]: sets or clears the bits of [other]. *)
Definition with_flag (f other : N) (on : bool) : N :=
  if on then N.lor f other else N.land f (N.lxor u8_max other).

Definition SIZE_UNKNOWN : N := u64_max.
Definition MTIME_UNKNOWN : Z := i64_min.

(** ** The table *)

Record EntryTable := {
  c_frn : list N;
  c_parent : list N;
  c_name_id : list N;
  c_flags : list N;
  c_size : list N;
  c_mtime : list Z;
  c_next_link : list N;
  c_next_same : list N;
  c_prev_same : list N;
  c_first_child : list N;
  c_next_child : list N;
  c_prev_child : list N;
  free : list N;
  live_count : N;
  tsettled : bool
}.

Definition empty_table : EntryTable :=
  {| c_frn := []; c_parent := []; c_name_id := []; c_flags := []; c_size := []; c_mtime := []; c_next_link := []; c_next_same := []; c_prev_same := []; c_first_child := []; c_next_child := []; c_prev_child := [];
     free := []; live_count := 0; tsettled := false |}.

(** Column replacement. *)
Definition with_frn (v : list N) (t : EntryTable) : EntryTable :=
  {| c_frn := v; c_parent := c_parent t; c_name_id := c_name_id t; c_flags := c_flags t; c_size := c_size t;
     c_mtime := c_mtime t; c_next_link := c_next_link t; c_next_same := c_next_same t;
     c_prev_same := c_prev_same t; c_first_child := c_first_child t; c_next_child := c_next_child t;
     c_prev_child := c_prev_child t; free := free t; live_count := live_count t; tsettled := tsettled t |}.
Definition with_parent (v : list N) (t : EntryTable) : EntryTable :=
  {| c_frn := c_frn t; c_parent := v; c_name_id := c_name_id t; c_flags := c_flags t; c_size := c_size t;
     c_mtime := c_mtime t; c_next_link := c_next_link t; c_next_same := c_next_same t;
     c_prev_same := c_prev_same t; c_first_child := c_first_child t; c_next_child := c_next_child t;
     c_prev_child := c_prev_child t; free := free t; live_count := live_count t; tsettled := tsettled t |}.
Definition with_name_id (v : list N) (t : EntryTable) : EntryTable :=
  {| c_frn := c_frn t; c_parent := c_parent t; c_name_id := v; c_flags := c_flags t; c_size := c_size t;
     c_mtime := c_mtime t; c_next_link := c_next_link t; c_next_same := c_next_same t;
     c_prev_same := c_prev_same t; c_first_child := c_first_child t; c_next_child := c_next_child t;
     c_prev_child := c_prev_child t; free := free t; live_count := live_count t; tsettled := tsettled t |}.
Definition with_flags (v : list N) (t : EntryTable) : EntryTable :=
  {| c_frn := c_frn t; c_parent := c_parent t; c_name_id := c_name_id t; c_flags := v; c_size := c_size t;
     c_mtime := c_mtime t; c_next_link := c_next_link t; c_next_same := c_next_same t;
     c_prev_same := c_prev_same t; c_first_child := c_first_child t; c_next_child := c_next_child t;
     c_prev_child := c_prev_child t; free := free t; live_count := live_count t; tsettled := tsettled t |}.
Definition with_size (v : list N) (t : EntryTable) : EntryTable :=
  {| c_frn := c_frn t; c_parent := c_parent t; c_name_id := c_name_id t; c_flags := c_flags t; c_size := v;
     c_mtime := c_mtime t; c_next_link := c_next_link t; c_next_same := c_next_same t;
     c_prev_same := c_prev_same t; c_first_child := c_first_child t; c_next_child := c_next_child t;
     c_prev_child := c_prev_child t; free := free t; live_count := live_count t; tsettled := tsettled t |}.
Definition with_mtime (v : list Z) (t : EntryTable) : EntryTable :=
  {| c_frn := c_frn t; c_parent := c_parent t; c_name_id := c_name_id t; c_flags := c_flags t;
     c_size := c_size t; c_mtime := v; c_next_link := c_next_link t; c_next_same := c_next_same t;
     c_prev_same := c_prev_same t; c_first_child := c_first_child t; c_next_child := c_next_child t;
     c_prev_child := c_prev_child t; free := free t; live_count := live_count t; tsettled := tsettled t |}.
Definition with_next_link (v : list N) (t : EntryTable) : EntryTable :=
  {| c_frn := c_frn t; c_parent := c_parent t; c_name_id := c_name_id t; c_flags := c_flags t;
     c_size := c_size t; c_mtime := c_mtime t; c_next_link := v; c_next_same := c_next_same t;
     c_prev_same := c_prev_same t; c_first_child := c_first_child t; c_next_child := c_next_child t;
     c_prev_child := c_prev_child t; free := free t; live_count := live_count t; tsettled := tsettled t |}.
Definition with_next_same (v : list N) (t : EntryTable) : EntryTable :=
  {| c_frn := c_frn t; c_parent := c_parent t; c_name_id := c_name_id t; c_flags := c_flags t;
     c_size := c_size t; c_mtime := c_mtime t; c_next_link := c_next_link t; c_next_same := v;
     c_prev_same := c_prev_same t; c_first_child := c_first_child t; c_next_child := c_next_child t;
     c_prev_child := c_prev_child t; free := free t; live_count := live_count t; tsettled := tsettled t |}.
Definition with_prev_same (v : list N) (t : EntryTable) : EntryTable :=
  {| c_frn := c_frn t; c_parent := c_parent t; c_name_id := c_name_id t; c_flags := c_flags t;
     c_size := c_size t; c_mtime := c_mtime t; c_next_link := c_next_link t; c_next_same := c_next_same t;
     c_prev_same := v; c_first_child := c_first_child t; c_next_child := c_next_child t;
     c_prev_child := c_prev_child t; free := free t; live_count := live_count t; tsettled := tsettled t |}.
Definition with_first_child (v : list N) (t : EntryTable) : EntryTable :=
  {| c_frn := c_frn t; c_parent := c_parent t; c_name_id := c_name_id t; c_flags := c_flags t;
     c_size := c_size t; c_mtime := c_mtime t; c_next_link := c_next_link t; c_next_same := c_next_same t;
     c_prev_same := c_prev_same t; c_first_child := v; c_next_child := c_next_child t;
     c_prev_child := c_prev_child t; free := free t; live_count := live_count t; tsettled := tsettled t |}.
Definition with_next_child (v : list N) (t : EntryTable) : EntryTable :=
  {| c_frn := c_frn t; c_parent := c_parent t; c_name_id := c_name_id t; c_flags := c_flags t;
     c_size := c_size t; c_mtime := c_mtime t; c_next_link := c_next_link t; c_next_same := c_next_same t;
     c_prev_same := c_prev_same t; c_first_child := c_first_child t; c_next_child := v;
     c_prev_child := c_prev_child t; free := free t; live_count := live_count t; tsettled := tsettled t |}.
Definition with_prev_child (v : list N) (t : EntryTable) : EntryTable :=
  {| c_frn := c_frn t; c_parent := c_parent t; c_name_id := c_name_id t; c_flags := c_flags t;
     c_size := c_size t; c_mtime := c_mtime t; c_next_link := c_next_link t; c_next_same := c_next_same t;
     c_prev_same := c_prev_same t; c_first_child := c_first_child t; c_next_child := c_next_child t;
     c_prev_child := v; free := free t; live_count := live_count t; tsettled := tsettled t |}.
Definition with_free (fr : list N) (n : N) (t : EntryTable) : EntryTable :=
  {| c_frn := c_frn t; c_parent := c_parent t; c_name_id := c_name_id t; c_flags := c_flags t;
     c_size := c_size t; c_mtime := c_mtime t; c_next_link := c_next_link t; c_next_same := c_next_same t;
     c_prev_same := c_prev_same t; c_first_child := c_first_child t; c_next_child := c_next_child t;
     c_prev_child := c_prev_child t; free := fr; live_count := n; tsettled := tsettled t |}.
Definition with_tsettled (v : bool) (t : EntryTable) : EntryTable :=
  {| c_frn := c_frn t; c_parent := c_parent t; c_name_id := c_name_id t; c_flags := c_flags t;
     c_size := c_size t; c_mtime := c_mtime t; c_next_link := c_next_link t; c_next_same := c_next_same t;
     c_prev_same := c_prev_same t; c_first_child := c_first_child t; c_next_child := c_next_child t;
     c_prev_child := c_prev_child t; free := free t; live_count := live_count t; tsettled := v |}.

(** ** Column reads and writes *)

Definition frn (idx : EntryIdx) : ST EntryTable N := st_read (fun t => getN idx (c_frn t)).
Definition parent (idx : EntryIdx) : ST EntryTable N := st_read (fun t => getN idx (c_parent t)).
Definition name_id (idx : EntryIdx) : ST EntryTable N := st_read (fun t => getN idx (c_name_id t)).
Definition flags (idx : EntryIdx) : ST EntryTable N := st_read (fun t => getN idx (c_flags t)).
Definition size (idx : EntryIdx) : ST EntryTable N := st_read (fun t => getN idx (c_size t)).
Definition mtime (idx : EntryIdx) : ST EntryTable Z := st_read (fun t => getN idx (c_mtime t)).
Definition next_link (idx : EntryIdx) : ST EntryTable N := st_read (fun t => getN idx (c_next_link t)).
Definition next_same (idx : EntryIdx) : ST EntryTable N := st_read (fun t => getN idx (c_next_same t)).
Definition prev_same (idx : EntryIdx) : ST EntryTable N := st_read (fun t => getN idx (c_prev_same t)).
Definition first_child (idx : EntryIdx) : ST EntryTable N := st_read (fun t => getN idx (c_first_child t)).
Definition next_child (idx : EntryIdx) : ST EntryTable N := st_read (fun t => getN idx (c_next_child t)).
Definition prev_child (idx : EntryIdx) : ST EntryTable N := st_read (fun t => getN idx (c_prev_child t)).

Definition set_parent (idx : EntryIdx) (v : N) : ST EntryTable unit :=
  st_update (fun t => col ← setN idx v (c_parent t); Some (with_parent col t)).
Definition set_name_id (idx : EntryIdx) (v : N) : ST EntryTable unit :=
  st_update (fun t => col ← setN idx v (c_name_id t); Some (with_name_id col t)).
Definition set_flags (idx : EntryIdx) (v : N) : ST EntryTable unit :=
  st_update (fun t => col ← setN idx v (c_flags t); Some (with_flags col t)).
Definition set_size (idx : EntryIdx) (v : N) : ST EntryTable unit :=
  st_update (fun t => col ← setN idx v (c_size t); Some (with_size col t)).
Definition set_mtime (idx : EntryIdx) (v : Z) : ST EntryTable unit :=
  st_update (fun t => col ← setN idx v (c_mtime t); Some (with_mtime col t)).
Definition set_next_link (idx : EntryIdx) (v : N) : ST EntryTable unit :=
  st_update (fun t => col ← setN idx v (c_next_link t); Some (with_next_link col t)).
Definition set_next_same (idx : EntryIdx) (v : N) : ST EntryTable unit :=
  st_update (fun t => col ← setN idx v (c_next_same t); Some (with_next_same col t)).
Definition set_prev_same (idx : EntryIdx) (v : N) : ST EntryTable unit :=
  st_update (fun t => col ← setN idx v (c_prev_same t); Some (with_prev_same col t)).
Definition set_first_child (idx : EntryIdx) (v : N) : ST EntryTable unit :=
  st_update (fun t => col ← setN idx v (c_first_child t); Some (with_first_child col t)).
Definition set_next_child (idx : EntryIdx) (v : N) : ST EntryTable unit :=
  st_update (fun t => col ← setN idx v (c_next_child t); Some (with_next_child col t)).
Definition set_prev_child (idx : EntryIdx) (v : N) : ST EntryTable unit :=
  st_update (fun t => col ← setN idx v (c_prev_child t); Some (with_prev_child col t)).

Definition is_tombstone (idx : EntryIdx) : ST EntryTable bool :=
  f <- flags idx ;; st_ret (contains f TOMBSTONE).
Definition live (t : EntryTable) : N := live_count t.
Definition capacity (t : EntryTable) : N := len (c_frn t).

(** ** Allocation *)

(** Overwrites every column of a reused slot. *)
Definition reuse_slot (idx fr par name fl sz : N) (mt : Z) (nl : N) (t : EntryTable) : option EntryTable :=
  a ← setN idx fr (c_frn t); b ← setN idx par (c_parent t); c ← setN idx name (c_name_id t);
  d ← setN idx fl (c_flags t); e ← setN idx sz (c_size t); f ← setN idx mt (c_mtime t);
  g ← setN idx nl (c_next_link t); h ← setN idx NIL (c_next_same t); i ← setN idx NIL (c_prev_same t);
  j ← setN idx NIL (c_first_child t); k ← setN idx NIL (c_next_child t); l ← setN idx NIL (c_prev_child t);
  Some {| c_frn := a; c_parent := b; c_name_id := c; c_flags := d; c_size := e; c_mtime := f;
          c_next_link := g; c_next_same := h; c_prev_same := i; c_first_child := j; c_next_child := k;
          c_prev_child := l; free := free t; live_count := live_count t; tsettled := tsettled t |}.

(** Appends a slot to every column. *)
Definition push_slot (fr par name fl sz : N) (mt : Z) (nl : N) (t : EntryTable) : EntryTable :=
  {| c_frn := c_frn t ++ [fr]; c_parent := c_parent t ++ [par]; c_name_id := c_name_id t ++ [name];
     c_flags := c_flags t ++ [fl]; c_size := c_size t ++ [sz]; c_mtime := c_mtime t ++ [mt];
     c_next_link := c_next_link t ++ [nl]; c_next_same := c_next_same t ++ [NIL];
     c_prev_same := c_prev_same t ++ [NIL]; c_first_child := c_first_child t ++ [NIL];
     c_next_child := c_next_child t ++ [NIL]; c_prev_child := c_prev_child t ++ [NIL];
     free := free t; live_count := live_count t; tsettled := tsettled t |}.

Definition alloc (fr par name fl sz : N) (mt : Z) (nl : N) : ST EntryTable EntryIdx := fun t =>
  match free t with
  | idx :: rest =>
      t' ← reuse_slot idx fr par name fl sz mt nl (with_free rest (live_count t + 1) t);
      Some (idx, t')
  | [] =>
      Some (as_u32 (len (c_frn t)),
            push_slot fr par name fl sz mt nl (with_free [] (live_count t + 1) t))
  end.

Definition tombstone (idx : EntryIdx) : ST EntryTable unit :=
  set_flags idx TOMBSTONE ;;;
  set_parent idx NIL ;;;
  set_name_id idx NIL ;;;
  set_next_link idx NIL ;;;
  set_next_same idx NIL ;;;
  set_prev_same idx NIL ;;;
  set_first_child idx NIL ;;;
  set_next_child idx NIL ;;;
  set_prev_child idx NIL ;;;
  st_update (fun t => if live_count t =? 0 then None
                      else Some (with_free (idx :: free t) (live_count t - 1) t)).

(** [iter_live]. *)
Definition iter_live (t : EntryTable) : list EntryIdx :=
  filter (fun i => default false (negb <$> ((fun f => contains f TOMBSTONE) <$> getN i (c_flags t))) = true)
         (N.of_nat <$> seq 0 (N.to_nat (capacity t))).

Definition shrink_with_headroom : ST EntryTable unit := st_modify (with_tsettled true).

(** ** What allocation and removal do to the columns *)

(** Column [c'] is [c] with slot [i] written, appended if it was the end. *)
Definition put {A} (i : N) (x : A) (c c' : list A) : Prop :=
  len c' = N.max (len c) (i + 1) /\ forall e, getN e c' = if decide (e = i) then Some x else getN e c.

Lemma put_insert {A} i (x : A) c : i < len c -> put i x c (<[N.to_nat i := x]> c).
Proof.
  intros Hi. split; [rewrite len_insert; lia|]. intros e. rewrite getN_insert by done.
  destruct (decide (i = e)), (decide (e = i)); congruence.
Qed.

Lemma put_snoc {A} (x : A) c i : i = len c -> put i x c (c ++ [x]).
Proof. intros ->. split; [len_solve|]. intros e. by rewrite getN_snoc. Qed.

(** Every column after an allocation at [i]. *)
Record allocated (i fr par name fl sz : N) (mt : Z) (nl : N) (t t' : EntryTable) : Prop := {
  al_frn : put i fr (c_frn t) (c_frn t');
  al_parent : put i par (c_parent t) (c_parent t');
  al_name_id : put i name (c_name_id t) (c_name_id t');
  al_flags : put i fl (c_flags t) (c_flags t');
  al_size : put i sz (c_size t) (c_size t');
  al_mtime : put i mt (c_mtime t) (c_mtime t');
  al_next_link : put i nl (c_next_link t) (c_next_link t');
  al_next_same : put i NIL (c_next_same t) (c_next_same t');
  al_prev_same : put i NIL (c_prev_same t) (c_prev_same t');
  al_first_child : put i NIL (c_first_child t) (c_first_child t');
  al_next_child : put i NIL (c_next_child t) (c_next_child t');
  al_prev_child : put i NIL (c_prev_child t) (c_prev_child t');
  al_live : live_count t' = live_count t + 1;
  al_free : free t = i :: free t' \/ (free t = [] /\ free t' = [] /\ i = len (c_frn t))
}.

(** All columns have the same length, below the sentinel. *)
Definition cols_ok (t : EntryTable) : Prop :=
  let n := len (c_frn t) in
  len (c_parent t) = n /\ len (c_name_id t) = n /\ len (c_flags t) = n /\ len (c_size t) = n /\
  len (c_mtime t) = n /\ len (c_next_link t) = n /\ len (c_next_same t) = n /\ len (c_prev_same t) = n /\
  len (c_first_child t) = n /\ len (c_next_child t) = n /\ len (c_prev_child t) = n /\ n <= NIL.

Lemma alloc_spec t fr par name fl sz mt nl :
  cols_ok t -> len (c_frn t) < NIL -> Forall (fun e => e < len (c_frn t)) (free t) ->
  exists i t', alloc fr par name fl sz mt nl t = Some (i, t') /\ allocated i fr par name fl sz mt nl t t'.
Proof.
  intros Hc Hcap Hfree. unfold cols_ok in Hc. unfold alloc. destruct (free t) as [|i rest] eqn:Ef.
  - exists (len (c_frn t)). eexists. unfold as_u32. rewrite N.mod_small by (unfold NIL, u32_max in *; lia).
    split; [reflexivity|]. split; simpl; try (apply put_snoc; lia); [done|right; done].
  - apply Forall_cons_1 in Hfree as [Hi _]. exists i. eexists. unfold reuse_slot, with_free. simpl.
    rewrite !setN_some by lia. simpl. split; [reflexivity|]. split; simpl; try (apply put_insert; lia); [done|by left].
Qed.

Lemma cols_ok_allocated i fr par name fl sz mt nl t t' :
  cols_ok t -> allocated i fr par name fl sz mt nl t t' -> i < NIL -> cols_ok t'.
Proof.
  unfold cols_ok. intros (L1 & L2 & L3 & L4 & L5 & L6 & L7 & L8 & L9 & L10 & L11 & Hn) A Hi.
  destruct A as [[-> _] [-> _] [-> _] [-> _] [-> _] [-> _] [-> _] [-> _] [-> _] [-> _] [-> _] [-> _] _ _].
  rewrite L1, L2, L3, L4, L5, L6, L7, L8, L9, L10, L11. split_and!; try done. lia.
Qed.

(** The table after a column write. *)
Definition put_flags (i x : N) (t : EntryTable) : EntryTable := with_flags (<[N.to_nat i := x]> (c_flags t)) t.
Definition put_parent (i x : N) (t : EntryTable) : EntryTable := with_parent (<[N.to_nat i := x]> (c_parent t)) t.
Definition put_name_id (i x : N) (t : EntryTable) : EntryTable := with_name_id (<[N.to_nat i := x]> (c_name_id t)) t.
Definition put_next_link (i x : N) (t : EntryTable) : EntryTable := with_next_link (<[N.to_nat i := x]> (c_next_link t)) t.
Definition put_next_same (i x : N) (t : EntryTable) : EntryTable := with_next_same (<[N.to_nat i := x]> (c_next_same t)) t.
Definition put_prev_same (i x : N) (t : EntryTable) : EntryTable := with_prev_same (<[N.to_nat i := x]> (c_prev_same t)) t.
Definition put_first_child (i x : N) (t : EntryTable) : EntryTable := with_first_child (<[N.to_nat i := x]> (c_first_child t)) t.
Definition put_next_child (i x : N) (t : EntryTable) : EntryTable := with_next_child (<[N.to_nat i := x]> (c_next_child t)) t.
Definition put_prev_child (i x : N) (t : EntryTable) : EntryTable := with_prev_child (<[N.to_nat i := x]> (c_prev_child t)) t.

(** The table after a slot is freed. *)
Definition freed_columns (i : N) (t : EntryTable) : EntryTable :=
  put_prev_child i NIL (put_next_child i NIL (put_first_child i NIL (put_prev_same i NIL (put_next_same i NIL (put_next_link i NIL (put_name_id i NIL (put_parent i NIL (put_flags i TOMBSTONE t)))))))).
Definition tombstoned (i : N) (t : EntryTable) : EntryTable :=
  with_free (i :: free t) (live_count t - 1) (freed_columns i t).

Lemma set_flags_then {B} i x (k : ST EntryTable B) t :
  i < len (c_flags t) -> (set_flags i x ;;; k) t = k (put_flags i x t).
Proof. intros Hi. unfold st_bind, set_flags, st_update. by rewrite setN_some. Qed.
Lemma set_parent_then {B} i x (k : ST EntryTable B) t :
  i < len (c_parent t) -> (set_parent i x ;;; k) t = k (put_parent i x t).
Proof. intros Hi. unfold st_bind, set_parent, st_update. by rewrite setN_some. Qed.
Lemma set_name_id_then {B} i x (k : ST EntryTable B) t :
  i < len (c_name_id t) -> (set_name_id i x ;;; k) t = k (put_name_id i x t).
Proof. intros Hi. unfold st_bind, set_name_id, st_update. by rewrite setN_some. Qed.
Lemma set_next_link_then {B} i x (k : ST EntryTable B) t :
  i < len (c_next_link t) -> (set_next_link i x ;;; k) t = k (put_next_link i x t).
Proof. intros Hi. unfold st_bind, set_next_link, st_update. by rewrite setN_some. Qed.
Lemma set_next_same_then {B} i x (k : ST EntryTable B) t :
  i < len (c_next_same t) -> (set_next_same i x ;;; k) t = k (put_next_same i x t).
Proof. intros Hi. unfold st_bind, set_next_same, st_update. by rewrite setN_some. Qed.
Lemma set_prev_same_then {B} i x (k : ST EntryTable B) t :
  i < len (c_prev_same t) -> (set_prev_same i x ;;; k) t = k (put_prev_same i x t).
Proof. intros Hi. unfold st_bind, set_prev_same, st_update. by rewrite setN_some. Qed.
Lemma set_first_child_then {B} i x (k : ST EntryTable B) t :
  i < len (c_first_child t) -> (set_first_child i x ;;; k) t = k (put_first_child i x t).
Proof. intros Hi. unfold st_bind, set_first_child, st_update. by rewrite setN_some. Qed.
Lemma set_next_child_then {B} i x (k : ST EntryTable B) t :
  i < len (c_next_child t) -> (set_next_child i x ;;; k) t = k (put_next_child i x t).
Proof. intros Hi. unfold st_bind, set_next_child, st_update. by rewrite setN_some. Qed.
Lemma set_prev_child_then {B} i x (k : ST EntryTable B) t :
  i < len (c_prev_child t) -> (set_prev_child i x ;;; k) t = k (put_prev_child i x t).
Proof. intros Hi. unfold st_bind, set_prev_child, st_update. by rewrite setN_some. Qed.

Lemma tombstone_spec i t :
  cols_ok t -> i < len (c_frn t) -> 0 < live_count t -> tombstone i t = Some (tt, tombstoned i t).
Proof.
  intros Hc Hi Hl. unfold cols_ok in Hc. destruct Hc as (L1 & L2 & L3 & _ & _ & L6 & L7 & L8 & L9 & L10 & L11 & _).
  unfold tombstone.
  rewrite set_flags_then by (rewrite L3; exact Hi).
  rewrite set_parent_then by (cbn; rewrite L1; exact Hi).
  rewrite set_name_id_then by (cbn; rewrite L2; exact Hi).
  rewrite set_next_link_then by (cbn; rewrite L6; exact Hi).
  rewrite set_next_same_then by (cbn; rewrite L7; exact Hi).
  rewrite set_prev_same_then by (cbn; rewrite L8; exact Hi).
  rewrite set_first_child_then by (cbn; rewrite L9; exact Hi).
  rewrite set_next_child_then by (cbn; rewrite L10; exact Hi).
  rewrite set_prev_child_then by (cbn; rewrite L11; exact Hi).
  fold (freed_columns i t). unfold st_update.
  change (live_count (freed_columns i t)) with (live_count t). change (free (freed_columns i t)) with (free t).
  by rewrite (proj2 (N.eqb_neq _ _)) by lia.
Qed.

(** ** Flags *)

Lemma contains_bit f k : contains f (2 ^ k) = N.testbit f k.
Proof.
  unfold contains. destruct (N.testbit f k) eqn:E.
  - apply N.eqb_eq. apply N.bits_inj. intros j. rewrite N.land_spec, N.pow2_bits_eqb.
    destruct (N.eqb_spec k j); [subst; by rewrite E|by rewrite andb_false_r].
  - apply N.eqb_neq. intros Heq. assert (Ht : N.testbit (N.land f (2 ^ k)) k = N.testbit (2 ^ k) k) by (by rewrite Heq).
    by rewrite N.land_spec, N.pow2_bits_true, E in Ht.
Qed.

Lemma with_flag_bit f k on j : k < 8 -> j < 8 ->
  N.testbit (with_flag f (2 ^ k) on) j = if j =? k then on else N.testbit f j.
Proof.
  intros Hk Hj. unfold with_flag. destruct on.
  - rewrite N.lor_spec, N.pow2_bits_eqb. rewrite (N.eqb_sym k j). destruct (j =? k); [by rewrite orb_true_r|by rewrite orb_false_r].
  - change u8_max with (N.ones 8). rewrite N.land_spec, N.lxor_spec, N.pow2_bits_eqb, N.ones_spec_low by lia.
    rewrite (N.eqb_sym k j). destruct (j =? k); simpl; [by rewrite andb_false_r|by rewrite andb_true_r].
Qed.

(** Reading a bit after setting another, or the same one. *)
Lemma contains_with_flag f k on j : k < 8 -> j < 8 ->
  contains (with_flag f (2 ^ k) on) (2 ^ j) = if j =? k then on else contains f (2 ^ j).
Proof. intros. by rewrite !contains_bit, with_flag_bit. Qed.
