(* ===== verification/Chain.v ===== *)
(** Doubly linked chains threaded through columns.

    The same-name chains and the child chains of the index are both lists of
    entries linked by a [next] and a [prev] column, with the head of chain [k]
    in a third column.  This file holds the two operations the index uses
    (push at the front, unlink in O(1)) as they are written in [link_same_name]
    / [unlink_same_name] / [link_child] / [unlink_child] of
    [crates/goz-core/src/index/volume.rs], on bare columns, and proves them
    against the exactness predicate [chains]: chain [k] visits exactly the
    entries whose key is [k], each once. *)

From stdpp Require Import base option list sets.
From Stdlib Require Import NArith Lia.
From S2P Require Import Prelude Types.

(** ** Segments *)

(** [dlseg nx pv p h l q t]: from [h], following [nx], the entries [l] are
    visited and then [t]; [p] is the [prev] of the first of them, [q] the last
    of them ([p] when there is none). *)
Fixpoint dlseg (nx pv : list N) (p h : N) (l : list N) (q t : N) : Prop :=
  match l with
  | [] => h = t /\ p = q
  | e :: l' => h = e /\ e <> NIL /\ getN e pv = Some p /\
      exists n, getN e nx = Some n /\ dlseg nx pv e n l' q t
  end.

Definition dll (nx pv : list N) (h : N) (l : list N) : Prop := exists q, dlseg nx pv NIL h l q NIL.

Lemma dlseg_app nx pv p h l1 l2 q t :
  dlseg nx pv p h (l1 ++ l2) q t <-> exists m r, dlseg nx pv p h l1 m r /\ dlseg nx pv m r l2 q t.
Proof.
  revert p h. induction l1 as [|e l1 IH]; intros p h; simpl.
  - split; [intros; by exists p, h|]. intros (m & r & [-> ->] & ?). done.
  - setoid_rewrite IH. naive_solver.
Qed.

(** A segment only reads its own entries. *)
Lemma dlseg_frame nx pv nx' pv' p h l q t :
  (forall e, e ∈ l -> getN e nx' = getN e nx /\ getN e pv' = getN e pv) ->
  dlseg nx pv p h l q t -> dlseg nx' pv' p h l q t.
Proof.
  revert p h. induction l as [|e l IH]; intros p h Hf; simpl; [done|].
  intros (-> & Hn & Hp & n & Hx & Hs). destruct (Hf e) as [E1 E2]; [left|].
  split; [done|]. split; [done|]. split; [by rewrite E2|]. exists n. split; [by rewrite E1|].
  apply IH; [|done]. intros. apply Hf. by right.
Qed.

Lemma dlseg_lt nx pv p h l q t e : dlseg nx pv p h l q t -> e ∈ l -> e < len nx /\ e < len pv /\ e <> NIL.
Proof.
  revert p h. induction l as [|x l IH]; intros p h; simpl; [set_solver|].
  intros (-> & Hn & Hp & n & Hx & Hs) [->|Hin]%elem_of_cons; [|by eapply IH].
  split_and!; [by eapply getN_lt..|done].
Qed.

Lemma dll_head nx pv h l : dll nx pv h l -> h <> NIL -> exists l', l = h :: l'.
Proof. intros (q & Hs) Hn. destruct l as [|e l]; simpl in Hs; [naive_solver|]. destruct Hs as [-> _]. eauto. Qed.

Lemma dll_nil nx pv l : dll nx pv NIL l -> l = [].
Proof. intros (q & Hs). destruct l as [|e l]; simpl in Hs; naive_solver. Qed.

(** The end of a segment can be redirected. *)
Lemma dlseg_set_end nx pv p h l x t t' q :
  NoDup (l ++ [x]) -> dlseg nx pv p h (l ++ [x]) q t ->
  dlseg (<[N.to_nat x := t']> nx) pv p h (l ++ [x]) x t'.
Proof.
  intros Hnd Hs. apply dlseg_app in Hs as (m & r & H1 & H2). apply dlseg_app. exists m, r.
  apply NoDup_app in Hnd as (_ & Hd & _). simpl in H2. destruct H2 as (-> & Hn & Hp & n & Hx & _).
  split.
  - eapply dlseg_frame; [|done]. intros e He. split; [|done].
    rewrite getN_insert by (by eapply getN_lt). rewrite decide_False; [done|].
    intros ->. by apply (Hd e); [|left].
  - simpl. split_and!; try done. exists t'. rewrite getN_insert, decide_True by (done || by eapply getN_lt). done.
Qed.

(** ... and so can its start. *)
Lemma dlseg_set_start nx pv p p' y l q t :
  NoDup (y :: l) -> dlseg nx pv p y (y :: l) q t ->
  dlseg nx (<[N.to_nat y := p']> pv) p' y (y :: l) q t.
Proof.
  intros [Hni _]%NoDup_cons Hs. simpl in *. destruct Hs as (_ & Hn & Hp & n & Hx & Hs).
  split_and!; try done; [by rewrite getN_insert, decide_True by (done || by eapply getN_lt)|].
  exists n. split; [done|]. eapply dlseg_frame; [|done]. intros e He. split; [done|].
  rewrite getN_insert by (by eapply getN_lt). rewrite decide_False; [done|]. by intros ->.
Qed.

(** ** Families of chains *)

(** Chain [k], whose head is [hd[k]], holds exactly the entries with key [k].
    One chain [ex] may be exempt: that of a folder whose children are being
    moved away while its head is stale. *)
Record chains (nx pv hd : list N) (key : N -> option N) (ex : option N) : Prop := {
  ch_len : len nx = len pv;
  ch_nil : len nx <= NIL;
  ch_range e k : key e = Some k -> e < len nx /\ k < len hd;
  ch_exact k h : Some k <> ex -> getN k hd = Some h ->
    exists l, dll nx pv h l /\ NoDup l /\ forall e, e ∈ l <-> key e = Some k
}.

(** Setting the key of one entry. *)
Definition key_set {A} (e : N) (o : option A) (key : N -> option A) (x : N) : option A :=
  if decide (x = e) then o else key x.

Lemma key_set_eq {A} e (o : option A) key : key_set e o key e = o.
Proof. unfold key_set. by rewrite decide_True. Qed.
Lemma key_set_ne {A} e (o : option A) key x : x <> e -> key_set e o key x = key x.
Proof. intros. unfold key_set. by rewrite decide_False. Qed.

Lemma chains_ext nx pv hd key key' ex :
  (forall e, key' e = key e) -> chains nx pv hd key ex -> chains nx pv hd key' ex.
Proof.
  intros E [H1 H2 H3 H4]. split; try done; [setoid_rewrite E; done|].
  intros k h Hk Hh. destruct (H4 k h Hk Hh) as (l & ? & ? & Hl). exists l. setoid_rewrite E. done.
Qed.

(** *** Push at the front *)

Definition push_next (nx : list N) (e old : N) : list N := <[N.to_nat e := old]> nx.
Definition push_prev (pv : list N) (e old : N) : list N :=
  let pv := <[N.to_nat e := NIL]> pv in
  if negb (old =? NIL) then <[N.to_nat old := e]> pv else pv.

Lemma len_push_prev pv e old : len (push_prev pv e old) = len pv.
Proof. unfold push_prev. destruct (negb _); by rewrite !len_insert. Qed.

Lemma getN_push_prev_other pv e old x :
  e < len pv -> (old <> NIL -> old < len pv) -> x <> e -> x <> old ->
  getN x (push_prev pv e old) = getN x pv.
Proof.
  intros He Ho Hxe Hxo. unfold push_prev. destruct (N.eqb_spec old NIL); simpl.
  - by rewrite getN_insert, decide_False.
  - rewrite getN_insert, decide_False by (rewrite ?len_insert; auto). by rewrite getN_insert, decide_False.
Qed.

Lemma dll_push nx pv e old l :
  dll nx pv old l -> NoDup l -> e ∉ l -> e < len nx -> e < len pv -> e <> NIL ->
  dll (push_next nx e old) (push_prev pv e old) e (e :: l).
Proof.
  intros (q & Hs) Hnd Hni He He' HeN. exists (match l with [] => e | _ => q end). cbn [dlseg].
  split; [done|]. split; [done|].
  assert (Hold : old <> NIL -> old ∈ l).
  { intros Ho. destruct l as [|y l]; simpl in Hs; [naive_solver|]. destruct Hs as [-> _]. left. }
  assert (Ho : old <> NIL -> old < len pv) by (intros; by eapply dlseg_lt; [|apply Hold]).
  split.
  { unfold push_prev. destruct (N.eqb_spec old NIL); simpl.
    - by rewrite getN_insert, decide_True.
    - rewrite getN_insert by (rewrite len_insert; auto). rewrite decide_False by (intros ->; auto).
      by rewrite getN_insert, decide_True. }
  exists old. split; [unfold push_next; by rewrite getN_insert, decide_True|].
  destruct l as [|y l]; [simpl in *; naive_solver|].
  assert (old = y) as -> by (simpl in Hs; naive_solver).
  assert (HyN : y <> NIL) by (simpl in Hs; naive_solver).
  assert (Hye : y <> e) by set_solver.
  replace (push_prev pv e y) with (<[N.to_nat y := e]> (<[N.to_nat e := NIL]> pv))
    by (unfold push_prev; by rewrite (proj2 (N.eqb_neq _ _))).
  apply dlseg_set_start with NIL; [done|]. eapply dlseg_frame; [|exact Hs].
  intros x Hx. assert (x <> e) by (intros ->; auto).
  unfold push_next. rewrite !getN_insert, !decide_False by congruence. done.
Qed.

Lemma chains_push nx pv hd key ex e k old :
  chains nx pv hd key ex -> Some k <> ex -> key e = None -> e < len nx -> getN k hd = Some old ->
  chains (push_next nx e old) (push_prev pv e old) (<[N.to_nat k := e]> hd) (key_set e (Some k) key) ex.
Proof.
  intros [H1 H2 H3 H4] Hex Hke He Hk. pose proof (getN_lt _ _ _ Hk) as Hklt.
  destruct (H4 _ _ Hex Hk) as (l & Hl & Hnd & Hin).
  assert (Hold : old <> NIL -> key old = Some k).
  { intros Ho. destruct (dll_head _ _ _ _ Hl Ho) as [l' ->]. apply Hin. left. }
  split.
  - unfold push_next. by rewrite len_push_prev, len_insert.
  - unfold push_next. by rewrite len_insert.
  - intros x j. unfold push_next. rewrite !len_insert. unfold key_set. case_decide; [naive_solver|]. apply H3.
  - intros j h Hjx. rewrite getN_insert by done. case_decide as Hkj.
    + intros [= <-]. subst j. exists (e :: l).
      assert (Hni : e ∉ l) by (rewrite Hin; by rewrite Hke).
      split; [apply dll_push; try done; [lia|lia]|]. split; [by constructor|].
      intros x. rewrite elem_of_cons, Hin. unfold key_set. case_decide; naive_solver.
    + intros Hj. destruct (H4 _ _ Hjx Hj) as (l' & (q & Hl') & Hnd' & Hin'). exists l'.
      split; [|split; [done|]].
      * exists q. eapply dlseg_frame; [|done]. intros x Hx. pose proof (proj1 (Hin' x) Hx) as Hkx.
        assert (x <> e) by (intros ->; congruence). unfold push_next. rewrite getN_insert, decide_False by congruence.
        split; [done|]. apply getN_push_prev_other; [lia| |done|].
        -- intros Ho%Hold%H3. lia.
        -- intros ->. destruct (decide (old = NIL)) as [->|Ho]; [apply H3 in Hkx; lia|].
           apply Hold in Ho. congruence.
      * intros x. rewrite Hin'. unfold key_set. case_decide as E; [subst; rewrite Hke; split; congruence|done].
Qed.

(** *** Unlink *)

Lemma rev_case {A} (l : list A) : l = [] \/ exists l' x, l = l' ++ [x].
Proof. induction l using rev_ind; [by left|right; eauto]. Qed.

Definition cut_head (hd : list N) (k prev next : N) : list N :=
  if prev =? NIL then <[N.to_nat k := next]> hd else hd.
Definition cut_next (nx : list N) (e prev next : N) : list N :=
  <[N.to_nat e := NIL]> (if prev =? NIL then nx else <[N.to_nat prev := next]> nx).
Definition cut_prev (pv : list N) (e prev next : N) : list N :=
  <[N.to_nat e := NIL]> (if negb (next =? NIL) then <[N.to_nat next := prev]> pv else pv).

Lemma len_cut_head hd k prev next : len (cut_head hd k prev next) = len hd.
Proof. unfold cut_head. destruct (_ =? _); by rewrite ?len_insert. Qed.
Lemma len_cut_next nx e prev next : len (cut_next nx e prev next) = len nx.
Proof. unfold cut_next. destruct (_ =? _); by rewrite !len_insert. Qed.
Lemma len_cut_prev pv e prev next : len (cut_prev pv e prev next) = len pv.
Proof. unfold cut_prev. destruct (negb _); by rewrite !len_insert. Qed.

Lemma getN_cut_next_other nx e prev next x :
  e < len nx -> (prev <> NIL -> prev < len nx) -> x <> e -> x <> prev ->
  getN x (cut_next nx e prev next) = getN x nx.
Proof.
  intros He Hp Hxe Hxp. unfold cut_next. destruct (N.eqb_spec prev NIL).
  - by rewrite getN_insert, decide_False by congruence.
  - rewrite getN_insert, decide_False by (rewrite ?len_insert; congruence).
    by rewrite getN_insert, decide_False by auto.
Qed.

Lemma getN_cut_prev_other pv e prev next x :
  e < len pv -> (next <> NIL -> next < len pv) -> x <> e -> x <> next ->
  getN x (cut_prev pv e prev next) = getN x pv.
Proof.
  intros He Hp Hxe Hxp. unfold cut_prev. destruct (N.eqb_spec next NIL); simpl.
  - by rewrite getN_insert, decide_False by congruence.
  - rewrite getN_insert, decide_False by (rewrite ?len_insert; congruence).
    by rewrite getN_insert, decide_False by auto.
Qed.

(** The part of a chain before the cut: its last entry now points past [e]. *)
Lemma dlseg_cut_left nx pv h l1 e prev next q :
  NoDup (l1 ++ [e]) -> dlseg nx pv NIL h l1 prev e -> e < len nx -> e < len pv ->
  (next <> NIL -> next ∉ l1 /\ next < len pv) -> NIL ∉ l1 -> q = prev ->
  dlseg (cut_next nx e prev next) (cut_prev pv e prev next) NIL
        (if prev =? NIL then next else h) l1 prev next.
Proof.
  intros Hnd Hs He He' Hn HN ->. destruct (rev_case l1) as [->|(l1' & x & ->)].
  { simpl in Hs. destruct Hs as [<- <-]. by rewrite N.eqb_refl. }
  assert (prev = x) as ->.
  { apply dlseg_app in Hs as (m & r & _ & Hx). simpl in Hx. naive_solver. }
  assert (HxN : x <> NIL) by set_solver.
  rewrite (proj2 (N.eqb_neq _ _) HxN). apply NoDup_app in Hnd as (Hnd & Hd & _).
  pose proof (dlseg_lt _ _ _ _ _ _ _ x Hs ltac:(set_solver)) as (Hx & _ & _).
  eapply dlseg_frame; [|eapply dlseg_set_end; [done|exact Hs]].
  intros y Hy. assert (y <> e) by (intros ->; apply (Hd e); set_solver). split.
  - unfold cut_next. rewrite (proj2 (N.eqb_neq _ _) HxN). rewrite getN_insert, decide_False by (rewrite ?len_insert; congruence).
    done.
  - apply getN_cut_prev_other; try done; [naive_solver|].
    intros ->. destruct (decide (next = NIL)) as [->|Hne]; [done|]. by apply Hn in Hne as [? _].
Qed.

(** The part after the cut: its first entry now points back past [e]. *)
Lemma dlseg_cut_right nx pv l2 e prev next q :
  NoDup (e :: l2) -> dlseg nx pv e next l2 q NIL -> e < len nx -> e < len pv ->
  (prev <> NIL -> prev ∉ l2 /\ prev < len nx) ->
  exists q', dlseg (cut_next nx e prev next) (cut_prev pv e prev next) prev next l2 q' NIL.
Proof.
  intros [Hni Hnd]%NoDup_cons Hs He He' Hp. destruct l2 as [|y l2].
  { simpl in *. destruct Hs as [-> _]. by exists prev. }
  exists q. assert (next = y) as -> by (simpl in Hs; naive_solver).
  assert (HyN : y <> NIL) by (simpl in Hs; naive_solver).
  pose proof (dlseg_lt _ _ _ _ _ _ _ y Hs ltac:(left)) as (_ & Hy & _).
  eapply dlseg_frame; [|apply dlseg_set_start with e; [done|exact Hs]].
  intros x Hx. assert (x <> e) by (intros ->; auto). split.
  - apply getN_cut_next_other; try done; [naive_solver|].
    intros ->. destruct (decide (prev = NIL)) as [->|Hne]; [|by apply Hp in Hne as [? _]].
    by eapply (dlseg_lt _ _ _ _ _ _ _ NIL Hs) in Hx as (_ & _ & ?).
  - unfold cut_prev. rewrite (proj2 (N.eqb_neq _ _) HyN). simpl.
    rewrite getN_insert, decide_False by (rewrite ?len_insert; congruence). done.
Qed.

Lemma dll_cut nx pv h l e prev next :
  dll nx pv h l -> NoDup l -> e ∈ l -> getN e pv = Some prev -> getN e nx = Some next ->
  exists l', dll (cut_next nx e prev next) (cut_prev pv e prev next) (if prev =? NIL then next else h) l' /\
    NoDup l' /\ (forall x, x ∈ l' <-> x ∈ l /\ x <> e) /\
    (prev <> NIL -> prev ∈ l /\ prev <> e) /\ (next <> NIL -> next ∈ l /\ next <> e) /\ (prev = NIL -> h = e).
Proof.
  intros (q & Hs) Hnd He Hp Hn. apply list_elem_of_split in He as (l1 & l2 & ->).
  pose proof (dlseg_lt _ _ _ _ _ _ _ e Hs ltac:(set_solver)) as (Hlt & Hlt' & HeN).
  assert (HN : NIL ∉ l1 ++ e :: l2) by (intros Hin; by eapply dlseg_lt in Hin as (_ & _ & ?)).
  pose proof Hs as (m & r & Hs1 & Hs2)%dlseg_app. simpl in Hs2. destruct Hs2 as (-> & _ & Hp' & n & Hn' & Hs2).
  assert (m = prev) as -> by congruence. assert (n = next) as -> by congruence.
  assert (Hm : prev <> NIL -> prev ∈ l1).
  { destruct (rev_case l1) as [->|(l1' & x & ->)]; [simpl in Hs1; naive_solver|].
    apply dlseg_app in Hs1 as (? & ? & _ & Hx). simpl in Hx. set_solver. }
  assert (Hnx : next <> NIL -> next ∈ l2) by (destruct l2; simpl in Hs2; set_solver).
  assert (Hh : prev = NIL -> h = e).
  { destruct (rev_case l1) as [->|(l1' & x & ->)]; [simpl in Hs1; naive_solver|].
    apply dlseg_app in Hs1 as (? & ? & _ & Hx). simpl in Hx. intros ->. exfalso. apply HN. set_solver. }
  assert (Hnd1 : NoDup (l1 ++ [e])).
  { rewrite cons_middle, app_assoc in Hnd. by apply NoDup_app in Hnd as (? & _). }
  pose proof Hnd as (_ & Hdis & Hnd2)%NoDup_app.
  assert (He2 : e ∉ l2) by (by apply NoDup_cons in Hnd2 as [? _]).
  assert (He1 : e ∉ l1) by (intros Hin; by apply (Hdis e); [|left]).
  assert (Hin2 : forall x, x ∈ l1 ++ e :: l2 -> x < len nx /\ x < len pv)
    by (intros x Hx; destruct (dlseg_lt _ _ _ _ _ _ _ x Hs Hx) as (? & ? & _); done).
  exists (l1 ++ l2). split; [|split; [|split; [|split; [|split]]]].
  - destruct (dlseg_cut_right nx pv l2 e prev next q) as [q' Hr]; try done.
    { intros Ho%Hm. split; [intros ?; by apply (Hdis prev); [|right]|]. apply Hin2. set_solver. }
    exists q'. apply dlseg_app. exists prev, next. split; [|done].
    eapply dlseg_cut_left; try done; [|set_solver].
    intros Ho%Hnx. split; [intros ?; by apply (Hdis next); [|right]|]. apply Hin2. set_solver.
  - apply NoDup_cons in Hnd2 as [_ ?]. apply NoDup_app in Hnd as (? & _ & _).
    apply NoDup_app. split_and!; try done. intros x ?. specialize (Hdis x). set_solver.
  - set_solver.
  - intros Ho%Hm. split; [set_solver|]. intros ->. done.
  - intros Ho%Hnx. split; [set_solver|]. intros ->. done.
  - done.
Qed.

Lemma chains_unlink nx pv hd key ex e k prev next :
  chains nx pv hd key ex -> Some k <> ex -> key e = Some k -> getN e pv = Some prev -> getN e nx = Some next ->
  chains (cut_next nx e prev next) (cut_prev pv e prev next) (cut_head hd k prev next) (key_set e None key) ex.
Proof.
  intros [H1 H2 H3 H4] Hex Hke Hp Hn. destruct (H3 _ _ Hke) as [He Hk].
  destruct (getN_is_Some k hd Hk) as [h Hh]. destruct (H4 _ _ Hex Hh) as (l & Hl & Hnd & Hin).
  destruct (dll_cut nx pv h l e prev next) as (l' & Hl' & Hnd' & Hin' & Hpl & Hnl & Hhe); try done; [by apply Hin|].
  split; rewrite ?len_cut_next, ?len_cut_prev, ?len_cut_head; try done.
  - intros x j. unfold key_set. case_decide; [done|apply H3].
  - intros j h' Hjx. destruct (decide (j = k)) as [->|Hjk].
    + intros Hj. exists l'. assert ((if prev =? NIL then next else h) = h') as <-.
      { unfold cut_head in Hj. destruct (prev =? NIL); [rewrite getN_insert, decide_True in Hj by done|]; congruence. }
      split; [done|]. split; [done|]. intros x. rewrite Hin', Hin. unfold key_set. case_decide; naive_solver.
    + intros Hj. assert (Hj' : getN j hd = Some h').
      { unfold cut_head in Hj. destruct (prev =? NIL); [rewrite getN_insert, decide_False in Hj by done|]; done. }
      destruct (H4 _ _ Hjx Hj') as (lj & (q & Hlj) & Hndj & Hinj). exists lj. split; [|split; [done|]].
      * exists q. eapply dlseg_frame; [|done]. intros x Hx. pose proof (proj1 (Hinj x) Hx) as Hkx.
        assert (x <> e) by (intros ->; congruence).
        assert (Hxl : x ∉ l) by (rewrite Hin; congruence).
        assert (x <> NIL) by (apply H3 in Hkx; lia).
        assert (Hpr : prev <> NIL -> prev < len nx) by (intros [?%Hin%H3 _]%Hpl; lia).
        assert (Hnr : next <> NIL -> next < len pv) by (intros [?%Hin%H3 _]%Hnl; lia).
        split; [apply getN_cut_next_other|apply getN_cut_prev_other]; try done; [| lia |].
        -- intros ->. by apply Hxl, Hpl.
        -- intros ->. by apply Hxl, Hnl.
      * intros x. rewrite Hinj. unfold key_set. case_decide as E; [subst; split; congruence|done].
Qed.

Lemma chains_pointers nx pv hd key ex e k prev next :
  chains nx pv hd key ex -> Some k <> ex -> key e = Some k -> getN e pv = Some prev -> getN e nx = Some next ->
  (prev <> NIL -> prev < len nx) /\ (next <> NIL -> next < len nx).
Proof.
  intros [H1 H2 H3 H4] Hex Hke Hp Hn. destruct (H3 _ _ Hke) as [He Hk].
  destruct (getN_is_Some k hd Hk) as [h Hh]. destruct (H4 _ _ Hex Hh) as (l & Hl & Hnd & Hin).
  destruct (dll_cut nx pv h l e prev next) as (l' & _ & _ & _ & Hpl & Hnl & _); try done; [by apply Hin|].
  split; [intros [?%Hin%H3 _]%Hpl|intros [?%Hin%H3 _]%Hnl]; lia.
Qed.

Lemma chains_head nx pv hd key ex k h :
  chains nx pv hd key ex -> Some k <> ex -> getN k hd = Some h -> h <> NIL -> key h = Some k.
Proof.
  intros C Hex Hk Hn. destruct (ch_exact _ _ _ _ _ C _ _ Hex Hk) as (l & Hl & _ & Hin).
  destruct (dll_head _ _ _ _ Hl Hn) as [l' ->]. apply Hin. left.
Qed.

(** *** Moving a whole chain away *)

(** The entries reached by [next] alone. *)
Fixpoint nseg (nx : list N) (h : N) (l : list N) : Prop :=
  match l with
  | [] => h = NIL
  | e :: l' => h = e /\ e <> NIL /\ exists n, getN e nx = Some n /\ nseg nx n l'
  end.

Lemma dlseg_nseg nx pv p h l q : dlseg nx pv p h l q NIL -> nseg nx h l.
Proof. revert p h. induction l as [|e l IH]; intros p h; simpl; [by intros [-> _]|].
  intros (-> & ? & _ & n & ? & ?). split_and!; eauto.
Qed.

Lemma nseg_frame nx nx' h l : (forall e, e ∈ l -> getN e nx' = getN e nx) -> nseg nx h l -> nseg nx' h l.
Proof.
  revert h. induction l as [|e l IH]; intros h Hf; simpl; [done|]. intros (-> & ? & n & Hn & Hs).
  split_and!; try done. exists n. split; [rewrite Hf; [done|left]|]. apply IH; [|done]. intros. apply Hf. by right.
Qed.

Lemma nseg_fun nx h l l' : nseg nx h l -> nseg nx h l' -> l = l'.
Proof.
  revert h l'. induction l as [|e l IH]; intros h [|e' l']; simpl; [done|naive_solver..|].
  intros (-> & ? & n & Hn & Hs) (-> & _ & n' & Hn' & Hs'). f_equal. simplify_eq. eauto.
Qed.

(** Forgetting chain [k]: its entries belong to no chain, its head is stale. *)
Definition key_drop (k : N) (key : N -> option N) (x : N) : option N :=
  if decide (key x = Some k) then None else key x.

Lemma chains_detach nx pv hd key k h :
  chains nx pv hd key None -> getN k hd = Some h ->
  exists l, nseg nx h l /\ NoDup l /\ (forall e, e ∈ l <-> key e = Some k) /\
    chains nx pv hd (key_drop k key) (Some k).
Proof.
  intros [H1 H2 H3 H4] Hk. destruct (H4 _ _ ltac:(done) Hk) as (l & (q & Hl) & Hnd & Hin).
  exists l. split; [by eapply dlseg_nseg|]. split; [done|]. split; [done|]. split; try done.
  - intros e j. unfold key_drop. case_decide; [done|apply H3].
  - intros j hj Hjk Hj. destruct (H4 _ _ ltac:(done) Hj) as (lj & ? & ? & Hinj). exists lj. split; [done|].
    split; [done|]. intros e. rewrite Hinj. unfold key_drop. case_decide; split; congruence.
Qed.

(** Once nothing has key [k] any more, a NIL head makes the family exact. *)
Lemma chains_attach nx pv hd key k :
  chains nx pv hd key (Some k) -> (forall e, key e <> Some k) -> k < len hd ->
  chains nx pv (<[N.to_nat k := NIL]> hd) key None.
Proof.
  intros [H1 H2 H3 H4] Hno Hk. split; try done.
  - intros e j Hj. rewrite len_insert. by apply H3.
  - intros j h _. rewrite getN_insert by done. case_decide as E.
    + intros [= <-]. subst. exists []. split; [by exists NIL|]. split; [constructor|].
      intros e. split; [by intros ?%not_elem_of_nil|]. intros Hj. by apply Hno in Hj.
    + intros Hj. apply H4; [congruence|done].
Qed.

Lemma NoDup_below (l : list N) n : NoDup l -> (forall e, e ∈ l -> e < n) -> len l <= n.
Proof.
  intros Hnd Hb. assert (Hsub : l ⊆+ (N.of_nat <$> seq 0 (N.to_nat n))).
  { apply NoDup_submseteq; [done|]. intros e He%Hb. apply list_elem_of_fmap. exists (N.to_nat e).
    rewrite elem_of_seq. lia. }
  apply submseteq_length in Hsub. rewrite length_fmap, length_seq in Hsub. unfold len. lia.
Qed.

(** A new, empty chain. *)
Lemma chains_snoc nx pv hd key ex : chains nx pv hd key ex -> chains nx pv (hd ++ [NIL]) key ex.
Proof.
  intros [H1 H2 H3 H4]. split; try done.
  - intros e k Hk. apply H3 in Hk. len_solve.
  - intros k h Hk. rewrite getN_snoc. case_decide as E; [|by apply H4].
    intros [= <-]. subst. exists []. split; [by exists NIL|]. split; [constructor|].
    intros e. split; [by intros ?%not_elem_of_nil|]. intros ?%H3. lia.
Qed.

(** Chains survive any change of the columns that leaves their entries and
    their heads alone; new heads must be empty. *)
Lemma chains_frame nx pv hd nx' pv' hd' key ex :
  chains nx pv hd key ex -> len nx' = len pv' -> len nx' <= NIL -> len nx <= len nx' -> len hd <= len hd' ->
  (forall e k, key e = Some k -> getN e nx' = getN e nx /\ getN e pv' = getN e pv) ->
  (forall k h, getN k hd' = Some h -> getN k hd = Some h \/ (h = NIL /\ forall e, key e <> Some k)) ->
  chains nx' pv' hd' key ex.
Proof.
  intros [H1 H2 H3 H4] L1 L2 L3 L4 He Hk. split; try done.
  - intros e k Hek. apply H3 in Hek. lia.
  - intros k h Hex Hh. destruct (Hk _ _ Hh) as [Hh'|[-> Hno]].
    + destruct (H4 _ _ Hex Hh') as (l & (q & Hl) & Hnd & Hin). exists l. split; [|done]. exists q.
      eapply dlseg_frame; [|exact Hl]. intros e Hel. apply Hin in Hel. by eapply He.
    + exists []. split; [by exists NIL|]. split; [constructor|]. intros e. split; [by intros ?%not_elem_of_nil|].
      intros Hek. by apply Hno in Hek.
Qed.
