(* ===== verification/Volume.v ===== *)
(** The per-volume index: [VolumeIndex] of
    [crates/goz-core/src/index/volume.rs], its state and every operation that
    reads or changes it.

    A computation of [ST VolumeIndex] returns [None] where the source would
    panic, or when a [while] loop outlives its fuel; the fuel of a loop over a
    chain is the number of slots of the table, and [VolumeOps] proves it is
    enough.  The diagnostic counters are unbounded here.  [FxHashMap] is a
    [gmap]; iteration order over it is never observed. *)

From stdpp Require Import gmap.
From stdpp Require Import base option list.
From Stdlib Require Import NArith ZArith Lia.
From S2P Require Import Prelude Types Wtf8 UsnRecord UsnOps LayoutParse Fold FrnMap NameStore NameOrder EntryTable.

(** ** State *)

Definition NTFS_ROOT_FRN : N := 0x0005000000000005.
Definition LOST_FOUND_NAME : list N := [36; 76; 111; 115; 116; 70; 111; 117; 110; 100].
Definition PLACEHOLDER_NAME : list N := [36; 80; 108; 97; 99; 101; 104; 111; 108; 100; 101; 114].
Definition LOST_FOUND_FRN : N := u64_max.
Definition MAX_PATH_HOPS : N := 4096.

Record WtfName := { wbytes : list N; wlossy : bool }.
Record LinkTarget := { tparent : EntryIdx; tname : WtfName }.

Inductive PathStatus := PathOk | InLostFound | CycleDetected | Removed.
Inductive Anomaly := DeleteOfUnknown (f : N).
Inductive UpsertResult := UpsertOk | NeedsReconcile.

Record IndexStats := {
  placeholders_created : N;
  delete_of_unknown : N;
  rename_old_seen : N;
  stale_slots : N;
  link_reconciles_dropped : N
}.
Definition stats_default : IndexStats := {| placeholders_created := 0; delete_of_unknown := 0;
  rename_old_seen := 0; stale_slots := 0; link_reconciles_dropped := 0 |}.

Record ApplyOutcome := {
  needs_stat : list N;
  needs_link_reconcile : list N;
  anomalies : list Anomaly;
  wants_compact : bool
}.
Definition outcome_default : ApplyOutcome :=
  {| needs_stat := []; needs_link_reconcile := []; anomalies := []; wants_compact := false |}.

Record VolumeIndex := {
  entries : EntryTable;
  names : NameStore;
  by_frn : FrnMap;
  root : EntryIdx;
  lost_found : EntryIdx;
  generation : N;
  stats : IndexStats;
  dirty : N;
  dir_children : gmap (N * N) (list EntryIdx);
  cycle_suspects : list EntryIdx
}.

Definition with_entries (t : EntryTable) (v : VolumeIndex) : VolumeIndex :=
  {| entries := t; names := names v; by_frn := by_frn v; root := root v; lost_found := lost_found v;
     generation := generation v; stats := stats v; dirty := dirty v; dir_children := dir_children v;
     cycle_suspects := cycle_suspects v |}.
Definition with_names (n : NameStore) (v : VolumeIndex) : VolumeIndex :=
  {| entries := entries v; names := n; by_frn := by_frn v; root := root v; lost_found := lost_found v;
     generation := generation v; stats := stats v; dirty := dirty v; dir_children := dir_children v;
     cycle_suspects := cycle_suspects v |}.
Definition with_by_frn (m : FrnMap) (v : VolumeIndex) : VolumeIndex :=
  {| entries := entries v; names := names v; by_frn := m; root := root v; lost_found := lost_found v;
     generation := generation v; stats := stats v; dirty := dirty v; dir_children := dir_children v;
     cycle_suspects := cycle_suspects v |}.
Definition with_generation (g : N) (v : VolumeIndex) : VolumeIndex :=
  {| entries := entries v; names := names v; by_frn := by_frn v; root := root v; lost_found := lost_found v;
     generation := g; stats := stats v; dirty := dirty v; dir_children := dir_children v;
     cycle_suspects := cycle_suspects v |}.
Definition with_stats (st : IndexStats) (v : VolumeIndex) : VolumeIndex :=
  {| entries := entries v; names := names v; by_frn := by_frn v; root := root v; lost_found := lost_found v;
     generation := generation v; stats := st; dirty := dirty v; dir_children := dir_children v;
     cycle_suspects := cycle_suspects v |}.
Definition with_dirty (d : N) (v : VolumeIndex) : VolumeIndex :=
  {| entries := entries v; names := names v; by_frn := by_frn v; root := root v; lost_found := lost_found v;
     generation := generation v; stats := stats v; dirty := d; dir_children := dir_children v;
     cycle_suspects := cycle_suspects v |}.
Definition with_dir_children (d : gmap (N * N) (list N)) (v : VolumeIndex) : VolumeIndex :=
  {| entries := entries v; names := names v; by_frn := by_frn v; root := root v; lost_found := lost_found v;
     generation := generation v; stats := stats v; dirty := dirty v; dir_children := d;
     cycle_suspects := cycle_suspects v |}.
Definition with_cycle_suspects (l : list N) (v : VolumeIndex) : VolumeIndex :=
  {| entries := entries v; names := names v; by_frn := by_frn v; root := root v; lost_found := lost_found v;
     generation := generation v; stats := stats v; dirty := dirty v; dir_children := dir_children v;
     cycle_suspects := l |}.

(** Running the parts inside the whole. *)
Definition ent {A} (m : ST EntryTable A) : ST VolumeIndex A := st_zoom entries with_entries m.
Definition nam {A} (m : ST NameStore A) : ST VolumeIndex A := st_zoom names with_names m.
Definition bump_dirty : ST VolumeIndex unit := st_modify (fun v => with_dirty (dirty v + 1) v).
Definition frn_get (record : N) : ST VolumeIndex (option N) := st_get (fun v => FrnMap.get (by_frn v) record).
Definition frn_set (record idx : N) : ST VolumeIndex unit :=
  st_modify (fun v => with_by_frn (FrnMap.set record idx (by_frn v)) v).
Definition frn_remove (record : N) : ST VolumeIndex unit :=
  st_modify (fun v => with_by_frn (FrnMap.remove record (by_frn v)) v).
Definition raw_name (id : N) : ST VolumeIndex (list N) := nam (st_read (fun n => raw_bytes n id)).

Definition bump_placeholders (st : IndexStats) : IndexStats :=
  {| placeholders_created := placeholders_created st + 1; delete_of_unknown := delete_of_unknown st;
     rename_old_seen := rename_old_seen st; stale_slots := stale_slots st;
     link_reconciles_dropped := link_reconciles_dropped st |}.
Definition bump_unknown (st : IndexStats) : IndexStats :=
  {| placeholders_created := placeholders_created st; delete_of_unknown := delete_of_unknown st + 1;
     rename_old_seen := rename_old_seen st; stale_slots := stale_slots st;
     link_reconciles_dropped := link_reconciles_dropped st |}.
Definition bump_rename_old (st : IndexStats) : IndexStats :=
  {| placeholders_created := placeholders_created st; delete_of_unknown := delete_of_unknown st;
     rename_old_seen := rename_old_seen st + 1; stale_slots := stale_slots st;
     link_reconciles_dropped := link_reconciles_dropped st |}.
Definition bump_stale (st : IndexStats) : IndexStats :=
  {| placeholders_created := placeholders_created st; delete_of_unknown := delete_of_unknown st;
     rename_old_seen := rename_old_seen st; stale_slots := stale_slots st + 1;
     link_reconciles_dropped := link_reconciles_dropped st |}.
Definition bump_dropped (n : N) (st : IndexStats) : IndexStats :=
  {| placeholders_created := placeholders_created st; delete_of_unknown := delete_of_unknown st;
     rename_old_seen := rename_old_seen st; stale_slots := stale_slots st;
     link_reconciles_dropped := link_reconciles_dropped st + n |}.
Definition tick (f : IndexStats -> IndexStats) : ST VolumeIndex unit :=
  st_modify (fun v => with_stats (f (stats v)) v).

(** The number of slots: the fuel of a walk along a chain. *)
Definition fuel_of (v : VolumeIndex) : nat := N.to_nat (capacity (entries v)).

(** ** Chains *)

Definition link_same_name (idx id : N) : ST VolumeIndex unit :=
  old_head <- nam (st_read (chain_head id)) ;;
  ent (set_next_same idx old_head) ;;;
  ent (set_prev_same idx NIL) ;;;
  st_when (negb (old_head =? NIL)) (ent (set_prev_same old_head idx)) ;;;
  nam (st_update (set_chain_head id idx)).

Definition link_child (idx : N) : ST VolumeIndex unit :=
  par <- ent (parent idx) ;;
  if par =? NIL then st_ret tt
  else
    old_head <- ent (first_child par) ;;
    ent (set_next_child idx old_head) ;;;
    ent (set_prev_child idx NIL) ;;;
    st_when (negb (old_head =? NIL)) (ent (set_prev_child old_head idx)) ;;;
    ent (set_first_child par idx).

Definition unlink_child (idx : N) : ST VolumeIndex unit :=
  par <- ent (parent idx) ;;
  if par =? NIL then st_ret tt
  else
    prev <- ent (prev_child idx) ;;
    next <- ent (next_child idx) ;;
    (if prev =? NIL then ent (set_first_child par next) else ent (set_next_child prev next)) ;;;
    st_when (negb (next =? NIL)) (ent (set_prev_child next prev)) ;;;
    ent (set_next_child idx NIL) ;;;
    ent (set_prev_child idx NIL).

Definition unlink_same_name (idx : N) : ST VolumeIndex unit :=
  id <- ent (name_id idx) ;;
  prev <- ent (prev_same idx) ;;
  next <- ent (next_same idx) ;;
  (if prev =? NIL then nam (st_update (set_chain_head id next)) else ent (set_next_same prev next)) ;;;
  st_when (negb (next =? NIL)) (ent (set_prev_same next prev)) ;;;
  ent (set_next_same idx NIL) ;;;
  ent (set_prev_same idx NIL).

Section ops.
Context {U : Unicode} {H : Hasher}.

(** ** The scope index *)

Definition dir_key_hash (fold : list N) : N := hash_bytes fold.

Definition folded_name (idx : N) : ST VolumeIndex (list N) :=
  id <- ent (name_id idx) ;; nam (st_read (fun n => folded_bytes_of n id)).

Definition dir_key (idx : N) : ST VolumeIndex (N * N) :=
  p <- ent (parent idx) ;; f <- folded_name idx ;; st_ret (p, dir_key_hash f).

Definition slot_push (idx : N) (slot : list N) : list N :=
  if bool_decide (idx ∈ slot) then slot else slot ++ [idx].

Definition dir_index_insert (idx : N) : ST VolumeIndex unit :=
  fl <- ent (flags idx) ;;
  rt <- st_get root ;;
  lf <- st_get lost_found ;;
  if negb (contains fl DIR) || contains fl PLACEHOLDER || (idx =? rt) || (idx =? lf) then st_ret tt
  else
    key <- dir_key idx ;;
    st_modify (fun v =>
      with_dir_children (<[key := slot_push idx (default [] (dir_children v !! key))]> (dir_children v)) v).

(** [slot.retain(|d| d != idx)], dropping the key with its last entry. *)
Definition slot_drop (idx : N) (key : N * N) (m : gmap (N * N) (list N)) : gmap (N * N) (list N) :=
  match m !! key with
  | None => m
  | Some slot =>
      let slot := base.filter (fun d => d <> idx) slot in
      match slot with [] => delete key m | _ => <[key := slot]> m end
  end.

Definition dir_index_remove (idx : N) : ST VolumeIndex unit :=
  fl <- ent (flags idx) ;;
  if negb (contains fl DIR) then st_ret tt
  else
    key <- dir_key idx ;;
    st_modify (fun v => with_dir_children (slot_drop idx key (dir_children v)) v).

(** ** Removal *)

Fixpoint orphan_loop (fuel : nat) (cur : N) : ST VolumeIndex unit :=
  if cur =? NIL then st_ret tt
  else match fuel with
  | O => st_fail
  | S fuel =>
      next <- ent (next_child cur) ;;
      dir_index_remove cur ;;;
      lf <- st_get lost_found ;;
      ent (set_parent cur lf) ;;;
      link_child cur ;;;
      dir_index_insert cur ;;;
      bump_dirty ;;;
      orphan_loop fuel next
  end.

Definition orphan_children (dir : N) : ST VolumeIndex unit :=
  fuel <- st_get fuel_of ;;
  cur <- ent (first_child dir) ;;
  orphan_loop fuel cur ;;;
  ent (set_first_child dir NIL).

Definition remove_entry (idx : N) : ST VolumeIndex unit :=
  dir_index_remove idx ;;;
  unlink_same_name idx ;;;
  unlink_child idx ;;;
  orphan_children idx ;;;
  id <- ent (name_id idx) ;;
  nam (release id) ;;;
  ent (tombstone idx) ;;;
  bump_dirty.

Fixpoint tombstone_loop (fuel : nat) (cur : N) : ST VolumeIndex unit :=
  if cur =? NIL then st_ret tt
  else match fuel with
  | O => st_fail
  | S fuel =>
      next <- ent (next_link cur) ;;
      remove_entry cur ;;;
      tombstone_loop fuel next
  end.

Definition tombstone_chain (head : N) : ST VolumeIndex unit :=
  fuel <- st_get fuel_of ;; tombstone_loop fuel head.

Definition reclaim_stale_slot (record head : N) : ST VolumeIndex unit :=
  tombstone_chain head ;;;
  frn_remove record ;;;
  tick bump_stale.

Definition delete_frn (f : N) : ST VolumeIndex bool :=
  let record := record_number f in
  o <- frn_get record ;;
  match o with
  | None => st_ret false
  | Some head =>
      hf <- ent (EntryTable.frn head) ;;
      if negb (hf =? f) then st_ret false
      else tombstone_chain head ;;; frn_remove record ;;; st_ret true
  end.

(** ** Insertion *)

(** The sequence every new entry goes through: intern, allocate, link. *)
Definition new_entry (f par : N) (name : list N) (fl size : N) (mtime : Z) : ST VolumeIndex N :=
  id <- nam (intern name) ;;
  idx <- ent (alloc f par id fl size mtime NIL) ;;
  link_same_name idx id ;;;
  link_child idx ;;;
  st_ret idx.

Definition resolve_or_placeholder_parent (parent_frn : N) : ST VolumeIndex N :=
  let record := record_number parent_frn in
  o <- frn_get record ;;
  found <- match o with
           | Some idx =>
               pf <- ent (EntryTable.frn idx) ;;
               if pf =? parent_frn then st_ret (Some idx)
               else reclaim_stale_slot record idx ;;; st_ret None
           | None => st_ret None
           end ;;
  match found with
  | Some idx => st_ret idx
  | None =>
      lf <- st_get lost_found ;;
      idx <- new_entry parent_frn lf PLACEHOLDER_NAME (with_flag DIR PLACEHOLDER true) SIZE_UNKNOWN MTIME_UNKNOWN ;;
      frn_set record idx ;;;
      tick bump_placeholders ;;;
      bump_dirty ;;;
      st_ret idx
  end.

Definition resolve_link_parent (f parent_frn : N) : ST VolumeIndex N :=
  if negb (parent_frn =? f) && (record_number parent_frn =? record_number f)
  then st_get lost_found
  else resolve_or_placeholder_parent parent_frn.

Fixpoint below_loop (hops : nat) (node ancestor : N) : ST VolumeIndex bool :=
  match hops with
  | O => st_ret false
  | S hops =>
      if node =? ancestor then st_ret true
      else
        rt <- st_get root ;;
        lf <- st_get lost_found ;;
        if (node =? NIL) || (node =? rt) || (node =? lf) then st_ret false
        else node' <- ent (parent node) ;; below_loop hops node' ancestor
  end.
Definition is_at_or_below (node ancestor : N) : ST VolumeIndex bool :=
  below_loop (N.to_nat MAX_PATH_HOPS) node ancestor.

Definition rewrite_entry (idx parent_idx : N) (name : list N) (name_lossy is_dir : bool) : ST VolumeIndex unit :=
  dir_index_remove idx ;;;
  unlink_same_name idx ;;;
  old <- ent (name_id idx) ;;
  nam (release old) ;;;
  id <- nam (intern name) ;;
  ent (set_name_id idx id) ;;;
  link_same_name idx id ;;;
  cyc <- is_at_or_below parent_idx idx ;;
  known <- st_get (fun v => bool_decide (idx ∈ cycle_suspects v)) ;;
  st_when (cyc && negb known) (st_modify (fun v => with_cycle_suspects (cycle_suspects v ++ [idx]) v)) ;;;
  unlink_child idx ;;;
  ent (set_parent idx parent_idx) ;;;
  link_child idx ;;;
  fl <- ent (flags idx) ;;
  ent (set_flags idx (with_flag (with_flag (with_flag fl DIR is_dir) NON_UNICODE_NAME name_lossy) PLACEHOLDER false)) ;;;
  dir_index_insert idx ;;;
  bump_dirty.

Fixpoint suspects_retain (l : list N) : ST VolumeIndex (list N) :=
  match l with
  | [] => st_ret []
  | idx :: l' =>
      p <- ent (parent idx) ;;
      keep <- is_at_or_below p idx ;;
      rest <- suspects_retain l' ;;
      st_ret (if keep then idx :: rest else rest)
  end.
Definition prune_cycle_suspects : ST VolumeIndex unit :=
  l <- st_get cycle_suspects ;;
  kept <- suspects_retain l ;;
  st_modify (with_cycle_suspects kept).

Definition upsert_link (f parent_frn : N) (name : list N) (name_lossy is_dir : bool) : ST VolumeIndex UpsertResult :=
  let record := record_number f in
  o <- frn_get record ;;
  match o with
  | Some head =>
      hf <- ent (EntryTable.frn head) ;;
      st_when (negb (hf =? f)) (reclaim_stale_slot record head)
  | None => st_ret tt
  end ;;;
  parent_idx <- resolve_link_parent f parent_frn ;;
  o <- frn_get record ;;
  match o with
  | Some head =>
      nl <- ent (next_link head) ;;
      if nl =? NIL then rewrite_entry head parent_idx name name_lossy is_dir ;;; st_ret UpsertOk
      else st_ret NeedsReconcile
  | None =>
      let fl := with_flag (with_flag EMPTY DIR is_dir) NON_UNICODE_NAME name_lossy in
      idx <- new_entry f parent_idx name fl SIZE_UNKNOWN MTIME_UNKNOWN ;;
      frn_set record idx ;;;
      dir_index_insert idx ;;;
      bump_dirty ;;;
      st_ret UpsertOk
  end.

(** ** Hard links *)

Definition head_of (f : N) : ST VolumeIndex (option N) :=
  o <- frn_get (record_number f) ;;
  match o with
  | None => st_ret None
  | Some head => hf <- ent (EntryTable.frn head) ;; st_ret (if hf =? f then Some head else None)
  end.

(** The entries of a hard-link chain from [cur]. *)
Fixpoint links_loop (fuel : nat) (cur : N) : ST VolumeIndex (list N) :=
  if cur =? NIL then st_ret []
  else match fuel with
  | O => st_fail
  | S fuel => next <- ent (next_link cur) ;; rest <- links_loop fuel next ;; st_ret (cur :: rest)
  end.
Definition links_from (cur : N) : ST VolumeIndex (list N) := fuel <- st_get fuel_of ;; links_loop fuel cur.

Fixpoint has_link_loop (fuel : nat) (cur parent_idx : N) (name : list N) : ST VolumeIndex bool :=
  if cur =? NIL then st_ret false
  else match fuel with
  | O => st_fail
  | S fuel =>
      p <- ent (parent cur) ;;
      same <- (if p =? parent_idx
               then id <- ent (name_id cur) ;; b <- raw_name id ;; st_ret (bool_decide (b = name))
               else st_ret false) ;;
      if (same : bool) then st_ret true
      else next <- ent (next_link cur) ;; has_link_loop fuel next parent_idx name
  end.

Definition chain_has_link (f parent_idx : N) (name : list N) : ST VolumeIndex bool :=
  o <- head_of f ;;
  match o with
  | None => st_ret false
  | Some head => fuel <- st_get fuel_of ;; has_link_loop fuel head parent_idx name
  end.

(** [while next_link(tail) != NIL { tail = next_link(tail) }]. *)
Fixpoint tail_loop (fuel : nat) (tail : N) : ST VolumeIndex N :=
  next <- ent (next_link tail) ;;
  if next =? NIL then st_ret tail
  else match fuel with O => st_fail | S fuel => tail_loop fuel next end.

Definition add_link (f parent_idx : N) (name : list N) (name_lossy : bool) : ST VolumeIndex unit :=
  idx <- new_entry f parent_idx name (with_flag EMPTY NON_UNICODE_NAME name_lossy) SIZE_UNKNOWN MTIME_UNKNOWN ;;
  let record := record_number f in
  o <- frn_get record ;;
  match o with
  | Some head =>
      fuel <- st_get fuel_of ;;
      tail <- tail_loop fuel head ;;
      ent (set_next_link tail idx)
  | None => frn_set record idx
  end ;;;
  bump_dirty.

(** [position]: the first unused entry of the chain with this parent and name. *)
Fixpoint find_existing (pos : nat) (current : list N) (used : list bool) (par : N) (name : list N)
  : ST VolumeIndex (option nat) :=
  match current, used with
  | e :: current', u :: used' =>
      hit <- (if u : bool then st_ret false
              else
                p <- ent (parent e) ;;
                if p =? par
                then id <- ent (name_id e) ;; b <- raw_name id ;; st_ret (bool_decide (b = name))
                else st_ret false) ;;
      if (hit : bool) then st_ret (Some pos) else find_existing (S pos) current' used' par name
  | _, _ => st_ret None
  end.

(** The matching loop: the used flags and the kept entries it ends with. *)
Fixpoint match_links (f : N) (is_dir : bool) (size : N) (mtime : Z) (current : list N)
    (targets : list (LinkTarget * N)) (used : list bool) (kept : list N)
  : ST VolumeIndex (list bool * list N) :=
  match targets with
  | [] => st_ret (used, kept)
  | (target, par) :: targets' =>
      existing <- find_existing 0 current used par (wbytes (tname target)) ;;
      match existing with
      | Some pos =>
          match current !! pos with
          | None => st_fail
          | Some e => match_links f is_dir size mtime current targets' (<[pos := true]> used) (kept ++ [e])
          end
      | None =>
          let fl := with_flag (with_flag EMPTY DIR is_dir) NON_UNICODE_NAME (wlossy (tname target)) in
          idx <- new_entry f par (wbytes (tname target)) fl size mtime ;;
          dir_index_insert idx ;;;
          bump_dirty ;;;
          match_links f is_dir size mtime current targets' used (kept ++ [idx])
      end
  end.

(** Removes the entries whose flag is unset. *)
Fixpoint remove_unused (current : list N) (used : list bool) : ST VolumeIndex unit :=
  match current, used with
  | e :: current', u :: used' => st_when (negb u) (remove_entry e) ;;; remove_unused current' used'
  | _, _ => st_ret tt
  end.

Fixpoint relink (kept : list N) : ST VolumeIndex unit :=
  match kept with
  | [] => st_ret tt
  | e :: kept' => ent (set_next_link e (match kept' with n :: _ => n | [] => NIL end)) ;;; relink kept'
  end.

Definition set_chain_links (f : N) (is_dir : bool) (desired : list LinkTarget) : ST VolumeIndex unit :=
  let record := record_number f in
  o <- frn_get record ;;
  current <- match o with
             | None => st_ret []
             | Some head =>
                 hf <- ent (EntryTable.frn head) ;;
                 if hf =? f then links_from head
                 else reclaim_stale_slot record head ;;; st_ret []
             end ;;
  parents <- st_map (fun t => dead <- ent (is_tombstone (tparent t)) ;;
                              lf <- st_get lost_found ;;
                              st_ret (if dead : bool then lf else tparent t)) desired ;;
  sm <- match current with
        | [] => st_ret (SIZE_UNKNOWN, MTIME_UNKNOWN)
        | e :: _ => sz <- ent (EntryTable.size e) ;; mt <- ent (EntryTable.mtime e) ;; st_ret (sz, mt)
        end ;;
  r <- match_links f is_dir sm.1 sm.2 current (zip desired parents) (replicate (length current) false) [] ;;
  remove_unused current r.1 ;;;
  relink r.2 ;;;
  match r.2 with
  | [] => st_fail
  | e :: _ => frn_set record e
  end.

Definition reconcile_links (f : N) (actual : list LinkTarget) : ST VolumeIndex unit :=
  match actual with
  | [] => delete_frn f ;;; st_ret tt
  | _ =>
      o <- head_of f ;;
      is_dir <- match o with
                | Some h => fl <- ent (flags h) ;; st_ret (contains fl DIR)
                | None => st_ret false
                end ;;
      set_chain_links f is_dir actual
  end.

(** ** Sizes and dates *)

(** Applies an update to every entry of the chain from [cur]. *)
Fixpoint links_for (fuel : nat) (f : N -> ST VolumeIndex unit) (cur : N) : ST VolumeIndex unit :=
  if cur =? NIL then st_ret tt
  else match fuel with
  | O => st_fail
  | S fuel => f cur ;;; next <- ent (next_link cur) ;; links_for fuel f next
  end.

Definition set_stat (f size : N) (mtime : Z) : ST VolumeIndex unit :=
  o <- head_of f ;;
  match o with
  | None => st_ret tt
  | Some head =>
      fl <- ent (flags head) ;;
      fuel <- st_get fuel_of ;;
      links_for fuel (fun cur =>
        st_when (negb (contains fl DIR)) (ent (set_size cur size)) ;;;
        ent (set_mtime cur mtime)) head
  end.

Definition real_names (file : LayoutFile) : list LayoutName :=
  base.filter (fun n => dos_only n = false) (lf_names file).

Definition layout_is_dir (file : LayoutFile) : bool :=
  negb (N.land (lf_attributes file) FILE_ATTRIBUTE_DIRECTORY =? 0).

Definition enrich (file : LayoutFile) : ST VolumeIndex unit :=
  let f := lf_frn file in
  let is_dir := layout_is_dir file in
  o <- head_of f ;;
  go_on <- match o with
           | Some _ => st_ret true
           | None =>
               desired <- st_map (fun n =>
                 p <- resolve_link_parent f (ln_parent_frn n) ;;
                 st_ret {| tparent := p; tname := {| wbytes := ln_name n; wlossy := ln_name_lossy n |} |})
                 (real_names file) ;;
               match desired with
               | [] => st_ret false
               | _ => set_chain_links f is_dir desired ;;; st_ret true
               end
           end ;;
  st_when go_on (
    st_when (negb is_dir)
      (st_for (fun n =>
         parent_idx <- resolve_link_parent f (ln_parent_frn n) ;;
         has <- chain_has_link f parent_idx (ln_name n) ;;
         st_when (negb has) (add_link f parent_idx (ln_name n) (ln_name_lossy n))) (real_names file)) ;;;
    o <- head_of f ;;
    match o with
    | None => st_ret tt
    | Some chain_head =>
        fuel <- st_get fuel_of ;;
        links_for fuel (fun cur =>
          match lf_size file with
          | Some sz => st_when (negb is_dir) (ent (set_size cur sz))
          | None => st_ret tt
          end ;;;
          match lf_mtime_ft file with
          | Some mt => ent (set_mtime cur mt)
          | None => st_ret tt
          end) chain_head
    end).

(** ** Bootstrap ingestion *)

Definition insert_enum (rec : ParsedUsnRecord) : ST VolumeIndex unit :=
  upsert_link (UsnRecord.frn rec) (parent_frn rec) (UsnRecord.name rec) (name_lossy rec) (UsnRecord.is_dir rec) ;;;
  st_ret tt.

Definition insert_layout (file : LayoutFile) : ST VolumeIndex unit :=
  match list_find (fun n => dos_only n = false) (lf_names file) with
  | Some (_, n) =>
      if ln_parent_frn n =? lf_frn file then st_ret tt
      else upsert_link (lf_frn file) (ln_parent_frn n) (ln_name n) (ln_name_lossy n) (layout_is_dir file) ;;; st_ret tt
  | None => st_ret tt
  end ;;;
  enrich file.
End ops.

Section live_apply.
Context {U : Unicode} {H : Hasher}.

(** ** The live apply path *)

Definition push_stat (f : N) (o : ApplyOutcome) : ApplyOutcome :=
  {| needs_stat := needs_stat o ++ [f]; needs_link_reconcile := needs_link_reconcile o;
     anomalies := anomalies o; wants_compact := wants_compact o |}.
Definition push_reconcile (f : N) (o : ApplyOutcome) : ApplyOutcome :=
  {| needs_stat := needs_stat o; needs_link_reconcile := needs_link_reconcile o ++ [f];
     anomalies := anomalies o; wants_compact := wants_compact o |}.
Definition push_anomaly (a : Anomaly) (o : ApplyOutcome) : ApplyOutcome :=
  {| needs_stat := needs_stat o; needs_link_reconcile := needs_link_reconcile o;
     anomalies := anomalies o ++ [a]; wants_compact := wants_compact o |}.

Definition apply_op (op : UsnOp) (o : ApplyOutcome) : ST VolumeIndex ApplyOutcome :=
  match op with
  | Upsert f par name lossy is_dir =>
      r <- upsert_link f par name lossy is_dir ;;
      st_ret match r with NeedsReconcile => push_reconcile f o | UpsertOk => o end
  | Delete f =>
      ok <- delete_frn f ;;
      if (ok : bool) then st_ret o
      else tick bump_unknown ;;; st_ret (push_anomaly (DeleteOfUnknown f) o)
  | LinkDirty f => st_ret (push_reconcile f o)
  | StatDirty f => st_ret (push_stat f o)
  | RenameOldSeen _ => tick bump_rename_old ;;; st_ret o
  end.

Fixpoint apply_ops (ops : list UsnOp) (o : ApplyOutcome) : ST VolumeIndex ApplyOutcome :=
  match ops with
  | [] => st_ret o
  | op :: ops' => o <- apply_op op o ;; apply_ops ops' o
  end.

Fixpoint apply_records (records : list ParsedUsnRecord) (o : ApplyOutcome) : ST VolumeIndex ApplyOutcome :=
  match records with
  | [] => st_ret o
  | rec :: records' => o <- apply_ops (ops_for rec) o ;; apply_records records' o
  end.

(** [needs_stat.retain(|frn| self.head_of(frn).is_some())]. *)
Fixpoint retain_known (l : list N) : ST VolumeIndex (list N) :=
  match l with
  | [] => st_ret []
  | f :: l' => h <- head_of f ;; rest <- retain_known l' ;; st_ret (if is_some h then f :: rest else rest)
  end.

Definition apply_batch (records : list ParsedUsnRecord) : ST VolumeIndex ApplyOutcome :=
  o <- apply_records records outcome_default ;;
  merge <- st_get (fun v => wants_merge (names v)) ;;
  st_when merge (nam merge_unranked) ;;;
  stat <- retain_known (needs_stat o) ;;
  prune_cycle_suspects ;;;
  st_modify (fun v => with_generation (generation v + 1) v) ;;;
  wc <- st_get (fun v => should_compact (names v)) ;;
  st_ret {| needs_stat := stat; needs_link_reconcile := needs_link_reconcile o;
            anomalies := anomalies o; wants_compact := wc |}.

Definition note_link_reconciles_dropped (n : N) : ST VolumeIndex unit := tick (bump_dropped n).

(** ** Building and storage *)

Definition new (root_frn : N) (frn_map : FrnMap) : option VolumeIndex :=
  '(root_name, ns) ← intern [] empty_store;
  '(rt, t) ← alloc root_frn NIL root_name DIR SIZE_UNKNOWN MTIME_UNKNOWN NIL empty_table;
  let m := FrnMap.set (record_number root_frn) rt frn_map in
  '(lf_name, ns) ← intern LOST_FOUND_NAME ns;
  '(lf, t) ← alloc LOST_FOUND_FRN NIL lf_name (with_flag DIR LOST_FOUND true) SIZE_UNKNOWN MTIME_UNKNOWN NIL t;
  let v := {| entries := t; names := ns; by_frn := m; root := rt; lost_found := lf; generation := 0;
              stats := stats_default; dirty := 0; dir_children := ∅; cycle_suspects := [] |} in
  '(_, v) ← link_same_name rt root_name v;
  '(_, v) ← link_same_name lf lf_name v;
  Some v.

Definition plan_compaction (v : VolumeIndex) : option (option CompactedNames) :=
  if negb (should_compact (names v)) then Some None else c ← plan_compact (names v); Some (Some c).

(** Rewrites one live entry's name id. *)
Definition remap_entry (remap : list N) (idx : N) : ST VolumeIndex unit :=
  dead <- ent (is_tombstone idx) ;;
  if (dead : bool) then st_ret tt
  else
    id <- ent (name_id idx) ;;
    new_id <- st_read (fun _ => getN id remap) ;;
    ent (set_name_id idx new_id).

Definition slot_ids (v : VolumeIndex) : list N := N.of_nat <$> seq 0 (fuel_of v).

Definition apply_compaction (plan : CompactedNames) : ST VolumeIndex unit :=
  remap <- nam (install_compacted plan) ;;
  slots <- st_get slot_ids ;;
  st_for (remap_entry remap) slots.

Definition shrink_to_fit : ST VolumeIndex unit :=
  ent shrink_with_headroom ;;; nam name_shrink_with_headroom.

(** [capacity] is what the sparse map has allocated. *)
Definition optimize_storage (capacity : N) : ST VolumeIndex unit :=
  st_modify (fun v => with_by_frn (densify_if_smaller capacity (by_frn v)) v) ;;;
  nam build_order ;;;
  prune_cycle_suspects ;;;
  shrink_to_fit.

(** ** Reading *)

Definition has_orphans : ST VolumeIndex bool :=
  lf <- st_get lost_found ;; c <- ent (first_child lf) ;; st_ret (negb (c =? NIL)).
Definition has_parent_cycle (v : VolumeIndex) : bool := negb (match cycle_suspects v with [] => true | _ => false end).
Definition may_have_unpresentable : ST VolumeIndex bool :=
  o <- has_orphans ;; c <- st_get has_parent_cycle ;; st_ret (o || c).
Definition vlen (v : VolumeIndex) : N := EntryTable.live (entries v).
Definition take_write_count : ST VolumeIndex N := d <- st_get dirty ;; st_modify (with_dirty 0) ;;; st_ret d.

(** The entries from [cur] up to the first without a parent, at most [hops]. *)
Fixpoint parents_loop (hops : nat) (cur : N) : ST VolumeIndex (list N) :=
  match hops with
  | O => st_ret []
  | S hops =>
      p <- ent (parent cur) ;;
      if p =? NIL then st_ret [cur]
      else rest <- parents_loop hops p ;; st_ret (cur :: rest)
  end.

(** Appends the names from the top of the chain down. *)
Fixpoint emit_path (chain : list N) (out : list N) : ST VolumeIndex (list N) :=
  match chain with
  | [] => st_ret out
  | e :: chain' =>
      rt <- st_get root ;;
      if e =? rt then emit_path chain' out
      else
        id <- ent (name_id e) ;;
        b <- raw_name id ;;
        emit_path chain' ((match out with [] => [] | _ => out ++ [0x5C] end) ++ b)
  end.

Definition path_of (idx : N) (out : list N) : ST VolumeIndex (PathStatus * list N) :=
  dead <- ent (is_tombstone idx) ;;
  if (dead : bool) then st_ret (Removed, out)
  else
    chain <- parents_loop (N.to_nat MAX_PATH_HOPS) idx ;;
    match last chain with
    | None => st_fail
    | Some top =>
        tp <- ent (parent top) ;;
        if negb (tp =? NIL) then st_ret (CycleDetected, out)
        else
          lf <- st_get lost_found ;;
          out <- emit_path (reverse chain) out ;;
          st_ret (if top =? lf then InLostFound else PathOk, out)
    end.

(** [entry_if_frn]: the entry itself stands for the borrowed view. *)
Definition entry_if_frn (idx f : N) : ST VolumeIndex (option N) :=
  cap <- st_get (fun v => capacity (entries v)) ;;
  if cap <=? idx then st_ret None
  else
    dead <- ent (is_tombstone idx) ;;
    if (dead : bool) then st_ret None
    else ef <- ent (EntryTable.frn idx) ;; st_ret (if ef =? f then Some idx else None).

Fixpoint find_dir (cands : list N) (fold_name : list N) : ST VolumeIndex (option N) :=
  match cands with
  | [] => st_ret None
  | d :: cands' =>
      b <- folded_name d ;;
      if bool_decide (b = fold_name) then st_ret (Some d) else find_dir cands' fold_name
  end.
Definition child_dir (par : N) (fold_name : list N) : ST VolumeIndex (option N) :=
  o <- st_get (fun v => dir_children v !! (par, dir_key_hash fold_name)) ;;
  match o with
  | None => st_ret None
  | Some cands => find_dir cands fold_name
  end.

Definition is_synthetic (idx : N) : ST VolumeIndex bool :=
  fl <- ent (flags idx) ;;
  rt <- st_get root ;;
  lf <- st_get lost_found ;;
  st_ret ((idx =? rt) || (idx =? lf) || contains fl PLACEHOLDER || contains fl LOST_FOUND).

(** Option-typed metadata of an entry ([EntryView]). *)
Definition view_size (idx : N) : ST VolumeIndex (option N) :=
  s <- ent (EntryTable.size idx) ;; st_ret (if s =? SIZE_UNKNOWN then None else Some s).
Definition view_mtime (idx : N) : ST VolumeIndex (option Z) :=
  m <- ent (EntryTable.mtime idx) ;; st_ret (if (m =? MTIME_UNKNOWN)%Z then None else Some m).

(** *** Iterators over the chains, as the lists they yield *)

Fixpoint name_chain_loop (fuel : nat) (cur : N) : ST VolumeIndex (list N) :=
  if cur =? NIL then st_ret []
  else match fuel with
  | O => st_fail
  | S fuel => next <- ent (next_same cur) ;; rest <- name_chain_loop fuel next ;; st_ret (cur :: rest)
  end.
Definition name_chain (id : N) : ST VolumeIndex (list N) :=
  fuel <- st_get fuel_of ;; h <- nam (st_read (chain_head id)) ;; name_chain_loop fuel h.

Fixpoint children_loop (fuel : nat) (cur : N) : ST VolumeIndex (list N) :=
  if cur =? NIL then st_ret []
  else match fuel with
  | O => st_fail
  | S fuel => next <- ent (next_child cur) ;; rest <- children_loop fuel next ;; st_ret (cur :: rest)
  end.
Definition children (dir : N) : ST VolumeIndex (list N) :=
  fuel <- st_get fuel_of ;; h <- ent (first_child dir) ;; children_loop fuel h.

(** The climb of [SubtreeWalk::next]: the next entry and its depth, [NIL] at
    the end. *)
Fixpoint climb (fuel : nat) (rt at_ depth : N) : ST VolumeIndex (N * N) :=
  sib <- ent (next_child at_) ;;
  if negb (sib =? NIL) then st_ret (sib, depth)
  else if depth <=? 1 then st_ret (NIL, depth)
  else match fuel with
  | O => st_fail
  | S fuel =>
      up <- ent (parent at_) ;;
      if (up =? rt) || (up =? NIL) then st_ret (NIL, depth - 1)
      else climb fuel rt up (depth - 1)
  end.

(** [SubtreeWalk::next] from a non-NIL cursor: the new cursor and depth. *)
Definition walk_next (rt cur depth : N) : ST VolumeIndex (N * N) :=
  down <- ent (first_child cur) ;;
  if negb (down =? NIL) then st_ret (down, depth + 1)
  else climb (N.to_nat depth) rt cur depth.

(** The first [n] entries the walk yields. *)
Fixpoint walk_take (n : nat) (rt cur depth : N) : ST VolumeIndex (list N) :=
  match n with
  | O => st_ret []
  | S n =>
      if cur =? NIL then st_ret []
      else r <- walk_next rt cur depth ;; rest <- walk_take n rt r.1 r.2 ;; st_ret (cur :: rest)
  end.
Definition subtree_entries (n : nat) (rt : N) : ST VolumeIndex (list N) :=
  c <- ent (first_child rt) ;; walk_take n rt c 1.
End live_apply.
