(* ===== verification/VolumeInv.v ===== *)
(** The invariant of the per-volume index, and its primitive operations.

    [Inv] says, of a state in the middle of an operation, that every chain,
    count and map is exact with respect to four ghost functions: under which
    name an entry is chained ([S]), under which parent ([C]), under which key
    of the scope index ([D]), and how many references to a name are held by no
    chained entry ([R]).  [vol_ok] says that between operations these functions
    are what the entry columns say and nothing is pending. *)

From stdpp Require Import gmap.
From stdpp Require Import base option list sets.
From Stdlib Require Import NArith ZArith Lia.
From S2P Require Import Prelude Types Wtf8 UsnRecord UsnOps LayoutParse Fold FrnMap NameStore NameOrder EntryTable Chain Volume.

(** ** Symbolic execution on the parts *)

Lemma with_entries_id v : with_entries (entries v) v = v.
Proof. by destruct v. Qed.
Lemma with_names_id v : with_names (names v) v = v.
Proof. by destruct v. Qed.

Section exec.
Implicit Types (v : VolumeIndex).

Lemma wp_ent_read {A} (f : EntryTable -> option A) Q v a :
  f (entries v) = Some a -> Q a v -> wp (ent (st_read f)) Q v.
Proof. intros E HQ. apply wp_zoom. eapply wp_read; [exact E|]. by rewrite with_entries_id. Qed.

Lemma wp_ent_set (f : EntryTable -> option EntryTable) Q v t :
  f (entries v) = Some t -> Q tt (with_entries t v) -> wp (ent (st_update f)) Q v.
Proof. intros E HQ. apply wp_zoom. by eapply wp_update. Qed.

Lemma wp_nam_read {A} (f : NameStore -> option A) Q v a :
  f (names v) = Some a -> Q a v -> wp (nam (st_read f)) Q v.
Proof. intros E HQ. apply wp_zoom. eapply wp_read; [exact E|]. by rewrite with_names_id. Qed.

Lemma wp_nam_set (f : NameStore -> option NameStore) Q v n :
  f (names v) = Some n -> Q tt (with_names n v) -> wp (nam (st_update f)) Q v.
Proof. intros E HQ. apply wp_zoom. by eapply wp_update. Qed.
End exec.

(** Runs a column read whose value is known, or a column write in range. *)
Ltac wp_get_col := eapply wp_ent_read; [eassumption|].
Ltac wp_set_col := eapply wp_ent_set; [rewrite setN_some by (simpl; autorewrite with goz_len; solve [lia | auto]); reflexivity|].

(** ** Keys read off the columns *)

Definition live_e (fl : list N) (e : N) : Prop :=
  match getN e fl with Some f => contains f TOMBSTONE = false | None => False end.

#[export] Instance live_e_dec fl e : Decision (live_e fl e).
Proof. unfold live_e. destruct (getN e fl); [apply _|right; tauto]. Defined.

Definition alive (v : VolumeIndex) (e : N) : Prop := live_e (c_flags (entries v)) e.
Definition cap (v : VolumeIndex) : N := len (c_frn (entries v)).

Definition same_key (v : VolumeIndex) (e : N) : option N :=
  if decide (alive v e) then getN e (c_name_id (entries v)) else None.

Definition child_key (v : VolumeIndex) (e : N) : option N :=
  if decide (alive v e) then p ← getN e (c_parent (entries v)); if p =? NIL then None else Some p else None.

(** The entries of the scope index: real directories. *)
Definition scope_dir (v : VolumeIndex) (e : N) : bool :=
  match getN e (c_flags (entries v)) with
  | Some f => negb (contains f TOMBSTONE) && contains f DIR && negb (contains f PLACEHOLDER) &&
              negb (e =? root v) && negb (e =? lost_found v)
  | None => false
  end.

Definition dirkey `{Hasher} (v : VolumeIndex) (e : N) : option (N * N) :=
  if scope_dir v e then
    p ← getN e (c_parent (entries v)); id ← getN e (c_name_id (entries v));
    f ← folded_bytes_of (names v) id; Some (p, hash_bytes f)
  else None.

(** ** The invariant *)

Record free_ok (fl fr : list N) (n : N) : Prop := {
  fr_nodup : NoDup fr;
  fr_exact e : e ∈ fr <-> e < len fl /\ ~ live_e fl e;
  fr_count : n + len fr = len fl
}.

(** Every name's count is its chained entries plus the pending references. *)
Definition refs_ok (rcs : list N) (S : N -> option N) (R : N -> N) : Prop :=
  forall id, match getN id rcs with
  | Some rc => exists l, NoDup l /\ (forall e, e ∈ l <-> S e = Some id) /\ rc = len l + R id
  | None => R id = 0
  end.

Record dir_ok (m : gmap (N * N) (list N)) (D : N -> option (N * N)) : Prop := {
  d_exact k e : e ∈ default [] (m !! k) <-> D e = Some k;
  d_slot k l : m !! k = Some l -> l <> [] /\ NoDup l
}.

(** The live entries of a record number, lost+found apart. *)
Definition has_record (fl frns : list N) (lf r e : N) : Prop :=
  live_e fl e /\ e <> lf /\ exists f, getN e frns = Some f /\ record_number f = r.

Definition link_ok (fl frns nl : list N) (lf : N) (m : FrnMap) (r : N) : Prop :=
  match FrnMap.get m r with
  | Some h => exists l f, nseg nl h l /\ NoDup l /\ l <> [] /\
      (forall e, e ∈ l <-> has_record fl frns lf r e) /\ forall e, e ∈ l -> getN e frns = Some f
  | None => forall e, ~ has_record fl frns lf r e
  end.

Definition links_ok (fl frns nl : list N) (lf : N) (m : FrnMap) (hole : option N) : Prop :=
  forall r, hole <> Some r -> link_ok fl frns nl lf m r.

Section inv.
Context {U : Unicode} {H : Hasher}.

Record Inv (v : VolumeIndex) (S C : N -> option N) (D : N -> option (N * N)) (R : N -> N)
    (ex hole : option N) : Prop := {
  i_cols : cols_ok (entries v);
  i_free : free_ok (c_flags (entries v)) (free (entries v)) (live_count (entries v));
  i_ns : ns_ok (names v);
  i_order : order_ok (names v);
  i_same : chains (c_next_same (entries v)) (c_prev_same (entries v)) (head (names v)) S None;
  i_refs : refs_ok (refcount (names v)) S R;
  i_child : chains (c_next_child (entries v)) (c_prev_child (entries v)) (c_first_child (entries v)) C ex;
  i_dir : dir_ok (dir_children v) D;
  i_map : frn_map_ok (by_frn v);
  i_link : links_ok (c_flags (entries v)) (c_frn (entries v)) (c_next_link (entries v)) (lost_found v)
             (by_frn v) hole;
  i_lf : alive v (lost_found v);
  i_susp : Forall (fun e => e < cap v) (cycle_suspects v)
}.

(** A parent belongs to a live entry and is live; a free slot and lost+found
    have none. *)
Definition parents_ok (v : VolumeIndex) : Prop :=
  (forall e p, getN e (c_parent (entries v)) = Some p -> p = NIL \/ alive v e /\ alive v p) /\
  getN (lost_found v) (c_parent (entries v)) = Some NIL.

(** Between operations. *)
Definition vol_inv (v : VolumeIndex) (hole : option N) : Prop :=
  Inv v (same_key v) (child_key v) (dirkey v) (fun _ => 0) None hole /\ parents_ok v.
Definition vol_ok (v : VolumeIndex) : Prop := vol_inv v None.
End inv.

(** ** Chain operations *)

Definition upd_same (nx pv hd : list N) (v : VolumeIndex) : VolumeIndex :=
  with_names (with_head hd (names v)) (with_entries (with_prev_same pv (with_next_same nx (entries v))) v).
Definition upd_child (nx pv fc : list N) (v : VolumeIndex) : VolumeIndex :=
  with_entries (with_first_child fc (with_prev_child pv (with_next_child nx (entries v)))) v.

Definition ref_add (id : N) (R : N -> N) (x : N) : N := if decide (x = id) then R x + 1 else R x.
Definition ref_sub (id : N) (R : N -> N) (x : N) : N := if decide (x = id) then R x - 1 else R x.

Lemma refs_push rcs S R e id :
  refs_ok rcs S R -> S e = None -> 0 < R id -> refs_ok rcs (key_set e (Some id) S) (ref_sub id R).
Proof.
  intros Hr He Hid j. specialize (Hr j). unfold ref_sub. destruct (getN j rcs) as [rc|] eqn:Hj.
  - destruct Hr as (l & Hnd & Hin & ->). case_decide; subst.
    + exists (e :: l). assert (e ∉ l) by (rewrite Hin; congruence). split; [by constructor|]. split.
      * intros x. rewrite elem_of_cons, Hin. unfold key_set. case_decide; naive_solver.
      * rewrite len_cons. lia.
    + exists l. split; [done|]. split; [|done]. intros x. rewrite Hin. unfold key_set. case_decide; naive_solver.
  - case_decide; subst; lia.
Qed.

Lemma refs_cut rcs S R e id :
  refs_ok rcs S R -> S e = Some id -> is_Some (getN id rcs) -> refs_ok rcs (key_set e None S) (ref_add id R).
Proof.
  intros Hr He [rc0 Hrc0] j. specialize (Hr j). unfold ref_add. destruct (getN j rcs) as [rc|] eqn:Hj.
  - destruct Hr as (l & Hnd & Hin & ->). case_decide; subst.
    + apply Hin in He. apply list_elem_of_split in He as (l1 & l2 & ->). exists (l1 ++ l2).
      rewrite <- Permutation_middle in Hnd.
      apply NoDup_cons in Hnd as [Hni Hnd]. split; [done|]. split.
      * intros x. unfold key_set. specialize (Hin x). case_decide; [subst; split; [done|done]|].
        rewrite <- Hin. set_solver.
      * rewrite !len_app, len_cons. lia.
    + exists l. split; [done|]. split; [|done]. intros x. rewrite Hin. unfold key_set. case_decide; naive_solver.
  - case_decide; [congruence|done].
Qed.

Section chain_ops.
Context {U : Unicode} {H : Hasher}.
Implicit Types (v : VolumeIndex).

Lemma ns_ok_with_head n hd : ns_ok n -> len hd = len (head n) -> ns_ok (with_head hd n).
Proof. intros [gs R] Hl. exists gs. apply repr_head; [done|]. by rewrite Hl, (r_head _ _ R). Qed.

Lemma order_ok_with_head n hd : order_ok n -> order_ok (with_head hd n).
Proof. intros []. by split. Qed.

(** The fields a change of the same-name columns leaves alone. *)
Lemma Inv_upd_same v S C D R ex hole nx pv hd S' R' :
  Inv v S C D R ex hole ->
  chains nx pv hd S' None -> len nx = cap v -> len hd = len (head (names v)) ->
  refs_ok (refcount (names v)) S' R' -> Inv (upd_same nx pv hd v) S' C D R' ex hole.
Proof.
  intros I Hc Hnx Hhd Hr. destruct I. split; try done; simpl.
  - unfold cols_ok in *. simpl. pose proof (ch_len _ _ _ _ _ Hc). unfold cap in *. naive_solver congruence.
  - by apply ns_ok_with_head.
  - by apply order_ok_with_head.
Qed.

Lemma Inv_upd_child v S C D R ex hole nx pv fc C' ex' :
  Inv v S C D R ex hole ->
  chains nx pv fc C' ex' -> len nx = cap v -> len fc = cap v -> Inv (upd_child nx pv fc v) S C' D R ex' hole.
Proof.
  intros I Hc Hnx Hfc. destruct I. split; try done; simpl.
  unfold cols_ok in *. simpl. pose proof (ch_len _ _ _ _ _ Hc). unfold cap in *. naive_solver congruence.
Qed.

Lemma len_head_ids n : ns_ok n -> len (head n) = ids n.
Proof. intros [gs R]. unfold ids. by rewrite (len_pairs _ _ R), (r_head _ _ R). Qed.

Lemma wp_link_same_name v S C D R ex hole idx id Q :
  Inv v S C D R ex hole -> idx < cap v -> S idx = None -> id < ids (names v) -> 0 < R id ->
  (forall nx pv hd, Inv (upd_same nx pv hd v) (key_set idx (Some id) S) C D (ref_sub id R) ex hole ->
     Q tt (upd_same nx pv hd v)) ->
  wp (link_same_name idx id) Q v.
Proof.
  intros I Hidx HS Hid HR HQ. unfold cap in *. pose proof (i_cols _ _ _ _ _ _ _ I) as Hc. unfold cols_ok in Hc.
  pose proof (i_same _ _ _ _ _ _ _ I) as Hch. rewrite <- len_head_ids in Hid by apply (i_ns _ _ _ _ _ _ _ I).
  destruct (getN_is_Some id (head (names v)) Hid) as [old Hold].
  assert (Hold' : old <> NIL -> old < len (c_next_same (entries v))).
  { intros Hn. pose proof (chains_head _ _ _ _ _ _ _ Hch ltac:(done) Hold Hn) as Hk.
    by apply (ch_range _ _ _ _ _ Hch) in Hk as [? _]. }
  pose proof (chains_push _ _ _ _ _ idx id old Hch ltac:(done) HS ltac:(lia) Hold) as Hch'.
  pose proof (Inv_upd_same v S C D R ex hole _ _ _ _ (ref_sub id R) I Hch') as I'.
  assert (Hfin : Q tt (upd_same (push_next (c_next_same (entries v)) idx old) (push_prev (c_prev_same (entries v)) idx old)
                   (<[N.to_nat id := idx]> (head (names v))) v)).
  { apply HQ, I'; [unfold push_next, cap; rewrite len_insert; lia|by rewrite len_insert|].
    by apply refs_push; [apply (i_refs _ _ _ _ _ _ _ I)|..]. }
  unfold link_same_name. apply wp_bind. eapply wp_nam_read; [exact Hold|].
  apply wp_bind. wp_set_col. apply wp_bind. wp_set_col. apply wp_bind. apply wp_when.
  - intros Hn. simpl_cmp. wp_set_col. eapply wp_nam_set.
    { unfold set_chain_head. simpl. rewrite setN_some by done. reflexivity. }
    revert Hfin. unfold push_prev. rewrite (proj2 (N.eqb_neq _ _) Hn). done.
  - intros Hn. simpl_cmp. eapply wp_nam_set.
    { unfold set_chain_head. simpl. rewrite setN_some by done. reflexivity. }
    revert Hfin. unfold push_prev. subst old. rewrite N.eqb_refl. done.
Qed.

Lemma wp_unlink_same_name v S C D R ex hole idx id Q :
  Inv v S C D R ex hole -> S idx = Some id -> getN idx (c_name_id (entries v)) = Some id ->
  (forall nx pv hd, Inv (upd_same nx pv hd v) (key_set idx None S) C D (ref_add id R) ex hole ->
     Q tt (upd_same nx pv hd v)) ->
  wp (unlink_same_name idx) Q v.
Proof.
  intros I HS Hnm HQ. unfold cap in *. pose proof (i_cols _ _ _ _ _ _ _ I) as Hc. unfold cols_ok in Hc.
  pose proof (i_same _ _ _ _ _ _ _ I) as Hch. destruct (ch_range _ _ _ _ _ Hch _ _ HS) as [Hidx Hid].
  destruct (getN_is_Some idx (c_prev_same (entries v))) as [prev Hprev]; [lia|].
  destruct (getN_is_Some idx (c_next_same (entries v))) as [next Hnext]; [lia|].
  destruct (chains_pointers _ _ _ _ _ _ _ _ _ Hch ltac:(done) HS Hprev Hnext) as [Hp Hn].
  pose proof (chains_unlink _ _ _ _ _ _ _ _ _ Hch ltac:(done) HS Hprev Hnext) as Hch'.
  pose proof (Inv_upd_same v S C D R ex hole _ _ _ _ (ref_add id R) I Hch') as I'.
  assert (Hfin : Q tt (upd_same (cut_next (c_next_same (entries v)) idx prev next)
                   (cut_prev (c_prev_same (entries v)) idx prev next) (cut_head (head (names v)) id prev next) v)).
  { apply HQ, I'; [unfold cap; rewrite len_cut_next; lia|by rewrite len_cut_head|].
    apply refs_cut; [apply (i_refs _ _ _ _ _ _ _ I)|done|].
    apply getN_is_Some. rewrite ids_refcount by apply (i_ns _ _ _ _ _ _ _ I).
    rewrite <- len_head_ids by apply (i_ns _ _ _ _ _ _ _ I). done. }
  unfold unlink_same_name. apply wp_bind. wp_get_col. apply wp_bind. wp_get_col. apply wp_bind. wp_get_col.
  revert Hfin. unfold cut_next, cut_prev, cut_head, upd_same. intros Hfin.
  apply wp_bind. destruct (N.eqb_spec prev NIL).
  - eapply wp_nam_set.
    { unfold set_chain_head. rewrite setN_some by done. reflexivity. }
    apply wp_bind, wp_when; intros Hnn; rewrite Hnn in Hfin; simpl_cmp;
      repeat first [apply wp_bind; wp_set_col | wp_set_col]; exact Hfin.
  - wp_set_col.
    apply wp_bind, wp_when; intros Hnn; rewrite Hnn in Hfin; simpl_cmp;
      repeat first [apply wp_bind; wp_set_col | wp_set_col]; destruct v as [? [] ? ? ? ? ? ? ? ?]; exact Hfin.
Qed.

Lemma wp_link_child v S C D R ex hole idx par Q :
  Inv v S C D R ex hole -> idx < cap v -> C idx = None -> getN idx (c_parent (entries v)) = Some par ->
  (par <> NIL -> par < cap v /\ Some par <> ex) ->
  (par = NIL -> Q tt v) ->
  (par <> NIL -> forall nx pv fc, Inv (upd_child nx pv fc v) S (key_set idx (Some par) C) D R ex hole ->
     (forall x, x <> idx -> getN x nx = getN x (c_next_child (entries v))) -> Q tt (upd_child nx pv fc v)) ->
  wp (link_child idx) Q v.
Proof.
  intros I Hidx HC Hpar Hlt HQ0 HQ. unfold link_child. apply wp_bind. wp_get_col.
  destruct (N.eqb_spec par NIL) as [E|Hne]; [by apply wp_ret, HQ0|].
  destruct (Hlt Hne) as [Hpl Hex]. specialize (HQ Hne).
  unfold cap in *. pose proof (i_cols _ _ _ _ _ _ _ I) as Hc. unfold cols_ok in Hc.
  pose proof (i_child _ _ _ _ _ _ _ I) as Hch.
  destruct (getN_is_Some par (c_first_child (entries v))) as [old Hold]; [lia|].
  assert (Hold' : old <> NIL -> old < len (c_next_child (entries v))).
  { intros Hn. pose proof (chains_head _ _ _ _ _ _ _ Hch Hex Hold Hn) as Hk.
    by apply (ch_range _ _ _ _ _ Hch) in Hk as [? _]. }
  pose proof (chains_push _ _ _ _ _ idx par old Hch Hex HC ltac:(lia) Hold) as Hch'.
  assert (Hfin : Q tt (upd_child (push_next (c_next_child (entries v)) idx old) (push_prev (c_prev_child (entries v)) idx old)
                   (<[N.to_nat par := idx]> (c_first_child (entries v))) v)).
  { apply HQ.
    - eapply Inv_upd_child; [exact I|exact Hch'|..]; unfold push_next, cap; rewrite len_insert; lia.
    - intros x Hx. unfold push_next. rewrite getN_insert, decide_False by (congruence || lia). done. }
  apply wp_bind. wp_get_col. apply wp_bind. wp_set_col. apply wp_bind. wp_set_col. apply wp_bind.
  revert Hfin. unfold push_next, push_prev, upd_child. intros Hfin.
  apply wp_when; intros Hn; rewrite Hn in Hfin; simpl_cmp; repeat wp_set_col; exact Hfin.
Qed.

Lemma wp_unlink_child v S C D R ex hole idx par Q :
  Inv v S C D R ex hole -> getN idx (c_parent (entries v)) = Some par ->
  C idx = (if par =? NIL then None else Some par) -> Some par <> ex ->
  (par = NIL -> Q tt v) ->
  (par <> NIL -> forall nx pv fc, Inv (upd_child nx pv fc v) S (key_set idx None C) D R ex hole ->
     Q tt (upd_child nx pv fc v)) ->
  wp (unlink_child idx) Q v.
Proof.
  intros I Hpar HC Hex HQ0 HQ. unfold unlink_child. apply wp_bind. wp_get_col.
  destruct (N.eqb_spec par NIL) as [E|Hne]; [by apply wp_ret, HQ0|].
  specialize (HQ Hne). unfold cap in *. pose proof (i_cols _ _ _ _ _ _ _ I) as Hc. unfold cols_ok in Hc.
  pose proof (i_child _ _ _ _ _ _ _ I) as Hch. destruct (ch_range _ _ _ _ _ Hch _ _ HC) as [Hidx Hid].
  destruct (getN_is_Some idx (c_prev_child (entries v))) as [prev Hprev]; [lia|].
  destruct (getN_is_Some idx (c_next_child (entries v))) as [next Hnext]; [lia|].
  destruct (chains_pointers _ _ _ _ _ _ _ _ _ Hch Hex HC Hprev Hnext) as [Hp Hn].
  pose proof (chains_unlink _ _ _ _ _ _ _ _ _ Hch Hex HC Hprev Hnext) as Hch'.
  assert (Hfin : Q tt (upd_child (cut_next (c_next_child (entries v)) idx prev next)
                   (cut_prev (c_prev_child (entries v)) idx prev next) (cut_head (c_first_child (entries v)) par prev next) v)).
  { apply HQ. eapply Inv_upd_child; [exact I|exact Hch'|..]; unfold cap; rewrite ?len_cut_next, ?len_cut_head; lia. }
  apply wp_bind. wp_get_col. apply wp_bind. wp_get_col.
  revert Hfin. unfold cut_next, cut_prev, cut_head, upd_child. intros Hfin.
  apply wp_bind. destruct (N.eqb_spec prev NIL); wp_set_col;
    (apply wp_bind, wp_when; intros Hnn; rewrite Hnn in Hfin; simpl_cmp;
      repeat first [apply wp_bind; wp_set_col | wp_set_col]; exact Hfin).
Qed.
End chain_ops.

(** ** The scope index *)

Lemma dir_ok_insert m D e k :
  dir_ok m D -> D e = None ->
  dir_ok (<[k := slot_push e (default [] (m !! k))]> m) (key_set e (Some k) D).
Proof.
  intros [H1 H2] He. assert (Hni : e ∉ default [] (m !! k)) by (rewrite H1; congruence).
  assert (Hp : slot_push e (default [] (m !! k)) = default [] (m !! k) ++ [e]).
  { unfold slot_push. by rewrite bool_decide_eq_false_2. }
  split.
  - intros j x. unfold key_set. destruct (decide (j = k)) as [->|Hjk].
    + rewrite lookup_insert_eq. simpl. rewrite Hp, elem_of_app, list_elem_of_singleton, H1.
      case_decide; naive_solver.
    + rewrite lookup_insert_ne, H1 by done. case_decide; naive_solver.
  - intros j l. destruct (decide (j = k)) as [->|Hjk].
    + rewrite lookup_insert_eq, Hp. intros [= <-]. split; [by destruct (default [] (m !! k))|].
      apply NoDup_app. split_and!; [|set_solver|apply NoDup_singleton].
      destruct (m !! k) eqn:E; simpl; [by apply (H2 k)|constructor].
    + rewrite lookup_insert_ne by done. apply H2.
Qed.

Lemma slot_drop_lookup e k m j :
  default [] (slot_drop e k m !! j) =
    if decide (j = k) then base.filter (fun d => d <> e) (default [] (m !! j)) else default [] (m !! j).
Proof.
  unfold slot_drop. destruct (m !! k) as [slot|] eqn:E.
  - destruct (base.filter (fun d => d <> e) slot) as [|x l] eqn:F; case_decide; subst.
    + rewrite lookup_delete_eq, E. simpl. by rewrite F.
    + by rewrite lookup_delete_ne.
    + rewrite lookup_insert_eq, E. simpl. by rewrite F.
    + by rewrite lookup_insert_ne.
  - case_decide; subst; [by rewrite E|done].
Qed.

Lemma dir_ok_drop m D e k :
  dir_ok m D -> D e = Some k \/ D e = None -> dir_ok (slot_drop e k m) (key_set e None D).
Proof.
  intros [H1 H2] He. split.
  - intros j x. rewrite slot_drop_lookup. unfold key_set. repeat case_decide; subst.
    + rewrite list_elem_of_filter. naive_solver.
    + rewrite list_elem_of_filter, H1. naive_solver.
    + rewrite H1. naive_solver.
    + apply H1.
  - intros j l Hj. unfold slot_drop in Hj. destruct (m !! k) as [slot|] eqn:E; [|by eapply H2].
    destruct (base.filter (fun d => d <> e) slot) as [|x l'] eqn:F.
    + apply lookup_delete_Some in Hj as [_ Hj]. by eapply H2.
    + apply lookup_insert_Some in Hj as [[<- <-]|[_ Hj]]; [|by eapply H2]. split; [done|].
      rewrite <- F. apply NoDup_filter. by eapply H2.
Qed.

Section dir_ops.
Context {U : Unicode} {H : Hasher}.
Implicit Types (v : VolumeIndex).

Lemma Inv_dir v S C D R ex hole m D' :
  Inv v S C D R ex hole -> dir_ok m D' -> Inv (with_dir_children m v) S C D' R ex hole.
Proof. intros [] Hd. by split. Qed.

Lemma with_dir_children_id v : with_dir_children (dir_children v) v = v.
Proof. by destruct v. Qed.

Lemma alive_lt v S C D R ex hole e : Inv v S C D R ex hole -> alive v e -> e < cap v.
Proof.
  intros I Ha. unfold alive, live_e in Ha. destruct (getN e (c_flags (entries v))) eqn:E; [|done].
  apply getN_lt in E. pose proof (i_cols _ _ _ _ _ _ _ I) as Hc. unfold cols_ok, cap in *. lia.
Qed.

(** The key of a live entry can be computed. *)
Lemma wp_dir_key v S C D R ex hole idx par id Q :
  Inv v S C D R ex hole -> getN idx (c_parent (entries v)) = Some par ->
  getN idx (c_name_id (entries v)) = Some id -> id < ids (names v) ->
  Q (par, hash_bytes (fold_of (names v) id)) v -> wp (dir_key idx) Q v.
Proof.
  intros I Hp Hn Hid HQ. unfold dir_key, folded_name. apply wp_bind. wp_get_col.
  apply wp_bind, wp_bind. wp_get_col. eapply wp_nam_read; [apply (folded_total _ _ (i_ns _ _ _ _ _ _ _ I) Hid)|].
  by apply wp_ret.
Qed.

Lemma dirkey_scope v S C D R ex hole idx par id :
  Inv v S C D R ex hole -> scope_dir v idx = true -> getN idx (c_parent (entries v)) = Some par ->
  getN idx (c_name_id (entries v)) = Some id -> id < ids (names v) ->
  dirkey v idx = Some (par, hash_bytes (fold_of (names v) id)).
Proof.
  intros I Hs Hp Hn Hid. unfold dirkey. rewrite Hs, Hp. simpl. rewrite Hn. simpl.
  by rewrite (folded_total _ _ (i_ns _ _ _ _ _ _ _ I) Hid).
Qed.

Lemma wp_dir_index_insert v S C D R ex hole idx id Q :
  Inv v S C D R ex hole -> alive v idx -> D idx = None ->
  getN idx (c_name_id (entries v)) = Some id -> id < ids (names v) ->
  (forall m, Inv (with_dir_children m v) S C (key_set idx (dirkey v idx) D) R ex hole -> Q tt (with_dir_children m v)) ->
  wp (dir_index_insert idx) Q v.
Proof.
  intros I Ha HD Hn Hid HQ. pose proof (alive_lt _ _ _ _ _ _ _ _ I Ha) as Hlt.
  pose proof (i_cols _ _ _ _ _ _ _ I) as Hc. unfold cols_ok, cap in *.
  destruct (getN_is_Some idx (c_parent (entries v))) as [par Hp]; [lia|].
  unfold dir_index_insert. pose proof Ha as Ha'. unfold alive, live_e in Ha'.
  destruct (getN idx (c_flags (entries v))) as [fl|] eqn:Hfl; [|done].
  apply wp_bind. wp_get_col. apply wp_bind, wp_get. apply wp_bind, wp_get.
  assert (Hsc : scope_dir v idx =
    negb (negb (contains fl DIR) || contains fl PLACEHOLDER || (idx =? root v) || (idx =? lost_found v))).
  { unfold scope_dir. rewrite Hfl, Ha'. simpl. by rewrite !negb_orb, negb_involutive. }
  destruct (negb (contains fl DIR) || contains fl PLACEHOLDER || (idx =? root v) || (idx =? lost_found v)) eqn:Hg.
  - apply wp_ret. rewrite <- (with_dir_children_id v). apply HQ. rewrite with_dir_children_id.
    unfold dirkey. rewrite Hsc. simpl. rewrite <- HD. destruct I. split; try done.
    destruct i_dir0 as [E1 E2]. split; [|done]. intros k e. rewrite E1. unfold key_set. by case_decide; subst.
  - apply wp_bind. eapply wp_dir_key; try done. apply wp_modify. apply HQ.
    rewrite (dirkey_scope _ _ _ _ _ _ _ _ _ _ I Hsc Hp Hn Hid).
    eapply Inv_dir; [exact I|]. apply dir_ok_insert; [apply (i_dir _ _ _ _ _ _ _ I)|done].
Qed.

Lemma wp_dir_index_remove v S C D R ex hole idx id Q :
  Inv v S C D R ex hole -> alive v idx -> D idx = dirkey v idx ->
  getN idx (c_name_id (entries v)) = Some id -> id < ids (names v) ->
  (forall m, Inv (with_dir_children m v) S C (key_set idx None D) R ex hole -> Q tt (with_dir_children m v)) ->
  wp (dir_index_remove idx) Q v.
Proof.
  intros I Ha HD Hn Hid HQ. pose proof (alive_lt _ _ _ _ _ _ _ _ I Ha) as Hlt.
  pose proof (i_cols _ _ _ _ _ _ _ I) as Hc. unfold cols_ok, cap in *.
  destruct (getN_is_Some idx (c_parent (entries v))) as [par Hp]; [lia|].
  unfold dir_index_remove. pose proof Ha as Ha'. unfold alive, live_e in Ha'.
  destruct (getN idx (c_flags (entries v))) as [fl|] eqn:Hfl; [|done].
  apply wp_bind. wp_get_col. destruct (negb (contains fl DIR)) eqn:Hg.
  - apply wp_ret. rewrite <- (with_dir_children_id v). apply HQ. rewrite with_dir_children_id.
    assert (Hs : scope_dir v idx = false) by (unfold scope_dir; rewrite Hfl, Ha'; simpl; simpl_cmp; by rewrite Hg).
    assert (HD0 : D idx = None) by (rewrite HD; unfold dirkey; by rewrite Hs).
    destruct I. split; try done. destruct i_dir0 as [E1 E2]. split; [|done].
    intros k e. rewrite E1. unfold key_set. by case_decide; subst; rewrite ?HD0.
  - apply wp_bind. eapply wp_dir_key; try done. apply wp_modify. apply HQ. eapply Inv_dir; [exact I|].
    apply dir_ok_drop; [apply (i_dir _ _ _ _ _ _ _ I)|]. rewrite HD.
    destruct (scope_dir v idx) eqn:Hs; [left; by eapply dirkey_scope|right; unfold dirkey; by rewrite Hs].
Qed.
End dir_ops.

(** ** Names inside the index *)

(** A name short enough for the store. *)
Definition small_name `{Unicode} (name : list N) : Prop := len name <= u16_max /\ len (fold name) <= u16_max.

(** Room for [k] more names and entries. *)
Record space (v : VolumeIndex) (k : N) : Prop := {
  sp_folded : len (folded (names v)) + k * 65536 <= 2 ^ 31;
  sp_raw : len (raw (names v)) + k * 65536 <= 2 ^ 31;
  sp_ids : ids (names v) + k <= NIL;
  sp_refs : Forall (fun rc => rc + k <= u32_max) (refcount (names v));
  sp_cap : cap v + k <= NIL
}.

Lemma space_room `{Unicode} v k name : space v (k + 1) -> small_name name -> room (names v) name.
Proof.
  intros [H1 H2 H3 H4 H5] [N1 N2]. unfold u16_max in *. split; unfold u16_max; try lia; try done.
  eapply Forall_impl; [exact H4|]. simpl. lia.
Qed.

Lemma space_le v k k' : space v k -> k' <= k -> space v k'.
Proof. intros [H1 H2 H3 H4 H5] Hk. split; try lia. eapply Forall_impl; [exact H4|]. simpl. lia. Qed.

Section name_ops.
Context {U : Unicode} {H : Hasher}.
Implicit Types (v : VolumeIndex).

Lemma Inv_names v S C D R ex hole ns R' :
  Inv v S C D R ex hole -> ns_ok ns -> order_ok ns ->
  chains (c_next_same (entries v)) (c_prev_same (entries v)) (head ns) S None ->
  refs_ok (refcount ns) S R' -> Inv (with_names ns v) S C D R' ex hole.
Proof. intros [] ? ? ? ?. by split. Qed.

(** Names still referred to by a chained entry keep their bytes. *)
Definition names_kept (S : N -> option N) (ns ns' : NameStore) : Prop :=
  forall e id, S e = Some id -> raw_bytes ns' id = raw_bytes ns id /\ folded_bytes_of ns' id = folded_bytes_of ns id.

Lemma view_bytes n n' j :
  ns_ok n -> ns_ok n' -> j < ids n -> view n' j = view n j ->
  raw_bytes n' j = raw_bytes n j /\ folded_bytes_of n' j = folded_bytes_of n j.
Proof.
  intros [gs R] [gs' R'] Hj E.
  assert (Hg : j < len gs) by (unfold ids in Hj; by rewrite (len_pairs _ _ R) in Hj).
  destruct (getN_is_Some j gs Hg) as [g Eg].
  destruct (getN_is_Some j (refcount n)) as [rc Hrc]; [by rewrite (r_refcount _ _ R)|].
  destruct (getN_is_Some j (head n)) as [h Hh]; [by rewrite (r_head _ _ R)|].
  pose proof (view_slot _ _ _ _ _ _ R Eg Hrc Hh) as Hv. rewrite Hv in E.
  destruct (view_inv _ _ _ _ R' E) as (g' & Eg' & E1 & E2 & _). simpl in *.
  by rewrite (raw_bytes_slot _ _ _ _ R Eg), (raw_bytes_slot _ _ _ _ R' Eg'), (folded_bytes_slot _ _ _ _ R Eg),
    (folded_bytes_slot _ _ _ _ R' Eg'), E1, E2.
Qed.

Lemma same_range v S C D R ex hole e id : Inv v S C D R ex hole -> S e = Some id -> id < ids (names v).
Proof.
  intros I HS. apply (ch_range _ _ _ _ _ (i_same _ _ _ _ _ _ _ I)) in HS as [_ ?].
  by rewrite <- len_head_ids by apply (i_ns _ _ _ _ _ _ _ I).
Qed.

Lemma wp_nam_release v S C D R ex hole id Q :
  Inv v S C D R ex hole -> 0 < R id -> id < ids (names v) ->
  (forall ns, Inv (with_names ns v) S C D (ref_sub id R) ex hole -> names_kept S (names v) ns ->
     ids ns = ids (names v) -> (forall k, space v k -> space (with_names ns v) k) -> Q tt (with_names ns v)) ->
  wp (nam (release id)) Q v.
Proof.
  intros I HR Hid HQ. pose proof (i_ns _ _ _ _ _ _ _ I) as Hok. pose proof (i_order _ _ _ _ _ _ _ I) as Ho.
  pose proof (i_refs _ _ _ _ _ _ _ I) as Hrefs. rewrite <- ids_refcount in Hid by done.
  destruct (getN_is_Some id (refcount (names v)) Hid) as [rc Hrc].
  pose proof (Hrefs id) as Hr. rewrite Hrc in Hr. destruct Hr as (l & Hnd & Hin & Hcount).
  apply wp_zoom. assert (Hpos : 0 < rc) by lia.
  pose proof (wp_release id rc _ Hok Hrc Hpos) as ([] & ns & E & Hpost)%wp_run. apply wp_run.
  exists tt, ns. split; [done|]. destruct Hpost as (Hok' & Hrc' & Hh & Hsame & Hoth & Hids).
  destruct (release_fields _ _ _ _ E) as (F1 & F2 & F3 & F4 & rc0 & Hrc0 & F5). unfold refcount_of in *. simplify_eq.
  assert (Hkept : names_kept S (names v) ns).
  { intros e j HS. destruct (decide (j = id)) as [->|Hne].
    - apply Hsame. assert (e ∈ l) as Hel by (by apply Hin). destruct l as [|? l]; [by apply not_elem_of_nil in Hel|].
      rewrite len_cons. lia.
    - apply view_bytes; try done; [by eapply same_range|]. by apply Hoth. }
  pose proof (release_arena_len _ _ _ _ _ Hok Hrc Hpos E) as Hbuf.
  apply HQ; try done.
  - apply (Inv_names v S C D R); try done.
    + by apply (order_ok_release id (len l + R id) (names v) ns tt).
    + rewrite F4. apply (i_same _ _ _ _ _ _ _ I).
    + intros j. rewrite F5, getN_insert by done. specialize (Hrefs j). unfold ref_sub.
      destruct (decide (id = j)) as [<-|Hne].
      * exists l. rewrite decide_True by done. split_and!; try done. lia.
      * rewrite decide_False by congruence. done.
  - destruct Hbuf as [B1 B2]. intros k [P1 P2 P3 P4 P5]. split; simpl; rewrite ?B1, ?B2, ?Hids; try done.
    rewrite F5. apply Forall_insert; [done|]. pose proof (Forall_lookup_1 _ _ _ _ P4 Hrc) as Hb. simpl in *. lia.
Qed.

(** A name some entry is chained under has a positive count. *)
Lemma chained_live v S C D R ex hole e id : Inv v S C D R ex hole -> S e = Some id -> NameStore.live (names v) id.
Proof.
  intros I HS. pose proof (same_range _ _ _ _ _ _ _ _ _ I HS) as Hid. pose proof (i_refs _ _ _ _ _ _ _ I id) as Hr.
  rewrite <- ids_refcount in Hid by apply (i_ns _ _ _ _ _ _ _ I).
  destruct (getN_is_Some id (refcount (names v)) Hid) as [rc Hrc]. rewrite Hrc in Hr.
  destruct Hr as (l & _ & Hin & ->). exists (len l + R id). split; [done|].
  apply Hin in HS. destruct l; [by apply not_elem_of_nil in HS|]. rewrite len_cons. lia.
Qed.

Lemma intern_names_kept v S C D R ex hole name id ns :
  Inv v S C D R ex hole -> room (names v) name -> intern name (names v) = Some (id, ns) ->
  names_kept S (names v) ns.
Proof.
  intros I Hroom E e j HS. pose proof (same_range _ _ _ _ _ _ _ _ _ I HS) as Hj.
  pose proof (i_ns _ _ _ _ _ _ _ I) as Hok. pose proof Hok as [gs R0].
  pose proof (wp_intern _ _ Hok Hroom) as Hw. unfold wp in Hw. rewrite E in Hw.
  destruct Hw as (Hok' & _ & Hoth & _ & _ & _ & _). destruct (decide (j = id)) as [->|Hne].
  - destruct (intern_cases _ _ _ R0 Hroom) as [(i & rc & g & Hg & <- & Hrc & Hpos & E')|[E' R']];
      rewrite E in E'; simplify_eq; [done|lia].
  - apply view_bytes; try done. by apply Hoth.
Qed.

Lemma wp_nam_intern v S C D R ex hole name k Q :
  Inv v S C D R ex hole -> space v (k + 1) -> small_name name ->
  (forall id ns, Inv (with_names ns v) S C D (ref_add id R) ex hole -> names_kept S (names v) ns ->
     id < ids ns -> raw_bytes ns id = Some name -> folded_bytes_of ns id = Some (fold name) ->
     space (with_names ns v) k -> Q id (with_names ns v)) ->
  wp (nam (intern name)) Q v.
Proof.
  intros I Hsp Hsm HQ. pose proof (i_ns _ _ _ _ _ _ _ I) as Hok. pose proof (i_order _ _ _ _ _ _ _ I) as Ho.
  pose proof (space_room _ _ _ Hsp Hsm) as Hroom. pose proof (i_refs _ _ _ _ _ _ _ I) as Hrefs.
  apply wp_zoom. pose proof (wp_intern _ _ Hok Hroom) as (id & ns & E & Hpost)%wp_run. apply wp_run.
  exists id, ns. split; [done|]. pose proof Hpost as (Hok' & Hid & Hoth & Hids & Hlt & _ & Hwhich).
  pose proof (intern_names_kept _ _ _ _ _ _ _ _ _ _ I Hroom E) as Hkept.
  pose proof Hok as [gs R0]. destruct Hok' as [gs' R1]. destruct (view_inv _ _ _ _ R1 Hid) as (g & Hg & Hr & Hf & _).
  simpl in Hr, Hf.
  destruct (intern_cases _ _ _ R0 Hroom) as [(i & rc & g0 & Hg0 & Hraw0 & Hrc & Hpos & E')|[E' R']];
    rewrite E in E'; simplify_eq.
  - apply HQ; try done.
    + apply (Inv_names v S C D R); try done; [by exists gs'|by eapply order_ok_intern|apply (i_same _ _ _ _ _ _ _ I)|].
      intros j. simpl. unfold refcount_of in Hrc. pose proof (getN_lt _ _ _ Hrc). rewrite getN_insert by done.
      specialize (Hrefs j). unfold ref_add. destruct (decide (i = j)) as [<-|Hne].
      * rewrite Hrc in Hrefs. destruct Hrefs as (l & ? & ? & ->). exists l. rewrite decide_True by done.
        split_and!; try done. lia.
      * by rewrite decide_False by congruence.
    + rewrite (raw_bytes_slot _ _ _ _ R1 Hg). congruence.
    + rewrite (folded_bytes_slot _ _ _ _ R1 Hg). congruence.
    + destruct Hsp as [P1 P2 P3 P4 P5]. split; simpl; try (unfold ids, cap in *; simpl in *; lia).
      apply Forall_insert; [eapply Forall_impl; [exact P4|]; simpl; lia|].
      pose proof (Forall_lookup_1 _ _ _ _ P4 Hrc). simpl in *. lia.
  - apply HQ; try done.
    + apply (Inv_names v S C D R); try done; [by exists gs'|by eapply order_ok_intern| |].
      * simpl. apply chains_snoc, (i_same _ _ _ _ _ _ _ I).
      * intros j. simpl. rewrite getN_snoc. rewrite ids_refcount by done. specialize (Hrefs j). unfold ref_add.
        case_decide as Hj; [|done]. subst j. rewrite getN_ge in Hrefs by (rewrite ids_refcount by done; lia).
        exists []. rewrite Hrefs. split; [constructor|]. split; [|done].
        intros e. split; [by intros ?%not_elem_of_nil|]. intros HS. pose proof (same_range _ _ _ _ _ _ _ _ _ I HS). lia.
    + rewrite (raw_bytes_slot _ _ _ _ R1 Hg). congruence.
    + rewrite (folded_bytes_slot _ _ _ _ R1 Hg). congruence.
    + destruct Hsp as [P1 P2 P3 P4 P5], Hsm as [M1 M2]. unfold u16_max in *.
      split; simpl; try (unfold ids, cap in *; simpl in *; autorewrite with goz_len in *; lia).
      * unfold fseg. simpl. len_solve.
      * unfold rseg. simpl. case_bool_decide; len_solve.
      * apply Forall_app_2; [eapply Forall_impl; [exact P4|]; simpl; lia|]. apply Forall_singleton.
        unfold NIL, u32_max in *. lia.
Qed.
End name_ops.

(** ** Slots *)

Section slots.
Context {U : Unicode} {H : Hasher}.
Implicit Types (v : VolumeIndex).

(** A dead slot belongs to no chain and no chain hangs off it. *)
Definition dead_unlinked v (S C : N -> option N) (D : N -> option (N * N)) : Prop :=
  (forall e, ~ alive v e -> S e = None /\ C e = None /\ D e = None) /\
  (forall e p, C e = Some p -> alive v p).

Lemma live_e_put i f fl fl' e :
  put i f fl fl' -> live_e fl' e <-> if decide (e = i) then contains f TOMBSTONE = false else live_e fl e.
Proof. intros [_ Hp]. unfold live_e. rewrite Hp. by case_decide. Qed.

Lemma free_ok_alloc v S C D R ex hole i fr par name fl sz mt nl t' :
  Inv v S C D R ex hole -> allocated i fr par name fl sz mt nl (entries v) t' -> contains fl TOMBSTONE = false ->
  ~ alive v i -> i <= cap v -> free_ok (c_flags t') (free t') (live_count t').
Proof.
  intros I A Hfl Hd Hi. pose proof (i_cols _ _ _ _ _ _ _ I) as Hc. unfold cols_ok in Hc.
  destruct Hc as (_ & _ & L3 & _). destruct (i_free _ _ _ _ _ _ _ I) as [F1 F2 F3].
  pose proof (al_flags _ _ _ _ _ _ _ _ _ _ A) as Hp. pose proof Hp as [Hlen _].
  unfold cap in *. rewrite (al_live _ _ _ _ _ _ _ _ _ _ A).
  destruct (al_free _ _ _ _ _ _ _ _ _ _ A) as [Ef|(Ef & Ef' & ->)].
  - rewrite Ef in *. apply NoDup_cons in F1 as [Hni F1]. split; [done| |rewrite len_cons in F3].
    + intros e. rewrite (live_e_put _ _ _ _ e Hp). assert (Hil : i < len (c_flags (entries v))).
      { by apply (F2 i); left. }
      specialize (F2 e). rewrite elem_of_cons in F2. rewrite Hlen. case_decide as E.
      * subst. split; [done|]. intros [_ ?]. done.
      * rewrite N.max_l by lia. naive_solver.
    + assert (i < len (c_flags (entries v))) by (by apply (F2 i); left). lia.
  - rewrite Ef, Ef' in *. split; [constructor| |rewrite len_nil in *; lia].
    intros e. rewrite (live_e_put _ _ _ _ e Hp). specialize (F2 e). split; [by intros ?%not_elem_of_nil|].
    intros [Hlt Hnl]. case_decide; [done|]. exfalso. apply (not_elem_of_nil e), F2. split; [lia|done].
Qed.

Lemma links_ok_alloc v S C D R ex hole i fr par name fl sz mt nl t' :
  Inv v S C D R ex hole -> allocated i fr par name fl sz mt nl (entries v) t' -> ~ alive v i ->
  hole = Some (record_number fr) ->
  links_ok (c_flags t') (c_frn t') (c_next_link t') (lost_found v) (by_frn v) hole.
Proof.
  intros I A Hd -> r Hr. pose proof (i_link _ _ _ _ _ _ _ I r Hr) as Hl. unfold link_ok in *.
  pose proof (al_flags _ _ _ _ _ _ _ _ _ _ A) as Hpf. pose proof (al_frn _ _ _ _ _ _ _ _ _ _ A) as [_ Hpr].
  pose proof (al_next_link _ _ _ _ _ _ _ _ _ _ A) as [_ Hpn].
  assert (Hrec : forall e, has_record (c_flags t') (c_frn t') (lost_found v) r e <->
                           has_record (c_flags (entries v)) (c_frn (entries v)) (lost_found v) r e).
  { intros e. unfold has_record. rewrite (live_e_put _ _ _ _ e Hpf), Hpr. case_decide; [|done]. subst.
    split; [intros (_ & _ & f & [= <-] & <-); congruence|intros (? & _); by destruct Hd]. }
  destruct (FrnMap.get (by_frn v) r) as [h|]; [|intros e; rewrite Hrec; apply Hl].
  destruct Hl as (l & f & Hs & Hnd & Hne & Hin & Hf). exists l, f.
  assert (Hni : forall e, e ∈ l -> e <> i) by (intros e He ->; apply Hin in He as (? & _); by destruct Hd).
  split_and!; try done.
  - eapply nseg_frame; [|exact Hs]. intros e He. rewrite Hpn, decide_False by auto. done.
  - intros e. by rewrite Hin, Hrec.
  - intros e He. rewrite Hpr, decide_False by auto. auto.
Qed.

Lemma Inv_alloc v S C D R ex hole i fr par name fl sz mt nl t' :
  Inv v S C D R ex hole -> dead_unlinked v S C D -> allocated i fr par name fl sz mt nl (entries v) t' ->
  contains fl TOMBSTONE = false -> ~ alive v i -> i <= cap v -> cap v < NIL -> hole = Some (record_number fr) ->
  Inv (with_entries t' v) S C D R ex hole.
Proof.
  intros I [Hdu Hcu] A Hfl Hd Hi Hcap Hh. pose proof (i_cols _ _ _ _ _ _ _ I) as Hc.
  pose proof (cols_ok_allocated _ _ _ _ _ _ _ _ _ _ Hc A ltac:(lia)) as Hc'.
  destruct (Hdu i Hd) as (HS & HC & HD). pose proof (links_ok_alloc _ _ _ _ _ _ _ _ _ _ _ _ _ _ _ _ I A Hd Hh) as Hlinks.
  pose proof (free_ok_alloc _ _ _ _ _ _ _ _ _ _ _ _ _ _ _ _ I A Hfl Hd Hi) as Hfree.
  assert (Hl0 : len (c_frn t') = N.max (cap v) (i + 1)) by apply (al_frn _ _ _ _ _ _ _ _ _ _ A).
  pose proof Hc as Hcc. pose proof Hc' as Hcc'. unfold cols_ok in Hcc, Hcc'.
  destruct Hcc as (_ & _ & _ & _ & _ & _ & L7 & L8 & L9 & L10 & L11 & _).
  destruct Hcc' as (_ & _ & _ & _ & _ & _ & M7 & M8 & M9 & M10 & M11 & M12). unfold cap in *.
  split; simpl; try done; try apply I.
  - eapply chains_frame; [apply (i_same _ _ _ _ _ _ _ I)|lia|lia|lia|lia| |naive_solver].
    intros e k Hk. destruct (al_next_same _ _ _ _ _ _ _ _ _ _ A) as [_ ->], (al_prev_same _ _ _ _ _ _ _ _ _ _ A) as [_ ->].
    by rewrite !decide_False by (intros ->; congruence).
  - eapply chains_frame; [apply (i_child _ _ _ _ _ _ _ I)|lia|lia|lia|lia| |].
    + intros e k Hk. destruct (al_next_child _ _ _ _ _ _ _ _ _ _ A) as [_ ->], (al_prev_child _ _ _ _ _ _ _ _ _ _ A) as [_ ->].
      by rewrite !decide_False by (intros ->; congruence).
    + intros k h. destruct (al_first_child _ _ _ _ _ _ _ _ _ _ A) as [_ ->]. case_decide; [|by left].
      intros [= <-]. right. split; [done|]. intros e He. subst. by apply Hcu in He.
  - unfold alive. simpl. apply (live_e_put _ _ _ _ _ (al_flags _ _ _ _ _ _ _ _ _ _ A)).
    case_decide; [done|apply (i_lf _ _ _ _ _ _ _ I)].
  - eapply Forall_impl; [apply (i_susp _ _ _ _ _ _ _ I)|]. unfold cap. simpl. lia.
Qed.

Lemma wp_alloc v S C D R ex hole fr par name fl sz mt nl Q :
  Inv v S C D R ex hole -> dead_unlinked v S C D -> contains fl TOMBSTONE = false -> cap v < NIL ->
  hole = Some (record_number fr) ->
  (forall i t', allocated i fr par name fl sz mt nl (entries v) t' -> ~ alive v i -> i <= cap v ->
     Inv (with_entries t' v) S C D R ex hole -> Q i (with_entries t' v)) ->
  wp (ent (alloc fr par name fl sz mt nl)) Q v.
Proof.
  intros I Hdu Hfl Hcap Hh HQ. pose proof (i_free _ _ _ _ _ _ _ I) as [F1 F2 F3].
  pose proof (i_cols _ _ _ _ _ _ _ I) as Hc. assert (L3 := Hc). unfold cols_ok in L3.
  assert (Hfr : Forall (fun e => e < len (c_frn (entries v))) (free (entries v))).
  { apply Forall_forall. intros e He%F2. lia. }
  destruct (alloc_spec (entries v) fr par name fl sz mt nl Hc Hcap Hfr) as (i & t' & E & A).
  apply wp_zoom, wp_run. exists i, t'. split; [done|].
  assert (Hi : ~ alive v i /\ i <= cap v).
  { unfold cap. destruct (al_free _ _ _ _ _ _ _ _ _ _ A) as [Ef|(_ & _ & ->)].
    - assert (i ∈ free (entries v)) as Hin by (rewrite Ef; left). apply F2 in Hin as [? ?]. split; [done|lia].
    - split; [|lia]. unfold alive, live_e. rewrite getN_ge by lia. tauto. }
  destruct Hi. apply HQ; try done. by eapply Inv_alloc.
Qed.

(** *** Freeing a slot *)

Lemma live_e_insert fl i f e :
  i < len fl -> live_e (<[N.to_nat i := f]> fl) e <-> if decide (e = i) then contains f TOMBSTONE = false else live_e fl e.
Proof.
  intros Hi. unfold live_e. rewrite getN_insert by done.
  destruct (decide (i = e)), (decide (e = i)); congruence || done.
Qed.

Lemma chains_insert_nil nx pv hd key ex i :
  chains nx pv hd key ex -> key i = None -> i < len nx ->
  chains (<[N.to_nat i := NIL]> nx) (<[N.to_nat i := NIL]> pv) hd key ex.
Proof.
  intros Hch Hi Hlt. pose proof (ch_len _ _ _ _ _ Hch). pose proof (ch_nil _ _ _ _ _ Hch).
  eapply chains_frame; [exact Hch|rewrite ?len_insert; lia..| |naive_solver].
  intros e k Hk. rewrite !getN_insert, !decide_False by (congruence || lia). done.
Qed.

Lemma chains_head_nil nx pv hd key ex i :
  chains nx pv hd key ex -> (forall e, key e <> Some i) -> i < len hd ->
  chains nx pv (<[N.to_nat i := NIL]> hd) key ex.
Proof.
  intros Hch Hno Hlt. pose proof (ch_len _ _ _ _ _ Hch). pose proof (ch_nil _ _ _ _ _ Hch).
  eapply chains_frame; [exact Hch|rewrite ?len_insert; lia..|done|].
  intros k h. rewrite getN_insert by done. case_decide; [|by left]. intros [= <-]. subst. by right.
Qed.

Lemma live_count_pos v S C D R ex hole e : Inv v S C D R ex hole -> alive v e -> 0 < live_count (entries v).
Proof.
  intros I Ha. pose proof (alive_lt _ _ _ _ _ _ _ _ I Ha) as Hlt. destruct (i_free _ _ _ _ _ _ _ I) as [F1 F2 F3].
  pose proof (i_cols _ _ _ _ _ _ _ I) as Hc. unfold cols_ok, cap in *.
  assert (Hb : len (e :: free (entries v)) <= len (c_flags (entries v))).
  { apply NoDup_below; [constructor; [|done]; intros [_ ?]%F2; done|].
    intros x [->|[? _]%F2]%elem_of_cons; [lia|done]. }
  rewrite len_cons in Hb. lia.
Qed.

Lemma wp_tombstone v S C D R ex hole i r Q :
  Inv v S C D R ex hole -> alive v i -> i <> lost_found v ->
  S i = None -> C i = None -> (forall e, C e <> Some i) ->
  (exists f, getN i (c_frn (entries v)) = Some f /\ record_number f = r) -> hole = Some r ->
  (Inv (with_entries (tombstoned i (entries v)) v) S C D R ex hole -> Q tt (with_entries (tombstoned i (entries v)) v)) ->
  wp (ent (tombstone i)) Q v.
Proof.
  intros I Ha Hlf HS HC HC' (f & Hf & Hrec) Hh HQ. pose proof (alive_lt _ _ _ _ _ _ _ _ I Ha) as Hlt.
  pose proof (live_count_pos _ _ _ _ _ _ _ _ I Ha) as Hpos. pose proof (i_cols _ _ _ _ _ _ _ I) as Hc.
  apply wp_zoom, wp_run. exists tt, (tombstoned i (entries v)). split; [by apply tombstone_spec|]. apply HQ. clear HQ.
  pose proof Hc as Hcc. unfold cols_ok in Hcc. destruct Hcc as (L1 & L2 & L3 & _ & _ & L6 & L7 & L8 & L9 & L10 & L11 & L12).
  unfold cap in Hlt. split; simpl; try apply I.
  - unfold cols_ok. simpl. rewrite !len_insert. exact Hc.
  - destruct (i_free _ _ _ _ _ _ _ I) as [F1 F2 F3]. split.
    + constructor; [|done]. intros [_ ?]%F2. done.
    + intros e. rewrite len_insert, elem_of_cons, F2, live_e_insert by lia. case_decide as E.
      * subst. split; [|by left]. intros _. split; [lia|]. done.
      * naive_solver.
    + rewrite len_insert, len_cons. lia.
  - apply chains_insert_nil; [apply (i_same _ _ _ _ _ _ _ I)|done|lia].
  - apply chains_head_nil; [|done|lia]. apply chains_insert_nil; [apply (i_child _ _ _ _ _ _ _ I)|done|lia].
  - intros r' Hr'. pose proof (i_link _ _ _ _ _ _ _ I r' Hr') as Hl. unfold link_ok in *.
    assert (Hrec' : forall e, has_record (<[N.to_nat i := TOMBSTONE]> (c_flags (entries v))) (c_frn (entries v)) (lost_found v) r' e <->
                             has_record (c_flags (entries v)) (c_frn (entries v)) (lost_found v) r' e).
    { intros e. unfold has_record. rewrite live_e_insert by lia. case_decide; [|done]. subst.
      split; [by intros (? & _)|]. intros (_ & _ & f' & ? & ?). simplify_eq. }
    destruct (FrnMap.get (by_frn v) r') as [h|]; [|intros e; rewrite Hrec'; apply Hl].
    destruct Hl as (l & f' & Hs & Hnd & Hne & Hin & Hf'). exists l, f'. split_and!; try done.
    + eapply nseg_frame; [|exact Hs]. intros e He. rewrite getN_insert by lia. rewrite decide_False; [done|].
      intros ->. apply Hin in He as (_ & _ & f0 & ? & ?). simplify_eq.
    + intros e. by rewrite Hin, Hrec'.
  - unfold alive. simpl. apply live_e_insert; [lia|]. rewrite decide_False by congruence. apply (i_lf _ _ _ _ _ _ _ I).
Qed.
End slots.
