(* ===== verification/VolumeOps.v ===== *)
(** Every mutating operation of [VolumeIndex] preserves the invariant
    [vol_ok], never panics, and does to the abstract contents of the index what
    it should: removal, insertion, rewriting, batches, compaction. *)

From stdpp Require Import gmap.
From stdpp Require Import base option list sets.
From Stdlib Require Import NArith ZArith Lia.
From S2P Require Import Prelude Types Wtf8 UsnRecord UsnOps LayoutParse Fold FrnMap NameStore NameOrder EntryTable Chain Volume VolumeInv.

(** ** What an operation leaves alone *)

(** Two name stores with the same names, up to chain heads and order. *)
Definition names_eq (n n' : NameStore) : Prop :=
  raw n' = raw n /\ folded n' = folded n /\ pairs n' = pairs n /\ refcount n' = refcount n.

Lemma names_eq_bytes n n' id :
  names_eq n n' -> raw_bytes n' id = raw_bytes n id /\ folded_bytes_of n' id = folded_bytes_of n id /\ ids n' = ids n.
Proof.
  intros (E1 & E2 & E3 & _). unfold raw_bytes, raw_bytes_of, folded_bytes_of, ids. by rewrite E1, E2, E3.
Qed.

(** Two states that agree on everything but parents, chains, the scope index
    and the write counter. *)
Record frame_core (v v' : VolumeIndex) : Prop := {
  fc_frn : c_frn (entries v') = c_frn (entries v);
  fc_name_id : c_name_id (entries v') = c_name_id (entries v);
  fc_flags : c_flags (entries v') = c_flags (entries v);
  fc_size : c_size (entries v') = c_size (entries v);
  fc_mtime : c_mtime (entries v') = c_mtime (entries v);
  fc_next_link : c_next_link (entries v') = c_next_link (entries v);
  fc_names : names_eq (names v) (names v');
  fc_by_frn : by_frn v' = by_frn v;
  fc_root : root v' = root v;
  fc_lf : lost_found v' = lost_found v;
  fc_stats : stats v' = stats v;
  fc_generation : generation v' = generation v;
  fc_susp : cycle_suspects v' = cycle_suspects v
}.

#[export] Instance frame_core_refl : Reflexive frame_core.
Proof. intros v. by split. Qed.
#[export] Instance frame_core_trans : Transitive frame_core.
Proof.
  intros a b c [] []. split; try congruence. unfold names_eq in *. naive_solver congruence.
Qed.

Lemma frame_alive v v' e : frame_core v v' -> alive v' e <-> alive v e.
Proof. intros F. unfold alive. by rewrite (fc_flags _ _ F). Qed.

Lemma frame_cap v v' : frame_core v v' -> cap v' = cap v.
Proof. intros F. unfold cap. by rewrite (fc_frn _ _ F). Qed.

Lemma frame_space v v' k : frame_core v v' -> space v k -> space v' k.
Proof.
  intros F [H1 H2 H3 H4 H5]. pose proof (fc_names _ _ F) as (E1 & E2 & E3 & E4).
  split; unfold ids in *; rewrite ?E1, ?E2, ?E3, ?E4; try done. by rewrite (frame_cap _ _ F).
Qed.

(** The scope key of an entry depends on its own columns and its name. *)
Lemma dirkey_local `{Hasher} v v' e :
  getN e (c_flags (entries v')) = getN e (c_flags (entries v)) -> root v' = root v -> lost_found v' = lost_found v ->
  getN e (c_parent (entries v')) = getN e (c_parent (entries v)) ->
  getN e (c_name_id (entries v')) = getN e (c_name_id (entries v)) ->
  (forall id, getN e (c_name_id (entries v)) = Some id -> alive v e ->
     folded_bytes_of (names v') id = folded_bytes_of (names v) id) ->
  dirkey v' e = dirkey v e.
Proof.
  intros E1 E2 E3 E4 E5 E6. unfold dirkey.
  assert (Hs : scope_dir v' e = scope_dir v e) by (unfold scope_dir; by rewrite E1, E2, E3). rewrite Hs.
  destruct (scope_dir v e) eqn:Hsc; [|done]. rewrite E4, E5.
  destruct (getN e (c_parent (entries v))); [|done]. simpl.
  destruct (getN e (c_name_id (entries v))) as [id|] eqn:Eid; [|done]. simpl. rewrite E6; [done|done|].
  unfold scope_dir, alive, live_e in *. destruct (getN e (c_flags (entries v))); [|done]. by simpl_cmp.
Qed.

Lemma frame_dirkey `{Hasher} v v' e :
  frame_core v v' -> getN e (c_parent (entries v')) = getN e (c_parent (entries v)) -> dirkey v' e = dirkey v e.
Proof.
  intros F Hp. apply dirkey_local; try done; rewrite ?(fc_flags _ _ F), ?(fc_root _ _ F), ?(fc_lf _ _ F), ?(fc_name_id _ _ F); try done.
  intros id _ _. by apply (names_eq_bytes _ _ id (fc_names _ _ F)).
Qed.

Section removal.
Context {U : Unicode} {H : Hasher}.
Implicit Types (v : VolumeIndex).

Lemma Inv_ext v S C D R ex hole S' C' D' R' :
  Inv v S C D R ex hole -> (forall e, S' e = S e) -> (forall e, C' e = C e) -> (forall e, D' e = D e) ->
  (forall j, R' j = R j) -> Inv v S' C' D' R' ex hole.
Proof.
  intros [] ES EC ED ER. split; try done.
  - eapply chains_ext; [|eassumption]. done.
  - intros id. specialize (i_refs id). destruct (getN id (refcount (names v))); rewrite ER; [|done].
    destruct i_refs as (l & ? & Hl & ?). exists l. setoid_rewrite ES. done.
  - eapply chains_ext; [|eassumption]. done.
  - destruct i_dir. split; [|done]. intros k e. by rewrite ED.
Qed.

Lemma Inv_parent v S C D R ex hole par :
  Inv v S C D R ex hole -> len par = cap v -> Inv (with_entries (with_parent par (entries v)) v) S C D R ex hole.
Proof. intros [] Hl. split; try done. unfold cols_ok, cap in *. simpl. naive_solver. Qed.

Lemma Inv_dirty v S C D R ex hole d : Inv v S C D R ex hole -> Inv (with_dirty d v) S C D R ex hole.
Proof. intros []. by split. Qed.

(** *** Orphaning *)

(** What the orphan loop needs of a child it will move. *)
Definition orphan_ready v (C : N -> option N) (D : N -> option (N * N)) (e : N) : Prop :=
  alive v e /\ e <> lost_found v /\ C e = None /\ D e = dirkey v e /\
  exists id, getN e (c_name_id (entries v)) = Some id /\ id < ids (names v).

Lemma wp_orphan_loop l : forall fuel cur v S C D R hole dir Q,
  (length l <= fuel)%nat -> Inv v S C D R (Some dir) hole -> nseg (c_next_child (entries v)) cur l -> NoDup l ->
  dir <> lost_found v -> (forall e, e ∈ l -> orphan_ready v C D e) ->
  (forall v', frame_core v v' ->
     Inv v' S (fun e => if decide (e ∈ l) then Some (lost_found v) else C e)
              (fun e => if decide (e ∈ l) then dirkey v' e else D e) R (Some dir) hole ->
     (forall e, getN e (c_parent (entries v')) =
                if decide (e ∈ l) then Some (lost_found v) else getN e (c_parent (entries v))) ->
     Q tt v') ->
  wp (orphan_loop fuel cur) Q v.
Proof.
  induction l as [|x l IH]; intros fuel cur v S C D R hole dir Q Hfuel I Hseg Hnd Hdir Hready HQ.
  { simpl in Hseg. subst cur. assert (HQ' : Q tt v).
    { apply HQ; [done| |]; [|intros e; by rewrite decide_False by apply not_elem_of_nil].
      eapply Inv_ext; [exact I|done|..]; intros e; try done; by rewrite decide_False by apply not_elem_of_nil. }
    destruct fuel; simpl; by apply wp_ret. }
  destruct fuel as [|fuel]; [simpl in Hfuel; lia|]. simpl in Hseg. destruct Hseg as (-> & HxN & n & Hn & Hseg).
  apply NoDup_cons in Hnd as [Hxl Hnd].
  destruct (Hready x) as (Ha & Hxlf & HCx & HDx & id & Hid & Hidlt); [left|].
  pose proof (alive_lt _ _ _ _ _ _ _ _ I Ha) as Hlt. pose proof (i_cols _ _ _ _ _ _ _ I) as Hc.
  pose proof Hc as Hcc. unfold cols_ok in Hcc. unfold cap in Hlt.
  pose proof (alive_lt _ _ _ _ _ _ _ _ I (i_lf _ _ _ _ _ _ _ I)) as Hlf. unfold cap in Hlf.
  cbn [orphan_loop]. rewrite (proj2 (N.eqb_neq _ _) HxN).
  apply wp_bind. wp_get_col. apply wp_bind. eapply wp_dir_index_remove; [exact I|done..|]. intros m1 I1.
  apply wp_bind, wp_get. apply wp_bind. wp_set_col. apply wp_bind.
  pose proof (Inv_parent _ _ _ _ _ _ _ (<[N.to_nat x := lost_found v]> (c_parent (entries v))) I1
    ltac:(rewrite len_insert; unfold cap; simpl; lia)) as I2.
  eapply wp_link_child; [exact I2|done|done|simpl; rewrite getN_insert, decide_True by lia; reflexivity| | |].
  { intros _. split; [exact Hlf|congruence]. }
  { simpl. intros E. lia. }
  intros _ nx pv fc I3 Hnx. simpl in Hnx.
  set (v3 := upd_child nx pv fc _) in *. assert (F3 : frame_core v v3) by (by split).
  apply wp_bind. eapply wp_dir_index_insert; [exact I3|by apply (frame_alive v v3)|by apply key_set_eq|exact Hid|exact Hidlt|].
  intros m4 I4. apply wp_bind, wp_modify.
  set (v5 := with_dirty _ _). assert (F5 : frame_core v v5) by (by split).
  assert (I5 := Inv_dirty _ _ _ _ _ _ _ (dirty (with_dir_children m4 v3) + 1) I4). fold v5 in I5.
  assert (Hp5 : forall e, getN e (c_parent (entries v5)) = if decide (e = x) then Some (lost_found v) else getN e (c_parent (entries v))).
  { intros e. simpl. rewrite getN_insert by lia. destruct (decide (x = e)), (decide (e = x)); congruence. }
  eapply (IH fuel n v5 S _ _ R hole dir); [simpl in Hfuel; lia|exact I5| |done|done| |].
  { simpl. eapply nseg_frame; [|exact Hseg]. intros e He. apply Hnx. by intros ->. }
  { intros e He. assert (Hne : e <> x) by (by intros ->). destruct (Hready e) as (A1 & A2 & A3 & A4 & A5); [by right|].
    split; [by apply (frame_alive v v5)|]. split; [done|]. rewrite !key_set_ne by done. split; [done|]. split; [|done].
    rewrite A4. symmetry. apply frame_dirkey; [done|]. by rewrite Hp5, decide_False. }
  intros v' F' I' Hp'. apply HQ; [by etransitivity| |].
  - eapply Inv_ext; [exact I'|done|..]; intros e; try done; simpl.
    + destruct (decide (e ∈ l)) as [Hel|Hel]; [by rewrite decide_True by (by right)|].
      unfold key_set. destruct (decide (e = x)) as [->|]; [by rewrite decide_True by left|].
      by rewrite decide_False by (by apply not_elem_of_cons).
    + destruct (decide (e ∈ l)) as [Hel|Hel]; [by rewrite decide_True by (by right)|].
      unfold key_set. destruct (decide (e = x)) as [->|]; [|by rewrite decide_False by (by apply not_elem_of_cons)].
      rewrite decide_True by left. transitivity (dirkey v5 x); [|by apply frame_dirkey].
      apply frame_dirkey; [done|]. by rewrite Hp', decide_False by done.
  - intros e. rewrite Hp', Hp5. simpl.
    destruct (decide (e ∈ l)), (decide (e = x)), (decide (e ∈ x :: l)) as [Hin|Hin]; try done;
      (exfalso; rewrite elem_of_cons in Hin; tauto).
Qed.

Lemma wp_orphan_children v S C D R hole dir Q :
  Inv v S C D R None hole -> dir < cap v -> dir <> lost_found v ->
  (forall e, C e = Some dir -> alive v e /\ e <> lost_found v /\ D e = dirkey v e /\
     exists id, getN e (c_name_id (entries v)) = Some id /\ id < ids (names v)) ->
  (forall v', frame_core v v' ->
     Inv v' S (fun e => if decide (C e = Some dir) then Some (lost_found v) else C e)
              (fun e => if decide (C e = Some dir) then dirkey v' e else D e) R None hole ->
     (forall e, getN e (c_parent (entries v')) =
                if decide (C e = Some dir) then Some (lost_found v) else getN e (c_parent (entries v))) ->
     Q tt v') ->
  wp (orphan_children dir) Q v.
Proof.
  intros I Hdir Hlf Hkids HQ. pose proof (i_cols _ _ _ _ _ _ _ I) as Hc. unfold cols_ok in Hc. unfold cap in Hdir.
  destruct (getN_is_Some dir (c_first_child (entries v))) as [h Hh]; [lia|].
  destruct (chains_detach _ _ _ _ dir h (i_child _ _ _ _ _ _ _ I) Hh) as (l & Hseg & Hnd & Hin & Hch).
  assert (I1 : Inv v S (key_drop dir C) D R (Some dir) hole) by (destruct I; by split).
  assert (Hfuel : (length l <= fuel_of v)%nat).
  { assert (len l <= capacity (entries v)); [|unfold fuel_of, len in *; lia].
    apply NoDup_below; [done|]. intros e He%Hin. apply (ch_range _ _ _ _ _ (i_child _ _ _ _ _ _ _ I)) in He.
    unfold capacity. lia. }
  unfold orphan_children. apply wp_bind, wp_get. apply wp_bind. wp_get_col. apply wp_bind.
  eapply (wp_orphan_loop l); [exact Hfuel|exact I1|exact Hseg|exact Hnd|exact Hlf| |].
  { intros e He%Hin. destruct (Hkids e He) as (A1 & A2 & A3 & A4). split_and!; try done.
    unfold key_drop. by rewrite decide_True. }
  intros v' F I' Hp'. pose proof (frame_cap _ _ F) as Hcap. unfold cap in Hcap.
  pose proof (i_cols _ _ _ _ _ _ _ I') as Hc'. unfold cols_ok in Hc'. wp_set_col.
  set (v2 := with_entries _ _). assert (F2 : frame_core v v2) by (etransitivity; [exact F|by split]).
  apply HQ; [done| |].
  - assert (I2 : Inv v2 S (fun e => if decide (e ∈ l) then Some (lost_found v) else key_drop dir C e)
        (fun e => if decide (e ∈ l) then dirkey v' e else D e) R None hole).
    { pose proof (chains_attach _ _ _ _ dir (i_child _ _ _ _ _ _ _ I')) as Hat.
      assert (Hno : forall e, (if decide (e ∈ l) then Some (lost_found v) else key_drop dir C e) <> Some dir).
      { intros e. case_decide; [congruence|]. unfold key_drop. case_decide; congruence. }
      specialize (Hat Hno ltac:(lia)). destruct I'. split; try done. unfold cols_ok in *. simpl.
      by rewrite !len_insert. }
    eapply Inv_ext; [exact I2|done|..]; intros e; try done.
    + unfold key_drop. specialize (Hin e). destruct (decide (e ∈ l)), (decide (C e = Some dir)); tauto || done.
    + cbv beta. specialize (Hin e). destruct (decide (e ∈ l)), (decide (C e = Some dir)); try tauto.
  - intros e. simpl. rewrite Hp'. specialize (Hin e).
    destruct (decide (e ∈ l)), (decide (C e = Some dir)); tauto || done.
Qed.
End removal.

(** ** Abstract contents *)

(** An entry as a user of the index sees it. *)
Record AEntry := {
  a_frn : N; a_parent : N; a_name : list N; a_flags : N; a_size : N; a_mtime : Z; a_next : N
}.

Definition abs (v : VolumeIndex) (e : N) : option AEntry :=
  if decide (alive v e) then
    f ← getN e (c_frn (entries v)); p ← getN e (c_parent (entries v)); id ← getN e (c_name_id (entries v));
    nm ← raw_bytes (names v) id; fl ← getN e (c_flags (entries v)); sz ← getN e (c_size (entries v));
    mt ← getN e (c_mtime (entries v)); nl ← getN e (c_next_link (entries v));
    Some {| a_frn := f; a_parent := p; a_name := nm; a_flags := fl; a_size := sz; a_mtime := mt; a_next := nl |}
  else None.

(** The parent an entry has after the removal of [idx]. *)
Definition orphaned (idx lf : N) (a : AEntry) : AEntry :=
  {| a_frn := a_frn a; a_parent := if a_parent a =? idx then lf else a_parent a; a_name := a_name a;
     a_flags := a_flags a; a_size := a_size a; a_mtime := a_mtime a; a_next := a_next a |}.

(** Two states that agree on what is not per-entry. *)
Record frame_vol (v v' : VolumeIndex) : Prop := {
  fv_root : root v' = root v;
  fv_lf : lost_found v' = lost_found v;
  fv_generation : generation v' = generation v
}.
#[export] Instance frame_vol_refl : Reflexive frame_vol.
Proof. intros v. by split. Qed.
#[export] Instance frame_vol_trans : Transitive frame_vol.
Proof. intros a b c [] []. split; congruence. Qed.
Lemma frame_core_vol v v' : frame_core v v' -> frame_vol v v'.
Proof. intros []. by split. Qed.

Section remove.
Context {U : Unicode} {H : Hasher}.
Implicit Types (v : VolumeIndex).

Lemma alive_cols v S C D R ex hole e :
  Inv v S C D R ex hole -> alive v e ->
  exists f p id fl sz mt nl, getN e (c_frn (entries v)) = Some f /\ getN e (c_parent (entries v)) = Some p /\
    getN e (c_name_id (entries v)) = Some id /\ getN e (c_flags (entries v)) = Some fl /\
    getN e (c_size (entries v)) = Some sz /\ getN e (c_mtime (entries v)) = Some mt /\
    getN e (c_next_link (entries v)) = Some nl.
Proof.
  intros I Ha. pose proof (alive_lt _ _ _ _ _ _ _ _ I Ha) as Hlt. pose proof (i_cols _ _ _ _ _ _ _ I) as Hc.
  unfold cols_ok, cap in *.
  destruct (getN_is_Some e (c_frn (entries v))) as [f Hf]; [lia|].
  destruct (getN_is_Some e (c_parent (entries v))) as [p Hp]; [lia|].
  destruct (getN_is_Some e (c_name_id (entries v))) as [id Hid]; [lia|].
  destruct (getN_is_Some e (c_flags (entries v))) as [fl Hfl]; [lia|].
  destruct (getN_is_Some e (c_size (entries v))) as [sz Hsz]; [lia|].
  destruct (getN_is_Some e (c_mtime (entries v))) as [mt Hmt]; [lia|].
  destruct (getN_is_Some e (c_next_link (entries v))) as [nl Hnl]; [lia|].
  by exists f, p, id, fl, sz, mt, nl.
Qed.

Lemma same_key_alive v e id :
  alive v e -> getN e (c_name_id (entries v)) = Some id -> same_key v e = Some id.
Proof. intros Ha Hid. unfold same_key. by rewrite decide_True. Qed.

Lemma child_key_alive v e p :
  alive v e -> getN e (c_parent (entries v)) = Some p -> child_key v e = if p =? NIL then None else Some p.
Proof. intros Ha Hp. unfold child_key. rewrite decide_True by done. by rewrite Hp. Qed.

Lemma child_key_inv v e p :
  child_key v e = Some p -> alive v e /\ getN e (c_parent (entries v)) = Some p /\ p <> NIL.
Proof.
  unfold child_key. destruct (decide (alive v e)); [|done]. destruct (getN e (c_parent (entries v))) as [q|]; [|done].
  simpl. destruct (N.eqb_spec q NIL); [done|]. intros [= ->]. done.
Qed.

(** The state of [remove_entry] once everything hangs off the entry no more:
    [vm] is what the chain operations left, [ns] the store after the release. *)
Definition removed_state (idx : N) (ns : NameStore) (d : N) (vm : VolumeIndex) : VolumeIndex :=
  with_dirty d (with_entries (tombstoned idx (entries vm)) (with_names ns vm)).

Lemma removed_settled v vm idx ns d lf :
  lf = lost_found v -> idx <> lf -> idx < cap v -> vol_inv v None \/ (exists r, vol_inv v (Some r)) ->
  frame_core v vm -> len (c_parent (entries vm)) = cap v ->
  (forall e, e <> idx -> getN e (c_parent (entries vm)) =
     if decide (child_key v e = Some idx) then Some lf else getN e (c_parent (entries v))) ->
  names_kept (key_set idx None (same_key v)) (names vm) ns ->
  let v' := removed_state idx ns d vm in
  (forall e, alive v' e <-> e <> idx /\ alive v e) /\
  (forall e, same_key v' e = key_set idx None (same_key v) e) /\
  (forall e, child_key v' e = if decide (child_key v e = Some idx) then (if decide (e = idx) then None else Some lf)
                              else key_set idx None (child_key v) e) /\
  (forall e, e <> idx -> dirkey v' e = dirkey vm e) /\ dirkey v' idx = None /\
  parents_ok v' /\
  (forall e, abs v' e = if decide (e = idx) then None else orphaned idx lf <$> abs v e).
Proof.
  intros -> Hlf Hidx HI F Hlp Hpar Hkept v'.
  assert (HI' : exists hole, vol_inv v hole) by (destruct HI as [?|[r ?]]; eauto). clear HI. destruct HI' as [hole [I [Hpl Hlfp]]].
  pose proof (i_cols _ _ _ _ _ _ _ I) as Hc. unfold cols_ok in Hc. unfold cap in *.
  pose proof (alive_lt _ _ _ _ _ _ _ _ I (i_lf _ _ _ _ _ _ _ I)) as Hlflt. unfold cap in Hlflt.
  assert (HA : forall e, alive v' e <-> e <> idx /\ alive v e).
  { intros e. unfold alive, v'. simpl. rewrite live_e_insert by (rewrite (fc_flags _ _ F); lia).
    rewrite (fc_flags _ _ F). case_decide; [|naive_solver]. split; [done|]. by intros [? _]. }
  assert (Hget : forall {A} (c : list A) x e, e <> idx -> getN e (<[N.to_nat idx := x]> c) = getN e c).
  { intros A c x e He. unfold getN. apply list_lookup_insert_ne. lia. }
  assert (HP : forall e, e <> idx -> getN e (c_parent (entries v')) =
     if decide (child_key v e = Some idx) then Some (lost_found v) else getN e (c_parent (entries v))).
  { intros e He. simpl. rewrite Hget by done. by apply Hpar. }
  assert (HN : forall e, e <> idx -> getN e (c_name_id (entries v')) = getN e (c_name_id (entries v))).
  { intros e He. simpl. rewrite Hget by done. by rewrite (fc_name_id _ _ F). }
  assert (HB : forall e id, e <> idx -> alive v e -> getN e (c_name_id (entries v)) = Some id ->
     raw_bytes ns id = raw_bytes (names v) id /\ folded_bytes_of ns id = folded_bytes_of (names vm) id).
  { intros e id He Ha Hid. destruct (Hkept e id) as [E1 E2].
    - rewrite key_set_ne by done. by apply same_key_alive.
    - split; [|done]. rewrite E1. apply (names_eq_bytes _ _ id (fc_names _ _ F)). }
  split; [done|]. split; [|split; [|split; [|split; [|split]]]].
  - intros e. unfold same_key at 1, key_set. destruct (decide (alive v' e)) as [Ha|Ha].
    + apply HA in Ha as [He Ha]. rewrite decide_False, HN by done. unfold same_key. by rewrite decide_True.
    + case_decide; [done|]. unfold same_key. rewrite decide_False; [done|]. intros ?. apply Ha, HA. done.
  - intros e. destruct (decide (e = idx)) as [->|He].
    + unfold child_key at 1. rewrite decide_False by (intros ?%HA; naive_solver).
      case_decide; [done|by rewrite key_set_eq].
    + rewrite key_set_ne by done. unfold child_key at 1. specialize (HA e). specialize (HP e He).
      destruct (decide (alive v' e)) as [Ha|Ha].
      * rewrite HP. destruct (decide (child_key v e = Some idx)) as [E|E].
        -- simpl. by rewrite (proj2 (N.eqb_neq _ _)) by lia.
        -- unfold child_key. by rewrite decide_True by (by apply HA).
      * destruct (decide (child_key v e = Some idx)) as [E|E]; [apply child_key_inv in E as (? & _); tauto|].
        unfold child_key. rewrite decide_False; [done|]. intros ?. tauto.
  - intros e He. apply dirkey_local; simpl; rewrite ?Hget by done; try done.
    intros id Hid Ha. rewrite (fc_name_id _ _ F) in Hid. apply (frame_alive _ _ _ F) in Ha. by apply (HB e).
  - unfold dirkey, scope_dir, v'. simpl. rewrite getN_insert, decide_True by (rewrite ?(fc_flags _ _ F); done || lia). done.
  - split.
    + intros e p. destruct (decide (e = idx)) as [->|He].
      { simpl. rewrite getN_insert, decide_True by (rewrite ?Hlp; lia || done). intros [= <-]. by left. }
      rewrite HP by done. rewrite !HA. case_decide as E.
      * intros [= <-]. right. apply child_key_inv in E as (Ha & _). split; [done|]. split; [done|]. apply (i_lf _ _ _ _ _ _ _ I).
      * intros Hp. destruct (Hpl e p Hp) as [->|[Ha Hap]]; [by left|]. right. split; [done|]. split; [|done].
        intros ->. apply E. rewrite (child_key_alive _ _ _ Ha Hp). rewrite (proj2 (N.eqb_neq _ _)); [done|lia].
    + change (lost_found v') with (lost_found vm). rewrite (fc_lf _ _ F). rewrite HP by done. case_decide as E; [|done].
      apply child_key_inv in E as (_ & E & ?). congruence.
  - intros e. unfold abs at 1. case_decide as Ha.
    + apply HA in Ha as [He Ha]. rewrite decide_False by done. unfold abs. rewrite decide_True by done.
      destruct (alive_cols _ _ _ _ _ _ _ _ I Ha) as (f & p & id & fl & sz & mt & nl & E1 & E2 & E3 & E4 & E5 & E6 & E7).
      rewrite HP, HN by done. simpl. rewrite !Hget by done.
      rewrite (fc_frn _ _ F), (fc_flags _ _ F), (fc_size _ _ F), (fc_mtime _ _ F), (fc_next_link _ _ F).
      destruct (HB e id He Ha E3) as [HBr _]. rewrite E1, E2, E3, E4, E5, E6, E7. simpl. rewrite HBr.
      assert (Hnm : exists nm, raw_bytes (names v) id = Some nm).
      { destruct (i_ns _ _ _ _ _ _ _ I) as [gs R]. destruct (live_slot _ gs id R) as [g Hg].
        - eapply chained_live; [exact I|]. by apply same_key_alive.
        - exists (raw_of g). by apply raw_bytes_slot with gs. }
      destruct Hnm as [nm ->]. simpl. unfold orphaned. simpl.
      rewrite (child_key_alive _ _ _ Ha E2). destruct (N.eqb_spec p NIL) as [->|Hp].
      * rewrite decide_False by done. by rewrite (proj2 (N.eqb_neq NIL idx)) by lia.
      * destruct (N.eqb_spec p idx) as [->|]; [by rewrite decide_True|by rewrite decide_False by congruence].
    + case_decide as He; [done|]. unfold abs. rewrite decide_False; [done|]. intros ?. apply Ha, HA. done.
Qed.

(** The parent an entry has once the entries of [gone] are removed. *)
Definition reparented (gone : list N) (lf : N) (a : AEntry) : AEntry :=
  {| a_frn := a_frn a; a_parent := if decide (a_parent a ∈ gone) then lf else a_parent a; a_name := a_name a;
     a_flags := a_flags a; a_size := a_size a; a_mtime := a_mtime a; a_next := a_next a |}.

(** Exactly the entries of [gone] are removed; their children move to
    lost+found. *)
Record removed (gone : list N) v v' : Prop := {
  rm_frame : frame_vol v v';
  rm_susp : cycle_suspects v' = cycle_suspects v;
  rm_frn : c_frn (entries v') = c_frn (entries v);
  rm_next e : e ∉ gone -> getN e (c_next_link (entries v')) = getN e (c_next_link (entries v));
  rm_alive e : alive v' e <-> e ∉ gone /\ alive v e;
  rm_abs e : abs v' e = if decide (e ∈ gone) then None else reparented gone (lost_found v) <$> abs v e;
  rm_space k : space v k -> space v' k
}.

Lemma removed_refl v : removed [] v v.
Proof.
  split; try done.
  - intros e. set_solver.
  - intros e. rewrite decide_False by set_solver. destruct (abs v e) as [[]|]; [|done]. done.
Qed.

Lemma removed_trans g1 g2 v v1 v2 :
  lost_found v ∉ g2 -> removed g1 v v1 -> removed g2 v1 v2 -> removed (g1 ++ g2) v v2.
Proof.
  intros Hlf [F1 S1 R1 N1 A1 B1 P1] [F2 S2 R2 N2 A2 B2 P2]. split; try congruence; try by etransitivity.
  - intros e [? ?]%not_elem_of_app. by rewrite N2, N1.
  - intros e. rewrite A2, A1, not_elem_of_app. tauto.
  - intros e. rewrite B2, B1, (fv_lf _ _ F1).
    destruct (decide (e ∈ g2)); [by rewrite decide_True by set_solver|].
    destruct (decide (e ∈ g1)); [by rewrite decide_True by set_solver|]. rewrite decide_False by set_solver.
    destruct (abs v e) as [[]|]; [|done]. simpl. unfold reparented. simpl. do 2 f_equal.
    destruct (decide (a_parent0 ∈ g1)).
    + rewrite decide_False by done. by rewrite decide_True by set_solver.
    + destruct (decide (a_parent0 ∈ g2)); [by rewrite decide_True by set_solver|by rewrite decide_False by set_solver].
  - auto.
Qed.

(** Everything [remove_entry] does before the name is released. *)
Lemma wp_remove_detach {A} v hole idx (k : ST VolumeIndex A) Q :
  vol_inv v hole -> alive v idx -> idx <> lost_found v ->
  (forall v4 id, getN idx (c_name_id (entries v)) = Some id -> frame_core v v4 ->
     (forall e, e <> idx -> getN e (c_parent (entries v4)) =
        if decide (child_key v e = Some idx) then Some (lost_found v) else getN e (c_parent (entries v))) ->
     Inv v4 (key_set idx None (same_key v))
       (fun e => if decide (key_set idx None (child_key v) e = Some idx) then Some (lost_found v) else key_set idx None (child_key v) e)
       (fun e => if decide (key_set idx None (child_key v) e = Some idx) then dirkey v4 e else key_set idx None (dirkey v) e)
       (ref_add id (fun _ => 0)) None hole -> wp k Q v4) ->
  wp (dir_index_remove idx ;;; unlink_same_name idx ;;; unlink_child idx ;;; orphan_children idx ;;; k) Q v.
Proof.
  intros [I [Hpl Hlfp]] Ha Hlf HQ.
  destruct (alive_cols _ _ _ _ _ _ _ _ I Ha) as (f & p & id & _ & _ & _ & _ & _ & Ep & Eid & _).
  pose proof (same_key_alive _ _ _ Ha Eid) as HS. pose proof (same_range _ _ _ _ _ _ _ _ _ I HS) as Hidlt.
  pose proof (alive_lt _ _ _ _ _ _ _ _ I Ha) as Hlt.
  apply wp_bind. eapply wp_dir_index_remove; [exact I|done..|]. intros m1 I1.
  apply wp_bind. eapply wp_unlink_same_name; [exact I1|exact HS|exact Eid|]. intros nx pv hd I2.
  set (v2 := upd_same nx pv hd _) in *. assert (F2 : frame_core v v2) by (by split).
  assert (Hp2 : c_parent (entries v2) = c_parent (entries v)) by done.
  assert (Hgo : forall v3, frame_core v v3 -> c_parent (entries v3) = c_parent (entries v) ->
    Inv v3 (key_set idx None (same_key v)) (key_set idx None (child_key v)) (key_set idx None (dirkey v)) (ref_add id (fun _ => 0)) None hole ->
    wp (orphan_children idx ;;; k) Q v3).
  { intros v3 F3 Hp3 I3. apply wp_bind. eapply wp_orphan_children; [exact I3|by rewrite (frame_cap _ _ F3)|by rewrite (fc_lf _ _ F3)| |].
    - intros e He. assert (Hne : e <> idx) by (intros ->; by rewrite key_set_eq in He).
      rewrite key_set_ne in He by done. apply child_key_inv in He as (Hae & Hpe & Hn).
      rewrite key_set_ne by done. split; [by apply (frame_alive _ _ _ F3)|]. split; [|split].
      + intros ->. rewrite (fc_lf _ _ F3) in Hpe. congruence.
      + symmetry. apply frame_dirkey; [done|by rewrite Hp3].
      + rewrite (fc_name_id _ _ F3). destruct (alive_cols _ _ _ _ _ _ _ _ I Hae) as (_ & _ & id' & _ & _ & _ & _ & _ & _ & Eid' & _).
        exists id'. split; [done|]. destruct (names_eq_bytes _ _ id' (fc_names _ _ F3)) as (_ & _ & ->).
        eapply same_range; [exact I|]. by apply same_key_alive.
    - intros v4 F4 I4 Hp4. rewrite (fc_lf _ _ F3) in I4, Hp4. apply (HQ v4 id); try done; [by etransitivity|].
      intros e He. rewrite Hp4, Hp3, key_set_ne by done. done. }
  apply wp_bind. eapply wp_unlink_child; [exact I2|exact Ep|by apply child_key_alive|done| |].
  - intros ->. apply Hgo; [done..|]. eapply Inv_ext; [exact I2|done| |done|done]. intros e.
    unfold key_set. case_decide; [subst|done]. symmetry. by rewrite (child_key_alive _ _ _ Ha Ep).
  - intros _ nx3 pv3 fc3 I3. apply Hgo; [by split|done|done].
Qed.

Lemma orphaned_reparented idx lf a : orphaned idx lf a = reparented [idx] lf a.
Proof.
  unfold orphaned, reparented. f_equal.
  destruct (N.eqb_spec (a_parent a) idx); [by rewrite decide_True by set_solver|by rewrite decide_False by set_solver].
Qed.

Lemma removed_state_removed v v4 idx ns d :
  frame_core v v4 -> c_frn (entries v4) = c_frn (entries v) -> idx < cap v -> cols_ok (entries v4) ->
  (forall k, space v k -> space (with_names ns v4) k) ->
  (forall e, alive (removed_state idx ns d v4) e <-> e <> idx /\ alive v e) ->
  (forall e, abs (removed_state idx ns d v4) e = if decide (e = idx) then None else orphaned idx (lost_found v) <$> abs v e) ->
  removed [idx] v (removed_state idx ns d v4).
Proof.
  intros F Ef Hidx Hc Hsp HA Habs. split; try done.
  - destruct F. by split.
  - apply (fc_susp _ _ F).
  - intros e He%not_elem_of_cons. simpl. unfold getN. rewrite list_lookup_insert_ne by lia. by rewrite (fc_next_link _ _ F).
  - intros e. rewrite HA, not_elem_of_cons. set_solver.
  - intros e. rewrite Habs. destruct (decide (e = idx)); [by rewrite decide_True by set_solver|].
    rewrite decide_False by set_solver. destruct (abs v e); [|done]. simpl. by rewrite orphaned_reparented.
  - intros k Hk. destruct (Hsp k Hk) as [P1 P2 P3 P4 P5]. by split.
Qed.

Lemma wp_remove_entry v hole idx f Q :
  vol_inv v hole -> alive v idx -> idx <> lost_found v ->
  getN idx (c_frn (entries v)) = Some f -> hole = Some (record_number f) ->
  (forall v', vol_inv v' hole -> removed [idx] v v' -> by_frn v' = by_frn v -> stats v' = stats v -> Q tt v') ->
  wp (remove_entry idx) Q v.
Proof.
  intros Hv Ha Hlf Hf Hh HQ. pose proof Hv as [I HP]. pose proof (alive_lt _ _ _ _ _ _ _ _ I Ha) as Hlt.
  destruct (alive_cols _ _ _ _ _ _ _ _ I Ha) as (_ & _ & id & _ & _ & _ & _ & _ & _ & Eid & _).
  unfold remove_entry. eapply wp_remove_detach; [exact Hv|done|done|]. intros v4 id' E F Hp4 I4. simplify_eq.
  pose proof (same_range _ _ _ _ _ _ _ _ _ I (same_key_alive _ _ _ Ha Eid)) as Hid.
  apply wp_bind. eapply wp_ent_read; [rewrite (fc_name_id _ _ F); exact Eid|]. apply wp_bind.
  eapply wp_nam_release; [exact I4|unfold ref_add; rewrite decide_True by done; lia| |].
  { by destruct (names_eq_bytes _ _ id (fc_names _ _ F)) as (_ & _ & ->). }
  intros ns I5 Hkept Hids Hsp. apply wp_bind.
  pose proof (i_cols _ _ _ _ _ _ _ I4) as Hc4. pose proof Hc4 as Hl4. unfold cols_ok in Hl4.
  destruct (removed_settled v v4 idx ns (dirty v4 + 1) (lost_found v)) as (HA & HS' & HC' & HD' & HD0 & HP' & Habs); try done.
  { right. eauto. }
  { rewrite <- (frame_cap _ _ F). unfold cap. lia. }
  eapply wp_tombstone; [exact I5| |simpl; by rewrite (fc_lf _ _ F)|apply key_set_eq| | | |done|].
  { by apply (frame_alive _ _ _ F). }
  { simpl. by rewrite key_set_eq, decide_False. }
  { intros e. simpl. case_decide; congruence. }
  { exists f. simpl. by rewrite (fc_frn _ _ F). }
  intros I6. apply wp_modify. apply (HQ (removed_state idx ns (dirty v4 + 1) v4)).
  - split; [|done]. apply (Inv_dirty _ _ _ _ _ _ _ (dirty v4 + 1)) in I6.
    eapply Inv_ext; [exact I6|done|..]; intros e; simpl.
    + rewrite HC'. unfold key_set. repeat case_decide; congruence.
    + destruct (decide (e = idx)) as [->|Hne]; [rewrite key_set_eq, decide_False by done; by rewrite key_set_eq|].
      rewrite HD' by done. rewrite !key_set_ne by done. destruct (decide (child_key v e = Some idx)) as [?|Hn]; [done|].
      apply frame_dirkey; [done|]. by rewrite Hp4, decide_False by done.
    + unfold ref_sub, ref_add. case_decide; lia.
  - apply removed_state_removed; try done; [apply (fc_frn _ _ F)|]. intros k Hk. by apply Hsp, (frame_space v).
  - apply (fc_by_frn _ _ F).
  - apply (fc_stats _ _ F).
Qed.
End remove.
