(* ===== verification/VolumeEdit.v ===== *)
(** Deleting, inserting and rewriting files in the per-volume index: each
    operation keeps [vol_ok], does not panic, and changes the abstract contents
    [abs] of the index as a journal reader expects. *)

From stdpp Require Import gmap.
From stdpp Require Import base option list sets.
From Stdlib Require Import NArith ZArith Lia.
From S2P Require Import Prelude Types Wtf8 UsnRecord UsnOps LayoutParse Fold FrnMap NameStore NameOrder EntryTable Chain Volume VolumeInv VolumeOps.

(** ** The FRN map *)

Section by_frn.
Context {U : Unicode} {H : Hasher}.
Implicit Types (v : VolumeIndex).

(** The entries of a record number. *)
Definition of_record v (r e : N) : Prop :=
  has_record (c_flags (entries v)) (c_frn (entries v)) (lost_found v) r e.

Lemma vol_inv_open v r : vol_inv v None -> vol_inv v (Some r).
Proof. intros [I HP]; destruct I. split; [|done]. split; try done. intros r' _. by apply i_link. Qed.

Lemma Inv_map v S C D R ex r m hole :
  Inv v S C D R ex (Some r) -> frn_map_ok m -> (forall r', r' <> r -> FrnMap.get m r' = FrnMap.get (by_frn v) r') ->
  (hole = None -> link_ok (c_flags (entries v)) (c_frn (entries v)) (c_next_link (entries v)) (lost_found v) m r) ->
  hole = None \/ hole = Some r -> Inv (with_by_frn m v) S C D R ex hole.
Proof.
  intros I Hm Hget Hr Hh. destruct I. split; try done. simpl.
  intros r' Hr'. destruct (decide (r' = r)) as [->|Hne].
  - apply Hr. destruct Hh as [-> | ->]; [done|congruence].
  - assert (Hl : link_ok (c_flags (entries v)) (c_frn (entries v)) (c_next_link (entries v)) (lost_found v) (by_frn v) r')
      by (apply i_link; congruence).
    unfold link_ok in *. by rewrite Hget.
Qed.

Lemma vol_inv_close v r :
  vol_inv v (Some r) ->
  link_ok (c_flags (entries v)) (c_frn (entries v)) (c_next_link (entries v)) (lost_found v) (by_frn v) r -> vol_inv v None.
Proof.
  intros Hv Hl. destruct Hv as [I HP]. split; [|done]. destruct I. split; try done.
  intros r' _. destruct (decide (r' = r)) as [->|]; [done|]. apply i_link. congruence.
Qed.

(** The record is gone from the map and from the table. *)
Lemma vol_inv_remove v r :
  vol_inv v (Some r) -> (forall e, ~ of_record v r e) -> vol_inv (with_by_frn (FrnMap.remove r (by_frn v)) v) None.
Proof.
  intros [I HP] Hno. split; [|done]. eapply Inv_map; [exact I| | | |by left].
  - apply frn_map_ok_remove, (i_map _ _ _ _ _ _ _ I).
  - intros r' Hne. rewrite get_remove. by rewrite decide_False.
  - intros _. unfold link_ok. by rewrite get_remove, decide_True.
Qed.

(** The record's entries, chained from the one the map gets. *)
Lemma Inv_set v S C D R ex r f l h :
  Inv v S C D R ex (Some r) -> nseg (c_next_link (entries v)) h l -> NoDup l -> l <> [] ->
  (forall e, e ∈ l <-> of_record v r e) -> (forall e, e ∈ l -> getN e (c_frn (entries v)) = Some f) ->
  Inv (with_by_frn (FrnMap.set r h (by_frn v)) v) S C D R ex None.
Proof.
  intros I Hs Hnd Hne Hin Hf.
  assert (Hh : h <> NIL) by (destruct l; [done|]; simpl in Hs; naive_solver).
  eapply Inv_map; [exact I| | | |by left].
  - apply frn_map_ok_set; [apply (i_map _ _ _ _ _ _ _ I)|done].
  - intros r' Hr. rewrite get_set by done. by rewrite decide_False.
  - intros _. unfold link_ok. rewrite get_set, decide_True by done. by exists l, f.
Qed.

Lemma vol_inv_stats v hole st : vol_inv v hole -> vol_inv (with_stats st v) hole.
Proof. intros [I HP]; destruct I. by split. Qed.
Lemma vol_inv_dirty v hole d : vol_inv v hole -> vol_inv (with_dirty d v) hole.
Proof. intros [I HP]; destruct I. by split. Qed.

(** What the map says of a record between operations. *)
Lemma links_found v r h :
  vol_ok v -> FrnMap.get (by_frn v) r = Some h ->
  exists l f, nseg (c_next_link (entries v)) h (h :: l) /\ NoDup (h :: l) /\ record_number f = r /\
    (forall e, e ∈ h :: l <-> of_record v r e) /\ forall e, e ∈ h :: l -> getN e (c_frn (entries v)) = Some f.
Proof.
  intros [I _] Hg. pose proof (i_link _ _ _ _ _ _ _ I r ltac:(done)) as Hl. unfold link_ok in Hl. rewrite Hg in Hl.
  destruct Hl as (l & f & Hs & Hnd & Hne & Hin & Hf). destruct l as [|x l]; [done|].
  assert (x = h) as -> by (simpl in Hs; naive_solver). exists l, f. split_and!; try done.
  assert (Hh : h ∈ h :: l) by left. pose proof (Hf h Hh) as Hfh. apply Hin in Hh as (_ & _ & f' & ? & ?). congruence.
Qed.

Lemma links_absent v r :
  vol_ok v -> FrnMap.get (by_frn v) r = None -> forall e, ~ of_record v r e.
Proof.
  intros [I _] Hg. pose proof (i_link _ _ _ _ _ _ _ I r ltac:(done)) as Hl. unfold link_ok in Hl. by rewrite Hg in Hl.
Qed.

(** Chains fit the fuel. *)
Lemma chain_fuel v S C D R ex hole l :
  Inv v S C D R ex hole -> NoDup l -> (forall e, e ∈ l -> alive v e) -> (length l <= fuel_of v)%nat.
Proof.
  intros I Hnd Hin. assert (len l <= capacity (entries v)); [|unfold fuel_of, len in *; lia].
  apply NoDup_below; [done|]. intros e He%Hin. pose proof (alive_lt _ _ _ _ _ _ _ _ I He). done.
Qed.
End by_frn.

(** ** What an edit leaves alone *)

Definition set_a_parent (p : N) (a : AEntry) : AEntry :=
  {| a_frn := a_frn a; a_parent := p; a_name := a_name a; a_flags := a_flags a; a_size := a_size a;
     a_mtime := a_mtime a; a_next := a_next a |}.

Section kept.
Context {U : Unicode} {H : Hasher}.
Implicit Types (v : VolumeIndex) (P : list N).

(** Entry [e] belongs to a record of [P]; lost+found belongs to none. *)
Definition touched P v (e : N) : Prop :=
  e <> lost_found v /\ exists a, abs v e = Some a /\ record_number (a_frn a) ∈ P.

(** The edit concerns the records of [P] only: every other entry stays as it
    is, but for moving to lost+found when its parent was of [P], and an entry
    that appears is of [P]. *)
Record kept P v v' : Prop := {
  k_frame : frame_vol v v';
  k_entries e a : abs v e = Some a -> ~ touched P v e ->
    exists p, abs v' e = Some (set_a_parent p a) /\ (p = a_parent a \/ p = lost_found v /\ touched P v (a_parent a));
  k_new e a' : abs v' e = Some a' -> (exists a, abs v e = Some a /\ a_frn a = a_frn a') \/ record_number (a_frn a') ∈ P
}.

Lemma set_a_parent_id a : set_a_parent (a_parent a) a = a.
Proof. by destruct a. Qed.

Lemma abs_inv v e a :
  abs v e = Some a -> alive v e /\ getN e (c_frn (entries v)) = Some (a_frn a) /\
    getN e (c_parent (entries v)) = Some (a_parent a) /\ getN e (c_flags (entries v)) = Some (a_flags a) /\
    getN e (c_next_link (entries v)) = Some (a_next a) /\
    exists id, getN e (c_name_id (entries v)) = Some id /\ raw_bytes (names v) id = Some (a_name a).
Proof.
  unfold abs. case_decide; [|done]. intros Ha.
  repeat (apply bind_Some in Ha as (? & ? & Ha)).
  simplify_eq. simpl. split_and!; eauto.
Qed.

Lemma abs_alive v S C D R ex hole e :
  Inv v S C D R ex hole -> S e = same_key v e -> alive v e -> exists a, abs v e = Some a.
Proof.
  intros I HS Ha. destruct (alive_cols _ _ _ _ _ _ _ _ I Ha) as (f & p & id & fl & sz & mt & nl & E1 & E2 & E3 & E4 & E5 & E6 & E7).
  assert (Hnm : exists nm, raw_bytes (names v) id = Some nm).
  { destruct (i_ns _ _ _ _ _ _ _ I) as [gs R0]. destruct (live_slot _ gs id R0) as [g Hg].
    - eapply chained_live; [exact I|]. rewrite HS. by apply same_key_alive.
    - exists (raw_of g). by apply raw_bytes_slot with gs. }
  destruct Hnm as [nm Hnm]. unfold abs. rewrite decide_True, E1, E2, E3 by done. simpl. rewrite Hnm. simpl.
  rewrite E4, E5, E6, E7. simpl. eauto.
Qed.

Lemma abs_total v hole e : vol_inv v hole -> alive v e -> exists a, abs v e = Some a.
Proof. intros [I _]. by eapply abs_alive. Qed.

Lemma of_record_abs v hole r e :
  vol_inv v hole -> of_record v r e <-> e <> lost_found v /\ exists a, abs v e = Some a /\ record_number (a_frn a) = r.
Proof.
  intros Hv. split.
  - intros (Ha & Hlf & f & Hf & Hr). split; [done|]. destruct (abs_total _ _ _ Hv Ha) as [a Habs].
    exists a. split; [done|]. apply abs_inv in Habs as (_ & ? & _). congruence.
  - intros (Hlf & a & Habs & Hr). apply abs_inv in Habs as (Ha & Hf & _). split_and!; eauto.
Qed.

Lemma kept_refl P v : kept P v v.
Proof. split; [done| |by eauto]. intros e a He _. exists (a_parent a). rewrite set_a_parent_id. auto. Qed.

Lemma kept_mono P P' v v' : P ⊆ P' -> kept P v v' -> kept P' v v'.
Proof.
  intros Hsub [K1 K2 K3]. assert (Ht : forall e, touched P v e -> touched P' v e) by (intros e (? & a & ? & ?); split; eauto).
  split; [done| |].
  - intros e a He Hn. destruct (K2 e a He) as (p & ? & ?); [naive_solver|]. exists p. naive_solver.
  - intros e a' He. destruct (K3 e a' He); auto.
Qed.

Lemma kept_trans P v v1 v2 hole hole' : vol_inv v hole -> vol_inv v1 hole' -> kept P v v1 -> kept P v1 v2 -> kept P v v2.
Proof.
  intros Hv Hv1 [K1 K2 K3] [L1 L2 L3].
  assert (Hback : forall e, is_Some (abs v e) -> touched P v1 e -> touched P v e).
  { intros e [a He] (Hlf & a1 & He1 & HP). rewrite (fv_lf _ _ K1) in Hlf. split; [done|]. exists a. split; [done|].
    destruct (K3 e a1 He1) as [(a0 & He0 & Ef)|?].
    - simplify_eq. by rewrite Ef.
    - destruct (decide (e = lost_found v)); [done|]. apply dec_stable. intros Hn.
      destruct (K2 e a He) as (p & He' & _); [intros (_ & b & ? & ?); simplify_eq|]. by simplify_eq. }
  split; [by etransitivity| |].
  - intros e a He Hn. destruct (K2 e a He Hn) as (p & He1 & Hp).
    destruct (L2 e _ He1) as (p2 & He2 & Hp2). { intros Ht. apply Hn, Hback; [by eexists|done]. }
    exists p2. split; [by rewrite He2|]. simpl in Hp2. rewrite (fv_lf _ _ K1) in Hp2.
    destruct Hp2 as [->|[-> Ht]]; [done|]. right. split; [done|].
    destruct Hp as [-> |[-> ?]]; [|done]. apply Hback; [|done].
    apply abs_inv in He as (Ha & _ & Hpar & _). destruct Hv as [I [Hpl _]].
    destruct (Hpl e _ Hpar) as [E|[_ Hap]]; [|by eapply abs_alive].
    exfalso. destruct Ht as (_ & b & Hb & _). apply abs_inv in Hb as (Hb & _). rewrite E in Hb.
    pose proof (alive_lt _ _ _ _ _ _ _ _ (proj1 Hv1) Hb). pose proof (i_cols _ _ _ _ _ _ _ (proj1 Hv1)) as Hc.
    unfold cols_ok, cap in *. lia.
  - intros e a2 He2. destruct (L3 e a2 He2) as [(a1 & He1 & E1)|?]; [|auto].
    destruct (K3 e a1 He1) as [(a & He & E)|?]; [left; exists a; split; [done|congruence]|right; by rewrite <- E1].
Qed.

Lemma removed_kept gone r v v' hole :
  vol_inv v hole -> (forall e, e ∈ gone -> of_record v r e) -> removed gone v v' -> kept [r] v v'.
Proof.
  intros Hv Hg [F _ _ _ _ Habs _].
  assert (Ht : forall e, e ∈ gone -> touched [r] v e).
  { intros e He. apply Hg, (of_record_abs _ _ _ _ Hv) in He as (? & a & ? & <-). split; [done|]. exists a. split; [done|]. left. }
  split; [done| |].
  - intros e a He Hn. rewrite Habs, decide_False by auto. rewrite He. simpl. unfold reparented. case_decide as Hp.
    + exists (lost_found v). naive_solver.
    + exists (a_parent a). naive_solver.
  - intros e a'. rewrite Habs. case_decide; [done|]. destruct (abs v e) as [a|]; [|done]. intros [= <-]. left. by exists a.
Qed.
End kept.

(** ** Deletion *)

Section delete.
Context {U : Unicode} {H : Hasher}.
Implicit Types (v : VolumeIndex).

Lemma wp_tombstone_loop l : forall fuel cur v f Q,
  (length l <= fuel)%nat -> vol_inv v (Some (record_number f)) -> nseg (c_next_link (entries v)) cur l -> NoDup l ->
  (forall e, e ∈ l -> alive v e /\ e <> lost_found v /\ getN e (c_frn (entries v)) = Some f) ->
  (forall v', vol_inv v' (Some (record_number f)) -> removed l v v' -> by_frn v' = by_frn v -> stats v' = stats v -> Q tt v') ->
  wp (tombstone_loop fuel cur) Q v.
Proof.
  induction l as [|x l IH]; intros fuel cur v f Q Hfuel Hv Hs Hnd Hin HQ.
  { simpl in Hs. subst cur. assert (Q tt v) by (apply HQ; try done; apply removed_refl). destruct fuel; simpl; by apply wp_ret. }
  destruct fuel as [|fuel]; [simpl in Hfuel; lia|]. simpl in Hs. destruct Hs as (-> & HxN & n & Hn & Hs).
  apply NoDup_cons in Hnd as [Hxl Hnd]. destruct (Hin x) as (Ha & Hlf & Hf); [left|].
  cbn [tombstone_loop]. rewrite (proj2 (N.eqb_neq _ _) HxN). apply wp_bind. wp_get_col. apply wp_bind.
  eapply wp_remove_entry; [exact Hv|done..|]. intros v1 Hv1 R1 Em Es.
  eapply (IH _ _ _ f); [simpl in Hfuel; lia|done| |done| |].
  - eapply nseg_frame; [|exact Hs]. intros e He. apply (rm_next _ _ _ R1). set_solver.
  - intros e He. destruct (Hin e) as (A1 & A2 & A3); [by right|]. rewrite (fv_lf _ _ (rm_frame _ _ _ R1)), (rm_frn _ _ _ R1).
    split_and!; try done. apply (rm_alive _ _ _ R1). split; [set_solver|done].
  - intros v2 Hv2 R2 Em2 Es2. apply HQ; [done| |congruence|congruence].
    apply (removed_trans [x] l v v1 v2); [|done|done]. intros Hin'. destruct (Hin (lost_found v)) as (_ & ? & _); [by right|]. done.
Qed.

(** The chain of a record is removed; the map's entry still stands. *)
Lemma wp_tombstone_chain v r h Q :
  vol_ok v -> FrnMap.get (by_frn v) r = Some h ->
  (forall gone f v', (forall e, e ∈ gone <-> of_record v r e) -> NoDup gone -> h ∈ gone ->
     (forall e, e ∈ gone -> getN e (c_frn (entries v)) = Some f) ->
     vol_inv v' (Some r) -> removed gone v v' -> by_frn v' = by_frn v -> stats v' = stats v ->
     (forall e, ~ of_record v' r e) -> Q tt v') ->
  wp (tombstone_chain h) Q v.
Proof.
  intros Hv Hg HQ. destruct (links_found _ _ _ Hv Hg) as (l & f & Hs & Hnd & Hr & Hin & Hf).
  unfold tombstone_chain. apply wp_bind, wp_get. eapply (wp_tombstone_loop (h :: l) _ _ _ f); [| |exact Hs|done| |].
  - eapply chain_fuel; [apply Hv|done|]. intros e He%Hin. apply He.
  - by apply vol_inv_open.
  - intros e He. split_and!; [..|by apply Hf]; apply Hin in He; apply He.
  - rewrite Hr. intros v' Hv' R Em Es. eapply (HQ (h :: l) f); try done; [left|].
    intros e (Ha & Hlf & f' & Hf' & Hr'). rewrite (fv_lf _ _ (rm_frame _ _ _ R)) in Hlf. rewrite (rm_frn _ _ _ R) in Hf'.
    apply (rm_alive _ _ _ R) in Ha as [Hni Ha]. apply Hni, Hin. split_and!; eauto.
Qed.

Lemma removed_with_map gone m st v v' :
  removed gone v v' -> removed gone v (with_stats st (with_by_frn m v')).
Proof. intros [F ? ? ? ? ? Hsp]. destruct F. split; try done. intros k Hk. by destruct (Hsp k Hk). Qed.

Lemma wp_reclaim v r h Q :
  vol_ok v -> FrnMap.get (by_frn v) r = Some h ->
  (forall v', vol_ok v' -> kept [r] v v' -> (forall e, ~ of_record v' r e) -> (forall k, space v k -> space v' k) ->
     cycle_suspects v' = cycle_suspects v -> cap v' = cap v -> Q tt v') ->
  wp (reclaim_stale_slot r h) Q v.
Proof.
  intros Hv Hg HQ. unfold reclaim_stale_slot. apply wp_bind. eapply wp_tombstone_chain; [done..|].
  intros gone f v' Hin Hnd Hh Hf Hv' R Em Es Hno. apply wp_bind, wp_modify, wp_modify.
  set (v2 := with_stats _ _). assert (R2 : removed gone v v2) by (by apply removed_with_map).
  apply HQ.
  - apply vol_inv_stats. by apply vol_inv_remove.
  - eapply removed_kept; [exact Hv|by apply Hin|done].
  - exact Hno.
  - apply (rm_space _ _ _ R2).
  - apply (rm_susp _ _ _ R2).
  - unfold cap. by rewrite (rm_frn _ _ _ R2).
Qed.

(** The entries of one file. *)
Definition link_of v (f e : N) : Prop := e <> lost_found v /\ exists a, abs v e = Some a /\ a_frn a = f.

Definition delete_post v f (ok : bool) v' : Prop :=
  vol_ok v' /\
  if ok then exists gone, gone <> [] /\ (forall e, e ∈ gone <-> link_of v f e) /\ removed gone v v' /\
    forall e, ~ of_record v' (record_number f) e
  else v' = v /\ forall e, ~ link_of v f e.

(** All entries of a record belong to one file. *)
Lemma link_of_record v r f h e :
  vol_ok v -> FrnMap.get (by_frn v) r = Some h -> getN h (c_frn (entries v)) = Some f -> of_record v r e <-> link_of v f e.
Proof.
  intros Hv Hg Hf. destruct (links_found _ _ _ Hv Hg) as (l & f' & _ & _ & Hr & Hin & Hfr).
  pose proof (Hfr h ltac:(left)) as E. assert (f' = f) as -> by congruence. rewrite (of_record_abs _ _ _ _ Hv). split.
  - intros (Hlf & a & Ha & Er). split; [done|]. exists a. split; [done|].
    assert (e ∈ h :: l) as He. { apply Hin, (of_record_abs _ _ _ _ Hv). eauto. }
    apply Hfr in He. apply abs_inv in Ha as (_ & ? & _). congruence.
  - intros (Hlf & a & Ha & <-). eauto.
Qed.

Lemma link_of_is_record v hole f e : vol_inv v hole -> link_of v f e -> of_record v (record_number f) e.
Proof. intros Hv (Hlf & a & Ha & <-). apply (of_record_abs _ _ _ _ Hv). eauto. Qed.

Lemma wp_delete_frn v f : vol_ok v -> wp (delete_frn f) (delete_post v f) v.
Proof.
  intros Hv. unfold delete_frn. apply wp_bind, wp_get.
  destruct (FrnMap.get (by_frn v) (record_number f)) as [h|] eqn:Hg.
  - destruct (links_found _ _ _ Hv Hg) as (l & f' & _ & _ & Hr & Hin & Hfr). pose proof (Hfr h ltac:(left)) as Hf'.
    apply wp_bind. wp_get_col. destruct (N.eqb_spec f' f) as [->|Hne]; simpl.
    + apply wp_bind. eapply wp_tombstone_chain; [done..|]. intros gone f1 v' Hin' Hnd Hh Hf1 Hv' R Em Es Hno.
      apply wp_bind, wp_modify, wp_ret. set (v2 := with_by_frn _ _). split; [by apply vol_inv_remove|]. exists gone. split_and!.
      * by intros ->; apply not_elem_of_nil in Hh.
      * intros e. rewrite Hin'. by eapply link_of_record.
      * exact (removed_with_map gone (FrnMap.remove (record_number f) (by_frn v')) (stats v') v v' R).
      * exact Hno.
    + apply wp_ret. split; [done|]. split; [done|]. intros e He.
      pose proof (proj1 (link_of_record v _ f' h e Hv Hg Hf') (link_of_is_record _ _ _ _ Hv He)) as (_ & a & Ha & E).
      destruct He as (_ & a' & Ha' & E'). congruence.
  - apply wp_ret. split; [done|]. split; [done|]. intros e He.
    by apply (links_absent _ _ Hv Hg e), (link_of_is_record _ None).
Qed.
End delete.

(** ** Insertion *)

Section insertion.
Context {U : Unicode} {H : Hasher}.
Implicit Types (v : VolumeIndex).

Lemma vol_dead v hole : vol_inv v hole -> dead_unlinked v (same_key v) (child_key v) (dirkey v).
Proof.
  intros [I [Hpl _]]. split.
  - intros e Ha. unfold same_key, child_key. rewrite !decide_False by done. split_and!; try done.
    unfold dirkey, scope_dir. unfold alive, live_e in Ha. destruct (getN e (c_flags (entries v))) as [fl|]; [|done].
    destruct (contains fl TOMBSTONE); [done|]. by destruct Ha.
  - intros e p (Ha & Hp & Hn)%child_key_inv. by destruct (Hpl e p Hp) as [?|[_ ?]].
Qed.

(** Exactly one entry appears, at a slot that was free. *)
Record inserted (idx : N) (a : AEntry) v v' : Prop := {
  in_frame : frame_vol v v';
  in_susp : cycle_suspects v' = cycle_suspects v;
  in_free : ~ alive v idx;
  in_by_frn : by_frn v' = by_frn v;
  in_alive e : alive v' e <-> e = idx \/ alive v e;
  in_next e : e <> idx -> getN e (c_next_link (entries v')) = getN e (c_next_link (entries v));
  in_frn e : e <> idx -> getN e (c_frn (entries v')) = getN e (c_frn (entries v));
  in_abs e : abs v' e = if decide (e = idx) then Some a else abs v e
}.

(** The columns a user sees, after a write of one whole entry. *)
Record entry_put (idx f par id fl sz : N) (mt : Z) (nl : N) (t t' : EntryTable) : Prop := {
  ep_frn : put idx f (c_frn t) (c_frn t');
  ep_parent : put idx par (c_parent t) (c_parent t');
  ep_name_id : put idx id (c_name_id t) (c_name_id t');
  ep_flags : put idx fl (c_flags t) (c_flags t');
  ep_size : put idx sz (c_size t) (c_size t');
  ep_mtime : put idx mt (c_mtime t) (c_mtime t');
  ep_next_link : put idx nl (c_next_link t) (c_next_link t')
}.

(** What a written entry does to the keys and to the abstract contents. *)
Lemma entry_settled v v' hole idx f par id name fl sz mt nl :
  vol_inv v hole -> entry_put idx f par id fl sz mt nl (entries v) (entries v') -> idx <> lost_found v -> alive v par ->
  contains fl TOMBSTONE = false -> names_kept (key_set idx None (same_key v)) (names v) (names v') ->
  raw_bytes (names v') id = Some name -> frame_vol v v' ->
  (forall e, alive v' e <-> e = idx \/ alive v e) /\
  (forall e, abs v' e = if decide (e = idx)
     then Some {| a_frn := f; a_parent := par; a_name := name; a_flags := fl; a_size := sz; a_mtime := mt; a_next := nl |}
     else abs v e) /\
  (forall e, same_key v' e = key_set idx (Some id) (same_key v) e) /\
  (forall e, child_key v' e = key_set idx (Some par) (child_key v) e) /\
  (forall e, e <> idx -> dirkey v' e = dirkey v e) /\ parents_ok v'.
Proof.
  intros Hv A Hlf Hpar Hfl Hkept Hraw F. pose proof Hv as [I [Hpl Hlfp]].
  destruct A as [[_ A1] [_ A2] [_ A3] A4 [_ A5] [_ A6] [_ A7]]. pose proof A4 as [_ A4'].
  assert (HA : forall e, alive v' e <-> e = idx \/ alive v e).
  { intros e. unfold alive. rewrite (live_e_put _ _ _ _ e A4). case_decide; naive_solver. }
  assert (Hap : par < cap v /\ cap v <= NIL).
  { split; [by eapply alive_lt|]. pose proof (i_cols _ _ _ _ _ _ _ I) as Hc. unfold cols_ok, cap in *. lia. }
  assert (Hk : forall e id', e <> idx -> alive v e -> getN e (c_name_id (entries v)) = Some id' ->
    raw_bytes (names v') id' = raw_bytes (names v) id' /\ folded_bytes_of (names v') id' = folded_bytes_of (names v) id').
  { intros e id' He Ha Hid. apply (Hkept e). rewrite key_set_ne by done. by apply same_key_alive. }
  split; [done|]. split; [|split; [|split; [|split]]].
  - intros e. unfold abs at 1. destruct (decide (alive v' e)) as [Ha|Ha].
    + rewrite A1, A2, A3, A4', A5, A6, A7. case_decide as He; subst; simpl; [by rewrite Hraw|].
      apply HA in Ha as [?|Ha]; [done|]. unfold abs. rewrite decide_True by done.
      destruct (getN e (c_frn (entries v))); [|done]. simpl. destruct (getN e (c_parent (entries v))); [|done]. simpl.
      destruct (getN e (c_name_id (entries v))) as [id'|] eqn:Eid; [|done]. simpl. by destruct (Hk e id' He Ha Eid) as [-> _].
    + case_decide; subst; [exfalso; apply Ha, HA; auto|]. unfold abs. rewrite decide_False; [done|]. intros ?. apply Ha, HA. auto.
  - intros e. unfold same_key, key_set. rewrite A3. case_decide as Ha.
    + case_decide; [done|]. apply HA in Ha as [?|Ha]; [done|]. by rewrite decide_True.
    + case_decide; [exfalso; apply Ha, HA; auto|]. rewrite decide_False; [done|]. intros ?. apply Ha, HA. auto.
  - intros e. unfold child_key, key_set. rewrite A2. case_decide as Ha.
    + case_decide; subst; simpl; [by rewrite (proj2 (N.eqb_neq _ _)) by lia|]. apply HA in Ha as [?|Ha]; [done|]. by rewrite decide_True.
    + case_decide; [exfalso; apply Ha, HA; auto|]. rewrite decide_False; [done|]. intros ?. apply Ha, HA. auto.
  - intros e He. apply dirkey_local; rewrite ?A2, ?A3, ?A4', ?decide_False by done; try done; try apply F.
    intros id' Hid Ha. by apply (Hk e).
  - split.
    + intros e p. rewrite A2, !HA. case_decide; [intros [= <-]; auto|]. intros Hp. destruct (Hpl e p Hp); naive_solver.
    + by rewrite (fv_lf _ _ F), A2, decide_False.
Qed.

Lemma wp_new_entry v f par name fl sz mt k Q :
  vol_inv v (Some (record_number f)) -> space v (k + 1) -> small_name name -> contains fl TOMBSTONE = false -> alive v par ->
  (forall idx v', inserted idx {| a_frn := f; a_parent := par; a_name := name; a_flags := fl; a_size := sz; a_mtime := mt; a_next := NIL |} v v' ->
     Inv v' (same_key v') (child_key v') (key_set idx None (dirkey v')) (fun _ => 0) None (Some (record_number f)) -> parents_ok v' ->
     space v' k -> Q idx v') ->
  wp (new_entry f par name fl sz mt) Q v.
Proof.
  intros Hv Hsp Hsm Hfl Hpar HQ. pose proof Hv as [I _]. unfold new_entry. apply wp_bind.
  eapply wp_nam_intern; [exact I|exact Hsp|exact Hsm|]. intros id ns I1 Hkept Hid Hraw _ Hsp1.
  apply wp_bind. eapply wp_alloc; [exact I1| |done| |done|].
  { apply (vol_dead _ _ Hv). }
  { destruct Hsp as [_ _ _ _ P5]. unfold cap in *. simpl. lia. }
  intros idx t' A Hd Hi I2. change (entries (with_names ns v)) with (entries v) in A.
  change (alive (with_names ns v) idx) with (alive v idx) in Hd.
  assert (Hl : len (c_frn t') = N.max (cap v) (idx + 1)) by apply (al_frn _ _ _ _ _ _ _ _ _ _ A).
  destruct (vol_dead _ _ Hv) as [Hdu _]. destruct (Hdu idx Hd) as (HS & HC & HD).
  pose proof (alive_lt _ _ _ _ _ _ _ _ I Hpar) as Hparlt.
  apply wp_bind. eapply wp_link_same_name; [exact I2|unfold cap; simpl; lia|done|exact Hid| |].
  { unfold ref_add. rewrite decide_True by done. lia. }
  intros nx pv hd I3. apply wp_bind.
  eapply wp_link_child; [exact I3|unfold cap; simpl; lia|done| | | |].
  { simpl. destruct (al_parent _ _ _ _ _ _ _ _ _ _ A) as [_ ->]. by rewrite decide_True. }
  { intros _. split; [unfold cap; simpl; lia|done]. }
  { intros ->. pose proof (i_cols _ _ _ _ _ _ _ I) as Hc. unfold cols_ok, cap in *. lia. }
  intros _ nx2 pv2 fc2 I4 _. apply wp_ret. set (v' := upd_child _ _ _ _) in *.
  destruct (entry_settled v v' (Some (record_number f)) idx f par id name fl sz mt NIL) as (HA & Habs & HS' & HC' & HD' & HP'); try done.
  { by destruct A. }
  { intros ->. apply Hd, (i_lf _ _ _ _ _ _ _ I). }
  { intros e j. unfold key_set. case_decide; [done|]. apply Hkept. }
  apply HQ; try done.
  - split; try done; intros e He.
    + by rewrite (proj2 (al_next_link _ _ _ _ _ _ _ _ _ _ A) e : getN e (c_next_link (entries v')) = _), decide_False.
    + by rewrite (proj2 (al_frn _ _ _ _ _ _ _ _ _ _ A) e : getN e (c_frn (entries v')) = _), decide_False.
  - eapply Inv_ext; [exact I4|intros e..]; [apply HS'|apply HC'| |].
    + unfold key_set. case_decide; [by subst|]. by apply HD'.
    + unfold ref_sub, ref_add. case_decide; [lia|done].
  - destruct Hsp1 as [P1 P2 P3 P4 P5]. destruct Hsp as [_ _ _ _ P5']. split; try done. unfold cap in *. simpl in *. lia.
Qed.

Lemma vol_inv_undir v hole idx :
  Inv v (same_key v) (child_key v) (key_set idx None (dirkey v)) (fun _ => 0) None hole -> parents_ok v ->
  dirkey v idx = None -> vol_inv v hole.
Proof.
  intros I HP Hd. split; [|done]. eapply Inv_ext; [exact I|done..| |done]. intros e.
  unfold key_set. by case_decide; subst.
Qed.

Lemma wp_dir_insert_settle v hole idx Q :
  Inv v (same_key v) (child_key v) (key_set idx None (dirkey v)) (fun _ => 0) None hole -> parents_ok v -> alive v idx ->
  (forall m, vol_inv (with_dir_children m v) hole -> Q tt (with_dir_children m v)) ->
  wp (dir_index_insert idx) Q v.
Proof.
  intros I HP Ha HQ. destruct (alive_cols _ _ _ _ _ _ _ _ I Ha) as (_ & _ & id & _ & _ & _ & _ & _ & _ & Eid & _).
  pose proof (same_range _ _ _ _ _ _ _ _ _ I (same_key_alive _ _ _ Ha Eid)) as Hid.
  eapply wp_dir_index_insert; [exact I|done|by rewrite key_set_eq|exact Eid|exact Hid|]. intros m I'. apply HQ. split; [|done].
  eapply Inv_ext; [exact I'|done..| |done]. intros e. unfold key_set. by case_decide; subst.
Qed.

Lemma inserted_kept idx a v v' hole :
  vol_inv v hole -> inserted idx a v v' -> kept [record_number (a_frn a)] v v'.
Proof.
  intros Hv [F _ Hd _ _ _ _ Habs]. split; [done| |].
  - intros e b He _. exists (a_parent b). rewrite set_a_parent_id. split; [|auto]. rewrite Habs, decide_False; [done|].
    intros ->. by apply abs_inv in He as [? _].
  - intros e b. rewrite Habs. case_decide; [intros [= <-]; right; left|eauto].
Qed.

(** Every entry is as it was. *)
Definition steady v v' : Prop := forall e a, abs v e = Some a -> abs v' e = Some a.

Lemma inserted_steady idx a v v' : inserted idx a v v' -> steady v v'.
Proof.
  intros Hins e b Hb. rewrite (in_abs _ _ _ _ Hins), decide_False; [done|]. intros ->. apply abs_inv in Hb as [? _]. by apply (in_free _ _ _ _ Hins).
Qed.

(** The new entry is the only one of its record. *)
Lemma Inv_set_single v v' S C D R ex hole idx a :
  vol_inv v hole -> inserted idx a v v' -> a_next a = NIL -> (forall e, ~ of_record v (record_number (a_frn a)) e) ->
  Inv v' S C D R ex (Some (record_number (a_frn a))) ->
  Inv (with_by_frn (FrnMap.set (record_number (a_frn a)) idx (by_frn v')) v') S C D R ex None.
Proof.
  intros Hv Hins Hnext Hno I. pose proof (in_abs _ _ _ _ Hins idx) as Ha. rewrite decide_True in Ha by done.
  apply abs_inv in Ha as (Hal & Hf & _ & _ & Hn & _). pose proof (alive_lt _ _ _ _ _ _ _ _ I Hal) as Hlt.
  pose proof (i_cols _ _ _ _ _ _ _ I) as Hc. unfold cols_ok, cap in *.
  eapply (Inv_set _ _ _ _ _ _ _ (a_frn a) [idx]); [exact I| |apply NoDup_singleton|done| |].
  - simpl. split; [done|]. split; [lia|]. exists NIL. by rewrite Hn, Hnext.
  - intros e. rewrite list_elem_of_singleton. unfold of_record, has_record. rewrite (fv_lf _ _ (in_frame _ _ _ _ Hins)). split.
    + intros ->. split; [done|]. split; [|by eauto]. intros ->. apply (in_free _ _ _ _ Hins), (i_lf _ _ _ _ _ _ _ (proj1 Hv)).
    + intros (Hae & Hlf & f & Hfe & Hr). apply (in_alive _ _ _ _ Hins) in Hae as [?|Hae]; [done|]. destruct (decide (e = idx)); [done|].
      exfalso. apply (Hno e). split; [done|]. split; [done|]. rewrite (in_frn _ _ _ _ Hins) in Hfe by done. eauto.
  - intros e ->%list_elem_of_singleton. done.
Qed.
End insertion.

(** ** Parents *)

(** The directory made up for a parent the journal has not shown yet. *)
Definition placeholder (f lf : N) : AEntry :=
  {| a_frn := f; a_parent := lf; a_name := PLACEHOLDER_NAME; a_flags := with_flag DIR PLACEHOLDER true;
     a_size := SIZE_UNKNOWN; a_mtime := MTIME_UNKNOWN; a_next := NIL |}.

Section parents.
Context {U : Unicode} {H : Hasher}.
Implicit Types (v : VolumeIndex).

Lemma small_placeholder : small_name PLACEHOLDER_NAME.
Proof. split; vm_compute; discriminate. Qed.

(** The head the map gives, and whether it is the file asked for. *)
Lemma head_cases v f :
  vol_ok v ->
  (exists h f', FrnMap.get (by_frn v) (record_number f) = Some h /\ getN h (c_frn (entries v)) = Some f' /\
     alive v h /\ h <> lost_found v /\ (f' = f -> link_of v f h) /\ (f' <> f -> forall e, ~ link_of v f e)) \/
  (FrnMap.get (by_frn v) (record_number f) = None /\ (forall e, ~ of_record v (record_number f) e) /\ forall e, ~ link_of v f e).
Proof.
  intros Hv. destruct (FrnMap.get (by_frn v) (record_number f)) as [h|] eqn:Hg; [left|right].
  - destruct (links_found _ _ _ Hv Hg) as (l & f' & _ & _ & Hr & Hin & Hfr). pose proof (Hfr h ltac:(left)) as Hf'.
    assert (Hh : of_record v (record_number f) h) by (apply Hin; left). exists h, f'. split_and!; try done; try apply Hh.
    + intros ->. by apply (link_of_record v _ f h h Hv Hg Hf').
    + intros Hne e He. pose proof (proj1 (link_of_record v _ f' h e Hv Hg Hf') (link_of_is_record _ _ _ _ Hv He)) as (_ & a & Ha & E).
      destruct He as (_ & a' & Ha' & E'). congruence.
  - pose proof (links_absent _ _ Hv Hg) as Hno. split_and!; try done. intros e He. by apply (Hno e), (link_of_is_record _ None).
Qed.

Lemma placeholder_scope v a idx : abs v idx = Some a -> contains (a_flags a) PLACEHOLDER = true -> dirkey v idx = None.
Proof.
  intros (_ & _ & _ & Hfl & _)%abs_inv Hp. unfold dirkey, scope_dir. rewrite Hfl, Hp. simpl.
  by rewrite andb_false_r.
Qed.

(** The record of [f] holds no other file. *)
Definition not_stale v f : Prop := forall e, of_record v (record_number f) e -> link_of v f e.

(** The file has at most one link. *)
Definition one_link v f : Prop := forall e1 e2, link_of v f e1 -> link_of v f e2 -> e1 = e2.

Definition resolve_post v pf p v' : Prop :=
  vol_ok v' /\ link_of v' pf p /\ kept [record_number pf] v v' /\ cycle_suspects v' = cycle_suspects v /\
  ((exists e, link_of v pf e) -> v' = v) /\
  ((forall e, ~ link_of v pf e) ->
     abs v' p = Some (placeholder pf (lost_found v)) /\ forall e, link_of v' pf e -> e = p) /\
  (not_stale v pf -> steady v v').

Lemma wp_make_placeholder v pf k Q :
  vol_ok v -> (forall e, ~ of_record v (record_number pf) e) -> space v (k + 1) ->
  (forall p v', vol_ok v' -> abs v' p = Some (placeholder pf (lost_found v)) -> p <> lost_found v' -> kept [record_number pf] v v' ->
     cycle_suspects v' = cycle_suspects v -> (forall e, link_of v' pf e -> e = p) -> space v' k -> steady v v' -> Q p v') ->
  wp (lf <- st_get lost_found ;;
      idx <- new_entry pf lf PLACEHOLDER_NAME (with_flag DIR PLACEHOLDER true) SIZE_UNKNOWN MTIME_UNKNOWN ;;
      frn_set (record_number pf) idx ;;; tick bump_placeholders ;;; bump_dirty ;;; st_ret idx) Q v.
Proof.
  intros Hv Hno Hsp HQ. pose proof (vol_inv_open _ (record_number pf) Hv) as Hvo.
  apply wp_bind, wp_get. apply wp_bind. eapply wp_new_entry; [exact Hvo|exact Hsp|apply small_placeholder|done|apply Hv|].
  intros idx v1 Hins I1 HP1 Hsp1. pose proof (in_abs _ _ _ _ Hins idx) as Ha. rewrite decide_True in Ha by done.
  assert (Hv1 : vol_inv v1 (Some (record_number pf))).
  { eapply vol_inv_undir; [exact I1|done|]. by eapply placeholder_scope. }
  apply wp_bind, wp_modify, wp_bind, wp_modify, wp_bind, wp_modify, wp_ret.
  set (v2 := with_by_frn _ v1). apply HQ; try done.
  - apply vol_inv_dirty, vol_inv_stats. split; [|done].
    exact (Inv_set_single v v1 _ _ _ _ _ _ idx (placeholder pf (lost_found v)) Hvo Hins eq_refl Hno (proj1 Hv1)).
  - intros E. apply (in_free _ _ _ _ Hins). change (idx = lost_found v1) in E.
    rewrite E, (fv_lf _ _ (in_frame _ _ _ _ Hins)). apply (i_lf _ _ _ _ _ _ _ (proj1 Hv)).
  - destruct (inserted_kept _ _ _ _ _ Hv Hins) as [[] K2 K3]. by split.
  - apply (in_susp _ _ _ _ Hins).
  - intros e (Hlf & a & Hae & Hfa). change (abs v1 e = Some a) in Hae. change (e <> lost_found v1) in Hlf.
    rewrite (in_abs _ _ _ _ Hins) in Hae. destruct (decide (e = idx)); [done|]. exfalso. apply (Hno e).
    apply (link_of_is_record _ _ _ _ Hv). split; [|by eauto]. by rewrite <- (fv_lf _ _ (in_frame _ _ _ _ Hins)).
  - destruct Hsp1. by split.
  - exact (inserted_steady _ _ _ _ Hins).
Qed.

Lemma wp_resolve v pf k Q :
  vol_ok v -> space v (k + 1) -> (forall p v', resolve_post v pf p v' -> space v' k -> Q p v') ->
  wp (resolve_or_placeholder_parent pf) Q v.
Proof.
  intros Hv Hsp HQ. unfold resolve_or_placeholder_parent. apply wp_bind, wp_get.
  destruct (head_cases v pf Hv) as [(h & f' & Hg & Hf & Ha & Hlf & Hyes & Hno)|(Hg & Hnor & Hno)]; rewrite Hg.
  - apply wp_bind, wp_bind. wp_get_col. destruct (N.eqb_spec f' pf) as [->|Hne].
    + apply wp_ret, wp_ret, HQ; [|by apply (space_le _ _ _ Hsp); lia]. specialize (Hyes eq_refl).
      split_and!; try done; [apply kept_refl| |by intros _ e a]. intros Hn. by destruct (Hn h).
    + specialize (Hno Hne). apply wp_bind. eapply wp_reclaim; [exact Hv|exact Hg|]. intros v1 Hv1 K1 Hnor Hsp1 Hs1 _.
      apply wp_ret. eapply wp_make_placeholder; [exact Hv1|exact Hnor|by apply Hsp1|].
      intros p v2 Hv2 Ha2 Hp2 K2 Hs2 Hu2 Hsp2 _. apply HQ; [|done]. split_and!; try done.
      * split; [done|]. eexists. by split; [exact Ha2|].
      * eapply kept_trans; [exact Hv|exact Hv1|done|done].
      * congruence.
      * intros [e He]. by destruct (Hno e).
      * intros _. split; [|done]. by rewrite <- (fv_lf _ _ (k_frame _ _ _ K1)).
      * intros Hst. destruct (Hno h). apply Hst. destruct (links_found _ _ _ Hv Hg) as (l & f1 & _ & _ & _ & Hin & _). apply Hin. left.
  - apply wp_bind, wp_ret. eapply wp_make_placeholder; [exact Hv|exact Hnor|done|].
    intros p v2 Hv2 Ha2 Hp2 K2 Hs2 Hu2 Hsp2 Hst2. apply HQ; [|done]. split_and!; try done.
    + split; [done|]. eexists. by split; [exact Ha2|].
    + intros [e He]. by destruct (Hno e).
Qed.

(** The links of a file are all the entries of its record. *)
Lemma record_is_link v f p e : vol_ok v -> link_of v f p -> of_record v (record_number f) e -> link_of v f e.
Proof.
  intros Hv Hp He. pose proof (link_of_is_record _ _ _ _ Hv Hp) as Hpr.
  destruct (FrnMap.get (by_frn v) (record_number f)) as [h|] eqn:Hg; [|by apply (links_absent _ _ Hv Hg) in He].
  destruct (links_found _ _ _ Hv Hg) as (l & f' & _ & _ & _ & Hin & Hfr). pose proof (Hfr h ltac:(left)) as Hf'.
  apply (link_of_record v _ f' h) in He; [|done..]. apply (link_of_record v _ f' h) in Hpr; [|done..].
  destruct Hp as (_ & a & Ha & <-), Hpr as (_ & b & Hb & <-). by simplify_eq.
Qed.

Lemma link_alive v f p : link_of v f p -> alive v p.
Proof. intros (_ & a & Ha & _). apply (abs_inv _ _ _ Ha). Qed.

(** *** Where a link's parent is *)

(** The parent an upsert of [f] under [pf] ends with: lost+found when the
    parent would be a stale incarnation of the file's own record. *)
Definition parent_is v f pf p : Prop :=
  if negb (pf =? f) && (record_number pf =? record_number f) then p = lost_found v else link_of v pf p.

Record link_parent_post v f pf p v' : Prop := {
  lp_ok : vol_ok v';
  lp_parent : parent_is v' f pf p;
  lp_alive : alive v' p;
  lp_kept : kept [record_number pf] v v';
  lp_known : (exists e, link_of v pf e) -> v' = v;
  lp_only : (forall e, of_record v (record_number f) e -> link_of v f e) ->
            forall e, of_record v' (record_number f) e -> link_of v' f e;
  lp_links e b : link_of v f e -> abs v e = Some b -> exists q, abs v' e = Some (set_a_parent q b);
  lp_new e : link_of v' f e -> link_of v f e \/ forall e', link_of v' f e' -> e' = e;
  lp_steady : not_stale v pf -> steady v v';
  lp_made : (forall e, ~ link_of v pf e) -> one_link v' pf
}.

Lemma wp_resolve_link v f pf k Q :
  vol_ok v -> space v (k + 1) -> (forall p v', link_parent_post v f pf p v' -> space v' k -> Q p v') ->
  wp (resolve_link_parent f pf) Q v.
Proof.
  intros Hv Hsp HQ. unfold resolve_link_parent, parent_is in *.
  assert (Hid : forall e b, abs v e = Some b -> exists q, abs v e = Some (set_a_parent q b)).
  { intros e b ->. exists (a_parent b). by rewrite set_a_parent_id. }
  destruct (negb (pf =? f) && (record_number pf =? record_number f)) eqn:E.
  - apply wp_get, HQ; [|by apply (space_le _ _ _ Hsp); lia]. split; try done; eauto.
    + unfold parent_is. by rewrite E.
    + apply (i_lf _ _ _ _ _ _ _ (proj1 Hv)).
    + apply kept_refl.
    + by intros _ e a.
    + intros Hn e1 e2 H1. by destruct (Hn e1).
  - eapply wp_resolve; [done|done|]. intros p v' (Hv' & Hp & K & Hs & Hknown & Hunk & Hst) Hsp'. apply HQ; [|done].
    assert (Hcase : pf = f \/ record_number pf <> record_number f).
    { apply andb_false_iff in E as [E|E]; simpl_cmp; auto. }
    assert (Hdec : (exists e, link_of v pf e) \/ (forall e, ~ link_of v pf e)).
    { destruct (head_cases v pf Hv) as [(h & f' & _ & _ & _ & _ & Hyes & Hno)|(_ & _ & Hno)]; [|auto].
      destruct (decide (f' = pf)); eauto. }
    split; try done.
    + unfold parent_is. by rewrite E.
    + by eapply link_alive.
    + intros Honly e He. destruct Hcase as [-> |Hne]; [by eapply record_is_link|].
      apply (of_record_abs _ _ _ _ Hv') in He as (Hlf & a & Ha & Hr). split; [done|]. exists a. split; [done|].
      destruct (k_new _ _ _ K e a Ha) as [(b & Hb & Eb)|Hin%list_elem_of_singleton]; [|congruence].
      destruct (Honly e) as (_ & b' & Hb' & <-); [|congruence]. apply (of_record_abs _ _ _ _ Hv).
      rewrite (fv_lf _ _ (k_frame _ _ _ K)) in Hlf. split; [done|]. exists b. split; [done|congruence].
    + intros e b Hl Hb. destruct Hcase as [-> |Hne]; [rewrite (Hknown ltac:(eauto)); by apply Hid|].
      destruct (k_entries _ _ _ K e b Hb) as (q & Hq & _); [|by exists q].
      intros (_ & b' & Hb' & Hin%list_elem_of_singleton). destruct Hl as (_ & b2 & Hb2 & <-). simplify_eq.
    + intros e Hl. destruct Hcase as [-> |Hne].
      * destruct Hdec as [Hk|Hk]; [left; by rewrite <- (Hknown Hk)|right]. destruct (Hunk Hk) as [_ Hu].
        intros e' He'. by rewrite (Hu e Hl), (Hu e' He').
      * left. destruct Hl as (Hlf & a & Ha & <-). rewrite (fv_lf _ _ (k_frame _ _ _ K)) in Hlf. split; [done|].
        destruct (k_new _ _ _ K e a Ha) as [(b & Hb & Eb)|Hin%list_elem_of_singleton]; [by exists b|congruence].
    + intros Hk e1 e2 H1 H2. destruct (Hunk Hk) as [_ Hu]. by rewrite (Hu e1 H1), (Hu e2 H2).
Qed.
End parents.
