(* ===== verification/VolumeUpsert.v ===== *)
(** Rewriting and upserting a file's link, and the walk up the parents that
    notes cycles: [rewrite_entry], [is_at_or_below] and [upsert_link] of
    [crates/goz-core/src/index/volume.rs]. *)

From stdpp Require Import gmap.
From stdpp Require Import base option list sets.
From Stdlib Require Import NArith ZArith Lia.
From S2P Require Import Prelude Types Wtf8 UsnRecord UsnOps LayoutParse Fold FrnMap NameStore NameOrder EntryTable Chain Volume VolumeInv VolumeOps VolumeEdit.

(** ** The walk up the parents *)

(** What [is_at_or_below] answers, as a function of the columns. *)
Fixpoint below (v : VolumeIndex) (hops : nat) (node ancestor : N) : bool :=
  match hops with
  | O => false
  | S hops =>
      if node =? ancestor then true
      else if (node =? NIL) || (node =? root v) || (node =? lost_found v) then false
      else match getN node (c_parent (entries v)) with
           | Some p => below v hops p ancestor
           | None => false
           end
  end.

Definition at_or_below (v : VolumeIndex) (node ancestor : N) : bool := below v (N.to_nat MAX_PATH_HOPS) node ancestor.

(** Parents of live entries are live or absent. *)
Definition up_closed (v : VolumeIndex) : Prop :=
  len (c_flags (entries v)) = len (c_parent (entries v)) /\
  forall e p, getN e (c_parent (entries v)) = Some p -> p = NIL \/ alive v e /\ alive v p.

Section below.
Context {U : Unicode} {H : Hasher}.
Implicit Types (v : VolumeIndex).

Lemma alive_parent v e : up_closed v -> alive v e -> exists p, getN e (c_parent (entries v)) = Some p /\ (p = NIL \/ alive v p).
Proof.
  intros [Hl Hup] Ha. assert (Hlt : e < len (c_flags (entries v))).
  { unfold alive, live_e in Ha. destruct (getN e (c_flags (entries v))) eqn:E; [|done]. by apply getN_lt in E. }
  destruct (getN_is_Some e (c_parent (entries v))) as [p Hp]; [lia|]. exists p. naive_solver.
Qed.

Lemma wp_below_loop v hops node ancestor Q :
  up_closed v -> node = NIL \/ alive v node -> Q (below v hops node ancestor) v -> wp (below_loop hops node ancestor) Q v.
Proof.
  intros Hup. revert node. induction hops as [|hops IH]; intros node Hn HQ; [by apply wp_ret|]. simpl in *.
  destruct (node =? ancestor); [by apply wp_ret|]. apply wp_bind, wp_get, wp_bind, wp_get.
  destruct ((node =? NIL) || (node =? root v) || (node =? lost_found v)) eqn:E; [by apply wp_ret|]. simpl_cmp.
  destruct Hn as [->|Ha]; [done|]. destruct (alive_parent _ _ Hup Ha) as (p & Hp & Hp').
  apply wp_bind. wp_get_col. rewrite Hp in HQ. by apply IH.
Qed.

Lemma wp_at_or_below v node ancestor Q :
  up_closed v -> node = NIL \/ alive v node -> Q (at_or_below v node ancestor) v -> wp (is_at_or_below node ancestor) Q v.
Proof. apply wp_below_loop. Qed.

Lemma below_ext v v' hops node anc :
  c_parent (entries v') = c_parent (entries v) -> root v' = root v -> lost_found v' = lost_found v ->
  below v' hops node anc = below v hops node anc.
Proof.
  intros E F1 F2. revert node. induction hops as [|hops IH]; intros node; [done|]. simpl. rewrite E, F1, F2.
  destruct (node =? anc), ((node =? NIL) || (node =? root v) || (node =? lost_found v)); try done.
  by destruct (getN node (c_parent (entries v))).
Qed.

Lemma at_or_below_ext v v' node anc :
  c_parent (entries v') = c_parent (entries v) -> root v' = root v -> lost_found v' = lost_found v ->
  at_or_below v' node anc = at_or_below v node anc.
Proof. apply below_ext. Qed.

Lemma at_or_below_nil v e : e <> NIL -> at_or_below v NIL e = false.
Proof.
  intros He. unfold at_or_below.
  replace (N.to_nat MAX_PATH_HOPS) with (S (N.to_nat (MAX_PATH_HOPS - 1))) by (unfold MAX_PATH_HOPS; lia). cbn [below].
  by rewrite (proj2 (N.eqb_neq NIL e)) by congruence.
Qed.

Lemma vol_up_closed v S C D R ex hole : Inv v S C D R ex hole -> parents_ok v -> up_closed v.
Proof. intros I [Hpl _]. split; [|done]. pose proof (i_cols _ _ _ _ _ _ _ I) as Hc. unfold cols_ok in Hc. lia. Qed.

(** *** Columns the chains do not depend on *)

Lemma Inv_name_id v S C D R ex hole c :
  Inv v S C D R ex hole -> len c = cap v -> Inv (with_entries (with_name_id c (entries v)) v) S C D R ex hole.
Proof. intros I Hl. destruct I. split; try done. unfold cols_ok, cap in *. simpl. naive_solver. Qed.

Lemma Inv_susp v S C D R ex hole l :
  Inv v S C D R ex hole -> Forall (fun e => e < cap v) l -> Inv (with_cycle_suspects l v) S C D R ex hole.
Proof. intros I Hl. destruct I. by split. Qed.

Lemma link_ok_live fl fl' frns nl lf m r :
  (forall e, live_e fl' e <-> live_e fl e) -> link_ok fl frns nl lf m r -> link_ok fl' frns nl lf m r.
Proof.
  intros E Hl. assert (Hrec : forall e, has_record fl' frns lf r e <-> has_record fl frns lf r e).
  { intros e. unfold has_record. by rewrite E. }
  unfold link_ok in *. destruct (FrnMap.get m r); [|intros e; rewrite Hrec; apply Hl].
  destruct Hl as (l & f & ? & ? & ? & Hin & ?). exists l, f. split_and!; try done. intros e. by rewrite Hin, Hrec.
Qed.

Lemma Inv_flags v S C D R ex hole fl :
  Inv v S C D R ex hole -> len fl = cap v -> (forall e, live_e fl e <-> alive v e) ->
  Inv (with_entries (with_flags fl (entries v)) v) S C D R ex hole.
Proof.
  intros I Hl E. pose proof (i_cols _ _ _ _ _ _ _ I) as Hc. unfold cols_ok, cap in *. destruct I. split; try done; simpl.
  - unfold cols_ok in *. simpl. naive_solver.
  - destruct i_free as [F1 F2 F3]. split; [done| |lia]. intros e.
    assert (len fl = len (c_flags (entries v))) as -> by lia. by rewrite E, F2.
  - intros r Hr. eapply link_ok_live; [|by apply i_link]. done.
  - unfold alive. simpl. by apply E.
Qed.

Lemma Inv_next_link v S C D R ex r nl :
  Inv v S C D R ex (Some r) -> len nl = cap v ->
  (forall e, ~ of_record v r e -> getN e nl = getN e (c_next_link (entries v))) ->
  Inv (with_entries (with_next_link nl (entries v)) v) S C D R ex (Some r).
Proof.
  intros I Hl E. destruct I. split; try done; simpl.
  - unfold cols_ok, cap in *. simpl. naive_solver.
  - intros r' Hr. specialize (i_link r' Hr). unfold link_ok in *. destruct (FrnMap.get (by_frn v) r'); [|done].
    destruct i_link as (l & f & Hs & ? & ? & Hin & Hf). exists l, f. split_and!; try done.
    eapply nseg_frame; [|exact Hs]. intros e He. apply E. intros (_ & _ & f1 & Hf1 & <-). apply Hin in He as (_ & _ & f2 & Hf2 & <-).
    congruence.
Qed.
End below.

#[global] Opaque is_at_or_below at_or_below.

(** ** Rewriting an entry *)

Section rewrite.
Context {U : Unicode} {H : Hasher}.
Implicit Types (v : VolumeIndex).

(** The state once the entry has its new name. *)
Record renamed (idx id : N) (name : list N) v v' : Prop := {
  rn_frn : c_frn (entries v') = c_frn (entries v);
  rn_parent : c_parent (entries v') = c_parent (entries v);
  rn_name_id : c_name_id (entries v') = <[N.to_nat idx := id]> (c_name_id (entries v));
  rn_flags : c_flags (entries v') = c_flags (entries v);
  rn_size : c_size (entries v') = c_size (entries v);
  rn_mtime : c_mtime (entries v') = c_mtime (entries v);
  rn_next_link : c_next_link (entries v') = c_next_link (entries v);
  rn_frame : frame_vol v v';
  rn_susp : cycle_suspects v' = cycle_suspects v;
  rn_by_frn : by_frn v' = by_frn v;
  rn_kept : names_kept (key_set idx None (same_key v)) (names v) (names v');
  rn_raw : raw_bytes (names v') id = Some name;
  rn_id : id < ids (names v')
}.

Lemma wp_rename {A} v hole idx name k (c : ST VolumeIndex A) Q :
  vol_inv v hole -> alive v idx -> space v (k + 1) -> small_name name ->
  (forall id v', renamed idx id name v v' -> space v' k ->
     Inv v' (key_set idx (Some id) (same_key v)) (child_key v) (key_set idx None (dirkey v)) (fun _ => 0) None hole -> wp c Q v') ->
  wp (dir_index_remove idx ;;; unlink_same_name idx ;;; old <- ent (name_id idx) ;; nam (release old) ;;;
      id <- nam (intern name) ;; ent (set_name_id idx id) ;;; link_same_name idx id ;;; c) Q v.
Proof.
  intros [I _] Ha Hsp Hsm HQ. destruct (alive_cols _ _ _ _ _ _ _ _ I Ha) as (_ & _ & old & _ & _ & _ & _ & _ & _ & Eid & _).
  pose proof (same_key_alive _ _ _ Ha Eid) as HS. pose proof (same_range _ _ _ _ _ _ _ _ _ I HS) as Hold.
  pose proof (alive_lt _ _ _ _ _ _ _ _ I Ha) as Hlt.
  apply wp_bind. eapply wp_dir_index_remove; [exact I|done..|]. intros m1 I1.
  apply wp_bind. eapply wp_unlink_same_name; [exact I1|exact HS|exact Eid|]. intros nx pv hd I2.
  apply wp_bind. wp_get_col. apply wp_bind.
  eapply wp_nam_release; [exact I2|unfold ref_add; rewrite decide_True by done; lia|exact Hold|]. intros ns I3 Hk3 Hids3 Hsp3.
  assert (Hsp3' := Hsp3 (k + 1)). apply wp_bind.
  eapply wp_nam_intern; [exact I3| |exact Hsm|].
  { apply Hsp3'. destruct Hsp. by split. }
  intros id ns2 I4 Hk4 Hid Hraw _ Hsp4. apply wp_bind. pose proof (i_cols _ _ _ _ _ _ _ I) as Hc. unfold cols_ok in Hc. unfold cap in Hlt.
  wp_set_col. apply wp_bind.
  pose proof (Inv_name_id _ _ _ _ _ _ _ (<[N.to_nat idx := id]> (c_name_id (entries v))) I4
    ltac:(rewrite len_insert; unfold cap; simpl; lia)) as I5.
  eapply wp_link_same_name; [exact I5|unfold cap; simpl; lia|by rewrite key_set_eq|exact Hid| |].
  { unfold ref_sub, ref_add. by repeat case_decide; lia. }
  intros nx2 pv2 hd2 I6. apply (HQ id).
  - split; try done. intros e j Hj. destruct (Hk3 e j Hj) as [E1 E2], (Hk4 e j Hj) as [E3 E4]. split.
    + transitivity (raw_bytes ns j); [exact E3|exact E1].
    + transitivity (folded_bytes_of ns j); [exact E4|exact E2].
  - destruct Hsp4. by split.
  - eapply Inv_ext; [exact I6| |done|done|].
    + intros e. unfold key_set. by repeat case_decide.
    + intros j. unfold ref_sub, ref_add. repeat case_decide; lia.
Qed.

(** The flags [rewrite_entry] leaves. *)
Definition rewritten_flags (fl : N) (name_lossy is_dir : bool) : N :=
  with_flag (with_flag (with_flag fl DIR is_dir) NON_UNICODE_NAME name_lossy) PLACEHOLDER false.

Lemma tombstone_with_dir fl b : contains (with_flag fl DIR b) TOMBSTONE = contains fl TOMBSTONE.
Proof. by apply (contains_with_flag fl 0 b 1). Qed.
Lemma tombstone_with_non_unicode fl b : contains (with_flag fl NON_UNICODE_NAME b) TOMBSTONE = contains fl TOMBSTONE.
Proof. by apply (contains_with_flag fl 4 b 1). Qed.
Lemma tombstone_with_placeholder fl b : contains (with_flag fl PLACEHOLDER b) TOMBSTONE = contains fl TOMBSTONE.
Proof. by apply (contains_with_flag fl 3 b 1). Qed.
Lemma rewritten_flags_live fl l d : contains (rewritten_flags fl l d) TOMBSTONE = contains fl TOMBSTONE.
Proof. unfold rewritten_flags. by rewrite tombstone_with_placeholder, tombstone_with_non_unicode, tombstone_with_dir. Qed.

(** The entry after a rewrite. *)
Definition rewritten (par : N) (name : list N) (name_lossy is_dir : bool) (a : AEntry) : AEntry :=
  {| a_frn := a_frn a; a_parent := par; a_name := name; a_flags := rewritten_flags (a_flags a) name_lossy is_dir;
     a_size := a_size a; a_mtime := a_mtime a; a_next := a_next a |}.

(** The suspects [rewrite_entry] leaves. *)
Definition suspects_after v (par idx : N) : list N :=
  if at_or_below v par idx && negb (bool_decide (idx ∈ cycle_suspects v))
  then cycle_suspects v ++ [idx] else cycle_suspects v.

(** The state with the parent of [idx] changed. *)
Definition reparent (idx par : N) (nx pv fc : list N) v : VolumeIndex :=
  upd_child nx pv fc (with_entries (with_parent (<[N.to_nat idx := par]> (c_parent (entries v))) (entries v)) v).

Lemma wp_move_child {A} v S C D hole idx par p0 (c : ST VolumeIndex A) Q :
  Inv v S C D (fun _ => 0) None hole -> alive v idx -> alive v par ->
  getN idx (c_parent (entries v)) = Some p0 -> C idx = (if p0 =? NIL then None else Some p0) ->
  (forall nx pv fc, Inv (reparent idx par nx pv fc v) S (key_set idx (Some par) C) D (fun _ => 0) None hole ->
     wp c Q (reparent idx par nx pv fc v)) ->
  wp (unlink_child idx ;;; ent (set_parent idx par) ;;; link_child idx ;;; c) Q v.
Proof.
  intros I Ha Hpar Hp0 HC HQ. pose proof (alive_lt _ _ _ _ _ _ _ _ I Ha) as Hlt.
  pose proof (alive_lt _ _ _ _ _ _ _ _ I Hpar) as Hplt. pose proof (i_cols _ _ _ _ _ _ _ I) as Hc. unfold cols_ok in Hc.
  assert (Hend : forall nx pv fc, Inv (upd_child nx pv fc v) S (key_set idx None C) D (fun _ => 0) None hole ->
    wp (ent (set_parent idx par) ;;; link_child idx ;;; c) Q (upd_child nx pv fc v)).
  { intros nx pv fc I1. apply wp_bind. unfold cap in *. wp_set_col. apply wp_bind.
    pose proof (Inv_parent _ _ _ _ _ _ _ (<[N.to_nat idx := par]> (c_parent (entries v))) I1
      ltac:(rewrite len_insert; unfold cap; simpl; lia)) as I2.
    eapply wp_link_child; [exact I2|unfold cap; simpl; lia|by rewrite key_set_eq|simpl; rewrite getN_insert, decide_True by lia; reflexivity| |intros ->; lia|].
    { intros _. split; [unfold cap; simpl; lia|done]. }
    intros _ nx2 pv2 fc2 I3 _. apply (HQ nx2 pv2 fc2).
    eapply Inv_ext; [exact I3|done| |done|done]. intros e. unfold key_set. by repeat case_decide. }
  apply wp_bind. eapply wp_unlink_child; [exact I|exact Hp0|exact HC|done| |].
  - intros ->. destruct v as [[] ? ? ? ? ? ? ? ? ?]. apply (Hend c_next_child c_prev_child c_first_child).
    eapply Inv_ext; [exact I|done| |done|done]. intros e. unfold key_set. by case_decide; subst.
  - intros _ nx pv fc I1. by apply Hend.
Qed.

Record rewrote (idx par : N) (name : list N) (name_lossy is_dir : bool) v v' : Prop := {
  rw_frame : frame_vol v v';
  rw_by_frn : by_frn v' = by_frn v;
  rw_susp : cycle_suspects v' = suspects_after v par idx;
  rw_frn : c_frn (entries v') = c_frn (entries v);
  rw_next_link : c_next_link (entries v') = c_next_link (entries v);
  rw_alive e : alive v' e <-> alive v e;
  rw_abs e : abs v' e = if decide (e = idx) then rewritten par name name_lossy is_dir <$> abs v e else abs v e
}.

(** The state [rewrite_entry] reaches, from the renamed [v1]. *)
Definition rewrite_state (idx par nfl d : N) (nx pv fc : list N) (m : gmap (N * N) (list N)) (susp : list N) v1 : VolumeIndex :=
  with_dirty d (with_dir_children m
    (with_entries (with_flags (<[N.to_nat idx := nfl]> (c_flags (entries v1)))
      (entries (reparent idx par nx pv fc (with_cycle_suspects susp v1)))) (reparent idx par nx pv fc (with_cycle_suspects susp v1)))).

Lemma rewrite_settled v v1 hole idx id par name l d a dd nx pv fc m susp :
  vol_inv v hole -> abs v idx = Some a -> idx <> lost_found v -> alive v par -> renamed idx id name v v1 ->
  susp = suspects_after v par idx ->
  let v' := rewrite_state idx par (rewritten_flags (a_flags a) l d) dd nx pv fc m susp v1 in
  rewrote idx par name l d v v' /\
  (forall e, same_key v' e = key_set idx (Some id) (same_key v) e) /\
  (forall e, child_key v' e = key_set idx (Some par) (child_key v) e) /\
  (forall e, e <> idx -> dirkey v' e = dirkey v e) /\ parents_ok v'.
Proof.
  intros Hv Ha Hlf Hpar Rn Hsusp v'. pose proof Hv as [I _]. pose proof (abs_inv _ _ _ Ha) as (Hal & Ef & Ep & Efl & En & _).
  pose proof (alive_lt _ _ _ _ _ _ _ _ I Hal) as Hlt. pose proof (i_cols _ _ _ _ _ _ _ I) as Hc. unfold cols_ok, cap in *.
  assert (Hput : forall {A} (x : A) c, getN idx c = Some x -> put idx x c c).
  { intros A x c Hx. split; [pose proof (getN_lt _ _ _ Hx); lia|]. intros e. by case_decide; subst. }
  assert (Hsm : getN idx (c_size (entries v)) = Some (a_size a) /\ getN idx (c_mtime (entries v)) = Some (a_mtime a)).
  { unfold abs in Ha. rewrite decide_True in Ha by done. repeat (apply bind_Some in Ha as (? & ? & Ha)). by simplify_eq. }
  destruct Hsm as [Es Em].
  destruct (entry_settled v v' hole idx (a_frn a) par id name (rewritten_flags (a_flags a) l d) (a_size a) (a_mtime a) (a_next a))
    as (HA & Habs & HS & HC & HD & HP); try done.
  - split; simpl; rewrite ?(rn_frn _ _ _ _ _ Rn), ?(rn_parent _ _ _ _ _ Rn), ?(rn_name_id _ _ _ _ _ Rn), ?(rn_flags _ _ _ _ _ Rn),
      ?(rn_size _ _ _ _ _ Rn), ?(rn_mtime _ _ _ _ _ Rn), ?(rn_next_link _ _ _ _ _ Rn);
      first [by apply Hput|apply put_insert; lia].
  - rewrite rewritten_flags_live. unfold alive, live_e in Hal. by rewrite Efl in Hal.
  - apply (rn_kept _ _ _ _ _ Rn).
  - apply (rn_raw _ _ _ _ _ Rn).
  - destruct (rn_frame _ _ _ _ _ Rn). by split.
  - split; [|done]. split; try done; try apply Rn.
    + destruct (rn_frame _ _ _ _ _ Rn). by split.
    + intros e. rewrite HA. split; [intros [->|?]; done|auto].
    + intros e. rewrite Habs. case_decide; [|done]. subst. by rewrite Ha.
Qed.

Lemma wp_note {A} b idx (c : ST VolumeIndex A) Q v :
  wp c Q (if b : bool then with_cycle_suspects (cycle_suspects v ++ [idx]) v else v) ->
  wp (st_when b (st_modify (fun v => with_cycle_suspects (cycle_suspects v ++ [idx]) v)) ;;; c) Q v.
Proof. by destruct b. Qed.

Lemma wp_rewrite_entry v hole idx par name name_lossy is_dir k Q :
  vol_inv v hole -> alive v idx -> idx <> lost_found v -> alive v par -> space v (k + 1) -> small_name name ->
  (forall v', vol_inv v' hole -> rewrote idx par name name_lossy is_dir v v' -> space v' k -> Q tt v') ->
  wp (rewrite_entry idx par name name_lossy is_dir) Q v.
Proof.
  intros Hv Ha Hlf Hpar Hsp Hsm HQ. destruct (abs_total _ _ _ Hv Ha) as [a Habs].
  pose proof (abs_inv _ _ _ Habs) as (_ & Ef & Ep & Efl & En & _).
  unfold rewrite_entry. eapply wp_rename; [exact Hv|done..|]. intros id v1 Rn Hsp1 I1.
  pose proof (alive_lt _ _ _ _ _ _ _ _ (proj1 Hv) Ha) as Hlt.
  assert (Hal1 : forall e, alive v1 e <-> alive v e) by (intros e; unfold alive; by rewrite (rn_flags _ _ _ _ _ Rn)).
  assert (Hup : up_closed v1).
  { destruct (vol_up_closed _ _ _ _ _ _ _ (proj1 Hv) (proj2 Hv)) as [U1 U2]. split; rewrite (rn_parent _ _ _ _ _ Rn).
    - by rewrite (rn_flags _ _ _ _ _ Rn).
    - intros e p. rewrite !Hal1. apply U2. }
  apply wp_bind. apply wp_at_or_below; [done|right; by apply Hal1|].
  rewrite (at_or_below_ext v v1) by (apply Rn). apply wp_bind, wp_get. rewrite (rn_susp _ _ _ _ _ Rn).
  remember (suspects_after v par idx) as susp eqn:Hsusp. set (v2 := with_cycle_suspects susp v1).
  assert (Hv2 : forall P : VolumeIndex -> Prop, P v2 -> P (if at_or_below v par idx &&
      negb (bool_decide (idx ∈ cycle_suspects v)) then with_cycle_suspects (cycle_suspects v1 ++ [idx]) v1 else v1)).
  { intros P. unfold v2. rewrite Hsusp. unfold suspects_after. rewrite <- (rn_susp _ _ _ _ _ Rn). destruct (_ && _); [done|]. by destruct v1. }
  assert (I2 : Inv v2 (key_set idx (Some id) (same_key v)) (child_key v) (key_set idx None (dirkey v)) (fun _ => 0) None hole).
  { apply Inv_susp; [done|]. pose proof (i_susp _ _ _ _ _ _ _ I1) as Hs1. rewrite (rn_susp _ _ _ _ _ Rn) in Hs1.
    rewrite Hsusp. unfold suspects_after. destruct (_ && _); [|done]. apply Forall_app_2; [done|]. apply Forall_singleton.
    unfold cap. by rewrite (rn_frn _ _ _ _ _ Rn). }
  apply wp_note, Hv2. clear Hv2. subst v2.
  eapply wp_move_child; [exact I2|by apply Hal1|by apply Hal1|simpl; rewrite (rn_parent _ _ _ _ _ Rn); exact Ep|by apply child_key_alive|].
  intros nx pv fc I3. apply wp_bind. eapply wp_ent_read; [simpl; rewrite (rn_flags _ _ _ _ _ Rn); exact Efl|].
  pose proof (i_cols _ _ _ _ _ _ _ I1) as Hc1. unfold cols_ok in Hc1. unfold cap in Hlt. rewrite <- (rn_frn _ _ _ _ _ Rn) in Hlt.
  apply wp_bind. eapply wp_ent_set; [rewrite setN_some by (simpl; lia); reflexivity|]. apply wp_bind.
  assert (Hset := fun dd m => rewrite_settled v v1 hole idx id par name name_lossy is_dir a dd nx pv fc m susp Hv Habs Hlf Hpar Rn Hsusp).
  set (vm := reparent idx par nx pv fc _) in *.
  set (nfl := <[N.to_nat idx := rewritten_flags (a_flags a) name_lossy is_dir]> (c_flags (entries v1))) in *.
  assert (I4 : Inv (with_entries (with_flags nfl (entries vm)) vm) (key_set idx (Some id) (same_key v))
      (key_set idx (Some par) (child_key v)) (key_set idx None (dirkey v)) (fun _ => 0) None hole).
  { apply Inv_flags; [exact I3|unfold nfl; rewrite len_insert; unfold cap; simpl; lia|]. intros e. unfold nfl.
    rewrite live_e_insert by lia. change (alive vm e) with (alive v1 e). case_decide; [subst|done]. rewrite rewritten_flags_live.
    unfold alive, live_e. by rewrite (rn_flags _ _ _ _ _ Rn), Efl. }
  destruct (Hset (dirty vm) (dir_children vm)) as (Rw & HS & HC & HD & HP).
  eapply wp_dir_insert_settle.
  - eapply Inv_ext; [exact I4|exact HS|exact HC| |done]. intros e. unfold key_set. case_decide; [done|]. by apply HD.
  - exact HP.
  - by apply (rw_alive _ _ _ _ _ _ _ Rw).
  - intros m I5. apply wp_modify. destruct (Hset (dirty vm + 1) m) as (Rw' & _).
    apply HQ; [by apply vol_inv_dirty|exact Rw'|]. destruct Hsp1. by split.
Qed.
End rewrite.

(** ** Upserting a link *)

Section upsert.
Context {U : Unicode} {H : Hasher}.
Implicit Types (v : VolumeIndex).

(** The entry an upsert leaves for the file. *)
Definition upserted (p : N) (name : list N) (name_lossy is_dir : bool) (a : AEntry) : Prop :=
  a_parent a = p /\ a_name a = name /\ contains (a_flags a) DIR = is_dir /\
  contains (a_flags a) NON_UNICODE_NAME = name_lossy /\ contains (a_flags a) PLACEHOLDER = false /\ a_next a = NIL.

Lemma rewritten_upserted p name l d a : a_next a = NIL -> upserted p name l d (rewritten p name l d a).
Proof.
  intros Hn. split_and!; try done; simpl; unfold rewritten_flags.
  - change DIR with (2 ^ 0) at 2. change PLACEHOLDER with (2 ^ 3). change NON_UNICODE_NAME with (2 ^ 4). change DIR with (2 ^ 0).
    by rewrite !contains_with_flag.
  - change PLACEHOLDER with (2 ^ 3). change NON_UNICODE_NAME with (2 ^ 4). by rewrite !contains_with_flag.
  - change PLACEHOLDER with (2 ^ 3). by rewrite !contains_with_flag.
Qed.

Definition fresh_flags (l d : bool) : N := with_flag (with_flag EMPTY DIR d) NON_UNICODE_NAME l.

Lemma fresh_flags_spec l d :
  contains (fresh_flags l d) DIR = d /\ contains (fresh_flags l d) NON_UNICODE_NAME = l /\
  contains (fresh_flags l d) PLACEHOLDER = false /\ contains (fresh_flags l d) TOMBSTONE = false.
Proof. by destruct l, d. Qed.

(** What the upsert does once the parent is there. *)
Definition tail_post v f p name l d (r : UpsertResult) v' : Prop :=
  vol_ok v' /\ kept [record_number f] v v' /\
  match r with
  | UpsertOk => exists idx a, (forall e, link_of v' f e <-> e = idx) /\ abs v' idx = Some a /\ upserted p name l d a /\
      (forall e b, link_of v f e -> abs v e = Some b -> e = idx /\ a_size a = a_size b /\ a_mtime a = a_mtime b) /\
      (forall e b, abs v e = Some b -> ~ link_of v f e -> abs v' e = Some b)
  | NeedsReconcile => v' = v /\ exists e1 e2, e1 <> e2 /\ link_of v f e1 /\ link_of v f e2
  end.

Lemma rewrote_kept idx par name l d v v' a :
  abs v idx = Some a -> idx <> lost_found v -> rewrote idx par name l d v v' -> kept [record_number (a_frn a)] v v'.
Proof.
  intros Ha Hlf [F _ _ _ _ _ Habs]. split; [done| |].
  - intros e b Hb Hn. exists (a_parent b). rewrite set_a_parent_id. split; [|auto]. rewrite Habs, decide_False; [done|].
    intros ->. apply Hn. split; [done|]. exists a. split; [done|]. left.
  - intros e b. rewrite Habs. case_decide; [subst; rewrite Ha; intros [= <-]; left; by exists a|eauto].
Qed.

(** Links of a file, and whether there is just one. *)
Lemma single_link v f h :
  vol_ok v -> FrnMap.get (by_frn v) (record_number f) = Some h -> getN h (c_frn (entries v)) = Some f ->
  exists nl, getN h (c_next_link (entries v)) = Some nl /\ link_of v f h /\
    (nl = NIL -> forall e, link_of v f e -> e = h) /\ (nl <> NIL -> exists e, e <> h /\ link_of v f e).
Proof.
  intros Hv Hg Hf. destruct (links_found _ _ _ Hv Hg) as (l & f' & Hs & Hnd & Hr & Hin & Hfr).
  assert (Hiff : forall e, e ∈ h :: l <-> link_of v f e) by (intros e; rewrite Hin; by apply (link_of_record v _ f h)).
  simpl in Hs. destruct Hs as (_ & Hh & nl & Hn & Hs). exists nl. split; [done|]. split; [apply Hiff; left|]. split.
  - intros -> e He. apply Hiff in He. destruct l as [|x l]; [set_solver|]. simpl in Hs. naive_solver.
  - intros Hne. destruct l as [|x l]; [done|]. exists x. split; [|apply Hiff; set_solver].
    apply NoDup_cons in Hnd. set_solver.
Qed.

Lemma wp_upsert_tail v f p name l d k Q :
  vol_ok v -> alive v p -> (forall e, of_record v (record_number f) e -> link_of v f e) ->
  space v (k + 1) -> small_name name ->
  (forall r v', tail_post v f p name l d r v' -> space v' k -> Q r v') ->
  wp (o <- frn_get (record_number f) ;;
      match o with
      | Some head =>
          nl <- ent (next_link head) ;;
          if nl =? NIL then rewrite_entry head p name l d ;;; st_ret UpsertOk
          else st_ret NeedsReconcile
      | None =>
          idx <- new_entry f p name (fresh_flags l d) SIZE_UNKNOWN MTIME_UNKNOWN ;;
          frn_set (record_number f) idx ;;; dir_index_insert idx ;;; bump_dirty ;;; st_ret UpsertOk
      end) Q v.
Proof.
  intros Hv Hp Honly Hsp Hsm HQ. apply wp_bind, wp_get.
  destruct (head_cases v f Hv) as [(h & f' & Hg & Hf & Ha & Hlf & Hyes & Hno)|(Hg & Hnor & Hno)]; rewrite Hg.
  - assert (f' = f) as ->.
    { destruct (decide (f' = f)) as [|Hne]; [done|]. exfalso. apply (Hno Hne h), Honly.
      destruct (links_found _ _ _ Hv Hg) as (l' & f1 & _ & _ & _ & Hin & _). apply Hin. left. }
    destruct (single_link _ _ _ Hv Hg Hf) as (nl & Hnl & Hlink & Hone & Htwo). apply wp_bind. wp_get_col.
    destruct (N.eqb_spec nl NIL) as [->|Hne].
    + specialize (Hone eq_refl). apply wp_bind. eapply wp_rewrite_entry; [exact Hv|done..|].
      intros v' Hv' Rw Hsp'. apply wp_ret, HQ; [|done]. pose proof Hlink as (_ & a & Habs & Hfa).
      split; [done|]. split; [rewrite <- Hfa; by eapply rewrote_kept|]. exists h, (rewritten p name l d a). split_and!.
      * intros e. unfold link_of. rewrite (fv_lf _ _ (rw_frame _ _ _ _ _ _ _ Rw)), (rw_abs _ _ _ _ _ _ _ Rw). split.
        -- intros (He & b & Hb & Hfb). destruct (decide (e = h)); [done|]. apply Hone. split; eauto.
        -- intros ->. rewrite decide_True, Habs by done. split; [done|]. by exists (rewritten p name l d a).
      * by rewrite (rw_abs _ _ _ _ _ _ _ Rw), decide_True, Habs.
      * apply rewritten_upserted. apply abs_inv in Habs as (_ & _ & _ & _ & ? & _). congruence.
      * intros e b He Hb. apply Hone in He as ->. by simplify_eq.
      * intros e b Hb He. rewrite (rw_abs _ _ _ _ _ _ _ Rw), decide_False; [done|]. by intros ->.
    + apply wp_ret, HQ; [|by apply (space_le _ _ _ Hsp); lia]. destruct (Htwo Hne) as (e & He & Hle).
      split; [done|]. split; [apply kept_refl|]. split; [done|]. by exists e, h.
  - pose proof (vol_inv_open _ (record_number f) Hv) as Hvo. destruct (fresh_flags_spec l d) as (F1 & F2 & F3 & F4).
    apply wp_bind. eapply wp_new_entry; [exact Hvo|done..|].
    intros idx v1 Hins I1 HP1 Hsp1. apply wp_bind, wp_modify, wp_bind. set (a := {| a_frn := f |}) in *.
    pose proof (Inv_set_single v v1 _ _ _ _ _ _ idx a Hvo Hins eq_refl Hnor I1) as I2.
    eapply wp_dir_insert_settle; [exact I2|exact HP1| |].
    { apply (in_alive _ _ _ _ Hins). by left. }
    intros m Hv3. apply wp_bind, wp_modify, wp_ret. set (v4 := with_dirty _ _).
    assert (Hv4 : vol_ok v4) by (by apply vol_inv_dirty).
    assert (Habs : forall e, abs v4 e = if decide (e = idx) then Some a else abs v e) by apply Hins.
    apply HQ; [|destruct Hsp1; by split]. split; [done|]. split.
    { destruct (inserted_kept _ _ _ _ _ Hv Hins) as [[] K2 K3]. by split. }
    assert (Hlf : idx <> lost_found v).
    { intros ->. apply (in_free _ _ _ _ Hins), (i_lf _ _ _ _ _ _ _ (proj1 Hv)). }
    exists idx, a. split_and!; try done.
    + intros e. unfold link_of. rewrite Habs. change (lost_found v4) with (lost_found v1).
      rewrite (fv_lf _ _ (in_frame _ _ _ _ Hins)). split.
      * intros (He & b & Hb & Hfb). destruct (decide (e = idx)); [done|]. exfalso. apply (Hno e). split; eauto.
      * intros ->. rewrite decide_True by done. split; [done|]. by exists a.
    + by rewrite Habs, decide_True.
    + intros e b He. by apply Hno in He.
    + intros e b Hb _. by apply (inserted_steady _ _ _ _ Hins).
Qed.

(** The first step: a slot held by an earlier incarnation of the record is
    cleared. *)
Lemma wp_clear_stale v f Q :
  vol_ok v ->
  (forall v', vol_ok v' -> kept [record_number f] v v' -> (forall e, of_record v' (record_number f) e -> link_of v' f e) ->
     ((exists e, link_of v f e) -> v' = v) -> (forall e, link_of v' f e -> link_of v f e) ->
     (forall k, space v k -> space v' k) -> (not_stale v f -> v' = v) -> Q tt v') ->
  wp (o <- frn_get (record_number f) ;;
      match o with
      | Some head => hf <- ent (EntryTable.frn head) ;; st_when (negb (hf =? f)) (reclaim_stale_slot (record_number f) head)
      | None => st_ret tt
      end) Q v.
Proof.
  intros Hv HQ. apply wp_bind, wp_get.
  destruct (head_cases v f Hv) as [(h & f' & Hg & Hf & Ha & Hlf & Hyes & Hno)|(Hg & Hnor & Hno)]; rewrite Hg.
  - apply wp_bind. wp_get_col. apply wp_when; intros E; simpl_cmp.
    + eapply wp_reclaim; [done|done|]. intros v' Hv' K Hn Hsp' _ _. specialize (Hno E). apply HQ; try done.
      * intros e He. by apply Hn in He.
      * intros [e He]. by destruct (Hno e).
      * intros e He. by apply (link_of_is_record _ _ _ _ Hv') in He as ?%Hn.
      * intros Hst. destruct (Hno h). apply Hst. destruct (links_found _ _ _ Hv Hg) as (l & f1 & _ & _ & _ & Hin & _). apply Hin. left.
    + subst f'. apply HQ; try done; [apply kept_refl|]. intros e He. by eapply record_is_link; [|apply Hyes|].
  - apply wp_ret, HQ; try done; [apply kept_refl|]. intros e He. by apply Hnor in He.
Qed.

Definition upsert_post v f pf name l d (r : UpsertResult) v' : Prop :=
  vol_ok v' /\ kept [record_number f; record_number pf] v v' /\
  ((exists e, link_of v pf e) -> kept [record_number f] v v') /\
  (exists p, parent_is v' f pf p) /\
  (pf <> f -> (forall e, ~ link_of v pf e) -> one_link v' pf) /\
  (not_stale v f -> not_stale v pf -> forall e b, abs v e = Some b -> ~ link_of v f e -> abs v' e = Some b) /\
  match r with
  | UpsertOk => exists idx a p, (forall e, link_of v' f e <-> e = idx) /\ abs v' idx = Some a /\
      upserted p name l d a /\ parent_is v' f pf p /\
      (forall e b, link_of v f e -> abs v e = Some b -> e = idx /\ a_size a = a_size b /\ a_mtime a = a_mtime b)
  | NeedsReconcile => (exists e1 e2, e1 <> e2 /\ link_of v f e1 /\ link_of v f e2) /\
      forall e b, link_of v f e -> abs v e = Some b -> exists q, abs v' e = Some (set_a_parent q b)
  end.

(** The edits of the three steps together. *)
Lemma upsert_kept v v1 v2 v3 f pf :
  vol_ok v -> vol_ok v1 -> vol_ok v2 -> kept [record_number f] v v1 -> kept [record_number pf] v1 v2 ->
  ((exists e, link_of v1 pf e) -> v2 = v1) -> kept [record_number f] v2 v3 ->
  kept [record_number f; record_number pf] v v3 /\ ((exists e, link_of v pf e) -> kept [record_number f] v v3).
Proof.
  intros Hv Hv1 Hv2 K1 K2 Hknown K3. split.
  - eapply (kept_trans _ v v1); [exact Hv|exact Hv1|eapply kept_mono; [|exact K1]; set_solver|].
    eapply (kept_trans _ v1 v2); [exact Hv1|exact Hv2|eapply kept_mono; [|exact K2]; set_solver|].
    eapply kept_mono; [|exact K3]; set_solver.
  - intros [e (Hlf & a & Ha & Hfa)]. eapply (kept_trans _ v v1); [exact Hv|exact Hv1|done|].
    destruct (decide (record_number pf = record_number f)) as [E|Hne].
    + rewrite E in K2. eapply (kept_trans _ v1 v2); [exact Hv1|exact Hv2|done|done].
    + rewrite <- Hknown; [done|]. destruct (k_entries _ _ _ K1 e a Ha) as (q & Hq & _).
      { intros (_ & b & Hb & Hin%list_elem_of_singleton). simplify_eq. }
      exists e. split; [by rewrite (fv_lf _ _ (k_frame _ _ _ K1))|]. by eexists.
Qed.

Lemma wp_upsert v f pf name l d k Q :
  vol_ok v -> space v (k + 2) -> small_name name ->
  (forall r v', upsert_post v f pf name l d r v' -> space v' k -> Q r v') ->
  wp (upsert_link f pf name l d) Q v.
Proof.
  intros Hv Hsp Hsm HQ.
  assert (Hassoc : forall (a : ST VolumeIndex (option N)) (b : option N -> ST VolumeIndex unit) (c : ST VolumeIndex UpsertResult) w,
    wp (x <- a ;; b x) (fun _ w' => wp c Q w') w -> wp (x <- a ;; (b x ;;; c)) Q w).
  { intros a b c w. unfold wp, st_bind. destruct (a w) as [[]|]; [|done]. by destruct (b _ _) as [[]|]. }
  unfold upsert_link. apply Hassoc. clear Hassoc. apply wp_clear_stale; [done|].
  intros v1 Hv1 K1 Honly Hsame1 Hback1 Hsp1 Hst1.
  apply wp_bind. eapply (wp_resolve_link v1 _ _ (k + 1)); [done|replace (k + 1 + 1) with (k + 2) by lia; by apply Hsp1|].
  intros p v2 [Hv2 Hpar Hpa K2 Hknown Honly2 Hlinks Hnew Hst2 Hmade] Hsp2.
  eapply wp_upsert_tail; [exact Hv2|done|by apply Honly2|exact Hsp2|exact Hsm|].
  intros r v3 (Hv3 & K3 & Hr) Hsp3. apply HQ; [|done].
  destruct (upsert_kept v v1 v2 v3 f pf) as [KK1 KK2]; try done. split; [done|]. split; [done|]. split; [done|].
  assert (Hpar3 : parent_is v3 f pf p).
  { destruct r; [|by destruct Hr as [-> _]]. destruct Hr as (idx & a & Hone & Ha & Hup & Hsz & _).
    unfold parent_is in *. destruct (_ && _) eqn:E; [by rewrite (fv_lf _ _ (k_frame _ _ _ K3))|].
    destruct (decide (pf = f)) as [-> |Hne].
    - apply Hone. destruct Hpar as (Hlf & b & Hb & Hfb). destruct (Hsz p b) as (-> & _); [by split; eauto|done..].
    - destruct Hpar as (Hlf & b & Hb & Hfb). destruct (k_entries _ _ _ K3 p b Hb) as (q & Hq & _).
      { intros (_ & b' & Hb' & Hin%list_elem_of_singleton). simplify_eq. apply andb_false_iff in E as [E|E]; simpl_cmp; done. }
      split; [by rewrite (fv_lf _ _ (k_frame _ _ _ K3))|]. by eexists. }
  split; [by exists p|].
  assert (Hother : forall w w' e, kept [record_number f] w w' -> vol_ok w' -> (forall e, of_record w' (record_number f) e -> link_of w' f e) ->
    pf <> f -> link_of w' pf e -> link_of w pf e).
  { intros w w' e K Hw' Hall Hne (Hlf & a & Ha & Hfa). destruct (k_new _ _ _ K e a Ha) as [(b & Hb & Eb)|Hin%list_elem_of_singleton].
    - split; [by rewrite <- (fv_lf _ _ (k_frame _ _ _ K))|]. exists b. split; [done|congruence].
    - destruct (Hall e) as (_ & c & Hc & Hcf); [|congruence]. apply (of_record_abs _ _ _ _ Hw'). eauto. }
  split.
  { intros Hne Hno e1 e2 H1 H2. assert (Hall3 : forall e, of_record v3 (record_number f) e -> link_of v3 f e).
    { destruct r; [|destruct Hr as [-> _]; by apply Honly2]. destruct Hr as (idx & a & Hone & _). intros e He. eapply record_is_link; [done|by apply Hone|done]. }
    apply (Hmade ltac:(intros e He; by apply (Hno e), (Hother v v1 e K1 Hv1 Honly Hne))); by apply (Hother v2 v3). }
  split.
  { intros Hn1 Hn2 e b Hb He. rewrite (Hst1 Hn1) in *. specialize (Hst2 Hn2 e b Hb). destruct r; [|by destruct Hr as [-> _]].
    destruct Hr as (idx & a & _ & _ & _ & _ & Hkeep). apply (Hkeep e b Hst2). intros (Hlf & b' & Hb' & Hf). apply He.
    rewrite (fv_lf _ _ (k_frame _ _ _ K2)) in Hlf. split; [done|]. exists b. split; [done|]. congruence. }
  assert (Hfwd : forall e b, link_of v f e -> abs v e = Some b -> exists q, abs v2 e = Some (set_a_parent q b) /\ link_of v2 f e).
  { intros e b Hl Hb. rewrite (Hsame1 ltac:(eauto)) in *. destruct (Hlinks e b Hl Hb) as [q Hq]. exists q. split; [done|].
    split; [rewrite (fv_lf _ _ (k_frame _ _ _ K2)); apply Hl|]. exists (set_a_parent q b). split; [done|].
    destruct Hl as (_ & b' & Hb' & <-). by simplify_eq. }
  destruct r.
  - destruct Hr as (idx & a & Hone & Ha & Hup & Hsz & _). exists idx, a, p. split_and!; try done.
    + intros e b Hl Hb. destruct (Hfwd e b Hl Hb) as (q & Hq & Hl2). by destruct (Hsz e _ Hl2 Hq).
  - destruct Hr as (-> & e1 & e2 & Hne & L1 & L2). split.
    + exists e1, e2. split; [done|]. split; apply Hback1.
      * destruct (Hnew e1 L1) as [?|Hu]; [done|]. by destruct Hne; rewrite (Hu e2 L2).
      * destruct (Hnew e2 L2) as [?|Hu]; [done|]. by destruct Hne; rewrite (Hu e1 L1).
    + intros e b Hl Hb. destruct (Hfwd e b Hl Hb) as (q & Hq & _). eauto.
Qed.
End upsert.
