(* ===== verification/VolumeBatch.v ===== *)
(** Journal batches: [apply_batch] of [crates/goz-core/src/index/volume.rs]
    keeps the invariant, never panics, touches only the records the batch
    names, and leaves only genuine cycle suspects behind. *)

From stdpp Require Import gmap.
From stdpp Require Import base option list sets.
From Stdlib Require Import NArith ZArith Lia.
From S2P Require Import Prelude Types Wtf8 UsnRecord UsnOps LayoutParse Fold FrnMap NameStore NameOrder EntryTable Chain Volume VolumeInv VolumeOps VolumeEdit VolumeUpsert.

Section batch.
Context {U : Unicode} {H : Hasher}.
Implicit Types (v : VolumeIndex).

(** ** Cycle suspects *)

(** The entry is its own ancestor. *)
Definition in_cycle v (e : N) : bool :=
  match getN e (c_parent (entries v)) with Some p => at_or_below v p e | None => false end.

Lemma wp_suspects_retain v l Q :
  up_closed v -> Forall (fun e => e < cap v) l -> len (c_parent (entries v)) = cap v ->
  Q (base.filter (fun e => in_cycle v e = true) l) v -> wp (suspects_retain l) Q v.
Proof.
  intros Hup Hl Hlen. revert Q. induction Hl as [|e l He Hl IH]; intros Q HQ; [by apply wp_ret|]. simpl.
  destruct (getN_is_Some e (c_parent (entries v))) as [p Hp]; [lia|].
  apply wp_bind. wp_get_col. apply wp_bind. apply wp_at_or_below; [done| |].
  { destruct Hup as [_ Hup]. destruct (Hup e p Hp) as [?|[_ ?]]; auto. }
  apply wp_bind, IH, wp_ret. rewrite filter_cons in HQ.
  assert (E : in_cycle v e = at_or_below v p e) by (unfold in_cycle; by rewrite Hp). rewrite <- E.
  by destruct (in_cycle v e).
Qed.

Lemma wp_prune v hole Q :
  vol_inv v hole ->
  (forall l, l = base.filter (fun e => in_cycle v e = true) (cycle_suspects v) ->
     vol_inv (with_cycle_suspects l v) hole -> Q tt (with_cycle_suspects l v)) ->
  wp prune_cycle_suspects Q v.
Proof.
  intros [I HP] HQ. unfold prune_cycle_suspects. apply wp_bind, wp_get, wp_bind.
  pose proof (i_cols _ _ _ _ _ _ _ I) as Hc. unfold cols_ok in Hc. apply wp_suspects_retain.
  - by eapply vol_up_closed.
  - apply (i_susp _ _ _ _ _ _ _ I).
  - unfold cap. lia.
  - apply wp_modify. eapply HQ; [done|]. split; [|done]. apply Inv_susp; [done|].
    apply Forall_forall. intros e [_ He]%list_elem_of_filter.
    by apply (proj1 (Forall_forall _ _) (i_susp _ _ _ _ _ _ _ I)).
Qed.

(** ** Names *)

(** Replacing the order of the store, which no chain depends on. *)
Lemma Inv_with_order v S C D R ex hole o rk u d :
  Inv v S C D R ex hole -> ns_ok (with_order o rk u d (names v)) -> order_ok (with_order o rk u d (names v)) ->
  Inv (with_names (with_order o rk u d (names v)) v) S C D R ex hole.
Proof. intros I H1 H2. destruct I. by split. Qed.

Lemma merge_run ns :
  ns_ok ns -> order_ok ns ->
  exists o rk, merge_unranked ns = Some (tt, with_order o rk [] 0 ns) /\ build_order ns = Some (tt, with_order o rk [] 0 ns) /\
    ns_ok (with_order o rk [] 0 ns) /\ order_ok (with_order o rk [] 0 ns).
Proof.
  intros Hok Ho. rewrite merge_unranked_eq, build_order_eq by done.
  destruct (install_order ns (sorted_keys ns) Hok (sorted_keys_sorted _) (sorted_keys_perm _)) as (rk & E & Hok' & Ho').
  exists ((sorted_keys ns).*2), rk. split; [exact E|]. split; [exact E|]. split; [done|apply Ho'].
Qed.

Lemma wp_merge v hole Q :
  vol_inv v hole -> (forall v', vol_inv v' hole -> frame_core v v' -> c_parent (entries v') = c_parent (entries v) -> Q tt v') ->
  wp (nam merge_unranked) Q v.
Proof.
  intros [I HP] HQ. destruct (merge_run _ (i_ns _ _ _ _ _ _ _ I) (i_order _ _ _ _ _ _ _ I)) as (o & rk & E & _ & Hok & Ho).
  apply wp_zoom, wp_run. exists tt, (with_order o rk [] 0 (names v)). split; [done|]. apply HQ; [|by split|done].
  split; [|done]. by apply Inv_with_order.
Qed.

(** ** Heads *)

Lemma wp_head_of v f Q :
  vol_ok v -> (forall o, (forall h, o = Some h -> link_of v f h) -> (o = None -> forall e, ~ link_of v f e) -> Q o v) ->
  wp (head_of f) Q v.
Proof.
  intros Hv HQ. unfold head_of. apply wp_bind, wp_get.
  destruct (head_cases v f Hv) as [(h & f' & Hg & Hf & Ha & Hlf & Hyes & Hno)|(Hg & Hnor & Hno)]; rewrite Hg.
  - apply wp_bind. wp_get_col. apply wp_ret, HQ; destruct (N.eqb_spec f' f); try done.
    + intros ? [= <-]. auto.
    + auto.
  - by apply wp_ret, HQ.
Qed.

Lemma wp_retain_known v l Q :
  vol_ok v -> (forall l', (forall f, f ∈ l' <-> f ∈ l /\ exists e, link_of v f e) -> Q l' v) -> wp (retain_known l) Q v.
Proof.
  intros Hv. revert Q. induction l as [|f l IH]; intros Q HQ; [apply wp_ret, HQ; set_solver|]. simpl.
  apply wp_bind, wp_head_of; [done|]. intros o Hyes Hno. apply wp_bind, IH. intros l' Hl'. apply wp_ret, HQ.
  intros g. destruct o as [h|]; simpl; rewrite elem_of_cons, ?elem_of_cons, Hl'.
  - split; [|naive_solver]. intros [->|?]; [|naive_solver]. split; [auto|]. exists h. auto.
  - split; [naive_solver|]. intros [[->|?] [e He]]; [|naive_solver]. by apply (Hno eq_refl) in He.
Qed.

(** ** Operations *)

(** The records an operation may touch. *)
Definition op_records (op : UsnOp) : list N :=
  match op with
  | Upsert f par _ _ _ => [record_number f; record_number par]
  | Delete f => [record_number f]
  | _ => []
  end.

Definition op_fits (op : UsnOp) : Prop :=
  match op with Upsert _ _ name _ _ => small_name name | _ => True end.

(** Slots an operation may use: the entry and a placeholder for its parent. *)
Definition op_cost (op : UsnOp) : N := match op with Upsert _ _ _ _ _ => 2 | _ => 0 end.

Lemma removed_space gone v v' k : removed gone v v' -> space v k -> space v' k.
Proof. intros R. apply (rm_space _ _ _ R). Qed.

Lemma kept_stats P v v' st : kept P v v' -> kept P v (with_stats st v').
Proof. intros [[] K2 K3]. by split. Qed.

Lemma wp_apply_op v op o k Q :
  vol_ok v -> op_fits op -> space v (k + op_cost op) ->
  (forall o' v', vol_ok v' -> kept (op_records op) v v' -> space v' k -> Q o' v') -> wp (apply_op op o) Q v.
Proof.
  intros Hv Hfit Hsp HQ. destruct op as [f par name lossy dir|f|f|f|f]; simpl in *.
  - apply wp_bind. eapply wp_upsert; [exact Hv|exact Hsp|exact Hfit|]. intros r v' (Hv' & K & _) Hsp'. by apply wp_ret, HQ.
  - rewrite N.add_0_r in Hsp. apply wp_bind. eapply wp_mono; [by apply wp_delete_frn|]. intros ok v' [Hv' Hpost]. destruct ok.
    + destruct Hpost as (gone & _ & Hin & R & _). apply wp_ret, HQ; [done| |by eapply removed_space].
      eapply removed_kept; [exact Hv| |exact R]. intros e He%Hin. by eapply link_of_is_record.
    + destruct Hpost as [-> _]. apply wp_bind, wp_modify, wp_ret, HQ; [by apply vol_inv_stats| |by destruct Hsp].
      apply kept_stats, kept_refl.
  - rewrite N.add_0_r in Hsp. apply wp_ret, HQ; [done|apply kept_refl|done].
  - rewrite N.add_0_r in Hsp. apply wp_ret, HQ; [done|apply kept_refl|done].
  - rewrite N.add_0_r in Hsp. apply wp_bind, wp_modify, wp_ret, HQ; [by apply vol_inv_stats| |by destruct Hsp].
    apply kept_stats, kept_refl.
Qed.

Definition ops_cost (ops : list UsnOp) : N := foldr (fun op n => op_cost op + n) 0 ops.

Lemma wp_apply_ops ops : forall v o k Q,
  vol_ok v -> Forall op_fits ops -> space v (k + ops_cost ops) ->
  (forall o' v', vol_ok v' -> kept (flat_map op_records ops) v v' -> space v' k -> Q o' v') -> wp (apply_ops ops o) Q v.
Proof.
  induction ops as [|op ops IH]; intros v o k Q Hv Hfit Hsp HQ; simpl in *.
  { rewrite N.add_0_r in Hsp. apply wp_ret, HQ; [done|apply kept_refl|done]. }
  apply Forall_cons in Hfit as [Hf Hfit]. apply wp_bind. eapply (wp_apply_op _ _ _ (k + ops_cost ops)); [exact Hv|done| |].
  { by replace (k + ops_cost ops + op_cost op) with (k + (op_cost op + ops_cost ops)) by lia. }
  intros o1 v1 Hv1 K1 Hsp1. eapply IH; [exact Hv1|done|exact Hsp1|]. intros o2 v2 Hv2 K2 Hsp2. apply HQ; [done| |done].
  eapply kept_trans; [exact Hv|exact Hv1|eapply kept_mono; [|exact K1]; set_solver|eapply kept_mono; [|exact K2]; set_solver].
Qed.

Definition all_ops (records : list ParsedUsnRecord) : list UsnOp := flat_map ops_for records.

Lemma apply_records_ops records : forall o s, apply_records records o s = apply_ops (all_ops records) o s.
Proof.
  assert (Happ : forall a b o s, apply_ops (a ++ b) o s = (o <- apply_ops a o ;; apply_ops b o) s).
  { induction a as [|op a IH]; intros b o s; [done|]. simpl. unfold st_bind. destruct (apply_op op o s) as [[o' s']|]; [|done].
    by rewrite IH. }
  induction records as [|r records IH]; intros o s; [done|]. simpl. rewrite Happ. unfold st_bind.
  destruct (apply_ops (ops_for r) o s) as [[]|]; [|done]. apply IH.
Qed.

(** The records a journal batch names. *)
Definition batch_records (records : list ParsedUsnRecord) : list N := flat_map op_records (all_ops records).

Lemma all_ops_fit records : Forall (fun r => small_name (UsnRecord.name r)) records -> Forall op_fits (all_ops records).
Proof.
  intros Hs. apply Forall_flat_map, Forall_forall. intros r Hr. pose proof (proj1 (Forall_forall _ _) Hs r Hr) as Hn.
  unfold ops_for. destruct (any _ _); [by repeat constructor|]. repeat (apply Forall_app; split); destruct (any _ _); simpl;
    try destruct (negb _); simpl; try (by repeat constructor); by constructor.
Qed.

Lemma ops_cost_app a b : ops_cost (a ++ b) = ops_cost a + ops_cost b.
Proof. induction a as [|op a IH]; simpl; [done|]. unfold ops_cost in *. simpl. lia. Qed.

Lemma ops_cost_record r : ops_cost (ops_for r) <= 2.
Proof.
  unfold ops_for. destruct (any _ _); [vm_compute; congruence|].
  repeat (destruct (any _ _); simpl); vm_compute; congruence.
Qed.

Lemma all_ops_cost records : ops_cost (all_ops records) <= 2 * len records.
Proof.
  induction records as [|r records IH]; simpl; [done|]. unfold all_ops in *. simpl. rewrite ops_cost_app, len_cons.
  pose proof (ops_cost_record r). lia.
Qed.

Definition batch_post v (records : list ParsedUsnRecord) (o : ApplyOutcome) v' : Prop :=
  vol_ok v' /\ generation v' = generation v + 1 /\
  kept (batch_records records) v (with_generation (generation v) v') /\
  (forall f, f ∈ needs_stat o -> exists e, link_of v' f e) /\
  (forall e, e ∈ cycle_suspects v' -> alive v' e /\ in_cycle v' e = true) /\
  wants_compact o = should_compact (names v').

Lemma frame_core_abs v v' e :
  frame_core v v' -> getN e (c_parent (entries v')) = getN e (c_parent (entries v)) -> abs v' e = abs v e.
Proof.
  intros F Hp. unfold abs.
  destruct (decide (alive v e)) as [Ha|Ha]; [rewrite decide_True by (by apply (frame_alive _ _ _ F))|
    rewrite decide_False by (by rewrite (frame_alive _ _ _ F))]; [|done].
  rewrite Hp, (fc_frn _ _ F), (fc_name_id _ _ F), (fc_flags _ _ F), (fc_size _ _ F), (fc_mtime _ _ F), (fc_next_link _ _ F).
  destruct (getN e (c_frn (entries v))); [|done]. simpl. destruct (getN e (c_parent (entries v))); [|done]. simpl.
  destruct (getN e (c_name_id (entries v))) as [id|]; [|done]. simpl.
  by destruct (names_eq_bytes _ _ id (fc_names _ _ F)) as (-> & _).
Qed.

Lemma in_cycle_alive v hole e : vol_inv v hole -> in_cycle v e = true -> e <> NIL -> alive v e.
Proof.
  intros [_ [Hpl _]] Hc He. unfold in_cycle in Hc. destruct (getN e (c_parent (entries v))) as [p|] eqn:Hp; [|done].
  destruct (Hpl e p Hp) as [->|[? _]]; [|done]. exfalso.
  by rewrite at_or_below_nil in Hc.
Qed.

Lemma wp_apply_batch v records k Q :
  vol_ok v -> Forall (fun r => small_name (UsnRecord.name r)) records -> space v (k + 2 * len records) ->
  (forall o v', batch_post v records o v' -> space v' k -> Q o v') -> wp (apply_batch records) Q v.
Proof.
  intros Hv Hs Hsp HQ. unfold apply_batch. apply wp_bind.
  assert (Hrun : forall Q', wp (apply_ops (all_ops records) outcome_default) Q' v -> wp (apply_records records outcome_default) Q' v).
  { intros Q'. unfold wp. by rewrite apply_records_ops. }
  apply Hrun. clear Hrun. eapply (wp_apply_ops _ _ _ k); [exact Hv|by apply all_ops_fit| |].
  { eapply space_le; [exact Hsp|]. pose proof (all_ops_cost records). lia. }
  intros o v1 Hv1 K1 Hsp1. apply wp_bind, wp_get, wp_bind.
  assert (Hgo : forall v2, vol_ok v2 -> frame_core v1 v2 -> c_parent (entries v2) = c_parent (entries v1) ->
    wp (stat <- retain_known (needs_stat o) ;; prune_cycle_suspects ;;;
        st_modify (fun v => with_generation (generation v + 1) v) ;;; wc <- st_get (fun v => should_compact (names v)) ;;
        st_ret {| needs_stat := stat; needs_link_reconcile := needs_link_reconcile o; anomalies := anomalies o; wants_compact := wc |}) Q v2).
  { intros v2 Hv2 F2 Hp2. apply wp_bind, wp_retain_known; [done|]. intros l' Hl'. apply wp_bind.
    eapply wp_prune; [exact Hv2|]. intros susp Hsusp Hv3. apply wp_bind, wp_modify, wp_bind, wp_get, wp_ret.
    set (v4 := with_generation _ _). apply HQ.
    - assert (Hv4 : vol_ok v4) by (destruct Hv3 as [I HP]; split; [destruct I; by split|done]).
      split; [done|]. split; [simpl; by rewrite (fc_generation _ _ F2), (fv_generation _ _ (k_frame _ _ _ K1))|]. split_and!.
      + destruct K1 as [[] K1 K1']. split.
        * destruct F2. split; simpl; congruence.
        * intros e a Ha Hn. destruct (K1 e a Ha Hn) as (q & Hq & Hq'). exists q. split; [|done]. rewrite <- Hq.
          apply (frame_core_abs v1 v2); [done|by rewrite Hp2].
        * intros e a' Ha'. apply (K1' e). rewrite <- Ha'. symmetry. apply (frame_core_abs v1 v2); [done|by rewrite Hp2].
      + intros f Hf. by apply Hl' in Hf as [_ ?].
      + intros e He. assert (Hc : in_cycle v4 e = true).
        { simpl in He. rewrite Hsusp in He. apply list_elem_of_filter in He as [Hc _]. rewrite <- Hc. unfold in_cycle.
          change (c_parent (entries v4)) with (c_parent (entries v2)). destruct (getN e (c_parent (entries v2))); [|done].
          by apply at_or_below_ext. }
        split; [|done]. apply (in_cycle_alive _ _ _ Hv4); [done|].
        pose proof (i_susp _ _ _ _ _ _ _ (proj1 Hv4)) as Hf. rewrite Forall_forall in Hf. apply Hf in He.
        pose proof (i_cols _ _ _ _ _ _ _ (proj1 Hv4)) as Hc4. unfold cols_ok, cap in *. lia.
      + done.
    - apply (frame_space _ _ _ F2) in Hsp1. by destruct Hsp1. }
  apply wp_when; intros _; [|by apply Hgo]. eapply wp_merge; [exact Hv1|]. intros v2 Hv2 F2 Hp2. by apply Hgo.
Qed.
End batch.
