(* ===== verification/VolumeCompact.v ===== *)
(** Compaction and storage optimisation of the index: [plan_compaction],
    [apply_compaction] and [optimize_storage] of
    [crates/goz-core/src/index/volume.rs] change the representation and leave
    every entry as it was. *)

From stdpp Require Import gmap.
From stdpp Require Import base option list sets.
From Stdlib Require Import NArith ZArith Lia.
From S2P Require Import Prelude Types Wtf8 UsnRecord UsnOps LayoutParse Fold FrnMap NameStore NameOrder EntryTable Chain Volume VolumeInv VolumeOps VolumeEdit VolumeUpsert VolumeBatch.

Section compact.
Context {U : Unicode} {H : Hasher}.
Implicit Types (v : VolumeIndex).

(** ** The remap loop *)

Definition with_ids (c : list N) v : VolumeIndex := with_entries (with_name_id c (entries v)) v.

(** The name column once the slots outside [rest] are done. *)
Definition remapped v (remap rest c : list N) : Prop :=
  len c = cap v /\ forall e, getN e c =
    if decide (alive v e /\ e ∉ rest) then id ← getN e (c_name_id (entries v)); getN id remap
    else getN e (c_name_id (entries v)).

Lemma wp_remap_loop v remap rest c Q :
  cols_ok (entries v) -> (forall e id, alive v e -> getN e (c_name_id (entries v)) = Some id -> is_Some (getN id remap)) ->
  (forall e, e ∈ rest -> e < cap v) -> NoDup rest -> remapped v remap rest c ->
  (forall c', remapped v remap [] c' -> Q tt (with_ids c' v)) -> wp (st_for (remap_entry remap) rest) Q (with_ids c v).
Proof.
  intros Hc Hre. unfold cols_ok in Hc. revert c. induction rest as [|x rest IH]; intros c Hlt Hnd [Hl Hr] HQ; [by apply HQ|].
  apply NoDup_cons in Hnd as [Hx Hnd]. assert (Hxl : x < cap v) by (apply Hlt; left). unfold cap in *.
  destruct (getN_is_Some x (c_flags (entries v))) as [fl Hfl]; [lia|].
  assert (Ha : alive v x <-> contains fl TOMBSTONE = false) by (unfold alive, live_e; by rewrite Hfl).
  simpl. apply wp_bind. unfold remap_entry. apply wp_bind, wp_zoom. unfold is_tombstone. apply wp_bind.
  eapply wp_read; [exact Hfl|]. apply wp_ret. rewrite with_entries_id. destruct (contains fl TOMBSTONE) eqn:Et.
  - apply wp_ret. apply IH; [intros e He; apply Hlt; by right|done| |done]. split; [done|]. intros e. rewrite Hr.
    destruct (decide (e = x)) as [->|Hne]; [rewrite !decide_False by naive_solver; done|].
    destruct (decide (alive v e /\ e ∉ x :: rest)), (decide (alive v e /\ e ∉ rest)); try done; set_solver.
  - destruct (getN_is_Some x (c_name_id (entries v))) as [id Hid]; [lia|].
    assert (Hax : alive v x) by (by apply Ha). destruct (Hre x id Hax Hid) as [id' Hid'].
    apply wp_bind. eapply wp_ent_read; [simpl; rewrite Hr, decide_False by set_solver; exact Hid|].
    apply wp_bind. eapply wp_read; [exact Hid'|]. eapply wp_ent_set; [simpl; rewrite setN_some by lia; reflexivity|].
    apply (IH (<[N.to_nat x := id']> c)); [intros e He; apply Hlt; by right|done| |done]. split; [by rewrite len_insert|].
    intros e. rewrite getN_insert by lia. destruct (decide (x = e)) as [<-|Hne].
    + rewrite decide_True by done. rewrite Hid. simpl. by rewrite Hid'.
    + rewrite Hr. destruct (decide (alive v e /\ e ∉ x :: rest)), (decide (alive v e /\ e ∉ rest)); try done; set_solver.
Qed.

(** ** The invariant under a remap *)

Lemma same_key_remap v c remap ns e :
  remapped v remap [] c -> same_key (with_ids c (with_names ns v)) e = id ← same_key v e; getN id remap.
Proof.
  intros [_ Hr]. unfold same_key. change (alive (with_ids c (with_names ns v)) e) with (alive v e).
  destruct (decide (alive v e)); [|done]. simpl. rewrite Hr. by rewrite decide_True by (split; [done|set_solver]).
Qed.

Lemma view_fields ns ns' id id' :
  ns_ok ns -> NameStore.live ns id -> view ns' id' = view ns id ->
  raw_bytes ns' id' = raw_bytes ns id /\ folded_bytes_of ns' id' = folded_bytes_of ns id /\
  getN id' (refcount ns') = getN id (refcount ns) /\ getN id' (head ns') = getN id (head ns).
Proof.
  intros Hok Hl E. destruct (live_view _ _ Hok Hl) as (x & Hx & _). rewrite Hx in E. unfold view, refcount_of, chain_head in *.
  repeat (apply bind_Some in Hx as (? & ? & Hx)). repeat (apply bind_Some in E as (? & ? & E)). simplify_eq. split_and!; congruence.
Qed.

Section remap.
Context (v : VolumeIndex) (hole : option N) (remap : list N) (ns : NameStore) (c : list N).
Hypothesis Hv : vol_inv v hole.
Hypothesis Hpost : compaction_post (names v) remap ns.
Hypothesis Hc : remapped v remap [] c.

Lemma remap_entry_view e id :
  same_key v e = Some id -> exists id', getN id remap = Some id' /\ id' <> NIL /\ NameStore.live (names v) id /\ view ns id' = view (names v) id.
Proof.
  intros HS. pose proof (chained_live _ _ _ _ _ _ _ _ _ (proj1 Hv) HS) as Hl.
  destruct Hpost as (_ & _ & _ & _ & Hmap & _). destruct (Hmap id Hl) as (id' & ? & ? & ?). by exists id'.
Qed.

(** Every new id is the new id of one live name. *)
Lemma remap_back id' x :
  getN id' (head ns) = Some x \/ getN id' (refcount ns) = Some x ->
  exists id, NameStore.live (names v) id /\ getN id remap = Some id' /\ view ns id' = view (names v) id /\
    forall e, (same_key v e ≫= fun id => getN id remap) = Some id' <-> same_key v e = Some id.
Proof.
  intros Hx. destruct Hpost as (Hok & _ & _ & _ & Hmap & _ & Hinj & Hback).
  assert (Hlt : id' < ids ns).
  { destruct Hx as [Hx|Hx]; apply getN_lt in Hx; [by rewrite len_head_ids in Hx|by rewrite ids_refcount in Hx]. }
  destruct (Hback id' Hlt) as (id & Hl & Hr). exists id. destruct (Hmap id Hl) as (id2 & Hr2 & Hn & Hview). simplify_eq.
  split_and!; try done. intros e. split.
  - intros (id0 & HS & Hr0)%bind_Some. rewrite HS. f_equal. by eapply Hinj.
  - intros ->. done.
Qed.

Lemma chains_remap :
  chains (c_next_same (entries v)) (c_prev_same (entries v)) (head ns) (fun e => same_key v e ≫= fun id => getN id remap) None.
Proof.
  destruct (i_same _ _ _ _ _ _ _ (proj1 Hv)) as [C1 C2 C3 C4]. split; [done|done| |].
  - intros e k' (id & HS & Hr)%bind_Some. split; [by destruct (C3 e id HS)|].
    destruct (remap_entry_view e id HS) as (k2 & Hr2 & _ & Hl & Hview). simplify_eq.
    destruct (view_fields _ _ _ _ (i_ns _ _ _ _ _ _ _ (proj1 Hv)) Hl Hview) as (_ & _ & _ & Hh).
    destruct (C3 e id HS) as [_ Hid]. destruct (getN_is_Some id _ Hid) as [h Hh']. rewrite Hh' in Hh. by eapply getN_lt.
  - intros k' h _ Hh. destruct (remap_back k' h) as (id & Hl & Hr & Hview & Hiff); [by left|].
    destruct (view_fields _ _ _ _ (i_ns _ _ _ _ _ _ _ (proj1 Hv)) Hl Hview) as (_ & _ & _ & Hhd). rewrite Hh in Hhd.
    destruct (C4 id h ltac:(done) (eq_sym Hhd)) as (l & Hd & Hnd & Hin). exists l. split; [done|]. split; [done|].
    intros e. by rewrite Hiff, Hin.
Qed.

Lemma refs_remap : refs_ok (refcount ns) (fun e => same_key v e ≫= fun id => getN id remap) (fun _ => 0).
Proof.
  intros k'. destruct (getN k' (refcount ns)) as [rc|] eqn:Hrc; [|done].
  destruct (remap_back k' rc) as (id & Hl & Hr & Hview & Hiff); [by right|].
  destruct (view_fields _ _ _ _ (i_ns _ _ _ _ _ _ _ (proj1 Hv)) Hl Hview) as (_ & _ & Hrc' & _). rewrite Hrc in Hrc'.
  pose proof (i_refs _ _ _ _ _ _ _ (proj1 Hv) id) as Hrefs. rewrite <- Hrc' in Hrefs. destruct Hrefs as (l & Hnd & Hin & ->).
  exists l. split; [done|]. split; [|done]. intros e. by rewrite Hiff, Hin.
Qed.

(** The bytes an entry's name column leads to are unchanged. *)
Lemma remap_bytes e id :
  alive v e -> getN e (c_name_id (entries v)) = Some id ->
  exists id', getN e c = Some id' /\ raw_bytes ns id' = raw_bytes (names v) id /\ folded_bytes_of ns id' = folded_bytes_of (names v) id.
Proof.
  intros Ha Hid. destruct (remap_entry_view e id (same_key_alive _ _ _ Ha Hid)) as (id' & Hr & _ & Hl & Hview).
  destruct (view_fields _ _ _ _ (i_ns _ _ _ _ _ _ _ (proj1 Hv)) Hl Hview) as (E1 & E2 & _). exists id'. split; [|done].
  destruct Hc as [_ Hg]. rewrite Hg, decide_True by (split; [done|set_solver]). rewrite Hid. done.
Qed.

Lemma vol_inv_remap : vol_inv (with_ids c (with_names ns v)) hole.
Proof.
  pose proof Hv as [I HP]. destruct Hpost as (Hok & Ho & _). split; [|done].
  pose proof chains_remap as Hch. pose proof refs_remap as Hrf. pose proof (proj1 Hc) as Hl.
  assert (I2 : Inv (with_ids c (with_names ns v)) (fun e => same_key v e ≫= fun id => getN id remap) (child_key v) (dirkey v) (fun _ => 0) None hole).
  { destruct I. split; try done. unfold cols_ok, cap in *. simpl. naive_solver. }
  eapply Inv_ext; [exact I2| |done| |done].
  - intros e. by apply same_key_remap.
  - intros e. unfold dirkey. change (scope_dir (with_ids c (with_names ns v)) e) with (scope_dir v e).
    destruct (scope_dir v e) eqn:Hs; [|done]. simpl. destruct (getN e (c_parent (entries v))); [|done]. simpl.
    assert (Ha : alive v e).
    { unfold scope_dir in Hs. unfold alive, live_e. destruct (getN e (c_flags (entries v))); [|done]. by simpl_cmp. }
    destruct (alive_cols _ _ _ _ _ _ _ _ I Ha) as (_ & _ & id & _ & _ & _ & _ & _ & _ & Eid & _).
    destruct (remap_bytes e id Ha Eid) as (id' & -> & _ & E). rewrite Eid. simpl. by rewrite E.
Qed.

Lemma abs_remap e : abs (with_ids c (with_names ns v)) e = abs v e.
Proof.
  unfold abs. change (alive (with_ids c (with_names ns v)) e) with (alive v e). destruct (decide (alive v e)) as [Ha|]; [|done]. simpl.
  destruct (alive_cols _ _ _ _ _ _ _ _ (proj1 Hv) Ha) as (f & p & id & _ & _ & _ & _ & -> & -> & Eid & _). simpl.
  destruct (remap_bytes e id Ha Eid) as (id' & -> & E & _). rewrite Eid. simpl. by rewrite E.
Qed.
End remap.

Lemma elem_of_slot_ids v e : e ∈ slot_ids v <-> e < cap v.
Proof.
  unfold slot_ids, fuel_of, capacity, cap. rewrite list_elem_of_fmap. split.
  - intros (n & -> & Hn%elem_of_seq). lia.
  - intros He. exists (N.to_nat e). split; [lia|]. apply elem_of_seq. lia.
Qed.

Lemma NoDup_slot_ids v : NoDup (slot_ids v).
Proof. apply NoDup_fmap_2; [intros a b E; lia|]. apply NoDup_seq. Qed.

Lemma wp_apply_compaction v hole plan Q :
  vol_inv v hole -> plan_compact (names v) = Some plan ->
  (forall v', vol_inv v' hole -> (forall e, abs v' e = abs v e) -> frame_vol v v' -> cycle_suspects v' = cycle_suspects v ->
     by_frn v' = by_frn v -> garbage (names v') = 0 -> Q tt v') ->
  wp (apply_compaction plan) Q v.
Proof.
  intros Hv Hplan HQ. pose proof Hv as [I _].
  destruct (compaction_spec _ (i_ns _ _ _ _ _ _ _ I) (i_order _ _ _ _ _ _ _ I)) as (plan' & remap & ns & E & E' & Hpost). simplify_eq.
  unfold apply_compaction. apply wp_bind, wp_zoom, wp_run. exists remap, ns. split; [done|]. apply wp_bind, wp_get.
  pose proof (i_cols _ _ _ _ _ _ _ I) as Hcols.
  assert (Hgo : wp (st_for (remap_entry remap) (slot_ids v)) Q (with_ids (c_name_id (entries v)) (with_names ns v))).
  { eapply (wp_remap_loop (with_names ns v)); [done| | |apply NoDup_slot_ids| |].
    - intros e id Ha Hid. destruct (remap_entry_view v hole remap ns Hv Hpost e id) as (id' & -> & _); [by apply same_key_alive|done].
    - intros e He. by apply elem_of_slot_ids in He.
    - split; [unfold cols_ok, cap in *; simpl; lia|]. intros e. case_decide as Hd; [|done]. destruct Hd as [Ha Hni].
      exfalso. apply Hni, elem_of_slot_ids. by eapply alive_lt.
    - intros c' Hc'. apply HQ.
      + by eapply vol_inv_remap.
      + intros e. by eapply abs_remap.
      + by split.
      + done.
      + done.
      + apply Hpost. }
  by destruct v as [[] ? ? ? ? ? ? ? ? ?].
Qed.
End compact.
