(* ===== verification/VolumeLinks.v ===== *)
(** Hard links: [set_chain_links], [reconcile_links], [add_link] and
    [set_stat] of [crates/goz-core/src/index/volume.rs] keep the invariant and
    leave the chain of the file exactly as asked. *)

From stdpp Require Import gmap.
From stdpp Require Import base option list sets.
From Stdlib Require Import NArith ZArith Lia.
From S2P Require Import Prelude Types Wtf8 UsnRecord UsnOps LayoutParse Fold FrnMap NameStore NameOrder EntryTable Chain Volume VolumeInv VolumeOps VolumeEdit VolumeUpsert VolumeBatch.

Section loops.
Context {U : Unicode} {H : Hasher}.
Implicit Types (v w : VolumeIndex).

(** ** Reading a chain *)

Lemma wp_links_loop l : forall fuel cur w Q,
  (length l <= fuel)%nat -> nseg (c_next_link (entries w)) cur l -> Q l w -> wp (links_loop fuel cur) Q w.
Proof.
  induction l as [|x l IH]; intros fuel cur w Q Hfuel Hs HQ.
  { simpl in Hs. subst cur. destruct fuel; simpl; by apply wp_ret. }
  destruct fuel as [|fuel]; [simpl in Hfuel; lia|]. simpl in Hs. destruct Hs as (-> & HxN & n & Hn & Hs).
  cbn [links_loop]. rewrite (proj2 (N.eqb_neq _ _) HxN). apply wp_bind. wp_get_col. apply wp_bind.
  eapply IH; [simpl in Hfuel; lia|exact Hs|]. by apply wp_ret.
Qed.

Lemma wp_raw_name w id nm Q : raw_bytes (names w) id = Some nm -> Q nm w -> wp (raw_name id) Q w.
Proof. intros E HQ. unfold raw_name. by eapply wp_nam_read. Qed.

Lemma wp_find_existing current : forall pos used par name w Q,
  length used = length current -> (forall e, e ∈ current -> exists a, abs w e = Some a) ->
  (forall o, (forall p, o = Some p -> exists i e a, p = (pos + i)%nat /\ current !! i = Some e /\ used !! i = Some false /\
       abs w e = Some a /\ a_parent a = par /\ a_name a = name) ->
     (o = None -> forall i e a, current !! i = Some e -> used !! i = Some false -> abs w e = Some a ->
       a_parent a = par -> a_name a <> name) -> Q o w) ->
  wp (find_existing pos current used par name) Q w.
Proof.
  induction current as [|e current IH]; intros pos used par name w Q Hlen Hal HQ.
  { destruct used; [|done]. apply wp_ret, HQ; [done|]. intros _ i e a. by rewrite lookup_nil. }
  destruct used as [|u used]; [done|]. simpl in Hlen. cbn [find_existing]. apply wp_bind.
  destruct (Hal e) as [a Ha]; [left|]. pose proof (abs_inv _ _ _ Ha) as (_ & _ & Ep & _ & _ & id & Eid & Enm).
  assert (Hrest : (u = true \/ a_parent a <> par \/ a_name a <> name) ->
    wp (find_existing (S pos) current used par name) Q w).
  { intros Hu. apply IH; [lia|intros x Hx; apply Hal; by right|]. intros o H1 H2. apply HQ.
    - intros p Hp. destruct (H1 p Hp) as (i & e' & a' & -> & ? & ? & ?). exists (S i), e', a'. split; [lia|]. done.
    - intros Ho i e' a' Hi Hui Ha' Hpar. destruct i as [|i]; simpl in *; [|by eapply (H2 Ho i e' a')]. simplify_eq. naive_solver. }
  destruct u; [apply wp_ret; auto|]. apply wp_bind. wp_get_col.
  destruct (N.eqb_spec (a_parent a) par) as [Hp|Hp]; [|apply wp_ret; auto].
  apply wp_bind. wp_get_col. apply wp_bind. eapply wp_raw_name; [exact Enm|]. apply wp_ret. case_bool_decide as Hn; [|auto].
  apply wp_ret, HQ; [|done]. intros ? [= <-]. exists 0%nat, e, a. split; [lia|]. done.
Qed.

(** ** Adding an entry to a chain under change *)

Lemma wp_new_link {A} w f par name fl sz mt k (c : N -> ST VolumeIndex A) Q :
  vol_inv w (Some (record_number f)) -> space w (k + 1) -> small_name name -> contains fl TOMBSTONE = false -> alive w par ->
  (forall idx w', inserted idx {| a_frn := f; a_parent := par; a_name := name; a_flags := fl; a_size := sz; a_mtime := mt; a_next := NIL |} w w' ->
     vol_inv w' (Some (record_number f)) -> space w' k -> wp (c idx) Q w') ->
  wp (idx <- new_entry f par name fl sz mt ;; dir_index_insert idx ;;; bump_dirty ;;; c idx) Q w.
Proof.
  intros Hw Hsp Hsm Hfl Hpar HQ. apply wp_bind. eapply wp_new_entry; [exact Hw|done..|].
  intros idx w1 Hins I1 HP1 Hsp1. apply wp_bind. eapply wp_dir_insert_settle; [exact I1|exact HP1| |].
  { apply (in_alive _ _ _ _ Hins). by left. }
  intros m Hw2. apply wp_bind, wp_modify. apply HQ.
  - destruct Hins as [[] ? ? ? ? ? ? ?]. by split.
  - by apply vol_inv_dirty.
  - destruct Hsp1. by split.
Qed.

(** ** Removing the unmatched *)

Lemma wp_remove_unused current : forall used f w Q,
  length used = length current -> NoDup current -> vol_inv w (Some (record_number f)) ->
  (forall e, e ∈ current -> alive w e /\ e <> lost_found w /\ getN e (c_frn (entries w)) = Some f) ->
  (forall gone w', (forall e, e ∈ gone <-> exists i, current !! i = Some e /\ used !! i = Some false) ->
     removed gone w w' -> vol_inv w' (Some (record_number f)) -> by_frn w' = by_frn w -> Q tt w') ->
  wp (remove_unused current used) Q w.
Proof.
  induction current as [|x current IH]; intros used f w Q Hlen Hnd Hw Hin HQ.
  { destruct used; [|done]. apply wp_ret, (HQ []); [|apply removed_refl|done|done].
    intros e. split; [by intros ?%not_elem_of_nil|intros (i & Hi & _); by rewrite lookup_nil in Hi]. }
  destruct used as [|u used]; [done|]. simpl in Hlen. apply NoDup_cons in Hnd as [Hx Hnd]. cbn [remove_unused]. apply wp_bind.
  assert (Hcons : forall gone : list N, (forall e, e ∈ gone <-> exists i, current !! i = Some e /\ used !! i = Some false) ->
    forall e, (exists i, (x :: current) !! i = Some e /\ (u :: used) !! i = Some false) <-> (e = x /\ u = false) \/ e ∈ gone).
  { intros gone Hg e. rewrite Hg. split.
    - intros ([|i] & Hi & Hu); simpl in *; [left; naive_solver|right; eauto].
    - intros [[-> ->]|(i & ? & ?)]; [by exists 0%nat|by exists (S i)]. }
  apply wp_when; intros Hu.
  - destruct u; [done|]. destruct (Hin x) as (Ha & Hlf & Hf); [left|].
    eapply wp_remove_entry; [exact Hw|done..|]. intros w1 Hw1 R1 Em1 _.
    eapply (IH used f); [lia|done|exact Hw1| |].
    + intros e He. destruct (Hin e) as (A1 & A2 & A3); [by right|]. rewrite (rm_alive _ _ _ R1), (fv_lf _ _ (rm_frame _ _ _ R1)), (rm_frn _ _ _ R1).
      split_and!; try done. set_solver.
    + intros gone w2 Hg R2 Hw2 Em2. eapply (HQ ([x] ++ gone)); [|eapply removed_trans; [|exact R1|exact R2]|done|congruence].
      * intros e. rewrite (Hcons gone Hg). set_solver.
      * intros Hl%Hg. destruct Hl as (i & Hi & _). destruct (Hin (lost_found w)) as (_ & ? & _); [|done].
        right. by eapply list_elem_of_lookup_2.
  - destruct u; [|done]. eapply (IH used f); [lia|done|exact Hw| |].
    + intros e He. apply Hin. by right.
    + intros gone w2 Hg R2 Hw2 Em2. eapply (HQ gone); try done. intros e. rewrite (Hcons gone Hg). naive_solver.
Qed.

(** ** Relinking *)

Definition relinked (nl : list N) w : VolumeIndex := with_entries (with_next_link nl (entries w)) w.

Lemma relink_spec ks : forall w,
  NoDup ks -> (forall e, e ∈ ks -> e < len (c_next_link (entries w)) /\ e <> NIL) ->
  exists nl, relink ks w = Some (tt, relinked nl w) /\ len nl = len (c_next_link (entries w)) /\
    (forall e, e ∉ ks -> getN e nl = getN e (c_next_link (entries w))) /\
    nseg nl (match ks with e :: _ => e | [] => NIL end) ks.
Proof.
  induction ks as [|e ks IH]; intros w Hnd Hlt.
  { exists (c_next_link (entries w)). split_and!; try done. by destruct w as [[] ? ? ? ? ? ? ? ? ?]. }
  apply NoDup_cons in Hnd as [Hni Hnd]. destruct (Hlt e) as [He HeN]; [left|]. set (next := match ks with n :: _ => n | [] => NIL end).
  set (w1 := relinked (<[N.to_nat e := next]> (c_next_link (entries w))) w).
  destruct (IH w1 Hnd) as (nl & E & Hl & Hout & Hs).
  { intros x Hx. simpl. rewrite len_insert. apply Hlt. by right. }
  exists nl. split_and!.
  - assert (Hstep : ent (set_next_link e next) w = Some (tt, w1)).
    { unfold ent, st_zoom, set_next_link, st_update. by rewrite setN_some. }
    cbn [relink]. fold next. unfold st_bind. rewrite Hstep, E. done.
  - rewrite Hl. simpl. by rewrite len_insert.
  - intros x [Hxe Hx]%not_elem_of_cons. rewrite Hout by done. simpl. rewrite getN_insert, decide_False by (done || congruence). done.
  - simpl. split; [done|]. split; [done|]. exists next. split; [|exact Hs]. rewrite Hout by done. simpl.
    by rewrite getN_insert, decide_True by done.
Qed.
End loops.

(** ** Matching the links asked for *)

Section matching.
Context {U : Unicode} {H : Hasher}.
Implicit Types (v w : VolumeIndex).

(** An entry with the parent and name of a target. *)
Definition matches w (tp : LinkTarget * N) (e : N) : Prop :=
  exists a, abs w e = Some a /\ a_parent a = tp.2 /\ a_name a = wbytes (tname tp.1).

(** The state of the matching loop: [tgts] are done, by [ks]. *)
Record matching (f : N) (current : list N) (used : list bool) (ks : list N) (tgts : list (LinkTarget * N)) w : Prop := {
  mt_inv : vol_inv w (Some (record_number f));
  mt_len : length used = length current;
  mt_cur : NoDup current;
  mt_nodup : NoDup ks;
  mt_rec e : of_record w (record_number f) e <-> e ∈ current \/ e ∈ ks;
  mt_frn e : of_record w (record_number f) e -> getN e (c_frn (entries w)) = Some f;
  mt_used i e : current !! i = Some e -> (e ∈ ks <-> used !! i = Some true);
  mt_links : Forall2 (matches w) tgts ks
}.

Lemma matching_hit f current used ks tgts w i e tp :
  matching f current used ks tgts w -> current !! i = Some e -> used !! i = Some false -> matches w tp e ->
  matching f current (<[i := true]> used) (ks ++ [e]) (tgts ++ [tp]) w.
Proof.
  intros [M1 M2 M3 M4 M5 M6 M7 M8] Hi Hu Hm. assert (Hni : e ∉ ks) by (rewrite (M7 i e Hi); congruence).
  assert (Hlt : (i < length used)%nat) by (by eapply lookup_lt_Some). split; try done.
  - by rewrite length_insert.
  - apply NoDup_app. split_and!; [done|set_solver|apply NoDup_singleton].
  - intros x. rewrite M5. split; [set_solver|]. intros [?|[?| ->%list_elem_of_singleton]%elem_of_app]; [auto|auto|].
    left. by eapply list_elem_of_lookup_2.
  - intros j x Hj. rewrite elem_of_app, list_elem_of_singleton. destruct (decide (j = i)) as [->|Hne].
    + rewrite list_lookup_insert_eq by done. simplify_eq. split; auto.
    + rewrite list_lookup_insert_ne by done. rewrite (M7 j x Hj). split; [|auto]. intros [?| ->]; [done|].
      destruct Hne. by eapply (NoDup_lookup current).
  - apply Forall2_app; [done|]. by constructor.
Qed.

Lemma matching_new f current used ks tgts w w' idx a tp :
  matching f current used ks tgts w -> inserted idx a w w' -> vol_inv w' (Some (record_number f)) ->
  a_frn a = f -> a_parent a = tp.2 -> a_name a = wbytes (tname tp.1) ->
  matching f current used (ks ++ [idx]) (tgts ++ [tp]) w'.
Proof.
  intros [M1 M2 M3 M4 M5 M6 M7 M8] Hins Hw' Hf Hp Hn. pose proof (in_abs _ _ _ _ Hins) as Habs.
  assert (Hold : forall e, of_record w (record_number f) e -> e <> idx) by (intros e (Ha & _) ->; by apply (in_free _ _ _ _ Hins)).
  assert (Hrec : forall e, of_record w' (record_number f) e <-> of_record w (record_number f) e \/ e = idx).
  { intros e. rewrite (of_record_abs _ _ _ _ Hw'), (of_record_abs _ _ _ _ M1), Habs, (fv_lf _ _ (in_frame _ _ _ _ Hins)).
    case_decide; [|naive_solver]. subst. split; [auto|]. intros _. split; [|eauto].
    intros ->. apply (in_free _ _ _ _ Hins), (i_lf _ _ _ _ _ _ _ (proj1 M1)). }
  assert (Hks : idx ∉ ks) by (intros Hin; apply (Hold idx); [apply M5; auto|done]).
  assert (Hcur : idx ∉ current) by (intros Hin; apply (Hold idx); [apply M5; auto|done]).
  split; try done.
  - apply NoDup_app. split_and!; [done|set_solver|apply NoDup_singleton].
  - intros e. rewrite Hrec, M5. set_solver.
  - intros e [He| ->]%Hrec.
    + rewrite (in_frn _ _ _ _ Hins) by auto. auto.
    + pose proof (Habs idx) as Hi. rewrite decide_True in Hi by done. apply abs_inv in Hi as (_ & ? & _). by rewrite <- Hf.
  - intros j x Hj. rewrite elem_of_app, list_elem_of_singleton, <- (M7 j x Hj). split; [|auto]. intros [?| ->]; [done|].
    destruct Hcur. by eapply list_elem_of_lookup_2.
  - apply Forall2_app.
    + eapply Forall2_impl; [exact M8|]. intros t e (b & Hb & ?). exists b. split; [|done]. rewrite Habs, decide_False; [done|].
      intros ->. apply abs_inv in Hb as (? & _). by apply (in_free _ _ _ _ Hins).
    + constructor; [|done]. exists a. rewrite Habs, decide_True by done. done.
Qed.

Lemma wp_match_links f is_dir sz mt current targets : forall used ks tgts w k Q,
  matching f current used ks tgts w -> (forall tp, tp ∈ targets -> alive w tp.2 /\ small_name (wbytes (tname tp.1))) ->
  space w (k + len targets) ->
  (forall used' ks' w', matching f current used' ks' (tgts ++ targets) w' -> kept [record_number f] w w' ->
     (forall e, alive w e -> abs w' e = abs w e /\ alive w' e) -> space w' k -> Q (used', ks') w') ->
  wp (match_links f is_dir sz mt current targets used ks) Q w.
Proof.
  induction targets as [|[t par] targets IH]; intros used ks tgts w k Q M Htg Hsp HQ; cbn [match_links].
  { apply wp_ret, HQ; [by rewrite app_nil_r|apply kept_refl|done|]. by rewrite N.add_0_r in Hsp. }
  destruct (Htg (t, par)) as [Hpar Hsm]; [left|]. simpl in Hpar, Hsm. pose proof (mt_inv _ _ _ _ _ _ M) as Hw.
  apply wp_bind. eapply wp_find_existing; [apply (mt_len _ _ _ _ _ _ M)| |].
  { intros e He. eapply abs_total; [exact Hw|]. assert (of_record w (record_number f) e) as (? & _) by (apply (mt_rec _ _ _ _ _ _ M); auto). done. }
  intros o Hhit _. destruct o as [p|].
  - destruct (Hhit p eq_refl) as (i & e & a & -> & Hi & Hu & Ha & Hp & Hn). simpl. rewrite Hi.
    eapply (IH _ _ (tgts ++ [(t, par)]) w k); [eapply matching_hit; [exact M|done|done|by exists a]| | |].
    + intros tp Htp. apply Htg. by right.
    + eapply space_le; [exact Hsp|]. rewrite len_cons. lia.
    + rewrite <- app_assoc. exact HQ.
  - set (fl := with_flag _ _ _). change fl with (fresh_flags (wlossy (tname t)) is_dir).
    eapply (wp_new_link w f par _ _ _ _ (k + len targets)); [exact Hw| |exact Hsm|apply fresh_flags_spec|exact Hpar|].
    { eapply space_le; [exact Hsp|]. rewrite len_cons. lia. }
    intros idx w1 Hins Hw1 Hsp1.
    assert (Hold : forall e, alive w e -> abs w1 e = abs w e /\ alive w1 e).
    { intros e Ha. rewrite (in_abs _ _ _ _ Hins), (in_alive _ _ _ _ Hins), decide_False; [auto|]. intros ->. by apply (in_free _ _ _ _ Hins). }
    eapply (IH _ _ (tgts ++ [(t, par)]) w1 k); [eapply matching_new; [exact M|exact Hins|done..]| |exact Hsp1|].
    + intros tp Htp. destruct (Htg tp) as [? ?]; [by right|]. split; [|done]. by apply Hold.
    + intros used' ks' w' M' K' Hold' Hsp'. apply HQ; [by rewrite <- app_assoc in M'| | |done].
      * eapply kept_trans; [exact Hw|exact Hw1|apply (inserted_kept _ _ _ _ _ Hw Hins)|exact K'].
      * intros e Ha. destruct (Hold e Ha) as [E1 A1], (Hold' e A1) as [E2 A2]. split; [congruence|done].
Qed.
End matching.

(** ** The whole reconciliation of a chain *)

Section set_chain.
Context {U : Unicode} {H : Hasher}.
Implicit Types (v w : VolumeIndex).

(** Where a link asked for under [p] can go. *)
Definition link_home v (p : N) : N := if decide (alive v p) then p else lost_found v.

Lemma wp_is_tombstone v e Q : e < len (c_flags (entries v)) -> Q (bool_decide (~ alive v e)) v -> wp (ent (is_tombstone e)) Q v.
Proof.
  intros Hlt HQ. destruct (getN_is_Some e (c_flags (entries v)) Hlt) as [fl Hfl].
  apply wp_zoom. unfold is_tombstone. apply wp_bind. eapply wp_read; [exact Hfl|]. apply wp_ret. rewrite with_entries_id.
  replace (contains fl TOMBSTONE) with (bool_decide (~ alive v e)); [done|].
  assert (Ha : alive v e <-> contains fl TOMBSTONE = false) by (unfold alive, live_e; by rewrite Hfl).
  case_bool_decide as E; destruct (contains fl TOMBSTONE); naive_solver.
Qed.

Lemma wp_link_parents v desired Q :
  (forall t, t ∈ desired -> tparent t < len (c_flags (entries v))) ->
  Q ((fun t => link_home v (tparent t)) <$> desired) v ->
  wp (st_map (fun t => dead <- ent (is_tombstone (tparent t)) ;; lf <- st_get lost_found ;;
                       st_ret (if dead : bool then lf else tparent t)) desired) Q v.
Proof.
  revert Q. induction desired as [|t desired IH]; intros Q Hlt HQ; simpl; [by apply wp_ret|].
  apply wp_bind, wp_bind, wp_is_tombstone; [apply Hlt; left|]. apply wp_bind, wp_get, wp_ret, wp_bind, IH.
  { intros x Hx. apply Hlt. by right. }
  apply wp_ret. simpl in HQ. unfold link_home in HQ at 1. case_bool_decide as Hd.
  - by rewrite decide_False in HQ.
  - destruct (decide (alive v (tparent t))); [done|tauto].
Qed.

Lemma link_home_alive v hole p : vol_inv v hole -> alive v (link_home v p).
Proof. intros Hv. unfold link_home. case_decide; [done|]. apply (i_lf _ _ _ _ _ _ _ (proj1 Hv)). Qed.

(** The chain the reconciliation starts from. *)
Lemma wp_current_chain v f k Q :
  vol_ok v -> space v k ->
  (forall current v', vol_ok v' -> kept [record_number f] v v' -> NoDup current ->
     (forall e, e ∈ current <-> of_record v' (record_number f) e) ->
     (forall e, e ∈ current -> getN e (c_frn (entries v')) = Some f) -> cap v' = cap v -> space v' k -> Q current v') ->
  wp (o <- frn_get (record_number f) ;;
      match o with
      | None => st_ret []
      | Some head => hf <- ent (EntryTable.frn head) ;;
          if hf =? f then links_from head else reclaim_stale_slot (record_number f) head ;;; st_ret []
      end) Q v.
Proof.
  intros Hv Hsp HQ. apply wp_bind, wp_get. destruct (FrnMap.get (by_frn v) (record_number f)) as [h|] eqn:Hg.
  - destruct (links_found _ _ _ Hv Hg) as (l & f' & Hs & Hnd & Hr & Hin & Hfr). pose proof (Hfr h ltac:(left)) as Hf'.
    apply wp_bind. wp_get_col. destruct (N.eqb_spec f' f) as [->|Hne].
    + unfold links_from. apply wp_bind, wp_get. eapply wp_links_loop; [|exact Hs|].
      * eapply chain_fuel; [apply Hv|done|]. intros e He%Hin. apply He.
      * by apply HQ; [|apply kept_refl|..].
    + apply wp_bind. eapply wp_reclaim; [exact Hv|exact Hg|]. intros v1 Hv1 K1 Hno Hsp1 _ Hcap. apply wp_ret, HQ; try done.
      * constructor.
      * intros e. split; [by intros ?%not_elem_of_nil|by intros ?%Hno].
      * by intros e ?%not_elem_of_nil.
      * by apply Hsp1.
  - pose proof (links_absent _ _ Hv Hg) as Hno. apply wp_ret, HQ; try done; [apply kept_refl|constructor| |].
    + intros e. split; [by intros ?%not_elem_of_nil|by intros ?%Hno].
    + by intros e ?%not_elem_of_nil.
Qed.

Definition set_a_next (n : N) (a : AEntry) : AEntry :=
  {| a_frn := a_frn a; a_parent := a_parent a; a_name := a_name a; a_flags := a_flags a; a_size := a_size a;
     a_mtime := a_mtime a; a_next := n |}.

Lemma abs_relinked nl w e a :
  abs w e = Some a -> len nl = len (c_next_link (entries w)) ->
  exists n, getN e nl = Some n /\ abs (relinked nl w) e = Some (set_a_next n a).
Proof.
  intros Ha Hl. destruct (abs_inv _ _ _ Ha) as (Hal & _ & _ & _ & Hn & _). pose proof (getN_lt _ _ _ Hn) as Hlt.
  destruct (getN_is_Some e nl) as [n Hn']; [lia|]. exists n. split; [done|].
  unfold abs in *. change (alive (relinked nl w) e) with (alive w e). rewrite decide_True in * by done. simpl.
  repeat (apply bind_Some in Ha as (? & E & Ha); rewrite E; simpl; clear E). apply bind_Some in Ha as (? & _ & Ha). simplify_eq. by rewrite Hn'.
Qed.

(** The entry of a link asked for: its name, and its parent if that is a live
    entry of another record, otherwise possibly lost+found. *)
Definition link_done v f v' (t : LinkTarget) (e : N) : Prop :=
  exists a, abs v' e = Some a /\ a_name a = wbytes (tname t) /\
    (a_parent a = lost_found v \/ a_parent a = tparent t) /\
    (alive v (tparent t) -> ~ of_record v (record_number f) (tparent t) -> a_parent a = tparent t).

(** The chain of the file's record is these entries, in this order: the map
    leads to the first, and each to the next. *)
Definition chained v f (ks : list N) : Prop :=
  match ks with
  | [] => True
  | h :: _ => FrnMap.get (by_frn v) (record_number f) = Some h /\ nseg (c_next_link (entries v)) h ks
  end.

Definition chain_post v f desired v' : Prop :=
  vol_ok v' /\ kept [record_number f] v v' /\
  exists ks, NoDup ks /\ (forall e, link_of v' f e <-> e ∈ ks) /\ chained v' f ks /\ Forall2 (link_done v f v') desired ks.

(** After the unmatched entries are removed, the record's entries are [ks]. *)
Lemma matched_record f current used ks tgts w gone w2 :
  matching f current used ks tgts w ->
  (forall e, e ∈ gone <-> exists i, current !! i = Some e /\ used !! i = Some false) -> removed gone w w2 ->
  (forall e, e ∈ ks -> e ∉ gone) /\ (forall e, of_record w2 (record_number f) e <-> e ∈ ks) /\
  (forall e, e ∈ gone -> of_record w (record_number f) e).
Proof.
  intros [M1 M2 M3 M4 M5 M6 M7 M8] Hg R.
  assert (Hks : forall e, e ∈ ks -> e ∉ gone).
  { intros e He (i & Hi & Hu)%Hg. apply (M7 i e Hi) in He. congruence. }
  assert (Hgr : forall e, e ∈ gone -> of_record w (record_number f) e).
  { intros e (i & Hi & _)%Hg. apply M5. left. by eapply list_elem_of_lookup_2. }
  assert (Hrec : forall e, of_record w2 (record_number f) e <-> of_record w (record_number f) e /\ e ∉ gone).
  { intros e. unfold of_record, has_record. rewrite (fv_lf _ _ (rm_frame _ _ _ R)), (rm_frn _ _ _ R).
    change (live_e (c_flags (entries w2)) e) with (alive w2 e). rewrite (rm_alive _ _ _ R). unfold alive. naive_solver. }
  split; [done|]. split; [|done]. intros e. rewrite Hrec, M5. split.
  - intros [[He|He] Hn]; [|done]. apply list_elem_of_lookup_1 in He as [i Hi]. apply (M7 i e Hi).
    assert (Hlt : (i < length used)%nat) by (rewrite M2; by eapply lookup_lt_Some).
    destruct (used !! i) as [[]|] eqn:Hu; [done| |apply lookup_ge_None in Hu; lia]. destruct Hn. apply Hg. eauto.
  - intros He. split; [auto|by apply Hks].
Qed.

Lemma Forall2_impl_elem {A B} (P P' : A -> B -> Prop) l k :
  Forall2 P l k -> (forall x y, y ∈ k -> P x y -> P' x y) -> Forall2 P' l k.
Proof.
  intros Hl. induction Hl as [|x y l k Hxy Hl IH]; intros Himp; constructor.
  - apply Himp; [left|done].
  - apply IH. intros. apply Himp; [by right|done].
Qed.

Lemma kept_relinked f (ks : list N) nl w :
  (forall e, e ∈ ks -> of_record w (record_number f) e) -> len nl = len (c_next_link (entries w)) ->
  (forall e, e ∉ ks -> getN e nl = getN e (c_next_link (entries w))) -> vol_inv w (Some (record_number f)) ->
  kept [record_number f] w (relinked nl w).
Proof.
  intros Hks Hl Hout Hw. split.
  - by split.
  - intros e a Ha Hn. exists (a_parent a). rewrite set_a_parent_id. split; [|auto].
    destruct (abs_relinked nl w e a Ha Hl) as (n & Hn' & ->). rewrite Hout in Hn'.
    + apply abs_inv in Ha as (_ & _ & _ & _ & Hn'' & _). rewrite Hn'' in Hn'. simplify_eq. by destruct a.
    + intros He. apply Hn. apply Hks, (of_record_abs _ _ _ _ Hw) in He as (? & b & ? & <-). split; [done|]. exists b. split; [done|left].
  - intros e a' Ha'. left. assert (Hal : alive w e) by (by apply abs_inv in Ha' as [? _]).
    destruct (abs_total _ _ _ Hw Hal) as [a Ha]. destruct (abs_relinked nl w e a Ha Hl) as (n & _ & E). exists a. split; [done|]. by simplify_eq.
Qed.

(** Removing, relinking and repointing the map after the matching. *)
Lemma wp_finish_chain f current used ks tgts w Q :
  matching f current used ks tgts w -> ks <> [] -> (forall e, e ∈ current -> of_record w (record_number f) e) ->
  (forall v', vol_ok v' -> kept [record_number f] w v' -> (forall e, link_of v' f e <-> e ∈ ks) -> chained v' f ks ->
     Forall2 (fun tp e => exists a, abs v' e = Some a /\ a_name a = wbytes (tname tp.1) /\
       (a_parent a = tp.2 \/ a_parent a = lost_found w /\ of_record w (record_number f) tp.2)) tgts ks ->
     (forall k, space w k -> space v' k) -> Q tt v') ->
  wp (remove_unused current used ;;; relink ks ;;;
      match ks with [] => st_fail | e :: _ => frn_set (record_number f) e end) Q w.
Proof.
  intros M Hne Hcur HQ. pose proof (mt_inv _ _ _ _ _ _ M) as Hw. apply wp_bind.
  assert (Hin : forall e, of_record w (record_number f) e -> alive w e /\ e <> lost_found w /\ getN e (c_frn (entries w)) = Some f).
  { intros e He. split; [apply He|]. split; [apply He|by apply (mt_frn _ _ _ _ _ _ M)]. }
  eapply wp_remove_unused; [apply (mt_len _ _ _ _ _ _ M)|apply (mt_cur _ _ _ _ _ _ M)|exact Hw|auto|].
  intros gone w2 Hg R Hw2 Em. destruct (matched_record _ _ _ _ _ _ _ _ M Hg R) as (Hks & Hrec & Hgr).
  pose proof (i_cols _ _ _ _ _ _ _ (proj1 Hw2)) as Hc. unfold cols_ok in Hc.
  assert (Hlt : forall e, e ∈ ks -> e < len (c_next_link (entries w2)) /\ e <> NIL).
  { intros e (Ha & _)%Hrec. pose proof (alive_lt _ _ _ _ _ _ _ e (proj1 Hw2) Ha). unfold cap in *. lia. }
  destruct (relink_spec ks w2 (mt_nodup _ _ _ _ _ _ M) Hlt) as (nl & E & Hl & Hout & Hs).
  apply wp_bind, wp_run. exists tt, (relinked nl w2). split; [exact E|].
  assert (I3 : vol_inv (relinked nl w2) (Some (record_number f))).
  { destruct Hw2 as [I2 HP2]. split; [|done]. apply Inv_next_link; [done|unfold cap; lia|]. intros e Hn. apply Hout. by rewrite <- Hrec. }
  destruct ks as [|h ks'] eqn:Eks; [done|]. rewrite <- Eks in *. apply wp_modify.
  assert (Hfr : forall e, e ∈ ks -> getN e (c_frn (entries w2)) = Some f).
  { intros e He. rewrite (rm_frn _ _ _ R). apply (mt_frn _ _ _ _ _ _ M), (mt_rec _ _ _ _ _ _ M). auto. }
  assert (Hv : vol_ok (with_by_frn (FrnMap.set (record_number f) h (by_frn (relinked nl w2))) (relinked nl w2))).
  { split; [|apply I3]. eapply (Inv_set _ _ _ _ _ _ _ f ks); [apply I3| |apply (mt_nodup _ _ _ _ _ _ M)|done| |exact Hfr].
    - rewrite Eks in Hs |- *. exact Hs.
    - intros e. symmetry. apply Hrec. }
  assert (K : kept [record_number f] w (relinked nl w2)).
  { eapply kept_trans; [exact Hw|exact Hw2|by eapply removed_kept|]. eapply kept_relinked; [by intros e ?%Hrec|done|done|done]. }
  set (v' := with_by_frn _ _) in *. apply HQ; [exact Hv| | | | |].
  - destruct K as [[] K2 K3]. by split.
  - intros e. rewrite <- Hrec. split.
    + intros He. apply (link_of_is_record _ _ _ _ Hv) in He. exact He.
    + intros He. assert (He' : of_record v' (record_number f) e) by exact He.
      apply (of_record_abs _ _ _ _ Hv) in He' as (Hlf & a & Ha & _). split; [done|]. exists a. split; [done|].
      apply Hrec, Hfr in He. apply abs_inv in Ha as (_ & Hf & _). change (getN e (c_frn (entries w2)) = Some (a_frn a)) in Hf. congruence.
  - rewrite Eks in Hs |- *. split; [|exact Hs]. unfold v'. cbn [by_frn with_by_frn]. rewrite get_set; [by rewrite decide_True|].
    apply Hlt. rewrite Eks. left.
  - eapply Forall2_impl_elem; [apply (mt_links _ _ _ _ _ _ M)|]. intros tp e He (a & Ha & Hp & Hn).
    pose proof (rm_abs _ _ _ R e) as Ha2. rewrite decide_False, Ha in Ha2 by auto. simpl in Ha2.
    destruct (abs_relinked nl w2 e _ Ha2 Hl) as (n & _ & Ha3). exists (set_a_next n (reparented gone (lost_found w) a)).
    split; [exact Ha3|]. split; [done|]. simpl. rewrite Hp. case_decide as Hd; [right; split; [done|by apply Hgr]|by left].
  - intros k Hk. destruct (rm_space _ _ _ R k Hk). by split.
Qed.

Lemma matching_start f current w :
  vol_ok w -> NoDup current -> (forall e, e ∈ current <-> of_record w (record_number f) e) ->
  (forall e, e ∈ current -> getN e (c_frn (entries w)) = Some f) ->
  matching f current (replicate (length current) false) [] [] w.
Proof.
  intros Hw Hnd Hin Hf. split; try done.
  - by apply vol_inv_open.
  - by rewrite length_replicate.
  - constructor.
  - intros e. rewrite <- Hin. set_solver.
  - intros e He%Hin. auto.
  - intros i e Hi. split; [by intros ?%not_elem_of_nil|]. intros [? _]%lookup_replicate. done.
Qed.

Lemma wp_chain_stat current w Q :
  (forall e, e ∈ current -> exists a, abs w e = Some a) -> (forall sm, Q sm w) ->
  wp (match current with
      | [] => st_ret (SIZE_UNKNOWN, MTIME_UNKNOWN)
      | e :: _ => sz <- ent (EntryTable.size e) ;; mt <- ent (EntryTable.mtime e) ;; st_ret (sz, mt)
      end) Q w.
Proof.
  intros Hal HQ. destruct current as [|e current]; [by apply wp_ret|]. destruct (Hal e) as [a Ha]; [left|].
  unfold abs in Ha. case_decide; [|done]. repeat (apply bind_Some in Ha as (? & ? & Ha)).
  apply wp_bind. wp_get_col. apply wp_bind. wp_get_col. by apply wp_ret.
Qed.

(** What one target ends with, in terms of the state before the call. *)
Lemma link_done_final v w0 w v' f t e :
  vol_ok v -> vol_ok w0 -> kept [record_number f] v w0 -> kept [record_number f] w0 w ->
  (forall e, alive w0 e -> abs w e = abs w0 e /\ alive w e) -> vol_inv w (Some (record_number f)) ->
  (exists a, abs v' e = Some a /\ a_name a = wbytes (tname t) /\
     (a_parent a = link_home w0 (tparent t) \/ a_parent a = lost_found w /\ of_record w (record_number f) (link_home w0 (tparent t)))) ->
  link_done v f v' t e.
Proof.
  intros Hv Hw0 K0 K1 Hold Hw (a & Ha & Hn & Hp). pose proof (fv_lf _ _ (k_frame _ _ _ K0)) as L0. pose proof (fv_lf _ _ (k_frame _ _ _ K1)) as L1.
  exists a. split; [done|]. split; [done|].
  assert (Hhome : link_home w0 (tparent t) = lost_found v \/ link_home w0 (tparent t) = tparent t).
  { unfold link_home. case_decide; [auto|left; congruence]. }
  split; [destruct Hp as [->|[-> _]]; [destruct Hhome; auto|left; congruence]|].
  intros Hal Hno. destruct (abs_total _ _ _ Hv Hal) as [b Hb].
  assert (Hnt : ~ touched [record_number f] v (tparent t)).
  { intros (Hlf & b' & Hb' & Hin%list_elem_of_singleton). apply Hno, (of_record_abs _ _ _ _ Hv). eauto. }
  destruct (k_entries _ _ _ K0 _ _ Hb Hnt) as (q & Hq & _). assert (Hal0 : alive w0 (tparent t)) by (by apply abs_inv in Hq as [? _]).
  assert (Hh : link_home w0 (tparent t) = tparent t) by (unfold link_home; by rewrite decide_True).
  rewrite Hh in Hp. destruct Hp as [?|[_ Hr]]; [done|]. exfalso.
  apply (of_record_abs _ _ _ _ Hw) in Hr as (Hlf & c & Hc & Hrc). destruct (Hold _ Hal0) as [E _]. rewrite E, Hq in Hc. simplify_eq.
  apply Hnt. split; [congruence|]. exists b. split; [done|]. by apply list_elem_of_singleton.
Qed.

Lemma wp_set_chain_links v f is_dir desired k Q :
  vol_ok v -> desired <> [] -> (forall t, t ∈ desired -> tparent t < cap v /\ small_name (wbytes (tname t))) ->
  space v (k + len desired) -> (forall v', chain_post v f desired v' -> space v' k -> Q tt v') ->
  wp (set_chain_links f is_dir desired) Q v.
Proof.
  intros Hv Hne Htg Hsp HQ.
  assert (Hassoc : forall (a : ST VolumeIndex (option N)) (b : option N -> ST VolumeIndex (list N)) (c : list N -> ST VolumeIndex unit) w,
    wp (x <- a ;; b x) (fun l w' => wp (c l) Q w') w -> wp (x <- a ;; (l <- b x ;; c l)) Q w).
  { intros a b c w. unfold wp, st_bind. destruct (a w) as [[]|]; [|done]. by destruct (b _ _) as [[]|]. }
  unfold set_chain_links. apply Hassoc. clear Hassoc. eapply wp_current_chain; [exact Hv|exact Hsp|].
  intros current w0 Hw0 K0 Hnd Hin Hf Hcap Hsp0. pose proof (i_cols _ _ _ _ _ _ _ (proj1 Hw0)) as Hc. unfold cols_ok, cap in *.
  apply wp_bind, wp_link_parents. { intros t Ht. destruct (Htg t Ht). lia. }
  apply wp_bind, wp_chain_stat. { intros e (Ha & _)%Hin. by eapply abs_total. }
  intros [sz mt]. apply wp_bind. simpl.
  eapply (wp_match_links _ _ _ _ _ _ _ _ [] w0 k); [by apply matching_start| | |].
  { intros [t p] Htp. simpl. apply elem_of_zip_l in Htp as Ht. apply elem_of_zip_r in Htp as Hp.
    apply list_elem_of_fmap in Hp as (t' & -> & _). split; [by eapply link_home_alive|by apply Htg]. }
  { eapply space_le; [exact Hsp0|]. unfold len. rewrite length_zip_with, length_fmap. lia. }
  intros used ks w M K1 Hold Hsp1. simpl in M. cbn [fst snd]. pose proof (mt_links _ _ _ _ _ _ M) as HL.
  eapply wp_finish_chain; [exact M| | |].
  { intros ->. apply Forall2_nil_inv_r in HL. destruct desired; done. }
  { intros e He. apply (mt_rec _ _ _ _ _ _ M). auto. }
  intros v' Hv' K2 Hlinks Hch HF Hsp2. apply HQ; [|by apply Hsp2]. split; [done|].
  pose proof (mt_inv _ _ _ _ _ _ M) as Hw. split.
  { eapply kept_trans; [exact Hv|exact Hw0|exact K0|]. eapply kept_trans; [exact Hw0|exact Hw|exact K1|exact K2]. }
  exists ks. split; [apply (mt_nodup _ _ _ _ _ _ M)|]. split; [done|]. split; [done|]. clear -HF Hv Hw0 K0 K1 Hold Hw.
  revert ks HF. induction desired as [|t desired IH]; intros ks HF; simpl in HF.
  - apply Forall2_nil_inv_l in HF. subst. constructor.
  - apply Forall2_cons_inv_l in HF as (e & ks' & He & HF & ->). constructor; [|by apply IH]. simpl in He.
    by eapply link_done_final.
Qed.
End set_chain.

(** ** Sizes and dates *)

Section stat.
Context {U : Unicode} {H : Hasher}.
Implicit Types (v w : VolumeIndex).

Definition with_stat (sz : list N) (mt : list Z) v : VolumeIndex :=
  with_entries (with_mtime mt (with_size sz (entries v))) v.

Lemma vol_inv_stat v hole sz mt :
  vol_inv v hole -> len sz = cap v -> len mt = cap v -> vol_inv (with_stat sz mt v) hole.
Proof.
  intros [I HP] Hs Hm. split; [|done]. destruct I. split; try done. unfold cols_ok, cap in *. simpl. naive_solver.
Qed.

Lemma wp_stat_loop (b : bool) size mtime l : forall fuel cur v Q,
  (length l <= fuel)%nat -> nseg (c_next_link (entries v)) cur l ->
  (forall e, e ∈ l -> e < len (c_size (entries v)) /\ e < len (c_mtime (entries v))) ->
  (forall sz mt, len sz = len (c_size (entries v)) -> len mt = len (c_mtime (entries v)) ->
     (forall e, getN e sz = if decide (e ∈ l) then (if b then Some size else getN e (c_size (entries v))) else getN e (c_size (entries v))) ->
     (forall e, getN e mt = if decide (e ∈ l) then Some mtime else getN e (c_mtime (entries v))) -> Q tt (with_stat sz mt v)) ->
  wp (links_for fuel (fun cur => st_when b (ent (set_size cur size)) ;;; ent (set_mtime cur mtime)) cur) Q v.
Proof.
  induction l as [|x l IH]; intros fuel cur v Q Hfuel Hs Hlt HQ.
  { simpl in Hs. subst cur. assert (Q tt v); [|destruct fuel; simpl; by apply wp_ret].
    destruct v as [[] ? ? ? ? ? ? ? ? ?]. by apply (HQ c_size c_mtime). }
  destruct fuel as [|fuel]; [simpl in Hfuel; lia|]. simpl in Hs. destruct Hs as (-> & HxN & n & Hn & Hs).
  destruct (Hlt x) as [L1 L2]; [left|]. cbn [links_for]. rewrite (proj2 (N.eqb_neq _ _) HxN). apply wp_bind, wp_bind.
  set (sz1 := if b then <[N.to_nat x := size]> (c_size (entries v)) else c_size (entries v)).
  set (mt1 := <[N.to_nat x := mtime]> (c_mtime (entries v))).
  assert (Lz : len sz1 = len (c_size (entries v))) by (unfold sz1; destruct b; [apply len_insert|done]).
  assert (Lm : len mt1 = len (c_mtime (entries v))) by apply len_insert.
  assert (Hgo : wp (next <- ent (next_link x) ;; links_for fuel (fun cur => st_when b (ent (set_size cur size)) ;;; ent (set_mtime cur mtime)) next)
    Q (with_stat sz1 mt1 v)).
  { apply wp_bind. eapply wp_ent_read; [exact Hn|]. eapply (IH fuel n (with_stat sz1 mt1 v)); [simpl in Hfuel; lia|exact Hs| |].
    - intros e He. simpl. rewrite Lz, Lm. apply Hlt. by right.
    - intros sz mt H1 H2 H3 H4. simpl in *. apply (HQ sz mt); [congruence|congruence| |].
      + intros e. rewrite H3. unfold sz1. destruct b; [|by repeat case_decide]. rewrite getN_insert by done.
        destruct (decide (e ∈ l)), (decide (x = e)), (decide (e ∈ x :: l)); try done; set_solver.
      + intros e. rewrite H4. unfold mt1. rewrite getN_insert by done.
        destruct (decide (e ∈ l)), (decide (x = e)), (decide (e ∈ x :: l)); try done; set_solver. }
  destruct b; cbn [st_when].
  - eapply wp_ent_set; [rewrite setN_some by done; reflexivity|]. eapply wp_ent_set; [simpl; rewrite setN_some by done; reflexivity|].
    exact Hgo.
  - apply wp_ret. eapply wp_ent_set; [rewrite setN_some by done; reflexivity|].
    by destruct v as [[] ? ? ? ? ? ? ? ? ?].
Qed.

(** The entry with the size and date of its file. *)
Definition stat_entry (size : N) (mtime : Z) (is_dir : bool) (a : AEntry) : AEntry :=
  {| a_frn := a_frn a; a_parent := a_parent a; a_name := a_name a; a_flags := a_flags a;
     a_size := if is_dir then a_size a else size; a_mtime := mtime; a_next := a_next a |}.

Definition stat_post v f size mtime v' : Prop :=
  vol_ok v' /\ frame_vol v v' /\ exists is_dir,
    forall e, (link_of v f e -> abs v' e = stat_entry size mtime is_dir <$> abs v e) /\ (~ link_of v f e -> abs v' e = abs v e).

Lemma abs_with_stat v sz mt e s m a :
  abs v e = Some a -> getN e sz = Some s -> getN e mt = Some m ->
  abs (with_stat sz mt v) e = Some {| a_frn := a_frn a; a_parent := a_parent a; a_name := a_name a; a_flags := a_flags a;
    a_size := s; a_mtime := m; a_next := a_next a |}.
Proof.
  intros Ha Hs Hm. unfold abs in *. change (alive (with_stat sz mt v) e) with (alive v e).
  destruct (decide (alive v e)); [|done]. simpl.
  repeat (apply bind_Some in Ha as (? & E & Ha); try (rewrite E; simpl); try clear E).
  simplify_eq. rewrite Hs. simpl. rewrite Hm. simpl. done.
Qed.

Lemma wp_set_stat v f size mtime Q :
  vol_ok v -> (forall v', stat_post v f size mtime v' -> (forall k, space v k -> space v' k) -> Q tt v') -> wp (set_stat f size mtime) Q v.
Proof.
  intros Hv HQ. unfold set_stat, head_of. apply wp_bind, wp_bind, wp_get.
  destruct (head_cases v f Hv) as [(h & f' & Hg & Hf & Ha & Hlf & Hyes & Hno)|(Hg & Hnor & Hno)]; rewrite Hg.
  2: { apply wp_ret, wp_ret, HQ; [|done]. split; [done|]. split; [done|]. exists false. intros e. split; [by intros ?%Hno|done]. }
  apply wp_bind. wp_get_col. apply wp_ret. destruct (N.eqb_spec f' f) as [->|Hne].
  2: { specialize (Hno Hne). apply wp_ret, HQ; [|done]. split; [done|]. split; [done|]. exists false. intros e. split; [by intros ?%Hno|done]. }
  destruct (links_found _ _ _ Hv Hg) as (l & f1 & Hs & Hnd & Hr & Hin & Hfr).
  assert (Hl : forall e, e ∈ h :: l <-> link_of v f e) by (intros e; rewrite Hin; by apply (link_of_record v _ f h)).
  destruct (alive_cols _ _ _ _ _ _ _ _ (proj1 Hv) Ha) as (_ & _ & _ & fl & _ & _ & _ & _ & _ & _ & Efl & _).
  pose proof (i_cols _ _ _ _ _ _ _ (proj1 Hv)) as Hc. unfold cols_ok in Hc.
  apply wp_bind. wp_get_col. apply wp_bind, wp_get. eapply (wp_stat_loop (negb (contains fl DIR)) _ _ (h :: l)); [|exact Hs| |].
  { eapply chain_fuel; [apply Hv|done|]. intros e He%Hin. apply He. }
  { intros e (Hae & _)%Hin. pose proof (alive_lt _ _ _ _ _ _ _ e (proj1 Hv) Hae). unfold cap in *. lia. }
  intros sz mt L1 L2 E1 E2. apply HQ; [|intros k Hk; by destruct Hk].
  split; [apply vol_inv_stat; [done|unfold cap; lia..]|]. split; [by split|]. exists (contains fl DIR). intros e.
  destruct (decide (alive v e)) as [Hae|Hae].
  2: { split; [intros Hle; by apply link_alive in Hle|]. intros _. unfold abs. by rewrite !decide_False. }
  destruct (abs_total _ _ _ Hv Hae) as [a Habs]. rewrite Habs.
  assert (Hsm : getN e (c_size (entries v)) = Some (a_size a) /\ getN e (c_mtime (entries v)) = Some (a_mtime a)).
  { unfold abs in Habs. rewrite decide_True in Habs by done. repeat (apply bind_Some in Habs as (? & ? & Habs)). by simplify_eq. }
  destruct Hsm as [S1 S2]. split; intros Hle; specialize (E1 e); specialize (E2 e).
  - rewrite decide_True in E1 by (by apply Hl). rewrite decide_True in E2 by (by apply Hl). erewrite abs_with_stat; [reflexivity|exact Habs| |exact E2].
    rewrite E1. by destruct (contains fl DIR).
  - rewrite decide_False in E1 by (by rewrite Hl). rewrite decide_False in E2 by (by rewrite Hl). rewrite (abs_with_stat v sz mt e (a_size a) (a_mtime a) a); [by destruct a|done|congruence|congruence].
Qed.

(** The directory bit [reconcile_links] passes on. *)
Lemma wp_reconcile v f actual k Q :
  vol_ok v -> (forall t, t ∈ actual -> tparent t < cap v /\ small_name (wbytes (tname t))) -> space v (k + len actual) ->
  (forall v', (actual = [] -> exists ok, delete_post v f ok v') -> (actual <> [] -> chain_post v f actual v') -> space v' k -> Q tt v') ->
  wp (reconcile_links f actual) Q v.
Proof.
  intros Hv Htg Hsp HQ. destruct actual as [|t actual].
  - simpl. apply wp_bind. eapply wp_mono; [by apply wp_delete_frn|]. intros ok v' Hd. apply wp_ret, HQ; [eauto|done|].
    rewrite N.add_0_r in Hsp. destruct Hd as [_ Hd]. destruct ok; [|by destruct Hd as [-> _]].
    destruct Hd as (gone & _ & _ & R & _). by eapply removed_space.
  - unfold reconcile_links. apply wp_bind. apply wp_head_of; [done|]. intros o Ho _. apply wp_bind.
    assert (Hgo : forall d, wp (set_chain_links f d (t :: actual)) Q v).
    { intros d. eapply wp_set_chain_links; [exact Hv|done|exact Htg|exact Hsp|]. intros v' Hp Hsp'. by apply HQ. }
    destruct o as [h|]; [|by apply wp_ret]. apply wp_bind. pose proof (link_alive _ _ _ (Ho h eq_refl)) as Ha.
    destruct (alive_cols _ _ _ _ _ _ _ _ (proj1 Hv) Ha) as (_ & _ & _ & fl & _ & _ & _ & _ & _ & _ & Efl & _). wp_get_col. by apply wp_ret.
Qed.

(** A delete leaves the file no entries, and touches its record only. *)
Lemma delete_post_links v f ok v' :
  vol_ok v -> delete_post v f ok v' ->
  vol_ok v' /\ kept [record_number f] v v' /\
  exists ks, NoDup ks /\ (forall e, link_of v' f e <-> e ∈ ks) /\ chained v' f ks /\ Forall2 (link_done v f v') [] ks.
Proof.
  intros Hv [Hv' Hd]. split; [done|].
  assert (Hno : kept [record_number f] v v' /\ forall e, ~ link_of v' f e).
  { destruct ok.
    - destruct Hd as (gone & _ & Hin & R & Hno). split.
      + eapply removed_kept; [exact Hv| |exact R]. intros e He%Hin. by eapply link_of_is_record.
      + intros e He. apply (Hno e). by eapply link_of_is_record.
    - destruct Hd as [-> Hno]. split; [apply kept_refl|done]. }
  destruct Hno as [Hk Hno]. split; [exact Hk|]. exists []. split_and!; [constructor| |done|constructor].
  intros e. split; [by intros ?%Hno|by intros ?%not_elem_of_nil].
Qed.
End stat.
