(* ===== verification/VolumeRead.v ===== *)
(** Reading the index: [child_dir], [children] and [path_of] of
    [crates/goz-core/src/index/volume.rs] on a well-formed index. *)

From stdpp Require Import gmap.
From stdpp Require Import base option list sets.
From Stdlib Require Import NArith ZArith Lia.
From S2P Require Import Prelude Types Wtf8 UsnRecord UsnOps LayoutParse Fold FrnMap NameStore NameOrder EntryTable Chain Volume VolumeInv VolumeOps VolumeEdit VolumeUpsert VolumeBatch VolumeLinks.

Section read.
Context {U : Unicode} {H : Hasher}.
Implicit Types (v : VolumeIndex).

(** ** The scope index *)

(** A real directory under [par] whose folded name is [nm]. *)
Definition dir_under v (par : N) (nm : list N) (d : N) : Prop :=
  scope_dir v d = true /\ getN d (c_parent (entries v)) = Some par /\
  exists id, getN d (c_name_id (entries v)) = Some id /\ folded_bytes_of (names v) id = Some nm.

Lemma wp_find_dir v cands nm Q :
  (forall d, d ∈ cands -> exists id b, getN d (c_name_id (entries v)) = Some id /\ folded_bytes_of (names v) id = Some b) ->
  (forall o, (forall d, o = Some d -> d ∈ cands /\ exists id, getN d (c_name_id (entries v)) = Some id /\ folded_bytes_of (names v) id = Some nm) ->
     (o = None -> forall d id, d ∈ cands -> getN d (c_name_id (entries v)) = Some id -> folded_bytes_of (names v) id <> Some nm) -> Q o v) ->
  wp (find_dir cands nm) Q v.
Proof.
  revert Q. induction cands as [|d cands IH]; intros Q Hc HQ; simpl.
  { apply wp_ret, HQ; [done|]. by intros _ d id ?%not_elem_of_nil. }
  destruct (Hc d) as (id & b & Hid & Hb); [left|]. apply wp_bind. unfold folded_name. apply wp_bind. wp_get_col.
  eapply wp_nam_read; [exact Hb|]. case_bool_decide as E.
  - subst b. apply wp_ret, HQ; [|done]. intros ? [= <-]. split; [left|]. eauto.
  - apply IH; [intros x Hx; apply Hc; by right|]. intros o H1 H2. apply HQ.
    + intros x Hx. destruct (H1 x Hx) as [? ?]. split; [by right|done].
    + intros Ho x id' [->|Hx]%elem_of_cons Hid' E'; [congruence|]. by apply (H2 Ho x id').
Qed.

Lemma wp_child_dir v hole par nm Q :
  vol_inv v hole ->
  (forall o, (forall d, o = Some d -> dir_under v par nm d) -> (o = None -> forall d, ~ dir_under v par nm d) -> Q o v) ->
  wp (child_dir par nm) Q v.
Proof.
  intros [I _] HQ. destruct (i_dir _ _ _ _ _ _ _ I) as [Hex _]. unfold child_dir. apply wp_bind, wp_get.
  pose proof (Hex (par, dir_key_hash nm)) as Hk. unfold dir_key_hash in *.
  assert (Hkey : forall d, dirkey v d = Some (par, hash_bytes nm) -> scope_dir v d = true /\ getN d (c_parent (entries v)) = Some par /\
    exists id b, getN d (c_name_id (entries v)) = Some id /\ folded_bytes_of (names v) id = Some b).
  { intros d Hd. unfold dirkey in Hd. destruct (scope_dir v d); [|done].
    apply bind_Some in Hd as (p & Hp & Hd). apply bind_Some in Hd as (id & Hid & Hd). apply bind_Some in Hd as (b & Hb & Hd).
    simplify_eq. split_and!; eauto. }
  assert (Hunder : forall d, dir_under v par nm d -> dirkey v d = Some (par, hash_bytes nm)).
  { intros d (Hs & Hp & id & Hid & Hb). unfold dirkey. rewrite Hs, Hp. simpl. rewrite Hid. simpl. by rewrite Hb. }
  destruct (dir_children v !! (par, hash_bytes nm)) as [cands|]; simpl in Hk.
  - apply wp_find_dir; [intros d Hd%Hk; by apply Hkey|]. intros o H1 H2. apply HQ.
    + intros d Ho. destruct (H1 d Ho) as [Hd%Hk Hid]. destruct (Hkey d Hd) as (? & ? & _). by split.
    + intros Ho d Hd. pose proof Hd as (_ & _ & id & Hid & Hb). apply (H2 Ho d id); [by apply Hk, Hunder|done|done].
  - apply wp_ret, HQ; [done|]. intros _ d Hd%Hunder. apply Hk in Hd. by apply not_elem_of_nil in Hd.
Qed.

(** ** Children *)

Lemma wp_children v hole dir Q :
  vol_inv v hole -> dir < cap v ->
  (forall l, NoDup l -> (forall e, e ∈ l <-> alive v e /\ getN e (c_parent (entries v)) = Some dir) -> Q l v) ->
  wp (children dir) Q v.
Proof.
  intros [I _] Hdir HQ. pose proof (i_cols _ _ _ _ _ _ _ I) as Hc. unfold cols_ok, cap in *.
  destruct (getN_is_Some dir (c_first_child (entries v))) as [h Hh]; [lia|].
  destruct (ch_exact _ _ _ _ _ (i_child _ _ _ _ _ _ _ I) dir h ltac:(done) Hh) as (l & [q Hd%dlseg_nseg] & Hnd & Hin).
  assert (Hl : forall e, e ∈ l <-> alive v e /\ getN e (c_parent (entries v)) = Some dir).
  { intros e. rewrite Hin. split.
    - by intros (? & ? & _)%child_key_inv.
    - intros [Ha Hp]. rewrite (child_key_alive _ _ _ Ha Hp). rewrite (proj2 (N.eqb_neq _ _)) by lia. done. }
  unfold children. apply wp_bind, wp_get, wp_bind. wp_get_col.
  assert (Hfuel : (length l <= fuel_of v)%nat) by (eapply chain_fuel; [exact I|done|intros e He; by apply Hl in He as [? _]]).
  specialize (HQ l Hnd Hl). clear Hl Hin Hnd Hh. revert h Hd Q HQ Hfuel. generalize (fuel_of v) as fuel.
  induction l as [|x l IH]; intros fuel h Hd Q HQ Hfuel; simpl in Hd.
  { subst h. destruct fuel; simpl; by apply wp_ret. }
  destruct Hd as (-> & HxN & n & Hn & Hs). destruct fuel as [|fuel]; [simpl in Hfuel; lia|].
  cbn [children_loop]. rewrite (proj2 (N.eqb_neq _ _) HxN). apply wp_bind. wp_get_col. apply wp_bind.
  eapply (IH fuel); [exact Hs| |simpl in Hfuel; lia]. by apply wp_ret.
Qed.

(** ** Paths *)

(** The live entries from [e] up to one without a parent, with their names. *)
Inductive ancestry v : N -> list (N * list N) -> Prop :=
  | ancestry_top e a : abs v e = Some a -> a_parent a = NIL -> ancestry v e [(e, a_name a)]
  | ancestry_up e a l :
      abs v e = Some a -> a_parent a <> NIL -> ancestry v (a_parent a) l -> ancestry v e ((e, a_name a) :: l).

(** A component after what is already there. *)
Definition push_component (out nm : list N) : list N :=
  (match out with [] => [] | _ => out ++ [0x5C] end) ++ nm.

(** The text of an ancestry, from its top down, without the volume root. *)
Definition path_text (rt : N) (l : list (N * list N)) (out : list N) : list N :=
  fold_left push_component (map snd (filter (fun p => p.1 <> rt) (reverse l))) out.

Definition path_post v (e : N) (out : list N) (r : PathStatus * list N) : Prop :=
  (~ alive v e /\ r = (Removed, out)) \/
  (alive v e /\ exists l top, ancestry v e l /\ (length l <= N.to_nat MAX_PATH_HOPS)%nat /\ last l = Some top /\
     r = (if top.1 =? lost_found v then InLostFound else PathOk, path_text (root v) l out)) \/
  (alive v e /\ (forall l, ancestry v e l -> (N.to_nat MAX_PATH_HOPS < length l)%nat) /\ r = (CycleDetected, out)).

Lemma abs_parent v hole e a : vol_inv v hole -> abs v e = Some a -> a_parent a = NIL \/ alive v (a_parent a).
Proof.
  intros [I Hr] He. apply abs_inv in He as (Ha & _ & Hp & _).
  destruct (alive_parent v e (vol_up_closed _ _ _ _ _ _ _ I Hr) Ha) as (p & Hp' & ?). congruence.
Qed.

Lemma ancestry_fun v e l l' : ancestry v e l -> ancestry v e l' -> l = l'.
Proof.
  intros H1. revert l'. induction H1 as [e a He Hp|e a l He Hp Hl IH]; intros l' H2; inversion H2; simplify_eq; try congruence.
  f_equal. by apply IH.
Qed.

Lemma ancestry_head v e l : ancestry v e l -> l <> [] /\ exists t, last l = Some t.
Proof. intros Hl. assert (l <> []) by (by inversion Hl). split; [done|]. apply last_is_Some. done. Qed.

(** Every entry of an ancestry is live, and its last one has no parent. *)
Lemma ancestry_live v e l : ancestry v e l ->
  Forall (fun p => exists a, abs v p.1 = Some a /\ a_name a = p.2) l /\
  (forall t, last l = Some t -> exists a, abs v t.1 = Some a /\ a_parent a = NIL).
Proof.
  induction 1 as [e a He Hp|e a l He Hp Hl [IH1 IH2]]; split.
  - repeat constructor. eauto.
  - intros t [= <-]. eauto.
  - constructor; eauto.
  - destruct (ancestry_head _ _ _ Hl) as [Hne _]. destruct l; [done|]. intros t Ht. apply IH2. by rewrite <- Ht.
Qed.

(** What the climb collects: the whole ancestry when it fits, else [hops]
    entries, the last of which still has a parent. *)
Definition climbed v (hops : nat) (e : N) (c : list N) : Prop :=
  (exists l, ancestry v e l /\ c = map fst l /\ (length l <= hops)%nat) \/
  (length c = hops /\ (forall l, ancestry v e l -> (hops < length l)%nat) /\
   forall t, last c = Some t -> exists a, abs v t = Some a /\ a_parent a <> NIL).

Lemma wp_parents_loop v hole hops e Q :
  vol_inv v hole -> alive v e -> (forall c, climbed v hops e c -> Q c v) -> wp (parents_loop hops e) Q v.
Proof.
  intros Hv. revert e Q. induction hops as [|hops IH]; intros e Q He HQ; cbn [parents_loop].
  { apply wp_ret, HQ. right. split_and!; [done| |done]. intros l [Hl _]%ancestry_head. destruct l; [done|simpl; lia]. }
  destruct (abs_total _ _ _ Hv He) as [a Ha]. pose proof (abs_inv _ _ _ Ha) as (_ & _ & Hp & _).
  apply wp_bind. wp_get_col. destruct (N.eqb_spec (a_parent a) NIL) as [E|E].
  { apply wp_ret, HQ. left. exists [(e, a_name a)]. split_and!; [by constructor|done|simpl; lia]. }
  destruct (abs_parent _ _ _ _ Hv Ha) as [?|Hpa]; [done|]. apply wp_bind, IH; [done|]. intros c Hc. apply wp_ret, HQ.
  destruct Hc as [(l & Hl & -> & Hlen)|(Hlen & Hno & Hlast)].
  - left. exists ((e, a_name a) :: l). split_and!; [by constructor|done|simpl; lia].
  - right. split_and!; [simpl; lia| |].
    + intros l Hl. inversion Hl as [? ? Ha'|? ? l' Ha' ? Hl']; simplify_eq; try congruence. apply Hno in Hl'. simpl. lia.
    + intros t Ht. destruct c as [|x c]; [injection Ht as <-; eauto|]. by apply Hlast.
Qed.

Lemma wp_emit_path v hole l out Q :
  vol_inv v hole -> Forall (fun p => exists a, abs v p.1 = Some a /\ a_name a = p.2) l ->
  Q (fold_left push_component (map snd (filter (fun p => p.1 <> root v) l)) out) v ->
  wp (emit_path (map fst l) out) Q v.
Proof.
  intros Hv Hl. revert out. induction Hl as [|[x nm] l (a & Ha & Hn) Hl IH]; intros out HQ; cbn [emit_path map fst snd] in *.
  { by apply wp_ret. }
  apply wp_bind, wp_get. simpl in Hn. destruct (N.eqb_spec x (root v)) as [->|E].
  { apply IH. rewrite filter_cons_False in HQ by (simpl; tauto). done. }
  rewrite filter_cons_True in HQ by done. pose proof (abs_inv _ _ _ Ha) as (_ & _ & _ & _ & _ & id & Hid & Hnm).
  apply wp_bind. wp_get_col. apply wp_bind. unfold raw_name. eapply wp_nam_read; [exact Hnm|]. apply IH. rewrite Hn. exact HQ.
Qed.

Lemma wp_path_of v hole e out Q :
  vol_inv v hole -> e < cap v -> (forall r, path_post v e out r -> Q r v) -> wp (path_of e out) Q v.
Proof.
  intros Hv He HQ. pose proof (i_cols _ _ _ _ _ _ _ (proj1 Hv)) as Hc. unfold cols_ok, cap in *.
  unfold path_of. apply wp_bind, wp_is_tombstone; [lia|]. case_bool_decide as Ha.
  { apply wp_ret, HQ. by left. }
  apply wp_bind. eapply wp_parents_loop; [done..|]. intros c Hcl.
  assert (Hhops : (1 <= N.to_nat MAX_PATH_HOPS)%nat) by (unfold MAX_PATH_HOPS; lia).
  revert Hhops Hcl HQ. unfold path_post. generalize (N.to_nat MAX_PATH_HOPS) as hops. intros hops Hhops Hcl HQ.
  destruct Hcl as [(l & Hl & -> & Hlen)|(Hlen & Hno & Hlast)].
  - destruct (ancestry_head _ _ _ Hl) as [_ [[t nm] Ht]]. destruct (ancestry_live _ _ _ Hl) as [Hlive Htop].
    destruct (Htop _ Ht) as (a & Hat & Hnil). pose proof (abs_inv _ _ _ Hat) as (_ & _ & Hp & _). simpl in *.
    rewrite fmap_last, Ht. simpl. apply wp_bind. wp_get_col. rewrite Hnil, N.eqb_refl. simpl. apply wp_bind, wp_get, wp_bind.
    replace (reverse (map fst l)) with (map fst (reverse l)) by apply (fmap_reverse fst).
    eapply wp_emit_path; [done|by apply Forall_reverse|]. apply wp_ret, HQ. right. left. split; [done|]. by exists l, (t, nm).
  - destruct (last c) as [t|] eqn:Et; [|apply last_None in Et; subst c; simpl in Hlen; lia].
    destruct (Hlast t eq_refl) as (a & Hat & Hnil). pose proof (abs_inv _ _ _ Hat) as (_ & _ & Hp & _).
    apply wp_bind. wp_get_col. rewrite (proj2 (N.eqb_neq _ _) Hnil). simpl. apply wp_ret, HQ. right. right. auto.
Qed.
End read.
