(* ===== verification/VolumeNew.v ===== *)
(** A fresh index, and the promises of the index to its owner: what [new],
    [upsert_link], [delete_frn] and [apply_batch] do to its contents. *)

From stdpp Require Import gmap.
From stdpp Require Import base option list sets.
From Stdlib Require Import NArith ZArith Lia.
From S2P Require Import Prelude Types Wtf8 UsnRecord UsnOps LayoutParse Fold FrnMap NameStore NameOrder EntryTable Chain Volume VolumeInv VolumeOps VolumeEdit VolumeUpsert VolumeBatch.

Section new.
Context {U : Unicode} {H : Hasher}.
Implicit Types (v : VolumeIndex).

(** The parts of a fresh index: two names, two entries. *)
Definition new_names : NameStore := added LOST_FOUND_NAME (added [] empty_store).
Definition new_table (root_frn : N) : EntryTable :=
  {| c_frn := [root_frn; LOST_FOUND_FRN]; c_parent := [NIL; NIL]; c_name_id := [0; 1];
     c_flags := [DIR; with_flag DIR LOST_FOUND true]; c_size := [SIZE_UNKNOWN; SIZE_UNKNOWN];
     c_mtime := [MTIME_UNKNOWN; MTIME_UNKNOWN]; c_next_link := [NIL; NIL]; c_next_same := [NIL; NIL];
     c_prev_same := [NIL; NIL]; c_first_child := [NIL; NIL]; c_next_child := [NIL; NIL]; c_prev_child := [NIL; NIL];
     free := []; live_count := 2; tsettled := false |}.
Definition new_unlinked (root_frn : N) (fm : FrnMap) : VolumeIndex :=
  {| entries := new_table root_frn; names := new_names; by_frn := FrnMap.set (record_number root_frn) 0 fm; root := 0;
     lost_found := 1; generation := 0; stats := stats_default; dirty := 0; dir_children := ∅; cycle_suspects := [] |}.

Lemma room_start ns name :
  len name <= 20 -> len (fold name) <= 20 -> len (folded ns) <= 100 -> len (raw ns) <= 100 -> ids ns < 100 ->
  Forall (fun rc => rc < 100) (refcount ns) -> room ns name.
Proof.
  intros. split; unfold u16_max, NIL, u32_max in *; try lia.
  eapply Forall_impl; [eassumption|]. simpl. lia.
Qed.

Lemma new_names_runs :
  intern [] empty_store = Some (0, added [] empty_store) /\ intern LOST_FOUND_NAME (added [] empty_store) = Some (1, new_names) /\
  ns_ok new_names /\ order_ok new_names.
Proof.
  pose proof (repr_empty : repr empty_store []) as R0.
  assert (Hr0 : room empty_store []) by (apply room_start; try (vm_compute; congruence); constructor).
  destruct (intern_cases [] empty_store [] R0 Hr0) as [(id & rc & g & Hg & _)|[E0 R1]]; [done|].
  assert (Hr1 : room (added [] empty_store) LOST_FOUND_NAME).
  { apply room_start; try (vm_compute; congruence). apply Forall_singleton. lia. }
  destruct (intern_cases LOST_FOUND_NAME _ _ R1 Hr1) as [(id & rc & g & Hg & Hraw & _)|[E1 R2]].
  { exfalso. unfold getN in Hg. destruct (N.to_nat id) as [|n]; [|done]. simpl in Hg. simplify_eq. }
  split; [exact E0|]. split; [exact E1|]. split; [by eexists|].
  eapply (order_ok_intern LOST_FOUND_NAME (added [] empty_store)); [by eexists| |exact Hr1|exact E1].
  eapply (order_ok_intern [] empty_store); [by eexists|apply order_ok_empty|exact Hr0|exact E0].
Qed.

Lemma getN_two {A} (a b : A) e x : getN e [a; b] = Some x -> e = 0 /\ x = a \/ e = 1 /\ x = b.
Proof.
  unfold getN. destruct (N.to_nat e) as [|[|n]] eqn:E; simpl; [intros [= <-]|intros [= <-]|done]; [left|right]; split; lia || done.
Qed.

Lemma chains_empty n hd : len n <= NIL -> (forall k h, getN k hd = Some h -> h = NIL) -> chains n n hd (fun _ => None) None.
Proof.
  intros Hn Hh. split; [done|done|done|]. intros k h _ ->%Hh. exists []. split; [exists NIL; done|]. split; [constructor|].
  intros e. split; [by intros ?%not_elem_of_nil|done].
Qed.

Lemma new_live e : live_e [DIR; with_flag DIR LOST_FOUND true] e <-> e = 0 \/ e = 1.
Proof.
  unfold live_e. split.
  - destruct (getN e _) eqn:E; [|done]. apply getN_two in E. lia.
  - by intros [-> | ->].
Qed.

Lemma new_unlinked_inv root_frn fm :
  frn_map_ok fm -> (forall r, FrnMap.get fm r = None) ->
  Inv (new_unlinked root_frn fm) (fun _ => None) (fun _ => None) (fun _ => None)
    (fun id => if id <? 2 then 1 else 0) None None.
Proof.
  intros Hm Hempty. destruct new_names_runs as (_ & _ & Hok & Ho). split; simpl; try done.
  - split; [constructor| |done]. intros e. rewrite new_live. split; [by intros ?%not_elem_of_nil|].
    unfold len. simpl. intros [? Hn]. destruct Hn. lia.
  - apply chains_empty; [done|]. intros k h E%getN_two. naive_solver.
  - intros id. destruct (getN id [1; 1]) eqn:E.
    + apply getN_two in E. exists []. split; [constructor|]. split; [intros e; split; [by intros ?%not_elem_of_nil|done]|].
      destruct E as [[-> ->]|[-> ->]]; done.
    + destruct (N.ltb_spec id 2); [|done]. assert (id < len [1; 1]) as [? ?]%getN_is_Some by done. congruence.
  - apply chains_empty; [done|]. intros k h E%getN_two. naive_solver.
  - split; [|done]. intros k e. rewrite lookup_empty. split; [by intros ?%not_elem_of_nil|done].
  - by apply frn_map_ok_set.
  - intros r _. unfold link_ok. rewrite get_set by done.
    assert (Hrec : forall e, has_record [DIR; with_flag DIR LOST_FOUND true] [root_frn; LOST_FOUND_FRN] 1 r e <->
                             e = 0 /\ record_number root_frn = r).
    { intros e. unfold has_record. rewrite new_live. split.
      - intros (_ & He & f & Hf & Hr). apply getN_two in Hf. naive_solver.
      - intros [-> Hr]. split; [auto|]. split; [done|]. by exists root_frn. }
    case_decide as E.
    + exists [0], root_frn. split; [simpl; split; [done|]; split; [done|]; by exists NIL|].
      split; [apply NoDup_singleton|]. split; [done|]. split.
      * intros e. rewrite list_elem_of_singleton, Hrec. naive_solver.
      * by intros e ->%list_elem_of_singleton.
    + rewrite Hempty. intros e [_ ?]%Hrec. done.
Qed.

(** What a fresh index holds. *)
Definition new_entry_at (root_frn e : N) : option AEntry :=
  if e =? 0 then Some {| a_frn := root_frn; a_parent := NIL; a_name := []; a_flags := DIR; a_size := SIZE_UNKNOWN;
                         a_mtime := MTIME_UNKNOWN; a_next := NIL |}
  else if e =? 1 then Some {| a_frn := LOST_FOUND_FRN; a_parent := NIL; a_name := LOST_FOUND_NAME;
                              a_flags := with_flag DIR LOST_FOUND true; a_size := SIZE_UNKNOWN;
                              a_mtime := MTIME_UNKNOWN; a_next := NIL |}
  else None.

(** The state once both entries are on their name chains. *)
Lemma new_linked root_frn fm :
  frn_map_ok fm -> (forall r, FrnMap.get fm r = None) ->
  wp (link_same_name 0 0 ;;; link_same_name 1 1) (fun _ v => exists nx pv hd,
    v = upd_same nx pv hd (new_unlinked root_frn fm) /\
    Inv v (key_set 1 (Some 1) (key_set 0 (Some 0) (fun _ => None))) (fun _ => None) (fun _ => None) (fun _ => 0) None None)
    (new_unlinked root_frn fm).
Proof.
  intros Hm Hempty. pose proof (new_unlinked_inv root_frn fm Hm Hempty) as I0. apply wp_bind.
  eapply wp_link_same_name; [exact I0|done..|]. intros nx pv hd I1.
  eapply wp_link_same_name; [exact I1|done..|]. intros nx2 pv2 hd2 I2.
  exists nx2, pv2, hd2. split; [done|]. eapply Inv_ext; [exact I2|done..|].
  intros j. unfold ref_sub. destruct (N.ltb_spec j 2); repeat case_decide; lia.
Qed.

#[local] Opaque link_same_name.

Lemma new_runs root_frn fm :
  frn_map_ok fm -> (forall r, FrnMap.get fm r = None) ->
  exists v, new root_frn fm = Some v /\ vol_ok v /\ (forall e, abs v e = new_entry_at root_frn e) /\
    root v = 0 /\ lost_found v = 1 /\ cycle_suspects v = [] /\ forall k, k <= 30000 -> space v k.
Proof.
  intros Hm Hempty. destruct (proj1 (wp_run _ _ _) (new_linked root_frn fm Hm Hempty)) as ([] & v & E & nx & pv & hd & -> & I).
  destruct new_names_runs as (N1 & N2 & _ & _).
  exists (upd_same nx pv hd (new_unlinked root_frn fm)). split.
  { assert (En : new root_frn fm = snd <$> (link_same_name 0 0 ;;; link_same_name 1 1) (new_unlinked root_frn fm)).
    { unfold new. rewrite N1. simpl. rewrite N2. simpl. change (as_u32 (len [])) with 0. change (as_u32 (len [root_frn])) with 1.
      change {| entries := _ |} with (new_unlinked root_frn fm). unfold st_bind.
      destruct (link_same_name 0 0 _) as [ [[] v1]|]; [|done]. simpl. by destruct (link_same_name 1 1 v1) as [ [[] v2]|]. }
    by rewrite En, E. }
  assert (Hal : forall e, alive (upd_same nx pv hd (new_unlinked root_frn fm)) e <-> e = 0 \/ e = 1) by (intros e; apply new_live).
  assert (Hcase : forall e, e = 0 \/ e = 1 \/ ~ (e = 0 \/ e = 1)) by lia.
  split; [split|].
  - eapply Inv_ext; [exact I|intros e..]; try done.
    + unfold same_key, key_set. destruct (Hcase e) as [-> |[-> |Hn]]; [done|done|].
      rewrite decide_False by (by rewrite Hal). by rewrite !decide_False by tauto.
    + unfold child_key. case_decide; [|done]. simpl. destruct (getN e [NIL; NIL]) eqn:Eg; [|done].
      apply getN_two in Eg. by destruct Eg as [[_ ->]|[_ ->]].
    + unfold dirkey, scope_dir. simpl. destruct (getN e _) eqn:Eg; [|done]. apply getN_two in Eg.
      by destruct Eg as [[-> ->]|[-> ->]].
  - split; [|done]. intros e p Eg%getN_two. left. naive_solver.
  - split_and!; try done.
    + intros e. unfold abs, new_entry_at. destruct (Hcase e) as [-> |[-> |Hn]]; [vm_compute; done|vm_compute; done|].
      rewrite decide_False by (by rewrite Hal). by rewrite !(proj2 (N.eqb_neq _ _)) by tauto.
    + intros k Hk. split; simpl.
      * change (len _) with 12. lia.
      * change (len _) with 11. lia.
      * unfold ids. simpl. change (len _) with 2. unfold NIL, u32_max. lia.
      * unfold u32_max. repeat (constructor; [lia|]). constructor.
      * unfold cap. simpl. change (len _) with 2. unfold NIL, u32_max. lia.
Qed.
End new.

(** ** The promises of the index *)

Section promises.
Context `{Unicode, Hasher}.
Implicit Types (v : VolumeIndex).

(** A new index is well formed and holds exactly two entries, the root
    directory under its FRN and the hidden lost+found folder. *)
Theorem new_index_ok root_frn fm :
  frn_map_ok fm -> (forall r, FrnMap.get fm r = None) ->
  exists v, new root_frn fm = Some v /\ vol_ok v /\ root v = 0 /\ lost_found v = 1 /\
    forall e, abs v e = new_entry_at root_frn e.
Proof.
  intros Hm He. destruct (new_runs root_frn fm Hm He) as (v & E & Hv & Habs & Hr & Hlf & _). by exists v.
Qed.

(** C21: [upsert_link] on a well-formed index does not panic and leaves a
    well-formed index.  When it succeeds, the file has exactly one entry, with
    the given name, directory bit and lossy bit, no longer a placeholder,
    keeping the size and date it had; its parent is the entry of the parent
    FRN (made up as a placeholder if it was unknown), or lost+found when the
    parent FRN is another incarnation of the file's own record.  It asks for
    reconciliation exactly when the file has several links, which it then
    leaves alone.  No other record is touched: entries of other records stay,
    except that children of a removed stale entry move to lost+found; and the
    parent's record is untouched too if the parent was known. *)
Theorem upsert_link_correct v f pf name l d :
  vol_ok v -> space v 2 -> small_name name ->
  wp (upsert_link f pf name l d) (fun r v' =>
    vol_ok v' /\ kept [record_number f; record_number pf] v v' /\
    ((exists e, link_of v pf e) -> kept [record_number f] v v') /\
    match r with
    | UpsertOk => exists idx a p, (forall e, link_of v' f e <-> e = idx) /\ abs v' idx = Some a /\
        upserted p name l d a /\ parent_is v' f pf p /\
        (forall e b, link_of v f e -> abs v e = Some b -> e = idx /\ a_size a = a_size b /\ a_mtime a = a_mtime b)
    | NeedsReconcile => (exists e1 e2, e1 <> e2 /\ link_of v f e1 /\ link_of v f e2) /\
        forall e b, link_of v f e -> abs v e = Some b -> exists q, abs v' e = Some (set_a_parent q b)
    end) v.
Proof.
  intros Hv Hsp Hsm. eapply (wp_upsert v f pf name l d 0); [done..|]. intros r v' (A & B & C & _ & _ & _ & D) _. exact (conj A (conj B (conj C D))).
Qed.

(** C22: [delete_frn] does not panic and leaves a well-formed index.  It answers
    whether the FRN had entries; if so exactly those are gone, their children
    now sit in lost+found and nothing else has changed, and no entry of the
    record is left; if not, nothing happened: a stale FRN deletes nothing. *)
Theorem delete_frn_correct v f :
  vol_ok v ->
  wp (delete_frn f) (fun ok v' =>
    vol_ok v' /\
    if ok then exists gone, gone <> [] /\ (forall e, e ∈ gone <-> link_of v f e) /\ removed gone v v' /\
      forall e, ~ of_record v' (record_number f) e
    else v' = v /\ forall e, ~ link_of v f e) v.
Proof. apply wp_delete_frn. Qed.

(** C20: applying a journal batch never panics, whatever the records say, as long
    as the table has room for two entries per record: the index stays well
    formed, its generation goes up by one, only records the batch names (files
    and their parents) are touched, every FRN asked to be re-read is known,
    every remaining cycle suspect is a live entry that is its own ancestor, and
    compaction is asked for exactly when the name store wants it. *)
Theorem apply_batch_correct v records :
  vol_ok v -> Forall (fun r => small_name (UsnRecord.name r)) records -> space v (2 * len records) ->
  wp (apply_batch records) (fun o v' =>
    vol_ok v' /\ generation v' = generation v + 1 /\
    kept (batch_records records) v (with_generation (generation v) v') /\
    (forall f, f ∈ needs_stat o -> exists e, link_of v' f e) /\
    (forall e, e ∈ cycle_suspects v' -> alive v' e /\ in_cycle v' e = true) /\
    wants_compact o = should_compact (names v')) v.
Proof. intros Hv Hs Hsp. by eapply (wp_apply_batch v records 0). Qed.
End promises.

(** *** Witnesses *)

#[local] Existing Instance one_bucket.

Definition dummy_index : VolumeIndex :=
  {| entries := empty_table; names := empty_store; by_frn := sparse; root := 0; lost_found := 0; generation := 0;
     stats := stats_default; dirty := 0; dir_children := ∅; cycle_suspects := [] |}.

(** A fresh index of an NTFS volume, and the same with one file "a" in the root. *)
Definition fresh : VolumeIndex := Eval vm_compute in default dummy_index (new NTFS_ROOT_FRN sparse).
Definition with_a : VolumeIndex := Eval vm_compute in
  default dummy_index (snd <$> upsert_link 77 NTFS_ROOT_FRN [0x61] false false fresh).

Lemma fresh_ok : vol_ok fresh /\ forall k, k <= 30000 -> space fresh k.
Proof.
  destruct (new_runs NTFS_ROOT_FRN sparse) as (v & E & Hv & _ & _ & _ & _ & Hsp); [done|done|].
  assert (Hf : new NTFS_ROOT_FRN sparse = Some fresh) by (vm_compute; reflexivity). rewrite E in Hf. by simplify_eq.
Qed.

Lemma small_a : small_name [0x61].
Proof. split; vm_compute; congruence. Qed.

Lemma with_a_ok : vol_ok with_a.
Proof.
  assert (E : upsert_link 77 NTFS_ROOT_FRN [0x61] false false fresh = Some (UpsertOk, with_a)) by (vm_compute; reflexivity).
  assert (W : wp (upsert_link 77 NTFS_ROOT_FRN [0x61] false false) (fun _ v' => vol_ok v') fresh).
  { eapply (wp_upsert fresh _ _ _ _ _ 0); [apply fresh_ok|by apply fresh_ok|apply small_a|]. by intros r v' [? _] _. }
  apply wp_run in W as (r & v' & E' & W). rewrite E in E'. by simplify_eq.
Qed.

Lemma new_index_ok_witness :
  exists v, new NTFS_ROOT_FRN sparse = Some v /\ vol_ok v /\ abs v 0 = new_entry_at NTFS_ROOT_FRN 0.
Proof.
  destruct (new_index_ok NTFS_ROOT_FRN sparse) as (v & E & Hv & _ & _ & Habs); [done|reflexivity|].
  exists v. split; [exact E|]. split; [exact Hv|apply Habs].
Defined.

Lemma upsert_link_correct_witness :
  exists v', upsert_link 77 NTFS_ROOT_FRN [0x61] false false fresh = Some (UpsertOk, v') /\ vol_ok v' /\
    exists idx, forall e, link_of v' 77 e <-> e = idx.
Proof.
  destruct (proj1 (wp_run _ _ _) (upsert_link_correct fresh 77 NTFS_ROOT_FRN [0x61] false false (proj1 fresh_ok)
    (proj2 fresh_ok 2 ltac:(lia)) small_a)) as (r & v' & E' & W). exists with_a. assert (E : upsert_link 77 NTFS_ROOT_FRN [0x61] false false fresh = Some (UpsertOk, with_a)) by (vm_compute; reflexivity).
  rewrite E in E'. injection E' as <- <-.
  destruct W as (Hv & _ & _ & idx & _ & _ & Hone & _). split; [exact E|]. split; [exact Hv|].
  exists idx. exact Hone.
Defined.

Lemma delete_frn_correct_witness :
  exists v', delete_frn 77 with_a = Some (true, v') /\ vol_ok v' /\ forall e, ~ of_record v' 77 e.
Proof.
  destruct (proj1 (wp_run _ _ _) (delete_frn_correct with_a 77 with_a_ok)) as (ok & v' & E & Hv & W).
  assert (Hok : fst <$> delete_frn 77 with_a = Some true) by (vm_compute; reflexivity).
  rewrite E in Hok. injection Hok as ->. exists v'. split; [exact E|]. split; [exact Hv|].
  destruct W as (gone & _ & _ & _ & Hno). exact Hno.
Defined.

(** A record that creates file 78, "a", in the root. *)
Definition create_78 : ParsedUsnRecord :=
  {| major_version := 2; UsnRecord.frn := 78; parent_frn := NTFS_ROOT_FRN; usn := 0%Z; timestamp_ft := 0%Z;
     reason := USN_REASON_FILE_CREATE; attributes := 0; UsnRecord.name := [0x61]; name_lossy := false |}.

Lemma apply_batch_correct_witness :
  exists o v', apply_batch [create_78] with_a = Some (o, v') /\ vol_ok v' /\ generation v' = 1.
Proof.
  assert (Hsp : space with_a 2).
  { split; [by vm_compute|by vm_compute|by vm_compute| |by vm_compute].
    repeat apply Forall_cons_2; [by vm_compute..|apply Forall_nil_2]. }
  assert (Hsm : Forall (fun r => small_name (UsnRecord.name r)) [create_78]).
  { apply Forall_cons_2; [exact small_a|apply Forall_nil_2]. }
  destruct (proj1 (wp_run _ _ _) (apply_batch_correct with_a [create_78] with_a_ok Hsm Hsp))
    as (o & v' & E & Hv & Hg & _). exists o, v'. split; [exact E|]. split; [exact Hv|exact Hg].
Defined.
