(* ===== verification/VolumeBuild.v ===== *)
(** The build of an index from the listing of a volume: further hard links,
    [enrich], [insert_layout], [insert_enum] and [optimize_storage] keep the
    invariant, and every name of the listing is indexed under its file. *)

From stdpp Require Import gmap.
From stdpp Require Import base option list sets.
From Stdlib Require Import NArith ZArith Lia.
From S2P Require Import Prelude Types Wtf8 UsnRecord UsnOps LayoutParse Fold FrnMap NameStore NameOrder EntryTable Chain Volume VolumeInv VolumeOps VolumeEdit VolumeUpsert VolumeBatch VolumeCompact VolumeLinks VolumeRead VolumeNew.
Open Scope N_scope.
Open Scope list_scope.

(** ** The end of a chain *)

Lemma nseg_last nx h l t : nseg nx h (l ++ [t]) -> getN t nx = Some NIL /\ t <> NIL.
Proof.
  revert h. induction l as [|x l IH]; intros h; cbn [app nseg].
  - intros (-> & Ht & n & Hn & ->). done.
  - intros (_ & _ & n & _ & Hs). by eapply IH.
Qed.

Lemma nseg_extend nx h l t idx :
  nseg nx h (l ++ [t]) -> NoDup (l ++ [t]) -> idx ∉ l ++ [t] -> idx <> NIL -> getN idx nx = Some NIL ->
  nseg (<[N.to_nat t := idx]> nx) h ((l ++ [t]) ++ [idx]).
Proof.
  intros Hs Hnd Hi HiN Hnx. destruct (nseg_last _ _ _ _ Hs) as [Ht HtN]. pose proof (getN_lt _ _ _ Ht) as Htl.
  assert (Hidx : getN idx (<[N.to_nat t := idx]> nx) = Some NIL) by (rewrite getN_insert by done; rewrite decide_False by set_solver; done).
  revert h Hs. induction l as [|x l IH]; intros h; cbn [app nseg].
  - intros (-> & _ & n & Hn & _). split; [done|]. split; [done|]. exists idx. rewrite getN_insert, decide_True by done. split; [done|].
    split; [done|]. split; [done|]. by exists NIL.
  - intros (-> & Hx & n & Hn & Hs). split; [done|]. split; [done|]. exists n. cbn [app] in Hnd. apply NoDup_cons in Hnd as [Hxl Hnd]. split.
    + rewrite getN_insert, decide_False by (done || set_solver). done.
    + apply IH; [done|set_solver|done].
Qed.

Section build.
Context {U : Unicode} {H : Hasher}.
Implicit Types (v w : VolumeIndex).

Lemma wp_tail_loop l t : forall fuel cur w Q,
  (length l <= fuel)%nat -> nseg (c_next_link (entries w)) cur (l ++ [t]) -> Q t w -> wp (Volume.tail_loop fuel cur) Q w.
Proof.
  induction l as [|x l IH]; intros fuel cur w Q Hf Hs HQ; cbn [app nseg] in Hs.
  - destruct Hs as (-> & _ & n & Hn & ->). destruct fuel; cbn [Volume.tail_loop]; apply wp_bind; wp_get_col; by apply wp_ret.
  - destruct Hs as (-> & _ & n & Hn & Hs). destruct fuel as [|fuel]; [simpl in Hf; lia|]. cbn [Volume.tail_loop]. apply wp_bind. wp_get_col.
    assert (HnN : n <> NIL). { destruct l as [|y l]; cbn in Hs; naive_solver. }
    rewrite (proj2 (N.eqb_neq _ _) HnN). apply IH; [simpl in Hf; lia|done|done].
Qed.

(** One more link of a file, at the end of its chain; the others only move their
    chain pointer. *)
Record link_added f (a : AEntry) v v' : Prop := {
  la_ok : vol_ok v';
  la_kept : kept [record_number f] v v';
  la_new : exists e, abs v' e = Some a /\ link_of v' f e;
  la_old e b : abs v e = Some b -> exists n, abs v' e = Some (set_a_next n b);
  la_others e b : abs v e = Some b -> ~ link_of v f e -> abs v' e = Some b;
  la_back e b' : abs v' e = Some b' -> b' = a \/ exists b n, abs v e = Some b /\ b' = set_a_next n b
}.

Definition added_link f par name (lossy : bool) : AEntry :=
  {| a_frn := f; a_parent := par; a_name := name; a_flags := with_flag EMPTY NON_UNICODE_NAME lossy; a_size := SIZE_UNKNOWN;
     a_mtime := MTIME_UNKNOWN; a_next := NIL |}.

Lemma plain_file_scope v idx a : abs v idx = Some a -> contains (a_flags a) DIR = false -> dirkey v idx = None.
Proof.
  intros (_ & _ & _ & Hfl & _)%abs_inv Hp. unfold dirkey, scope_dir. rewrite Hfl, Hp. by rewrite andb_false_r.
Qed.

Lemma abs_dirty d v e : abs (with_dirty d v) e = abs v e.
Proof. done. Qed.

(** The chain with the new entry at its end. *)
Lemma wp_chain_end v v1 f par name lossy idx h l t k Q :
  vol_ok v -> inserted idx (added_link f par name lossy) v v1 -> vol_inv v1 (Some (record_number f)) -> space v1 k ->
  FrnMap.get (by_frn v) (record_number f) = Some h -> nseg (c_next_link (entries v)) h (l ++ [t]) -> NoDup (l ++ [t]) ->
  (forall e, e ∈ l ++ [t] <-> of_record v (record_number f) e) -> (forall e, e ∈ l ++ [t] -> getN e (c_frn (entries v)) = Some f) ->
  (forall v', link_added f (added_link f par name lossy) v v' -> space v' k -> Q tt v') ->
  wp (ent (set_next_link t idx) ;;; bump_dirty) Q v1.
Proof.
  intros Hv Hins Hv1 Hsp Hg Hs Hnd Hin Hf HQ. pose proof (in_abs _ _ _ _ Hins idx) as Ha. rewrite decide_True in Ha by done.
  pose proof (abs_inv _ _ _ Ha) as (Hal & Hfi & _ & _ & Hni & _). cbn in Hfi, Hni.
  pose proof (i_cols _ _ _ _ _ _ _ (proj1 Hv1)) as Hc. unfold cols_ok in Hc. pose proof (alive_lt _ _ _ _ _ _ _ _ (proj1 Hv1) Hal) as Hlt. unfold cap in *.
  assert (Hidx : idx ∉ l ++ [t]). { intros (Ha0 & _)%Hin. by apply (in_free _ _ _ _ Hins). }
  assert (Hs1 : nseg (c_next_link (entries v1)) h (l ++ [t])).
  { eapply nseg_frame; [|exact Hs]. intros e He. apply (in_next _ _ _ _ Hins). intros ->. done. }
  destruct (nseg_last _ _ _ _ Hs1) as [Ht _]. pose proof (getN_lt _ _ _ Ht) as Htl.
  pose proof (nseg_extend _ _ _ _ idx Hs1 Hnd Hidx ltac:(lia) Hni) as Hs2.
  apply wp_bind. eapply wp_ent_set; [rewrite setN_some by done; reflexivity|]. set (nl := <[N.to_nat t := idx]> (c_next_link (entries v1))).
  apply wp_modify. change (with_entries _ v1) with (relinked nl v1).
  pose proof (fv_lf _ _ (in_frame _ _ _ _ Hins)) as Elf.
  assert (Hrec : forall e, e ∈ (l ++ [t]) ++ [idx] <-> of_record v1 (record_number f) e).
  { intros e. rewrite elem_of_app, list_elem_of_singleton, Hin. unfold of_record, has_record. rewrite Elf.
    change (live_e (c_flags (entries v1)) e) with (alive v1 e). change (live_e (c_flags (entries v)) e) with (alive v e).
    rewrite (in_alive _ _ _ _ Hins e). destruct (decide (e = idx)) as [-> |Hne].
    - split; [|auto]. intros _. split; [auto|]. split; [|by exists f]. intros ->. apply (in_free _ _ _ _ Hins), (i_lf _ _ _ _ _ _ _ (proj1 Hv)).
    - rewrite (in_frn _ _ _ _ Hins) by done. naive_solver. }
  assert (Htr : of_record v1 (record_number f) t) by (apply Hrec; set_solver).
  assert (Hout : forall e, e ∉ [t] -> getN e nl = getN e (c_next_link (entries v1))).
  { intros e He. unfold nl. rewrite getN_insert by done. rewrite decide_False by set_solver. done. }
  assert (Hlen : len nl = len (c_next_link (entries v1))) by apply len_insert.
  assert (K : kept [record_number f] v1 (relinked nl v1)). { eapply (kept_relinked f [t]); [by intros e ->%list_elem_of_singleton|done|done|exact Hv1]. }
  assert (Hok : vol_ok (relinked nl v1)).
  { eapply (vol_inv_close _ (record_number f)).
    - destruct Hv1 as [I1 HP1]. split; [|done]. apply Inv_next_link; [exact I1|unfold cap; lia|]. intros e He. apply Hout. intros ->%list_elem_of_singleton. done.
    - unfold link_ok. change (by_frn (relinked nl v1)) with (by_frn v1). rewrite (in_by_frn _ _ _ _ Hins), Hg. exists ((l ++ [t]) ++ [idx]), f.
      split; [exact Hs2|]. split; [apply NoDup_app; split; [done|]; split; [set_solver|apply NoDup_singleton]|]. split; [by destruct l|]. split; [exact Hrec|].
      intros e He. apply elem_of_app in He as [He|He]; [|apply list_elem_of_singleton in He as ->; exact Hfi].
      change (getN e (c_frn (entries v1)) = Some f). rewrite (in_frn _ _ _ _ Hins); [by apply Hf|]. intros ->. done. }
  assert (Hold : forall e b, abs v1 e = Some b -> exists n, getN e nl = Some n /\ abs (relinked nl v1) e = Some (set_a_next n b)).
  { intros e b Hb. by apply abs_relinked. }
  apply HQ; [|by destruct Hsp]. split.
  - by apply vol_inv_dirty.
  - assert (K' : kept [record_number f] v (relinked nl v1)).
    { eapply kept_trans; [exact Hv|exact Hv1|exact (inserted_kept _ _ _ _ _ Hv Hins)|exact K]. }
    destruct K' as [[] K2 K3]. by split.
  - exists idx. destruct (Hold idx _ Ha) as (n & Hn & E). rewrite Hout, Hni in Hn by set_solver. injection Hn as <-.
    split; [exact E|]. split; [|eexists; split; [exact E|done]]. cbn. intros ->. apply (in_free _ _ _ _ Hins). rewrite Elf. apply (i_lf _ _ _ _ _ _ _ (proj1 Hv)).
  - intros e b Hb. destruct (Hold e b) as (n & _ & E); [|by exists n]. exact (inserted_steady _ _ _ _ Hins e b Hb).
  - intros e b Hb He. pose proof (inserted_steady _ _ _ _ Hins e b Hb) as Hb1. destruct (Hold e b Hb1) as (n & Hn & E). rewrite Hout in Hn.
    + apply abs_inv in Hb1 as (_ & _ & _ & _ & Hn1 & _). rewrite Hn1 in Hn. injection Hn as <-. cbn. rewrite abs_dirty, E. by destruct b.
    + intros ->%list_elem_of_singleton. apply He. apply abs_inv in Hb as Hb'. destruct Hb' as (_ & Hfb & _).
      split; [|exists b; split; [done|]]; [|specialize (Hf t ltac:(set_solver)); congruence].
      assert (Hrt : of_record v (record_number f) t) by (apply Hin; set_solver). apply Hrt.
  - intros e b' Hb'. assert (Hae : alive v1 e) by (by apply abs_inv in Hb' as [? _]). destruct (abs_total _ _ _ Hv1 Hae) as [b1 Hb1].
    destruct (Hold e b1 Hb1) as (n & Hn & E). cbn in Hb'. rewrite abs_dirty, E in Hb'. injection Hb' as <-. rewrite (in_abs _ _ _ _ Hins) in Hb1. case_decide as He; [|by right; exists b1, n].
    subst e. injection Hb1 as <-. rewrite Hout, Hni in Hn by set_solver. injection Hn as <-. by left.
Qed.

Lemma wp_add_link v f par name lossy k Q :
  vol_ok v -> (exists e, link_of v f e) -> space v (k + 1) -> small_name name -> alive v par ->
  (forall v', link_added f (added_link f par name lossy) v v' -> space v' k -> Q tt v') ->
  wp (add_link f par name lossy) Q v.
Proof.
  intros Hv [e0 He0] Hsp Hsm Hpar HQ. unfold add_link. apply wp_bind.
  assert (Hfl : contains (with_flag EMPTY NON_UNICODE_NAME lossy) TOMBSTONE = false /\ contains (with_flag EMPTY NON_UNICODE_NAME lossy) DIR = false) by (by destruct lossy).
  destruct Hfl as [Hfl1 Hfl2]. eapply wp_new_entry; [by apply vol_inv_open|exact Hsp|exact Hsm|exact Hfl1|exact Hpar|].
  intros idx v1 Hins I1 HP1 Hsp1. pose proof (in_abs _ _ _ _ Hins idx) as Ha. rewrite decide_True in Ha by done.
  assert (Hv1 : vol_inv v1 (Some (record_number f))) by (eapply vol_inv_undir; [exact I1|done|by eapply plain_file_scope]).
  destruct (FrnMap.get (by_frn v) (record_number f)) as [h|] eqn:Hg.
  2: { apply (link_of_is_record _ _ _ _ Hv) in He0. by destruct (links_absent _ _ Hv Hg e0). }
  destruct (links_found _ _ _ Hv Hg) as (l & f' & Hs & Hnd & Hr & Hin & Hfr).
  assert (f' = f) as ->.
  { pose proof (link_of_is_record _ _ _ _ Hv He0) as Hrec. apply Hin, Hfr in Hrec. destruct He0 as (_ & a & Ha0 & <-). apply abs_inv in Ha0 as (_ & Hf0 & _). congruence. }
  apply wp_bind, wp_get. rewrite (in_by_frn _ _ _ _ Hins), Hg.
  destruct (exists_last (l := h :: l)) as (l0 & t & E0); [done|]. rewrite E0 in *.
  apply wp_bind, wp_bind, wp_get, wp_bind. eapply wp_tail_loop; [|eapply nseg_frame; [|exact Hs]|].
  - assert (length (l0 ++ [t]) <= fuel_of v1)%nat; [|rewrite length_app in *; simpl in *; lia].
    eapply chain_fuel; [exact I1|exact Hnd|]. intros e (Hal & _)%Hin. apply (in_alive _ _ _ _ Hins). by right.
  - intros e (Hal & _)%Hin. apply (in_next _ _ _ _ Hins). intros ->. by apply (in_free _ _ _ _ Hins).
  - assert (Hgo : wp (ent (set_next_link t idx) ;;; bump_dirty) Q v1) by (by eapply wp_chain_end).
    unfold wp, st_bind in *. by destruct (ent (set_next_link t idx) v1) as [[[] v2]|].
Qed.

(** ** Is the link there *)

Lemma wp_has_link_loop p nm l : forall fuel cur v Q,
  (length l <= fuel)%nat -> nseg (c_next_link (entries v)) cur l -> (forall e, e ∈ l -> exists a, abs v e = Some a) ->
  (forall b, (b = true -> exists e a, e ∈ l /\ abs v e = Some a /\ a_parent a = p /\ a_name a = nm) -> Q b v) ->
  wp (has_link_loop fuel cur p nm) Q v.
Proof.
  induction l as [|x l IH]; intros fuel cur v Q Hf Hs Hal HQ.
  { cbn in Hs. subst cur. destruct fuel; cbn; by apply wp_ret, HQ. }
  destruct fuel as [|fuel]; [simpl in Hf; lia|]. cbn [nseg] in Hs. destruct Hs as (-> & HxN & n & Hn & Hs).
  cbn [has_link_loop]. rewrite (proj2 (N.eqb_neq _ _) HxN). destruct (Hal x) as [a Ha]; [left|].
  pose proof (abs_inv _ _ _ Ha) as (_ & _ & Ep & _ & _ & id & Eid & Enm).
  apply wp_bind. wp_get_col. apply wp_bind.
  assert (Hrest : wp (next <- ent (next_link x) ;; has_link_loop fuel next p nm) Q v).
  { apply wp_bind. wp_get_col. apply IH; [simpl in Hf; lia|done|intros e He; apply Hal; by right|].
    intros b Hb. apply HQ. intros Hbt. destruct (Hb Hbt) as (e & c & He & Hc). exists e, c. split; [by right|done]. }
  destruct (N.eqb_spec (a_parent a) p) as [Hp|Hp]; [|by apply wp_ret].
  apply wp_bind. wp_get_col. apply wp_bind. eapply wp_raw_name; [exact Enm|]. apply wp_ret. case_bool_decide as Hnm; [|done].
  apply wp_ret, HQ. intros _. exists x, a. split; [left|done].
Qed.

Lemma wp_chain_has_link v f p nm Q :
  vol_ok v -> (forall b, (b = true -> exists e a, link_of v f e /\ abs v e = Some a /\ a_parent a = p /\ a_name a = nm) -> Q b v) ->
  wp (chain_has_link f p nm) Q v.
Proof.
  intros Hv HQ. unfold chain_has_link, head_of. apply wp_bind, wp_bind, wp_get.
  destruct (head_cases v f Hv) as [(h & f' & Hg & Hf & Ha & Hlf & Hyes & Hno)|(Hg & Hnor & Hno)]; rewrite Hg; [|by apply wp_ret, wp_ret, HQ].
  apply wp_bind. wp_get_col. apply wp_ret. destruct (N.eqb_spec f' f) as [->|Hne]; [|by apply wp_ret, HQ].
  destruct (links_found _ _ _ Hv Hg) as (l & f1 & Hs & Hnd & Hr & Hin & Hfr).
  apply wp_bind, wp_get. eapply (wp_has_link_loop _ _ (h :: l)); [|exact Hs| |].
  - eapply chain_fuel; [apply Hv|done|]. intros e He%Hin. apply He.
  - intros e (Hae & _)%Hin. by eapply abs_total.
  - intros b Hb. apply HQ. intros Hbt. destruct (Hb Hbt) as (e & a & He & Hrest). exists e, a. split; [|done]. by apply (link_of_record v _ f h e Hv Hg Hf), Hin.
Qed.

(** ** Sizes and dates of a listing *)

Definition with_meta (osz : option N) (omt : option Z) (a : AEntry) : AEntry :=
  {| a_frn := a_frn a; a_parent := a_parent a; a_name := a_name a; a_flags := a_flags a;
     a_size := default (a_size a) osz; a_mtime := default (a_mtime a) omt; a_next := a_next a |}.

Definition known_size (is_dir : bool) (osz : option N) : option N := if is_dir then None else osz.

(** What [enrich] writes to each link of the file. *)
Definition write_meta (is_dir : bool) (osz : option N) (omt : option Z) (cur : N) : ST VolumeIndex unit :=
  match osz with
  | Some sz => st_when (negb is_dir) (ent (set_size cur sz))
  | None => st_ret tt
  end ;;;
  match omt with
  | Some mt => ent (set_mtime cur mt)
  | None => st_ret tt
  end.

Lemma wp_write_meta d osz omt x v Q :
  x < len (c_size (entries v)) -> x < len (c_mtime (entries v)) ->
  Q tt (with_stat (match known_size d osz with Some sz => <[N.to_nat x := sz]> (c_size (entries v)) | None => c_size (entries v) end)
                  (match omt with Some mt => <[N.to_nat x := mt]> (c_mtime (entries v)) | None => c_mtime (entries v) end) v) ->
  wp (write_meta d osz omt x) Q v.
Proof.
  intros L1 L2 HQ. unfold write_meta. apply wp_bind.
  assert (Hmt : forall w, c_mtime (entries w) = c_mtime (entries v) -> Q tt (with_stat (c_size (entries w)) (match omt with Some mt => <[N.to_nat x := mt]> (c_mtime (entries w)) | None => c_mtime (entries w) end) w) ->
    wp (match omt with Some mt => ent (set_mtime x mt) | None => st_ret tt end) Q w).
  { intros w Em Hw. destruct omt as [mt|].
    - eapply wp_ent_set; [rewrite setN_some by (by rewrite Em); reflexivity|]. by destruct w as [[] ? ? ? ? ? ? ? ? ?].
    - apply wp_ret. by destruct w as [[] ? ? ? ? ? ? ? ? ?]. }
  destruct osz as [sz|]; [|apply wp_ret, Hmt; [done|]; by destruct d].
  destruct d; cbn [st_when negb]; [by apply wp_ret, Hmt|].
  eapply wp_ent_set; [rewrite setN_some by done; reflexivity|]. by apply Hmt.
Qed.

(** What a column holds after a value, if there is one, is written to [l]. *)
Definition column_set {A} (l : list N) (o : option A) (c c' : list A) : Prop :=
  len c' = len c /\ forall e, getN e c' = if decide (e ∈ l) then (match o with Some x => Some x | None => getN e c end) else getN e c.

Lemma column_set_cons {A} x l (o : option A) c c' :
  x < len c -> column_set l o (match o with Some y => <[N.to_nat x := y]> c | None => c end) c' -> column_set (x :: l) o c c'.
Proof.
  intros Hx [Hl Hg]. destruct o as [y|]; split; [by rewrite Hl, len_insert| |done|].
  - intros e. rewrite Hg. rewrite getN_insert by done. destruct (decide (e ∈ l)), (decide (x = e)), (decide (e ∈ x :: l)); try done; set_solver.
  - intros e. rewrite Hg. by repeat case_decide.
Qed.

Lemma wp_meta_loop d osz omt l : forall fuel cur v Q,
  (length l <= fuel)%nat -> nseg (c_next_link (entries v)) cur l ->
  (forall e, e ∈ l -> e < len (c_size (entries v)) /\ e < len (c_mtime (entries v))) ->
  (forall sz mt, column_set l (known_size d osz) (c_size (entries v)) sz -> column_set l omt (c_mtime (entries v)) mt -> Q tt (with_stat sz mt v)) ->
  wp (links_for fuel (write_meta d osz omt) cur) Q v.
Proof.
  induction l as [|x l IH]; intros fuel cur v Q Hfuel Hs Hlt HQ.
  { cbn in Hs. subst cur. assert (Q tt v); [|destruct fuel; cbn; by apply wp_ret].
    destruct v as [[] ? ? ? ? ? ? ? ? ?]. by apply (HQ c_size c_mtime). }
  destruct fuel as [|fuel]; [simpl in Hfuel; lia|]. cbn [nseg] in Hs. destruct Hs as (-> & HxN & n & Hn & Hs).
  destruct (Hlt x) as [L1 L2]; [left|]. cbn [links_for]. rewrite (proj2 (N.eqb_neq _ _) HxN). apply wp_bind, wp_write_meta; [done..|].
  apply wp_bind. eapply wp_ent_read; [exact Hn|]. eapply IH; [simpl in Hfuel; lia|exact Hs| |].
  - intros e He. destruct (Hlt e) as [M1 M2]; [by right|]. cbn. split; [destruct (known_size d osz)|destruct omt]; by rewrite ?len_insert.
  - intros sz mt C1 C2. change (Q tt (with_stat sz mt v)). apply HQ; apply column_set_cons; [done|exact C1|done|exact C2].
Qed.

Record meta_post f osz omt v v' : Prop := {
  me_ok : vol_ok v';
  me_frame : frame_vol v v';
  me_links e : link_of v f e -> abs v' e = with_meta osz omt <$> abs v e;
  me_others e : ~ link_of v f e -> abs v' e = abs v e
}.

Lemma wp_meta v f d osz omt Q :
  vol_ok v -> (forall v', meta_post f (known_size d osz) omt v v' -> (forall k, space v k -> space v' k) -> Q tt v') ->
  wp (o <- head_of f ;;
      match o with
      | None => st_ret tt
      | Some head => fuel <- st_get fuel_of ;; links_for fuel (write_meta d osz omt) head
      end) Q v.
Proof.
  intros Hv HQ. unfold head_of. apply wp_bind, wp_bind, wp_get.
  assert (Hsame : (forall e, ~ link_of v f e) -> Q tt v). { intros Hno. apply HQ; [|done]. split; try done. intros e He. by destruct (Hno e). }
  destruct (head_cases v f Hv) as [(h & f' & Hg & Hf & Ha & Hlf & Hyes & Hno)|(Hg & Hnor & Hno)]; rewrite Hg; [|by apply wp_ret, wp_ret, Hsame].
  apply wp_bind. wp_get_col. apply wp_ret. destruct (N.eqb_spec f' f) as [->|Hne]; [|by apply wp_ret, Hsame, Hno].
  destruct (links_found _ _ _ Hv Hg) as (l & f1 & Hs & Hnd & Hr & Hin & Hfr).
  assert (Hl : forall e, e ∈ h :: l <-> link_of v f e) by (intros e; rewrite Hin; by apply (link_of_record v _ f h)).
  pose proof (i_cols _ _ _ _ _ _ _ (proj1 Hv)) as Hc. unfold cols_ok in Hc.
  apply wp_bind, wp_get. eapply (wp_meta_loop _ _ _ (h :: l)); [|exact Hs| |].
  { eapply chain_fuel; [apply Hv|done|]. intros e He%Hin. apply He. }
  { intros e (Hae & _)%Hin. pose proof (alive_lt _ _ _ _ _ _ _ e (proj1 Hv) Hae). unfold cap in *. lia. }
  intros sz mt [L1 E1] [L2 E2]. apply HQ; [|intros k Hk; by destruct Hk].
  assert (Habs : forall e a, abs v e = Some a -> abs (with_stat sz mt v) e = Some (if decide (e ∈ h :: l) then with_meta (known_size d osz) omt a else a)).
  { intros e a Hae. assert (Hsm : getN e (c_size (entries v)) = Some (a_size a) /\ getN e (c_mtime (entries v)) = Some (a_mtime a)).
    { unfold abs in Hae. case_decide; [|done]. repeat (apply bind_Some in Hae as (? & ? & Hae)). by simplify_eq. }
    destruct Hsm as [S1 S2]. specialize (E1 e). specialize (E2 e). rewrite S1 in E1. rewrite S2 in E2. case_decide.
    - assert (E1' : getN e sz = Some (default (a_size a) (known_size d osz))) by (rewrite E1; by destruct (known_size d osz)).
      assert (E2' : getN e mt = Some (default (a_mtime a) omt)) by (rewrite E2; by destruct omt).
      erewrite abs_with_stat; [|exact Hae|exact E1'|exact E2'].
      done.
    - erewrite abs_with_stat; [|exact Hae|exact E1|exact E2]. by destruct a. }
  split.
  - apply vol_inv_stat; [done|unfold cap; lia..].
  - by split.
  - intros e He. destruct (abs_total _ _ _ Hv (link_alive _ _ _ He)) as [a Hae]. rewrite (Habs e a Hae), Hae, decide_True; [done|by apply Hl].
  - intros e He. destruct (abs v e) as [a|] eqn:Hae.
    + rewrite (Habs e a Hae), decide_False; [done|by rewrite Hl].
    + unfold abs in *. change (alive (with_stat sz mt v) e) with (alive v e). destruct (decide (alive v e)) as [Hal|]; [|done].
      destruct (abs_total _ _ _ Hv Hal) as [a Ha']. unfold abs in Ha'. rewrite decide_True in Ha' by done. by rewrite Hae in Ha'.
Qed.

(** ** A file in its folders *)

(** A link of [f] called [nm] lies in an entry of [pf]. *)
Definition homed v f pf nm : Prop := exists e a, link_of v f e /\ abs v e = Some a /\ a_name a = nm /\ link_of v pf (a_parent a).

Lemma kept_entry P v v' f e a :
  kept P v v' -> record_number f ∉ P -> link_of v f e -> abs v e = Some a ->
  exists p, abs v' e = Some (set_a_parent p a) /\ link_of v' f e /\ (p = a_parent a \/ touched P v (a_parent a)).
Proof.
  intros [[_ Hlf _] K2 _] Hf (Hne & b & Hb & <-) Ha. assert (b = a) as -> by congruence. destruct (K2 e a Ha) as (p & Hp & Hor).
  { intros (_ & c & Hc & Hin). by simplify_eq. }
  exists p. split; [done|]. split; [|destruct Hor as [|[_ ?]]; auto]. split; [congruence|]. by eexists.
Qed.

Lemma kept_link P v v' f e : kept P v v' -> record_number f ∉ P -> link_of v f e -> link_of v' f e.
Proof. intros K Hf Hl. pose proof Hl as (_ & a & Ha & _). by destruct (kept_entry P v v' f e a K Hf Hl Ha) as (p & _ & ? & _). Qed.

Lemma kept_homed P v v' f pf nm : kept P v v' -> record_number f ∉ P -> record_number pf ∉ P -> homed v f pf nm -> homed v' f pf nm.
Proof.
  intros K Hf Hp (e & a & Hl & Ha & Hn & Hpl). destruct (kept_entry P v v' f e a K Hf Hl Ha) as (p & Hp' & Hl' & Hor).
  exists e, (set_a_parent p a). split; [done|]. split; [done|]. split; [done|]. cbn. destruct Hor as [-> |(_ & b & Hb & Hin)]; [by eapply kept_link|].
  destruct Hpl as (_ & b' & Hb' & <-). by simplify_eq.
Qed.

Lemma added_link_of f a v v' g e : link_added f a v v' -> link_of v g e -> link_of v' g e.
Proof.
  intros [_ [[_ Hlf _] _ _] _ Hold _ _] (Hne & b & Hb & Hf). destruct (Hold e b Hb) as [n Hn]. split; [congruence|]. by eexists.
Qed.

Lemma added_homed f a v v' g pf nm : link_added f a v v' -> homed v g pf nm -> homed v' g pf nm.
Proof.
  intros Ha (e & b & Hl & Hb & Hn & Hp). destruct (la_old _ _ _ _ Ha e b Hb) as [n Hb']. exists e, (set_a_next n b).
  split_and!; [by eapply added_link_of|done|done|by eapply added_link_of].
Qed.

Lemma meta_link f osz omt v v' g e : vol_ok v -> meta_post f osz omt v v' -> link_of v g e -> link_of v' g e.
Proof.
  intros Hv [_ [_ Hlf _] M1 M2] (Hne & b & Hb & Hf). split; [congruence|]. destruct (decide (g = f)) as [-> |Hgf].
  - rewrite M1 by (split; eauto). rewrite Hb. by eexists.
  - rewrite M2; [by eexists|]. intros (_ & b' & Hb' & <-). by simplify_eq.
Qed.

Lemma meta_homed f osz omt v v' g pf nm : vol_ok v -> meta_post f osz omt v v' -> homed v g pf nm -> homed v' g pf nm.
Proof.
  intros Hv M (e & b & Hl & Hb & Hn & Hp). destruct (decide (g = f)) as [-> |Hgf].
  - exists e, (with_meta osz omt b). split_and!; [by eapply meta_link| |done|by eapply meta_link]. by rewrite (me_links _ _ _ _ _ M e Hl), Hb.
  - exists e, b. split_and!; [by eapply meta_link| |done|by eapply meta_link]. rewrite (me_others _ _ _ _ _ M e); [done|].
    intros (_ & b' & Hb' & Hf'). destruct Hl as (_ & b2 & Hb2 & Hf2). by simplify_eq.
Qed.

Lemma link_dec v f e : link_of v f e \/ ~ link_of v f e.
Proof.
  unfold link_of. destruct (abs v e) as [a|]; [|right; naive_solver].
  destruct (decide (e = lost_found v)), (decide (a_frn a = f)); naive_solver.
Qed.

Lemma meta_back f osz omt v v' e a' : meta_post f osz omt v v' -> abs v' e = Some a' -> exists a, abs v e = Some a /\ a_frn a = a_frn a'.
Proof.
  intros M Ha'. destruct (link_dec v f e) as [Hl|Hl].
  - rewrite (me_links _ _ _ _ _ M e Hl) in Ha'. destruct (abs v e) as [a|]; [|done]. injection Ha' as <-. by exists a.
  - rewrite (me_others _ _ _ _ _ M e Hl) in Ha'. by exists a'.
Qed.

Lemma meta_kept f osz omt v v' : meta_post f osz omt v v' -> kept [record_number f] v v'.
Proof.
  intros M. split; [apply M| |].
  - intros e a Ha Hn. exists (a_parent a). rewrite set_a_parent_id. split; [|auto]. rewrite (me_others _ _ _ _ _ M); [done|].
    intros (Hlf & b & Hb & <-). apply Hn. split; [done|]. exists b. split; [done|left].
  - intros e a' Ha'. left. by eapply meta_back.
Qed.

(** ** Files told apart by their records *)

(** No two files of [F] share a record; every entry but lost+found is of a file
    of [F]. *)
Definition apart (F : N -> Prop) : Prop := forall f g, F f -> F g -> record_number f = record_number g -> f = g.
Definition within (F : N -> Prop) v : Prop := forall e a, abs v e = Some a -> e <> lost_found v -> F (a_frn a).

Lemma within_not_stale F v f : vol_ok v -> apart F -> F f -> within F v -> not_stale v f.
Proof.
  intros Hv HF Hf Hw e (Hlf & a & Ha & Hr)%(of_record_abs _ _ _ _ Hv). split; [done|]. exists a. split; [done|]. apply HF; [by eapply Hw|done..].
Qed.

(** Entries that appear are of one of these files. *)
Lemma within_new P F v v' : vol_ok v' -> kept P v v' -> (forall f, record_number f ∈ P -> exists g e, F g /\ record_number g = record_number f /\ link_of v' g e) -> within F v -> within F v'.
Proof.
  intros Hv' K HP Hw e a' Ha' Hlf. destruct (k_new _ _ _ K e a' Ha') as [(a & Ha & Ef)|Hin].
  - rewrite <- Ef. apply (Hw e a Ha). by rewrite <- (fv_lf _ _ (k_frame _ _ _ K)).
  - destruct (HP _ Hin) as (g & e' & Hg & Er & Hl). assert (Hrec : of_record v' (record_number g) e).
    { apply (of_record_abs _ _ _ _ Hv'). rewrite Er. eauto. }
    destruct (record_is_link v' g e' e Hv' Hl Hrec) as (_ & b & Hb & <-). by simplify_eq.
Qed.

(** What more names of [f], in folders [ps], leave: its links, the files told
    apart, and every entry of another file. *)
Record grown f (ps : list N) v v' : Prop := {
  gr_lf : lost_found v' = lost_found v;
  gr_links e : link_of v f e -> link_of v' f e;
  gr_within F : apart F -> F f -> Forall F ps -> within F v -> within F v';
  gr_single F h : apart F -> F f -> Forall F ps -> F h -> h <> f -> one_link v h -> one_link v' h;
  gr_known F h e : apart F -> F f -> Forall F ps -> within F v -> F h -> h <> f -> (exists e0, link_of v h e0) -> link_of v' h e -> link_of v h e;
  gr_quiet F e a : apart F -> F f -> Forall F ps -> within F v -> abs v e = Some a -> ~ link_of v f e -> abs v' e = Some a
}.

Lemma grown_refl f ps v : grown f ps v v.
Proof. by split. Qed.

Lemma grown_trans f ps v v1 v2 : grown f ps v v1 -> grown f ps v1 v2 -> grown f ps v v2.
Proof.
  intros [A1 A2 A3 A5 A6 A4] [B1 B2 B3 B5 B6 B4]. split; [congruence|auto|eauto| | |].
  { intros F h HF Hf Hp Hh Hne H1. apply (B5 F); try done. by apply (A5 F). }
  { intros F h e HF Hf Hp Hw Hh Hne [e0 He0] He. apply (A6 F); try done; [by exists e0|]. apply (B6 F); try done; [by apply A3|]. exists e0.
    pose proof He0 as (Hlf & b & Hb & Hfb). split; [by rewrite A1|]. exists b. split; [|done]. apply (A4 F); try done. intros (_ & c & Hc & Hfc). by simplify_eq. }
  intros F e a HF Hf Hp Hw Ha Hl.
  apply (B4 F); [done..|by apply A3|by apply (A4 F)|]. intros (Hlf & b & Hb & Hfb). rewrite (A4 F e a HF Hf Hp Hw Ha Hl) in Hb. injection Hb as <-.
  apply Hl. split; [congruence|]. by exists a.
Qed.

Lemma link_back P v v' h e : kept P v v' -> record_number h ∉ P -> link_of v' h e -> link_of v h e.
Proof.
  intros K Hh (Hlf & a & Ha & <-). destruct (k_new _ _ _ K e a Ha) as [(b & Hb & Eb)|Hin]; [|done].
  split; [by rewrite <- (fv_lf _ _ (k_frame _ _ _ K))|]. by exists b.
Qed.

Lemma kept_single P v v' h : kept P v v' -> record_number h ∉ P -> one_link v h -> one_link v' h.
Proof. intros K Hh H1 e1 e2 L1 L2. apply H1; by eapply link_back. Qed.

Lemma known_dec v f : vol_ok v -> (exists e, link_of v f e) \/ (forall e, ~ link_of v f e).
Proof.
  intros Hv. destruct (head_cases v f Hv) as [(h & f' & _ & _ & _ & _ & Hyes & Hno)|(_ & _ & Hno)]; [|auto].
  destruct (decide (f' = f)); eauto.
Qed.

Lemma resolve_grown v f pf p v' ps : vol_ok v -> (exists e, link_of v f e) -> pf ∈ ps -> link_parent_post v f pf p v' -> grown f ps v v'.
Proof.
  intros Hv [e0 He0] Hps [Hv' Hpar Hal K Hknown _ Hlinks _ Hst Hmade]. split.
  - apply (k_frame _ _ _ K).
  - intros e Hl. pose proof Hl as (Hlf & b & Hb & Hfb). destruct (Hlinks e b Hl Hb) as [q Hq]. split; [by rewrite (fv_lf _ _ (k_frame _ _ _ K))|]. by eexists.
  - intros F HF Hf HP Hw. rewrite Forall_forall in HP. eapply within_new; [done|exact K| |done].
    intros g ->%list_elem_of_singleton. unfold parent_is in Hpar. destruct (_ && _) eqn:E; [|by exists pf, p; auto].
    simpl_cmp. exists f, e0. split; [done|]. split; [done|]. pose proof He0 as (Hlf & b & Hb & Hfb). destruct (Hlinks e0 b He0 Hb) as [q Hq].
    split; [by rewrite (fv_lf _ _ (k_frame _ _ _ K))|]. by eexists.
  - intros F h HF Hf HP Hh Hne H1. rewrite Forall_forall in HP. destruct (decide (h = pf)) as [-> |Hhp].
    + destruct (known_dec v pf Hv) as [Hk|Hk]; [by rewrite Hknown|by apply Hmade].
    + eapply kept_single; [exact K| |done]. rewrite list_elem_of_singleton. intros E. apply Hhp, HF; auto.
  - intros F h e HF Hf HP Hw Hh Hne Hk He. rewrite Forall_forall in HP. destruct (decide (h = pf)) as [-> |Hhp]; [by rewrite Hknown in He|].
    eapply link_back; [exact K| |done]. rewrite list_elem_of_singleton. intros E. apply Hhp, HF; auto.
  - intros F e a HF Hf HP Hw Ha _. rewrite Forall_forall in HP. apply Hst; [|done]. eapply within_not_stale; [done|exact HF|by apply HP|done].
Qed.

Lemma added_grown f b v v' ps : link_added f b v v' -> grown f ps v v'.
Proof.
  intros Ha. split.
  - apply (k_frame _ _ _ (la_kept _ _ _ _ Ha)).
  - intros e. by eapply added_link_of.
  - intros F HF Hf _ Hw. eapply within_new; [apply Ha|apply Ha| |done]. intros g ->%list_elem_of_singleton.
    destruct (la_new _ _ _ _ Ha) as (e & _ & Hl). by exists f, e.
  - intros F h HF Hf _ Hh Hne. eapply kept_single; [apply Ha|]. rewrite list_elem_of_singleton. intros E. by apply Hne, HF.
  - intros F h e HF Hf _ _ Hh Hne _. eapply link_back; [apply Ha|]. rewrite list_elem_of_singleton. intros E. by apply Hne, HF.
  - intros F e a HF Hf _ Hw Hae Hl. by apply (la_others _ _ _ _ Ha).
Qed.

Lemma meta_grown f osz omt v v' ps : vol_ok v -> meta_post f osz omt v v' -> grown f ps v v'.
Proof.
  intros Hv M. split.
  - apply (me_frame _ _ _ _ _ M).
  - intros e. by eapply meta_link.
  - intros F HF Hf _ Hw e a' Ha' Hlf. destruct (meta_back _ _ _ _ _ _ _ M Ha') as (a & Ha & <-). apply (Hw e a Ha).
    by rewrite <- (fv_lf _ _ (me_frame _ _ _ _ _ M)).
  - intros F h HF Hf _ Hh Hne. eapply kept_single; [by eapply meta_kept|]. rewrite list_elem_of_singleton. intros E. by apply Hne, HF.
  - intros F h e HF Hf _ _ Hh Hne _. eapply link_back; [by eapply meta_kept|]. rewrite list_elem_of_singleton. intros E. by apply Hne, HF.
  - intros F e a HF Hf _ Hw Ha Hl. by rewrite (me_others _ _ _ _ _ M e Hl).
Qed.

Lemma upsert_grown v f pf name l d r v' ps : vol_ok v -> pf ∈ ps -> upsert_post v f pf name l d r v' -> grown f ps v v'.
Proof.
  intros Hv Hps (Hv' & K & Kf & [p Hp] & Hmade & Hst & Hr).
  assert (Hlinks : forall e, link_of v f e -> link_of v' f e).
  { intros e Hl. pose proof Hl as (Hlf & b & Hb & Hfb). destruct r.
    - destruct Hr as (idx & a & q & Hone & _ & _ & _ & Hsz). apply Hone. by destruct (Hsz e b Hl Hb).
    - destruct Hr as [_ Hr]. destruct (Hr e b Hl Hb) as [q Hq]. split; [by rewrite (fv_lf _ _ (k_frame _ _ _ K))|]. by eexists. }
  assert (Hsome : exists e, link_of v' f e).
  { destruct r; [destruct Hr as (idx & a & q & Hone & _); exists idx; by apply Hone|]. destruct Hr as [(e1 & e2 & _ & Hl1 & _) _]. exists e1. by apply Hlinks. }
  split; [apply (k_frame _ _ _ K)|done| | | |].
  - intros F HF Hf HP Hw. rewrite Forall_forall in HP. eapply within_new; [done|exact K| |done].
    destruct Hsome as [e0 He0]. intros g Hg. apply elem_of_cons in Hg as [-> |Hg]; [by exists f, e0|]. apply list_elem_of_singleton in Hg as ->.
    unfold parent_is in Hp. destruct (_ && _) eqn:E; [|by exists pf, p; auto]. simpl_cmp. by exists f, e0.
  - intros F h HF Hf HP Hh Hne H1. rewrite Forall_forall in HP. destruct (decide (h = pf)) as [-> |Hhp].
    + destruct (known_dec v pf Hv) as [Hk|Hk]; [|by apply Hmade]. eapply kept_single; [by apply Kf| |done]. rewrite list_elem_of_singleton. intros E. by apply Hne, HF.
    + eapply kept_single; [exact K| |done]. intros Hin. apply elem_of_cons in Hin as [E|E]; [by apply Hne, HF|].
      apply list_elem_of_singleton in E. apply Hhp, HF; auto.
  - intros F h e HF Hf HP Hw Hh Hne Hk He. rewrite Forall_forall in HP. destruct (decide (h = pf)) as [-> |Hhp].
    + eapply link_back; [by apply Kf| |done]. rewrite list_elem_of_singleton. intros E. by apply Hne, HF.
    + eapply link_back; [exact K| |done]. intros Hin. apply elem_of_cons in Hin as [E|E]; [by apply Hne, HF|].
      apply list_elem_of_singleton in E. apply Hhp, HF; auto.
  - intros F e a HF Hf HP Hw. rewrite Forall_forall in HP. apply Hst; (eapply within_not_stale; [done|exact HF| |done]); auto.
Qed.

(** ** The names of a file *)

(** The folders are told apart by their records, and from the file. *)
Definition told_apart f (names : list LayoutName) : Prop :=
  (forall n n', n ∈ names -> n' ∈ names -> record_number (ln_parent_frn n) = record_number (ln_parent_frn n') -> ln_parent_frn n = ln_parent_frn n') /\
  forall n, n ∈ names -> record_number (ln_parent_frn n) <> record_number f.

(** The links of [f] are among these names, each in its folder. *)
Definition exact v f (L : list LayoutName) : Prop :=
  forall e a, link_of v f e -> abs v e = Some a -> exists n, n ∈ L /\ a_name a = ln_name n /\ link_of v (ln_parent_frn n) (a_parent a).

Definition tight f (L : list LayoutName) v v' : Prop :=
  forall F, apart F -> F f -> Forall F (ln_parent_frn <$> L) -> told_apart f L -> within F v -> exact v f L -> exact v' f L.

Lemma tight_trans f L v v1 v2 : grown f (ln_parent_frn <$> L) v v1 -> tight f L v v1 -> tight f L v1 v2 -> tight f L v v2.
Proof. intros G T1 T2 F HF Hf HL Ht Hw Hx. apply (T2 F); [done..|by apply G|by apply (T1 F)]. Qed.

Lemma resolve_tight v f n p v' L : vol_ok v -> n ∈ L -> link_parent_post v f (ln_parent_frn n) p v' -> tight f L v v'.
Proof.
  intros Hv Hn P F HF Hf HL [_ Ht] Hw Hx e a' He Ha'. rewrite Forall_forall in HL. pose proof (lp_kept _ _ _ _ _ P) as K.
  assert (Hst : steady v v').
  { apply (lp_steady _ _ _ _ _ P). eapply within_not_stale; [done|exact HF| |done]. apply HL, list_elem_of_fmap. by exists n. }
  assert (He0 : link_of v f e). { eapply link_back; [exact K| |done]. rewrite list_elem_of_singleton. intros E. by apply (Ht n Hn). }
  pose proof He0 as (_ & a & Ha & _). assert (a' = a) as -> by (pose proof (Hst e a Ha); congruence).
  destruct (Hx e a He0 Ha) as (m & Hm & Em & Hlf & b & Hb & Hfb). exists m. split; [done|]. split; [done|].
  split; [by rewrite (fv_lf _ _ (k_frame _ _ _ K))|]. exists b. auto.
Qed.

Lemma added_tight f n p v v' L :
  n ∈ L -> link_of v (ln_parent_frn n) p -> link_added f (added_link f p (ln_name n) (ln_name_lossy n)) v v' -> exact v f L -> exact v' f L.
Proof.
  intros Hn Hp A Hx e a' He Ha'. destruct (la_back _ _ _ _ A e a' Ha') as [-> |(b & m & Hb & ->)].
  - exists n. split_and!; [done..|]. by eapply added_link_of.
  - assert (Hl : link_of v f e).
    { destruct He as (Hlf & c & Hc & Hfc). assert (c = set_a_next m b) as -> by congruence. split; [by rewrite <- (fv_lf _ _ (k_frame _ _ _ (la_kept _ _ _ _ A)))|]. by exists b. }
    destruct (Hx e b Hl Hb) as (n' & Hn' & En & Hpl). exists n'. split_and!; [done..|]. by eapply added_link_of.
Qed.

Lemma meta_tight f osz omt v v' L : vol_ok v -> meta_post f osz omt v v' -> exact v f L -> exact v' f L.
Proof.
  intros Hv M Hx e a' He Ha'. destruct (meta_back _ _ _ _ _ _ _ M Ha') as (a & Ha & Ef).
  assert (Hl : link_of v f e).
  { destruct He as (Hlf & c & Hc & Hfc). split; [by rewrite <- (fv_lf _ _ (me_frame _ _ _ _ _ M))|]. exists a. split; [done|congruence]. }
  rewrite (me_links _ _ _ _ _ M e Hl), Ha in Ha'. injection Ha' as <-. destruct (Hx e a Hl Ha) as (n & Hn & En & Hpl).
  exists n. split_and!; [done..|]. by eapply meta_link.
Qed.

Definition file_records f (names : list LayoutName) : list N := record_number f :: ((fun n => record_number (ln_parent_frn n)) <$> names).

Definition add_name f (n : LayoutName) : ST VolumeIndex unit :=
  parent_idx <- resolve_link_parent f (ln_parent_frn n) ;;
  has <- chain_has_link f parent_idx (ln_name n) ;;
  st_when (negb has) (add_link f parent_idx (ln_name n) (ln_name_lossy n)).

Lemma file_records_sub f names n : n ∈ names -> [record_number (ln_parent_frn n)] ⊆ file_records f names.
Proof. intros Hn x ->%list_elem_of_singleton. unfold file_records. right. apply list_elem_of_fmap. by exists n. Qed.

Lemma wp_add_name v f all n k Q :
  vol_ok v -> (exists e, link_of v f e) -> n ∈ all -> space v (k + 2) -> small_name (ln_name n) ->
  (forall v', vol_ok v' -> kept (file_records f all) v v' -> grown f (ln_parent_frn <$> all) v v' -> (exists e, link_of v' f e) ->
     (told_apart f all -> homed v' f (ln_parent_frn n) (ln_name n) /\
        forall n', n' ∈ all -> homed v f (ln_parent_frn n') (ln_name n') -> homed v' f (ln_parent_frn n') (ln_name n')) ->
     tight f all v v' -> space v' k -> Q tt v') ->
  wp (add_name f n) Q v.
Proof.
  intros Hv [e0 He0] Hn Hsp Hsm HQ. unfold add_name. apply wp_bind.
  eapply (wp_resolve_link v f (ln_parent_frn n) (k + 1)); [done|by replace (k + 1 + 1) with (k + 2) by lia|].
  intros p v1 Hlp Hsp1. assert (G1 : grown f (ln_parent_frn <$> all) v v1).
  { eapply resolve_grown; [exact Hv|by exists e0| |exact Hlp]. apply list_elem_of_fmap. by exists n. }
  assert (T1 : tight f all v v1) by (by eapply resolve_tight).
  destruct Hlp as [Hv1 Hpar Hal K1 Hknown _ Hlinks _ _ _]. assert (He1 : link_of v1 f e0).
  { pose proof He0 as (Hlf & b & Hb & Hfb). destruct (Hlinks e0 b He0 Hb) as [q Hq]. split; [by rewrite (fv_lf _ _ (k_frame _ _ _ K1))|]. by eexists. }
  assert (KK1 : kept (file_records f all) v v1) by (eapply kept_mono; [by apply file_records_sub|exact K1]).
  assert (Hst : told_apart f all -> link_of v1 (ln_parent_frn n) p /\
    forall n', n' ∈ all -> homed v f (ln_parent_frn n') (ln_name n') -> homed v1 f (ln_parent_frn n') (ln_name n')).
  { intros [Hd Hf]. specialize (Hf n Hn) as Hfn. split.
    - unfold parent_is in Hpar. rewrite (proj2 (N.eqb_neq _ _) Hfn), andb_false_r in Hpar. done.
    - intros n' Hn' Hh. destruct (decide (record_number (ln_parent_frn n) = record_number (ln_parent_frn n'))) as [E|E].
      + rewrite Hknown; [done|]. rewrite (Hd n n' Hn Hn' E). destruct Hh as (e & a & _ & _ & _ & Hp). by exists (a_parent a).
      + eapply kept_homed; [exact K1| | |exact Hh]; rewrite list_elem_of_singleton; congruence. }
  apply wp_bind. apply wp_chain_has_link; [done|]. intros has Hhas. apply wp_when; intros Hb; simpl_cmp.
  - subst has. eapply wp_add_link; [exact Hv1|by exists e0|exact Hsp1|exact Hsm|exact Hal|]. intros v2 Ha Hsp2. apply HQ; [apply Ha| | | | | |done].
    2: { eapply grown_trans; [exact G1|by eapply added_grown]. }
    + eapply kept_trans; [exact Hv|exact Hv1|exact KK1|]. eapply kept_mono; [|apply Ha]. intros x ->%list_elem_of_singleton. left.
    + exists e0. by eapply added_link_of.
    + intros HS. destruct (Hst HS) as [Hpl Hold]. split.
      * destruct (la_new _ _ _ _ Ha) as (e & Hae & Hle). exists e, (added_link f p (ln_name n) (ln_name_lossy n)). split_and!; [done..|].
        by eapply added_link_of.
      * intros n' Hn' Hh. eapply added_homed; [exact Ha|by apply Hold].
    + eapply tight_trans; [exact G1|exact T1|]. intros F HF Hf HL HS Hw. eapply added_tight; [exact Hn| |exact Ha]. by apply Hst.
  - subst has. apply HQ; [done..|by exists e0| |done|by apply (space_le _ _ _ Hsp1); lia]. intros HS. destruct (Hst HS) as [Hpl Hold]. split; [|done].
    destruct (Hhas eq_refl) as (e & a & Hl & Ha & Ep & En). exists e, a. split_and!; try done. by rewrite Ep.
Qed.

Lemma wp_add_names f all names : forall before v k Q,
  before ++ names = all -> vol_ok v -> (exists e, link_of v f e) -> space v (k + 2 * len names) -> Forall (fun n => small_name (ln_name n)) names ->
  (told_apart f all -> forall n, n ∈ before -> homed v f (ln_parent_frn n) (ln_name n)) ->
  (forall v', vol_ok v' -> kept (file_records f all) v v' -> grown f (ln_parent_frn <$> all) v v' -> (exists e, link_of v' f e) ->
     (told_apart f all -> forall n, n ∈ all -> homed v' f (ln_parent_frn n) (ln_name n)) -> tight f all v v' -> space v' k -> Q tt v') ->
  wp (st_for (add_name f) names) Q v.
Proof.
  induction names as [|n names IH]; intros before v k Q Eall Hv Hl Hsp Hsm Hb HQ.
  { rewrite app_nil_r in Eall. subst before. apply wp_ret, HQ; try done; [apply kept_refl|by intros F|]. by apply (space_le _ _ _ Hsp); lia. }
  apply Forall_cons in Hsm as [Hn Hsm]. cbn [st_for]. apply wp_bind. rewrite len_cons in Hsp.
  assert (Hin : n ∈ all) by (rewrite <- Eall; set_solver).
  eapply (wp_add_name v f all n (k + 2 * len names)); [done..|by apply (space_le _ _ _ Hsp); lia|done|].
  intros v1 Hv1 K1 G1 Hl1 Hst1 T1 Hsp1. eapply (IH (before ++ [n])); [by rewrite <- app_assoc|done..| |].
  - intros HS m Hm. destruct (Hst1 HS) as [Hh Hold]. apply elem_of_app in Hm as [Hm|Hm]; [|by apply list_elem_of_singleton in Hm as ->].
    apply Hold; [rewrite <- Eall; set_solver|by apply Hb].
  - intros v2 Hv2 K2 G2 Hl2 Hst2 T2 Hsp2. apply HQ; try done; [|by eapply grown_trans|by eapply tight_trans]. eapply kept_trans; [exact Hv|exact Hv1|done|done].
Qed.

(** ** A file of the listing *)

(** The size and date of a listing are those of every link of the file. *)
Definition has_meta f osz omt v : Prop :=
  forall e, link_of v f e -> exists a, abs v e = Some a /\ a_size a = default (a_size a) osz /\ a_mtime a = default (a_mtime a) omt.

Lemma meta_has_meta f osz omt v v' : meta_post f osz omt v v' -> has_meta f osz omt v'.
Proof.
  intros M e (Hne & a & Ha & Hf). destruct (meta_back _ _ _ _ _ _ _ M Ha) as (b & Hb & E). rewrite (fv_lf _ _ (me_frame _ _ _ _ _ M)) in Hne.
  exists (with_meta osz omt b). rewrite (me_links _ _ _ _ _ M) by (split; [done|]; exists b; split; [done|congruence]). rewrite Hb. split; [done|]. by destruct osz, omt.
Qed.

(** The names a file is indexed under: a directory has one. *)
Definition listed_names (file : LayoutFile) : list LayoutName := if layout_is_dir file then take 1 (real_names file) else real_names file.

Lemma listed_real file : listed_names file ⊆ real_names file.
Proof. unfold listed_names. destruct (layout_is_dir file); [|done]. intros n Hn. by eapply elem_of_take in Hn as (i & ? & _); eapply list_elem_of_lookup_2. Qed.

Lemma told_apart_sub f L L' : L' ⊆ L -> told_apart f L -> told_apart f L'.
Proof. intros Hs [H1 H2]. split; eauto. Qed.

Lemma exact_mono v f L L' : L ⊆ L' -> exact v f L -> exact v f L'.
Proof. intros Hs Hx e a Hl Ha. destruct (Hx e a Hl Ha) as (n & Hn & Hrest). exists n. split; [by apply Hs|done]. Qed.

(** What [enrich] and [insert_layout] leave. *)
Record layout_post (file : LayoutFile) v v' : Prop := {
  lo_ok : vol_ok v';
  lo_kept : kept (file_records (lf_frn file) (real_names file)) v v';
  lo_names : layout_is_dir file = false -> told_apart (lf_frn file) (real_names file) -> (exists e, link_of v' (lf_frn file) e) ->
    forall n, n ∈ real_names file -> homed v' (lf_frn file) (ln_parent_frn n) (ln_name n);
  lo_grown : grown (lf_frn file) (ln_parent_frn <$> real_names file) v v';
  lo_meta : has_meta (lf_frn file) (known_size (layout_is_dir file) (lf_size file)) (lf_mtime_ft file) v'
}.

Lemma wp_enrich v file k Q :
  vol_ok v -> (exists e, link_of v (lf_frn file) e) -> Forall (fun n => small_name (ln_name n)) (real_names file) -> space v (k + 2 * len (real_names file)) ->
  (forall v', layout_post file v v' -> (exists e, link_of v' (lf_frn file) e) ->
     (told_apart (lf_frn file) (real_names file) -> forall n, n ∈ real_names file -> homed v (lf_frn file) (ln_parent_frn n) (ln_name n) ->
        homed v' (lf_frn file) (ln_parent_frn n) (ln_name n)) -> tight (lf_frn file) (listed_names file) v v' -> space v' k -> Q tt v') ->
  wp (Volume.enrich file) Q v.
Proof.
  intros Hv Hl Hsm Hsp HQ. set (f := lf_frn file) in *. set (names := real_names file) in *.
  unfold Volume.enrich. cbv zeta. apply wp_bind. apply wp_head_of; [done|]. intros [h|] Hyes Hno.
  2: { destruct Hl as [e He]. by destruct (Hno eq_refl e). }
  apply wp_bind, wp_ret. cbn [st_when]. apply wp_bind.
  assert (Hend : forall v1, vol_ok v1 -> kept (file_records f names) v v1 -> grown f (ln_parent_frn <$> names) v v1 -> (exists e, link_of v1 f e) ->
    (layout_is_dir file = false -> told_apart f names -> forall n, n ∈ names -> homed v1 f (ln_parent_frn n) (ln_name n)) ->
    (told_apart f names -> forall n, n ∈ names -> homed v f (ln_parent_frn n) (ln_name n) -> homed v1 f (ln_parent_frn n) (ln_name n)) ->
    tight f (listed_names file) v v1 -> space v1 k ->
    wp (o <- head_of f ;; match o with None => st_ret tt | Some head => fuel <- st_get fuel_of ;; links_for fuel (write_meta (layout_is_dir file) (lf_size file) (lf_mtime_ft file)) head end) Q v1).
  { intros v1 Hv1 K1 G1 [e He] Hn1 Ho1 T1 Hsp1. eapply wp_meta; [done|]. intros v2 M Hsp2.
    assert (He2 : link_of v2 f e) by (by eapply meta_link). apply HQ; [|by exists e| | |by apply Hsp2].
    - split; [apply M| | |eapply grown_trans; [exact G1|by eapply meta_grown]|by eapply meta_has_meta].
      + eapply kept_trans; [exact Hv|exact Hv1|exact K1|]. eapply kept_mono; [|by eapply meta_kept]. intros x ->%list_elem_of_singleton. left.
      + intros Hd HS _ n Hn. eapply meta_homed; [done|exact M|by apply Hn1].
    - intros HS n Hn Hh. eapply meta_homed; [done|exact M|by apply Ho1].
    - intros F HF Hf HL HS Hw Hx. eapply meta_tight; [done|exact M|by apply (T1 F)]. }
  apply wp_when; intros Hd; simpl_cmp.
  - change (wp (st_for (add_name f) names) (fun _ v1 => wp (o <- head_of f ;; match o with None => st_ret tt | Some head => fuel <- st_get fuel_of ;; links_for fuel (write_meta (layout_is_dir file) (lf_size file) (lf_mtime_ft file)) head end) Q v1) v).
    eapply (wp_add_names f names names []); [done..|intros _ n ?%not_elem_of_nil; done|].
    intros v1 Hv1 K1 G1 Hl1 Hn1 T1 Hsp1. apply Hend; auto. unfold listed_names. by rewrite Hd.
  - apply Hend; try done; [apply kept_refl|congruence|by intros F|]. by apply (space_le _ _ _ Hsp); lia.
Qed.

Lemma real_names_first file :
  match list_find (fun n => dos_only n = false) (lf_names file) with
  | Some (_, n) => exists rest, real_names file = n :: rest
  | None => real_names file = []
  end.
Proof.
  unfold real_names. induction (lf_names file) as [|n names IH]; [done|]. cbn [list_find]. rewrite filter_cons.
  destruct (decide (dos_only n = false)); [by eexists|]. by destruct (list_find _ names) as [[i m]|].
Qed.

(** A file with no name of its own is left out. *)
Lemma enrich_nameless v file : vol_ok v -> real_names file = [] -> (forall e, ~ link_of v (lf_frn file) e) -> Volume.enrich file v = Some (tt, v).
Proof.
  intros Hv Hn Hno. assert (W : wp (Volume.enrich file) (fun _ v' => v' = v) v).
  { unfold Volume.enrich. cbv zeta. apply wp_bind. apply wp_head_of; [done|]. intros [h|] Hyes _; [by destruct (Hno h); apply Hyes|].
    rewrite Hn. by apply wp_ret. }
  unfold wp in W. destruct (Volume.enrich file v) as [[[] v']|]; [by subst|done].
Qed.

Lemma wp_insert_layout v file k Q :
  vol_ok v -> (forall n rest, real_names file = n :: rest -> ln_parent_frn n = lf_frn file -> exists e, link_of v (lf_frn file) e) ->
  Forall (fun n => small_name (ln_name n)) (real_names file) -> space v (k + 2 + 2 * len (real_names file)) ->
  (forall v', layout_post file v v' ->
     (forall n rest, real_names file = n :: rest -> (exists e, link_of v' (lf_frn file) e) /\
        (told_apart (lf_frn file) (real_names file) -> (forall e1 e2, link_of v (lf_frn file) e1 -> link_of v (lf_frn file) e2 -> e1 = e2) ->
           homed v' (lf_frn file) (ln_parent_frn n) (ln_name n) /\
           forall F, apart F -> F (lf_frn file) -> Forall F (ln_parent_frn <$> real_names file) -> within F v -> exact v' (lf_frn file) (listed_names file))) ->
     space v' k -> Q tt v') ->
  wp (insert_layout file) Q v.
Proof.
  intros Hv Hself Hsm Hsp HQ. unfold insert_layout. pose proof (real_names_first file) as Hfirst.
  destruct (list_find _ (lf_names file)) as [[i n]|].
  - destruct Hfirst as [rest Hrn]. set (f := lf_frn file) in *.
    assert (Hgo : forall v1, vol_ok v1 -> kept (file_records f (real_names file)) v v1 -> grown f (ln_parent_frn <$> real_names file) v v1 -> (exists e, link_of v1 f e) ->
      (told_apart f (real_names file) -> (forall e1 e2, link_of v f e1 -> link_of v f e2 -> e1 = e2) -> homed v1 f (ln_parent_frn n) (ln_name n) /\ exact v1 f [n]) ->
      space v1 (k + 2 * len (real_names file)) -> wp (Volume.enrich file) Q v1).
    { intros v1 Hv1 K1 G1 Hl1 Hh1 Hsp1. eapply wp_enrich; [done..|]. intros v2 [L1 L2 L3 LG L4] Hl2 Hold T2 Hsp2. apply HQ; [|intros n' rest' E'|done].
      - split; try done; [|by eapply grown_trans]. eapply kept_trans; [exact Hv|exact Hv1|exact K1|exact L2].
      - rewrite Hrn in E'. injection E' as <- <-. split; [done|]. intros HS H1. destruct (Hh1 HS H1) as [Hh Hx].
        split; [apply Hold; [done|rewrite Hrn; left|done]|]. intros F HF Hf HL Hw. pose proof (listed_real file) as Hsub. apply (T2 F); [done..| | | |].
        + rewrite Forall_forall in HL |- *. intros g (m & -> & Hm)%list_elem_of_fmap. apply HL, list_elem_of_fmap. exists m. split; [done|by apply Hsub].
        + by eapply told_apart_sub.
        + by apply G1.
        + eapply exact_mono; [|exact Hx]. intros m ->%list_elem_of_singleton. unfold listed_names. rewrite Hrn. destruct (layout_is_dir file); left. }
    apply wp_bind. destruct (N.eqb_spec (ln_parent_frn n) f) as [E|E].
    + apply wp_ret. apply Hgo; [done|apply kept_refl|apply grown_refl|by eapply Hself| |by apply (space_le _ _ _ Hsp); lia].
      intros [_ HS] _. exfalso. apply (HS n); [rewrite Hrn; left|by rewrite E].
    + apply wp_bind. assert (Hnsm : small_name (ln_name n)) by (rewrite Hrn in Hsm; by apply Forall_cons in Hsm as [? _]).
      eapply (wp_upsert v f _ _ _ _ (k + 2 * len (real_names file))); [done|by apply (space_le _ _ _ Hsp); lia|done|].
      intros r v1 Hup Hsp1. pose proof Hup as (Hv1 & K1 & _ & _ & _ & _ & Hr). apply wp_ret. apply Hgo; [done| |eapply upsert_grown; [exact Hv| |exact Hup]; rewrite Hrn; left| | |done].
      * eapply kept_mono; [|exact K1]. unfold file_records. rewrite Hrn. intros x Hx. apply elem_of_cons in Hx as [-> |Hx]; [left|]. apply list_elem_of_singleton in Hx as ->. right. left.
      * destruct r; [destruct Hr as (idx & a & p & Hone & _); exists idx; by apply Hone|].
        destruct Hr as [(e1 & e2 & _ & Hl1 & _) Hr]. exists e1. pose proof Hl1 as (Hlf & b & Hb & Hfb). destruct (Hr e1 b Hl1 Hb) as [q Hq].
        split; [by rewrite (fv_lf _ _ (k_frame _ _ _ K1))|]. by eexists.
      * intros [_ HS] H1. destruct r; [|destruct Hr as [(e1 & e2 & Hne & Hl1 & Hl2) _]; by destruct Hne; apply H1].
        destruct Hr as (idx & a & p & Hone & Ha & (Hp & Hnm & _) & Hpar & _). 
        unfold parent_is in Hpar. rewrite (proj2 (N.eqb_neq _ _) (HS n ltac:(rewrite Hrn; left))), andb_false_r in Hpar. subst p.
        split; [by exists idx, a; split; [by apply Hone|]|]. intros e b Hl Hb. apply Hone in Hl as ->. assert (b = a) as -> by congruence. exists n. split; [left|done].
  - apply wp_bind, wp_ret. assert (Hlk : forall o, (forall h, o = Some h -> link_of v (lf_frn file) h) -> (o = None -> forall e, ~ link_of v (lf_frn file) e) -> wp (Volume.enrich file) Q v).
    { intros [h|] Hyes Hno.
      - eapply (wp_enrich v file k); [done|exists h; by apply Hyes|done|by apply (space_le _ _ _ Hsp); lia|]. intros v2 L2 Hl2 _ _ Hsp2. apply HQ; [done| |done].
        intros n rest E'. by rewrite Hfirst in E'.
      - unfold wp. rewrite (enrich_nameless v file Hv Hfirst (Hno eq_refl)). apply HQ; [|intros n rest E'; by rewrite Hfirst in E'|by apply (space_le _ _ _ Hsp); lia].
        split; [done|apply kept_refl| |apply grown_refl|]; [intros _ _ [e He]; by destruct (Hno eq_refl e)|intros e He; by destruct (Hno eq_refl e)]. }
    destruct (head_cases v (lf_frn file) Hv) as [(h & f' & _ & _ & _ & _ & Hyes & Hno)|(_ & _ & Hno)].
    + destruct (decide (f' = lf_frn file)) as [E|E]; [apply (Hlk (Some h))|apply (Hlk None)]; try done; [intros ? [= <-]; auto|auto].
    + by apply (Hlk None).
Qed.

(** ** The storage of a built index *)

Lemma wp_optimize v capacity Q :
  vol_ok v -> (forall v', vol_ok v' -> (forall e, abs v' e = abs v e) -> frame_vol v v' -> Q tt v') -> wp (optimize_storage capacity) Q v.
Proof.
  intros Hv HQ. unfold optimize_storage. apply wp_bind, wp_modify. pose proof Hv as [I HP].
  assert (I1 : Inv (with_by_frn (densify_if_smaller capacity (by_frn v)) v) (same_key v) (child_key v) (dirkey v) (fun _ => 0) None None).
  { pose proof (fun r => densify_spec (by_frn v) capacity r (i_map _ _ _ _ _ _ _ I)) as Hd. destruct I. split; try done; cbn.
    - apply (Hd 0).
    - intros r Hr. specialize (i_link r Hr). unfold link_ok in *. by rewrite (proj1 (Hd r)). }
  set (v1 := with_by_frn _ v) in *. apply wp_bind.
  destruct (merge_run (names v1) (i_ns _ _ _ _ _ _ _ I1) (i_order _ _ _ _ _ _ _ I1)) as (o & rk & _ & Eb & Hok & Ho).
  apply wp_zoom, wp_run. exists tt, (with_order o rk [] 0 (names v1)). split; [exact Eb|].
  assert (Hv2 : vol_ok (with_names (with_order o rk [] 0 (names v1)) v1)) by (split; [by apply Inv_with_order|done]).
  apply wp_bind. eapply wp_prune; [exact Hv2|]. intros l _ Hv3. unfold shrink_to_fit.
  apply wp_bind, wp_zoom, wp_modify, wp_zoom, wp_modify. apply HQ; [|done|by split].
  destruct Hv3 as [I3 HP3]. split; [|done]. destruct I3. split; try done; [|by destruct i_order].
  destruct i_ns as [gs []]. exists gs. by split.
Qed.
End build.
