(* ===== verification/VolumeListing.v ===== *)
(** An index built from the listing of a whole volume: when the listing tells
    its files apart and the name store does not fill up on the way, every name
    of every file is indexed in its folder, with the file's size and date, and
    nothing else is. *)

From stdpp Require Import gmap.
From stdpp Require Import base option list sets.
From Stdlib Require Import NArith ZArith Lia.
From S2P Require Import Prelude Types UsnRecord LayoutParse Fold FrnMap NameStore EntryTable Volume VolumeInv VolumeOps VolumeEdit VolumeUpsert VolumeLinks VolumeNew VolumeBuild.
Open Scope N_scope.
Open Scope list_scope.

(** The files a listing speaks of: the root, the files it lists, and the folders
    they lie in. *)
Definition spoken_of (root_frn : N) (files : list LayoutFile) : list N :=
  root_frn :: flat_map (fun file => lf_frn file :: (ln_parent_frn <$> real_names file)) files.

(** What a listing of a volume at rest has: one file per record, each file once,
    names of at most 255 code units, and only the root in itself. *)
Record listing_ok `{Unicode} (root_frn : N) (files : list LayoutFile) : Prop := {
  ls_apart : apart (fun f => f ∈ spoken_of root_frn files);
  ls_once : NoDup (lf_frn <$> files);
  ls_small file : file ∈ files -> Forall (fun n => small_name (ln_name n)) (real_names file);
  ls_parent file n : file ∈ files -> n ∈ real_names file -> ln_parent_frn n = lf_frn file -> lf_frn file = root_frn
}.

Section listing.
Context {U : Unicode} {H : Hasher}.
Implicit Types (v : VolumeIndex) (file : LayoutFile).

(** The name store and the entry table have room for each file when its turn
    comes. *)
Fixpoint roomy (files : list LayoutFile) v : Prop :=
  match files with
  | [] => True
  | file :: files => space v (2 + 2 * len (real_names file)) /\ forall v', insert_layout file v = Some (tt, v') -> roomy files v'
  end.

(** The file has an entry for this name, in its folder, with its size and date. *)
Definition placed v file (n : LayoutName) : Prop :=
  exists e a, link_of v (lf_frn file) e /\ abs v e = Some a /\ a_name a = ln_name n /\ link_of v (ln_parent_frn n) (a_parent a) /\
    (forall sz, known_size (layout_is_dir file) (lf_size file) = Some sz -> a_size a = sz) /\
    (forall mt, lf_mtime_ft file = Some mt -> a_mtime a = mt).

(** The index holds the files, and of each of them exactly the names listed. *)
Record holds v (root_frn : N) (files : list LayoutFile) : Prop := {
  ho_placed file n : file ∈ files -> lf_frn file <> root_frn -> n ∈ listed_names file -> placed v file n;
  ho_exact file : file ∈ files -> lf_frn file <> root_frn -> real_names file <> [] -> exact v (lf_frn file) (listed_names file)
}.

(** ** Between two files *)

Section step.
Variables (F : N -> Prop) (HF : apart F).

Record halfway v (root_frn : N) (sofar rest : list LayoutFile) : Prop := {
  hw_ok : vol_ok v;
  hw_within : within F v;
  hw_root : exists e, link_of v root_frn e;
  hw_single file : file ∈ rest -> lf_frn file <> root_frn -> one_link v (lf_frn file);
  hw_holds : holds v root_frn sofar
}.

Lemma grown_quiet f ps v v' g e a :
  F f -> Forall F ps -> within F v -> grown f ps v v' -> g <> f -> link_of v g e -> abs v e = Some a -> abs v' e = Some a.
Proof.
  intros Hf HP Hw G Hg (_ & b & Hb & Hfb) Ha. apply (gr_quiet _ _ _ _ G F); try done. intros (_ & c & Hc & Hfc). by simplify_eq.
Qed.

Lemma grown_link f ps v v' g e : F f -> Forall F ps -> within F v -> grown f ps v v' -> link_of v g e -> link_of v' g e.
Proof.
  intros Hf HP Hw G Hl. destruct (decide (g = f)) as [-> |Hg]; [by apply (gr_links _ _ _ _ G)|].
  pose proof Hl as (Hlf & a & Ha & Hfa). split; [by rewrite (gr_lf _ _ _ _ G)|]. exists a. split; [|done]. by eapply grown_quiet.
Qed.

Lemma grown_placed f ps v v' file n :
  F f -> Forall F ps -> within F v -> grown f ps v v' -> lf_frn file <> f -> placed v file n -> placed v' file n.
Proof.
  intros Hf HP Hw G Hne (e & a & Hl & Ha & Hn & Hp & Hs & Hm). exists e, a.
  split_and!; [by eapply grown_link|by eapply grown_quiet|done|by eapply grown_link|done|done].
Qed.

Lemma grown_exact f ps v v' g L :
  F f -> Forall F ps -> within F v -> grown f ps v v' -> F g -> g <> f -> (exists e, link_of v g e) -> exact v g L -> exact v' g L.
Proof.
  intros Hf HP Hw G Hg Hne Hk Hx e a' Hl Ha'. pose proof (gr_known _ _ _ _ G F g e HF Hf HP Hw Hg Hne Hk Hl) as Hl0.
  pose proof Hl0 as (_ & a & Ha & _). rewrite (grown_quiet f ps v v' g e a Hf HP Hw G Hne Hl0 Ha) in Ha'. injection Ha' as <-.
  destruct (Hx e a Hl0 Ha) as (n & Hn & En & Hp). exists n. split_and!; [done..|]. by eapply (grown_link f ps).
Qed.

Lemma homed_placed v file n :
  has_meta (lf_frn file) (known_size (layout_is_dir file) (lf_size file)) (lf_mtime_ft file) v ->
  homed v (lf_frn file) (ln_parent_frn n) (ln_name n) -> placed v file n.
Proof.
  intros Hm (e & a & Hl & Ha & Hn & Hp). destruct (Hm e Hl) as (a' & Ha' & Hsz & Hmt). assert (a' = a) as -> by congruence.
  exists e, a. split_and!; [done..| |]; intros ? E; [by rewrite E in Hsz|by rewrite E in Hmt].
Qed.

(** One file more. *)
Lemma halfway_step v v' root_frn sofar file rest :
  halfway v root_frn sofar (file :: rest) -> layout_post file v v' ->
  (forall g, g ∈ sofar -> F (lf_frn g)) -> (forall g, g ∈ rest -> F (lf_frn g)) -> F (lf_frn file) -> Forall F (ln_parent_frn <$> real_names file) ->
  lf_frn file ∉ lf_frn <$> sofar -> lf_frn file ∉ lf_frn <$> rest ->
  (lf_frn file <> root_frn -> told_apart (lf_frn file) (real_names file)) ->
  (forall n ns, real_names file = n :: ns -> (exists e, link_of v' (lf_frn file) e) /\
     (told_apart (lf_frn file) (real_names file) -> (forall e1 e2, link_of v (lf_frn file) e1 -> link_of v (lf_frn file) e2 -> e1 = e2) ->
        homed v' (lf_frn file) (ln_parent_frn n) (ln_name n) /\
        forall F', apart F' -> F' (lf_frn file) -> Forall F' (ln_parent_frn <$> real_names file) -> within F' v -> exact v' (lf_frn file) (listed_names file))) ->
  halfway v' root_frn (file :: sofar) rest.
Proof.
  intros [Hv Hw [er Her] H1 [Hpl Hex]] [L1 _ L3 G L4] Fs Fr Hf HP Nd1 Nd2 Ht Hfirst.
  assert (Hother : forall g, g ∈ sofar -> lf_frn g <> lf_frn file) by (intros g Hg E; apply Nd1; rewrite <- E; by apply list_elem_of_fmap_2).
  assert (Hother2 : forall g, g ∈ rest -> lf_frn g <> lf_frn file) by (intros g Hg E; apply Nd2; rewrite <- E; by apply list_elem_of_fmap_2).
  split; [done|by apply (gr_within _ _ _ _ G F)|exists er; by eapply grown_link| |split].
  - intros g Hg Hr. apply (gr_single _ _ _ _ G F); auto. apply H1; [by right|done].
  - intros g n Hg Hr Hn. apply elem_of_cons in Hg as [-> |Hg]; [|eapply grown_placed; [exact Hf|exact HP|exact Hw|exact G|by apply Hother|by apply Hpl]].
    apply homed_placed; [done|]. pose proof (listed_real file n Hn) as Hn0.
    destruct (real_names file) as [|m ns] eqn:E; [by apply not_elem_of_nil in Hn0|]. destruct (Hfirst m ns eq_refl) as [Hk Hone].
    destruct (layout_is_dir file) eqn:Hd; [|by apply L3; auto].
    unfold listed_names in Hn. rewrite Hd, E in Hn. apply list_elem_of_singleton in Hn as ->. apply Hone; [by apply Ht|]. apply H1; [left|done].
  - intros g Hg Hr Hne. apply elem_of_cons in Hg as [-> |Hg].
    + destruct (real_names file) as [|m ns] eqn:E; [done|]. destruct (Hfirst m ns eq_refl) as [Hk Hone]. apply (Hone (Ht Hr)) with F; [|done..]. apply H1; [left|done].
    + eapply grown_exact; [exact Hf|exact HP|exact Hw|exact G|by apply Fs|by apply Hother| |by apply Hex].
      destruct (listed_names g) as [|n ns] eqn:E; [|destruct (Hpl g n) as (e & _ & He & _); [done..|rewrite E; left|by exists e]].
      unfold listed_names in E. destruct (layout_is_dir g); [|done]. by destruct (real_names g).
Qed.
End step.

(** ** The whole listing *)

Section whole.
Context (root_frn : N) (all : list LayoutFile) (Hall : listing_ok root_frn all).

Notation F := (fun f => f ∈ spoken_of root_frn all).

Lemma spoken_file file : file ∈ all -> F (lf_frn file).
Proof. intros Hf. right. apply list_elem_of_In, in_flat_map. exists file. split; [by apply list_elem_of_In|by left]. Qed.

Lemma spoken_parents file : file ∈ all -> Forall F (ln_parent_frn <$> real_names file).
Proof.
  intros Hf. apply Forall_forall. intros g Hg. right. apply list_elem_of_In, in_flat_map. exists file.
  split; [by apply list_elem_of_In|]. right. by apply list_elem_of_In.
Qed.

Lemma listing_told_apart file : file ∈ all -> lf_frn file <> root_frn -> told_apart (lf_frn file) (real_names file).
Proof.
  intros Hf Hr. pose proof (spoken_parents file Hf) as HP. rewrite Forall_forall in HP.
  assert (Hin : forall n, n ∈ real_names file -> F (ln_parent_frn n)) by (intros n Hn; by apply HP, list_elem_of_fmap_2).
  split; [intros n n' Hn Hn'; apply (ls_apart _ _ Hall); auto|]. intros n Hn E. apply Hr, (ls_parent _ _ Hall file n Hf Hn).
  apply (ls_apart _ _ Hall); [auto|by apply spoken_file|done].
Qed.

Lemma wp_listing_step v sofar file rest k Q :
  sofar ++ file :: rest ≡ₚ all -> halfway F v root_frn sofar (file :: rest) -> space v (k + (2 + 2 * len (real_names file))) ->
  (forall v', halfway F v' root_frn (file :: sofar) rest -> space v' k -> Q tt v') -> wp (insert_layout file) Q v.
Proof.
  intros Eall Hw Hsp HQ. assert (Hsub : forall g, g ∈ sofar ++ file :: rest -> g ∈ all) by (intros g; by rewrite Eall).
  assert (Hf : file ∈ all) by (apply Hsub, elem_of_app; right; left).
  assert (Hnd : NoDup (lf_frn <$> sofar ++ file :: rest)) by (rewrite Eall; apply (ls_once _ _ Hall)).
  rewrite fmap_app, fmap_cons in Hnd. apply NoDup_app in Hnd as (_ & Hnd1 & Hnd2). apply NoDup_cons in Hnd2 as [Hnd2 _].
  eapply (wp_insert_layout v file k); [apply Hw| |by apply (ls_small _ _ Hall)|by apply (space_le _ _ _ Hsp); lia|].
  - intros n ns En Es. rewrite (ls_parent _ _ Hall file n Hf) by (done || (rewrite En; left)). apply Hw.
  - intros v' Hpost Hfirst Hsp'. apply HQ; [|done]. eapply halfway_step; [apply (ls_apart _ _ Hall)|exact Hw|exact Hpost|..|exact Hfirst].
    + intros g Hg. apply spoken_file, Hsub, elem_of_app. by left.
    + intros g Hg. apply spoken_file, Hsub, elem_of_app. by right; right.
    + by apply spoken_file.
    + by apply spoken_parents.
    + intros Hin. apply (Hnd1 _ Hin). left.
    + done.
    + by apply listing_told_apart.
Qed.

Lemma wp_listing files : forall sofar v Q,
  sofar ++ files ≡ₚ all -> halfway F v root_frn sofar files -> roomy files v -> (forall v', halfway F v' root_frn all [] -> Q tt v') ->
  wp (st_for insert_layout files) Q v.
Proof.
  induction files as [|file rest IH]; intros sofar v Q Eall Hw Hroom HQ; cbn [st_for].
  - apply wp_ret, HQ. rewrite app_nil_r in Eall. destruct Hw as [W1 W2 W3 _ [W4 W5]]. split; [done..| |].
    + by intros ? ?%not_elem_of_nil.
    + assert (Hsub : forall g, g ∈ all -> g ∈ sofar) by (intros g; by rewrite Eall). split; auto.
  - destruct Hroom as [Hsp Hroom]. apply wp_bind.
    assert (W : wp (insert_layout file) (fun _ v' => halfway F v' root_frn (file :: sofar) rest) v).
    { by eapply (wp_listing_step v sofar file rest 0). }
    apply wp_run in W as ([] & v' & E & W). apply wp_run. exists tt, v'. split; [done|].
    apply (IH (file :: sofar)); [|done|by apply Hroom|done]. rewrite <- Eall. simpl. apply Permutation_middle.
Qed.

(** Room for every name at its longest is room enough. *)
Definition needed (files : list LayoutFile) : N := fold_right (fun file k => k + (2 + 2 * len (real_names file))) 0 files.

Lemma space_roomy files : forall sofar v,
  sofar ++ files ≡ₚ all -> halfway F v root_frn sofar files -> space v (needed files) -> roomy files v.
Proof.
  induction files as [|file rest IH]; intros sofar v Eall Hw Hsp; [done|]. cbn in Hsp.
  split; [by apply (space_le _ _ _ Hsp); lia|]. intros v' E.
  assert (W : wp (insert_layout file) (fun _ w => halfway F w root_frn (file :: sofar) rest /\ space w (needed rest)) v) by (by eapply wp_listing_step).
  unfold wp in W. rewrite E in W. destruct W as [W Hsp']. apply (IH (file :: sofar)); [|done..]. rewrite <- Eall. simpl. apply Permutation_middle.
Qed.
End whole.

(** A new index is at the start of any listing. *)
Lemma new_halfway root_frn fm files :
  frn_map_ok fm -> (forall r, FrnMap.get fm r = None) ->
  exists v, new root_frn fm = Some v /\ halfway (fun f => f ∈ spoken_of root_frn files) v root_frn [] files /\ forall k, k <= 30000 -> space v k.
Proof.
  intros Hm He. destruct (new_runs root_frn fm Hm He) as (v & E & Hv & Habs & Hr & Hlf & _ & Hsp). exists v. split; [done|]. split; [|done].
  assert (Hlink : forall g e, link_of v g e <-> e = 0 /\ g = root_frn).
  { intros g e. unfold link_of. rewrite Hlf, Habs. unfold new_entry_at. destruct (N.eqb_spec e 0) as [-> |H0]; [naive_solver|].
    destruct (N.eqb_spec e 1) as [-> |H1]; naive_solver. }
  split; [done| |by exists 0; apply Hlink| |].
  - intros e a Ha He1. destruct (proj1 (Hlink (a_frn a) e)) as [_ ->]; [split; [done|by exists a]|left].
  - intros file _ Hne e1 e2 [_ ?]%Hlink. done.
  - by split; intros file ? ?%not_elem_of_nil || intros file ?%not_elem_of_nil.
Qed.
End listing.
