(* ===== verification/VolumeClaims.v ===== *)
(** What the rest of the index promises: reconciliation of hard links,
    compaction, the scope index and paths, each with a run on a small index. *)

From stdpp Require Import gmap.
From stdpp Require Import base option list sets.
From Stdlib Require Import NArith ZArith Lia.
From S2P Require Import Prelude Types Wtf8 UsnRecord UsnOps LayoutParse Fold FrnMap NameStore NameOrder EntryTable Chain Volume VolumeInv VolumeOps VolumeEdit VolumeUpsert VolumeBatch VolumeCompact VolumeLinks VolumeRead VolumeNew.

Section promises.
Context `{Unicode, Hasher}.
Implicit Types (v : VolumeIndex).

(** C28: [reconcile_links] makes the entries of a file be exactly the links the
    file system reported: with none reported the file is deleted; otherwise its
    entries are, one for one, the reported links, each with the reported name
    and parent (lost+found stands in for a parent that is dead or belongs to the
    file itself); the map leads to the first one reported, and the chain of hard
    links from it runs through them in the order reported, and ends; and no other
    record is touched. *)
Theorem reconcile_links_correct v f actual :
  vol_ok v -> (forall t, t ∈ actual -> tparent t < cap v /\ small_name (wbytes (tname t))) -> space v (len actual) ->
  wp (reconcile_links f actual) (fun _ v' =>
    vol_ok v' /\ kept [record_number f] v v' /\
    exists ks, NoDup ks /\ (forall e, link_of v' f e <-> e ∈ ks) /\ chained v' f ks /\ Forall2 (link_done v f v') actual ks) v.
Proof.
  intros Hv Ht Hsp. eapply (wp_reconcile v f actual 0); [done..|]. intros v' Hnil Hcons _. destruct actual as [|t actual].
  - destruct Hnil as [ok Hd]; [done|]. exact (delete_post_links v f ok v' Hv Hd).
  - by apply Hcons.
Qed.

(** C29: compaction of the names is invisible: the plan can always be made and
    installed, the index stays well formed, every entry keeps its FRN, parent,
    name, flags, size, date and link, and no garbage is left behind. *)
Theorem apply_compaction_correct v :
  vol_ok v ->
  exists plan, plan_compact (names v) = Some plan /\
    wp (apply_compaction plan) (fun _ v' =>
      vol_ok v' /\ (forall e, abs v' e = abs v e) /\ by_frn v' = by_frn v /\ garbage (names v') = 0) v.
Proof.
  intros Hv. destruct (compaction_spec _ (i_ns _ _ _ _ _ _ _ (proj1 Hv)) (i_order _ _ _ _ _ _ _ (proj1 Hv))) as (plan & _ & _ & E & _).
  exists plan. split; [done|]. eapply wp_apply_compaction; [done..|]. by auto.
Qed.

(** [child_dir] is the scope lookup it stands for: it answers a real
    directory under the parent with the folded name asked for, and answers none
    only if there is none, whatever the hash collisions. *)
Theorem child_dir_correct v par nm :
  vol_ok v ->
  wp (child_dir par nm) (fun o v' =>
    v' = v /\ match o with Some d => dir_under v par nm d | None => forall d, ~ dir_under v par nm d end) v.
Proof.
  intros Hv. eapply wp_child_dir; [exact Hv|]. intros o H1 H2. split; [done|]. destruct o; auto.
Qed.

(** [path_of] never panics on a slot of the table and says what it found: a
    dead slot is [Removed]; a live entry whose ancestry has at most 4096 entries
    gives the names of that ancestry from the top down, without the root, joined
    by backslashes, marked [InLostFound] exactly when the top is lost+found; any
    other entry is [CycleDetected], and then nothing is written. *)
Theorem path_of_correct v e out :
  vol_ok v -> e < cap v -> wp (path_of e out) (fun r v' => v' = v /\ path_post v e out r) v.
Proof. intros Hv He. eapply wp_path_of; [exact Hv|exact He|]. by auto. Qed.
End promises.

(** *** Witnesses *)

#[local] Existing Instance one_bucket.

Lemma with_a_space : space with_a 2.
Proof.
  split; [by vm_compute|by vm_compute|by vm_compute| |by vm_compute].
  repeat apply Forall_cons_2; [by vm_compute..|apply Forall_nil_2].
Qed.

(** The file "a" turns out to be called "b", and to have a second link "a". *)
Definition two_links : list LinkTarget :=
  [{| tparent := 0; tname := {| wbytes := [0x62]; wlossy := false |} |};
   {| tparent := 0; tname := {| wbytes := [0x61]; wlossy := false |} |}].

(** The chain runs through the entry of "b", the one the file had, to the new
    one of "a". *)
Lemma reconcile_links_correct_witness :
  exists v' b a, reconcile_links 77 two_links with_a = Some (tt, v') /\ vol_ok v' /\ chained v' 77 [b; a] /\
    (a_name <$> abs v' b) = Some [0x62] /\ (a_name <$> abs v' a) = Some [0x61] /\ forall e, link_of v' 77 e <-> e ∈ [b; a].
Proof.
  assert (Ht : forall t, t ∈ two_links -> tparent t < cap with_a /\ small_name (wbytes (tname t))).
  { intros t Ht. unfold two_links in Ht. apply elem_of_cons in Ht as [-> |Ht]; [split; [by vm_compute|split; vm_compute; congruence]|].
    apply elem_of_cons in Ht as [-> |Ht]; [split; [by vm_compute|exact small_a]|by apply not_elem_of_nil in Ht]. }
  destruct (proj1 (wp_run _ _ _) (reconcile_links_correct with_a 77 two_links with_a_ok Ht with_a_space)) as ([] & v' & E & Hv & _ & ks & _ & Hl & Hc & HF).
  apply Forall2_cons_inv_l in HF as (b & ks1 & (x & Hx & Nx & _) & HF & ->). apply Forall2_cons_inv_l in HF as (a & ks2 & (y & Hy & Ny & _) & HF & ->).
  apply Forall2_nil_inv_l in HF as ->. exists v', b, a. split; [exact E|]. split; [exact Hv|]. split; [exact Hc|]. rewrite Hx, Hy. cbn. rewrite Nx, Ny. split; [exact eq_refl|]. split; [exact eq_refl|exact Hl].
Defined.

Lemma apply_compaction_correct_witness :
  exists plan v', plan_compact (names with_a) = Some plan /\ apply_compaction plan with_a = Some (tt, v') /\ vol_ok v'.
Proof.
  destruct (apply_compaction_correct with_a with_a_ok) as (plan & E & W).
  destruct (proj1 (wp_run _ _ _) W) as ([] & v' & E' & Hv & _). exists plan, v'. split; [exact E|]. split; [exact E'|exact Hv].
Defined.

Lemma child_dir_correct_witness :
  exists o, child_dir 0 [0x61] with_a = Some (o, with_a) /\ o = None.
Proof.
  destruct (proj1 (wp_run _ _ _) (child_dir_correct with_a 0 [0x61] with_a_ok)) as (o & v' & E & -> & _).
  exists o. split; [exact E|]. assert (Ho : fst <$> child_dir 0 [0x61] with_a = Some None) by (vm_compute; reflexivity).
  rewrite E in Ho. by injection Ho as ->.
Defined.

Lemma path_of_correct_witness :
  exists r, path_of 2 [] with_a = Some (r, with_a) /\ r = (PathOk, [0x61]).
Proof.
  destruct (proj1 (wp_run _ _ _) (path_of_correct with_a 2 [] with_a_ok ltac:(by vm_compute))) as (r & v' & E & -> & _).
  exists r. split; [exact E|]. assert (Ho : fst <$> path_of 2 [] with_a = Some (PathOk, [0x61])) by (vm_compute; reflexivity).
  rewrite E in Ho. by injection Ho as ->.
Defined.
