(* ===== verification/Text.v ===== *)
(** The operations of Rust's [str] the query language uses, on UTF-8 bytes.

    A [&str] is its bytes.  Operations that look at characters decode them;
    patterns in the sources are ASCII, where bytes and characters agree. *)

From stdpp Require Import gmap.
From stdpp Require Import base option list sets strings.
From Stdlib Require Import NArith ZArith Lia.
From S2P Require Import Prelude Wtf8.

(** A string literal of the source. *)
Definition str (s : string) : list N := Ascii.N_of_ascii <$> String.list_ascii_of_string s.

(** [u8::to_ascii_lowercase], on a string. *)
Definition ascii_lower (b : N) : N := if (0x41 <=? b) && (b <=? 0x5A) then b + 32 else b.
Definition to_ascii_lowercase (s : list N) : list N := ascii_lower <$> s.

Definition is_ascii_digit (b : N) : bool := (0x30 <=? b) && (b <=? 0x39).
Definition is_ascii_alphabetic (b : N) : bool :=
  ((0x41 <=? b) && (b <=? 0x5A)) || ((0x61 <=? b) && (b <=? 0x7A)).

(** [char::is_whitespace]: the Unicode property White_Space. *)
Definition is_whitespace (c : N) : bool :=
  ((0x09 <=? c) && (c <=? 0x0D)) || (c =? 0x20) || (c =? 0x85) || (c =? 0xA0) || (c =? 0x1680) ||
  ((0x2000 <=? c) && (c <=? 0x200A)) || (c =? 0x2028) || (c =? 0x2029) || (c =? 0x202F) ||
  (c =? 0x205F) || (c =? 0x3000).

Fixpoint drop_while {A} (p : A -> bool) (l : list A) : list A :=
  match l with
  | [] => []
  | x :: l' => if p x then drop_while p l' else l
  end.

Definition trim_list {A} (p : A -> bool) (l : list A) : list A :=
  reverse (drop_while p (reverse (drop_while p l))).

(** [str::trim]. *)
Definition trim (s : list N) : list N := flat_map encode_code_point (trim_list is_whitespace (code_points s)).

(** [str::strip_prefix], [str::strip_suffix]. *)
Fixpoint strip_prefix (p s : list N) : option (list N) :=
  match p, s with
  | [], _ => Some s
  | x :: p', y :: s' => if x =? y then strip_prefix p' s' else None
  | _ :: _, [] => None
  end.
Definition strip_suffix (p s : list N) : option (list N) := reverse <$> strip_prefix (reverse p) (reverse s).

(** [str::split_once]. *)
Fixpoint split_once (p s : list N) : option (list N * list N) :=
  match strip_prefix p s with
  | Some rest => Some ([], rest)
  | None => match s with [] => None | x :: s' => '(l, r) ← split_once p s'; Some (x :: l, r) end
  end.

(** [str::split] on an ASCII character: always at least one part. *)
Fixpoint split (c : N) (s : list N) : list (list N) :=
  match s with
  | [] => [[]]
  | x :: s' =>
      if x =? c then [] :: split c s'
      else match split c s' with [] => [[x]] | part :: parts => (x :: part) :: parts end
  end.

(** [str::contains] of one of some ASCII characters. *)
Definition contains_any (cs s : list N) : bool := existsb (fun b => existsb (N.eqb b) cs) s.

(** The value of a string of digits, [None] if empty or not all digits. *)
Fixpoint digits_value (s : list N) (acc : N) : option N :=
  match s with
  | [] => Some acc
  | b :: s' => if is_ascii_digit b then digits_value s' (acc * 10 + (b - 0x30)) else None
  end.
Definition parse_digits (s : list N) : option N := match s with [] => None | _ => digits_value s 0 end.

(** [str::parse] at [u64] and [u32] (a plus sign is accepted), and at [i64]. *)
Definition parse_unsigned (max : N) (s : list N) : option N :=
  v ← parse_digits (match s with b :: s' => if b =? 0x2B then s' else s | [] => [] end);
  if v <=? max then Some v else None.
Definition parse_u64 : list N -> option N := parse_unsigned u64_max.
Definition parse_u32 : list N -> option N := parse_unsigned u32_max.
Definition parse_i64 (s : list N) : option Z :=
  let '(neg, d) := match s with
                   | b :: s' => if b =? 0x2B then (false, s') else if b =? 0x2D then (true, s') else (false, s)
                   | [] => (false, [])
                   end in
  v ← parse_digits d;
  let z := if (neg : bool) then (- Z.of_N v)%Z else Z.of_N v in
  if ((i64_min <=? z) && (z <=? i64_max))%Z then Some z else None.

(** ** Facts *)

Lemma strip_prefix_Some p s r : strip_prefix p s = Some r <-> s = p ++ r.
Proof.
  revert s. induction p as [|x p IH]; intros [|y s]; simpl; try naive_solver.
  destruct (N.eqb_spec x y); [rewrite IH|]; naive_solver.
Qed.

Lemma strip_suffix_Some p s r : strip_suffix p s = Some r <-> s = r ++ p.
Proof.
  unfold strip_suffix. rewrite fmap_Some. setoid_rewrite strip_prefix_Some. split.
  - intros (x & E & ->). apply (f_equal reverse) in E. by rewrite reverse_app, !reverse_involutive in E.
  - intros ->. exists (reverse r). rewrite reverse_involutive, reverse_app. done.
Qed.

Lemma split_once_Some p s l r : split_once p s = Some (l, r) -> s = l ++ p ++ r.
Proof.
  revert l r. induction s as [|x s IH]; intros l r; cbn [split_once].
  - destruct (strip_prefix p []) eqn:E; [|done]. apply strip_prefix_Some in E. intros [= <- <-]. done.
  - destruct (strip_prefix p (x :: s)) eqn:E.
    + apply strip_prefix_Some in E. intros [= <- <-]. done.
    + destruct (split_once p s) as [[l' r']|] eqn:E'; [|done]. intros [= <- <-]. simpl. by rewrite (IH l' r').
Qed.

(** The parts joined by the character are the string again. *)
Fixpoint join (c : N) (parts : list (list N)) : list N :=
  match parts with
  | [] => []
  | [p] => p
  | p :: ps => p ++ c :: join c ps
  end.

Lemma split_ne c s : split c s <> [].
Proof. destruct s as [|x s]; simpl; [done|]. destruct (x =? c); [done|]. by destruct (split c s). Qed.

Lemma join_cons c p ps : ps <> [] -> join c (p :: ps) = p ++ c :: join c ps.
Proof. by destruct ps. Qed.

Lemma split_join c s : join c (split c s) = s /\ Forall (fun p => c ∉ p) (split c s).
Proof.
  induction s as [|x s [IH1 IH2]]; simpl.
  { split; [done|]. repeat constructor. apply not_elem_of_nil. }
  destruct (N.eqb_spec x c) as [->|Hne].
  - rewrite join_cons by apply split_ne. rewrite IH1. split; [done|]. constructor; [apply not_elem_of_nil|done].
  - pose proof (split_ne c s). destruct (split c s) as [|part parts]; [done|]. apply Forall_cons in IH2 as [Hp Hps]. split.
    + rewrite <- IH1. by destruct parts.
    + constructor; [|done]. rewrite elem_of_cons. naive_solver.
Qed.

Lemma split_alone c p : c ∉ p -> split c p = [p].
Proof.
  induction p as [|x p IH]; intros Hp; simpl; [done|]. apply not_elem_of_cons in Hp as [Hx Hp].
  rewrite (proj2 (N.eqb_neq x c)) by done. by rewrite IH.
Qed.

Lemma split_app c p s : c ∉ p -> split c (p ++ c :: s) = p :: split c s.
Proof.
  induction p as [|x p IH]; intros Hp; simpl; [by rewrite N.eqb_refl|]. apply not_elem_of_cons in Hp as [Hx Hp].
  rewrite (proj2 (N.eqb_neq x c)) by done. by rewrite IH.
Qed.

Lemma contains_any_true cs s : contains_any cs s = true <-> exists b, b ∈ s /\ b ∈ cs.
Proof.
  unfold contains_any. rewrite existsb_exists. split.
  - intros (b & Hb%list_elem_of_In & (c & Hc%list_elem_of_In & ->%N.eqb_eq)%existsb_exists). eauto.
  - intros (b & Hb%list_elem_of_In & Hc%list_elem_of_In). exists b. split; [done|]. apply existsb_exists. exists b. by rewrite N.eqb_refl.
Qed.

(** An ASCII byte occurs in an encoding only as its own character. *)
Lemma low_bit7 b x y : b < 0x80 -> b = N.lor x y -> N.testbit x 7 = false.
Proof.
  intros Hb E. apply (f_equal (fun z => N.testbit z 7)) in E. rewrite N.lor_spec in E.
  rewrite <- (N.mod_small b (2 ^ 7)), N.mod_pow2_bits_high in E by done. by destruct (N.testbit x 7).
Qed.

Lemma ascii_in_encode b cp : b < 0x80 -> b ∈ encode_code_point cp <-> b = cp.
Proof.
  intros Hb. unfold encode_code_point. destruct (N.ltb_spec cp 0x80).
  { unfold as_u8. rewrite N.mod_small by lia. rewrite elem_of_cons, elem_of_nil. intuition. }
  split; [|lia]. destruct (cp <? 0x800); [|destruct (cp <? 0x10000)]; rewrite !elem_of_cons, elem_of_nil; intros Hin; exfalso;
    repeat (destruct Hin as [Hin|Hin]; [by apply low_bit7 in Hin|]); done.
Qed.

Lemma ascii_in_encoded b t : b < 0x80 -> b ∈ flat_map encode_code_point t <-> b ∈ t.
Proof.
  intros Hb. induction t as [|c t IH]; simpl; [done|]. by rewrite elem_of_app, elem_of_cons, IH, ascii_in_encode.
Qed.

Lemma contains_any_encoded cs t :
  Forall (fun c => c < 0x80) cs -> contains_any cs (flat_map encode_code_point t) = contains_any cs t.
Proof.
  intros Hcs. apply eq_true_iff_eq. rewrite !contains_any_true. rewrite Forall_forall in Hcs.
  split; intros (b & Hb & Hc); exists b; (split; [|done]); by apply (ascii_in_encoded b t (Hcs b Hc)).
Qed.

(** Trimming text that starts and ends with no white space. *)
Lemma drop_while_head {A} (p : A -> bool) l : (forall x, head l = Some x -> p x = false) -> drop_while p l = l.
Proof. destruct l as [|x l]; [done|]. simpl. intros Hp. by rewrite Hp. Qed.

Lemma trim_list_id {A} (p : A -> bool) l :
  (forall x, head l = Some x -> p x = false) -> (forall x, last l = Some x -> p x = false) -> trim_list p l = l.
Proof.
  intros Hh Hl. unfold trim_list. rewrite (drop_while_head p l Hh), drop_while_head, reverse_involutive; [done|].
  intros x Hx. apply Hl. by rewrite head_reverse in Hx.
Qed.
