(* ===== verification/Dates.v ===== *)
(** [dm:] values: [crates/goz-core/src/query/dates.rs], and the [QueryError] of
    [crates/goz-core/src/query/parse.rs] that it returns.

    Times are FILETIME ticks ([i64], as [Z]); the checked operations of the
    source are written out.  The clock and time zone are an interface,
    [LocalClock], as they are a trait in the source. *)

From stdpp Require Import gmap.
From stdpp Require Import base option list sets strings.
From Stdlib Require Import NArith ZArith Lia.
From S2P Require Import Prelude Wtf8 Filetime Text.
Open Scope Z_scope.

(** ** Errors of a query *)

Inductive QueryError :=
  | UnsupportedOperator (c : N)
  | Malformed (what : list N) (detail : list N)
  | TooManyTerms (n : nat)
  | UnknownFunction (f : list N)
  | NoClock.

(** ** The clock *)

Class LocalClock := {
  clock_now : Z;
  to_local : Z -> option Z;
  to_utc : Z -> option Z;
  week_start : Z
}.

Definition SECOND : Z := 10000000.
Definition DAY : Z := 86400 * SECOND.

(** [i64::checked_add] and the like: the mathematical result if it fits. *)
Definition checked (z : Z) : option Z := if (i64_min <=? z) && (z <=? i64_max) then Some z else None.

(** ** Filters *)

Inductive DateFilter :=
  | Within (min max : Z)
  | Unknown.

Definition date_matches (f : DateFilter) (mtime : option Z) : bool :=
  match f, mtime with
  | Within min max, Some t => (min <=? t) && (t <=? max)
  | Unknown, None => true
  | _, _ => false
  end.

Definition date_and (a b : DateFilter) : DateFilter :=
  match a, b with
  | Within a b, Within c d => Within (Z.max a c) (Z.min b d)
  | Unknown, Unknown => Unknown
  | _, _ => Within i64_max i64_min
  end.

Inductive Value :=
  | Period (start finish : Z)
  | Instant (t : Z).

Definition value_first (v : Value) : Z := match v with Period s _ => s | Instant t => t end.
Definition value_last (v : Value) : Z := match v with Period _ e => e - 1 | Instant t => t end.

Definition dm_malformed (detail : list N) : QueryError := Malformed (str "dm:") detail.

Definition alone (v : Value) : DateFilter :=
  match v with
  | Period s e => Within s (e - 1)
  | Instant t => Within t i64_max
  end.

(** ** Calendar arithmetic *)

(** Days are counted from 1601-01-01. *)
Definition civil (day : Z) : Z * Z * Z := civil_from_days (day - DAYS_1601_TO_1970).

Definition local_day (year month day : Z) : option Z :=
  if (-1000000 <=? year) && (year <=? 1000000)
  then Some (days_from_civil year month day + DAYS_1601_TO_1970)
  else None.

Definition add_months (year month delta : Z) : option (Z * Z) :=
  a ← checked (year * 12);
  b ← checked (a + (month - 1));
  index ← checked (b + delta);
  Some (index / 12, index mod 12 + 1).

Definition month_length (year month : Z) : Z :=
  if (month =? 2) && (Z.rem year 4 =? 0) && (negb (Z.rem year 100 =? 0) || (Z.rem year 400 =? 0)) then 29
  else if month =? 2 then 28
  else if (month =? 4) || (month =? 6) || (month =? 9) || (month =? 11) then 30
  else 31.

(** ** Durations *)

Inductive Duration :=
  | Ticks (t : Z)
  | Months (m : Z).

Fixpoint digit_prefix (s : list N) : nat :=
  match s with
  | b :: s' => if is_ascii_digit b then S (digit_prefix s') else O
  | [] => O
  end.

(** The seconds of a unit; [Some None] for the calendar units. *)
Definition unit_seconds (unit : list N) : option (option Z) :=
  if bool_decide (unit = str "sec" \/ unit = str "second") then Some (Some 1)
  else if bool_decide (unit = str "min" \/ unit = str "minute") then Some (Some 60)
  else if bool_decide (unit = str "hour") then Some (Some 3600)
  else if bool_decide (unit = str "day") then Some (Some 86400)
  else if bool_decide (unit = str "week") then Some (Some 604800)
  else if bool_decide (unit = str "month" \/ unit = str "year") then Some None
  else None.

Definition duration (lower text : list N) : result QueryError (option Duration) :=
  let rest := default lower (strip_prefix (str "last") lower) in
  let digits := digit_prefix rest in
  let count := take digits rest in
  let unit := drop digits rest in
  let unit := default unit (strip_suffix (str "s") unit) in
  match unit_seconds unit with
  | None => Ok None
  | Some seconds =>
      match count with
      | [] => Ok None
      | _ =>
          let too_long := dm_malformed (text ++ str " reaches back further than goz can compare") in
          count <-? ok_or too_long (parse_i64 count);
          if count =? 0 then Err (dm_malformed (text ++ str ": give a count above 0"))
          else
            match seconds with
            | Some s => t <-? ok_or too_long (checked (count * (s * SECOND))); Ok (Some (Ticks t))
            | None =>
                if bool_decide (unit = str "year")
                then m <-? ok_or too_long (checked (count * 12)); Ok (Some (Months m))
                else Ok (Some (Months count))
            end
      end
  end.

(** ** Periods *)

Definition calendar_period (unit : list N) (offset today week_start : Z) : option (Z * Z) :=
  if bool_decide (unit = str "week") then
    let into_week := (today - week_start) mod 7 in
    let first := today - into_week + 7 * offset in
    Some (first, first + 7)
  else if bool_decide (unit = str "month") then
    let '(year, month, _) := civil today in
    '(year, month) ← add_months year month offset;
    '(next_year, next_month) ← add_months year month 1;
    a ← local_day year month 1;
    b ← local_day next_year next_month 1;
    Some (a, b)
  else
    let '(year, _, _) := civil today in
    let year := year + offset in
    a ← local_day year 1 1;
    b ← local_day (year + 1) 1 1;
    Some (a, b).

(** A part of exactly [n] digits. *)
Definition number (part : option (list N)) (n : nat) : option Z :=
  p ← part;
  if bool_decide (length p = n) && forallb is_ascii_digit p then Z.of_N <$> parse_u32 p else None.

Definition written_date (lower : list N) : option (result QueryError (Z * Z)) :=
  let parts := split 0x2D lower in
  year ← number (parts !! 0%nat) 4;
  let month := (fun p => number (Some p) 2) <$> parts !! 1%nat in
  let day := (fun p => number (Some p) 2) <$> parts !! 2%nat in
  if is_some (parts !! 3%nat) then None
  else
    let invalid := Some (Err (dm_malformed (lower ++ str " is not a real date"))) in
    let month_ok (m : Z) := (1 <=? m) && (m <=? 12) in
    match month, day with
    | None, _ =>
        a ← local_day year 1 1;
        b ← local_day (year + 1) 1 1;
        Some (Ok (a, b))
    | Some None, _ | _, Some None => None
    | Some (Some month), None =>
        if negb (month_ok month) then invalid
        else
          '(next_year, next_month) ← add_months year month 1;
          a ← local_day year month 1;
          b ← local_day next_year next_month 1;
          Some (Ok (a, b))
    | Some (Some month), Some (Some day) =>
        if negb (month_ok month) || (day =? 0) || (month_length year month <? day) then invalid
        else
          first ← local_day year month day;
          Some (Ok (first, first + 1))
    end.

(** ** Values *)

Section clock.
Context {C : LocalClock}.

Definition out_of_range (text : list N) : QueryError :=
  dm_malformed (text ++ str " is outside the dates goz can compare").

(** Today's local day and the time of day into it. *)
Definition local_now (text : list N) : result QueryError (Z * Z) :=
  local <-? ok_or (out_of_range text) (to_local clock_now);
  Ok (local / DAY, local mod DAY).

(** The instant a duration that ends now begins. *)
Definition duration_start (text : list N) (d : Duration) : result QueryError (option Z) :=
  match d with
  | Ticks ticks => Ok (checked (clock_now - ticks))
  | Months months =>
      '(today, time_of_day) <-? local_now text;
      let '(year, month, day) := civil today in
      '(year, month) <-? ok_or (out_of_range text) (add_months year month (- months));
      Ok (d ← local_day year month (Z.min day (month_length year month));
          t ← checked (d * DAY);
          t ← checked (t + time_of_day);
          to_utc t)
  end.

(** [this] or [last] before a calendar unit. *)
Definition calendar_prefix (lower : list N) : option (list N * Z) :=
  match strip_prefix (str "this") lower with
  | Some u => Some (u, 0)
  | None => u ← strip_prefix (str "last") lower; Some (u, -1)
  end.

Definition not_a_date (text : list N) : QueryError :=
  dm_malformed (text ++ str " is not a date; use today, yesterday, thisweek, lastmonth, thisyear, a count such as 7days or last2hours, YYYY, YYYY-MM, YYYY-MM-DD, or unknown").

(** The local days a calendar value names. *)
Definition named_days (text lower : list N) : result QueryError (Z * Z) :=
  if bool_decide (lower = str "today") then '(today, _) <-? local_now text; Ok (today, today + 1)
  else if bool_decide (lower = str "yesterday") then '(today, _) <-? local_now text; Ok (today - 1, today)
  else
    let written := r <-? ok_or (not_a_date text) (written_date lower); r in
    match calendar_prefix lower with
    | Some (unit, offset) =>
        if bool_decide (unit = str "week" \/ unit = str "month" \/ unit = str "year") then
          '(today, _) <-? local_now text;
          ok_or (out_of_range text) (calendar_period unit offset today week_start)
        else written
    | None => written
    end.

(** A local midnight as UTC ticks. *)
Definition midnight (text : list N) (day : Z) : result QueryError Z :=
  ok_or (out_of_range text) (t ← checked (day * DAY); if 0 <=? t then to_utc t else None).

Definition point (text : list N) : result QueryError Value :=
  let text := trim text in
  let lower := to_ascii_lowercase text in
  d <-? duration lower text;
  match d with
  | Some d =>
      start <-? duration_start text d;
      t <-? ok_or (out_of_range text) start;
      Ok (Instant t)
  | None =>
      '(first, last) <-? named_days text lower;
      s <-? midnight text first;
      e <-? midnight text last;
      Ok (Period s e)
  end.

(** One side of a range. *)
Definition range_side (text : list N) : result QueryError (option Value) :=
  let text := trim text in
  match text with
  | [] => Ok None
  | _ => v <-? point text; Ok (Some v)
  end.

(** The comparison operators, longest first. *)
Definition date_op (value : list N) : option (nat * list N) :=
  match strip_prefix (str ">=") value with
  | Some r => Some (0%nat, r)
  | None =>
  match strip_prefix (str "<=") value with
  | Some r => Some (1%nat, r)
  | None =>
  match strip_prefix (str ">") value with
  | Some r => Some (2%nat, r)
  | None =>
  match strip_prefix (str "<") value with
  | Some r => Some (3%nat, r)
  | None =>
  match strip_prefix (str "=") value with
  | Some r => Some (4%nat, r)
  | None => None
  end end end end end.

(** What an operator makes of a value. *)
Definition compare_filter (op : nat) (v : Value) : DateFilter :=
  match op with
  | 0%nat => Within (value_first v) i64_max
  | 2%nat => Within (saturate (value_last v + 1)) i64_max
  | 1%nat => Within i64_min (value_last v)
  | 3%nat => Within i64_min (saturate (value_first v - 1))
  | _ => alone v
  end.

Definition date_filter (value : list N) : result QueryError DateFilter :=
  let value := trim value in
  if bool_decide (to_ascii_lowercase value = str "unknown") then Ok Unknown
  else
    match split_once (str "..") value with
    | Some (lower, upper) =>
        lo <-? range_side lower;
        let min := match lo with Some v => value_first v | None => i64_min end in
        hi <-? range_side upper;
        let max := match hi with Some v => value_last v | None => i64_max end in
        if max <? min then Err (dm_malformed (value ++ str " runs backwards; write the earlier date first"))
        else Ok (Within min max)
    | None =>
        match date_op value with
        | Some (op, rest) => v <-? point rest; Ok (compare_filter op v)
        | None => v <-? point value; Ok (alone v)
        end
    end.
End clock.

(** A clock in a zone a fixed offset ahead of UTC. *)
Definition fixed_clock (now offset ws : Z) : LocalClock :=
  {| clock_now := now; to_local := fun u => checked (u + offset); to_utc := fun l => checked (l - offset); week_start := ws |}.

Definition HOUR : Z := 3600 * SECOND.
(** 2026-11-03T21:30:00Z, half an hour past midnight at UTC+3. *)
Definition istanbul : LocalClock := fixed_clock 134382150000000000 (3 * HOUR) 0.

Example today_is_the_written_day :
  is_ok (date_filter (C:=istanbul) (str "today")) = true /\
  date_filter (C:=istanbul) (str "TODAY ") = date_filter (C:=istanbul) (str "2026-11-04") /\
  date_filter (C:=istanbul) (str "2026-11-04") = Ok (Within 134382132000000000 134382995999999999).
Proof. split_and!; vm_compute; reflexivity. Qed.

(** ** The calendar periods *)

Lemma month_length_eq y m : month_length y m = days_in_month y m.
Proof.
  unfold month_length, days_in_month, is_leap.
  assert (Hr : forall k, 0 < k -> (Z.rem y k =? 0) = (y mod k =? 0)).
  { intros k Hk. apply eq_true_iff_eq. rewrite !Z.eqb_eq, Z.rem_divide, Z.mod_divide by lia. done. }
  rewrite !Hr by lia. by destruct (m =? 2).
Qed.

(** Months numbered from year 0. *)
Definition month_index (c : Z * Z * Z) : Z := let '(y, m, _) := c in y * 12 + (m - 1).
Definition year_of (c : Z * Z * Z) : Z := let '(y, _, _) := c in y.

Lemma dfc_day y m d : days_from_civil y m d = days_from_civil y m 1 + (d - 1).
Proof. unfold days_from_civil. lia. Qed.

(** The month after starts where this one ends. *)
Lemma dfc_next_month y m :
  1 <= m <= 12 ->
  days_from_civil (if m =? 12 then y + 1 else y) (if m =? 12 then 1 else m + 1) 1 = days_from_civil y m 1 + days_in_month y m.
Proof.
  intros Hm. pose proof (is_leap_spec y) as Hl.
  assert (Hcase : m = 1 \/ m = 2 \/ m = 3 \/ m = 4 \/ m = 5 \/ m = 6 \/ m = 7 \/ m = 8 \/ m = 9 \/ m = 10 \/ m = 11 \/ m = 12) by lia.
  repeat destruct Hcase as [-> |Hcase]; [..|subst m]; unfold days_from_civil, days_in_month; eval_month;
    try (destruct (is_leap y) eqn:El); lia.
Qed.

Lemma civil_valid day y m d : civil day = (y, m, d) -> valid_date y m d /\ days_from_civil y m d + DAYS_1601_TO_1970 = day.
Proof. unfold civil. intros [Hv Hd]%civil_from_days_valid. split; [done|lia]. Qed.

Lemma civil_of_date y m d : valid_date y m d -> civil (days_from_civil y m d + DAYS_1601_TO_1970) = (y, m, d).
Proof. intros Hv. unfold civil. rewrite Z.add_simpl_r. by apply days_from_civil_inverse. Qed.

(** The first day of a month, by its index. *)
Definition month_start (i : Z) : Z := days_from_civil (i / 12) (i mod 12 + 1) 1 + DAYS_1601_TO_1970.

Lemma month_start_next i : month_start (i + 1) = month_start i + days_in_month (i / 12) (i mod 12 + 1).
Proof.
  unfold month_start. rewrite <- (Z.add_comm DAYS_1601_TO_1970 (days_from_civil (i / 12) _ _)), <- Z.add_assoc, <- dfc_next_month by lia.
  destruct (Z.eqb_spec (i mod 12 + 1) 12).
  - replace ((i + 1) / 12) with (i / 12 + 1) by lia. replace ((i + 1) mod 12 + 1) with 1 by lia. lia.
  - replace ((i + 1) / 12) with (i / 12) by lia. replace ((i + 1) mod 12 + 1) with (i mod 12 + 1 + 1) by lia. lia.
Qed.

(** The days from one month start to the next are the days of that month. *)
Lemma days_of_month i day : month_start i <= day < month_start (i + 1) <-> month_index (civil day) = i.
Proof.
  rewrite month_start_next. unfold month_start. split.
  - intros Hd. set (y := i / 12) in *. set (m := i mod 12 + 1) in *.
    assert (Hday : day = days_from_civil y m (day - (days_from_civil y m 1 + DAYS_1601_TO_1970) + 1) + DAYS_1601_TO_1970)
      by (rewrite dfc_day; lia).
    rewrite Hday, civil_of_date; [subst y m; simpl; lia|]. split; subst m; lia.
  - destruct (civil day) as [[y m] d] eqn:Ec. apply civil_valid in Ec as [[Hm Hd] <-]. simpl. intros <-.
    replace ((y * 12 + (m - 1)) / 12) with y by lia. replace ((y * 12 + (m - 1)) mod 12 + 1) with m by lia.
    rewrite (dfc_day y m d). lia.
Qed.

Lemma dfc_in_year y m d : valid_date y m d -> days_from_civil y 1 1 <= days_from_civil y m d < days_from_civil (y + 1) 1 1.
Proof.
  intros [Hm Hd]. pose proof (is_leap_spec y) as Hl. revert Hd.
  assert (Hcase : m = 1 \/ m = 2 \/ m = 3 \/ m = 4 \/ m = 5 \/ m = 6 \/ m = 7 \/ m = 8 \/ m = 9 \/ m = 10 \/ m = 11 \/ m = 12) by lia.
  repeat destruct Hcase as [-> |Hcase]; [..|subst m]; unfold days_from_civil, days_in_month; eval_month;
    try (destruct (is_leap y) eqn:El); lia.
Qed.

Lemma dfc_year_mono y y' : y <= y' -> days_from_civil y 1 1 <= days_from_civil y' 1 1.
Proof. unfold days_from_civil. eval_month. lia. Qed.

Lemma days_of_year y day :
  days_from_civil y 1 1 + DAYS_1601_TO_1970 <= day < days_from_civil (y + 1) 1 1 + DAYS_1601_TO_1970 <-> year_of (civil day) = y.
Proof.
  destruct (civil day) as [[y' m] d] eqn:Ec. apply civil_valid in Ec as [Hv <-]. pose proof (dfc_in_year _ _ _ Hv) as Hy. simpl.
  split; [|intros <-; lia]. intros Hd. destruct (Z.lt_trichotomy y' y) as [Hlt|[?|Hlt]]; [|done|].
  - pose proof (dfc_year_mono (y' + 1) y). lia.
  - pose proof (dfc_year_mono (y + 1) y'). lia.
Qed.

(** A year a FILETIME can hold is far inside what [local_day] and the checked
    arithmetic accept. *)
Lemma year_small day y m d : -11000000 <= day <= 11000000 -> civil day = (y, m, d) -> -40000 <= y <= 40000 /\ 1 <= m <= 12.
Proof.
  intros Hd Hc. pose proof (proj2 (days_of_year y day)) as Hy. rewrite Hc in Hy. specialize (Hy eq_refl).
  apply civil_valid in Hc as [[Hm _] _]. split; [|done]. revert Hy. unfold days_from_civil, DAYS_1601_TO_1970. eval_month. lia.
Qed.

Lemma checked_small z : i64_min <= z <= i64_max -> checked z = Some z.
Proof. unfold checked. intros Hz. rewrite (proj2 (Z.leb_le _ _)), (proj2 (Z.leb_le _ _)) by lia. done. Qed.

Lemma add_months_small y m delta :
  -100000 <= y <= 100000 -> 1 <= m <= 12 -> -1000 <= delta <= 1000 ->
  add_months y m delta = Some ((y * 12 + (m - 1) + delta) / 12, (y * 12 + (m - 1) + delta) mod 12 + 1).
Proof.
  intros Hy Hm Hd. unfold add_months. unfold i64_min, i64_max in *.
  rewrite checked_small by (unfold i64_min, i64_max; lia). simpl. rewrite checked_small by (unfold i64_min, i64_max; lia). simpl.
  rewrite checked_small by (unfold i64_min, i64_max; lia). simpl. done.
Qed.

Lemma local_day_small y m d : -100000 <= y <= 100000 -> local_day y m d = Some (days_from_civil y m d + DAYS_1601_TO_1970).
Proof. intros Hy. unfold local_day. rewrite (proj2 (Z.leb_le _ _)), (proj2 (Z.leb_le _ _)) by lia. done. Qed.

(** The days of a period are those for which [P] holds. *)
Definition period_is (o : option (Z * Z)) (P : Z -> Prop) : Prop :=
  exists a b, o = Some (a, b) /\ a < b /\ forall day, a <= day < b <-> P day.

Lemma month_start_lt i : month_start i < month_start (i + 1).
Proof.
  rewrite month_start_next. unfold days_in_month. destruct (is_leap _); repeat case_match; lia.
Qed.

Lemma month_period y m delta :
  -50000 <= y <= 50000 -> 1 <= m <= 12 -> -1 <= delta <= 1 ->
  period_is ('(year, month) ← add_months y m delta; '(next_year, next_month) ← add_months year month 1;
             a ← local_day year month 1; b ← local_day next_year next_month 1; Some (a, b))
    (fun day => month_index (civil day) = y * 12 + (m - 1) + delta).
Proof.
  intros Hy Hm Hd. rewrite add_months_small by lia. cbn [mbind option_bind]. set (i := y * 12 + (m - 1) + delta).
  assert (-50010 <= i / 12 <= 50010) by (subst i; lia).
  rewrite add_months_small by lia. cbn [mbind option_bind].
  replace (i / 12 * 12 + (i mod 12 + 1 - 1) + 1) with (i + 1) by lia.
  rewrite !local_day_small by lia. exists (month_start i), (month_start (i + 1)).
  split; [done|]. split; [apply month_start_lt|]. intros day. apply days_of_month.
Qed.

Lemma year_period y :
  -50000 <= y <= 50000 ->
  period_is (a ← local_day y 1 1; b ← local_day (y + 1) 1 1; Some (a, b)) (fun day => year_of (civil day) = y).
Proof.
  intros Hy. rewrite !local_day_small by lia. eexists _, _. split; [done|]. split; [|apply days_of_year].
  unfold days_from_civil. eval_month. lia.
Qed.

(** The periods of [thisweek], [lastmonth] and their kin are the calendar's:
    for any day a FILETIME can fall on, the period exists, is not empty and
    holds exactly the days of the week (from its configured first day), month or
    year that lies [offset] of them after today's, over month lengths, leap
    years and the turn of the year. *)
Theorem calendar_period_correct today ws offset :
  -11000000 <= today <= 11000000 -> -1 <= offset <= 0 ->
  period_is (calendar_period (str "week") offset today ws)
    (fun day => (day - ws) / 7 = (today - ws) / 7 + offset) /\
  period_is (calendar_period (str "month") offset today ws)
    (fun day => month_index (civil day) = month_index (civil today) + offset) /\
  period_is (calendar_period (str "year") offset today ws)
    (fun day => year_of (civil day) = year_of (civil today) + offset).
Proof.
  intros Ht Ho. unfold calendar_period. destruct (civil today) as [[y m] d] eqn:Ec.
  destruct (year_small _ _ _ _ Ht Ec) as [Hy Hm]. split_and!.
  - rewrite bool_decide_eq_true_2 by done. eexists _, _. split; [done|]. split; [lia|]. intros day. lia.
  - rewrite bool_decide_eq_false_2, bool_decide_eq_true_2 by done. apply month_period; lia.
  - rewrite !bool_decide_eq_false_2 by done. apply (year_period (y + offset)). lia.
Qed.

Lemma calendar_period_correct_witness :
  exists a b, calendar_period (str "month") (-1) 155535 0 = Some (a, b) /\
    forall day, a <= day < b <-> month_index (civil day) = month_index (civil 155535) + -1.
Proof.
  destruct (calendar_period_correct 155535 0 (-1)) as (_ & (a & b & E & _ & Hd) & _); [lia|lia|].
  exists a, b. split; [exact E|exact Hd].
Defined.

(** ** Written dates *)

(** Four and two decimal digits. *)
Definition digit (z : Z) : N := Z.to_N (0x30 + z mod 10).
Definition digits2 (z : Z) : list N := [digit (z / 10); digit z].
Definition digits4 (z : Z) : list N := [digit (z / 1000); digit (z / 100); digit (z / 10); digit z].

Lemma digit_spec z : is_ascii_digit (digit z) = true /\ (digit z =? 0x2B)%N = false /\ 0x2D%N <> digit z /\
  Z.of_N (digit z - 0x30) = z mod 10.
Proof.
  unfold is_ascii_digit, digit. pose proof (Z.mod_pos_bound z 10).
  rewrite (proj2 (N.leb_le _ _)), (proj2 (N.leb_le _ _)), (proj2 (N.eqb_neq _ _)) by lia. split_and!; try done; lia.
Qed.

Lemma digits2_no_dash z : 0x2D%N ∉ digits2 z.
Proof. unfold digits2, digits4. rewrite !not_elem_of_cons. split_and!; [apply digit_spec..|apply not_elem_of_nil]. Qed.
Lemma digits4_no_dash z : 0x2D%N ∉ digits4 z.
Proof. unfold digits2, digits4. rewrite !not_elem_of_cons. split_and!; [apply digit_spec..|apply not_elem_of_nil]. Qed.

Lemma number_digits2 z : 0 <= z <= 99 -> number (Some (digits2 z)) 2 = Some z.
Proof.
  intros Hz. destruct (digit_spec z) as (D1 & _ & _ & V1), (digit_spec (z / 10)) as (D2 & P2 & _ & V2).
  unfold number, digits2. simpl. rewrite D1, D2. simpl. unfold parse_u32, parse_unsigned. rewrite P2. simpl. rewrite D2, D1. simpl.
  rewrite (proj2 (N.leb_le _ _)) by (unfold u32_max; lia). simpl. f_equal. lia.
Qed.

Lemma number_digits4 z : 0 <= z <= 9999 -> number (Some (digits4 z)) 4 = Some z.
Proof.
  intros Hz. destruct (digit_spec z) as (D1 & _ & _ & V1), (digit_spec (z / 10)) as (D2 & _ & _ & V2),
    (digit_spec (z / 100)) as (D3 & _ & _ & V3), (digit_spec (z / 1000)) as (D4 & P4 & _ & V4).
  unfold number, digits4. simpl. rewrite D1, D2, D3, D4. simpl. unfold parse_u32, parse_unsigned. rewrite P4. simpl.
  rewrite D4, D3, D2, D1. simpl. rewrite (proj2 (N.leb_le _ _)) by (unfold u32_max; lia). simpl. f_equal. lia.
Qed.

(** The outcome of reading a date: a period holding exactly the days with [P],
    or the error that the text is not a real date. *)
Definition date_is (lower : list N) (P : Z -> Prop) : Prop :=
  exists a b, written_date lower = Some (Ok (a, b)) /\ a < b /\ forall day, a <= day < b <-> P day.
Definition date_refused (lower : list N) : Prop :=
  written_date lower = Some (Err (dm_malformed (lower ++ str " is not a real date"))).

(** A written date is read back as what it says: [YYYY] names exactly the
    days of that year, [YYYY-MM] those of that month and [YYYY-MM-DD] that one
    day, for every year of four digits; a month or day that does not exist
    (month 13, February 29 outside leap years) is an error, never another day. *)
Theorem written_date_correct y m d :
  0 <= y <= 9999 -> 0 <= m <= 99 -> 0 <= d <= 99 ->
  let ym := digits4 y ++ 0x2D%N :: digits2 m in
  let ymd := digits4 y ++ 0x2D%N :: digits2 m ++ 0x2D%N :: digits2 d in
  date_is (digits4 y) (fun day => year_of (civil day) = y) /\
  (if bool_decide (1 <= m <= 12) then date_is ym (fun day => month_index (civil day) = y * 12 + (m - 1)) else date_refused ym) /\
  (if bool_decide (1 <= m <= 12 /\ 1 <= d <= days_in_month y m) then date_is ymd (fun day => civil day = (y, m, d)) else date_refused ymd).
Proof.
  intros Hy Hm Hd ym ymd. unfold date_is, date_refused. split_and!.
  - unfold written_date. rewrite split_alone by apply digits4_no_dash. cbn -[number local_day digits4]. rewrite number_digits4 by done.
    destruct (year_period y) as (a & b & E & Hlt & Hd'); [lia|]. exists a, b. split; [|done].
    cbn -[local_day]. destruct (local_day y 1 1); [|done]. cbn -[local_day] in *. destruct (local_day (y + 1) 1 1); [|done].
    cbn in *. congruence.
  - unfold written_date, ym. rewrite split_app, split_alone by (apply digits4_no_dash || apply digits2_no_dash).
    cbn -[number local_day digits4 digits2 add_months str]. rewrite number_digits4, number_digits2 by done.
    cbn -[number local_day add_months str]. case_bool_decide as Hmo.
    + rewrite (proj2 (Z.leb_le 1 m)), (proj2 (Z.leb_le m 12)) by lia. cbn -[local_day add_months].
      pose proof (month_period y m 0) as Hp. rewrite (add_months_small y m 0) in Hp by lia. cbn [mbind option_bind] in Hp.
      replace ((y * 12 + (m - 1) + 0) / 12) with y in Hp by lia. replace ((y * 12 + (m - 1) + 0) mod 12 + 1) with m in Hp by lia.
      destruct Hp as (a & b & E & Hlt & Hd'); [lia..|]. exists a, b. rewrite Z.add_0_r in Hd'. split; [|done].
      destruct (add_months y m 1) as [[]|]; [|done]. cbn -[local_day] in *. destruct (local_day y m 1); [|done]. cbn -[local_day] in *.
      destruct (local_day z z0 1); [|done]. cbn in *. congruence.
    + replace ((1 <=? m) && (m <=? 12)) with false; [done|]. symmetry. apply andb_false_iff. rewrite !Z.leb_gt. lia.
  - unfold written_date, ymd. rewrite !split_app, split_alone by (apply digits4_no_dash || apply digits2_no_dash).
    cbn -[number local_day digits4 digits2 month_length str]. rewrite number_digits4, !number_digits2 by done.
    cbn -[number local_day month_length str]. rewrite month_length_eq. case_bool_decide as Hv.
    + rewrite (proj2 (Z.leb_le 1 m)), (proj2 (Z.leb_le m 12)), (proj2 (Z.eqb_neq d 0)), (proj2 (Z.ltb_ge _ _)) by lia.
      cbn -[local_day]. rewrite local_day_small by lia. cbn. eexists _, _. split; [done|]. split; [lia|]. intros day.
      assert (Hvd : valid_date y m d) by done. split.
      * intros Hday. replace day with (days_from_civil y m d + DAYS_1601_TO_1970) by lia. by apply civil_of_date.
      * intros [_ <-]%civil_valid. lia.
    + replace (negb _ || _ || _) with true; [done|]. symmetry. rewrite !orb_true_iff, negb_true_iff, andb_false_iff, !Z.leb_gt, Z.eqb_eq, Z.ltb_lt. lia.
Qed.

Lemma written_date_correct_witness :
  date_is (digits4 2024) (fun day => year_of (civil day) = 2024) /\
  date_refused (digits4 2023 ++ 0x2D%N :: digits2 2 ++ 0x2D%N :: digits2 29).
Proof.
  split; [apply (written_date_correct 2024 1 1); lia|].
  refine (proj2 (proj2 (written_date_correct 2023 2 29 _ _ _))); lia.
Defined.

(** ** Ranges *)

(** What the clock promises: it returns [i64]s, and no UTC time is the very
    first tick, which would have no predecessor. *)
Class ClockOk (C : LocalClock) := {
  now_i64 : in_i64 clock_now;
  to_local_i64 : forall u l, to_local u = Some l -> in_i64 l;
  to_utc_i64 : forall l u, to_utc l = Some u -> i64_min < u <= i64_max
}.

Section ranges.
Context {C : LocalClock} {Hok : ClockOk C}.

Definition value_ok (v : Value) : Prop := in_i64 (value_first v) /\ in_i64 (value_last v).

Lemma ok_or_inv {E A} (e : E) o (a : A) : ok_or e o = Ok a -> o = Some a.
Proof. destruct o; simpl; naive_solver. Qed.

Lemma checked_inv z r : checked z = Some r -> in_i64 r.
Proof. unfold checked. case_match eqn:E; [|done]. intros [= <-]. apply andb_true_iff in E as [?%Z.leb_le ?%Z.leb_le]. done. Qed.

Lemma duration_start_i64 text d s : duration_start text d = Ok (Some s) -> in_i64 s.
Proof.
  destruct d as [t|m]; simpl.
  - intros [= E]. by eapply checked_inv.
  - intros ([today tod] & _ & E)%result_bind_ok. destruct (civil today) as [[y mo] day].
    apply result_bind_ok in E as ([y' m'] & _ & [= E]). apply bind_Some in E as (dd & _ & E). apply bind_Some in E as (t1 & _ & E).
    apply bind_Some in E as (t2 & _ & E). apply to_utc_i64 in E. unfold in_i64. lia.
Qed.

Lemma midnight_i64 text day t : midnight text day = Ok t -> i64_min < t <= i64_max.
Proof.
  unfold midnight. intros E%ok_or_inv. apply bind_Some in E as (t' & _ & E). case_match; [|done]. by apply to_utc_i64 in E.
Qed.

Lemma point_ok text v : point text = Ok v -> value_ok v.
Proof.
  unfold point. intros (d & _ & E)%result_bind_ok. destruct d as [d|].
  - apply result_bind_ok in E as (s & Es & E). apply result_bind_ok in E as (t & ->%ok_or_inv & [= <-]).
    apply duration_start_i64 in Es. by split.
  - apply result_bind_ok in E as ([a b] & _ & E). apply result_bind_ok in E as (s & Hs%midnight_i64 & E).
    apply result_bind_ok in E as (e & He%midnight_i64 & [= <-]). split; simpl; unfold in_i64; lia.
Qed.

Lemma range_side_ok text v : range_side text = Ok (Some v) -> value_ok v.
Proof. unfold range_side. destruct (trim text); [done|]. intros (w & Hw%point_ok & [= <-])%result_bind_ok. done. Qed.

Lemma saturate_i64 z : in_i64 (saturate z).
Proof. unfold in_i64, saturate, i64_min, i64_max. lia. Qed.

Lemma min_max_i64 : in_i64 i64_min /\ in_i64 i64_max.
Proof. unfold in_i64, i64_min, i64_max. lia. Qed.

Definition filter_ok (f : DateFilter) : Prop := match f with Within a b => in_i64 a /\ in_i64 b | Unknown => True end.

Lemma alone_ok v : value_ok v -> filter_ok (alone v).
Proof. intros [H1 H2]. pose proof min_max_i64 as [_ ?]. by destruct v. Qed.

Lemma compare_ok op v : value_ok v -> filter_ok (compare_filter op v).
Proof.
  intros Hv. pose proof min_max_i64 as [? ?]. pose proof Hv as [H1 H2].
  destruct op as [|[|[|[|op]]]]; simpl; try (split; auto using saturate_i64); by apply alone_ok.
Qed.

Lemma date_filter_i64 value f : date_filter value = Ok f -> filter_ok f.
Proof.
  unfold date_filter. pose proof min_max_i64 as [Hmin Hmax]. case_bool_decide; [by intros [= <-]|].
  destruct (split_once _ _) as [[lo hi]|].
  - intros (vl & Hl & E)%result_bind_ok. apply result_bind_ok in E as (vh & Hh & E).
    assert (in_i64 (match vl with Some v => value_first v | None => i64_min end)) by (destruct vl; [by apply range_side_ok in Hl as []|done]).
    assert (in_i64 (match vh with Some v => value_last v | None => i64_max end)) by (destruct vh; [by apply range_side_ok in Hh as []|done]).
    destruct (_ <? _); [done|]. injection E as <-. done.
  - destruct (date_op _) as [[op rest]|].
    + intros (v & Hv%point_ok & [= <-])%result_bind_ok. by apply compare_ok.
    + intros (v & Hv%point_ok & [= <-])%result_bind_ok. by apply alone_ok.
Qed.
End ranges.

(** Two [dm:] terms: a date passes the combined filter exactly when it passes
    both. *)
Lemma date_and_matches a b m :
  (forall t, m = Some t -> in_i64 t) -> filter_ok a -> filter_ok b ->
  date_matches (date_and a b) m = date_matches a m && date_matches b m.
Proof.
  intros Hm Ha Hb. apply eq_true_iff_eq. rewrite andb_true_iff. destruct a as [a1 a2|], b as [b1 b2|], m as [t|]; simpl;
    rewrite ?andb_true_iff, ?Z.leb_le; try (specialize (Hm t eq_refl); unfold in_i64, i64_min, i64_max in *); naive_solver lia.
Qed.

(** The comparisons of a value split the dates. *)
Lemma comparisons_split v t :
  i64_min < value_first v -> value_last v < i64_max -> in_i64 t ->
  date_matches (compare_filter 0 v) (Some t) = negb (date_matches (compare_filter 3 v) (Some t)) /\
  date_matches (compare_filter 1 v) (Some t) = negb (date_matches (compare_filter 2 v) (Some t)).
Proof.
  unfold in_i64, saturate. intros H1 H2 Ht. split; apply eq_true_iff_eq; rewrite negb_true_iff; simpl;
    rewrite ?andb_true_iff, ?andb_false_iff, ?Z.leb_le, ?Z.leb_gt; unfold saturate, i64_min, i64_max in *; lia.
Qed.
