(* ===== verification/Output.v ===== *)
(** The output writers: [crates/goz-core/src/output/{mod,csv,plain,list,json,writer}.rs].

    Each writer appends bytes to a buffer, so it is a function from its state to
    the bytes appended and its next state.  [serde_json] (a JSON string, and a
    row pretty printed) is a parameter, class [Serde]; the date formatter is the
    closure the client passes. *)

From stdpp Require Import gmap.
From stdpp Require Import base option list sets.
From Stdlib Require Import NArith ZArith Lia.
From Stdlib Require Ascii String.
From S2P Require Import Prelude Types Text Binary.
Import String.StringSyntax.
Open Scope string_scope.
Open Scope N_scope.
Open Scope list_scope.

(** A byte string literal. *)
Definition bs (s : String.string) : list N := Ascii.N_of_ascii <$> String.list_ascii_of_string s.
Definition CRLF : list N := [0x0D; 0x0A].
Definition QUOTE : N := 0x22.

(** [u64::to_string], at most twenty digits. *)
Fixpoint dec_loop (fuel : nat) (n : N) (acc : list N) : list N :=
  match fuel with
  | O => acc
  | S fuel => let acc := (0x30 + n mod 10) :: acc in if n <? 10 then acc else dec_loop fuel (n / 10) acc
  end.
Definition dec (n : N) : list N := dec_loop 20 n [].
(** [i64::to_string]. *)
Definition dec_i64 (z : Z) : list N := if (z <? 0)%Z then 0x2D :: dec (Z.to_N (- z)) else dec (Z.to_N z).

Record Row := { r_path : list N; r_size : option N; r_mtime : option (list N); r_is_dir : bool }.
Definition file_size (r : Row) : option N := if r_is_dir r then None else r_size r.

(** ** CSV and TSV *)

Record CsvOptions := { csv_separator : N; csv_bom : bool; csv_header : bool; double_quote : bool; csv_columns : list EsColumn }.
Definition csv_default : CsvOptions := {| csv_separator := 0x2C; csv_bom := true; csv_header := true; double_quote := true; csv_columns := [] |}.

Definition BOM : list N := [0xEF; 0xBB; 0xBF].

Definition column_display_name (c : EsColumn) : list N :=
  match c with ColSize => bs "Size" | ColDateModified => bs "Date Modified" end.

Definition needs_quoting (field : list N) (sep : N) : bool :=
  existsb (fun b => (b =? sep) || (b =? QUOTE) || (b =? 0x0D) || (b =? 0x0A)) field.

Definition write_quoted (field : list N) : list N :=
  QUOTE :: flat_map (fun b => if b =? QUOTE then [QUOTE; b] else [b]) field ++ [QUOTE].

Definition write_csv_preamble (o : CsvOptions) : list N :=
  (if csv_bom o then BOM else []) ++
  (if csv_header o then flat_map (fun c => column_display_name c ++ [csv_separator o]) (csv_columns o) ++ bs "Filename" ++ CRLF else []).

Definition csv_cell (row : Row) (c : EsColumn) : list N :=
  match c with
  | ColSize => match file_size row with Some s => dec s | None => [] end
  | ColDateModified => default [] (r_mtime row)
  end.

Definition write_csv_row (o : CsvOptions) (row : Row) : list N :=
  flat_map (fun c => csv_cell row c ++ [csv_separator o]) (csv_columns o) ++
  (if double_quote o || needs_quoting (r_path row) (csv_separator o) then write_quoted (r_path row) else r_path row) ++ CRLF.

Definition write_csv (o : CsvOptions) (rows : list Row) : list N := write_csv_preamble o ++ flat_map (write_csv_row o) rows.

(** ** The plain listing *)

Definition SIZE_WIDTH : N := 14.
Definition DATE_WIDTH : N := 19.

Record DigitGrouping := { g_separator : list N; g_groups : N }.
Definition es_default : DigitGrouping := {| g_separator := bs ","; g_groups := 3 |}.

Record PlainOptions := { p_columns : list EsColumn; p_grouping : DigitGrouping; p_quote : bool }.
Definition plain_default : PlainOptions := {| p_columns := []; p_grouping := es_default; p_quote := false |}.

(** The loop over the bytes of the grouping value, which saturates at [u32::MAX]. *)
Fixpoint groups_loop (value : N) (s : list N) : N :=
  match s with
  | [] => value
  | b :: s =>
      if b =? 0x30 then value
      else if (0x31 <=? b) && (b <=? 0x39) then groups_loop (N.min u32_max (N.min u32_max (value * 10) + (b - 0x30))) s
      else groups_loop value s
  end.
Definition es_groups (grouping : list N) : N :=
  let value := groups_loop 0 grouping in
  if (value <=? u8_max) && (value <? 100) then value else 3.

Definition from_locale (thousand_separator grouping : option (list N)) : DigitGrouping :=
  {| g_separator := default (g_separator es_default) thousand_separator;
     g_groups := match grouping with Some g => es_groups g | None => g_groups es_default end |}.

(** The cuts, counted from the left, first the rightmost; [None] is a loop that
    goes on for ever. *)
Fixpoint cuts_loop (fuel : nat) (digits from_right rest : N) : option (list N) :=
  if from_right <? digits then
    match fuel with
    | O => None
    | S fuel => cuts ← cuts_loop fuel digits (from_right + rest) rest; Some (digits - from_right :: cuts)
    end
  else Some [].

(** The pieces up to each cut, a separator after each, and the last piece. *)
Fixpoint join_cuts (sep digits : list N) (start : N) (cuts : list N) : list N :=
  match cuts with
  | [] => drop (N.to_nat start) digits
  | cut :: cuts => slice start (cut - start) digits ++ sep ++ join_cuts sep digits cut cuts
  end.

Definition format (g : DigitGrouping) (n : N) : option (list N) :=
  let digits := dec n in
  if g_groups g =? 0 then Some digits
  else
    let '(first, rest) := if g_groups g <=? 9 then (g_groups g, g_groups g) else (g_groups g / 10, g_groups g mod 10) in
    cuts ← cuts_loop (length digits) (len digits) first rest;
    Some (join_cuts (g_separator g) digits 0 (reverse cuts)).

(** [str::chars().count()] of UTF-8. *)
Definition chars_count (s : list N) : N := len (filter (fun b => N.land b 0xC0 <> 0x80) s).

Definition pad (spaces : N) : list N := replicate (N.to_nat spaces) 0x20.

(** One cell: its text, its width, and whether it is right-aligned. *)
Definition plain_cell (g : DigitGrouping) (row : Row) (col : EsColumn) : option (list N * N * bool) :=
  match col with
  | ColSize => t ← match file_size row with Some s => format g s | None => Some [] end; Some (t, SIZE_WIDTH, true)
  | ColDateModified => Some (default [] (r_mtime row), DATE_WIDTH, false)
  end.

(** The cells of one line, with how far those before ran past their widths. *)
Fixpoint plain_cells (g : DigitGrouping) (row : Row) (cols : list EsColumn) (overflow : N) : option (list N) :=
  match cols with
  | [] => Some []
  | col :: cols =>
      match plain_cell g row col with
      | None => None
      | Some (text, width, right_aligned) =>
          let n := chars_count text in
          let fill := width - n in
          let paid := N.min fill overflow in
          let fill := fill - paid in
          rest ← plain_cells g row cols (overflow - paid + (n - width));
          Some ((if right_aligned : bool then pad fill ++ text else text ++ pad fill) ++ [0x20] ++ rest)
      end
  end.

Definition write_plain_row (o : PlainOptions) (row : Row) : option (list N) :=
  cells ← plain_cells (p_grouping o) row (p_columns o) 0;
  Some (cells ++ (if p_quote o then [QUOTE] else []) ++ r_path row ++ (if p_quote o then [QUOTE] else []) ++ [0x0A]).

(** ** es's other exports *)

(** [serde_json::to_writer] of a string, and [to_writer_pretty] of a row. *)
Class Serde := { json_string : list N -> list N; json_pretty : ResultItem -> list N }.

Inductive ListKind := KTxt | KEfu | KJson.
#[export] Instance ListKind_eq_dec : EqDecision ListKind.
Proof. solve_decision. Defined.
Record ListOptions := { l_kind : ListKind; l_bom : bool; l_header : bool; l_quote : bool; l_columns : list EsColumn }.
Record List_ := { l_opts : ListOptions; l_started : bool; l_any_row : bool }.

Definition list_new (o : ListOptions) : List_ := {| l_opts := o; l_started := false; l_any_row := false |}.

Definition item_size (i : ResultItem) : option N := if Binary.is_dir i then None else Binary.size i.

Definition efu_row (i : ResultItem) : list N :=
  write_quoted (Binary.path i) ++ [0x2C] ++ match item_size i with Some s => dec s | None => [] end ++ [0x2C] ++
  match mtime_ft i with Some t => dec_i64 t | None => [] end ++ [0x2C] ++ dec (if Binary.is_dir i then 0x10 else 0) ++ CRLF.

Definition json_number (name : list N) (value : option N) : list N :=
  [QUOTE] ++ name ++ [QUOTE; 0x3A] ++ match value with Some v => dec v | None => bs "null" end.

Section writers.
Context {Sj : Serde}.

Definition txt_row (o : ListOptions) (i : ResultItem) : list N :=
  (if l_quote o then [QUOTE] else []) ++ Binary.path i ++ (if l_quote o then [QUOTE] else []) ++ CRLF.

Definition json_row (l : List_) (i : ResultItem) : list N :=
  (if l_any_row l then [0x2C] ++ CRLF ++ [0x7B] else [0x5B; 0x7B]) ++
  flat_map (fun c => match c with
    | ColSize => json_number (bs "size") (item_size i)
    | ColDateModified => json_number (bs "date_modified") (i64_to_bits <$> mtime_ft i)
    end ++ [0x2C]) (l_columns (l_opts l)) ++
  [QUOTE] ++ bs "filename" ++ [QUOTE; 0x3A] ++ json_string (Binary.path i) ++ [0x7D].

Definition list_start (l : List_) : list N * List_ :=
  if l_started l then ([], l)
  else
    ((if l_bom (l_opts l) then BOM else []) ++
     (if l_header (l_opts l) then match l_kind (l_opts l) with
        | KTxt => bs "Filename" ++ CRLF
        | KEfu => bs "Filename,Size,Date Modified,Attributes" ++ CRLF
        | KJson => [] end else []),
     {| l_opts := l_opts l; l_started := true; l_any_row := l_any_row l |}).

Fixpoint list_items (l : List_) (its : list ResultItem) : list N * List_ :=
  match its with
  | [] => ([], l)
  | i :: its =>
      let row := match l_kind (l_opts l) with KTxt => txt_row (l_opts l) i | KEfu => efu_row i | KJson => json_row l i end in
      let '(out, l) := list_items {| l_opts := l_opts l; l_started := l_started l; l_any_row := true |} its in
      (row ++ out, l)
  end.

Definition list_page (l : List_) (page : QueryResults) : list N * List_ :=
  let '(out, l) := list_start l in let '(rows, l) := list_items l (items page) in (out ++ rows, l).

Definition list_finish (l : List_) : list N :=
  let '(out, l) := list_start l in
  out ++ (if decide (l_kind (l_opts l) = KJson) then (if l_any_row l then [0x5D] ++ CRLF else [0x5B; 0x5D] ++ CRLF) else []).

(** ** The [--json] object *)

Record Json := { j_limit : option N; j_started : bool; j_total : N; j_any_item : bool; j_incomplete : bool; j_pending : bool;
                 j_generation : N; j_total_size : option N }.
Definition json_new (limit : option N) : Json :=
  {| j_limit := limit; j_started := false; j_total := 0; j_any_item := false; j_incomplete := false; j_pending := false;
     j_generation := 0; j_total_size := None |}.

Definition j_quoted (s : String.string) : list N := [QUOTE] ++ bs s ++ [QUOTE].
Definition json_bool (b : bool) : list N := if b then bs "true" else bs "false".

Definition json_head (total : N) : list N :=
  [0x7B; 0x0A] ++ bs "  " ++ j_quoted "total" ++ bs ": " ++ dec total ++ [0x2C; 0x0A] ++ bs "  " ++ j_quoted "items" ++ bs ": [".

(** [split(|&b| b == b'\n')], a line break and four spaces between the lines. *)
Definition indent (s : list N) : list N := flat_map (fun b => if b =? 0x0A then [0x0A] ++ bs "    " else [b]) s.

Definition json_item (any : bool) (i : ResultItem) : list N := (if any then [0x2C] else []) ++ [0x0A] ++ bs "    " ++ indent (json_pretty i).

Fixpoint json_items (any : bool) (its : list ResultItem) : list N * bool :=
  match its with
  | [] => ([], any)
  | i :: its => let '(out, any') := json_items true its in (json_item any i ++ out, any')
  end.

Definition json_page (j : Json) (page : QueryResults) : list N * Json :=
  let '(out, any) := json_items (j_any_item j) (items page) in
  ((if j_started j then [] else json_head (Binary.total page)) ++ out,
   {| j_limit := j_limit j; j_started := true;
      j_total := if j_started j then j_total j else Binary.total page;
      j_any_item := any; j_incomplete := j_incomplete j || volumes_incomplete page; j_pending := j_pending j || metadata_pending page;
      j_generation := generation page; j_total_size := if j_started j then j_total_size j else Binary.total_size page |}).

Definition json_tail (j : Json) : list N :=
  let more := match j_limit j with Some n => n <? j_total j | None => false end in
  (if j_started j then [] else json_head (j_total j)) ++
  (if j_any_item j then [0x0A] ++ bs "  ]" else bs "]") ++
  [0x2C; 0x0A] ++ bs "  " ++ j_quoted "more" ++ bs ": " ++ json_bool more ++
  [0x2C; 0x0A] ++ bs "  " ++ j_quoted "volumes_incomplete" ++ bs ": " ++ json_bool (j_incomplete j) ++
  [0x2C; 0x0A] ++ bs "  " ++ j_quoted "metadata_pending" ++ bs ": " ++ json_bool (j_pending j) ++
  [0x2C; 0x0A] ++ bs "  " ++ j_quoted "generation" ++ bs ": " ++ dec (j_generation j) ++
  match j_total_size j with Some s => [0x2C; 0x0A] ++ bs "  " ++ j_quoted "total_size" ++ bs ": " ++ dec s | None => [] end ++
  [0x0A; 0x7D; 0x0A].

(** ** The writer of pages *)

Inductive Format :=
| FPlain (o : PlainOptions)
| FCsv (o : CsvOptions)
| FList (o : ListOptions)
| FJson (limit : option N).

Inductive State :=
| SPlain (o : PlainOptions)
| SCsv (o : CsvOptions) (started : bool)
| SList (l : List_)
| SJson (j : Json).

Definition writer_new (f : Format) : State :=
  match f with
  | FPlain o => SPlain o
  | FCsv o => SCsv o false
  | FList o => SList (list_new o)
  | FJson limit => SJson (json_new limit)
  end.

Context (date : Z -> list N).

(** [each_row]: the rows as [write] sees them. *)
Definition rows_of (columns : list EsColumn) (its : list ResultItem) : list Row :=
  let wants_date := bool_decide (ColDateModified ∈ columns) in
  (fun i => {| r_path := Binary.path i; r_size := Binary.size i;
               r_mtime := if wants_date then date <$> mtime_ft i else None; r_is_dir := Binary.is_dir i |}) <$> its.

Definition writer_page (s : State) (page : QueryResults) : option (list N * State) :=
  match s with
  | SPlain o => rows ← mapM (write_plain_row o) (rows_of (p_columns o) (items page)); Some (concat rows, s)
  | SCsv o started =>
      Some ((if started then [] else write_csv_preamble o) ++ flat_map (write_csv_row o) (rows_of (csv_columns o) (items page)), SCsv o true)
  | SList l => let '(out, l) := list_page l page in Some (out, SList l)
  | SJson j => let '(out, j) := json_page j page in Some (out, SJson j)
  end.

Definition writer_finish (s : State) : list N :=
  match s with
  | SPlain _ => []
  | SCsv o started => if started then [] else write_csv_preamble o
  | SList l => list_finish l
  | SJson j => json_tail j
  end.

(** A whole output: the pages in order, then the end. *)
Fixpoint writer_pages (s : State) (pages : list QueryResults) : option (list N) :=
  match pages with
  | [] => Some (writer_finish s)
  | page :: pages => '(out, s) ← writer_page s page; rest ← writer_pages s pages; Some (out ++ rest)
  end.
Definition write_results (f : Format) (pages : list QueryResults) : option (list N) := writer_pages (writer_new f) pages.
End writers.

(** ** Decimal *)

Lemma digits_value_app a b acc v : digits_value a acc = Some v -> digits_value (a ++ b) acc = digits_value b v.
Proof. revert acc. induction a as [|x a IH]; intros acc; simpl; [by intros [= ->]|]. destruct (is_ascii_digit x); [apply IH|done]. Qed.

Lemma digit_char n : n < 10 -> is_ascii_digit (0x30 + n) = true.
Proof. intros Hn. unfold is_ascii_digit. rewrite andb_true_iff, !N.leb_le. lia. Qed.

Lemma dec_loop_spec fuel n acc : n < 10 ^ N.of_nat fuel -> (0 < fuel)%nat ->
  exists ds, dec_loop fuel n acc = ds ++ acc /\ ds <> [] /\ Forall (fun b => is_ascii_digit b = true) ds /\ digits_value ds 0 = Some n.
Proof.
  revert n acc. induction fuel as [|fuel IH]; intros n acc Hn Hf; [lia|]. cbn [dec_loop].
  assert (Hd : is_ascii_digit (0x30 + n mod 10) = true) by (apply digit_char, N.mod_lt; done).
  destruct (N.ltb_spec n 10) as [Hlt|Hge].
  - exists [0x30 + n mod 10]. split_and!; [done|done|by constructor|]. cbn [digits_value]. rewrite Hd. f_equal. rewrite N.mod_small by done. lia.
  - assert (Hn10 : n / 10 < 10 ^ N.of_nat fuel).
    { apply N.Div0.div_lt_upper_bound. rewrite Nat2N.inj_succ, N.pow_succ_r' in Hn. lia. }
    assert (Hf' : (0 < fuel)%nat) by (destruct fuel; [simpl in Hn10; assert (1 <= n / 10) by (apply N.div_le_lower_bound; lia); lia|lia]).
    destruct (IH (n / 10) ((0x30 + n mod 10) :: acc) Hn10 Hf') as (ds & E & Hne & Hall & Hv).
    exists (ds ++ [0x30 + n mod 10]). rewrite <- app_assoc. split_and!; [done|by destruct ds|by apply Forall_app; split; [|constructor]|].
    rewrite (digits_value_app _ _ _ _ Hv). cbn [digits_value]. rewrite Hd. f_equal. pose proof (N.div_mod n 10). lia.
Qed.

Lemma dec_spec n : n <= u64_max -> dec n <> [] /\ Forall (fun b => is_ascii_digit b = true) (dec n) /\ digits_value (dec n) 0 = Some n.
Proof.
  intros Hn. unfold dec. destruct (dec_loop_spec 20 n []) as (ds & -> & ? & ? & ?); [|lia|by rewrite app_nil_r].
  eapply N.le_lt_trans; [exact Hn|]. by vm_compute.
Qed.

(** ** Reading CSV back *)

(** A reader of quoted records: what the program's own tests read the output
    with.  Quotes double inside a quoted field; CR LF ends a record. *)
Fixpoint csv_read (sep : N) (quoted : bool) (field : list N) (fields : list (list N)) (records : list (list (list N))) (s : list N)
  : option (list (list (list N))) :=
  match s with
  | [] => if quoted then None else match field, fields with [], [] => Some records | _, _ => None end
  | b :: s' =>
      if quoted then
        if b =? QUOTE then
          match s' with
          | c :: s'' => if c =? QUOTE then csv_read sep true (field ++ [QUOTE]) fields records s'' else csv_read sep false field fields records s'
          | [] => csv_read sep false field fields records s'
          end
        else csv_read sep true (field ++ [b]) fields records s'
      else if b =? QUOTE then csv_read sep true field fields records s'
      else if b =? sep then csv_read sep false [] (fields ++ [field]) records s'
      else
        match s' with
        | c :: s'' =>
            if (b =? 0x0D) && (c =? 0x0A) then csv_read sep false [] [] (records ++ [fields ++ [field]]) s''
            else csv_read sep false (field ++ [b]) fields records s'
        | [] => csv_read sep false (field ++ [b]) fields records s'
        end
  end.

Section csv.
Context (sep : N) (Hsep : sep = 0x2C \/ sep = 0x09).

(** Text that needs no quotes. *)
Definition plain_byte (b : N) : Prop := b <> sep /\ b <> QUOTE /\ b <> 0x0D /\ b <> 0x0A.

Lemma read_plain t field fields records rest : Forall plain_byte t ->
  csv_read sep false field fields records (t ++ rest) = csv_read sep false (field ++ t) fields records rest.
Proof.
  intros Ht. revert field. induction Ht as [|b t (H1 & H2 & H3 & H4) Ht IH]; intros field; [by rewrite app_nil_r|].
  simpl. rewrite (proj2 (N.eqb_neq _ _) H2), (proj2 (N.eqb_neq _ _) H1), (proj2 (N.eqb_neq _ _) H3). simpl.
  replace (field ++ b :: t) with ((field ++ [b]) ++ t) by (by rewrite <- app_assoc). rewrite <- IH.
  by destruct (t ++ rest) as [|c s''].
Qed.

Lemma read_quoted t field fields records c rest : c <> QUOTE ->
  csv_read sep true field fields records (flat_map (fun b => if b =? QUOTE then [QUOTE; b] else [b]) t ++ QUOTE :: c :: rest)
  = csv_read sep false (field ++ t) fields records (c :: rest).
Proof.
  intros Hc. revert field. induction t as [|b t IH]; intros field; cbn [flat_map app].
  - cbn [csv_read]. rewrite N.eqb_refl, (proj2 (N.eqb_neq _ _) Hc). by rewrite app_nil_r.
  - replace (field ++ b :: t) with ((field ++ [b]) ++ t) by (by rewrite <- app_assoc). rewrite <- IH.
    destruct (N.eqb_spec b QUOTE) as [-> |Hb]; cbn [app csv_read].
    + by rewrite N.eqb_refl.
    + by rewrite (proj2 (N.eqb_neq _ _) Hb).
Qed.

Lemma needs_quoting_false t : needs_quoting t sep = false -> Forall plain_byte t.
Proof.
  unfold needs_quoting. intros Hq. apply Forall_forall. intros b Hb. assert (Hbad : ((b =? sep) || (b =? QUOTE) || (b =? 0x0D) || (b =? 0x0A)) = false).
  { apply not_true_is_false. intros Ht. apply eq_true_false_abs in Hq; [done|]. apply existsb_exists. exists b. split; [by apply list_elem_of_In|done]. }
  rewrite !orb_false_iff, !N.eqb_neq in Hbad. unfold plain_byte. tauto.
Qed.

Lemma sep_not_quote : (sep =? QUOTE) = false /\ sep <> 0x0D.
Proof. destruct Hsep as [-> | ->]; done. Qed.

Lemma read_sep field fields records rest : csv_read sep false field fields records (sep :: rest) = csv_read sep false [] (fields ++ [field]) records rest.
Proof. cbn [csv_read]. destruct sep_not_quote as [-> _]. by rewrite N.eqb_refl. Qed.

Lemma read_crlf field fields records rest : csv_read sep false field fields records (CRLF ++ rest) = csv_read sep false [] [] (records ++ [fields ++ [field]]) rest.
Proof. destruct Hsep as [-> | ->]; done. Qed.

(** Cells followed by separators. *)
Lemma read_cells {A} (cell : A -> list N) cols fields records rest : (forall c, c ∈ cols -> Forall plain_byte (cell c)) ->
  csv_read sep false [] fields records (flat_map (fun c => cell c ++ [sep]) cols ++ rest) = csv_read sep false [] (fields ++ (cell <$> cols)) records rest.
Proof.
  revert fields. induction cols as [|c cols IH]; intros fields Hc; cbn [flat_map fmap list_fmap app]; [by rewrite app_nil_r|].
  rewrite <- !app_assoc, read_plain by (apply Hc; left). cbn [app]. rewrite read_sep, IH by (intros c' ?; apply Hc; by right).
  by rewrite <- app_assoc.
Qed.

Lemma digit_plain_byte b : is_ascii_digit b = true -> plain_byte b.
Proof. unfold is_ascii_digit, plain_byte, QUOTE. rewrite andb_true_iff, !N.leb_le. destruct Hsep; lia. Qed.

Definition row_fits (row : Row) : Prop :=
  (forall s, r_size row = Some s -> s <= u64_max) /\ (forall d, r_mtime row = Some d -> Forall plain_byte d).

Lemma cell_plain row c : row_fits row -> Forall plain_byte (csv_cell row c).
Proof.
  intros [Hs Hd]. destruct c; simpl.
  - unfold file_size. destruct (r_is_dir row); [constructor|]. destruct (r_size row) as [s|]; [|constructor].
    destruct (dec_spec s (Hs s eq_refl)) as (_ & Ha & _). eapply Forall_impl; [exact Ha|]. apply digit_plain_byte.
  - destruct (r_mtime row) as [d|]; [by apply Hd|constructor].
Qed.

Lemma read_row o row records rest : csv_separator o = sep -> row_fits row ->
  csv_read sep false [] [] records (write_csv_row o row ++ rest)
  = csv_read sep false [] [] (records ++ [(csv_cell row <$> csv_columns o) ++ [r_path row]]) rest.
Proof.
  intros Eo Hf. unfold write_csv_row. rewrite Eo, <- !app_assoc, read_cells by (intros; by apply cell_plain). cbn [app].
  destruct (double_quote o || needs_quoting (r_path row) sep) eqn:Eq.
  - unfold write_quoted. cbn [app csv_read]. rewrite N.eqb_refl, <- app_assoc. unfold CRLF at 1. cbn [app].
    rewrite read_quoted by done. change (0x0D :: 0x0A :: rest) with (CRLF ++ rest). by rewrite read_crlf.
  - apply orb_false_iff in Eq as [_ Eq]. rewrite read_plain by (by apply needs_quoting_false). by rewrite read_crlf.
Qed.

Lemma read_rows o rows records : csv_separator o = sep -> Forall row_fits rows ->
  csv_read sep false [] [] records (flat_map (write_csv_row o) rows)
  = Some (records ++ ((fun row => (csv_cell row <$> csv_columns o) ++ [r_path row]) <$> rows)).
Proof.
  intros Eo Hf. revert records. induction Hf as [|row rows Hr Hf IH]; intros records; [by rewrite app_nil_r|].
  cbn [flat_map]. rewrite read_row by done. rewrite IH, <- app_assoc. done.
Qed.

Lemma names_plain c : Forall plain_byte (column_display_name c) /\ Forall plain_byte (bs "Filename").
Proof.
  unfold plain_byte. destruct Hsep as [-> | ->], c; split; apply (bool_decide_unpack _); vm_compute; exact I.
Qed.
End csv.

(** C40: the CSV and TSV output reads back exactly: for any columns, quoting mode
    and header, a reader of quoted fields recovers, after the byte order mark,
    the header's names and for each row the size in decimal (empty for a folder),
    the date and the full path, whatever the path holds: separators, quotes and
    line breaks included. *)
Theorem csv_round_trip o rows :
  csv_separator o = 0x2C \/ csv_separator o = 0x09 -> Forall (row_fits (csv_separator o)) rows ->
  csv_read (csv_separator o) false [] [] [] (drop (if csv_bom o then 3 else 0) (write_csv o rows)) =
  Some ((if csv_header o then [(column_display_name <$> csv_columns o) ++ [bs "Filename"]] else []) ++
        ((fun row => (csv_cell row <$> csv_columns o) ++ [r_path row]) <$> rows)).
Proof.
  intros Hs Hf. unfold write_csv, write_csv_preamble.
  replace (drop (if csv_bom o then 3 else 0) _) with ((if csv_header o then flat_map (fun c => column_display_name c ++ [csv_separator o]) (csv_columns o) ++ bs "Filename" ++ CRLF else [])
    ++ flat_map (write_csv_row o) rows) by (destruct (csv_bom o); [by rewrite <- app_assoc|done]).
  destruct (csv_header o); [|by apply read_rows]. rewrite <- !app_assoc, read_cells by (done || intros; by apply names_plain). cbn [app].
  rewrite read_plain by (by apply (names_plain _ Hs ColSize)). rewrite read_crlf by done. by rewrite read_rows.
Qed.

Lemma csv_round_trip_witness :
  csv_read 0x2C false [] [] [] (write_csv {| csv_separator := 0x2C; csv_bom := false; csv_header := false; double_quote := false; csv_columns := [ColSize] |}
    [{| r_path := bs "a,b" ++ [QUOTE]; r_size := Some 1204; r_mtime := None; r_is_dir := false |}]) = Some [[bs "1204"; bs "a,b" ++ [QUOTE]]].
Proof.
  apply (csv_round_trip {| csv_separator := 0x2C; csv_bom := false; csv_header := false; double_quote := false; csv_columns := [ColSize] |}
    [{| r_path := bs "a,b" ++ [QUOTE]; r_size := Some 1204; r_mtime := None; r_is_dir := false |}]).
  - left. reflexivity.
  - constructor; [|constructor]. split; [|intros d Hd; discriminate Hd]. intros s Hs. injection Hs as <-. by vm_compute.
Defined.

(** ** Digit groups *)

(** [gs] are the groups of [d], the last of size [first], those before it of
    size [rest], and the leftmost what is left, never empty. *)
Inductive Groups : N -> N -> list N -> list (list N) -> Prop :=
| groups_one first rest d : 1 <= len d -> len d <= first -> Groups first rest d [d]
| groups_more first rest d g gs : len g = first -> Groups rest rest d gs -> Groups first rest (d ++ g) (gs ++ [g]).

(** The groups with separators between them. *)
Fixpoint separated (sep : list N) (gs : list (list N)) : list N :=
  match gs with
  | [] => []
  | g :: gs => g ++ match gs with [] => [] | _ :: _ => sep ++ separated sep gs end
  end.

Lemma separated_snoc sep gs g : gs <> [] -> separated sep (gs ++ [g]) = separated sep gs ++ sep ++ g.
Proof.
  induction gs as [|x gs IH]; intros Hne; [done|]. destruct gs as [|y gs]; [simpl; by rewrite !app_nil_r|].
  cbn [app]. change (separated sep (x :: y :: gs ++ [g])) with (x ++ sep ++ separated sep ((y :: gs) ++ [g])).
  rewrite IH by done. change (separated sep (x :: y :: gs)) with (x ++ sep ++ separated sep (y :: gs)). by rewrite <- !app_assoc.
Qed.

Lemma groups_not_nil first rest d gs : Groups first rest d gs -> gs <> [].
Proof. destruct 1; [done|]. intros E. by apply app_eq_nil in E as [_ ?]. Qed.

Lemma cuts_loop_below fuel digits from_right rest cuts : cuts_loop fuel digits from_right rest = Some cuts ->
  Forall (fun c => c <= digits - from_right) cuts.
Proof.
  revert from_right cuts. induction fuel as [|fuel IH]; intros fr cuts; cbn [cuts_loop]; destruct (N.ltb_spec fr digits);
    try (intros [= <-]; apply Forall_nil_2); try done.
  destruct (cuts_loop fuel digits (fr + rest) rest) as [cs|] eqn:E; [|done]. intros [= <-]. constructor; [lia|].
  eapply Forall_impl; [by eapply IH|]. simpl. intros c Hc. lia.
Qed.

Lemma cuts_loop_shift fuel digits by_ from_right rest : by_ <= digits ->
  cuts_loop fuel digits (by_ + from_right) rest = cuts_loop fuel (digits - by_) from_right rest.
Proof.
  intros Hb. revert from_right. induction fuel as [|fuel IH]; intros fr; cbn [cuts_loop];
    destruct (N.ltb_spec (by_ + fr) digits), (N.ltb_spec fr (digits - by_)); try lia; try done.
  rewrite <- N.add_assoc, IH. destruct (cuts_loop fuel (digits - by_) (fr + rest) rest); [|done]. simpl. do 2 f_equal. lia.
Qed.

Lemma join_cuts_snoc sep d g start cuts : start <= len d -> Forall (fun c => c <= len d) cuts ->
  join_cuts sep (d ++ g) start (cuts ++ [len d]) = join_cuts sep d start cuts ++ sep ++ g.
Proof.
  intros Hs Hc. revert start Hs. induction Hc as [|c cuts Hc Hcs IH]; intros start Hs; cbn [app join_cuts].
  - assert (Hd : (N.to_nat start <= length d)%nat) by (unfold len in Hs; lia).
    unfold slice. rewrite drop_app_le by done. rewrite take_app_le by (rewrite length_drop; unfold len; lia).
    rewrite take_ge by (rewrite length_drop; unfold len; lia). do 2 f_equal. unfold len. rewrite Nat2N.id. by rewrite drop_app_length.
  - assert (Hd : (N.to_nat start <= length d)%nat) by (unfold len in Hs; lia).
    rewrite IH by done. rewrite <- !app_assoc. f_equal. unfold slice. rewrite drop_app_le by done.
    rewrite take_app_le; [done|]. rewrite length_drop. unfold len in Hc. lia.
Qed.

(** The loop ends, since both sizes are positive, and cuts the groups. *)
Lemma cuts_groups fuel first rest sep d : 1 <= first -> 1 <= rest -> 1 <= len d -> len d <= N.of_nat fuel ->
  exists cuts gs, cuts_loop fuel (len d) first rest = Some cuts /\ join_cuts sep d 0 (reverse cuts) = separated sep gs /\ Groups first rest d gs.
Proof.
  intros Hf Hr. revert first d Hf. induction fuel as [|fuel IH]; intros first d Hf Hd Hl; [lia|]. cbn [cuts_loop].
  destruct (N.ltb_spec first (len d)) as [Hlt|Hge]; [|exists [], [d]; split_and!; [done|by rewrite reverse_nil; simpl; rewrite app_nil_r|by constructor]].
  set (k := N.to_nat (len d - first)). rewrite <- (take_drop k d). set (d' := take k d). set (g := drop k d).
  assert (Hd' : len d' = len d - first) by (unfold d', len; rewrite length_take; unfold k, len in *; lia).
  assert (Hg : len g = first) by (unfold g, len; rewrite length_drop; unfold k, len in *; lia).
  destruct (IH rest d' Hr) as (cuts & gs & E & Ej & HG); [lia|lia|]. exists (len d' :: cuts), (gs ++ [g]).
  rewrite len_app, Hg, (N.add_comm (len d')), cuts_loop_shift by lia. replace (first + len d' - first) with (len d') by lia.
  rewrite E. split; [by simpl; do 2 f_equal|]. split; [|by constructor].
  rewrite reverse_cons, join_cuts_snoc, Ej, separated_snoc; [done|by eapply groups_not_nil|lia|].
  apply Forall_reverse. eapply Forall_impl; [by eapply cuts_loop_below|]. simpl. intros c Hc. lia.
Qed.

(** The sizes a locale's grouping gives: one digit for every group, or the first
    group's and the others'. *)
Definition group_sizes (g : N) : N * N := if g <=? 9 then (g, g) else (g / 10, g mod 10).

Lemma groups_loop_digit value s : value = 0 \/ value mod 10 <> 0 -> groups_loop value s = 0 \/ groups_loop value s mod 10 <> 0.
Proof.
  revert value. induction s as [|b s IH]; intros value Hv; cbn [groups_loop]; [done|].
  destruct (b =? 0x30); [done|]. destruct ((0x31 <=? b) && (b <=? 0x39)) eqn:E; [|by apply IH]. apply IH. right.
  rewrite andb_true_iff, !N.leb_le in E. destruct (N.min_spec u32_max (N.min u32_max (value * 10) + (b - 0x30))) as [[H ->]|[H ->]]; [by vm_compute|].
  destruct (N.min_spec u32_max (value * 10)) as [[H' E']|[H' E']]; rewrite E' in *; [lia|].
  rewrite (N.add_comm (value * 10)), N.Div0.mod_add, N.mod_small; lia.
Qed.

Lemma group_sizes_positive ts gr : let g := g_groups (from_locale ts gr) in g <> 0 -> 1 <= (group_sizes g).1 /\ 1 <= (group_sizes g).2.
Proof.
  intros g Hg. assert (Hm : g mod 10 <> 0).
  { subst g. destruct gr as [s|]; [|by vm_compute]. simpl in *. unfold es_groups in *.
    destruct (groups_loop_digit 0 s (or_introl eq_refl)) as [E|E]; [by rewrite E in *|]. by destruct (_ && _). }
  unfold group_sizes. destruct (N.leb_spec g 9); simpl; [lia|]. split; [|lia]. apply N.div_le_lower_bound; lia.
Qed.

Lemma format_groups ts gr n : n <= u64_max -> let g := from_locale ts gr in
  if g_groups g =? 0 then format g n = Some (dec n)
  else exists gs, format g n = Some (separated (g_separator g) gs) /\ Groups (group_sizes (g_groups g)).1 (group_sizes (g_groups g)).2 (dec n) gs.
Proof.
  intros Hn g. unfold format. destruct (N.eqb_spec (g_groups g) 0) as [E|E]; [done|].
  destruct (group_sizes_positive ts gr E) as [H1 H2]. fold g in H1, H2. unfold group_sizes in *. destruct (dec_spec n Hn) as (Hne & _).
  destruct (if g_groups g <=? 9 then _ else _) as [first rest]. simpl in *.
  destruct (cuts_groups (length (dec n)) first rest (g_separator g) (dec n) H1 H2) as (cuts & gs & -> & Ej & HG); [|unfold len; lia|].
  - destruct (dec n); [done|]. rewrite len_cons. lia.
  - exists gs. split; [exact (f_equal Some Ej)|done].
Qed.

(** ** The layout of a plain line *)

Lemma chars_count_app a b : chars_count (a ++ b) = chars_count a + chars_count b.
Proof. unfold chars_count. by rewrite filter_app, len_app. Qed.

Lemma chars_count_pad n : chars_count (pad n) = n.
Proof.
  unfold chars_count, pad. replace (filter _ _) with (replicate (N.to_nat n) 0x20); [unfold len; rewrite length_replicate; lia|].
  induction (N.to_nat n) as [|k IH]; [done|]. cbn [replicate]. rewrite filter_cons_True by (by vm_compute). by f_equal.
Qed.

(** The text of a cell: a size in digit groups, a folder's size and an unknown
    value empty. *)
Definition cell_text (ts gr : option (list N)) (row : Row) (col : EsColumn) (t : list N) : Prop :=
  match col, file_size row with
  | ColSize, None => t = []
  | ColSize, Some s =>
      let g := from_locale ts gr in
      if g_groups g =? 0 then t = dec s
      else exists gs, t = separated (g_separator g) gs /\ Groups (group_sizes (g_groups g)).1 (group_sizes (g_groups g)).2 (dec s) gs
  | ColDateModified, _ => t = default [] (r_mtime row)
  end.

Definition col_width (col : EsColumn) : N := match col with ColSize => SIZE_WIDTH | ColDateModified => DATE_WIDTH end.

(** Cells laid out after columns that end at [col_end] and text that ends at
    [line_end], neither counting the spaces between cells: a cell ends at its
    column's end, or where its text does when that is further right; a size is
    padded on its left, a date on its right, and a space follows each. *)
Inductive Layout (ts gr : option (list N)) (row : Row) : N -> N -> list EsColumn -> list N -> Prop :=
| layout_nil col_end line_end : Layout ts gr row col_end line_end [] []
| layout_cons col_end line_end col cols t cell rest :
    cell_text ts gr row col t ->
    (exists fill, cell = match col with ColSize => pad fill ++ t | ColDateModified => t ++ pad fill end) ->
    line_end + chars_count cell = N.max (col_end + col_width col) (line_end + chars_count t) ->
    Layout ts gr row (col_end + col_width col) (line_end + chars_count cell) cols rest ->
    Layout ts gr row col_end line_end (col :: cols) (cell ++ [0x20] ++ rest).

Lemma plain_cell_spec ts gr row col : (forall s, file_size row = Some s -> s <= u64_max) ->
  exists t, plain_cell (from_locale ts gr) row col = Some (t, col_width col, match col with ColSize => true | ColDateModified => false end) /\ cell_text ts gr row col t.
Proof.
  intros Hs. unfold plain_cell, cell_text. destruct col; [|by eexists]. destruct (file_size row) as [s|]; [|by eexists].
  pose proof (format_groups ts gr s (Hs s eq_refl)) as Hg. simpl in Hg |- *. destruct (_ =? 0).
  - exists (dec s). by rewrite Hg.
  - destruct Hg as (gs & -> & HG). eexists. split; [done|]. by exists gs.
Qed.

Lemma plain_cells_layout ts gr row cols col_end line_end : (forall s, file_size row = Some s -> s <= u64_max) -> col_end <= line_end ->
  exists out, plain_cells (from_locale ts gr) row cols (line_end - col_end) = Some out /\ Layout ts gr row col_end line_end cols out.
Proof.
  intros Hs. revert col_end line_end. induction cols as [|col cols IH]; intros ce le Hle; [eexists; split; [done|constructor]|].
  destruct (plain_cell_spec ts gr row col Hs) as (t & E & Ht). cbn [plain_cells]. rewrite E.
  set (n := chars_count t). set (w := col_width col). set (fill := w - n - N.min (w - n) (le - ce)).
  set (cell := match col with ColSize => pad fill ++ t | ColDateModified => t ++ pad fill end).
  assert (Hc : chars_count cell = n + fill) by (unfold cell; destruct col; rewrite chars_count_app, chars_count_pad; unfold n; lia).
  destruct (IH (ce + w) (le + chars_count cell)) as (rest & Er & HL); [lia|].
  replace (le - ce - N.min (w - n) (le - ce) + (n - w)) with (le + chars_count cell - (ce + w)) by lia. rewrite Er.
  exists (cell ++ [0x20] ++ rest). split; [by destruct col|]. econstructor; [done|by exists fill|fold n w; lia|done].
Qed.

(** A line of the plain listing, under any locale's separator and grouping
    and any columns: the writer always produces it (its grouping loop ends), each
    size shows its decimal digits in groups of the locale's sizes with the
    separator between them, an unknown value and a folder's size are blank, and
    each cell ends where its column does unless the text before it ran over, in
    which case the padding of the cells after it makes up for it first.  The full
    path follows, quoted when asked, then a line feed. *)
Theorem plain_row_layout ts gr o row : p_grouping o = from_locale ts gr -> (forall s, r_size row = Some s -> s <= u64_max) ->
  exists cells, write_plain_row o row = Some (cells ++ (if p_quote o then [QUOTE] ++ r_path row ++ [QUOTE] else r_path row) ++ [0x0A]) /\
    Layout ts gr row 0 0 (p_columns o) cells.
Proof.
  intros Eg Hs. assert (Hf : forall s, file_size row = Some s -> s <= u64_max) by (unfold file_size; intros s; destruct (r_is_dir row); [done|apply Hs]).
  destruct (plain_cells_layout ts gr row (p_columns o) 0 0 Hf) as (cells & E & HL); [done|]. exists cells. split; [|done].
  unfold write_plain_row. change (0 - 0) with 0 in E. rewrite Eg, E. simpl. do 2 f_equal. destruct (p_quote o); simpl; [|done]. by rewrite <- app_assoc.
Qed.

Lemma plain_row_layout_witness :
  exists cells, write_plain_row {| p_columns := [ColSize]; p_grouping := from_locale (Some (bs ",")) (Some (bs "3;2;0")); p_quote := false |}
    {| r_path := bs "x"; r_size := Some 1234567; r_mtime := None; r_is_dir := false |} = Some (cells ++ bs "x" ++ [0x0A]) /\
    Layout (Some (bs ",")) (Some (bs "3;2;0")) {| r_path := bs "x"; r_size := Some 1234567; r_mtime := None; r_is_dir := false |} 0 0 [ColSize] cells.
Proof.
  apply (plain_row_layout (Some (bs ",")) (Some (bs "3;2;0"))
    {| p_columns := [ColSize]; p_grouping := from_locale (Some (bs ",")) (Some (bs "3;2;0")); p_quote := false |}); [reflexivity|].
  intros s Hs. injection Hs as <-. by vm_compute.
Defined.

Example plain_row_example :
  write_plain_row {| p_columns := [ColSize; ColDateModified]; p_grouping := from_locale (Some (bs ",")) (Some (bs "3;2;0")); p_quote := false |}
    {| r_path := bs "x"; r_size := Some u64_max; r_mtime := None; r_is_dir := false |}
  = Some (bs "1,84,46,74,40,73,70,95,51,615" ++ pad 6 ++ bs "x" ++ [0x0A]).
Proof. by vm_compute. Qed.

(** ** Pages *)

(** Two pages as one: the first's totals, the rows of both, either's flags and
    the last's generation. *)
Definition merge2 (p q : QueryResults) : QueryResults :=
  {| Binary.total := Binary.total p; items := items p ++ items q; more := more q;
     volumes_incomplete := volumes_incomplete p || volumes_incomplete q; metadata_pending := metadata_pending p || metadata_pending q;
     generation := generation q; Binary.total_size := Binary.total_size p |}.

Section pages.
Context {Sj : Serde} (date : Z -> list N).

Lemma list_items_app l a b : list_items l (a ++ b) =
  let '(o1, l) := list_items l a in let '(o2, l) := list_items l b in (o1 ++ o2, l).
Proof.
  revert l. induction a as [|i a IH]; intros l; cbn [app list_items]; [by destruct (list_items l b)|].
  rewrite IH. destruct (list_items _ a) as [o1 l1]. destruct (list_items l1 b) as [o2 l2]. by rewrite app_assoc.
Qed.

Lemma list_items_started l its : l_started (list_items l its).2 = l_started l.
Proof. revert l. induction its as [|i its IH]; intros l; cbn [list_items]; [done|]. specialize (IH {| l_opts := l_opts l; l_started := l_started l; l_any_row := true |}). by destruct (list_items _ its). Qed.

Lemma list_page_merge l p q : list_page l (merge2 p q) =
  let '(o1, l) := list_page l p in let '(o2, l) := list_page l q in (o1 ++ o2, l).
Proof.
  unfold list_page. destruct (list_start l) as [o l0] eqn:E0. cbn [items merge2]. rewrite list_items_app.
  assert (Hs : l_started l0 = true) by (unfold list_start in E0; destruct (l_started l) eqn:Es; injection E0 as _ <-; done).
  pose proof (list_items_started l0 (items p)) as Hp. destruct (list_items l0 (items p)) as [o1 l1]. simpl in Hp.
  unfold list_start. rewrite Hp, Hs. destruct (list_items l1 (items q)) as [o2 l2]. by rewrite <- app_assoc.
Qed.

Lemma json_items_app any a b : json_items any (a ++ b) =
  let '(o1, any) := json_items any a in let '(o2, any) := json_items any b in (o1 ++ o2, any).
Proof.
  revert any. induction a as [|i a IH]; intros any; cbn [app json_items]; [by destruct (json_items any b)|].
  rewrite IH. destruct (json_items true a) as [o1 a1]. destruct (json_items a1 b) as [o2 a2]. by rewrite app_assoc.
Qed.

Lemma json_page_merge j p q : json_page j (merge2 p q) =
  let '(o1, j) := json_page j p in let '(o2, j) := json_page j q in (o1 ++ o2, j).
Proof.
  unfold json_page. cbn [items merge2]. rewrite json_items_app. destruct (json_items (j_any_item j) (items p)) as [o1 a1]. cbn [j_any_item].
  destruct (json_items a1 (items q)) as [o2 a2]. cbn. rewrite <- !app_assoc, !orb_assoc. by destruct (j_started j).
Qed.

Lemma rows_of_app cols a b : rows_of date cols (a ++ b) = rows_of date cols a ++ rows_of date cols b.
Proof. unfold rows_of. by rewrite fmap_app. Qed.

Lemma mapM_app_option {A B} (f : A -> option B) a b : mapM f (a ++ b) = (x ← mapM f a; y ← mapM f b; Some (x ++ y)).
Proof.
  induction a as [|i a IH]; cbn [app]; [by simpl; destruct (mapM f b)|]. change (mapM f (i :: a ++ b)) with (y ← f i; k ← mapM f (a ++ b); mret (y :: k)).
  change (mapM f (i :: a)) with (y ← f i; k ← mapM f a; mret (y :: k)). rewrite IH. destruct (f i); [|done]. simpl.
  destruct (mapM f a); [|done]. simpl. by destruct (mapM f b).
Qed.

Lemma writer_page_merge s p q : writer_page date s (merge2 p q) =
  ('(o1, s) ← writer_page date s p; '(o2, s) ← writer_page date s q; Some (o1 ++ o2, s)).
Proof.
  destruct s as [o|o started|l|j]; simpl.
  - rewrite rows_of_app, mapM_app_option. destruct (mapM _ (rows_of date _ (items p))); [|done]. simpl.
    destruct (mapM _ (rows_of date _ (items q))); [|done]. simpl. by rewrite concat_app.
  - by rewrite rows_of_app, flat_map_app, <- !app_assoc.
  - rewrite list_page_merge. destruct (list_page l p) as [o1 l1]. simpl. by destruct (list_page l1 q).
  - rewrite json_page_merge. destruct (json_page j p) as [o1 j1]. simpl. by destruct (json_page j1 q).
Qed.

Lemma writer_pages_merge s p q pages : writer_pages date s (p :: q :: pages) = writer_pages date s (merge2 p q :: pages).
Proof.
  cbn [writer_pages]. rewrite writer_page_merge. destruct (writer_page date s p) as [[o1 s1]|]; [|done]. simpl.
  destruct (writer_page date s1 q) as [[o2 s2]|]; [|done]. simpl. destruct (writer_pages date s2 pages); [|done]. simpl. by rewrite app_assoc.
Qed.
End pages.

(** C39: paging never shows in the output: in every format, with any options, the
    bytes written for pages as they arrive are the bytes written for one page
    that holds every row (the totals of the first, the flags of any and the
    generation of the last), so the header, the separators between rows and the
    closing brackets fall in the same places however the daemon cuts the rows. *)
Theorem paging_invisible {Sj : Serde} date f page pages :
  write_results date f (page :: pages) = write_results date f [fold_left merge2 pages page].
Proof.
  unfold write_results. revert page. induction pages as [|q pages IH]; intros page; [done|]. by rewrite writer_pages_merge, IH.
Qed.
