(* ===== verification/EsSwitches.v ===== *)
(** The switches of the es-compatible command line: the tables of
    [crates/goz-core/src/escompat/argv.rs] and [es_only.rs], and the exit codes
    of [exit.rs].  Names are ASCII. *)

From stdpp Require Import base option list strings.
From Stdlib Require Import NArith.
From S2P Require Import Prelude Types.
Open Scope string_scope.

(** ** Exit codes *)

Inductive Exit := Success | BadParam | WriteFailed | UnknownSwitch | Protocol | NotRunning | NoResults | Untrusted.

Definition ALL : list Exit := [Success; BadParam; WriteFailed; UnknownSwitch; Protocol; NotRunning; NoResults; Untrusted].

Definition code (e : Exit) : N :=
  match e with
  | Success => 0 | BadParam => 4 | WriteFailed => 5 | UnknownSwitch => 6
  | Protocol => 7 | NotRunning => 8 | NoResults => 9 | Untrusted => 10
  end.

Definition meaning (e : Exit) : string :=
  match e with
  | Success => "Success"
  | BadParam => "A switch is missing its parameter or got one goz cannot use, an argument is not valid Unicode, or gozd refused the search"
  | WriteFailed => "The export file could not be created, or writing the output failed"
  | UnknownSwitch => "Unknown switch"
  | Protocol => "The pipe to gozd could not be opened, or gozd sent a malformed reply or none in time"
  | NotRunning => "gozd is not running"
  | NoResults => "-no-result-error was given and nothing matched"
  | Untrusted => "The pipe server is not the trusted gozd"
  end.

(** ** What a switch does *)

Inductive HelpScreen := Quick | Full.

Inductive OutputFormat := OCsv | OTsv | OEfu | OTxt | OM3u | OM3u8 | OJson.

#[export] Instance Exit_eq_dec : EqDecision Exit.
Proof. solve_decision. Defined.
#[export] Instance HelpScreen_eq_dec : EqDecision HelpScreen.
Proof. solve_decision. Defined.
#[export] Instance OutputFormat_eq_dec : EqDecision OutputFormat.
Proof. solve_decision. Defined.

Inductive SwitchAction :=
| ALimit
| AOffset
| AScope
| AExport (format : OutputFormat)
| AFormat (format : OutputFormat)
| ASortParam
| AColumn (column : EsColumn)
| ASortFixed (key : SortKey) (dir : option SortDir)
| ASortDirection (dir : SortDir)
| ABom (on : bool)
| AHeader (on : option bool)
| ADoubleQuote (on : bool)
| AMatchCase (on : bool)
| AMatchPath (on : bool)
| AFilter (filter : string)
| ASearchParam
| ASearchRest
| AArgv (on : bool)
| AJson
| AResultCount
| ATotalSize
| ANoResultError
| AStatus
| AServerVersion
| AInsecureNoServerCheck
| AHelp (screen : HelpScreen)
| AVersion.

#[export] Instance SwitchAction_eq_dec : EqDecision SwitchAction.
Proof. solve_decision. Defined.

(** The parameter a switch takes, as the help names it. *)
Definition param (a : SwitchAction) : option string :=
  match a with
  | ALimit | AOffset => Some "N"
  | AScope => Some "DIR"
  | AExport _ => Some "FILE"
  | ASortParam => Some "KEY"
  | ASearchParam => Some "TEXT"
  | _ => None
  end.

(** ** The table *)

Inductive Group := GSearch | GOutput | GOther.

#[export] Instance Group_eq_dec : EqDecision Group.
Proof. solve_decision. Defined.

Inductive Spelling :=
| Names (es native : list string) (action : SwitchAction)
| SortFamily.

Record Switch := { spelling : Spelling; group : Group; quick : bool; help_text : string }.

Definition row (es : list string) (g : Group) (action : SwitchAction) (help : string) : Switch :=
  {| spelling := Names es [] action; group := g; quick := false; help_text := help |}.

Definition SWITCHES : list Switch :=
  [{| spelling := Names ["path"] [] AScope; group := GSearch; quick := true; help_text := "Search only below DIR" |};
   {| spelling := Names ["case"; "match-case"; "i"] [] (AMatchCase true); group := GSearch; quick := true; help_text := "Match case" |};
   row ["no-case"; "no-i"] GSearch (AMatchCase false) "Ignore case, the default";
   row ["p"; "match-path"] GSearch (AMatchPath true) "Match the search text against full paths, not only names";
   row ["no-p"; "no-match-path"] GSearch (AMatchPath false) "Match names only, the default";
   row ["ad"] GSearch (AFilter "folder:") "Only folders";
   row ["a-d"] GSearch (AFilter "file:") "Only files";
   row ["q"; "search"] GSearch ASearchParam "Add TEXT to the search text, even if it looks like a switch";
   row ["q*"; "search*"; "s*"] GSearch ASearchRest "Read the rest of the command line as search text, as it is";
   {| spelling := Names ["n"; "count"; "max-results"; "viewport-count"] [] ALimit; group := GSearch; quick := true; help_text := "Show at most N results" |};
   row ["o"; "offset"; "viewport-offset"] GSearch AOffset "Skip the first N results";
   {| spelling := Names ["sort"] [] ASortParam; group := GSearch; quick := true; help_text := "Sort by KEY; KEY-ascending or KEY-descending sets the order" |};
   {| spelling := SortFamily; group := GSearch; quick := false; help_text := "Same as -sort KEY, as in -sort-size-ascending" |};
   row ["sort-ascending"] GSearch (ASortDirection Asc) "Sort in ascending order, whatever the key";
   row ["sort-descending"] GSearch (ASortDirection Desc) "Sort in descending order, whatever the key";
   row ["s"] GSearch (ASortFixed Path (Some Asc)) "Sort by path, A to Z";
   row ["on"] GSearch (ASortFixed Name (Some Asc)) "Sort by name, A to Z";
   row ["o-n"] GSearch (ASortFixed Name (Some Desc)) "Sort by name, Z to A";
   row ["os"] GSearch (ASortFixed Size (Some Asc)) "Sort by size, smallest first";
   row ["o-s"] GSearch (ASortFixed Size (Some Desc)) "Sort by size, largest first";
   row ["od"] GSearch (ASortFixed DateModified (Some Asc)) "Sort by date modified, oldest first";
   row ["o-d"] GSearch (ASortFixed DateModified (Some Desc)) "Sort by date modified, newest first";
   {| spelling := Names ["export-csv"] [] (AExport OCsv); group := GOutput; quick := true; help_text := "Write the results to FILE as CSV" |};
   row ["export-tsv"] GOutput (AExport OTsv) "Write the results to FILE as tab-separated values";
   row ["export-efu"] GOutput (AExport OEfu) "Write the results to FILE as an Everything file list";
   row ["export-txt"] GOutput (AExport OTxt) "Write the paths to FILE, one per line";
   row ["export-m3u"] GOutput (AExport OM3u) "Write the paths to FILE as a playlist, in UTF-8 where es uses ANSI";
   row ["export-m3u8"] GOutput (AExport OM3u8) "Write the paths to FILE as a UTF-8 playlist";
   row ["export-json"] GOutput (AExport OJson) "Write the results to FILE as es's JSON array";
   row ["csv"] GOutput (AFormat OCsv) "Print CSV";
   row ["tsv"] GOutput (AFormat OTsv) "Print tab-separated values";
   row ["efu"] GOutput (AFormat OEfu) "Print an Everything file list";
   row ["txt"] GOutput (AFormat OTxt) "Print the paths, one per CRLF line";
   row ["m3u"] GOutput (AFormat OM3u) "Print a playlist, in UTF-8 where es uses ANSI";
   row ["m3u8"] GOutput (AFormat OM3u8) "Print a UTF-8 playlist";
   row ["json"] GOutput (AFormat OJson) "Print es's JSON array; --json is goz's own object";
   {| spelling := Names ["size"] [] (AColumn ColSize); group := GOutput; quick := false; help_text := "Add a Size column" |};
   {| spelling := Names ["dm"; "date-modified"] [] (AColumn ColDateModified); group := GOutput; quick := false; help_text := "Add a Date Modified column" |};
   row ["utf8-bom"] GOutput (ABom true) "Start the output with a byte order mark, the default for -export-csv";
   row ["no-utf8-bom"] GOutput (ABom false) "Leave out the byte order mark";
   row ["header"] GOutput (AHeader (Some true)) "Add a header row, the default except for -txt";
   row ["no-header"] GOutput (AHeader (Some false)) "Leave out the header row";
   row ["default-header"] GOutput (AHeader None) "Add a header row if the format has one by default";
   row ["double-quote"] GOutput (ADoubleQuote true) "Always quote paths, the default for CSV";
   row ["no-double-quote"] GOutput (ADoubleQuote false) "Quote a CSV or TSV value only when it needs quotes";
   {| spelling := Names [] ["json"] AJson; group := GOutput; quick := true; help_text := "Print the results as goz's JSON object" |};
   {| spelling := Names ["get-result-count"] [] AResultCount; group := GOutput; quick := false; help_text := "Print only the number of results" |};
   {| spelling := Names ["get-total-size"] [] ATotalSize; group := GOutput; quick := false; help_text := "Print only the total size of the matching files" |};
   row ["no-result-error"; "no-results-error"; "error-on-no-results"] GOutput ANoResultError "Exit with code 9 when nothing matches";
   {| spelling := Names [] ["status"] AStatus; group := GOther; quick := true; help_text := "Show the state of gozd and each volume" |};
   {| spelling := Names [] ["server-version"] AServerVersion; group := GOther; quick := false; help_text := "Print the version of the running gozd" |};
   row ["argv"] GOther (AArgv true) "Read later search text with its quotes removed, as most programs do";
   row ["no-argv"; "default-argv"] GOther (AArgv false) "Read later search text as es does, the default: quotes make a phrase";
   {| spelling := Names ["h"; "?"] [] (AHelp Quick); group := GOther; quick := false; help_text := "Show the quick help" |};
   {| spelling := Names ["help"] ["help"] (AHelp Full); group := GOther; quick := false; help_text := "Show this reference" |};
   {| spelling := Names ["v"; "version"] ["version"] AVersion; group := GOther; quick := false; help_text := "Print the version of goz" |};
   {| spelling := Names [] ["insecure-no-server-check"] AInsecureNoServerCheck; group := GOther; quick := false; help_text := "Skip the check that the pipe server is the elevated gozd, for testing" |}].

Record SortKeyRow := { sk_names : list string; sk_key : SortKey; what : string; orders : string * string }.

Definition SORT_KEYS : list SortKeyRow :=
  [{| sk_names := ["name"]; sk_key := Name; what := "Name"; orders := ("A to Z", "Z to A") |};
   {| sk_names := ["path"]; sk_key := Path; what := "Folder, then name"; orders := ("A to Z", "Z to A") |};
   {| sk_names := ["size"]; sk_key := Size; what := "Size"; orders := ("smallest first", "largest first") |};
   {| sk_names := ["dm"; "date-modified"]; sk_key := DateModified; what := "Date modified"; orders := ("oldest first", "newest first") |}].

(** The switches es has and goz does not. *)
Definition ES_ONLY_SWITCHES : list string :=
  ["a"; "action-filter"; "add-col"; "add-column"; "add-column-color"; "add-column-colors"; "add-column-width"; "add-column-widths";
   "add-columns"; "added-filename-only"; "added-filenames-only"; "after-journal-pos"; "aspect-ratio-format"; "attrib"; "attributes";
   "attributes-wide"; "attributes-width"; "changed-today"; "changed-yesterday"; "clear-settings"; "code-page"; "column-colors";
   "column-widths"; "columns"; "console-height"; "console-high"; "console-wide"; "console-width"; "console-window-height";
   "console-window-high"; "console-window-wide"; "console-window-width"; "cp"; "crlf"; "da"; "da-wide"; "da-width"; "date-accessed";
   "date-accessed-wide"; "date-accessed-width"; "date-created"; "date-created-wide"; "date-created-width"; "date-format";
   "date-modified-wide"; "date-modified-width"; "date-recently-changed"; "date-recently-changed-wide"; "date-recently-changed-width";
   "date-run"; "date-run-wide"; "date-run-width"; "dc"; "dc-wide"; "dc-width"; "debug"; "default-folder-append-path-separator";
   "default-footer"; "diacritics"; "digit-grouping"; "dm-wide"; "dm-width"; "empty-search-help"; "exit"; "ext"; "ext-wide"; "ext-width";
   "extension"; "extension-wide"; "extension-width"; "file-list-file-name-wide"; "file-list-file-name-width"; "file-name"; "file-name-wide";
   "file-name-width"; "folder-append-path-separator"; "footer"; "from-change-id"; "from-date"; "from-journal-id"; "from-journal-pos";
   "from-now"; "from-today"; "from-yesterday"; "get-everything-version"; "get-folder-size"; "get-journal-id"; "get-journal-pos";
   "get-run-count"; "help-on-no-args"; "hide-empty-search-results"; "highlight"; "highlight-color"; "ignore-punc"; "ignore-punctuation";
   "ignore-white-space"; "ignore-ws"; "inc-run-count"; "instance"; "ipc1"; "ipc2"; "ipc3"; "j"; "journal"; "lf"; "list-properties";
   "locale-decimal"; "locale-grouping"; "locale-lzero"; "locale-negnumber"; "locale-thousand"; "more"; "name"; "name-wide"; "name-width";
   "no-a"; "no-added-filename-only"; "no-added-filenames-only"; "no-debug"; "no-diacritics"; "no-digit-grouping"; "no-empty-search-help";
   "no-folder-append-path-separator"; "no-footer"; "no-format"; "no-help-on-no-args"; "no-hide-empty-search-results"; "no-highlight";
   "no-ignore-punc"; "no-ignore-punctuation"; "no-ignore-white-space"; "no-ignore-ws"; "no-ipc1"; "no-ipc2"; "no-ipc3"; "no-more";
   "no-new-line"; "no-pause"; "no-prefix"; "no-punc"; "no-punctuation"; "no-removed-filename-only"; "no-removed-filenames-only";
   "no-run-count-leading-zero"; "no-size-leading-zero"; "no-sort-mix"; "no-suffix"; "no-time-out"; "no-w"; "no-white-space";
   "no-whole-word"; "no-whole-words"; "no-ws"; "no-ww"; "nul"; "o-e"; "oe"; "parent"; "parent-path"; "path-wide"; "path-width"; "pause";
   "prefix"; "punc"; "punctuation"; "quit"; "r"; "rc"; "rc-wide"; "rc-width"; "re-build"; "re-index"; "redirect-stderr"; "redirect-stdout";
   "regex"; "remove-col"; "remove-column"; "remove-column-color"; "remove-column-colors"; "remove-column-width"; "remove-column-widths";
   "remove-columns"; "removed-filename-only"; "removed-filenames-only"; "run-count"; "run-count-leading-zero"; "run-count-wide";
   "run-count-width"; "save-db"; "save-settings"; "set-column-color"; "set-column-colors"; "set-column-width"; "set-column-widths";
   "set-columns"; "set-run-count"; "size-format"; "size-leading-zero"; "size-wide"; "size-width"; "sort-mix"; "suffix"; "time-out";
   "to-change-id"; "to-date"; "to-journal-id"; "to-journal-pos"; "to-now"; "to-today"; "to-tomorrow"; "update"; "w"; "watch"; "white-space";
   "whole-word"; "whole-words"; "ws"; "ww"].
