(* ===== verification/Argv.v ===== *)
(** The es-compatible command line: [crates/goz-core/src/escompat/argv.rs].

    A [&str] is its UTF-8 bytes: what the readers look for is ASCII, so reading
    bytes and reading characters agree.  A reader of tokens is the class
    [Tokens]; the loop over tokens has fuel, [None] when it runs out. *)

From stdpp Require Import gmap.
From stdpp Require Import base option list sets strings.
From Stdlib Require Import NArith Lia.
From S2P Require Import Prelude Types Wtf8 Text EsSwitches.
Open Scope N_scope.

(** ** Plans and errors *)

Record EsPlan := {
  pl_query : list N;
  pl_scope : option (list N);
  pl_limit : option N;
  pl_offset : N;
  pl_columns : list EsColumn;
  pl_sort : SortSpec;
  pl_format : option OutputFormat;
  pl_export_file : option (list N);
  pl_bom : option bool;
  pl_header : option bool;
  pl_double_quote : bool;
  pl_text_double_quote : bool;
  pl_match_case : bool;
  pl_json : bool;
  pl_result_count : bool;
  pl_total_size : bool;
  pl_no_result_error : bool;
  pl_status : bool;
  pl_server_version : bool;
  pl_insecure_no_server_check : bool
}.

Definition plan_default : EsPlan :=
  {| pl_query := []; pl_scope := None; pl_limit := None; pl_offset := 0; pl_columns := []; pl_sort := sort_spec_default; pl_format := None;
     pl_export_file := None; pl_bom := None; pl_header := None; pl_double_quote := true; pl_text_double_quote := false; pl_match_case := false;
     pl_json := false; pl_result_count := false; pl_total_size := false; pl_no_result_error := false; pl_status := false; pl_server_version := false;
     pl_insecure_no_server_check := false |}.

Definition set_query (x : list N) (p : EsPlan) : EsPlan :=
  {| pl_query := x; pl_scope := pl_scope p; pl_limit := pl_limit p; pl_offset := pl_offset p; pl_columns := pl_columns p; pl_sort := pl_sort p;
     pl_format := pl_format p; pl_export_file := pl_export_file p; pl_bom := pl_bom p; pl_header := pl_header p; pl_double_quote := pl_double_quote p;
     pl_text_double_quote := pl_text_double_quote p; pl_match_case := pl_match_case p; pl_json := pl_json p; pl_result_count := pl_result_count p;
     pl_total_size := pl_total_size p; pl_no_result_error := pl_no_result_error p; pl_status := pl_status p; pl_server_version := pl_server_version p;
     pl_insecure_no_server_check := pl_insecure_no_server_check p |}.
Definition set_scope (x : option (list N)) (p : EsPlan) : EsPlan :=
  {| pl_query := pl_query p; pl_scope := x; pl_limit := pl_limit p; pl_offset := pl_offset p; pl_columns := pl_columns p; pl_sort := pl_sort p;
     pl_format := pl_format p; pl_export_file := pl_export_file p; pl_bom := pl_bom p; pl_header := pl_header p; pl_double_quote := pl_double_quote p;
     pl_text_double_quote := pl_text_double_quote p; pl_match_case := pl_match_case p; pl_json := pl_json p; pl_result_count := pl_result_count p;
     pl_total_size := pl_total_size p; pl_no_result_error := pl_no_result_error p; pl_status := pl_status p; pl_server_version := pl_server_version p;
     pl_insecure_no_server_check := pl_insecure_no_server_check p |}.
Definition set_limit (x : option N) (p : EsPlan) : EsPlan :=
  {| pl_query := pl_query p; pl_scope := pl_scope p; pl_limit := x; pl_offset := pl_offset p; pl_columns := pl_columns p; pl_sort := pl_sort p;
     pl_format := pl_format p; pl_export_file := pl_export_file p; pl_bom := pl_bom p; pl_header := pl_header p; pl_double_quote := pl_double_quote p;
     pl_text_double_quote := pl_text_double_quote p; pl_match_case := pl_match_case p; pl_json := pl_json p; pl_result_count := pl_result_count p;
     pl_total_size := pl_total_size p; pl_no_result_error := pl_no_result_error p; pl_status := pl_status p; pl_server_version := pl_server_version p;
     pl_insecure_no_server_check := pl_insecure_no_server_check p |}.
Definition set_offset (x : N) (p : EsPlan) : EsPlan :=
  {| pl_query := pl_query p; pl_scope := pl_scope p; pl_limit := pl_limit p; pl_offset := x; pl_columns := pl_columns p; pl_sort := pl_sort p;
     pl_format := pl_format p; pl_export_file := pl_export_file p; pl_bom := pl_bom p; pl_header := pl_header p; pl_double_quote := pl_double_quote p;
     pl_text_double_quote := pl_text_double_quote p; pl_match_case := pl_match_case p; pl_json := pl_json p; pl_result_count := pl_result_count p;
     pl_total_size := pl_total_size p; pl_no_result_error := pl_no_result_error p; pl_status := pl_status p; pl_server_version := pl_server_version p;
     pl_insecure_no_server_check := pl_insecure_no_server_check p |}.
Definition set_columns (x : list EsColumn) (p : EsPlan) : EsPlan :=
  {| pl_query := pl_query p; pl_scope := pl_scope p; pl_limit := pl_limit p; pl_offset := pl_offset p; pl_columns := x; pl_sort := pl_sort p;
     pl_format := pl_format p; pl_export_file := pl_export_file p; pl_bom := pl_bom p; pl_header := pl_header p; pl_double_quote := pl_double_quote p;
     pl_text_double_quote := pl_text_double_quote p; pl_match_case := pl_match_case p; pl_json := pl_json p; pl_result_count := pl_result_count p;
     pl_total_size := pl_total_size p; pl_no_result_error := pl_no_result_error p; pl_status := pl_status p; pl_server_version := pl_server_version p;
     pl_insecure_no_server_check := pl_insecure_no_server_check p |}.
Definition set_sort (x : SortSpec) (p : EsPlan) : EsPlan :=
  {| pl_query := pl_query p; pl_scope := pl_scope p; pl_limit := pl_limit p; pl_offset := pl_offset p; pl_columns := pl_columns p; pl_sort := x;
     pl_format := pl_format p; pl_export_file := pl_export_file p; pl_bom := pl_bom p; pl_header := pl_header p; pl_double_quote := pl_double_quote p;
     pl_text_double_quote := pl_text_double_quote p; pl_match_case := pl_match_case p; pl_json := pl_json p; pl_result_count := pl_result_count p;
     pl_total_size := pl_total_size p; pl_no_result_error := pl_no_result_error p; pl_status := pl_status p; pl_server_version := pl_server_version p;
     pl_insecure_no_server_check := pl_insecure_no_server_check p |}.
Definition set_format (x : option OutputFormat) (p : EsPlan) : EsPlan :=
  {| pl_query := pl_query p; pl_scope := pl_scope p; pl_limit := pl_limit p; pl_offset := pl_offset p; pl_columns := pl_columns p; pl_sort := pl_sort
     p; pl_format := x; pl_export_file := pl_export_file p; pl_bom := pl_bom p; pl_header := pl_header p; pl_double_quote := pl_double_quote p;
     pl_text_double_quote := pl_text_double_quote p; pl_match_case := pl_match_case p; pl_json := pl_json p; pl_result_count := pl_result_count p;
     pl_total_size := pl_total_size p; pl_no_result_error := pl_no_result_error p; pl_status := pl_status p; pl_server_version := pl_server_version p;
     pl_insecure_no_server_check := pl_insecure_no_server_check p |}.
Definition set_export_file (x : option (list N)) (p : EsPlan) : EsPlan :=
  {| pl_query := pl_query p; pl_scope := pl_scope p; pl_limit := pl_limit p; pl_offset := pl_offset p; pl_columns := pl_columns p; pl_sort := pl_sort
     p; pl_format := pl_format p; pl_export_file := x; pl_bom := pl_bom p; pl_header := pl_header p; pl_double_quote := pl_double_quote p;
     pl_text_double_quote := pl_text_double_quote p; pl_match_case := pl_match_case p; pl_json := pl_json p; pl_result_count := pl_result_count p;
     pl_total_size := pl_total_size p; pl_no_result_error := pl_no_result_error p; pl_status := pl_status p; pl_server_version := pl_server_version p;
     pl_insecure_no_server_check := pl_insecure_no_server_check p |}.
Definition set_bom (x : option bool) (p : EsPlan) : EsPlan :=
  {| pl_query := pl_query p; pl_scope := pl_scope p; pl_limit := pl_limit p; pl_offset := pl_offset p; pl_columns := pl_columns p; pl_sort := pl_sort
     p; pl_format := pl_format p; pl_export_file := pl_export_file p; pl_bom := x; pl_header := pl_header p; pl_double_quote := pl_double_quote p;
     pl_text_double_quote := pl_text_double_quote p; pl_match_case := pl_match_case p; pl_json := pl_json p; pl_result_count := pl_result_count p;
     pl_total_size := pl_total_size p; pl_no_result_error := pl_no_result_error p; pl_status := pl_status p; pl_server_version := pl_server_version p;
     pl_insecure_no_server_check := pl_insecure_no_server_check p |}.
Definition set_header (x : option bool) (p : EsPlan) : EsPlan :=
  {| pl_query := pl_query p; pl_scope := pl_scope p; pl_limit := pl_limit p; pl_offset := pl_offset p; pl_columns := pl_columns p; pl_sort := pl_sort
     p; pl_format := pl_format p; pl_export_file := pl_export_file p; pl_bom := pl_bom p; pl_header := x; pl_double_quote := pl_double_quote p;
     pl_text_double_quote := pl_text_double_quote p; pl_match_case := pl_match_case p; pl_json := pl_json p; pl_result_count := pl_result_count p;
     pl_total_size := pl_total_size p; pl_no_result_error := pl_no_result_error p; pl_status := pl_status p; pl_server_version := pl_server_version p;
     pl_insecure_no_server_check := pl_insecure_no_server_check p |}.
Definition set_double_quote (x : bool) (p : EsPlan) : EsPlan :=
  {| pl_query := pl_query p; pl_scope := pl_scope p; pl_limit := pl_limit p; pl_offset := pl_offset p; pl_columns := pl_columns p; pl_sort := pl_sort
     p; pl_format := pl_format p; pl_export_file := pl_export_file p; pl_bom := pl_bom p; pl_header := pl_header p; pl_double_quote := x;
     pl_text_double_quote := pl_text_double_quote p; pl_match_case := pl_match_case p; pl_json := pl_json p; pl_result_count := pl_result_count p;
     pl_total_size := pl_total_size p; pl_no_result_error := pl_no_result_error p; pl_status := pl_status p; pl_server_version := pl_server_version p;
     pl_insecure_no_server_check := pl_insecure_no_server_check p |}.
Definition set_text_double_quote (x : bool) (p : EsPlan) : EsPlan :=
  {| pl_query := pl_query p; pl_scope := pl_scope p; pl_limit := pl_limit p; pl_offset := pl_offset p; pl_columns := pl_columns p; pl_sort := pl_sort
     p; pl_format := pl_format p; pl_export_file := pl_export_file p; pl_bom := pl_bom p; pl_header := pl_header p; pl_double_quote := pl_double_quote
     p; pl_text_double_quote := x; pl_match_case := pl_match_case p; pl_json := pl_json p; pl_result_count := pl_result_count p; pl_total_size :=
     pl_total_size p; pl_no_result_error := pl_no_result_error p; pl_status := pl_status p; pl_server_version := pl_server_version p;
     pl_insecure_no_server_check := pl_insecure_no_server_check p |}.
Definition set_match_case (x : bool) (p : EsPlan) : EsPlan :=
  {| pl_query := pl_query p; pl_scope := pl_scope p; pl_limit := pl_limit p; pl_offset := pl_offset p; pl_columns := pl_columns p; pl_sort := pl_sort
     p; pl_format := pl_format p; pl_export_file := pl_export_file p; pl_bom := pl_bom p; pl_header := pl_header p; pl_double_quote := pl_double_quote
     p; pl_text_double_quote := pl_text_double_quote p; pl_match_case := x; pl_json := pl_json p; pl_result_count := pl_result_count p; pl_total_size
     := pl_total_size p; pl_no_result_error := pl_no_result_error p; pl_status := pl_status p; pl_server_version := pl_server_version p;
     pl_insecure_no_server_check := pl_insecure_no_server_check p |}.
Definition set_json (x : bool) (p : EsPlan) : EsPlan :=
  {| pl_query := pl_query p; pl_scope := pl_scope p; pl_limit := pl_limit p; pl_offset := pl_offset p; pl_columns := pl_columns p; pl_sort := pl_sort
     p; pl_format := pl_format p; pl_export_file := pl_export_file p; pl_bom := pl_bom p; pl_header := pl_header p; pl_double_quote := pl_double_quote
     p; pl_text_double_quote := pl_text_double_quote p; pl_match_case := pl_match_case p; pl_json := x; pl_result_count := pl_result_count p;
     pl_total_size := pl_total_size p; pl_no_result_error := pl_no_result_error p; pl_status := pl_status p; pl_server_version := pl_server_version p;
     pl_insecure_no_server_check := pl_insecure_no_server_check p |}.
Definition set_result_count (x : bool) (p : EsPlan) : EsPlan :=
  {| pl_query := pl_query p; pl_scope := pl_scope p; pl_limit := pl_limit p; pl_offset := pl_offset p; pl_columns := pl_columns p; pl_sort := pl_sort
     p; pl_format := pl_format p; pl_export_file := pl_export_file p; pl_bom := pl_bom p; pl_header := pl_header p; pl_double_quote := pl_double_quote
     p; pl_text_double_quote := pl_text_double_quote p; pl_match_case := pl_match_case p; pl_json := pl_json p; pl_result_count := x; pl_total_size :=
     pl_total_size p; pl_no_result_error := pl_no_result_error p; pl_status := pl_status p; pl_server_version := pl_server_version p;
     pl_insecure_no_server_check := pl_insecure_no_server_check p |}.
Definition set_total_size (x : bool) (p : EsPlan) : EsPlan :=
  {| pl_query := pl_query p; pl_scope := pl_scope p; pl_limit := pl_limit p; pl_offset := pl_offset p; pl_columns := pl_columns p; pl_sort := pl_sort
     p; pl_format := pl_format p; pl_export_file := pl_export_file p; pl_bom := pl_bom p; pl_header := pl_header p; pl_double_quote := pl_double_quote
     p; pl_text_double_quote := pl_text_double_quote p; pl_match_case := pl_match_case p; pl_json := pl_json p; pl_result_count := pl_result_count p;
     pl_total_size := x; pl_no_result_error := pl_no_result_error p; pl_status := pl_status p; pl_server_version := pl_server_version p;
     pl_insecure_no_server_check := pl_insecure_no_server_check p |}.
Definition set_no_result_error (x : bool) (p : EsPlan) : EsPlan :=
  {| pl_query := pl_query p; pl_scope := pl_scope p; pl_limit := pl_limit p; pl_offset := pl_offset p; pl_columns := pl_columns p; pl_sort := pl_sort
     p; pl_format := pl_format p; pl_export_file := pl_export_file p; pl_bom := pl_bom p; pl_header := pl_header p; pl_double_quote := pl_double_quote
     p; pl_text_double_quote := pl_text_double_quote p; pl_match_case := pl_match_case p; pl_json := pl_json p; pl_result_count := pl_result_count p;
     pl_total_size := pl_total_size p; pl_no_result_error := x; pl_status := pl_status p; pl_server_version := pl_server_version p;
     pl_insecure_no_server_check := pl_insecure_no_server_check p |}.
Definition set_status (x : bool) (p : EsPlan) : EsPlan :=
  {| pl_query := pl_query p; pl_scope := pl_scope p; pl_limit := pl_limit p; pl_offset := pl_offset p; pl_columns := pl_columns p; pl_sort := pl_sort
     p; pl_format := pl_format p; pl_export_file := pl_export_file p; pl_bom := pl_bom p; pl_header := pl_header p; pl_double_quote := pl_double_quote
     p; pl_text_double_quote := pl_text_double_quote p; pl_match_case := pl_match_case p; pl_json := pl_json p; pl_result_count := pl_result_count p;
     pl_total_size := pl_total_size p; pl_no_result_error := pl_no_result_error p; pl_status := x; pl_server_version := pl_server_version p;
     pl_insecure_no_server_check := pl_insecure_no_server_check p |}.
Definition set_server_version (x : bool) (p : EsPlan) : EsPlan :=
  {| pl_query := pl_query p; pl_scope := pl_scope p; pl_limit := pl_limit p; pl_offset := pl_offset p; pl_columns := pl_columns p; pl_sort := pl_sort
     p; pl_format := pl_format p; pl_export_file := pl_export_file p; pl_bom := pl_bom p; pl_header := pl_header p; pl_double_quote := pl_double_quote
     p; pl_text_double_quote := pl_text_double_quote p; pl_match_case := pl_match_case p; pl_json := pl_json p; pl_result_count := pl_result_count p;
     pl_total_size := pl_total_size p; pl_no_result_error := pl_no_result_error p; pl_status := pl_status p; pl_server_version := x;
     pl_insecure_no_server_check := pl_insecure_no_server_check p |}.
Definition set_insecure_no_server_check (x : bool) (p : EsPlan) : EsPlan :=
  {| pl_query := pl_query p; pl_scope := pl_scope p; pl_limit := pl_limit p; pl_offset := pl_offset p; pl_columns := pl_columns p; pl_sort := pl_sort
     p; pl_format := pl_format p; pl_export_file := pl_export_file p; pl_bom := pl_bom p; pl_header := pl_header p; pl_double_quote := pl_double_quote
     p; pl_text_double_quote := pl_text_double_quote p; pl_match_case := pl_match_case p; pl_json := pl_json p; pl_result_count := pl_result_count p;
     pl_total_size := pl_total_size p; pl_no_result_error := pl_no_result_error p; pl_status := pl_status p; pl_server_version := pl_server_version p;
     pl_insecure_no_server_check := x |}.

Inductive Command := Run (plan : EsPlan) | Help (screen : HelpScreen) | Version.

Definition wants_bom (p : EsPlan) : bool :=
  default (is_some (pl_export_file p) && bool_decide (pl_format p = Some OCsv)) (pl_bom p).
Definition wants_header (p : EsPlan) : bool := default (negb (bool_decide (pl_format p = Some OTxt))) (pl_header p).

Record EsFatal := { exit_code : N; message : list N }.

Definition unknown_switch (token : list N) : EsFatal := {| exit_code := code UnknownSwitch; message := str "unknown switch: " ++ token |}.
Definition unsupported_switch (token : list N) : EsFatal :=
  {| exit_code := code UnknownSwitch; message := str "goz does not support the es switch " ++ token |}.
Definition missing_param (token : list N) : EsFatal :=
  {| exit_code := code BadParam; message := str "expected an additional parameter after " ++ token |}.
Definition bad_param (token value : list N) (expected : string) : EsFatal :=
  {| exit_code := code BadParam; message := str "expected " ++ str expected ++ str " after " ++ token ++ str ", got: " ++ value |}.

(** ** Reading tokens *)

(** [trait Tokens]. *)
Class Tokens (T : Type) := {
  next_token : T -> result EsFatal (option (list N)) * T;
  next_param : T -> option (list N) * T;
  rest : T -> list N * T;
  set_argv : bool -> T -> T
}.

Definition DASH : N := 0x2D.
Definition SLASH : N := 0x2F.
Definition EQUALS : N := 0x3D.
Definition BACKSLASH : N := 0x5C.
Definition QUOTE : N := 0x22.
Definition SPACE : N := 0x20.

Definition starts_dash (s : list N) : bool := match s with c :: _ => c =? DASH | [] => false end.

(** *** Arguments already split *)

Record ArgTokens := { at_args : list (list N); at_after_eq : option (list N * list N) }.

Definition arg_next_token (t : ArgTokens) : result EsFatal (option (list N)) * ArgTokens :=
  match at_after_eq t with
  | Some (name, _) => (Err (unknown_switch (name ++ [EQUALS])), {| at_args := at_args t; at_after_eq := None |})
  | None =>
      match at_args t with
      | [] => (Ok None, t)
      | token :: args =>
          match (if starts_dash token then split_once [EQUALS] token else None) with
          | Some (name, value) => (Ok (Some name), {| at_args := args; at_after_eq := Some (name, value) |})
          | None => (Ok (Some token), {| at_args := args; at_after_eq := None |})
          end
      end
  end.

Definition arg_next_param (t : ArgTokens) : option (list N) * ArgTokens :=
  match at_after_eq t with
  | Some (_, value) => (Some value, {| at_args := at_args t; at_after_eq := None |})
  | None =>
      match at_args t with
      | [] => (None, t)
      | token :: args => (Some token, {| at_args := args; at_after_eq := None |})
      end
  end.

(** [rest] takes the arguments; a value after an equals sign stays. *)
Definition arg_rest (t : ArgTokens) : list N * ArgTokens := (join SPACE (at_args t), {| at_args := []; at_after_eq := at_after_eq t |}).

#[export] Instance arg_tokens : Tokens ArgTokens :=
  {| next_token := arg_next_token; next_param := arg_next_param; rest := arg_rest; set_argv := fun _ t => t |}.

(** *** A raw command line *)

Record LineTokens := { lt_rest : list N; lt_after_eq : option (list N); lt_argv : bool }.

(** [char::is_ascii_whitespace]. *)
Definition is_ascii_whitespace (c : N) : bool := (c =? 0x20) || (c =? 0x09) || (c =? 0x0A) || (c =? 0x0C) || (c =? 0x0D).

Definition skip_space (s : list N) : list N := drop_while is_ascii_whitespace s.

(** [str::starts_with]. *)
Definition begins (p s : list N) : bool := is_some (strip_prefix p s).

(** What one turn of the loop of [next_token] does: stop before the character,
    stop after an equals sign, or push some bytes and go on past the character
    and [skip] more. *)
Inductive Turn :=
| Stop
| AtEquals
| Go (pushed : list N) (in_quote was_quote : bool) (skip : nat).

Definition token_turn (argv dashed in_quote was_quote : bool) (c : N) (tail : list N) : Turn :=
  if negb in_quote && is_ascii_whitespace c then Stop
  else if negb was_quote && (c =? EQUALS) && dashed then AtEquals
  else if argv then
    if in_quote && begins [BACKSLASH; QUOTE] (c :: tail) then Go [QUOTE] in_quote was_quote 1
    else if in_quote && begins [BACKSLASH; BACKSLASH] (c :: tail) then Go [BACKSLASH] in_quote was_quote 1
    else if c =? QUOTE then Go [] (negb in_quote) true 0
    else Go [c] in_quote was_quote 0
  else if begins [QUOTE; QUOTE; QUOTE] (c :: tail) then Go (str "&quot:") in_quote was_quote 2
  else if c =? QUOTE then Go [QUOTE] (negb in_quote) true 0
  else Go [c] in_quote was_quote 0.

(** The loop: the token, whether it ended at an equals sign, whether it held a
    quote, and what is left. *)
Fixpoint token_loop (argv dashed in_quote was_quote : bool) (token : list N) (skip : nat) (line : list N) : list N * bool * bool * list N :=
  match line with
  | [] => (token, false, was_quote, [])
  | c :: tail =>
      match skip with
      | S skip => token_loop argv dashed in_quote was_quote token skip tail
      | O =>
          match token_turn argv dashed in_quote was_quote c tail with
          | Stop => (token, false, was_quote, line)
          | AtEquals => (token, true, was_quote, tail)
          | Go bs iq wq k => token_loop argv dashed iq wq (token ++ bs) k tail
          end
      end
  end.

Definition line_next_token (t : LineTokens) : result EsFatal (option (list N)) * LineTokens :=
  match lt_after_eq t with
  | Some name => (Err (unknown_switch (name ++ [EQUALS])), {| lt_rest := lt_rest t; lt_after_eq := None; lt_argv := lt_argv t |})
  | None =>
      let line := skip_space (lt_rest t) in
      let '(token, was_eq, was_quote, after) := token_loop (lt_argv t) (starts_dash line) false false [] 0 line in
      let t' eq := {| lt_rest := after; lt_after_eq := eq; lt_argv := lt_argv t |} in
      match token with
      | [] => if was_eq || was_quote then (Ok (Some token), t' (if was_eq then Some token else None)) else (Ok None, t' None)
      | _ => (Ok (Some token), t' (if was_eq then Some token else None))
      end
  end.

Fixpoint param_loop (in_quote : bool) (param : list N) (skip : nat) (line : list N) : list N * list N :=
  match line with
  | [] => (param, [])
  | c :: tail =>
      match skip with
      | S skip => param_loop in_quote param skip tail
      | O =>
          if negb in_quote && is_ascii_whitespace c then (param, line)
          else if negb (c =? QUOTE) then param_loop in_quote (param ++ [c]) 0 tail
          else if begins [QUOTE; QUOTE] tail then param_loop in_quote (param ++ [QUOTE]) 2 tail
          else param_loop (negb in_quote) param 0 tail
      end
  end.

(** A value after an equals sign starts at once and may be empty. *)
Definition line_next_param (t : LineTokens) : option (list N) * LineTokens :=
  let line := match lt_after_eq t with Some _ => lt_rest t | None => skip_space (lt_rest t) end in
  let read := let '(param, after) := param_loop false [] 0 line in
              (Some param, {| lt_rest := after; lt_after_eq := None; lt_argv := lt_argv t |}) in
  match lt_after_eq t, line with
  | None, [] => (None, {| lt_rest := line; lt_after_eq := None; lt_argv := lt_argv t |})
  | _, _ => read
  end.

Definition line_rest (t : LineTokens) : list N * LineTokens := (skip_space (lt_rest t), {| lt_rest := []; lt_after_eq := None; lt_argv := lt_argv t |}).

#[export] Instance line_tokens : Tokens LineTokens :=
  {| next_token := line_next_token; next_param := line_next_param; rest := line_rest;
     set_argv := fun argv t => {| lt_rest := lt_rest t; lt_after_eq := lt_after_eq t; lt_argv := argv |} |}.

(** ** Names *)

(** [switch_name_matches]: every dash of the canonical name is optional. *)
Fixpoint switch_name_matches (input canonical : list N) : bool :=
  match canonical with
  | [] => match input with [] => true | _ => false end
  | expected :: canonical =>
      if expected =? DASH then
        match input with
        | c :: input' => if c =? DASH then switch_name_matches input' canonical else switch_name_matches input canonical
        | [] => switch_name_matches input canonical
        end
      else match input with c :: input => if c =? expected then switch_name_matches input canonical else false | [] => false end
  end.

(** [find_map]. *)
Fixpoint find_map {A B} (f : A -> option B) (l : list A) : option B :=
  match l with [] => None | x :: l => match f x with Some y => Some y | None => find_map f l end end.

Definition match_sort_form (input base : list N) (k : SortKey) : option (SortKey * option SortDir) :=
  if switch_name_matches input base then Some (k, None)
  else if switch_name_matches input (base ++ str "-ascending") then Some (k, Some Asc)
  else if switch_name_matches input (base ++ str "-descending") then Some (k, Some Desc)
  else None.

Definition parse_sort_param (value : list N) : option (SortKey * option SortDir) :=
  find_map (fun row => find_map (fun alias => match_sort_form value (str alias) (sk_key row)) (sk_names row)) SORT_KEYS.

Definition match_native (name : list N) : option SwitchAction :=
  find_map (fun s => match spelling s with
                     | Names _ native action => if existsb (fun n => bool_decide (str n = name)) native then Some action else None
                     | SortFamily => None
                     end) SWITCHES.

Definition match_switch (name : list N) : option SwitchAction :=
  find_map (fun s => match spelling s with
                     | Names es _ action => if existsb (fun n => switch_name_matches name (str n)) es then Some action else None
                     | SortFamily =>
                         find_map (fun row => find_map (fun alias =>
                           (fun kd : SortKey * option SortDir => ASortFixed kd.1 kd.2) <$> match_sort_form name (str "sort-" ++ str alias) (sk_key row)) (sk_names row)) SORT_KEYS
                     end) SWITCHES.

Definition is_es_only (name : list N) : bool := existsb (fun n => switch_name_matches name (str n)) ES_ONLY_SWITCHES.
Definition is_attribute_filter (name : list N) : bool := (1 <? len name) && match name with c :: _ => c =? 0x61 | [] => false end.

Definition refuse (token name : list N) : EsFatal :=
  if is_es_only name || is_attribute_filter name then unsupported_switch token else unknown_switch token.

Inductive Token := SearchText | EndOfSwitches | TSwitch (action : SwitchAction).

Definition classify (token : list N) : result EsFatal Token :=
  if bool_decide (token = [DASH]) then Ok SearchText
  else match strip_prefix [DASH; DASH] token with
  | Some name =>
      if forallb (fun b => b =? DASH) name then Ok EndOfSwitches
      else match match_native name with
           | Some a => Ok (TSwitch a)
           | None => match match_switch name with Some a => Ok (TSwitch a) | None => Err (refuse token name) end
           end
  | None =>
      match strip_prefix [DASH] token with
      | Some name => match match_switch name with Some a => Ok (TSwitch a) | None => Err (refuse token name) end
      | None =>
          match strip_prefix [SLASH] token with
          | Some name =>
              let name := default name (strip_prefix [DASH] name) in
              match match_switch name with
              | Some a => Ok (TSwitch a)
              | None => if is_es_only name || is_attribute_filter name then Err (unsupported_switch token) else Ok SearchText
              end
          | None => Ok SearchText
          end
      end
  end.

(** ** Applying switches *)

Record Pending := {
  terms : list (list N);
  filters : list string;
  match_path : bool;
  sort_key : option SortKey;
  sort_dir : option SortDir
}.
Definition pending_default : Pending := {| terms := []; filters := []; match_path := false; sort_key := None; sort_dir := None |}.

Definition push_term (t : list N) (p : Pending) : Pending :=
  {| terms := terms p ++ [t]; filters := filters p; match_path := match_path p; sort_key := sort_key p; sort_dir := sort_dir p |}.
Definition push_filter (f : string) (p : Pending) : Pending :=
  {| terms := terms p; filters := filters p ++ [f]; match_path := match_path p; sort_key := sort_key p; sort_dir := sort_dir p |}.
Definition set_match_path (on : bool) (p : Pending) : Pending :=
  {| terms := terms p; filters := filters p; match_path := on; sort_key := sort_key p; sort_dir := sort_dir p |}.
Definition set_direction (d : SortDir) (p : Pending) : Pending :=
  {| terms := terms p; filters := filters p; match_path := match_path p; sort_key := sort_key p; sort_dir := Some d |}.
(** [set_sort]: a direction that is not named stays. *)
Definition set_sort_key (k : SortKey) (d : option SortDir) (p : Pending) : Pending :=
  {| terms := terms p; filters := filters p; match_path := match_path p; sort_key := Some k;
     sort_dir := match d with Some _ => d | None => sort_dir p end |}.

(** [u32::from_str_radix] at 16: a plus sign is accepted. *)
Definition hex_digit (b : N) : option N :=
  if is_ascii_digit b then Some (b - 0x30)
  else if (0x61 <=? b) && (b <=? 0x66) then Some (b - 0x57)
  else if (0x41 <=? b) && (b <=? 0x46) then Some (b - 0x37)
  else None.
Fixpoint hex_value (s : list N) (acc : N) : option N :=
  match s with [] => Some acc | b :: s => d ← hex_digit b; hex_value s (acc * 16 + d) end.
Definition parse_hex (s : list N) : option N :=
  match (match s with b :: s' => if b =? 0x2B then s' else s | [] => [] end) with
  | [] => None
  | ds => v ← hex_value ds 0; if v <=? u32_max then Some v else None
  end.

Definition parse_count (value : list N) : option N :=
  match (match strip_prefix (str "0x") value with Some h => Some h | None => strip_prefix (str "0X") value end) with
  | Some hex => parse_hex hex
  | None => parse_u32 value
  end.

Section parser.
Context {T : Type} `{!Tokens T}.

Definition take_param (tokens : T) (token : list N) : result EsFatal (list N * T) :=
  match next_param tokens with
  | (Some value, tokens) => Ok (value, tokens)
  | (None, _) => Err (missing_param token)
  end.

Definition take_count (tokens : T) (token : list N) : result EsFatal (N * T) :=
  '(value, tokens) <-? take_param tokens token;
  match parse_count value with
  | Some n => Ok (n, tokens)
  | None => Err (bad_param token value "a number")
  end.

Definition apply_switch (action : SwitchAction) (token : list N) (tokens : T) (plan : EsPlan) (pending : Pending)
  : result EsFatal (T * EsPlan * Pending) :=
  match action with
  | ALimit => '(n, tokens) <-? take_count tokens token; Ok (tokens, set_limit (Some n) plan, pending)
  | AOffset => '(n, tokens) <-? take_count tokens token; Ok (tokens, set_offset n plan, pending)
  | AScope => '(v, tokens) <-? take_param tokens token; Ok (tokens, set_scope (Some v) plan, pending)
  | AExport f => '(v, tokens) <-? take_param tokens token; Ok (tokens, set_format (Some f) (set_export_file (Some v) plan), pending)
  | AFormat f => Ok (tokens, set_format (Some f) plan, pending)
  | ASortParam =>
      '(v, tokens) <-? take_param tokens token;
      match parse_sort_param v with
      | Some (k, d) => Ok (tokens, plan, set_sort_key k d pending)
      | None => Err (bad_param token v "a sort key")
      end
  | AColumn c => Ok (tokens, set_columns (filter (fun e => e <> c) (pl_columns plan) ++ [c]) plan, pending)
  | ASortFixed k d => Ok (tokens, plan, set_sort_key k d pending)
  | ASortDirection d => Ok (tokens, plan, set_direction d pending)
  | ABom on => Ok (tokens, set_bom (Some on) plan, pending)
  | AHeader on => Ok (tokens, set_header on plan, pending)
  | ADoubleQuote on => Ok (tokens, set_text_double_quote on (set_double_quote on plan), pending)
  | AMatchCase on => Ok (tokens, set_match_case on plan, pending)
  | AMatchPath on => Ok (tokens, plan, set_match_path on pending)
  | AFilter f => Ok (tokens, plan, push_filter f pending)
  | ASearchParam => '(v, tokens) <-? take_param tokens token; Ok (tokens, plan, push_term v pending)
  | ASearchRest =>
      let '(r, tokens) := rest tokens in
      Ok (tokens, plan, match r with [] => pending | _ => push_term r pending end)
  | AArgv on => Ok (set_argv on tokens, plan, pending)
  | AJson => Ok (tokens, set_json true plan, pending)
  | AResultCount => Ok (tokens, set_result_count true plan, pending)
  | ATotalSize => Ok (tokens, set_total_size true plan, pending)
  | ANoResultError => Ok (tokens, set_no_result_error true plan, pending)
  | AStatus => Ok (tokens, set_status true plan, pending)
  | AServerVersion => Ok (tokens, set_server_version true plan, pending)
  | AInsecureNoServerCheck => Ok (tokens, set_insecure_no_server_check true plan, pending)
  | AHelp _ | AVersion => Ok (tokens, plan, pending)
  end.

(** Every later token is search text. *)
Fixpoint terms_loop (fuel : nat) (tokens : T) (pending : Pending) : option (result EsFatal (T * Pending)) :=
  match fuel with
  | O => None
  | S fuel =>
      match next_token tokens with
      | (Err e, _) => Some (Err e)
      | (Ok None, tokens) => Some (Ok (tokens, pending))
      | (Ok (Some term), tokens) => terms_loop fuel tokens (push_term term pending)
      end
  end.

(** The plan when the tokens are over. *)
Definition finish (plan : EsPlan) (pending : Pending) : EsPlan :=
  let query := (terms pending ++ (str <$> filters pending) ++ (if match_path pending then [str "matchpath:"] else []))%list in
  let plan := set_query (join SPACE query) plan in
  let k := default (key (pl_sort plan)) (sort_key pending) in
  set_sort {| key := k; dir := default (dir (default_for k)) (sort_dir pending) |} plan.

Fixpoint parse_loop (fuel : nat) (tokens : T) (plan : EsPlan) (pending : Pending) : option (result EsFatal Command) :=
  match fuel with
  | O => None
  | S fuel =>
      match next_token tokens with
      | (Err e, _) => Some (Err e)
      | (Ok None, _) => Some (Ok (Run (finish plan pending)))
      | (Ok (Some token), tokens) =>
          match classify token with
          | Err e => Some (Err e)
          | Ok SearchText => parse_loop fuel tokens plan (push_term token pending)
          | Ok EndOfSwitches =>
              r <-! terms_loop fuel tokens pending;
              parse_loop fuel r.1 plan r.2
          | Ok (TSwitch (AHelp screen)) => Some (Ok (Help screen))
          | Ok (TSwitch AVersion) => Some (Ok Version)
          | Ok (TSwitch action) =>
              match apply_switch action token tokens plan pending with
              | Err e => Some (Err e)
              | Ok (tokens, plan, pending) => parse_loop fuel tokens plan pending
              end
          end
      end
  end.

Definition parse_tokens (fuel : nat) (tokens : T) : option (result EsFatal Command) := parse_loop fuel tokens plan_default pending_default.
End parser.

(** An argument is read at most once, and a byte of a line; one more token says
    that there are none. *)
Definition parse_argv (args : list (list N)) : option (result EsFatal Command) :=
  parse_tokens (length args + 2) {| at_args := args; at_after_eq := None |}.

Definition parse_command_line (line : list N) : option (result EsFatal Command) :=
  let tokens := {| lt_rest := line; lt_after_eq := None; lt_argv := false |} in
  match next_token tokens with
  | (Err e, _) => Some (Err e)
  | (Ok _, tokens) => parse_tokens (length line + 2) {| lt_rest := lt_rest tokens; lt_after_eq := None; lt_argv := lt_argv tokens |}
  end.
