(* ===== verification/ArgvRead.v ===== *)
(** Reading a command line always ends, in a plan that can be asked for or with
    one of es's two exit codes; a switch's name is its canonical name with some
    dashes left out. *)

From stdpp Require Import gmap.
From stdpp Require Import base option list sets strings.
From Stdlib Require Import NArith Lia.
From S2P Require Import Prelude Types Wtf8 Text EsSwitches Argv.
Open Scope N_scope.
Open Scope list_scope.

(** ** Names *)

(** [shortened i k]: [i] is [k] with some of its dashes left out. *)
Inductive shortened : list N -> list N -> Prop :=
| sh_nil : shortened [] []
| sh_keep c i k : shortened i k -> shortened (c :: i) (c :: k)
| sh_drop i k : shortened i k -> shortened i (DASH :: k).
#[export] Hint Constructors shortened : core.

(** A dash of the input may go as well. *)
Lemma shortened_less i k : shortened (DASH :: i) k -> shortened i k.
Proof. remember (DASH :: i) as di eqn:E. induction 1 as [|c j k Hs _|j k _ IH]; [done| |by apply sh_drop, IH]. injection E as -> ->. by apply sh_drop. Qed.

Lemma switch_name_shortened i k : switch_name_matches i k = true <-> shortened i k.
Proof.
  revert i. induction k as [|e k IH]; intros i; cbn [switch_name_matches].
  { destruct i; split; intros H; try done; by inversion H. }
  destruct (N.eqb_spec e DASH) as [->|He].
  - destruct i as [|c i]; [rewrite IH; split; [by apply sh_drop|]; intros H; by inversion H|].
    destruct (N.eqb_spec c DASH) as [->|Hc].
    + rewrite IH. split; [by apply sh_keep|]. inversion 1; subst; [done|]. by apply shortened_less.
    + rewrite IH. split; [by apply sh_drop|]. inversion 1; subst; done.
  - destruct i as [|c i]; [split; [done|]; inversion 1; by subst|]. destruct (N.eqb_spec c e) as [->|Hc].
    + rewrite IH. split; [by apply sh_keep|]. inversion 1; by subst.
    + split; [done|]. inversion 1; by subst.
Qed.

(** ** Readers end *)

(** What the parser relies on: a token takes something off what is left, nothing
    else adds to it, and a reader fails only on a value no switch took. *)
Class TokensOk (T : Type) `{!Tokens T} := {
  left_of : T -> nat;
  next_token_left t x t' : next_token t = (Ok (Some x), t') -> (left_of t' < left_of t)%nat;
  next_token_end t t' : next_token t = (Ok None, t') -> (left_of t' <= left_of t)%nat;
  next_token_fails t e t' : next_token t = (Err e, t') -> exit_code e = code UnknownSwitch;
  next_param_left t : (left_of (next_param t).2 <= left_of t)%nat;
  rest_left t : (left_of (rest t).2 <= left_of t)%nat;
  set_argv_left on t : (left_of (set_argv on t) <= left_of t)%nat
}.

Definition args_left (t : ArgTokens) : nat := length (at_args t).

#[export] Program Instance arg_tokens_ok : TokensOk ArgTokens := {| left_of := args_left |}.
Next Obligation.
  intros t x t'. simpl. unfold arg_next_token, args_left. destruct (at_after_eq t) as [[n v]|]; [done|]. destruct (at_args t) as [|a l]; [done|].
  destruct (if starts_dash a then _ else _) as [[n v]|]; intros [= <- <-]; simpl; lia.
Qed.
Next Obligation.
  intros t t'. simpl. unfold arg_next_token. destruct (at_after_eq t) as [[n v]|]; [done|]. destruct (at_args t) as [|a l]; [by intros [= <-]|].
  by destruct (if starts_dash a then _ else _) as [[n v]|].
Qed.
Next Obligation.
  intros t e t'. simpl. unfold arg_next_token. destruct (at_after_eq t) as [[n v]|]; [by intros [= <- _]|]. destruct (at_args t) as [|a l]; [done|].
  by destruct (if starts_dash a then _ else _) as [[n v]|].
Qed.
Next Obligation. intros t. simpl. unfold arg_next_param, args_left. destruct (at_after_eq t) as [[n v]|]; [done|]. destruct (at_args t) as [|a l] eqn:E; simpl; rewrite ?E; simpl; lia. Qed.
Next Obligation. intros t. simpl. unfold args_left. simpl. lia. Qed.
Next Obligation. done. Qed.

Lemma skip_space_left s : (length (skip_space s) <= length s)%nat.
Proof. unfold skip_space. induction s as [|c s IH]; simpl; [lia|]. destruct (is_ascii_whitespace c); simpl; lia. Qed.

Lemma token_loop_left argv dashed line : forall iq wq token skip,
  (length (token_loop argv dashed iq wq token skip line).2 <= length line)%nat.
Proof.
  induction line as [|c line IH]; intros iq wq token skip; [done|]. cbn [token_loop]. destruct skip as [|k].
  - destruct (token_turn _ _ _ _ _ _) as [| |bs iq' wq' k]; simpl; [lia|lia|]. pose proof (IH iq' wq' (token ++ bs) k). lia.
  - pose proof (IH iq wq token k). simpl. lia.
Qed.

(** A token that is there takes something off the line. *)
Lemma token_loop_taken argv dashed line token was_eq was_quote after :
  token_loop argv dashed false false [] 0 line = (token, was_eq, was_quote, after) ->
  (length after < length line)%nat \/ (token = [] /\ was_eq = false /\ was_quote = false /\ after = line).
Proof.
  destruct line as [|c line]; cbn [token_loop]; [intros [= <- <- <- <-]; by right|].
  destruct (token_turn _ _ _ _ _ _) as [| |bs iq' wq' k]; [intros [= <- <- <- <-]; by right|intros [= <- <- <- <-]; left; simpl; lia|].
  intros E. left. pose proof (token_loop_left argv dashed line iq' wq' ([] ++ bs) k) as Hl. rewrite E in Hl. simpl in *. lia.
Qed.

Lemma param_loop_left line : forall iq p skip, (length (param_loop iq p skip line).2 <= length line)%nat.
Proof.
  induction line as [|c line IH]; intros iq p skip; [done|]. cbn [param_loop].
  assert (Hs : forall iq' p' k, (length (param_loop iq' p' k line).2 <= S (length line))%nat) by (intros; etrans; [apply IH|lia]).
  destruct skip; [|apply Hs]. destruct (negb iq && _); [done|]. destruct (negb _); [apply Hs|]. destruct (begins _ _); apply Hs.
Qed.

Definition line_left (t : LineTokens) : nat := length (lt_rest t).

(** What a line's [next_token] gives, by what it took. *)
Lemma line_token_cases t : match line_next_token t with
  | (Err e, _) => exit_code e = code UnknownSwitch
  | (Ok None, t') => (line_left t' <= line_left t)%nat
  | (Ok (Some _), t') => (line_left t' < line_left t)%nat
  end.
Proof.
  unfold line_next_token, line_left. destruct (lt_after_eq t); [done|]. pose proof (skip_space_left (lt_rest t)) as Hs.
  destruct (token_loop _ _ _ _ _ _ _) as [[[token was_eq] was_quote] after] eqn:E. apply token_loop_taken in E as [Hlt|(-> & -> & -> & ->)]; [|simpl; lia].
  destruct token; [destruct (was_eq || was_quote)|]; simpl; lia.
Qed.

#[export] Program Instance line_tokens_ok : TokensOk LineTokens := {| left_of := line_left |}.
Next Obligation. intros t x t' E. simpl in E. pose proof (line_token_cases t) as Hc. by rewrite E in Hc. Qed.
Next Obligation. intros t t' E. simpl in E. pose proof (line_token_cases t) as Hc. by rewrite E in Hc. Qed.
Next Obligation. intros t e t' E. simpl in E. pose proof (line_token_cases t) as Hc. by rewrite E in Hc. Qed.
Next Obligation.
  intros t. simpl. unfold line_next_param, line_left. pose proof (skip_space_left (lt_rest t)) as Hs.
  destruct (lt_after_eq t); [|destruct (skip_space (lt_rest t)) as [|c l] eqn:E; [simpl; lia|]].
  - pose proof (param_loop_left (lt_rest t) false [] 0). by destruct (param_loop _ _ _ _).
  - pose proof (param_loop_left (c :: l) false [] 0). destruct (param_loop _ _ _ (c :: l)). simpl in *. lia.
Qed.
Next Obligation. intros t. simpl. unfold line_left. simpl. lia. Qed.
Next Obligation. done. Qed.

(** ** Plans that can be asked for *)

Record plan_ok (p : EsPlan) : Prop := {
  po_limit n : pl_limit p = Some n -> n <= u32_max;
  po_offset : pl_offset p <= u32_max;
  po_columns : NoDup (pl_columns p);
  po_export : is_Some (pl_export_file p) -> is_Some (pl_format p);
  po_quote : pl_double_quote p = false -> pl_text_double_quote p = false
}.

Lemma hex_value_acc s : forall acc v, hex_value s acc = Some v -> acc <= v.
Proof. induction s as [|b s IH]; intros acc v; cbn [hex_value]; [intros [= ->]; lia|]. intros (d & _ & E)%bind_Some. apply IH in E. lia. Qed.

Lemma parse_count_bound value n : parse_count value = Some n -> n <= u32_max.
Proof.
  unfold parse_count. destruct (match strip_prefix (str "0x") value with Some h => Some h | None => _ end) as [h|].
  - unfold parse_hex. destruct (match h with [] => [] | _ => _ end); [done|]. intros (v & _ & E)%bind_Some. destruct (N.leb_spec v u32_max); [|done]. by injection E as <-.
  - unfold parse_u32, parse_unsigned. intros (v & _ & E)%bind_Some. destruct (N.leb_spec v u32_max); [|done]. by injection E as <-.
Qed.

(** The exit codes es has for a command line it cannot use. *)
Definition es_exit (e : EsFatal) : Prop := exit_code e = code BadParam \/ exit_code e = code UnknownSwitch.

Lemma refuse_exit token name : es_exit (refuse token name).
Proof. unfold refuse. destruct (_ || _); by right. Qed.

Lemma classify_exit token e : classify token = Err e -> es_exit e.
Proof.
  unfold classify. case_bool_decide; [done|]. destruct (strip_prefix [DASH; DASH] token) as [name|].
  { destruct (forallb _ name); [done|]. destruct (match_native name); [done|]. destruct (match_switch name); [done|]. intros [= <-]. apply refuse_exit. }
  destruct (strip_prefix [DASH] token) as [name|].
  { destruct (match_switch name); [done|]. intros [= <-]. apply refuse_exit. }
  destruct (strip_prefix [SLASH] token) as [name|]; [|done]. destruct (match_switch _); [done|]. destruct (_ || _); [|done]. intros [= <-]. by right.
Qed.

Section total.
Context {T : Type} `{!Tokens T} `{!TokensOk T}.

(** A parameter that was taken, a count that was read. *)
Lemma take_param_cases t token : match take_param t token with
  | Err e => es_exit e
  | Ok (_, t') => (left_of t' <= left_of t)%nat
  end.
Proof.
  unfold take_param. pose proof (next_param_left t) as Hl. destruct (next_param t) as [[v|] t'] eqn:E; [exact Hl|by left].
Qed.

Lemma take_count_cases t token : match take_count t token with
  | Err e => es_exit e
  | Ok (n, t') => n <= u32_max /\ (left_of t' <= left_of t)%nat
  end.
Proof.
  unfold take_count. pose proof (take_param_cases t token) as Hp. destruct (take_param t token) as [[v t']|e]; [|exact Hp]. cbn [result_bind].
  destruct (parse_count v) as [n|] eqn:E; [|by left]. split; [by eapply parse_count_bound|exact Hp].
Qed.

Lemma plan_default_ok : plan_ok plan_default.
Proof. split; simpl; [done|unfold u32_max; lia|constructor|by intros [? ?]|done]. Qed.

Lemma add_column_nodup (c : EsColumn) l : NoDup l -> NoDup (filter (fun e => e <> c) l ++ [c]).
Proof.
  intros Hl. apply NoDup_app. split; [by apply NoDup_filter|]. split; [|apply NoDup_singleton].
  intros e [He _]%list_elem_of_filter ->%list_elem_of_singleton. done.
Qed.

(** A plan with one field set, field by field. *)
Ltac fields := split; [done|split; simpl; (done || congruence)].

(** Every switch leaves a plan that can be asked for. *)
Lemma apply_switch_cases a token t plan pending : plan_ok plan -> match apply_switch a token t plan pending with
  | Err e => es_exit e
  | Ok (t', plan', _) => (left_of t' <= left_of t)%nat /\ plan_ok plan'
  end.
Proof.
  intros Hok. pose proof (take_param_cases t token) as Hp. pose proof (take_count_cases t token) as Hc. destruct Hok as [H1 H2 H3 H4 H5].
  destruct a; cbn [apply_switch].
  all: try fields.
  all: try (destruct (take_count t token) as [[n t']|e]; cbn [result_bind]; [destruct Hc as [Hn Hl]; fields|done]).
  all: try (destruct (take_param t token) as [[v t']|e]; cbn [result_bind]; [|done]; fields).
  - destruct (take_param t token) as [[v t']|e]; cbn [result_bind]; [|done]. destruct (parse_sort_param v) as [[k d]|]; [fields|by left].
  - split; [done|]. split; simpl; try done. by apply add_column_nodup.
  - pose proof (rest_left t) as Hr. destruct (rest t) as [r t']. fields.
  - split; [apply set_argv_left|]. split; simpl; done.
Qed.

Lemma terms_loop_total fuel : forall t pending, (left_of t < fuel)%nat -> exists r, terms_loop fuel t pending = Some r /\
  match r with Err e => es_exit e | Ok (t', _) => (left_of t' <= left_of t)%nat end.
Proof.
  induction fuel as [|fuel IH]; intros t pending Hf; [lia|]. cbn [terms_loop]. destruct (next_token t) as [[[x|]|e] t'] eqn:E.
  - apply next_token_left in E. destruct (IH t' (push_term x pending)) as (r & -> & Hr); [lia|]. exists r. split; [done|]. destruct r as [[t'' ?]|]; [lia|done].
  - apply next_token_end in E. eexists. split; [done|]. done.
  - apply next_token_fails in E. eexists. split; [done|]. by right.
Qed.

Lemma finish_ok plan pending : plan_ok plan -> plan_ok (finish plan pending).
Proof. intros [H1 H2 H3 H4 H5]. by split. Qed.

(** What a parse ends in. *)
Definition parsed (r : result EsFatal Command) : Prop :=
  match r with Err e => es_exit e | Ok (Run p) => plan_ok p | Ok _ => True end.

Lemma parse_loop_total fuel : forall t plan pending, (left_of t < fuel)%nat -> plan_ok plan -> exists r, parse_loop fuel t plan pending = Some r /\ parsed r.
Proof.
  induction fuel as [|fuel IH]; intros t plan pending Hf Hok; [lia|]. cbn [parse_loop]. destruct (next_token t) as [[[x|]|e] t'] eqn:E.
  - apply next_token_left in E. destruct (classify x) as [[| |a]|e] eqn:Ec.
    + apply IH; [lia|done].
    + destruct (terms_loop_total fuel t' pending) as (r & -> & Hr); [lia|]. destruct r as [[t'' pending']|e]; cbn [run_bind fst snd]; [|eexists; split; [done|exact Hr]].
      apply IH; [lia|done].
    + pose proof (apply_switch_cases a x t' plan pending Hok) as Ha.
      destruct (apply_switch a x t' plan pending) as [[[t'' plan'] pending']|e] eqn:Eapp; [|destruct a; (eexists; split; [done|]; done)].
      destruct Ha as [Hl Hok']. destruct a; try (apply IH; [lia|done]); eexists; (split; [done|done]).
    + eexists. split; [done|]. by eapply classify_exit.
  - eexists. split; [done|]. by apply finish_ok.
  - apply next_token_fails in E. eexists. split; [done|]. by right.
Qed.

(** More fuel changes nothing. *)
Lemma terms_loop_more fuel : forall t pending r k, terms_loop fuel t pending = Some r -> terms_loop (fuel + k) t pending = Some r.
Proof.
  induction fuel as [|fuel IH]; intros t pending r k; [done|]. cbn [terms_loop Nat.add]. destruct (next_token t) as [[[x|]|e] t']; [apply IH|done|done].
Qed.

Lemma parse_loop_more fuel : forall t plan pending r k, parse_loop fuel t plan pending = Some r -> parse_loop (fuel + k) t plan pending = Some r.
Proof.
  induction fuel as [|fuel IH]; intros t plan pending r k; [done|]. cbn [parse_loop Nat.add]. destruct (next_token t) as [[[x|]|e] t']; [|done|done].
  destruct (classify x) as [[| |a]|e]; [apply IH| | |done].
  - destruct (terms_loop fuel t' pending) as [r'|] eqn:E; [|done]. rewrite (terms_loop_more _ _ _ _ k E). destruct r' as [[t'' p']|]; [apply IH|done].
  - destruct (apply_switch a x t' plan pending) as [[[t'' plan'] pending']|e]; destruct a; try done; apply IH.
Qed.

Lemma parse_loop_same f1 f2 t plan pending r1 r2 : parse_loop f1 t plan pending = Some r1 -> parse_loop f2 t plan pending = Some r2 -> r1 = r2.
Proof.
  intros E1 E2. apply (parse_loop_more _ _ _ _ _ f2) in E1. apply (parse_loop_more _ _ _ _ _ f1) in E2. rewrite Nat.add_comm in E2. congruence.
Qed.
End total.

(** C7: reading a command line always ends.  Whatever the line, and whatever
    arguments a caller has split it into: the loops over tokens end, and the
    result is a help or version screen, or a plan that can be carried out (counts
    that fit 32 bits, no column twice, an export file only with a format, and
    quotes dropped for every format when they are for CSV), or an error with es's
    exit code for a bad parameter or for an unknown switch. *)
Theorem command_line_total line args :
  (exists r, parse_command_line line = Some r /\ parsed r) /\ (exists r, parse_argv args = Some r /\ parsed r).
Proof.
  split.
  - unfold parse_command_line. destruct (next_token _) as [[x|e] t'] eqn:E.
    + apply parse_loop_total; [|apply plan_default_ok]. destruct x; [apply next_token_left in E|apply next_token_end in E]; simpl in *; unfold line_left in *; simpl in *; lia.
    + eexists. split; [done|]. right. by eapply (next_token_fails (T := LineTokens)).
  - apply parse_loop_total; [|apply plan_default_ok]. simpl. unfold args_left. simpl. lia.
Qed.
