(* ===== verification/EsNames.v ===== *)
(** What a switch's name means: each input names at most one action, the one of
    a canonical name it shortens. *)

From stdpp Require Import gmap.
From stdpp Require Import base option list sets strings.
From Stdlib Require Import NArith Lia.
From S2P Require Import Prelude Types Wtf8 Text EsSwitches Argv ArgvRead.
Open Scope N_scope.
Open Scope list_scope.

(** Every canonical name, with what it does, in the order of the table. *)
Definition sort_spellings : list (list N * SwitchAction) :=
  flat_map (fun row => flat_map (fun alias =>
    [(str "sort-" ++ str alias, ASortFixed (sk_key row) None);
     ((str "sort-" ++ str alias) ++ str "-ascending", ASortFixed (sk_key row) (Some Asc));
     ((str "sort-" ++ str alias) ++ str "-descending", ASortFixed (sk_key row) (Some Desc))]) (sk_names row)) SORT_KEYS.
Definition spellings_of (s : Switch) : list (list N * SwitchAction) :=
  match spelling s with Names es _ a => (fun n => (str n, a)) <$> es | SortFamily => sort_spellings end.
Definition spellings : list (list N * SwitchAction) := flat_map spellings_of SWITCHES.

Definition named (name : list N) (p : list N * SwitchAction) : option SwitchAction := if switch_name_matches name p.1 then Some p.2 else None.

(** ** The table as one list *)

Lemma find_map_app {A B} (f : A -> option B) l k : find_map f (l ++ k) = match find_map f l with Some y => Some y | None => find_map f k end.
Proof. induction l as [|x l IH]; [done|]. cbn [app find_map]. by destruct (f x). Qed.

Lemma find_map_flat {A B C} (g : A -> list B) (f : B -> option C) l : find_map f (flat_map g l) = find_map (fun x => find_map f (g x)) l.
Proof. induction l as [|x l IH]; [done|]. cbn [flat_map find_map]. rewrite find_map_app, IH. done. Qed.

Lemma find_map_ext {A B} (f g : A -> option B) l : (forall x, f x = g x) -> find_map f l = find_map g l.
Proof. intros E. induction l as [|x l IH]; [done|]. cbn [find_map]. by rewrite E, IH. Qed.

Lemma find_map_names name a es : find_map (named name) ((fun n => (str n, a)) <$> es) = if existsb (fun n => switch_name_matches name (str n)) es then Some a else None.
Proof. induction es as [|n es IH]; [done|]. cbn [fmap list_fmap find_map existsb]. unfold named at 1. cbn [fst snd]. by destruct (switch_name_matches name (str n)). Qed.

Lemma match_switch_list name : match_switch name = find_map (named name) spellings.
Proof.
  unfold match_switch, spellings. rewrite find_map_flat. apply find_map_ext. intros s. unfold spellings_of. destruct (spelling s) as [es native a|].
  - by rewrite find_map_names.
  - unfold sort_spellings. rewrite find_map_flat. apply find_map_ext. intros row. rewrite find_map_flat. apply find_map_ext. intros alias.
    unfold match_sort_form, named. cbn [find_map fst snd]. do 3 (destruct (switch_name_matches _ _); [done|]). done.
Qed.

Lemma find_named name l a : find_map (named name) l = Some a -> exists k, (k, a) ∈ l /\ shortened name k.
Proof.
  induction l as [|[k b] l IH]; [done|]. cbn [find_map]. unfold named at 1. cbn [fst snd]. destruct (switch_name_matches name k) eqn:E.
  - intros [= ->]. exists k. split; [by left|by apply switch_name_shortened].
  - intros (k' & Hk & Hs)%IH. exists k'. split; [by right|done].
Qed.

Lemma named_found name l k a : (k, a) ∈ l -> shortened name k -> is_Some (find_map (named name) l).
Proof.
  intros Hin Hs%switch_name_shortened. induction l as [|[k' b] l IH]; [by apply not_elem_of_nil in Hin|]. cbn [find_map]. unfold named at 1. cbn [fst snd].
  destruct (switch_name_matches name k') eqn:E; [by eexists|]. apply elem_of_cons in Hin as [[= <- <-]|Hin]; [congruence|by apply IH].
Qed.

(** ** Names without their dashes *)

Definition bare (k : list N) : list N := List.filter (fun c => negb (c =? DASH)) k.

Lemma shortened_bare i k : shortened i k -> bare i = bare k.
Proof.
  induction 1 as [|c i k _ IH|i k _ IH]; [done| |exact IH]. unfold bare in *. cbn [List.filter]. destruct (negb (c =? DASH)); by rewrite IH.
Qed.

Lemma shortened_whole i k : shortened i k -> bare k = k -> i = k.
Proof.
  induction 1 as [|c i k Hs IH|i k Hs IH]; intros Hb; [done| |].
  - f_equal. apply IH. cbn in Hb. destruct (negb (c =? DASH)); [by injection Hb|]. exfalso. assert (Hl : (length (bare k) <= length k)%nat) by apply List.filter_length_le.
    apply (f_equal length) in Hb. unfold bare in Hl. simpl in Hb. lia.
  - exfalso. cbn in Hb. assert (Hl : (length (bare k) <= length k)%nat) by apply List.filter_length_le. apply (f_equal length) in Hb. unfold bare in Hl. simpl in Hb. lia.
Qed.

(** Names that are another name with its dash left out. *)
Definition undashed : list (list N) := [str "ad"; str "on"; str "os"; str "od"].

Fixpoint same_name (a b : list N) : bool :=
  match a, b with [], [] => true | x :: a, y :: b => (x =? y) && same_name a b | _, _ => false end.
Lemma same_name_spec a b : same_name a b = true <-> a = b.
Proof.
  revert b. induction a as [|x a IH]; intros [|y b]; cbn; try done. rewrite andb_true_iff, IH, N.eqb_eq. split; [by intros [-> ->]|by intros [= -> ->]].
Qed.
Definition is_undashed (k : list N) : bool := existsb (same_name k) undashed.

Lemma is_undashed_spec k : is_undashed k = true <-> k ∈ undashed.
Proof.
  unfold is_undashed. rewrite existsb_exists. setoid_rewrite same_name_spec. split; [intros (x & Hx & ->); by apply list_elem_of_In|intros Hk; exists k; by rewrite <- list_elem_of_In].
Qed.

(** Two names of the table with the same letters mean the same, but for those. *)
Definition agree (p q : list N * SwitchAction) : bool :=
  if same_name (bare p.1) (bare q.1) then bool_decide (p.2 = q.2) || is_undashed p.1 || is_undashed q.1 else true.

Lemma spellings_agree : forallb (fun p => forallb (agree p) spellings) spellings = true.
Proof. vm_compute. reflexivity. Qed.

Lemma undashed_bare k : k ∈ undashed -> bare k = k.
Proof. unfold undashed. rewrite !elem_of_cons, elem_of_nil. intros [-> |[-> |[-> |[-> |[]]]]]; by vm_compute. Qed.

Lemma unambiguous name k a k' a' : (k, a) ∈ spellings -> (k', a') ∈ spellings -> shortened name k -> shortened name k' -> name ∉ undashed -> a = a'.
Proof.
  intros H1 H2 S1 S2 Hn. pose proof spellings_agree as Hall. rewrite forallb_forall in Hall. specialize (Hall (k, a) (proj1 (list_elem_of_In _ _) H1)).
  rewrite forallb_forall in Hall. specialize (Hall (k', a') (proj1 (list_elem_of_In _ _) H2)). unfold agree in Hall. cbn [fst snd] in Hall.
  rewrite (proj2 (same_name_spec _ _)) in Hall by (by rewrite <- (shortened_bare name k S1), (shortened_bare name k' S2)).
  assert (Hno : forall x, shortened name x -> is_undashed x = false).
  { intros x Hx. destruct (is_undashed x) eqn:E; [|done]. apply is_undashed_spec in E. rewrite (shortened_whole name x Hx (undashed_bare x E)) in Hn. done. }
  rewrite (Hno k S1), (Hno k' S2), !orb_false_r in Hall. by apply bool_decide_eq_true in Hall.
Qed.

(** The names in question, each with the one action of its own row. *)
Lemma undashed_own name : name ∈ undashed -> exists a, match_switch name = Some a /\ (name, a) ∈ spellings /\ (forall b, (name, b) ∈ spellings -> b = a).
Proof.
  assert (Hone : forall a, forallb (fun p => if same_name p.1 name then bool_decide (p.2 = a) else true) spellings = true -> forall b, (name, b) ∈ spellings -> b = a).
  { intros a Hall b Hb%list_elem_of_In. rewrite forallb_forall in Hall. specialize (Hall _ Hb). cbn [fst snd] in Hall. rewrite (proj2 (same_name_spec _ _)) in Hall by done.
    by apply bool_decide_eq_true in Hall. }
  assert (Hin : forall a, existsb (fun p => same_name p.1 name && bool_decide (p.2 = a)) spellings = true -> (name, a) ∈ spellings).
  { intros a ([k b] & Hk & [E1%same_name_spec E2%bool_decide_eq_true]%andb_true_iff)%existsb_exists. cbn in E1, E2. subst. by apply list_elem_of_In. }
  unfold undashed. rewrite !elem_of_cons, elem_of_nil. intros [-> |[-> |[-> |[-> |[]]]]]; eexists; (split; [vm_compute; reflexivity|split; [apply Hin; vm_compute; reflexivity|apply Hone; vm_compute; reflexivity]]).
Qed.

(** What a switch's name means.  An input names exactly the action of a
    canonical name it is, with any of that name's dashes left out and nothing
    else changed; no input names two actions, but [ad], [on], [os] and [od] are
    names of their own and not [a-d], [o-n], [o-s] and [o-d] without a dash.  The
    sort switches are every key's names, bare, ascending and descending. *)
Theorem match_switch_correct name a :
  match_switch name = Some a <-> exists k, (k, a) ∈ spellings /\ shortened name k /\ (k = name \/ name ∉ undashed).
Proof.
  destruct (decide (name ∈ undashed)) as [Hu|Hu].
  - destruct (undashed_own name Hu) as (b & E & Hin & Hb). rewrite E. split.
    + intros [= <-]. exists name. split; [done|]. split; [|by left]. clear. induction name; by constructor.
    + intros (k & Hk & _ & [->|?]); [|done]. by rewrite (Hb a Hk).
  - rewrite match_switch_list. split.
    + intros (k & Hk & Hs)%find_named. eauto.
    + intros (k & Hk & Hs & _). destruct (named_found name spellings k a Hk Hs) as [b Eb]. rewrite Eb. apply find_named in Eb as (k' & Hk' & Hs').
      by rewrite (unambiguous name k a k' b).
Qed.
