(* ===== verification/ArgvPlan.v ===== *)
(** Every plan that can be carried out can be asked for: a command line for it,
    and what reading the line gives. *)

From stdpp Require Import gmap.
From stdpp Require Import base option list sets strings.
From Stdlib Require Import NArith ZArith Lia.
From S2P Require Import Prelude Types Wtf8 Text Output.
From S2P Require Import EsSwitches Argv ArgvRead.
Open Scope N_scope.
Open Scope list_scope.

(** ** Words and values *)

(** A character that neither ends a word nor opens a quote. *)
Definition plain (c : N) : bool := negb (is_ascii_whitespace c) && negb (c =? QUOTE).

(** What may follow a word. *)
Definition ends (after : list N) : Prop := match after with [] => True | c :: _ => is_ascii_whitespace c = true end.

Lemma begins_cons a p c l : begins (a :: p) (c :: l) = (a =? c) && begins p l.
Proof. unfold begins. cbn [strip_prefix]. by destruct (a =? c). Qed.

Lemma split_once_cons c w : split_once [EQUALS] (c :: w) = if EQUALS =? c then Some ([], w) else prod_map (cons c) id <$> split_once [EQUALS] w.
Proof. cbn [split_once strip_prefix]. destruct (EQUALS =? c); [done|]. by destruct (split_once [EQUALS] w) as [[l r]|]. Qed.

(** A word without quotes is read whole, or up to its equals sign after a dash. *)
Lemma token_loop_word argv dashed after : ends after -> forall word token, forallb plain word = true ->
  token_loop argv dashed false false token 0 (word ++ after)
  = match (if dashed then split_once [EQUALS] word else None) with
    | Some (name, value) => (token ++ name, true, false, value ++ after)
    | None => (token ++ word, false, false, after)
    end.
Proof.
  intros He. induction word as [|c word IH]; intros token Hw.
  - rewrite app_nil_r. assert (E : token_loop argv dashed false false token 0 after = (token, false, false, after)).
    { destruct after as [|c after]; [done|]. cbn [token_loop]. unfold token_turn. simpl in He. by rewrite He. }
    cbn [app]. rewrite E. by destruct dashed.
  - cbn [forallb] in Hw. apply andb_true_iff in Hw as [[Hs%negb_true_iff Hq%negb_true_iff]%andb_true_iff Hw]. cbn [app token_loop].
    assert (Ht : token_turn argv dashed false false c (word ++ after) = if (c =? EQUALS) && dashed then AtEquals else Go [c] false false 0).
    { unfold token_turn. rewrite Hs. cbn [negb andb]. destruct ((c =? EQUALS) && dashed); [done|]. rewrite (begins_cons QUOTE), (N.eqb_sym QUOTE), Hq. by destruct argv. }
    rewrite Ht. rewrite split_once_cons, (N.eqb_sym EQUALS). destruct (N.eqb_spec c EQUALS) as [->|Hc], dashed; cbn [andb].
    + by rewrite app_nil_r.
    + rewrite IH by done. by rewrite <- app_assoc.
    + rewrite IH by done. destruct (split_once [EQUALS] word) as [[n v]|]; cbn [fmap option_fmap option_map prod_map fst snd]; by rewrite <- app_assoc.
    + rewrite IH by done. by rewrite <- app_assoc.
Qed.

(** A value of a switch as it can be typed: spaces in quotes, a quote tripled. *)
Definition quote_char (c : N) : list N := if is_ascii_whitespace c then [QUOTE; c; QUOTE] else if c =? QUOTE then [QUOTE; QUOTE; QUOTE] else [c].
Definition quoted (v : list N) : list N := match v with [] => [QUOTE; QUOTE] | _ => flat_map quote_char v end.

Lemma param_loop_plain iq p c l : (iq = true \/ is_ascii_whitespace c = false) -> c <> QUOTE -> param_loop iq p 0 (c :: l) = param_loop iq (p ++ [c]) 0 l.
Proof. intros Hs Hq. cbn [param_loop]. rewrite (proj2 (N.eqb_neq _ _) Hq). destruct Hs as [-> | ->]; by rewrite ?andb_false_r. Qed.
Lemma param_loop_literal iq p l : param_loop iq p 0 (QUOTE :: QUOTE :: QUOTE :: l) = param_loop iq (p ++ [QUOTE]) 0 l.
Proof. by destruct iq. Qed.
Lemma param_loop_toggle iq p l : begins [QUOTE; QUOTE] l = false -> param_loop iq p 0 (QUOTE :: l) = param_loop (negb iq) p 0 l.
Proof. intros Hb. cbn [param_loop]. rewrite Hb. by destruct iq. Qed.
Lemma param_loop_end p after : ends after -> param_loop false p 0 after = (p, after).
Proof. destruct after as [|c after]; [done|]. cbn [param_loop ends]. by intros ->. Qed.
Lemma ends_no_quotes p after : ends after -> begins (QUOTE :: p) after = false.
Proof. destruct after as [|c after]; [done|]. intros Hc. rewrite begins_cons. destruct (N.eqb_spec QUOTE c) as [<-|]; [by vm_compute in Hc|done]. Qed.

(** Quotes next to each other pair up differently than they were written, to the
    same value: [inside] tells whether the quote that closes a space is still to
    be read. *)
Lemma param_loop_quoted after : ends after -> forall v p (inside : bool),
  param_loop inside p 0 ((if inside then [QUOTE] else []) ++ flat_map quote_char v ++ after) = (p ++ v, after).
Proof.
  intros He. induction v as [|c v IH]; intros p inside.
  - cbn [flat_map app]. rewrite app_nil_r. destruct inside; cbn [app]; [|by apply param_loop_end].
    rewrite param_loop_toggle by (by apply ends_no_quotes). by apply param_loop_end.
  - cbn [flat_map]. rewrite <- app_assoc. unfold quote_char at 1.
    pose proof (IH (p ++ [c]) true) as It. pose proof (IH (p ++ [c]) false) as If. rewrite <- app_assoc in It, If. cbn [app] in It, If.
    assert (Hws : is_ascii_whitespace c = true -> c <> QUOTE) by (intros Hc ->; by vm_compute in Hc).
    destruct (is_ascii_whitespace c) eqn:Hc; [|destruct (N.eqb_spec c QUOTE) as [->|Hq]].
    + specialize (Hws eq_refl). assert (Hb : forall l, begins [QUOTE; QUOTE] (c :: l) = false) by (intros; by rewrite begins_cons, (proj2 (N.eqb_neq QUOTE c)) by congruence).
      assert (Hb' : forall l, begins [QUOTE; QUOTE] (QUOTE :: c :: l) = false) by (intros; by rewrite !begins_cons, (proj2 (N.eqb_neq QUOTE c)), andb_false_r by congruence).
      destruct inside; cbn [app].
      * rewrite param_loop_toggle by done. cbn [negb]. rewrite param_loop_toggle by done. cbn [negb]. rewrite param_loop_plain by auto. exact It.
      * rewrite param_loop_toggle by done. cbn [negb]. rewrite param_loop_plain by auto. exact It.
    + destruct inside; cbn [app]; rewrite param_loop_literal; [exact It|exact If].
    + destruct inside; cbn [app].
      * rewrite param_loop_toggle by (by rewrite begins_cons, (proj2 (N.eqb_neq QUOTE c)) by congruence). cbn [negb]. rewrite param_loop_plain by auto. exact If.
      * rewrite param_loop_plain by auto. exact If.
Qed.

Lemma param_loop_value v after : ends after -> param_loop false [] 0 (quoted v ++ after) = (v, after).
Proof.
  intros He. destruct v as [|c v]; [|apply (param_loop_quoted after He (c :: v) [] false)].
  cbn [quoted app]. rewrite param_loop_toggle by (by rewrite begins_cons, (ends_no_quotes [] after He), andb_false_r). cbn [negb].
  rewrite param_loop_toggle by (by apply ends_no_quotes). by apply param_loop_end.
Qed.

Lemma quoted_start v after : exists c l, quoted v ++ after = c :: l /\ is_ascii_whitespace c = false.
Proof.
  destruct v as [|c v]; [by exists QUOTE, (QUOTE :: after)|]. cbn [quoted flat_map]. unfold quote_char at 1. destruct (is_ascii_whitespace c) eqn:Hc; [by eexists _, _|].
  destruct (c =? QUOTE); by eexists _, _.
Qed.

(** ** A line read switch by switch *)

Definition at_line (s : list N) : LineTokens := {| lt_rest := s; lt_after_eq := None; lt_argv := false |}.

(** Reading the rest of a line from here ends in [r]. *)
Definition reach (after : list N) (plan : EsPlan) (pending : Pending) (r : result EsFatal Command) : Prop :=
  ends after /\ exists fuel, parse_loop fuel (at_line after) plan pending = Some r.

(** A switch, with its value. *)
Definition ask (name : string) (value : option (list N)) : list N :=
  [SPACE; DASH] ++ str name ++ match value with Some v => SPACE :: quoted v | None => [] end.

Definition plain_name (name : string) : bool := forallb (fun c => plain c && negb (c =? EQUALS)) (str name).

Lemma no_equals w : forallb (fun c => plain c && negb (c =? EQUALS)) w = true -> split_once [EQUALS] w = None /\ forallb plain w = true.
Proof.
  induction w as [|c w IH]; [done|]. cbn [forallb]. intros [[Hp Hc%negb_true_iff]%andb_true_iff [E Hw]%IH]%andb_true_iff.
  rewrite split_once_cons, N.eqb_sym, Hc, E, Hp, Hw. done.
Qed.

Lemma next_switch name after : plain_name name = true -> ends after ->
  line_next_token (at_line ([SPACE; DASH] ++ str name ++ after)) = (Ok (Some (DASH :: str name)), at_line after).
Proof.
  intros Hn He. unfold line_next_token, at_line. cbn [lt_rest lt_after_eq lt_argv].
  change (skip_space ([SPACE; DASH] ++ str name ++ after)) with ((DASH :: str name) ++ after). change (starts_dash ((DASH :: str name) ++ after)) with true.
  destruct (no_equals (DASH :: str name)) as [Es Ep]; [cbn [forallb]; unfold plain_name in Hn; by rewrite Hn|].
  rewrite (token_loop_word false true after He (DASH :: str name) [] Ep), Es. done.
Qed.

(** The program's name. *)
Lemma next_program after : ends after -> line_next_token (at_line (str "goz" ++ after)) = (Ok (Some (str "goz")), at_line after).
Proof.
  intros He. unfold line_next_token, at_line. cbn [lt_rest lt_after_eq lt_argv]. change (skip_space (str "goz" ++ after)) with (str "goz" ++ after).
  change (starts_dash (str "goz" ++ after)) with false. by rewrite (token_loop_word false false after He (str "goz") []).
Qed.

Lemma next_value v after : ends after -> line_next_param (at_line (SPACE :: quoted v ++ after)) = (Some v, at_line after).
Proof.
  intros He. unfold line_next_param, at_line. cbn [lt_rest lt_after_eq lt_argv]. destruct (quoted_start v after) as (c & l & E & Hc).
  assert (Es : skip_space (SPACE :: quoted v ++ after) = c :: l) by (rewrite E; unfold skip_space; cbn [drop_while]; by rewrite Hc).
  pose proof (param_loop_value v after He) as Hp. rewrite E in Hp. by rewrite Es, Hp.
Qed.

Definition ends_parse (a : SwitchAction) : bool := match a with AHelp _ | AVersion => true | _ => false end.

(** One turn of the parser at a switch. *)
Lemma parse_switch fuel t t' token a plan pending : next_token t = (Ok (Some token), t') -> classify token = Ok (TSwitch a) -> ends_parse a = false ->
  parse_loop (T := LineTokens) (S fuel) t plan pending
  = match apply_switch a token t' plan pending with Err e => Some (Err e) | Ok (t', plan, pending) => parse_loop fuel t' plan pending end.
Proof. intros E1 E2 E3. cbn [parse_loop]. rewrite E1, E2. by destruct a. Qed.

(** A switch without a value, and one with its value. *)
Lemma reach_flag name a plan pending plan' pending' after r : plain_name name = true -> classify (DASH :: str name) = Ok (TSwitch a) -> ends_parse a = false ->
  apply_switch a (DASH :: str name) (at_line after) plan pending = Ok (at_line after, plan', pending') ->
  reach after plan' pending' r -> reach (ask name None ++ after) plan pending r.
Proof.
  intros Hn Hc Ha Happ [He [fuel Hf]]. split; [done|]. exists (S fuel). unfold ask. rewrite app_nil_r, <- app_assoc.
  rewrite (parse_switch fuel _ (at_line after) (DASH :: str name) a); [|by apply next_switch|done|done]. by rewrite Happ.
Qed.

Lemma reach_value name a v plan pending plan' pending' after r : plain_name name = true -> classify (DASH :: str name) = Ok (TSwitch a) -> ends_parse a = false ->
  (forall t, next_param t = (Some v, at_line after) -> apply_switch a (DASH :: str name) t plan pending = Ok (at_line after, plan', pending')) ->
  reach after plan' pending' r -> reach (ask name (Some v) ++ after) plan pending r.
Proof.
  intros Hn Hc Ha Happ [He [fuel Hf]]. split; [done|]. exists (S fuel). unfold ask. rewrite <- !app_assoc.
  rewrite (parse_switch fuel _ (at_line (SPACE :: quoted v ++ after)) (DASH :: str name) a); [|by apply next_switch|done|done].
  rewrite Happ; [done|]. by apply next_value.
Qed.

(** The switches of a plan. *)
Definition if_set {A} (f : A -> list N) (o : option A) : list N := match o with Some x => f x | None => [] end.
Definition if_on (name : string) (on : bool) : list N := if on then ask name None else [].

Definition export_name (f : OutputFormat) : string :=
  match f with OCsv => "csv" | OTsv => "tsv" | OEfu => "efu" | OTxt => "txt" | OM3u => "m3u" | OM3u8 => "m3u8" | OJson => "json" end.
Definition column_name (c : EsColumn) : string := match c with ColSize => "size" | ColDateModified => "dm" end.
Definition sort_name (s : SortSpec) : string :=
  "sort-" +:+ match key s with Name => "name" | Path => "path" | Size => "size" | DateModified => "dm" end +:+ match dir s with Asc => "-ascending" | Desc => "-descending" end.

Definition ask_format (p : EsPlan) : list N :=
  match pl_format p, pl_export_file p with
  | Some f, Some file => ask ("export-" +:+ export_name f) (Some file)
  | Some f, None => ask (export_name f) None
  | None, _ => []
  end.
Definition ask_quotes (p : EsPlan) : list N :=
  if negb (pl_double_quote p) then ask "no-double-quote" None else if pl_text_double_quote p then ask "double-quote" None else [].
Definition ask_query (q : list N) : list N := match q with [] => [] | _ => ask "q" (Some q) end.

(** A command line that asks for a plan. *)
Definition command_line_of (p : EsPlan) : list N :=
  str "goz" ++ if_set (fun v => ask "path" (Some v)) (pl_scope p) ++ if_set (fun n => ask "n" (Some (dec n))) (pl_limit p) ++ ask "o" (Some (dec (pl_offset p))) ++
  flat_map (fun c => ask (column_name c) None) (pl_columns p) ++ ask (sort_name (pl_sort p)) None ++ ask_format p ++
  if_set (fun b : bool => ask (if b then "utf8-bom" else "no-utf8-bom") None) (pl_bom p) ++ if_set (fun b : bool => ask (if b then "header" else "no-header") None) (pl_header p) ++
  ask_quotes p ++ if_on "case" (pl_match_case p) ++ if_on "-json" (pl_json p) ++ if_on "get-result-count" (pl_result_count p) ++
  if_on "get-total-size" (pl_total_size p) ++ if_on "no-result-error" (pl_no_result_error p) ++ if_on "-status" (pl_status p) ++
  if_on "-server-version" (pl_server_version p) ++ if_on "-insecure-no-server-check" (pl_insecure_no_server_check p) ++ ask_query (pl_query p).

(** *** Each switch sets its field *)

Ltac flag := eapply reach_flag; [vm_compute; reflexivity|vm_compute; reflexivity|done|reflexivity|].
Ltac value := eapply reach_value; [vm_compute; reflexivity|vm_compute; reflexivity|done|
  intros t Ht; cbn [apply_switch]; unfold take_count, take_param; rewrite Ht; cbn [result_bind]; reflexivity|].
(** A field that has its value already. *)
Ltac unset p := destruct p; cbn in *; by subst.

Lemma put_scope o p d after r : pl_scope p = None -> reach after (set_scope o p) d r -> reach (if_set (fun v => ask "path" (Some v)) o ++ after) p d r.
Proof. destruct o as [v|]; intros Hp Hr; cbn [if_set]; [by value|unset p]. Qed.

Lemma parse_count_dec n : n <= u32_max -> parse_count (dec n) = Some n.
Proof.
  intros Hn. destruct (dec_spec n) as (Hne & Hd & Hv); [unfold u32_max, u64_max in *; lia|]. unfold parse_count.
  assert (Hx : forall x, is_ascii_digit x = false -> strip_prefix [0x30; x] (dec n) = None).
  { intros x Hx. destruct (dec n) as [|a [|b l]]; [done| |]; cbn [strip_prefix]; destruct (0x30 =? a); try done. apply Forall_cons in Hd as [_ [Hb _]%Forall_cons].
    destruct (N.eqb_spec x b); [congruence|done]. }
  change (str "0x") with [0x30; 0x78]. change (str "0X") with [0x30; 0x58]. rewrite (Hx 0x78), (Hx 0x58) by done. unfold parse_u32, parse_unsigned. destruct (dec n) as [|a l] eqn:E; [done|]. apply Forall_cons in Hd as [Ha _].
  destruct (N.eqb_spec a 0x2B) as [->|_]; [done|]. unfold parse_digits. rewrite Hv. cbn [mbind option_bind]. by rewrite (proj2 (N.leb_le _ _) Hn).
Qed.

(** A count as a switch reads it. *)
Lemma take_count_dec (t : LineTokens) token n t' : n <= u32_max -> next_param t = (Some (dec n), t') -> take_count t token = Ok (n, t').
Proof. intros Hn E. unfold take_count, take_param. rewrite E. cbn [result_bind]. by rewrite parse_count_dec. Qed.

Lemma put_limit o p d after r : pl_limit p = None -> (forall n, o = Some n -> n <= u32_max) -> reach after (set_limit o p) d r ->
  reach (if_set (fun n => ask "n" (Some (dec n))) o ++ after) p d r.
Proof.
  destruct o as [n|]; intros Hp Hn Hr; cbn [if_set]; [|unset p]. eapply reach_value; [vm_compute; reflexivity|vm_compute; reflexivity|done| |exact Hr].
  intros t Ht. cbn [apply_switch]. by rewrite (take_count_dec _ _ _ _ (Hn n eq_refl) Ht).
Qed.

Lemma put_offset n p d after r : n <= u32_max -> reach after (set_offset n p) d r -> reach (ask "o" (Some (dec n)) ++ after) p d r.
Proof.
  intros Hn Hr. eapply reach_value; [vm_compute; reflexivity|vm_compute; reflexivity|done| |exact Hr].
  intros t Ht. cbn [apply_switch]. by rewrite (take_count_dec _ _ _ _ Hn Ht).
Qed.

Lemma put_columns cs : forall p d after r, NoDup (pl_columns p ++ cs) -> reach after (set_columns (pl_columns p ++ cs) p) d r ->
  reach (flat_map (fun c => ask (column_name c) None) cs ++ after) p d r.
Proof.
  induction cs as [|c cs IH]; intros p d after r Hn Hr; cbn [flat_map app]; [rewrite app_nil_r in Hr; unset p|]. rewrite <- app_assoc.
  assert (Hc : filter (fun e => e <> c) (pl_columns p) = pl_columns p).
  { apply NoDup_app in Hn as (_ & Hd & _). assert (Hne : forall e, e ∈ pl_columns p -> e <> c) by (intros e He ->; apply (Hd c He); by left).
    clear -Hne. induction (pl_columns p) as [|e l IHl]; [done|]. rewrite filter_cons_True by (apply Hne; by left). f_equal. apply IHl. intros x Hx. apply Hne. by right. }
  assert (Hr' : reach (flat_map (fun c => ask (column_name c) None) cs ++ after) (set_columns (pl_columns p ++ [c]) p) d r).
  { apply IH; cbn [pl_columns set_columns]; rewrite <- app_assoc; [exact Hn|exact Hr]. }
  rewrite <- Hc in Hr'. destruct c; by flag.
Qed.

Lemma put_sort s p d after r : reach after p (set_sort_key (key s) (Some (dir s)) d) r -> reach (ask (sort_name s) None ++ after) p d r.
Proof. destruct s as [[] []]; intros Hr; by flag. Qed.

Lemma put_format q p d after r : pl_format p = None -> pl_export_file p = None -> (is_Some (pl_export_file q) -> is_Some (pl_format q)) ->
  reach after (set_format (pl_format q) (set_export_file (pl_export_file q) p)) d r -> reach (ask_format q ++ after) p d r.
Proof.
  intros H1 H2 Hq. unfold ask_format. destruct (pl_format q) as [f|], (pl_export_file q) as [file|]; intros Hr.
  - destruct f; by value.
  - assert (E : set_format (Some f) (set_export_file None p) = set_format (Some f) p) by unset p. rewrite E in Hr. destruct f; by flag.
  - by destruct Hq.
  - unset p.
Qed.

Lemma put_bom o p d after r : pl_bom p = None -> reach after (set_bom o p) d r ->
  reach (if_set (fun b : bool => ask (if b then "utf8-bom" else "no-utf8-bom") None) o ++ after) p d r.
Proof. destruct o as [[]|]; intros Hp Hr; cbn [if_set]; [by flag|by flag|unset p]. Qed.

Lemma put_header o p d after r : pl_header p = None -> reach after (set_header o p) d r ->
  reach (if_set (fun b : bool => ask (if b then "header" else "no-header") None) o ++ after) p d r.
Proof. destruct o as [[]|]; intros Hp Hr; cbn [if_set]; [by flag|by flag|unset p]. Qed.

Lemma put_quotes q p d after r : pl_double_quote p = true -> pl_text_double_quote p = false -> (pl_double_quote q = false -> pl_text_double_quote q = false) ->
  reach after (set_text_double_quote (pl_text_double_quote q) (set_double_quote (pl_double_quote q) p)) d r -> reach (ask_quotes q ++ after) p d r.
Proof.
  intros H1 H2 Hq. unfold ask_quotes. destruct (pl_double_quote q); cbn [negb]; intros Hr; [destruct (pl_text_double_quote q); [by flag|unset p]|].
  rewrite Hq in Hr by done. by flag.
Qed.

(** Switches that turn something on. *)
Lemma put_on name a (set : bool -> EsPlan -> EsPlan) (get : EsPlan -> bool) (on : bool) p d after r :
  plain_name name = true -> classify (DASH :: str name) = Ok (TSwitch a) -> ends_parse a = false ->
  (forall p d (t : LineTokens), apply_switch a (DASH :: str name) t p d = Ok (t, set true p, d)) -> (forall p, get p = false -> set false p = p) ->
  get p = false -> reach after (set on p) d r -> reach (if_on name on ++ after) p d r.
Proof.
  intros H1 H2 H3 H4 H5 Hp Hr. destruct on; cbn [if_on]; [|by rewrite H5 in Hr]. eapply reach_flag; [done..| |exact Hr]. by rewrite H4.
Qed.
Ltac on get := eapply (put_on _ _ _ get); [vm_compute; reflexivity|vm_compute; reflexivity|done|reflexivity|intros []; cbn; by intros ->|reflexivity|].

Lemma put_query q p d after r : terms d = [] -> reach after p {| terms := match q with [] => [] | _ => [q] end; filters := filters d; match_path := match_path d;
    sort_key := sort_key d; sort_dir := sort_dir d |} r -> reach (ask_query q ++ after) p d r.
Proof. destruct q as [|c q]; intros Hd Hr; cbn [ask_query]; [unset d|]. value. unfold push_term. by rewrite Hd. Qed.

(** C5: every plan can be asked for.  For every plan that can be carried out
    ([plan_ok], what the parser returns), the command line that
    names each of its fields is read back to that plan: paths and search text with
    spaces, quotes, backslashes and leading dashes, counts, columns in order, sort
    key and direction, formats and their files, and every option. *)
Theorem plan_round_trip p : plan_ok p -> parse_command_line (command_line_of p) = Some (Ok (Run p)).
Proof.
  intros Hok. assert (Hr : reach (drop 3 (command_line_of p)) plan_default pending_default (Ok (Run p))).
  { unfold command_line_of. change (drop 3 (str "goz" ++ ?l)) with l. destruct Hok as [H1 H2 H3 H4 H5].
    apply put_scope; [done|]. apply put_limit; [done|exact H1|]. apply put_offset; [done|]. apply put_columns; [done|]. apply put_sort.
    apply put_format; [done|done|done|]. apply put_bom; [done|]. apply put_header; [done|]. apply put_quotes; [done|done|done|].
    on pl_match_case. on pl_json. on pl_result_count. on pl_total_size. on pl_no_result_error. on pl_status. on pl_server_version. on pl_insecure_no_server_check.
    rewrite <- (app_nil_r (ask_query _)). apply put_query; [done|]. split; [done|]. exists 1%nat. cbn [parse_loop]. cbn [next_token]. 
    do 3 f_equal. destruct p as [q ? ? ? ? [k dd]]. unfold finish. cbn. f_equal. by destruct q. }
  destruct Hr as [He [fuel Hf]]. unfold parse_command_line. set (line := drop 3 (command_line_of p)) in *.
  assert (Eg : next_token {| lt_rest := command_line_of p; lt_after_eq := None; lt_argv := false |} = (Ok (Some (str "goz")), at_line line)).
  { by apply (next_program line). }
  rewrite Eg. destruct (parse_loop_total (length (command_line_of p) + 2) (at_line line) plan_default pending_default) as (r & E & _);
    [|apply plan_default_ok|unfold parse_tokens; rewrite (parse_loop_same _ _ _ _ _ _ _ Hf E); exact E].
  cbn [left_of line_tokens_ok]. unfold line_left, at_line, line. cbn [lt_rest]. rewrite length_drop. lia.
Qed.

(** *** A plan with a path, a phrase and a file *)

Definition sample_plan : EsPlan :=
  set_query ([QUOTE] ++ str "annual report" ++ [QUOTE; SPACE] ++ str "-x")
    (set_scope (Some (str "C:\my dir\")) (set_limit (Some 4294967295) (set_columns [ColDateModified; ColSize]
      (set_export_file (Some (str "out -n.csv")) (set_format (Some OTsv) (set_double_quote false (set_json true plan_default))))))).

Lemma plan_round_trip_witness : parse_command_line (command_line_of sample_plan) = Some (Ok (Run sample_plan)).
Proof.
  apply (plan_round_trip sample_plan). split; simpl; [intros n [= <-]; done|unfold u32_max; lia| |intros _; by eexists|done].
  apply NoDup_cons. split; [rewrite list_elem_of_singleton; discriminate|apply NoDup_singleton].
Defined.
