(* ===== verification/ArgvSame.v ===== *)
(** Reading a line and reading the arguments it was split into agree, as long as
    there are no quotes, and the one case where they do not. *)

From stdpp Require Import gmap.
From stdpp Require Import base option list sets strings.
From Stdlib Require Import NArith ZArith Lia.
From S2P Require Import Prelude Types Wtf8 Text Output.
From S2P Require Import EsSwitches Argv ArgvRead ArgvPlan.
Open Scope N_scope.
Open Scope list_scope.

(** An argument that needs no quotes. *)
Definition word (w : list N) : Prop := w <> [] /\ forallb plain w = true.

(** A word that gives a value, after an equals sign, to a switch that takes the
    rest of the line. *)
Definition rest_value (name w : list N) : Prop :=
  starts_dash w = true /\ (exists value, split_once [EQUALS] w = Some (name, value)) /\ classify name = Ok (TSwitch ASearchRest).

(** The arguments on a line. *)
Definition spaced (args : list (list N)) : list N := flat_map (cons SPACE) args.

Record same (a : ArgTokens) (l : LineTokens) : Prop := {
  sm_words : Forall word (at_args a);
  sm_line : match at_after_eq a, lt_after_eq l with
            | None, None => lt_rest l = spaced (at_args a)
            | Some (name, value), Some name' => name' = name /\ forallb plain value = true /\ lt_rest l = value ++ spaced (at_args a)
            | _, _ => False
            end
}.

Lemma spaced_ends args : ends (spaced args).
Proof. by destruct args. Qed.

Lemma skip_word w after : word w -> skip_space (SPACE :: w ++ after) = w ++ after.
Proof.
  intros [Hne Hw]. destruct w as [|c w]; [done|]. cbn [forallb] in Hw. apply andb_true_iff in Hw as [[Hs%negb_true_iff _]%andb_true_iff _].
  unfold skip_space. cbn [drop_while app]. by rewrite Hs.
Qed.

Lemma split_plain w name value : forallb plain w = true -> split_once [EQUALS] w = Some (name, value) -> forallb plain value = true.
Proof. intros Hw ->%split_once_Some. rewrite !forallb_app in Hw. by apply andb_true_iff in Hw as [_ [_ ?]%andb_true_iff]. Qed.

Lemma param_loop_word after : ends after -> forall w p, forallb plain w = true -> param_loop false p 0 (w ++ after) = (p ++ w, after).
Proof.
  intros He. induction w as [|c w IH]; intros p Hw; [rewrite app_nil_r; by apply param_loop_end|].
  cbn [forallb] in Hw. apply andb_true_iff in Hw as [[Hs%negb_true_iff Hq%negb_true_iff%N.eqb_neq]%andb_true_iff Hw]. cbn [app].
  rewrite param_loop_plain by auto. rewrite IH by done. by rewrite <- app_assoc.
Qed.

Lemma same_rest a l : same a l -> at_after_eq a = None -> join SPACE (at_args a) = skip_space (lt_rest l).
Proof.
  intros [Hw Hl] E. rewrite E in Hl. destruct (lt_after_eq l); [done|]. rewrite Hl. clear -Hw. destruct (at_args a) as [|w args]; [done|].
  apply Forall_cons in Hw as [Hw Hs]. change (spaced (w :: args)) with (SPACE :: w ++ spaced args). rewrite (skip_word w (spaced args) Hw). clear Hw. revert w.
  induction args as [|w' args IH]; intros w; [cbn; by rewrite app_nil_r|]. apply Forall_cons in Hs as [_ Hs].
  rewrite (join_cons SPACE w (w' :: args)) by done. by rewrite IH.
Qed.

(** The next token. *)
Lemma same_token a l : same a l -> match arg_next_token a, line_next_token l with
  | (Err e, _), (Err e', _) => e = e'
  | (Ok x, a'), (Ok x', l') => x = x' /\ same a' l' /\ at_args a' ⊆ at_args a /\
      (forall token, x = Some token -> classify token = Ok (TSwitch ASearchRest) -> at_after_eq a' = None \/
        exists w value, w ∈ at_args a /\ rest_value token w /\ at_after_eq a' = Some (token, value))
  | _, _ => False
  end.
Proof.
  intros [Hw Hl]. unfold arg_next_token, line_next_token. destruct (at_after_eq a) as [[n v]|] eqn:Ea, (lt_after_eq l) as [n'|] eqn:El; try done; [by destruct Hl as [-> _]|].
  rewrite Hl. destruct (at_args a) as [|w args] eqn:Eargs; [split; [done|]; split; [split; cbn; rewrite ?Eargs, ?Ea; done|]; split; [cbn; by rewrite Eargs|done]|].
  apply Forall_cons in Hw as [Hw Hws].
  change (spaced (w :: args)) with (SPACE :: w ++ spaced args). rewrite (skip_word w _ Hw). destruct Hw as [Hne Hp].
  assert (Ed : starts_dash (w ++ spaced args) = starts_dash w) by (by destruct w). rewrite Ed.
  rewrite (token_loop_word (lt_argv l) (starts_dash w) _ (spaced_ends args) w [] Hp). cbn [app].
  destruct (if starts_dash w then split_once [EQUALS] w else None) as [[name value]|] eqn:Es.
  - destruct (starts_dash w) eqn:Esd; [|done].
    assert (Hgoal : Some name = Some name /\ same {| at_args := args; at_after_eq := Some (name, value) |} {| lt_rest := value ++ spaced args; lt_after_eq := Some name; lt_argv := lt_argv l |} /\
      args ⊆ w :: args /\
      (forall token, Some name = Some token -> classify token = Ok (TSwitch ASearchRest) -> Some (name, value) = None \/
         exists w' value', w' ∈ w :: args /\ rest_value token w' /\ Some (name, value) = Some (token, value'))).
    { split; [done|]. split; [split; [done|]; cbn; split; [done|]; split; [by eapply split_plain|done]|]. split; [by apply list_subseteq_cons|]. intros token [= <-] Hc.
      right. exists w, value. split; [left|]. split; [|done]. split; [done|]. split; [by exists value|done]. }
    destruct name; exact Hgoal.
  - destruct w as [|c w]; [done|]. split; [done|]. split; [by split|]. split; [by apply list_subseteq_cons|auto].
Qed.

(** The next value. *)
Lemma same_param a l : same a l ->
  (arg_next_param a).1 = (line_next_param l).1 /\ same (arg_next_param a).2 (line_next_param l).2 /\ at_args (arg_next_param a).2 ⊆ at_args a.
Proof.
  intros [Hw Hl]. unfold arg_next_param, line_next_param. destruct (at_after_eq a) as [[n v]|] eqn:Ea, (lt_after_eq l) as [n'|] eqn:El; try done.
  - destruct Hl as (-> & Hv & ->). rewrite (param_loop_word _ (spaced_ends _) v [] Hv). split; [done|]. split; [by split|done].
  - rewrite Hl. destruct (at_args a) as [|w args] eqn:Eargs; [split; [done|]; split; [split; cbn; rewrite ?Eargs, ?Ea; done|cbn; by rewrite Eargs]|].
    apply Forall_cons in Hw as [Hw Hws]. change (spaced (w :: args)) with (SPACE :: w ++ spaced args). rewrite (skip_word w _ Hw).
    destruct Hw as [Hne Hp]. pose proof (param_loop_word _ (spaced_ends args) w [] Hp) as E. destruct w as [|c w]; [done|]. cbn [app] in *. rewrite E. split; [done|]. split; [by split|by apply list_subseteq_cons].
Qed.

(** Readers that stay in step give the same results. *)
Definition in_step {A} (a0 : ArgTokens) (r : result EsFatal (A * ArgTokens)) (r' : result EsFatal (A * LineTokens)) : Prop :=
  match r, r' with Ok (x, a), Ok (x', l) => x = x' /\ same a l /\ at_args a ⊆ at_args a0 | Err e, Err e' => e = e' | _, _ => False end.

Lemma same_take_param a l token : same a l -> in_step a (take_param a token) (take_param l token).
Proof.
  intros Hs. destruct (same_param a l Hs) as (E1 & E2 & E3). unfold take_param. cbn [next_param arg_tokens line_tokens].
  destruct (arg_next_param a) as [o a'], (line_next_param l) as [o' l']. cbn in E1, E2, E3. subst o'. by destruct o.
Qed.
Lemma same_take_count a l token : same a l -> in_step a (take_count a token) (take_count l token).
Proof.
  intros Hs. pose proof (same_take_param a l token Hs) as Hp. unfold take_count. destruct (take_param a token) as [[v a']|e], (take_param l token) as [[v' l']|e']; try done.
  destruct Hp as [<- Hs']. cbn [result_bind]. by destruct (parse_count v).
Qed.

Definition same_state (a0 : ArgTokens) (r : result EsFatal (ArgTokens * EsPlan * Pending)) (r' : result EsFatal (LineTokens * EsPlan * Pending)) : Prop :=
  match r, r' with Ok (a, p, d), Ok (l, p', d') => same a l /\ p = p' /\ d = d' /\ at_args a ⊆ at_args a0 | Err e, Err e' => e = e' | _, _ => False end.

Lemma same_apply act token a l plan pending : same a l -> (act = ASearchRest -> at_after_eq a = None) ->
  same_state a (apply_switch act token a plan pending) (apply_switch act token l plan pending).
Proof.
  intros Hs Hrest. pose proof (same_take_param a l token Hs) as Hp. pose proof (same_take_count a l token Hs) as Hc.
  destruct act; cbn [apply_switch]; try (by split_and!).
  all: try (destruct (take_count a token) as [[n a']|e], (take_count l token) as [[n' l']|e']; try done; destruct Hc as (<- & ? & ?); by split_and!).
  all: try (destruct (take_param a token) as [[v a']|e], (take_param l token) as [[v' l']|e']; try done; destruct Hp as (<- & ? & ?); by split_and!).
  - destruct (take_param a token) as [[v a']|e], (take_param l token) as [[v' l']|e']; try done. destruct Hp as (<- & ? & ?). cbn [result_bind].
    by destruct (parse_sort_param v) as [[k d]|].
  - specialize (Hrest eq_refl). pose proof (same_rest a l Hs Hrest) as E. cbn [rest arg_tokens line_tokens]. unfold arg_rest, line_rest. rewrite E.
    split; [split; cbn; rewrite ?Hrest; done|]. split; [done|]. split; [done|]. by intros x ?%elem_of_nil.
  - split; [|done]. destruct Hs as [H1 H2]. by split.
Qed.

Lemma same_terms fuel : forall a l pending, same a l -> match terms_loop fuel a pending, terms_loop fuel l pending with
  | Some (Ok (a', d)), Some (Ok (l', d')) => same a' l' /\ d = d' /\ at_args a' ⊆ at_args a
  | Some (Err e), Some (Err e') => e = e'
  | None, None => True
  | _, _ => False
  end.
Proof.
  induction fuel as [|fuel IH]; intros a l pending Hs; [done|]. cbn [terms_loop next_token arg_tokens line_tokens]. pose proof (same_token a l Hs) as Ht.
  destruct (arg_next_token a) as [[x|e] a'], (line_next_token l) as [[x'|e'] l']; try done. destruct Ht as (<- & Hs' & Hsub & _). destruct x as [x|]; [|done].
  specialize (IH a' l' (push_term x pending) Hs'). destruct (terms_loop fuel a' _) as [[[a'' d]|e]|], (terms_loop fuel l' _) as [[[l'' d']|e']|]; try done.
  destruct IH as (? & ? & ?). split_and!; [done..|by etrans].
Qed.

(** The two readers part only there: the arguments are refused, the line is
    read as search text. *)
Definition part_at (args : list (list N)) (r r' : option (result EsFatal Command)) : Prop :=
  exists name w p, w ∈ args /\ rest_value name w /\ r = Some (Err (unknown_switch (name ++ [EQUALS]))) /\ r' = Some (Ok (Run p)).

Lemma part_at_sub args args' r r' : args ⊆ args' -> part_at args r r' -> part_at args' r r'.
Proof. intros Hs (name & w & p & Hw & Hrest). exists name, w, p. split; [by apply Hs|done]. Qed.

Lemma same_parse fuel : forall a l plan pending, same a l ->
  parse_loop fuel a plan pending = parse_loop fuel l plan pending \/ part_at (at_args a) (parse_loop fuel a plan pending) (parse_loop fuel l plan pending).
Proof.
  induction fuel as [|fuel IH]; intros a l plan pending Hs; [by left|]. cbn [parse_loop next_token arg_tokens line_tokens]. pose proof (same_token a l Hs) as Ht.
  destruct (arg_next_token a) as [[x|e] a'], (line_next_token l) as [[x'|e'] l']; try done; [|left; by subst]. destruct Ht as (<- & Hs' & Hsub & Hr). destruct x as [x|]; [|by left].
  assert (Hgo : forall a1 l1 p d, same a1 l1 -> at_args a1 ⊆ at_args a' ->
    parse_loop fuel a1 p d = parse_loop fuel l1 p d \/ part_at (at_args a) (parse_loop fuel a1 p d) (parse_loop fuel l1 p d)).
  { intros a1 l1 p d Hs1 Hsub1. destruct (IH a1 l1 p d Hs1) as [?|Hp]; [by left|right]. eapply part_at_sub; [|exact Hp]. by etrans. }
  destruct (classify x) as [[| |act]|e] eqn:Ec; [by apply Hgo| | |by left].
  - pose proof (same_terms fuel a' l' pending Hs') as Hterms. destruct (terms_loop fuel a' pending) as [[[a'' d]|e]|], (terms_loop fuel l' pending) as [[[l'' d']|e']|]; try done.
    + destruct Hterms as (Hs'' & <- & Hsub'). by apply Hgo.
    + left. by subst.
    + by left.
  - destruct (decide (act = ASearchRest)) as [-> |Hact].
    + destruct (Hr x eq_refl Ec) as [Hn|(w & value & Hw & Hv & Ea)].
      * pose proof (same_apply ASearchRest x a' l' plan pending Hs' (fun _ => Hn)) as Happ.
        destruct (apply_switch _ _ a' _ _) as [[[a'' p] d]|e], (apply_switch _ _ l' _ _) as [[[l'' p'] d']|e']; try done; [|left; cbn in Happ; by subst].
        destruct Happ as (Hs'' & <- & <- & Hsub'). by apply Hgo.
      * cbn [apply_switch rest arg_tokens line_tokens]. unfold arg_rest, line_rest. rewrite Ea. destruct fuel as [|fuel]; [by left|]. right.
        exists x, w. eexists. split; [done|]. split; [done|]. split; reflexivity.
    + assert (Happ : same_state a' (apply_switch act x a' plan pending) (apply_switch act x l' plan pending)) by (by apply same_apply).
      destruct (apply_switch act x a' plan pending) as [[[a'' p] d]|e], (apply_switch act x l' plan pending) as [[[l'' p'] d']|e']; try done.
      * destruct Happ as (Hs'' & <- & <- & Hsub'). destruct act; try (by left); by apply Hgo.
      * simpl in Happ. subst. by left.
Qed.

(** C6: splitting a command line first changes nothing unless quotes are
    involved, but for one case: for arguments without spaces and quotes, reading
    the line they make gives what reading them one by one gives, the same plan or
    the same error, whatever switches, values after equals signs and search text
    they hold; or one of the arguments gives a value to a switch that takes the
    whole rest of the line ([-q*=x]), and then the arguments are refused for that
    value while the line is carried out. *)
Theorem line_is_argv args : Forall word args ->
  let line := parse_command_line (str "goz" ++ spaced args) in
  line = parse_argv args \/
  exists name w plan, w ∈ args /\ rest_value name w /\ parse_argv args = Some (Err (unknown_switch (name ++ [EQUALS]))) /\ line = Some (Ok (Run plan)).
Proof.
  intros Hw. set (a := {| at_args := args; at_after_eq := None |}). assert (Hs : same a (at_line (spaced args))) by (by split).
  destruct (parse_loop_total (length args + 2) a plan_default pending_default) as (r & E & _); [cbn; unfold args_left; cbn; lia|apply plan_default_ok|].
  unfold parse_argv, parse_tokens. fold a. rewrite E. unfold parse_command_line.
  assert (Eg : next_token {| lt_rest := str "goz" ++ spaced args; lt_after_eq := None; lt_argv := false |} = (Ok (Some (str "goz")), at_line (spaced args))) by (by apply next_program, spaced_ends).
  rewrite Eg. set (f := (length (str "goz" ++ spaced args) + 2)%nat).
  destruct (parse_loop_total f (at_line (spaced args)) plan_default pending_default) as (r' & E' & _); [|apply plan_default_ok|].
  { cbn [left_of line_tokens_ok]. unfold line_left, at_line, f. cbn [lt_rest]. rewrite length_app. lia. }
  unfold parse_tokens. change {| lt_rest := _; lt_after_eq := None; lt_argv := _ |} with (at_line (spaced args)). cbn zeta. rewrite E'.
  destruct (same_parse f a (at_line (spaced args)) plan_default pending_default Hs) as [Hp|(name & w & p & Hin & Hv & Ha & Hl)].
  - left. rewrite E' in Hp. by rewrite (parse_loop_same _ _ _ _ _ _ _ Hp E).
  - right. exists name, w, p. split; [done|]. split; [done|]. rewrite E' in Hl. split; [|done]. by rewrite (parse_loop_same _ _ _ _ _ _ _ Ha E).
Qed.

Lemma line_is_argv_witness : parse_command_line (str "goz -n=5 report -size") = parse_argv [str "-n=5"; str "report"; str "-size"].
Proof.
  change (str "goz -n=5 report -size") with (str "goz" ++ spaced [str "-n=5"; str "report"; str "-size"]).
  destruct (line_is_argv [str "-n=5"; str "report"; str "-size"]) as [E|(name & w & p & _ & _ & E & _)]; [repeat constructor; discriminate|exact E|].
  vm_compute in E. discriminate E.
Defined.

(** ** Where the readers do not do what is said of them *)

(** Two dashes do not end the switches for a token with an equals sign: it is
    split there, and refused for the value no switch took. *)
Example text_after_two_dashes_refused :
  parse_argv [str "--"; str "-x=1"] = Some (Err (unknown_switch (str "-x="))) /\ parse_command_line (str "goz -- -x=1") = Some (Err (unknown_switch (str "-x="))).
Proof. by vm_compute. Qed.

(** The one case where the readers part: a value after a switch that takes the
    rest of the line is refused in arguments and is search text on a line. *)
Example rest_takes_a_value :
  parse_argv [str "-q*=x"] = Some (Err (unknown_switch (str "-q*="))) /\
  (exists p, parse_command_line (str "goz -q*=x") = Some (Ok (Run p)) /\ pl_query p = str "x").
Proof. split; [by vm_compute|]. eexists. by vm_compute. Qed.
