(* ===== verification/Client.v ===== *)
(** The command-line client: replies read frame by frame under a deadline of
    silence, from [crates/goz-cli/src/reply.rs] and [client.rs], and what a plan
    makes of them, from [main.rs].

    The pipe, the clock, the files, the time zone and the locale are interfaces.
    Times are milliseconds.  Messages to stderr are left out; exit codes are not.
    Loops have fuel, [None] when it runs out. *)

From stdpp Require Import gmap.
From stdpp Require Import base option list sets strings.
From Stdlib Require Import NArith ZArith Lia.
From S2P Require Import Prelude Types Wtf8 Text Frame Binary Proto Output.
From S2P Require Import EsSwitches Argv.
Open Scope N_scope.
Open Scope list_scope.

(** ** The outside *)

(** [trait PipeIo], and the write end of the pipe. *)
Class PipeIo (S : Type) := {
  IoError : Type;
  available : S -> result IoError N * S;
  pipe_read : N -> S -> result IoError (list N) * S;
  pipe_now : S -> N;
  pipe_pause : N -> S -> S;
  pipe_send : list N -> S -> bool * S
}.

(** An open file or stdout: [write_all] and [flush]. *)
Inductive WriteError := BrokenPipe | OtherWrite.
Class Sink (W : Type) := {
  write_all : list N -> W -> result WriteError unit * W;
  flush : W -> result WriteError unit * W
}.

(** ** Replies *)

Definition READ_DEADLINE : N := 30000.
Definition POLL_INTERVAL : N := 5.
(** The read buffer. *)
Definition READ_BUF : N := 256 * 1024.

Section replies.
Context {J : SerdeJson} {S : Type} `{!PipeIo S}.

Inductive Malformation := BadFrame (e : FrameError) | BadResponse (e : RespFrameError) | Unexpected.
Inductive ReplyError :=
| Silent
| Closed
| ReadFailed (e : IoError)
| Malformed (why : Malformation)
| Refused (message : list N).

Fixpoint next_loop (fuel : nat) (deadline : N) (d : FrameDecoder) (io : S) : option (result ReplyError Response * FrameDecoder * S) :=
  match fuel with
  | O => None
  | Datatypes.S fuel =>
      '(r, d) ← next_frame d;
      match r with
      | Ok (Some frame) =>
          r ← decode_response_frame frame;
          Some (match r with Ok resp => Ok resp | Err e => Err (Malformed (BadResponse e)) end, d, io)
      | Err e => Some (Err (Malformed (BadFrame e)), d, io)
      | Ok None =>
          match available io with
          | (Err _, io) => Some (Err Closed, d, io)
          | (Ok waiting, io) =>
              if waiting =? 0 then
                if deadline <? pipe_now io then Some (Err Silent, d, io)
                else next_loop fuel deadline d (pipe_pause POLL_INTERVAL io)
              else
                match pipe_read READ_BUF io with
                | (Err e, io) => Some (Err (ReadFailed e), d, io)
                | (Ok [], io) => Some (Err Closed, d, io)
                | (Ok bs, io) => next_loop fuel (pipe_now io + READ_DEADLINE) (feed bs d) io
                end
          end
      end
  end.

(** [Replies::next]. *)
Definition next_reply (fuel : nat) (d : FrameDecoder) (io : S) : option (result ReplyError Response * FrameDecoder * S) :=
  next_loop fuel (pipe_now io + READ_DEADLINE) d io.

Section pages.
Context {P E : Type} (from : ReplyError -> E) (page : QueryResults -> P -> S -> result E unit * P * S).

(** [Replies::query]: [fuel] bounds the frames and the polls of each. *)
Fixpoint query_replies (fuel : nat) (d : FrameDecoder) (p : P) (io : S) : option (result E unit * P * S) :=
  match fuel with
  | O => None
  | Datatypes.S fuel =>
      '(r, d, io) ← next_reply fuel d io;
      match r with
      | Err e => Some (Err (from e), p, io)
      | Ok (Results results) =>
          let '(r, p, io) := page results p io in
          match r with
          | Err e => Some (Err e, p, io)
          | Ok _ => if more results then query_replies fuel d p io else Some (Ok tt, p, io)
          end
      | Ok (Error _ message) => Some (Err (from (Refused message)), p, io)
      | Ok _ => Some (Err (from (Malformed Unexpected)), p, io)
      end
  end.
End pages.

(** ** The client *)

Inductive ClientError := Unreachable | NotTrusted | ProtocolFailed | QueryRefused (message : list N).

(** [From<ReplyError>]. *)
Definition client_error (e : ReplyError) : ClientError := match e with Refused m => QueryRefused m | _ => ProtocolFailed end.

(** [Client::request]: the decoder is new with the connection. *)
Definition request (fuel : nat) (req : Request) (io : S) : option (result ClientError Response * S) :=
  out ← encode_request req [];
  let '(sent, io) := pipe_send out io in
  if negb sent then Some (Err ProtocolFailed, io)
  else
    '(r, _, io) ← next_reply fuel (new MAX_SERVER_FRAME) io;
    Some (match r with Ok resp => Ok resp | Err e => Err (client_error e) end, io).

(** [Client::query]. *)
Definition client_query {P E} (from : ClientError -> E) (page : QueryResults -> P -> S -> result E unit * P * S)
    (fuel : nat) (q : QueryRequest) (p : P) (io : S) : option (result E unit * P * S) :=
  out ← encode_request (RQuery q) [];
  let '(sent, io) := pipe_send out io in
  if negb sent then Some (Err (from ProtocolFailed), p, io)
  else query_replies (fun e => from (client_error e)) page fuel (new MAX_SERVER_FRAME) p io.
End replies.

(** ** What a plan asks of the daemon *)

Definition build_query (absolutize : list N -> list N) (plan : EsPlan) : QueryRequest :=
  let number := pl_result_count plan || pl_total_size plan in
  {| qr_query := pl_query plan;
     qr_scope := absolutize <$> pl_scope plan;
     qr_sort := if number then sort_spec_default else pl_sort plan;
     qr_offset := if number then 0 else pl_offset plan;
     qr_limit := if number then Some 0 else pl_limit plan;
     qr_want_size := true;
     qr_want_mtime := true;
     qr_match_case := pl_match_case plan;
     qr_want_total_size := pl_total_size plan && negb (pl_result_count plan) |}.

(** [output_format]; [locale] is the user's thousands separator and grouping. *)
Definition output_format (locale : option (list N) * option (list N)) (plan : EsPlan) : Format :=
  let bom := wants_bom plan in
  let header := wants_header plan in
  let list kind := FList {| l_kind := kind; l_bom := bom; l_header := header; l_quote := pl_text_double_quote plan; l_columns := pl_columns plan |} in
  let csv separator dq := FCsv {| csv_separator := separator; csv_bom := bom; csv_header := header; double_quote := dq; csv_columns := pl_columns plan |} in
  match pl_format plan with
  | Some OCsv => csv 0x2C (pl_double_quote plan)
  | Some OTsv => csv 0x09 (pl_text_double_quote plan)
  | Some OEfu => list KEfu
  | Some OTxt => list KTxt
  | Some OM3u | Some OM3u8 => FList {| l_kind := KTxt; l_bom := bom; l_header := false; l_quote := pl_text_double_quote plan; l_columns := [] |}
  | Some OJson => list KJson
  | None =>
      if pl_json plan then FJson ((fun n => N.min (n + pl_offset plan) u32_max) <$> pl_limit plan)
      else FPlain {| p_columns := pl_columns plan;
                     p_grouping := if bool_decide (ColSize ∈ pl_columns plan) then from_locale locale.1 locale.2 else es_default;
                     p_quote := pl_text_double_quote plan |}
  end.

(** ** Running a plan *)

Definition output_failed (e : WriteError) : Exit := match e with BrokenPipe => Success | OtherWrite => WriteFailed end.

Definition request_failed (e : ClientError) : Exit :=
  match e with ProtocolFailed => Protocol | QueryRefused _ => BadParam | Unreachable => NotRunning | NotTrusted => Untrusted end.

Inductive StreamStop := StopClient (e : ClientError) | StopOutput (e : WriteError).

Section run.
Context {J : SerdeJson} {Sj : Serde} {S : Type} `{!PipeIo S} {W : Type} `{!Sink W}.
(** [std::path::absolute], the time zone, the locale, and how long a page's
    output takes. *)
Context (absolutize : list N -> list N) (format_date_local : Z -> list N) (locale : option (list N) * option (list N)) (busy : QueryResults -> S -> S).

(** [print]. *)
Definition print (text : list N) (out : W) : Exit * W :=
  match write_all text out with
  | (Err e, out) => (output_failed e, out)
  | (Ok _, out) => match flush out with (Err e, out) => (output_failed e, out) | (Ok _, out) => (Success, out) end
  end.

(** The date of a row: only a format that shows it resolves the time zone. *)
Definition stream_date (plan : EsPlan) (ft : Z) : list N :=
  let want := match output_format locale plan with FCsv _ | FPlain _ => bool_decide (ColDateModified ∈ pl_columns plan) | _ => false end in
  if want then format_date_local ft else [].

(** What the pages have left: the writer, the sink and the total. *)
Record Streaming := { st_writer : State; st_out : W; st_total : N; st_panicked : bool }.

(** The closure of [stream] over a page.  A writer that fails is a panic. *)
Definition stream_page (plan : EsPlan) (r : QueryResults) (p : Streaming) (io : S) : result StreamStop unit * Streaming * S :=
  match writer_page (stream_date plan) (st_writer p) r with
  | None => (Ok tt, {| st_writer := st_writer p; st_out := st_out p; st_total := Binary.total r; st_panicked := true |}, io)
  | Some (buf, w) =>
      match write_all buf (st_out p) with
      | (Err e, out) => (Err (StopOutput e), {| st_writer := w; st_out := out; st_total := Binary.total r; st_panicked := st_panicked p |}, io)
      | (Ok _, out) => (Ok tt, {| st_writer := w; st_out := out; st_total := Binary.total r; st_panicked := st_panicked p |}, busy r io)
      end
  end.

(** [stream], into the file or stdout [out]. *)
Definition stream (fuel : nat) (plan : EsPlan) (q : QueryRequest) (out : W) (io : S) : option (Exit * W) :=
  let start := {| st_writer := writer_new (output_format locale plan); st_out := out; st_total := 0; st_panicked := false |} in
  '(r, p, _) ← client_query StopClient (stream_page plan) fuel q start io;
  if st_panicked p then None
  else
    match r with
    | Err (StopOutput e) => Some (output_failed e, st_out p)
    | Err (StopClient e) => let '(_, out) := flush (st_out p) in Some (request_failed e, out)
    | Ok _ =>
        match write_all (writer_finish (st_writer p)) (st_out p) with
        | (Err e, out) => Some (output_failed e, out)
        | (Ok _, out) =>
            match flush out with
            | (Err e, out) => Some (output_failed e, out)
            | (Ok _, out) => Some (if pl_no_result_error plan && (st_total p =? 0) then NoResults else Success, out)
            end
        end
    end.

(** [number_only]: on stdout, or in the export file. *)
Definition number_only (plan : EsPlan) (number : N) (file : option W) (stdout : W) : result Exit Exit * option W * W :=
  match file with
  | None => let '(code, stdout) := print (dec number ++ [0x0A]) stdout in (Ok code, None, stdout)
  | Some file =>
      match write_all ((if wants_bom plan then BOM else []) ++ dec number ++ [0x0D; 0x0A]) file with
      | (Err e, file) => (Err (output_failed e), Some file, stdout)
      | (Ok _, file) => (Ok Success, Some file, stdout)
      end
  end.

(** The first page of a count's or a size's reply. *)
Definition keep_first (r : QueryResults) (head : option QueryResults) (io : S) : result ClientError unit * option QueryResults * S :=
  (Ok tt, match head with Some h => Some h | None => Some r end, io).

(** [and_then]: the number was written; does nothing matching fail? *)
Definition unless_none (no_results : bool) (r : result Exit Exit * option W * W) : Exit * option W * W :=
  let '(code, file, stdout) := r in
  (match code with Err e => e | Ok c => if no_results then NoResults else c end, file, stdout).

(** [run] once connected, for a search: the exit code, the export file and
    stdout.  [None] is a panic or a reply without end. *)
Definition run_search (fuel : nat) (plan : EsPlan) (file : option W) (stdout : W) (io : S) : option (Exit * option W * W) :=
  let q := build_query absolutize plan in
  if negb (pl_result_count plan) && negb (pl_total_size plan) then
    match file with
    | Some f => '(code, f) ← stream fuel plan q f io; Some (code, Some f, stdout)
    | None => '(code, stdout) ← stream fuel plan q stdout io; Some (code, None, stdout)
    end
  else
    '(r, head, _) ← client_query id keep_first fuel q None io;
    match r with
    | Err e => Some (request_failed e, file, stdout)
    | Ok _ =>
        results ← head;
        let no_results := pl_no_result_error plan && (Binary.total results =? 0) in
        if pl_result_count plan then Some (unless_none no_results (number_only plan (Binary.total results) file stdout))
        else match Binary.total_size results with
             | None => Some (Protocol, file, stdout)
             | Some size => Some (unless_none no_results (number_only plan size file stdout))
             end
    end.

(** [server_version]: the daemon's name and version. *)
Definition server_version (fuel : nat) (version : list N) (stdout : W) (io : S) : option (Exit * W) :=
  '(r, _) ← request fuel (RHello PROTO_VERSION PROTO_VERSION version) io;
  Some (match r with
        | Ok (Hello _ server _) => print (server ++ [0x0A]) stdout
        | Ok _ => (Protocol, stdout)
        | Err e => (request_failed e, stdout)
        end).

(** [status]; [render] writes the report. *)
Definition status (fuel : nat) (render : DaemonStatus -> list N) (stdout : W) (io : S) : option (Exit * W) :=
  '(r, _) ← request fuel RStatus io;
  Some (match r with
        | Ok (Status s) => print (render s) stdout
        | Ok _ => (Protocol, stdout)
        | Err e => (request_failed e, stdout)
        end).

(** [run]: the export file is created before anything else. *)
Definition run (fuel : nat) (version : list N) (render : DaemonStatus -> list N) (create : list N -> option W) (connect : bool -> result ClientError S)
    (plan : EsPlan) (stdout : W) : option (Exit * option W * W) :=
  let go file :=
    match connect (pl_insecure_no_server_check plan) with
    | Err e => Some (request_failed e, file, stdout)
    | Ok io =>
        if pl_server_version plan then '(code, stdout) ← server_version fuel version stdout io; Some (code, file, stdout)
        else if pl_status plan then '(code, stdout) ← status fuel render stdout io; Some (code, file, stdout)
        else run_search fuel plan file stdout io
    end in
  match pl_export_file plan with
  | Some path => match create path with Some f => go (Some f) | None => Some (WriteFailed, None, stdout) end
  | None => go None
  end.
End run.
