(* ===== verification/ClientRead.v ===== *)
(** Whatever the pipe does with the bytes of a reply, as long as it is never
    silent for the deadline, the client gets every page of it, in order. *)

From stdpp Require Import gmap.
From stdpp Require Import base option list sets strings.
From Stdlib Require Import NArith ZArith Lia.
From S2P Require Import Prelude Types Wtf8 Text Frame Binary Proto Output.
From S2P Require Import EsSwitches Argv Client.
Open Scope N_scope.
Open Scope list_scope.

(** ** A pipe and a clock *)

(** The pieces a pipe will deliver, each with the time it is there to read. *)
Record Wire := { w_now : N; w_arrivals : list (N * list N); w_sent : list N }.

Definition arrived (w : Wire) : N := match w_arrivals w with (t, bs) :: _ => if t <=? w_now w then len bs else 0 | [] => 0 end.

(** A read takes what the buffer holds of the first piece. *)
Definition wire_read (cap : N) (w : Wire) : result unit (list N) * Wire :=
  match w_arrivals w with
  | (t, bs) :: l =>
      if t <=? w_now w then
        (Ok (take (N.to_nat cap) bs),
         {| w_now := w_now w; w_arrivals := if len bs <=? cap then l else (t, drop (N.to_nat cap) bs) :: l; w_sent := w_sent w |})
      else (Ok [], w)
  | [] => (Ok [], w)
  end.

#[export] Instance wire_io : PipeIo Wire := {|
  IoError := unit;
  available w := (Ok (arrived w), w);
  pipe_read := wire_read;
  pipe_now := w_now;
  pipe_pause d w := {| w_now := w_now w + d; w_arrivals := w_arrivals w; w_sent := w_sent w |};
  pipe_send bs w := (true, {| w_now := w_now w; w_arrivals := w_arrivals w; w_sent := w_sent w ++ bs |})
|}.

(** What is still to come. *)
Definition coming (w : Wire) : list N := concat (w_arrivals w).*2.

(** Never silent for the deadline after [since]: each piece has a byte, and comes
    in time after the one before. *)
Fixpoint in_time (since : N) (l : list (N * list N)) : Prop :=
  match l with
  | [] => True
  | (t, bs) :: l => bs <> [] /\ t <= since + READ_DEADLINE /\ in_time (N.max since t) l
  end.

(** The time of the last piece. *)
Definition last_time (w : Wire) : N := foldr N.max 0 (w_arrivals w).*1.

(** Turns that are enough: one a byte, one a tick. *)
Definition turns (w : Wire) : nat := N.to_nat (last_time w - w_now w) + length (coming w).

Lemma in_time_later since since' l : since <= since' -> in_time since l -> in_time since' l.
Proof.
  revert since since'. induction l as [|[t bs] l IH]; intros since since' Hle; [done|]. cbn [in_time]. intros (Hb & Ht & Hl). split; [done|]. split; [lia|].
  apply (IH (N.max since t)); [lia|done].
Qed.

Section reading.
Context {J : SerdeJson}.

(** The decoder and the wire hold the stream [s] between them. *)
Record holds (s : list N) (since : N) (d : FrameDecoder) (w : Wire) : Prop := {
  hd_ok : decoder_ok d;
  hd_clean : poisoned d = None;
  hd_max : max_frame d = MAX_SERVER_FRAME;
  hd_bytes : unconsumed d ++ coming w = s;
  hd_since : since <= w_now w;
  hd_time : in_time since (w_arrivals w)
}.

(** A poll of an empty pipe. *)
Lemma holds_pause s since d w : holds s since d w -> holds s since d (pipe_pause POLL_INTERVAL w).
Proof. intros [H1 H2 H3 H4 H5 H6]. split; try done. simpl. lia. Qed.

(** A read of what is there. *)
Lemma holds_read s since d w t bs l : holds s since d w -> w_arrivals w = (t, bs) :: l -> t <= w_now w -> bs <> [] ->
  exists bs' w', wire_read READ_BUF w = (Ok bs', w') /\ bs' <> [] /\ w_now w' = w_now w /\ holds s (w_now w) (feed bs' d) w' /\ (turns w' < turns w)%nat.
Proof.
  intros [H1 H2 H3 H4 H5 H6] E Ht Hb. unfold wire_read. rewrite E, (proj2 (N.leb_le _ _) Ht). eexists _, _. split; [done|].
  assert (Hne : take (N.to_nat READ_BUF) bs <> []) by (by destruct bs). split; [done|]. split; [done|].
  rewrite E in H6. destruct H6 as (_ & _ & H6). assert (H6' : in_time (w_now w) l) by (eapply in_time_later; [|exact H6]; lia).
  unfold coming in H4. rewrite E in H4. cbn [fmap list_fmap snd concat] in H4.
  assert (Hpos : (0 < length (take (N.to_nat READ_BUF) bs))%nat) by (destruct (take (N.to_nat READ_BUF) bs); [done|simpl; lia]).
  unfold turns, coming, last_time. cbn [w_now w_arrivals]. rewrite E. destruct (N.leb_spec (len bs) READ_BUF) as [Hle|Hgt].
  - rewrite take_ge in * by (unfold len in Hle; lia). split.
    + split; [by apply decoder_ok_feed|done|done| |done|exact H6']. rewrite unconsumed_feed, <- app_assoc by done. exact H4.
    + cbn [fmap list_fmap fst snd concat foldr]. rewrite length_app. lia.
  - split.
    + split; [by apply decoder_ok_feed|done|done| |done|].
      * rewrite unconsumed_feed, <- app_assoc by done. unfold coming. cbn [w_arrivals fmap list_fmap snd concat]. rewrite (app_assoc (take _ _)), take_drop. exact H4.
      * cbn [w_arrivals in_time]. split; [|split; [lia|eapply in_time_later; [|exact H6']; lia]].
        intros Ed. apply (f_equal length) in Ed. rewrite length_drop in Ed. unfold len in Hgt. simpl in Ed. lia.
    + cbn [fmap list_fmap fst snd concat foldr]. rewrite !length_app, length_drop. rewrite length_take in Hpos. lia.
Qed.

(** One frame of the stream. *)
Lemma next_loop_frame p resp s : payload_ok MAX_SERVER_FRAME p -> decode_response_frame p = Some (Ok resp) ->
  forall fuel deadline d w since, holds (frame_bytes p ++ s) since d w -> since + READ_DEADLINE <= deadline -> (turns w < fuel)%nat ->
  exists d' w' since', next_loop fuel deadline d w = Some (Ok resp, d', w') /\ holds s since' d' w' /\ (turns w' <= turns w)%nat.
Proof.
  intros Hp Hdec. induction fuel as [|fuel IH]; intros deadline d w since Hh Hd Hf; [lia|]. cbn [next_loop].
  pose proof Hh as [H1 H2 H3 H4 H5 H6]. pose proof (next_frame_refines d H1 H2) as Hn. apply wp_run in Hn as (r & d' & -> & Hok' & Hm' & Hr). cbn [mbind option_bind].
  rewrite H3 in Hm', Hr. destruct (N.le_gt_cases (len (frame_bytes p)) (len (unconsumed d))) as [Hle|Hgt].
  - destruct (app_split_long _ _ _ _ H4 Hle) as (u & Eu & Es). rewrite Eu, (stream_next_frame _ _ _ (proj1 Hp) (proj2 Hp)) in Hr. destruct Hr as (-> & Eu' & Hc').
    rewrite Hdec. cbn [mbind option_bind]. exists d', w, since. split; [done|]. split; [|done]. split; [done|done|done| |done|done]. by rewrite Eu'.
  - rewrite (stream_next_partial _ _ _ _ _ Hp H4 Hgt) in Hr. destruct Hr as (-> & ->). cbn [available wire_io].
    destruct (w_arrivals w) as [|[t bs] l] eqn:Ea.
    { exfalso. unfold coming in H4. rewrite Ea in H4. cbn [fmap list_fmap concat] in H4. rewrite app_nil_r in H4. rewrite H4, len_app in Hgt. lia. }
    unfold arrived. rewrite Ea. destruct H6 as (Hb & Ht & _). destruct (N.leb_spec t (w_now w)) as [Htn|Htn].
    + assert (Hbl : 0 < len bs) by (destruct bs; [done|rewrite len_cons; lia]). rewrite (proj2 (N.eqb_neq _ _)) by lia. cbn [pipe_read wire_io].
      destruct (holds_read _ since d w t bs l Hh Ea Htn Hb) as (bs' & w' & -> & Hne & Hnow & Hh' & Hturns). destruct bs' as [|b bs']; [done|]. cbn [pipe_now wire_io].
      destruct (IH (w_now w' + READ_DEADLINE) (feed (b :: bs') d) w' (w_now w)) as (d2 & w2 & since2 & -> & Hh2 & Ht2); [done|lia|lia|].
      exists d2, w2, since2. split; [done|]. split; [done|lia].
    + change (0 =? 0) with true. cbn [pipe_now wire_io]. rewrite (proj2 (N.ltb_ge deadline (w_now w))) by lia.
      assert (Hturns : (turns (pipe_pause POLL_INTERVAL w) < turns w)%nat).
      { unfold turns, last_time, coming. cbn [pipe_pause wire_io w_now w_arrivals]. rewrite Ea. cbn [fmap list_fmap fst foldr]. unfold POLL_INTERVAL. lia. }
      destruct (IH deadline d (pipe_pause POLL_INTERVAL w) since) as (d2 & w2 & since2 & E2 & Hh2 & Ht2); [by apply holds_pause|done|lia|].
      exists d2, w2, since2. split; [exact E2|]. split; [done|lia].
Qed.

Lemma next_reply_frame p resp s fuel d w since : payload_ok MAX_SERVER_FRAME p -> decode_response_frame p = Some (Ok resp) ->
  holds (frame_bytes p ++ s) since d w -> (turns w < fuel)%nat ->
  exists d' w' since', next_reply fuel d w = Some (Ok resp, d', w') /\ holds s since' d' w' /\ (turns w' <= turns w)%nat.
Proof.
  intros Hp Hdec Hh Hf. unfold next_reply. eapply next_loop_frame; [done|done|exact Hh| |done]. cbn [pipe_now wire_io]. pose proof (hd_since _ _ _ _ Hh). lia.
Qed.

(** ** The pages of a reply *)

Section pages.
Context {P E : Type} (from : ReplyError -> E) (page : QueryResults -> P -> Wire -> result E unit * P * Wire) (f : QueryResults -> P -> P).

(** A page is taken, however long that takes. *)
Context (Hpage : forall r p w, exists w', page r p w = (Ok tt, f r p, w') /\ w_arrivals w' = w_arrivals w /\ w_now w <= w_now w').

Lemma query_replies_pages payloads results : Forall (payload_ok MAX_SERVER_FRAME) payloads ->
  Forall2 (fun p r => decode_response_frame p = Some (Ok (Results r))) payloads results -> more <$> results = replicate (pred (length results)) true ++ [false] ->
  forall fuel d w since p, holds (stream_of payloads) since d w -> (turns w + length results < fuel)%nat ->
  exists w', query_replies from page fuel d p w = Some (Ok tt, fold_left (fun p r => f r p) results p, w').
Proof.
  intros Hpay HF. revert Hpay. induction HF as [|payload r payloads results Hdec HF IH]; intros Hpay Hmore fuel d w since p Hh Hf; [done|].
  apply Forall_cons in Hpay as [Hp Hpay]. destruct fuel as [|fuel]; [lia|]. cbn [length] in Hf. cbn [query_replies].
  destruct (next_reply_frame payload (Results r) (stream_of payloads) fuel d w since Hp Hdec Hh ltac:(lia)) as (d' & w1 & since' & -> & Hh' & Ht').
  cbn [mbind option_bind]. destruct (Hpage r p w1) as (w2 & -> & Ea & Hnow). cbn [length pred] in Hmore. destruct results as [|r2 results].
  - cbn in Hmore. injection Hmore as Em. rewrite Em. eexists. done.
  - cbn [fmap list_fmap length replicate app] in Hmore. injection Hmore as Em Em2. rewrite Em.
    assert (Hh2 : holds (stream_of payloads) since' d' w2).
    { destruct Hh' as [G1 G2 G3 G4 G5 G6]. split; try done; unfold coming in *; rewrite ?Ea; [done|lia|done]. }
    assert (Ht2 : (turns w2 <= turns w1)%nat) by (unfold turns, last_time, coming; rewrite Ea; lia).
    destruct (IH Hpay ltac:(cbn; by f_equal) fuel d' w2 since' (f r p) Hh2) as (w3 & ->); [cbn [length] in *; lia|]. by exists w3.
Qed.

(** An answer that refuses the query. *)
Lemma query_replies_refused payload code m fuel d w since p : payload_ok MAX_SERVER_FRAME payload ->
  decode_response_frame payload = Some (Ok (Error code m)) -> holds (frame_bytes payload) since d w -> (turns w + 1 < fuel)%nat ->
  exists w', query_replies from page fuel d p w = Some (Err (from (Refused m)), p, w').
Proof.
  intros Hp Hdec Hh Hf. destruct fuel as [|fuel]; [lia|]. cbn [query_replies]. rewrite <- (app_nil_r (frame_bytes payload)) in Hh.
  destruct (next_reply_frame payload (Error code m) [] fuel d w since Hp Hdec Hh ltac:(lia)) as (d' & w1 & since' & -> & _). cbn [mbind option_bind]. by eexists.
Qed.
End pages.
End reading.
