(* ===== verification/Budget.v ===== *)
(** How long a search may run: [crates/goz-core/src/query/budget.rs].

    A [Budget] is shared by the threads of a search; what a check sees of the
    world (the cancel flag, the clock, and whether another thread has already
    marked the budget spent) is an environment, indexed by how many checks this
    thread has made.  A [Watch] is one thread's countdown between checks. *)

From stdpp Require Import base list option.
From Stdlib Require Import NArith Lia.
From S2P Require Import Prelude.

(** What the [n]-th check of a thread observes. *)
Class Env := {
  peer_spent : nat -> bool;
  cancel_flag : nat -> bool;
  now : nat -> N
}.

Record Budget := {
  deadline : option N;
  cancel : bool;
  spent : bool;
  checks : nat
}.

Definition unlimited : Budget := {| deadline := None; cancel := false; spent := false; checks := 0 |}.
Definition until (d : N) : Budget := {| deadline := Some d; cancel := true; spent := false; checks := 0 |}.

Definition ITEMS_PER_CHECK : N := 256.

Section budget.
Context {E : Env}.

(** [spent()]: the flag as this thread would load it now. *)
Definition is_spent (b : Budget) : bool := spent b || peer_spent (checks b).

(** What ends a budget, as the [n]-th check sees it. *)
Definition over (b : Budget) (n : nat) : bool :=
  (cancel b && cancel_flag n) || match deadline b with Some d => d <=? now n | None => false end.

Definition budget_check : ST Budget bool := fun b =>
  if is_spent b then Some (true, {| deadline := deadline b; cancel := cancel b; spent := true; checks := S (checks b) |})
  else
    let o := over b (checks b) in
    Some (o, {| deadline := deadline b; cancel := cancel b; spent := o; checks := S (checks b) |}).

(** ** The watch *)

Record Watch := { w_budget : Budget; left : N }.

Definition watch_new (b : Budget) : Watch := {| w_budget := b; left := 1 |}.

Definition watch_check : ST Watch bool := fun w =>
  match budget_check (w_budget w) with
  | None => None
  | Some (s, b) => Some (s, {| w_budget := b; left := if s then 1 else ITEMS_PER_CHECK |})
  end.

(** [tick]: [left -= 1] panics on zero. *)
Definition tick : ST Watch bool := fun w =>
  if left w =? 0 then None
  else
    let w := {| w_budget := w_budget w; left := left w - 1 |} in
    if left w =? 0 then watch_check w else Some (false, w).

(** Ticks until the first that answers [true], at most [n]: how many answered
    [false], and whether one answered [true]. *)
Fixpoint ticks (n : nat) : ST Watch (N * bool) :=
  match n with
  | O => st_ret (0, false)
  | S n =>
      s <- tick ;;
      if (s : bool) then st_ret (0, true)
      else r <- ticks n ;; st_ret (fst r + 1, snd r)
  end.

(** ** Properties *)

Definition watch_ok (w : Watch) : Prop := 1 <= left w <= ITEMS_PER_CHECK.

(** The budget ends at check [n]. *)
Definition ends_at (b : Budget) (n : nat) : Prop := peer_spent n = true \/ over b n = true.

(** A check answers what it sees, and keeps the answer [true]. *)
Lemma check_spec b :
  exists b', budget_check b = Some (spent b || peer_spent (checks b) || over b (checks b), b') /\
    deadline b' = deadline b /\ cancel b' = cancel b /\ checks b' = S (checks b) /\
    spent b' = spent b || peer_spent (checks b) || over b (checks b).
Proof.
  unfold budget_check, is_spent. destruct (spent b || peer_spent (checks b)) eqn:Es; simpl; eauto 10.
Qed.

Lemma wp_check b Q :
  (forall b', deadline b' = deadline b -> cancel b' = cancel b -> checks b' = S (checks b) ->
     spent b' = spent b || peer_spent (checks b) || over b (checks b) -> Q (spent b') b') ->
  wp budget_check Q b.
Proof.
  intros HQ. destruct (check_spec b) as (b' & E1 & E2 & E3 & E4 & E5). apply wp_run. exists (spent b'), b'.
  rewrite E5 at 1. auto.
Qed.

Lemma over_eq b b' n : deadline b' = deadline b -> cancel b' = cancel b -> over b' n = over b n.
Proof. unfold over. by intros -> ->. Qed.

(** A tick of a watch in order does not panic; it makes a check exactly when
    the countdown ends. *)
Lemma tick_spec w :
  watch_ok w ->
  exists w', watch_ok w' /\ deadline (w_budget w') = deadline (w_budget w) /\ cancel (w_budget w') = cancel (w_budget w) /\
    (if left w =? 1
     then let s := spent (w_budget w) || peer_spent (checks (w_budget w)) || over (w_budget w) (checks (w_budget w)) in
          tick w = Some (s, w') /\ checks (w_budget w') = S (checks (w_budget w)) /\ spent (w_budget w') = s /\
          left w' = (if s then 1 else ITEMS_PER_CHECK)
     else tick w = Some (false, w') /\ w_budget w' = w_budget w /\ left w' = left w - 1).
Proof.
  intros Hw. unfold watch_ok, ITEMS_PER_CHECK in *. unfold tick. rewrite (proj2 (N.eqb_neq (left w) 0)) by lia. simpl.
  destruct (N.eqb_spec (left w) 1) as [E1|E1].
  - rewrite E1. simpl. unfold watch_check. destruct (check_spec (w_budget w)) as (b' & C1 & C2 & C3 & C4 & C5). simpl. rewrite C1.
    eexists. split_and!; [| | | |reflexivity|..]; simpl; try done; by destruct (spent (w_budget w) || _ || _).
  - rewrite (proj2 (N.eqb_neq (left w - 1) 0)) by lia. eexists. split_and!; [| | | |reflexivity|..]; simpl; try done; lia.
Qed.

(** A computation that leaves a spent budget spent. *)
Definition keeps_spent {A} (m : ST Budget A) : Prop := forall b a b', m b = Some (a, b') -> spent b = true -> spent b' = true.

Lemma keeps_ret {A} (a : A) : keeps_spent (st_ret a).
Proof. by intros b a' b' [= <- <-]. Qed.
Lemma keeps_bind {A B} (m : ST Budget A) (f : A -> ST Budget B) : keeps_spent m -> (forall a, keeps_spent (f a)) -> keeps_spent (st_bind m f).
Proof. intros Hm Hf b a b' Eb. unfold st_bind in Eb. destruct (m b) as [[x b1]|] eqn:Em; [|done]. intros Hs. eapply Hf; [done|]. by eapply Hm. Qed.
Lemma keeps_check : keeps_spent budget_check.
Proof. intros b a b'. unfold budget_check, is_spent. intros Eb Hs. rewrite Hs in Eb. by simplify_eq/=. Qed.
Lemma keeps_fail {A} : keeps_spent (@st_fail Budget A).
Proof. done. Qed.

Lemma wp_keeps {A} (m : ST Budget A) Q b :
  keeps_spent m -> wp m Q b -> wp m (fun a b' => Q a b' /\ (spent b' = false -> spent b = false)) b.
Proof.
  unfold wp. intros Hk. destruct (m b) as [[a b']|] eqn:Em; [|done]. intros HQ. split; [done|].
  destruct (spent b) eqn:Es; [|done]. intros Eb. by rewrite (Hk _ _ _ Em Es) in Eb.
Qed.

(** Once a watch has heard that the budget is spent, every later item hears so. *)
Definition heard (w : Watch) : Prop := spent (w_budget w) = true /\ left w = 1.

Lemma heard_tick w : heard w -> exists w', tick w = Some (true, w') /\ heard w'.
Proof.
  intros [Hs Hl]. destruct (tick_spec w) as (w' & _ & _ & _ & Ht); [unfold watch_ok, ITEMS_PER_CHECK; lia|].
  rewrite Hl, Hs in Ht. simpl in Ht. destruct Ht as (Ht & _ & Hs' & Hl'). exists w'. by repeat split.
Qed.

Lemma ticks_notice w n :
  watch_ok w -> (forall k, (checks (w_budget w) <= k)%nat -> ends_at (w_budget w) k) -> (N.to_nat (left w) <= n)%nat ->
  exists w', ticks n w = Some ((left w - 1, true), w') /\ heard w'.
Proof.
  revert w. induction n as [|n IH]; intros w Hw Hend Hn; [unfold watch_ok in Hw; lia|]. simpl. unfold st_bind.
  destruct (tick_spec w Hw) as (w' & Hw' & D & C & Ht). destruct (N.eqb_spec (left w) 1) as [El|El].
  - destruct Ht as (-> & _ & Hs & Hl).
    replace (spent (w_budget w) || peer_spent (checks (w_budget w)) || over (w_budget w) (checks (w_budget w))) with true in *.
    + exists w'. split; [|by split]. unfold st_ret. do 3 f_equal. lia.
    + destruct (Hend (checks (w_budget w)) (Nat.le_refl _)) as [-> | ->]; by rewrite ?orb_true_r.
  - destruct Ht as (-> & Hb & Hl). destruct (IH w') as (w2 & E2 & H2).
    + done.
    + intros k. rewrite Hb. apply Hend.
    + lia.
    + rewrite E2. exists w2. split; [|done]. unfold st_ret. simpl. do 3 f_equal. unfold watch_ok in *. lia.
Qed.
End budget.

Create HintDb budget.
#[export] Hint Resolve keeps_ret keeps_bind keeps_check keeps_fail : budget.

(** C34: a search notices that its time is up: once the budget is over (another
    thread marked it, the caller cancelled, or the deadline has passed, as every
    later check sees), a watch that keeps counting items answers [true] at the
    latest on the 256th item, having panicked on none, and from then on every
    item hears so, for ever. *)
Theorem watch_notices_end `{Env} w :
  watch_ok w -> (forall k, (checks (w_budget w) <= k)%nat -> ends_at (w_budget w) k) ->
  exists n w', n < ITEMS_PER_CHECK /\ ticks 256 w = Some ((n, true), w') /\
    forall m, exists w'', st_map (fun _ => tick) (replicate m tt) w' = Some (replicate m true, w'').
Proof.
  intros Hw Hend. destruct (ticks_notice w 256 Hw Hend) as (w' & E & Hh); [unfold watch_ok, ITEMS_PER_CHECK in Hw; lia|].
  exists (left w - 1), w'. split; [unfold watch_ok in Hw; lia|]. split; [done|]. intros m.
  clear E. revert w' Hh. induction m as [|m IH]; intros w1 H1; [by exists w1|].
  destruct (heard_tick w1 H1) as (w2 & E2 & H2). destruct (IH w2 H2) as (w3 & E3). exists w3. simpl. unfold st_bind. by rewrite E2, E3.
Qed.

(** A budget cancelled from its first check on. *)
#[local] Instance cancelled : Env := {| peer_spent := fun _ => false; cancel_flag := fun _ => true; now := fun _ => 0 |}.

Lemma watch_notices_end_witness :
  exists n w', ticks 256 (watch_new (until 10)) = Some ((n, true), w').
Proof.
  destruct (watch_notices_end (watch_new (until 10))) as (n & w' & _ & E & _).
  - unfold watch_ok, ITEMS_PER_CHECK. simpl. lia.
  - intros k _. right. reflexivity.
  - exists n, w'. exact E.
Defined.

(** The other direction: an unlimited budget stops nothing. *)
Lemma unlimited_never_ends `{Env} b n :
  deadline b = None -> cancel b = false -> spent b = false -> (forall k, peer_spent k = false) ->
  exists b', budget_check b = Some (false, b') /\ deadline b' = None /\ cancel b' = false /\ spent b' = false /\ over b n = false.
Proof.
  intros Hd Hc Hs Hp. destruct (check_spec b) as (b' & E & E1 & E2 & _ & E4).
  assert (Ho : forall k, over b k = false) by (intros k; unfold over; by rewrite Hd, Hc).
  rewrite Hs, Hp, Ho in *. simpl in *. exists b'. split_and!; congruence.
Qed.
