(* ===== verification/Wildcard.v ===== *)
(** Wildcard patterns: [Wildcard] of [crates/goz-core/src/query/parse.rs].

    A pattern is compiled to tokens and matched against the code points of a
    whole name or path by a loop that backtracks to the last star, checking a
    [Budget] as the backtracks add up.  Indices into the pattern and the text
    are [nat]s. *)

From stdpp Require Import gmap.
From stdpp Require Import base option list sets.
From Stdlib Require Import NArith Lia.
From S2P Require Import Prelude Wtf8 Text Budget.

Inductive GlobTok := Lit (cp : N) | AnyOne | AnyRun.

#[export] Instance GlobTok_eq_dec : EqDecision GlobTok.
Proof. solve_decision. Defined.

Record Wildcard := {
  tokens : list GlobTok;
  min_len : nat;
  any_run : bool;
  check_mask : N
}.

Definition GLOB_STEPS_PER_CHECK : N := N.shiftl 1 16.
Definition GLOB_COSTLY_STEPS : N := N.shiftl 1 12.

(** [usize::next_power_of_two]. *)
Definition next_power_of_two (x : N) : N := 2 ^ N.log2_up x.

(** One turn of the loop of [compile]. *)
Definition compile_step (toks : list GlobTok) (cp : N) : list GlobTok :=
  if cp =? 0x2A then if bool_decide (last toks = Some AnyRun) then toks else toks ++ [AnyRun]
  else if cp =? 0x3F then toks ++ [AnyOne]
  else toks ++ [Lit cp].

Definition compile (pattern : list N) : Wildcard :=
  let tokens := fold_left compile_step (code_points pattern) [] in
  let runs := length (filter (fun t => t = AnyRun) tokens) in
  {| min_len := length tokens - runs;
     any_run := bool_decide (0 < runs)%nat;
     check_mask := next_power_of_two (GLOB_STEPS_PER_CHECK / (len tokens + 1)) - 1;
     tokens := tokens |}.

(** [while let Some(AnyRun) = pat.get(pi) { pi += 1 }] and the final test, on
    the tokens from [pi] on. *)
Fixpoint only_runs (pat : list GlobTok) : bool :=
  match pat with
  | AnyRun :: pat' => only_runs pat'
  | [] => true
  | _ => false
  end.

Section matching.
Context {E : Env}.

(** The main loop of [glob_match]: text index, pattern index and the last star
    with the text index it was tried at. *)
Fixpoint glob_loop (fuel : nat) (pat : list GlobTok) (mask : N) (text : list N) (ti pi : nat) (star : option (nat * nat))
  : ST Budget bool :=
  match fuel with
  | O => st_fail
  | S fuel =>
      match text !! ti with
      | None => st_ret (only_runs (drop pi pat))
      | Some c =>
          let mismatch :=
            match star with
            | Some (sp, st) =>
                let next := S st in
                stop <- (if N.land (N.of_nat next) mask =? 0 then budget_check else st_ret false) ;;
                if (stop : bool) then st_ret false
                else glob_loop fuel pat mask text next sp (Some (sp, next))
            | None => st_ret false
            end in
          match pat !! pi with
          | Some (Lit l) => if l =? c then glob_loop fuel pat mask text (S ti) (S pi) star else mismatch
          | Some AnyOne => glob_loop fuel pat mask text (S ti) (S pi) star
          | Some AnyRun =>
              if (S pi =? length pat)%nat then st_ret true
              else glob_loop fuel pat mask text ti (S pi) (Some (S pi, ti))
          | None => mismatch
          end
      end
  end.

(** A pass takes at most one step per token and a backtrack starts a pass. *)
Definition glob_fuel (pat : list GlobTok) (text : list N) : nat := (length text + 2) * (length pat + 2).

Definition glob_match (w : Wildcard) (text : list N) : ST Budget bool :=
  glob_loop (glob_fuel (tokens w) text) (tokens w) (check_mask w) text 0 0 None.

Definition matches_decoded (w : Wildcard) (text : list N) : ST Budget bool :=
  let fits := if any_run w then (min_len w <=? length text)%nat else (length text =? min_len w)%nat in
  if fits then
    let costly := GLOB_COSTLY_STEPS <=? N.of_nat ((length text - min_len w) * length (tokens w)) in
    stop <- (if costly then budget_check else st_ret false) ;;
    if (stop : bool) then st_ret false else glob_match w text
  else st_ret false.

(** [matches]: with an unlimited budget. *)
Definition matches (w : Wildcard) (name : list N) : option bool :=
  fst <$> matches_decoded w (code_points name) unlimited.
End matching.

(** ** Literals of a pattern *)

(** [encode_wtf8], as the bytes it pushes; the same bits as [wtf8.rs] writes. *)
Definition encode_wtf8 (cp : N) : list N :=
  if cp <? 0x80 then [as_u8 cp]
  else if cp <? 0x800 then
    [N.lor 0xC0 (as_u8 (N.shiftr cp 6)); N.lor 0x80 (as_u8 (N.land cp 0x3F))]
  else if cp <? 0x10000 then
    [N.lor 0xE0 (as_u8 (N.shiftr cp 12));
     N.lor 0x80 (as_u8 (N.land (N.shiftr cp 6) 0x3F));
     N.lor 0x80 (as_u8 (N.land cp 0x3F))]
  else
    [N.lor 0xF0 (as_u8 (N.shiftr cp 18));
     N.lor 0x80 (as_u8 (N.land (N.shiftr cp 12) 0x3F));
     N.lor 0x80 (as_u8 (N.land (N.shiftr cp 6) 0x3F));
     N.lor 0x80 (as_u8 (N.land cp 0x3F))].

(** The loop of [longest_literal]. *)
Fixpoint longest_loop (toks : list GlobTok) (best run : list N) : list N :=
  match toks with
  | [] => if (length best <? length run)%nat then run else best
  | Lit cp :: toks' => longest_loop toks' best (run ++ encode_wtf8 cp)
  | _ :: toks' => longest_loop toks' (if (length best <? length run)%nat then run else best) []
  end.

Definition longest_literal (w : Wildcard) : option (list N) :=
  match longest_loop (tokens w) [] [] with [] => None | b => Some b end.

(** The loop of [separator_free_literals]. *)
Fixpoint free_loop (toks : list GlobTok) (runs : list (list N)) (run : list N) : list (list N) :=
  match toks with
  | [] => match run with [] => runs | _ => runs ++ [run] end
  | tok :: toks' =>
      let brk := match run with [] => free_loop toks' runs [] | _ => free_loop toks' (runs ++ [run]) [] end in
      match tok with
      | Lit cp => if cp =? 0x5C then brk else free_loop toks' runs (run ++ encode_wtf8 cp)
      | _ => brk
      end
  end.

Definition separator_free_literals (w : Wildcard) : list (list N) := free_loop (tokens w) [] [].

Fixpoint leading_loop (toks : list GlobTok) : list N :=
  match toks with
  | Lit cp :: toks' => encode_wtf8 cp ++ leading_loop toks'
  | _ => []
  end.
Definition leading_literal (w : Wildcard) : list N := leading_loop (tokens w).

(** [rposition]: the index of the last token that is not a literal. *)
Fixpoint rposition (toks : list GlobTok) : option nat :=
  match toks with
  | [] => None
  | t :: toks' =>
      match rposition toks' with
      | Some i => Some (S i)
      | None => match t with Lit _ => None | _ => Some 0%nat end
      end
  end.

Definition lit_bytes (t : GlobTok) : list N := match t with Lit cp => encode_wtf8 cp | _ => [] end.

Definition trailing_literal (w : Wildcard) : list N :=
  let start := match rposition (tokens w) with Some i => S i | None => 0%nat end in
  flat_map lit_bytes (drop start (tokens w)).

(** ** What a pattern means *)

(** A text matches a token list. *)
Inductive glob : list GlobTok -> list N -> Prop :=
  | glob_nil : glob [] []
  | glob_lit c p t : glob p t -> glob (Lit c :: p) (c :: t)
  | glob_one c p t : glob p t -> glob (AnyOne :: p) (c :: t)
  | glob_run s p t : glob p t -> glob (AnyRun :: p) (s ++ t).

(** A text matches the code points of a pattern as written. *)
Inductive glob_text : list N -> list N -> Prop :=
  | gt_nil : glob_text [] []
  | gt_star s p t : glob_text p t -> glob_text (0x2A :: p) (s ++ t)
  | gt_one c p t : glob_text p t -> glob_text (0x3F :: p) (c :: t)
  | gt_lit c p t : c <> 0x2A -> c <> 0x3F -> glob_text p t -> glob_text (c :: p) (c :: t).

(** ** The matcher *)

Lemma glob_nil_inv t : glob [] t -> t = [].
Proof. by inversion 1. Qed.
Lemma glob_lit_inv c p t : glob (Lit c :: p) t -> exists t', t = c :: t' /\ glob p t'.
Proof. inversion 1; eauto. Qed.
Lemma glob_one_inv p t : glob (AnyOne :: p) t -> exists c t', t = c :: t' /\ glob p t'.
Proof. inversion 1; eauto. Qed.
Lemma glob_run_inv p t : glob (AnyRun :: p) t -> exists s t', t = s ++ t' /\ glob p t'.
Proof. inversion 1; eauto. Qed.

Lemma only_runs_glob p : only_runs p = true <-> glob p [].
Proof.
  induction p as [|[c| |] p IH]; simpl; split; intros Hp; try done.
  - constructor.
  - by apply glob_lit_inv in Hp as (? & ? & _).
  - by apply glob_one_inv in Hp as (? & ? & ? & _).
  - apply (glob_run []). by apply IH.
  - apply glob_run_inv in Hp as (s & t & Et & Hp). symmetry in Et. apply app_nil in Et as [-> ->]. by apply IH.
Qed.

Section correctness.
Context {E : Env} (pat : list GlobTok) (mask : N) (text : list N).

(** The rest of the pattern matches the rest of the text. *)
Definition rest (pi ti : nat) : Prop := glob (drop pi pat) (drop ti text).

Definition no_run (sp pi : nat) : Prop :=
  forall j, (sp <= j < pi)%nat -> exists t, pat !! j = Some t /\ t <> AnyRun.

Lemma rest_step pi ti t :
  pat !! pi = Some t -> t <> AnyRun ->
  rest pi ti <-> exists c, text !! ti = Some c /\ (t = Lit c \/ t = AnyOne) /\ rest (S pi) (S ti).
Proof.
  intros Hp Ht. unfold rest. rewrite (drop_S _ _ _ Hp). split.
  - intros Hg. assert (exists c t', drop ti text = c :: t' /\ (t = Lit c \/ t = AnyOne) /\ glob (drop (S pi) pat) t') as (c & t' & Hd & Hk & Hg').
    { destruct t as [l| |]; [|apply glob_one_inv in Hg as (c & u & E1 & E2); eauto 6|done].
      apply glob_lit_inv in Hg as (u & E1 & E2). eauto 6. }
    assert (Hc : text !! ti = Some c) by (rewrite <- (Nat.add_0_r ti), <- lookup_drop, Hd; done).
    exists c. split_and!; [done|done|]. rewrite (drop_S _ _ _ Hc) in Hd. by injection Hd as <-.
  - intros (c & Hc & Hk & Hg). rewrite (drop_S _ _ _ Hc). destruct Hk as [-> | ->]; by constructor.
Qed.

Lemma rest_run pi ti :
  pat !! pi = Some AnyRun -> (ti <= length text)%nat ->
  rest pi ti <-> exists k, (ti <= k <= length text)%nat /\ rest (S pi) k.
Proof.
  intros Hp Hti. unfold rest. rewrite (drop_S _ _ _ Hp). split.
  - intros (s & t' & Hd & Hg)%glob_run_inv. exists (ti + length s)%nat.
    assert (Hl : length (drop ti text) = (length s + length t')%nat) by (by rewrite Hd, length_app). rewrite length_drop in Hl.
    split; [lia|]. by rewrite <- drop_drop, Hd, drop_app_length.
  - intros (k & Hk & Hg). rewrite <- (take_drop (k - ti) (drop ti text)), drop_drop.
    replace (ti + (k - ti))%nat with k by lia. by constructor.
Qed.

(** Tokens without a star take exactly one code point each. *)
Lemma rest_skip sp n k :
  no_run sp (sp + n) -> (k <= length text)%nat -> rest sp k -> (k + n <= length text)%nat /\ rest (sp + n) (k + n).
Proof.
  revert k sp. induction n as [|n IH]; intros k sp Hno Hk Hr; [by rewrite !Nat.add_0_r|].
  destruct (Hno sp) as (t & Hp & Ht); [lia|]. destruct (proj1 (rest_step sp k t Hp Ht) Hr) as (c & Hc & Hkind & Hr').
  apply lookup_lt_Some in Hc. rewrite !Nat.add_succ_r, <- !Nat.add_succ_l. apply IH; [|lia|done]. intros j Hj. apply Hno. lia.
Qed.

(** The candidates still open: the current position, or a later start after the
    last star. *)
Definition open_at (ti pi : nat) (star : option (nat * nat)) : Prop :=
  rest pi ti \/
  match star with
  | Some (sp, st) => exists k, (st < k <= length text)%nat /\ rest sp k
  | None => False
  end.

Definition loop_ok (ti pi : nat) (star : option (nat * nat)) : Prop :=
  (ti <= length text)%nat /\ (pi <= length pat)%nat /\
  match star with
  | Some (sp, st) => (sp <= pi)%nat /\ (st <= ti)%nat /\ (pi - sp = ti - st)%nat /\ no_run sp pi
  | None => True
  end.

Lemma no_run_snoc sp pi t : no_run sp pi -> pat !! pi = Some t -> t <> AnyRun -> no_run sp (S pi).
Proof. intros Hno Hp Ht j Hj. destruct (decide (j = pi)) as [->|]; [eauto|]. apply Hno. lia. Qed.

Lemma open_advance ti pi star t c :
  loop_ok ti pi star -> text !! ti = Some c -> pat !! pi = Some t -> (t = Lit c \/ t = AnyOne) ->
  loop_ok (S ti) (S pi) star /\ (open_at ti pi star <-> open_at (S ti) (S pi) star).
Proof.
  intros (Hti & Hpi & Hstar) Hc Hp Ht. assert (Hr : t <> AnyRun) by (by destruct Ht as [-> | ->]).
  apply lookup_lt_Some in Hc as Hlt. apply lookup_lt_Some in Hp as Hlp. split.
  - split_and!; [lia|lia|]. destruct star as [[sp st]|]; [|done]. destruct Hstar as (? & ? & ? & ?).
    split_and!; [lia|lia|lia|by eapply no_run_snoc].
  - unfold open_at. rewrite (rest_step pi ti t Hp Hr). split; intros [Hx|Hx]; auto; left.
    + destruct Hx as (? & ? & ? & ?). done.
    + eauto.
Qed.

Lemma open_star ti pi star :
  loop_ok ti pi star -> (ti < length text)%nat -> pat !! pi = Some AnyRun ->
  loop_ok ti (S pi) (Some (S pi, ti)) /\ (open_at ti pi star <-> open_at ti (S pi) (Some (S pi, ti))).
Proof.
  intros (Hti & Hpi & Hstar) Hlt Hp. apply lookup_lt_Some in Hp as Hlp.
  assert (Hnew : rest pi ti <-> open_at ti (S pi) (Some (S pi, ti))).
  { rewrite (rest_run pi ti Hp Hti). unfold open_at. split.
    - intros (k & Hk & Hr). destruct (decide (k = ti)) as [->|]; [by left|right]. exists k. split; [lia|done].
    - intros [Hr|(k & Hk & Hr)]; [exists ti|exists k]; split; (lia || done). }
  split; [split_and!; try lia; intros j Hj; lia|]. rewrite <- Hnew. unfold open_at. split; [|by left]. intros [Hx|Hx]; [done|].
  destruct star as [[sp st]|]; [|done]. destruct Hstar as (Hsp & Hst & Hd & Hno). destruct Hx as (k & Hk & Hr).
  destruct (rest_skip sp (pi - sp) k) as [Hl Hr']; [by replace (sp + (pi - sp))%nat with pi by lia|lia|done|].
  replace (sp + (pi - sp))%nat with pi in Hr' by lia. apply (rest_run pi _ Hp Hl) in Hr' as (j & Hj & Hr').
  apply (rest_run pi ti Hp Hti). exists j. split; [lia|done].
Qed.

Lemma open_back ti pi sp st c :
  loop_ok ti pi (Some (sp, st)) -> text !! ti = Some c -> ~ rest pi ti ->
  loop_ok (S st) sp (Some (sp, S st)) /\ (open_at ti pi (Some (sp, st)) <-> open_at (S st) sp (Some (sp, S st))).
Proof.
  intros (Hti & Hpi & Hsp & Hst & Hd & Hno) Hc%lookup_lt_Some Hn. split; [split_and!; try lia; intros j Hj; lia|].
  unfold open_at. split.
  - intros [?|(k & Hk & Hr)]; [done|]. destruct (decide (k = S st)) as [->|]; [by left|right]. exists k. split; [lia|done].
  - intros [Hr|(k & Hk & Hr)]; right; [exists (S st)|exists k]; split; (lia || done).
Qed.

Lemma open_end ti pi star :
  loop_ok ti pi star -> text !! ti = None -> open_at ti pi star <-> rest pi ti.
Proof.
  intros (Hti & Hpi & Hstar) Hc%lookup_ge_None. unfold open_at. split; [|by left]. intros [?|Hx]; [done|].
  destruct star as [[sp st]|]; [|done]. destruct Hstar as (Hsp & Hst & Hd & Hno). destruct Hx as (k & Hk & Hr).
  destruct (rest_skip sp (pi - sp) k) as [Hl _]; [by replace (sp + (pi - sp))%nat with pi by lia|lia|done|lia].
Qed.

(** The answer against whether a match is still open: a [true] is right, a
    [false] is right unless the budget was found spent. *)
Definition answers (P : Prop) (r : bool) (b' : Budget) : Prop :=
  (r = true -> P) /\ (spent b' = false -> P -> r = true).

Lemma answers_iff P P' r b' : (P <-> P') -> answers P' r b' -> answers P r b'.
Proof. unfold answers. naive_solver. Qed.

(** Steps left at most. *)
Definition steps_left (pi : nat) (star : option (nat * nat)) : nat :=
  (match star with Some (_, st) => length text - st | None => length text + 1 end) * (length pat + 2) + (length pat - pi + 1).

Lemma steps_advance pi star : (pi < length pat)%nat -> (steps_left (S pi) star < steps_left pi star)%nat.
Proof. unfold steps_left. intros. lia. Qed.

Lemma steps_star ti pi star :
  loop_ok ti pi star -> (pi < length pat)%nat -> (steps_left (S pi) (Some (S pi, ti)) < steps_left pi star)%nat.
Proof.
  intros (Hti & Hpi & Hstar) Hlt. unfold steps_left. apply Nat.add_le_lt_mono; [|lia]. apply Nat.mul_le_mono_r.
  destruct star as [[sp st]|]; lia.
Qed.

Lemma steps_back ti pi sp st :
  loop_ok ti pi (Some (sp, st)) -> (ti < length text)%nat -> (steps_left sp (Some (sp, S st)) < steps_left pi (Some (sp, st)))%nat.
Proof.
  intros (Hti & Hpi & Hsp & Hst & _) Hlt. unfold steps_left. replace (length text - st)%nat with (S (length text - S st)) by lia.
  rewrite Nat.mul_succ_l. lia.
Qed.

Lemma wp_glob_loop fuel : forall ti pi star b,
  loop_ok ti pi star -> (steps_left pi star < fuel)%nat ->
  wp (glob_loop fuel pat mask text ti pi star) (answers (open_at ti pi star)) b.
Proof.
  induction fuel as [|fuel IH]; intros ti pi star b Hok Hf; [lia|]. cbn [glob_loop].
  destruct (text !! ti) as [c|] eqn:Hc.
  2: { apply wp_ret. apply (answers_iff _ _ _ _ (open_end _ _ _ Hok Hc)). unfold rest.
       rewrite (drop_ge text) by (by apply lookup_ge_None). split; rewrite only_runs_glob; auto. }
  apply lookup_lt_Some in Hc as Hlt.
  assert (Hmis : ~ rest pi ti -> wp (match star with
      | Some (sp, st) => stop <- (if N.land (N.of_nat (S st)) mask =? 0 then budget_check else st_ret false) ;;
          if (stop : bool) then st_ret false else glob_loop fuel pat mask text (S st) sp (Some (sp, S st))
      | None => st_ret false end) (answers (open_at ti pi star)) b).
  { intros Hn. destruct star as [[sp st]|].
    2: { apply wp_ret. split; [done|]. unfold open_at. tauto. }
    destruct (open_back _ _ _ _ _ Hok Hc Hn) as [Hok' Ho]. pose proof (steps_back _ _ _ _ Hok Hlt).
    assert (Hgo : forall b', wp (glob_loop fuel pat mask text (S st) sp (Some (sp, S st))) (answers (open_at ti pi (Some (sp, st)))) b').
    { intros b'. eapply wp_mono; [apply IH; [done|lia]|]. intros r b2. by apply answers_iff. }
    apply wp_bind. destruct (N.land _ mask =? 0); [|by apply wp_ret]. apply wp_check. intros b' _ _ _ _.
    destruct (spent b') eqn:Es; [apply wp_ret|apply Hgo]. split; [done|congruence]. }
  assert (Hadv : forall t, pat !! pi = Some t -> (t = Lit c \/ t = AnyOne) ->
     wp (glob_loop fuel pat mask text (S ti) (S pi) star) (answers (open_at ti pi star)) b).
  { intros t Hp Ht. destruct (open_advance _ _ _ _ _ Hok Hc Hp Ht) as [Hok' Ho]. apply lookup_lt_Some in Hp.
    pose proof (steps_advance pi star Hp). eapply wp_mono; [apply IH; [done|lia]|]. intros r b2. by apply answers_iff. }
  destruct (pat !! pi) as [[l| |]|] eqn:Hp.
  - destruct (N.eqb_spec l c) as [->|Hne]; [by eapply Hadv; [|left]|]. apply Hmis.
    rewrite (rest_step pi ti _ Hp) by done. intros (c' & Hc' & [?|?] & _); congruence.
  - by eapply Hadv; [|right].
  - destruct (Nat.eqb_spec (S pi) (length pat)) as [El|_].
    { apply wp_ret. split; [|done]. intros _. left. apply (rest_run pi ti Hp); [lia|]. exists (length text). split; [lia|].
      unfold rest. rewrite !drop_ge by lia. constructor. }
    destruct (open_star _ _ _ Hok Hlt Hp) as [Hok' Ho]. apply lookup_lt_Some in Hp.
    pose proof (steps_star _ _ _ Hok Hp). eapply wp_mono; [apply IH; [done|lia]|]. intros r b2. by apply answers_iff.
  - apply Hmis. unfold rest. rewrite (drop_ge pat) by (by apply lookup_ge_None). rewrite (drop_S _ _ _ Hc). by intros ?%glob_nil_inv.
Qed.
End correctness.

(** ** Compilation *)

Lemma glob_app p1 p2 t : glob (p1 ++ p2) t <-> exists t1 t2, t = t1 ++ t2 /\ glob p1 t1 /\ glob p2 t2.
Proof.
  split.
  - revert t. induction p1 as [|[c| |] p1 IH]; intros t Hg; simpl in Hg.
    + exists [], t. repeat split; [constructor|done].
    + apply glob_lit_inv in Hg as (t' & -> & Hg). destruct (IH _ Hg) as (t1 & t2 & -> & ? & ?).
      exists (c :: t1), t2. repeat split; [by constructor|done].
    + apply glob_one_inv in Hg as (c & t' & -> & Hg). destruct (IH _ Hg) as (t1 & t2 & -> & ? & ?).
      exists (c :: t1), t2. repeat split; [by constructor|done].
    + apply glob_run_inv in Hg as (s & t' & -> & Hg). destruct (IH _ Hg) as (t1 & t2 & -> & ? & ?).
      exists (s ++ t1), t2. rewrite app_assoc. repeat split; [by constructor|done].
  - intros (t1 & t2 & -> & H1 & H2). induction H1; simpl; [done|by constructor|by constructor|].
    rewrite <- app_assoc. by constructor.
Qed.

Lemma glob_text_cons c p t : glob_text (c :: p) t <-> exists t1 t2, t = t1 ++ t2 /\ glob_text [c] t1 /\ glob_text p t2.
Proof.
  split.
  - inversion 1 as [|s ? t'|x ? t'|x ? t']; subst; [exists s, t'|exists [x], t'|exists [c], t']; (split; [done|]); (split; [|done]).
    + rewrite <- (app_nil_r s). by repeat constructor.
    + by repeat constructor.
    + by repeat constructor.
  - intros (t1 & t2 & -> & H1 & H2). inversion H1 as [|s q t' Hn|x q t' Hn|x q t' ? ? Hn]; subst; inversion Hn; subst.
    + rewrite app_nil_r. by constructor.
    + by constructor.
    + by constructor.
Qed.

Lemma glob_star_more toks t s : last toks = Some AnyRun -> glob toks t -> glob toks (t ++ s).
Proof.
  intros [p ->]%last_Some. rewrite !glob_app. intros (t1 & t2 & -> & H1 & H2).
  exists t1, (t2 ++ s). rewrite app_assoc. split_and!; [done|done|]. rewrite <- (app_nil_r (t2 ++ s)). repeat constructor.
Qed.

Lemma glob_one_token cp t :
  glob_text [cp] t <-> glob [if cp =? 0x2A then AnyRun else if cp =? 0x3F then AnyOne else Lit cp] t.
Proof.
  split.
  - inversion 1 as [|s ? t' Hn|x ? t' Hn|x ? t' N1 N2 Hn]; subst; inversion Hn; subst; simpl.
    + repeat constructor.
    + repeat constructor.
    + rewrite (proj2 (N.eqb_neq _ _) N1), (proj2 (N.eqb_neq _ _) N2). repeat constructor.
  - destruct (N.eqb_spec cp 0x2A) as [->|N1]; [|destruct (N.eqb_spec cp 0x3F) as [->|N2]].
    + intros (s & t' & -> & Hg%glob_nil_inv)%glob_run_inv. subst. repeat constructor.
    + intros (c & t' & -> & Hg%glob_nil_inv)%glob_one_inv. subst. repeat constructor.
    + intros (t' & -> & Hg%glob_nil_inv)%glob_lit_inv. subst. by repeat constructor.
Qed.

Lemma compile_step_spec toks cp t :
  glob (compile_step toks cp) t <-> exists t1 t2, t = t1 ++ t2 /\ glob toks t1 /\ glob_text [cp] t2.
Proof.
  unfold compile_step. setoid_rewrite glob_one_token. destruct (cp =? 0x2A).
  - case_bool_decide as El; [|apply glob_app]. split.
    + intros Hg. exists t, []. rewrite app_nil_r. split_and!; [done|done|]. apply (glob_run [] [] []). constructor.
    + intros (t1 & t2 & -> & Hg & _). by apply glob_star_more.
  - destruct (cp =? 0x3F); apply glob_app.
Qed.

Lemma compile_loop_spec cps : forall toks t,
  glob (fold_left compile_step cps toks) t <-> exists t1 t2, t = t1 ++ t2 /\ glob toks t1 /\ glob_text cps t2.
Proof.
  induction cps as [|cp cps IH]; intros toks t; simpl.
  - split; [intros Hg; exists t, []; rewrite app_nil_r; repeat split; [done|constructor]|].
    intros (t1 & t2 & -> & Hg & Ht). inversion Ht. by rewrite app_nil_r.
  - rewrite IH. setoid_rewrite compile_step_spec. split.
    + intros (? & t3 & -> & (t1 & t2 & -> & H1 & H2) & H3). exists t1, (t2 ++ t3). rewrite app_assoc. split; [done|]. split; [done|].
      apply glob_text_cons. by exists t2, t3.
    + intros (t1 & ? & -> & H1 & (t2 & t3 & -> & H2 & H3)%glob_text_cons). exists (t1 ++ t2), t3. rewrite app_assoc. eauto 8.
Qed.

Lemma compile_spec pattern t : glob (tokens (compile pattern)) t <-> glob_text (code_points pattern) t.
Proof.
  simpl. rewrite compile_loop_spec. split.
  - intros (t1 & t2 & -> & ->%glob_nil_inv & ?). done.
  - intros Ht. exists [], t. repeat split; [constructor|done].
Qed.

(** The lengths the quick test looks at. *)
Lemma glob_length p t :
  glob p t -> (length p <= length (filter (fun t => t = AnyRun) p) + length t)%nat /\
    (length (filter (fun t => t = AnyRun) p) = 0%nat -> length p = length t).
Proof.
  induction 1 as [|c p t _ [IH1 IH2]|c p t _ [IH1 IH2]|s p t _ [IH1 _]]; [simpl; lia|..].
  - rewrite filter_cons_False by done. simpl. lia.
  - rewrite filter_cons_False by done. simpl. lia.
  - rewrite filter_cons_True by done. simpl. rewrite length_app. lia.
Qed.

(** The matcher against the compiled tokens. *)
Lemma wp_matches_decoded `{Env} pattern text b :
  wp (matches_decoded (compile pattern) text) (answers (glob (tokens (compile pattern)) text)) b.
Proof.
  unfold matches_decoded. set (w := compile pattern).
  assert (Hgo : forall b, wp (glob_match w text) (answers (glob (tokens w) text)) b).
  { intros b0. unfold glob_match, glob_fuel. eapply wp_mono; [apply wp_glob_loop|].
    - split_and!; [lia|lia|done].
    - unfold steps_left. lia.
    - intros r b'. apply answers_iff. unfold open_at, rest. rewrite !drop_0. tauto. }
  assert (Hfits : glob (tokens w) text ->
    (if any_run w then (min_len w <=? length text)%nat else (length text =? min_len w)%nat) = true).
  { intros [H1 H2]%glob_length. subst w. simpl in *. case_bool_decide; [apply Nat.leb_le|apply Nat.eqb_eq]; lia. }
  destruct (if any_run w then _ else _); [|apply wp_ret; split; [done|intros _ ?; exfalso; naive_solver]].
  apply wp_bind. destruct (GLOB_COSTLY_STEPS <=? _); [|by apply wp_ret].
  apply wp_check. intros b' _ _ _ _. destruct (spent b') eqn:Es; [apply wp_ret|apply Hgo]. split; [done|congruence].
Qed.

Lemma glob_loop_keeps `{Env} fuel pat mask text : forall ti pi star, keeps_spent (glob_loop fuel pat mask text ti pi star).
Proof.
  induction fuel as [|fuel IH]; intros ti pi star; cbn [glob_loop]; [apply keeps_fail|].
  assert (Hmis : keeps_spent (match star with
      | Some (sp, st) => stop <- (if N.land (N.of_nat (S st)) mask =? 0 then budget_check else st_ret false) ;;
          if (stop : bool) then st_ret false else glob_loop fuel pat mask text (S st) sp (Some (sp, S st))
      | None => st_ret false end)).
  { destruct star as [[sp st]|]; [|apply keeps_ret]. apply keeps_bind; [destruct (_ =? 0); eauto with budget|].
    intros []; [apply keeps_ret|apply IH]. }
  destruct (text !! ti); [|apply keeps_ret]. destruct (pat !! pi) as [[l| |]|]; try apply IH; try apply Hmis.
  - destruct (l =? n); [apply IH|apply Hmis].
  - destruct (_ =? _)%nat; [apply keeps_ret|apply IH].
Qed.

Lemma matches_decoded_keeps `{Env} w text : keeps_spent (matches_decoded w text).
Proof.
  unfold matches_decoded. destruct (if any_run w then _ else _); [|apply keeps_ret].
  apply keeps_bind; [destruct (_ <=? _); eauto with budget|]. intros []; [apply keeps_ret|apply glob_loop_keeps].
Qed.

(** C31: a wildcard matches what it says: for every pattern, text, budget and
    run of the clock, [matches_decoded] ends (in at most
    [(|text| + 2) * (|tokens| + 2)] steps) and a [true] means that the text as a
    whole is the pattern with each star replaced by some run of code points and
    each question mark by one; a [false] means that it is not, unless the budget
    was found spent, which the query then reports. *)
Theorem matches_decoded_correct `{Env} pattern text b :
  wp (matches_decoded (compile pattern) text) (fun r b' =>
    (r = true -> glob_text (code_points pattern) text) /\
    (spent b' = false -> glob_text (code_points pattern) text -> r = true)) b.
Proof.
  eapply (wp_mono _ (answers (glob (tokens (compile pattern)) text))).
  2: { intros r b'. apply answers_iff. symmetry. apply compile_spec. }
  apply wp_matches_decoded.
Qed.

(** ** Prefilters *)

(** The bytes of a text. *)
Definition encoded (t : list N) : list N := flat_map encode_code_point t.

Lemma encode_wtf8_eq cp : encode_wtf8 cp = encode_code_point cp.
Proof. done. Qed.

Lemma encoded_app a b : encoded (a ++ b) = encoded a ++ encoded b.
Proof. apply flat_map_app. Qed.

Definition infix (a b : list N) : Prop := exists l r, b = l ++ a ++ r.

Lemma infix_app_r a b c : infix a b -> infix a (b ++ c).
Proof. intros (l & r & ->). exists l, (r ++ c). by rewrite <- !app_assoc. Qed.
Lemma infix_suffix a b c : a `suffix_of` b -> infix a (b ++ c).
Proof. intros [l ->]. exists l, c. by rewrite <- app_assoc. Qed.
Lemma infix_nil b : infix [] b.
Proof. by exists [], b. Qed.
#[local] Hint Resolve infix_app_r infix_suffix infix_nil : core.

(** What is left of a match, token by token. *)
Lemma glob_cons_inv tok p t :
  glob (tok :: p) t -> exists s t', t = s ++ t' /\ glob p t' /\ match tok with Lit c => s = [c] | _ => True end.
Proof.
  destruct tok as [c| |].
  - intros (t' & -> & ?)%glob_lit_inv. by exists [c], t'.
  - intros (c & t' & -> & ?)%glob_one_inv. by exists [c], t'.
  - intros (s & t' & -> & ?)%glob_run_inv. by exists s, t'.
Qed.

Lemma longest_loop_infix toks : forall best run done t,
  glob toks t -> infix best (encoded done) -> run `suffix_of` encoded done ->
  infix (longest_loop toks best run) (encoded (done ++ t)).
Proof.
  induction toks as [|tok toks IH]; intros best run dn t Hg Hb Hr; simpl.
  { apply glob_nil_inv in Hg as ->. rewrite encoded_app. simpl. destruct (length best <? length run)%nat; auto. }
  apply glob_cons_inv in Hg as (s & t' & -> & Hg & Hs). rewrite app_assoc.
  assert (Hbest : infix (if (length best <? length run)%nat then run else best) (encoded (dn ++ s))).
  { rewrite encoded_app. destruct (length best <? length run)%nat; auto. }
  destruct tok as [c| |].
  - subst s. apply IH; [done|rewrite encoded_app; auto|]. rewrite encoded_app. simpl. rewrite app_nil_r, encode_wtf8_eq.
    destruct Hr as [l ->]. exists l. by rewrite app_assoc.
  - apply IH; [done|done|apply suffix_nil].
  - apply IH; [done|done|apply suffix_nil].
Qed.

(** No byte of an encoded code point but a separator's own is a separator. *)
Lemma encode_no_separator cp : cp <> 0x5C -> 0x5C ∉ encode_wtf8 cp.
Proof. intros Hcp. rewrite encode_wtf8_eq, ascii_in_encode; done. Qed.

Lemma free_loop_infix toks : forall runs run done t,
  glob toks t -> run `suffix_of` encoded done -> 0x5C ∉ run ->
  Forall (fun r => infix r (encoded done) /\ 0x5C ∉ r /\ r <> []) runs ->
  Forall (fun r => infix r (encoded (done ++ t)) /\ 0x5C ∉ r /\ r <> []) (free_loop toks runs run).
Proof.
  induction toks as [|tok toks IH]; intros runs run dn t Hg Hr Hn Hruns.
  { apply glob_nil_inv in Hg as ->. rewrite encoded_app. simpl.
    assert (Hold : Forall (fun r => infix r (encoded dn ++ []) /\ 0x5C ∉ r /\ r <> []) runs)
      by (eapply Forall_impl; [exact Hruns|]; naive_solver).
    destruct run; [done|]. apply Forall_app. split; [done|]. apply Forall_singleton. auto. }
  apply glob_cons_inv in Hg as (s & t' & -> & Hg & Hs). rewrite app_assoc.
  assert (Hold : Forall (fun r => infix r (encoded (dn ++ s)) /\ 0x5C ∉ r /\ r <> []) runs).
  { rewrite encoded_app. eapply Forall_impl; [exact Hruns|]. naive_solver. }
  assert (Hbrk : Forall (fun r => infix r (encoded ((dn ++ s) ++ t')) /\ 0x5C ∉ r /\ r <> [])
    (match run with [] => free_loop toks runs [] | _ => free_loop toks (runs ++ [run]) [] end)).
  { destruct run as [|x run]; (apply IH; [done|apply suffix_nil|apply not_elem_of_nil|]); [done|].
    apply Forall_app. split; [done|]. apply Forall_singleton. rewrite encoded_app. auto. }
  cbn [free_loop]. destruct tok as [c| |]; [|exact Hbrk..]. destruct (N.eqb_spec c 0x5C) as [|Hc]; [exact Hbrk|]. subst s.
  apply IH; [done| | |done].
  - rewrite encoded_app. simpl. rewrite app_nil_r, encode_wtf8_eq. destruct Hr as [l ->]. exists l. by rewrite app_assoc.
  - rewrite elem_of_app. intros [?|?%encode_no_separator]; done.
Qed.

Lemma leading_prefix toks t : glob toks t -> leading_loop toks `prefix_of` encoded t.
Proof.
  induction 1; simpl; try apply prefix_nil. rewrite encode_wtf8_eq. by apply prefix_app.
Qed.

Lemma rposition_none toks : rposition toks = None -> Forall (fun t => exists c, t = Lit c) toks.
Proof.
  induction toks as [|t toks IH]; intros Hr; [constructor|]. simpl in Hr.
  destruct (rposition toks); [done|]. destruct t; [|done..]. constructor; eauto.
Qed.

Lemma lits_encoded toks t : Forall (fun t => exists c, t = Lit c) toks -> glob toks t -> encoded t = flat_map lit_bytes toks.
Proof. intros Hl Hg. revert Hl. induction Hg; intros [[? Hx] Hl]%Forall_cons || intros _; simplify_eq/=; [done|]. by rewrite IHHg. Qed.

Lemma trailing_suffix toks t :
  glob toks t -> flat_map lit_bytes (drop (match rposition toks with Some i => S i | None => 0%nat end) toks) `suffix_of` encoded t.
Proof.
  revert t. induction toks as [|tok toks IH]; intros t Hg; [apply suffix_nil|]. cbn [rposition].
  destruct (rposition toks) as [i|] eqn:Er.
  - apply glob_cons_inv in Hg as (s & t' & -> & Hg & _). rewrite encoded_app. apply suffix_app_r. by apply IH.
  - apply rposition_none in Er. destruct tok as [c| |].
    + rewrite (lits_encoded (Lit c :: toks) t); [done|constructor; eauto|done].
    + apply glob_cons_inv in Hg as (s & t' & -> & Hg & _). rewrite encoded_app, (lits_encoded toks t') by done. by apply suffix_app_r.
    + apply glob_cons_inv in Hg as (s & t' & -> & Hg & _). rewrite encoded_app, (lits_encoded toks t') by done. by apply suffix_app_r.
Qed.

(** The literals taken from a pattern are sound prefilters: any text the
    pattern matches contains [longest_literal], starts with [leading_literal],
    ends with [trailing_literal] and contains each of [separator_free_literals],
    none of which holds a separator byte, so each lies within one component. *)
Theorem literals_are_necessary pattern text :
  glob_text (code_points pattern) text ->
  let w := compile pattern in
  (forall lit, longest_literal w = Some lit -> lit <> [] /\ infix lit (encoded text)) /\
  leading_literal w `prefix_of` encoded text /\ trailing_literal w `suffix_of` encoded text /\
  Forall (fun r => infix r (encoded text) /\ 0x5C ∉ r /\ r <> []) (separator_free_literals w).
Proof.
  intros Hg%compile_spec w. split_and!.
  - intros lit. unfold longest_literal. pose proof (longest_loop_infix (tokens w) [] [] [] text Hg (infix_nil _) (suffix_nil _)) as Hi.
    destruct (longest_loop _ _ _); [done|]. intros [= <-]. done.
  - by apply leading_prefix.
  - by apply trailing_suffix.
  - apply (free_loop_infix _ [] [] [] text Hg); [apply suffix_nil|apply not_elem_of_nil|constructor].
Qed.

(** The pattern [a*?b] and the text [axyb]. *)
Lemma literals_are_necessary_witness :
  longest_literal (compile [0x61; 0x2A; 0x3F; 0x62]) = Some [0x61] /\ infix [0x61] (encoded [0x61; 0x78; 0x79; 0x62]).
Proof.
  assert (E : longest_literal (compile [0x61; 0x2A; 0x3F; 0x62]) = Some [0x61]) by (vm_compute; reflexivity).
  split; [exact E|]. refine (proj2 (proj1 (literals_are_necessary [0x61; 0x2A; 0x3F; 0x62] [0x61; 0x78; 0x79; 0x62] _) _ E)).
  change (code_points [0x61; 0x2A; 0x3F; 0x62]) with [0x61; 0x2A; 0x3F; 0x62].
  apply gt_lit; [done|done|]. apply (gt_star [0x78]), gt_one, gt_lit; [done|done|]. apply gt_nil.
Defined.
