(* ===== verification/Query.v ===== *)
(** The search syntax: [crates/goz-core/src/query/parse.rs].

    The tokenizer reads the characters of the input (code points); token texts,
    terms and values are UTF-8 bytes, as in the source. *)

From stdpp Require Import gmap.
From stdpp Require Import base option list sets strings.
From Stdlib Require Import NArith ZArith Lia.
From S2P Require Import Prelude Wtf8 Fold Filetime Text Dates Budget Wildcard.
Open Scope N_scope.

Inductive Kind := KFile | KFolder.

Record SizeRange := { smin : N; smax : N }.
Definition size_contains (r : SizeRange) (n : N) : bool := (smin r <=? n) && (n <=? smax r).

Record Filters := {
  ext : option (list (list N));
  fsize : option SizeRange;
  kind : option Kind;
  date : option DateFilter
}.
Definition filters_default : Filters := {| ext := None; fsize := None; kind := None; date := None |}.

Record ParsedQuery := {
  name_terms : list (list N);
  path_terms : list (list N);
  wildcards : list Wildcard;
  path_wildcards : list Wildcard;
  filters : Filters;
  match_case : bool
}.

Definition is_text_empty (q : ParsedQuery) : bool :=
  bool_decide (name_terms q = []) && bool_decide (path_terms q = []) &&
  match wildcards q with [] => true | _ => false end && match path_wildcards q with [] => true | _ => false end.

Definition MAX_QUERY_TERMS : nat := 256.

Definition term_count (q : ParsedQuery) : nat :=
  length (name_terms q) + length (path_terms q) + length (wildcards q) + length (path_wildcards q) +
  match ext (filters q) with Some l => length l | None => 0 end.

Definition case_directive (text : list N) : option bool :=
  let t := to_ascii_lowercase text in
  if bool_decide (t = str "case:" \/ t = str "case:1") then Some true
  else if bool_decide (t = str "case:0") then Some false
  else None.

Definition match_path_directive (text : list N) : option bool :=
  let t := to_ascii_lowercase text in
  if bool_decide (t = str "matchpath:" \/ t = str "matchpath:1") then Some true
  else if bool_decide (t = str "matchpath:0") then Some false
  else None.

(** ** The tokenizer *)

Record Token := { ttext : list N; quoted : bool; func_colon : option N }.

(** The locals of [tokenize]. *)
Record TokState := {
  toks : list Token;
  cur : list N;
  in_quotes : bool;
  token_quoted : bool;
  colon_at : option N;
  has_content : bool
}.
Definition tok_start : TokState :=
  {| toks := []; cur := []; in_quotes := false; token_quoted := false; colon_at := None; has_content := false |}.

(** The token under way, as it is pushed. *)
Definition cur_token (s : TokState) : Token := {| ttext := cur s; quoted := token_quoted s; func_colon := colon_at s |}.

Definition tok_step (s : TokState) (ch : N) : result QueryError TokState :=
  if in_quotes s then
    if ch =? 0x22 then
      Ok {| toks := toks s; cur := cur s; in_quotes := false; token_quoted := token_quoted s;
            colon_at := colon_at s; has_content := has_content s |}
    else
      Ok {| toks := toks s; cur := cur s ++ encode_code_point ch; in_quotes := true; token_quoted := token_quoted s;
            colon_at := colon_at s; has_content := has_content s |}
  else if ch =? 0x22 then
    Ok {| toks := toks s; cur := cur s; in_quotes := true; token_quoted := true;
          colon_at := colon_at s; has_content := true |}
  else if (ch =? 0x7C) || (ch =? 0x21) then Err (UnsupportedOperator ch)
  else if is_whitespace ch then
    if has_content s then
      Ok {| toks := toks s ++ [cur_token s]; cur := []; in_quotes := false; token_quoted := false;
            colon_at := None; has_content := false |}
    else Ok s
  else
    Ok {| toks := toks s; cur := cur s ++ encode_code_point ch; in_quotes := false; token_quoted := token_quoted s;
          colon_at := (if (ch =? 0x3A) && negb (token_quoted s) && negb (is_some (colon_at s))
                       then Some (len (cur s)) else colon_at s);
          has_content := true |}.

Fixpoint tok_loop (s : TokState) (input : list N) : result QueryError TokState :=
  match input with
  | [] => Ok s
  | ch :: rest => s <-? tok_step s ch; tok_loop s rest
  end.

Definition tokenize (input : list N) : result QueryError (list Token) :=
  s <-? tok_loop tok_start input;
  Ok (if has_content s then toks s ++ [cur_token s] else toks s).

(** ** Sizes *)

Definition KB : N := 1024.
Definition MB : N := 1024 * KB.
Definition GB : N := 1024 * MB.
Definition TB : N := 1024 * GB.

Definition parse_bytes (s : list N) : option N :=
  let lower := to_ascii_lowercase (trim s) in
  let '(num, mult) :=
    match strip_suffix (str "tb") lower with
    | Some n => (n, TB)
    | None =>
    match strip_suffix (str "gb") lower with
    | Some n => (n, GB)
    | None =>
    match strip_suffix (str "mb") lower with
    | Some n => (n, MB)
    | None =>
    match strip_suffix (str "kb") lower with
    | Some n => (n, KB)
    | None =>
    match strip_suffix (str "b") lower with
    | Some n => (n, 1)
    | None => (lower, 1)
    end end end end end in
  value ← parse_u64 (trim num);
  if value * mult <=? u64_max then Some (value * mult) else None.

(** The named sizes. *)
Definition named_size (v : list N) : option SizeRange :=
  let v := to_ascii_lowercase v in
  if bool_decide (v = str "empty") then Some {| smin := 0; smax := 0 |}
  else if bool_decide (v = str "tiny") then Some {| smin := 0; smax := 10 * KB |}
  else if bool_decide (v = str "small") then Some {| smin := 10 * KB; smax := 100 * KB |}
  else if bool_decide (v = str "medium") then Some {| smin := 100 * KB; smax := MB |}
  else if bool_decide (v = str "large") then Some {| smin := MB; smax := 16 * MB |}
  else if bool_decide (v = str "huge") then Some {| smin := 16 * MB; smax := 128 * MB |}
  else if bool_decide (v = str "gigantic") then Some {| smin := 128 * MB; smax := u64_max |}
  else None.

Definition size_malformed (detail : list N) : QueryError := Malformed (str "size:") detail.

(** What the comparison operators make of a number. *)
Definition size_compare (op : nat) (n : N) : SizeRange :=
  match op with
  | 0%nat => {| smin := n; smax := u64_max |}
  | 2%nat => {| smin := N.min (n + 1) u64_max; smax := u64_max |}
  | 1%nat => {| smin := 0; smax := n |}
  | _ => {| smin := 0; smax := n - 1 |}
  end.

Definition size_op (v : list N) : option (nat * list N) :=
  match strip_prefix (str ">=") v with
  | Some r => Some (0%nat, r)
  | None =>
  match strip_prefix (str "<=") v with
  | Some r => Some (1%nat, r)
  | None =>
  match strip_prefix (str ">") v with
  | Some r => Some (2%nat, r)
  | None =>
  match strip_prefix (str "<") v with
  | Some r => Some (3%nat, r)
  | None => None
  end end end end.

(** One side of a range, [dflt] when it is blank. *)
Definition size_side (dflt : N) (side : list N) : result QueryError N :=
  match trim side with
  | [] => Ok dflt
  | _ => ok_or (size_malformed side) (parse_bytes side)
  end.

Definition parse_size (value : list N) : result QueryError SizeRange :=
  let v := trim value in
  match named_size v with
  | Some r => Ok r
  | None =>
      match split_once (str "..") v with
      | Some (lo, hi) =>
          min <-? size_side 0 lo;
          max <-? size_side u64_max hi;
          Ok {| smin := min; smax := max |}
      | None =>
          match size_op v with
          | Some (op, rest) =>
              n <-? ok_or (size_malformed rest) (parse_bytes rest);
              Ok (size_compare op n)
          | None =>
              let rest := default v (strip_prefix (str "=") v) in
              n <-? ok_or (size_malformed v) (parse_bytes rest);
              Ok {| smin := n; smax := n |}
          end
      end
  end.

(** ** The parser *)

Definition with_name_terms l q := {| name_terms := l; path_terms := path_terms q; wildcards := wildcards q;
  path_wildcards := path_wildcards q; filters := filters q; match_case := match_case q |}.
Definition with_path_terms l q := {| name_terms := name_terms q; path_terms := l; wildcards := wildcards q;
  path_wildcards := path_wildcards q; filters := filters q; match_case := match_case q |}.
Definition with_wildcards l q := {| name_terms := name_terms q; path_terms := path_terms q; wildcards := l;
  path_wildcards := path_wildcards q; filters := filters q; match_case := match_case q |}.
Definition with_path_wildcards l q := {| name_terms := name_terms q; path_terms := path_terms q; wildcards := wildcards q;
  path_wildcards := l; filters := filters q; match_case := match_case q |}.
Definition with_filters f q := {| name_terms := name_terms q; path_terms := path_terms q; wildcards := wildcards q;
  path_wildcards := path_wildcards q; filters := f; match_case := match_case q |}.
Definition set_ext l f := {| ext := Some l; fsize := fsize f; kind := kind f; date := date f |}.
Definition set_fsize r f := {| ext := ext f; fsize := Some r; kind := kind f; date := date f |}.
Definition set_kind k f := {| ext := ext f; fsize := fsize f; kind := Some k; date := date f |}.
Definition set_date d f := {| ext := ext f; fsize := fsize f; kind := kind f; date := Some d |}.

(** [text.replace('/', "\\")]. *)
Definition slashes (text : list N) : list N := (fun b => if b =? 0x2F then 0x5C else b) <$> text.

Definition push_text_term (fold_term : list N -> list N) (text : list N) (quoted as_path : bool) (q : ParsedQuery) : ParsedQuery :=
  match text with
  | [] => q
  | _ =>
      let is_path := as_path || contains_any [0x5C; 0x2F] text in
      let wildcard := contains_any [0x2A; 0x3F] text && (is_path || negb quoted) in
      if is_path then
        let path := fold_term (slashes text) in
        if wildcard then with_path_wildcards (path_wildcards q ++ [compile path]) q
        else with_path_terms (path_terms q ++ [path]) q
      else if wildcard then with_wildcards (wildcards q ++ [compile (fold_term text)]) q
      else with_name_terms (name_terms q ++ [fold_term text]) q
  end.

Section parse.
Context `{Unicode}.

(** The values of [ext:]. *)
Definition ext_values (value : list N) : list (list N) :=
  (fun s => fold (drop_while (N.eqb 0x2E) s)) <$> filter (fun s => s <> []) (split 0x3B value).

(** What a token with a function prefix does. *)
Inductive Action :=
  | Done (q : ParsedQuery)
  | Fallthrough.

Definition func_term (clock : option LocalClock) (fold_term : list N -> list N) (match_path : bool)
    (tok : Token) (colon : N) (q : ParsedQuery) : result QueryError Action :=
  let text := ttext tok in
  let func := to_ascii_lowercase (take (N.to_nat colon) text) in
  let value := drop (N.to_nat colon + 1) text in
  if bool_decide (func = str "ext") then
    Ok (Done (match ext_values value with [] => q | exts => with_filters (set_ext exts (filters q)) q end))
  else if bool_decide (func = str "size") then
    r <-? parse_size value; Ok (Done (with_filters (set_fsize r (filters q)) q))
  else if bool_decide (func = str "dm" \/ func = str "datemodified" \/ func = str "date-modified") then
    clock <-? ok_or NoClock clock;
    d <-? date_filter (C:=clock) value;
    Ok (Done (with_filters (set_date (match date (filters q) with Some e => date_and e d | None => d end) (filters q)) q))
  else if bool_decide (func = str "path") then Ok (Done (push_text_term fold_term value (quoted tok) true q))
  else if bool_decide (func = str "file") then
    Ok (Done (push_text_term fold_term value (quoted tok) match_path (with_filters (set_kind KFile (filters q)) q)))
  else if bool_decide (func = str "folder" \/ func = str "dir") then
    Ok (Done (push_text_term fold_term value (quoted tok) match_path (with_filters (set_kind KFolder (filters q)) q)))
  else if bool_decide (func = str "matchpath") then
    Err (Malformed (str "matchpath:") (str "expected matchpath:, matchpath:0 or matchpath:1, got matchpath:" ++ value))
  else if bool_decide (func = str "case") then
    Err (Malformed (str "case:") (str "expected case:, case:0 or case:1, got case:" ++ value))
  else if bool_decide (length func = 1%nat) then Ok Fallthrough
  else if bool_decide (1 < length func)%nat && forallb is_ascii_alphabetic func then
    Err (UnknownFunction (take (N.to_nat colon + 1) text))
  else Ok Fallthrough.

(** Is the token a directive, consumed before the terms are read? *)
Definition is_directive (tok : Token) : bool :=
  is_some (func_colon tok) && (is_some (case_directive (ttext tok)) || is_some (match_path_directive (ttext tok))).

(** One turn of the loop over the tokens. *)
Definition parse_token (clock : option LocalClock) (fold_term : list N -> list N) (match_path : bool)
    (q : ParsedQuery) (tok : Token) : result QueryError ParsedQuery :=
  if is_directive tok then Ok q
  else
    let plain := push_text_term fold_term (ttext tok) (quoted tok) match_path q in
    match func_colon tok with
    | Some colon =>
        a <-? func_term clock fold_term match_path tok colon q;
        Ok (match a with Done q' => q' | Fallthrough => plain end)
    | None => Ok plain
    end.

Fixpoint parse_tokens (clock : option LocalClock) (fold_term : list N -> list N) (match_path : bool)
    (toks : list Token) (q : ParsedQuery) : result QueryError ParsedQuery :=
  match toks with
  | [] => Ok q
  | tok :: rest => q <-? parse_token clock fold_term match_path q tok; parse_tokens clock fold_term match_path rest q
  end.

(** The last directive of a kind wins over the default. *)
Definition directive (d : list N -> option bool) (dflt : bool) (toks : list Token) : bool :=
  default dflt (last (omap (fun t => if is_some (func_colon t) then d (ttext t) else None) toks)).

(** [fold_term]: terms are folded unless the query is case-sensitive. *)
Definition fold_term (match_case : bool) (s : list N) : list N := if match_case then s else fold s.

Definition query_empty (match_case : bool) : ParsedQuery :=
  {| name_terms := []; path_terms := []; wildcards := []; path_wildcards := []; filters := filters_default;
     match_case := match_case |}.

Definition parse (input : list N) (match_case : bool) (clock : option LocalClock) : result QueryError ParsedQuery :=
  tokens <-? tokenize input;
  let match_case := directive case_directive match_case tokens in
  let match_path := directive match_path_directive false tokens in
  q <-? parse_tokens clock (fold_term match_case) match_path tokens (query_empty match_case);
  let terms := term_count q in
  if (MAX_QUERY_TERMS <? terms)%nat then Err (TooManyTerms terms) else Ok q.

Definition parse_query (input : list N) : result QueryError ParsedQuery := parse input false None.
Definition parse_query_with_case (input : list N) (match_case : bool) : result QueryError ParsedQuery := parse input match_case None.
Definition parse_query_at (input : list N) (match_case : bool) (clock : LocalClock) : result QueryError ParsedQuery :=
  parse input match_case (Some clock).
End parse.

(** ** The tokenizer, characterised *)

(** The first boolean operator outside quotes. *)
Fixpoint first_operator (in_q : bool) (input : list N) : option N :=
  match input with
  | [] => None
  | ch :: rest =>
      if in_q then first_operator (negb (ch =? 0x22)) rest
      else if ch =? 0x22 then first_operator true rest
      else if (ch =? 0x7C) || (ch =? 0x21) then Some ch
      else first_operator false rest
  end.

Lemma tok_step_quotes s ch s' :
  tok_step s ch = Ok s' -> in_quotes s' = (if in_quotes s then negb (ch =? 0x22) else ch =? 0x22).
Proof.
  unfold tok_step. repeat case_match; intros [= <-]; simplify_eq/=; try done; try congruence.
Qed.

Lemma tok_step_err s ch e : tok_step s ch = Err e -> in_quotes s = false /\ (ch =? 0x22) = false /\ ((ch =? 0x7C) || (ch =? 0x21)) = true /\ e = UnsupportedOperator ch.
Proof. unfold tok_step. repeat case_match; intros [= <-]; done. Qed.

Lemma tok_step_operator s ch : in_quotes s = false -> (ch =? 0x22) = false -> ((ch =? 0x7C) || (ch =? 0x21)) = true -> tok_step s ch = Err (UnsupportedOperator ch).
Proof. unfold tok_step. by intros -> -> ->. Qed.

Lemma tok_loop_operator input : forall s,
  match first_operator (in_quotes s) input with
  | Some c => tok_loop s input = Err (UnsupportedOperator c)
  | None => exists s', tok_loop s input = Ok s'
  end.
Proof.
  induction input as [|ch input IH]; intros s; simpl; [by exists s|].
  destruct (tok_step s ch) as [s'|e] eqn:Es; simpl.
  - pose proof (tok_step_quotes _ _ _ Es) as Hq. specialize (IH s'). rewrite Hq in IH. destruct (in_quotes s) eqn:Hin; [done|].
    destruct (ch =? 0x22) eqn:Hc; [done|]. destruct ((ch =? 0x7C) || (ch =? 0x21)) eqn:Ho; [|done].
    rewrite (tok_step_operator s ch Hin Hc Ho) in Es. done.
  - apply tok_step_err in Es as (-> & -> & -> & ->). done.
Qed.

(** C33: the boolean operators are refused exactly outside quotes: tokenizing an
    input succeeds if and only if no [|] and no [!] lies outside double quotes,
    and otherwise the error names the first that does. *)
Theorem tokenize_refuses_operators input :
  match first_operator false input with
  | Some c => tokenize input = Err (UnsupportedOperator c)
  | None => exists toks, tokenize input = Ok toks
  end.
Proof.
  unfold tokenize. pose proof (tok_loop_operator input tok_start) as Hl. simpl in Hl. destruct (first_operator false input).
  - by rewrite Hl.
  - destruct Hl as [s' ->]. simpl. eauto.
Qed.

(** Inside quotes, characters are collected as they are. *)
Lemma tok_loop_quoted t rest : forall s,
  0x22 ∉ t -> in_quotes s = true ->
  tok_loop s (t ++ rest) =
  tok_loop {| toks := toks s; cur := cur s ++ flat_map encode_code_point t; in_quotes := true; token_quoted := token_quoted s;
              colon_at := colon_at s; has_content := has_content s |} rest.
Proof.
  induction t as [|ch t IH]; intros s Hq Hin; simpl.
  { rewrite app_nil_r. rewrite <- Hin. by destruct s. }
  apply not_elem_of_cons in Hq as [Hc Hq]. unfold tok_step. rewrite Hin, (proj2 (N.eqb_neq ch 0x22)) by done. simpl.
  rewrite IH by done. simpl. by rewrite <- app_assoc.
Qed.

Lemma tokenize_quoted t :
  0x22 ∉ t -> tokenize (0x22 :: t ++ [0x22]) = Ok [{| ttext := flat_map encode_code_point t; quoted := true; func_colon := None |}].
Proof. intros Hq. unfold tokenize. simpl. rewrite tok_loop_quoted by done. done. Qed.

(** Quoting makes text literal: a query that is one quoted phrase, whatever
    characters it holds other than the quote itself and the path separators
    (operators, wildcards, colons and spaces included), is the search for names
    containing exactly that text (folded unless the search is case-sensitive),
    with no wildcard, filter or directive. *)
Theorem quoted_text_is_literal `{Unicode} t case clock :
  t <> [] -> 0x22 ∉ t -> 0x5C ∉ t -> 0x2F ∉ t ->
  parse (0x22 :: t ++ [0x22]) case clock =
  Ok {| name_terms := [fold_term case (flat_map encode_code_point t)]; path_terms := []; wildcards := []; path_wildcards := [];
        filters := filters_default; match_case := case |}.
Proof.
  intros Hne Hq Hb Hs. unfold parse. rewrite tokenize_quoted by done. simpl.
  assert (Hsep : contains_any [0x5C; 0x2F] (flat_map encode_code_point t) = false).
  { rewrite contains_any_encoded by (repeat constructor). apply not_true_iff_false. rewrite contains_any_true.
    intros (b & Hbt & Hbc). rewrite !elem_of_cons, elem_of_nil in Hbc. naive_solver. }
  assert (Hn : flat_map encode_code_point t <> []).
  { destruct t as [|c t]; [done|]. simpl. unfold encode_code_point. repeat case_match; done. }
  unfold parse_token, is_directive, push_text_term. simpl. rewrite Hsep. simpl. rewrite andb_false_r.
  destruct (flat_map encode_code_point t); [done|]. done.
Qed.

Definition no_unicode : Unicode := {| decompose_canonical := fun c => [c]; nfc := fun r => r; to_lowercase := fun c => [c] |}.

(** The phrase [a|*] between quotes. *)
Lemma quoted_text_is_literal_witness :
  exists q, parse (H:=no_unicode) (0x22 :: [0x61; 0x7C; 0x2A] ++ [0x22]) true None = Ok q /\ name_terms q = [[0x61; 0x7C; 0x2A]].
Proof.
  assert (Hn : forall x, x = 0x22 \/ x = 0x5C \/ x = 0x2F -> x ∉ [0x61; 0x7C; 0x2A]).
  { intros x Hx. rewrite !not_elem_of_cons. split_and!; try (destruct Hx as [-> |[-> | ->]]; done). apply not_elem_of_nil. }
  eexists. split; [apply (quoted_text_is_literal (H:=no_unicode) [0x61; 0x7C; 0x2A] true None); [done|apply Hn; tauto..]|].
  vm_compute. reflexivity.
Defined.

(** ** What a parsed query holds *)

Section shape.
Context `{Unicode}.

(** Terms are non-empty texts, folded as the query's case sensitivity says;
    wildcards are compiled from such texts. *)
Definition term_ok (case : bool) (t : list N) : Prop := exists s, s <> [] /\ t = fold_term case s.
Definition path_ok (case : bool) (t : list N) : Prop := exists s, s <> [] /\ 0x2F ∉ s /\ t = fold_term case s.

Definition filters_shape (f : Filters) : Prop :=
  (forall l, ext f = Some l -> l <> []) /\
  (forall r, fsize f = Some r -> smin r <= u64_max /\ smax r <= u64_max) /\
  (forall d, date f = Some d -> filter_ok d).

Record query_ok (case : bool) (q : ParsedQuery) : Prop := {
  q_case : match_case q = case;
  q_names : Forall (term_ok case) (name_terms q);
  q_paths : Forall (path_ok case) (path_terms q);
  q_wild : Forall (fun w => exists p, term_ok case p /\ w = compile p) (wildcards q);
  q_pathwild : Forall (fun w => exists p, path_ok case p /\ w = compile p) (path_wildcards q);
  q_filters : filters_shape (filters q)
}.

Lemma Forall_snoc_2 {A} (P : A -> Prop) l x : Forall P l -> P x -> Forall P (l ++ [x]).
Proof. intros. apply Forall_app. split; [done|]. by apply Forall_singleton. Qed.

Lemma slashes_free text : 0x2F ∉ slashes text.
Proof. unfold slashes. intros (b & E & _)%list_elem_of_fmap. destruct (N.eqb_spec b 0x2F); congruence. Qed.

Lemma push_text_ok case text qt p q : query_ok case q -> query_ok case (push_text_term (fold_term case) text qt p q).
Proof.
  intros [Q1 Q2 Q3 Q4 Q5 Q6]. destruct text as [|c text]; [by split|]. unfold push_text_term. set (s := c :: text).
  assert (Hp : path_ok case (fold_term case (slashes s))) by (exists (slashes s); split_and!; [done|apply slashes_free|done]).
  assert (Ht : term_ok case (fold_term case s)) by (by exists s).
  destruct (p || contains_any [0x5C; 0x2F] s); destruct (contains_any [0x2A; 0x3F] s && _); split; simpl; try done;
    apply Forall_snoc_2; eauto.
Qed.

Lemma with_filters_ok case q f : query_ok case q -> filters_shape f -> query_ok case (with_filters f q).
Proof. intros [Q1 Q2 Q3 Q4 Q5 Q6] Hf. by split. Qed.

Lemma parse_bytes_max s n : parse_bytes s = Some n -> n <= u64_max.
Proof.
  unfold parse_bytes. destruct (match strip_suffix (str "tb") _ with Some n => _ | None => _ end) as [num mult].
  intros (v & _ & E)%bind_Some. destruct (N.leb_spec (v * mult) u64_max); [|done]. by injection E as <-.
Qed.

Lemma size_side_max d s n : d <= u64_max -> size_side d s = Ok n -> n <= u64_max.
Proof.
  unfold size_side. intros Hd. destruct (trim s); [by intros [= <-]|]. intros E%ok_or_inv. by eapply parse_bytes_max.
Qed.

Lemma parse_size_max v r : parse_size v = Ok r -> smin r <= u64_max /\ smax r <= u64_max.
Proof.
  unfold parse_size. destruct (named_size (trim v)) as [r0|] eqn:En.
  { intros [= <-]. unfold named_size in En. repeat case_bool_decide; simplify_eq; vm_compute; split; congruence. }
  destruct (split_once _ _) as [[lo hi]|].
  { intros (a & Ha%size_side_max & E)%result_bind_ok; [|done]. apply result_bind_ok in E as (b & Hb%size_side_max & [= <-]); [|done].
    by split. }
  destruct (size_op _) as [[op rest]|].
  - intros (n & Hn%ok_or_inv%parse_bytes_max & [= <-])%result_bind_ok. unfold size_compare.
    destruct op as [|[|[|op]]]; simpl; lia.
  - intros (n & Hn%ok_or_inv%parse_bytes_max & [= <-])%result_bind_ok. done.
Qed.

Lemma date_and_ok a b : filter_ok a -> filter_ok b -> filter_ok (date_and a b).
Proof. destruct a, b; simpl; unfold in_i64, i64_min, i64_max; lia. Qed.

Lemma parse_token_ok case mp clock q tok q' :
  (forall c, clock = Some c -> ClockOk c) -> query_ok case q ->
  parse_token clock (fold_term case) mp q tok = Ok q' -> query_ok case q'.
Proof.
  intros Hclock Hq. pose proof (q_filters _ _ Hq) as (F1 & F2 & F3). unfold parse_token. destruct (is_directive tok); [by intros [= <-]|].
  assert (Hpush : forall t qt p q0, query_ok case q0 -> query_ok case (push_text_term (fold_term case) t qt p q0)) by (intros; by apply push_text_ok).
  destruct (func_colon tok) as [colon|]; [|intros [= <-]; by apply Hpush].
  intros (a & Ea & [= <-])%result_bind_ok. destruct a as [q1|]; [|by apply Hpush]. unfold func_term in Ea.
  repeat (case_bool_decide; [|]); try done; try by destruct (forallb _ _).
  - injection Ea as <-. destruct (ext_values _) as [|e es] eqn:Ee; [done|]. apply with_filters_ok; [done|]. split_and!; [|done..].
    intros l [= <-]. done.
  - apply result_bind_ok in Ea as (r & Hr%parse_size_max & [= <-]). apply with_filters_ok; [done|]. split_and!; [done| |done].
    by intros ? [= <-].
  - apply result_bind_ok in Ea as (c & ->%ok_or_inv & Ea). apply result_bind_ok in Ea as (d & Hd & [= <-]).
    assert (Hd' : filter_ok d) by (pose proof (Hclock c eq_refl); by eapply date_filter_i64).
    apply with_filters_ok; [done|]. split_and!; [done..|]. intros ? [= <-]. destruct (date (filters q)) as [e|] eqn:Ed; [|done].
    apply date_and_ok; [by apply F3|done].
  - injection Ea as <-. by apply Hpush.
  - injection Ea as <-. by apply Hpush, with_filters_ok.
  - injection Ea as <-. by apply Hpush, with_filters_ok.
Qed.

Lemma parse_tokens_ok case mp clock toks : forall q q',
  (forall c, clock = Some c -> ClockOk c) -> query_ok case q ->
  parse_tokens clock (fold_term case) mp toks q = Ok q' -> query_ok case q'.
Proof.
  induction toks as [|tok toks IH]; intros q q' Hc Hq; simpl; [by intros [= <-]|].
  intros (q1 & Hq1%parse_token_ok & E)%result_bind_ok; [|done..]. by eapply IH.
Qed.
End shape.

(** C32: a query that parses is in order: its case sensitivity is the last
    [case:] directive's or else the caller's; every name and path term is a
    non-empty text, folded exactly when the query ignores case, paths with
    backslashes only; every wildcard is compiled from such a text; an [ext:]
    list is never empty, sizes are [u64]s and dates [i64]s; and it holds at most
    256 terms. *)
Theorem parsed_query_ok `{Unicode} input case clock q :
  (forall c, clock = Some c -> ClockOk c) -> parse input case clock = Ok q ->
  exists toks, tokenize input = Ok toks /\ query_ok (directive case_directive case toks) q /\ (term_count q <= MAX_QUERY_TERMS)%nat.
Proof.
  intros Hc. unfold parse. intros (toks & Ht & E)%result_bind_ok. apply result_bind_ok in E as (q' & Hq & E).
  exists toks. destruct (Nat.ltb_spec MAX_QUERY_TERMS (term_count q')); [done|]. injection E as <-.
  split_and!; [done| |lia]. eapply parse_tokens_ok; [done| |done]. split; simpl; try constructor; try done.
Qed.

(** UTC, for times since 1601. *)
Definition utc_clock (now : Z) : LocalClock :=
  {| clock_now := now; to_local := fun u => if ((0 <=? u) && (u <=? i64_max))%Z then Some u else None;
     to_utc := fun l => if ((0 <=? l) && (l <=? i64_max))%Z then Some l else None; week_start := 0%Z |}.

#[local] Instance utc_clock_ok now : in_i64 now -> ClockOk (utc_clock now).
Proof.
  intros Hn. split; [done|..]; intros u l E; simpl in E; destruct ((0 <=? u) && (u <=? i64_max))%Z eqn:Eu; simplify_eq;
    apply andb_true_iff in Eu as [?%Z.leb_le ?%Z.leb_le]; unfold in_i64, i64_min in *; lia.
Qed.

(** [a dm:today] on 2026-11-03 in UTC. *)
Lemma parsed_query_ok_witness :
  exists q, parse (H:=no_unicode) (str "a dm:today") false (Some (utc_clock 134382150000000000)) = Ok q /\ (term_count q <= 256)%nat.
Proof.
  destruct (parse (H:=no_unicode) (str "a dm:today") false (Some (utc_clock 134382150000000000))) as [q|e] eqn:E.
  2: { vm_compute in E. discriminate E. }
  exists q. split; [reflexivity|]. refine (match parsed_query_ok (H:=no_unicode) _ _ _ q _ E with ex_intro _ _ (conj _ (conj _ Hc)) => Hc end).
  intros c Hc. injection Hc as <-. apply utc_clock_ok. split; vm_compute; congruence.
Defined.

(** ** Sizes *)

(** Bytes that trimming and lowercasing leave alone. *)
Definition plain (s : list N) : Prop := Forall (fun b => b < 0x80 /\ is_whitespace b = false /\ ascii_lower b = b) s.

Lemma plain_ascii s : plain s -> is_ascii s = true.
Proof. intros Hs. apply forallb_forall. intros b Hb%list_elem_of_In. apply N.ltb_lt. by apply (proj1 (Forall_forall _ _) Hs). Qed.

Lemma plain_trim s : plain s -> trim s = s.
Proof.
  intros Hs. unfold trim. rewrite code_points_ascii by (by apply plain_ascii).
  assert (Hw : forall x, x ∈ s -> is_whitespace x = false) by (intros x Hx; by apply (proj1 (Forall_forall _ _) Hs)).
  rewrite trim_list_id.
  - apply (flat_map_encode_ascii s). by apply plain_ascii.
  - intros x Hx. apply Hw. by apply head_Some_elem_of.
  - intros x Hx. apply Hw. by apply last_Some_elem_of.
Qed.

Lemma plain_lower s : plain s -> to_ascii_lowercase s = s.
Proof.
  induction 1 as [|b s (_ & _ & Hb) _ IH]; [done|]. cbn. rewrite Hb. f_equal. exact IH.
Qed.

Definition digits_ok (ds : list N) : Prop := ds <> [] /\ Forall (fun b => is_ascii_digit b = true) ds.

Lemma digit_range b : is_ascii_digit b = true -> 0x30 <= b <= 0x39.
Proof. unfold is_ascii_digit. rewrite andb_true_iff, !N.leb_le. done. Qed.

Lemma digit_plain b : is_ascii_digit b = true -> b < 0x80 /\ is_whitespace b = false /\ ascii_lower b = b.
Proof.
  intros Hb%digit_range. assert (E : check_below 0x3A (fun b => (b <? 0x30) || (negb (is_whitespace b) && (ascii_lower b =? b))) = true) by (vm_compute; reflexivity).
  pose proof (check_below_spec _ _ b E ltac:(lia)) as Hc. cbv beta in Hc. rewrite (proj2 (N.ltb_ge _ _)) in Hc by lia. simpl in Hc.
  apply andb_true_iff in Hc as [?%negb_true_iff ?%N.eqb_eq]. split_and!; [lia|done|done].
Qed.

Lemma digits_plain ds : digits_ok ds -> plain ds.
Proof. intros [_ Hd]. eapply Forall_impl; [exact Hd|]. intros b. apply digit_plain. Qed.

Lemma plain_app a b : plain (a ++ b) <-> plain a /\ plain b.
Proof. apply Forall_app. Qed.

(** The units a number may carry. *)
Definition size_units : list (list N * N) :=
  [([], 1); (str "b", 1); (str "kb", KB); (str "mb", MB); (str "gb", GB); (str "tb", TB)].

Lemma plain_str s : forallb (fun b => (b <? 0x80) && negb (is_whitespace b) && (ascii_lower b =? b)) s = true -> plain s.
Proof.
  intros Hs. apply Forall_forall. intros b Hb%list_elem_of_In. apply (proj1 (forallb_forall _ _) Hs) in Hb.
  apply andb_true_iff in Hb as [[?%N.ltb_lt ?%negb_true_iff]%andb_true_iff ?%N.eqb_eq]. done.
Qed.

Lemma strip_suffix_digits p ds r : digits_ok ds -> 0x62 ∈ p -> strip_suffix p ds = Some r -> False.
Proof.
  intros [_ Hd] Hp ->%strip_suffix_Some. apply Forall_app in Hd as [_ Hd]. by apply (proj1 (Forall_forall _ _) Hd) in Hp.
Qed.

Lemma strip_suffix_digits_b c ds r : digits_ok ds -> is_ascii_digit c = false -> strip_suffix [c; 0x62] (ds ++ [0x62]) = Some r -> False.
Proof.
  intros [Hne Hd] Hc E%strip_suffix_Some. change [c; 0x62] with ([c] ++ [0x62]) in E. rewrite app_assoc in E. apply app_inj_2 in E as [-> _]; [|done].
  apply Forall_app in Hd as [_ Hd]. apply (proj1 (Forall_singleton _ _)) in Hd. congruence.
Qed.

Lemma strip_suffix_app p s : strip_suffix p (s ++ p) = Some s.
Proof. by apply strip_suffix_Some. Qed.

Lemma strip_other c c' ds : c <> c' -> strip_suffix [c; 0x62] (ds ++ [c'; 0x62]) = None.
Proof.
  intros Hc. destruct (strip_suffix _ _) eqn:E; [|done]. apply strip_suffix_Some in E. by apply app_inj_2 in E as [_ [= ?]].
Qed.

Lemma parse_u64_digits ds n : digits_ok ds -> digits_value ds 0 = Some n -> n <= u64_max -> parse_u64 (trim ds) = Some n.
Proof.
  intros Hd Hv Hn. rewrite plain_trim by (by apply digits_plain). unfold parse_u64, parse_unsigned. destruct Hd as [Hne Hd].
  destruct ds as [|b ds]; [done|]. apply Forall_cons in Hd as [Hb _]. apply digit_range in Hb.
  rewrite (proj2 (N.eqb_neq b 0x2B)) by lia. unfold parse_digits. rewrite Hv. simpl. by rewrite (proj2 (N.leb_le _ _)).
Qed.

(** A number with a unit is its value times the unit. *)
Lemma parse_bytes_number ds n unit mult :
  digits_ok ds -> digits_value ds 0 = Some n -> (unit, mult) ∈ size_units -> n * mult <= u64_max -> 0 < mult ->
  parse_bytes (ds ++ unit) = Some (n * mult).
Proof.
  intros Hd Hv Hu Hm Hpos. assert (Hn : n <= u64_max) by nia.
  assert (Hp : plain (ds ++ unit)).
  { apply plain_app. split; [by apply digits_plain|]. unfold size_units in Hu. rewrite !elem_of_cons, elem_of_nil in Hu.
    repeat (destruct Hu as [[= -> ->]|Hu]; [by apply plain_str|]). done. }
  assert (Hgo : forall num, num = ds -> (value ← parse_u64 (trim num); if value * mult <=? u64_max then Some (value * mult) else None) = Some (n * mult)).
  { intros ? ->. rewrite (parse_u64_digits ds n) by done. simpl. by rewrite (proj2 (N.leb_le _ _)). }
  unfold parse_bytes. rewrite plain_trim, plain_lower by done. clear Hp. unfold size_units in Hu. rewrite !elem_of_cons, elem_of_nil in Hu.
  assert (Hone : forall p r, 0x62 ∈ p -> strip_suffix p ds = Some r -> False) by (intros p r; by apply strip_suffix_digits).
  assert (Htwo : forall c r, is_ascii_digit c = false -> strip_suffix [c; 0x62] (ds ++ [0x62]) = Some r -> False)
    by (intros c r; by apply strip_suffix_digits_b).
  assert (Hb : forall p, 0x62 ∈ p -> strip_suffix p ds = None) by (intros p Hin; destruct (strip_suffix p ds) eqn:E; [by destruct (Hone p l Hin E)|done]).
  assert (Hcb : forall c, is_ascii_digit c = false -> strip_suffix [c; 0x62] (ds ++ [0x62]) = None)
    by (intros c Hc; destruct (strip_suffix _ _) eqn:E; [by destruct (Htwo c l Hc E)|done]).
  change (str "tb") with [0x74; 0x62] in *. change (str "gb") with [0x67; 0x62] in *. change (str "mb") with [0x6D; 0x62] in *.
  change (str "kb") with [0x6B; 0x62] in *. change (str "b") with [0x62] in *.
  assert (Hin2 : forall c, 0x62 ∈ [c; 0x62]) by (intros; right; left). assert (Hin1 : 0x62 ∈ [0x62]) by left.
  repeat (destruct Hu as [[= -> ->]|Hu];
    [rewrite ?app_nil_r, ?strip_other, ?strip_suffix_app, ?Hcb, ?strip_suffix_app, ?Hb by done; by apply Hgo|]). done.
Qed.

Lemma named_size_digits v : existsb is_ascii_digit (to_ascii_lowercase v) = true -> named_size v = None.
Proof.
  intros Hv. unfold named_size. repeat (case_bool_decide as E; [rewrite E in Hv; clear E; vm_compute in Hv; discriminate Hv|clear E]). done.
Qed.

Lemma split_once_no_dot v : 0x2E ∉ v -> split_once (str "..") v = None.
Proof.
  intros Hv. destruct (split_once _ v) as [[l r]|] eqn:E; [|done]. apply split_once_Some in E. subst v.
  exfalso. apply Hv. rewrite !elem_of_app. right. left. change (str "..") with [0x2E; 0x2E]. left.
Qed.

(** A text a size is written in, after its operator. *)
Definition amount (a : list N) (total : N) : Prop :=
  exists ds n unit mult, a = ds ++ unit /\ digits_ok ds /\ digits_value ds 0 = Some n /\ (unit, mult) ∈ size_units /\
    total = n * mult /\ total <= u64_max.

Lemma amount_facts a total :
  amount a total ->
  parse_bytes a = Some total /\ plain a /\ existsb is_ascii_digit a = true /\ 0x2E ∉ a /\
  (exists b a', a = b :: a' /\ is_ascii_digit b = true).
Proof.
  intros (ds & n & unit & mult & -> & Hd & Hv & Hu & -> & Hm).
  assert (Hunit : plain unit /\ 0x2E ∉ unit /\ 0 < mult).
  { unfold size_units in Hu. rewrite !elem_of_cons, elem_of_nil in Hu.
    repeat (destruct Hu as [[= -> ->]|Hu]; [split_and!; [by apply plain_str| |done];
      apply (bool_decide_unpack _); vm_compute; exact I|]). done. }
  destruct Hunit as (Hpu & Hdot & Hpos). pose proof (digits_plain ds Hd) as Hp. split_and!.
  - by apply parse_bytes_number.
  - by apply plain_app.
  - destruct Hd as [Hne Hd]. destruct ds as [|b ds]; [done|]. apply Forall_cons in Hd as [Hb _]. simpl. by rewrite Hb.
  - rewrite elem_of_app. intros [Hin|Hin]; [|done]. apply (proj1 (Forall_forall _ _) (proj2 Hd)), digit_range in Hin. lia.
  - destruct Hd as [Hne Hd]. destruct ds as [|b ds]; [done|]. apply Forall_cons in Hd as [Hb _]. by exists b, (ds ++ unit).
Qed.

(** A size with an operator in front of an amount. *)
Lemma parse_size_amount op a total :
  amount a total -> plain op -> 0x2E ∉ op ->
  parse_size (op ++ a) =
  match size_op (op ++ a) with
  | Some (o, rest) => n <-? ok_or (size_malformed rest) (parse_bytes rest); Ok (size_compare o n)
  | None => n <-? ok_or (size_malformed (op ++ a)) (parse_bytes (default (op ++ a) (strip_prefix (str "=") (op ++ a)))); Ok {| smin := n; smax := n |}
  end.
Proof.
  intros Ha Hop Hdot. destruct (amount_facts a total Ha) as (_ & Hp & Hdig & Hadot & _).
  assert (Hpl : plain (op ++ a)) by (by apply plain_app).
  unfold parse_size. rewrite plain_trim by done. rewrite named_size_digits.
  2: { rewrite plain_lower by done. rewrite existsb_app, Hdig. apply orb_true_r. }
  rewrite split_once_no_dot by (rewrite elem_of_app; tauto). done.
Qed.

(** Evaluates the operators in a goal. *)
Ltac eval_ops :=
  change (str ">=") with [0x3E; 0x3D]; change (str "<=") with [0x3C; 0x3D]; change (str ">") with [0x3E];
  change (str "<") with [0x3C]; change (str "=") with [0x3D]; cbn -[parse_bytes N.eqb];
  repeat match goal with
  | |- context [N.pos ?x =? N.pos ?y] =>
      let v := eval vm_compute in (N.pos x =? N.pos y) in change (N.pos x =? N.pos y) with v; cbn -[parse_bytes N.eqb]
  end.

(** Sizes compare as they read: with an amount written in digits and a unit
    ([kb], [mb], [gb] and [tb] are powers of 1024), a bare amount and [=] accept
    exactly that size, and [>=], [<=], [>] and [<] accept exactly the sizes that
    stand in that relation to it; [<] needs an amount above zero (see
    [size_below_zero]) and [>] one below the largest [u64]. *)
Theorem size_comparison_correct a total s :
  amount a total -> s <= u64_max ->
  (exists r, parse_size a = Ok r /\ (size_contains r s = true <-> s = total)) /\
  (exists r, parse_size (str "=" ++ a) = Ok r /\ (size_contains r s = true <-> s = total)) /\
  (exists r, parse_size (str ">=" ++ a) = Ok r /\ (size_contains r s = true <-> total <= s)) /\
  (exists r, parse_size (str "<=" ++ a) = Ok r /\ (size_contains r s = true <-> s <= total)) /\
  (total < u64_max -> exists r, parse_size (str ">" ++ a) = Ok r /\ (size_contains r s = true <-> total < s)) /\
  (0 < total -> exists r, parse_size (str "<" ++ a) = Ok r /\ (size_contains r s = true <-> s < total)).
Proof.
  intros Ha Hs. destruct (amount_facts a total Ha) as (Hb & _ & _ & _ & b & a' & Eab & Hdig). apply digit_range in Hdig.
  assert (Hop : forall op, op ∈ [[]; str "="; str ">="; str "<="; str ">"; str "<"] -> plain op /\ 0x2E ∉ op).
  { intros op Hin. rewrite !elem_of_cons, elem_of_nil in Hin.
    repeat (destruct Hin as [-> |Hin]; [split; [by apply plain_str|apply (bool_decide_unpack _); vm_compute; exact I]|]). done. }
  assert (Hps : forall op, op ∈ [[]; str "="; str ">="; str "<="; str ">"; str "<"] -> _) by (intros op Hin; destruct (Hop op Hin); by apply (parse_size_amount op a total)).
  assert (Hne : forall c, ~ 0x30 <= c <= 0x39 -> (c =? b) = false) by (intros c Hc; apply N.eqb_neq; lia).
  unfold size_contains. split_and!; [| | | |intros Hlt|intros Hlt].
  - rewrite <- (app_nil_l a), Hps by left. unfold size_op. rewrite Eab. eval_ops. rewrite !Hne by lia. eval_ops. rewrite <- Eab, Hb. cbn.
    eexists. split; [done|]. simpl. rewrite andb_true_iff, !N.leb_le. lia.
  - rewrite Hps by (right; left). unfold size_op. eval_ops. rewrite Hb. cbn.
    eexists. split; [done|]. simpl. rewrite andb_true_iff, !N.leb_le. lia.
  - rewrite Hps by (do 2 right; left). unfold size_op. eval_ops. rewrite Hb. cbn.
    eexists. split; [done|]. simpl. rewrite andb_true_iff, !N.leb_le. lia.
  - rewrite Hps by (do 3 right; left). unfold size_op. eval_ops. rewrite Hb. cbn.
    eexists. split; [done|]. simpl. rewrite andb_true_iff, !N.leb_le. lia.
  - rewrite Hps by (do 4 right; left). unfold size_op. eval_ops. rewrite Eab. eval_ops. rewrite !Hne by lia. eval_ops. rewrite <- Eab, Hb. cbn.
    eexists. split; [done|]. simpl. rewrite andb_true_iff, !N.leb_le. lia.
  - rewrite Hps by (do 5 right; left). unfold size_op. eval_ops. rewrite Eab. eval_ops. rewrite !Hne by lia. eval_ops. rewrite <- Eab, Hb. cbn.
    eexists. split; [done|]. simpl. rewrite andb_true_iff, !N.leb_le. lia.
Qed.

Lemma amount_10kb : amount (str "10kb") 10240.
Proof.
  exists (str "10"), 10, (str "kb"), KB. split_and!; try (vm_compute; congruence); try done.
  - split; [done|]. repeat constructor.
  - right. right. left.
Qed.

Lemma size_comparison_correct_witness :
  exists r, parse_size (str ">" ++ str "10kb") = Ok r /\ size_contains r 10241 = true.
Proof.
  destruct (size_comparison_correct (str "10kb") 10240 10241 amount_10kb) as (_ & _ & _ & _ & (r & E & Hr) & _);
    [vm_compute; congruence|vm_compute; congruence|]. exists r. split; [exact E|]. apply Hr. vm_compute. reflexivity.
Defined.

(** [size:<0] accepts empty files: the bound is [0.saturating_sub(1)], which is
    0, so the filter means "at most zero". *)
Lemma size_below_zero : exists r, parse_size (str "<0") = Ok r /\ size_contains r 0 = true.
Proof. eexists. split; vm_compute; reflexivity. Qed.
