(* ===== verification/Prefilter.v ===== *)
(** The prefilter scan: [for_each_prefilter_hit] and
    [for_each_prefilter_hit_in] of [crates/goz-core/src/query/engine.rs].

    One substring search over the contiguous folded arena finds every distinct
    name holding a needle.  The searcher itself ([memchr::memmem]) is an
    interface with its documented behaviour. *)

From stdpp Require Import gmap.
From stdpp Require Import base option list sets sorting.
From Stdlib Require Import NArith Lia.
From S2P Require Import Prelude Fold NameStore.

(** [needle] occurs in [hay] at byte [p]. *)
Definition occurs (needle hay : list N) (p : N) : Prop := p + len needle <= len hay /\ slice p (len needle) hay = needle.

(** [memchr::memmem::find] and [memchr::{memchr, memrchr}]: the first, and the
    last, occurrence. *)
Class Memchr := {
  memmem_find : list N -> list N -> option N;
  memchr : N -> list N -> option N;
  memrchr : N -> list N -> option N
}.
Class MemchrOk (M : Memchr) := {
  memmem_some needle hay p : memmem_find needle hay = Some p -> occurs needle hay p /\ forall q, q < p -> ~ occurs needle hay q;
  memmem_none needle hay : memmem_find needle hay = None -> forall p, ~ occurs needle hay p;
  memchr_some c s p : memchr c s = Some p -> getN p s = Some c /\ forall q, q < p -> getN q s <> Some c;
  memchr_none c s : memchr c s = None -> c ∉ s;
  memrchr_some c s p : memrchr c s = Some p -> getN p s = Some c /\ forall q, p < q -> getN q s <> Some c;
  memrchr_none c s : memrchr c s = None -> c ∉ s
}.

Section scan.
Context {M : Memchr}.

Definition folded_off (ns : NameStore) (i : N) : option N := p ← getN i (pairs ns); Some (off (folded_ref p)).

(** [partition_point] over the ids from [i] on, [n] of them: how many lead with
    an offset at most [pos]. *)
Fixpoint offs_until (ns : NameStore) (pos i : N) (n : nat) : option N :=
  match n with
  | O => Some 0
  | S n =>
      o ← folded_off ns i;
      if o <=? pos then k ← offs_until ns pos (i + 1) n; Some (k + 1) else Some 0
  end.

(** [while cursor + 1 < ids.end && pairs[cursor + 1].folded.off <= pos]. *)
Fixpoint advance (ns : NameStore) (pos stop : N) (fuel : nat) (cursor : N) : option N :=
  match fuel with
  | O => None
  | S fuel =>
      if cursor + 1 <? stop then
        o ← folded_off ns (cursor + 1);
        if o <=? pos then advance ns pos stop fuel (cursor + 1) else Some cursor
      else Some cursor
  end.

(** The loop: where it searches on, the cursor and whether it is seeded; the
    ids it calls [f] on. *)
Fixpoint prefilter_loop (fuel : nat) (ns : NameStore) (needle hay : list N) (lo hi pos_at cursor : N) (seeded : bool)
  : option (list N) :=
  match fuel with
  | O => None
  | S fuel =>
      match (if len hay <? pos_at then None else memmem_find needle (drop (N.to_nat pos_at) hay)) with
      | None => Some []
      | Some rel =>
          let pos := pos_at + rel in
          cursor ← (if seeded then advance ns pos hi (N.to_nat (hi - cursor) + 1) cursor
                    else k ← offs_until ns pos lo (N.to_nat (hi - lo)); Some (lo + (k - 1)));
          name ← getN cursor (pairs ns);
          let name := folded_ref name in
          rest ← prefilter_loop fuel ns needle hay lo hi (N.max (off name + nlen name + 1) (pos + 1)) cursor true;
          Some (cursor :: rest)
      end
  end.

(** The ids [f] is called on, in order. *)
Definition for_each_prefilter_hit_in (ns : NameStore) (needle : list N) (lo hi : N) : option (list N) :=
  if bool_decide (0 ∈ needle) || (hi <=? lo) then Some []
  else
    let hay := folded ns in
    let hay := match folded_off ns hi with Some o => take (N.to_nat o) hay | None => hay end in
    start ← folded_off ns lo;
    prefilter_loop (N.to_nat (hi - lo) + 1) ns needle hay lo hi start lo false.

Definition for_each_prefilter_hit (ns : NameStore) (needle : list N) : option (list N) :=
  for_each_prefilter_hit_in ns needle 0 (ids ns).
End scan.

(** ** Correctness *)

Section correctness.
Context `{Unicode, Hasher} {M : Memchr} {Mok : MemchrOk M}.
Context (ns : NameStore) (gs : list Slot) (R : repr ns gs).
Context (needle : list N) (Hne : needle <> []) (Hnul : 0 ∉ needle).

(** Where the [i]-th name starts in the arena. *)
Definition at_ (i : N) : N := seg_off (map fseg gs) i.

Definition holds (i : N) : Prop := exists g p, getN i gs = Some g /\ occurs needle (sfold g) p.

Lemma at_next i g : getN i gs = Some g -> at_ (i + 1) = at_ i + len (sfold g) + 1.
Proof.
  unfold getN. intros Hg. unfold at_, seg_off. replace (N.to_nat (i + 1)) with (S (N.to_nat i)) by lia.
  rewrite (take_S_r _ _ (fseg g)) by (by rewrite list_lookup_fmap, Hg).
  rewrite concat_app, len_app. simpl. rewrite app_nil_r, len_fseg. lia.
Qed.

Lemma at_lt i j : i < j -> j <= len gs -> at_ i < at_ j.
Proof.
  intros Hij. replace j with (i + 1 + (j - i - 1)) by lia. generalize (j - i - 1) as n. clear Hij j.
  induction n as [|n IH] using N.peano_ind; intros Hj.
  - destruct (getN_is_Some i gs) as [g Hg]; [lia|]. rewrite N.add_0_r, (at_next i g Hg). lia.
  - destruct (getN_is_Some (i + 1 + n) gs) as [g Hg]; [lia|]. rewrite <- N.add_1_r, N.add_assoc, (at_next _ g Hg). lia.
Qed.

Lemma at_le i j : i <= j -> j <= len gs -> at_ i <= at_ j.
Proof. intros Hij Hj. destruct (decide (i = j)) as [->|]; [done|]. pose proof (at_lt i j). lia. Qed.

Lemma at_end : at_ (len gs) = len (folded ns).
Proof. rewrite (r_folded _ _ R). unfold at_, seg_off, len. rewrite Nat2N.id, take_ge by (by rewrite length_fmap). done. Qed.

Lemma folded_off_at i : i < len gs -> folded_off ns i = Some (at_ i).
Proof.
  intros Hi. destruct (getN_is_Some i gs Hi) as [g Hg]. unfold folded_off. rewrite (getN_pairs _ gs _ R), Hg. done.
Qed.

(** A position of the arena belongs to one name. *)
Lemma at_inj i j pos : i < len gs -> j < len gs -> at_ i <= pos < at_ (i + 1) -> at_ j <= pos < at_ (j + 1) -> i = j.
Proof.
  intros Hi Hj H1 H2. destruct (N.lt_trichotomy i j) as [Hlt|[?|Hlt]]; [|done|].
  - pose proof (at_le (i + 1) j). lia.
  - pose proof (at_le (j + 1) i). lia.
Qed.

(** The part of the arena searched: up to the end of the range. *)
Context (hi : N) (Hhi : hi <= len gs).
Definition hay : list N := take (N.to_nat (at_ hi)) (folded ns).

Lemma len_hay : len hay = at_ hi.
Proof. unfold hay. pose proof (at_le hi (len gs) Hhi (N.le_refl _)). rewrite at_end in *. unfold len in *. rewrite length_take. lia. Qed.

Lemma slice_hay p n : p + n <= at_ hi -> slice p n hay = slice p n (folded ns).
Proof. intros Hp. unfold slice, hay. rewrite <- take_drop_commute || idtac. rewrite skipn_firstn_comm, take_take. f_equal. lia. Qed.

(** A match in the searched part is a match in a name of the range, and back. *)
Lemma occurs_hay p :
  occurs needle hay p -> exists i g, i < hi /\ getN i gs = Some g /\ at_ i <= p < at_ (i + 1) /\ p + len needle <= at_ (i + 1) /\
    occurs needle (sfold g) (p - at_ i).
Proof.
  intros [Hb Hs]. rewrite len_hay in Hb. rewrite slice_hay in Hs by done.
  assert (Hb' : p + len needle <= len (folded ns)) by (rewrite <- at_end; pose proof (at_le hi (len gs)); lia).
  rewrite (r_folded _ _ R) in Hb', Hs. destruct (match_in_segment gs needle p Hne Hnul Hb' Hs) as (i & g & Hi & H1 & H2).
  fold (at_ i) in H1, H2. pose proof (getN_lt _ _ _ Hi) as Hilt. pose proof (at_next i g Hi) as Hn.
  assert (Hl : 0 < len needle) by (destruct needle; [done|]; unfold len; simpl; lia).
  exists i, g. split_and!; try done; try lia.
  - destruct (N.lt_ge_cases i hi) as [|Hge]; [done|]. pose proof (at_le hi i Hge). lia.
  - split; [lia|]. rewrite <- Hs at 2. replace p with (at_ i + (p - at_ i)) at 2 by lia. unfold at_ in *.
    rewrite (slice_in_seg _ _ (fseg g)); [|by rewrite getN_map, Hi|rewrite len_fseg; lia].
    symmetry. change (fseg g) with (sfold g ++ [0]). apply slice_app_in. lia.
Qed.

Lemma holds_occurs i g p : i < hi -> getN i gs = Some g -> occurs needle (sfold g) p -> occurs needle hay (at_ i + p).
Proof.
  intros Hi Hg [Hb Hs]. pose proof (at_next i g Hg) as Hn. pose proof (at_le (i + 1) hi). split; [rewrite len_hay; lia|].
  rewrite slice_hay by lia. rewrite (r_folded _ _ R). unfold at_. rewrite (slice_in_seg _ _ (fseg g)); [|by rewrite getN_map, Hg|rewrite len_fseg; lia].
  change (fseg g) with (sfold g ++ [0]). rewrite slice_app_in by lia. done.
Qed.

(** Searching on from the start of name [k]. *)
Lemma occurs_drop a p : a <= len hay -> occurs needle (drop (N.to_nat a) hay) p <-> occurs needle hay (a + p).
Proof.
  intros Ha. unfold occurs, slice. rewrite drop_drop. replace (N.to_nat a + N.to_nat p)%nat with (N.to_nat (a + p)) by lia.
  unfold len in *. rewrite length_drop. split; intros [? ?]; (split; [lia|done]).
Qed.

Lemma find_none k :
  k <= hi -> memmem_find needle (drop (N.to_nat (at_ k)) hay) = None -> forall i, k <= i < hi -> ~ holds i.
Proof.
  intros Hk Hf i Hi (g & p & Hg & Ho). apply (holds_occurs i g p) in Ho; [|lia|done]. pose proof (at_le k i).
  assert (Ha : at_ k <= len hay) by (rewrite len_hay; pose proof (at_le k hi); lia).
  apply (memmem_none _ _ Hf (at_ i + p - at_ k)). apply occurs_drop; [done|]. by replace (at_ k + (at_ i + p - at_ k)) with (at_ i + p) by lia.
Qed.

Lemma find_some k rel :
  k <= hi -> memmem_find needle (drop (N.to_nat (at_ k)) hay) = Some rel ->
  exists i g, k <= i < hi /\ getN i gs = Some g /\ at_ i <= at_ k + rel < at_ (i + 1) /\ holds i /\ forall j, k <= j < i -> ~ holds j.
Proof.
  intros Hk [Ho Hmin]%memmem_some. assert (Ha : at_ k <= len hay) by (rewrite len_hay; pose proof (at_le k hi); lia).
  apply occurs_drop in Ho; [|done]. destruct (occurs_hay _ Ho) as (i & g & Hi & Hg & Hp & _ & Hoc).
  pose proof (getN_lt _ _ _ Hg) as Hig.
  exists i, g. split_and!; try done; try lia.
  - destruct (N.le_gt_cases k i) as [|Hlt]; [done|]. pose proof (at_le (i + 1) k). lia.
  - by exists g, (at_ k + rel - at_ i).
  - intros j Hj (g' & p' & Hg' & Ho'). pose proof (getN_lt _ _ _ Hg') as Hjg. pose proof Ho' as [Hb' _].
    pose proof (at_next j g' Hg') as Hn'. pose proof (at_le (j + 1) i). pose proof (at_le k j).
    apply (holds_occurs j g' p') in Ho'; [|lia|done]. apply (Hmin (at_ j + p' - at_ k)); [lia|].
    apply occurs_drop; [done|]. by replace (at_ k + (at_ j + p' - at_ k)) with (at_ j + p') by lia.
Qed.

(** Both ways of finding the cursor give the name the match lies in. *)
Lemma offs_until_spec pos i n k :
  N.of_nat n + k <= len gs -> k <= i < k + N.of_nat n -> at_ i <= pos < at_ (i + 1) ->
  offs_until ns pos k n = Some (i - k + 1).
Proof.
  revert k. induction n as [|n IH]; intros k Hn Hi Hp; [lia|]. simpl. rewrite folded_off_at by lia. simpl.
  pose proof (at_le k i). rewrite (proj2 (N.leb_le _ _)) by lia. destruct (decide (k = i)) as [->|Hne'].
  - destruct n as [|n]; simpl; [f_equal; lia|]. rewrite folded_off_at by lia. simpl. rewrite (proj2 (N.leb_gt _ _)) by lia. simpl. f_equal. lia.
  - rewrite (IH (k + 1)) by lia. simpl. f_equal. lia.
Qed.

Lemma advance_spec pos i fuel c :
  c <= i -> i < hi -> at_ i <= pos < at_ (i + 1) -> (N.to_nat (hi - c) < fuel)%nat -> advance ns pos hi fuel c = Some i.
Proof.
  revert c. induction fuel as [|fuel IH]; intros c Hc Hi Hp Hf; [lia|]. simpl. destruct (decide (c = i)) as [->|Hne'].
  - destruct (N.ltb_spec (i + 1) hi); [|done]. rewrite folded_off_at by lia. simpl. by rewrite (proj2 (N.leb_gt _ _)) by lia.
  - rewrite (proj2 (N.ltb_lt _ _)) by lia. rewrite folded_off_at by lia. simpl. pose proof (at_le (c + 1) i).
    rewrite (proj2 (N.leb_le _ _)) by lia. apply IH; lia.
Qed.

(** What the loop calls on, from name [k] on: ascending, and exactly the names
    holding the needle. *)
Definition hits (k : N) (l : list N) : Prop :=
  StronglySorted N.lt l /\ forall i, i ∈ l <-> k <= i < hi /\ holds i.

Lemma prefilter_loop_spec lo fuel : forall k cursor seeded,
  lo <= k -> k <= hi -> (if seeded : bool then cursor <= k /\ cursor < hi else True) -> (N.to_nat (hi - k) < fuel)%nat ->
  exists l, prefilter_loop fuel ns needle hay lo hi (at_ k) cursor seeded = Some l /\ hits k l.
Proof.
  induction fuel as [|fuel IH]; intros k cursor seeded Hlo Hk Hs Hf; [lia|]. cbn [prefilter_loop].
  rewrite len_hay, (proj2 (N.ltb_ge _ _)) by (by apply at_le).
  destruct (memmem_find _ _) as [rel|] eqn:Ef.
  2: { exists []. split; [done|]. split; [constructor|]. intros i. rewrite elem_of_nil. split; [done|]. intros [Hi Hh].
       by apply (find_none k Hk Ef i). }
  destruct (find_some k rel Hk Ef) as (i & g & Hi & Hg & Hp & Hh & Hmin).
  pose proof (getN_lt _ _ _ Hg) as Hig.
  replace (if seeded then _ else _) with (Some i).
  2: { symmetry. destruct seeded.
       - apply advance_spec; (lia || done).
       - rewrite (offs_until_spec _ i) by (lia || done). simpl. f_equal. lia. }
  cbn [mbind option_bind]. rewrite (getN_pairs _ gs _ R), Hg. cbn [fmap option_fmap option_map mbind option_bind pair_of folded_ref off nlen].
  fold (at_ i). rewrite (N.max_l _ (at_ k + rel + 1)) by (rewrite <- (at_next i g Hg); lia). rewrite <- (at_next i g Hg).
  destruct (IH (i + 1) i true) as (l & El & Hsort & Hin); [lia|lia|lia|lia|]. rewrite El. simpl. exists (i :: l). split; [done|].
  split.
  - constructor; [done|]. apply Forall_forall. intros j Hj%Hin. lia.
  - intros j. rewrite elem_of_cons, Hin. split.
    + intros [-> |[? ?]]; (split; [lia|done]).
    + intros [Hj Hhj]. destruct (N.lt_trichotomy j i) as [Hlt|[->|Hlt]]; [|by left|right; split; [lia|done]].
      exfalso. apply (Hmin j); [lia|done].
Qed.
End correctness.

(** [needle] is a piece of [bs]. *)
Definition piece_of (needle bs : list N) : Prop := exists p, occurs needle bs p.

(** Searching the arena is searching the names. *)
Lemma prefilter_spec `{Unicode, Hasher} {M : Memchr} {Mok : MemchrOk M} ns needle lo hi :
  ns_ok ns -> needle <> [] -> 0 ∉ needle -> hi <= ids ns ->
  exists l, for_each_prefilter_hit_in ns needle lo hi = Some l /\ StronglySorted N.lt l /\
    forall i, i ∈ l <-> lo <= i < hi /\ exists bs, folded_bytes_of ns i = Some bs /\ piece_of needle bs.
Proof.
  intros [gs R] Hne Hnul Hhi. unfold ids in Hhi. rewrite (len_pairs _ _ R) in Hhi. unfold for_each_prefilter_hit_in.
  rewrite bool_decide_eq_false_2 by done. simpl. destruct (N.leb_spec hi lo).
  { exists []. split_and!; [done|constructor|]. intros i. rewrite elem_of_nil. split; [done|lia]. }
  replace (match folded_off ns hi with Some o => _ | None => _ end) with (hay ns gs hi).
  2: { unfold hay. destruct (decide (hi < len gs)).
       - by rewrite (folded_off_at ns gs R hi).
       - replace hi with (len gs) by lia. rewrite (at_end ns gs R). unfold folded_off, getN.
         rewrite (lookup_ge_None_2 (pairs ns)) by (pose proof (len_pairs _ _ R); unfold len in *; lia). simpl.
         unfold len. by rewrite take_ge by lia. }
  rewrite (folded_off_at ns gs R lo) by lia. cbn [mbind option_bind].
  destruct (prefilter_loop_spec ns gs R needle Hne Hnul hi Hhi lo (N.to_nat (hi - lo) + 1) lo lo false) as (l & El & Hs & Hin); [lia|lia|done|lia|].
  exists l. split_and!; [done|done|]. intros i. rewrite Hin. split.
  - intros [Hi (g & p & Hg & Ho)]. split; [done|]. exists (sfold g). split; [by eapply folded_bytes_slot|by exists p].
  - intros [Hi (bs & Hbs & p & Ho)]. split; [done|]. destruct (getN_is_Some i gs) as [g Hg]; [lia|].
    rewrite (folded_bytes_slot _ _ _ _ R Hg) in Hbs. simplify_eq. by exists g, p.
Qed.

Lemma occurs_no_zero needle bs p : needle <> [] -> 0 ∉ needle -> zeros bs -> occurs needle bs p -> False.
Proof.
  intros Hne Hnul Hz [_ Hs]. assert (Hzn : zeros needle) by (rewrite <- Hs; by apply Forall_take, Forall_drop).
  destruct Hzn as [|b needle ->]; [done|]. apply Hnul. left.
Qed.

(** Only live names hold a needle: the bytes of a removed one are zero. *)
Lemma prefilter_live_spec `{Unicode, Hasher} {M : Memchr} {Mok : MemchrOk M} ns needle lo hi :
  ns_ok ns -> needle <> [] -> 0 ∉ needle -> hi <= ids ns ->
  exists l, for_each_prefilter_hit_in ns needle lo hi = Some l /\ StronglySorted N.lt l /\
    forall i, i ∈ l <-> lo <= i < hi /\ NameStore.live ns i /\ exists bs, folded_bytes_of ns i = Some bs /\ piece_of needle bs.
Proof.
  intros Hok Hne Hnul Hhi. destruct (prefilter_spec ns needle lo hi Hok Hne Hnul Hhi) as (l & El & Hs & Hin).
  exists l. split_and!; [done|done|]. intros i. rewrite Hin. destruct Hok as [gs R]. split; [|naive_solver].
  intros (Hi & bs & Hbs & p & Ho). split; [done|]. split; [|exists bs; split; [done|by exists p]].
  destruct (decide (NameStore.live ns i)) as [|Hd]; [done|]. exfalso. unfold ids in Hhi. rewrite (len_pairs _ _ R) in Hhi.
  destruct (getN_is_Some i gs) as [g Hg]; [lia|]. rewrite (folded_bytes_slot _ _ _ _ R Hg) in Hbs. simplify_eq.
  destruct (r_dead _ _ R i g Hg Hd) as [Hz _]. by eapply occurs_no_zero.
Qed.

(** C25: one search over the arena of folded names finds the names: the prefilter
    scan ends without panicking and reports, in ascending order and each once,
    exactly the live names of the range whose folded bytes hold the needle; no
    match runs across two names, and none lies in a removed one. *)
Theorem prefilter_hits_correct `{Unicode, Hasher} {M : Memchr} {Mok : MemchrOk M} ns needle lo hi :
  ns_ok ns -> needle <> [] -> 0 ∉ needle -> hi <= ids ns ->
  exists l, for_each_prefilter_hit_in ns needle lo hi = Some l /\ StronglySorted N.lt l /\
    forall i, i ∈ l <-> lo <= i < hi /\ NameStore.live ns i /\ exists bs, folded_bytes_of ns i = Some bs /\ piece_of needle bs.
Proof. apply prefilter_live_spec. Qed.

(** *** A searcher with that behaviour *)

Fixpoint find_from (needle hay : list N) : option N :=
  if bool_decide (take (length needle) hay = needle) then Some 0
  else match hay with [] => None | _ :: hay' => N.succ <$> find_from needle hay' end.

Fixpoint index_of (c : N) (s : list N) : option N :=
  match s with [] => None | x :: s' => if x =? c then Some 0 else N.succ <$> index_of c s' end.

Fixpoint last_index_of (c : N) (s : list N) : option N :=
  match s with
  | [] => None
  | x :: s' => match last_index_of c s' with Some i => Some (N.succ i) | None => if x =? c then Some 0 else None end
  end.

Definition naive : Memchr := {| memmem_find := find_from; memchr := index_of; memrchr := last_index_of |}.

Lemma occurs_0 needle hay : occurs needle hay 0 <-> take (length needle) hay = needle.
Proof.
  unfold occurs, slice, len. rewrite Nat2N.id. simpl. rewrite drop_0. split; [tauto|]. intros E. split; [|done].
  apply (f_equal length) in E. rewrite length_take in E. lia.
Qed.

Lemma occurs_succ needle x hay p : occurs needle (x :: hay) (N.succ p) <-> occurs needle hay p.
Proof.
  unfold occurs, slice, len. replace (N.to_nat (N.succ p)) with (S (N.to_nat p)) by lia. simpl. split; intros [? ?]; (split; [lia|done]).
Qed.

Lemma getN_succ {A} (x : A) s p : getN (N.succ p) (x :: s) = getN p s.
Proof. unfold getN. by replace (N.to_nat (N.succ p)) with (S (N.to_nat p)) by lia. Qed.

#[export] Instance naive_ok : MemchrOk naive.
Proof.
  split; simpl.
  - intros needle hay. induction hay as [|x hay IH]; intros p; cbn [find_from]; case_bool_decide as E.
    + intros [= <-]. split; [by apply occurs_0|lia].
    + done.
    + intros [= <-]. split; [by apply occurs_0|lia].
    + destruct (find_from needle hay) as [q|]; [|done]. intros [= <-]. destruct (IH q eq_refl) as [Ho Hm]. split; [by apply occurs_succ|].
      intros r Hr. destruct r as [|r] using N.peano_ind; [by rewrite occurs_0|]. rewrite occurs_succ. apply Hm. lia.
  - intros needle hay. induction hay as [|x hay IH]; cbn [find_from]; case_bool_decide as E; try done.
    + intros _ p Ho. apply E. apply occurs_0. destruct Ho as [Hb Hs]. unfold len in Hb. simpl in Hb. destruct needle; [|simpl in Hb; lia].
      split; [unfold len; simpl; lia|done].
    + destruct (find_from needle hay) as [q|]; [done|]. intros _ p. destruct p as [|p] using N.peano_ind; [by rewrite occurs_0|].
      rewrite occurs_succ. by apply IH.
  - intros c s. induction s as [|x s IH]; intros p; [done|]. simpl. destruct (N.eqb_spec x c) as [->|Hne].
    + intros [= <-]. split; [done|lia].
    + destruct (index_of c s) as [q|]; [|done]. intros [= <-]. destruct (IH q eq_refl) as [Hg Hm]. split; [by rewrite getN_succ|].
      intros r Hr. destruct r as [|r] using N.peano_ind; [unfold getN; simpl; congruence|]. rewrite getN_succ. apply Hm. lia.
  - intros c s. induction s as [|x s IH]; [intros _; apply not_elem_of_nil|]. simpl. destruct (N.eqb_spec x c); [done|].
    destruct (index_of c s); [done|]. intros _. apply not_elem_of_cons. split; [done|by apply IH].
  - intros c s. induction s as [|x s IH]; intros p; [done|]. simpl. destruct (last_index_of c s) as [q|] eqn:El.
    + intros [= <-]. destruct (IH q eq_refl) as [Hg Hm]. split; [by rewrite getN_succ|]. intros r Hr.
      destruct r as [|r] using N.peano_ind; [lia|]. rewrite getN_succ. apply Hm. lia.
    + destruct (N.eqb_spec x c) as [->|]; [|done]. intros [= <-]. split; [done|]. intros r Hr.
      destruct r as [|r] using N.peano_ind; [lia|]. rewrite getN_succ. intros Hg%list_elem_of_lookup_2.
      clear IH Hr. revert El Hg. clear. induction s as [|y s IH]; [intros _ Hin; by apply not_elem_of_nil in Hin|]. simpl.
      destruct (last_index_of c s); [done|]. destruct (N.eqb_spec y c); [done|]. intros _ [->|Hin]%elem_of_cons; [done|]. by apply IH.
  - intros c s. induction s as [|x s IH]; [intros _; apply not_elem_of_nil|]. simpl. destruct (last_index_of c s); [done|].
    destruct (N.eqb_spec x c); [done|]. intros _. apply not_elem_of_cons. split; [done|by apply IH].
Qed.

#[local] Existing Instance one_bucket.

(** The store holding "A" and "b", searched for "b". *)
Lemma prefilter_hits_correct_witness :
  exists l, for_each_prefilter_hit_in (M:=naive) store_ab [0x62] 0 2 = Some l /\ StronglySorted N.lt l.
Proof.
  destruct (prefilter_hits_correct (M:=naive) store_ab [0x62] 0 2 store_ab_ok) as (l & E & Hs & _);
    [done|set_solver|vm_compute; congruence|]. exists l. split; [exact E|exact Hs].
Defined.

Example prefilter_ab : for_each_prefilter_hit (M:=naive) store_ab [0x62] = Some [1].
Proof. vm_compute. reflexivity. Qed.
