(* ===== verification/TopK.v ===== *)
(** Ordering a page: [Candidate], [cmp_candidate], the sort keys, [order_top]
    and the best-rows buffers of [top_k_refs], from
    [crates/goz-core/src/query/engine.rs].

    [sort_unstable_by] under a total order is stdpp's [merge_sort];
    [select_nth_unstable_by], whose order around the pivot is unspecified, is an
    interface with its documented behaviour. *)

From stdpp Require Import gmap.
From stdpp Require Import base option list sets sorting.
From Stdlib Require Import NArith ZArith Lia.
From S2P Require Import Prelude Types NameOrder.

(** ** Candidates and their order *)

Record Candidate := { c_idx : N; c_key : N }.

#[export] Instance Candidate_eq_dec : EqDecision Candidate.
Proof. solve_decision. Defined.

(** [folded] is [index.folded_name]. *)
Definition cmp_base (folded : N -> list N) (a b : Candidate) : comparison :=
  match N.compare (c_key a) (c_key b) with
  | Eq => match bytes_cmp (folded (c_idx a)) (folded (c_idx b)) with Eq => N.compare (c_idx a) (c_idx b) | c => c end
  | c => c
  end.

Definition cmp_candidate (folded : N -> list N) (sort : SortSpec) (a b : Candidate) : comparison :=
  let base := cmp_base folded a b in
  match dir sort with Desc => CompOpp base | Asc => base end.

(** ** Keys *)

Definition unknown_last (known : option N) (d : SortDir) : N :=
  match known, d with
  | Some k, Asc => k
  | Some k, Desc => k + 1
  | None, Asc => u64_max
  | None, Desc => 0
  end.

Definition size_key (size : option N) (d : SortDir) : N := unknown_last size d.

(** [((t as u64) ^ (1 << 63)) - 1]. *)
Definition mtime_bits (t : Z) : N := N.lxor (i64_to_bits t) (N.shiftl 1 63) - 1.
Definition mtime_key (mtime : option Z) (d : SortDir) : N := unknown_last (mtime_bits <$> mtime) d.

(** ** Pages *)

Definition page_bounds (n : N) (offset : N) (limit : option N) : N * N :=
  let start := N.min offset n in
  (start, match limit with Some l => N.min (start + l) n | None => n end).

(** A total order given by its comparison. *)
Class TotalCmp {A} (cmp : A -> A -> comparison) : Prop := {
  cmp_eq a b : cmp a b = Eq <-> a = b;
  cmp_opp a b : cmp b a = CompOpp (cmp a b);
  cmp_lt_trans a b c : cmp a b = Lt -> cmp b c = Lt -> cmp a c = Lt
}.

(** [select_nth_unstable_by]: a rearrangement in which nothing up to the pivot
    comes after it, and nothing from the pivot on before it. *)
Class Select := select_nth : forall {A}, (A -> A -> comparison) -> nat -> list A -> list A.
Class SelectOk (Sel : Select) := {
  select_perm {A} (cmp : A -> A -> comparison) n l : TotalCmp cmp -> (n < length l)%nat -> select_nth cmp n l ≡ₚ l;
  select_split {A} (cmp : A -> A -> comparison) n l : TotalCmp cmp -> (n < length l)%nat ->
    exists p, select_nth cmp n l !! n = Some p /\ Forall (fun x => cmp x p <> Gt) (take (S n) (select_nth cmp n l)) /\
      Forall (fun y => cmp p y <> Gt) (drop (S n) (select_nth cmp n l))
}.

Section order.
Context {A : Type} (cmp : A -> A -> comparison).

(** [a] does not come after [b]. *)
Definition cmp_le (a b : A) : Prop := cmp a b <> Gt.
#[export] Instance cmp_le_dec a b : Decision (cmp_le a b).
Proof. unfold cmp_le. destruct (cmp a b); [left|left|right]; congruence. Defined.

Context {Sel : Select}.

(** [order_top], sequential and parallel branches alike. *)
Definition order_top (cands : list A) (stop : nat) : list A :=
  if (stop =? 0)%nat then cands
  else if (stop <? length cands)%nat then
    let s := select_nth cmp (stop - 1) cands in
    merge_sort cmp_le (take stop s) ++ drop stop s
  else merge_sort cmp_le cands.

(** ** The best rows of one thread *)

Record Best := { kept : list A; cutoff : option A }.
Definition best_empty : Best := {| kept := []; cutoff := None |}.

(** Offering one candidate, for a page that ends at row [want]. *)
Definition offer (want : nat) (best : Best) (c : A) : option Best :=
  if (want =? 0)%nat then Some best
  else
  best ← (if (length (kept best) =? 2 * want)%nat then
            let k := take want (select_nth cmp (want - 1) (kept best)) in
            cut ← k !! (want - 1)%nat; Some {| kept := k; cutoff := Some cut |}
          else Some best);
  if match cutoff best with Some cut => match cmp c cut with Gt => true | _ => false end | None => false end
  then Some best
  else Some {| kept := kept best ++ [c]; cutoff := cutoff best |}.

Fixpoint offer_all (want : nat) (best : Best) (l : list A) : option Best :=
  match l with
  | [] => Some best
  | c :: l' => best ← offer want best c; offer_all want best l'
  end.

(** Each thread is offered its own candidates; the buffers are put together,
    ordered and cut to the page. *)
Definition top_k_page (want : nat) (threads : list (list A)) (start stop : nat) : option (list A) :=
  bests ← mapM (offer_all want best_empty) threads;
  Some (take (stop - start) (drop start (order_top (concat (map kept bests)) stop))).
End order.

(** ** A total order *)

Section total.
Context {A : Type} (cmp : A -> A -> comparison) {T : TotalCmp cmp}.
Abbreviation le := (cmp_le cmp).

Lemma c_eq a b : cmp a b = Eq <-> a = b.
Proof. apply cmp_eq. Qed.
Lemma c_opp a b : cmp b a = CompOpp (cmp a b).
Proof. apply cmp_opp. Qed.
Lemma cmp_refl a : cmp a a = Eq.
Proof. by apply c_eq. Qed.

#[local] Instance cmp_dec : EqDecision A.
Proof. intros x y. destruct (cmp x y) eqn:E; [left; by apply c_eq|right..]; intros ->; by rewrite cmp_refl in E. Defined.

#[export] Instance le_trans : Transitive le.
Proof.
  intros a b c Hab Hbc. unfold cmp_le in *. destruct (cmp a b) eqn:E1; [apply c_eq in E1 as ->; done| |done].
  destruct (cmp b c) eqn:E2; [apply c_eq in E2 as <-; congruence| |done]. by rewrite (cmp_lt_trans a b c).
Qed.
#[export] Instance le_total : Total le.
Proof. intros a b. unfold cmp_le. rewrite (c_opp a b). destruct (cmp a b); [left|left|right]; done. Qed.
#[export] Instance le_antisymm : AntiSymm eq le.
Proof. intros a b. unfold cmp_le. rewrite (c_opp a b). intros H1 H2. apply c_eq. destruct (cmp a b); done. Qed.

Lemma lt_not_le a b : cmp a b = Lt <-> ~ le b a.
Proof. unfold cmp_le. rewrite (c_opp a b). destruct (cmp a b); naive_solver. Qed.
Lemma lt_le_ne a b : cmp a b = Lt <-> le a b /\ a <> b.
Proof.
  unfold cmp_le. rewrite <- c_eq. destruct (cmp a b); naive_solver.
Qed.

Definition sort (l : list A) : list A := merge_sort le l.

Lemma sort_perm l : sort l ≡ₚ l.
Proof. apply merge_sort_Permutation. Qed.
Lemma sort_sorted l : StronglySorted le (sort l).
Proof. apply StronglySorted_merge_sort; apply _. Qed.
Lemma sort_unique l l' : StronglySorted le l' -> l' ≡ₚ l -> sort l = l'.
Proof. intros Hs Hp. apply (StronglySorted_unique le); [apply sort_sorted|done|]. by rewrite sort_perm, Hp. Qed.
Lemma length_sort l : length (sort l) = length l.
Proof. apply Permutation_length, sort_perm. Qed.

(** How many elements come strictly before [x]. *)
Definition before (l : list A) (x : A) : nat := length (filter (fun y => cmp y x = Lt) l).

Lemma before_perm l l' x : l ≡ₚ l' -> before l x = before l' x.
Proof. intros Hp. unfold before. by rewrite Hp. Qed.
Lemma before_app l l' x : before (l ++ l') x = (before l x + before l' x)%nat.
Proof. unfold before. by rewrite filter_app, length_app. Qed.

Lemma before_sub l l' x : NoDup l -> l ⊆ l' -> (before l x <= before l' x)%nat.
Proof.
  intros Hnd Hsub. unfold before. apply submseteq_length. apply NoDup_submseteq; [by apply NoDup_filter|].
  intros y [Hy Hin]%list_elem_of_filter. apply list_elem_of_filter. split; [done|by apply Hsub].
Qed.

Lemma filter_all (P : A -> Prop) `{forall x, Decision (P x)} l : Forall P l -> filter P l = l.
Proof. induction 1; [done|]. rewrite filter_cons_True by done. by f_equal. Qed.
Lemma filter_none (P : A -> Prop) `{forall x, Decision (P x)} l : Forall (fun x => ~ P x) l -> filter P l = [].
Proof. induction 1; [done|]. by rewrite filter_cons_False. Qed.

(** The rank of an element of a sorted list is its position. *)
Lemma sorted_before l i x : NoDup l -> StronglySorted le l -> l !! i = Some x -> before l x = i.
Proof.
  intros Hnd Hs Hi. pose proof (take_drop_middle l i x Hi) as E. assert (Hi' : (i < length l)%nat) by (by eapply lookup_lt_Some).
  rewrite <- E in Hnd, Hs. rewrite <- E at 1. rewrite before_app. unfold before.
  apply StronglySorted_app in Hs as (Hlr & _ & Hs). apply StronglySorted_cons in Hs as [Hx _].
  apply NoDup_app in Hnd as (_ & Hdis & Hnd). apply NoDup_cons in Hnd as [Hni _].
  rewrite filter_cons_False by (rewrite cmp_refl; done).
  rewrite (filter_all _ (take i l)), (filter_none _ (drop (S i) l)).
  - simpl. rewrite length_take. lia.
  - apply Forall_forall. intros y Hy. rewrite lt_not_le. intros Hn. apply Hn. by apply (proj1 (Forall_forall _ _) Hx).
  - apply Forall_forall. intros y Hy. apply lt_le_ne. split; [apply Hlr; [done|left]|]. intros ->. apply (Hdis x Hy). left.
Qed.

(** The first [n] of a set are those with fewer than [n] before them. *)
Lemma elem_of_take_sort l n x : NoDup l -> x ∈ take n (sort l) <-> x ∈ l /\ (before l x < n)%nat.
Proof.
  intros Hnd. assert (Hnd' : NoDup (sort l)) by (by rewrite sort_perm).
  assert (Hb : forall i y, sort l !! i = Some y -> before l y = i).
  { intros i y Hy. rewrite <- (before_perm _ _ y (sort_perm l)). by apply sorted_before; [|apply sort_sorted|]. }
  rewrite list_elem_of_lookup. setoid_rewrite lookup_take_Some. split.
  - intros (i & Hi & Hlt). rewrite (Hb _ _ Hi). split; [|done]. rewrite <- (sort_perm l). by eapply list_elem_of_lookup_2.
  - rewrite <- (sort_perm l) at 1. intros [[i Hi]%list_elem_of_lookup Hlt]. exists i. rewrite (Hb _ _ Hi) in Hlt. done.
Qed.

(** A part of a set that still has its first [want] elements sorts to the same
    first rows. *)
Lemma pick_first k l want n :
  NoDup k -> NoDup l -> k ⊆ l -> (forall x, x ∈ l -> (before l x < want)%nat -> x ∈ k) -> (n <= want)%nat ->
  take n (sort k) = take n (sort l).
Proof.
  intros Hk Hl Hsub Hfirst Hn. set (a := take n (sort l)). set (k' := filter (fun x => x ∉ a) k).
  assert (Ha : forall x, x ∈ a <-> x ∈ l /\ (before l x < n)%nat) by (intros; by apply elem_of_take_sort).
  assert (Hnda : NoDup a) by (apply (NoDup_app a (drop n (sort l))); unfold a; by rewrite take_drop, sort_perm).
  assert (Hp : a ++ k' ≡ₚ k).
  { apply NoDup_Permutation; [|done|].
    - apply NoDup_app. split_and!; [done| |by apply NoDup_filter]. intros x Hx [Hn' _]%list_elem_of_filter. done.
    - intros x. rewrite elem_of_app. unfold k'. rewrite list_elem_of_filter. split.
      + intros [[Hx Hb]%Ha|[_ ?]]; [|done]. apply Hfirst; [done|lia].
      + intros Hx. destruct (decide (x ∈ a)); auto. }
  assert (Hs : sort k = a ++ sort k').
  { apply sort_unique; [|by rewrite sort_perm]. apply StronglySorted_app_2; [|apply (StronglySorted_app_1_l _ _ (drop n (sort l))); unfold a; rewrite take_drop; apply sort_sorted|apply sort_sorted].
    intros x y Hx. rewrite sort_perm. intros [Hy Hyk]%list_elem_of_filter.
    assert (Hyd : y ∈ drop n (sort l)).
    { assert (Hin : y ∈ take n (sort l) ++ drop n (sort l)) by (rewrite take_drop, sort_perm; by apply Hsub).
      apply elem_of_app in Hin as [?|?]; done. }
    pose proof (sort_sorted l) as Hss. rewrite <- (take_drop n (sort l)) in Hss.
    apply StronglySorted_app in Hss as (Hlr & _). by apply Hlr. }
  rewrite Hs. destruct (Nat.le_gt_cases n (length l)) as [Hle|Hgt].
  - rewrite take_app_length'; [done|]. unfold a. rewrite length_take, length_sort. lia.
  - assert (Hk' : k' = []).
    { destruct k' as [|x k''] eqn:Ek; [done|]. assert (Hx : x ∈ k') by (rewrite Ek; left). apply list_elem_of_filter in Hx as [Hx Hxk].
      exfalso. apply Hx. unfold a. rewrite take_ge by (rewrite length_sort; lia). rewrite sort_perm. by apply Hsub. }
    rewrite Hk'. simpl. rewrite app_nil_r. apply take_ge. unfold a. rewrite length_take. lia.
Qed.

(** ** [order_top] puts the first rows in place *)

Context {Sel : Select} {Sok : SelectOk Sel}.

Lemma order_top_take cands n :
  (n <= length cands)%nat -> take n (order_top cmp cands n) = take n (sort cands).
Proof.
  intros Hn. unfold order_top. destruct (Nat.eqb_spec n 0) as [->|Hnz]; [done|].
  destruct (Nat.ltb_spec n (length cands)) as [Hlt|Hge]; [|done].
  destruct (select_split cmp (n - 1) cands T) as (p & Hp & Hlo & Hhi); [lia|].
  pose proof (select_perm cmp (n - 1) cands T) as Hperm. rewrite <- Nat.sub_succ_l, Nat.sub_succ, Nat.sub_0_r in Hlo, Hhi by lia.
  set (s := select_nth cmp (n - 1) cands) in *. assert (Hs : sort cands = sort (take n s) ++ sort (drop n s)).
  { apply sort_unique; [apply StronglySorted_app_2; [|apply sort_sorted..]|].
    - intros x y. rewrite !sort_perm. intros Hx Hy. trans p.
      + by apply (proj1 (Forall_forall _ _) Hlo).
      + by apply (proj1 (Forall_forall _ _) Hhi).
    - rewrite !sort_perm, take_drop. apply Hperm. lia. }
  assert (Hlen : length (take n s) = n) by (rewrite length_take; pose proof (Permutation_length (Hperm ltac:(lia))); lia).
  rewrite Hs, !take_app_length'; [done| |]; by rewrite ?length_sort; unfold sort; rewrite ?(Permutation_length (merge_sort_Permutation _ _)).
Qed.

(** ** The buffers keep what the page needs *)

(** After being offered [seen], a buffer has every candidate with fewer than
    [want] before it, and its cutoff has [want] candidates up to it. *)
Record best_ok (want : nat) (seen : list A) (b : Best) : Prop := {
  b_nodup : NoDup (kept b);
  b_sub : kept b ⊆ seen;
  b_room : (length (kept b) <= 2 * want)%nat;
  b_first x : x ∈ seen -> (before seen x < want)%nat -> x ∈ kept b;
  b_cut c : cutoff b = Some c -> forall x, cmp x c = Gt -> (want <= before seen x)%nat
}.

Lemma gt_lt x y : cmp x y = Gt <-> cmp y x = Lt.
Proof. rewrite (c_opp x y). destruct (cmp x y); naive_solver. Qed.

(** Elements at most [c], all of them before an [x] beyond [c]. *)
Lemma before_beyond l c x : Forall (fun y => cmp_le cmp y c) l -> cmp x c = Gt -> before l x = length l.
Proof.
  intros Hl Hx%gt_lt. unfold before. rewrite filter_all; [done|]. eapply Forall_impl; [exact Hl|]. intros y Hy. simpl in *.
  unfold cmp_le in Hy. destruct (cmp y c) eqn:E; [apply c_eq in E as ->; done|by eapply cmp_lt_trans|done].
Qed.

Lemma prune_ok want seen b :
  (0 < want)%nat -> NoDup seen -> best_ok want seen b -> length (kept b) = (2 * want)%nat ->
  exists cut, take want (select_nth cmp (want - 1) (kept b)) !! (want - 1)%nat = Some cut /\
    best_ok want seen {| kept := take want (select_nth cmp (want - 1) (kept b)); cutoff := Some cut |} /\
    length (take want (select_nth cmp (want - 1) (kept b))) = want.
Proof.
  intros Hw Hnd [B1 B2 B3 B4 B5] Hlen.
  destruct (select_split cmp (want - 1) (kept b) T) as (p & Hp & Hlo & Hhi); [lia|].
  pose proof (select_perm cmp (want - 1) (kept b) T ltac:(lia)) as Hperm.
  rewrite <- Nat.sub_succ_l, Nat.sub_succ, Nat.sub_0_r in Hlo, Hhi by lia.
  set (s := select_nth cmp (want - 1) (kept b)) in *.
  assert (Hls : length (take want s) = want) by (rewrite length_take, (Permutation_length Hperm); lia).
  exists p. split; [rewrite lookup_take_lt by lia; done|]. split; [|done].
  assert (Hnds : NoDup (take want s ++ drop want s)) by (rewrite take_drop; by rewrite Hperm).
  apply NoDup_app in Hnds as (Hndt & Hdis & _).
  assert (Hsub : take want s ⊆ seen).
  { intros x Hx. apply B2. rewrite <- Hperm, <- (take_drop want s). apply elem_of_app. by left. }
  assert (Hbeyond : forall x, cmp x p = Gt -> (want <= before seen x)%nat).
  { intros x Hx. rewrite <- Hls at 1. rewrite <- (before_beyond (take want s) p x Hlo Hx). by apply before_sub. }
  split; simpl; [done|done|lia| |].
  - intros x Hx Hb. pose proof (B4 x Hx Hb) as Hk. rewrite <- Hperm, <- (take_drop want s) in Hk.
    apply elem_of_app in Hk as [?|Hk]; [done|]. exfalso.
    assert (Hge : cmp_le cmp p x) by (by apply (proj1 (Forall_forall _ _) Hhi)).
    destruct (cmp x p) eqn:E; [|unfold cmp_le in Hge; rewrite (c_opp x p), E in Hge; done|apply Hbeyond in E; lia].
    apply c_eq in E as ->. apply (Hdis p); [|done]. apply (list_elem_of_lookup_2 _ (want - 1)). rewrite lookup_take_lt by lia. done.
  - intros c [= <-]. done.
Qed.

Lemma offer_ok want seen b c :
  NoDup (seen ++ [c]) -> best_ok want seen b -> exists b', offer cmp want b c = Some b' /\ best_ok want (seen ++ [c]) b'.
Proof.
  intros Hnd Hb. pose proof Hnd as (Hnds & Hdis & _)%NoDup_app.
  assert (Hmono : forall b, best_ok want seen b -> kept b ⊆ seen ++ [c] /\
    (forall x, x ∈ seen -> (before (seen ++ [c]) x < want)%nat -> x ∈ kept b) /\
    forall d, cutoff b = Some d -> forall x, cmp x d = Gt -> (want <= before (seen ++ [c]) x)%nat).
  { intros b0 [B1 B2 B3 B4 B5]. split_and!.
    - intros x Hx. apply elem_of_app. left. by apply B2.
    - intros x Hx. rewrite before_app. intros Hlt. apply B4; [done|lia].
    - intros d Hd x Hx. rewrite before_app. pose proof (B5 d Hd x Hx). lia. }
  assert (Hpush : forall b0, best_ok want seen b0 -> (length (kept b0) < 2 * want)%nat ->
    exists b', (if match cutoff b0 with Some cut => match cmp c cut with Gt => true | _ => false end | None => false end
                then Some b0 else Some {| kept := kept b0 ++ [c]; cutoff := cutoff b0 |}) = Some b' /\ best_ok want (seen ++ [c]) b').
  { intros b0 Hb0 Hroom. destruct (Hmono b0 Hb0) as (M1 & M2 & M3). destruct Hb0 as [B1 B2 B3 B4 B5].
    destruct (match cutoff b0 with Some cut => _ | None => false end) eqn:Ecut.
    - exists b0. split; [done|]. split; [done|done|done| |done]. intros x [Hx|Hx%list_elem_of_singleton]%elem_of_app Hlt; [by apply M2|]. subst x.
      exfalso. destruct (cutoff b0) as [d|]; [|done]. destruct (cmp c d) eqn:Ed; try done. pose proof (M3 d eq_refl c Ed). lia.
    - eexists. split; [done|]. split; simpl.
      + apply NoDup_app. split_and!; [done| |apply NoDup_singleton]. intros x Hx ->%list_elem_of_singleton.
        apply (Hdis c); [by apply B2|left].
      + intros x [?|?]%elem_of_app; apply elem_of_app; [left; by apply B2|by right].
      + rewrite length_app. simpl. lia.
      + intros x [Hx|Hx]%elem_of_app Hlt; apply elem_of_app; [left; by apply M2|by right].
      + done. }
  unfold offer. destruct (Nat.eqb_spec want 0) as [->|Hw].
  { exists b. split; [done|]. destruct (Hmono b Hb) as (M1 & M2 & M3). destruct Hb as [B1 B2 B3 B4 B5]. split; [done|done|done| |done]. intros; lia. }
  destruct (Nat.eqb_spec (length (kept b)) (2 * want)) as [Hfull|Hnf].
  - destruct (prune_ok want seen b ltac:(lia) Hnds Hb Hfull) as (cut & -> & Hok & Hl). cbn [mbind option_bind].
    apply (Hpush _ Hok). simpl. rewrite Hl. lia.
  - cbn [mbind option_bind]. apply (Hpush _ Hb). destruct Hb. lia.
Qed.

Lemma offer_all_ok want l : forall seen b,
  NoDup (seen ++ l) -> best_ok want seen b -> exists b', offer_all cmp want b l = Some b' /\ best_ok want (seen ++ l) b'.
Proof.
  induction l as [|c l IH]; intros seen b Hnd Hb; simpl; [rewrite app_nil_r; eauto|].
  rewrite cons_middle, app_assoc in Hnd. pose proof Hnd as (Hnd1 & _)%NoDup_app.
  destruct (offer_ok want seen b c Hnd1 Hb) as (b1 & -> & Hb1). cbn [mbind option_bind].
  destruct (IH (seen ++ [c]) b1 Hnd Hb1) as (b2 & -> & Hb2). exists b2. split; [done|]. by rewrite <- app_assoc in Hb2.
Qed.

Lemma best_empty_ok want : best_ok want [] best_empty.
Proof. split; simpl; [constructor|done|lia|done|done]. Qed.

(** The buffers of all threads together. *)
Lemma threads_ok want threads :
  NoDup (concat threads) ->
  exists bests, mapM (offer_all cmp want best_empty) threads = Some bests /\ NoDup (concat (map kept bests)) /\
    concat (map kept bests) ⊆ concat threads /\
    forall x, x ∈ concat threads -> (before (concat threads) x < want)%nat -> x ∈ concat (map kept bests).
Proof.
  induction threads as [|l threads IH]; intros Hnd; simpl in *.
  { exists []. split_and!; [done|constructor|done|done]. }
  apply NoDup_app in Hnd as (Hl & Hdis & Hrest). destruct (IH Hrest) as (bests & Eb & Hn & Hsub & Hf).
  destruct (offer_all_ok want l [] best_empty Hl (best_empty_ok want)) as (b & Ebl & [B1 B2 B3 B4 B5]). simpl in *.
  exists (b :: bests). rewrite Ebl, Eb. split_and!; [done| | |]; simpl.
  - apply NoDup_app. split_and!; [done| |done]. intros x Hx Hx'. apply (Hdis x); [by apply B2|by apply Hsub].
  - intros x [Hx|Hx]%elem_of_app; apply elem_of_app; [left; by apply B2|right; by apply Hsub].
  - intros x Hx. rewrite before_app. intros Hlt. apply elem_of_app.
    apply elem_of_app in Hx as [Hx|Hx]; [left; apply B4|right; apply Hf]; (done || lia).
Qed.
End total.

(** The buffers put together hold the page, which selecting and sorting puts in
    place. *)
Lemma top_k_spec {A} (cmp : A -> A -> comparison) {T : TotalCmp cmp} {Sel : Select} {Sok : SelectOk Sel} want threads start stop :
  NoDup (concat threads) -> (start <= stop <= want)%nat -> (stop <= length (concat threads))%nat ->
  exists bests, mapM (offer_all cmp want best_empty) threads = Some bests /\ (stop <= length (concat (map kept bests)))%nat /\
    take (stop - start) (drop start (order_top cmp (concat (map kept bests)) stop)) = take (stop - start) (drop start (merge_sort (cmp_le cmp) (concat threads))).
Proof.
  intros Hnd Hpage Hlen. destruct (threads_ok cmp want threads Hnd) as (bests & E & Hk & Hsub & Hfirst).
  exists bests. split; [done|]. set (k := concat (map kept bests)) in *.
  assert (Hpick : take stop (sort cmp k) = take stop (sort cmp (concat threads))) by (eapply (pick_first cmp k _ want); (done || lia)).
  assert (Hlk : (stop <= length k)%nat).
  { apply (f_equal length) in Hpick. rewrite !length_take, !(length_sort cmp) in Hpick. lia. }
  split; [done|]. pose proof (order_top_take cmp k stop Hlk) as Ho. rewrite Hpick in Ho.
  assert (Hcut : forall l : list A, take (stop - start) (drop start l) = drop start (take stop l)).
  { intros l. rewrite skipn_firstn_comm. done. }
  by rewrite !Hcut, Ho.
Qed.

(** C26: the page gathered without collecting every match is the page of the full
    sort: however the matches are spread over the threads and whatever order
    each thread meets them in, pruning each buffer to the best [want] rows,
    putting the buffers together, selecting and sorting gives exactly rows
    [start] to [stop] of all matches sorted, for any page that ends at row [want]
    or before. *)
Theorem top_k_page_correct {A} (cmp : A -> A -> comparison) {T : TotalCmp cmp} {Sel : Select} {Sok : SelectOk Sel} want threads start stop :
  NoDup (concat threads) -> (start <= stop <= want)%nat -> (stop <= length (concat threads))%nat ->
  top_k_page cmp want threads start stop = Some (take (stop - start) (drop start (merge_sort (cmp_le cmp) (concat threads)))).
Proof.
  intros Hnd Hpage Hlen. destruct (top_k_spec cmp want threads start stop Hnd Hpage Hlen) as (bests & E & _ & Hpg).
  unfold top_k_page. rewrite E. cbn [mbind option_bind]. by f_equal.
Qed.

(** *** Instances *)

#[export] Instance N_total : TotalCmp N.compare.
Proof.
  split; [apply N.compare_eq_iff|intros a b; apply N.compare_antisym|]. intros a b c. rewrite !N.compare_lt_iff. lia.
Qed.

(** The order of candidates is total, in either direction. *)
Lemma cmp_base_total folded : TotalCmp (cmp_base folded).
Proof.
  assert (Hopp : forall a b, cmp_base folded b a = CompOpp (cmp_base folded a b)).
  { intros a b. unfold cmp_base. rewrite (N.compare_antisym (c_key a)), (bytes_cmp_antisym (folded (c_idx a))), (N.compare_antisym (c_idx a)).
    destruct (N.compare (c_key a) (c_key b)); simpl; [|done..]. by destruct (bytes_cmp _ _). }
  split; [|done|].
  - intros a b. unfold cmp_base. split.
    + destruct (N.compare _ _) eqn:E1; [|done..]. destruct (bytes_cmp _ _); [|done..]. intros E2.
      apply N.compare_eq_iff in E1, E2. destruct a, b. simpl in *. congruence.
    + intros ->. by rewrite N.compare_refl, (proj2 (bytes_cmp_eq _ _) eq_refl), N.compare_refl.
  - intros a b c. unfold cmp_base. destruct (N.compare (c_key a) (c_key b)) eqn:E1; [|intros _|done].
    + apply N.compare_eq_iff in E1 as ->. destruct (bytes_cmp (folded (c_idx a)) _) eqn:E2; [|intros _|done].
      * apply bytes_cmp_eq in E2 as ->. intros E3. destruct (N.compare (c_key b) (c_key c)); [|done..].
        destruct (bytes_cmp (folded (c_idx b)) _); [|done..]. rewrite !N.compare_lt_iff in *. lia.
      * destruct (N.compare (c_key b) (c_key c)); [|done..]. destruct (bytes_cmp (folded (c_idx b)) _) eqn:E3; [|intros _|done].
        -- apply bytes_cmp_eq in E3 as <-. by rewrite E2.
        -- by rewrite (bytes_cmp_lt_trans _ _ _ E2 E3).
    + destruct (N.compare (c_key b) (c_key c)) eqn:E2; [|intros _|done].
      * apply N.compare_eq_iff in E2 as <-. by rewrite E1.
      * rewrite N.compare_lt_iff in E1, E2. by rewrite (proj2 (N.compare_lt_iff (c_key a) (c_key c))) by lia.
Qed.

#[export] Instance cmp_candidate_total folded sort : TotalCmp (cmp_candidate folded sort).
Proof.
  destruct (cmp_base_total folded) as [H1 H2 H3]. unfold cmp_candidate. destruct (dir sort); split; try done.
  - intros a b. rewrite <- (H1 a b). destruct (cmp_base folded a b); naive_solver.
  - intros a b. by rewrite H2.
  - intros a b c E1 E2. assert (cmp_base folded c a = Lt) as E; [|rewrite H2 in E; destruct (cmp_base folded a c); done].
    apply (H3 c b a); rewrite H2; [destruct (cmp_base folded b c)|destruct (cmp_base folded a b)]; done.
Qed.

(** Selecting by sorting. *)
Definition sort_select : Select := fun A cmp _ l => merge_sort (cmp_le cmp) l.
#[export] Instance sort_select_ok : SelectOk sort_select.
Proof.
  split.
  - intros A cmp n l T Hn. apply merge_sort_Permutation.
  - intros A cmp n l T Hn. unfold select_nth, sort_select. change (merge_sort (cmp_le cmp) l) with (sort cmp l).
    destruct (lookup_lt_is_Some_2 (sort cmp l) n) as [p Hp]; [by rewrite length_sort|]. exists p. split; [done|].
    pose proof (sort_sorted cmp l) as Hs. rewrite <- (take_drop_middle _ _ _ Hp) in Hs.
    apply StronglySorted_app in Hs as (Hlr & _ & Hs). apply StronglySorted_cons in Hs as [Hx _]. split; [|done].
    rewrite (take_S_r _ _ _ Hp). apply Forall_app. split; [|apply Forall_singleton; unfold not; rewrite cmp_refl; done].
    apply Forall_forall. intros x Hin. apply Hlr; [done|left].
Qed.

Lemma top_k_page_correct_witness :
  top_k_page (Sel:=sort_select) N.compare 2 [[5; 1; 4; 9; 7; 8]; [3; 2; 6]] 1 2 = Some [2].
Proof.
  assert (E : take (2 - 1) (drop 1 (merge_sort (cmp_le N.compare) (concat [[5; 1; 4; 9; 7; 8]; [3; 2; 6]]))) = [2]) by (vm_compute; reflexivity).
  rewrite <- E. apply (top_k_page_correct (Sel:=sort_select) N.compare 2 [[5; 1; 4; 9; 7; 8]; [3; 2; 6]] 1 2).
  - apply (bool_decide_unpack _). vm_compute. exact I.
  - lia.
  - simpl. lia.
Defined.

(** ** The size and date keys *)

Lemma land_top x : x < 2 ^ 63 -> N.land x (2 ^ 63) = 0.
Proof.
  intros Hx. apply N.bits_inj. intros i. rewrite N.bits_0, N.land_spec, N.pow2_bits_eqb.
  destruct (N.eqb_spec 63 i) as [<-|]; [|apply andb_false_r]. rewrite <- (N.mod_small x (2 ^ 63)), N.mod_pow2_bits_high by lia. done.
Qed.

Lemma lxor_top x : x < 2 ^ 63 -> N.lxor x (2 ^ 63) = x + 2 ^ 63.
Proof. intros Hx. symmetry. apply N.add_nocarry_lxor. by apply land_top. Qed.

(** Flipping the sign bit shifts the range of [i64] onto that of [u64]. *)
Lemma mtime_bits_spec t : (i64_min < t <= i64_max)%Z -> Z.of_N (mtime_bits t) = (t - i64_min - 1)%Z.
Proof.
  unfold mtime_bits, i64_to_bits, i64_min, i64_max. intros Ht. rewrite N.shiftl_1_l.
  destruct (Z.ltb_spec t 0).
  - replace (t mod 18446744073709551616)%Z with (t + 18446744073709551616)%Z by (apply (Z.mod_unique _ _ (-1)); lia).
    replace (Z.to_N (t + 18446744073709551616)) with (N.lxor (Z.to_N (t + 9223372036854775808)) (2 ^ 63)).
    + rewrite N.lxor_assoc, N.lxor_nilpotent, N.lxor_0_r. lia.
    + rewrite lxor_top by (change (2 ^ 63) with 9223372036854775808; lia). change (2 ^ 63) with 9223372036854775808. lia.
  - rewrite Z.mod_small by lia. rewrite lxor_top by (change (2 ^ 63) with 9223372036854775808; lia).
    change (2 ^ 63) with 9223372036854775808. lia.
Qed.

(** Comparing keys as [cmp_candidate] does. *)
Definition key_cmp_dir (d : SortDir) (x y : N) : comparison := match d with Asc => N.compare x y | Desc => CompOpp (N.compare x y) end.

Lemma unknown_last_spec d a b :
  a < u64_max -> b < u64_max ->
  unknown_last (Some a) d <= u64_max /\
  key_cmp_dir d (unknown_last (Some a) d) (unknown_last (Some b) d) = key_cmp_dir d a b /\
  key_cmp_dir d (unknown_last (Some a) d) (unknown_last None d) = Lt /\
  key_cmp_dir d (unknown_last None d) (unknown_last None d) = Eq.
Proof.
  intros Ha Hb. destruct d; simpl; split_and!; try lia; try apply N.compare_refl; try done.
  - f_equal. destruct (N.compare_spec a b), (N.compare_spec (a + 1) (b + 1)); (done || lia).
  - rewrite <- N.compare_antisym. apply N.compare_lt_iff. lia.
Qed.

(** The size and date sorts order known values as the values compare, in the
    direction asked for, and put entries whose size or date is unknown after all
    others in both directions; the keys fit a [u64].  (The index stores unknown
    as the largest size and the least date, so a known value is neither.) *)
Theorem sort_keys_order d a b s t :
  a < u64_max -> b < u64_max -> (i64_min < s <= i64_max)%Z -> (i64_min < t <= i64_max)%Z ->
  (size_key (Some a) d <= u64_max /\ key_cmp_dir d (size_key (Some a) d) (size_key (Some b) d) = key_cmp_dir d a b /\
   key_cmp_dir d (size_key (Some a) d) (size_key None d) = Lt) /\
  (mtime_key (Some s) d <= u64_max /\
   key_cmp_dir d (mtime_key (Some s) d) (mtime_key (Some t) d) = match d with Asc => Z.compare s t | Desc => CompOpp (Z.compare s t) end /\
   key_cmp_dir d (mtime_key (Some s) d) (mtime_key None d) = Lt).
Proof.
  intros Ha Hb Hs Ht. pose proof (mtime_bits_spec s Hs) as Es. pose proof (mtime_bits_spec t Ht) as Et.
  destruct (unknown_last_spec d a b Ha Hb) as (S1 & S2 & S3 & _).
  assert (Hbs : mtime_bits s < u64_max) by (unfold i64_min, i64_max, u64_max in *; lia).
  assert (Hbt : mtime_bits t < u64_max) by (unfold i64_min, i64_max, u64_max in *; lia).
  destruct (unknown_last_spec d _ _ Hbs Hbt) as (T1 & T2 & T3 & _).
  unfold size_key, mtime_key. cbn [fmap option_fmap option_map]. split; [split_and!; assumption|]. split; [assumption|].
  split; [|assumption]. rewrite T2. unfold key_cmp_dir.
  assert (E : N.compare (mtime_bits s) (mtime_bits t) = Z.compare s t).
  { destruct (N.compare_spec (mtime_bits s) (mtime_bits t)), (Z.compare_spec s t); (done || lia). }
  by rewrite E.
Qed.

Lemma sort_keys_order_witness :
  key_cmp_dir Desc (size_key (Some 5) Desc) (size_key None Desc) = Lt /\
  key_cmp_dir Asc (mtime_key (Some (-3)%Z) Asc) (mtime_key (Some 4%Z) Asc) = Lt.
Proof.
  split.
  - refine (proj2 (proj2 (proj1 (sort_keys_order Desc 5 6 1%Z 2%Z _ _ _ _)))); vm_compute; intuition congruence.
  - refine (proj1 (proj2 (proj2 (sort_keys_order Asc 5 6 (-3)%Z 4%Z _ _ _ _)))); vm_compute; intuition congruence.
Defined.
