(* ===== verification/Compiled.v ===== *)
(** A query compiled for a volume: [CompiledQuery::new], [path_piece] and
    [term_admits] of [crates/goz-core/src/query/engine.rs], and why each literal
    it draws from the query is safe to search for first.

    What a query asks of a name and of a full path is stated here, once, as
    [name_hit] and [path_hit]; the rest of the engine is proved against them. *)

From stdpp Require Import gmap.
From stdpp Require Import base option list sets.
From Stdlib Require Import NArith ZArith Lia.
From S2P Require Import Prelude Types Wtf8 Fold Text Dates Budget Wildcard Query NameStore Prefilter.

Record CompiledQuery := {
  name_finders : list (list N);
  path_finders : list (list N);
  prefilter : option (list N);
  prefilter_decides_name : bool;
  c_prefix : list N;
  volume_admits : bool;
  path_wildcard_ends : list (list N * list N);
  c_path_piece : option (list N)
}.

Section compile.
Context `{Unicode} {M : Memchr}.

Definition found (needle hay : list N) : bool := bool_decide (is_Some (memmem_find needle hay)).

(** The closure of [new]: the longest candidate so far, and whether it is a
    name term. *)
Definition consider (is_name_term : bool) (acc : option (list N) * bool) (cand : list N) : option (list N) * bool :=
  if match acc.1 with Some c => len c | None => 0 end <? len cand then (Some cand, is_name_term) else acc.

Definition single_ext (f : Filters) : list (list N) :=
  match ext f with Some [e] => match e with [] => [] | _ => [0x2E :: e] end | _ => [] end.

Definition choose_prefilter (q : ParsedQuery) : option (list N) * bool :=
  let acc := fold_left (consider true) (name_terms q) (None, false) in
  let acc := fold_left (consider false) (omap longest_literal (wildcards q)) acc in
  fold_left (consider false) (single_ext (filters q)) acc.

Definition term_admits (term prefix : list N) : bool :=
  match memchr 0x3A term with
  | None => true
  | Some k =>
      match (c ← memchr 0x3A prefix; if k <=? c then Some (c - k) else None) with
      | None => false
      | Some start =>
          let overlap := N.min (len prefix - start) (len term) in
          bool_decide (take (N.to_nat overlap) term = slice start overlap prefix)
      end
  end.

(** The closure of [path_piece]. *)
Definition consider_piece (prefix : list N) (best : option (list N)) (piece : list N) : option (list N) :=
  if negb (bool_decide (piece = [])) && (match best with Some b => len b | None => 0 end <=? len piece) &&
     negb (found piece prefix)
  then Some piece else best.

Definition path_piece (q : ParsedQuery) (prefix : list N) : option (list N) :=
  if negb (bool_decide (prefix = [])) && negb (bool_decide (last prefix = Some 0x5C)) then None
  else
    let best := fold_left (consider_piece prefix) (flat_map (split 0x5C) (path_terms q)) None in
    fold_left (consider_piece prefix) (flat_map separator_free_literals (path_wildcards q)) best.

Definition wildcard_admits (prefix : list N) (w : Wildcard) : bool :=
  let lit := leading_literal w in
  let n := Nat.min (length lit) (length prefix) in
  bool_decide (take n lit = take n prefix).

Definition compiled_new (q : ParsedQuery) (mount_prefix : list N) : CompiledQuery :=
  let '(pre, from_name_term) := choose_prefilter q in
  let prefix := if match_case q then mount_prefix else fold mount_prefix in
  {| name_finders := name_terms q;
     path_finders := filter (fun t => found t prefix = false) (path_terms q);
     prefilter := pre;
     prefilter_decides_name :=
       from_name_term && (length (name_terms q) =? 1)%nat && match wildcards q with [] => true | _ => false end &&
       match ext (filters q) with None => true | Some _ => false end;
     c_prefix := prefix;
     volume_admits := forallb (fun t => term_admits t prefix) (path_terms q) && forallb (wildcard_admits prefix) (path_wildcards q);
     path_wildcard_ends := (fun w => (leading_literal w, trailing_literal w)) <$> path_wildcards q;
     c_path_piece := if match_case q then None else path_piece q prefix |}.

Definition tests_paths (c : CompiledQuery) (q : ParsedQuery) : bool :=
  negb (match path_finders c with [] => true | _ => false end) || negb (match path_wildcards q with [] => true | _ => false end).
End compile.

(** ** What a query asks *)

Section hits.
Context `{Unicode}.

(** The bytes of a sequence of code points: names, prefixes and terms are such. *)
Definition text (s : list N) : Prop := exists t, Forall (fun cp => cp <= 0x10FFFF) t /\ s = encoded t.

Definition ext_hit (f : Filters) (raw : list N) : Prop :=
  match ext f with
  | None => True
  | Some exts => exists base e, raw = base ++ 0x2E :: e /\ 0x2E ∉ e /\ fold e ∈ exts
  end.

Definition name_hit (q : ParsedQuery) (raw folded : list N) : Prop :=
  let hay := if match_case q then raw else folded in
  (forall t, t ∈ name_terms q -> infix t hay) /\
  (forall w, w ∈ wildcards q -> glob (tokens w) (code_points hay)) /\
  ext_hit (filters q) raw.

Definition path_hit (q : ParsedQuery) (full : list N) : Prop :=
  (forall t, t ∈ path_terms q -> infix t full) /\
  (forall w, w ∈ path_wildcards q -> glob (tokens w) (code_points full)).

(** Wildcards come from texts, as the parser makes them. *)
Definition compiled_from (w : Wildcard) : Prop := exists p, w = compile p.
End hits.

(** *** Texts *)

Lemma code_points_encoded t rest : Forall (fun cp => cp <= 0x10FFFF) t -> code_points (encoded t ++ rest) = t ++ code_points rest.
Proof.
  induction 1 as [|cp t Hcp Ht IH]; [done|]. unfold encoded in *. simpl. rewrite <- app_assoc, code_points_encode by done. by rewrite IH.
Qed.

Lemma text_encoded s : text s -> encoded (code_points s) = s.
Proof. intros (t & Ht & ->). pose proof (code_points_encoded t [] Ht) as E. rewrite !app_nil_r in E. by rewrite E. Qed.

Lemma text_app a b : text a -> text b -> text (a ++ b).
Proof. intros (t & Ht & ->) (u & Hu & ->). exists (t ++ u). split; [by apply Forall_app|]. by rewrite encoded_app. Qed.

Lemma text_nil : text [].
Proof. by exists []. Qed.

Lemma text_ascii c : c < 0x80 -> text [c].
Proof.
  intros Hc. exists [c]. split; [repeat constructor; lia|]. unfold encoded. cbn [flat_map]. rewrite encode_code_point_arith by lia.
  by rewrite (proj2 (N.ltb_lt c 0x80)).
Qed.

Lemma text_before base c e : c < 0x80 -> text (base ++ c :: e) -> text base.
Proof.
  intros Hc (t & Ht & E). revert base E. induction Ht as [|cp t Hcp Ht IH]; intros base E; [by destruct base|].
  unfold encoded in E. simpl in E. apply app_eq_app in E as (k & [[-> E]|[E1 E2]]).
  - apply text_app; [|by apply (IH k)]. exists [cp]. split; [by repeat constructor|]. unfold encoded. simpl. by rewrite app_nil_r.
  - destruct k as [|x k].
    + rewrite app_nil_r in E1. subst base. exists [cp]. split; [by repeat constructor|]. unfold encoded. simpl. by rewrite app_nil_r.
    + injection E2 as <- E2. assert (Hin : c ∈ encode_code_point cp) by (rewrite E1; apply elem_of_app; right; left).
      apply ascii_in_encode in Hin; [|done]. subst cp. destruct base as [|y base]; [apply text_nil|].
      rewrite encode_code_point_arith in E1 by lia. rewrite (proj2 (N.ltb_lt c 0x80)) in E1 by done. by destruct base.
Qed.

(** *** Pieces *)

Lemma piece_infix needle hay : piece_of needle hay <-> infix needle hay.
Proof.
  unfold piece_of, occurs, infix, slice, len. split.
  - intros (p & Hb & Hs). exists (take (N.to_nat p) hay), (drop (N.to_nat p + length needle) hay).
    rewrite Nat2N.id in Hs. rewrite <- Hs at 1. rewrite <- (take_drop (N.to_nat p) hay) at 1. f_equal.
    rewrite <- drop_drop. by rewrite take_drop.
  - intros (l & r & ->). exists (N.of_nat (length l)). rewrite !Nat2N.id, !length_app, drop_app_length, take_app_length. split; [lia|done].
Qed.

Section searching.
Context {M : Memchr} {Mok : MemchrOk M}.

Lemma found_spec needle hay : found needle hay = true <-> infix needle hay.
Proof.
  unfold found. rewrite bool_decide_eq_true, <- piece_infix. split.
  - intros [p Hp]. apply memmem_some in Hp as [Ho _]. by exists p.
  - intros [p Hp]. destruct (memmem_find needle hay) eqn:E; [done|]. by apply (memmem_none _ _ E) in Hp.
Qed.

Lemma found_false needle hay : found needle hay = false <-> ~ infix needle hay.
Proof. rewrite <- found_spec. by destruct (found needle hay). Qed.
End searching.

(** ** Folding and text *)

(** What the engine relies on of the Unicode tables: they map scalars to
    scalars, and a composition never crosses a full stop or a backslash, which
    are starters that combine with nothing. *)
Class UnicodeText `{Unicode} : Prop := {
  decompose_scalars c : c <= 0x10FFFF -> Forall (fun d => d <= 0x10FFFF) (decompose_canonical c);
  lowercase_scalars c : c <= 0x10FFFF -> Forall (fun d => d <= 0x10FFFF) (to_lowercase c);
  nfc_scalars run : Forall (fun d => d <= 0x10FFFF) run -> Forall (fun d => d <= 0x10FFFF) (nfc run);
  nfc_break a c b : c = 0x2E \/ c = 0x5C -> nfc (a ++ c :: b) = nfc a ++ c :: nfc b
}.

#[export] Instance ascii_tables_text : UnicodeText | 100.
Proof.
  constructor; try done; intros c Hc; simpl; repeat constructor; [done|]. unfold Fold.to_ascii_lowercase.
  destruct ((0x41 <=? c) && (c <=? 0x5A)) eqn:E; simpl_cmp; lia.
Qed.

Section folding.
Context `{Unicode, !UnicodeAscii, !UnicodeText}.

Lemma lower_char_scalar c : c <= 0x10FFFF -> lower_char c <= 0x10FFFF.
Proof.
  intros Hc. unfold lower_char. pose proof (lowercase_scalars c Hc) as Hl. destruct (to_lowercase c); [done|].
  by apply Forall_cons in Hl as [? _].
Qed.

Lemma compose_text run : Forall (fun d => d <= 0x10FFFF) run -> text (compose_into run).
Proof.
  intros Hr. unfold compose_into. destruct run; [apply text_nil|]. eexists. split; [by apply nfc_scalars|done].
Qed.

Lemma fold_loop_text cps : forall run,
  Forall (fun d => d <= 0x10FFFF) cps -> Forall (fun d => d <= 0x10FFFF) run -> text (fold_non_ascii_loop cps run).
Proof.
  induction cps as [|cp cps IH]; intros run Hc Hr; simpl; [by apply compose_text|]. apply Forall_cons in Hc as [Hcp Hc].
  destruct (is_scalar cp).
  - apply IH; [done|]. apply Forall_app. split; [done|]. apply Forall_map.
    eapply Forall_impl; [by apply decompose_scalars|]. apply lower_char_scalar.
  - apply text_app; [by apply compose_text|]. apply text_app; [|by apply IH]. exists [cp]. split; [by repeat constructor|].
    unfold encoded. cbn [flat_map]. by rewrite app_nil_r.
Qed.

Lemma fold_eq s : fold s = fold_non_ascii_loop (code_points s) [].
Proof.
  unfold fold, fold_into, fold_non_ascii. destruct (is_ascii s) eqn:E; [|done]. rewrite code_points_ascii by done.
  rewrite fold_loop_ascii; done.
Qed.

Lemma fold_text s : text s -> text (fold s).
Proof.
  intros (t & Ht & ->). rewrite fold_eq. pose proof (code_points_encoded t [] Ht) as E. rewrite !app_nil_r in E. rewrite E.
  by apply fold_loop_text.
Qed.

Lemma compose_break run c r : c = 0x2E \/ c = 0x5C -> compose_into (run ++ c :: r) = compose_into run ++ c :: compose_into r.
Proof.
  intros Hc. assert (Hnil : nfc [] = []) by (by apply nfc_ascii).
  assert (E : forall x, compose_into x = flat_map encode (nfc x)) by (intros [|]; [by rewrite Hnil|done]).
  rewrite !E, nfc_break by done. rewrite flat_map_app. f_equal. cbn [flat_map].
  by destruct Hc as [-> | ->].
Qed.

Lemma fold_loop_run cps : forall run c r, c = 0x2E \/ c = 0x5C ->
  fold_non_ascii_loop cps (run ++ c :: r) = compose_into run ++ c :: fold_non_ascii_loop cps r.
Proof.
  induction cps as [|cp cps IH]; intros run c r Hc; simpl; [by apply compose_break|]. destruct (is_scalar cp).
  - rewrite <- app_assoc. simpl. by apply IH.
  - rewrite compose_break by done. by rewrite <- app_assoc.
Qed.

Lemma fold_loop_break x : forall c y run, c = 0x2E \/ c = 0x5C ->
  fold_non_ascii_loop (x ++ c :: y) run = fold_non_ascii_loop x run ++ c :: fold_non_ascii_loop y [].
Proof.
  induction x as [|cp x IH]; intros c y run Hc; simpl.
  - replace (is_scalar c) with true by (destruct Hc as [-> | ->]; done).
    rewrite decompose_ascii by (destruct Hc as [-> | ->]; done). simpl.
    unfold lower_char. rewrite lowercase_ascii by (destruct Hc as [-> | ->]; done).
    cbn [default]. replace (Fold.to_ascii_lowercase c) with c by (destruct Hc as [-> | ->]; done). by apply fold_loop_run.
  - destruct (is_scalar cp); [by apply IH|]. rewrite IH by done. by rewrite <- !app_assoc.
Qed.

(** Folding works part by part. *)
Lemma fold_break a c b : text a -> c = 0x2E \/ c = 0x5C -> fold (a ++ c :: b) = fold a ++ c :: fold b.
Proof.
  intros (t & Ht & ->) Hc. rewrite !fold_eq, code_points_encoded by done.
  pose proof (code_points_encoded t [] Ht) as E. rewrite !app_nil_r in E. rewrite E.
  assert (Hb : code_points (c :: b) = c :: code_points b).
  { replace (c :: b) with (encode_code_point c ++ b) by (destruct Hc as [-> | ->]; done).
    apply code_points_encode. destruct Hc as [-> | ->]; done. }
  rewrite Hb. by apply fold_loop_break.
Qed.
End folding.

(** ** Pieces and separators *)

Lemma infix_trans a b c : infix a b -> infix b c -> infix a c.
Proof. intros (l & r & ->) (l' & r' & ->). exists (l' ++ l), (r ++ r'). by rewrite <- !app_assoc. Qed.
Lemma infix_refl a : infix a a.
Proof. exists [], []. by rewrite app_nil_r. Qed.
Lemma infix_app_l a b c : infix a c -> infix a (b ++ c).
Proof. intros (l & r & ->). exists (b ++ l), r. by rewrite <- app_assoc. Qed.
Lemma infix_prefix a b : a `prefix_of` b -> infix a b.
Proof. intros [k ->]. by exists [], k. Qed.
Lemma infix_of_suffix a b : a `suffix_of` b -> infix a b.
Proof. intros [k ->]. exists k, []. by rewrite app_nil_r. Qed.
Lemma infix_join c parts p : p ∈ parts -> infix p (join c parts).
Proof.
  induction parts as [|x parts IH]; intros Hp; [by apply not_elem_of_nil in Hp|]. apply elem_of_cons in Hp as [->|Hp].
  - destruct parts; [apply infix_refl|]. apply infix_prefix. by eexists.
  - rewrite join_cons by (by destruct parts; [apply not_elem_of_nil in Hp|]). apply infix_app_l, (infix_app_l _ [c]). by apply IH.
Qed.

(** What holds no separator lies on one side of it. *)
Lemma infix_break p a c b : c ∉ p -> infix p (a ++ c :: b) -> infix p a \/ infix p b.
Proof.
  intros Hc (l & r & E). apply app_eq_app in E as (k & [[-> E]|[-> E]]).
  - symmetry in E. apply app_eq_app in E as (k' & [[-> E]|[-> E]]).
    + left. exists l, k'. done.
    + destruct k' as [|x k']; simplify_eq/=; [|exfalso; apply Hc, elem_of_app; right; left]. left. exists l, []. by rewrite !app_nil_r.
  - destruct k as [|x k]; simpl in E.
    + destruct p; [right; apply infix_nil|]. simplify_eq/=. exfalso. apply Hc. left.
    + injection E as -> ->. right. by exists k, r.
Qed.

(** *** The needs of a path term *)

(** Everything up to a separator that ends the folder's part. *)
Lemma need_none p b name : 0x5C ∉ p -> ~ infix p (b ++ [0x5C]) -> infix p ((b ++ [0x5C]) ++ name) <-> infix p name.
Proof.
  intros Hp Hno. rewrite <- app_assoc. split; [|intros; by do 2 apply infix_app_l].
  intros [Hb|?]%infix_break; [|done|done]. exfalso. by apply Hno, infix_app_r.
Qed.

Lemma need_start t1 t2 b name : 0x5C ∉ t2 -> 0x5C ∉ name -> ~ infix (t1 ++ 0x5C :: t2) (b ++ [0x5C]) ->
  infix (t1 ++ 0x5C :: t2) ((b ++ [0x5C]) ++ name) <-> (t1 ++ [0x5C]) `suffix_of` (b ++ [0x5C]) /\ t2 `prefix_of` name.
Proof.
  intros H2 Hn Hno. split.
  - rewrite <- app_assoc. simpl. intros (l & r & E). rewrite <- app_assoc, (app_assoc l) in E. simpl in E.
    apply app_eq_app in E as (k & [[Eb E]|[Ex E]]).
    + destruct k as [|x k]; simpl in E; [|].
      * injection E as E. rewrite app_nil_r in Eb. subst. split; [exists l; by rewrite <- app_assoc|by exists r].
      * injection E as <- E. exfalso. apply app_eq_app in E as (m & [[-> E]|[Ek E]]).
        -- destruct m as [|y m]; [|injection E as <- _; apply H2, elem_of_app; right; left].
           apply Hno, infix_app_r. exists l, []. rewrite Eb. by rewrite <- !app_assoc, !app_nil_r.
        -- apply Hno, infix_app_r. exists l, m. rewrite Eb, Ek. rewrite <- !app_assoc. done.
    + destruct k as [|x k]; simplify_eq/=.
      * rewrite app_nil_r in Ex. subst b. split; [exists l; by rewrite <- app_assoc|by exists r].
      * exfalso. apply Hn, elem_of_app. right. left.
  - intros [[l E] [r ->]]. rewrite E. exists l, r. by rewrite <- !app_assoc.
Qed.

(** ** What the compiled query may rely on *)

Section necessity.
Context `{Unicode, !UnicodeAscii, !UnicodeText} {M : Memchr} {Mok : MemchrOk M}.
Context (q : ParsedQuery) (mount_prefix : list N).
Notation c := (compiled_new q mount_prefix).

Lemma consider_keeps (P : option (list N) * bool -> Prop) flag l : forall acc,
  (forall x, x ∈ l -> x <> [] -> P (Some x, flag)) -> P acc -> P (fold_left (consider flag) l acc).
Proof.
  induction l as [|x l IH]; intros acc Hl Ha; [done|]. simpl. apply IH; [intros y Hy; apply Hl; by right|].
  unfold consider. destruct (N.ltb_spec (match acc.1 with Some c => len c | None => 0 end) (len x)); [|done].
  apply Hl; [left|]. intros ->. unfold len in *. simpl in *. lia.
Qed.

(** Where the prefilter comes from. *)
Definition prefilter_from (acc : option (list N) * bool) : Prop :=
  forall lit, acc.1 = Some lit -> lit <> [] /\
  (lit ∈ name_terms q \/ acc.2 = false /\
     ((exists w, w ∈ wildcards q /\ longest_literal w = Some lit) \/ (exists e, ext (filters q) = Some [e] /\ lit = 0x2E :: e))).

Lemma choose_prefilter_from : prefilter_from (choose_prefilter q).
Proof.
  unfold choose_prefilter. apply consider_keeps; [|apply consider_keeps; [|apply consider_keeps]].
  - unfold single_ext. intros x Hx Hne lit [= <-]. split; [done|]. right. split; [done|]. right.
    destruct (ext (filters q)) as [[|e [|]]|]; try (by apply not_elem_of_nil in Hx).
    destruct e; [by apply not_elem_of_nil in Hx|]. apply list_elem_of_singleton in Hx. eauto.
  - intros x (w & Hw & Hl)%list_elem_of_omap Hne lit [= <-]. split; [done|]. right. split; [done|]. left. eauto.
  - intros x Hx Hne lit [= <-]. split; [done|]. by left.
  - done.
Qed.

Lemma prefilter_eq : prefilter c = (choose_prefilter q).1.
Proof. unfold compiled_new. by destruct (choose_prefilter q). Qed.

(** Every name that matches holds the prefilter. *)
Lemma prefilter_necessary raw lit :
  match_case q = false -> text raw -> Forall compiled_from (wildcards q) ->
  prefilter c = Some lit -> name_hit q raw (fold raw) -> lit <> [] /\ infix lit (fold raw).
Proof.
  intros Hcase Hraw Hw. rewrite prefilter_eq. intros E (Hn & Hg & He). rewrite Hcase in *.
  destruct (choose_prefilter_from lit E) as [Hne Hfrom]. split; [done|].
  destruct Hfrom as [Hin|(_ & [(w & Hwin & Hl)|(e & Hex & ->)])].
  - by apply Hn.
  - pose proof (Hg _ Hwin) as Hm.
    unfold longest_literal in Hl. pose proof (longest_loop_infix _ [] [] [] _ Hm (infix_nil _) (suffix_nil _)) as Hi.
    simpl in Hi. rewrite (text_encoded _ (fold_text _ Hraw)) in Hi. destruct (longest_loop _ _ _); [done|]. by simplify_eq.
  - unfold ext_hit in He. rewrite Hex in He. destruct He as (base & e' & -> & Hdot & Hin).
    apply list_elem_of_singleton in Hin. subst e. rewrite fold_break; [|by eapply (text_before base 0x2E)|by left].
    apply infix_of_suffix. by exists (fold base).
Qed.

(** When a prefilter hit decides the name, holding it is matching. *)
Lemma prefilter_decides raw folded lit :
  match_case q = false -> prefilter_decides_name c = true -> prefilter c = Some lit -> infix lit folded -> name_hit q raw folded.
Proof.
  intros Hcase. rewrite prefilter_eq. pose proof choose_prefilter_from as Hfrom. unfold compiled_new.
  destruct (choose_prefilter q) as [o b]. simpl. intros Hd ->. intros Hi. destruct (Hfrom lit eq_refl) as [_ Hl].
  apply andb_true_iff in Hd as [Hd He]. apply andb_true_iff in Hd as [Hd Hw]. apply andb_true_iff in Hd as [-> Hn].
  destruct Hl as [Hl|[? _]]; [|done]. apply Nat.eqb_eq in Hn. unfold name_hit, ext_hit. rewrite Hcase.
  destruct (wildcards q); [|done]. destruct (ext (filters q)); [done|]. split_and!; [|by intros ? ?%not_elem_of_nil|done].
  destruct (name_terms q) as [|t [|]]; try done. apply list_elem_of_singleton in Hl. subst t.
  by intros t ->%list_elem_of_singleton.
Qed.

(** *** The volume's prefix *)

Definition one_colon (p : list N) : Prop := forall i j, getN i p = Some 0x3A -> getN j p = Some 0x3A -> i = j.

Lemma getN_app_r {A} i (l r : list A) : getN (len l + i) (l ++ r) = getN i r.
Proof. unfold getN, len. rewrite lookup_app_r by lia. f_equal. lia. Qed.

(** A term that occurs in some full path of the volume is admitted. *)
Lemma term_admits_sound term prefix rest :
  one_colon prefix -> 0x3A ∉ rest -> infix term (prefix ++ rest) -> term_admits term prefix = true.
Proof.
  intros Hone Hr (l & r & E). unfold term_admits. destruct (memchr 0x3A term) as [k|] eqn:Ek; [|done].
  apply memchr_some in Ek as [Ek _]. pose proof (getN_lt _ _ _ Ek) as Hk.
  assert (Hp : getN (len l + k) (prefix ++ rest) = Some 0x3A) by (rewrite E, getN_app_r, getN_app_l by done; done).
  assert (Hin : getN (len l + k) prefix = Some 0x3A /\ len l + k < len prefix).
  { destruct (N.lt_ge_cases (len l + k) (len prefix)) as [Hlt|Hge]; [by rewrite getN_app_l in Hp|].
    replace (len l + k) with (len prefix + (len l + k - len prefix)) in Hp by lia. rewrite getN_app_r in Hp.
    apply list_elem_of_lookup_2 in Hp. done. }
  destruct Hin as [Hin Hlt]. destruct (memchr 0x3A prefix) as [c0|] eqn:Ec.
  2: { apply memchr_none in Ec. apply list_elem_of_lookup_2 in Hin. done. }
  apply memchr_some in Ec as [Ec _]. rewrite (Hone _ _ Ec Hin). simpl. rewrite (proj2 (N.leb_le _ _)) by lia.
  apply bool_decide_eq_true. replace (len l + k - k) with (len l) by lia. unfold slice.
  assert (Ed : drop (length l) prefix ++ rest = term ++ r).
  { apply (f_equal (drop (length l))) in E. rewrite drop_app_length in E. rewrite drop_app_le in E by (unfold len in *; lia). done. }
  replace (N.to_nat (len l)) with (length l) by (unfold len; lia).
  apply (f_equal (take (N.to_nat (N.min (len prefix - len l) (len term))))) in Ed. unfold len in *.
  rewrite (take_app_le (drop _ _)), (take_app_le term) in Ed by (rewrite ?length_drop; lia). done.
Qed.

Lemma wildcard_admits_sound w prefix rest :
  text (prefix ++ rest) -> glob (tokens w) (code_points (prefix ++ rest)) -> wildcard_admits prefix w = true.
Proof.
  intros Ht Hg%leading_prefix. rewrite text_encoded in Hg by done. unfold wildcard_admits, leading_literal.
  apply bool_decide_eq_true. destruct Hg as [k Hk]. apply (f_equal (take (Nat.min (length (leading_loop (tokens w))) (length prefix)))) in Hk.
  rewrite !take_app_le in Hk by lia. done.
Qed.

Lemma c_prefix_eq : c_prefix c = if match_case q then mount_prefix else fold mount_prefix.
Proof. unfold compiled_new. by destruct (choose_prefilter q). Qed.

(** A volume that is skipped holds no match. *)
Lemma volume_admits_sound rest :
  one_colon (c_prefix c) -> 0x3A ∉ rest -> text (c_prefix c ++ rest) -> path_hit q (c_prefix c ++ rest) -> volume_admits c = true.
Proof.
  rewrite c_prefix_eq. intros Hone Hr Ht [Hterm Hw]. unfold compiled_new. destruct (choose_prefilter q) as [o b]. simpl.
  apply andb_true_iff. split; apply forallb_forall; intros x Hx%list_elem_of_In.
  - eapply term_admits_sound; eauto.
  - eapply wildcard_admits_sound; eauto.
Qed.

(** The path terms left open decide the path terms. *)
Lemma path_finders_hit rest :
  path_hit q (c_prefix c ++ rest) <->
  (forall t, t ∈ path_finders c -> infix t (c_prefix c ++ rest)) /\
  (forall w, w ∈ path_wildcards q -> glob (tokens w) (code_points (c_prefix c ++ rest))).
Proof.
  rewrite c_prefix_eq. unfold compiled_new, path_hit. destruct (choose_prefilter q) as [o b]. simpl.
  setoid_rewrite list_elem_of_filter. split; intros [Ht Hw]; (split; [|done]); intros t; [intros [_ ?]; by apply Ht|].
  intros Hin. destruct (found t (if match_case q then mount_prefix else fold mount_prefix)) eqn:Ef; [|by apply Ht].
  apply infix_app_r. by apply found_spec.
Qed.

(** *** The piece of a path *)

Lemma consider_piece_keeps (P : list N -> Prop) prefix l : forall best,
  (forall x, x ∈ l -> x <> [] -> ~ infix x prefix -> P x) -> (forall x, best = Some x -> P x) ->
  forall x, fold_left (consider_piece prefix) l best = Some x -> P x.
Proof.
  induction l as [|y l IH]; intros best Hl Hb; [done|]. simpl. apply IH; [intros x Hx; apply Hl; by right|].
  unfold consider_piece. destruct (_ && _ && _) eqn:E; [|done]. intros x [= <-].
  apply andb_true_iff in E as [[E1 _]%andb_true_iff E2]. apply negb_true_iff, bool_decide_eq_false in E1.
  apply negb_true_iff, found_false in E2. apply Hl; [left|done|done].
Qed.

(** The piece is in every full path that matches, past the prefix, and no part
    of it is a separator. *)
Lemma path_piece_necessary piece rest :
  c_path_piece c = Some piece -> text (c_prefix c ++ rest) -> path_hit q (c_prefix c ++ rest) ->
  match_case q = false /\ piece <> [] /\ 0x5C ∉ piece /\ infix piece rest.
Proof.
  rewrite c_prefix_eq. intros Hp Ht [Hterm Hw].
  assert (Hp' : (if match_case q then None else path_piece q (if match_case q then mount_prefix else fold mount_prefix)) = Some piece).
  { unfold compiled_new in Hp. by destruct (choose_prefilter q). }
  clear Hp. destruct (match_case q); [done|]. set (prefix := fold mount_prefix) in *. split; [done|]. unfold path_piece in Hp'.
  destruct (negb _ && negb _) eqn:Eopen; [done|].
  assert (Hall : piece <> [] /\ 0x5C ∉ piece /\ ~ infix piece prefix /\ infix piece (prefix ++ rest)).
  { revert Hp'. apply (consider_piece_keeps (fun x => x <> [] /\ 0x5C ∉ x /\ ~ infix x prefix /\ infix x (prefix ++ rest))).
    2: apply (consider_piece_keeps (fun x => x <> [] /\ 0x5C ∉ x /\ ~ infix x prefix /\ infix x (prefix ++ rest))); [|done].
    - intros x Hx%list_elem_of_In Hne Hno. apply in_flat_map in Hx as (w & Hwin%list_elem_of_In & Hx%list_elem_of_In).
      pose proof (free_loop_infix _ [] [] [] _ (Hw w Hwin) (suffix_nil _) (not_elem_of_nil _) (Forall_nil_2 _)) as Hf.
      simpl in Hf. rewrite text_encoded in Hf by done. rewrite Forall_forall in Hf. destruct (Hf x Hx) as (? & ? & _). done.
    - intros x Hx%list_elem_of_In Hne Hno. apply in_flat_map in Hx as (t & Htin%list_elem_of_In & Hx%list_elem_of_In).
      destruct (split_join 0x5C t) as [Ej Hf]. rewrite Forall_forall in Hf. split_and!; [done|by apply Hf|done|].
      eapply infix_trans; [|by apply Hterm]. rewrite <- Ej. by apply infix_join. }
  destruct Hall as (Hne & Hsep & Hno & Hin). split_and!; [done|done|].
  destruct prefix as [|x p _] using rev_ind; [done|]. rewrite last_snoc in Eopen.
  destruct (decide (x = 0x5C)) as [->|Hx].
  - rewrite <- app_assoc in Hin. apply infix_break in Hin as [Hin|Hin]; [|done|done]. exfalso. by apply Hno, infix_app_r.
  - rewrite bool_decide_eq_false_2, bool_decide_eq_false_2 in Eopen; [done|congruence|by destruct p].
Qed.
End necessity.
