(* ===== verification/FolderPaths.v ===== *)
(** What the query engine reads of an index, and the folder paths it builds for
    path terms: [FolderPaths] of [crates/goz-core/src/query/engine.rs].

    The engine borrows the index immutably, so it is a record of readers; a
    [VolumeIndex] provides one ([EngineView]).  A folder's path is built from
    the nearest ancestor already known, kept in an arena up to a cap, and each
    path term is reduced, once per folder, to what it needs of a name. *)

From stdpp Require Import gmap.
From stdpp Require Import base option list sets.
From Stdlib Require Import NArith ZArith Lia.
From S2P Require Import Prelude Types Wtf8 Fold Text Budget Wildcard Query NameStore Prefilter Compiled Volume.

(** ** The index as the engine reads it *)

Record IndexView := {
  v_root : N;
  v_lost_found : N;
  (** What an entry holds. *)
  v_parent : N -> N;
  v_is_dir : N -> bool;
  v_size : N -> option N;
  v_mtime : N -> option Z;
  v_frn : N -> N;
  v_name_id : N -> N;
  v_synthetic : N -> bool;
  (** The names: their arenas, their bytes, their order and who bears them. *)
  v_names : NameStore;
  v_raw : N -> list N;
  v_folded : N -> list N;
  v_rank_key : N -> N;
  v_refcount : N -> N;
  v_name_chain : N -> list N;
  (** The live entries, the first [n] below a folder, and paths. *)
  v_len : N;
  v_live : list N;
  v_subtree : N -> nat -> list N;
  v_may_have_unpresentable : bool;
  v_path_of : N -> option (list N)
}.

(** [name_bytes]. *)
Definition name_bytes (V : IndexView) (fold : bool) (idx : N) : list N :=
  if fold then v_folded V (v_name_id V idx) else v_raw V (v_name_id V idx).

(** ** The builder *)

Definition CACHED_PATH_MAX : N := 1024.
Definition FOLDER_PATH_BYTES_MAX : N := N.shiftl 16 20.
Definition FOLDERS_MAX : N := N.shiftl 1 19 / 8 * 7.

Record Folder := { f_start : N; f_end : N; f_depth : N }.

Inductive Need := Nothing | Start (from : N) | WithinName | Never | Whole.

Record FolderPaths := {
  arena : list N;
  known : gmap N (option Folder);
  current : option (N * option N);
  path : list N;
  needs : list Need;
  needs_for : option N
}.

Definition with_arena a p := {| arena := a; known := known p; current := current p; path := path p; needs := needs p; needs_for := needs_for p |}.
Definition with_known k p := {| arena := arena p; known := k; current := current p; path := path p; needs := needs p; needs_for := needs_for p |}.
Definition with_current c p := {| arena := arena p; known := known p; current := c; path := path p; needs := needs p; needs_for := needs_for p |}.
Definition with_path b p := {| arena := arena p; known := known p; current := current p; path := b; needs := needs p; needs_for := needs_for p |}.
Definition with_needs n f p := {| arena := arena p; known := known p; current := current p; path := path p; needs := n; needs_for := f |}.

Section folders.
Context (V : IndexView) (prefix : list N) (fold : bool) (max_bytes max_folders : N).

Definition restart (p : FolderPaths) : FolderPaths :=
  with_known {[ v_root V := Some {| f_start := 0; f_end := 0; f_depth := 1 |} ]} (with_arena [] p).

Definition folder_paths_new : FolderPaths :=
  restart {| arena := []; known := ∅; current := None; path := prefix; needs := []; needs_for := None |}.

Definition remember (folder : N) (k : option Folder) (p : FolderPaths) : FolderPaths :=
  let p := if max_folders <=? N.of_nat (base.size (known p)) then restart p else p in
  with_known (<[folder := k]> (known p)) p.

Definition cache (folder depth : N) (p : FolderPaths) : FolderPaths :=
  let rel := len (path p) - len prefix in
  let p := if (max_bytes <? len (arena p) + rel) || (max_folders <=? N.of_nat (base.size (known p))) then restart p else p in
  let start := as_u32 (len (arena p)) in
  let p := with_arena (arena p ++ drop (length prefix) (path p)) p in
  let stop := as_u32 (len (arena p)) in
  with_known (<[folder := Some {| f_start := start; f_end := stop; f_depth := depth |}]> (known p)) p.

(** The climb of [build]: the folders passed, nearest first, and the base they
    hang from; [None] when the chain is too long. *)
Fixpoint climb_known (hops : nat) (p : FolderPaths) (cur : N) : option (list N * option Folder) :=
  match known p !! cur with
  | Some k => Some ([], k)
  | None =>
      match hops with
      | O => None
      | S hops =>
          let parent := v_parent V cur in
          if parent =? NIL then
            Some ([cur], if cur =? v_lost_found V then None else Some {| f_start := 0; f_end := 0; f_depth := 0 |})
          else '(chain, base) ← climb_known hops p parent; Some (cur :: chain, base)
      end
  end.

(** The way back down: [folders] from the base on. *)
Fixpoint descend (folders : list N) (depth : N) (p : FolderPaths) : option N * FolderPaths :=
  match folders with
  | [] => (Some depth, p)
  | folder :: rest =>
      let depth := depth + 1 in
      if MAX_PATH_HOPS <? depth then (None, fold_left (fun p f => remember f None p) folders p)
      else
        let b := path p in
        let b := (if len prefix <? len b then b ++ [0x5C] else b) ++ name_bytes V fold folder in
        let p := with_path b p in
        let p := if len b - len prefix <=? CACHED_PATH_MAX then cache folder depth p else p in
        descend rest depth p
  end.

Definition build (dir : N) (p : FolderPaths) : option N * FolderPaths :=
  let p := with_path (take (length prefix) (path p)) p in
  if dir =? NIL then (Some 0, p)
  else
    match climb_known (N.to_nat MAX_PATH_HOPS) p dir with
    | None => (None, remember dir None p)
    | Some (chain, None) => (None, fold_left (fun p f => remember f None p) chain p)
    | Some (chain, Some base) =>
        let p := with_path (path p ++ slice (f_start base) (f_end base - f_start base) (arena p)) p in
        descend (reverse chain) (f_depth base) p
    end.

Definition load (dir : N) (p : FolderPaths) : option N * FolderPaths :=
  match current p with
  | Some (cur, depth) =>
      if cur =? dir then (depth, p)
      else let '(d, p) := build dir p in (d, with_current (Some (dir, d)) p)
  | None => let '(d, p) := build dir p in (d, with_current (Some (dir, d)) p)
  end.

(** [with_full_path]: the full path its closure is called with. *)
Definition with_full_path (idx : N) (p : FolderPaths) : option (list N) * FolderPaths :=
  let '(depth, p) := load (v_parent V idx) p in
  match depth with
  | None => (None, p)
  | Some depth =>
      if MAX_PATH_HOPS <=? depth then (None, p)
      else
        let b := path p in
        (Some ((if len prefix <? len b then b ++ [0x5C] else b) ++ name_bytes V fold idx), p)
  end.

Section matching.
Context {E : Env} {M : Memchr}.

(** What one term needs. *)
Definition need_of (before_name : list N) (term : list N) : Need :=
  if found term before_name then Nothing
  else if negb (bool_decide (last before_name = Some 0x5C)) then Whole
  else match memrchr 0x5C term with
       | Some l => if bool_decide (take (N.to_nat (l + 1)) term `suffix_of` before_name) then Start (l + 1) else Never
       | None => WithinName
       end.

Fixpoint decide_loop (before_name : list N) (finders : list (list N)) : ST Budget (list Need) :=
  match finders with
  | [] => st_ret []
  | term :: rest =>
      stop <- (if CACHED_PATH_MAX <? len before_name then budget_check else st_ret false) ;;
      ns <- decide_loop before_name rest ;;
      st_ret ((if (stop : bool) then Never else need_of before_name term) :: ns)
  end.

Definition decide_needs (c : CompiledQuery) (p : FolderPaths) : ST Budget FolderPaths :=
  let before_name := if len prefix <? len (path p) then path p ++ [0x5C] else path p in
  ns <- decide_loop before_name (path_finders c) ;;
  st_ret (with_needs ns (needs_for p) p).

(** The loop over the terms: [None] once one is not held, else whether one
    takes the whole path. *)
Fixpoint needs_hold (finders : list (list N)) (needs : list Need) (name : list N) : option bool :=
  match finders, needs with
  | finder :: finders, need :: needs =>
      match need with
      | Nothing => needs_hold finders needs name
      | Start from => if bool_decide (drop (N.to_nat from) finder `prefix_of` name) then needs_hold finders needs name else None
      | WithinName => if found finder name then needs_hold finders needs name else None
      | Never => None
      | Whole => match needs_hold finders needs name with Some _ => Some true | None => None end
      end
  | _, _ => Some false
  end.

(** [wildcards_match], the text decoded once. *)
Fixpoint all_match (ws : list Wildcard) (decoded : list N) : ST Budget bool :=
  match ws with
  | [] => st_ret true
  | w :: ws => r <- matches_decoded w decoded ;; if (r : bool) then all_match ws decoded else st_ret false
  end.
Definition wildcards_match (ws : list Wildcard) (text : list N) : ST Budget bool := all_match ws (code_points text).

(** The closure of [full_path_matches] on the full path. *)
Definition full_test (q : ParsedQuery) (c : CompiledQuery) (whole : bool) (full : list N) : ST Budget bool :=
  if (negb whole || forallb (fun f => found f full) (path_finders c)) &&
     forallb (fun e => bool_decide (e.1 `prefix_of` full) && bool_decide (e.2 `suffix_of` full)) (path_wildcard_ends c)
  then match path_wildcards q with [] => st_ret true | ws => wildcards_match ws full end
  else st_ret false.

Definition full_path_matches (q : ParsedQuery) (c : CompiledQuery) (idx : N) (p : FolderPaths) : ST Budget (bool * FolderPaths) :=
  let folder := v_parent V idx in
  let '(depth, p) := load folder p in
  if match depth with Some d => d <? MAX_PATH_HOPS | None => false end then
    p <- (if bool_decide (needs_for p = Some folder) then st_ret p
          else p <- decide_needs c p ;; st_ret (with_needs (needs p) (Some folder) p)) ;;
    let name := name_bytes V fold idx in
    match (match memchr 0x5C name with Some _ => Some true | None => needs_hold (path_finders c) (needs p) name end) with
    | None => st_ret (false, p)
    | Some whole =>
        if negb whole && match path_wildcards q with [] => true | _ => false end then st_ret (true, p)
        else
          let '(full, p) := with_full_path idx p in
          match full with
          | None => st_ret (false, p)
          | Some full => r <- full_test q c whole full ;; st_ret (r, p)
          end
    end
  else st_ret (false, p).
End matching.
End folders.

(** ** The path a folder has *)

Section correctness.
Context (V : IndexView) (prefix : list N) (fold : bool) (max_bytes max_folders : N).

(** The entries from [idx] up to a top that is not lost+found, when there are
    at most [hops] of them. *)
Fixpoint walk (hops : nat) (idx : N) : option (list N) :=
  match hops with
  | O => None
  | S hops =>
      if v_parent V idx =? NIL then if idx =? v_lost_found V then None else Some [idx]
      else chain ← walk hops (v_parent V idx); Some (idx :: chain)
  end.

(** Their names joined from the top down, the root's left out. *)
Fixpoint rel_path (chain : list N) : list N :=
  match chain with
  | [] => []
  | idx :: chain =>
      let above := rel_path chain in
      if idx =? v_root V then above
      else (match above with [] => [] | _ => above ++ [0x5C] end) ++ name_bytes V fold idx
  end.

(** The chain of a folder: [NIL] is the folder of a top. *)
Definition folder_chain (dir : N) : option (list N) :=
  if dir =? NIL then Some [] else walk (N.to_nat MAX_PATH_HOPS) dir.

(** The full path of an entry, when it has one. *)
Definition entry_path (idx : N) : option (list N) :=
  chain ← folder_chain (v_parent V idx);
  if len chain <? MAX_PATH_HOPS then
    let above := rel_path chain in
    Some (prefix ++ (match above with [] => [] | _ => above ++ [0x5C] end) ++ name_bytes V fold idx)
  else None.

(** *** Walks *)

Lemma walk_len n x c : walk n x = Some c -> (length c <= n)%nat /\ c <> [].
Proof.
  revert x c. induction n as [|n IH]; intros x c Hw; simpl in Hw; [done|]. destruct (v_parent V x =? NIL).
  - destruct (x =? v_lost_found V); [done|]. injection Hw as <-. split; [simpl; lia|done].
  - apply bind_Some in Hw as (c' & Hc' & [= <-]). apply IH in Hc' as [? _]. split; [simpl; lia|done].
Qed.

Lemma walk_fits n m x c : walk n x = Some c -> (length c <= m)%nat -> walk m x = Some c.
Proof.
  revert m x c. induction n as [|n IH]; intros m x c Hw Hm; simpl in Hw; [done|].
  destruct m as [|m]; simpl.
  { destruct (v_parent V x =? NIL); [destruct (x =? v_lost_found V); [done|]|apply bind_Some in Hw as (? & ? & Hw)];
      injection Hw as <-; simpl in Hm; lia. }
  destruct (v_parent V x =? NIL); [done|]. apply bind_Some in Hw as (c' & Hc' & [= <-]). simpl in Hm.
  rewrite (IH m _ c') by (done || lia). done.
Qed.

Lemma walk_cons n x c : v_parent V x <> NIL -> walk n (v_parent V x) = Some c -> walk (S n) x = Some (x :: c).
Proof. intros Hp Hw. simpl. rewrite (proj2 (N.eqb_neq _ _) Hp). by rewrite Hw. Qed.

(** [c] is the chain of [x], however long. *)
Definition up (x : N) (c : list N) : Prop := exists n, walk n x = Some c.

Lemma up_walk n x c : up x c -> (length c <= n)%nat <-> walk n x = Some c.
Proof. intros [m Hm]. split; [by eapply walk_fits|]. intros [? _]%walk_len. done. Qed.
Lemma up_fun x c c' : up x c -> up x c' -> c = c'.
Proof.
  intros [n Hn] [m Hm]. destruct (Nat.le_ge_cases n m).
  - assert (walk m x = Some c) by (eapply walk_fits; [done|]; apply walk_len in Hn; lia). congruence.
  - assert (walk n x = Some c') by (eapply walk_fits; [done|]; apply walk_len in Hm; lia). congruence.
Qed.
Lemma up_cons x c : v_parent V x <> NIL -> up (v_parent V x) c -> up x (x :: c).
Proof. intros Hp [n Hn]. exists (S n). by apply walk_cons. Qed.
Lemma up_top x : v_parent V x = NIL -> x <> v_lost_found V -> up x [x].
Proof. intros Hp Hl. exists 1%nat. simpl. by rewrite Hp, (proj2 (N.eqb_neq _ _) Hl). Qed.
Lemma up_inv x c : up x c -> (v_parent V x = NIL /\ x <> v_lost_found V /\ c = [x]) \/
  (v_parent V x <> NIL /\ exists c', c = x :: c' /\ up (v_parent V x) c').
Proof.
  intros [[|n] Hn]; [done|]. simpl in Hn. destruct (N.eqb_spec (v_parent V x) NIL).
  - left. destruct (N.eqb_spec x (v_lost_found V)); [done|]. by simplify_eq.
  - right. split; [done|]. apply bind_Some in Hn as (c' & Hc' & [= <-]). exists c'. split; [done|by exists n].
Qed.

(** *** What the builder knows is true *)

Hypothesis root_top : v_parent V (v_root V) = NIL.
Hypothesis root_real : v_root V <> v_lost_found V.
Hypothesis bytes_fit : max_bytes < 2 ^ 32.

Notation hops := (N.to_nat MAX_PATH_HOPS).

Lemma hops_pos : (1 <= hops)%nat.
Proof. unfold MAX_PATH_HOPS. lia. Qed.
#[local] Opaque MAX_PATH_HOPS.

Definition too_far (x : N) : Prop := forall c, up x c -> (hops < length c)%nat.

Lemma too_far_walk x : walk hops x = None <-> too_far x.
Proof.
  split.
  - intros Hw c Hc. destruct (Nat.le_gt_cases (length c) hops) as [Hle|]; [|done]. apply (up_walk hops x c Hc) in Hle. congruence.
  - intros Hf. destruct (walk hops x) as [c|] eqn:Hw; [|done]. pose proof (walk_len _ _ _ Hw). specialize (Hf c (ex_intro _ _ Hw)). lia.
Qed.

Lemma too_far_up x : v_parent V x <> NIL -> too_far (v_parent V x) -> too_far x.
Proof. intros Hp Hf c [(? & _ & _)|(_ & c' & -> & Hc')]%up_inv; [done|]. specialize (Hf c' Hc'). simpl. lia. Qed.

Definition known_ok (ar : list N) (x : N) (k : option Folder) : Prop :=
  match k with
  | None => too_far x
  | Some F => exists c, up x c /\ (length c <= hops)%nat /\ f_depth F = len c /\ f_start F <= f_end F /\ f_end F <= len ar /\
      slice (f_start F) (f_end F - f_start F) ar = rel_path c
  end.

Record fp_ok (p : FolderPaths) : Prop := {
  fp_known x k : known p !! x = Some k -> known_ok (arena p) x k;
  fp_root : is_Some (known p !! v_root V);
  fp_arena : len (arena p) < 2 ^ 32
}.

Definition frame (p p' : FolderPaths) : Prop := current p' = current p /\ needs p' = needs p /\ needs_for p' = needs_for p.

Lemma frame_trans p1 p2 p3 : frame p1 p2 -> frame p2 p3 -> frame p1 p3.
Proof. unfold frame. intuition congruence. Qed.

Lemma restart_ok p : fp_ok (restart V p) /\ frame p (restart V p) /\ path (restart V p) = path p.
Proof.
  split_and!; [|done|done]. split; simpl.
  - intros x k [<- <-]%lookup_singleton_Some. exists [v_root V]. split_and!; [by apply up_top|apply hops_pos|done|done|done|].
    simpl. by rewrite N.eqb_refl.
  - rewrite lookup_singleton_eq. by eexists.
  - done.
Qed.

Lemma remember_ok p x : fp_ok p -> x <> v_root V -> too_far x ->
  let p' := remember V max_folders x None p in fp_ok p' /\ frame p p' /\ path p' = path p.
Proof.
  intros Hp Hx Hf p'. subst p'. unfold remember. set (p1 := if max_folders <=? _ then _ else p).
  assert (H1 : fp_ok p1 /\ frame p p1 /\ path p1 = path p) by (subst p1; destruct (_ <=? _); [apply restart_ok|done]).
  clearbody p1. destruct H1 as ([K R A] & Hfr & Hpath). split_and!; [|done..]. split; simpl; [|by rewrite lookup_insert_ne|done].
  intros y k [[<- <-]|[? Hy]]%lookup_insert_Some; [done|]. by apply K.
Qed.

Lemma remember_all_ok l : forall p, fp_ok p -> Forall (fun x => x <> v_root V /\ too_far x) l ->
  let p' := fold_left (fun p f => remember V max_folders f None p) l p in fp_ok p' /\ frame p p' /\ path p' = path p.
Proof.
  induction l as [|x l IH]; intros p Hp Hl; simpl; [done|]. apply Forall_cons in Hl as [[Hx Hf] Hl].
  destruct (remember_ok p x Hp Hx Hf) as (H1 & (F1 & F2 & F3) & G1). destruct (IH _ H1 Hl) as (H2 & (F4 & F5 & F6) & G2).
  split_and!; [done| |congruence]. split_and!; congruence.
Qed.

Lemma known_grows ar ext x k : known_ok ar x k -> known_ok (ar ++ ext) x k.
Proof.
  destruct k as [F|]; [|done]. intros (c & ? & ? & ? & ? & ? & Hs). exists c. split_and!; try done.
  - rewrite len_app. lia.
  - by rewrite slice_app_in by lia.
Qed.

Lemma cache_ok p x c : fp_ok p -> x <> v_root V -> up x c -> (length c <= hops)%nat ->
  path p = prefix ++ rel_path c -> len (rel_path c) <= CACHED_PATH_MAX ->
  let p' := cache V prefix max_bytes max_folders x (len c) p in fp_ok p' /\ frame p p' /\ path p' = path p.
Proof.
  intros Hp Hx Hc Hlen Hpath Hrel p'. subst p'. unfold cache.
  replace (len (path p) - len prefix) with (len (rel_path c)) by (rewrite Hpath, len_app; lia). set (p1 := if (max_bytes <? _) || _ then _ else p).
  assert (H1 : fp_ok p1 /\ frame p p1 /\ path p1 = path p /\ len (arena p1) + len (rel_path c) < 2 ^ 32).
  { subst p1. destruct (N.ltb_spec max_bytes (len (arena p) + len (rel_path c))) as [|Hb]; simpl.
    - destruct (restart_ok p) as (? & ? & ?). split_and!; try done. unfold CACHED_PATH_MAX in Hrel. unfold len at 1. simpl. lia.
    - destruct (_ <=? _).
      + destruct (restart_ok p) as (? & ? & ?). split_and!; try done. unfold CACHED_PATH_MAX in Hrel. unfold len at 1. simpl. lia.
      + split_and!; try done. lia. }
  clearbody p1. destruct H1 as ([K R A] & Hfr & Hpath1 & Hfit). split_and!; [|done..]. rewrite Hpath1, Hpath, drop_app_length.
  split; simpl; [|by rewrite lookup_insert_ne|rewrite len_app; lia].
  intros y k [[<- <-]|[? Hy]]%lookup_insert_Some; [|by apply known_grows, K].
  exists c. simpl. unfold as_u32. rewrite len_app, !N.mod_small by lia. split_and!; try done; try lia.
  replace (len (arena p1) + len (rel_path c) - len (arena p1)) with (len (rel_path c)) by lia.
  unfold slice, len. rewrite !Nat2N.id, drop_app_length. apply take_ge. lia.
Qed.

(** *** Building *)

(** [folders], from the top down, hang from the folder whose chain is [c]. *)
Fixpoint linked (folders c : list N) : Prop :=
  match folders with [] => True | f :: rest => up f (f :: c) /\ linked rest (f :: c) end.

Lemma linked_snoc l x c : linked l c -> up x (x :: reverse l ++ c) -> linked (l ++ [x]) c.
Proof.
  revert c. induction l as [|y l IH]; intros c Hl Hx; simpl in *; [done|]. destruct Hl as [Hy Hl]. split; [done|].
  apply IH; [done|]. by rewrite reverse_cons, <- app_assoc in Hx.
Qed.

Lemma unknown_not_root p x : fp_ok p -> known p !! x = None -> x <> v_root V.
Proof. intros [_ [F HF] _] Hx ->. congruence. Qed.

Definition climb_post (p : FolderPaths) (n : nat) (cur : N) (r : option (list N * option Folder)) : Prop :=
  match r with
  | None => cur <> v_root V /\ forall c, up cur c -> (n < length c)%nat
  | Some (chain, None) => too_far cur /\ Forall (fun x => x <> v_root V /\ too_far x) chain
  | Some (chain, Some F) => exists c, up cur (chain ++ c) /\ (length c <= hops)%nat /\ f_depth F = len c /\
      slice (f_start F) (f_end F - f_start F) (arena p) = rel_path c /\ linked (reverse chain) c /\ Forall (fun x => x <> v_root V) chain
  end.

Lemma climb_known_spec p : fp_ok p -> forall n cur, climb_post p n cur (climb_known V n p cur).
Proof.
  intros Hp. induction n as [|n IH]; intros cur; simpl; destruct (known p !! cur) as [k|] eqn:Hk.
  1,3: pose proof (fp_known p Hp cur k Hk) as Hok; destruct k as [F|]; simpl; [|by split];
       destruct Hok as (c & ? & ? & ? & ? & ? & ?); exists c; split_and!; (done || constructor).
  - simpl. split; [by eapply unknown_not_root|]. intros c Hc. apply up_inv in Hc as [(_ & _ & ->)|(_ & c' & -> & _)]; simpl; lia.
  - pose proof (unknown_not_root p cur Hp Hk) as Hroot. destruct (N.eqb_spec (v_parent V cur) NIL) as [Ep|Ep].
    + simpl. destruct (N.eqb_spec cur (v_lost_found V)) as [->|Hl].
      * assert (Hf : too_far (v_lost_found V)) by (intros c [(_ & ? & _)|(? & _)]%up_inv; done). split; [done|]. by repeat constructor.
      * exists []. pose proof (up_top cur Ep Hl). split_and!; [done|apply Nat.le_0_l|done|done|done|done|by repeat constructor].
    + specialize (IH (v_parent V cur)). destruct (climb_known V n p (v_parent V cur)) as [[chain [F|]]|]; simpl in *.
      * destruct IH as (c & Hu & Hc & Hd & Hs & Hl & Hr). exists c. pose proof (up_cons cur _ Ep Hu) as Hu'.
        split_and!; try done; [|by constructor]. rewrite reverse_cons. apply linked_snoc; [done|]. by rewrite reverse_involutive.
      * destruct IH as [Hf Hch]. pose proof (too_far_up cur Ep Hf). split; [done|]. by constructor.
      * split; [done|]. intros c [(? & _ & _)|(_ & c' & -> & Hc')]%up_inv; [done|]. destruct IH as [_ IH]. specialize (IH c' Hc'). simpl. lia.
Qed.

Lemma path_push c x b : x <> v_root V -> b = prefix ++ rel_path c ->
  (if len prefix <? len b then b ++ [0x5C] else b) ++ name_bytes V fold x = prefix ++ rel_path (x :: c).
Proof.
  intros Hx ->. cbn [rel_path]. rewrite (proj2 (N.eqb_neq _ _) Hx), len_app. destruct (rel_path c) as [|y r] eqn:Er.
  - rewrite app_nil_r. replace (len prefix <? len prefix + len []) with false; [done|]. symmetry. apply N.ltb_ge. unfold len. simpl. lia.
  - replace (len prefix <? _) with true; [by rewrite <- !app_assoc|]. symmetry. apply N.ltb_lt. unfold len. simpl. lia.
Qed.

Lemma linked_too_far l c : linked l c -> (hops <= length c)%nat -> Forall (fun x => x <> v_root V) l -> Forall (fun x => x <> v_root V /\ too_far x) l.
Proof.
  revert c. induction l as [|x l IH]; intros c Hl Hc Hr; constructor; simpl in Hl; destruct Hl as [Hx Hl]; apply Forall_cons in Hr as [Hxr Hr].
  - split; [done|]. intros c' Hc'. rewrite (up_fun _ _ _ Hc' Hx). simpl. lia.
  - apply (IH (x :: c)); [done|simpl; lia|done].
Qed.

Lemma descend_spec folders : forall c p,
  fp_ok p -> linked folders c -> (length c <= hops)%nat -> path p = prefix ++ rel_path c -> Forall (fun x => x <> v_root V) folders ->
  let '(r, p') := descend V prefix fold max_bytes max_folders folders (len c) p in
  fp_ok p' /\ frame p p' /\ prefix `prefix_of` path p' /\
  match r with
  | Some d => d = len (reverse folders ++ c) /\ d <= MAX_PATH_HOPS /\ path p' = prefix ++ rel_path (reverse folders ++ c)
  | None => (hops < length (reverse folders ++ c))%nat
  end.
Proof.
  induction folders as [|x folders IH]; intros c p Hp Hl Hc Hpath Hr; simpl.
  { split_and!; try done; [rewrite Hpath; by apply prefix_app_r|unfold len; lia]. }
  destruct Hl as [Hx Hl]. pose proof Hr as Hr0. apply Forall_cons in Hr as [Hxr Hr].
  replace (len c + 1) with (len (x :: c)) by (unfold len; simpl; lia). destruct (N.ltb_spec MAX_PATH_HOPS (len (x :: c))) as [Hd|Hd].
  - assert (Hfull : (hops <= length c)%nat) by (unfold len in Hd; simpl in Hd; lia).
    destruct (remember_all_ok (x :: folders) p Hp) as (Hp' & Hf & Hpa); [by apply (linked_too_far _ c)|].
    simpl in Hp', Hf, Hpa. split_and!; try done; [rewrite Hpa, Hpath; by apply prefix_app_r|rewrite reverse_cons, !length_app; simpl; lia].
  - rewrite (path_push c x) by done. set (p1 := with_path _ p). assert (Hp1 : fp_ok p1) by (destruct Hp; by split).
    assert (Hlen : (length (x :: c) <= hops)%nat) by (unfold len in Hd; lia).
    set (p2 := if _ <=? _ then _ else p1).
    assert (H2 : fp_ok p2 /\ frame p1 p2 /\ path p2 = path p1).
    { subst p2. rewrite len_app. destruct (N.leb_spec (len prefix + len (rel_path (x :: c)) - len prefix) CACHED_PATH_MAX); [|done].
      apply cache_ok; try done. lia. }
    clearbody p2. destruct H2 as (Hp2 & Hf2 & Hpath2). specialize (IH (x :: c) p2 Hp2 Hl Hlen Hpath2 Hr).
    destruct (descend V prefix fold max_bytes max_folders folders (len (x :: c)) p2) as [r p'].
    rewrite reverse_cons, <- app_assoc. simpl. destruct IH as (H1 & (F1 & F2 & F3) & Hpre & Hres). destruct Hf2 as (G1 & G2 & G3).
    split_and!; try done. split_and!; simpl in *; congruence.
Qed.

(** [path p] is [dir]'s, as long as it has one. *)
Definition loaded (dir : N) (r : option N) (p : FolderPaths) : Prop :=
  r = len <$> folder_chain dir /\ forall c, folder_chain dir = Some c -> path p = prefix ++ rel_path c.

Lemma folder_chain_far dir : dir <> NIL -> too_far dir -> folder_chain dir = None.
Proof. intros Hd Hf. unfold folder_chain. rewrite (proj2 (N.eqb_neq _ _) Hd). by apply too_far_walk. Qed.

Lemma build_spec dir p : fp_ok p -> prefix `prefix_of` path p ->
  let '(r, p') := build V prefix fold max_bytes max_folders dir p in
  fp_ok p' /\ frame p p' /\ prefix `prefix_of` path p' /\ loaded dir r p'.
Proof.
  intros Hp Hpre. unfold build. set (p1 := with_path _ p).
  assert (Hpath1 : path p1 = prefix) by (destruct Hpre as [k Hk]; simpl; by rewrite Hk, take_app_length).
  assert (Hp1 : fp_ok p1) by (destruct Hp; by split). assert (Hf1 : frame p p1) by done. clearbody p1.
  destruct (N.eqb_spec dir NIL) as [->|Hd].
  { do 2 (split; [done|]). split; [by rewrite Hpath1|]. split; [done|]. intros c [= <-]. simpl. by rewrite app_nil_r. }
  pose proof (climb_known_spec p1 Hp1 hops dir) as Hc. destruct (climb_known V hops p1 dir) as [[chain [F|]]|]; simpl in Hc.
  - destruct Hc as (c & Hu & Hlen & Hdep & Hs & Hl & Hr). rewrite Hs, Hdep, Hpath1. set (p2 := with_path _ p1).
    assert (Hp2 : fp_ok p2) by (destruct Hp1; by split).
    pose proof (descend_spec (reverse chain) c p2 Hp2 Hl Hlen eq_refl) as Hdesc.
    destruct (descend _ _ _ _ _ _ _ p2) as [r p']. destruct Hdesc as (Hp' & Hf' & Hpre' & Hres); [by apply Forall_reverse|].
    rewrite reverse_involutive in Hres. split; [done|]. split; [by apply (frame_trans _ p1)|]. split; [done|]. unfold loaded, folder_chain.
    rewrite (proj2 (N.eqb_neq _ _) Hd). destruct r as [d|].
    + destruct Hres as (-> & Hmax & Hpath). rewrite (proj1 (up_walk hops dir _ Hu)) by (unfold len in Hmax; lia).
      split; [done|]. by intros ? [= <-].
    + rewrite (proj2 (too_far_walk dir)); [done|]. intros c' Hc'. by rewrite (up_fun _ _ _ Hc' Hu).
  - destruct Hc as [Hfar Hch]. destruct (remember_all_ok chain p1 Hp1 Hch) as (Hp' & Hf' & Hpa).
    split; [done|]. split; [by apply (frame_trans _ p1)|]. split; [by rewrite Hpa, Hpath1|]. unfold loaded. by rewrite folder_chain_far.
  - destruct Hc as [Hroot Hfar]. destruct (remember_ok p1 dir Hp1 Hroot Hfar) as (Hp' & Hf' & Hpa).
    split; [done|]. split; [by apply (frame_trans _ p1)|]. split; [by rewrite Hpa, Hpath1|]. unfold loaded. by rewrite folder_chain_far.
Qed.

(** The state between candidates. *)
Record st_ok (p : FolderPaths) : Prop := {
  st_fp : fp_ok p;
  st_prefix : prefix `prefix_of` path p;
  st_current dir r : current p = Some (dir, r) -> loaded dir r p
}.

Lemma folder_paths_new_ok : st_ok (folder_paths_new V prefix).
Proof. split; [apply restart_ok|done|done]. Qed.

Lemma load_spec dir p : st_ok p ->
  let '(r, p') := load V prefix fold max_bytes max_folders dir p in
  st_ok p' /\ needs p' = needs p /\ needs_for p' = needs_for p /\ loaded dir r p' /\ current p' = Some (dir, r).
Proof.
  intros Hp. pose proof Hp as [Hfp Hpre Hcur]. unfold load. pose proof (build_spec dir p Hfp Hpre) as Hb.
  assert (Hgo : let '(r, p') := (let '(d, p) := build V prefix fold max_bytes max_folders dir p in (d, with_current (Some (dir, d)) p)) in
    st_ok p' /\ needs p' = needs p /\ needs_for p' = needs_for p /\ loaded dir r p' /\ current p' = Some (dir, r)).
  { destruct (build V prefix fold max_bytes max_folders dir p) as [r p']. destruct Hb as (Hp' & (_ & F2 & F3) & Hpre' & Hl).
    split_and!; try done. split; [by destruct Hp'; split|done|]. by intros ? ? [= <- <-]. }
  destruct (current p) as [[cur depth]|] eqn:Ec; [|done]. destruct (N.eqb_spec cur dir) as [->|]; [|done].
  split_and!; try done. by apply Hcur.
Qed.

(** Loading a folder again costs nothing. *)
Lemma load_again dir r p : current p = Some (dir, r) -> load V prefix fold max_bytes max_folders dir p = (r, p).
Proof. intros Hc. unfold load. by rewrite Hc, N.eqb_refl. Qed.

(** [with_full_path] hands over the path the ancestry gives. *)
Lemma with_full_path_spec idx p : st_ok p -> idx <> v_root V ->
  let '(r, p') := with_full_path V prefix fold max_bytes max_folders idx p in st_ok p' /\ r = entry_path idx.
Proof.
  intros Hp Hroot. unfold with_full_path, entry_path. pose proof (load_spec (v_parent V idx) p Hp) as Hl.
  destruct (load V prefix fold max_bytes max_folders (v_parent V idx) p) as [r p']. destruct Hl as (Hp' & _ & _ & [-> Hpath] & _).
  destruct (folder_chain (v_parent V idx)) as [c|]; [|done]. cbn [fmap option_fmap option_map mbind option_bind].
  destruct (N.leb_spec MAX_PATH_HOPS (len c)); destruct (N.ltb_spec (len c) MAX_PATH_HOPS); try lia; [done|].
  split; [done|]. f_equal. rewrite (path_push c idx) by (done || by apply Hpath). cbn [rel_path]. by rewrite (proj2 (N.eqb_neq _ _) Hroot).
Qed.

(** *** What the terms need *)

Context {E : Env} {M : Memchr} {Mok : MemchrOk M}.
Context (q : ParsedQuery) (cq : CompiledQuery).
Hypothesis ends_of : path_wildcard_ends cq = (fun w => (leading_literal w, trailing_literal w)) <$> path_wildcards q.
Hypothesis wild_compiled : Forall compiled_from (path_wildcards q).
Hypothesis prefix_text : text prefix.
Hypothesis names_text : forall x, text (name_bytes V fold x).

(** The folder's part of a full path. *)
Definition before (chain : list N) : list N :=
  prefix ++ match rel_path chain with [] => [] | r => r ++ [0x5C] end.

Definition need_holds (n : Need) (term name : list N) : bool :=
  match n with
  | Nothing => true
  | Start from => bool_decide (drop (N.to_nat from) term `prefix_of` name)
  | WithinName => found term name
  | Never => false
  | Whole => true
  end.

Definition need_tells (b : Budget) (bef term : list N) (n : Need) : Prop :=
  forall name, 0x5C ∉ name ->
  n = Whole \/ (need_holds n term name = true -> infix term (bef ++ name)) /\ (spent b = false -> infix term (bef ++ name) -> need_holds n term name = true).

Lemma need_of_tells b bef term : need_tells b bef term (need_of bef term).
Proof.
  intros name Hn. unfold need_of. destruct (found term bef) eqn:Ef.
  { right. apply found_spec in Ef. split; [|done]. intros _. by apply infix_app_r. }
  apply found_false in Ef. destruct (bool_decide (last bef = Some 0x5C)) eqn:El; [|by left]. apply bool_decide_eq_true in El. simpl.
  apply last_Some in El as [bef' ->]. right. destruct (memrchr 0x5C term) as [l|] eqn:Em.
  - apply memrchr_some in Em as [Hl Hmax]. unfold getN in Hl. pose proof (take_drop_middle _ _ _ Hl) as Et.
    set (t1 := take (N.to_nat l) term) in *. set (t2 := drop (S (N.to_nat l)) term) in *.
    assert (H1 : take (N.to_nat (l + 1)) term = t1 ++ [0x5C]).
    { replace (N.to_nat (l + 1)) with (S (N.to_nat l)) by lia. by rewrite (take_S_r _ _ _ Hl). }
    assert (H2 : drop (N.to_nat (l + 1)) term = t2) by (subst t2; f_equal; lia).
    assert (Ht2 : 0x5C ∉ t2).
    { intros [i Hi]%list_elem_of_lookup. subst t2. rewrite lookup_drop in Hi. apply (Hmax (l + 1 + N.of_nat i)); [lia|].
      unfold getN. rewrite <- Hi. f_equal. lia. }
    pose proof (need_start t1 t2 bef' name Ht2 Hn) as Hns. rewrite Et in Hns. specialize (Hns Ef). rewrite Hns, H1.
    case_bool_decide as Eb; simpl; [rewrite H2|]; rewrite ?bool_decide_eq_true; naive_solver.
  - apply memrchr_none in Em. simpl. rewrite (need_none _ _ _ Em Ef), found_spec. done.
Qed.

Lemma need_never b bef term : spent b = true -> need_tells b bef term Never.
Proof. intros Hs name _. right. split; [done|congruence]. Qed.

Lemma need_tells_spent b b' bef term n : (spent b' = false -> spent b = false) -> need_tells b bef term n -> need_tells b' bef term n.
Proof. intros Hb Hn name Hname. destruct (Hn name Hname) as [?|[H1 H2]]; [by left|right]. auto. Qed.

Lemma decide_loop_keeps bef l : keeps_spent (decide_loop bef l).
Proof.
  induction l as [|t l IH]; [apply keeps_ret|]. simpl. apply keeps_bind; [destruct (_ <? _); eauto with budget|].
  intros stop. apply keeps_bind; [done|]. intros ns. apply keeps_ret.
Qed.

Lemma wp_decide_loop bef l b :
  wp (decide_loop bef l) (fun ns b' => Forall2 (need_tells b' bef) l ns /\ (spent b' = false -> spent b = false)) b.
Proof.
  apply wp_keeps; [apply decide_loop_keeps|]. revert b. induction l as [|t l IH]; intros b; simpl; [by apply wp_ret|].
  assert (Hgo : forall stop b1, (stop = true -> spent b1 = true) ->
    wp (ns <- decide_loop bef l ;; st_ret ((if (stop : bool) then Never else need_of bef t) :: ns)) (fun ns b' => Forall2 (need_tells b' bef) (t :: l) ns) b1).
  { intros stop b1 Hs. apply wp_bind. eapply wp_mono; [apply wp_keeps; [apply decide_loop_keeps|apply IH]|].
    intros ns b2 [Hns Hk]. apply wp_ret. constructor; [|done]. destruct stop; [|apply need_of_tells].
    apply need_never. destruct (spent b2); [done|]. specialize (Hk eq_refl). rewrite Hs in Hk by done. done. }
  apply wp_bind. destruct (_ <? _); [|by apply wp_ret, (Hgo false)]. apply wp_check. intros b' _ _ _ _. by apply Hgo.
Qed.

Lemma needs_hold_spec b bef name finders ns :
  Forall2 (need_tells b bef) finders ns -> 0x5C ∉ name ->
  match needs_hold finders ns name with
  | None => spent b = false -> ~ forall t, t ∈ finders -> infix t (bef ++ name)
  | Some false => forall t, t ∈ finders -> infix t (bef ++ name)
  | Some true => True
  end.
Proof.
  intros Hf Hn. induction Hf as [|t n finders ns Ht Hf IH]; simpl; [by intros t ?%not_elem_of_nil|].
  assert (Hstep : n <> Whole -> match (if need_holds n t name then needs_hold finders ns name else None) with
    | None => spent b = false -> ~ forall t', t' ∈ t :: finders -> infix t' (bef ++ name)
    | Some false => forall t', t' ∈ t :: finders -> infix t' (bef ++ name)
    | Some true => True end).
  { intros Hw. destruct (Ht name Hn) as [?|[H1 H2]]; [done|]. destruct (need_holds n t name).
    - destruct (needs_hold finders ns name) as [[]|]; [done| |].
      + intros t' [->|?]%elem_of_cons; [by apply H1|by apply IH].
      + intros Hs Hall. apply IH; [done|]. intros t' ?. apply Hall. by right.
    - intros Hs Hall. specialize (H2 Hs (Hall t (list_elem_of_here _ _))). done. }
  destruct n; simpl in Hstep; try (by apply Hstep). destruct (needs_hold finders ns name) as [[]|]; try done.
  intros Hs Hall. apply IH; [done|]. intros t' ?. apply Hall. by right.
Qed.

(** *** The test of a full path *)

Lemma all_match_keeps ws t : keeps_spent (all_match ws t).
Proof.
  induction ws as [|w ws IH]; [apply keeps_ret|]. simpl. apply keeps_bind; [apply matches_decoded_keeps|].
  intros []; [done|apply keeps_ret].
Qed.

Lemma wp_all_match ws t b : Forall compiled_from ws ->
  wp (all_match ws t) (answers (forall w, w ∈ ws -> glob (tokens w) t)) b.
Proof.
  revert b. induction ws as [|w ws IH]; intros b Hc; simpl.
  { apply wp_ret. split; [by intros _ w ?%not_elem_of_nil|done]. }
  apply Forall_cons in Hc as [[p ->] Hc]. apply wp_bind. eapply wp_mono; [apply wp_matches_decoded|]. intros r b1 [H1 H2]. destruct r.
  - eapply wp_mono; [by apply IH|]. intros r b2 [H3 H4]. split.
    + intros Hr w [->|Hw]%elem_of_cons; [by apply H1|by apply H3].
    + intros Hs Hall. apply H4; [done|]. intros w Hw. apply Hall. by right.
  - apply wp_ret. split; [done|]. intros Hs Hall. by apply H2, Hall; [|left].
Qed.

Definition wild_hit (full : list N) : Prop := forall w, w ∈ path_wildcards q -> glob (tokens w) (code_points full).
Definition terms_hit (full : list N) : Prop := forall t, t ∈ path_finders cq -> infix t full.

Lemma ends_necessary full : text full -> wild_hit full ->
  forallb (fun e => bool_decide (e.1 `prefix_of` full) && bool_decide (e.2 `suffix_of` full)) (path_wildcard_ends cq) = true.
Proof.
  intros Ht Hw. rewrite ends_of. apply forallb_forall. intros e He%list_elem_of_In.
  apply list_elem_of_fmap in He as (w & -> & Hin). simpl. pose proof (Hw w Hin) as Hg. apply andb_true_iff.
  rewrite !bool_decide_eq_true, <- (text_encoded full Ht). split; [by apply leading_prefix|by apply trailing_suffix].
Qed.

Lemma full_test_keeps whole full : keeps_spent (full_test q cq whole full).
Proof.
  unfold full_test. destruct (_ && _); [|apply keeps_ret]. destruct (path_wildcards q); [apply keeps_ret|apply all_match_keeps].
Qed.

Lemma wp_full_test whole full b : text full ->
  wp (full_test q cq whole full) (fun r b' =>
    (r = true -> (whole = true -> terms_hit full) /\ wild_hit full) /\
    (spent b' = false -> terms_hit full -> wild_hit full -> r = true)) b.
Proof.
  intros Ht. unfold full_test. assert (Hterms : forallb (fun f => found f full) (path_finders cq) = true <-> terms_hit full).
  { rewrite forallb_forall. unfold terms_hit. setoid_rewrite found_spec. setoid_rewrite <- list_elem_of_In. done. }
  pose proof (ends_necessary full Ht) as Hends. destruct (negb whole || _) eqn:Ew; simpl.
  2: { apply wp_ret. split; [done|]. intros _ Hth _. apply Hterms in Hth. by rewrite Hth, orb_true_r in Ew. }
  destruct (forallb _ (path_wildcard_ends cq)) eqn:Ee; [|apply wp_ret; split; [done|]; intros _ _ Hw; by apply Hends in Hw].
  assert (Hw1 : whole = true -> terms_hit full) by (intros ->; by apply Hterms).
  destruct (path_wildcards q) as [|w ws] eqn:Epw.
  - apply wp_ret. split; [|done]. intros _. split; [done|]. unfold wild_hit. rewrite Epw. by intros w ?%not_elem_of_nil.
  - rewrite <- Epw. unfold wildcards_match. eapply wp_mono; [apply wp_all_match; by rewrite Epw|]. intros r b' [H1 H2]. split.
    + intros Hr. split; [done|exact (H1 Hr)].
    + intros Hs _ Hw. by apply H2.
Qed.

Lemma rel_path_text c : text (rel_path c).
Proof.
  induction c as [|x c IH]; simpl; [apply text_nil|]. destruct (x =? v_root V); [done|]. apply text_app; [|apply names_text].
  destruct (rel_path c); [apply text_nil|]. apply text_app; [done|]. by apply text_ascii.
Qed.

Lemma entry_path_before idx full : entry_path idx = Some full <->
  exists c, folder_chain (v_parent V idx) = Some c /\ len c < MAX_PATH_HOPS /\ full = before c ++ name_bytes V fold idx.
Proof.
  unfold entry_path, before. rewrite bind_Some. split.
  - intros (c & Hc & Hf). exists c. destruct (N.ltb_spec (len c) MAX_PATH_HOPS); [|done]. injection Hf as <-. split_and!; [done..|].
    rewrite <- app_assoc. by destruct (rel_path c).
  - intros (c & Hc & Hl & ->). exists c. split; [done|]. rewrite (proj2 (N.ltb_lt _ _) Hl). rewrite <- app_assoc. by destruct (rel_path c).
Qed.

Lemma entry_path_text idx full : entry_path idx = Some full -> text full.
Proof.
  rewrite entry_path_before. intros (c & _ & _ & ->). apply text_app; [|apply names_text]. apply text_app; [done|].
  pose proof (rel_path_text c). destruct (rel_path c); [apply text_nil|]. apply text_app; [done|]. by apply text_ascii.
Qed.

(** [idx] has a full path, and it is one the query asks for. *)
Definition full_hit (idx : N) : Prop := exists full, entry_path idx = Some full /\ terms_hit full /\ wild_hit full.

Definition needs_ok (b : Budget) (p : FolderPaths) : Prop :=
  forall dir, needs_for p = Some dir -> exists c, folder_chain dir = Some c /\ Forall2 (need_tells b (before c)) (path_finders cq) (needs p).

Lemma before_path c : (if len prefix <? len (prefix ++ rel_path c) then (prefix ++ rel_path c) ++ [0x5C] else prefix ++ rel_path c) = before c.
Proof.
  unfold before. rewrite len_app. destruct (rel_path c) as [|y r].
  - rewrite (proj2 (N.ltb_ge _ _)); [done|]. unfold len. simpl. lia.
  - rewrite (proj2 (N.ltb_lt _ _)); [by rewrite <- app_assoc|]. unfold len. simpl. lia.
Qed.

(** The needs of the folder at hand, decided now or before. *)
Lemma wp_needs c idx p b :
  st_ok p -> needs_ok b p -> folder_chain (v_parent V idx) = Some c -> path p = prefix ++ rel_path c ->
  wp (if bool_decide (needs_for p = Some (v_parent V idx)) then st_ret p
      else p <- decide_needs prefix cq p ;; st_ret (with_needs (needs p) (Some (v_parent V idx)) p))
     (fun p' b' => st_ok p' /\ current p' = current p /\ needs_ok b' p' /\ Forall2 (need_tells b' (before c)) (path_finders cq) (needs p') /\
        (spent b' = false -> spent b = false)) b.
Proof.
  intros Hp Hn Hc Hpath. case_bool_decide as Eb.
  - apply wp_ret. split_and!; try done. destruct (Hn _ Eb) as (c' & Hc' & Hf). by simplify_eq.
  - apply wp_bind. unfold decide_needs. rewrite Hpath, before_path. apply wp_bind.
    eapply wp_mono; [apply wp_decide_loop|]. intros ns b' [Hns Hk]. apply wp_ret, wp_ret. destruct Hp as [[K R A] Hpre Hcur].
    split; [|split; [done|split; [|by split]]].
    + split; [by split|done|]. intros dir r Hdir. by apply Hcur.
    + intros dir [= <-]. by exists c.
Qed.

Definition tested (b : Budget) (idx : N) (r : bool * FolderPaths) (b' : Budget) : Prop :=
  st_ok r.2 /\ needs_ok b' r.2 /\ (spent b' = false -> spent b = false) /\
  (r.1 = true -> full_hit idx) /\ (spent b' = false -> full_hit idx -> r.1 = true).

Lemma wp_full_path_matches idx p b :
  st_ok p -> needs_ok b p -> idx <> v_root V ->
  wp (full_path_matches V prefix fold max_bytes max_folders q cq idx p) (tested b idx) b.
Proof.
  intros Hp Hn Hroot. unfold full_path_matches. pose proof (load_spec (v_parent V idx) p Hp) as Hl.
  destruct (load V prefix fold max_bytes max_folders (v_parent V idx) p) as [r p1].
  destruct Hl as (Hp1 & Hn1 & Hnf & [-> Hpath] & Hcur). assert (Hn1' : needs_ok b p1) by (unfold needs_ok; by rewrite Hnf, Hn1).
  destruct (folder_chain (v_parent V idx)) as [c|] eqn:Hc; cbn [fmap option_fmap option_map] in *.
  2: { apply wp_ret. split_and!; try done. intros _ (full & (c & Hc' & _)%entry_path_before & _). congruence. }
  destruct (N.ltb_spec (len c) MAX_PATH_HOPS) as [Hlt|Hge].
  2: { apply wp_ret. split_and!; try done. intros _ (full & (c' & Hc' & ? & _)%entry_path_before & _). simplify_eq. lia. }
  assert (Hfull : entry_path idx = Some (before c ++ name_bytes V fold idx)) by (apply entry_path_before; eauto).
  pose proof (entry_path_text _ _ Hfull) as Htext. set (full := before c ++ _) in *.
  apply wp_bind. eapply wp_mono; [apply (wp_needs c idx); [done|done|done|by apply Hpath]|]. intros p2 b2 (Hp2 & Hcur2 & Hn2 & Hneeds & Hk2).
  assert (Hdone : forall (b' : Budget) r, needs_ok b' p2 -> (spent b' = false -> spent b2 = false) ->
    (r = true -> terms_hit full /\ wild_hit full) -> (spent b' = false -> terms_hit full -> wild_hit full -> r = true) -> tested b idx (r, p2) b').
  { intros b' r Hnb Hk Hr1 Hr2. do 2 (split; [done|]). split; [intros Hs; by apply Hk2, Hk|]. split; simpl.
    - intros Hr. exists full. split; [done|by apply Hr1].
    - intros Hs (f & Hf & Ht & Hw). rewrite Hfull in Hf. injection Hf as <-. by apply Hr2. }
  set (verdict := match memchr _ _ with Some _ => _ | None => _ end).
  assert (Hv : match verdict with
    | None => spent b2 = false -> ~ terms_hit full | Some false => terms_hit full | Some true => True end).
  { subst verdict. destruct (memchr 0x5C (name_bytes V fold idx)) eqn:Em; [done|]. apply memchr_none in Em.
    by apply (needs_hold_spec b2 (before c)). }
  clearbody verdict. destruct verdict as [whole|]; [|apply wp_ret, Hdone; [done|done|done|intros Hs Ht; by destruct (Hv Hs)]].
  destruct (negb whole && _) eqn:Ewild.
  { apply wp_ret, Hdone; try done. intros _. apply andb_true_iff in Ewild as [->%negb_true_iff Ew]. split; [done|].
    unfold wild_hit. destruct (path_wildcards q); [|done]. by intros w ?%not_elem_of_nil. }
  pose proof (with_full_path_spec idx p2 Hp2 Hroot) as Hwf.
  assert (Ewf : (with_full_path V prefix fold max_bytes max_folders idx p2).2 = p2).
  { unfold with_full_path. rewrite (load_again _ (Some (len c))) by congruence. by destruct (_ <=? _). }
  destruct (with_full_path V prefix fold max_bytes max_folders idx p2) as [o p3]. simpl in Ewf. subst p3.
  destruct Hwf as [_ ->]. rewrite Hfull. apply wp_bind.
  eapply wp_mono; [apply wp_keeps; [apply full_test_keeps|by apply wp_full_test]|]. intros r b3 [[H1 H2] Hk3]. apply wp_ret, Hdone; try done.
  - intros dir Hdir. destruct (Hn2 dir Hdir) as (c' & Hc' & Hf). exists c'. split; [done|].
    eapply Forall2_impl; [done|]. intros ? ?. by apply need_tells_spent.
  - intros Hr. destruct (H1 Hr) as [H3 H4]. split; [|done]. destruct whole; auto.
Qed.
End correctness.

(** ** Candidates in a row *)

(** The tests of a search, one candidate after another on one builder. *)
Fixpoint test_all {E : Env} {M : Memchr} (V : IndexView) (prefix : list N) (fold : bool) (max_bytes max_folders : N)
    (q : ParsedQuery) (c : CompiledQuery) (idxs : list N) (p : FolderPaths) : ST Budget (list bool) :=
  match idxs with
  | [] => st_ret []
  | idx :: idxs =>
      r <- full_path_matches V prefix fold max_bytes max_folders q c idx p ;;
      rest <- test_all V prefix fold max_bytes max_folders q c idxs r.2 ;;
      st_ret (r.1 :: rest)
  end.

(** C24: path terms and path wildcards are tested against the true full path:
    whatever candidates are tested in whatever order, and however small the
    builder's two caps make it forget, each answer is whether the entry has a
    full path (the prefix, then the names of its ancestry from the top down
    joined by backslashes, at most 4096 entries, not under lost+found) that
    holds every open term and matches every path wildcard; a [false] may be
    wrong only if the budget was found spent.  Reducing each term, once per
    folder, to what it needs of a name loses nothing. *)
Theorem full_paths_correct {E : Env} {M : Memchr} {Mok : MemchrOk M} V prefix fold max_bytes max_folders q c idxs b :
  v_parent V (v_root V) = NIL -> v_root V <> v_lost_found V -> max_bytes < 2 ^ 32 ->
  path_wildcard_ends c = (fun w => (leading_literal w, trailing_literal w)) <$> path_wildcards q ->
  Forall compiled_from (path_wildcards q) -> text prefix -> (forall x, text (name_bytes V fold x)) ->
  Forall (fun idx => idx <> v_root V) idxs ->
  wp (test_all V prefix fold max_bytes max_folders q c idxs (folder_paths_new V prefix)) (fun rs b' =>
    Forall2 (fun idx r =>
      let hit := exists full, entry_path V prefix fold idx = Some full /\ (forall t, t ∈ path_finders c -> infix t full) /\
                   (forall w, w ∈ path_wildcards q -> glob (tokens w) (code_points full)) in
      (r = true -> hit) /\ (spent b' = false -> hit -> r = true)) idxs rs) b.
Proof.
  intros Hrt Hrr Hmax Hends Hw Hpt Hnt Hidx.
  assert (Hgo : forall p b, st_ok V prefix fold p -> needs_ok V prefix fold c b p ->
    wp (test_all V prefix fold max_bytes max_folders q c idxs p) (fun rs b' =>
      Forall2 (fun idx r => answers (full_hit V prefix fold q c idx) r b') idxs rs /\ (spent b' = false -> spent b = false)) b).
  { clear b. induction Hidx as [|idx idxs Hi Hidx IH]; intros p b Hp Hn; simpl; [by apply wp_ret|]. apply wp_bind.
    eapply wp_mono; [by apply (wp_full_path_matches V prefix fold)|]. intros [r p1] b1 (Hp1 & Hn1 & Hk1 & Ha1 & Ha2). simpl in *.
    apply wp_bind. eapply wp_mono; [by apply IH|]. intros rs b2 [Hrs Hk2]. apply wp_ret. split; [|auto].
    constructor; [|done]. split; [done|]. intros Hs. auto. }
  eapply wp_mono; [apply Hgo; [by apply (folder_paths_new_ok V prefix fold max_bytes)|done]|]. intros rs b' [Hrs _]. exact Hrs.
Qed.

(** The root holds folder 1, "a", which holds file 2, "b". *)
Definition ab_view : IndexView := {|
  v_root := 0; v_lost_found := 9; v_parent := fun e => if e =? 1 then 0 else if e =? 2 then 1 else NIL; v_is_dir := fun e => negb (e =? 2);
  v_size := fun _ => None; v_mtime := fun _ => None; v_frn := id; v_name_id := id; v_synthetic := fun e => e =? 0;
  v_names := empty_store; v_raw := fun e => if e =? 1 then [0x61] else if e =? 2 then [0x62] else [];
  v_folded := fun e => if e =? 1 then [0x61] else if e =? 2 then [0x62] else []; v_rank_key := fun _ => 0;
  v_refcount := fun _ => 1; v_name_chain := fun e => [e]; v_len := 3; v_live := [0; 1; 2]; v_subtree := fun _ _ => [];
  v_may_have_unpresentable := false; v_path_of := fun _ => None |}.

Definition path_ab_query : ParsedQuery :=
  {| name_terms := []; path_terms := [[0x61; 0x5C; 0x62]]; wildcards := []; path_wildcards := []; filters := filters_default; match_case := true |}.

(** [a\b] in [C:\a\b], tested after [C:\a] itself. *)
Lemma full_paths_correct_witness :
  let E := {| peer_spent := fun _ => false; cancel_flag := fun _ => false; now := fun _ => 0 |} in
  wp (test_all (M:=naive) ab_view [0x43; 0x3A; 0x5C] false 0 0 path_ab_query (compiled_new (M:=naive) (H:=ascii_tables) path_ab_query [0x43; 0x3A; 0x5C])
    [1; 2] (folder_paths_new ab_view [0x43; 0x3A; 0x5C])) (fun rs _ => rs = [false; true]) unlimited.
Proof.
  intros E. set (c := compiled_new (M:=naive) (H:=ascii_tables) path_ab_query [0x43; 0x3A; 0x5C]).
  assert (Ht : forall x, text (name_bytes ab_view false x)).
  { intros x. unfold name_bytes. simpl. destruct (x =? 1); [by apply text_ascii|]. destruct (x =? 2); [by apply text_ascii|apply text_nil]. }
  assert (Hp : text [0x43; 0x3A; 0x5C]).
  { apply (text_app [0x43]); [by apply text_ascii|]. apply (text_app [0x3A]); by apply text_ascii. }
  pose proof (full_paths_correct (E:=E) (M:=naive) ab_view [0x43; 0x3A; 0x5C] false 0 0 path_ab_query c [1; 2] unlimited) as Hw.
  destruct (proj1 (wp_run _ _ _) (Hw eq_refl ltac:(discriminate) ltac:(reflexivity) eq_refl (Forall_nil_2 _) Hp Ht
    ltac:(repeat constructor; discriminate))) as (rs & b' & Er & Hrs).
  apply wp_run. exists rs, b'. split; [exact Er|]. vm_compute in Er. injection Er as <- _. reflexivity.
Defined.
