(* ===== verification/Scope.v ===== *)
(** The folder a query is scoped to: [resolve_scope] of
    [crates/goz-core/src/query/engine.rs], on the index itself. *)

From stdpp Require Import gmap.
From stdpp Require Import base option list sets.
From Stdlib Require Import NArith ZArith Lia.
From S2P Require Import Prelude Types Wtf8 Fold Text FrnMap NameStore NameOrder EntryTable Chain Volume VolumeInv VolumeOps VolumeEdit VolumeUpsert VolumeBatch VolumeLinks VolumeRead VolumeNew.

(** [split] on either separator, the empty parts dropped. *)
Definition components (path : list N) : list (list N) :=
  filter (fun p => p <> []) (split 0x5C ((fun b => if b =? 0x2F then 0x5C else b) <$> path)).

Section resolve.
Context `{Unicode, Hasher}.

Fixpoint resolve_folded (comps : list (list N)) (cur : N) : ST VolumeIndex (option N) :=
  match comps with
  | [] => st_ret (Some cur)
  | comp :: comps =>
      d <- child_dir cur (fold comp) ;;
      match d with None => st_ret None | Some d => resolve_folded comps d end
  end.

(** [find] over a folder's children, with the raw name. *)
Fixpoint find_raw (kids : list N) (comp : list N) : ST VolumeIndex (option N) :=
  match kids with
  | [] => st_ret None
  | idx :: kids =>
      syn <- is_synthetic idx ;;
      if (syn : bool) then find_raw kids comp
      else
        fl <- ent (flags idx) ;;
        if negb (contains fl DIR) then find_raw kids comp
        else
          id <- ent (name_id idx) ;; nm <- raw_name id ;;
          if bool_decide (nm = comp) then st_ret (Some idx) else find_raw kids comp
  end.

Fixpoint resolve_raw (comps : list (list N)) (cur : N) : ST VolumeIndex (option N) :=
  match comps with
  | [] => st_ret (Some cur)
  | comp :: comps =>
      kids <- children cur ;;
      d <- find_raw kids comp ;;
      match d with None => st_ret None | Some d => resolve_raw comps d end
  end.

Definition resolve_scope (path : list N) (match_case : bool) : ST VolumeIndex (option N) :=
  rt <- st_get root ;;
  match components path with
  | [] => st_ret (Some rt)
  | comps => if match_case then resolve_raw comps rt else resolve_folded comps rt
  end.

(** ** What it finds *)

Implicit Types (v : VolumeIndex).

(** A real directory under [par] of exactly this name. *)
Definition dir_named v (par : N) (nm : list N) (d : N) : Prop :=
  exists a, abs v d = Some a /\ a_parent a = par /\ a_name a = nm /\ contains (a_flags a) DIR = true /\
    contains (a_flags a) PLACEHOLDER = false /\ contains (a_flags a) LOST_FOUND = false /\ d <> root v /\ d <> lost_found v.

(** One step down, by exact name or by folded name. *)
Definition dir_at v (match_case : bool) (par : N) (comp : list N) (d : N) : Prop :=
  if match_case then dir_named v par comp d else dir_under v par (fold comp) d.

(** From [e] down real folders of these names to [r]. *)
Inductive leads v (match_case : bool) : N -> list (list N) -> N -> Prop :=
  | leads_here e : leads v match_case e [] e
  | leads_down e comp comps d r : dir_at v match_case e comp d -> leads v match_case d comps r -> leads v match_case e (comp :: comps) r.

(** No two real folders of one folder have names that are taken for the same. *)
Definition no_twins v (match_case : bool) : Prop := forall par comp d d', dir_at v match_case par comp d -> dir_at v match_case par comp d' -> d = d'.

Lemma leads_inv v c e comp comps r : leads v c e (comp :: comps) r -> exists d, dir_at v c e comp d /\ leads v c d comps r.
Proof. inversion 1; eauto. Qed.

(** What a step finds decides what the rest of the path finds. *)
Lemma leads_found v c cur comp comps d o :
  dir_at v c cur comp d -> (forall r, o = Some r -> leads v c d comps r) -> (o = None -> no_twins v c -> forall r, ~ leads v c d comps r) ->
  (forall r, o = Some r -> leads v c cur (comp :: comps) r) /\ (o = None -> no_twins v c -> forall r, ~ leads v c cur (comp :: comps) r).
Proof.
  intros Hd Ho Hn. split; [intros r Hr; econstructor; [exact Hd|by apply Ho]|].
  intros Hnone Htw r (d' & Hd' & Hrest)%leads_inv. rewrite (Htw _ _ _ _ Hd' Hd) in Hrest. by apply (Hn Hnone Htw r).
Qed.

Lemma leads_lost v c cur comp comps : (forall d, ~ dir_at v c cur comp d) -> forall r, ~ leads v c cur (comp :: comps) r.
Proof. intros Hno r (d & Hd & _)%leads_inv. by apply (Hno d). Qed.

Lemma wp_resolve_folded v hole comps : vol_inv v hole -> forall cur Q,
  (forall o, (forall r, o = Some r -> leads v false cur comps r) -> (o = None -> no_twins v false -> forall r, ~ leads v false cur comps r) -> Q o v) ->
  wp (resolve_folded comps cur) Q v.
Proof.
  intros Hv. induction comps as [|comp comps IH]; intros cur Q HQ; simpl.
  { apply wp_ret, HQ; [|done]. intros r [= <-]. constructor. }
  apply wp_bind. eapply wp_child_dir; [exact Hv|]. intros [d|] H1 H2.
  - apply IH. intros o Ho Hn. destruct (leads_found v false cur comp comps d o (H1 d eq_refl) Ho Hn). by apply HQ.
  - apply wp_ret, HQ; [done|]. intros _ _. apply leads_lost. exact (H2 eq_refl).
Qed.

(** The first child that is a real directory of this name. *)
Lemma wp_find_raw v par comp kids : forall Q,
  (forall e, e ∈ kids -> exists a, abs v e = Some a /\ a_parent a = par) ->
  (forall o, (forall d, o = Some d -> d ∈ kids /\ dir_named v par comp d) -> (o = None -> forall d, d ∈ kids -> ~ dir_named v par comp d) -> Q o v) ->
  wp (find_raw kids comp) Q v.
Proof.
  induction kids as [|x kids IH]; intros Q Hk HQ; cbn [find_raw]; [apply wp_ret, HQ; [done|]; by intros _ d ?%elem_of_nil|].
  destruct (Hk x) as (a & Ha & Hp); [left|]. pose proof (abs_inv _ _ _ Ha) as (_ & _ & _ & Efl & _ & id & Eid & Enm).
  assert (Hskip : ~ dir_named v par comp x -> wp (find_raw kids comp) Q v).
  { intros Hx. apply IH; [intros e He; apply Hk; by right|]. intros o H1 H2. apply HQ.
    - intros d Hd. destruct (H1 d Hd). split; [by right|done].
    - intros Hn d [-> |Hd]%elem_of_cons; [done|]. by apply H2. }
  unfold is_synthetic. apply wp_bind, wp_bind. wp_get_col. apply wp_bind, wp_get, wp_bind, wp_get, wp_ret.
  destruct ((x =? root v) || (x =? lost_found v) || contains (a_flags a) PLACEHOLDER || contains (a_flags a) LOST_FOUND) eqn:Es.
  { apply Hskip. intros (b & Hb & _ & _ & _ & Hpl & Hlf & Hr & Hl). assert (b = a) as -> by congruence. rewrite Hpl, Hlf, !orb_false_r in Es.
    apply orb_true_iff in Es as [E%N.eqb_eq|E%N.eqb_eq]; done. }
  rewrite !orb_false_iff in Es. destruct Es as [[[Hr%N.eqb_neq Hl%N.eqb_neq] Hpl] Hlf]. apply wp_bind. wp_get_col.
  destruct (contains (a_flags a) DIR) eqn:Ed; cbn [negb]; [|apply Hskip; intros (b & Hb & _ & _ & Hd & _); congruence].
  apply wp_bind. wp_get_col. apply wp_bind. eapply wp_raw_name; [exact Enm|]. case_bool_decide as En.
  - apply wp_ret, HQ; [|done]. intros d [= <-]. split; [left|]. by exists a.
  - apply Hskip. intros (b & Hb & _ & Hn & _). congruence.
Qed.

Lemma wp_resolve_raw v hole comps : vol_inv v hole -> forall cur Q, cur < cap v ->
  (forall o, (forall r, o = Some r -> leads v true cur comps r) -> (o = None -> no_twins v true -> forall r, ~ leads v true cur comps r) -> Q o v) ->
  wp (resolve_raw comps cur) Q v.
Proof.
  intros Hv. induction comps as [|comp comps IH]; intros cur Q Hcur HQ; simpl.
  { apply wp_ret, HQ; [|done]. intros r [= <-]. constructor. }
  apply wp_bind. eapply wp_children; [exact Hv|exact Hcur|]. intros kids _ Hkids. apply wp_bind. apply (wp_find_raw v cur).
  { intros e [Ha Hp]%Hkids. destruct (abs_total _ _ _ Hv Ha) as [a Hae]. exists a. split; [done|]. apply abs_inv in Hae as (_ & _ & Hp' & _). congruence. }
  assert (Hin : forall d, dir_named v cur comp d -> d ∈ kids).
  { intros d (a & Ha & Hp & _). apply Hkids. apply abs_inv in Ha as (Hal & _ & Hpa & _). split; [done|congruence]. }
  intros [d|] H1 H2.
  - destruct (H1 d eq_refl) as [Hk Hd]. apply IH; [apply Hkids in Hk as [Ha _]; by eapply alive_lt; [apply Hv|]|].
    intros o Ho Hn. destruct (leads_found v true cur comp comps d o Hd Ho Hn). by apply HQ.
  - apply wp_ret, HQ; [done|]. intros _ _. apply leads_lost. intros d Hd. by apply (H2 eq_refl d (Hin d Hd)).
Qed.
End resolve.

(** C30: a scope resolves to a folder of that path.  Ignoring case, what
    [resolve_scope] finds is reached from the root through real folders whose
    folded names are the folded components; matching case, through real folders
    of exactly these names.  When it finds nothing, and no folder holds two
    folders whose names are taken for the same, there is none. *)
Theorem resolve_scope_correct `{Unicode, Hasher} v path match_case :
  vol_ok v -> (match_case = true -> alive v (root v)) ->
  wp (resolve_scope path match_case) (fun o v' => v' = v /\
    (forall r, o = Some r -> leads v match_case (root v) (components path) r) /\
    (o = None -> no_twins v match_case -> forall r, ~ leads v match_case (root v) (components path) r)) v.
Proof.
  intros Hv Hroot. unfold resolve_scope. apply wp_bind, wp_get. destruct (components path) as [|comp comps].
  - apply wp_ret. split; [done|]. split; [|done]. intros r [= <-]. constructor.
  - destruct match_case.
    + eapply wp_resolve_raw; [exact Hv|by eapply alive_lt; [apply Hv|apply Hroot]|]. done.
    + eapply wp_resolve_folded; [exact Hv|]. done.
Qed.

#[local] Existing Instance one_bucket.

(** The root holds folders [A] and [a]; [A] holds [x] and [a] holds [y]. *)
Definition twins : VolumeIndex := Eval vm_compute in
  default with_a (snd <$> (upsert_link 101 NTFS_ROOT_FRN [0x41] false true ;;;
    upsert_link 102 NTFS_ROOT_FRN [0x61] false true ;;;
    upsert_link 103 101 [0x78] false true ;;;
    upsert_link 104 102 [0x79] false true) fresh).

Lemma run_ok (m : ST VolumeIndex UpsertResult) v r v' : wp m (fun _ w => vol_ok w) v -> m v = Some (r, v') -> vol_ok v'.
Proof. intros W E. unfold wp in W. by rewrite E in W. Qed.

Lemma twins_ok : vol_ok twins.
Proof.
  assert (W : wp (upsert_link 101 NTFS_ROOT_FRN [0x41] false true ;;; upsert_link 102 NTFS_ROOT_FRN [0x61] false true ;;;
    upsert_link 103 101 [0x78] false true ;;; upsert_link 104 102 [0x79] false true) (fun _ v' => vol_ok v') fresh).
  { destruct fresh_ok as [Hf Hsp]. assert (Hsp8 : space fresh 8) by (apply Hsp; lia).
    apply wp_bind. eapply (wp_upsert fresh _ _ _ _ _ 6); [exact Hf|exact Hsp8|split; vm_compute; congruence|]. intros r1 v1 [H1 _] S1.
    apply wp_bind. eapply (wp_upsert v1 _ _ _ _ _ 4); [exact H1|exact S1|split; vm_compute; congruence|]. intros r2 v2 [H2 _] S2.
    apply wp_bind. eapply (wp_upsert v2 _ _ _ _ _ 2); [exact H2|exact S2|split; vm_compute; congruence|]. intros r3 v3 [H3 _] S3.
    eapply (wp_upsert v3 _ _ _ _ _ 0); [exact H3|exact S3|split; vm_compute; congruence|]. by intros r4 v4 [H4 _] _. }
  assert (E : (upsert_link 101 NTFS_ROOT_FRN [0x41] false true ;;; upsert_link 102 NTFS_ROOT_FRN [0x61] false true ;;;
    upsert_link 103 101 [0x78] false true ;;; upsert_link 104 102 [0x79] false true) fresh = Some (UpsertOk, twins)) by (vm_compute; reflexivity).
  exact (run_ok _ _ _ _ W E).
Qed.

(** Ignoring case, [a\X] leads to [x] in [A]; matching case, [a\y] leads to [y] in
    [a]. *)
Lemma resolve_scope_correct_witness :
  (exists o, resolve_scope [0x61; 0x5C; 0x58] false twins = Some (o, twins) /\ o = Some 4 /\ leads twins false 0 [[0x61]; [0x58]] 4) /\
  (exists o, resolve_scope [0x61; 0x5C; 0x79] true twins = Some (o, twins) /\ o = Some 5 /\ leads twins true 0 [[0x61]; [0x79]] 5).
Proof.
  split.
  - destruct (proj1 (wp_run _ _ _) (resolve_scope_correct twins [0x61; 0x5C; 0x58] false twins_ok ltac:(discriminate))) as (o & v' & E & -> & Hs & _).
    assert (Ho : fst <$> resolve_scope [0x61; 0x5C; 0x58] false twins = Some (Some 4)) by (vm_compute; reflexivity).
    rewrite E in Ho. injection Ho as ->. exists (Some 4). split; [exact E|]. split; [reflexivity|]. exact (Hs 4 eq_refl).
  - destruct (proj1 (wp_run _ _ _) (resolve_scope_correct twins [0x61; 0x5C; 0x79] true twins_ok ltac:(intros _; vm_compute; eauto))) as (o & v' & E & -> & Hs & _).
    assert (Ho : fst <$> resolve_scope [0x61; 0x5C; 0x79] true twins = Some (Some 5)) by (vm_compute; reflexivity).
    rewrite E in Ho. injection Ho as ->. exists (Some 5). split; [exact E|]. split; [reflexivity|]. exact (Hs 5 eq_refl).
Defined.

(** With such twins a scope that exists may not be found: [a\y] names a folder,
    but the search goes down [A] and finds no [y] there. *)
Theorem resolve_scope_misses_twin :
  fst <$> resolve_scope [0x61; 0x5C; 0x79] false twins = Some None /\
  leads twins false (root twins) (components [0x61; 0x5C; 0x79]) 5.
Proof.
  split; [vm_compute; reflexivity|]. change (components [0x61; 0x5C; 0x79]) with [[0x61]; [0x79]].
  apply (leads_down _ _ _ _ _ 3); [|apply (leads_down _ _ _ _ _ 5); [|constructor]]; (split; [by vm_compute|]); (split; [by vm_compute|]).
  - exists 3. by vm_compute.
  - exists 5. by vm_compute.
Qed.
