(* ===== verification/Engine.v ===== *)
(** The scan of the query engine: [evaluate], [in_scope], [walk_below_names],
    [scan_with] and [page_refs] of [crates/goz-core/src/query/engine.rs].

    The mutable locals of [scan_with] (the watch, the folder paths, the memos and
    the candidates) are the state [Scan] of a state monad; the shared [Budget] is
    the watch's.  The index is an [IndexView]. *)

From stdpp Require Import gmap.
From stdpp Require Import base option list sets sorting.
From Stdlib Require Import NArith ZArith Lia.
From S2P Require Import Prelude Types Wtf8 Fold Text Dates Budget Wildcard Query NameStore Prefilter Compiled Volume FolderPaths TopK.

Record Scan := {
  s_watch : Watch;
  s_folders : option FolderPaths;
  s_memo : gmap N bool;
  s_dirs : gmap N (option (list N));
  s_cands : list N
}.

Definition with_watch w s := {| s_watch := w; s_folders := s_folders s; s_memo := s_memo s; s_dirs := s_dirs s; s_cands := s_cands s |}.
Definition with_folders f s := {| s_watch := s_watch s; s_folders := f; s_memo := s_memo s; s_dirs := s_dirs s; s_cands := s_cands s |}.
Definition with_memo m s := {| s_watch := s_watch s; s_folders := s_folders s; s_memo := m; s_dirs := s_dirs s; s_cands := s_cands s |}.
Definition with_dirs d s := {| s_watch := s_watch s; s_folders := s_folders s; s_memo := s_memo s; s_dirs := d; s_cands := s_cands s |}.
Definition with_cands c s := {| s_watch := s_watch s; s_folders := s_folders s; s_memo := s_memo s; s_dirs := s_dirs s; s_cands := c |}.

Definition s_budget (s : Scan) : Budget := w_budget (s_watch s).
Definition set_budget (b : Budget) (s : Scan) : Scan := with_watch {| w_budget := b; left := left (s_watch s) |} s.

Definition SUBTREE_WALK_MAX : N := 200000.
Definition PATH_WALK_SHARE : N := 4.

(** ** Predicates of an entry *)

Definition kind_matches (k : option Kind) (is_dir : bool) : bool :=
  match k with None => true | Some KFile => negb is_dir | Some KFolder => is_dir end.

Definition size_matches (r : SizeRange) (size : option N) : bool :=
  match size with Some s => size_contains r s | None => false end.

Section engine.
Context `{Unicode} {E : Env} {M : Memchr}.

Definition ext_matches (f : Filters) (name : list N) : bool :=
  match ext f with
  | None => true
  | Some exts =>
      match last_index_of 0x2E name with
      | None => false
      | Some dot => bool_decide (fold (drop (N.to_nat (dot + 1)) name) ∈ exts)
      end
  end.

Context (V : IndexView) (q : ParsedQuery) (c : CompiledQuery).

Definition budgeted {A} (m : ST Budget A) : ST Scan A := st_zoom s_budget set_budget m.
Definition s_tick : ST Scan bool := st_zoom s_watch with_watch Budget.tick.

Definition name_matches (id : N) : ST Budget bool :=
  let hay := if match_case q then v_raw V id else v_folded V id in
  if forallb (fun f => found f hay) (name_finders c) then
    r <- (match wildcards q with [] => st_ret true | ws => wildcards_match ws hay end) ;;
    st_ret (if (r : bool) then ext_matches (filters q) (v_raw V id) else false)
  else st_ret false.

(** The climb of [in_scope]: the verdict and the entries passed; [passed] is
    the chain so far, as its length. *)
Fixpoint scope_climb (fuel : nat) (root : N) (memo : gmap N bool) (passed cur : N) : option (bool * list N) :=
  if cur =? root then Some (true, [])
  else match memo !! cur with
  | Some v => Some (v, [])
  | None =>
      if v_parent V cur =? NIL then Some (false, [])
      else if 4096 <? passed + 1 then Some (false, [cur])
      else match fuel with
      | O => None
      | S fuel => '(v, chain) ← scope_climb fuel root memo (passed + 1) (v_parent V cur); Some (v, cur :: chain)
      end
  end.

Definition in_scope (node root : N) : ST Scan bool :=
  if node =? root then st_ret false
  else
    r <- st_read (fun s => scope_climb 4096 root (s_memo s) 0 node) ;;
    st_modify (fun s => with_memo (fold_left (fun m e => <[e := r.1]> m) r.2 (s_memo s)) s) ;;;
    st_ret r.1.

Definition parent_path (par : N) : ST Scan (option (list N)) :=
  known <- st_get (fun s => s_dirs s !! par) ;;
  match known with
  | Some p => st_ret p
  | None => let p := v_path_of V par in st_modify (fun s => with_dirs (<[par := p]> (s_dirs s)) s) ;;; st_ret p
  end.

Definition filters_match (idx : N) : bool :=
  kind_matches (kind (filters q)) (v_is_dir V idx) &&
  match fsize (filters q) with Some r => size_matches r (v_size V idx) | None => true end &&
  match date (filters q) with Some d => date_matches d (v_mtime V idx) | None => true end.

(** The last test of [evaluate]. *)
Definition path_test (idx : N) : ST Scan bool :=
  folders <- st_get s_folders ;;
  match folders with
  | Some p =>
      r <- budgeted (full_path_matches V (c_prefix c) (negb (match_case q)) FOLDER_PATH_BYTES_MAX FOLDERS_MAX q c idx p) ;;
      st_modify (with_folders (Some r.2)) ;;; st_ret r.1
  | None =>
      if v_may_have_unpresentable V then
        p <- parent_path (v_parent V idx) ;; st_ret (match p with Some _ => true | None => false end)
      else st_ret true
  end.

Definition evaluate (idx : N) (scope : option N) (name_decided : bool) : ST Scan bool :=
  if filters_match idx then
    named <- (if name_decided then st_ret true else budgeted (name_matches (v_name_id V idx))) ;;
    if (named : bool) then
      scoped <- (match scope with Some root => in_scope idx root | None => st_ret true end) ;;
      if (scoped : bool) then path_test idx else st_ret false
    else st_ret false
  else st_ret false.

(** One entry visited: a synthetic one is passed over. *)
Definition visit (scope : option N) (name_decided : bool) (idx : N) : ST Scan unit :=
  if v_synthetic V idx then st_ret tt
  else
    hit <- evaluate idx scope name_decided ;;
    st_when hit (st_modify (fun s => with_cands (s_cands s ++ [idx]) s)).

(** ** The ways of searching *)

Definition scan_cost : option (N * option (list N)) :=
  match (if match_case q then None else prefilter c) with
  | None => Some (match c_path_piece c with Some _ => 0 | None => v_len V end, None)
  | Some needle =>
      ids ← for_each_prefilter_hit (v_names V) needle;
      Some (fold_left (fun n id => n + v_refcount V id) ids 0, Some ids)
  end.

(** The loop over the scope's subtree: whether it got to the end, and the
    names a priced scan found. *)
Fixpoint subtree_loop (l : list N) (visited cap : N) (priced : bool) (hits : option (list N)) : ST Scan (bool * option (list N)) :=
  match l with
  | [] => st_ret (true, hits)
  | idx :: l =>
      let visited := visited + 1 in
      price <- (if (cap <? visited) && negb priced then st_read (fun _ => r ← scan_cost; Some (N.max cap r.1, true, default hits (Some <$> r.2)))
                else st_ret (cap, priced, hits)) ;;
      let '(cap, priced, hits) := price in
      if cap <? visited then st_modify (with_cands []) ;;; st_ret (false, hits)
      else
        stop <- s_tick ;;
        if (stop : bool) then st_ret (true, hits)
        else visit None false idx ;;; subtree_loop l visited cap priced hits
  end.

(** The walk is never asked for more than the larger price, and one. *)
Definition subtree_scan (root walk_floor : N) : ST Scan (bool * option (list N)) :=
  cost <- st_read (fun _ => scan_cost) ;;
  subtree_loop (v_subtree V root (N.to_nat (N.max walk_floor cost.1) + 1)) 0 walk_floor false None.

(** A loop that visits [l] until the watch stops it. *)
Fixpoint visit_all (scope : option N) (name_decided : bool) (l : list N) : ST Scan unit :=
  match l with
  | [] => st_ret tt
  | idx :: l =>
      stop <- s_tick ;;
      if (stop : bool) then st_ret tt else visit scope name_decided idx ;;; visit_all scope name_decided l
  end.

Definition on_hits (scope : option N) (ids : list N) : ST Scan unit :=
  st_for (fun id => visit_all scope (prefilter_decides_name c) (v_name_chain V id)) ids.

Fixpoint walk_starts_at (fuel : nat) (tops : list N) (cur : N) : bool :=
  match fuel with
  | O => false
  | S fuel =>
      let par := v_parent V cur in
      if par =? NIL then negb (cur =? v_lost_found V)
      else if bool_decide (par ∈ tops) then false
      else walk_starts_at fuel tops par
  end.

(** The inner loop of [walk_below_names]: [Some] verdict once it returns. *)
Fixpoint below_loop (scope : option N) (l : list N) (visited max_visits : N) : ST Scan (N * option bool) :=
  match l with
  | [] => st_ret (visited, None)
  | idx :: l =>
      let visited := visited + 1 in
      if max_visits <? visited then st_ret (visited, Some false)
      else
        stop <- s_tick ;;
        if (stop : bool) then st_ret (visited, Some true)
        else visit scope false idx ;;; below_loop scope l visited max_visits
  end.

Fixpoint tops_loop (scope : option N) (all tops : list N) (visited max_visits : N) : ST Scan bool :=
  match tops with
  | [] => st_ret true
  | top :: tops =>
      stop <- s_tick ;;
      if (stop : bool) then st_ret true
      else if walk_starts_at (N.to_nat MAX_PATH_HOPS) all top then
        r <- below_loop scope (top :: v_subtree V top (N.to_nat (max_visits - visited))) visited max_visits ;;
        match r.2 with
        | Some v => st_ret v
        | None => tops_loop scope all tops r.1 max_visits
        end
      else tops_loop scope all tops visited max_visits
  end.

Definition walk_below_names (scope : option N) (piece : list N) (max_visits : N) : ST Scan bool :=
  ids <- st_read (fun _ => for_each_prefilter_hit (v_names V) piece) ;;
  let bearing := fold_left (fun n id => n + v_refcount V id) ids 0 in
  if max_visits <? bearing then st_ret false
  else
    let tops := merge_sort N.le (flat_map (v_name_chain V) ids) in
    outer <- st_get (fun s => left (s_watch s)) ;;
    st_modify (fun s => with_watch {| w_budget := s_budget s; left := 1 |} s) ;;;
    r <- tops_loop scope tops tops 0 max_visits ;;
    st_modify (fun s => with_watch {| w_budget := s_budget s; left := outer |} s) ;;;
    st_ret r.

Definition scan_start (b : Budget) : Scan :=
  {| s_watch := watch_new b;
     s_folders := if tests_paths c q then Some (folder_paths_new V (c_prefix c)) else None;
     s_memo := ∅; s_dirs := ∅; s_cands := [] |}.

Definition slow_scan (scope : option N) : ST Scan unit :=
  st_modify (with_cands []) ;;; visit_all scope false (v_live V).

Definition scan_body (scope : option N) (walk_floor : N) : ST Scan unit :=
  r <- (match scope with Some root => subtree_scan root walk_floor | None => st_ret (false, None) end) ;;
  if (r.1 : bool) then st_ret tt
  else
    match (if match_case q then None else prefilter c) with
    | Some needle =>
        match r.2 with
        | Some ids => on_hits scope ids
        | None => ids <- st_read (fun _ => for_each_prefilter_hit (v_names V) needle) ;; on_hits scope ids
        end
    | None =>
        done <- (match c_path_piece c with
                 | Some piece => walk_below_names scope piece (v_len V / PATH_WALK_SHARE)
                 | None => st_ret false
                 end) ;;
        if (done : bool) then st_ret tt else slow_scan scope
    end.

(** The candidates, and the budget as the search leaves it. *)
Definition scan_with (scope : option N) (walk_floor : N) (b : Budget) : option (list N * Budget) :=
  if volume_admits c then
    r ← scan_body scope walk_floor (scan_start b);
    Some (s_cands r.2, s_budget r.2)
  else Some ([], b).

Definition scan (scope : option N) : Budget -> option (list N * Budget) := scan_with scope SUBTREE_WALK_MAX.
End engine.

(** ** What the index promises *)

(** [e] is [k] levels under [top]. *)
Inductive under (V : IndexView) (top : N) : nat -> N -> Prop :=
  | under_child e : v_parent V e <> NIL -> v_parent V e = top -> under V top 1 e
  | under_step k e : v_parent V e <> NIL -> under V top k (v_parent V e) -> under V top (S k) e.

Definition below (V : IndexView) (top e : N) : Prop := exists k, under V top k e.

(** [e]'s ancestors end. *)
Inductive rooted (V : IndexView) : N -> Prop :=
  | rooted_top e : v_parent V e = NIL -> rooted V e
  | rooted_step e : v_parent V e <> NIL -> rooted V (v_parent V e) -> rooted V e.

(** The interface between the index and the engine. *)
Class ViewOk `{Unicode} {M : Memchr} (V : IndexView) : Prop := {
  vo_root_top : v_parent V (v_root V) = NIL;
  vo_root_real : v_root V <> v_lost_found V;
  vo_root_synthetic : v_synthetic V (v_root V) = true;
  vo_lost_synthetic : v_synthetic V (v_lost_found V) = true;
  vo_raw id : text (v_raw V id);
  vo_folded id : v_folded V id = fold (v_raw V id);
  vo_live : NoDup (v_live V);
  vo_nil : NIL ∉ v_live V;
  vo_parent e : e ∈ v_live V -> v_parent V e = NIL \/ v_parent V e ∈ v_live V;
  vo_chain id : NoDup (v_name_chain V id) /\ forall e, e ∈ v_name_chain V id <-> e ∈ v_live V /\ v_name_id V e = id;
  vo_hits needle : needle <> [] -> 0 ∉ needle ->
    exists l, for_each_prefilter_hit (v_names V) needle = Some l /\ NoDup l /\
      forall e, e ∈ v_live V -> v_name_id V e ∈ l <-> infix needle (v_folded V (v_name_id V e));
  vo_subtree top : top ∈ v_live V -> rooted V top ->
    exists l, NoDup l /\ (forall e, e ∈ l <-> e ∈ v_live V /\ below V top e) /\ forall n, v_subtree V top n = take n l
}.

(** ** Specifications *)

Lemma last_index_split c s i : last_index_of c s = Some i -> s = take (N.to_nat i) s ++ c :: drop (N.to_nat (i + 1)) s /\ c ∉ drop (N.to_nat (i + 1)) s.
Proof.
  intros Hi. destruct (memrchr_some (M:=naive) c s i Hi) as [Hg Hmax]. unfold getN in Hg.
  replace (N.to_nat (i + 1)) with (S (N.to_nat i)) by lia. split; [by rewrite take_drop_middle|].
  intros [j Hj]%list_elem_of_lookup. rewrite lookup_drop in Hj. apply (Hmax (i + 1 + N.of_nat j)); [lia|].
  unfold getN. rewrite <- Hj. f_equal. lia.
Qed.

Lemma ext_matches_spec `{Unicode} f name : ext_matches f name = true <-> ext_hit f name.
Proof.
  unfold ext_matches, ext_hit. destruct (ext f) as [exts|]; [|done]. destruct (last_index_of 0x2E name) as [i|] eqn:Ei.
  - destruct (last_index_split _ _ _ Ei) as [Es Hno]. rewrite bool_decide_eq_true. split.
    + intros Hin. by exists (take (N.to_nat i) name), (drop (N.to_nat (i + 1)) name).
    + intros (base & e & E & He & Hin). replace (drop (N.to_nat (i + 1)) name) with e; [done|].
      rewrite E in Es. apply app_eq_app in Es as (k & [[E1 E2]|[E1 E2]]); rewrite <- E in *.
      * destruct k as [|x k]; [by injection E2|]. injection E2 as <- E2. exfalso. apply Hno. rewrite E2. apply elem_of_app. right. left.
      * destruct k as [|x k]; [by injection E2|]. injection E2 as <- E2. exfalso. apply He. rewrite E2. apply elem_of_app. right. left.
  - split; [done|]. intros (base & e & -> & _). exfalso. apply (memrchr_none (M:=naive) _ _ Ei). apply elem_of_app. right. left.
Qed.

Section scanning.
Context `{Unicode, !UnicodeAscii, !UnicodeText} {E : Env} {M : Memchr} {Mok : MemchrOk M}.
Context (V : IndexView) {Vok : ViewOk V} (q : ParsedQuery) (mount : list N).
Hypothesis wild_ok : Forall compiled_from (wildcards q) /\ Forall compiled_from (path_wildcards q).
Hypothesis mount_text : text mount.
Notation c := (compiled_new q mount).
Notation prefix := (c_prefix c).
Notation folding := (negb (match_case q)).

Definition name_ok (idx : N) : Prop := name_hit q (v_raw V (v_name_id V idx)) (v_folded V (v_name_id V idx)).

(** An entry has a path when it is asked for, and the one asked for. *)
Definition path_ok (idx : N) : Prop :=
  if tests_paths c q then exists full, entry_path V prefix folding idx = Some full /\ path_hit q full
  else v_may_have_unpresentable V = true -> is_Some (v_path_of V (v_parent V idx)).

Definition scope_ok (scope : option N) (idx : N) : Prop :=
  match scope with Some root => idx <> root /\ below V root idx | None => True end.

(** What makes an entry a match of the query. *)
Definition hit (scope : option N) (idx : N) : Prop :=
  v_synthetic V idx = false /\ filters_match V q idx = true /\ name_ok idx /\ scope_ok scope idx /\ path_ok idx.

(** A walk up from below a scope is not cut short. *)
Definition shallow (root : N) : Prop := forall e k, e ∈ v_live V -> under V root k e -> (k <= 4096)%nat.

(** *** Names *)

Lemma name_matches_keeps id : keeps_spent (name_matches V q c id).
Proof.
  unfold name_matches. destruct (forallb _ _); [|apply keeps_ret]. apply keeps_bind; [|intros; apply keeps_ret].
  destruct (wildcards q); [apply keeps_ret|apply all_match_keeps].
Qed.

Lemma name_finders_eq : name_finders c = name_terms q.
Proof. unfold compiled_new. by destruct (choose_prefilter q). Qed.

Lemma wp_name_matches idx b : wp (name_matches V q c (v_name_id V idx)) (answers (name_ok idx)) b.
Proof.
  unfold name_matches, name_ok, name_hit. rewrite name_finders_eq.
  set (hay := if match_case q then v_raw V (v_name_id V idx) else v_folded V (v_name_id V idx)).
  destruct (forallb (fun f => found f hay) (name_terms q)) eqn:Ef.
  2: { apply wp_ret. split; [done|]. intros _ (Hn & _). exfalso. apply eq_true_false_abs in Ef; [done|].
       apply forallb_forall. intros t Ht%list_elem_of_In. by apply found_spec, Hn. }
  assert (Hn : forall t, t ∈ name_terms q -> infix t hay).
  { intros t Ht. apply found_spec. rewrite forallb_forall in Ef. by apply Ef, list_elem_of_In. }
  apply wp_bind. eapply (wp_mono _ (answers (forall w, w ∈ wildcards q -> glob (tokens w) (code_points hay)))).
  { destruct (wildcards q) as [|w ws] eqn:Ew; [apply wp_ret; split; [by intros _ w ?%not_elem_of_nil|done]|].
    apply wp_all_match. exact (proj1 wild_ok). }
  intros r b' [Hr1 Hr2]. apply wp_ret. pose proof (ext_matches_spec (filters q) (v_raw V (v_name_id V idx))) as He. split.
  - destruct r; [|done]. intros Hx. split_and!; [done|by apply Hr1|by apply He].
  - intros Hs (_ & Hw & Hx). rewrite (Hr2 Hs Hw). by apply He.
Qed.

(** *** Scopes *)

Lemma under_inv root k e : under V root k e -> v_parent V e <> NIL /\ ((k = 1%nat /\ v_parent V e = root) \/ exists k', k = S k' /\ under V root k' (v_parent V e)).
Proof. inversion 1; subst; eauto 10. Qed.

Definition memo_ok (root : N) (memo : gmap N bool) : Prop := forall e v, memo !! e = Some v -> e ∈ v_live V /\ e <> root /\ (v = true <-> below V root e).

Lemma below_up root e : v_parent V e <> NIL -> below V root e <-> v_parent V e = root \/ below V root (v_parent V e).
Proof.
  intros Hn. split.
  - intros (k & (_ & [[_ ?]|(k' & -> & Hu)])%under_inv); [by left|]. right. by exists k'.
  - intros [Hr|[k Hk]]; [exists 1%nat; by constructor|exists (S k); by constructor].
Qed.

Lemma below_top root e : v_parent V e = NIL -> ~ below V root e.
Proof. intros Hn (k & [? _]%under_inv). done. Qed.

(** The climb answers for every entry it passes. *)
Lemma scope_climb_spec root memo e0 : shallow root -> memo_ok root memo -> e0 ∈ v_live V -> forall fuel passed cur,
  cur ∈ v_live V -> passed + N.of_nat fuel = 4096 -> (forall k, under V root k cur -> under V root (N.to_nat passed + k) e0) ->
  exists v chain, scope_climb V fuel root memo passed cur = Some (v, chain) /\ (v = true <-> cur = root \/ below V root cur) /\
    forall x, x ∈ chain -> x ∈ v_live V /\ x <> root /\ (v = true <-> below V root x).
Proof.
  intros Hsh Hm He0. induction fuel as [|fuel IH]; intros passed cur Hcur Hp Hu; cbn [scope_climb];
    (destruct (N.eqb_spec cur root) as [->|Hroot]; [exists true, []; split_and!; [done|tauto|by intros x ?%not_elem_of_nil]|]);
    (destruct (memo !! cur) as [v|] eqn:Em;
      [destruct (Hm _ _ Em) as (_ & _ & Hv); exists v, []; split_and!; [done|rewrite Hv; tauto|by intros x ?%not_elem_of_nil]|]);
    (destruct (N.eqb_spec (v_parent V cur) NIL) as [Hn|Hn];
      [exists false, []; split_and!; [done|pose proof (below_top root cur Hn); naive_solver|by intros x ?%not_elem_of_nil]|]).
  - rewrite (proj2 (N.ltb_lt _ _)) by lia. exists false, [cur].
    assert (Hno : ~ below V root cur) by (intros [k Hk]; pose proof (Hsh e0 _ He0 (Hu k Hk)); apply under_inv in Hk as [_ [[-> _]|(? & -> & _)]]; lia).
    split_and!; [done|naive_solver|]. intros x ->%list_elem_of_singleton. naive_solver.
  - rewrite (proj2 (N.ltb_ge _ _)) by lia. destruct (vo_parent cur Hcur) as [?|Hpl]; [done|].
    destruct (IH (passed + 1) (v_parent V cur)) as (v & chain & -> & Hv & Hc); [done|lia| |].
    { intros k Hk. replace (N.to_nat (passed + 1) + k)%nat with (N.to_nat passed + S k)%nat by lia. apply Hu. by constructor. }
    simpl. exists v, (cur :: chain).
    assert (Hv' : v = true <-> below V root cur) by (rewrite Hv; symmetry; by apply below_up).
    split_and!; [done|rewrite Hv'; tauto|]. intros x [->|Hx]%elem_of_cons; [done|]. by apply Hc.
Qed.

(** *** The state of a scan *)

Record scan_ok (scope : option N) (s : Scan) : Prop := {
  sk_watch : watch_ok (s_watch s);
  sk_folders : match s_folders s with
    | Some p => tests_paths c q = true /\ st_ok V prefix folding p /\ needs_ok V prefix folding c (s_budget s) p
    | None => tests_paths c q = false end;
  sk_memo : forall root, scope = Some root -> memo_ok root (s_memo s);
  sk_dirs : forall par p, s_dirs s !! par = Some p -> p = v_path_of V par
}.

(** How a step answers [P]: exactly, unless the budget turned out spent. *)
Definition step_ok (scope : option N) (s : Scan) (P : Prop) (r : bool) (s' : Scan) : Prop :=
  scan_ok scope s' /\ s_cands s' = s_cands s /\ (spent (s_budget s') = false -> spent (s_budget s) = false) /\
  answers P r (s_budget s').

Lemma wp_budgeted scope s (P : Prop) (m : ST Budget bool) :
  scan_ok scope s -> keeps_spent m -> wp m (answers P) (s_budget s) ->
  wp (budgeted m) (step_ok scope s P) s.
Proof.
  intros Hs Hk Hm. unfold budgeted. apply wp_zoom. eapply wp_mono; [by apply wp_keeps|]. intros r b [Ha Hb].
  destruct Hs as [W F Me D]. split; [|by split]. split; try done. simpl. destruct (s_folders s) as [p|]; [|done].
  destruct F as (? & ? & Hn). split_and!; try done. intros dir Hdir. destruct (Hn dir Hdir) as (ch & ? & Hf). exists ch. split; [done|].
  eapply Forall2_impl; [done|]. intros ? ?. by apply need_tells_spent.
Qed.

Lemma prefix_is_text : text prefix.
Proof. rewrite c_prefix_eq. destruct (match_case q); [done|]. by apply fold_text. Qed.

Lemma names_are_text x : text (name_bytes V folding x).
Proof. unfold name_bytes. destruct (match_case q); simpl; [apply vo_raw|]. rewrite vo_folded. apply fold_text, vo_raw. Qed.

Lemma ends_are : path_wildcard_ends c = (fun w => (leading_literal w, trailing_literal w)) <$> path_wildcards q.
Proof. unfold compiled_new. by destruct (choose_prefilter q). Qed.

Lemma bytes_bound : FOLDER_PATH_BYTES_MAX < 2 ^ 32.
Proof. vm_compute. done. Qed.

Lemma entry_path_prefix idx full : entry_path V prefix folding idx = Some full -> exists rest, full = prefix ++ rest.
Proof. intros (ch & _ & _ & ->)%entry_path_before. unfold FolderPaths.before. rewrite <- app_assoc. by eexists. Qed.

Lemma full_hit_path idx : full_hit V prefix folding q c idx <-> exists full, entry_path V prefix folding idx = Some full /\ path_hit q full.
Proof.
  unfold full_hit, terms_hit, wild_hit. split.
  - intros (full & He & Ht & Hw). exists full. split; [done|]. destruct (entry_path_prefix _ _ He) as [rest ->]. by apply path_finders_hit.
  - intros (full & He & Hh). exists full. split; [done|]. destruct (entry_path_prefix _ _ He) as [rest ->]. by apply path_finders_hit in Hh.
Qed.

Lemma wp_path_test scope s idx : scan_ok scope s -> idx <> v_root V -> wp (path_test V q c idx) (step_ok scope s (path_ok idx)) s.
Proof.
  intros Hs Hroot. pose proof Hs as [W F Me D]. unfold path_test, path_ok. apply wp_bind, wp_get. destruct (s_folders s) as [p|] eqn:Ep.
  - destruct F as (Et & Hp & Hn). rewrite Et. apply wp_bind. unfold budgeted. apply wp_zoom.
    eapply wp_mono; [apply (wp_full_path_matches V prefix folding);
      [apply vo_root_top|apply vo_root_real|apply bytes_bound|exact Mok|apply ends_are|apply wild_ok|apply prefix_is_text|apply names_are_text|done|done|done]|].
    intros r b' (Hp' & Hn' & Hk & Ha). apply wp_bind, wp_modify, wp_ret. rewrite full_hit_path in Ha.
    split; [|by split]. split; done.
  - rewrite F. destruct (v_may_have_unpresentable V).
    2: { apply wp_ret. split; [done|]. split; [done|]. split; [done|]. split; [done|]. done. }
    apply wp_bind. unfold parent_path. apply wp_bind, wp_get.
    assert (Hdone : forall o s', scan_ok scope s' -> s_cands s' = s_cands s -> s_budget s' = s_budget s -> o = v_path_of V (v_parent V idx) ->
      step_ok scope s (true = true -> is_Some (v_path_of V (v_parent V idx))) (match o with Some _ => true | None => false end) s').
    { intros o s' H1' H2' H3' ->. split; [done|]. rewrite H3'. split; [done|]. split; [done|].
      destruct (v_path_of V (v_parent V idx)); split; [by intros _ _; eexists|done|done|]. intros _ Hx. by destruct (Hx eq_refl). }
    destruct (s_dirs s !! v_parent V idx) as [o|] eqn:Ed.
    + apply wp_ret, wp_ret, Hdone; try done. by apply D.
    + apply wp_bind, wp_modify, wp_ret, wp_ret, Hdone; try done. split; try done; simpl; [by rewrite Ep|].
      intros par o [[<- <-]|[_ ?]]%lookup_insert_Some; [done|]. by apply D.
Qed.

Lemma wp_in_scope root s idx : scan_ok (Some root) s -> shallow root -> idx ∈ v_live V ->
  wp (in_scope V idx root) (step_ok (Some root) s (scope_ok (Some root) idx)) s.
Proof.
  intros Hs Hsh Hl. pose proof Hs as [W F Me D]. unfold in_scope, scope_ok. destruct (N.eqb_spec idx root) as [->|Hne].
  { apply wp_ret. split; [done|]. split; [done|]. split; [done|]. split; [done|]. intros _ [? _]. done. }
  destruct (scope_climb_spec root (s_memo s) idx Hsh (Me root eq_refl) Hl 4096 0 idx Hl) as (v & chain & Ec & Hv & Hch); [done|done|].
  apply wp_bind. eapply wp_read; [exact Ec|]. apply wp_bind, wp_modify, wp_ret. simpl.
  assert (Hm : memo_ok root (fold_left (fun m e => <[e := v]> m) chain (s_memo s))).
  { specialize (Me root eq_refl). clear -Me Hch. revert Me Hch. generalize (s_memo s) as m. induction chain as [|x chain IH]; intros m Hm Hch; [done|].
    simpl. apply IH; [|intros y Hy; apply Hch; by right]. intros e w [[<- <-]|[_ He]]%lookup_insert_Some; [|by apply Hm]. apply Hch. left. }
  split; [split; try done|]. { by intros r [= <-]. }
  split; [done|]. split; [done|]. split; [intros Hr; split; [done|]|intros _ [_ Hb]; apply Hv; by right].
  apply Hv in Hr as [?|?]; done.
Qed.

(** *** Visiting *)

Lemma step_trans scope s P r s1 P' r' s2 : step_ok scope s P r s1 -> step_ok scope s1 P' r' s2 ->
  scan_ok scope s2 /\ s_cands s2 = s_cands s /\ (spent (s_budget s2) = false -> spent (s_budget s) = false) /\
  (spent (s_budget s2) = false -> spent (s_budget s1) = false).
Proof. intros (_ & C1 & B1 & _) (Hok & C2 & B2 & _). split_and!; [done|congruence|auto|auto]. Qed.

Lemma wp_evaluate scope sc s idx nd :
  scan_ok scope s -> idx ∈ v_live V -> v_synthetic V idx = false -> (sc = None \/ sc = scope) ->
  (forall root, sc = Some root -> shallow root) -> (nd = true -> name_ok idx) ->
  wp (evaluate V q c idx sc nd) (step_ok scope s (hit sc idx)) s.
Proof.
  intros Hs Hl Hsyn Hsc Hsh Hnd. unfold evaluate, hit. rewrite Hsyn.
  assert (Hroot : idx <> v_root V) by (intros ->; by rewrite vo_root_synthetic in Hsyn).
  assert (Hno : forall s' (P : Prop), scan_ok scope s' -> s_cands s' = s_cands s -> (spent (s_budget s') = false -> spent (s_budget s) = false) ->
    (spent (s_budget s') = false -> ~ P) -> wp (st_ret false) (step_ok scope s P) s').
  { intros s' P Hs' Hc Hb HP. apply wp_ret. do 3 (split; [done|]). split; [done|]. intros Hsp HPt. by destruct (HP Hsp). }
  destruct (filters_match V q idx); [|apply Hno; try done; naive_solver].
  apply wp_bind. eapply (wp_mono _ (step_ok scope s (name_ok idx))).
  { destruct nd; [apply wp_ret; do 3 (split; [done|]); split; auto|].
    apply wp_budgeted; [done|apply name_matches_keeps|apply wp_name_matches]. }
  intros named s1 St1. pose proof St1 as (Hs1 & Hc1 & Hb1 & [An1 An2]). destruct named; [|apply Hno; try done; naive_solver].
  apply wp_bind. eapply (wp_mono _ (step_ok scope s1 (scope_ok sc idx))).
  { destruct sc as [root|]; [|apply wp_ret; do 3 (split; [done|]); done].
    destruct Hsc as [|<-]; [done|]. apply wp_in_scope; auto. }
  intros scoped s2 St2. pose proof St2 as (Hs2 & _ & Hb12 & [As1 As2]). destruct (step_trans _ _ _ _ _ _ _ _ St1 St2) as (_ & Hc2 & Hb2 & _).
  destruct scoped; [|apply Hno; try done; naive_solver].
  eapply wp_mono; [by apply wp_path_test|]. intros r s3 St3. pose proof St3 as (Hs3 & Hc3 & Hb3 & [Ap1 Ap2]).
  split; [done|]. split; [congruence|]. split; [auto|]. split; [intros Hr; split_and!; auto|].
  intros Hsp (_ & _ & _ & _ & Hp). by apply Ap2.
Qed.

(** Visiting [l] leaves the matches among them. *)
Definition visited_ok (scope sc : option N) (l : list N) (s s' : Scan) : Prop :=
  scan_ok scope s' /\ (spent (s_budget s') = false -> spent (s_budget s) = false) /\
  exists X, s_cands s' = s_cands s ++ X /\ X `sublist_of` l /\ (forall e, e ∈ X -> hit sc e) /\
    (spent (s_budget s') = false -> forall e, e ∈ l -> hit sc e -> e ∈ X).

Lemma visited_nil scope sc s : scan_ok scope s -> visited_ok scope sc [] s s.
Proof. intros Hs. split; [done|]. split; [done|]. exists []. rewrite app_nil_r. split_and!; [done|done|by intros ? ?%not_elem_of_nil|by intros _ ? ?%not_elem_of_nil]. Qed.

Lemma visited_app scope sc l1 l2 s s1 s2 : visited_ok scope sc l1 s s1 -> visited_ok scope sc l2 s1 s2 -> visited_ok scope sc (l1 ++ l2) s s2.
Proof.
  intros (_ & Hb1 & X1 & C1 & S1 & H1' & H2') (Hs & Hb2 & X2 & C2 & S2 & H3' & H4'). split; [done|]. split; [auto|].
  exists (X1 ++ X2). rewrite C2, C1, app_assoc. split_and!; [done|by apply sublist_app| |].
  - intros e [?|?]%elem_of_app; auto.
  - intros Hsp e [?|?]%elem_of_app Hh; apply elem_of_app; auto.
Qed.

(** A search that stops early has found the budget spent. *)
Lemma visited_stopped scope sc l s s' : visited_ok scope sc [] s s' -> spent (s_budget s') = true -> visited_ok scope sc l s s'.
Proof.
  intros (Hs & Hb & X & C & ->%sublist_nil_r & _) Hsp. split; [done|]. split; [done|]. exists [].
  split_and!; [done|apply sublist_nil_l|by intros ? ?%not_elem_of_nil|congruence].
Qed.

Lemma wp_visit scope sc nd s idx :
  scan_ok scope s -> idx ∈ v_live V -> (sc = None \/ sc = scope) -> (forall root, sc = Some root -> shallow root) ->
  (nd = true -> name_ok idx) -> wp (visit V q c sc nd idx) (fun _ => visited_ok scope sc [idx] s) s.
Proof.
  intros Hs Hl Hsc Hsh Hnd. unfold visit. destruct (v_synthetic V idx) eqn:Hsyn.
  { apply wp_ret. split; [done|]. split; [done|]. exists []. rewrite app_nil_r. split_and!; [done|apply sublist_nil_l|by intros ? ?%not_elem_of_nil|].
    intros _ e ->%list_elem_of_singleton [? _]. congruence. }
  apply wp_bind. eapply wp_mono; [by apply (wp_evaluate scope sc)|]. intros r s1 (Hs1 & Hc & Hb & A1 & A2). apply wp_when.
  - intros ->. apply wp_modify. split; [by destruct Hs1; split|]. split; [done|]. exists [idx]. simpl. rewrite Hc. split_and!; try done.
    intros e ->%list_elem_of_singleton. by apply A1.
  - intros ->. split; [done|]. split; [done|]. exists []. rewrite app_nil_r. split_and!; [done|apply sublist_nil_l|by intros ? ?%not_elem_of_nil|].
    intros Hsp e ->%list_elem_of_singleton Hh. by specialize (A2 Hsp Hh).
Qed.

Lemma wp_tick scope sc s :
  scan_ok scope s -> wp s_tick (fun r s' => visited_ok scope sc [] s s' /\ (r = true -> spent (s_budget s') = true)) s.
Proof.
  intros [W F Me D]. unfold s_tick. apply wp_zoom. destruct (tick_spec _ W) as (w' & Hw' & _ & _ & Ht). unfold wp.
  assert (Hgo : forall r, (spent (w_budget w') = false -> spent (s_budget s) = false) -> (r = true -> spent (w_budget w') = true) ->
    visited_ok scope sc [] s (with_watch w' s) /\ (r = true -> spent (s_budget (with_watch w' s)) = true)).
  { intros r Hk Hr. split; [|done]. split.
    - split; try done. simpl. destruct (s_folders s) as [p|]; [|done]. destruct F as (? & ? & Hn). split_and!; try done.
      intros dir Hdir. destruct (Hn dir Hdir) as (ch & ? & Hf). exists ch. split; [done|].
      eapply Forall2_impl; [done|]. intros ? ?. by apply need_tells_spent.
    - split; [done|]. exists []. rewrite app_nil_r. split_and!; [done|done|by intros ? ?%not_elem_of_nil|by intros _ ? ?%not_elem_of_nil]. }
  destruct (left (s_watch s) =? 1).
  - destruct Ht as (-> & _ & Hsp & _). apply Hgo; [|by rewrite Hsp]. rewrite Hsp. unfold s_budget.
    intros [[? _]%orb_false_iff _]%orb_false_iff. done.
  - destruct Ht as (-> & Hb & _). apply Hgo; [|done]. by rewrite Hb.
Qed.

Lemma wp_visit_all scope sc nd l : forall s,
  scan_ok scope s -> Forall (fun e => e ∈ v_live V) l -> (sc = None \/ sc = scope) -> (forall root, sc = Some root -> shallow root) ->
  (nd = true -> forall e, e ∈ l -> name_ok e) -> wp (visit_all V q c sc nd l) (fun _ => visited_ok scope sc l s) s.
Proof.
  induction l as [|idx l IH]; intros s Hs Hl Hsc Hsh Hnd; simpl; [by apply wp_ret, visited_nil|].
  apply Forall_cons in Hl as [Hi Hl]. apply wp_bind. eapply wp_mono; [by apply (wp_tick scope sc)|]. intros r s1 [V1 Hr]. destruct r.
  { apply wp_ret. apply visited_stopped; auto. }
  apply wp_bind. eapply wp_mono; [apply (wp_visit scope sc nd s1); try done; [by destruct V1|intros; apply Hnd; [done|left]]|].
  intros [] s2 V2. eapply wp_mono; [apply IH; try done; [by destruct V2|intros ? e He; apply Hnd; [done|by right]]|].
  intros [] s3 V3. apply (visited_app scope sc [] (idx :: l) s s1 s3 V1). apply (visited_app scope sc [idx] l s1 s2 s3 V2 V3).
Qed.

Lemma visited_wider scope sc l l' s s' :
  visited_ok scope sc l s s' -> l `sublist_of` l' -> spent (s_budget s') = true -> visited_ok scope sc l' s s'.
Proof.
  intros (Hs & Hb & X & C & Hsub & Hh & _) Hll Hsp. split; [done|]. split; [done|]. exists X.
  split_and!; [done|by transitivity l|done|congruence].
Qed.

Lemma wp_on_hits scope ids : forall s,
  scan_ok scope s -> (forall root, scope = Some root -> shallow root) ->
  (prefilter_decides_name c = true -> forall e, e ∈ flat_map (v_name_chain V) ids -> name_ok e) ->
  wp (on_hits V q c scope ids) (fun _ => visited_ok scope scope (flat_map (v_name_chain V) ids) s) s.
Proof.
  unfold on_hits. induction ids as [|id ids IH]; intros s Hs Hsh Hnd; simpl; [by apply wp_ret, visited_nil|].
  apply wp_bind. eapply wp_mono; [apply (wp_visit_all scope scope); try done; [|by right|]|].
  - apply Forall_forall. intros e He. by apply (vo_chain id).
  - intros Hd e He. apply Hnd; [done|]. simpl. apply elem_of_app. by left.
  - intros [] s1 V1. eapply wp_mono; [apply IH; [by destruct V1|done|]|].
    + intros Hd e He. apply Hnd; [done|]. simpl. apply elem_of_app. by right.
    + intros [] s2 V2. by apply (visited_app _ _ _ _ _ s1).
Qed.

(** *** Ancestors *)

Lemma under_trans a b i j e : under V b i e -> under V a j b -> under V a (i + j) e.
Proof.
  intros Hi Hj. induction Hi as [e Hn Hp|i e Hn Hi IH]; simpl; [|by constructor]. constructor; [done|]. by rewrite Hp.
Qed.

Lemma below_trans a b e : below V b e -> below V a b -> below V a e.
Proof. intros [i Hi] [j Hj]. exists (i + j)%nat. by eapply under_trans. Qed.

Lemma rooted_not_below e : rooted V e -> ~ below V e e.
Proof.
  induction 1 as [e Hn|e Hn Hr IH]; intros Hb; [by apply below_top in Hb|].
  apply below_up in Hb as [Hp|Hb]; [| |done].
  - apply IH. rewrite Hp. exists 1%nat. by constructor.
  - apply IH. apply (below_trans _ e); [done|]. exists 1%nat. by constructor.
Qed.

Lemma below_linear a b e : below V a e -> below V b e -> a = b \/ below V a b \/ below V b a.
Proof.
  intros [k Hk] Hb. revert Hb. induction Hk as [e Hn Hp|k e Hn Hk IH]; intros Hb; apply below_up in Hb as [Hb|Hb]; try done.
  - left. congruence.
  - right. right. by rewrite <- Hp.
  - right. left. exists k. by rewrite <- Hb.
  - by apply IH.
Qed.

Definition at_or_under (top e : N) : Prop := e = top \/ below V top e.

Lemma at_or_under_linear a b e : at_or_under a e -> at_or_under b e -> a = b \/ below V a b \/ below V b a.
Proof.
  unfold at_or_under. intros [->|Ha] [->|Hb]; [by left|by right; right|by right; left|]. by eapply below_linear.
Qed.

(** Above a walk's start there is no other. *)
Lemma walk_starts_clear n tops cur : walk_starts_at V n tops cur = true -> rooted V cur /\ forall a, below V a cur -> a ∉ tops.
Proof.
  revert cur. induction n as [|n IH]; intros cur; simpl; [done|]. destruct (N.eqb_spec (v_parent V cur) NIL) as [Hn|Hn].
  - intros _. split; [by constructor|]. intros a Ha. by apply below_top in Ha.
  - case_bool_decide as Hp; [done|]. intros [Hr Ha]%IH. split; [by apply rooted_step|].
    intros a [<-|Hb]%below_up; [done|by apply Ha|done].
Qed.

Lemma walk_starts_walk n tops x B : FolderPaths.walk V n x = Some (x :: B) -> (forall y, y ∈ B -> y ∉ tops) -> walk_starts_at V n tops x = true.
Proof.
  revert x B. induction n as [|n IH]; intros x B Hw HB; [done|]. simpl in *. destruct (N.eqb_spec (v_parent V x) NIL) as [Hn|Hn].
  - by destruct (x =? v_lost_found V).
  - apply bind_Some in Hw as (ch & Hch & [= <-]). assert (Hh : exists B', ch = v_parent V x :: B').
    { destruct n as [|n]; [done|]. simpl in Hch. destruct (v_parent V (v_parent V x) =? NIL).
      - destruct (v_parent V x =? v_lost_found V); [done|]. injection Hch as <-. by eexists.
      - apply bind_Some in Hch as (? & _ & [= <-]). by eexists. }
    destruct Hh as [B' ->]. rewrite bool_decide_eq_false_2 by (apply HB; left). apply IH with B'; [done|].
    intros y Hy. apply HB. by right.
Qed.

(** The part of a chain from one of its entries on is that entry's chain. *)
Lemma up_suffix A : forall e t B, FolderPaths.up V e (A ++ t :: B) -> FolderPaths.up V t (t :: B) /\ at_or_under t e.
Proof.
  induction A as [|a A IH]; intros e t B Hu.
  - assert (e = t) as -> by (apply up_inv in Hu as [(_ & _ & E1)|(_ & ? & E1 & _)]; simpl in E1; congruence). split; [done|by left].
  - apply up_inv in Hu as [(_ & _ & E1)|(Hn & c' & E1 & Hu)].
    + simplify_eq. by destruct A.
    + injection E1 as -> <-. destruct (IH _ _ _ Hu) as [Ht Hat]. split; [done|]. right. apply below_up; [done|].
      destruct Hat as [?|?]; [by left|by right].
Qed.

Lemma up_live e ch : FolderPaths.up V e ch -> e ∈ v_live V -> forall x, x ∈ ch -> x ∈ v_live V.
Proof.
  revert e. induction ch as [|y ch IH]; intros e Hu He x Hx; [by apply not_elem_of_nil in Hx|].
  apply up_inv in Hu as [(_ & _ & E1)|(Hn & c' & E1 & Hu)]; simplify_eq.
  - by apply list_elem_of_singleton in Hx as ->.
  - apply elem_of_cons in Hx as [->|Hx]; [done|]. destruct (vo_parent e He) as [?|Hp]; [done|]. by apply (IH _ Hu Hp).
Qed.

(** The last entry of a list with a property. *)
Lemma list_last_with (P : N -> Prop) `{!forall x, Decision (P x)} (l : list N) x :
  x ∈ l -> P x -> exists A t B, l = A ++ t :: B /\ P t /\ forall y, y ∈ B -> ~ P y.
Proof.
  revert x. induction l as [|z l IH]; intros x Hx HP; [by apply not_elem_of_nil in Hx|]. destruct (decide (Exists P l)) as [Hex|Hno].
  - apply Exists_exists in Hex as (y & Hy & HPy). destruct (IH y Hy HPy) as (A & t & B & -> & ? & ?). by exists (z :: A), t, B.
  - apply elem_of_cons in Hx as [->|Hx]; [|destruct Hno; apply Exists_exists; eauto].
    exists [], z, l. split_and!; [done|done|]. intros y Hy HPy. apply Hno, Exists_exists. eauto.
Qed.

(** *** The path walk *)

(** All that is below an entry. *)
Definition sub (top : N) : list N := v_subtree V top (length (v_live V)).

Lemma sub_spec top : top ∈ v_live V -> rooted V top ->
  NoDup (sub top) /\ (forall e, e ∈ sub top <-> e ∈ v_live V /\ below V top e) /\ forall n, v_subtree V top n = take n (sub top).
Proof.
  intros Ht Hr. destruct (vo_subtree top Ht Hr) as (l & Hnd & Hin & Hn). unfold sub.
  assert (Hlen : (length l <= length (v_live V))%nat).
  { apply submseteq_length, NoDup_submseteq; [done|]. intros e He. by apply Hin. }
  rewrite Hn, take_ge by done. done.
Qed.

(** What a walk from [tops] visits. *)
Definition cover (all tops : list N) : list N :=
  flat_map (fun t => if walk_starts_at V (N.to_nat MAX_PATH_HOPS) all t then t :: sub t else []) tops.

Lemma wp_walk_below scope max l : forall visited s,
  scan_ok scope s -> Forall (fun e => e ∈ v_live V) l -> (forall root, scope = Some root -> shallow root) ->
  wp (Engine.below_loop V q c scope l visited max) (fun r s' => scan_ok scope s' /\ (spent (s_budget s') = false -> spent (s_budget s) = false) /\
    match r.2 with
    | Some false => True
    | Some true => spent (s_budget s') = true /\ visited_ok scope scope l s s'
    | None => r.1 = visited + len l /\ (l <> [] -> visited + len l <= max) /\ visited_ok scope scope l s s' end) s.
Proof.
  induction l as [|idx l IH]; intros visited s Hs Hl Hsh; cbn [Engine.below_loop].
  { apply wp_ret. split; [done|]. split; [done|]. split; [unfold len; simpl; lia|]. split; [done|by apply visited_nil]. }
  apply Forall_cons in Hl as [Hi Hl]. destruct (N.ltb_spec max (visited + 1)) as [|Hv]; [by apply wp_ret|].
  apply wp_bind. eapply wp_mono; [by apply (wp_tick scope scope)|]. intros r s1 [V1 Hr]. pose proof V1 as (Hs1 & Hb1 & _). destruct r.
  { apply wp_ret. split; [done|]. split; [done|]. split; [auto|]. apply visited_stopped; auto. }
  apply wp_bind. eapply wp_mono; [apply (wp_visit scope scope false s1); try done; by right|].
  intros [] s2 V2. pose proof V2 as (Hs2 & Hb2 & _). eapply wp_mono; [by apply IH|]. intros [v r] s3 (Hs3 & Hb3 & Hres). simpl in *.
  assert (Happ : forall V3 : visited_ok scope scope l s2 s3, visited_ok scope scope (idx :: l) s s3).
  { intros V3. apply (visited_app _ _ [] (idx :: l) s s1 s3 V1). apply (visited_app _ _ [idx] l s1 s2 s3 V2 V3). }
  split; [done|]. split; [auto|]. destruct r as [[]|]; [|done|].
  - destruct Hres as [? ?]. auto.
  - destruct Hres as (-> & Hlen & ?). rewrite len_cons. split; [lia|]. split; [|auto]. intros _. destruct l as [|y l]; [unfold len; simpl; lia|].
    specialize (Hlen ltac:(done)). lia.
Qed.

Lemma wp_tops_loop scope all max tops : forall visited s,
  scan_ok scope s -> Forall (fun e => e ∈ v_live V) tops -> (forall root, scope = Some root -> shallow root) -> visited <= max ->
  wp (tops_loop V q c scope all tops visited max) (fun r s' => scan_ok scope s' /\ (spent (s_budget s') = false -> spent (s_budget s) = false) /\
    (r = true -> visited_ok scope scope (cover all tops) s s')) s.
Proof.
  induction tops as [|top tops IH]; intros visited s Hs Hl Hsh Hmax; cbn [tops_loop].
  { apply wp_ret. split; [done|]. split; [done|]. intros _. by apply visited_nil. }
  apply Forall_cons in Hl as [Ht Hl]. apply wp_bind. eapply wp_mono; [by apply (wp_tick scope scope)|].
  intros r s1 [V1 Hr]. pose proof V1 as (Hs1 & Hb1 & _). destruct r.
  { apply wp_ret. split; [done|]. split; [done|]. intros _. apply visited_stopped; auto. }
  unfold cover. cbn [flat_map]. fold (cover all tops).
  destruct (walk_starts_at V (N.to_nat MAX_PATH_HOPS) all top) eqn:Ew.
  2: { eapply wp_mono; [by apply IH|]. intros r s2 (Hs2 & Hb2 & Hres). split; [done|]. split; [auto|]. intros Hr2.
       by apply (visited_app _ _ [] (cover all tops) s s1 s2 V1), Hres. }
  destruct (walk_starts_clear _ _ _ Ew) as [Hroot _]. destruct (sub_spec top Ht Hroot) as (_ & Hsub & Htake).
  rewrite Htake. apply wp_bind. eapply wp_mono; [apply (wp_walk_below scope); try done|].
  { constructor; [done|]. apply Forall_take, Forall_forall. intros e He. by apply Hsub. }
  intros [v [verdict|]] s2 (Hs2 & Hb2 & Hres); cbn [fst snd] in *.
  - apply wp_ret. split; [done|]. split; [auto|]. intros ->. destruct Hres as [Hsp V2].
    apply (visited_app _ _ [] _ s s1 s2 V1). eapply visited_wider; [exact V2| |done].
    apply (sublist_skip top). transitivity (sub top); [apply sublist_take|]. apply sublist_inserts_r. done.
  - destruct Hres as (-> & Hlen & V2). specialize (Hlen ltac:(done)). rewrite len_cons in *.
    assert (Hall : take (N.to_nat (max - visited)) (sub top) = sub top) by (apply take_ge; unfold len in Hlen; rewrite length_take in Hlen; lia).
    rewrite Hall in *. eapply wp_mono; [by apply IH|]. intros r s3 (Hs3 & Hb3 & Hres). split; [done|]. split; [auto|]. intros Hr3.
    apply (visited_app _ _ [] _ s s1 s3 V1). apply (visited_app _ _ (top :: sub top) _ s1 s2 s3 V2). by apply Hres.
Qed.

Lemma in_cover all tops e : e ∈ cover all tops <->
  exists t, t ∈ tops /\ walk_starts_at V (N.to_nat MAX_PATH_HOPS) all t = true /\ (e = t \/ e ∈ sub t).
Proof.
  unfold cover. rewrite list_elem_of_In, in_flat_map. split.
  - intros (t & Ht%list_elem_of_In & He%list_elem_of_In). exists t. split; [done|].
    destruct (walk_starts_at V _ all t); [|by apply not_elem_of_nil in He]. split; [done|]. by apply elem_of_cons in He.
  - intros (t & Ht & Hw & He). exists t. rewrite Hw. split; [by apply list_elem_of_In|]. by apply list_elem_of_In, elem_of_cons.
Qed.

(** No entry is visited twice. *)
Lemma cover_nodup all tops : NoDup tops -> Forall (fun e => e ∈ v_live V) tops -> (forall t, t ∈ tops -> t ∈ all) -> NoDup (cover all tops).
Proof.
  induction tops as [|t tops IH]; intros Hnd Hl Hall; [constructor|]. apply NoDup_cons in Hnd as [Hni Hnd]. pose proof Hl as Hl0.
  apply Forall_cons in Hl as [Ht Hl]. unfold cover. cbn [flat_map]. fold (cover all tops).
  apply NoDup_app. split_and!; [|intros e He Hc|apply IH; [done|done|intros x Hx; apply Hall; by right]].
  - destruct (walk_starts_at V _ all t) eqn:Ew; [|constructor]. destruct (walk_starts_clear _ _ _ Ew) as [Hr _].
    destruct (sub_spec t Ht Hr) as (Hn & Hin & _). constructor; [|done]. intros [_ Hb]%Hin. by apply rooted_not_below in Hb.
  - destruct (walk_starts_at V _ all t) eqn:Ew; [|by apply not_elem_of_nil in He]. apply in_cover in Hc as (t' & Ht' & Ew' & He').
    destruct (walk_starts_clear _ _ _ Ew) as [Hr Hclear]. destruct (walk_starts_clear _ _ _ Ew') as [Hr' Hclear'].
    rewrite Forall_forall in Hl. assert (Hat : at_or_under t e).
    { apply elem_of_cons in He as [->|He]; [by left|]. right. by apply (sub_spec t Ht Hr) in He as [_ ?]. }
    assert (Hat' : at_or_under t' e) by (destruct He' as [->|He']; [by left|right; by apply (sub_spec t' (Hl t' Ht') Hr') in He' as [_ ?]]).
    destruct (at_or_under_linear _ _ _ Hat Hat') as [->|[Hb|Hb]]; [done| |].
    + apply (Hclear' t Hb). apply Hall. left.
    + apply (Hclear t' Hb). apply Hall. by right.
Qed.

Lemma rel_path_piece p ch : p <> [] -> 0x5C ∉ p -> infix p (rel_path V folding ch) -> exists x, x ∈ ch /\ infix p (name_bytes V folding x).
Proof.
  intros Hne Hp. induction ch as [|x ch IH]; simpl.
  { intros (l & r & E1). destruct l, p; done. }
  destruct (x =? v_root V); [intros (y & ? & ?)%IH; exists y; split; [by right|done]|].
  destruct (rel_path V folding ch) as [|b r] eqn:Er; [intros Hi; exists x; split; [left|done]|]. rewrite <- app_assoc.
  intros [Hi|Hi]%infix_break; [|exists x; split; [left|done]|done]. destruct (IH Hi) as (y & ? & ?). exists y. split; [by right|done].
Qed.

(** A match of a path query has the piece in its name or a folder's. *)
Lemma piece_on_path scope piece e : c_path_piece c = Some piece -> hit scope e ->
  match_case q = false /\ exists ch, FolderPaths.walk V (N.to_nat MAX_PATH_HOPS) e = Some (e :: ch) /\
    exists x, x ∈ e :: ch /\ infix piece (v_folded V (v_name_id V x)).
Proof.
  intros Hpc (Hsyn & _ & _ & _ & Hp). unfold path_ok in Hp. destruct (tests_paths c q) eqn:Et.
  - destruct Hp as (full & He & Hh). pose proof He as (ch & Hch & Hlen & Efull)%entry_path_before.
    assert (Htext : text full) by (eapply entry_path_text; [apply prefix_is_text|apply names_are_text|done]).
    unfold FolderPaths.before in Efull. rewrite <- app_assoc in Efull. subst full.
    destruct (path_piece_necessary _ _ _ _ Hpc Htext Hh) as (Hcase & Hne & Hsep & Hin). split; [done|]. exists ch. split.
    + unfold folder_chain in Hch. destruct (N.eqb_spec (v_parent V e) NIL) as [Hn|Hn].
      * injection Hch as <-. apply up_walk; [|simpl; unfold MAX_PATH_HOPS; lia]. apply up_top; [done|].
        intros ->. by rewrite vo_lost_synthetic in Hsyn.
      * apply up_walk; [|simpl; unfold len in Hlen; lia]. apply up_cons; [done|]. by eexists.
    + assert (Hname : forall x, name_bytes V folding x = v_folded V (v_name_id V x)) by (intros x; unfold name_bytes; by rewrite Hcase).
      destruct (rel_path V folding ch) as [|b r] eqn:Er; [exists e; split; [left|by rewrite <- Hname]|].
      rewrite <- app_assoc in Hin. apply infix_break in Hin as [Hi|Hi]; [|exists e; split; [left|by rewrite <- Hname]|done].
      rewrite <- Er in Hi. destruct (rel_path_piece piece ch Hne Hsep Hi) as (x & Hx & Hxi). exists x. split; [by right|by rewrite <- Hname].
  - exfalso. unfold tests_paths in Et. apply orb_false_iff in Et as [Ef Ew].
    assert (Hh : path_hit q (prefix ++ [])).
    { apply path_finders_hit. destruct (path_finders c); [|done]. destruct (path_wildcards q); [|done].
      split; by intros ? ?%not_elem_of_nil. }
    destruct (path_piece_necessary _ _ _ _ Hpc (text_app _ _ prefix_is_text text_nil) Hh) as (_ & Hne & _ & (l & r & E1)).
    destruct l, piece; done.
Qed.

Lemma cover_complete scope piece all e :
  c_path_piece c = Some piece -> (forall x, x ∈ v_live V -> infix piece (v_folded V (v_name_id V x)) -> x ∈ all) ->
  (forall x, x ∈ all -> x ∈ v_live V) -> e ∈ v_live V -> hit scope e -> e ∈ cover all all.
Proof.
  intros Hpc Hall Hlive He Hh. destruct (piece_on_path scope piece e Hpc Hh) as (_ & ch & Hw & x & Hx & Hi).
  assert (Hu : FolderPaths.up V e (e :: ch)) by (by eexists). pose proof (up_live _ _ Hu He) as Hchl.
  destruct (list_last_with (fun x => x ∈ all) (e :: ch) x Hx (Hall x (Hchl x Hx) Hi)) as (A & t & B & El & Ht & HB).
  rewrite El in Hu. destruct (up_suffix _ _ _ _ Hu) as [Hut Hat].
  assert (Hst : walk_starts_at V (N.to_nat MAX_PATH_HOPS) all t = true).
  { apply walk_starts_walk with B; [|done]. apply up_walk; [done|]. apply walk_len in Hw as [Hlen _]. rewrite El, length_app in Hlen. lia. }
  apply in_cover. exists t. split; [done|]. split; [done|]. destruct Hat as [|Hb]; [by left|]. right.
  apply sub_spec; [by apply Hlive|by apply (walk_starts_clear _ _ _ Hst)|done].
Qed.

(** *** Searching by name *)

Hypothesis no_nul : forall lit, prefilter c = Some lit \/ c_path_piece c = Some lit -> 0 ∉ lit.

Lemma chains_nodup ids : NoDup ids -> NoDup (flat_map (v_name_chain V) ids).
Proof.
  induction 1 as [|id ids Hni Hnd IH]; [constructor|]. simpl. apply NoDup_app. split_and!; [apply vo_chain| |done].
  intros e He%vo_chain Hin%list_elem_of_In. apply in_flat_map in Hin as (id' & Hid'%list_elem_of_In & Hc%list_elem_of_In).
  apply vo_chain in Hc as [_ Hc]. destruct He as [_ He]. congruence.
Qed.

Lemma hit_entries needle : needle <> [] -> 0 ∉ needle -> exists ids, for_each_prefilter_hit (v_names V) needle = Some ids /\
  NoDup (flat_map (v_name_chain V) ids) /\
  forall e, e ∈ flat_map (v_name_chain V) ids <-> e ∈ v_live V /\ infix needle (v_folded V (v_name_id V e)).
Proof.
  intros Hne Hnul. destruct (vo_hits needle Hne Hnul) as (ids & Eh & Hnd & Hin). exists ids. split_and!; [done|by apply chains_nodup|].
  intros e. rewrite list_elem_of_In, in_flat_map. split.
  - intros (id & Hid%list_elem_of_In & Hc%list_elem_of_In). apply vo_chain in Hc as [Hl <-]. split; [done|]. by apply Hin.
  - intros [Hl Hi]. exists (v_name_id V e). split; apply list_elem_of_In; [by apply Hin|by apply vo_chain].
Qed.

Lemma prefilter_ne lit : prefilter c = Some lit -> lit <> [].
Proof. rewrite prefilter_eq. intros Hl. by destruct (choose_prefilter_from q lit Hl). Qed.

Lemma path_piece_ne piece : c_path_piece c = Some piece -> piece <> [].
Proof.
  intros Hp. assert (Hp' : (if match_case q then None else path_piece q prefix) = Some piece).
  { rewrite c_prefix_eq. unfold compiled_new in Hp. destruct (choose_prefilter q). simpl in Hp. by destruct (match_case q). }
  destruct (match_case q); [done|]. unfold path_piece in Hp'. destruct (negb _ && negb _); [done|].
  revert Hp'. apply (consider_piece_keeps (fun x => x <> [])); [done|]. apply (consider_piece_keeps (fun x => x <> [])); done.
Qed.

Lemma visited_left scope sc l s s' n : visited_ok scope sc l s s' -> 1 <= n <= ITEMS_PER_CHECK ->
  visited_ok scope sc l s (with_watch {| w_budget := s_budget s'; left := n |} s').
Proof. intros ([W F Me D] & Hb & HX) Hn. split; [by split|]. split; [done|]. done. Qed.

Lemma scan_ok_left scope s n : scan_ok scope s -> 1 <= n <= ITEMS_PER_CHECK -> scan_ok scope (with_watch {| w_budget := s_budget s; left := n |} s).
Proof. intros [W F Me D] Hn. by split. Qed.

Lemma wp_walk_below_names scope piece max : c_path_piece c = Some piece -> (forall root, scope = Some root -> shallow root) ->
  exists L, NoDup L /\ (forall e, e ∈ L -> e ∈ v_live V) /\ (forall e, e ∈ v_live V -> hit scope e -> e ∈ L) /\
  forall s, scan_ok scope s -> wp (walk_below_names V q c scope piece max) (fun r s' =>
    scan_ok scope s' /\ (spent (s_budget s') = false -> spent (s_budget s) = false) /\ (r = true -> visited_ok scope scope L s s')) s.
Proof.
  intros Hpc Hsh. destruct (hit_entries piece (path_piece_ne _ Hpc)) as (ids & Eh & Hnd & Hin); [apply no_nul; by right|].
  set (tops := merge_sort N.le (flat_map (v_name_chain V) ids)).
  assert (Hperm : tops ≡ₚ flat_map (v_name_chain V) ids) by apply merge_sort_Permutation.
  assert (Htl : forall x, x ∈ tops <-> x ∈ v_live V /\ infix piece (v_folded V (v_name_id V x))) by (intros x; rewrite Hperm; apply Hin).
  assert (Hndt : NoDup tops) by (by rewrite Hperm).
  assert (Hf : Forall (fun e => e ∈ v_live V) tops) by (apply Forall_forall; intros x Hx; by apply Htl).
  exists (cover tops tops). split_and!.
  - by apply cover_nodup.
  - intros e (t & Ht & Hw & He)%in_cover. apply Htl in Ht as [Ht _]. destruct He as [->|He]; [done|].
    by apply (sub_spec t Ht (proj1 (walk_starts_clear _ _ _ Hw))) in He as [? _].
  - intros e. apply (cover_complete scope piece); [done|intros x ? ?; by apply Htl|intros x ?; by apply Htl].
  - intros s Hs. unfold walk_below_names. apply wp_bind. eapply wp_read; [exact Eh|]. destruct (max <? _); [by apply wp_ret|]. fold tops.
    apply wp_bind, wp_get, wp_bind, wp_modify, wp_bind. pose proof (sk_watch _ _ Hs) as W. unfold watch_ok in W.
    eapply wp_mono; [apply (wp_tops_loop scope); [apply scan_ok_left; [done|unfold ITEMS_PER_CHECK; lia]|done|done|lia]|].
    intros r s' (Hs' & Hb & Hv). apply wp_bind, wp_modify, wp_ret. split; [by apply scan_ok_left|]. split; [done|]. intros Hr.
    destruct (Hv Hr) as (_ & _ & HX). apply visited_left; [|done]. split; [done|]. by split.
Qed.

(** *** Searching a scope's subtree *)

Definition good_hits (h : option (list N)) : Prop := forall ids, h = Some ids ->
  exists needle, (if match_case q then None else prefilter c) = Some needle /\ for_each_prefilter_hit (v_names V) needle = Some ids.

Lemma scan_cost_spec : exists r, scan_cost V q c = Some r /\ good_hits r.2.
Proof.
  unfold scan_cost, good_hits. destruct (if match_case q then None else prefilter c) as [lit|] eqn:El; [|by eexists].
  assert (Hl : prefilter c = Some lit) by (by destruct (match_case q)).
  destruct (hit_entries lit (prefilter_ne _ Hl)) as (ids & Eh & _); [apply no_nul; by left|]. rewrite Eh. simpl. eexists. split; [done|].
  intros ? [= <-]. eauto.
Qed.

Lemma wp_subtree_loop scope cost l : forall visited cap priced hits s,
  scan_cost V q c = Some cost -> scan_ok scope s -> Forall (fun e => e ∈ v_live V) l -> good_hits hits -> good_hits cost.2 ->
  wp (subtree_loop V q c l visited cap priced hits) (fun r s' =>
    scan_ok scope s' /\ (spent (s_budget s') = false -> spent (s_budget s) = false) /\ good_hits r.2 /\
    if r.1 then visited_ok scope None l s s' /\ (spent (s_budget s') = true \/ l = [] \/ visited + len l <= N.max cap cost.1)
    else s_cands s' = []) s.
Proof.
  induction l as [|idx l IH]; intros visited cap priced hits s Hcost Hs Hl Hh Hhc; cbn [subtree_loop].
  { apply wp_ret. split; [done|]. split; [done|]. split; [done|]. simpl. split; [by apply visited_nil|by right; left]. }
  apply Forall_cons in Hl as [Hi Hl].
  assert (Hgo : forall cap' priced' hits', good_hits hits' -> N.max cap' cost.1 <= N.max cap cost.1 ->
    wp (if cap' <? visited + 1 then st_modify (with_cands []) ;;; st_ret (false, hits')
        else stop <- s_tick ;; if (stop : bool) then st_ret (true, hits')
             else visit V q c None false idx ;;; subtree_loop V q c l (visited + 1) cap' priced' hits') (fun r s' =>
      scan_ok scope s' /\ (spent (s_budget s') = false -> spent (s_budget s) = false) /\ good_hits r.2 /\
      if r.1 then visited_ok scope None (idx :: l) s s' /\ (spent (s_budget s') = true \/ idx :: l = [] \/ visited + len (idx :: l) <= N.max cap cost.1)
      else s_cands s' = []) s).
  { intros cap' priced' hits' Hh' Hle. destruct (N.ltb_spec cap' (visited + 1)) as [|Hv].
    { apply wp_bind, wp_modify, wp_ret. split; [by destruct Hs; split|]. by split_and!. }
    apply wp_bind. eapply wp_mono; [by apply (wp_tick scope None)|]. intros r s1 [V1 Hr]. pose proof V1 as (Hs1 & Hb1 & _). destruct r.
    { apply wp_ret. split; [done|]. split; [done|]. split; [done|]. simpl. split; [apply visited_stopped; auto|left; auto]. }
    apply wp_bind. eapply wp_mono; [apply (wp_visit scope None false s1); try done; by left|].
    intros [] s2 V2. pose proof V2 as (Hs2 & Hb2 & _). eapply wp_mono; [by apply IH|]. intros [d h] s3 (Hs3 & Hb3 & Hh3 & Hres). simpl in *.
    split; [done|]. split; [auto|]. split; [done|]. destruct d; [|done]. destruct Hres as [V3 Hlen]. split.
    - apply (visited_app _ _ [] (idx :: l) s s1 s3 V1). apply (visited_app _ _ [idx] l s1 s2 s3 V2 V3).
    - rewrite len_cons. destruct Hlen as [?|[->|Hlen]]; [by left|right; right; unfold len; simpl; lia|right; right; lia]. }
  apply wp_bind. destruct ((cap <? visited + 1) && negb priced).
  - rewrite Hcost. eapply wp_read; [done|]. apply Hgo; [|simpl; lia]. destruct cost as [n [ids|]]; simpl; done.
  - by apply wp_ret, Hgo.
Qed.

Lemma wp_subtree_scan scope root walk_floor s : scan_ok scope s -> root ∈ v_live V -> rooted V root ->
  wp (subtree_scan V q c root walk_floor) (fun r s' =>
    scan_ok scope s' /\ (spent (s_budget s') = false -> spent (s_budget s) = false) /\ good_hits r.2 /\
    if r.1 then visited_ok scope None (sub root) s s' else s_cands s' = []) s.
Proof.
  intros Hs Hroot Hr. destruct scan_cost_spec as (cost & Hcost & Hgood). destruct (sub_spec root Hroot Hr) as (_ & Hin & Htake).
  unfold subtree_scan. apply wp_bind. eapply wp_read; [exact Hcost|]. rewrite Htake.
  eapply wp_mono; [apply (wp_subtree_loop scope cost); try done|].
  { apply Forall_take, Forall_forall. intros e He. by apply Hin. }
  intros [d h] s' (Hs' & Hb & Hh & Hres). simpl in *. split; [done|]. split; [done|]. split; [done|]. destruct d; [|done].
  destruct Hres as [Hv [Hsp|Hlen]]; [eapply visited_wider; [exact Hv|apply sublist_take|done]|].
  rewrite take_ge in Hv; [done|]. destruct Hlen as [Hnil|Hlen].
  - apply (f_equal length) in Hnil. rewrite length_take in Hnil. simpl in Hnil. lia.
  - unfold len in Hlen. rewrite length_take in Hlen. lia.
Qed.

(** *** The whole scan *)

Definition found_all (scope : option N) (cands : list N) (b' : Budget) : Prop :=
  NoDup cands /\ (forall e, e ∈ cands -> e ∈ v_live V /\ hit scope e) /\
  (spent b' = false -> forall e, e ∈ v_live V -> hit scope e -> e ∈ cands).

Lemma visited_found scope L s s' :
  visited_ok scope scope L s s' -> s_cands s = [] -> NoDup L -> (forall e, e ∈ L -> e ∈ v_live V) ->
  (forall e, e ∈ v_live V -> hit scope e -> e ∈ L) -> found_all scope (s_cands s') (s_budget s').
Proof.
  intros (_ & _ & X & -> & Hsub & Hh & Hall) -> Hnd Hl HL. simpl. split_and!.
  - by eapply sublist_NoDup.
  - intros e He. split; [|by apply Hh]. apply Hl. by eapply elem_of_sublist.
  - intros Hsp e He Hhe. apply Hall; auto.
Qed.

Hypothesis one_drive : one_colon prefix.
Hypothesis names_colon : forall x, 0x3A ∉ name_bytes V folding x.

(** The scopes a query may have: a folder whose ancestors end, and nothing too
    deep below it for the walk up. *)
Definition scope_valid (scope : option N) : Prop :=
  forall root, scope = Some root -> root ∈ v_live V /\ rooted V root /\ shallow root.

Lemma hit_in_scope root e : rooted V root -> e ∈ v_live V -> hit (Some root) e <-> hit None e /\ below V root e.
Proof.
  intros Hr He. unfold hit, scope_ok. split; [naive_solver|]. intros ((? & ? & ? & _ & ?) & Hb). split_and!; try done.
  intros ->. by apply rooted_not_below in Hb.
Qed.

Lemma rel_path_colon ch : 0x3A ∉ rel_path V folding ch.
Proof.
  induction ch as [|x ch IH]; simpl; [apply not_elem_of_nil|]. destruct (x =? v_root V); [done|].
  rewrite elem_of_app. intros [Hi|Hi]; [|by apply (names_colon x)]. destruct (rel_path V folding ch); [by apply not_elem_of_nil in Hi|].
  apply elem_of_app in Hi as [?|?%list_elem_of_singleton]; done.
Qed.

(** A volume turned away has no match. *)
Lemma admitted scope e : hit scope e -> volume_admits c = true.
Proof.
  intros (_ & _ & _ & _ & Hp). unfold path_ok in Hp. destruct (tests_paths c q) eqn:Et.
  - destruct Hp as (full & He & Hh). assert (Htext : text full) by (eapply entry_path_text; [apply prefix_is_text|apply names_are_text|done]).
    apply entry_path_before in He as (ch & _ & _ & ->). unfold FolderPaths.before in *. rewrite <- app_assoc in *.
    eapply volume_admits_sound; [done| |done|done]. rewrite elem_of_app. intros [Hi|Hi]; [|by apply (names_colon e)].
    pose proof (rel_path_colon ch) as Hc. destruct (rel_path V folding ch); [by apply not_elem_of_nil in Hi|].
    apply elem_of_app in Hi as [?|?%list_elem_of_singleton]; done.
  - unfold tests_paths in Et. apply orb_false_iff in Et as [Ef Ew].
    assert (Hh : path_hit q (prefix ++ [])).
    { apply path_finders_hit. destruct (path_finders c); [|done]. destruct (path_wildcards q); [|done].
      split; by intros ? ?%not_elem_of_nil. }
    eapply volume_admits_sound; [done|apply not_elem_of_nil|apply (text_app _ _ prefix_is_text text_nil)|done].
Qed.

Lemma scan_start_ok scope b : scan_ok scope (scan_start V q c b).
Proof.
  split; simpl.
  - unfold watch_ok, ITEMS_PER_CHECK. simpl. lia.
  - destruct (tests_paths c q) eqn:Et; [|done]. split; [done|]. split; [|done].
    apply (folder_paths_new_ok V prefix folding FOLDER_PATH_BYTES_MAX); [apply vo_root_top|apply vo_root_real|apply bytes_bound].
  - done.
  - done.
Qed.

Lemma wp_slow_scan scope s : scan_ok scope s -> (forall root, scope = Some root -> shallow root) ->
  wp (slow_scan V q c scope) (fun _ s' => (spent (s_budget s') = false -> spent (s_budget s) = false) /\ found_all scope (s_cands s') (s_budget s')) s.
Proof.
  intros Hs Hsh. unfold slow_scan. apply wp_bind, wp_modify.
  eapply wp_mono; [apply (wp_visit_all scope scope); [by destruct Hs; split|by apply Forall_forall|by right|done|done]|].
  intros [] s' V1. split; [by destruct V1 as (_ & ? & _)|]. eapply visited_found; [exact V1|done|apply vo_live|done|done].
Qed.

Lemma wp_by_name scope lit ids s : scan_ok scope s -> (forall root, scope = Some root -> shallow root) -> s_cands s = [] ->
  match_case q = false -> prefilter c = Some lit -> for_each_prefilter_hit (v_names V) lit = Some ids ->
  wp (on_hits V q c scope ids) (fun _ s' => (spent (s_budget s') = false -> spent (s_budget s) = false) /\ found_all scope (s_cands s') (s_budget s')) s.
Proof.
  intros Hs Hsh Hc Hcase Hl Eh. destruct (hit_entries lit (prefilter_ne _ Hl)) as (ids' & Eh' & Hnd & Hin); [apply no_nul; by left|].
  rewrite Eh in Eh'. injection Eh' as <-. eapply wp_mono; [apply (wp_on_hits scope ids); [done|done|]|].
  - intros Hd e [_ Hi]%Hin. unfold name_ok. by eapply prefilter_decides.
  - intros [] s' V1. split; [by destruct V1 as (_ & ? & _)|]. eapply visited_found; [exact V1|done|done|intros e He; by apply Hin|].
    intros e He (_ & _ & Hn & _). apply Hin. split; [done|]. unfold name_ok in Hn. rewrite vo_folded in *.
    by eapply prefilter_necessary; [done|apply vo_raw|apply wild_ok|..].
Qed.

Lemma wp_scan_body scope walk_floor s : scope_valid scope -> scan_ok scope s -> s_cands s = [] ->
  wp (scan_body V q c scope walk_floor) (fun _ s' => (spent (s_budget s') = false -> spent (s_budget s) = false) /\ found_all scope (s_cands s') (s_budget s')) s.
Proof.
  intros Hv Hs Hc. assert (Hsh : forall root, scope = Some root -> shallow root) by (intros root ->; by apply Hv).
  unfold scan_body. apply wp_bind.
  eapply (wp_mono _ (fun (r : bool * option (list N)) (s' : Scan) => scan_ok scope s' /\ (spent (s_budget s') = false -> spent (s_budget s) = false) /\ good_hits r.2 /\
    if (r.1 : bool) then found_all scope (s_cands s') (s_budget s') else s_cands s' = [])).
  { destruct scope as [root|]; [|apply wp_ret; by split_and!]. destruct (Hv root eq_refl) as (Hl & Hr & _).
    eapply wp_mono; [by apply (wp_subtree_scan (Some root))|]. intros [d h] s' (Hs' & Hb & Hh & Hres). split; [done|]. split; [done|].
    split; [done|]. destruct d; [|done]. destruct Hres as (_ & _ & X & -> & Hsub & HX & Hall). rewrite Hc. simpl in *.
    destruct (sub_spec root Hl Hr) as (Hnd & Hin & _). split_and!.
    - by eapply sublist_NoDup.
    - intros e He. pose proof (elem_of_sublist _ _ _ He Hsub) as Hes. apply Hin in Hes as [Hle Hbe]. split; [done|].
      apply hit_in_scope; [done|done|]. auto.
    - intros Hsp e He Hh'. apply hit_in_scope in Hh' as [Hn Hbe]; [|done|done]. apply Hall; [done|by apply Hin|done]. }
  intros [d h] s1 (Hs1 & Hb1 & Hh & Hres). simpl in *. destruct d; [by apply wp_ret|].
  assert (Hout : forall {A} (m : ST Scan A),
    wp m (fun _ s' => (spent (s_budget s') = false -> spent (s_budget s1) = false) /\ found_all scope (s_cands s') (s_budget s')) s1 ->
    wp m (fun _ s' => (spent (s_budget s') = false -> spent (s_budget s) = false) /\ found_all scope (s_cands s') (s_budget s')) s1).
  { intros A m Hm. eapply wp_mono; [exact Hm|]. intros a s' [? ?]. split; auto. }
  destruct (if match_case q then None else prefilter c) as [lit|] eqn:El.
  - assert (Hl : match_case q = false /\ prefilter c = Some lit) by (by destruct (match_case q)). destruct Hl as [Hcase Hl].
    destruct h as [ids|].
    + apply Hout. destruct (Hh ids eq_refl) as (needle & En & Eh). rewrite En in El. injection El as ->. by eapply wp_by_name.
    + destruct (hit_entries lit (prefilter_ne _ Hl)) as (ids & Eh & _); [apply no_nul; by left|].
      apply Hout, wp_bind. eapply wp_read; [exact Eh|]. by eapply wp_by_name.
  - case_eq (c_path_piece c); [intros piece Ep|intros Ep]; apply wp_bind.
    + destruct (wp_walk_below_names scope piece (v_len V / PATH_WALK_SHARE) Ep Hsh) as (L & Hnd & HLl & HLh & Hwp).
      eapply wp_mono; [by apply Hwp|]. intros [] s2 (Hs2 & Hb2 & Hvis).
      * apply wp_ret. split; [auto|]. by eapply visited_found; [apply Hvis|..].
      * eapply wp_mono; [by apply wp_slow_scan|]. intros a s3 [? ?]. split; auto.
    + apply wp_ret. apply Hout. by apply wp_slow_scan.
Qed.

Lemma scan_with_spec scope walk_floor b : scope_valid scope ->
  exists cands b', scan_with V q c scope walk_floor b = Some (cands, b') /\ (spent b' = false -> spent b = false) /\ found_all scope cands b'.
Proof.
  intros Hv. unfold scan_with. destruct (volume_admits c) eqn:Ea.
  - pose proof (wp_scan_body scope walk_floor (scan_start V q c b) Hv (scan_start_ok _ _) eq_refl) as Hwp.
    apply wp_run in Hwp as ([] & s' & Er & Hb & Hf). rewrite Er. simpl. by exists (s_cands s'), (s_budget s').
  - exists [], b. split; [done|]. split; [done|]. split; [constructor|]. split; [by intros e ?%not_elem_of_nil|].
    intros _ e _ Hh. apply admitted in Hh. congruence.
Qed.
End scanning.

(** ** A scope too deep *)

(** A chain of folders: the root is 0, each folder holds the next. *)
Definition chain_view : IndexView := {|
  v_root := 0; v_lost_found := NIL; v_parent := fun e => if e =? 0 then NIL else e - 1; v_is_dir := fun _ => true;
  v_size := fun _ => None; v_mtime := fun _ => None; v_frn := id; v_name_id := fun _ => 0; v_synthetic := fun e => e =? 0;
  v_names := empty_store; FolderPaths.v_raw := fun _ => []; FolderPaths.v_folded := fun _ => []; v_rank_key := fun _ => 0;
  FolderPaths.v_refcount := fun _ => 0; v_name_chain := fun _ => []; v_len := 0; v_live := []; v_subtree := fun _ _ => [];
  v_may_have_unpresentable := false; v_path_of := fun _ => None |}.

Lemma chain_parent e : 0 < e < NIL -> v_parent chain_view e = e - 1 /\ v_parent chain_view e <> NIL.
Proof. intros He. simpl. rewrite (proj2 (N.eqb_neq e 0)) by lia. lia. Qed.

(** A climb that does not reach the scope passes all it may. *)
Lemma chain_climb_false root fuel : forall passed cur,
  passed + N.of_nat fuel = 4096 -> root + N.of_nat fuel < cur -> cur < NIL ->
  exists chain, scope_climb chain_view fuel root ∅ passed cur = Some (false, chain) /\
    forall e, cur - N.of_nat fuel <= e <= cur -> e ∈ chain.
Proof.
  induction fuel as [|fuel IH]; intros passed cur Hp Hc Hn; cbn [scope_climb];
    rewrite (proj2 (N.eqb_neq cur root)), lookup_empty by lia; destruct (chain_parent cur) as [Ep EpN]; try lia;
    rewrite (proj2 (N.eqb_neq _ _) EpN).
  - rewrite (proj2 (N.ltb_lt _ _)) by lia. exists [cur]. split; [done|]. intros e He. apply list_elem_of_singleton. lia.
  - rewrite (proj2 (N.ltb_ge _ _)) by lia. rewrite Ep. destruct (IH (passed + 1) (cur - 1)) as (chain & -> & Hin); [lia..|].
    exists (cur :: chain). split; [done|]. intros e He. apply elem_of_cons. destruct (N.eq_dec e cur); [by left|right]. apply Hin. lia.
Qed.

Lemma chain_climb_true root fuel : forall passed cur,
  passed + N.of_nat fuel = 4096 -> root <= cur <= root + N.of_nat fuel -> cur < NIL ->
  exists chain, scope_climb chain_view fuel root ∅ passed cur = Some (true, chain).
Proof.
  induction fuel as [|fuel IH]; intros passed cur Hp Hc Hn; cbn [scope_climb]; (destruct (N.eqb_spec cur root) as [->|Hne]; [by eexists|]); [lia|].
  rewrite lookup_empty. destruct (chain_parent cur) as [Ep EpN]; [lia|]. rewrite (proj2 (N.eqb_neq _ _) EpN), (proj2 (N.ltb_ge _ _)) by lia.
  rewrite Ep. destruct (IH (passed + 1) (cur - 1)) as (chain & ->); [lia..|]. by eexists.
Qed.

Lemma lookup_inserts (b : bool) l (m : gmap N bool) e : e ∈ l -> fold_left (fun m x => <[x := b]> m) l m !! e = Some b.
Proof.
  assert (Hkeep : forall (k : list N) (m : gmap N bool), m !! e = Some b -> fold_left (fun m x => <[x := b]> m) k m !! e = Some b).
  { induction k as [|x k IH]; intros m' Hm; simpl; [done|]. apply IH. destruct (decide (x = e)) as [->|]; [by rewrite lookup_insert_eq|by rewrite lookup_insert_ne]. }
  revert m. induction l as [|x l IH]; intros m Hin; [by apply not_elem_of_nil in Hin|]. simpl. apply elem_of_cons in Hin as [->|Hin]; [|by apply IH].
  apply Hkeep. by rewrite lookup_insert_eq.
Qed.

Lemma in_scope_run V node root s v chain :
  node <> root -> scope_climb V 4096 root (s_memo s) 0 node = Some (v, chain) ->
  in_scope V node root s = Some (v, with_memo (fold_left (fun m e => <[e := v]> m) chain (s_memo s)) s).
Proof.
  intros Hne Hc. unfold in_scope. rewrite (proj2 (N.eqb_neq _ _) Hne). unfold st_bind, st_read, st_modify, st_ret. by rewrite Hc.
Qed.

(** The memo of [in_scope] keeps the verdict of a climb that was cut short: asked
    first, entry 1000 is in the scope of folder 1; asked after entry 5000, too
    deep for the climb, it is not. *)
Theorem in_scope_order_matters s :
  s_memo s = ∅ ->
  (exists s', in_scope chain_view 1000 1 s = Some (true, s')) /\
  (exists s1 s2, in_scope chain_view 5000 1 s = Some (false, s1) /\ in_scope chain_view 1000 1 s1 = Some (false, s2)).
Proof.
  intros Hm. split.
  - destruct (chain_climb_true 1 4096 0 1000) as (chain & Hc); [lia|lia|unfold NIL, u32_max; lia|]. rewrite <- Hm in Hc.
    eexists. apply in_scope_run; [done|exact Hc].
  - destruct (chain_climb_false 1 4096 0 5000) as (chain & Hc & Hin); [lia|lia|unfold NIL, u32_max; lia|]. rewrite <- Hm in Hc.
    eexists _, _. split; [apply in_scope_run; [done|exact Hc]|]. apply (in_scope_run _ _ _ _ false []); [done|].
    assert (Hk : fold_left (fun m e => <[e := false]> m) chain (s_memo s) !! 1000 = Some false) by (apply lookup_inserts, Hin; lia).
    generalize 4096%nat. intros [|n]; cbn [scope_climb with_memo s_memo]; rewrite Hk; reflexivity.
Qed.
