(* ===== verification/FolderRank.v ===== *)
(** Folder ranks for a path sort: [FolderRanks] of
    [crates/goz-core/src/query/folder_rank.rs].

    Each folder's position in the order of folded full paths is found by walking
    the folder tree in name order, without building a path.  A folder is ranked
    at the key of its name followed by an end below every byte, and what is
    below it comes at its name followed by a backslash, so a sibling such as
    [a b] is ranked between [a] and [a\x].

    The order [sort_unstable_by] leaves equal elements in is unspecified: it is
    an interface with its documented behaviour. *)

From stdpp Require Import gmap.
From stdpp Require Import base option list sets sorting.
From Stdlib Require Import NArith ZArith Lia.
From S2P Require Import Prelude Types Wtf8 Fold Text Budget Wildcard Query NameStore NameOrder Prefilter Compiled Volume FolderPaths TopK Engine.

Definition UNPRESENTABLE : N := u32_max.
Definition TOP : N := u32_max.
Definition ROOT : N := 0.

Record FolderRanks := { node_of : gmap N N; fr_parent : list N; fr_name : list N; fr_last : N * N }.

Definition with_fr_parent p s := {| node_of := node_of s; fr_parent := p; fr_name := fr_name s; fr_last := fr_last s |}.
Definition with_fr_last l s := {| node_of := node_of s; fr_parent := fr_parent s; fr_name := fr_name s; fr_last := l |}.

(** The groups are ranges of [members]. *)
Inductive Step :=
| SFolder (start stop : N)
| SBelow (start stop depth : N).

(** [sort_unstable_by]. *)
Class WeakCmp {A} (cmp : A -> A -> comparison) : Prop := {
  wc_opp a b : cmp b a = CompOpp (cmp a b);
  wc_trans a b c : cmp a b <> Gt -> cmp b c <> Gt -> cmp a c <> Gt
}.
Class SortUnstable := sort_unstable : forall {A}, (A -> A -> comparison) -> list A -> list A.
Class SortUnstableOk (Srt : SortUnstable) := {
  su_perm {A} (cmp : A -> A -> comparison) l : WeakCmp cmp -> sort_unstable cmp l ≡ₚ l;
  su_sorted {A} (cmp : A -> A -> comparison) l : WeakCmp cmp -> StronglySorted (fun a b => cmp a b <> Gt) (sort_unstable cmp l)
}.

Definition extends_below_separator (prefix name : list N) : bool :=
  (len prefix <? len name) && bool_decide (prefix `prefix_of` name) &&
  match getN (len prefix) name with Some b => b <? 0x5C | None => false end.

(** ** Gathering the folders *)

Section nodes.
Context (V : IndexView).

Definition push (dir : N) : ST FolderRanks N := fun s =>
  let n := as_u32 (len (fr_parent s)) in
  Some (n, {| node_of := <[dir := n]> (node_of s); fr_parent := fr_parent s ++ [TOP];
              fr_name := fr_name s ++ [v_name_id V dir]; fr_last := fr_last s |}).

Definition set_parent (child n : N) : ST FolderRanks unit :=
  st_update (fun s => p ← setN child n (fr_parent s); Some (with_fr_parent p s)).

(** The climb of [push_chain]. *)
Fixpoint chain_loop (fuel : nat) (child cur : N) : ST FolderRanks unit :=
  match fuel with
  | O => st_fail
  | S fuel =>
      let up := v_parent V cur in
      if up =? NIL then st_ret tt
      else
        known <- st_get (fun s => node_of s !! up) ;;
        match known with
        | Some n => set_parent child n
        | None => n <- push up ;; set_parent child n ;;; chain_loop fuel n up
        end
  end.

Definition push_chain (dir : N) : ST FolderRanks N :=
  first <- push dir ;; chain_loop (S (length (v_live V))) first dir ;;; st_ret first.

Definition node (dir : N) : ST FolderRanks N :=
  last <- st_get fr_last ;;
  if last.1 =? dir then st_ret last.2
  else
    known <- st_get (fun s => node_of s !! dir) ;;
    n <- match known with Some n => st_ret n | None => push_chain dir end ;;
    st_modify (with_fr_last (dir, n)) ;;;
    st_ret n.

(** [FolderRanks::new]. *)
Definition folder_ranks_new : option FolderRanks :=
  '(_, s) ← push (v_root V) {| node_of := ∅; fr_parent := []; fr_name := []; fr_last := (NIL, TOP) |}; Some s.
End nodes.

(** ** Each node's children, stored together *)

Fixpoint count_children (parents first : list N) : option (list N) :=
  match parents with
  | [] => Some first
  | p :: parents =>
      first ← (if p =? TOP then Some first else c ← getN (p + 1) first; setN (p + 1) (c + 1) first);
      count_children parents first
  end.

(** [first[i] += first[i - 1]], from the left. *)
Fixpoint sums (acc : N) (l : list N) : list N :=
  match l with [] => [] | x :: l => (acc + x) :: sums (acc + x) l end.

Fixpoint fill_children (child : N) (parents fill children : list N) : option (list N) :=
  match parents with
  | [] => Some children
  | p :: parents =>
      if p =? TOP then fill_children (child + 1) parents fill children
      else
        at_ ← getN p fill; children ← setN at_ child children; fill ← setN p (at_ + 1) fill;
        fill_children (child + 1) parents fill children
  end.

(** ** The walk *)

Section walk.
Context {Srt : SortUnstable}.
Context (key : N -> N) (folded : N -> list N) (children_of : N -> option (list N)).

Definition cmp_sibling (a b : N) : comparison :=
  match N.compare (key a) (key b) with Eq => bytes_cmp (folded a) (folded b) | c => c end.

Definition same_name (a b : N) : bool := (key a =? key b) && bool_decide (folded a = folded b).

(** How many members after [m] are of its group. *)
Fixpoint run_length (m : N) (rest : list N) : N :=
  match rest with x :: rest => if same_name x m then 1 + run_length m rest else 0 | [] => 0 end.

Definition name_at (members : list N) (i : N) : list N := default [] (folded <$> getN i members).

(** The open groups whose backslash key comes before [name], and those that
    stay open; innermost first. *)
Fixpoint close (members : list N) (name : list N) (depth : N) (open : list (N * N)) : list Step * list (N * N) :=
  match open with
  | [] => ([], [])
  | (s, e) :: rest =>
      if extends_below_separator (name_at members s) name then ([], open)
      else let '(closed, open) := close members name depth rest in (SBelow s e (depth + 1) :: closed, open)
  end.

(** The loop over the sibling groups from [i] on: the level's steps in order. *)
Fixpoint group_loop (fuel : nat) (members : list N) (depth i : N) (level : list Step) (open : list (N * N)) : option (list Step) :=
  if i <? len members then
    match fuel with
    | O => None
    | S fuel =>
        m ← getN i members;
        let j := i + 1 + run_length m (drop (N.to_nat (i + 1)) members) in
        let '(closed, open) := close members (folded m) depth open in
        group_loop fuel members depth j (level ++ closed ++ [SFolder i j]) ((i, j) :: open)
    end
  else Some (level ++ map (fun '(s, e) => SBelow s e (depth + 1)) open).

Fixpoint set_ranks (group : list N) (r : N) (rank : list N) : option (list N) :=
  match group with
  | [] => Some rank
  | m :: group => rank ← setN m r rank; set_ranks group r rank
  end.

(** [members[start..end]]. *)
Definition group (members : list N) (start stop : N) : list N := slice start (stop - start) members.

(** The steps with the next one first. *)
Fixpoint walk_loop (fuel : nat) (steps : list Step) (members rank : list N) (next_rank : N) : option (list N) :=
  match steps with
  | [] => Some rank
  | step :: steps =>
      match fuel with
      | O => None
      | S fuel =>
          match step with
          | SFolder start stop =>
              rank ← set_ranks (group members start stop) next_rank rank;
              walk_loop fuel steps members rank (next_rank + 1)
          | SBelow start stop depth =>
              if MAX_PATH_HOPS <=? depth then walk_loop fuel steps members rank next_rank
              else
                kids ← mapM children_of (group members start stop);
                let from := len members in
                let members := members ++ sort_unstable cmp_sibling (concat kids) in
                level ← group_loop (length (concat kids)) members depth from [] [];
                walk_loop fuel (level ++ steps) members rank next_rank
          end
      end
  end.
End walk.

Definition ranks {Srt : SortUnstable} (V : IndexView) (s : FolderRanks) : option (list N) :=
  let n := len (fr_parent s) in
  first ← count_children (fr_parent s) (replicate (S (length (fr_parent s))) 0);
  let first := sums 0 first in
  total ← getN n first;
  children ← fill_children 0 (fr_parent s) first (replicate (N.to_nat total) 0);
  let name m := default NIL (getN m (fr_name s)) in
  let children_of m := a ← getN m first; b ← getN (m + 1) first; Some (slice a (b - a) children) in
  rank ← setN ROOT 0 (replicate (length (fr_parent s)) UNPRESENTABLE);
  walk_loop (fun m => v_rank_key V (name m)) (fun m => v_folded V (name m)) children_of
    (S (2 * length (fr_parent s))) [SBelow 0 1 1] [ROOT] rank 1.

(** ** Keys

    A path's bytes are shifted up by one and ended by 0; what is below a folder
    has its path and a shifted backslash.  Two keys differ at some position, and
    the first one decides. *)

Definition klt (a b : list N) : Prop := exists c x y a' b', a = c ++ x :: a' /\ b = c ++ y :: b' /\ x < y.

Definition up1 (p : list N) : list N := N.succ <$> p.
Definition fkey (p : list N) : list N := up1 p ++ [0].
Definition bkey (p : list N) : list N := up1 p ++ [N.succ 0x5C].

Lemma klt_app a b u v : klt a b -> klt (a ++ u) (b ++ v).
Proof. intros (c & x & y & a' & b' & -> & -> & Hlt). exists c, x, y, (a' ++ u), (b' ++ v). by rewrite <- !app_assoc. Qed.

Lemma klt_prefix c a b : klt a b -> klt (c ++ a) (c ++ b).
Proof. intros (d & x & y & a' & b' & -> & -> & Hlt). exists (c ++ d), x, y, a', b'. by rewrite <- !app_assoc. Qed.

Lemma klt_cons x a b : klt a b -> klt (x :: a) (x :: b).
Proof. apply (klt_prefix [x]). Qed.

Lemma klt_irrefl a : ~ klt a a.
Proof. intros (c & x & y & a' & b' & -> & E & Hlt). apply app_inv_head in E. simplify_eq. lia. Qed.

Lemma klt_inv x y a b : klt (x :: a) (y :: b) -> x < y \/ x = y /\ klt a b.
Proof.
  intros ([|z c] & x' & y' & a' & b' & Ea & Eb & Hlt); simpl in *; simplify_eq; [by left|]. right. split; [done|]. by exists c, x', y', a', b'.
Qed.

Lemma klt_trans a b c : klt a b -> klt b c -> klt a c.
Proof.
  revert b c. induction a as [|x a IH]; intros b c Hab Hbc.
  { destruct Hab as ([|??] & ? & ? & ? & ? & ? & _); done. }
  destruct b as [|y b]; [destruct Hab as ([|??] & ? & ? & ? & ? & _ & ? & _); done|].
  destruct c as [|z c]; [destruct Hbc as ([|??] & ? & ? & ? & ? & _ & ? & _); done|].
  assert (Hn : forall u v (l k : list N), u < v -> klt (u :: l) (v :: k)) by (intros u v l k ?; by exists [], u, v, l, k).
  apply klt_inv in Hab as [?|[-> Hab]]; apply klt_inv in Hbc as [?|[-> Hbc]]; [apply Hn; lia|by apply Hn|by apply Hn|].
  apply klt_cons. by eapply IH.
Qed.
#[export] Instance klt_Transitive : Transitive klt := klt_trans.

(** The end is below everything: what is below a key that ends is below what
    goes on instead. *)
Lemma klt_end a b u : klt a (b ++ [0]) -> klt a (b ++ u).
Proof.
  revert a. induction b as [|y b IH]; intros a Hk; simpl in *.
  - destruct Hk as ([|z c] & x & y & a' & b' & -> & E & Hlt); simpl in *; simplify_eq; [lia|]. by destruct c.
  - destruct a as [|x a]; [destruct Hk as ([|??] & ? & ? & ? & ? & ? & _); done|].
    apply klt_inv in Hk as [?|[-> Hk]]; [by exists [], x, y, a, (b ++ u)|apply klt_cons; by apply IH].
Qed.

Lemma fkey_lt p q : bytes_cmp p q = Lt <-> klt (fkey p) (fkey q).
Proof.
  unfold fkey. revert q. induction p as [|x p IH]; intros [|y q]; simpl.
  - split; [done|]. intros Hk. by apply klt_irrefl in Hk.
  - split; [|done]. intros _. exists [], 0, (N.succ y), [], (up1 q ++ [0]). split_and!; [done|done|lia].
  - split; [done|]. intros [?|[? _]]%klt_inv; lia.
  - destruct (N.compare_spec x y) as [->|Hlt|Hgt].
    + rewrite IH. split; [apply klt_cons|]. intros [?|[_ ?]]%klt_inv; [lia|done].
    + split; [|done]. intros _. eexists [], _, _, _, _. split_and!; [done|done|lia].
    + split; [done|]. intros [?|[? _]]%klt_inv; lia.
Qed.

(** A later sibling comes before what is below an earlier one exactly when it
    extends its name with a byte below the backslash. *)
Lemma getN_middle {A} (l k : list A) x : getN (len l) (l ++ x :: k) = Some x.
Proof. unfold getN, len. by rewrite Nat2N.id, list_lookup_middle. Qed.

Lemma extends_spec p q : extends_below_separator p q = true <-> exists b r, q = p ++ b :: r /\ b < 0x5C.
Proof.
  unfold extends_below_separator. rewrite !andb_true_iff, bool_decide_eq_true, N.ltb_lt. split.
  - intros [[Hl [r ->]] Hb]. destruct r as [|b r]; [rewrite app_nil_r in Hl; lia|]. rewrite getN_middle in Hb. exists b, r. split; [done|by apply N.ltb_lt].
  - intros (b & r & -> & Hb). split_and!; [rewrite len_app, len_cons; lia|by exists (b :: r)|]. rewrite getN_middle. by apply N.ltb_lt.
Qed.

Lemma sibling_open p q : extends_below_separator p q = true -> klt (fkey q) (bkey p) /\ klt (bkey q) (bkey p).
Proof.
  rewrite extends_spec. intros (b & r & -> & Hb). unfold fkey, bkey, up1. rewrite fmap_app, fmap_cons, <- !app_assoc. simpl.
  split; apply klt_prefix; eexists [], _, _, _, _; (split_and!; [done|done|lia]).
Qed.

Lemma sibling_closed p q : bytes_cmp p q = Lt -> 0x5C ∉ q -> extends_below_separator p q = false -> klt (bkey p) (fkey q).
Proof.
  intros Hlt Hq Hext. assert (Hno : ~ exists b r, q = p ++ b :: r /\ b < 0x5C) by (rewrite <- extends_spec; congruence). clear Hext.
  unfold bkey, fkey. revert q Hlt Hq Hno. induction p as [|x p IH]; intros [|y q] Hlt Hq Hno; simpl in *; try done.
  - exists [], (N.succ 0x5C), (N.succ y), [], (up1 q ++ [0]). split_and!; [done|done|].
    assert (~ y < 0x5C) by (intros ?; apply Hno; by exists y, q). assert (y <> 0x5C) by (intros ->; apply Hq; left). lia.
  - destruct (N.compare_spec x y) as [->|Hxy|Hxy]; [|by eexists [], _, _, _, _; split_and!; [done|done|lia]|done].
    apply klt_cons, IH; [done|by intros ?; apply Hq; right|]. intros (b & r & -> & Hb). apply Hno. by exists b, r.
Qed.

Lemma sibling_self p : klt (fkey p) (bkey p).
Proof. unfold fkey, bkey. apply klt_prefix. eexists [], _, _, _, _. split_and!; [done|done|lia]. Qed.

(** ** One level: the groups of siblings *)

Lemma bytes_le_lt_dec a b : bytes_cmp a b <> Gt -> a = b \/ bytes_cmp a b = Lt.
Proof. destruct (bytes_cmp a b) eqn:E; [left; by apply bytes_cmp_eq|by right|done]. Qed.

#[export] Instance cmp_sibling_weak key folded : WeakCmp (cmp_sibling key folded).
Proof.
  split.
  - intros a b. unfold cmp_sibling. rewrite (N.compare_antisym (key a) (key b)).
    destruct (N.compare (key a) (key b)); simpl; [apply bytes_cmp_antisym|done|done].
  - intros a b c. unfold cmp_sibling. destruct (N.compare_spec (key a) (key b)) as [E1|?|?];
      destruct (N.compare_spec (key b) (key c)) as [E2|?|?]; destruct (N.compare_spec (key a) (key c)) as [E3|?|?]; try done; try lia.
    intros [-> |H1]%bytes_le_lt_dec H2; [done|]. destruct (bytes_le_lt_dec _ _ H2) as [<- |H3]; [by rewrite H1|].
    by rewrite (bytes_cmp_lt_trans _ _ _ H1 H3).
Qed.

Definition belows (depth : N) (open : list (N * N)) : list Step := map (fun '(s, e) => SBelow s e (depth + 1)) open.

(** How many steps give a rank. *)
Definition folders (steps : list Step) : N := foldr (fun s n => match s with SFolder _ _ => n + 1 | SBelow _ _ _ => n end) 0 steps.

Lemma folders_app a b : folders (a ++ b) = folders a + folders b.
Proof. unfold folders. induction a as [|[] a IH]; simpl; [done|lia|done]. Qed.

Lemma folders_belows depth open : folders (belows depth open) = 0.
Proof. by induction open as [|[]]. Qed.

Section level.
Context (key : N -> N) (folded : N -> list N) (members : list N) (from depth : N).
Notation nameof := (name_at folded members).

(** The siblings, from [from] on, are sorted by name, and names hold no
    backslash. *)
Hypothesis sib_sorted : forall i j, from <= i -> i <= j -> j < len members -> bytes_cmp (nameof i) (nameof j) <> Gt.
Hypothesis sib_key : forall x y, x ∈ drop (N.to_nat from) members -> y ∈ drop (N.to_nat from) members -> folded x = folded y -> key x = key y.
Hypothesis sib_plain : forall i, from <= i -> i < len members -> 0x5C ∉ nameof i.

Definition lkey (s : Step) : list N :=
  match s with SFolder i _ => fkey (nameof i) | SBelow i _ _ => bkey (nameof i) end.

(** The range of a step is a group. *)
Definition step_in (i : N) (s : Step) : Prop :=
  let '(st, en) := match s with SFolder a b => (a, b) | SBelow a b d => (a, b) end in
  from <= st /\ st < en /\ en <= i /\ (forall k, st <= k -> k < en -> nameof k = nameof st) /\
  match s with SBelow _ _ d => d = depth + 1 | _ => True end.

Record level_ok (i : N) (level : list Step) (open : list (N * N)) : Prop := {
  lv_sorted : StronglySorted klt (lkey <$> (level ++ belows depth open));
  lv_before x k : x ∈ level -> i <= k -> k < len members -> klt (lkey x) (fkey (nameof k));
  lv_open s e k : (s, e) ∈ open -> i <= k -> k < len members -> bytes_cmp (nameof s) (nameof k) = Lt;
  lv_in : Forall (step_in i) (level ++ belows depth open);
  lv_all k : from <= k -> k < i -> exists st en, st <= k /\ k < en /\ SFolder st en ∈ level /\ SBelow st en (depth + 1) ∈ level ++ belows depth open;
  lv_len : len (level ++ belows depth open) <= 2 * (i - from);
  lv_folders : folders level <= i - from
}.

Lemma close_spec name open closed open' :
  close folded members name depth open = (closed, open') ->
  belows depth open = closed ++ belows depth open' /\
  Forall (fun x => exists s e, x = SBelow s e (depth + 1) /\ (s, e) ∈ open /\ extends_below_separator (nameof s) name = false) closed /\
  match open' with [] => True | (s, e) :: _ => extends_below_separator (nameof s) name = true end.
Proof.
  revert closed open'. induction open as [|[s e] open IH]; intros closed open' Hc; simpl in Hc; [by simplify_eq|].
  destruct (extends_below_separator (nameof s) name) eqn:Eext; [by simplify_eq|].
  destruct (close folded members name depth open) as [cl op]. simplify_eq. destruct (IH _ _ eq_refl) as (E & Hcl & Hop). simpl.
  split_and!; [by rewrite E| |done]. constructor; [exists s, e; split_and!; [done|left|done]|].
  eapply Forall_impl; [exact Hcl|]. intros x (s' & e' & ? & ? & ?). exists s', e'. split_and!; [done|by right|done].
Qed.

(** The members after [i] that are of its group. *)
Lemma run_length_spec m rest n :
  (forall x, x ∈ rest -> folded x = folded m -> key x = key m) -> run_length key folded m rest = n ->
  n <= len rest /\ (forall k x, k < n -> getN k rest = Some x -> folded x = folded m) /\
  match getN n rest with Some x => folded x <> folded m | None => True end.
Proof.
  revert n. induction rest as [|x rest IH]; intros n Hk Hn; simpl in Hn.
  { subst n. split_and!; [done|intros; lia|done]. }
  unfold same_name in Hn. destruct (bool_decide (folded x = folded m)) eqn:Ef.
  - apply bool_decide_eq_true in Ef. rewrite (Hk x) in Hn by (done || left). rewrite N.eqb_refl in Hn. simpl in Hn. subst n.
    destruct (IH _ (fun y Hy => Hk y (list_elem_of_further _ _ _ Hy)) eq_refl) as (H1 & H2 & H3). rewrite len_cons. split_and!; [lia| |].
    + intros k y Hlt. destruct (N.eq_dec k 0) as [-> |Hne]; [intros [= <-]; done|]. intros Hg.
      apply (H2 (k - 1) y); [lia|]. unfold getN in *. replace (N.to_nat k) with (S (N.to_nat (k - 1))) in Hg by lia. done.
    + unfold getN in *. replace (N.to_nat (1 + run_length key folded m rest)) with (S (N.to_nat (run_length key folded m rest))) by lia. done.
  - apply bool_decide_eq_false in Ef. rewrite andb_false_r in Hn. subst n. split_and!; [lia|intros; lia|done].
Qed.

Lemma getN_from {A} (l : list A) i k : getN k (drop (N.to_nat i) l) = getN (i + k) l.
Proof. unfold getN. rewrite lookup_drop. f_equal. lia. Qed.

Lemma name_at_get i m : getN i members = Some m -> nameof i = folded m.
Proof. unfold name_at. by intros ->. Qed.

Lemma elem_of_from i m : from <= i -> getN i members = Some m -> m ∈ drop (N.to_nat from) members.
Proof. intros Hi Hm. apply (list_elem_of_lookup_2 _ (N.to_nat (i - from))). rewrite lookup_drop. unfold getN in Hm. rewrite <- Hm. f_equal. lia. Qed.

(** One group's end: its names are equal, and everything after sorts after. *)
Lemma group_end i m j :
  from <= i -> getN i members = Some m -> j = i + 1 + run_length key folded m (drop (N.to_nat (i + 1)) members) ->
  i < j /\ j <= len members /\ (forall k, i <= k -> k < j -> nameof k = nameof i) /\
  (forall k, j <= k -> k < len members -> bytes_cmp (nameof i) (nameof k) = Lt).
Proof.
  intros Hi Hm ->. pose proof (getN_lt _ _ _ Hm) as Hlt. set (rest := drop (N.to_nat (i + 1)) members).
  assert (Hrl : len rest = len members - (i + 1)) by (unfold rest, len; rewrite length_drop; lia).
  assert (Hkeys : forall x, x ∈ rest -> folded x = folded m -> key x = key m).
  { intros x Hx. apply sib_key; [|by eapply elem_of_from]. unfold rest in Hx. apply list_elem_of_lookup in Hx as [k Hk]. rewrite lookup_drop in Hk.
    apply (elem_of_from (i + 1 + N.of_nat k)); [lia|]. unfold getN. rewrite <- Hk. f_equal. lia. }
  destruct (run_length_spec m rest _ Hkeys eq_refl) as (H1 & H2 & H3).
  set (n := run_length key folded m rest) in *. rewrite (name_at_get i m Hm). split_and!; [lia|lia| |].
  - intros k Hk1 Hk2. destruct (N.eq_dec k i) as [-> |Hne]; [by apply name_at_get|].
    destruct (getN_is_Some k members) as [x Hx]; [lia|]. rewrite (name_at_get k x Hx). apply (H2 (k - (i + 1))); [lia|].
    unfold rest. rewrite getN_from. rewrite <- Hx. f_equal. lia.
  - intros k Hk1 Hk2. assert (Hj : i + 1 + n < len members) by lia.
    destruct (getN_is_Some (i + 1 + n) members Hj) as [x Hx]. unfold rest in H3. rewrite getN_from, Hx in H3.
    assert (Hij : bytes_cmp (folded m) (folded x) = Lt).
    { rewrite <- (name_at_get _ _ Hm), <- (name_at_get _ _ Hx). destruct (bytes_le_lt_dec _ _ (sib_sorted i (i + 1 + n) Hi ltac:(lia) Hj)) as [E|?]; [|done].
      rewrite (name_at_get _ _ Hm), (name_at_get _ _ Hx) in E. congruence. }
    destruct (bytes_le_lt_dec _ _ (sib_sorted (i + 1 + n) k ltac:(lia) Hk1 Hk2)) as [<- |Hlt2]; rewrite (name_at_get _ _ Hx) in *; [done|].
    by eapply bytes_cmp_lt_trans.
Qed.

Lemma level_step i m closed open open' level j :
  from <= i -> getN i members = Some m -> j = i + 1 + run_length key folded m (drop (N.to_nat (i + 1)) members) ->
  close folded members (folded m) depth open = (closed, open') ->
  level_ok i level open -> level_ok j (level ++ closed ++ [SFolder i j]) ((i, j) :: open').
Proof.
  intros Hi Hm Hj Hc [L1 L2 L3 L4 L5 L6 L7]. destruct (group_end i m j Hi Hm Hj) as (Hij & Hjl & Hsame & Hafter). clear Hj.
  pose proof (getN_lt _ _ _ Hm) as Hil. rewrite <- (name_at_get _ _ Hm) in Hc.
  destruct (close_spec _ _ _ _ Hc) as (Eo & Hcl & Hop). rewrite Eo in *. rewrite app_assoc in L1, L4, L5, L6.
  set (done_ := level ++ closed) in *. set (later := belows depth open') in *.
  assert (Hdone : forall x, x ∈ done_ -> klt (lkey x) (fkey (nameof i))).
  { intros x [Hx|Hx]%elem_of_app; [by apply L2|]. apply (proj1 (Forall_forall _ _) Hcl) in Hx as (s & e & -> & Hin & Hx). simpl.
    apply sibling_closed; [by apply (L3 s e)|by apply sib_plain|done]. }
  assert (Hlater : forall x, x ∈ later -> klt (fkey (nameof i)) (lkey x) /\ klt (bkey (nameof i)) (lkey x)).
  { rewrite fmap_app in L1. apply StronglySorted_app in L1 as (_ & _ & L1). unfold later, belows in *. destruct open' as [|[s e] open']; [intros x ?%elem_of_nil; done|].
    simpl in L1. apply StronglySorted_cons in L1 as [Hall _]. destruct (sibling_open _ _ Hop) as [Ho1 Ho2].
    intros x. simpl. rewrite elem_of_cons. intros [-> |Hx]; [done|].
    assert (Hk : klt (bkey (nameof s)) (lkey x)) by (apply (proj1 (Forall_forall _ _) Hall); by apply list_elem_of_fmap_2).
    split; by etransitivity. }
  assert (Eall : (level ++ closed ++ [SFolder i j]) ++ belows depth ((i, j) :: open') = done_ ++ SFolder i j :: SBelow i j (depth + 1) :: later)
    by (unfold done_, later; simpl; by rewrite <- !app_assoc).
  rewrite fmap_app in L1. apply StronglySorted_app in L1 as (L1a & L1b & L1c).
  assert (Hnew : step_in j (SFolder i j) /\ step_in j (SBelow i j (depth + 1))) by (unfold step_in; split_and!; done || lia).
  apply Forall_app in L4 as [L4a L4b]. assert (Hwid : forall x, step_in i x -> step_in j x).
  { intros [a b|a b d]; unfold step_in; intros (? & ? & ? & ? & ?); split_and!; done || lia. }
  split.
  - rewrite Eall, fmap_app. apply StronglySorted_app. split; [|split; [done|]].
    + intros a b (x & -> & Hx)%list_elem_of_fmap. pose proof (Hdone x Hx) as Hk. rewrite !fmap_cons, !elem_of_cons. intros [-> |[-> |Hb]]; [done|by apply (klt_end _ (up1 _))|].
      apply L1a; [by apply list_elem_of_fmap_2|done].
    + simpl. apply StronglySorted_cons. split; [|apply StronglySorted_cons; split; [|done]].
      * constructor; [apply sibling_self|]. apply Forall_forall. intros b (x & -> & Hx)%list_elem_of_fmap. by apply Hlater.
      * apply Forall_forall. intros b (x & -> & Hx)%list_elem_of_fmap. by apply Hlater.
  - intros x k Hx Hjk Hk. assert (Hi' : klt (fkey (nameof i)) (fkey (nameof k))) by (apply fkey_lt; by apply Hafter).
    rewrite app_assoc in Hx. fold done_ in Hx. apply elem_of_app in Hx as [Hx| ->%list_elem_of_singleton]; [|done]. etransitivity; [by apply Hdone|done].
  - intros s e k [[= -> ->]|Hin]%elem_of_cons Hjk Hk; [by apply Hafter|]. apply (L3 s e); [|lia|done].
    assert (Hb : SBelow s e (depth + 1) ∈ belows depth open) by (rewrite Eo; apply elem_of_app; right; unfold belows; apply (list_elem_of_fmap_2 (fun '(s, e) => SBelow s e (depth + 1)) _ (s, e)); done).
    unfold belows in Hb. apply (list_elem_of_fmap (fun '(s, e) => SBelow s e (depth + 1))) in Hb as ([s' e'] & [= -> ->] & ?). done.
  - rewrite Eall. apply Forall_app. split; [eapply Forall_impl; [exact L4a|exact Hwid]|]. destruct Hnew. constructor; [done|]. constructor; [done|].
    eapply Forall_impl; [exact L4b|exact Hwid].
  - rewrite Eall. intros k Hk1 Hk2. destruct (N.lt_ge_cases k i) as [Hlt|Hge].
    + destruct (L5 k Hk1 Hlt) as (st & en & ? & ? & Hf & Hb). exists st, en. split_and!; [done|done|apply elem_of_app; by left|].
      apply elem_of_app in Hb as [Hb|Hb]; apply elem_of_app; [by left|right]. right. by right.
    + exists i, j. split_and!; [done|done|rewrite app_assoc; apply elem_of_app; right; left|]. apply elem_of_app. right. right. left.
  - rewrite Eall. rewrite !len_app, !len_cons in *. lia.
  - rewrite !folders_app. assert (folders closed = 0).
    { clear -Hcl. induction Hcl as [|x l (s & e & -> & _) _ IH]; [done|]. simpl. done. }
    simpl. lia.
Qed.

Lemma group_loop_spec fuel i level open :
  from <= i -> i <= len members -> (N.to_nat (len members - i) <= fuel)%nat -> level_ok i level open ->
  exists out, group_loop key folded fuel members depth i level open = Some out /\ level_ok (len members) out [].
Proof.
  revert i level open. induction fuel as [|fuel IH]; intros i level open Hi Hl Hf Hok; simpl; destruct (N.ltb_spec i (len members)) as [Hlt|Hge]; [lia| | |].
  2: { destruct (getN_is_Some i members Hlt) as [m Hm]. rewrite Hm. simpl.
       destruct (close folded members (folded m) depth open) as [closed open'] eqn:Ec.
       assert (Hm' : from <= i) by done. destruct (group_end i m _ Hm' Hm eq_refl) as (Hij & Hjl & _).
       apply IH; [lia|lia|lia|]. by eapply level_step. }
  all: assert (i = len members) as -> by lia; eexists; (split; [done|]); destruct Hok as [L1 L2 L3 L4 L5 L6 L7]; fold (belows depth open); split;
    [by rewrite app_nil_r|intros; lia|intros; lia|by rewrite app_nil_r| |by rewrite app_nil_r|by rewrite folders_app, folders_belows, N.add_0_r].
  all: intros k Hk1 Hk2; destruct (L5 k Hk1 Hk2) as (st & en & ? & ? & ? & ?); exists st, en; rewrite app_nil_r; split_and!; [done|done|apply elem_of_app; by left|done].
Qed.
End level.

(** ** Paths as lists of names *)

Definition join (ns : list (list N)) : list N :=
  match ns with [] => [] | n :: ns => n ++ concat ((fun m => 0x5C :: m) <$> ns) end.

(** The key of what is below the folder [ns]; nothing for the root. *)
Definition pre (ns : list (list N)) : list N := match ns with [] => [] | _ => bkey (join ns) end.

Lemma join_snoc ns n : join (ns ++ [n]) = match ns with [] => n | _ => join ns ++ 0x5C :: n end.
Proof. destruct ns as [|m ns]; simpl; [by rewrite app_nil_r|]. rewrite fmap_app, concat_app, <- app_assoc. simpl. by rewrite app_nil_r. Qed.

Lemma fkey_snoc ns n : fkey (join (ns ++ [n])) = pre ns ++ fkey n.
Proof. rewrite join_snoc. destruct ns; [done|]. unfold pre, fkey, bkey, up1. rewrite fmap_app, fmap_cons, <- !app_assoc. done. Qed.

Lemma pre_snoc ns n : pre (ns ++ [n]) = pre ns ++ bkey n.
Proof.
  unfold pre at 1. destruct (ns ++ [n]) eqn:E; [by destruct ns|]. rewrite <- E, join_snoc.
  destruct ns; [done|]. unfold pre, bkey, up1. rewrite fmap_app, fmap_cons, <- !app_assoc. done.
Qed.

(** ** Ranges of members *)

Lemma strongly_sorted_lookup {A} (R : A -> A -> Prop) l i j x y : StronglySorted R l -> l !! i = Some x -> l !! j = Some y -> (i < j)%nat -> R x y.
Proof.
  intros Hs. revert i j. induction Hs as [|z l Hs IH Hz]; intros [|i] [|j] Hx Hy Hlt; simpl in *; simplify_eq; try lia.
  - apply (proj1 (Forall_forall _ _) Hz). by eapply list_elem_of_lookup_2.
  - apply (IH i j); [done|done|lia].
Qed.

Lemma elem_group {A} (l : list A) a b x : x ∈ slice a (b - a) l <-> exists k, a <= k /\ k < b /\ getN k l = Some x.
Proof.
  unfold slice. rewrite list_elem_of_lookup. setoid_rewrite lookup_take_Some. setoid_rewrite lookup_drop. unfold getN. split.
  - intros (i & Hi & Hlt). exists (a + N.of_nat i). split_and!; [lia|lia|]. rewrite <- Hi. f_equal. lia.
  - intros (k & ? & ? & Hk). exists (N.to_nat (k - a)). split; [|lia]. rewrite <- Hk. f_equal. lia.
Qed.

Lemma group_app {A} (l r : list A) a b : b <= len l -> slice a (b - a) (l ++ r) = slice a (b - a) l.
Proof.
  intros Hb. unfold slice, len in *. destruct (N.le_gt_cases a b).
  - rewrite drop_app_le by lia. apply take_app_le. rewrite length_drop. lia.
  - replace (N.to_nat (b - a)) with 0%nat by lia. done.
Qed.

Lemma group_elem_members (l : list N) a b x : x ∈ slice a (b - a) l -> x ∈ l.
Proof. rewrite elem_group. intros (k & _ & _ & Hk). by eapply list_elem_of_lookup_2. Qed.

Lemma group_nodup (l : list N) a b : NoDup l -> NoDup (slice a (b - a) l).
Proof. intros Hnd. unfold slice. apply (sublist_NoDup _ l); [done|]. etransitivity; [apply sublist_take|apply sublist_drop]. Qed.

Lemma set_ranks_spec grp r rank :
  Forall (fun m => m < len rank) grp ->
  exists rank', set_ranks grp r rank = Some rank' /\ len rank' = len rank /\
    forall m, getN m rank' = if decide (m ∈ grp) then Some r else getN m rank.
Proof.
  revert rank. induction grp as [|m grp IH]; intros rank Hg; cbn [set_ranks].
  { exists rank. split_and!; [done|done|]. intros m. rewrite decide_False; [done|]. apply not_elem_of_nil. }
  apply Forall_cons in Hg as [Hm Hg]. rewrite setN_some by done. cbn [mbind option_bind].
  destruct (IH (<[N.to_nat m := r]> rank)) as (rank' & E & Hl & Hget). { by rewrite len_insert. }
  exists rank'. rewrite len_insert in Hl. split_and!; [done|done|]. intros x. rewrite Hget. destruct (decide (x ∈ grp)).
  - rewrite decide_True; [done|by right].
  - unfold getN. destruct (decide (x = m)) as [-> |Hne].
    + rewrite decide_True by left. rewrite list_lookup_insert_eq; [done|]. unfold len in Hm. lia.
    + rewrite decide_False; [|by rewrite elem_of_cons; intros [?|?]]. rewrite list_lookup_insert_ne by lia. done.
Qed.

(** ** The walk over the tree *)

Section tree.
Context {Srt : SortUnstable} {Sok : SortUnstableOk Srt}.
Context (key : N -> N) (folded : N -> list N) (children_of : N -> option (list N)) (kids : N -> list N) (n : N).
Hypothesis n_pos : 0 < n.
Hypothesis n_fits : n <= u32_max.
Hypothesis kids_read : forall m, m < n -> children_of m = Some (kids m).
Hypothesis kid_node : forall p c, c ∈ kids p -> c < n /\ c <> ROOT.
Hypothesis kid_one : forall p p' c, c ∈ kids p -> c ∈ kids p' -> p = p'.
Hypothesis kid_nodup : forall p, NoDup (kids p).
Hypothesis key_same : forall a b, a < n -> b < n -> folded a = folded b -> key a = key b.
Hypothesis key_order : forall a b, a < n -> b < n -> key a < key b -> bytes_cmp (folded a) (folded b) = Lt.

(** Names along the way from the root. *)
Inductive reach : N -> list (list N) -> Prop :=
| reach_root : reach ROOT []
| reach_kid p ns c : reach p ns -> c ∈ kids p -> reach c (ns ++ [folded c]).

Hypothesis name_plain : forall p c, c ∈ kids p -> 0x5C ∉ folded c.

Inductive desc (p : N) : N -> Prop :=
| desc_kid c : c ∈ kids p -> desc p c
| desc_below c m : c ∈ kids p -> desc c m -> desc p m.

Lemma reach_fun m ns ns' : reach m ns -> reach m ns' -> ns = ns'.
Proof.
  intros Hr. revert ns'. induction Hr as [|p ns c Hp IH Hc]; intros ns' Hr'.
  - inversion Hr' as [|p' ns0 c' Hp' Hc']; [done|]. subst. by apply kid_node in Hc' as [_ ?].
  - inversion Hr' as [|p' ns0 c' Hp' Hc']; subst; [by apply kid_node in Hc as [_ ?]|].
    rewrite (kid_one _ _ _ Hc Hc') in *. by rewrite (IH _ Hp').
Qed.

Lemma reach_node m ns : reach m ns -> m < n.
Proof. destruct 1 as [|p ns c _ Hc]; [done|]. by apply kid_node in Hc as [? _]. Qed.

Lemma reach_nil m : reach m [] -> m = ROOT.
Proof. inversion 1 as [|p ns c Hp Hc E]; [done|]. by destruct ns. Qed.

Lemma desc_snoc p m c : desc p m -> c ∈ kids m -> desc p c.
Proof. induction 1 as [p m Hm|p c' m Hc' _ IH]; intros Hc; [eapply desc_below; [exact Hm|by apply desc_kid]|eapply desc_below; [done|by apply IH]]. Qed.

Lemma reach_desc m ns : reach m ns -> m = ROOT \/ desc ROOT m.
Proof. induction 1 as [|p ns c _ [-> |IH] Hc]; [by left|right; by apply desc_kid|right; by eapply desc_snoc]. Qed.

Lemma desc_depth p m ns : desc p m -> reach p ns -> exists ns', reach m ns' /\ (length ns < length ns')%nat.
Proof.
  intros Hd. revert ns. induction Hd as [p c Hc|p c m Hc _ IH]; intros ns Hp.
  - exists (ns ++ [folded c]). split; [by eapply reach_kid|]. rewrite length_app. simpl. lia.
  - destruct (IH (ns ++ [folded c])) as (ns' & ? & Hl); [by eapply reach_kid|]. exists ns'. split; [done|]. rewrite length_app in Hl. simpl in Hl. lia.
Qed.

(** ** The invariant of the walk *)

Definition gkey (g : Step * list (list N)) : list N :=
  match g.1 with SFolder _ _ => fkey (join g.2) | SBelow _ _ _ => pre g.2 end.

(** What a step stands for: a group with one path. *)
Definition den (members : list N) (g : Step * list (list N)) : Prop :=
  let '(st, en) := match g.1 with SFolder a b => (a, b) | SBelow a b _ => (a, b) end in
  en <= len members /\ (forall m, m ∈ group members st en -> reach m g.2) /\ len g.2 < MAX_PATH_HOPS /\
  match g.1 with SFolder _ _ => g.2 <> [] | SBelow _ _ d => d = len g.2 + 1 end.

Definition ranked (rank : list N) (m r : N) : Prop := getN m rank = Some r /\ r <> UNPRESENTABLE /\ m <> ROOT.

Record walk_ok (gs : list (Step * list (list N))) (members rank : list N) (next : N) : Prop := {
  w_den : Forall (den members) gs;
  w_sorted : StronglySorted klt (gkey <$> gs);
  w_len : len rank = n;
  w_root : getN ROOT rank = Some 0;
  w_nodup : NoDup members;
  w_nodes : Forall (fun m => m < n) members;
  w_closed c p : c ∈ members -> c ∈ kids p -> p ∈ members;
  w_fresh a b d ns p c : (SBelow a b d, ns) ∈ gs -> p ∈ group members a b -> c ∈ kids p -> c ∉ members;
  w_ranked m r : ranked rank m r -> 0 < r /\ r < next /\ exists ns, reach m ns /\ len ns < MAX_PATH_HOPS /\ Forall (fun g => klt (fkey (join ns)) (gkey g)) gs;
  w_order m m' r r' ns ns' : ranked rank m r -> ranked rank m' r' -> reach m ns -> reach m' ns' ->
    (r < r' -> klt (fkey (join ns)) (fkey (join ns'))) /\ (r = r' -> ns = ns');
  w_cover m ns : m <> ROOT -> reach m ns -> len ns < MAX_PATH_HOPS ->
    (exists r, ranked rank m r) \/ (exists a b ns', (SFolder a b, ns') ∈ gs /\ m ∈ group members a b) \/
    (exists a b d ns' p, (SBelow a b d, ns') ∈ gs /\ p ∈ group members a b /\ desc p m);
  w_next : 0 < next /\ next + folders (gs.*1) <= len members
}.

Lemma members_bound gs members rank next : walk_ok gs members rank next -> len members <= n.
Proof.
  intros W. destruct W as [_ _ _ _ Hnd Hn _ _ _ _ _ _]. assert (Hsub : members ⊆+ N.of_nat <$> seq 0 (N.to_nat n)).
  { apply NoDup_submseteq; [done|]. intros m Hm. apply (proj1 (Forall_forall _ _) Hn) in Hm. apply list_elem_of_fmap. exists (N.to_nat m).
    split; [lia|]. apply elem_of_seq. lia. }
  apply submseteq_length in Hsub. rewrite length_fmap, length_seq in Hsub. unfold len. lia.
Qed.

Lemma den_range members s a b d ns :
  s = SFolder a b \/ s = SBelow a b d -> den members (s, ns) -> b <= len members /\ (forall m, m ∈ group members a b -> reach m ns) /\ len ns < MAX_PATH_HOPS.
Proof. intros [-> | ->] (? & ? & ? & _); done. Qed.

(** Appending members changes no group. *)
Lemma den_app members more g : den members g -> den (members ++ more) g.
Proof.
  destruct g as [[a b|a b d] ns]; unfold den, group; cbn [fst snd]; intros (Hl & Hm & Hrest); rewrite group_app by done;
    (split; [rewrite len_app; lia|]); done.
Qed.

(** *** A folder gets the next rank *)

Lemma folder_step a b ns gs members rank next :
  walk_ok ((SFolder a b, ns) :: gs) members rank next ->
  exists rank', set_ranks (group members a b) next rank = Some rank' /\ walk_ok gs members rank' (next + 1).
Proof.
  intros W. pose proof (members_bound _ _ _ _ W) as Hmb. destruct W as [W1 W2 W3 W4 W5 W6 W7 W8 W9 W10 W11 [W12 W13]].
  apply Forall_cons in W1 as [D W1]. destruct D as (Db & Dm & Dh & Dn). cbn [fst snd] in *.
  rewrite fmap_cons in W2. apply StronglySorted_cons in W2 as [Wlt W2]. cbn [folders foldr fmap list_fmap] in W13.
  change (foldr _ 0 (gs.*1)) with (folders gs.*1) in W13. cbn [fst] in W13. unfold gkey in Wlt at 1. cbn [fst snd] in Wlt. rewrite Forall_fmap in Wlt.
  assert (Hnx : next <> UNPRESENTABLE) by (unfold UNPRESENTABLE; lia).
  assert (Hroot : ROOT ∉ group members a b). { intros Hr%Dm. apply Dn. by apply (reach_fun ROOT); [|constructor]. }
  destruct (set_ranks_spec (group members a b) next rank) as (rank' & E & Hlen & Hget).
  { apply Forall_forall. intros m Hm%group_elem_members. rewrite W3. by apply (proj1 (Forall_forall _ _) W6). }
  assert (Hrk : forall m r, ranked rank' m r -> (m ∈ group members a b /\ r = next) \/ ranked rank m r).
  { intros m r (Hg & Hr & Hm). rewrite Hget in Hg. destruct (decide (m ∈ group members a b)); [left; by simplify_eq|by right]. }
  exists rank'. split; [done|]. split; try done.
  - by rewrite Hlen.
  - by rewrite Hget, decide_False.
  - intros a' b' d' ns' p c Hin. apply (W8 a' b' d' ns' p c). by right.
  - intros m r [[Hm ->]|Hr]%Hrk; [split; [done|]; split; [lia|]; exists ns; by split_and!; [apply Dm| |]|].
    destruct (W9 m r Hr) as (? & ? & ns' & ? & ? & Hall). apply Forall_cons in Hall as [_ Hall]. split; [done|]. split; [lia|]. by exists ns'.
  - intros m m' r r' n1 n2 [[Hm ->]|Hr]%Hrk [[Hm' ->]|Hr']%Hrk R1 R2.
    + split; [intros; lia|]. intros _. by rewrite (reach_fun _ _ _ R1 (Dm _ Hm)), (reach_fun _ _ _ R2 (Dm _ Hm')).
    + destruct (W9 m' r' Hr') as (_ & ? & _). split; intros; lia.
    + destruct (W9 m r Hr) as (_ & ? & n1' & R1' & _ & Hall). apply Forall_cons in Hall as [Hk _]. split; [|intros; lia]. intros _.
      by rewrite (reach_fun _ _ _ R1 R1'), (reach_fun _ _ _ R2 (Dm _ Hm')).
    + by apply (W10 m m').
  - intros m n1 Hm R Hh. destruct (decide (m ∈ group members a b)) as [Hin|Hout].
    { left. exists next. split_and!; [by rewrite Hget, decide_True|done|done]. }
    destruct (W11 m n1 Hm R Hh) as [(r & Hr1 & Hr2 & Hr3)|[(a' & b' & n2 & [[= -> -> ->]|Hin]%elem_of_cons & ?)|(a' & b' & d' & n2 & p & [?|Hin]%elem_of_cons & ? & ?)]].
    + left. exists r. split_and!; [by rewrite Hget, decide_False|done|done].
    + done.
    + right. left. by exists a', b', n2.
    + done.
    + right. right. by exists a', b', d', n2, p.
  - split; [lia|]. lia.
Qed.

(** *** The children of a group *)

Definition below_group (ns : list (list N)) (members : list N) (s : Step) : Step * list (list N) :=
  (s, ns ++ [name_at folded members (match s with SFolder a _ => a | SBelow a _ _ => a end)]).

Lemma gkey_below ns members s : gkey (below_group ns members s) = pre ns ++ lkey folded members s.
Proof. destruct s; unfold gkey, below_group; cbn [fst snd lkey]; [apply fkey_snoc|apply pre_snoc]. Qed.

Lemma below_group_fst ns members level : (below_group ns members <$> level).*1 = level.
Proof. induction level as [|s level IH]; [done|]. cbn. by rewrite IH. Qed.

(** All the children of a group. *)
Definition litter (grp : list N) : list N := concat (kids <$> grp).

Lemma elem_of_litter grp c : c ∈ litter grp <-> exists p, p ∈ grp /\ c ∈ kids p.
Proof.
  unfold litter. rewrite list_elem_of_In, in_concat. setoid_rewrite <- list_elem_of_In. split.
  - intros (l & (p & -> & Hp)%list_elem_of_fmap & Hc). by exists p.
  - intros (p & Hp & Hc). exists (kids p). split; [by apply list_elem_of_fmap_2|done].
Qed.

Lemma litter_nodup grp : NoDup grp -> NoDup (litter grp).
Proof.
  induction 1 as [|p grp Hp Hnd IH]; [apply NoDup_nil_2|]. unfold litter. cbn. apply NoDup_app. split_and!; [apply kid_nodup| |done].
  intros c Hc (p' & Hp' & Hc')%elem_of_litter. apply Hp. by rewrite (kid_one _ _ _ Hc Hc').
Qed.

Lemma read_litter grp : Forall (fun m => m < n) grp -> mapM children_of grp = Some (kids <$> grp).
Proof. induction 1 as [|m grp Hm _ IH]; [done|]. cbn. by rewrite (kids_read m Hm), IH. Qed.

Section expand.
Context (a b d : N) (ns : list (list N)) (gs : list (Step * list (list N))) (members rank : list N) (next : N).
Hypothesis W : walk_ok ((SBelow a b d, ns) :: gs) members rank next.
Notation L := (litter (group members a b)).
Notation more := (sort_unstable (cmp_sibling key folded) L).
Notation members' := (members ++ more).

Lemma more_perm : more ≡ₚ L.
Proof. apply su_perm. apply _. Qed.

Lemma elem_of_more c : c ∈ more <-> exists p, p ∈ group members a b /\ c ∈ kids p.
Proof. rewrite more_perm. apply elem_of_litter. Qed.

Lemma grp_reach p : p ∈ group members a b -> reach p ns.
Proof. intros Hp. pose proof (w_den _ _ _ _ W) as Wd. apply Forall_cons in Wd as [(_ & Dm & _) _]. by apply Dm. Qed.

Lemma grp_end : b <= len members /\ d = len ns + 1.
Proof. pose proof (w_den _ _ _ _ W) as Wd. apply Forall_cons in Wd as [(Db & _ & _ & Dd) _]. done. Qed.

Lemma more_fresh c : c ∈ more -> c ∉ members.
Proof. intros (p & Hp & Hc)%elem_of_more. eapply (w_fresh _ _ _ _ W a b d ns p); [left|done|done]. Qed.

Lemma more_reach c : c ∈ more -> reach c (ns ++ [folded c]).
Proof. intros (p & Hp & Hc)%elem_of_more. eapply reach_kid; [by apply grp_reach|done]. Qed.

Lemma members'_nodup : NoDup members'.
Proof.
  apply NoDup_app. split_and!; [apply (w_nodup _ _ _ _ W)|intros c Hc Hm; by apply (more_fresh c)|]. rewrite more_perm.
  apply litter_nodup, group_nodup, (w_nodup _ _ _ _ W).
Qed.

(** The new members, by position. *)
Lemma more_at i : len members <= i -> i < len members' -> exists c, getN i members' = Some c /\ c ∈ more /\ name_at folded members' i = folded c.
Proof.
  intros Hi Hl. destruct (getN_is_Some i members' Hl) as [c Hc]. exists c. split_and!; [done| |by unfold name_at; rewrite Hc].
  unfold getN, len in *. rewrite lookup_app_r in Hc by lia. by eapply list_elem_of_lookup_2.
Qed.

Lemma group_more st en p : len members <= st -> p ∈ group members' st en -> p ∈ more.
Proof.
  intros Hst (k & Hk1 & Hk2 & Hk)%elem_group. destruct (more_at k ltac:(lia) (getN_lt _ _ _ Hk)) as (c & Hc & Hm & _). rewrite Hk in Hc. by injection Hc as ->.
Qed.

Lemma more_node c : c ∈ more -> c < n.
Proof. intros (p & _ & Hc)%elem_of_more. by apply kid_node in Hc as [? _]. Qed.

Lemma more_drop : drop (N.to_nat (len members)) members' = more.
Proof. unfold len. rewrite Nat2N.id. by rewrite drop_app_length. Qed.

Lemma more_sorted i j : len members <= i -> i <= j -> j < len members' -> bytes_cmp (name_at folded members' i) (name_at folded members' j) <> Gt.
Proof.
  intros Hi Hij Hj. destruct (more_at i Hi ltac:(lia)) as (x & Hx & Hxm & ->). destruct (more_at j ltac:(lia) Hj) as (y & Hy & Hym & ->).
  destruct (N.eq_dec i j) as [-> |Hne]. { simplify_eq. rewrite (proj2 (bytes_cmp_eq _ _) eq_refl). done. }
  assert (Hc : cmp_sibling key folded x y <> Gt).
  { pose proof (su_sorted (cmp_sibling key folded) L _) as Hs. unfold getN, len in *. rewrite lookup_app_r in Hx, Hy by lia.
    apply (strongly_sorted_lookup _ _ _ _ _ _ Hs Hx Hy). lia. }
  unfold cmp_sibling in Hc. destruct (N.compare_spec (key x) (key y)) as [?|Hlt|?]; [done| |done].
  rewrite (key_order x y); [done|by apply more_node|by apply more_node|done].
Qed.

Lemma level_exists : exists level,
  group_loop key folded (length L) members' d (len members) [] [] = Some level /\ level_ok folded members' (len members) d (len members') level [].
Proof.
  assert (Hlm : len members' = len members + N.of_nat (length L)) by (rewrite len_app; unfold len; rewrite (Permutation_length more_perm); lia).
  apply group_loop_spec; [apply more_sorted| | |lia|lia|lia|].
  - rewrite more_drop. intros x y Hx Hy. apply key_same; by apply more_node.
  - intros i Hi Hl. destruct (more_at i Hi Hl) as (c & _ & (p & _ & Hc)%elem_of_more & ->). by apply (name_plain p).
  - split; [apply SSorted_nil|intros x k ?%elem_of_nil; done|intros s e k ?%elem_of_nil; done|apply Forall_nil_2|intros; lia|apply N.le_0_l|apply N.le_0_l].
Qed.
End expand.

(** Folders below the deepest path are left out. *)
Lemma deep_step a b d ns gs members rank next :
  walk_ok ((SBelow a b d, ns) :: gs) members rank next -> MAX_PATH_HOPS <= d -> walk_ok gs members rank next.
Proof.
  intros W Hd. destruct (grp_end _ _ _ _ _ _ _ _ W) as [_ Ed]. pose proof (grp_reach _ _ _ _ _ _ _ _ W) as Hr.
  destruct W as [W1 W2 W3 W4 W5 W6 W7 W8 W9 W10 W11 [W12 W13]]. apply Forall_cons in W1 as [_ W1].
  rewrite fmap_cons in W2. apply StronglySorted_cons in W2 as [_ W2]. split; try done.
  - intros a' b' d' ns' p c Hin. apply (W8 a' b' d' ns'). by right.
  - intros m r Hm. destruct (W9 m r Hm) as (? & ? & n0 & ? & ? & Hall). apply Forall_cons in Hall as [_ Hall]. split; [done|]. split; [done|]. by exists n0.
  - intros m n0 Hm R Hh. destruct (W11 m n0 Hm R Hh) as [?|[(a' & b' & n1 & [?|Hin]%elem_of_cons & Hg)|(a' & b' & d' & n1 & p & [[= -> -> -> ->]|Hin]%elem_of_cons & Hg & Hde)]];
      [by left|done|right; left; by exists a', b', n1| |right; right; by exists a', b', d', n1, p].
    exfalso. destruct (desc_depth _ _ _ Hde (Hr p Hg)) as (n2 & R2 & Hlen). rewrite (reach_fun _ _ _ R R2) in Hh. unfold len in *. lia.
Qed.

Lemma expand_level a b d ns gs members rank next level :
  walk_ok ((SBelow a b d, ns) :: gs) members rank next -> d < MAX_PATH_HOPS ->
  let members' := members ++ sort_unstable (cmp_sibling key folded) (litter (group members a b)) in
  level_ok folded members' (len members) d (len members') level [] ->
  walk_ok ((below_group ns members' <$> level) ++ gs) members' rank next.
Proof.
  intros W Hsh members' Lv. destruct (grp_end _ _ _ _ _ _ _ _ W) as [Hb Hd].
  pose proof (members'_nodup _ _ _ _ _ _ _ _ W) as Hnd. fold members' in Hnd.
  pose proof W as W0. destruct W as [W1 W2 W3 W4 W5 W6 W7 W8 W9 W10 W11 [W12 W13]].
  destruct Lv as [V1 _ _ V4 V5 V6 V7]. change (belows d []) with (@nil Step) in *. rewrite app_nil_r in V1, V4, V5, V6.
  apply Forall_cons in W1 as [D W1]. rewrite fmap_cons in W2. apply StronglySorted_cons in W2 as [Wlt W2]. rewrite Forall_fmap in Wlt.
  cbn [gkey fst snd] in Wlt.
  assert (Hgrp : forall g x y e, g ∈ gs -> g.1 = SBelow x y e \/ g.1 = SFolder x y -> group members' x y = group members x y).
  { intros [s n0] x y e Hg Hs. apply (proj1 (Forall_forall _ _) W1) in Hg. apply group_app. destruct Hs as [Hs|Hs]; cbn in Hs; subst s; by destruct Hg. }
  assert (Hnew : forall s, s ∈ level -> den members' (below_group ns members' s)).
  { intros s Hs. apply (proj1 (Forall_forall _ _) V4) in Hs.
    assert (Hden : forall st en, len members <= st -> en <= len members' -> (forall k, st <= k -> k < en -> name_at folded members' k = name_at folded members' st) ->
      forall m, m ∈ group members' st en -> reach m (ns ++ [name_at folded members' st])).
    { intros st en Hst Hen Hsame m (k & Hk1 & Hk2 & Hk3)%elem_group. destruct (more_at a b members k ltac:(lia) (getN_lt _ _ _ Hk3)) as (c & Hc & Hcm & En).
      fold members' in Hc, En. rewrite Hk3 in Hc. injection Hc as <-. rewrite <- (Hsame k Hk1 Hk2), En. by eapply more_reach. }
    destruct s as [st en|st en e]; destruct Hs as (? & ? & ? & ? & ?); unfold den, below_group; cbn [fst snd]; (split; [done|]); (split; [by apply Hden|]);
      rewrite len_app, len_cons, len_nil; (split; [lia|]); [by destruct ns|lia]. }
  assert (Hkey : forall s, gkey (below_group ns members' s) = pre ns ++ lkey folded members' s) by (intros s; apply gkey_below).
  assert (Hnewp : forall s x y e n0 p, s ∈ level -> (SBelow x y e, n0) = below_group ns members' s -> p ∈ group members' x y ->
    p ∈ sort_unstable (cmp_sibling key folded) (litter (group members a b))).
  { intros s x y e n0 p Hs Es Hp. apply (proj1 (Forall_forall _ _) V4) in Hs. injection Es as <- _. destruct Hs as (Hst & _). by eapply group_more. }
  split; try done.
  - apply Forall_app. split; [|eapply Forall_impl; [exact W1|apply den_app]]. apply Forall_fmap, Forall_forall. done.
  - rewrite fmap_app. apply StronglySorted_app. split; [|split; [|done]].
    + intros x y (g & -> & (s & -> & Hs)%list_elem_of_fmap)%list_elem_of_fmap (g' & -> & Hg')%list_elem_of_fmap. rewrite Hkey, <- (app_nil_r (gkey g')).
      apply klt_app. by apply (proj1 (Forall_forall _ _) Wlt).
    + rewrite <- list_fmap_compose. clear -V1 Hkey. induction level as [|s level IH]; [constructor|]. cbn in *. apply StronglySorted_cons in V1 as [Hs V1].
      apply StronglySorted_cons. split; [|by apply IH]. apply Forall_fmap. rewrite Forall_fmap in Hs. eapply Forall_impl; [exact Hs|]. intros s' Hk. cbn in *.
      unfold compose. rewrite !Hkey. by apply klt_prefix.
  - unfold members'. apply Forall_app. split; [done|]. apply Forall_forall. by apply more_node.
  - unfold members'. intros c p. rewrite !elem_of_app. intros [Hc|Hc] Hk; left; [by apply (W7 c)|].
    apply elem_of_more in Hc as (p' & Hp' & Hc). rewrite (kid_one _ _ _ Hk Hc). by eapply group_elem_members.
  - intros a' b' d' ns' p c Hin Hp Hc. assert (Hmp : forall p0, c ∈ kids p0 -> p = p0) by (intros p0 ?; by eapply kid_one).
    apply elem_of_app in Hin as [(s & Es & Hs)%list_elem_of_fmap|Hin]; unfold members'; rewrite elem_of_app; intros [Hm|Hm].
    + apply (W7 c p) in Hm; [|done]. by apply (more_fresh _ _ _ _ _ _ _ _ W0 p); [eapply Hnewp|].
    + apply elem_of_more in Hm as (p' & Hp' & Hm). rewrite <- (Hmp _ Hm) in Hp'. apply group_elem_members in Hp'.
      by apply (more_fresh _ _ _ _ _ _ _ _ W0 p); [eapply Hnewp|].
    + rewrite (Hgrp _ a' b' d' Hin) in Hp by (by left). revert Hm. eapply (W8 a' b' d' ns' p c); [by right|done|done].
    + rewrite (Hgrp _ a' b' d' Hin) in Hp by (by left). apply elem_of_more in Hm as (p' & Hp' & Hm). rewrite <- (Hmp _ Hm) in Hp'.
      pose proof (proj1 (Forall_forall _ _) W1 _ Hin) as (_ & Dm & _). apply Dm in Hp. apply (grp_reach _ _ _ _ _ _ _ _ W0) in Hp'. cbn [fst snd] in Hp.
      pose proof (reach_fun _ _ _ Hp Hp') as ->. apply (proj1 (Forall_forall _ _) Wlt) in Hin. by apply klt_irrefl in Hin.
  - intros m r Hr. destruct (W9 m r Hr) as (? & ? & n0 & ? & ? & Hall). apply Forall_cons in Hall as [Hk Hall]. split; [done|]. split; [done|]. exists n0.
    split; [done|]. split; [done|]. apply Forall_app. split; [|done]. apply Forall_fmap, Forall_forall. intros s _. cbn. rewrite Hkey.
    rewrite <- (app_nil_r (fkey _)). by apply klt_app.
  - intros m n0 Hm R Hh. destruct (W11 m n0 Hm R Hh) as [?|[(a' & b' & n1 & [?|Hin]%elem_of_cons & Hg)|(a' & b' & d' & n1 & p & [[= -> -> -> ->]|Hin]%elem_of_cons & Hg & Hde)]]; [by left|done| | |].
    + right. left. exists a', b', n1. split; [apply elem_of_app; by right|]. by rewrite (Hgrp _ a' b' 0 Hin) by (by right).
    + assert (Hpos : forall c, c ∈ kids p -> exists st en, SFolder st en ∈ level /\ SBelow st en (d + 1) ∈ level /\ c ∈ group members' st en).
      { intros c Hc. assert (Hin : c ∈ sort_unstable (cmp_sibling key folded) (litter (group members a b))) by (apply elem_of_more; by exists p).
        apply list_elem_of_lookup in Hin as [i Hi]. assert (Hg' : getN (len members + N.of_nat i) members' = Some c).
        { unfold getN, len, members'. rewrite lookup_app_r by lia. rewrite <- Hi. f_equal. lia. }
        destruct (V5 (len members + N.of_nat i)) as (st & en & ? & ? & ? & ?); [lia|by eapply getN_lt|]. exists st, en. split_and!; [done|done|].
        apply elem_group. eauto. }
      inversion Hde as [c Hc|c m' Hc Hcm]; subst.
      * destruct (Hpos m Hc) as (st & en & ? & _ & ?). right. left. eexists st, en, _. split; [|done]. apply elem_of_app. left. apply list_elem_of_fmap. exists (SFolder st en). split; [reflexivity|done].
      * destruct (Hpos c Hc) as (st & en & _ & ? & ?). right. right. eexists st, en, _, _, c. split; [|done]. apply elem_of_app. left.
        apply list_elem_of_fmap. exists (SBelow st en (len ns + 1 + 1)). split; [reflexivity|done].
    + right. right. exists a', b', d', n1, p. split; [apply elem_of_app; by right|]. split; [|done]. by rewrite (Hgrp _ a' b' d' Hin) by (by left).
  - split; [done|]. rewrite fmap_app, folders_app, below_group_fst. cbn [fmap list_fmap folders foldr fst] in W13.
    change (foldr _ 0 (gs.*1)) with (folders gs.*1) in W13.
    assert (len members <= len members') by (unfold members'; rewrite len_app; lia). lia.
Qed.

(** ** Running the walk *)

Lemma walk_loop_spec fuel gs members rank next :
  walk_ok gs members rank next -> 2 * n + len gs <= N.of_nat fuel + 2 * len members ->
  exists rank' next' members', walk_loop key folded children_of fuel (gs.*1) members rank next = Some rank' /\ walk_ok [] members' rank' next'.
Proof.
  revert gs members rank next. induction fuel as [|fuel IH]; intros gs members rank next W Hf.
  - destruct gs as [|g gs]; [by eexists _, _, _|]. exfalso. pose proof (members_bound _ _ _ _ W). rewrite len_cons in Hf. lia.
  - destruct gs as [|[[a b|a b d] ns] gs]; [by eexists _, _, _| |]; cbn [fmap list_fmap walk_loop fst]; rewrite len_cons in Hf.
    + destruct (folder_step _ _ _ _ _ _ _ W) as (rank' & -> & W'). cbn [mbind option_bind]. apply IH; [done|lia].
    + destruct (N.leb_spec MAX_PATH_HOPS d) as [Hge|Hlt].
      { apply IH; [|lia]. by eapply deep_step. }
      rewrite read_litter. 2: { apply Forall_forall. intros m Hm%group_elem_members. by apply (proj1 (Forall_forall _ _) (w_nodes _ _ _ _ W)). }
      cbn [mbind option_bind]. fold (litter (group members a b)). destruct (level_exists a b d members) as (level & -> & Lv). cbn [mbind option_bind].
      pose proof (expand_level _ _ _ _ _ _ _ _ _ W Hlt Lv) as W'. cbn zeta in W'.
      set (members' := members ++ sort_unstable (cmp_sibling key folded) (litter (group members a b))) in *.
      replace (level ++ gs.*1) with (((below_group ns members' <$> level) ++ gs).*1) by (by rewrite fmap_app, below_group_fst).
      apply IH; [done|]. pose proof (lv_len _ _ _ _ _ _ _ Lv) as Hl. change (belows d []) with (@nil Step) in Hl. rewrite app_nil_r in Hl.
      assert (Hm : len members <= len members') by (unfold members'; rewrite len_app; lia).
      assert (Hlv : len (below_group ns members' <$> level) = len level) by (unfold len; by rewrite length_fmap). rewrite len_app, Hlv. lia.
Qed.

Hypothesis name_some : forall p c, c ∈ kids p -> folded c <> [].

Lemma reach_join m ns : reach m ns -> join ns = [] <-> ns = [].
Proof.
  destruct 1 as [|p ns c _ Hc]; [done|]. rewrite join_snoc. split; [|by destruct ns]. apply name_some in Hc. destruct ns; [done|]. by destruct (join _).
Qed.

Lemma start_ok rank :
  setN ROOT 0 (replicate (N.to_nat n) UNPRESENTABLE) = Some rank -> walk_ok [(SBelow 0 1 1, [])] [ROOT] rank 1.
Proof.
  assert (Hl : len (replicate (N.to_nat n) UNPRESENTABLE) = n) by (unfold len; rewrite length_replicate; lia).
  rewrite setN_some by (unfold ROOT; lia). intros [= <-].
  assert (Hno : forall m r, ~ ranked (<[N.to_nat ROOT := 0]> (replicate (N.to_nat n) UNPRESENTABLE)) m r).
  { intros m r (Hg & Hr & Hm). unfold getN in Hg. rewrite list_lookup_insert_ne in Hg by (unfold ROOT in *; lia). by apply lookup_replicate in Hg as [-> _]. }
  split.
  - constructor; [|constructor]. unfold den. cbn [fst snd]. split; [done|]. split; [|split; [by unfold MAX_PATH_HOPS|done]].
    intros m (k & ? & ? & Hk)%elem_group. replace k with 0 in Hk by lia. injection Hk as <-. constructor.
  - apply StronglySorted_cons. split; constructor.
  - by rewrite len_insert.
  - unfold getN. rewrite list_lookup_insert_eq; [done|]. rewrite length_replicate. unfold ROOT. lia.
  - apply NoDup_singleton.
  - constructor; [|constructor]. unfold ROOT. done.
  - intros c p ->%list_elem_of_singleton Hc. by apply kid_node in Hc as [_ ?].
  - intros a b d ns p c _ _ Hc ->%list_elem_of_singleton. by apply kid_node in Hc as [_ ?].
  - intros m r Hr. by apply Hno in Hr.
  - intros m m' r r' ns ns' Hr. by apply Hno in Hr.
  - intros m ns Hm R Hh. right. right. exists 0, 1, 1, [], ROOT. split; [left|]. split; [by apply elem_group; exists 0|].
    by destruct (reach_desc _ _ R).
  - split; [done|]. cbn. done.
Qed.

(** The ranks of the nodes order them as their paths. *)
Lemma tree_ranks rank0 :
  setN ROOT 0 (replicate (N.to_nat n) UNPRESENTABLE) = Some rank0 ->
  exists rank, walk_loop key folded children_of (S (2 * N.to_nat n)) [SBelow 0 1 1] [ROOT] rank0 1 = Some rank /\ len rank = n /\
    (forall m ns, reach m ns -> len ns < MAX_PATH_HOPS -> exists r, getN m rank = Some r /\ r <> UNPRESENTABLE) /\
    (forall m r, getN m rank = Some r -> r <> UNPRESENTABLE -> exists ns, reach m ns /\ len ns < MAX_PATH_HOPS) /\
    (forall m r, getN m rank = Some r -> r <= UNPRESENTABLE) /\
    (forall m m' r r' ns ns', getN m rank = Some r -> getN m' rank = Some r' -> r <> UNPRESENTABLE -> r' <> UNPRESENTABLE ->
       reach m ns -> reach m' ns' -> N.compare r r' = bytes_cmp (join ns) (join ns')).
Proof.
  intros E0. pose proof (start_ok _ E0) as W0. destruct (walk_loop_spec (S (2 * N.to_nat n)) _ _ _ _ W0) as (rank & next & members & E & W).
  { change (len [(SBelow 0 1 1, @nil (list N))]) with 1. change (len [ROOT]) with 1. lia. }
  exists rank. split; [exact E|]. pose proof (members_bound _ _ _ _ W) as Hmb. destruct W as [_ _ W3 W4 _ _ _ _ W9 W10 W11 [_ W13]]. cbn in W13.
  split; [done|]. split; [|split; [|split]].
  - intros m ns R Hh. destruct (decide (m = ROOT)) as [-> |Hm]; [by exists 0|].
    destruct (W11 m ns Hm R Hh) as [(r & ? & ? & _)|[(? & ? & ? & ?%elem_of_nil & _)|(? & ? & ? & ? & ? & ?%elem_of_nil & _)]]; [by exists r|done|done].
  - intros m r Hr Hn. destruct (decide (m = ROOT)) as [-> |Hm]; [exists []; split; [constructor|by unfold MAX_PATH_HOPS]|].
    destruct (W9 m r) as (_ & _ & ns & ? & ? & _); [done|]. by exists ns.
  - intros m r Hr. destruct (N.eq_dec r UNPRESENTABLE) as [-> |Hn]; [done|]. destruct (decide (m = ROOT)) as [-> |Hm]; [rewrite W4 in Hr; injection Hr as <-; done|].
    destruct (W9 m r) as (_ & ? & _); [done|]. unfold UNPRESENTABLE. lia.
  - assert (Hroot : forall m r ns, m <> ROOT -> getN m rank = Some r -> r <> UNPRESENTABLE -> reach m ns -> 0 < r /\ exists x p, join ns = x :: p).
    { intros m r ns Hm Hr Hn R. destruct (W9 m r) as (? & _); [done|]. split; [done|]. destruct (join ns) as [|x p] eqn:Ej; [|by exists x, p].
      apply (reach_join m ns R) in Ej as ->. by apply reach_nil in R. }
    intros m m' r r' ns ns' Hr Hr' Hn Hn' R R'. destruct (decide (m = ROOT)) as [-> |Hm]; destruct (decide (m' = ROOT)) as [-> |Hm'].
    + rewrite W4 in Hr, Hr'. simplify_eq. rewrite (reach_fun _ _ _ R reach_root), (reach_fun _ _ _ R' reach_root). done.
    + rewrite (reach_fun _ _ _ R reach_root). rewrite W4 in Hr. injection Hr as <-. destruct (Hroot m' r' ns' Hm' Hr' Hn' R') as (? & x & p & ->). cbn [join bytes_cmp].
      by apply N.compare_lt_iff.
    + rewrite (reach_fun _ _ _ R' reach_root). rewrite W4 in Hr'. injection Hr' as <-. destruct (Hroot m r ns Hm Hr Hn R) as (? & x & p & ->). cbn [join bytes_cmp].
      by apply N.compare_gt_iff.
    + assert (Hrk : ranked rank m r /\ ranked rank m' r') by done. destruct Hrk as [K K'].
      destruct (W10 m m' r r' ns ns' K K' R R') as [Hlt Heq]. destruct (W10 m' m r' r ns' ns K' K R' R) as [Hgt _].
      destruct (N.compare_spec r r') as [Er|?|?]; symmetry.
      * rewrite (Heq Er). by apply bytes_cmp_eq.
      * apply fkey_lt. by apply Hlt.
      * rewrite bytes_cmp_antisym. rewrite (proj2 (fkey_lt _ _) (Hgt ltac:(lia))). done.
Qed.
End tree.
