(* ===== verification/FolderTree.v ===== *)
(** The folder tree behind [FolderRanks]: the children stored together by
    counting, the nodes gathered by climbing, and what the ranks then say of the
    folders of an index: [crates/goz-core/src/query/folder_rank.rs] and the start
    of [path_keys] in [engine.rs]. *)

From stdpp Require Import gmap.
From stdpp Require Import base option list sets sorting.
From Stdlib Require Import NArith ZArith Lia.
From S2P Require Import Prelude Types Wtf8 Fold Text Budget Wildcard Query NameStore NameOrder Prefilter Compiled Volume FolderPaths TopK Engine FolderRank.

(** ** The children, by counting *)

(** The positions of [p] in [ps], counted from [base]. *)
Fixpoint positions (p base : N) (ps : list N) : list N :=
  match ps with
  | [] => []
  | x :: ps => if x =? p then base :: positions p (base + 1) ps else positions p (base + 1) ps
  end.

Lemma elem_of_positions p base ps c : c ∈ positions p base ps <-> base <= c /\ getN (c - base) ps = Some p.
Proof.
  revert base. induction ps as [|x ps IH]; intros base; simpl.
  { rewrite elem_of_nil. split; [done|]. by intros [_ ?]. }
  assert (Hnext : base + 1 <= c /\ getN (c - (base + 1)) ps = Some p <-> base < c /\ getN (c - base) (x :: ps) = Some p).
  { unfold getN. split; intros [Hc Hg]; (split; [lia|]).
    - replace (N.to_nat (c - base)) with (S (N.to_nat (c - (base + 1)))) by lia. done.
    - replace (N.to_nat (c - base)) with (S (N.to_nat (c - (base + 1)))) in Hg by lia. done. }
  destruct (N.eqb_spec x p) as [-> |Hne].
  - rewrite elem_of_cons, IH, Hnext. split.
    + intros [-> |[? ?]]; [split; [lia|]; by rewrite N.sub_diag|split; [lia|done]].
    + intros [Hc Hg]. destruct (N.eq_dec c base) as [-> |?]; [by left|right; split; [lia|done]].
  - rewrite IH, Hnext. split; intros [Hc Hg]; [split; [lia|done]|]. split; [|done].
    destruct (N.eq_dec c base) as [-> |?]; [|lia]. rewrite N.sub_diag in Hg. by injection Hg as ->.
Qed.

Lemma positions_nodup p base ps : NoDup (positions p base ps).
Proof.
  revert base. induction ps as [|x ps IH]; intros base; simpl; [apply NoDup_nil_2|]. destruct (x =? p); [|apply IH].
  apply NoDup_cons. split; [|apply IH]. rewrite elem_of_positions. lia.
Qed.

Definition count (p : N) (ps : list N) : N := len (positions p 0 ps).
Lemma len_positions p base ps : len (positions p base ps) = count p ps.
Proof.
  unfold count, len. f_equal. generalize 0. revert base. induction ps as [|x ps IH]; intros base z; [done|]. simpl.
  destruct (x =? p); simpl; by rewrite (IH (base + 1) (z + 1)).
Qed.
Lemma count_cons p x ps : count p (x :: ps) = (if x =? p then 1 else 0) + count p ps.
Proof. unfold count at 1. simpl. destruct (x =? p); rewrite ?len_cons, len_positions; lia. Qed.

Section children.
Context (n : N) (n_fits : n <= u32_max).

Definition ps_ok (ps : list N) : Prop := Forall (fun p => p = TOP \/ p < n) ps.

Lemma count_children_spec ps first :
  ps_ok ps -> len first = n + 1 ->
  exists first', count_children ps first = Some first' /\ len first' = n + 1 /\
    forall j x, getN j first = Some x -> getN j first' = Some (x + if j =? 0 then 0 else count (j - 1) ps).
Proof.
  intros Hps. revert first. induction Hps as [|p ps Hp Hps IH]; intros first Hl; simpl.
  { exists first. split; [done|]. split; [done|]. intros j x ->. f_equal. destruct (j =? 0); unfold count; simpl; rewrite ?len_nil; lia. }
  assert (Hj : forall j x, getN j first = Some x -> j < n + 1) by (intros j x ?%getN_lt; lia).
  destruct (N.eqb_spec p TOP) as [-> |Hne].
  - cbn [mbind option_bind]. destruct (IH first Hl) as (f' & -> & Hl' & Hg). exists f'. split; [done|]. split; [done|]. intros j x Hx. rewrite (Hg j x Hx).
    apply Hj in Hx. rewrite count_cons. destruct (N.eqb_spec j 0); [done|]. destruct (N.eqb_spec TOP (j - 1)) as [E|?]; [|do 2 f_equal; lia].
    unfold TOP in E. lia.
  - destruct Hp as [?|Hp]; [done|]. destruct (getN_is_Some (p + 1) first) as [c Hc]; [lia|]. rewrite Hc. cbn [mbind option_bind].
    rewrite setN_some by lia. cbn [mbind option_bind]. destruct (IH (<[N.to_nat (p + 1) := c + 1]> first)) as (f' & -> & Hl' & Hg); [by rewrite len_insert|].
    exists f'. split; [done|]. split; [done|]. intros j x Hx. rewrite count_cons. destruct (N.eq_dec j (p + 1)) as [-> |Hj'].
    + rewrite Hc in Hx. injection Hx as <-. rewrite (Hg (p + 1) (c + 1)).
      2: { unfold getN. rewrite list_lookup_insert_eq; [done|]. unfold len in Hl. lia. }
      rewrite (proj2 (N.eqb_neq (p + 1) 0)) by lia. replace (p + 1 - 1) with p by lia. rewrite N.eqb_refl. f_equal. lia.
    + rewrite (Hg j x). 2: { unfold getN in *. rewrite list_lookup_insert_ne by lia. done. }
      destruct (N.eqb_spec j 0); [done|]. destruct (N.eqb_spec p (j - 1)); [lia|]. f_equal.
Qed.

Lemma sums_spec acc l j : j < len l -> exists s, getN j (sums acc l) = Some s /\
  forall x, getN j l = Some x -> s = (if j =? 0 then acc else default 0 (getN (j - 1) (sums acc l))) + x.
Proof.
  revert acc j. induction l as [|y l IH]; intros acc j Hj; [rewrite len_nil in Hj; lia|]. cbn [sums]. destruct (N.eq_dec j 0) as [-> |Hne].
  - exists (acc + y). split; [done|]. intros x [= <-]. done.
  - rewrite len_cons in Hj. destruct (IH (acc + y) (j - 1) ltac:(lia)) as (s & Hs & Hx). exists s. unfold getN in *.
    replace (N.to_nat j) with (S (N.to_nat (j - 1))) by lia. split; [done|]. intros x Hx'. rewrite (proj2 (N.eqb_neq j 0) Hne).
    rewrite (Hx x Hx'). f_equal. destruct (N.eqb_spec (j - 1) 0) as [E|E]; [by rewrite E|].
    replace (N.to_nat (j - 1)) with (S (N.to_nat (j - 1 - 1))) by lia. done.
Qed.

Lemma len_sums acc l : len (sums acc l) = len l.
Proof. unfold len. f_equal. revert acc. induction l as [|x l IH]; intros acc; [done|]. simpl. by rewrite IH. Qed.

(** Where the children of each node start: [st (p + 1)] is past the last. *)
Definition starts (ps first : list N) (st : N -> N) : Prop :=
  st 0 = 0 /\ (forall p, p <= n -> getN p first = Some (st p)) /\ forall p, p < n -> st (p + 1) = st p + count p ps.

Lemma starts_exist ps :
  ps_ok ps -> exists first st, count_children ps (replicate (S (N.to_nat n)) 0) = Some first /\ starts ps (sums 0 first) st.
Proof.
  intros Hps. destruct (count_children_spec ps (replicate (S (N.to_nat n)) 0) Hps) as (first & E & Hl & Hg).
  { unfold len. rewrite length_replicate. lia. }
  assert (Hcell : forall j, j <= n -> getN j first = Some (if j =? 0 then 0 else count (j - 1) ps)).
  { intros j Hj. rewrite (Hg j 0); [done|]. unfold getN. apply lookup_replicate. split; [done|lia]. }
  exists first, (fun p => default 0 (getN p (sums 0 first))). split; [done|]. split; [|split].
  - destruct (sums_spec 0 first 0) as (s & Hs & Hx); [lia|]. rewrite Hs. simpl. rewrite (Hx 0); [done|]. apply (Hcell 0). lia.
  - intros p Hp. destruct (sums_spec 0 first p) as (s & Hs & _); [lia|]. by rewrite Hs.
  - intros p Hp. destruct (sums_spec 0 first (p + 1)) as (s & Hs & Hx); [lia|]. rewrite Hs. simpl. rewrite (Hx _ (Hcell (p + 1) ltac:(lia))).
    rewrite (proj2 (N.eqb_neq (p + 1) 0)) by lia. by replace (p + 1 - 1) with p by lia.
Qed.

Lemma fill_children_spec st child ps fill children :
  ps_ok ps -> len fill = n + 1 -> (forall p q, p <= q -> q <= n -> st p <= st q) -> st n <= len children ->
  (forall p, p < n -> exists f, getN p fill = Some f /\ st p <= f /\ f + count p ps = st (p + 1)) ->
  exists children', fill_children child ps fill children = Some children' /\ len children' = len children /\
    (forall p f k c, p < n -> getN p fill = Some f -> getN k (positions p child ps) = Some c -> getN (f + k) children' = Some c) /\
    (forall i, (forall p f, p < n -> getN p fill = Some f -> i < f \/ f + count p ps <= i) -> getN i children' = getN i children).
Proof.
  intros Hps. revert child fill children. induction Hps as [|p0 ps Hp0 Hps IH]; intros child fill children Hlf Hst Hlc Hf; simpl.
  { exists children. split_and!; [done|done|intros p f k c _ _ Hk; unfold getN in Hk; by rewrite lookup_nil in Hk|done]. }
  destruct (N.eqb_spec p0 TOP) as [-> |Hne].
  - assert (Hc : forall p, p < n -> count p (TOP :: ps) = count p ps).
    { intros p Hp. rewrite count_cons. destruct (N.eqb_spec TOP p) as [<- |?]; [unfold TOP in Hp; lia|lia]. }
    assert (Hpos : forall p, p < n -> (TOP =? p) = false) by (intros p Hp; apply N.eqb_neq; intros <-; unfold TOP in Hp; lia).
    destruct (IH (child + 1) fill children) as (ch & E & Hl & H1 & H2); [done|done|done| |].
    { intros p Hp. destruct (Hf p Hp) as (f & ? & ? & Hs). rewrite Hc in Hs by done. by exists f. }
    exists ch. split; [done|]. split; [done|]. split.
    + intros p f k c Hp Hpf. rewrite (Hpos p Hp). by apply H1.
    + intros i Hi. apply H2. intros p f Hp Hpf. rewrite <- (Hc p Hp). by apply Hi.
  - destruct Hp0 as [?|Hp0]; [done|]. destruct (Hf p0 Hp0) as (f0 & Hf0 & Hs0 & Hs1). rewrite Hf0. cbn [mbind option_bind].
    assert (Hle : st (p0 + 1) <= st n) by (apply Hst; lia). rewrite count_cons, N.eqb_refl in Hs1.
    rewrite setN_some by lia. cbn [mbind option_bind]. rewrite setN_some by lia. cbn [mbind option_bind].
    set (fill' := <[N.to_nat p0 := f0 + 1]> fill). set (children1 := <[N.to_nat f0 := child]> children).
    assert (Hf' : forall p, getN p fill' = if p =? p0 then Some (f0 + 1) else getN p fill).
    { intros p. unfold fill', getN. destruct (N.eqb_spec p p0) as [-> |?]; [|by rewrite list_lookup_insert_ne by lia].
      rewrite list_lookup_insert_eq; [done|]. unfold len in Hlf. lia. }
    assert (Hother : forall p f, p < n -> p <> p0 -> getN p fill = Some f -> f0 < f \/ f + count p ps <= f0).
    { intros p f Hp Hpp Hpf. destruct (Hf p Hp) as (f' & Hpf' & ? & Hs). rewrite Hpf in Hpf'. injection Hpf' as <-.
      rewrite count_cons in Hs. rewrite (proj2 (N.eqb_neq p0 p)) in Hs by done. destruct (N.lt_ge_cases p p0).
      - right. assert (st (p + 1) <= st p0) by (apply Hst; lia). lia.
      - left. assert (st (p0 + 1) <= st p) by (apply Hst; lia). lia. }
    destruct (IH (child + 1) fill' children1) as (ch & E & Hl & H1 & H2).
    + unfold fill'. by rewrite len_insert.
    + done.
    + unfold children1. rewrite len_insert. lia.
    + intros p Hp. rewrite Hf'. destruct (N.eqb_spec p p0) as [-> |Hpp]; [exists (f0 + 1); split; [done|]; lia|].
      destruct (Hf p Hp) as (f & ? & ? & Hs). rewrite count_cons, (proj2 (N.eqb_neq p0 p)) in Hs by done. exists f. split; [done|]. lia.
    + unfold children1 in Hl. rewrite len_insert in Hl. exists ch. split; [done|]. split; [done|].
      assert (Hat : getN f0 ch = Some child).
      { rewrite H2.
        - unfold children1, getN. rewrite list_lookup_insert_eq; [done|]. unfold len in Hlc. lia.
        - intros p f Hp. rewrite Hf'. destruct (N.eqb_spec p p0) as [-> |Hpp]; [intros [= <-]; left; lia|]. by apply Hother. }
      split.
      * intros p f k c Hp Hpf. destruct (N.eqb_spec p0 p) as [<- |Hpp].
        -- rewrite Hf0 in Hpf. injection Hpf as <-. intros Hk. destruct (N.eq_dec k 0) as [-> |Hk0]; [injection Hk as <-; by rewrite N.add_0_r|].
           unfold getN in Hk. replace (N.to_nat k) with (S (N.to_nat (k - 1))) in Hk by lia.
           replace (f0 + k) with (f0 + 1 + (k - 1)) by lia. apply (H1 p0); [done|by rewrite Hf', N.eqb_refl|done].
        -- apply H1; [done|]. rewrite Hf'. by rewrite (proj2 (N.eqb_neq p p0)).
      * intros i Hi. rewrite H2.
        -- unfold children1, getN. rewrite list_lookup_insert_ne; [done|]. destruct (Hi p0 f0 Hp0 Hf0) as [?|Hx]; [lia|].
           rewrite count_cons, N.eqb_refl in Hx. lia.
        -- intros p f Hp. rewrite Hf'. destruct (N.eqb_spec p p0) as [-> |Hpp].
           ++ intros [= <-]. destruct (Hi p0 f0 Hp0 Hf0) as [?|Hx]; [left; lia|]. rewrite count_cons, N.eqb_refl in Hx. lia.
           ++ intros Hpf. destruct (Hi p f Hp Hpf) as [?|Hx]; [by left|right]. rewrite count_cons in Hx. lia.
Qed.

(** The children of each node are read off one slice. *)
Lemma children_slices ps :
  ps_ok ps -> exists first total children, count_children ps (replicate (S (N.to_nat n)) 0) = Some first /\
    getN n (sums 0 first) = Some total /\ fill_children 0 ps (sums 0 first) (replicate (N.to_nat total) 0) = Some children /\
    forall p, p < n -> exists a b, getN p (sums 0 first) = Some a /\ getN (p + 1) (sums 0 first) = Some b /\ slice a (b - a) children = positions p 0 ps.
Proof.
  intros Hps. destruct (starts_exist ps Hps) as (first & st & E & S0 & S1 & S2). exists first, (st n).
  assert (Hmono : forall p q, p <= q -> q <= n -> st p <= st q).
  { intros p q Hpq Hq. replace q with (p + (q - p)) by lia. assert (Hk : p + (q - p) <= n) by lia. revert Hk. generalize (q - p). intros k.
    induction k as [|k IH] using N.peano_ind; intros Hk; [by rewrite N.add_0_r|]. replace (p + N.succ k) with (p + k + 1) by lia.
    rewrite S2 by lia. etransitivity; [apply IH; lia|lia]. }
  assert (Hlf : len (sums 0 first) = n + 1).
  { rewrite len_sums. destruct (count_children_spec ps (replicate (S (N.to_nat n)) 0) Hps) as (f' & E' & Hl & _); [unfold len; rewrite length_replicate; lia|].
    rewrite E in E'. by injection E' as <-. }
  assert (Hlr : len (replicate (N.to_nat (st n)) 0) = st n) by (unfold len; rewrite length_replicate; lia).
  destruct (fill_children_spec st 0 ps (sums 0 first) (replicate (N.to_nat (st n)) 0)) as (ch & Ech & Hl & H1 & _); [done|done|done|lia| |].
  { intros p Hp. exists (st p). split; [apply S1; lia|]. split; [done|]. by rewrite S2. }
  exists ch. split; [done|]. split; [apply S1; lia|]. split; [done|]. intros p Hp. exists (st p), (st (p + 1)).
  split; [apply S1; lia|]. split; [apply S1; lia|]. rewrite S2 by done. replace (st p + count p ps - st p) with (count p ps) by lia.
  assert (Hend : st p + count p ps <= len ch) by (rewrite <- S2, Hl, Hlr by done; apply Hmono; lia).
  apply list_eq_same_length with (n := length (positions p 0 ps)); [done| |].
  - pose proof (len_slice (st p) (count p ps) ch Hend) as Hs. pose proof (len_positions p 0 ps) as Hp'. unfold len in Hs, Hp'. lia.
  - intros i x y Hi Hx Hy. unfold slice in Hx. apply lookup_take_Some in Hx as [Hx _]. rewrite lookup_drop in Hx.
    assert (Hy' : getN (N.of_nat i) (positions p 0 ps) = Some y) by (unfold getN; by rewrite Nat2N.id).
    specialize (H1 p (st p) (N.of_nat i) y Hp (S1 p ltac:(lia)) Hy'). unfold getN in H1. replace (N.to_nat (st p + N.of_nat i)) with (N.to_nat (st p) + i)%nat in H1 by lia. congruence.
Qed.
End children.

(** ** Gathering the folders *)

(** What sorting relies on: a tree of live entries under one root, whose names
    hold no backslash and are not empty, rank keys that order them, and known
    sizes and dates that differ from the values that stand for unknown. *)
Class SortOk (V : IndexView) : Prop := {
  po_root_top : v_parent V (v_root V) = NIL;
  po_root_live : v_root V ∈ v_live V;
  po_root_real : v_root V <> v_lost_found V;
  po_small e : e ∈ v_live V -> e < NIL;
  po_parent e : e ∈ v_live V -> v_parent V e = NIL \/ v_parent V e ∈ v_live V;
  po_tops e : e ∈ v_live V -> v_parent V e = NIL -> e = v_root V \/ e = v_lost_found V;
  po_plain e : e ∈ v_live V -> e <> v_root V -> 0x5C ∉ v_folded V (v_name_id V e) /\ v_folded V (v_name_id V e) <> [];
  po_key_same a b : a ∈ v_live V -> b ∈ v_live V -> v_folded V (v_name_id V a) = v_folded V (v_name_id V b) ->
    v_rank_key V (v_name_id V a) = v_rank_key V (v_name_id V b);
  po_key_order a b : a ∈ v_live V -> b ∈ v_live V -> v_rank_key V (v_name_id V a) < v_rank_key V (v_name_id V b) ->
    bytes_cmp (v_folded V (v_name_id V a)) (v_folded V (v_name_id V b)) = Lt;
  po_size e s : e ∈ v_live V -> v_size V e = Some s -> s < u64_max;
  po_mtime e t : e ∈ v_live V -> v_mtime V e = Some t -> (i64_min < t <= i64_max)%Z
}.

Section graph.
Context (V : IndexView) {Pok : SortOk V}.

(** The folders behind the nodes; [pend] are the nodes whose parent is not
    set yet. *)
Record fr_ok (s : FolderRanks) (ents : list N) (pend : list N) : Prop := {
  g_nodup : NoDup ents;
  g_live : Forall (fun e => e ∈ v_live V) ents;
  g_root : getN 0 ents = Some (v_root V);
  g_len : len (fr_parent s) = len ents /\ len (fr_name s) = len ents;
  g_node x k : node_of s !! x = Some k <-> getN k ents = Some x;
  g_name k x : getN k ents = Some x -> getN k (fr_name s) = Some (v_name_id V x);
  g_up k x : getN k ents = Some x -> k ∉ pend ->
    (v_parent V x = NIL /\ getN k (fr_parent s) = Some TOP) \/
    (v_parent V x <> NIL /\ exists k', getN k' ents = Some (v_parent V x) /\ getN k (fr_parent s) = Some k');
  g_pend k : k ∈ pend -> getN k (fr_parent s) = Some TOP;
  g_last : fr_last s = (NIL, TOP) \/ node_of s !! (fr_last s).1 = Some (fr_last s).2
}.

Lemma ents_bound s ents pend : fr_ok s ents pend -> len ents <= NIL /\ (length ents <= length (v_live V))%nat.
Proof.
  intros G. destruct G as [Hnd Hl _ _ _ _ _ _ _]. rewrite Forall_forall in Hl. split.
  - assert (Hsub : ents ⊆+ N.of_nat <$> seq 0 (N.to_nat NIL)).
    { apply NoDup_submseteq; [done|]. intros e He. apply list_elem_of_fmap. exists (N.to_nat e). split; [lia|]. apply elem_of_seq.
      pose proof (po_small e (Hl e He)). lia. }
    apply submseteq_length in Hsub. rewrite length_fmap, length_seq in Hsub. unfold len. lia.
  - apply submseteq_length, NoDup_submseteq; [done|]. exact Hl.
Qed.

Lemma push_wp s ents pend x Q :
  fr_ok s ents pend -> x ∈ v_live V -> x ∉ ents ->
  (forall s', fr_ok s' (ents ++ [x]) (len ents :: pend) -> fr_last s' = fr_last s -> Q (len ents) s') -> wp (push V x) Q s.
Proof.
  intros G Hx Hni HQ. pose proof G as G0. destruct G as [Hnd Hl Hr [Hlp Hln] Hnode Hname Hup Hpend Hlast].
  assert (Hlt : len ents < 4294967296).
  { assert (Hsub : (length (x :: ents) <= N.to_nat NIL)%nat).
    { replace (N.to_nat NIL) with (length (N.of_nat <$> seq 0 (N.to_nat NIL))) by (by rewrite length_fmap, length_seq).
      apply submseteq_length, NoDup_submseteq; [by constructor|]. intros e He. assert (e ∈ v_live V).
      { apply elem_of_cons in He as [-> |He]; [done|]. by apply (proj1 (Forall_forall _ _) Hl). }
      apply list_elem_of_fmap. exists (N.to_nat e). split; [lia|]. apply elem_of_seq. pose proof (po_small e ltac:(done)). lia. }
    unfold len, NIL, u32_max in *. cbn [length] in Hsub. lia. }
  unfold wp, push. rewrite Hlp. assert (Eu : as_u32 (len ents) = len ents) by (unfold as_u32; by apply N.mod_small). rewrite Eu.
  apply HQ; [|done]. split; cbn [node_of fr_parent fr_name fr_last].
  - apply NoDup_app. split_and!; [done|intros y Hy ->%list_elem_of_singleton; done|apply NoDup_singleton].
  - apply Forall_app. split; [done|]. by constructor.
  - rewrite getN_app_l; [done|]. by eapply getN_lt.
  - rewrite !len_app, Hlp, Hln. done.
  - intros y k. rewrite getN_snoc. destruct (decide (k = len ents)) as [-> |Hk].
    + destruct (decide (y = x)) as [-> |Hy]; [by rewrite lookup_insert_eq|]. rewrite lookup_insert_ne by done. rewrite Hnode. split; [|congruence].
      intros ?%getN_lt. lia.
    + destruct (decide (y = x)) as [-> |Hy].
      * rewrite lookup_insert_eq. split; [congruence|]. intros Hg. exfalso. apply Hni. by eapply list_elem_of_lookup_2.
      * rewrite lookup_insert_ne by done. apply Hnode.
  - intros k y. rewrite !getN_snoc, Hln. destruct (decide (k = len ents)); [by intros [= ->]|apply Hname].
  - intros k y Hk Hp. rewrite getN_snoc in Hk. apply not_elem_of_cons in Hp as [Hp1 Hp]. rewrite decide_False in Hk by done.
    assert (Hkl : k < len ents) by (by eapply getN_lt). rewrite getN_app_l by lia. destruct (Hup k y Hk) as [?|(? & k' & Hk'' & ?)]; [done|by left|].
    right. split; [done|]. exists k'. split; [|done]. rewrite getN_app_l; [done|]. by eapply getN_lt.
  - intros k [-> |Hk]%elem_of_cons; [rewrite <- Hlp; apply getN_app_last|]. apply Hpend in Hk. rewrite getN_app_l; [done|]. by eapply getN_lt.
  - destruct Hlast as [?|Hlast]; [by left|]. right. rewrite lookup_insert_ne; [done|]. intros E. apply Hnode in Hlast. apply Hni. rewrite E. by eapply list_elem_of_lookup_2.
Qed.

Lemma set_parent_wp s ents pend pend' child x k Q :
  fr_ok s ents pend -> (forall j, j ∈ pend' <-> j ∈ pend /\ j <> child) -> getN child ents = Some x -> v_parent V x <> NIL -> getN k ents = Some (v_parent V x) ->
  (forall s', fr_ok s' ents pend' -> fr_last s' = fr_last s -> Q tt s') -> wp (set_parent child k) Q s.
Proof.
  intros [Hnd Hl Hr [Hlp Hln] Hnode Hname Hup Hpend Hlast] Hpp Hc Hx Hk HQ. unfold set_parent. eapply wp_update.
  { rewrite setN_some by (rewrite Hlp; by eapply getN_lt). cbn [mbind option_bind]. reflexivity. }
  apply HQ; [|done]. split; cbn [with_fr_parent node_of fr_parent fr_name fr_last]; try done.
  - by rewrite len_insert.
  - intros j y Hj Hnp. destruct (N.eq_dec j child) as [-> |Hne].
    + rewrite Hc in Hj. injection Hj as <-. right. split; [done|]. exists k. split; [done|]. unfold getN. apply list_lookup_insert_eq.
      apply getN_lt in Hc. unfold len in *. lia.
    + destruct (Hup j y Hj) as [[? Ht]|(? & k' & ? & Ht)]; [intros Hj'; apply Hnp, Hpp; done|left|right]; (split; [done|]); [|exists k'; split; [done|]];
        unfold getN in *; by rewrite list_lookup_insert_ne by lia.
  - intros j [Hj Hne]%Hpp. apply Hpend in Hj. unfold getN in *. by rewrite list_lookup_insert_ne by lia.
Qed.

(** The climb ends, and every node's parent is known. *)
Lemma chain_loop_wp fuel child cur s ents (Q : unit -> FolderRanks -> Prop) :
  fr_ok s ents [child] -> getN child ents = Some cur -> (length (v_live V) < fuel + length ents)%nat ->
  (forall s' more, fr_ok s' (ents ++ more) [] -> fr_last s' = fr_last s -> Q tt s') -> wp (chain_loop V fuel child cur) Q s.
Proof.
  revert child cur s ents. induction fuel as [|fuel IH]; intros child cur s ents G Hc Hf HQ; cbn [chain_loop].
  { exfalso. destruct (ents_bound _ _ _ G). lia. }
  pose proof (proj1 (Forall_forall _ _) (g_live _ _ _ G) cur (list_elem_of_lookup_2 _ _ _ Hc)) as Hlive.
  destruct (N.eqb_spec (v_parent V cur) NIL) as [En|En].
  - apply wp_ret. apply (HQ s []); [|done]. rewrite app_nil_r. destruct G as [Hnd Hl Hr Hln Hnode Hname Hup Hpend Hlast].
    split; try done; [|intros k ?%elem_of_nil; done]. intros k x Hk _. destruct (N.eq_dec k child) as [-> |Hne]; [|apply Hup; [done|by rewrite list_elem_of_singleton]].
    rewrite Hc in Hk. injection Hk as <-. left. split; [done|]. apply Hpend. left.
  - apply wp_bind, wp_get. destruct (po_parent cur Hlive) as [?|Hup]; [done|]. destruct (node_of s !! v_parent V cur) as [n0|] eqn:En0.
    + apply (g_node _ _ _ G) in En0. eapply set_parent_wp with (pend' := []); [exact G| |exact Hc|done|exact En0|].
      { intros j. rewrite elem_of_nil, list_elem_of_singleton. tauto. }
      intros s' G' El. apply (HQ s' []); [|done]. by rewrite app_nil_r.
    + assert (Hni : v_parent V cur ∉ ents).
      { intros [k Hk]%list_elem_of_lookup. assert (Hg : getN (N.of_nat k) ents = Some (v_parent V cur)) by (unfold getN; by rewrite Nat2N.id).
        apply (g_node _ _ _ G) in Hg. congruence. }
      assert (Hcl : child < len ents) by (by eapply getN_lt).
      apply wp_bind. eapply push_wp; [exact G|done|done|]. intros s1 G1 El1. apply wp_bind.
      eapply set_parent_wp with (pend' := [len ents]); [exact G1| | |done|apply getN_app_last|].
      * intros j. rewrite !elem_of_cons, !elem_of_nil. split; [intros [-> |?]; [split; [by left|lia]|done]|intros [[?|[?|?]] ?]; [by left|done|done]].
      * by rewrite getN_app_l.
      * intros s2 G2 El2. apply (IH _ _ _ (ents ++ [v_parent V cur])); [done|apply getN_app_last|rewrite length_app; cbn [length]; lia|].
        intros s3 more G3 El3. apply (HQ s3 ([v_parent V cur] ++ more)); [by rewrite app_assoc|congruence].
Qed.

Lemma node_wp s ents x (Q : N -> FolderRanks -> Prop) :
  fr_ok s ents [] -> x ∈ v_live V ->
  (forall k s' more, fr_ok s' (ents ++ more) [] -> getN k (ents ++ more) = Some x -> Q k s') -> wp (node V x) Q s.
Proof.
  intros G Hx HQ. unfold node. apply wp_bind, wp_get. destruct (N.eqb_spec (fr_last s).1 x) as [El|Hne].
  { apply wp_ret. destruct (g_last _ _ _ G) as [E|E]; [rewrite E in El; apply po_small in Hx; simpl in El; lia|].
    apply (HQ _ s []); rewrite app_nil_r; [done|]. apply (g_node _ _ _ G). by rewrite <- El. }
  apply wp_bind, wp_get. assert (Hdone : forall k s1 more, fr_ok s1 (ents ++ more) [] -> getN k (ents ++ more) = Some x ->
    wp (st_modify (with_fr_last (x, k)) ;;; st_ret k) Q s1).
  { intros k s1 more G1 Hk. apply wp_bind, wp_modify, wp_ret. apply (HQ _ _ more); [|done]. pose proof (proj2 (g_node _ _ _ G1 x k) Hk) as Hnk.
    destruct G1 as [Hnd Hl Hr Hln Hnode Hname Hup Hpend Hlast]. split; try done. by right. }
  destruct (node_of s !! x) as [n0|] eqn:En0.
  - apply wp_bind, wp_ret. apply (Hdone _ s []); rewrite app_nil_r; [done|]. by apply (g_node _ _ _ G).
  - assert (Hni : x ∉ ents).
    { intros [k Hk]%list_elem_of_lookup. assert (Hg : getN (N.of_nat k) ents = Some x) by (unfold getN; by rewrite Nat2N.id).
      apply (g_node _ _ _ G) in Hg. congruence. }
    apply wp_bind. unfold push_chain. apply wp_bind. eapply push_wp; [exact G|done|done|]. intros s1 G1 El1.
    apply wp_bind. eapply (chain_loop_wp _ _ _ _ (ents ++ [x])); [done|apply getN_app_last|rewrite length_app; cbn [length]; lia|].
    intros s2 more G2 El2. apply wp_ret. apply (Hdone _ s2 ([x] ++ more)); [by rewrite app_assoc|].
    rewrite app_assoc, getN_app_l; [apply getN_app_last|]. rewrite len_app, len_cons, len_nil. lia.
Qed.

Lemma new_ok : exists s, folder_ranks_new V = Some s /\ fr_ok s [v_root V] [].
Proof.
  eexists. split; [reflexivity|]. split; cbn [node_of fr_parent fr_name fr_last].
  - apply NoDup_singleton.
  - constructor; [apply po_root_live|constructor].
  - done.
  - done.
  - intros x k. change (as_u32 (len [])) with 0. destruct (decide (x = v_root V)) as [-> |Hx].
    + rewrite lookup_insert_eq. split; [by intros [= <-]|]. intros Hk. pose proof (getN_lt _ _ _ Hk) as Hlt. rewrite len_cons, len_nil in Hlt. f_equal. lia.
    + rewrite lookup_insert_ne, lookup_empty by done. split; [done|]. intros Hk. pose proof (getN_lt _ _ _ Hk) as Hlt. rewrite len_cons, len_nil in Hlt.
      replace k with 0 in Hk by lia. injection Hk as E. by destruct Hx.
  - intros k x Hk. pose proof (getN_lt _ _ _ Hk) as Hlt. rewrite len_cons, len_nil in Hlt. replace k with 0 in * by lia. by injection Hk as <-.
  - intros k x Hk _. pose proof (getN_lt _ _ _ Hk) as Hlt. rewrite len_cons, len_nil in Hlt. replace k with 0 in * by lia. injection Hk as <-.
    left. split; [apply po_root_top|done].
  - intros k ?%elem_of_nil. done.
  - by left.
Qed.

Lemma nodes_wp xs s ents (Q : list N -> FolderRanks -> Prop) :
  fr_ok s ents [] -> Forall (fun x => x ∈ v_live V) xs ->
  (forall ks s' more, fr_ok s' (ents ++ more) [] -> Forall2 (fun x k => getN k (ents ++ more) = Some x) xs ks -> Q ks s') -> wp (st_map (node V) xs) Q s.
Proof.
  intros G Hxs. revert s ents G Q. induction Hxs as [|x xs Hx Hxs IH]; intros s ents G Q HQ; cbn [st_map].
  - apply wp_ret. apply (HQ [] s []); [by rewrite app_nil_r|constructor].
  - apply wp_bind. eapply node_wp; [exact G|done|]. intros k s1 more G1 Hk. apply wp_bind. eapply IH; [exact G1|]. intros ks s2 more2 G2 Hks.
    apply wp_ret. apply (HQ _ s2 (more ++ more2)); [by rewrite app_assoc|]. rewrite app_assoc. constructor; [|done]. rewrite getN_app_l; [done|].
    by eapply getN_lt.
Qed.
End graph.

(** ** The ranks of the parents of the candidates *)

(** The part of [path_keys] that gathers the folders and ranks them. *)
Definition folder_ranks {Srt : SortUnstable} (V : IndexView) (dirs : list N) : option (list N) :=
  s ← folder_ranks_new V;
  '(nodes, s) ← st_map (node V) dirs s;
  rs ← ranks V s;
  mapM (fun n => getN n rs) nodes.

Section folders.
Context {Srt : SortUnstable} {Sok : SortUnstableOk Srt}.
Context (V : IndexView) {Pok : SortOk V}.

Section built.
Context (s : FolderRanks) (ents : list N) (G : fr_ok V s ents []).
Notation ps := (fr_parent s).
Notation n := (len ents).

Definition nm (m : N) : N := default NIL (getN m (fr_name s)).
Definition kids_at (p : N) : list N := if p <? n then positions p 0 ps else [].
Notation fold_at := (fun m => v_folded V (nm m)).
Notation reached := (reach fold_at kids_at).

Lemma nm_at k x : getN k ents = Some x -> nm k = v_name_id V x.
Proof. intros Hk. unfold nm. by rewrite (g_name _ _ _ _ G k x Hk). Qed.

Lemma parent_at k x : getN k ents = Some x ->
  (v_parent V x = NIL /\ getN k ps = Some TOP) \/
  (v_parent V x <> NIL /\ exists k', getN k' ents = Some (v_parent V x) /\ getN k ps = Some k').
Proof. intros Hk. apply (g_up _ _ _ _ G k x Hk). apply not_elem_of_nil. Qed.

Lemma n_fits : n <= u32_max.
Proof. by destruct (ents_bound _ _ _ _ G). Qed.

Lemma parents_ok_nodes : ps_ok n ps.
Proof.
  apply Forall_forall. intros p [i Hi]%list_elem_of_lookup. pose proof (lookup_lt_Some _ _ _ Hi) as Hlt. destruct (g_len _ _ _ _ G) as [Hl _].
  assert (Hk : N.of_nat i < n) by (unfold len in *; lia). destruct (getN_is_Some _ _ Hk) as [x Hx].
  assert (Hg : getN (N.of_nat i) ps = Some p) by (unfold getN; by rewrite Nat2N.id).
  destruct (parent_at _ _ Hx) as [[_ E]|(_ & k' & Hk' & E)]; rewrite Hg in E; injection E as ->; [by left|right]. by eapply getN_lt.
Qed.

Lemma elem_kids p c : c ∈ kids_at p <-> p < n /\ getN c ps = Some p.
Proof.
  unfold kids_at. destruct (N.ltb_spec p n) as [Hlt|Hge].
  - rewrite elem_of_positions, N.sub_0_r. split; [intros [_ ?]; done|]. intros [_ ?]. split; [lia|done].
  - rewrite elem_of_nil. split; [done|]. intros [? _]. lia.
Qed.

(** A child's folder has the parent's folder above it. *)
Lemma kid_entry p c : c ∈ kids_at p -> exists x, getN c ents = Some x /\ v_parent V x <> NIL /\ getN p ents = Some (v_parent V x).
Proof.
  rewrite elem_kids. intros [Hp Hc]. destruct (g_len _ _ _ _ G) as [Hl _]. assert (Hcl : c < n) by (rewrite <- Hl; by eapply getN_lt).
  destruct (getN_is_Some _ _ Hcl) as [x Hx]. exists x. destruct (parent_at _ _ Hx) as [[_ E]|(? & k' & Hk' & E)]; rewrite Hc in E; injection E as ->; [|done].
  pose proof n_fits. unfold TOP in Hp. lia.
Qed.

Lemma kid_is_node p c : c ∈ kids_at p -> c < n /\ c <> ROOT.
Proof.
  intros Hc. destruct (kid_entry p c Hc) as (x & Hx & Hp & _). split; [by eapply getN_lt|]. intros ->.
  change ROOT with 0 in Hx. rewrite (g_root _ _ _ _ G) in Hx. injection Hx as <-. by rewrite po_root_top in Hp.
Qed.

Lemma kid_parent p p' c : c ∈ kids_at p -> c ∈ kids_at p' -> p = p'.
Proof. rewrite !elem_kids. intros [_ H1] [_ H2]. congruence. Qed.

Lemma ents_live k x : getN k ents = Some x -> x ∈ v_live V.
Proof. intros Hk. apply (proj1 (Forall_forall _ _) (g_live _ _ _ _ G)). by eapply list_elem_of_lookup_2. Qed.

Lemma kid_name p c : c ∈ kids_at p -> 0x5C ∉ fold_at c /\ fold_at c <> [].
Proof.
  intros Hc. destruct (kid_entry p c Hc) as (x & Hx & Hp & _). rewrite (nm_at _ _ Hx). apply po_plain; [by eapply ents_live|].
  intros ->. by rewrite po_root_top in Hp.
Qed.

(** A node reached from the root is a folder whose ancestors end at the root. *)
Lemma reach_up m ns : reached m ns -> exists x c, getN m ents = Some x /\ up V x c /\ rel_path V true c = join ns /\ length c = S (length ns).
Proof.
  induction 1 as [|p ns c Hp (y & ch & Hy & Hup & Hrel & Hlen) Hc].
  - exists (v_root V), [v_root V]. split; [apply (g_root _ _ _ _ G)|]. split; [apply up_top; [apply po_root_top|apply po_root_real]|].
    split; [|done]. cbn. by rewrite N.eqb_refl.
  - destruct (kid_entry p c Hc) as (x & Hx & Hpx & Hpe). rewrite Hy in Hpe. injection Hpe as ->.
    exists x, (x :: ch). split; [done|]. split; [by apply up_cons|]. split; [|cbn; rewrite Hlen, length_app; cbn; lia].
    cbn [rel_path]. destruct (N.eqb_spec x (v_root V)) as [-> |Hxr]; [by rewrite po_root_top in Hpx|]. rewrite Hrel, join_snoc.
    unfold name_bytes. rewrite (nm_at _ _ Hx). destruct (join ns) as [|b bs] eqn:Ej.
    + apply (reach_join fold_at kids_at (fun p c Hc => proj2 (kid_name p c Hc)) p ns Hp) in Ej as ->. done.
    + destruct ns; [done|]. by rewrite <- app_assoc.
Qed.

Lemma up_reach x c k : up V x c -> getN k ents = Some x -> exists ns, reached k ns.
Proof.
  revert x k. induction c as [|y c IH]; intros x k Hup Hk.
  - apply up_inv in Hup as [(_ & _ & ?)|(_ & c' & ? & _)]; done.
  - destruct (up_inv _ _ _ Hup) as [(Hp & Hlf & [= -> ->])|(Hp & c' & [= -> ->] & Hc')].
    + destruct (po_tops x (ents_live _ _ Hk) Hp) as [-> |?]; [|done]. exists []. replace k with ROOT; [constructor|].
      apply (g_node _ _ _ _ G) in Hk. pose proof (proj2 (g_node _ _ _ _ G _ _) (g_root _ _ _ _ G)) as Hr. rewrite Hr in Hk. by injection Hk.
    + destruct (parent_at _ _ Hk) as [[? _]|(_ & k' & Hk' & Hpk)]; [done|]. destruct (IH _ _ Hc' Hk') as [ns Hns].
      exists (ns ++ [fold_at k]). eapply (reach_kid fold_at); [exact Hns|]. apply elem_kids. split; [by eapply getN_lt|done].
Qed.

(** The ranks of the gathered folders. *)
Lemma ranks_spec : exists rs, ranks V s = Some rs /\ len rs = n /\
  forall k x, getN k ents = Some x -> exists r, getN k rs = Some r /\ r <= UNPRESENTABLE /\ (r = UNPRESENTABLE <-> folder_chain V x = None) /\
    forall k' x' r' c c', getN k' ents = Some x' -> getN k' rs = Some r' -> folder_chain V x = Some c -> folder_chain V x' = Some c' ->
      N.compare r r' = bytes_cmp (rel_path V true c) (rel_path V true c').
Proof.
  destruct (children_slices n n_fits ps parents_ok_nodes) as (first & total & children & E1 & E2 & E3 & Hch). destruct (g_len _ _ _ _ G) as [Hlp Hln].
  assert (Hn : length ps = N.to_nat n) by (unfold len in *; lia). unfold ranks. rewrite Hlp, Hn, E1. cbn [mbind option_bind]. rewrite E2. cbn [mbind option_bind].
  rewrite E3. cbn [mbind option_bind].
  set (children_of := fun m => a ← getN m (sums 0 first); b ← getN (m + 1) (sums 0 first); Some (slice a (b - a) children)).
  pose proof (getN_lt _ _ _ (g_root _ _ _ _ G)) as Hpos.
  assert (Hset : exists rank0, setN ROOT 0 (replicate (N.to_nat n) UNPRESENTABLE) = Some rank0).
  { rewrite setN_some; [by eexists|]. unfold len at 1. rewrite length_replicate. unfold ROOT. lia. }
  destruct Hset as [rank0 Hset]. rewrite Hset. cbn [mbind option_bind].
  destruct (tree_ranks (fun m => v_rank_key V (nm m)) fold_at children_of kids_at n) with (rank0 := rank0) as (rs & Ers & Hrl & Hyes & Hno & Hmax & Hcmp).
  - exact Hpos.
  - exact n_fits.
  - intros m Hm. destruct (Hch m Hm) as (a & b & Ha & Hb & Hs). unfold children_of, kids_at. rewrite Ha, Hb. cbn [mbind option_bind].
    by rewrite Hs, (proj2 (N.ltb_lt _ _) Hm).
  - exact kid_is_node.
  - exact kid_parent.
  - intros p. unfold kids_at. destruct (p <? n); [apply positions_nodup|apply NoDup_nil_2].
  - intros a b Ha Hb. destruct (getN_is_Some _ _ Ha) as [x Hx]. destruct (getN_is_Some _ _ Hb) as [y Hy]. rewrite (nm_at _ _ Hx), (nm_at _ _ Hy).
    apply po_key_same; by eapply ents_live.
  - intros a b Ha Hb. destruct (getN_is_Some _ _ Ha) as [x Hx]. destruct (getN_is_Some _ _ Hb) as [y Hy]. rewrite (nm_at _ _ Hx), (nm_at _ _ Hy).
    apply po_key_order; by eapply ents_live.
  - intros p c Hc. by apply (kid_name p).
  - intros p c Hc. by apply (kid_name p).
  - exact Hset.
  - exists rs. split; [exact Ers|]. split; [done|].
    assert (Hpath : forall k x c, getN k ents = Some x -> folder_chain V x = Some c -> exists ns, reached k ns /\ len ns < MAX_PATH_HOPS /\ rel_path V true c = join ns).
    { intros k x c Hk Hfc. pose proof (po_small _ (ents_live _ _ Hk)). unfold folder_chain in Hfc. rewrite (proj2 (N.eqb_neq x NIL)) in Hfc by lia.
      assert (Hup : up V x c) by (by eexists). destruct (up_reach _ _ _ Hup Hk) as [ns Hns]. exists ns. split; [done|].
      destruct (reach_up _ _ Hns) as (x' & c' & Hx' & Hup' & Hrel & Hlen). rewrite Hk in Hx'. injection Hx' as <-. rewrite (up_fun _ _ _ _ Hup Hup').
      split; [|done]. apply walk_len in Hfc as [Hfc _]. rewrite (up_fun _ _ _ _ Hup Hup') in Hfc. unfold len. lia. }
    intros k x Hk. destruct (getN_is_Some k rs) as [r Hr]. { rewrite Hrl. by eapply getN_lt. }
    assert (Hun : forall k x r, getN k ents = Some x -> getN k rs = Some r -> r = UNPRESENTABLE <-> folder_chain V x = None).
    { clear k x Hk r Hr. intros k x r Hk Hr. split.
      - intros ->. destruct (folder_chain V x) as [c|] eqn:Hc; [|done]. destruct (Hpath _ _ _ Hk Hc) as (ns & Hns & Hh & _).
        destruct (Hyes _ _ Hns Hh) as (r' & Hr' & ?). congruence.
      - intros Hfc. destruct (N.eq_dec r UNPRESENTABLE) as [?|Hne]; [done|]. exfalso. destruct (Hno _ _ Hr Hne) as (ns & Hns & Hh).
        destruct (reach_up _ _ Hns) as (x' & c' & Hx' & Hup' & _ & Hlen). rewrite Hk in Hx'. injection Hx' as <-.
        pose proof (po_small _ (ents_live _ _ Hk)). unfold folder_chain in Hfc. rewrite (proj2 (N.eqb_neq x NIL)) in Hfc by lia.
        apply (up_walk V (N.to_nat MAX_PATH_HOPS)) in Hup'. unfold len in Hh. assert (Hle : (length c' <= N.to_nat MAX_PATH_HOPS)%nat) by lia.
        apply Hup' in Hle. congruence. }
    exists r. split; [done|]. split; [by eapply Hmax|]. split; [by eapply Hun|]. intros k' x' r' c c' Hk' Hr' Hc Hc'.
    destruct (Hpath _ _ _ Hk Hc) as (ns & Hns & _ & ->). destruct (Hpath _ _ _ Hk' Hc') as (ns' & Hns' & _ & ->).
    apply (Hcmp k k'); try done; [rewrite (Hun k x r Hk Hr), Hc; done|rewrite (Hun k' x' r' Hk' Hr'), Hc'; done].
Qed.
End built.

(** What the ranks of a list of folders say. *)
Definition ranks_order (dirs rs : list N) : Prop :=
  Forall2 (fun x r => r <= UNPRESENTABLE /\ (r = UNPRESENTABLE <-> folder_chain V x = None)) dirs rs /\
  forall i j x y r r' c c', dirs !! i = Some x -> dirs !! j = Some y -> rs !! i = Some r -> rs !! j = Some r' ->
    folder_chain V x = Some c -> folder_chain V y = Some c' -> N.compare r r' = bytes_cmp (rel_path V true c) (rel_path V true c').

Lemma folder_ranks_spec dirs : Forall (fun x => x ∈ v_live V) dirs -> exists rs, folder_ranks V dirs = Some rs /\ ranks_order dirs rs.
Proof.
  intros Hd. destruct (new_ok V) as (s0 & E0 & G0). unfold folder_ranks. rewrite E0. cbn [mbind option_bind].
  assert (Hw : wp (st_map (node V) dirs) (fun ks s => exists ents, fr_ok V s ents [] /\ Forall2 (fun x k => getN k ents = Some x) dirs ks) s0).
  { eapply (nodes_wp V); [exact G0|done|]. intros ks s' more G' Hks. by eexists. }
  apply wp_run in Hw as (ks & s & Es & ents & G & Hks). rewrite Es. cbn [mbind option_bind].
  destruct (ranks_spec s ents G) as (rs & Ers & Hrl & Hspec). rewrite Ers. cbn [mbind option_bind].
  assert (Hm : exists out, mapM (fun n => getN n rs) ks = Some out /\ Forall2 (fun k r => getN k rs = Some r) ks out).
  { clear -Hks Hspec. induction Hks as [|x k dirs ks Hk _ (out & E & Hout)]; [by exists []|]. destruct (Hspec k x Hk) as (r & Hr & _).
    exists (r :: out). cbn. rewrite Hr, E. split; [done|]. by constructor. }
  destruct Hm as (out & -> & Hout). exists out. split; [done|].
  assert (Hat : forall i x r, dirs !! i = Some x -> out !! i = Some r -> exists k, getN k ents = Some x /\ getN k rs = Some r).
  { intros i x r Hx Hr. destruct (Forall2_lookup_l _ _ _ _ _ Hks Hx) as (k & Hk & Hkx). exists k. split; [done|].
    destruct (Forall2_lookup_l _ _ _ _ _ Hout Hk) as (r' & Hr' & ?). congruence. }
  split.
  - apply Forall2_same_length_lookup_2; [by rewrite (Forall2_length _ _ _ Hks), (Forall2_length _ _ _ Hout)|]. intros i x r Hx Hr.
    destruct (Hat i x r Hx Hr) as (k & Hk & Hkr). destruct (Hspec k x Hk) as (r' & Hr' & ? & ? & _). rewrite Hkr in Hr'. by injection Hr' as ->.
  - intros i j x y r r' c c' Hx Hy Hr Hr' Hc Hc'. destruct (Hat i x r Hx Hr) as (k & Hk & Hkr). destruct (Hat j y r' Hy Hr') as (k' & Hk' & Hkr').
    destruct (Hspec k x Hk) as (r0 & Hr0 & _ & _ & Hc0). rewrite Hkr in Hr0. injection Hr0 as <-. by eapply Hc0.
Qed.
End folders.

(** C27: a path sort ranks folders as their paths compare: for any folders of an
    index, ranking ends, a folder has the rank of the unpresentable exactly when
    it has no full path (under lost+found, in a cycle, or too deep), and any two
    others have ranks that compare as their folded paths do, equal paths (the
    folders [A] and [a] of a case-sensitive folder) sharing one.  No path is
    built: siblings are compared by rank key, and the walk puts a folder's
    contents after those of its siblings that extend its name with a byte below
    the backslash. *)
Theorem folder_ranks_correct {Srt : SortUnstable} {Sok : SortUnstableOk Srt} V {Vok : SortOk V} dirs :
  Forall (fun x => x ∈ v_live V) dirs -> exists rs, folder_ranks V dirs = Some rs /\ ranks_order V dirs rs.
Proof. apply folder_ranks_spec. apply _. Qed.

(** *** The folders [a], [a b] and [a\x] *)

(** [sort_unstable_by] as the stable merge sort. *)
Fixpoint insert_by {A} (cmp : A -> A -> comparison) (x : A) (l : list A) : list A :=
  match l with
  | [] => [x]
  | y :: l' => match cmp x y with Gt => y :: insert_by cmp x l' | _ => x :: l end
  end.
#[export] Instance insertion_sort : SortUnstable := fun A cmp l => foldr (insert_by cmp) [] l.

Lemma insert_by_perm {A} (cmp : A -> A -> comparison) x l : insert_by cmp x l ≡ₚ x :: l.
Proof. induction l as [|y l IH]; [done|]. simpl. destruct (cmp x y); [done|done|]. rewrite IH. by constructor. Qed.

#[export] Instance insertion_sort_ok : SortUnstableOk insertion_sort.
Proof.
  split; intros A cmp l W; unfold sort_unstable, insertion_sort.
  - induction l as [|x l IH]; [done|]. simpl. rewrite insert_by_perm. by constructor.
  - induction l as [|x l IH]; simpl; [constructor|]. induction (foldr (insert_by cmp) [] l) as [|y k IHk]; simpl; [by repeat constructor|].
    apply StronglySorted_cons in IH as [Hy Hk]. destruct (cmp x y) eqn:E.
    + apply StronglySorted_cons. split; [|by apply StronglySorted_cons]. constructor; [congruence|]. eapply Forall_impl; [exact Hy|].
      intros z Hz. apply (wc_trans x y z); [congruence|done].
    + apply StronglySorted_cons. split; [|by apply StronglySorted_cons]. constructor; [congruence|]. eapply Forall_impl; [exact Hy|].
      intros z Hz. apply (wc_trans x y z); [congruence|done].
    + apply StronglySorted_cons. split; [|by apply IHk]. rewrite insert_by_perm. constructor; [|done]. rewrite wc_opp, E. done.
Qed.

(** 0 is the root, 1 is lost+found, 2 is [a], 3 is [a b], 4 is [a\x]. *)
Definition tree_view : IndexView := {|
  v_root := 0; v_lost_found := 1; v_parent := fun e => if (e =? 2) || (e =? 3) then 0 else if e =? 4 then 2 else NIL; v_is_dir := fun _ => true;
  v_size := fun _ => None; v_mtime := fun _ => None; v_frn := id; v_name_id := id; v_synthetic := fun e => e <? 2;
  v_names := empty_store; FolderPaths.v_raw := fun _ => [];
  FolderPaths.v_folded := fun e => default [] ([[]; [0x24]; [0x61]; [0x61; 0x20; 0x62]; [0x78]] !! N.to_nat e);
  v_rank_key := fun e => 2 * e + 1; FolderPaths.v_refcount := fun _ => 1; v_name_chain := fun e => [e];
  v_len := 5; v_live := [0; 1; 2; 3; 4]; v_subtree := fun _ _ => []; v_may_have_unpresentable := false; v_path_of := fun _ => None
|}.

Lemma tree_view_live e : e ∈ v_live tree_view -> e = 0 \/ e = 1 \/ e = 2 \/ e = 3 \/ e = 4.
Proof. cbn. rewrite !elem_of_cons, elem_of_nil. tauto. Qed.

Ltac tree_case H := apply tree_view_live in H; destruct H as [-> |[-> |[-> |[-> | ->]]]].

#[export] Instance tree_view_ok : SortOk tree_view.
Proof.
  split; [done|by left|done|..].
  - intros e He. tree_case He; by vm_compute.
  - intros e He. tree_case He; first [by left|right; cbn; rewrite !elem_of_cons; tauto].
  - intros e He. tree_case He; cbn; [by left|by right|done|done|done].
  - intros e He Hne. tree_case He; [done|..]; (split; [|done]); apply (bool_decide_unpack _); by vm_compute.
  - intros a b Ha Hb. tree_case Ha; tree_case Hb; cbn; done.
  - intros a b Ha Hb. tree_case Ha; tree_case Hb; cbn; first [done|lia].
  - done.
  - done.
Qed.

Lemma folder_ranks_correct_witness : folder_ranks tree_view [4; 3; 2; 0; 1] = Some [3; 2; 1; 0; UNPRESENTABLE] /\ exists rs, ranks_order tree_view [4; 3; 2; 0; 1] rs.
Proof.
  split; [vm_compute; reflexivity|]. destruct (folder_ranks_correct tree_view [4; 3; 2; 0; 1]) as (rs & _ & Hr); [|by exists rs].
  apply Forall_forall. intros x. cbn. rewrite !elem_of_cons. tauto.
Defined.
