(* ===== verification/NameLevel.v ===== *)
(** The shortcuts of a page by name: the sets of distinct names, [match_names],
    [names_files_size], [names_in_order], [name_level_refs] and [top_k_refs] of
    [crates/goz-core/src/query/engine.rs].

    The names are matched in chunks on a thread pool.  Which thread runs a chunk,
    and when, is a parameter (class [Pool]); the chunks share nothing but the
    budget, whose class [Env] already stands for the other threads, so they are
    written one after another. *)

From stdpp Require Import gmap.
From stdpp Require Import base option list sets sorting.
From Stdlib Require Import NArith ZArith Lia.
From S2P Require Import Prelude Types Wtf8 Fold Text Dates Budget Wildcard Query NameStore NameOrder Prefilter Compiled Volume FolderPaths TopK Engine FolderRank.

(** ** The pool *)

(** [rayon]: how many threads run chunks, and which chunks each of [n] buffers is
    given, in what order, when there are [m] chunks. *)
Class Pool := {
  name_threads : N;
  slots : N -> N -> list (list N)
}.

(** The first [n] numbers. *)
Definition upto (n : N) : list N := N.of_nat <$> seq 0 (N.to_nat n).

Class PoolOk (P : Pool) := {
  pool_threads : 1 <= name_threads;
  pool_slots n m : len (slots n m) = n;
  pool_chunks n m : (0 < n \/ m = 0) -> concat (slots n m) ≡ₚ upto m
}.

Definition CHUNK_NAMES_MIN : N := N.shiftl 1 15.

Definition div_ceil (a b : N) : N := (a + b - 1) / b.

Section pool.
Context {P : Pool}.

(** How many 64-id words each chunk of a pass covers. *)
Definition chunk_words (names : N) : N := N.max (div_ceil (div_ceil names 64) (name_threads * 4)) (CHUNK_NAMES_MIN / 64).

Definition chunk_ids (i per names : N) : N * N := (N.min (i * per * 64) names, N.min ((i + 1) * per * 64) names).
End pool.

(** ** Sets of names *)

Record NameSet := { words : list N; set_len : N }.

(** [NameSet::contains]; [None] past the last word, a panic. *)
Definition set_contains (s : NameSet) (id : N) : option bool :=
  w ← getN (id / 64) (words s); Some (negb (N.land w (N.shiftl 1 (id mod 64)) =? 0)).

(** [u64::trailing_zeros] of a word that is not zero. *)
Fixpoint pos_zeros (p : positive) : N := match p with xO p => 1 + pos_zeros p | _ => 0 end.
Definition trailing_zeros (w : N) : N := match w with N0 => 64 | Npos p => pos_zeros p end.

(** The bits of one word, lowest first; a word has at most 64. *)
Fixpoint word_bits (fuel : nat) (word : N) : list N :=
  match fuel with
  | O => []
  | S fuel => if word =? 0 then [] else trailing_zeros word :: word_bits fuel (N.land word (word - 1))
  end.

Fixpoint word_ids (base : N) (ws : list N) : list N :=
  match ws with
  | [] => []
  | w :: ws => ((fun bit => base + bit) <$> word_bits 64 w) ++ word_ids (base + 64) ws
  end.
Definition set_ids (s : NameSet) : list N := word_ids 0 (words s).

Section names.
Context `{Unicode} {E : Env} {M : Memchr} {P : Pool} {Sel : Select} {Srt : SortUnstable}.
Context (V : IndexView) (q : ParsedQuery) (c : CompiledQuery).

(** [index.name_count()]. *)
Definition name_count : N := ids (v_names V).

Definition name_may_bear_synthetic (id : N) : bool :=
  let raw := v_raw V id in bool_decide (raw = []) || bool_decide (raw = LOST_FOUND_NAME) || bool_decide (raw = PLACEHOLDER_NAME).

(** The entries of a name, synthetic ones apart. *)
Definition bearers (id : N) : list N := base.filter (fun e => v_synthetic V e = false) (v_name_chain V id).

Definition entries_bearing (id : N) : N := if name_may_bear_synthetic id then len (bearers id) else v_refcount V id.

(** ** Matching the names *)

(** The locals of a chunk: its watch, its words, and what it counted. *)
Record Marks := { k_watch : Watch; k_words : list N; k_len : N; k_total : N }.
Definition k_with_watch w k := {| k_watch := w; k_words := k_words k; k_len := k_len k; k_total := k_total k |}.
Definition k_set_budget b k := k_with_watch {| w_budget := b; left := left (k_watch k) |} k.

(** Whether a name is passed over: the watch stops the pass, or it does not
    match.  Only a test counts against the budget. *)
Definition name_skipped {S} (get : S -> Watch) (set : Watch -> S -> S) (tested : bool) (id : N) : ST S bool :=
  if tested then
    stop <- st_zoom get set Budget.tick ;;
    if (stop : bool) then st_ret true
    else m <- st_zoom (fun s => w_budget (get s)) (fun b s => set {| w_budget := b; left := left (get s) |} s) (name_matches V q c id) ;; st_ret (negb m)
  else st_ret false.

Definition mark (tested : bool) (base id : N) : ST Marks unit :=
  skip <- name_skipped k_watch k_with_watch tested id ;;
  if (skip : bool) then st_ret tt
  else
    let at_ := id - base in
    ws <- st_read (fun k => w ← getN (at_ / 64) (k_words k); setN (at_ / 64) (N.lor w (N.shiftl 1 (at_ mod 64))) (k_words k)) ;;
    st_modify (fun k => {| k_watch := k_watch k; k_words := ws; k_len := k_len k + 1; k_total := k_total k + entries_bearing id |}).

(** The literal that drives the search of the arena, when there is one. *)
Definition needle : option (list N) := if match_case q then None else prefilter c.

(** Whether a name found is tested. *)
Definition verify : bool := match needle with None => true | Some _ => negb (prefilter_decides_name c) end.

(** The names of one chunk: those holding the needle, or every live one. *)
Definition chunk_names (lo hi : N) : option (list N) :=
  match needle with
  | Some lit => for_each_prefilter_hit_in (v_names V) lit lo hi
  | None => Some (base.filter (fun id => 0 < v_refcount V id) ((fun i => lo + i) <$> upto (hi - lo)))
  end.

Definition match_chunk (per i : N) (ws : list N) (b : Budget) : option (list N * N * N * Budget) :=
  let '(lo, hi) := chunk_ids i per name_count in
  names ← chunk_names lo hi;
  r ← st_for (mark verify lo) names {| k_watch := watch_new b; k_words := ws; k_len := 0; k_total := 0 |};
  Some (k_words r.2, k_len r.2, k_total r.2, w_budget (k_watch r.2)).

(** The chunks from [i] on, over the words left. *)
Fixpoint match_chunks (n : nat) (per i : N) (ws : list N) (b : Budget) : option (list N * N * N * Budget) :=
  match n with
  | O => Some ([], 0, 0, b)
  | S n =>
      r ← match_chunk per i (take (N.to_nat per) ws) b;
      let '(ws1, l1, t1, b) := r in
      r ← match_chunks n per (i + 1) (drop (N.to_nat per) ws) b;
      let '(ws2, l2, t2, b) := r in
      Some (ws1 ++ ws2, l1 + l2, t1 + t2, b)
  end.

Definition match_names (b : Budget) : option (NameSet * N * Budget) :=
  let names := name_count in
  let per := chunk_words names in
  let ws := replicate (N.to_nat (div_ceil names 64)) 0 in
  r ← match_chunks (N.to_nat (div_ceil (len ws) per)) per 0 ws b;
  let '(ws, l, t, b) := r in
  Some ({| words := ws; set_len := l |}, t, b).

(** ** Their sizes *)

(** [u64::saturating_add]. *)
Definition saturating_add (a b : N) : N := N.min u64_max (a + b).

Definition files_size (l : list N) : N :=
  fold_left (fun sum idx => if v_is_dir V idx then sum else match v_size V idx with Some s => saturating_add sum s | None => sum end) l 0.

Fixpoint names_size_chunks (n : nat) (per i : N) (ws : list N) : N :=
  match n with
  | O => 0
  | S n => saturating_add (files_size (flat_map bearers (word_ids (i * per * 64) (take (N.to_nat per) ws))))
                          (names_size_chunks n per (i + 1) (drop (N.to_nat per) ws))
  end.

Definition names_files_size (s : NameSet) : N :=
  let per := chunk_words name_count in
  names_size_chunks (N.to_nat (div_ceil (len (words s)) per)) per 0 (words s).

(** ** The matched names in order *)

Definition name_key (id : N) : list N * N := (v_folded V id, id).

(** [iter().filter(|&id| matched.contains(id))]. *)
Fixpoint matched_only (s : NameSet) (l : list N) : option (list N) :=
  match l with
  | [] => Some []
  | id :: l => m ← set_contains s id; rest ← matched_only s l; Some (if (m : bool) then id :: rest else rest)
  end.

(** The iterator over two peekable ones. *)
Fixpoint merge_names (desc : bool) (ranked : list N) : list N -> list N :=
  fix merge_waiting (waiting : list N) : list N :=
    match ranked, waiting with
    | r :: ranked', w :: waiting' =>
        if xorb (match key_cmp (name_key w) (name_key r) with Lt => true | _ => false end) desc then w :: merge_waiting waiting'
        else r :: merge_names desc ranked' waiting
    | r :: ranked', [] => r :: merge_names desc ranked' waiting
    | [], w :: waiting' => w :: merge_waiting waiting'
    | [], [] => []
    end.

Definition by_name_key (a b : N) : comparison := key_cmp (name_key a) (name_key b).
Definition if_reversed (desc : bool) (l : list N) : list N := if desc then reverse l else l.

Definition names_in_order (s : NameSet) (d : SortDir) : option (list N) :=
  let desc := match d with Desc => true | Asc => false end in
  let ord := order (v_names V) in
  if (match ord with [] => true | _ => false end) || (set_len s * 8 <? len ord) then
    Some (if_reversed desc (sort_unstable by_name_key (set_ids s)))
  else
    waiting ← matched_only s (unranked (v_names V));
    ranked ← matched_only s (if_reversed desc ord);
    Some (merge_names desc ranked (if_reversed desc (sort_unstable by_name_key waiting))).

(** ** Rows by name *)

(** The names at the front with these folded bytes, and their entries. *)
Fixpoint take_group (folded : list N) (names : list N) : list N * list N :=
  match names with
  | [] => ([], [])
  | id :: names' =>
      if bool_decide (v_folded V id = folded) then let '(g, rest) := take_group folded names' in (bearers id ++ g, rest)
      else ([], names)
  end.

(** [for &e in &group]: the rows pushed, and how many were seen. *)
Fixpoint group_rows (group : list N) (seen start stop : N) : list N * N :=
  match group with
  | [] => ([], seen)
  | e :: group =>
      if stop <=? seen then ([], seen)
      else let '(rows, seen') := group_rows group (seen + 1) start stop in
           (if start <=? seen then e :: rows else rows, seen')
  end.

Fixpoint name_rows_loop (fuel : nat) (d : SortDir) (names : list N) (seen start stop : N) : option (list N) :=
  if seen <? stop then
    match names with
    | [] => Some []
    | first :: names =>
        match fuel with
        | O => None
        | S fuel =>
            let '(group, names) := take_group (v_folded V first) names in
            let group := sort_unstable N.compare (bearers first ++ group) in
            let group := match d with Desc => reverse group | Asc => group end in
            let '(rows, seen) := group_rows group seen start stop in
            rest ← name_rows_loop fuel d names seen start stop;
            Some (rows ++ rest)
        end
    end
  else Some [].

Definition name_level_rows (s : NameSet) (d : SortDir) (start stop : N) : option (list N) :=
  if stop <=? start then Some []
  else names ← names_in_order s d; name_rows_loop (length names) d names 0 start stop.

(** Whether the name alone decides the query. *)
Definition is_name_level (scope : option N) : bool :=
  match scope with None => true | Some _ => false end && volume_admits c && negb (tests_paths c q) &&
  match kind (filters q) with None => true | Some _ => false end &&
  match fsize (filters q) with None => true | Some _ => false end &&
  match date (filters q) with None => true | Some _ => false end &&
  negb (v_may_have_unpresentable V).

(** ** The best rows *)

Definition TOP_K_MAX : N := 10000.

Definition top_k_applies (scope : option N) (sort : SortSpec) (offset : N) (limit : option N) : bool :=
  match key sort with Path => false | _ => true end &&
  match limit with Some l => offset + l <=? TOP_K_MAX | None => false end &&
  match scope with None => true | Some _ => false end && negb (match_case q) &&
  match prefilter c with Some _ => true | None => false end &&
  volume_admits c && negb (tests_paths c q) && negb (v_may_have_unpresentable V).

Definition entry_key (sort : SortSpec) (idx : N) : N :=
  match key sort with
  | Name => v_rank_key V (v_name_id V idx)
  | Size => size_key (v_size V idx) (dir sort)
  | DateModified => mtime_key (v_mtime V idx) (dir sort)
  | Path => 0
  end.

Section top.
Context (sort : SortSpec) (want : nat) (sum_sizes : bool).

Definition cmp_row : Candidate -> Candidate -> comparison := cmp_candidate (fun idx => v_folded V (v_name_id V idx)) sort.

(** The locals of a chunk: what [evaluate] uses, the buffer of its thread and
    what it counted. *)
Record Top := { t_scan : Scan; t_best : @Best Candidate; t_count : N; t_size : N }.
Definition t_with_scan s t := {| t_scan := s; t_best := t_best t; t_count := t_count t; t_size := t_size t |}.
Definition t_with_watch w t := t_with_scan (with_watch w (t_scan t)) t.

(** One entry of a name that matches. *)
Definition top_entry (idx : N) : ST Top unit :=
  if v_synthetic V idx then st_ret tt
  else
    hit <- st_zoom t_scan t_with_scan (evaluate V q c idx None true) ;;
    if (hit : bool) then
      best <- st_read (fun t => offer cmp_row want (t_best t) {| c_idx := idx; c_key := entry_key sort idx |}) ;;
      st_modify (fun t => {| t_scan := t_scan t; t_best := best; t_count := t_count t + 1;
                             t_size := if sum_sizes then saturating_add (t_size t) (files_size [idx]) else t_size t |})
    else st_ret tt.

Definition top_name (id : N) : ST Top unit :=
  skip <- name_skipped (fun t => s_watch (t_scan t)) t_with_watch (negb (prefilter_decides_name c)) id ;;
  if (skip : bool) then st_ret tt else st_for top_entry (v_name_chain V id).

Definition top_start (best : @Best Candidate) (b : Budget) : Top :=
  {| t_scan := {| s_watch := watch_new b; s_folders := None; s_memo := ∅; s_dirs := ∅; s_cands := [] |};
     t_best := best; t_count := 0; t_size := 0 |}.

(** [scan_chunk], into the buffer [best]. *)
Definition scan_chunk (lit : list N) (per : N) (best : @Best Candidate) (b : Budget) (i : N) : option (@Best Candidate * N * N * Budget) :=
  let '(lo, hi) := chunk_ids i per name_count in
  names ← for_each_prefilter_hit_in (v_names V) lit lo hi;
  r ← st_for top_name names (top_start best b);
  Some (t_best r.2, t_count r.2, t_size r.2, s_budget (t_scan r.2)).

(** The chunks one buffer is given. *)
Fixpoint scan_slot (lit : list N) (per : N) (best : @Best Candidate) (b : Budget) (chunks : list N) : option (@Best Candidate * N * N * Budget) :=
  match chunks with
  | [] => Some (best, 0, 0, b)
  | i :: chunks =>
      r ← scan_chunk lit per best b i;
      let '(best, n1, s1, b) := r in
      r ← scan_slot lit per best b chunks;
      let '(best, n2, s2, b) := r in
      Some (best, n1 + n2, saturating_add s1 s2, b)
  end.

Fixpoint scan_slots (lit : list N) (per : N) (b : Budget) (l : list (list N)) : option (list (@Best Candidate) * N * N * Budget) :=
  match l with
  | [] => Some ([], 0, 0, b)
  | chunks :: l =>
      r ← scan_slot lit per best_empty b chunks;
      let '(best, n1, s1, b) := r in
      r ← scan_slots lit per b l;
      let '(bests, n2, s2, b) := r in
      Some (best :: bests, n1 + n2, saturating_add s1 s2, b)
  end.
End top.

(** [top_k_refs] up to its page: how many matches, their size, the best rows of
    every buffer, and the budget. *)
Definition top_k_rows (sort : SortSpec) (offset limit : N) (sum_sizes : bool) (b : Budget) : option (N * N * list Candidate * Budget) :=
  let lit := default [] (prefilter c) in
  let want := N.to_nat (offset + limit) in
  let per := chunk_words name_count in
  let chunks := div_ceil name_count (per * 64) in
  r ← scan_slots sort want sum_sizes lit per b (slots (N.min chunks name_threads) chunks);
  let '(bests, n, s, b) := r in
  Some (n, s, concat (kept <$> bests), b).
End names.

(** ** Bits *)

Lemma clear_lowest p b : N.testbit (N.land (N.pos p) (N.pos p - 1)) b = N.testbit (N.pos p) b && negb (b =? pos_zeros p).
Proof.
  revert b. induction p as [p IH|p IH|]; intros b; cbn [pos_zeros].
  - replace (N.pos p~1 - 1) with (2 * N.pos p) by lia. change (N.pos p~1) with (2 * N.pos p + 1). rewrite N.land_spec.
    destruct b as [|b] using N.peano_ind; [by rewrite N.testbit_even_0, andb_false_r|].
    rewrite N.testbit_even_succ', N.testbit_odd_succ', (proj2 (N.eqb_neq (N.succ b) 0)) by lia. by rewrite andb_diag, andb_true_r.
  - replace (N.pos p~0 - 1) with (2 * (N.pos p - 1) + 1) by lia. change (N.pos p~0) with (2 * N.pos p). rewrite N.land_spec.
    destruct b as [|b] using N.peano_ind; [by rewrite N.testbit_even_0|].
    rewrite N.testbit_even_succ', N.testbit_odd_succ', <- N.land_spec, IH. f_equal. f_equal.
    destruct (N.eqb_spec b (pos_zeros p)), (N.eqb_spec (N.succ b) (1 + pos_zeros p)); lia.
  - rewrite N.land_0_r, N.bits_0. destruct b; [by rewrite andb_false_r|done].
Qed.

Lemma lowest_bit p : N.testbit (N.pos p) (pos_zeros p) = true /\ forall b, b < pos_zeros p -> N.testbit (N.pos p) b = false.
Proof.
  induction p as [p IH|p [IH1 IH2]|]; cbn [pos_zeros]; [split; [done|lia]| |split; [done|lia]].
  change (N.pos p~0) with (2 * N.pos p). split; [rewrite N.add_1_l, N.testbit_even_succ'; exact IH1|].
  intros b Hb. destruct b as [|b _] using N.peano_ind; [apply N.testbit_even_0|]. rewrite N.testbit_even_succ'. apply IH2. lia.
Qed.

Lemma word_bits_spec fuel : forall w k, (forall b, N.testbit w b = true -> k <= b < 64) -> 64 <= N.of_nat fuel + k ->
  StronglySorted N.lt (word_bits fuel w) /\ forall b, b ∈ word_bits fuel w <-> N.testbit w b = true.
Proof.
  induction fuel as [|fuel IH]; intros w k Hk Hf; cbn [word_bits].
  - split; [constructor|]. intros b. rewrite elem_of_nil. split; [done|]. intros Hb%Hk. lia.
  - destruct (N.eqb_spec w 0) as [->|Hw]; [split; [constructor|]; intros b; rewrite elem_of_nil, N.bits_0; done|].
    destruct w as [|p]; [done|]. cbn [trailing_zeros]. destruct (lowest_bit p) as [H1 H2]. pose proof (Hk _ H1) as Hz.
    destruct (IH (N.land (N.pos p) (N.pos p - 1)) (pos_zeros p + 1)) as [Hs Hin].
    + intros b. rewrite clear_lowest, andb_true_iff, negb_true_iff, N.eqb_neq. intros [Hb Hne]. pose proof (Hk _ Hb).
      destruct (N.lt_ge_cases b (pos_zeros p)) as [Hlt|?]; [by rewrite (H2 _ Hlt) in Hb|lia].
    + lia.
    + split.
      * apply StronglySorted_cons. split; [|done]. apply Forall_forall. intros b. rewrite Hin, clear_lowest, andb_true_iff, negb_true_iff, N.eqb_neq.
        intros [Hb Hne]. destruct (N.lt_ge_cases b (pos_zeros p)) as [Hlt|?]; [by rewrite (H2 _ Hlt) in Hb|lia].
      * intros b. rewrite elem_of_cons, Hin, clear_lowest, andb_true_iff, negb_true_iff, N.eqb_neq. split; [intros [-> |[? _]]; done|].
        intros Hb. destruct (decide (b = pos_zeros p)); [by left|by right].
Qed.

Definition word_ok (w : N) : Prop := w < 2 ^ 64.

Lemma bits_below w b : word_ok w -> N.testbit w b = true -> b < 64.
Proof.
  intros Hw Hb. destruct (N.lt_ge_cases b 64) as [|Hge]; [done|]. rewrite N.testbit_eqb, N.div_small in Hb; [done|].
  eapply N.lt_le_trans; [exact Hw|]. by apply N.pow_le_mono_r.
Qed.

(** Bit [i] of the words. *)
Definition bit (ws : list N) (i : N) : Prop := exists w, getN (i / 64) ws = Some w /\ N.testbit w (i mod 64) = true.

Lemma bit_nil i : ~ bit [] i.
Proof. by intros (w & Hw & _). Qed.

Lemma bit_cons w ws i : bit (w :: ws) i <-> (i < 64 /\ N.testbit w i = true) \/ (64 <= i /\ bit ws (i - 64)).
Proof.
  unfold bit. destruct (N.lt_ge_cases i 64) as [Hi|Hi].
  - rewrite N.div_small, N.mod_small by done. split; [intros (w' & [= ->] & ?); by left|]. intros [[_ ?]|[? _]]; [by exists w|lia].
  - assert (E : i / 64 = N.succ ((i - 64) / 64)).
    { replace i with ((i - 64) + 1 * 64) at 1 by lia. rewrite N.div_add by done. lia. }
    assert (Em : i mod 64 = (i - 64) mod 64).
    { replace i with ((i - 64) + 1 * 64) at 1 by lia. by rewrite N.Div0.mod_add. }
    rewrite E, Em. unfold getN. rewrite N2Nat.inj_succ. simpl. split; [intros ?; by right|]. intros [[? _]|[_ ?]]; [lia|done].
Qed.

Lemma word_ids_spec ws : forall base, Forall word_ok ws ->
  StronglySorted N.lt (word_ids base ws) /\ forall id, id ∈ word_ids base ws <-> base <= id /\ bit ws (id - base).
Proof.
  induction ws as [|w ws IH]; intros base Hw; cbn [word_ids].
  - split; [constructor|]. intros id. rewrite elem_of_nil. split; [done|]. by intros [_ ?%bit_nil].
  - apply Forall_cons in Hw as [Hw Hws]. destruct (IH (base + 64) Hws) as [Hs Hin].
    destruct (word_bits_spec 64 w 0) as [Hbs Hbin]; [intros b Hb; pose proof (bits_below w b Hw Hb); lia|lia|].
    assert (Hb64 : forall b, b ∈ word_bits 64 w -> b < 64) by (intros b Hb; apply Hbin in Hb; by eapply bits_below).
    split.
    + apply StronglySorted_app_2; [| |done].
      * intros x y (b & -> & Hb)%list_elem_of_fmap [Hy _]%Hin. apply Hb64 in Hb. lia.
      * clear -Hbs. induction Hbs as [|b l Hl IH Hb]; [constructor|]. simpl. apply StronglySorted_cons. split; [|done].
        apply Forall_fmap. eapply Forall_impl; [exact Hb|]. intros b' Hb'. unfold compose. simpl in *. lia.
    + intros id. rewrite elem_of_app, Hin, bit_cons, list_elem_of_fmap. split.
      * intros [(b & -> & Hb)|[Hle Hb]].
        -- split; [lia|]. left. replace (base + b - base) with b by lia. split; [by apply Hb64|by apply Hbin].
        -- split; [lia|]. right. split; [lia|]. by replace (id - base - 64) with (id - (base + 64)) by lia.
      * intros [Hle [[Hlt Hb]|[Hge Hb]]].
        -- left. exists (id - base). split; [lia|by apply Hbin].
        -- right. split; [lia|]. by replace (id - (base + 64)) with (id - base - 64) by lia.
Qed.

Lemma sorted_nodup l : StronglySorted N.lt l -> NoDup l.
Proof. induction 1 as [|x l Hs IH Hx]; constructor; [|done]. rewrite Forall_forall in Hx. intros Hc%Hx. lia. Qed.

(** Marking one bit. *)
Lemma set_bit ws i w ws' : getN (i / 64) ws = Some w -> setN (i / 64) (N.lor w (N.shiftl 1 (i mod 64))) ws = Some ws' ->
  Forall word_ok ws -> Forall word_ok ws' /\ len ws' = len ws /\ forall j, bit ws' j <-> bit ws j \/ j = i.
Proof.
  intros Hw Hset Hok. pose proof (getN_lt _ _ _ Hw) as Hlt. rewrite setN_some in Hset by done. injection Hset as <-.
  assert (Hm : i mod 64 < 64) by (by apply N.mod_lt).
  assert (Hb : forall b, N.testbit (N.lor w (N.shiftl 1 (i mod 64))) b = N.testbit w b || (b =? i mod 64)).
  { intros b. rewrite N.lor_spec. f_equal. rewrite N.shiftl_1_l, N.pow2_bits_eqb. apply N.eqb_sym. }
  split; [|split].
  - apply Forall_insert; [done|]. unfold word_ok. destruct (N.eq_0_gt_0_cases (N.lor w (N.shiftl 1 (i mod 64)))) as [-> |Hpos]; [by vm_compute|].
    apply N.log2_lt_pow2; [done|]. destruct (N.lt_ge_cases (N.log2 (N.lor w (N.shiftl 1 (i mod 64)))) 64) as [|Hge]; [done|exfalso].
    pose proof (N.bit_log2 (N.lor w (N.shiftl 1 (i mod 64)))) as Ht. rewrite Hb in Ht by lia. specialize (Ht ltac:(lia)).
    apply orb_true_iff in Ht as [Ht|Ht%N.eqb_eq]; [|lia]. assert (Hwk : word_ok w) by (eapply Forall_lookup_1; [exact Hok|exact Hw]).
    pose proof (bits_below _ _ Hwk Ht). lia.
  - apply len_insert.
  - intros j. unfold bit. rewrite getN_insert by done. split.
    + intros (w' & Hg & Ht). case_decide as E.
      * injection Hg as <-. rewrite Hb in Ht. apply orb_true_iff in Ht as [Ht|Ht%N.eqb_eq].
        -- left. exists w. by rewrite <- E.
        -- right. rewrite (N.div_mod i 64), (N.div_mod j 64) by done. congruence.
      * left. by exists w'.
    + intros [(w' & Hg & Ht)| ->].
      * case_decide as E; [|by exists w']. exists (N.lor w (N.shiftl 1 (i mod 64))). split; [done|]. rewrite Hb. rewrite <- E, Hw in Hg. injection Hg as <-. by rewrite Ht.
      * rewrite decide_True by done. eexists. split; [done|]. rewrite Hb, N.eqb_refl. by rewrite orb_true_r.
Qed.

Lemma set_contains_bit s id : id / 64 < len (words s) -> exists r, set_contains s id = Some r /\ (r = true <-> bit (words s) id).
Proof.
  intros Hlt. destruct (getN_is_Some _ _ Hlt) as [w Hw]. unfold set_contains. rewrite Hw. simpl. eexists. split; [done|].
  assert (E : negb (N.land w (N.shiftl 1 (id mod 64)) =? 0) = N.testbit w (id mod 64)).
  { rewrite N.shiftl_1_l. destruct (N.testbit w (id mod 64)) eqn:Et.
    - apply negb_true_iff, N.eqb_neq. intros Hz. assert (Hb : N.testbit (N.land w (2 ^ (id mod 64))) (id mod 64) = true).
      { by rewrite N.land_spec, Et, N.pow2_bits_true. } by rewrite Hz, N.bits_0 in Hb.
    - apply negb_false_iff, N.eqb_eq. apply N.bits_inj. intros b. rewrite N.land_spec, N.bits_0, N.pow2_bits_eqb.
      destruct (N.eqb_spec (id mod 64) b) as [<- |]; [by rewrite Et|by rewrite andb_false_r]. }
  rewrite E. unfold bit. rewrite Hw. split; [intros ?; by exists w|]. by intros (? & [= <-] & ?).
Qed.

(** ** What the index promises of its names *)

(** A name some entry bears. *)
Notation borne V id := (v_name_chain V id <> []).

(** The interface the shortcuts add to [ViewOk]: names are numbered, a name's
    count is the length of its chain, the arena is searched by ranges, the order
    and the names waiting for it list every name once, the order sorted, and the
    names that synthetic entries bear are known. *)
Class NamesOk {M : Memchr} (V : IndexView) : Prop := {
  no_range id : borne V id -> id < ids (v_names V);
  no_count id : v_refcount V id = len (v_name_chain V id);
  no_hits needle lo hi : needle <> [] -> 0 ∉ needle -> hi <= ids (v_names V) ->
    exists l, for_each_prefilter_hit_in (v_names V) needle lo hi = Some l /\ NoDup l /\
      forall id, id ∈ l <-> lo <= id < hi /\ borne V id /\ infix needle (v_folded V id);
  no_listed : Forall (fun id => id < ids (v_names V)) (order (v_names V)) /\ Forall (fun id => id < ids (v_names V)) (unranked (v_names V));
  no_sorted : StronglySorted (fun a b => by_name_key V a b = Lt) (base.filter (fun id => borne V id) (order (v_names V)));
  no_parts : base.filter (fun id => borne V id) (order (v_names V)) ++ base.filter (fun id => borne V id) (unranked (v_names V))
    ≡ₚ base.filter (fun id => borne V id) (upto (ids (v_names V)));
  no_synthetic e : e ∈ v_live V -> v_synthetic V e = true -> name_may_bear_synthetic V (v_name_id V e) = true
}.

Lemma elem_of_upto n i : i ∈ upto n <-> i < n.
Proof.
  unfold upto. rewrite list_elem_of_fmap. split.
  - intros (k & -> & Hk%elem_of_seq). lia.
  - intros Hi. exists (N.to_nat i). split; [lia|]. apply elem_of_seq. lia.
Qed.
Lemma upto_nodup n : NoDup (upto n).
Proof. unfold upto. apply NoDup_fmap; [intros ? ? ?; lia|apply NoDup_seq]. Qed.

Lemma div_ceil_spec a b : 0 < b -> a <= b * div_ceil a b /\ (0 < a -> b * (div_ceil a b - 1) < a) /\ (a = 0 -> div_ceil a b = 0).
Proof.
  intros Hb. unfold div_ceil. pose proof (N.div_mod (a + b - 1) b ltac:(lia)) as E. pose proof (N.mod_lt (a + b - 1) b ltac:(lia)) as Hm.
  split; [nia|]. split; [|intros ->; rewrite N.div_small; lia]. intros Ha. destruct ((a + b - 1) / b) as [|k] eqn:Ek; [nia|]. rewrite <- Ek in *. nia.
Qed.

(** A set of names that entries bear, its words long enough for every id. *)
Record set_good (V : IndexView) (s : NameSet) : Prop := {
  sg_words : Forall word_ok (words s);
  sg_room id : id < name_count V -> id / 64 < len (words s);
  sg_len : set_len s = len (set_ids s);
  sg_borne id : id ∈ set_ids s -> borne V id
}.

Lemma set_ids_spec V s : set_good V s -> NoDup (set_ids s) /\ forall id, id ∈ set_ids s <-> bit (words s) id.
Proof.
  intros [Hw _ _ _]. destruct (word_ids_spec (words s) 0 Hw) as [Hs Hin]. split; [by apply sorted_nodup|].
  intros id. unfold set_ids. rewrite Hin, N.sub_0_r. split; [tauto|]. intros ?. split; [lia|done].
Qed.

Lemma chunk_words_pos {P : Pool} n : 0 < chunk_words n.
Proof. unfold chunk_words. change (CHUNK_NAMES_MIN / 64) with 512. lia. Qed.

(** ** Matching the names is matching the entries *)

Section matching.
Context `{Unicode, !UnicodeAscii, !UnicodeText} {E : Env} {M : Memchr} {Mok : MemchrOk M}.
Context (V : IndexView) {Vok : ViewOk V} {Nok : NamesOk V} (q : ParsedQuery) (mount : list N).
Hypothesis wild_ok : Forall compiled_from (wildcards q) /\ Forall compiled_from (path_wildcards q).
Notation c := (compiled_new q mount).
Hypothesis no_nul : forall lit, prefilter c = Some lit \/ c_path_piece c = Some lit -> 0 ∉ lit.

(** A name matches. *)
Definition id_ok (id : N) : Prop := name_hit q (v_raw V id) (v_folded V id).

Lemma borne_by id : borne V id -> exists e, e ∈ v_live V /\ v_name_id V e = id.
Proof. intros Hb. destruct (v_name_chain V id) as [|e l] eqn:El; [done|]. exists e. apply vo_chain. rewrite El. left. Qed.

Lemma bearers_spec id e : e ∈ bearers V id <-> e ∈ v_live V /\ v_name_id V e = id /\ v_synthetic V e = false.
Proof. unfold bearers. rewrite list_elem_of_filter, (proj2 (vo_chain id) e). clear. tauto. Qed.
Lemma bearers_nodup id : NoDup (bearers V id).
Proof. apply NoDup_filter, vo_chain. Qed.

Lemma bearers_all_nodup l : NoDup l -> NoDup (flat_map (bearers V) l).
Proof.
  induction 1 as [|id l Hni Hnd IH]; [constructor|]. simpl. apply NoDup_app. split_and!; [apply bearers_nodup| |done].
  intros e (_ & He & _)%bearers_spec Hin%list_elem_of_In. apply in_flat_map in Hin as (id' & Hid'%list_elem_of_In & Hc%list_elem_of_In).
  apply bearers_spec in Hc as (_ & Hc & _). congruence.
Qed.

Lemma bearers_all_in l e : e ∈ flat_map (bearers V) l <-> e ∈ v_live V /\ v_name_id V e ∈ l /\ v_synthetic V e = false.
Proof.
  rewrite list_elem_of_In, in_flat_map. split.
  - intros (id & Hid%list_elem_of_In & Hc%list_elem_of_In). apply bearers_spec in Hc as (? & <- & ?). done.
  - intros (Hl & Hid & Hs). exists (v_name_id V e). split; apply list_elem_of_In; [done|by apply bearers_spec].
Qed.

(** The count of a name's entries is right without walking its chain. *)
Lemma entries_bearing_spec id : entries_bearing V id = len (bearers V id).
Proof.
  unfold entries_bearing. destruct (name_may_bear_synthetic V id) eqn:Em; [done|]. rewrite no_count. unfold bearers, len. do 2 f_equal.
  symmetry. apply TopK.filter_all. apply Forall_forall. intros e [Hl Hid]%vo_chain. destruct (v_synthetic V e) eqn:Es; [|done].
  pose proof (no_synthetic e Hl Es) as Hb. congruence.
Qed.

(** *** One name *)

Section lens.
Context {S : Type} (get : S -> Watch) (set : Watch -> S -> S).
Hypothesis get_set : forall w s, get (set w s) = w.
Hypothesis set_set : forall w w' s, set w (set w' s) = set w s.
Hypothesis set_get : forall s, set (get s) s = s.

Lemma wp_skipped tested id s : watch_ok (get s) -> borne V id ->
  wp (name_skipped V q c get set tested id) (fun r s' => exists w', s' = set w' s /\ watch_ok w' /\
    (r = false -> tested = true -> id_ok id) /\
    (spent (w_budget w') = false -> spent (w_budget (get s)) = false /\ (r = false <-> (tested = true -> id_ok id)))) s.
Proof.
  intros Hw Hb. unfold name_skipped. destruct tested; [|apply wp_ret; exists (get s); rewrite set_get; split_and!; [done|done|done|]; intros Hs; split; [done|]; split; [done|done]].
  apply wp_bind, wp_zoom. destruct (tick_spec _ Hw) as (w1 & Hw1 & _ & _ & Ht).
  assert (Hgo : (spent (w_budget w1) = false -> spent (w_budget (get s)) = false) -> forall r, (r = true -> spent (w_budget w1) = true) ->
    wp (if (r : bool) then st_ret true else m <- st_zoom (fun s => w_budget (get s)) (fun b s => set {| w_budget := b; left := left (get s) |} s)
          (name_matches V q c id) ;; st_ret (negb m)) (fun r s' => exists w', s' = set w' s /\ watch_ok w' /\
    (r = false -> true = true -> id_ok id) /\
    (spent (w_budget w') = false -> spent (w_budget (get s)) = false /\ (r = false <-> (true = true -> id_ok id)))) (set w1 s)).
  { intros Hk r Hr. destruct r; [apply wp_ret; exists w1; split_and!; [done|done|done|]; intros Hs; by rewrite Hr in Hs|].
    apply wp_bind, wp_zoom. rewrite get_set. destruct (borne_by id Hb) as (e & _ & <-).
    eapply wp_mono; [apply wp_keeps; [apply (name_matches_keeps V q mount wild_ok)|apply (wp_name_matches V q mount wild_ok e)]|].
    intros m b' [[A1 A2] Hkeep]. apply wp_ret. rewrite set_set. eexists. split; [done|]. split; [done|]. simpl. split; [rewrite negb_false_iff; intros -> _; by apply A1|]. intros Hs.
    split; [by apply Hk, Hkeep|]. rewrite negb_false_iff. unfold name_ok in *. split; [intros -> _; by apply A1|]. intros Hn. by apply A2, Hn. }
  unfold wp at 1. destruct (left (get s) =? 1).
  - destruct Ht as (-> & _ & Hsp & _). apply Hgo; [|by rewrite Hsp]. rewrite Hsp. intros [[? _]%orb_false_iff _]%orb_false_iff. done.
  - destruct Ht as (-> & Hb1 & _). refine (Hgo _ false _); [by rewrite Hb1|done].
Qed.
End lens.

(** *** The marks of a chunk *)

Definition sum_over (f : N -> N) (l : list N) : N := foldr (fun x n => f x + n) 0 l.

(** A chunk marked [m], of its names [l], over words that were [ws]. *)
Record marks_ok (tested : bool) (lo : N) (ws : list N) (b : Budget) (l m : list N) (k : Marks) : Prop := {
  mk_watch : watch_ok (k_watch k);
  mk_words : Forall word_ok (k_words k) /\ len (k_words k) = len ws;
  mk_bits j : bit (k_words k) j <-> bit ws j \/ lo + j ∈ m;
  mk_len : k_len k = len m;
  mk_total : k_total k = sum_over (entries_bearing V) m;
  mk_sub : m `sublist_of` l;
  mk_spent : spent (w_budget (k_watch k)) = false -> spent b = false /\ forall id, id ∈ l -> id ∈ m <-> (tested = true -> id_ok id)
}.

Lemma sum_over_app f a b : sum_over f (a ++ b) = sum_over f a + sum_over f b.
Proof. induction a as [|x a IH]; simpl; [done|]. rewrite IH. lia. Qed.

Lemma wp_mark tested lo ws b l m k id : marks_ok tested lo ws b l m k -> borne V id -> lo <= id -> id - lo < 64 * len ws -> id ∉ l ->
  wp (mark V q c tested lo id) (fun _ k' => exists m', marks_ok tested lo ws b (l ++ [id]) m' k') k.
Proof.
  intros [W [Hwo Hwl] Hb Hl Ht Hsub Hsp] Hid Hlo Hhi Hni. unfold mark. apply wp_bind.
  eapply wp_mono; [apply (wp_skipped k_watch k_with_watch); [done|done|by intros []|done|done]|].
  intros r k' (w' & -> & Hw' & _ & Hr). destruct r.
  - apply wp_ret. exists m. split; [done|done|done|done|done|by apply sublist_inserts_r|].
    intros Hs. destruct (Hr Hs) as [Hs1 [_ Hr1]]. destruct (Hsp Hs1) as [Hs0 Hin]. split; [done|].
    intros x [Hx| ->%list_elem_of_singleton]%elem_of_app; [by apply Hin|].
    split; [intros Hm; exfalso; exact (Hni (elem_of_sublist _ _ _ Hm Hsub))|]. intros Hx%Hr1. done.
  - assert (Hlt : (id - lo) / 64 < len (k_words k)) by (rewrite Hwl; apply N.Div0.div_lt_upper_bound; lia).
    destruct (getN_is_Some _ _ Hlt) as [w Hw]. apply wp_bind.
    assert (Hset : setN ((id - lo) / 64) (N.lor w (N.shiftl 1 ((id - lo) mod 64))) (k_words k) = Some (<[N.to_nat ((id - lo) / 64) := N.lor w (N.shiftl 1 ((id - lo) mod 64))]> (k_words k))) by (by rewrite setN_some).
    destruct (set_bit _ _ _ _ Hw Hset Hwo) as (H1' & H2' & H3').
    eapply wp_read; [simpl; rewrite Hw; exact Hset|]. apply wp_modify. exists (m ++ [id]). split; simpl.
    + done.
    + split; [done|congruence].
    + intros j. rewrite H3', Hb, elem_of_app, list_elem_of_singleton. assert (j = id - lo <-> lo + j = id) as -> by lia. tauto.
    + rewrite Hl, len_app. done.
    + rewrite Ht, sum_over_app. simpl. lia.
    + apply sublist_app; [exact Hsub|reflexivity].
    + intros Hs. destruct (Hr Hs) as [Hs1 [Hr2 _]]. destruct (Hsp Hs1) as [Hs0 Hin]. split; [done|].
      intros x. rewrite !elem_of_app, !list_elem_of_singleton. intros [Hx| ->].
      * rewrite <- (Hin x Hx). split; [|tauto]. intros [?| ->]; done.
      * split; [|tauto]. intros _. by apply Hr2.
Qed.

Lemma wp_marks tested lo ws b l2 : forall l1 m k, marks_ok tested lo ws b l1 m k -> NoDup (l1 ++ l2) ->
  (forall id, id ∈ l2 -> borne V id /\ lo <= id /\ id - lo < 64 * len ws) ->
  wp (st_for (mark V q c tested lo) l2) (fun _ k' => exists m', marks_ok tested lo ws b (l1 ++ l2) m' k') k.
Proof.
  induction l2 as [|id l2 IH]; intros l1 m k Hk Hnd Hl; cbn [st_for]; [apply wp_ret; exists m; by rewrite app_nil_r|].
  destruct (Hl id) as (Hb & Hlo & Hhi); [left|]. apply wp_bind. eapply wp_mono; [apply (wp_mark tested lo ws b l1 m k id Hk Hb Hlo Hhi)|].
  - apply NoDup_app in Hnd as (_ & Hd & _). intros Hin. apply (Hd id Hin). left.
  - intros [] k' [m' Hk']. replace (l1 ++ id :: l2) with ((l1 ++ [id]) ++ l2) in * by (by rewrite <- app_assoc).
    apply (IH _ m'); [done|done|]. intros x Hx. apply Hl. by right.
Qed.

Lemma needle_some lit : needle q c = Some lit -> match_case q = false /\ prefilter c = Some lit /\ lit <> [] /\ 0 ∉ lit.
Proof.
  unfold needle. destruct (match_case q); [done|]. intros Hl. split_and!; [done|done|by eapply prefilter_ne|apply no_nul; by left].
Qed.

(** The names of a chunk are as good as all of its names. *)
Lemma chunk_names_spec lo hi : hi <= name_count V ->
  exists l, chunk_names V q c lo hi = Some l /\ NoDup l /\ (forall id, id ∈ l -> lo <= id < hi /\ borne V id) /\
    forall id, lo <= id < hi -> borne V id -> (id ∈ l /\ (verify q c = true -> id_ok id)) <-> id_ok id.
Proof.
  intros Hhi. unfold chunk_names, verify. destruct (needle q c) as [lit|] eqn:En.
  - destruct (needle_some lit En) as (Hcase & Hp & Hne & Hz). destruct (no_hits lit lo hi Hne Hz Hhi) as (l & El & Hnd & Hin).
    exists l. split; [done|]. split; [done|]. split; [intros id (? & ? & _)%Hin; done|]. intros id Hr Hb.
    assert (Hneed : id_ok id -> infix lit (v_folded V id)).
    { unfold id_ok. rewrite vo_folded. intros Hn. by eapply (prefilter_necessary q mount); [done|apply vo_raw|apply wild_ok|..]. }
    rewrite Hin. split.
    + intros [(_ & _ & Hi) Hv]. destruct (prefilter_decides_name c) eqn:Ed; [|by apply Hv]. by eapply (prefilter_decides q mount).
    + intros Hok. split; [|done]. split_and!; [lia|lia|done|by apply Hneed].
  - eexists. split; [done|]. split; [|split].
    + apply NoDup_filter, NoDup_fmap; [intros ? ? ?; lia|apply upto_nodup].
    + intros id [Hrc (i & -> & Hi%elem_of_upto)%list_elem_of_fmap]%list_elem_of_filter. split; [lia|]. rewrite no_count in Hrc.
      intros Hx. rewrite Hx in Hrc. done.
    + intros id Hr Hb. rewrite list_elem_of_filter, list_elem_of_fmap. split; [intros [_ Hv]; by apply Hv|]. intros Hok. split; [|done]. split.
      * rewrite no_count. destruct (v_name_chain V id); [done|]. rewrite len_cons. lia.
      * exists (id - lo). split; [lia|]. apply elem_of_upto. lia.
Qed.

Lemma bit_zero ws j : Forall (fun w => w = 0) ws -> ~ bit ws j.
Proof. intros Hz (w & Hw & Hb). pose proof (Forall_lookup_1 _ _ _ _ Hz Hw) as Ew. simpl in Ew. subst w. by rewrite N.bits_0 in Hb. Qed.

Lemma bit_app ws1 ws2 j : bit (ws1 ++ ws2) j <-> (j < 64 * len ws1 /\ bit ws1 j) \/ (64 * len ws1 <= j /\ bit ws2 (j - 64 * len ws1)).
Proof.
  revert j. induction ws1 as [|w ws1 IH]; intros j; cbn [app].
  - change (len (@nil N)) with 0. replace (j - 64 * 0) with j by lia. split; [intros ?; right; split; [lia|done]|]. intros [[? _]|[_ ?]]; [lia|done].
  - rewrite !bit_cons, IH, len_cons. replace (j - 64 * (1 + len ws1)) with (j - 64 - 64 * len ws1) by lia. split.
    + intros [[? ?]|[? [[? ?]|[? ?]]]]; [left; split; [lia|by left]|left; split; [lia|right; done]|right; split; [lia|done]].
    + intros [[? [?|[? ?]]]|[? ?]]; [by left|right; split; [lia|]; left; split; [lia|done]|right; split; [lia|]; right; split; [lia|done]].
Qed.

(** The words, counts and budget of a pass over the ids from [lo] to [hi]. *)
Record pass_ok (lo hi : N) (b : Budget) (ws m : list N) (l t : N) (b' : Budget) : Prop := {
  ps_words : Forall word_ok ws;
  ps_bits j : bit ws j <-> lo + j ∈ m;
  ps_len : l = len m;
  ps_total : t = sum_over (entries_bearing V) m;
  ps_nodup : NoDup m;
  ps_in id : id ∈ m -> lo <= id < hi /\ borne V id;
  ps_spent : spent b' = false -> spent b = false /\ forall id, lo <= id < hi -> borne V id -> id ∈ m <-> id_ok id
}.

Lemma match_chunk_spec per i ws b lo hi : chunk_ids i per (name_count V) = (lo, hi) -> Forall (fun w => w = 0) ws -> hi - lo <= 64 * len ws ->
  exists ws' l t b' m, match_chunk V q c per i ws b = Some (ws', l, t, b') /\ len ws' = len ws /\ pass_ok lo hi b ws' m l t b'.
Proof.
  intros Ei Hz Hl. unfold match_chunk. rewrite Ei. assert (Hhi : hi <= name_count V) by (unfold chunk_ids in Ei; injection Ei as _ <-; apply N.le_min_r).
  destruct (chunk_names_spec lo hi Hhi) as (names & En & Hnd & Hin & Hok). rewrite En. cbn [mbind option_bind].
  set (k0 := {| k_watch := watch_new b; k_words := ws; k_len := 0; k_total := 0 |}).
  assert (Hk0 : marks_ok (verify q c) lo ws b [] [] k0).
  { split; simpl; try done.
    - split; [|done]. eapply Forall_impl; [exact Hz|]. by intros w ->.
    - intros j. rewrite elem_of_nil. tauto.
    - intros Hs. split; [done|]. intros id Hx. by apply not_elem_of_nil in Hx. }
  destruct (proj1 (wp_run _ _ _) (wp_marks (verify q c) lo ws b names [] [] k0 Hk0 Hnd ltac:(intros id Hid; destruct (Hin id Hid); split_and!; [done|lia|lia])))
    as ([] & k & Er & m & [K1 [K2 K2'] K3 K4 K5 K6 K7]).
  rewrite Er. cbn [mbind option_bind snd]. eexists _, _, _, _, m. split; [done|]. split; [done|]. split; [done| |done|done| | |].
  - intros j. rewrite K3. split; [|tauto]. intros [Hb|?]; [by apply bit_zero in Hb|done].
  - by eapply sublist_NoDup.
  - intros id Hm. apply Hin. exact (elem_of_sublist _ _ _ Hm K6).
  - intros Hs. destruct (K7 Hs) as [Hs0 Hm]. split; [done|]. intros id Hr Hb. rewrite <- (Hok id Hr Hb). split.
    + intros Hx. pose proof (elem_of_sublist _ _ _ Hx K6) as Hx'. split; [done|]. by apply (Hm id Hx').
    + intros [Hx Hv]. by apply (Hm id Hx).
Qed.

(** An empty range, and one pass after another. *)
Lemma pass_empty lo hi b : hi <= lo -> pass_ok lo hi b [] [] 0 0 b.
Proof.
  intros Hle. split; [constructor| |done|done|constructor|by intros id ?%not_elem_of_nil|].
  - intros j. rewrite elem_of_nil. split; [by intros ?%bit_nil|done].
  - intros Hs. split; [done|]. intros id Hid. lia.
Qed.

Lemma pass_app lo mid hi b b1 b2 ws1 m1 l1 t1 ws2 m2 l2 t2 : lo <= mid <= hi -> mid <= lo + 64 * len ws1 -> mid = lo + 64 * len ws1 \/ mid = hi ->
  pass_ok lo mid b ws1 m1 l1 t1 b1 -> pass_ok mid hi b1 ws2 m2 l2 t2 b2 -> pass_ok lo hi b (ws1 ++ ws2) (m1 ++ m2) (l1 + l2) (t1 + t2) b2.
Proof.
  intros Hm Hw Hend [p1 p2 p3 p4 p5 p6 p7] [r1 r2 r3 r4 r5 r6 r7]. split.
  - by apply Forall_app.
  - intros j. rewrite bit_app, p2, r2, elem_of_app. split.
    + intros [[_ ?]|[Hj H2]]; [by left|right]. destruct (r6 _ H2) as [Hr _].
      by replace (lo + j) with (mid + (j - 64 * len ws1)) by lia.
    + intros [H1'|H2]; [left; split; [|done]; destruct (p6 _ H1'); lia|right]. destruct (r6 _ H2) as [Hr _]. split; [lia|].
      by replace (mid + (j - 64 * len ws1)) with (lo + j) by lia.
  - rewrite p3, r3, len_app. done.
  - rewrite p4, r4, sum_over_app. done.
  - apply NoDup_app. split_and!; [done| |done]. intros x Hx1 Hx2. destruct (p6 x Hx1) as [? _], (r6 x Hx2) as [? _]. lia.
  - intros id [H1'|H2]%elem_of_app; [destruct (p6 id H1')|destruct (r6 id H2)]; (split; [lia|done]).
  - intros Hs. destruct (r7 Hs) as [Hs1 R7]. destruct (p7 Hs1) as [Hs0 P7]. split; [done|]. intros id Hid Hb. rewrite elem_of_app.
    destruct (N.lt_ge_cases id mid) as [Hlt|Hge].
    + rewrite <- (P7 id) by (done || lia). split; [|tauto]. intros [?|H2]; [done|]. destruct (r6 id H2) as [? _]. lia.
    + rewrite <- (R7 id) by (done || lia). split; [|tauto]. intros [H1'|?]; [|done]. destruct (p6 id H1') as [? _]. lia.
Qed.

(** All the chunks from [i] on, which start at id [lo]. *)
Lemma match_chunks_spec per n : 0 < per -> forall i ws b lo, Forall (fun w => w = 0) ws -> lo = N.min (i * per * 64) (name_count V) ->
  N.min (i * per) (div_ceil (name_count V) 64) + len ws = div_ceil (name_count V) 64 -> N.of_nat n = div_ceil (len ws) per ->
  exists ws' l t b' m, match_chunks V q c n per i ws b = Some (ws', l, t, b') /\ len ws' = len ws /\ pass_ok lo (name_count V) b ws' m l t b'.
Proof.
  intros Hper. destruct (div_ceil_spec (name_count V) 64 ltac:(lia)) as (D1 & D2 & D3).
  induction n as [|n IH]; intros i ws b lo Hz Elo Hlen Hn; cbn [match_chunks]; destruct (div_ceil_spec (len ws) per Hper) as (A1 & A2 & A3).
  - assert (ws = []) as -> by (destruct ws; [done|]; rewrite len_cons in *; nia). change (len (@nil N)) with 0 in *.
    eexists _, _, _, _, []. split; [done|]. split; [done|]. apply pass_empty. nia.
  - assert (Hpos : 0 < len ws) by (destruct (decide (len ws = 0)) as [E0|]; [rewrite (A3 E0) in Hn; lia|lia]). specialize (A2 Hpos).
    assert (Hi : i * per < div_ceil (name_count V) 64) by lia.
    assert (Hnames : 0 < name_count V) by (destruct (decide (name_count V = 0)) as [E0|]; [rewrite (D3 E0) in Hi; lia|lia]). specialize (D2 Hnames).
    rewrite N.min_l in Hlen by lia. assert (Elo' : lo = i * per * 64) by (rewrite Elo; nia). set (mid := N.min ((i + 1) * per * 64) (name_count V)).
    assert (Ei : chunk_ids i per (name_count V) = (lo, mid)) by (unfold chunk_ids; f_equal; lia).
    assert (Ht : len (take (N.to_nat per) ws) = N.min per (len ws)) by (unfold len; rewrite length_take; lia).
    assert (Hd : len (drop (N.to_nat per) ws) = len ws - per) by (unfold len; rewrite length_drop; lia).
    destruct (match_chunk_spec per i (take (N.to_nat per) ws) b _ _ Ei) as (ws1 & l1 & t1 & b1 & m1 & -> & Hl1 & P1);
      [by apply Forall_take|rewrite Ht; nia|]. cbn [mbind option_bind].
    destruct (IH (i + 1) (drop (N.to_nat per) ws) b1 mid) as (ws2 & l2 & t2 & b2 & m2 & -> & Hl2 & P2); [by apply Forall_drop|done|rewrite Hd; nia| |].
    { rewrite Hd. destruct (div_ceil_spec (len ws - per) per Hper) as (B1 & B2 & B3).
      destruct (decide (len ws - per = 0)) as [E0|]; [rewrite (B3 E0)|specialize (B2 ltac:(lia))]; nia. }
    cbn [mbind option_bind]. eexists _, _, _, _, (m1 ++ m2). split; [done|]. split; [rewrite len_app; lia|].
    apply (pass_app lo mid _ b b1 b2); [unfold mid; nia|unfold mid; nia|unfold mid; nia|done|done].
Qed.

Section passes.
Context {P : Pool}.

Lemma sum_bearing l : sum_over (entries_bearing V) l = len (flat_map (bearers V) l).
Proof. induction l as [|x l IH]; simpl; [done|]. by rewrite IH, entries_bearing_spec, len_app. Qed.

(** [match_names] ends, and unless the budget ran out its set is exactly the
    names that match, and its total the number of their entries. *)
Lemma match_names_spec b : exists s t b', match_names V q c b = Some (s, t, b') /\ set_good V s /\ t = len (flat_map (bearers V) (set_ids s)) /\
  (spent b' = false -> spent b = false /\ forall id, id ∈ set_ids s <-> borne V id /\ id_ok id).
Proof.
  unfold match_names. set (per := chunk_words (name_count V)). set (ws := replicate (N.to_nat (div_ceil (name_count V) 64)) 0).
  assert (Hl : len ws = div_ceil (name_count V) 64) by (unfold len, ws; rewrite length_replicate; lia).
  destruct (match_chunks_spec per (N.to_nat (div_ceil (len ws) per)) (chunk_words_pos _) 0 ws b 0) as (ws' & l & t & b' & m & E' & Hl' & [p1 p2 p3 p4 p5 p6 p7]).
  - apply Forall_replicate. done.
  - lia.
  - rewrite Hl. lia.
  - lia.
  - rewrite E'. cbn [mbind option_bind]. eexists _, _, _. split; [done|]. set (s := {| words := ws'; set_len := l |}).
    destruct (word_ids_spec ws' 0 p1) as [Hs Hin]. assert (Hm : forall id, id ∈ set_ids s <-> id ∈ m).
    { intros id. unfold set_ids. simpl. rewrite Hin, N.sub_0_r, p2. split; [tauto|]. intros ?. split; [lia|done]. }
    assert (Hp : set_ids s ≡ₚ m) by (apply NoDup_Permutation; [by apply sorted_nodup|done|done]).
    split; [|split].
    + split; simpl; [done| |by rewrite p3; unfold len; rewrite Hp|intros id Hid%Hm; by apply p6].
      intros id Hid. rewrite Hl', Hl. destruct (div_ceil_spec (name_count V) 64 ltac:(lia)) as [D _]. apply N.Div0.div_lt_upper_bound. lia.
    + rewrite p4, sum_bearing. unfold len. f_equal. apply Permutation_length. by apply Permutation_flat_map.
    + intros Hsp. destruct (p7 Hsp) as [Hs0 Hok]. split; [done|]. intros id. rewrite Hm. split.
      * intros Hid. pose proof (p6 id Hid) as [Hr Hb]. split; [done|]. by apply Hok.
      * intros [Hb Hi]. apply Hok; [|done|done]. pose proof (no_range id Hb). unfold name_count. lia.
Qed.
End passes.
End matching.

(** ** Sizes *)

(** What an entry adds to a sum of sizes. *)
Definition size_of (V : IndexView) (idx : N) : N := if v_is_dir V idx then 0 else default 0 (v_size V idx).
Definition sizes (V : IndexView) (l : list N) : N := foldr (fun idx sum => size_of V idx + sum) 0 l.

(** The sum is the same in any order: it stops at [u64::MAX]. *)
Lemma files_size_sum V l : files_size V l = N.min u64_max (sizes V l).
Proof.
  unfold files_size. assert (Hgo : forall acc, acc <= u64_max ->
    fold_left (fun sum idx => if v_is_dir V idx then sum else match v_size V idx with Some s => saturating_add sum s | None => sum end) l acc
    = N.min u64_max (acc + sizes V l)).
  { induction l as [|x l IH]; intros acc Ha; simpl; [lia|]. unfold size_of at 1. destruct (v_is_dir V x); [rewrite IH by done; lia|].
    destruct (v_size V x) as [s|]; simpl; [|rewrite IH by done; lia]. rewrite IH by (unfold saturating_add; lia). unfold saturating_add. lia. }
  rewrite Hgo by done. f_equal.
Qed.

Lemma sizes_perm V l l' : l ≡ₚ l' -> sizes V l = sizes V l'.
Proof. intros Hp. unfold sizes. induction Hp; simpl; lia. Qed.
Lemma sizes_app V l l' : sizes V (l ++ l') = sizes V l + sizes V l'.
Proof. unfold sizes. induction l as [|x l IH]; simpl; [done|]. rewrite IH. lia. Qed.
Lemma files_size_perm V l l' : l ≡ₚ l' -> files_size V l = files_size V l'.
Proof. intros Hp. rewrite !files_size_sum. f_equal. by apply sizes_perm. Qed.

Lemma word_ids_app base ws1 ws2 : word_ids base (ws1 ++ ws2) = word_ids base ws1 ++ word_ids (base + 64 * len ws1) ws2.
Proof.
  revert base. induction ws1 as [|w ws1 IH]; intros base; cbn [app word_ids].
  - change (len (@nil N)) with 0. by rewrite N.mul_0_r, N.add_0_r.
  - rewrite IH, len_cons, <- app_assoc. do 3 f_equal. lia.
Qed.

Section sizes.
Context {P : Pool} (V : IndexView).

Lemma names_size_chunks_spec per n : 0 < per -> forall i ws, (len ws <= N.of_nat n * per) ->
  names_size_chunks V n per i ws = N.min u64_max (sizes V (flat_map (bearers V) (word_ids (i * per * 64) ws))).
Proof.
  intros Hper. induction n as [|n IH]; intros i ws Hl; cbn [names_size_chunks].
  - destruct ws; [done|]. rewrite len_cons in Hl. lia.
  - assert (Hd : len (drop (N.to_nat per) ws) = len ws - per) by (unfold len; rewrite length_drop; lia).
    rewrite IH by (rewrite Hd; nia). rewrite files_size_sum. rewrite <- (take_drop (N.to_nat per) ws) at 3.
    rewrite word_ids_app, flat_map_app, sizes_app. unfold saturating_add.
    destruct (decide (per <= len ws)) as [Hge|Hlt].
    + assert (Ht : len (take (N.to_nat per) ws) = per) by (unfold len in *; rewrite length_take; lia). rewrite Ht.
      replace ((i + 1) * per * 64) with (i * per * 64 + 64 * per) by lia. lia.
    + assert (Hnil : drop (N.to_nat per) ws = []) by (apply drop_ge; unfold len in Hlt; lia). rewrite Hnil. simpl. lia.
Qed.

Lemma names_files_size_spec s : names_files_size V s = files_size V (flat_map (bearers V) (set_ids s)).
Proof.
  unfold names_files_size. rewrite names_size_chunks_spec; [by rewrite files_size_sum|apply chunk_words_pos|].
  destruct (div_ceil_spec (len (words s)) (chunk_words (name_count V)) (chunk_words_pos _)) as [D _]. lia.
Qed.
End sizes.
