(* ===== verification/NameRows.v ===== *)
(** Rows by name: [names_in_order] lists the matched names in order whichever way
    it goes, and [name_level_refs] walks them to exactly the page of all rows
    sorted by name. *)

From stdpp Require Import gmap.
From stdpp Require Import base option list sets sorting.
From Stdlib Require Import NArith ZArith Lia.
From S2P Require Import Prelude Types Wtf8 Fold Text Dates Budget Wildcard Query NameStore NameOrder Prefilter Compiled Volume FolderPaths TopK Engine FolderRank NameLevel.

(** ** The matched names in order *)

Lemma sorted_reverse {A} (R : relation A) l : StronglySorted R l -> StronglySorted (fun a b => R b a) (reverse l).
Proof.
  induction 1 as [|x l Hs IH Hx]; [constructor|]. rewrite reverse_cons. apply StronglySorted_app_2; [|done|by repeat constructor].
  intros a b Ha Hb%list_elem_of_singleton. rewrite elem_of_reverse in Ha. subst b. exact (proj1 (Forall_forall _ _) Hx a Ha).
Qed.

Lemma sorted_filter {A} (R : relation A) (Q : A -> Prop) `{!forall x, Decision (Q x)} l : StronglySorted R l -> StronglySorted R (base.filter Q l).
Proof.
  induction 1 as [|x l Hs IH Hx]; [constructor|]. rewrite filter_cons. case_decide; [|done]. apply StronglySorted_cons. split; [|done].
  apply Forall_forall. intros y [_ Hy]%list_elem_of_filter. by apply (proj1 (Forall_forall _ _) Hx).
Qed.

Lemma reverse_filter {A} (Q : A -> Prop) `{!forall x, Decision (Q x)} l : base.filter Q (reverse l) = reverse (base.filter Q l).
Proof.
  induction l as [|x l IH]; [done|]. rewrite reverse_cons, filter_app, IH, filter_cons, (filter_cons Q x l). case_decide; [by rewrite reverse_cons|by rewrite app_nil_r].
Qed.

Section ordered.
Context {Srt : SortUnstable} {Sok : SortUnstableOk Srt} {M : Memchr}.
Context (V : IndexView).

#[export] Instance by_name_weak : WeakCmp (by_name_key V).
Proof. split; intros *; unfold by_name_key; [apply key_cmp_antisym|]. apply (key_le_trans (name_key V a) (name_key V b) (name_key V c)). Qed.

Lemma by_name_eq a b : by_name_key V a b = Eq <-> a = b.
Proof. unfold by_name_key. rewrite key_cmp_eq. unfold name_key. split; [by intros [= _ ?]|by intros ->]. Qed.

(** [a] comes before [b] in a sort in direction [d]. *)
Definition name_before (d : SortDir) (a b : N) : Prop := match d with Asc => by_name_key V a b = Lt | Desc => by_name_key V b a = Lt end.

Lemma sort_names_spec d l : NoDup l ->
  let r := if_reversed (match d with Desc => true | Asc => false end) (sort_unstable (by_name_key V) l) in r ≡ₚ l /\ StronglySorted (name_before d) r.
Proof.
  intros Hnd. assert (Hp : sort_unstable (by_name_key V) l ≡ₚ l) by (apply su_perm, _).
  assert (Hs : StronglySorted (fun a b => by_name_key V a b = Lt) (sort_unstable (by_name_key V) l)).
  { assert (Hnd' : NoDup (sort_unstable (by_name_key V) l)) by (by rewrite Hp). pose proof (su_sorted (by_name_key V) l _) as Hs. clear Hp.
    induction Hs as [|x k Hs IH Hx]; [constructor|]. apply NoDup_cons in Hnd' as [Hni Hnd']. apply StronglySorted_cons. split; [|by apply IH].
    apply Forall_forall. intros y Hy. pose proof (proj1 (Forall_forall _ _) Hx y Hy) as Hle. simpl in Hle.
    destruct (by_name_key V x y) eqn:Ec; [|done|done]. apply by_name_eq in Ec as ->. done. }
  destruct d; simpl; [done|]. split; [by rewrite reverse_Permutation|]. by apply sorted_reverse.
Qed.

Lemma matched_only_spec s l : set_good V s -> Forall (fun id => id < name_count V) l ->
  matched_only s l = Some (base.filter (fun id => id ∈ set_ids s) l).
Proof.
  intros Hs Hl. induction Hl as [|id l Hid Hl IH]; cbn [matched_only]; [done|].
  destruct (set_contains_bit s id (sg_room _ _ Hs id Hid)) as (r & -> & Hr). cbn [mbind option_bind]. rewrite IH. cbn [mbind option_bind].
  rewrite filter_cons. destruct (set_ids_spec V s Hs) as [_ Hin]. f_equal. case_decide as Hd; rewrite Hin, <- Hr in Hd; [by rewrite Hd|].
  by apply not_true_is_false in Hd as ->.
Qed.

Lemma merge_names_perm desc a : forall b, merge_names V desc a b ≡ₚ a ++ b.
Proof.
  induction a as [|x a IHa]; intros b; induction b as [|y b IHb]; cbn [merge_names].
  - done.
  - by rewrite IHb.
  - rewrite app_nil_r. constructor. rewrite IHa, app_nil_r. done.
  - destruct (xorb _ _).
    + rewrite IHb. by rewrite (Permutation_middle (x :: a)).
    + cbn [app]. constructor. apply IHa.
Qed.

Lemma name_before_trans d a b c : name_before d a b -> name_before d b c -> name_before d a c.
Proof. unfold name_before, by_name_key. destruct d; intros H1 H2; [by eapply key_cmp_lt_trans|by eapply key_cmp_lt_trans]. Qed.

Lemma merge_names_sorted d a : forall b, (forall x, x ∈ a -> x ∈ b -> False) -> StronglySorted (name_before d) a -> StronglySorted (name_before d) b ->
  StronglySorted (name_before d) (merge_names V (match d with Desc => true | Asc => false end) a b).
Proof.
  set (desc := match d with Desc => true | Asc => false end).
  induction a as [|x a IHa]; intros b Hdis Ha; induction b as [|y b IHb]; intros Hb; cbn [merge_names].
  - constructor.
  - apply StronglySorted_cons in Hb as [Hy Hb]. apply StronglySorted_cons. split; [|apply IHb; [by intros ? ?%not_elem_of_nil|done]].
    change (Forall (name_before d y) (merge_names V desc [] b)). rewrite merge_names_perm. done.
  - apply StronglySorted_cons in Ha as [Hx Ha]. apply StronglySorted_cons. split; [rewrite merge_names_perm, app_nil_r; done|].
    apply IHa; [by intros ? _ ?%not_elem_of_nil|done|constructor].
  - pose proof Ha as [Hx Ha']%StronglySorted_cons. pose proof Hb as [Hy Hb']%StronglySorted_cons.
    assert (Hne : by_name_key V y x <> Eq) by (rewrite by_name_eq; intros ->; apply (Hdis x); left).
    assert (Hc : if xorb (match by_name_key V y x with Lt => true | _ => false end) desc then name_before d y x else name_before d x y).
    { unfold name_before, desc. pose proof (wc_opp (cmp:=by_name_key V) y x) as Ho. destruct d, (by_name_key V y x) eqn:Ec; simpl in *; done. }
    change (key_cmp (name_key V y) (name_key V x)) with (by_name_key V y x).
    destruct (xorb _ desc); apply StronglySorted_cons; (split; [|]).
    + change (Forall (name_before d y) (merge_names V desc (x :: a) b)). rewrite merge_names_perm. apply Forall_app. split; [|done].
      constructor; [done|]. eapply Forall_impl; [exact Hx|]. intros z Hz. by eapply name_before_trans.
    + apply (IHb ltac:(intros z Hz Hz'; apply (Hdis z Hz); by right) Hb').
    + rewrite merge_names_perm. apply Forall_app. split; [done|]. constructor; [done|]. eapply Forall_impl; [exact Hy|]. intros z Hz. by eapply name_before_trans.
    + apply IHa; [|done|done]. intros z Hz Hz'. apply (Hdis z); [by right|done].
Qed.

Context {Nok : NamesOk V}.

Lemma in_order_parts s : set_good V s ->
  base.filter (fun id => id ∈ set_ids s) (order (v_names V)) ++ base.filter (fun id => id ∈ set_ids s) (unranked (v_names V)) ≡ₚ set_ids s.
Proof.
  intros Hs. destruct (set_ids_spec V s Hs) as [Hnd _].
  assert (Hf : forall l : list N, base.filter (fun id => id ∈ set_ids s) l = base.filter (fun id => id ∈ set_ids s) (base.filter (fun id => borne V id) l)).
  { intros l. rewrite list_filter_filter_l; [done|]. intros id Hid. by apply (sg_borne V s Hs). }
  rewrite (Hf (order _)), (Hf (unranked _)), <- filter_app, no_parts. apply NoDup_Permutation; [apply NoDup_filter, NoDup_filter, upto_nodup|done|].
  intros id. rewrite !list_elem_of_filter, elem_of_upto. split; [tauto|]. intros Hid. pose proof (sg_borne V s Hs id Hid) as Hb.
  split_and!; [done|done|by apply no_range].
Qed.

(** [names_in_order] lists the set once, in the order asked for, whichever way it
    goes. *)
Lemma names_in_order_spec s d : set_good V s -> exists l, names_in_order V s d = Some l /\ l ≡ₚ set_ids s /\ StronglySorted (name_before d) l.
Proof.
  intros Hs. destruct (set_ids_spec V s Hs) as [Hnd _]. unfold names_in_order. set (desc := match d with Desc => true | Asc => false end).
  destruct (_ || _); [eexists; split; [done|by apply sort_names_spec]|]. destruct no_listed as [Ho Hu].
  rewrite (matched_only_spec s _ Hs Hu). cbn [mbind option_bind].
  assert (Ho' : Forall (fun id => id < name_count V) (if_reversed desc (order (v_names V)))) by (unfold if_reversed; destruct desc; [by apply Forall_reverse|done]).
  rewrite (matched_only_spec s _ Hs Ho'). cbn [mbind option_bind]. eexists. split; [done|].
  pose proof (in_order_parts s Hs) as Hp. set (un := base.filter (fun id => id ∈ set_ids s) (unranked (v_names V))) in *.
  assert (Hndp : NoDup (base.filter (fun id => id ∈ set_ids s) (order (v_names V)) ++ un)) by (by rewrite Hp).
  apply NoDup_app in Hndp as (Hn1 & Hdis & Hn2). destruct (sort_names_spec d un Hn2) as [Hp2 Hs2]. fold desc in Hp2, Hs2.
  assert (Hr : base.filter (fun id => id ∈ set_ids s) (if_reversed desc (order (v_names V))) ≡ₚ base.filter (fun id => id ∈ set_ids s) (order (v_names V)) /\
    StronglySorted (name_before d) (base.filter (fun id => id ∈ set_ids s) (if_reversed desc (order (v_names V))))).
  { assert (Hso : StronglySorted (fun a b => by_name_key V a b = Lt) (base.filter (fun id => id ∈ set_ids s) (order (v_names V)))).
    { rewrite <- (list_filter_filter_l (fun id => id ∈ set_ids s) (fun id => borne V id)) by (intros id Hid; by apply (sg_borne V s Hs)).
      apply sorted_filter, no_sorted. }
    unfold if_reversed, desc. destruct d; [done|]. rewrite reverse_filter. split; [by rewrite reverse_Permutation|]. by apply sorted_reverse. }
  destruct Hr as [Hr1 Hr2]. split; [rewrite merge_names_perm, Hr1, Hp2; exact Hp|].
  apply merge_names_sorted; [|done|done]. intros x. rewrite Hr1, Hp2. apply Hdis.
Qed.
End ordered.

(** ** Rows by name *)

Lemma take_app_N {A} (n : nat) (l k : list A) : take n (l ++ k) = take n l ++ take (n - length l) k.
Proof. apply take_app. Qed.

Section rows.
Context {Srt : SortUnstable} {Sok : SortUnstableOk Srt} `{Unicode} {M : Memchr}.
Context (V : IndexView) {Vok : ViewOk V}.

(** The groups of [names], every row of them. *)
Fixpoint all_rows (fuel : nat) (d : SortDir) (names : list N) : list N :=
  match names, fuel with
  | first :: names, S fuel =>
      let '(group, names) := take_group V (v_folded V first) names in
      let group := sort_unstable N.compare (bearers V first ++ group) in
      match d with Desc => reverse group | Asc => group end ++ all_rows fuel d names
  | _, _ => []
  end.

Lemma group_rows_spec group : forall seen start stop,
  group_rows group seen start stop = (drop (N.to_nat (start - seen)) (take (N.to_nat (stop - seen)) group), seen + len (take (N.to_nat (stop - seen)) group)).
Proof.
  induction group as [|e group IH]; intros seen start stop; cbn [group_rows].
  - rewrite take_nil, drop_nil. f_equal. change (len (@nil N)) with 0. lia.
  - destruct (N.leb_spec stop seen) as [Hle|Hlt].
    + replace (stop - seen) with 0 by lia. simpl. rewrite drop_nil. f_equal. change (len (@nil N)) with 0. lia.
    + rewrite IH. replace (N.to_nat (stop - seen)) with (S (N.to_nat (stop - (seen + 1)))) by lia. cbn [take]. rewrite len_cons. f_equal; [|lia].
      destruct (N.leb_spec start seen).
      * replace (start - seen) with 0 by lia. replace (start - (seen + 1)) with 0 by lia. done.
      * replace (N.to_nat (start - seen)) with (S (N.to_nat (start - (seen + 1)))) by lia. done.
Qed.

Lemma take_group_spec f names : forall g rest, take_group V f names = (g, rest) ->
  exists pre, names = pre ++ rest /\ g = flat_map (bearers V) pre /\ Forall (fun id => v_folded V id = f) pre /\
    forall id rest', rest = id :: rest' -> v_folded V id <> f.
Proof.
  induction names as [|id names IH]; intros g rest; cbn [take_group].
  - intros [= <- <-]. exists []. split_and!; [done|done|constructor|done].
  - case_bool_decide as Ef.
    + destruct (take_group V f names) as [g' rest'] eqn:Eg. intros [= <- <-]. destruct (IH _ _ eq_refl) as (pre & -> & -> & Hp & Hr).
      exists (id :: pre). split_and!; [done|done|by constructor|done].
    + intros [= <- <-]. exists []. split_and!; [done|done|constructor|]. by intros ? ? [= <- _].
Qed.

(** The loop that stops at the end of the page gives the page of all rows. *)
Lemma rows_loop_spec fuel d : forall names seen start stop, (length names <= fuel)%nat ->
  name_rows_loop V fuel d names seen start stop = Some (drop (N.to_nat (start - seen)) (take (N.to_nat (stop - seen)) (all_rows fuel d names))).
Proof.
  induction fuel as [|fuel IH]; intros names seen start stop Hl; destruct names as [|first names]; cbn [name_rows_loop all_rows length] in *;
    try (rewrite take_nil, drop_nil; by destruct (seen <? stop)); [lia|].
  destruct (N.ltb_spec seen stop) as [Hlt|Hge]; [|replace (stop - seen) with 0 by lia; change (N.to_nat 0) with 0%nat; by rewrite take_0, drop_nil].
  destruct (take_group V (v_folded V first) names) as [g rest] eqn:Eg. destruct (take_group_spec _ _ _ _ Eg) as (pre & -> & _).
  set (group := match d with Desc => _ | Asc => _ end). rewrite group_rows_spec. rewrite length_app in Hl. rewrite IH by lia. cbn [mbind option_bind].
  f_equal. rewrite take_app. set (n := N.to_nat (stop - seen)). set (m := N.to_nat (start - seen)).
  destruct (decide (length group <= n)%nat) as [Hle|Hgt].
  - rewrite (take_ge group n) by lia. unfold len. rewrite drop_app. f_equal. f_equal; [|f_equal]; unfold n, m; lia.
  - replace (n - length group)%nat with 0%nat by lia. rewrite (take_0 (all_rows _ _ _)), app_nil_r. rewrite <- (app_nil_r (drop m (take n group))) at 2. f_equal.
    assert (El : len (take n group) = stop - seen) by (unfold len; rewrite length_take; unfold n in *; lia). rewrite El.
    replace (stop - (seen + (stop - seen))) with 0 by lia. change (N.to_nat 0) with 0%nat. by rewrite take_0, drop_nil.
Qed.

(** [a]'s row comes before [b]'s: by folded name, then index. *)
Definition row_key (e : N) : list N * N := (v_folded V (v_name_id V e), e).
Definition row_before (d : SortDir) (a b : N) : Prop := match d with Asc => key_cmp (row_key a) (row_key b) = Lt | Desc => key_cmp (row_key b) (row_key a) = Lt end.

#[export] Instance N_compare_weak : WeakCmp N.compare.
Proof. split; [intros; apply N.compare_antisym|]. intros a b c. rewrite !N.compare_le_iff. lia. Qed.

Lemma group_spec d l : NoDup l -> let g := match d with Desc => reverse (sort_unstable N.compare l) | Asc => sort_unstable N.compare l end in
  g ≡ₚ l /\ StronglySorted (fun a b => match d with Asc => a < b | Desc => b < a end) g.
Proof.
  intros Hnd. assert (Hp : sort_unstable N.compare l ≡ₚ l) by (apply su_perm, _).
  assert (Hs : StronglySorted N.lt (sort_unstable N.compare l)).
  { assert (Hnd' : NoDup (sort_unstable N.compare l)) by (by rewrite Hp). pose proof (su_sorted N.compare l _) as Hs. clear Hp.
    induction Hs as [|x k Hs IH Hx]; [constructor|]. apply NoDup_cons in Hnd' as [Hni Hnd']. apply StronglySorted_cons. split; [|by apply IH].
    apply Forall_forall. intros y Hy. pose proof (proj1 (Forall_forall _ _) Hx y Hy) as Hle. simpl in Hle. rewrite N.compare_le_iff in Hle.
    assert (x <> y) by (intros ->; done). lia. }
  destruct d; simpl; [done|]. split; [by rewrite reverse_Permutation|]. by apply sorted_reverse.
Qed.

Lemma name_before_folded d a b : name_before V d a b -> match d with Asc => bytes_cmp (v_folded V a) (v_folded V b) | Desc => bytes_cmp (v_folded V b) (v_folded V a) end <> Gt.
Proof. unfold name_before, by_name_key, key_cmp, name_key. simpl. destruct d; by destruct (bytes_cmp _ _). Qed.

(** What is left of sorted names after a group comes strictly after it. *)
Lemma rest_after d f first pre rest : v_folded V first = f -> Forall (fun id => v_folded V id = f) pre ->
  (forall id rest', rest = id :: rest' -> v_folded V id <> f) -> StronglySorted (name_before V d) (first :: pre ++ rest) ->
  forall id, id ∈ rest -> match d with Asc => bytes_cmp f (v_folded V id) | Desc => bytes_cmp (v_folded V id) f end = Lt.
Proof.
  intros Hf Hpre Hhead Hs id Hid. destruct rest as [|h t]; [by apply not_elem_of_nil in Hid|]. specialize (Hhead h t eq_refl).
  apply StronglySorted_cons in Hs as [Hfirst Hs]. apply StronglySorted_app in Hs as (_ & _ & Hs). apply StronglySorted_cons in Hs as [Hh _].
  assert (Hfh : match d with Asc => bytes_cmp f (v_folded V h) | Desc => bytes_cmp (v_folded V h) f end = Lt).
  { assert (Hb : name_before V d first h) by (apply (proj1 (Forall_forall _ _) Hfirst); apply elem_of_app; right; left).
    apply name_before_folded in Hb. rewrite Hf in Hb. destruct d.
    - destruct (bytes_cmp f (v_folded V h)) eqn:Ec; [|done|done]. apply bytes_cmp_eq in Ec. congruence.
    - destruct (bytes_cmp (v_folded V h) f) eqn:Ec; [|done|done]. apply bytes_cmp_eq in Ec. congruence. }
  apply elem_of_cons in Hid as [-> |Hid]; [done|]. pose proof (name_before_folded _ _ _ (proj1 (Forall_forall _ _) Hh id Hid)) as Hle. destruct d.
  - destruct (bytes_cmp (v_folded V h) (v_folded V id)) eqn:Ec; [apply bytes_cmp_eq in Ec as <-; done|by eapply bytes_cmp_lt_trans|done].
  - destruct (bytes_cmp (v_folded V id) (v_folded V h)) eqn:Ec; [apply bytes_cmp_eq in Ec as ->; done|by eapply bytes_cmp_lt_trans|done].
Qed.

Lemma all_rows_spec d fuel : forall names, (length names <= fuel)%nat -> NoDup names -> StronglySorted (name_before V d) names ->
  all_rows fuel d names ≡ₚ flat_map (bearers V) names /\ StronglySorted (row_before d) (all_rows fuel d names).
Proof.
  induction fuel as [|fuel IH]; intros names Hl Hnd Hs; destruct names as [|first names]; cbn [all_rows length] in *; try (split; [done|constructor]); [lia|].
  destruct (take_group V (v_folded V first) names) as [g rest] eqn:Eg. destruct (take_group_spec _ _ _ _ Eg) as (pre & -> & -> & Hpre & Hhead).
  rewrite length_app in Hl. pose proof Hnd as [Hni Hnd1]%NoDup_cons. apply NoDup_app in Hnd1 as (Hnd1 & Hdis & Hnd2).
  destruct (IH rest) as [Hp Hso]; [lia|done|by apply StronglySorted_cons in Hs as [_ Hs]; apply StronglySorted_app in Hs as (_ & _ & ?)|].
  assert (Hgn : NoDup (bearers V first ++ flat_map (bearers V) pre)).
  { apply (bearers_all_nodup V (first :: pre)). constructor; [|done]. intros Hin. apply Hni, elem_of_app. by left. }
  destruct (group_spec d _ Hgn) as [Hgp Hgs]. set (group := match d with Desc => _ | Asc => _ end) in *.
  assert (Hgf : forall e, e ∈ group -> v_folded V (v_name_id V e) = v_folded V first).
  { intros e. rewrite Hgp, elem_of_app, (bearers_spec V), (bearers_all_in V).
    intros [(_ & -> & _)|(_ & Hin & _)]; [done|]. by apply (proj1 (Forall_forall _ _) Hpre). }
  split; [rewrite Hgp, Hp; simpl; by rewrite flat_map_app, <- app_assoc|]. apply StronglySorted_app_2; [| |done].
  - intros a b Ha Hb. rewrite Hp, (bearers_all_in V) in Hb. destruct Hb as (_ & Hb & _).
    pose proof (rest_after d _ first pre rest eq_refl Hpre Hhead Hs _ Hb) as Hlt. rewrite <- (Hgf a Ha) in Hlt.
    unfold row_before, row_key, key_cmp. simpl. destruct d; by rewrite Hlt.
  - assert (Heq : forall a b, a ∈ group -> b ∈ group -> bytes_cmp (v_folded V (v_name_id V a)) (v_folded V (v_name_id V b)) = Eq).
    { intros a b Ha Hb. rewrite (Hgf a Ha), (Hgf b Hb). by apply bytes_cmp_eq. }
    clear -Hgs Heq. induction Hgs as [|x l Hl IH Hx]; [constructor|]. apply StronglySorted_cons. split.
    + apply Forall_forall. intros y Hy. pose proof (proj1 (Forall_forall _ _) Hx y Hy) as Hlt. unfold row_before, row_key, key_cmp. simpl.
      destruct d; (rewrite Heq; [by apply N.compare_lt_iff|first [left|by right]|first [left|by right]]).
    + apply IH. intros a b Ha Hb. apply Heq; by right.
Qed.
End rows.
