(* ===== verification/TopRows.v ===== *)
(** The best rows: whatever chunks each buffer of [top_k_refs] is given, and in
    whatever order, the buffers are offered exactly the matches. *)

From stdpp Require Import gmap.
From stdpp Require Import base option list sets sorting.
From Stdlib Require Import NArith ZArith Lia.
From S2P Require Import Prelude Types Wtf8 Fold Text Dates Budget Wildcard Query NameStore NameOrder Prefilter Compiled Volume FolderPaths TopK Engine FolderRank NameLevel.

Section offers.
Context {A : Type} (cmp : A -> A -> comparison) {Sel : Select}.

Lemma offer_all_app want b l l' : offer_all cmp want b (l ++ l') = (b' ← offer_all cmp want b l; offer_all cmp want b' l').
Proof.
  revert b. induction l as [|x l IH]; intros b; cbn [app offer_all]; [done|]. destruct (offer cmp want b x); [|done]. cbn [mbind option_bind]. apply IH.
Qed.

Context {T : TotalCmp cmp} {Sok : SelectOk Sel}.

(** A buffer that was offered [l] takes one candidate more. *)
Lemma offer_next want l b c : offer_all cmp want best_empty l = Some b -> NoDup (l ++ [c]) ->
  exists b', offer cmp want b c = Some b' /\ offer_all cmp want best_empty (l ++ [c]) = Some b'.
Proof.
  intros Hb Hnd. destruct (offer_all_ok cmp want (l ++ [c]) [] best_empty Hnd (best_empty_ok cmp want)) as (b' & E & _).
  rewrite offer_all_app, Hb in E. cbn [mbind option_bind offer_all] in E. destruct (offer cmp want b c) as [b1|] eqn:Eo; [|done].
  cbn [mbind option_bind] in E. injection E as <-. exists b1. split; [done|]. rewrite offer_all_app, Hb. cbn [mbind option_bind offer_all]. by rewrite Eo.
Qed.
End offers.

Section top.
Context `{Unicode, !UnicodeAscii, !UnicodeText} {E : Env} {M : Memchr} {Mok : MemchrOk M} {P : Pool} {Sel : Select} {Sell : SelectOk Sel}.
Context (V : IndexView) {Vok : ViewOk V} {Nok : NamesOk V} (q : ParsedQuery) (mount : list N).
Hypothesis wild_ok : Forall compiled_from (wildcards q) /\ Forall compiled_from (path_wildcards q).
Hypothesis mount_text : text mount.
Notation c := (compiled_new q mount).
Hypothesis no_nul : forall lit, prefilter c = Some lit \/ c_path_piece c = Some lit -> 0 ∉ lit.
Context (sort : SortSpec) (want : nat) (sum_sizes : bool).
Notation cmp := (cmp_row V sort).
Notation hits e := (hit V q mount None e).

Definition cand (idx : N) : Candidate := {| c_idx := idx; c_key := entry_key V sort idx |}.

Lemma cands_nodup l : NoDup l -> NoDup (cand <$> l).
Proof. intros Hl. apply NoDup_fmap; [|done]. by intros a b [= ? _]. Qed.

Definition summed (l : list N) : N := if sum_sizes then N.min u64_max (sizes V l) else 0.

(** Of the entries [l] met since the chunk began, [cs] were offered, after [seen]. *)
Record top_ok (seen : list N) (b : Budget) (l cs : list N) (t : Top) : Prop := {
  tk_scan : scan_ok V q mount None (t_scan t);
  tk_best : offer_all cmp want best_empty (cand <$> seen ++ cs) = Some (t_best t);
  tk_count : t_count t = len cs;
  tk_size : t_size t = summed cs;
  tk_sub : cs `sublist_of` l;
  tk_hit e : e ∈ cs -> hits e;
  tk_spent : spent (s_budget (t_scan t)) = false -> spent b = false /\ forall e, e ∈ l -> hits e -> e ∈ cs
}.

Lemma summed_snoc cs e : summed (cs ++ [e]) = if sum_sizes then saturating_add (summed cs) (files_size V [e]) else summed cs.
Proof.
  unfold summed. destruct sum_sizes; [|done]. rewrite files_size_sum, sizes_app. unfold saturating_add. lia.
Qed.

Lemma top_skip seen b l cs t l' s' : top_ok seen b l cs t -> scan_ok V q mount None s' ->
  (spent (s_budget s') = false -> spent (s_budget (t_scan t)) = false /\ forall e, e ∈ l' -> ~ hits e) ->
  top_ok seen b (l ++ l') cs (t_with_scan s' t).
Proof.
  intros [K1 K2 K3 K4 K5 K6 K7] Hs Hsp. split; try done; [by apply sublist_inserts_r|].
  simpl. intros Hb. destruct (Hsp Hb) as [Hb1 Hno]. destruct (K7 Hb1) as [Hb0 Hall]. split; [done|].
  intros e [He|He]%elem_of_app Hh; [by apply Hall|]. by destruct (Hno e He).
Qed.

Lemma wp_top_entry seen b l cs t idx : top_ok seen b l cs t -> NoDup (seen ++ l ++ [idx]) -> idx ∈ v_live V -> name_ok V q idx ->
  wp (top_entry V q c sort want sum_sizes idx) (fun _ t' => exists cs', top_ok seen b (l ++ [idx]) cs' t') t.
Proof.
  intros Ht Hnd Hl Hn. pose proof Ht as [K1 K2 K3 K4 K5 K6 K7]. unfold top_entry. destruct (v_synthetic V idx) eqn:Hsyn.
  { apply wp_ret. exists cs. replace t with (t_with_scan (t_scan t) t) by (by destruct t). apply top_skip; [done|done|].
    intros Hs. split; [done|]. intros e ->%list_elem_of_singleton [? _]. congruence. }
  apply wp_bind, wp_zoom. eapply wp_mono; [apply (wp_evaluate V q mount wild_ok mount_text None None); [exact K1|done|done|by left|intros root Hr; discriminate Hr|intros _; exact Hn]|].
  intros r s1 (Hs1 & _ & Hb & A1 & A2). destruct r.
  - destruct (offer_next cmp want (cand <$> seen ++ cs) (t_best t) (cand idx) K2) as (b' & Eo & Ea).
    { rewrite <- fmap_snoc, <- app_assoc.
      apply cands_nodup. apply NoDup_app in Hnd as (N1 & N2 & N3). apply NoDup_app in N3 as (N4 & N5 & _). apply NoDup_app. split; [done|]. split.
      - intros x Hx [Hxc|Hxi]%elem_of_app; apply (N2 x Hx), elem_of_app; [left; exact (elem_of_sublist _ _ _ Hxc K5)|by right].
      - apply NoDup_app. split; [by eapply sublist_NoDup|]. split; [|apply NoDup_singleton]. intros x Hx. apply N5. exact (elem_of_sublist _ _ _ Hx K5). }
    apply wp_bind. eapply wp_read; [exact Eo|]. apply wp_modify. exists (cs ++ [idx]). split; simpl.
    + done.
    + by rewrite app_assoc, fmap_snoc.
    + rewrite K3, len_app. done.
    + rewrite summed_snoc. by rewrite K4.
    + apply sublist_app; [exact K5|reflexivity].
    + intros e [He| ->%list_elem_of_singleton]%elem_of_app; [by apply K6|by apply A1].
    + intros Hs. destruct (K7 (Hb Hs)) as [Hb0 Hall]. split; [done|]. intros e [He|He]%elem_of_app Hh; apply elem_of_app; [left; by apply Hall|by right].
  - apply wp_ret. exists cs. apply top_skip; [done|done|]. intros Hs. split; [by apply Hb|]. intros e ->%list_elem_of_singleton Hh.
    by specialize (A2 Hs Hh).
Qed.

Lemma wp_top_entries seen b ents : forall l cs t, top_ok seen b l cs t -> NoDup (seen ++ l ++ ents) ->
  (forall e, e ∈ ents -> e ∈ v_live V /\ name_ok V q e) ->
  wp (st_for (top_entry V q c sort want sum_sizes) ents) (fun _ t' => exists cs', top_ok seen b (l ++ ents) cs' t') t.
Proof.
  induction ents as [|e ents IH]; intros l cs t Ht Hnd Hin; cbn [st_for]; [apply wp_ret; exists cs; by rewrite app_nil_r|].
  assert (Hnd1 : NoDup (seen ++ (l ++ [e]) ++ ents)) by (by rewrite <- app_assoc).
  destruct (Hin e) as [Hl Hn]; [left|]. apply wp_bind. eapply wp_mono; [apply (wp_top_entry seen b l cs t e Ht); [|done|done]|].
  - rewrite app_assoc in Hnd1. by apply NoDup_app in Hnd1 as (? & _).
  - intros [] t' [cs' Ht']. replace (l ++ e :: ents) with ((l ++ [e]) ++ ents) by (by rewrite <- app_assoc).
    apply (IH _ cs'); [done|done|]. intros x Hx. apply Hin. by right.
Qed.

(** A name found by its literal, tested unless the literal decides. *)
Lemma wp_top_name lit seen b l cs t id : match_case q = false -> prefilter c = Some lit -> top_ok seen b l cs t ->
  borne V id -> infix lit (v_folded V id) -> NoDup (seen ++ l ++ v_name_chain V id) ->
  wp (top_name V q c sort want sum_sizes id) (fun _ t' => exists cs', top_ok seen b (l ++ v_name_chain V id) cs' t') t.
Proof.
  intros Hcase Hlit Ht Hb Hi Hnd. unfold top_name. apply wp_bind.
  eapply wp_mono; [apply (wp_skipped V q mount wild_ok (fun t => s_watch (t_scan t)) t_with_watch); [done|done|by intros [[]]|apply Ht|done]|].
  intros r t' (w' & -> & Hw & Hok & Hr).
  assert (Hscan : (spent (w_budget w') = false -> spent (s_budget (t_scan t)) = false) -> scan_ok V q mount None (with_watch w' (t_scan t))).
  { intros Hk. destruct Ht as [[W F Me D] _ _ _ _ _ _]. split; simpl; try done. destruct (s_folders (t_scan t)) as [p|]; [|done].
    destruct F as (? & ? & Hn). split_and!; try done. intros dir Hdir. destruct (Hn dir Hdir) as (ch & ? & Hf). exists ch. split; [done|].
    eapply Forall2_impl; [done|]. intros ? ?. by apply need_tells_spent. }
  assert (Hk : spent (w_budget w') = false -> spent (s_budget (t_scan t)) = false) by (intros Hs; by destruct (Hr Hs)). specialize (Hscan Hk).
  assert (Hname : forall e, e ∈ v_name_chain V id -> e ∈ v_live V /\ v_name_id V e = id) by (intros e He; by apply vo_chain).
  destruct r.
  - apply wp_ret. exists cs. unfold t_with_watch. apply top_skip; [done|done|]. simpl. intros Hs. destruct (Hr Hs) as [Hs1 [_ Hno]]. split; [done|].
    intros e He (_ & _ & Hn & _). destruct (Hname e He) as [_ Eid]. unfold name_ok in Hn. rewrite Eid in Hn. by specialize (Hno (fun _ => Hn)).
  - assert (Hgood : id_ok V q id).
    { destruct (prefilter_decides_name c) eqn:Ed; [by eapply (prefilter_decides q mount)|by apply Hok]. }
    apply (wp_top_entries seen b (v_name_chain V id) l cs).
    + replace l with (l ++ []) by apply app_nil_r. apply top_skip; [done|done|]. intros Hs. split; [by apply Hk|]. by intros e ?%not_elem_of_nil.
    + done.
    + intros e He. destruct (Hname e He) as [Hl Eid]. split; [done|]. unfold name_ok. by rewrite Eid.
Qed.

Lemma wp_top_names lit seen b names : match_case q = false -> prefilter c = Some lit -> forall l cs t, top_ok seen b l cs t ->
  (forall id, id ∈ names -> borne V id /\ infix lit (v_folded V id)) -> NoDup (seen ++ l ++ flat_map (v_name_chain V) names) ->
  wp (st_for (top_name V q c sort want sum_sizes) names) (fun _ t' => exists cs', top_ok seen b (l ++ flat_map (v_name_chain V) names) cs' t') t.
Proof.
  intros Hcase Hlit. induction names as [|id names IH]; intros l cs t Ht Hin Hnd; cbn [st_for flat_map]; [apply wp_ret; exists cs; by rewrite app_nil_r|].
  cbn [flat_map] in Hnd. destruct (Hin id) as [Hb Hi]; [left|]. rewrite (app_assoc l) in Hnd. apply wp_bind.
  eapply wp_mono; [apply (wp_top_name lit seen b l cs t id Hcase Hlit Ht Hb Hi)|].
  - rewrite app_assoc in Hnd. by apply NoDup_app in Hnd as (? & _).
  - intros [] t' [cs' Ht']. rewrite app_assoc. apply (IH _ cs'); [done| |done]. intros x Hx. apply Hin. by right.
Qed.

(** *** Chunks *)

Context (per : N) (Hper : 0 < per).

(** The chunk an entry's name is in. *)
Definition chunk_of (e : N) : N := v_name_id V e / (per * 64).

Lemma chunk_of_ids i lo hi e : chunk_ids i per (name_count V) = (lo, hi) -> v_name_id V e < name_count V -> lo <= v_name_id V e < hi <-> chunk_of e = i.
Proof.
  unfold chunk_ids, chunk_of. intros [= <- <-] Hlt. pose proof (N.div_mod (v_name_id V e) (per * 64) ltac:(nia)) as Ed.
  pose proof (N.mod_lt (v_name_id V e) (per * 64) ltac:(nia)) as Hm. split; [|intros <-; nia].
  intros [H1' H2']. assert (i * per * 64 <= v_name_id V e < (i + 1) * per * 64) by lia. symmetry. apply (N.div_unique _ _ _ (v_name_id V e - i * per * 64)); nia.
Qed.

Lemma live_name_range e : e ∈ v_live V -> v_name_id V e < name_count V.
Proof. intros He. apply no_range. intros Hn. assert (Hin : e ∈ v_name_chain V (v_name_id V e)) by (by apply vo_chain). rewrite Hn in Hin. by apply not_elem_of_nil in Hin. Qed.

(** What a run over some chunks offered a buffer that was offered [seen]. *)
Record run_ok (seen : list N) (b : Budget) (chunks cs : list N) (best : @Best Candidate) (n s : N) (b' : Budget) : Prop := {
  ru_best : offer_all cmp want best_empty (cand <$> seen ++ cs) = Some best;
  ru_count : n = len cs;
  ru_size : s = summed cs;
  ru_nodup : NoDup cs;
  ru_in e : e ∈ cs -> e ∈ v_live V /\ chunk_of e ∈ chunks /\ hits e;
  ru_spent : spent b' = false -> spent b = false /\ forall e, e ∈ v_live V -> chunk_of e ∈ chunks -> hits e -> e ∈ cs
}.

Lemma scan_chunk_ok lit seen best b i : match_case q = false -> prefilter c = Some lit -> tests_paths c q = false ->
  offer_all cmp want best_empty (cand <$> seen) = Some best -> NoDup seen -> (forall e, e ∈ seen -> e ∈ v_live V /\ chunk_of e <> i) ->
  exists best' n s b' cs, scan_chunk V q c sort want sum_sizes lit per best b i = Some (best', n, s, b') /\ run_ok seen b [i] cs best' n s b'.
Proof.
  intros Hcase Hlit Htp Hbest Hnd Hseen. unfold scan_chunk. destruct (chunk_ids i per (name_count V)) as [lo hi] eqn:Ei.
  assert (Hhi : hi <= ids (v_names V)) by (unfold chunk_ids in Ei; injection Ei as _ <-; apply N.le_min_r).
  destruct (no_hits lit lo hi) as (names & En & Hndn & Hin); [by eapply prefilter_ne|apply no_nul; by left|done|]. rewrite En. cbn [mbind option_bind].
  assert (Hstart : top_ok seen b [] [] (top_start best b)).
  { split; simpl; [|by rewrite app_nil_r|done|unfold summed; by destruct sum_sizes|done|by intros e ?%not_elem_of_nil|].
    - split; simpl; [unfold watch_ok, ITEMS_PER_CHECK; simpl; lia|done|done|done].
    - intros Hs. split; [done|]. by intros e ?%not_elem_of_nil. }
  assert (Hents : forall e, e ∈ flat_map (v_name_chain V) names <-> e ∈ v_live V /\ chunk_of e = i /\ infix lit (v_folded V (v_name_id V e))).
  { intros e. rewrite list_elem_of_In, in_flat_map. split.
    - intros (id & Hid%list_elem_of_In & Hc%list_elem_of_In). apply vo_chain in Hc as [Hl <-]. apply Hin in Hid as (Hr & _ & Hi). split; [done|]. split; [|done].
      apply (chunk_of_ids i lo hi); [done|by apply live_name_range|done].
    - intros (Hl & Hc & Hi). exists (v_name_id V e). split; apply list_elem_of_In; [|by apply vo_chain]. apply Hin.
      apply (chunk_of_ids i lo hi) in Hc; [|done|by apply live_name_range]. split; [done|]. split; [|done].
      intros Hn. assert (He : e ∈ v_name_chain V (v_name_id V e)) by (by apply vo_chain). rewrite Hn in He. by apply not_elem_of_nil in He. }
  assert (Hndall : NoDup (seen ++ [] ++ flat_map (v_name_chain V) names)).
  { apply NoDup_app. split; [done|]. split; [|by apply (chains_nodup V)]. intros e He (_ & Hc & _)%Hents. by destruct (Hseen e He). }
  destruct (proj1 (wp_run _ _ _) (wp_top_names lit seen b names Hcase Hlit [] [] _ Hstart ltac:(intros id Hid; apply Hin in Hid; tauto) Hndall))
    as ([] & t & Er & cs & [K1 K2 K3 K4 K5 K6 K7]).
  rewrite Er. cbn [mbind option_bind snd]. eexists _, _, _, _, cs. split; [done|]. cbn [app] in K5, K7. split; [done|done|done| | |].
  - eapply sublist_NoDup; [|exact K5]. by apply (chains_nodup V).
  - intros e He. pose proof (elem_of_sublist _ _ _ He K5) as (Hl & Hc & _)%Hents. split; [done|]. split; [by apply list_elem_of_singleton|by apply K6].
  - intros Hs. destruct (K7 Hs) as [Hs0 Hall]. split; [done|]. intros e Hl Hc%list_elem_of_singleton Hh. apply Hall; [|done]. apply Hents. split; [done|]. split; [done|].
    destruct Hh as (_ & _ & Hn & _). unfold name_ok in Hn. rewrite vo_folded in *.
    by eapply (prefilter_necessary q mount); [done|apply vo_raw|apply wild_ok|..].
Qed.

Lemma summed_app a b : summed (a ++ b) = saturating_add (summed a) (summed b).
Proof. unfold summed, saturating_add. destruct sum_sizes; [rewrite sizes_app; lia|done]. Qed.

Section with_literal.
Context (lit : list N) (Hcase : match_case q = false) (Hlit : prefilter c = Some lit) (Htp : tests_paths c q = false).

Lemma scan_slot_ok chunks : forall seen best b, offer_all cmp want best_empty (cand <$> seen) = Some best -> NoDup seen -> NoDup chunks ->
  (forall e, e ∈ seen -> e ∈ v_live V /\ chunk_of e ∉ chunks) ->
  exists best' n s b' cs, scan_slot V q c sort want sum_sizes lit per best b chunks = Some (best', n, s, b') /\ run_ok seen b chunks cs best' n s b'.
Proof.
  induction chunks as [|i chunks IH]; intros seen best b Hbest Hnd Hndc Hseen; cbn [scan_slot].
  - eexists _, _, _, _, []. split; [done|]. split; [by rewrite app_nil_r|done|unfold summed; by destruct sum_sizes|constructor|by intros e ?%not_elem_of_nil|].
    intros Hs. split; [done|]. by intros e _ ?%not_elem_of_nil.
  - apply NoDup_cons in Hndc as [Hni Hndc].
    destruct (scan_chunk_ok lit seen best b i Hcase Hlit Htp Hbest Hnd) as (best1 & n1 & s1 & b1 & cs1 & -> & [R1 R2 R3 R4 R5 R6]).
    { intros e He. destruct (Hseen e He) as [? Hc]. split; [done|]. intros <-. apply Hc. left. }
    cbn [mbind option_bind]. destruct (IH (seen ++ cs1) best1 b1 R1) as (best2 & n2 & s2 & b2 & cs2 & -> & [Q1 Q2 Q3 Q4 Q5 Q6]); [|done| |].
    + apply NoDup_app. split; [done|]. split; [|done]. intros e He (_ & Hc%list_elem_of_singleton & _)%R5. destruct (Hseen e He) as [_ Hno]. apply Hno. rewrite Hc. left.
    + intros e [He|He]%elem_of_app.
      * destruct (Hseen e He) as [? Hno]. split; [done|]. intros Hc. apply Hno. by right.
      * destruct (R5 e He) as (? & Hc%list_elem_of_singleton & _). split; [done|]. by rewrite Hc.
    + cbn [mbind option_bind]. eexists _, _, _, _, (cs1 ++ cs2). split; [done|]. split.
      * by rewrite app_assoc.
      * rewrite R2, Q2, len_app. done.
      * rewrite R3, Q3. symmetry. apply summed_app.
      * apply NoDup_app. split; [done|]. split; [|done]. intros e (_ & Hc%list_elem_of_singleton & _)%R5 (_ & Hc' & _)%Q5. by rewrite Hc in Hc'.
      * intros e [(? & Hc%list_elem_of_singleton & ?)%R5|(? & ? & ?)%Q5]%elem_of_app; (split; [done|]); (split; [|done]); [rewrite Hc; left|by right].
      * intros Hs. destruct (Q6 Hs) as [Hs1 A2]. destruct (R6 Hs1) as [Hs0 A1]. split; [done|]. intros e Hl [Hc|Hc]%elem_of_cons Hh; apply elem_of_app;
          [left; apply A1; [done|by apply list_elem_of_singleton|done]|right; by apply A2].
Qed.

Lemma scan_slots_ok slots_ : forall b, NoDup (concat slots_) ->
  exists bests n s b' (threads : list (list N)), scan_slots V q c sort want sum_sizes lit per b slots_ = Some (bests, n, s, b') /\
    mapM (offer_all cmp want best_empty) (map (map cand) threads) = Some bests /\ n = len (concat threads) /\ s = summed (concat threads) /\
    NoDup (concat threads) /\ (forall e, e ∈ concat threads -> e ∈ v_live V /\ chunk_of e ∈ concat slots_ /\ hits e) /\
    (spent b' = false -> spent b = false /\ forall e, e ∈ v_live V -> chunk_of e ∈ concat slots_ -> hits e -> e ∈ concat threads).
Proof.
  induction slots_ as [|chunks slots_ IH]; intros b Hnd; cbn [scan_slots concat] in *.
  - eexists _, _, _, _, []. split; [done|]. split; [done|]. split; [done|]. split; [unfold summed; by destruct sum_sizes|]. split; [constructor|].
    split; [by intros e ?%not_elem_of_nil|]. intros Hs. split; [done|]. by intros e _ ?%not_elem_of_nil.
  - apply NoDup_app in Hnd as (Hnd1 & Hdis & Hnd2).
    destruct (scan_slot_ok chunks [] best_empty b) as (best & n1 & s1 & b1 & cs & -> & [R1 R2 R3 R4 R5 R6]); [done|constructor|done|by intros e ?%not_elem_of_nil|].
    cbn [mbind option_bind]. destruct (IH b1 Hnd2) as (bests & n2 & s2 & b2 & threads & -> & Q1 & Q2 & Q3 & Q4 & Q5 & Q6). cbn [mbind option_bind].
    eexists _, _, _, _, (cs :: threads). split; [done|]. cbn [concat fmap list_fmap]. split; [|split; [|split; [|split; [|split]]]].
    + cbn [app] in R1. apply mapM_Some_2. constructor; [exact R1|]. by apply mapM_Some_1.
    + rewrite R2, Q2, len_app. done.
    + rewrite R3, Q3. symmetry. apply summed_app.
    + apply NoDup_app. split; [done|]. split; [|done]. intros e (_ & Hc & _)%R5 (_ & Hc' & _)%Q5. by apply (Hdis (chunk_of e)).
    + intros e [(? & ? & ?)%R5|(? & ? & ?)%Q5]%elem_of_app; (split; [done|]); (split; [|done]); apply elem_of_app; auto.
    + intros Hs. destruct (Q6 Hs) as [Hs1 A2]. destruct (R6 Hs1) as [Hs0 A1]. split; [done|]. intros e Hl [Hc|Hc]%elem_of_app Hh; apply elem_of_app; auto.
Qed.
End with_literal.
End top.
