(* ===== verification/EngineView.v ===== *)
(** A [VolumeIndex] as the query engine reads it: the readers of
    [crates/goz-core/src/index/volume.rs], run on an index, are an [IndexView],
    and a well-formed index keeps every promise the engine relies on.

    The main step is [SubtreeWalk]: the walk without a stack, driven by the child
    chains and backing out through the parents, yields each descendant once. *)

From stdpp Require Import gmap.
From stdpp Require Import base option list sets sorting.
From Stdlib Require Import NArith ZArith Lia.
From S2P Require Import Prelude Types Wtf8 Fold Text Budget Wildcard Query FrnMap NameStore NameOrder EntryTable Chain Volume VolumeInv VolumeOps VolumeEdit VolumeUpsert VolumeBatch VolumeRead VolumeNew Prefilter Compiled FolderPaths TopK Engine FolderRank FolderTree NameLevel.

(** What a reader answers; [d] where it would panic. *)
Definition run {A} (v : VolumeIndex) (d : A) (m : ST VolumeIndex A) : A := match m v with Some (a, _) => a | None => d end.

(** The bytes of a name some entry bears. *)
Definition name_or_nil (v : VolumeIndex) (id : N) (o : option (list N)) : list N :=
  if decide (NameStore.live (names v) id) then default [] o else [].

Definition view_of `{Unicode, Hasher} (v : VolumeIndex) : IndexView := {|
  v_root := root v;
  v_lost_found := lost_found v;
  v_parent := fun e => run v NIL (ent (parent e));
  v_is_dir := fun e => run v false (fl <- ent (flags e) ;; st_ret (contains fl DIR));
  v_size := fun e => run v None (view_size e);
  v_mtime := fun e => run v None (view_mtime e);
  v_frn := fun e => run v 0 (ent (EntryTable.frn e));
  v_name_id := fun e => run v NIL (ent (name_id e));
  v_synthetic := fun e => run v true (is_synthetic e);
  v_names := names v;
  FolderPaths.v_raw := fun id => name_or_nil v id (raw_bytes (names v) id);
  FolderPaths.v_folded := fun id => name_or_nil v id (folded_bytes_of (names v) id);
  v_rank_key := fun id => default 0 (rank_key (names v) id);
  FolderPaths.v_refcount := fun id => default 0 (refcount_of id (names v));
  v_name_chain := fun id => run v [] (name_chain id);
  v_len := vlen v;
  v_live := iter_live (entries v);
  v_subtree := fun top n => run v [] (subtree_entries n top);
  v_may_have_unpresentable := run v true may_have_unpresentable;
  v_path_of := fun e => match run v (Removed, []) (path_of e []) with (PathOk, p) => Some p | _ => None end
|}.

Lemma run_eq {A} v (d a : A) m v' : m v = Some (a, v') -> run v d m = a.
Proof. unfold run. by intros ->. Qed.

Lemma run_wp {A} v (d : A) m (P : A -> Prop) : wp m (fun a _ => P a) v -> P (run v d m).
Proof. intros (a & v' & E & HP)%wp_run. by rewrite (run_eq _ _ _ _ _ E). Qed.

Section view.
Context {U : Unicode} {H : Hasher}.
Context (v : VolumeIndex) (Hv : vol_ok v).
Notation V := (view_of v).

Lemma in_live e : e ∈ v_live V <-> alive v e.
Proof.
  destruct Hv as [I _]. pose proof (i_cols _ _ _ _ _ _ _ I) as Hc. unfold cols_ok in Hc. simpl. unfold iter_live, alive, live_e.
  rewrite list_elem_of_filter, list_elem_of_fmap. destruct (getN e (c_flags (entries v))) as [f|] eqn:Ef; simpl.
  - destruct (contains f TOMBSTONE); simpl; [split; [by intros [? _]|done]|]. split; [done|]. intros _. split; [done|].
    exists (N.to_nat e). split; [lia|]. apply elem_of_seq. apply getN_lt in Ef. unfold capacity. lia.
  - split; [by intros [? _]|done].
Qed.

Lemma live_nodup : NoDup (v_live V).
Proof. simpl. unfold iter_live. apply NoDup_filter, NoDup_fmap; [intros ? ? ?; lia|apply NoDup_seq]. Qed.

Lemma parent_col e p : getN e (c_parent (entries v)) = Some p -> v_parent V e = p.
Proof. intros Hp. simpl. unfold run, ent, st_zoom, parent, st_read. by rewrite Hp. Qed.

Lemma live_parent e : alive v e -> exists p, getN e (c_parent (entries v)) = Some p /\ v_parent V e = p /\ e < NIL.
Proof.
  intros Ha. destruct Hv as [I _]. pose proof (alive_lt _ _ _ _ _ _ _ _ I Ha) as Hlt. pose proof (i_cols _ _ _ _ _ _ _ I) as Hc.
  unfold cols_ok, cap in *. destruct (getN_is_Some e (c_parent (entries v))) as [p Hp]; [lia|]. exists p.
  split_and!; [done|by apply parent_col|lia].
Qed.

Lemma view_parent e : e ∈ v_live V -> v_parent V e = NIL \/ v_parent V e ∈ v_live V.
Proof.
  rewrite !in_live. intros Ha. destruct (live_parent e Ha) as (p & Hp & -> & _). destruct Hv as [_ [Hpar _]].
  destruct (Hpar e p Hp) as [?|[_ ?]]; [by left|by right].
Qed.

Lemma view_nil : NIL ∉ v_live V.
Proof. rewrite in_live. intros Ha. destruct (live_parent _ Ha) as (_ & _ & _ & ?). lia. Qed.

(** ** The walk below an entry *)

(** The children of [e], in the order of their chain. *)
Definition kids_of (e : N) (ks : list N) : Prop :=
  exists h, getN e (c_first_child (entries v)) = Some h /\ nseg (c_next_child (entries v)) h ks /\ NoDup ks /\
    forall x, x ∈ ks <-> alive v x /\ v_parent V x = e.

Lemma kids_exist e : alive v e -> exists ks, kids_of e ks.
Proof.
  intros Ha. destruct Hv as [I _]. pose proof (alive_lt _ _ _ _ _ _ _ _ I Ha) as Hlt. pose proof (i_cols _ _ _ _ _ _ _ I) as Hc.
  unfold cols_ok, cap in *. destruct (getN_is_Some e (c_first_child (entries v))) as [h Hh]; [lia|].
  destruct (ch_exact _ _ _ _ _ (i_child _ _ _ _ _ _ _ I) e h ltac:(done) Hh) as (l & [p Hd%dlseg_nseg] & Hnd & Hin).
  exists l, h. split_and!; [done|done|done|]. intros x. rewrite Hin. split.
  - intros (Hx & Hp & _)%child_key_inv. split; [done|]. by apply parent_col.
  - intros [Hx Hp]. destruct (live_parent x Hx) as (p' & Hp' & E & _). rewrite Hp in E. subst p'.
    rewrite (child_key_alive _ _ _ Hx Hp'). by rewrite (proj2 (N.eqb_neq _ _)) by lia.
Qed.

(** What a walk over a row of siblings yields: each, and after it what is
    below it. *)
Inductive forest : list N -> list N -> Prop :=
  | forest_nil : forest [] []
  | forest_cons x ks row below_x rest :
      kids_of x ks -> forest ks below_x -> forest row rest -> forest (x :: row) (x :: below_x ++ rest).

Section walk.
Context (rt : N) (Hrt : alive v rt) (Hroot : rooted V rt).

(** Where the walk goes after the last child of [p], [d] levels down. *)
Definition after (p d : N) : ST VolumeIndex (N * N) :=
  if d <=? 1 then st_ret (NIL, d)
  else if (p =? rt) || (p =? NIL) then st_ret (NIL, d - 1)
  else climb (N.to_nat (d - 1)) rt p (d - 1).

Lemma climb_sibling x y row d Q n :
  getN x (c_next_child (entries v)) = Some n -> nseg (c_next_child (entries v)) n (y :: row) -> Q (y, d) v ->
  wp (climb (N.to_nat d) rt x d) Q v.
Proof.
  intros Hn (-> & Hy & _) HQ. destruct (N.to_nat d); cbn [climb]; apply wp_bind; wp_get_col;
    rewrite (proj2 (N.eqb_neq _ _) Hy); by apply wp_ret.
Qed.

Lemma climb_last x p d Q :
  getN x (c_next_child (entries v)) = Some NIL -> getN x (c_parent (entries v)) = Some p -> 1 <= d ->
  wp (after p d) Q v -> wp (climb (N.to_nat d) rt x d) Q v.
Proof.
  intros Hn Hp Hd HQ. unfold after in HQ. replace (N.to_nat d) with (S (N.to_nat (d - 1))) by lia. cbn [climb]. apply wp_bind. wp_get_col.
  rewrite N.eqb_refl. simpl. destruct (d <=? 1); [done|]. apply wp_bind. wp_get_col. by destruct ((p =? rt) || (p =? NIL)).
Qed.

(** [walk_take] over a row yields the forest and goes on after its parent. *)
Lemma walk_forest row ys : forest row ys -> forall p d cur n Q,
  row <> [] -> nseg (c_next_child (entries v)) cur row -> Forall (fun x => alive v x /\ v_parent V x = p) row ->
  p <> NIL -> at_or_under V rt p -> 1 <= d ->
  wp (r <- after p d ;; rest <- walk_take n rt r.1 r.2 ;; st_ret (ys ++ rest)) Q v ->
  wp (walk_take (length ys + n) rt cur d) Q v.
Proof.
  induction 1 as [|x ks row bx rest Hk Hks IHks Hrow IHrow]; intros p d cur n Q Hne Hseg Hf Hp Hat Hd HQ; [done|].
  destruct Hseg as (-> & HxN & nx & Hnx & Hseg). apply Forall_cons in Hf as [[Hx Hxp] Hf].
  destruct (live_parent x Hx) as (p' & Hp' & E & _). assert (p' = p) as -> by congruence.
  assert (Hbx : below V rt x) by (apply below_up; [by rewrite Hxp|]; rewrite Hxp; destruct Hat; auto).
  assert (Hxrt : x <> rt) by (intros ->; by apply rooted_not_below in Hbx).
  assert (Hclimb : wp (climb (N.to_nat d) rt x d)
    (fun r v' => wp (rst <- walk_take (length rest + n) rt r.1 r.2 ;; st_ret (x :: bx ++ rst)) Q v') v).
  { destruct row as [|y row].
    - assert (rest = []) as -> by (by inversion Hrow). simpl in Hseg. subst nx. apply (climb_last x p); [done|done|done|].
      revert HQ. unfold wp at 1, st_bind at 1. rewrite app_nil_r. simpl. unfold wp. by destruct (after p d v) as [[r v']|].
    - eapply climb_sibling; [exact Hnx|exact Hseg|]. apply wp_bind. pose proof Hseg as [-> _].
      apply (IHrow p d y n); try done. revert HQ. unfold wp, st_bind, st_ret. destruct (after p d v) as [[r v']|]; [|done].
      destruct (walk_take n rt r.1 r.2 v') as [[l v'']|]; [|done]. simpl. by rewrite <- app_assoc. }
  cbn [length Nat.add walk_take]. rewrite (proj2 (N.eqb_neq _ _) HxN). apply wp_bind. unfold walk_next.
  destruct Hk as (h & Hh & Hsegk & Hndk & Hin). apply wp_bind. wp_get_col. rewrite length_app, <- Nat.add_assoc.
  destruct ks as [|k ks].
  - simpl in Hsegk. subst h. rewrite N.eqb_refl. assert (bx = []) as -> by (by inversion Hks). exact Hclimb.
  - pose proof Hsegk as (-> & HkN & _). rewrite (proj2 (N.eqb_neq _ _)) by done.
    apply wp_ret, wp_bind. cbn [fst snd]. eapply (IHks x); try done.
    + apply Forall_forall. intros z Hz. by apply Hin.
    + by right.
    + lia.
    + unfold after. rewrite (proj2 (N.leb_gt _ _)) by lia. rewrite (proj2 (N.eqb_neq _ _) Hxrt), (proj2 (N.eqb_neq _ _) HxN).
      cbn [orb]. replace (d + 1 - 1) with d by lia. revert Hclimb. unfold wp, st_bind, st_ret.
      destruct (climb (N.to_nat d) rt x d v) as [[r v']|]; [|done]. by destruct (walk_take (length rest + n) rt r.1 r.2 v') as [[l v'']|].
Qed.
End walk.

(** *** The forest below a rooted entry *)

(** [e] and its ancestors. *)
Inductive anc : N -> list N -> Prop :=
  | anc_top e : v_parent V e = NIL -> anc e [e]
  | anc_up e l : v_parent V e <> NIL -> anc (v_parent V e) l -> anc e (e :: l).

Lemma rooted_anc e : rooted V e -> exists l, anc e l.
Proof. induction 1 as [e He|e He Hr [l IH]]; eexists; [by apply anc_top|by apply anc_up]. Qed.

Lemma anc_spec e l : anc e l -> rooted V e -> alive v e -> NoDup l /\ (forall a, a ∈ l -> alive v a /\ at_or_under V a e).
Proof.
  induction 1 as [e He|e l He Hl IH]; intros Hr Ha.
  - split; [repeat constructor; apply not_elem_of_nil|]. intros a ->%list_elem_of_singleton. split; [done|by left].
  - assert (Hrp : rooted V (v_parent V e)) by (by inversion Hr). destruct (view_parent e) as [?|Hp%in_live]; [by apply in_live|done|].
    destruct (IH Hrp Hp) as [Hnd Hin].
    assert (Hbe : forall a, a ∈ l -> below V a e).
    { intros a [_ Hat]%Hin. apply below_up; [done|]. destruct Hat; auto. }
    split.
    + constructor; [|done]. intros Hbb%Hbe. by apply rooted_not_below in Hbb.
    + intros a [->|Hal]%elem_of_cons; [split; [done|by left]|]. split; [by apply Hin|right; by apply Hbe].
Qed.

Lemma anc_fits e l : anc e l -> rooted V e -> alive v e -> (length l <= fuel_of v)%nat.
Proof.
  intros Hl Hr Ha. destruct (anc_spec e l Hl Hr Ha) as [Hnd Hin]. destruct Hv as [I _]. eapply chain_fuel; [exact I|done|].
  intros a Hal. by apply Hin.
Qed.

Lemma forest_exists m : forall e l ks, anc e l -> rooted V e -> alive v e -> (fuel_of v - length l < m)%nat -> kids_of e ks -> exists ys, forest ks ys.
Proof.
  induction m as [|m IH]; intros e l ks Hl Hr Ha Hm Hk; [lia|]. destruct Hk as (_ & _ & _ & _ & Hin).
  assert (Hrow : forall row, (forall k, k ∈ row -> k ∈ ks) -> exists ys, forest row ys); [|by apply Hrow].
  induction row as [|k row IHrow]; intros Hsub; [exists []; constructor|].
  destruct IHrow as [rest Hrest]; [intros x Hx; apply Hsub; by right|].
  destruct (proj1 (Hin k)) as [Hka Hkp]; [apply Hsub; left|]. destruct (kids_exist k Hka) as [ks' Hk'].
  assert (Hen : v_parent V k <> NIL) by (rewrite Hkp; intros ->; by apply view_nil, in_live).
  assert (Hkr : rooted V k) by (apply rooted_step; [done|by rewrite Hkp]).
  assert (Hkl : anc k (k :: l)) by (apply anc_up; [done|by rewrite Hkp]).
  pose proof (anc_fits k (k :: l) Hkl Hkr Hka) as Hfit. simpl in Hfit.
  destruct (IH k (k :: l) ks' Hkl Hkr Hka) as [bx Hbx]; [simpl; lia|done|].
  exists (k :: bx ++ rest). by econstructor.
Qed.

(** The way down to a descendant starts at a child. *)
Lemma below_first x z : alive v x -> alive v z -> below V x z -> exists k, alive v k /\ v_parent V k = x /\ at_or_under V k z.
Proof.
  intros Hx Hz [n Hn]. revert Hz. induction Hn as [z Hp E|n z Hp Hu IH]; intros Hz; [exists z; split_and!; [done|done|by left]|].
  destruct (view_parent z) as [?|Hpz%in_live]; [by apply in_live|done|]. destruct (IH Hpz) as (k & Hk & Hkp & Hat).
  exists k. split_and!; [done|done|]. right. apply below_up; [done|]. destruct Hat; auto.
Qed.

Lemma under_child_of x k z : alive v x -> v_parent V k = x -> at_or_under V k z -> below V x z.
Proof.
  intros Hx Hk Hat. assert (Hn : v_parent V k <> NIL) by (rewrite Hk; intros ->; by apply view_nil, in_live).
  assert (Hb : below V x k) by (exists 1%nat; by constructor). destruct Hat as [->|Hz]; [done|]. by eapply below_trans.
Qed.

Lemma forest_members row ys : forest row ys -> Forall (alive v) row ->
  forall z, z ∈ ys <-> alive v z /\ exists k, k ∈ row /\ at_or_under V k z.
Proof.
  induction 1 as [|x ks row bx rest Hk Hks IHks Hrow IHrow]; intros Hf z.
  { split; [by intros ?%not_elem_of_nil|]. by intros (_ & k & ?%not_elem_of_nil & _). }
  apply Forall_cons in Hf as [Hx Hf]. destruct Hk as (_ & _ & _ & _ & Hin).
  assert (Hksa : Forall (alive v) ks) by (apply Forall_forall; intros k Hkk; by apply Hin).
  rewrite elem_of_cons, elem_of_app, (IHks Hksa z), (IHrow Hf z). split.
  - intros [->|[(Hz & k & Hkk & Hat)|(Hz & k & Hkk & Hat)]].
    + split; [done|]. exists x. split; [left|by left].
    + split; [done|]. exists x. split; [left|]. right. apply Hin in Hkk as [_ Hkp]. by eapply under_child_of.
    + split; [done|]. exists k. split; [by right|done].
  - intros (Hz & k & [->|Hkr]%elem_of_cons & Hat).
    + destruct Hat as [->|Hb]; [by left|]. right. left. split; [done|].
      destruct (below_first x z Hx Hz Hb) as (k & Hka & Hkp & Hat). exists k. split; [by apply Hin|done].
    + right. right. split; [done|]. by exists k.
Qed.

Lemma siblings_apart x k : rooted V k -> v_parent V x = v_parent V k -> v_parent V k <> NIL -> ~ below V k x.
Proof.
  intros Hr Hp Hn Hb. apply below_up in Hb; [|by rewrite Hp]. rewrite Hp in Hb.
  assert (Hk : below V (v_parent V k) k) by (exists 1%nat; by constructor).
  apply (rooted_not_below V k Hr). destruct Hb as [E|Hb]; [by rewrite E in Hk|]. by eapply below_trans.
Qed.

Lemma forest_nodup row ys p : forest row ys -> NoDup row -> Forall (fun x => alive v x /\ v_parent V x = p) row -> rooted V p -> p <> NIL -> NoDup ys.
Proof.
  intros Hf. revert p. induction Hf as [|x ks row bx rest Hk Hks IHks Hrow IHrow]; intros p Hnd Hall Hr Hp; [constructor|].
  apply NoDup_cons in Hnd as [Hni Hnd]. apply Forall_cons in Hall as [[Hx Hxp] Hall].
  destruct Hk as (_ & _ & _ & Hndk & Hin). assert (Hxn : v_parent V x <> NIL) by (by rewrite Hxp).
  assert (Hxr : rooted V x) by (apply rooted_step; [done|by rewrite Hxp]).
  assert (HxN : x <> NIL) by (intros ->; by apply view_nil, in_live).
  assert (Hksf : Forall (fun y => alive v y /\ v_parent V y = x) ks) by (apply Forall_forall; intros y Hy; by apply Hin).
  assert (Hksa : Forall (alive v) ks) by (eapply Forall_impl; [exact Hksf|]; by intros y [? _]).
  assert (Hrowa : Forall (alive v) row) by (eapply Forall_impl; [exact Hall|]; by intros y [? _]).
  assert (Hbx : forall z, z ∈ bx -> below V x z).
  { intros z (_ & k & Hkk & Hat)%(forest_members _ _ Hks Hksa). apply Hin in Hkk as [_ Hkp]. by eapply under_child_of. }
  assert (Hapart : forall z k, k ∈ row -> at_or_under V x z -> at_or_under V k z -> False).
  { intros z k Hkr Hxz Hkz. rewrite Forall_forall in Hall. destruct (Hall k Hkr) as [Hka Hkp].
    assert (Hkrt : rooted V k) by (apply rooted_step; [by rewrite Hkp|by rewrite Hkp]).
    destruct (at_or_under_linear _ _ _ _ Hxz Hkz) as [->|[Hb|Hb]]; [done| |].
    - apply (siblings_apart k x) in Hb; [done|done|congruence|done].
    - apply (siblings_apart x k) in Hb; [done|done|congruence|congruence]. }
  constructor; [|apply NoDup_app; split_and!; [by apply (IHks x)| |by apply (IHrow p)]].
  - intros [Hz|(_ & k & Hkr & Hat)%(forest_members _ _ Hrow Hrowa)]%elem_of_app.
    + apply Hbx in Hz. by apply rooted_not_below in Hz.
    + apply (Hapart x k Hkr); [by left|done].
  - intros z Hz (_ & k & Hkr & Hat)%(forest_members _ _ Hrow Hrowa). apply (Hapart z k Hkr); [right; by apply Hbx|done].
Qed.

(** A shorter walk is the start of a longer one. *)
Lemma walk_take_prefix n : forall m rt cur d s l s',
  walk_take (n + m) rt cur d s = Some (l, s') -> exists s'', walk_take n rt cur d s = Some (take n l, s'').
Proof.
  induction n as [|n IH]; intros m rt cur d s l s' Hw; [by eexists|]. cbn [Nat.add walk_take] in *. destruct (cur =? NIL).
  { injection Hw as <- <-. by eexists. }
  unfold st_bind in *. destruct (walk_next rt cur d s) as [[r s1]|]; [|done].
  destruct (walk_take (n + m) rt r.1 r.2 s1) as [[l1 s2]|] eqn:E; [|done]. injection Hw as <- <-.
  destruct (IH _ _ _ _ _ _ _ E) as [s3 ->]. by eexists.
Qed.

Lemma view_subtree top : top ∈ v_live V -> rooted V top ->
  exists l, NoDup l /\ (forall e, e ∈ l <-> e ∈ v_live V /\ below V top e) /\ forall n, v_subtree V top n = take n l.
Proof.
  rewrite in_live. intros Ha Hr. destruct (kids_exist top Ha) as [ks Hk]. destruct (rooted_anc top Hr) as [anc_l Hanc].
  destruct (forest_exists _ top anc_l ks Hanc Hr Ha (Nat.lt_succ_diag_r _) Hk) as [ys Hf].
  assert (HtN : top <> NIL) by (intros ->; by apply view_nil, in_live).
  pose proof Hk as (h & Hh & Hseg & Hnd & Hin).
  assert (Hall : Forall (fun x => alive v x /\ v_parent V x = top) ks) by (apply Forall_forall; intros x Hx; by apply Hin).
  assert (Halive : Forall (alive v) ks) by (eapply Forall_impl; [exact Hall|]; by intros y [? _]).
  exists ys. split; [by apply (forest_nodup ks ys top)|]. split.
  - intros e. rewrite (forest_members _ _ Hf Halive e), in_live. split.
    + intros (He & k & Hkk & Hat). split; [done|]. apply Hin in Hkk as [_ Hkp]. by eapply under_child_of.
    + intros [He Hb]. split; [done|]. destruct (below_first top e Ha He Hb) as (k & Hka & Hkp & Hat). exists k. split; [by apply Hin|done].
  - intros n. assert (Hw : wp (walk_take (length ys + n) top h 1) (fun l _ => l = ys) v).
    { destruct ks as [|k ks].
      - assert (ys = []) as -> by (by inversion Hf). simpl in Hseg. subst h. simpl. by destruct n; apply wp_ret.
      - apply (walk_forest top Hr (k :: ks) ys Hf top 1 h n); try done; [by left|]. apply wp_bind, wp_ret. simpl.
        by destruct n; apply wp_bind, wp_ret, wp_ret; rewrite app_nil_r. }
    apply wp_run in Hw as (l & v' & Ew & ->). rewrite Nat.add_comm in Ew. destruct (walk_take_prefix _ _ _ _ _ _ _ _ Ew) as [v'' Et].
    simpl. eapply run_eq. unfold subtree_entries, st_bind, ent, st_zoom, first_child, st_read. rewrite Hh, with_entries_id. exact Et.
Qed.

(** ** Names *)

Lemma name_col e : alive v e -> exists id, getN e (c_name_id (entries v)) = Some id /\ v_name_id V e = id /\ NameStore.live (names v) id.
Proof.
  intros Ha. destruct Hv as [I _]. pose proof (alive_lt _ _ _ _ _ _ _ _ I Ha) as Hlt. pose proof (i_cols _ _ _ _ _ _ _ I) as Hc.
  unfold cols_ok, cap in *. destruct (getN_is_Some e (c_name_id (entries v))) as [id Hid]; [lia|]. exists id.
  split_and!; [done| |eapply chained_live; [exact I|by apply same_key_alive]].
  simpl. eapply run_eq. unfold ent, st_zoom, name_id, st_read. by rewrite Hid.
Qed.

Lemma name_chain_spec id : NoDup (v_name_chain V id) /\ forall e, e ∈ v_name_chain V id <-> e ∈ v_live V /\ v_name_id V e = id.
Proof.
  assert (Hkey : forall e, same_key v e = Some id <-> e ∈ v_live V /\ v_name_id V e = id).
  { intros e. rewrite in_live. unfold same_key. case_decide as Ha; [|split; [done|tauto]].
    destruct (name_col e Ha) as (id' & Hid & -> & _). rewrite Hid. naive_solver. }
  destruct Hv as [I _]. simpl. unfold name_chain. destruct (getN id (head (names v))) as [h|] eqn:Hh.
  - destruct (ch_exact _ _ _ _ _ (i_same _ _ _ _ _ _ _ I) id h ltac:(done) Hh) as (l & [p Hd%dlseg_nseg] & Hnd & Hin).
    assert (Hfuel : (length l <= fuel_of v)%nat).
    { eapply chain_fuel; [exact I|done|]. intros e He%Hin. apply Hkey in He as [He _]. by apply in_live. }
    assert (Hrun : wp (name_chain_loop (fuel_of v) h) (fun l' _ => l' = l) v).
    { clear -Hd Hfuel. revert h Hd Hfuel. generalize (fuel_of v) as fuel. induction l as [|x l IH]; intros fuel h Hd Hfuel; simpl in Hd.
      - subst h. destruct fuel; by apply wp_ret.
      - destruct Hd as (-> & HxN & n & Hn & Hs). destruct fuel as [|fuel]; [simpl in Hfuel; lia|]. cbn [name_chain_loop].
        rewrite (proj2 (N.eqb_neq _ _) HxN). apply wp_bind. wp_get_col. apply wp_bind.
        eapply wp_mono; [apply (IH fuel); [exact Hs|simpl in Hfuel; lia]|]. intros l' v' ->. by apply wp_ret. }
    apply wp_run in Hrun as (l' & v' & Er & ->).
    assert (E : run v [] (fuel <- st_get fuel_of ;; h <- nam (st_read (chain_head id)) ;; name_chain_loop fuel h) = l).
    { eapply run_eq. unfold st_bind, st_get, nam, st_zoom, st_read, chain_head. rewrite Hh, with_names_id. exact Er. }
    rewrite E. split; [done|]. intros e. rewrite Hin. apply Hkey.
  - assert (E : run v [] (fuel <- st_get fuel_of ;; h <- nam (st_read (chain_head id)) ;; name_chain_loop fuel h) = []).
    { unfold run, st_bind, st_get, nam, st_zoom, st_read, chain_head. by rewrite Hh. }
    rewrite E. split; [constructor|]. intros e. rewrite <- Hkey. split; [by intros ?%not_elem_of_nil|].
    intros Hs. apply (ch_range _ _ _ _ _ (i_same _ _ _ _ _ _ _ I)) in Hs as [_ Hs]. destruct (getN_is_Some id (head (names v)) Hs). congruence.
Qed.

Lemma fold_nil : fold [] = [].
Proof. reflexivity. Qed.

Lemma view_folded id : FolderPaths.v_folded V id = fold (FolderPaths.v_raw V id).
Proof.
  simpl. unfold name_or_nil. case_decide as Hl; [|by rewrite fold_nil]. destruct Hv as [I _]. destruct (i_ns _ _ _ _ _ _ _ I) as [gs R].
  destruct (live_slot _ _ _ R Hl) as [g Hg]. rewrite (raw_bytes_slot _ _ _ _ R Hg), (folded_bytes_slot _ _ _ _ R Hg).
  simpl. by apply (r_live _ _ R id).
Qed.

Lemma view_hits {M : Memchr} {Mok : MemchrOk M} needle : needle <> [] -> 0 ∉ needle ->
  exists l, for_each_prefilter_hit (v_names V) needle = Some l /\ NoDup l /\
    forall e, e ∈ v_live V -> v_name_id V e ∈ l <-> infix needle (FolderPaths.v_folded V (v_name_id V e)).
Proof.
  intros Hne Hnul. destruct Hv as [I _]. pose proof (i_ns _ _ _ _ _ _ _ I) as Hns.
  destruct (prefilter_spec (names v) needle 0 (ids (names v)) Hns Hne Hnul (N.le_refl _)) as (l & El & Hs & Hin).
  exists l. split; [done|]. split.
  { clear -Hs. induction Hs as [|x l Hs IH Hx]; constructor; [|done]. rewrite Forall_forall in Hx. intros Hc%Hx. lia. }
  intros e He%in_live. destruct (name_col e He) as (id & Hid & -> & Hl). rewrite Hin, <- piece_infix.
  pose proof (same_range _ _ _ _ _ _ _ _ _ I (same_key_alive _ _ _ He Hid)) as Hlt.
  simpl. unfold name_or_nil. rewrite decide_True by done. destruct Hns as [gs R]. destruct (live_slot _ _ _ R Hl) as [g Hg].
  rewrite (folded_bytes_slot _ _ _ _ R Hg). simpl. split; [by intros (_ & bs & [= <-] & ?)|]. intros Hp. split; [lia|]. by exists (sfold g).
Qed.
End view.

(** ** The promises kept *)

(** The root is the top of the tree, and with lost+found the only one; names are
    WTF-8, as both sources of names make them, and obey Windows: no name is
    empty or holds a backslash; sizes and dates are 64-bit; the entries the index
    makes itself bear the names it gives them. *)
Record index_fits `{Unicode} (v : VolumeIndex) : Prop := {
  fit_root : getN (root v) (c_parent (entries v)) = Some NIL;
  fit_root_live : alive v (root v);
  fit_lost : root v <> lost_found v;
  fit_tops e : alive v e -> getN e (c_parent (entries v)) = Some NIL -> e = root v \/ e = lost_found v;
  fit_names id bs : NameStore.live (names v) id -> raw_bytes (names v) id = Some bs -> text bs;
  fit_plain e id bs : alive v e -> e <> root v -> getN e (c_name_id (entries v)) = Some id -> folded_bytes_of (names v) id = Some bs -> 0x5C ∉ bs /\ bs <> [];
  fit_sizes e s : getN e (c_size (entries v)) = Some s -> s <= u64_max;
  fit_dates e t : getN e (c_mtime (entries v)) = Some t -> in_i64 t;
  fit_synthetic e id bs : alive v e -> run v true (is_synthetic e) = true -> getN e (c_name_id (entries v)) = Some id -> raw_bytes (names v) id = Some bs ->
    bs = [] \/ bs = LOST_FOUND_NAME \/ bs = PLACEHOLDER_NAME
}.

Lemma synthetic_top `{Unicode, Hasher} v e : vol_ok v -> e < cap v -> (e = root v \/ e = lost_found v) -> v_synthetic (view_of v) e = true.
Proof.
  intros [I _] He Htop. pose proof (i_cols _ _ _ _ _ _ _ I) as Hc. unfold cols_ok, cap in *.
  destruct (getN_is_Some e (c_flags (entries v))) as [f Hf]; [lia|]. simpl. eapply run_eq. unfold is_synthetic, st_bind, ent, st_zoom, flags, st_read.
  rewrite Hf. unfold st_get, st_ret. rewrite with_entries_id. destruct Htop as [->| ->]; by rewrite N.eqb_refl, ?orb_true_r.
Qed.

Lemma view_promises `{Unicode, Hasher} {M : Memchr} {Mok : MemchrOk M} v : vol_ok v -> index_fits v -> ViewOk (view_of v).
Proof.
  intros Hv [Hroot _ Hlost _ Hnames _ _ _ _]. split.
  - by apply parent_col.
  - done.
  - apply synthetic_top; [done| |by left]. apply getN_lt in Hroot. destruct Hv as [I _]. pose proof (i_cols _ _ _ _ _ _ _ I) as Hc.
    unfold cols_ok, cap in *. change (v_root (view_of v)) with (root v). lia.
  - apply synthetic_top; [done| |by right]. destruct Hv as [I _]. eapply alive_lt; [exact I|apply (i_lf _ _ _ _ _ _ _ I)].
  - intros id. simpl. unfold name_or_nil. case_decide as Hl; [|apply text_nil]. destruct (raw_bytes (names v) id) as [bs|] eqn:Eb; simpl; [|apply text_nil].
    by eapply Hnames.
  - by apply view_folded.
  - apply live_nodup.
  - by apply view_nil.
  - by apply view_parent.
  - by apply name_chain_spec.
  - by apply view_hits.
  - by apply view_subtree.
Qed.

Lemma name_of_live `{Unicode, Hasher} v e : vol_ok v -> e ∈ v_live (view_of v) ->
  exists id, getN e (c_name_id (entries v)) = Some id /\ v_name_id (view_of v) e = id /\ NameStore.live (names v) id /\
    folded_bytes_of (names v) id = Some (fold_of (names v) id) /\ FolderPaths.v_folded (view_of v) id = fold_of (names v) id.
Proof.
  intros Hv He%(in_live v Hv). destruct (name_col v Hv e He) as (id & Hid & En & Hl). exists id. split; [done|]. split; [done|]. split; [done|].
  destruct Hv as [I _]. pose proof (i_ns _ _ _ _ _ _ _ I) as Hns. pose proof (folded_total _ id Hns (live_lt _ _ Hns Hl)) as Ef. split; [done|].
  simpl. unfold name_or_nil. rewrite decide_True by done. done.
Qed.

Lemma view_rank_key `{Unicode, Hasher} v id : vol_ok v -> NameStore.live (names v) id ->
  key_spec (names v) (fold_of (names v) id) (v_rank_key (view_of v) id).
Proof.
  intros [I _] Hl. destruct (rank_key_spec _ id (i_ns _ _ _ _ _ _ _ I) (i_order _ _ _ _ _ _ _ I) Hl) as (k & E & Hk). simpl. by rewrite E.
Qed.

Lemma view_sorts `{Unicode, Hasher} v : vol_ok v -> index_fits v -> SortOk (view_of v).
Proof.
  intros Hv [Hroot Hrl Hlost Htops _ Hplain Hsize Hdate _]. pose proof Hv as [I _]. pose proof (i_order _ _ _ _ _ _ _ I) as Ho. split.
  - by apply parent_col.
  - by apply in_live.
  - done.
  - intros e He%(in_live v Hv). by destruct (live_parent v Hv e He) as (_ & _ & _ & ?).
  - by apply view_parent.
  - intros e He%(in_live v Hv) Hp. destruct (live_parent v Hv e He) as (p & Hp' & E & _). rewrite Hp in E. subst p. by apply Htops.
  - intros e He Hne. destruct (name_of_live v e Hv He) as (id & Hid & -> & _ & Hf & ->). by apply (Hplain e id); [apply (in_live v Hv)| | |].
  - intros a b Ha Hb. destruct (name_of_live v a Hv Ha) as (ia & _ & -> & Hla & _ & ->), (name_of_live v b Hv Hb) as (ib & _ & -> & Hlb & _ & ->).
    intros E. pose proof (view_rank_key v ia Hv Hla) as Ka. pose proof (view_rank_key v ib Hv Hlb) as Kb. rewrite E in Ka. by eapply key_spec_eq.
  - intros a b Ha Hb. destruct (name_of_live v a Hv Ha) as (ia & _ & -> & Hla & _ & ->), (name_of_live v b Hv Hb) as (ib & _ & -> & Hlb & _ & ->).
    intros Hlt. pose proof (view_rank_key v ia Hv Hla) as Ka. pose proof (view_rank_key v ib Hv Hlb) as Kb.
    destruct (bytes_cmp (fold_of (names v) ia) (fold_of (names v) ib)) eqn:Ec; [|done|].
    + apply bytes_cmp_eq in Ec. rewrite Ec in Ka. pose proof (key_spec_eq _ _ _ _ Ho Ka Kb). lia.
    + assert (Ec' : bytes_cmp (fold_of (names v) ib) (fold_of (names v) ia) = Lt) by (by rewrite bytes_cmp_antisym, Ec).
      destruct (key_spec_lt _ _ _ _ _ Ho Kb Ka Ec') as [?|[? _]]; lia.
  - intros e s _. simpl. unfold run, view_size, st_bind, ent, st_zoom, EntryTable.size, st_read.
    destruct (getN e (c_size (entries v))) as [x|] eqn:Ex; [|done]. unfold st_ret. destruct (N.eqb_spec x SIZE_UNKNOWN) as [?|Hne]; [done|]. intros [= <-].
    apply Hsize in Ex. unfold SIZE_UNKNOWN in Hne. lia.
  - intros e t _. simpl. unfold run, view_mtime, st_bind, ent, st_zoom, EntryTable.mtime, st_read.
    destruct (getN e (c_mtime (entries v))) as [x|] eqn:Ex; [|done]. unfold st_ret. destruct (Z.eqb_spec x MTIME_UNKNOWN) as [?|Hne]; [done|]. intros [= <-].
    apply Hdate in Ex. unfold MTIME_UNKNOWN, in_i64 in *. lia.
Qed.

(** *** Names *)

Section names.
Context `{Unicode, Hasher} (v : VolumeIndex) (Hv : vol_ok v).
Notation V := (view_of v).

Lemma chain_range id : v_name_chain V id <> [] -> id < ids (names v).
Proof.
  intros Hne. destruct (v_name_chain V id) as [|e l] eqn:El; [done|]. assert (He : e ∈ v_name_chain V id) by (rewrite El; left).
  apply (name_chain_spec v Hv) in He as [Hl Hid]. apply (in_live v Hv) in Hl. destruct (name_col v Hv e Hl) as (id' & Hc & E & _).
  rewrite Hid in E. subst id'. destruct Hv as [I _]. by apply (same_range _ _ _ _ _ _ _ _ _ I (same_key_alive _ _ _ Hl Hc)).
Qed.

(** A name's count is the length of its chain. *)
Lemma view_count id : FolderPaths.v_refcount V id = len (v_name_chain V id).
Proof.
  destruct (name_chain_spec v Hv id) as [Hnd Hin]. destruct Hv as [I _]. pose proof (i_refs _ _ _ _ _ _ _ I id) as Hr.
  simpl. unfold refcount_of. destruct (getN id (refcount (names v))) as [rc|] eqn:Erc; simpl.
  - destruct Hr as (l & Hndl & Hl & ->). rewrite N.add_0_r. unfold len. f_equal. apply Permutation_length. apply NoDup_Permutation; [done|done|].
    intros e. rewrite Hl. change (run v [] (name_chain id)) with (v_name_chain V id). rewrite Hin, (in_live v Hv). unfold same_key. case_decide as Ha; [|split; [done|tauto]].
    destruct (name_col v Hv e Ha) as (id' & Hc & -> & _). rewrite Hc. split; [by intros [= <-]|by intros [_ <-]].
  - change (run v [] (name_chain id)) with (v_name_chain V id). destruct (v_name_chain V id) as [|e l] eqn:El; [done|exfalso].
    assert (Hlt : id < ids (names v)) by (apply chain_range; by rewrite El). rewrite <- (ids_refcount _ (i_ns _ _ _ _ _ _ _ I)) in Hlt. destruct (getN_is_Some id (refcount (names v)) Hlt) as [rc Hrc]. congruence.
Qed.

Lemma borne_live id : v_name_chain V id <> [] <-> NameStore.live (names v) id.
Proof.
  pose proof (view_count id) as Hc. unfold NameStore.live. simpl in Hc. destruct (refcount_of id (names v)) as [rc|]; simpl in Hc.
  - split; [|by intros (? & [= <-] & Hp) Hx; change (run v [] (name_chain id)) with (v_name_chain V id) in Hc; rewrite Hx in Hc; subst rc].
    intros Hne. exists rc. split; [done|]. rewrite Hc. change (run v [] (name_chain id)) with (v_name_chain V id). destruct (v_name_chain V id); [done|]. rewrite len_cons. lia.
  - split; [|by intros (? & ? & _)]. intros Hne. change (run v [] (name_chain id)) with (v_name_chain V id) in Hc. destruct (v_name_chain V id); [done|]. rewrite len_cons in Hc. lia.
Qed.

Lemma folded_of_live id : NameStore.live (names v) id -> folded_bytes_of (names v) id = Some (fold_of (names v) id) /\ FolderPaths.v_folded V id = fold_of (names v) id.
Proof.
  intros Hl. destruct Hv as [I _]. pose proof (i_ns _ _ _ _ _ _ _ I) as Hns. pose proof (folded_total _ id Hns (live_lt _ _ Hns Hl)) as Ef. split; [done|].
  simpl. unfold name_or_nil. by rewrite decide_True.
Qed.

Lemma filter_borne l : base.filter (fun id => v_name_chain V id <> []) l = live_part (names v) l.
Proof. apply list_filter_iff. intros id. apply borne_live. Qed.

Lemma strictly_sorted l : NoDup l -> Sorted key_le (key_of (names v) <$> live_part (names v) l) ->
  StronglySorted (fun a b => by_name_key V a b = Lt) (live_part (names v) l).
Proof.
  intros Hnd Hs%(Sorted_StronglySorted key_le). assert (Hl : Forall (NameStore.live (names v)) (live_part (names v) l)).
  { apply Forall_forall. intros x [Hx _]%list_elem_of_filter. done. }
  assert (Hndl : NoDup (live_part (names v) l)) by (by apply NoDup_filter). clear Hnd.
  induction (live_part (names v) l) as [|x k IH]; [constructor|]. rewrite fmap_cons in Hs. apply StronglySorted_cons in Hs as [Hx Hs]. apply Forall_cons in Hl as [Hlx Hl].
  apply NoDup_cons in Hndl as [Hni Hndl]. apply StronglySorted_cons. split; [|by apply IH]. rewrite Forall_fmap in Hx. apply Forall_forall. intros y Hy.
  pose proof (proj1 (Forall_forall _ _) Hx y Hy) as Hle. unfold compose, key_le, key_of in Hle. unfold by_name_key, name_key.
  rewrite (proj2 (folded_of_live x Hlx)), (proj2 (folded_of_live y (proj1 (Forall_forall _ _) Hl y Hy))).
  destruct (key_cmp _ _) eqn:Ec; [|done|done]. apply key_cmp_eq in Ec. injection Ec as _ <-. done.
Qed.

Lemma view_names {M : Memchr} {Mok : MemchrOk M} : index_fits v -> NamesOk V.
Proof.
  intros Hf. pose proof Hv as [I _]. pose proof (i_ns _ _ _ _ _ _ _ I) as Hns. pose proof (i_order _ _ _ _ _ _ _ I) as Ho.
  assert (Eall : upto (ids (names v)) = all_ids (names v)) by (unfold upto, all_ids, ids, len; by rewrite Nat2N.id). split.
  - apply chain_range.
  - apply view_count.
  - intros needle lo hi Hne Hz Hhi. destruct (prefilter_live_spec (names v) needle lo hi Hns Hne Hz Hhi) as (l & El & Hs & Hin). exists l. split; [done|].
    split; [by apply sorted_nodup|]. intros id. rewrite Hin, borne_live, <- piece_infix. split.
    + intros (Hr & Hl & bs & Hb & Hp). destruct (folded_of_live id Hl) as [Ef ->]. rewrite Ef in Hb. injection Hb as <-. done.
    + intros (Hr & Hl & Hp). destruct (folded_of_live id Hl) as [Ef Ev]. rewrite Ev in Hp. split; [done|]. split; [done|]. by exists (fold_of (names v) id).
  - split; [apply (o_order_range _ Ho)|apply (o_unranked_range _ Ho)].
  - rewrite filter_borne. change (v_names V) with (names v).
    assert (Hnd : NoDup (live_part (names v) (order (names v)))).
    { assert (Hnd : NoDup (live_part (names v) (order (names v)) ++ live_part (names v) (unranked (names v)))) by (rewrite (o_partition _ Ho); apply NoDup_filter, NoDup_all_ids).
      by apply NoDup_app in Hnd as (? & _). }
    replace (live_part (names v) (order (names v))) with (live_part (names v) (live_part (names v) (order (names v)))) in * by (unfold live_part; by rewrite list_filter_filter_l).
    apply strictly_sorted; [|unfold live_part in *; rewrite list_filter_filter_l by done; apply (o_sorted _ Ho)].
    unfold live_part in *. by rewrite list_filter_filter_l in Hnd.
  - rewrite !filter_borne. change (v_names V) with (names v). rewrite Eall. apply (o_partition _ Ho).
  - intros e Hl%(in_live v Hv) Hs. destruct (name_col v Hv e Hl) as (id & Hc & -> & Hlv).
    destruct Hns as [gs R]. destruct (live_slot _ _ _ R Hlv) as [g Hg]. destruct (raw_bytes (names v) id) as [bs|] eqn:Eb; [|by rewrite (raw_bytes_slot _ _ _ _ R Hg) in Eb].
    unfold name_may_bear_synthetic. simpl. unfold name_or_nil. rewrite decide_True by done. rewrite Eb. simpl.
    destruct (fit_synthetic v Hf e id bs Hl Hs Hc Eb) as [-> |[-> | ->]]; by vm_compute.
Qed.
End names.

(** C23: a well-formed index keeps every promise the query engine relies on: the
    readers of [VolumeIndex] present a tree whose parents are live, names that
    are folded as searched, same-name chains that list exactly the bearers of a
    name, an arena search that finds exactly the names holding a needle, and a
    subtree walk, without a stack and starting at any entry whose ancestors end,
    that yields every descendant exactly once and then stops; and what sorting
    relies on: rank keys that order names as their folded bytes, one tree of
    folders, and sizes and dates apart from the values that stand for unknown; and
    what searching by names relies on: counts that are chain lengths, searches of
    a range of names, and an order that with the waiting names lists every name
    once, sorted. *)
Theorem view_of_ok `{Unicode, Hasher} {M : Memchr} {Mok : MemchrOk M} v :
  vol_ok v -> index_fits v -> ViewOk (view_of v) /\ SortOk (view_of v) /\ NamesOk (view_of v).
Proof. intros Hv Hf. split; [by apply view_promises|]. split; [by apply view_sorts|by apply view_names]. Qed.

(** *** A volume with one file *)

#[local] Existing Instance one_bucket.

Lemma with_a_names id : NameStore.live (names with_a) id -> id = 0 \/ id = 1 \/ id = 2.
Proof. intros (rc & Hrc & _). apply getN_lt in Hrc. assert (E : len (refcount (names with_a)) = 3) by (vm_compute; reflexivity). rewrite E in Hrc. lia. Qed.

Lemma with_a_entries e : alive with_a e -> e = 0 \/ e = 1 \/ e = 2.
Proof.
  unfold alive, live_e. destruct (getN e (c_flags (entries with_a))) as [f|] eqn:Ef; [|done]. intros _. apply getN_lt in Ef.
  assert (E : len (c_flags (entries with_a)) = 3) by (vm_compute; reflexivity). rewrite E in Ef. lia.
Qed.

Lemma with_a_fits : index_fits with_a.
Proof.
  split.
  - by vm_compute.
  - by vm_compute.
  - by vm_compute.
  - intros e [-> |[-> | ->]]%with_a_entries Hp; [by left|by right|by vm_compute in Hp].
  - intros id bs [-> |[-> | ->]]%with_a_names Hb; vm_compute in Hb; injection Hb as <-.
    + apply text_nil.
    + exists [36; 76; 111; 115; 116; 70; 111; 117; 110; 100]. split; [by repeat (constructor; [vm_compute; congruence|])|by vm_compute].
    + exists [0x61]. split; [repeat constructor; vm_compute; congruence|by vm_compute].
  - intros e id bs [-> |[-> | ->]]%with_a_entries Hne Hid Hb; [done|..]; vm_compute in Hid; injection Hid as <-; vm_compute in Hb; injection Hb as <-;
      (split; [|done]); apply (bool_decide_unpack _); by vm_compute.
  - assert (E : forallb (fun s => s <=? u64_max) (c_size (entries with_a)) = true) by (by vm_compute). rewrite forallb_forall in E.
    intros e s Hs. apply N.leb_le, E, list_elem_of_In. by eapply list_elem_of_lookup_2.
  - assert (E : forallb (fun t => (i64_min <=? t)%Z && (t <=? i64_max)%Z) (c_mtime (entries with_a)) = true) by (by vm_compute). rewrite forallb_forall in E.
    intros e t Ht. assert (Hin : List.In t (c_mtime (entries with_a))) by (apply list_elem_of_In; by eapply list_elem_of_lookup_2).
    apply E, andb_true_iff in Hin as [?%Z.leb_le ?%Z.leb_le]. done.
  - intros e id bs [-> |[-> | ->]]%with_a_entries Hs Hid Hb; vm_compute in Hid; injection Hid as <-; vm_compute in Hb; injection Hb as <-; [by left|by right; left|by vm_compute in Hs].
Qed.

Lemma view_of_ok_witness : (ViewOk (M:=naive) (view_of with_a) /\ SortOk (view_of with_a) /\ NamesOk (M:=naive) (view_of with_a)) /\ v_subtree (view_of with_a) 0 5 = [2].
Proof.
  split; [exact (view_of_ok (M:=naive) with_a with_a_ok with_a_fits)|]. vm_compute. reflexivity.
Defined.
