(* ===== verification/Page.v ===== *)
(** The page of a query by the candidate path: [page_refs] without its fast
    paths, [order], [entry_key], [path_keys], [files_size] and [build_hits], from
    [crates/goz-core/src/query/engine.rs]. *)

From stdpp Require Import gmap.
From stdpp Require Import base option list sets sorting.
From Stdlib Require Import NArith ZArith Lia.
From S2P Require Import Prelude Types Wtf8 Fold Text Dates Budget Wildcard Query NameStore NameOrder Prefilter Compiled Volume FolderPaths TopK Engine FolderRank FolderTree NameLevel NameRows TopRows VolumeNew EngineView.

Inductive Stopped := stopped.

Record HitRef := { h_idx : N; h_frn : N }.
Record RefOutcome := { total : N; refs : list HitRef; total_size : option N }.
Record QueryHit := { qh_idx : N; qh_path : list N; qh_is_dir : bool; qh_size : option N; qh_mtime : option Z }.

Section page.
Context `{Unicode} {E : Env} {M : Memchr} {Sel : Select} {Srt : SortUnstable} {P : Pool}.
Context (V : IndexView).

(** [path_keys]: the parent folder's rank over the name's rank key. *)
Definition path_keys (idxs : list N) : option (list Candidate) :=
  ranks ← folder_ranks V (v_parent V <$> idxs);
  Some (zip_with (fun idx rank => {| c_idx := idx;
    c_key := N.lor (N.shiftl rank 32) (N.min (v_rank_key V (v_name_id V idx)) u32_max) |}) idxs ranks).

(** [order], before [order_top]: the candidates with their keys. *)
Definition with_keys (sort : SortSpec) (idxs : list N) : option (list Candidate) :=
  match key sort with
  | Path => path_keys idxs
  | _ => Some ((fun idx => {| c_idx := idx; c_key := entry_key V sort idx |}) <$> idxs)
  end.

Definition order (sort : SortSpec) (idxs : list N) (stop : nat) : option (list Candidate) :=
  cands ← with_keys sort idxs;
  Some (order_top (cmp_candidate (fun idx => v_folded V (v_name_id V idx)) sort) cands stop).

Definition hit_ref (idx : N) : HitRef := {| h_idx := idx; h_frn := v_frn V idx |}.

(** Rows [start] to [stop]. *)
Definition page_of {A} (start stop : N) (l : list A) : list A := take (N.to_nat (stop - start)) (drop (N.to_nat start) l).

(** The page by names alone. *)
Definition name_level_page (q : ParsedQuery) (c : CompiledQuery) (sort : SortSpec) (offset : N) (limit : option N) (sum_sizes : bool) (b : Budget)
  : option (result Stopped RefOutcome * Budget) :=
  r ← match_names V q c b;
  let '(matched, total, b) := r in
  if is_spent b then Some (Err stopped, b)
  else
    let '(start, stop) := page_bounds total offset limit in
    rows ← name_level_rows V matched (dir sort) start stop;
    Some (Ok {| total := total; refs := hit_ref <$> rows; total_size := if sum_sizes then Some (names_files_size V matched) else None |}, b).

(** The page of the best rows; a slice past the rows kept would panic. *)
Definition top_k_refs (q : ParsedQuery) (c : CompiledQuery) (sort : SortSpec) (offset limit : N) (sum_sizes : bool) (b : Budget)
  : option (result Stopped RefOutcome * Budget) :=
  r ← top_k_rows V q c sort offset limit sum_sizes b;
  let '(total, size, kept, b) := r in
  if is_spent b then Some (Err stopped, b)
  else
    let '(start, stop) := page_bounds total offset (Some limit) in
    if (length kept <? N.to_nat stop)%nat then None
    else
      let page := page_of start stop (order_top (cmp_row V sort) kept (N.to_nat stop)) in
      Some (Ok {| total := total; refs := (fun c => hit_ref (c_idx c)) <$> page; total_size := if sum_sizes then Some size else None |}, b).

(** The candidate path. *)
Definition candidate_page (q : ParsedQuery) (c : CompiledQuery) (scope : option N) (sort : SortSpec) (offset : N) (limit : option N) (sum_sizes : bool)
    (b : Budget) : option (result Stopped RefOutcome * Budget) :=
  '(cands, b) ← scan V q c scope b;
  if is_spent b then Some (Err stopped, b)
  else
    let '(start, stop) := page_bounds (len cands) offset limit in
    ordered ← order sort cands (N.to_nat stop);
    Some (Ok {| total := len cands; refs := (fun c => hit_ref (c_idx c)) <$> page_of start stop ordered;
                total_size := if sum_sizes then Some (files_size V cands) else None |}, b).

(** [page_refs], with the budget it leaves. *)
Definition page_refs (mount_prefix : list N) (q : ParsedQuery) (scope : option N) (sort : SortSpec)
    (offset : N) (limit : option N) (sum_sizes fast : bool) (b : Budget) : option (result Stopped RefOutcome * Budget) :=
  let c := compiled_new q mount_prefix in
  let scope := match scope with Some s => if s =? v_root V then None else Some s | None => None end in
  if fast && match key sort with Name => true | _ => false end && is_name_level V q c scope then name_level_page q c sort offset limit sum_sizes b
  else
    match limit with
    | Some l =>
        if fast && top_k_applies V q c scope sort offset (Some l) then top_k_refs q c sort offset l sum_sizes b
        else candidate_page q c scope sort offset limit sum_sizes b
    | None => candidate_page q c scope sort offset limit sum_sizes b
    end.

(** [run_query_refs]. *)
Definition run_query_refs (mount_prefix : list N) (q : ParsedQuery) (scope : option N) (sort : SortSpec)
    (offset : N) (limit : option N) (sum_sizes : bool) (b : Budget) : option (result Stopped RefOutcome * Budget) :=
  page_refs mount_prefix q scope sort offset limit sum_sizes true b.

(** ** Rows with their paths *)

Fixpoint build_hits_loop (page : list HitRef) (dirs : gmap N (option (list N))) : list QueryHit :=
  match page with
  | [] => []
  | h :: page =>
      let idx := h_idx h in
      let par := v_parent V idx in
      let '(pp, dirs) := match dirs !! par with
                         | Some pp => (pp, dirs)
                         | None => (v_path_of V par, <[par := v_path_of V par]> dirs) end in
      match pp with
      | None => build_hits_loop page dirs
      | Some pp =>
          {| qh_idx := idx;
             qh_path := (match pp with [] => [] | _ => pp ++ [0x5C] end) ++ v_raw V (v_name_id V idx);
             qh_is_dir := v_is_dir V idx; qh_size := v_size V idx; qh_mtime := v_mtime V idx |} :: build_hits_loop page dirs
      end
  end.
Definition build_hits (page : list HitRef) : list QueryHit := build_hits_loop page ∅.
End page.

(** ** Correctness *)

(** ** The order of rows *)

(** One comparison, then another where it ties. *)
Definition thenc (a b : comparison) : comparison := match a with Eq => b | c => c end.
Definition directed (d : SortDir) (c : comparison) : comparison := match d with Asc => c | Desc => CompOpp c end.

(** Known values in the order [cmp], an unknown one after all of them. *)
Definition known_first {A} (cmp : A -> A -> comparison) (a b : option A) : comparison :=
  match a, b with
  | Some a, Some b => cmp a b
  | Some _, None => Lt
  | None, Some _ => Gt
  | None, None => Eq
  end.

(** The folded path of the folder an entry is in. *)
Definition parent_folded (V : IndexView) (idx : N) : option (list N) := rel_path V true <$> folder_chain V (v_parent V idx).

(** What a sort means: by the key asked for, entries without a size or a date
    last whichever the direction; then by folded name and by index. *)
Definition row_cmp (V : IndexView) (sort : SortSpec) (a b : N) : comparison :=
  let names := thenc (bytes_cmp (v_folded V (v_name_id V a)) (v_folded V (v_name_id V b))) (N.compare a b) in
  match key sort with
  | Name => directed (dir sort) names
  | Path => directed (dir sort) (thenc (known_first bytes_cmp (parent_folded V a) (parent_folded V b)) names)
  | Size => thenc (known_first (fun x y => directed (dir sort) (N.compare x y)) (v_size V a) (v_size V b)) (directed (dir sort) names)
  | DateModified => thenc (known_first (fun x y => directed (dir sort) (Z.compare x y)) (v_mtime V a) (v_mtime V b)) (directed (dir sort) names)
  end.

Lemma opp_eq c : CompOpp c = Eq <-> c = Eq.
Proof. by destruct c. Qed.

(** Comparisons that are weak orders, and their combinations. *)
Lemma weak_total {A} (cmp : A -> A -> comparison) : WeakCmp cmp -> (forall a b, cmp a b = Eq <-> a = b) -> TotalCmp cmp.
Proof.
  intros [Ho Ht] He. split; [done|done|]. intros a b c H1 H2.
  assert (Hle : cmp a c <> Gt) by (apply (Ht a b c); congruence). destruct (cmp a c) eqn:E; [|done|done].
  apply He in E as ->. rewrite Ho, H1 in H2. done.
Qed.

Lemma weak_eq_l {A} (cmp : A -> A -> comparison) {W : WeakCmp cmp} a b c : cmp a b = Eq -> cmp a c = cmp b c.
Proof.
  intros E. assert (E' : cmp b a = Eq) by (rewrite wc_opp, E; done).
  destruct (cmp a c) eqn:E1, (cmp b c) eqn:E2; try done; exfalso.
  - assert (Hx : cmp c b <> Gt) by (apply (wc_trans c a b); rewrite ?(wc_opp a c), ?E1, ?E; done). rewrite (wc_opp b c), E2 in Hx. done.
  - apply (wc_trans b a c); congruence.
  - assert (Hx : cmp c a <> Gt) by (apply (wc_trans c b a); rewrite ?(wc_opp b c), ?E2, ?E'; done). rewrite (wc_opp a c), E1 in Hx. done.
  - apply (wc_trans b a c); congruence.
  - apply (wc_trans a b c); congruence.
  - apply (wc_trans a b c); congruence.
Qed.

Lemma weak_thenc {A} (f g : A -> A -> comparison) : WeakCmp f -> WeakCmp g -> WeakCmp (fun a b => thenc (f a b) (g a b)).
Proof.
  intros F G. split.
  - intros a b. rewrite (wc_opp (cmp:=f) a b), (wc_opp (cmp:=g) a b). by destruct (f a b).
  - intros a b c. destruct (f a b) eqn:E1; simpl; [rewrite (weak_eq_l f a b c E1)| |done].
    + destruct (f b c); simpl; [apply wc_trans|done|done].
    + intros _. destruct (f b c) eqn:E2; simpl; [|intros _|done].
      * intros _. assert (E2' : f c b = Eq) by (rewrite (wc_opp (cmp:=f)), E2; done). pose proof (weak_eq_l f c b a E2') as E3.
        rewrite (wc_opp (cmp:=f) a c), (wc_opp (cmp:=f) a b), E1 in E3. destruct (f a c); done.
      * assert (Hac : f a c <> Gt) by (apply (wc_trans (cmp:=f) a b c); congruence). destruct (f a c) eqn:E3; [|done|done].
        pose proof (weak_eq_l f a c b E3) as E4. rewrite E1, (wc_opp (cmp:=f) b c), E2 in E4. done.
Qed.

Lemma weak_directed {A} (f : A -> A -> comparison) d : WeakCmp f -> WeakCmp (fun a b => directed d (f a b)).
Proof.
  intros F. destruct d; simpl; [done|]. split; [intros a b; by rewrite (wc_opp a b)|].
  intros a b c Hab Hbc Hac. apply (wc_trans (cmp:=f) c b a).
  - rewrite (wc_opp b c). done.
  - rewrite (wc_opp a b). done.
  - rewrite (wc_opp a c). destruct (f a c); done.
Qed.

Lemma weak_known {A B} (f : A -> A -> comparison) (g : B -> option A) : WeakCmp f -> WeakCmp (fun a b => known_first f (g a) (g b)).
Proof.
  intros F. split.
  - intros a b. destruct (g a), (g b); simpl; [apply wc_opp|done|done|done].
  - intros a b c. destruct (g a), (g b), (g c); simpl; try done. apply wc_trans.
Qed.

Lemma weak_comap {A B} (f : A -> A -> comparison) (g : B -> A) : WeakCmp f -> WeakCmp (fun a b => f (g a) (g b)).
Proof. intros [H1 H2]. split; [intros; apply H1|intros a b c; apply H2]. Qed.

Lemma weak_N : WeakCmp N.compare.
Proof. split; [intros; apply N.compare_antisym|]. intros a b c. rewrite !N.compare_le_iff. lia. Qed.
Lemma weak_Z : WeakCmp Z.compare.
Proof. split; [intros; apply Z.compare_antisym|]. intros a b c. rewrite !Z.compare_le_iff. lia. Qed.
Lemma weak_bytes : WeakCmp bytes_cmp.
Proof.
  split; [intros; apply bytes_cmp_antisym|]. intros a b c [-> |H1]%bytes_le_lt_dec H2; [done|].
  destruct (bytes_le_lt_dec _ _ H2) as [<- |H3]; [congruence|]. by rewrite (bytes_cmp_lt_trans _ _ _ H1 H3).
Qed.

Create HintDb weak_cmp.
#[export] Hint Resolve weak_thenc weak_directed weak_known weak_comap weak_N weak_Z weak_bytes : weak_cmp.

Lemma thenc_eq a b : thenc a b = Eq <-> a = Eq /\ b = Eq.
Proof. destruct a; simpl; naive_solver. Qed.
Lemma directed_eq d c : directed d c = Eq <-> c = Eq.
Proof. destruct d; [done|apply opp_eq]. Qed.

#[export] Instance row_cmp_total V sort : TotalCmp (row_cmp V sort).
Proof.
  assert (Hn : WeakCmp (fun a b => thenc (bytes_cmp (v_folded V (v_name_id V a)) (v_folded V (v_name_id V b))) (N.compare a b))).
  { apply weak_thenc; [apply (weak_comap bytes_cmp (fun a => v_folded V (v_name_id V a)) weak_bytes)|apply weak_N]. }
  assert (He : forall a b, thenc (bytes_cmp (v_folded V (v_name_id V a)) (v_folded V (v_name_id V b))) (N.compare a b) = Eq <-> a = b).
  { intros a b. rewrite thenc_eq, bytes_cmp_eq, N.compare_eq_iff. split; [by intros [_ ?]|by intros ->]. }
  assert (Hk : forall {A} (f : A -> A -> comparison) o, (forall x, f x x = Eq) -> known_first f o o = Eq) by (intros A f [x|] Hf; [apply Hf|done]).
  apply weak_total; unfold row_cmp; destruct (key sort).
  - by apply weak_directed.
  - apply weak_directed, weak_thenc; [|done]. apply weak_known, weak_bytes.
  - apply weak_thenc; [apply (weak_known (fun x y => directed (dir sort) (N.compare x y)) (v_size V)), weak_directed, weak_N|by apply weak_directed].
  - apply weak_thenc; [apply (weak_known (fun x y => directed (dir sort) (Z.compare x y)) (v_mtime V)), weak_directed, weak_Z|by apply weak_directed].
  - intros a b. by rewrite directed_eq.
  - intros a b. rewrite directed_eq, thenc_eq, He. split; [by intros [_ ?]|]. intros ->. split; [|done]. apply Hk. intros x. by apply bytes_cmp_eq.
  - intros a b. rewrite thenc_eq, directed_eq, He. split; [by intros [_ ?]|]. intros ->. split; [|done]. apply Hk. intros x. apply directed_eq, N.compare_refl.
  - intros a b. rewrite thenc_eq, directed_eq, He. split; [by intros [_ ?]|]. intros ->. split; [|done]. apply Hk. intros x. apply directed_eq, Z.compare_refl.
Qed.

(** *** The keys order as the rows *)

Section keys.
Context {Srt : SortUnstable} {Sok : SortUnstableOk Srt}.
Context (V : IndexView) {Pok : SortOk V}.
Notation fold_of_row idx := (v_folded V (v_name_id V idx)).

(** Rank keys, cut off at [m], refine to the bytes. *)
Lemma rank_then_name m a b : a ∈ v_live V -> b ∈ v_live V ->
  thenc (N.compare (N.min (v_rank_key V (v_name_id V a)) m) (N.min (v_rank_key V (v_name_id V b)) m)) (bytes_cmp (fold_of_row a) (fold_of_row b))
  = bytes_cmp (fold_of_row a) (fold_of_row b).
Proof.
  intros Ha Hb. destruct (N.compare_spec (N.min (v_rank_key V (v_name_id V a)) m) (N.min (v_rank_key V (v_name_id V b)) m)); simpl; [done| |]; symmetry.
  - apply po_key_order; [done|done|lia].
  - rewrite bytes_cmp_antisym, (po_key_order b a); [done|done|done|lia].
Qed.

Lemma rank_then_name_full a b : a ∈ v_live V -> b ∈ v_live V ->
  thenc (N.compare (v_rank_key V (v_name_id V a)) (v_rank_key V (v_name_id V b))) (bytes_cmp (fold_of_row a) (fold_of_row b)) = bytes_cmp (fold_of_row a) (fold_of_row b).
Proof.
  intros Ha Hb. pose proof (rank_then_name (N.max (v_rank_key V (v_name_id V a)) (v_rank_key V (v_name_id V b))) a b Ha Hb) as E.
  by rewrite !N.min_l in E by lia.
Qed.

Lemma lor_high r k : k <= u32_max -> N.lor (N.shiftl r 32) k = r * 2 ^ 32 + k.
Proof.
  intros Hk. rewrite N.shiftl_mul_pow2. assert (Hz : N.land (r * 2 ^ 32) k = 0).
  { apply N.bits_inj. intros i. rewrite N.bits_0, N.land_spec. destruct (N.lt_ge_cases i 32) as [Hi|Hi]; [by rewrite N.mul_pow2_bits_low|].
    rewrite (N.testbit_eqb k), N.div_small; [by rewrite andb_false_r|]. eapply N.lt_le_trans; [|apply N.pow_le_mono_r; [|exact Hi]; lia].
    unfold u32_max in Hk. change (2 ^ 32) with 4294967296. lia. }
  rewrite N.add_nocarry_lxor by done. symmetry. by apply N.lxor_lor.
Qed.

Lemma compare_pair r r' k k' : k <= u32_max -> k' <= u32_max ->
  N.compare (N.lor (N.shiftl r 32) k) (N.lor (N.shiftl r' 32) k') = thenc (N.compare r r') (N.compare k k').
Proof.
  intros Hk Hk'. rewrite !lor_high by done. unfold u32_max in *. change (2 ^ 32) with 4294967296.
  destruct (N.compare_spec r r') as [-> |?|?]; simpl.
  - destruct (N.compare_spec k k'); [subst; apply N.compare_refl|apply N.compare_lt_iff; lia|apply N.compare_gt_iff; lia].
  - apply N.compare_lt_iff. nia.
  - apply N.compare_gt_iff. nia.
Qed.

Lemma thenc_assoc a b c : thenc (thenc a b) c = thenc a (thenc b c).
Proof. by destruct a. Qed.
Lemma directed_thenc d a b : directed d (thenc a b) = thenc (directed d a) (directed d b).
Proof. destruct d; [done|]. by destruct a. Qed.

Lemma cmp_candidate_thenc folded sort a b :
  cmp_candidate folded sort a b = directed (dir sort) (thenc (N.compare (c_key a) (c_key b)) (thenc (bytes_cmp (folded (c_idx a)) (folded (c_idx b))) (N.compare (c_idx a) (c_idx b)))).
Proof. unfold cmp_candidate, cmp_base, thenc, directed. destruct (dir sort), (N.compare (c_key a) (c_key b)); try done; by destruct (bytes_cmp _ _). Qed.

(** Sizes and dates. *)
Lemma size_key_cmp d x y : (forall s, x = Some s -> s < u64_max) -> (forall s, y = Some s -> s < u64_max) ->
  directed d (N.compare (size_key x d) (size_key y d)) = known_first (fun x y => directed d (N.compare x y)) x y.
Proof.
  intros Hx Hy. change (directed d (N.compare (size_key x d) (size_key y d))) with (key_cmp_dir d (size_key x d) (size_key y d)). unfold size_key.
  destruct x as [x|], y as [y|]; cbn [known_first].
  - destruct (unknown_last_spec d x y (Hx _ eq_refl) (Hy _ eq_refl)) as (_ & E & _). exact E.
  - destruct (unknown_last_spec d x x (Hx _ eq_refl) (Hx _ eq_refl)) as (_ & _ & E & _). exact E.
  - destruct (unknown_last_spec d y y (Hy _ eq_refl) (Hy _ eq_refl)) as (_ & _ & E & _). unfold key_cmp_dir in *.
    rewrite (N.compare_antisym (unknown_last (Some y) d)). destruct d; [by rewrite E|]. revert E. by destruct (N.compare (unknown_last (Some y) Desc) _).
  - destruct (unknown_last_spec d 0 0) as (_ & _ & _ & E); [done|done|]. exact E.
Qed.

Lemma mtime_key_cmp d x y : (forall t, x = Some t -> (i64_min < t <= i64_max)%Z) -> (forall t, y = Some t -> (i64_min < t <= i64_max)%Z) ->
  directed d (N.compare (mtime_key x d) (mtime_key y d)) = known_first (fun x y => directed d (Z.compare x y)) x y.
Proof.
  intros Hx Hy. change (mtime_key x d) with (size_key (mtime_bits <$> x) d). change (mtime_key y d) with (size_key (mtime_bits <$> y) d).
  assert (Hb : forall t, (i64_min < t <= i64_max)%Z -> mtime_bits t < u64_max).
  { intros t Ht. pose proof (mtime_bits_spec t Ht). unfold i64_min, i64_max, u64_max in *. lia. }
  rewrite size_key_cmp.
  - destruct x as [x|], y as [y|]; try done. simpl. f_equal. pose proof (mtime_bits_spec x (Hx _ eq_refl)). pose proof (mtime_bits_spec y (Hy _ eq_refl)).
    destruct (N.compare_spec (mtime_bits x) (mtime_bits y)), (Z.compare_spec x y); (done || lia).
  - intros s (t & -> & ->)%fmap_Some. by apply Hb, Hx.
  - intros s (t & -> & ->)%fmap_Some. by apply Hb, Hy.
Qed.

(** What keyed candidates are. *)
Definition keyed (sort : SortSpec) (idxs : list N) (cands : list Candidate) : Prop :=
  c_idx <$> cands = idxs /\
  forall a b, a ∈ cands -> b ∈ cands -> cmp_candidate (fun idx => fold_of_row idx) sort a b = row_cmp V sort (c_idx a) (c_idx b).

Lemma path_keys_keyed sort idxs : key sort = Path -> Forall (fun e => e ∈ v_live V /\ v_parent V e ∈ v_live V) idxs ->
  exists cands, path_keys V idxs = Some cands /\ keyed sort idxs cands.
Proof.
  intros Hk Hl. destruct (folder_ranks_spec V (v_parent V <$> idxs)) as (rs & E & Hr1 & Hr2).
  { apply Forall_fmap. eapply Forall_impl; [exact Hl|]. intros e [_ ?]. done. }
  unfold path_keys. rewrite E. cbn [mbind option_bind]. eexists. split; [done|].
  pose proof (Forall2_length _ _ _ Hr1) as Hlen. rewrite length_fmap in Hlen. split.
  { apply list_eq. intros i. rewrite list_lookup_fmap, lookup_zip_with. destruct (idxs !! i) as [x|] eqn:Ex; simpl; [|done].
    destruct (lookup_lt_is_Some_2 rs i) as [r Er]; [rewrite <- Hlen; by eapply lookup_lt_Some|]. by rewrite Er. }
  intros a b Ha Hb. apply list_elem_of_lookup in Ha as [i Ha], Hb as [j Hb]. rewrite lookup_zip_with in Ha, Hb.
  apply bind_Some in Ha as (x & Hx & (r & Hr & [= <-])%bind_Some). apply bind_Some in Hb as (y & Hy & (r' & Hr' & [= <-])%bind_Some). cbn [c_idx c_key].
  rewrite cmp_candidate_thenc. cbn [c_idx c_key]. rewrite compare_pair by apply N.le_min_r. unfold row_cmp. rewrite Hk. f_equal.
  pose proof (Forall_lookup_1 _ _ _ _ Hl Hx) as [Hxl _]. pose proof (Forall_lookup_1 _ _ _ _ Hl Hy) as [Hyl _].
  rewrite thenc_assoc, <- (thenc_assoc (N.compare (N.min _ _) _)), rank_then_name by done. f_equal.
  assert (Hxp : (v_parent V <$> idxs) !! i = Some (v_parent V x)) by (by rewrite list_lookup_fmap, Hx).
  assert (Hyp : (v_parent V <$> idxs) !! j = Some (v_parent V y)) by (by rewrite list_lookup_fmap, Hy).
  destruct (Forall2_lookup_lr _ _ _ _ _ _ Hr1 Hxp Hr) as [Hm Hu]. destruct (Forall2_lookup_lr _ _ _ _ _ _ Hr1 Hyp Hr') as [Hm' Hu'].
  unfold parent_folded. destruct (folder_chain V (v_parent V x)) as [c|] eqn:Ec, (folder_chain V (v_parent V y)) as [c'|] eqn:Ec'; simpl.
  - by apply (Hr2 i j (v_parent V x) (v_parent V y)).
  - rewrite (proj2 Hu' eq_refl). apply N.compare_lt_iff. assert (r <> UNPRESENTABLE) by (rewrite Hu; done). lia.
  - rewrite (proj2 Hu eq_refl). apply N.compare_gt_iff. assert (r' <> UNPRESENTABLE) by (rewrite Hu'; done). lia.
  - rewrite (proj2 Hu eq_refl), (proj2 Hu' eq_refl). apply N.compare_refl.
Qed.

Lemma with_keys_keyed sort idxs : Forall (fun e => e ∈ v_live V /\ v_parent V e ∈ v_live V) idxs ->
  exists cands, with_keys V sort idxs = Some cands /\ keyed sort idxs cands.
Proof.
  intros Hl. unfold with_keys. destruct (key sort) eqn:Hk; [|by apply path_keys_keyed|..].
  all: eexists; (split; [done|]); (split; [rewrite <- list_fmap_compose; apply list_fmap_id|]).
  all: intros a b (x & -> & Hx)%list_elem_of_fmap (y & -> & Hy)%list_elem_of_fmap; rewrite cmp_candidate_thenc; cbn [c_idx c_key]; unfold entry_key, row_cmp; rewrite Hk.
  all: rewrite Forall_forall in Hl; destruct (Hl x Hx) as [Hxl _], (Hl y Hy) as [Hyl _].
  - f_equal. rewrite <- thenc_assoc. by rewrite rank_then_name_full.
  - rewrite directed_thenc. f_equal. apply size_key_cmp; intros s; by apply po_size.
  - rewrite directed_thenc. f_equal. apply mtime_key_cmp; intros s; by apply po_mtime.
Qed.

(** Rows in order. *)
Definition sorted_rows (sort : SortSpec) (l : list N) : list N := merge_sort (cmp_le (row_cmp V sort)) l.

Lemma sorted_rows_perm sort l l' : l ≡ₚ l' -> sorted_rows sort l = sorted_rows sort l'.
Proof.
  intros Hp. apply (sort_unique (row_cmp V sort)); [apply sort_sorted; apply _|]. etransitivity; [apply sort_perm|]. by symmetry.
Qed.

Lemma keyed_sorted sort idxs cands : keyed sort idxs cands ->
  c_idx <$> merge_sort (cmp_le (cmp_candidate (fun idx => fold_of_row idx) sort)) cands = sorted_rows sort idxs.
Proof.
  intros [<- Hc]. set (cmp := cmp_candidate (fun idx => fold_of_row idx) sort) in *. symmetry. apply (sort_unique (row_cmp V sort)).
  2: { apply fmap_Permutation. apply (sort_perm cmp). }
  pose proof (sort_sorted cmp cands) as Hs. assert (Hin : forall x, x ∈ TopK.sort cmp cands -> x ∈ cands) by (intros x; by rewrite sort_perm).
  change (merge_sort (cmp_le cmp) cands) with (TopK.sort cmp cands). induction Hs as [|x l Hs IH Hx]; [constructor|]. simpl. apply StronglySorted_cons. split.
  - apply Forall_fmap. apply Forall_forall. intros y Hy. unfold compose, cmp_le. rewrite <- Hc; [|apply Hin; left|apply Hin; by right].
    apply (proj1 (Forall_forall _ _) Hx y Hy).
  - apply IH. intros y Hy. apply Hin. by right.
Qed.

Context {Sel : Select} {Sell : SelectOk Sel}.

(** Cutting a page out of the ordered prefix is cutting it out of the order. *)
Lemma order_page sort l start stop : Forall (fun e => e ∈ v_live V /\ v_parent V e ∈ v_live V) l -> (start <= stop)%nat -> (stop <= length l)%nat ->
  exists ordered, order V sort l stop = Some ordered /\
    c_idx <$> take (stop - start) (drop start ordered) = take (stop - start) (drop start (sorted_rows sort l)).
Proof.
  intros Hl Hs Hstop. destruct (with_keys_keyed sort l Hl) as (cands & E & Hk). unfold order. rewrite E. cbn [mbind option_bind]. eexists. split; [done|].
  assert (Hlen : length cands = length l) by (destruct Hk as [<- _]; by rewrite length_fmap).
  pose proof (order_top_take (cmp_candidate (fun idx => fold_of_row idx) sort) cands stop ltac:(lia)) as Ho.
  assert (Hcut : forall (A : Type) (k : list A), take (stop - start) (drop start k) = drop start (take stop k)) by (intros A k; by rewrite skipn_firstn_comm).
  rewrite !Hcut, Ho, fmap_drop, fmap_take. f_equal. f_equal. by apply keyed_sorted.
Qed.
End keys.
(** A query's texts are such as the parser makes, and Windows' rules for names
    and mount prefixes hold. *)
Record query_fits `{Unicode} {M : Memchr} (V : IndexView) (q : ParsedQuery) (mount : list N) : Prop := {
  qf_wild : Forall compiled_from (wildcards q) /\ Forall compiled_from (path_wildcards q);
  qf_mount : text mount;
  qf_nul lit : prefilter (compiled_new q mount) = Some lit \/ c_path_piece (compiled_new q mount) = Some lit -> 0 ∉ lit;
  qf_drive : one_colon (c_prefix (compiled_new q mount));
  qf_colon x : 0x3A ∉ name_bytes V (negb (match_case q)) x
}.

(** The scope [page_refs] searches. *)
Definition real_scope (V : IndexView) (scope : option N) : option N :=
  match scope with Some s => if s =? v_root V then None else Some s | None => None end.

(** A match is in a folder. *)
Lemma hit_parent `{Unicode} {M : Memchr} (V : IndexView) {Vok : ViewOk V} {Pok : SortOk V} q mount scope e :
  e ∈ v_live V -> hit V q mount scope e -> v_parent V e ∈ v_live V.
Proof.
  intros Hl (Hs & _). destruct (po_parent e Hl) as [Hn|?]; [|done]. exfalso. destruct (po_tops e Hl Hn) as [-> | ->].
  - by rewrite vo_root_synthetic in Hs.
  - by rewrite vo_lost_synthetic in Hs.
Qed.

(** What a query is to answer with: the number of its matches, their size, and
    the page of them in order. *)
Definition answered (V : IndexView) (found : N -> Prop) (sort : SortSpec) (offset : N) (limit : option N) (sum_sizes : bool) (o : RefOutcome) : Prop :=
  forall all, NoDup all -> (forall e, e ∈ all <-> e ∈ v_live V /\ found e) ->
    total o = len all /\ total_size o = (if sum_sizes then Some (files_size V all) else None) /\
    let '(start, stop) := page_bounds (len all) offset limit in refs o = hit_ref V <$> page_of start stop (sorted_rows V sort all).

(** Or to report that the budget was spent. *)
Definition answered_or_spent `{Env} (V : IndexView) (found : N -> Prop) (sort : SortSpec) (offset : N) (limit : option N) (sum_sizes : bool)
    (m : option (result Stopped RefOutcome * Budget)) : Prop :=
  exists r b', m = Some (r, b') /\ match r with Err _ => is_spent b' = true | Ok o => answered V found sort offset limit sum_sizes o end.

Lemma page_bounds_ok n offset limit start stop : page_bounds n offset limit = (start, stop) -> start <= stop /\ stop <= n.
Proof. unfold page_bounds. destruct limit; intros; simplify_eq; lia. Qed.

Section pages.
Context `{Unicode, !UnicodeAscii, !UnicodeText} {E : Env} {M : Memchr} {Mok : MemchrOk M} {Sel : Select} {Sell : SelectOk Sel}.
Context {Srt : SortUnstable} {Sok : SortUnstableOk Srt} {P : Pool} {Pool_ok : PoolOk P}.
Context (V : IndexView) {Vok : ViewOk V} {Pok : SortOk V} {Nok : NamesOk V} (q : ParsedQuery) (mount : list N) (Hq : query_fits V q mount).
Context (sort : SortSpec) (offset : N) (sum_sizes : bool).
Notation c := (compiled_new q mount).

Lemma spent_not b : is_spent b = false -> spent b = false.
Proof. unfold is_spent. by intros [? _]%orb_false_iff. Qed.

Lemma candidate_page_ok scope limit b : scope_valid V scope ->
  answered_or_spent V (hit V q mount scope) sort offset limit sum_sizes (candidate_page V q c scope sort offset limit sum_sizes b).
Proof.
  destruct Hq as [Hw Hm Hn Hd Hcol]. intros Hsc. unfold candidate_page.
  destruct (scan_with_spec V q mount Hw Hm Hn Hd Hcol scope SUBTREE_WALK_MAX b Hsc) as (cands & b' & Es & _ & Hnd & Hsound & Hcomp).
  unfold scan. rewrite Es. cbn [mbind option_bind]. destruct (is_spent b') eqn:Esp; [by eexists _, _|].
  destruct (page_bounds (len cands) offset limit) as [start stop] eqn:Epb. pose proof (page_bounds_ok _ _ _ _ _ Epb) as Hb.
  destruct (order_page V sort cands (N.to_nat start) (N.to_nat stop)) as (ordered & Eo & Hpage); [|lia|unfold len in Hb; lia|].
  { apply Forall_forall. intros e He. destruct (Hsound e He) as [Hl Hh]. split; [done|]. by eapply hit_parent. }
  rewrite Eo. cbn [mbind option_bind]. eexists _, _. split; [done|]. intros all Hnda Hall. cbn [total total_size refs].
  assert (Hp : cands ≡ₚ all).
  { apply NoDup_Permutation; [done|done|]. intros e. rewrite Hall. split; [by apply Hsound|]. intros [? ?]. apply Hcomp; [by apply spent_not|done|done]. }
  assert (Hlen : len cands = len all) by (unfold len; by rewrite Hp). rewrite <- Hlen, Epb. split_and!; [done|by rewrite (files_size_perm V _ _ Hp)|].
  unfold page_of in *. replace (N.to_nat (stop - start)) with (N.to_nat stop - N.to_nat start)%nat by lia.
  rewrite <- (sorted_rows_perm V sort _ _ Hp), <- Hpage, <- list_fmap_compose. done.
Qed.

(** *** By names alone *)

Lemma name_level_hit e : is_name_level V q c None = true -> hit V q mount None e <-> v_synthetic V e = false /\ name_ok V q e.
Proof.
  unfold is_name_level. rewrite !andb_true_iff, !negb_true_iff. intros ((((((_ & _) & Ht) & Hk) & Hs) & Hd) & Hu).
  unfold hit, filters_match, path_ok, scope_ok. rewrite Ht, Hu. destruct (kind (filters q)), (fsize (filters q)), (date (filters q)); try done. naive_solver.
Qed.

Lemma sorted_by_name l : key sort = Name -> StronglySorted (row_before V (dir sort)) l -> sorted_rows V sort l = l.
Proof.
  intros Hk Hs. apply (sort_unique (row_cmp V sort)); [|done]. induction Hs as [|x l Hs IH Hx]; [constructor|]. apply StronglySorted_cons. split; [|done].
  eapply Forall_impl; [exact Hx|]. intros y Hy. unfold cmp_le, row_cmp. rewrite Hk. unfold row_before in Hy.
  assert (Et : thenc (bytes_cmp (v_folded V (v_name_id V x)) (v_folded V (v_name_id V y))) (N.compare x y) = key_cmp (row_key V x) (row_key V y))
    by (unfold thenc, key_cmp, row_key; simpl; by destruct (bytes_cmp _ _)).
  rewrite Et.
  destruct (dir sort); simpl; [by rewrite Hy|]. by rewrite (key_cmp_antisym (row_key V y)), Hy.
Qed.

Lemma name_level_page_ok limit b : key sort = Name -> is_name_level V q c None = true ->
  answered_or_spent V (hit V q mount None) sort offset limit sum_sizes (name_level_page V q c sort offset limit sum_sizes b).
Proof.
  intros Hk Hnl. unfold name_level_page. destruct (match_names_spec V q mount (qf_wild _ _ _ Hq) (qf_nul _ _ _ Hq) b) as (s & t & b' & -> & Hs & -> & Hok).
  cbn [mbind option_bind]. destruct (is_spent b') eqn:Esp; [by eexists _, _|]. destruct (Hok (spent_not _ Esp)) as [_ Hin].
  destruct (set_ids_spec V s Hs) as [Hnd _]. destruct (names_in_order_spec V s (dir sort) Hs) as (names & En & Hp & Hso).
  destruct (all_rows_spec V (dir sort) (length names) names) as [Hrp Hrs]; [done|by rewrite Hp|done|].
  destruct (page_bounds _ offset limit) as [start stop] eqn:Epb. pose proof (page_bounds_ok _ _ _ _ _ Epb) as Hb.
  set (L := all_rows V (length names) (dir sort) names) in *.
  assert (Er : name_level_rows V s (dir sort) start stop = Some (page_of start stop L)).
  { unfold name_level_rows, page_of. destruct (N.leb_spec stop start) as [Hle|Hlt]; [replace (stop - start) with 0 by lia; done|].
    rewrite En. cbn [mbind option_bind]. rewrite rows_loop_spec by done. rewrite !N.sub_0_r, skipn_firstn_comm. do 2 f_equal. lia. }
  rewrite Er. cbn [mbind option_bind]. eexists _, _. split; [done|]. intros all Hnda Hall. cbn [total total_size refs].
  assert (Hpa : flat_map (bearers V) (set_ids s) ≡ₚ all).
  { apply NoDup_Permutation; [by apply (bearers_all_nodup V)|done|]. intros e. rewrite Hall, (bearers_all_in V), Hin, (name_level_hit e Hnl). unfold name_ok, id_ok.
    split; [naive_solver|]. intros (Hl & Hsy & Hn). split_and!; try done. intros Hx. assert (He : e ∈ v_name_chain V (v_name_id V e)) by (by apply vo_chain).
    rewrite Hx in He. by apply not_elem_of_nil in He. }
  assert (Hlen : len (flat_map (bearers V) (set_ids s)) = len all) by (unfold len; by rewrite Hpa). rewrite <- Hlen, Epb. split_and!; [done| |].
  - destruct sum_sizes; [|done]. by rewrite names_files_size_spec, (files_size_perm V _ _ Hpa).
  - do 2 f_equal. rewrite <- (sorted_by_name L Hk Hrs). apply sorted_rows_perm. rewrite Hrp, <- Hpa. by apply Permutation_flat_map.
Qed.

(** *** By the best rows *)

Lemma cand_keyed l : key sort <> Path -> Forall (fun e => e ∈ v_live V /\ v_parent V e ∈ v_live V) l -> keyed V sort l (cand V sort <$> l).
Proof.
  intros Hk Hl. destruct (with_keys_keyed V sort l Hl) as (cands & Ec & Hkd). unfold with_keys in Ec. destruct (key sort); try done; by injection Ec as <-.
Qed.

Lemma top_k_refs_ok limit b : top_k_applies V q c None sort offset (Some limit) = true ->
  answered_or_spent V (hit V q mount None) sort offset (Some limit) sum_sizes (top_k_refs V q c sort offset limit sum_sizes b).
Proof.
  unfold top_k_applies. rewrite !andb_true_iff, !negb_true_iff. intros (((((((Hkey & _) & _) & Hcase) & Hlit) & _) & Htp) & _).
  destruct (prefilter c) as [lit|] eqn:El; [|done]. destruct Hq as [Hw Hm Hn _ _]. assert (Hk : key sort <> Path) by (by destruct (key sort)).
  unfold top_k_refs, top_k_rows. rewrite El. change (default [] (Some lit)) with lit. set (per := chunk_words (name_count V)). set (chunks := div_ceil (name_count V) (per * 64)).
  set (want := N.to_nat (offset + limit)). pose proof (chunk_words_pos (name_count V)) as Hper. fold per in Hper. pose proof pool_threads as Hth.
  assert (Hch : concat (slots (N.min chunks name_threads) chunks) ≡ₚ upto chunks) by (apply pool_chunks; destruct (decide (chunks = 0)); [by right|left; lia]).
  destruct (scan_slots_ok V q mount Hw Hm Hn sort want sum_sizes per Hper lit Hcase El Htp (slots (N.min chunks name_threads) chunks) b)
    as (bests & n & sz & b' & threads & Es & Eb & -> & -> & Hnd & Hin & Hsp); [rewrite Hch; apply upto_nodup|].
  rewrite Es. cbn [mbind option_bind]. destruct (is_spent b') eqn:Esp; [by eexists _, _|]. destruct (Hsp (spent_not _ Esp)) as [_ Hall'].
  destruct (page_bounds _ offset (Some limit)) as [start stop] eqn:Epb. pose proof (page_bounds_ok _ _ _ _ _ Epb) as Hb.
  set (found := concat threads) in *. assert (Hfl : concat (map (map (cand V sort)) threads) = cand V sort <$> found) by (unfold found; by rewrite concat_map).
  destruct (top_k_spec (cmp_row V sort) want (map (map (cand V sort)) threads) (N.to_nat start) (N.to_nat stop)) as (bests' & Eb' & Hlen & Hpg).
  { rewrite Hfl. by apply cands_nodup. }
  { unfold page_bounds in Epb. injection Epb as <- <-. unfold want. lia. }
  { rewrite Hfl, length_fmap. unfold len in Hb. lia. }
  rewrite Eb in Eb'. injection Eb' as <-. change (kept <$> bests) with (map kept bests). rewrite (proj2 (Nat.ltb_ge _ _)) by done.
  eexists _, _. split; [done|]. intros all Hnda Hall. cbn [total total_size refs].
  assert (Hp : found ≡ₚ all).
  { apply NoDup_Permutation; [done|done|]. intros e. rewrite Hall. split; [intros He; by destruct (Hin e He) as (? & _ & ?)|]. intros [Hl Hh]. apply Hall'; [done| |done].
    rewrite Hch, elem_of_upto. unfold chunk_of, chunks. pose proof (live_name_range V e Hl) as Hr.
    destruct (div_ceil_spec (name_count V) (per * 64) ltac:(lia)) as [D _]. apply N.Div0.div_lt_upper_bound. lia. }
  assert (Hle : len found = len all) by (unfold len; by rewrite Hp). rewrite <- Hle, Epb. split_and!; [done| |].
  - unfold summed. destruct sum_sizes; [|done]. by rewrite <- (files_size_perm V _ _ Hp), files_size_sum.
  - rewrite list_fmap_compose || idtac. unfold page_of. replace (N.to_nat (stop - start)) with (N.to_nat stop - N.to_nat start)%nat by lia.
    change (order_top (cmp_row V sort) (concat (map kept bests))) with (order_top (cmp_row V sort) (concat (map kept bests))). rewrite Hpg, Hfl.
    rewrite <- (sorted_rows_perm V sort _ _ Hp), <- (keyed_sorted V sort found (cand V sort <$> found)).
    + rewrite <- fmap_drop, <- fmap_take, <- list_fmap_compose. done.
    + apply cand_keyed; [done|]. apply Forall_forall. intros e He. destruct (Hin e He) as (Hl & _ & Hh). split; [done|]. by eapply hit_parent.
Qed.
End pages.

(** Whichever way the search goes. *)
Lemma page_refs_spec `{Unicode, !UnicodeAscii, !UnicodeText} {E : Env} {M : Memchr} {Mok : MemchrOk M} {Sel : Select} {Sell : SelectOk Sel}
    {Srt : SortUnstable} {Sok : SortUnstableOk Srt} {P : Pool} {Pool_ok : PoolOk P} (V : IndexView) {Vok : ViewOk V} {Pok : SortOk V} {Nok : NamesOk V}
    mount q scope sort offset limit sum_sizes fast b :
  query_fits V q mount -> scope_valid V (real_scope V scope) ->
  answered_or_spent V (hit V q mount (real_scope V scope)) sort offset limit sum_sizes (page_refs V mount q scope sort offset limit sum_sizes fast b).
Proof.
  intros Hq Hsc. unfold page_refs. fold (real_scope V scope). destruct (fast && _ && _) eqn:En.
  - apply andb_true_iff in En as [[_ Hk]%andb_true_iff Hn]. assert (Hr : real_scope V scope = None) by (unfold is_name_level in Hn; by destruct (real_scope V scope)).
    rewrite Hr in *. apply (name_level_page_ok V q mount Hq); [by destruct (key sort)|done].
  - destruct limit as [l|]; [|by apply (candidate_page_ok V q mount Hq)]. destruct (fast && top_k_applies _ _ _ _ _ _ _) eqn:Et; [|by apply (candidate_page_ok V q mount Hq)].
    apply andb_true_iff in Et as [_ Ht]. assert (Hr : real_scope V scope = None).
    { unfold top_k_applies in Ht. destruct (real_scope V scope); [|done]. rewrite !andb_true_iff in Ht. naive_solver. }
    rewrite Hr in *. by apply (top_k_refs_ok V q mount Hq).
Qed.

(** C1: a query answers exactly its matches, in order: for every index that keeps
    its promises, every parsed query, scope, sort and page, the search ends, and
    either it reports that the budget was spent, or its total is the number of
    entries that satisfy every part of the query, its summed size is theirs
    (stopping at [u64::MAX]), and its rows are rows [offset] to [offset + limit]
    of all of them in the order the sort means: by folded name; by the folded
    path of the folder, then name; or by size or date in the direction asked for,
    entries without one last; ties by name and index.  Which way the search went
    does not show: matching the distinct names in chunks and walking them in name
    order, keeping only the best rows of each thread, walking the scope's subtree,
    searching the names for the prefilter, walking below names that hold a piece
    of the path, or reading every entry; nor how the chunks were scheduled. *)
Theorem page_refs_correct `{Unicode, !UnicodeAscii, !UnicodeText} {E : Env} {M : Memchr} {Mok : MemchrOk M} {Sel : Select} {Sell : SelectOk Sel}
    {Srt : SortUnstable} {Sok : SortUnstableOk Srt} {P : Pool} {Pool_ok : PoolOk P} (V : IndexView) {Vok : ViewOk V} {Pok : SortOk V} {Nok : NamesOk V}
    mount q scope sort offset limit sum_sizes fast b :
  query_fits V q mount -> scope_valid V (real_scope V scope) ->
  answered_or_spent V (hit V q mount (real_scope V scope)) sort offset limit sum_sizes (page_refs V mount q scope sort offset limit sum_sizes fast b).
Proof. intros Hq Hsc. by apply page_refs_spec. Qed.

(** *** A search of a volume with one file *)

#[local] Existing Instance one_bucket.

(** A clock that stands still and a query no one cancels. *)
Definition quiet : Env := {| peer_spent := fun _ => false; cancel_flag := fun _ => false; now := fun _ => 0 |}.

Definition query_a : ParsedQuery :=
  {| name_terms := [[0x61]]; path_terms := []; wildcards := []; path_wildcards := []; filters := filters_default; match_case := false |}.
Definition drive_c : list N := [0x43; 0x3A; 0x5C].

Lemma with_a_folded id : FolderPaths.v_folded (view_of with_a) id = [] \/
  FolderPaths.v_folded (view_of with_a) id = [36; 108; 111; 115; 116; 102; 111; 117; 110; 100] \/ FolderPaths.v_folded (view_of with_a) id = [0x61].
Proof. simpl. unfold name_or_nil. case_decide as Hl; [|by left]. apply with_a_names in Hl as [-> |[-> | ->]]; vm_compute; tauto. Qed.

Lemma query_a_fits : query_fits (M:=naive) (view_of with_a) query_a drive_c.
Proof.
  split.
  - split; constructor.
  - exists drive_c. split; [repeat constructor; vm_compute; congruence|by vm_compute].
  - intros lit [E|E]; vm_compute in E; [|done]. injection E as <-. rewrite list_elem_of_singleton. done.
  - intros i j Hi Hj.
    assert (Hone : forall k, getN k (c_prefix (compiled_new (M:=naive) query_a drive_c)) = Some 0x3A -> k = 1).
    { intros k Hk. pose proof (getN_lt _ _ _ Hk) as Hlt. assert (Hl : len (c_prefix (compiled_new (M:=naive) query_a drive_c)) = 3) by (vm_compute; reflexivity).
      rewrite Hl in Hlt. assert (Hc : k = 0 \/ k = 1 \/ k = 2) by lia. destruct Hc as [-> |[-> | ->]]; [by vm_compute in Hk|done|by vm_compute in Hk]. }
    by rewrite (Hone i Hi), (Hone j Hj).
  - intros x. unfold name_bytes. change (negb (match_case query_a)) with true. cbv iota.
    destruct (with_a_folded (v_name_id (view_of with_a) x)) as [-> |[-> | ->]]; rewrite ?elem_of_cons, elem_of_nil; lia.
Qed.

(** A pool of one thread, which runs the chunks in order. *)
Definition one_thread : Pool := {| name_threads := 1; slots := fun n m => if n =? 0 then [] else upto m :: replicate (N.to_nat (n - 1)) [] |}.

#[export] Instance one_thread_ok : PoolOk one_thread.
Proof.
  split; simpl.
  - done.
  - intros n m. destruct (N.eqb_spec n 0) as [-> |]; [done|]. rewrite len_cons. unfold len. rewrite length_replicate. lia.
  - intros n m Hn. destruct (N.eqb_spec n 0) as [-> |]; [destruct Hn as [?| ->]; [lia|done]|]. simpl.
    assert (Hz : forall k, concat (replicate k (@nil N)) = []) by (induction k; done). rewrite Hz. by rewrite app_nil_r.
Qed.

Lemma page_refs_correct_witness :
  exists r b', page_refs (E:=quiet) (M:=naive) (Sel:=sort_select) (P:=one_thread) (view_of with_a) drive_c query_a None {| key := Name; dir := Desc |} 0 (Some 10) true true
    unlimited = Some (Ok r, b') /\ total r = 1 /\ refs r = [{| h_idx := 2; h_frn := 77 |}].
Proof.
  destruct (page_refs_correct (E:=quiet) (M:=naive) (Sel:=sort_select) (P:=one_thread) (view_of with_a) (Vok:=view_promises (M:=naive) with_a with_a_ok with_a_fits)
    (Pok:=view_sorts with_a with_a_ok with_a_fits) (Nok:=view_names (M:=naive) with_a with_a_ok with_a_fits)
    drive_c query_a None {| key := Name; dir := Desc |} 0 (Some 10) true true unlimited query_a_fits) as (r & b' & Er & _).
  - intros root Hr. discriminate Hr.
  - rewrite Er. vm_compute in Er. injection Er as <- <-. eexists _, _. split; [reflexivity|]. split; reflexivity.
Defined.

(** The three ways agree on a page by size. *)
Example pages_agree :
  let page fast sort := page_refs (E:=quiet) (M:=naive) (Sel:=sort_select) (P:=one_thread) (view_of with_a) drive_c query_a None sort 0 (Some 10) true fast unlimited in
  (fst <$> page true {| key := Size; dir := Asc |}) = (fst <$> page false {| key := Size; dir := Asc |}) /\
  (fst <$> page true {| key := Name; dir := Asc |}) = (fst <$> page false {| key := Name; dir := Asc |}).
Proof. split; vm_compute; reflexivity. Qed.
