(* ===== verification/Merge.v ===== *)
(** Merging sorted runs, as the page loop of the server does: taking the least
    head again and again lists the rows of all runs in order, and cutting every
    run to [k] rows does not change the first [k]. *)

From stdpp Require Import gmap.
From stdpp Require Import base option list sets sorting.
From Stdlib Require Import NArith Lia.
From S2P Require Import Prelude TopK.

(** The rows of numbered runs. *)
Definition tagged {A} (rs : list (list A)) : list (nat * A) := concat (imap (fun i l => pair i <$> l) rs).

Section tagged.
Context {A : Type}.
Implicit Types rs : list (list A).

Lemma tagged_app_aux (f : nat -> list A -> list (nat * A)) rs rs' : concat (imap f (rs ++ rs')) = concat (imap f rs) ++ concat (imap (fun i => f (length rs + i)%nat) rs').
Proof. rewrite imap_app, concat_app. done. Qed.

Lemma tag_shift k rs : imap ((fun i (l : list A) => pair (k + i)%nat <$> l) ∘ S) rs = imap (fun i l => pair (S k + i)%nat <$> l) rs.
Proof. apply imap_ext. intros i x _. simpl. by rewrite Nat.add_succ_r. Qed.

Lemma elem_of_tagged rs i x : (i, x) ∈ tagged rs <-> exists l, rs !! i = Some l /\ x ∈ l.
Proof.
  unfold tagged. rewrite list_elem_of_In, in_concat. split.
  - intros (t & Ht%list_elem_of_In & Hx%list_elem_of_In). apply elem_of_lookup_imap_1 in Ht as (j & l & -> & Hl).
    apply list_elem_of_fmap in Hx as (y & [= -> ->] & Hy). eauto.
  - intros (l & Hl & Hx). exists (pair i <$> l). split; apply list_elem_of_In; [|by apply list_elem_of_fmap_2].
    by apply (elem_of_lookup_imap_2 (fun i l => pair i <$> l) rs l i).
Qed.

(** Taking a head off. *)
Lemma tagged_take rs i x l : rs !! i = Some (x :: l) -> tagged rs ≡ₚ (i, x) :: tagged (<[i := l]> rs).
Proof.
  intros Hi. pose proof (lookup_lt_Some _ _ _ Hi) as Hlt. rewrite <- (take_drop_middle rs i (x :: l) Hi) at 1. rewrite insert_take_drop by done.
  unfold tagged. rewrite !tagged_app_aux. cbn [imap concat]. rewrite length_take, (Nat.min_l i) by lia. rewrite Nat.add_0_r. cbn [fmap list_fmap app].
  symmetry. apply Permutation_middle.
Qed.

Lemma tagged_nil rs : tagged rs = [] <-> Forall (fun l => l = []) rs.
Proof.
  split.
  - intros E. apply Forall_lookup. intros i l Hl. destruct l as [|x l]; [done|]. exfalso.
    assert (Hin : (i, x) ∈ tagged rs) by (apply elem_of_tagged; exists (x :: l); split; [done|left]). rewrite E in Hin. by apply not_elem_of_nil in Hin.
  - intros HF. destruct (tagged rs) as [|[i x] t] eqn:E; [done|]. exfalso.
    assert (Hin : (i, x) ∈ tagged rs) by (rewrite E; left). apply elem_of_tagged in Hin as (l & Hl & Hx).
    rewrite (Forall_lookup_1 _ _ _ _ HF Hl) in Hx. by apply not_elem_of_nil in Hx.
Qed.

Lemma length_tagged rs : length (tagged rs) = length (concat rs).
Proof.
  unfold tagged. assert (Hg : forall k, length (concat (imap (fun i l => pair (k + i)%nat <$> l) rs)) = length (concat rs)).
  { induction rs as [|l rs IH]; intros k; [done|]. cbn [imap concat]. rewrite !length_app, length_fmap. f_equal.
    by rewrite tag_shift, IH. }
  apply (Hg 0%nat).
Qed.

Lemma tagged_nodup rs : Forall NoDup rs -> NoDup (tagged rs).
Proof.
  unfold tagged. intros HF. assert (Hg : forall k, NoDup (concat (imap (fun i l => pair (k + i)%nat <$> l) rs)) /\
      forall p, p ∈ concat (imap (fun i l => pair (k + i)%nat <$> l) rs) -> (k <= p.1)%nat).
  { induction HF as [|l rs Hl HF IH]; intros k; [split; [constructor|intros p Hp; by apply not_elem_of_nil in Hp]|]. cbn [imap concat].
    rewrite tag_shift. destruct (IH (S k)) as [Hn Hge]. rewrite Nat.add_0_r. split.
    - apply NoDup_app. split; [|split; [|done]].
      + apply NoDup_fmap; [|done]. intros a b Hab. by injection Hab.
      + intros p (x & -> & _)%list_elem_of_fmap Hp%Hge. simpl in Hp. lia.
    - intros p [(x & -> & _)%list_elem_of_fmap|Hp%Hge]%elem_of_app; simpl; lia. }
  apply (Hg 0%nat).
Qed.
End tagged.

Section merge.
Context {A : Type} (cmp : nat * A -> nat * A -> comparison) {T : TotalCmp cmp}.
Implicit Types rs : list (list A).

(** Every run in order. *)
Definition run_sorted (i : nat) (l : list A) : Prop := StronglySorted (fun a b => cmp (i, a) (i, b) = Lt) l.
Definition runs_sorted rs : Prop := forall i l, rs !! i = Some l -> run_sorted i l.

(** The least of the heads. *)
Definition least_head rs (i : nat) (x : A) : Prop :=
  (exists l, rs !! i = Some (x :: l)) /\
  forall j y l, rs !! j = Some (y :: l) -> (j, y) = (i, x) \/ cmp (i, x) (j, y) = Lt.

Lemma runs_sorted_take rs i x l : runs_sorted rs -> rs !! i = Some (x :: l) -> runs_sorted (<[i := l]> rs).
Proof.
  intros Hs Hi j l' [(-> & -> & _)|[_ Hj]]%list_lookup_insert_Some; [|by apply Hs].
  by apply Hs, StronglySorted_inv in Hi as [? _].
Qed.

Lemma least_of_all rs i x l p : runs_sorted rs -> least_head rs i x -> rs !! i = Some (x :: l) -> p ∈ tagged (<[i := l]> rs) -> cmp (i, x) p = Lt.
Proof.
  intros Hs [_ Hmin] Hi. destruct p as [j z]. intros (l' & Hl & Hz)%elem_of_tagged. apply list_lookup_insert_Some in Hl as [(<- & <- & _)|[Hne Hj]].
  - apply Hs, StronglySorted_inv in Hi as [_ Hf]. by apply (proj1 (Forall_forall _ _) Hf).
  - destruct l' as [|y l']; [by apply not_elem_of_nil in Hz|]. destruct (Hmin j y l' Hj) as [[= <- _]|Hlt]; [done|].
    apply elem_of_cons in Hz as [-> |Hz]; [done|]. eapply cmp_lt_trans; [exact Hlt|]. apply Hs, StronglySorted_inv in Hj as [_ Hf].
    by apply (proj1 (Forall_forall _ _) Hf).
Qed.

(** The least head is the first row of all. *)
Lemma sort_head rs i x l : runs_sorted rs -> least_head rs i x -> rs !! i = Some (x :: l) ->
  TopK.sort cmp (tagged rs) = (i, x) :: TopK.sort cmp (tagged (<[i := l]> rs)).
Proof.
  intros Hs Hm Hi. apply sort_unique; [done| |].
  - apply StronglySorted_cons. split; [|apply sort_sorted; apply _]. apply Forall_forall. intros p Hp. rewrite sort_perm in Hp.
    unfold cmp_le. by rewrite (least_of_all rs i x l p).
  - rewrite sort_perm. symmetry. by apply tagged_take.
Qed.

(** The first row of all is the least head. *)
Lemma sort_head_inv rs i x t : runs_sorted rs -> TopK.sort cmp (tagged rs) = (i, x) :: t -> exists l, rs !! i = Some (x :: l) /\ least_head rs i x.
Proof.
  intros Hs E. assert (Hle : forall p, p ∈ tagged rs -> p = (i, x) \/ cmp (i, x) p = Lt).
  { intros p Hp. rewrite <- (sort_perm cmp), E in Hp. apply elem_of_cons in Hp as [-> |Hp]; [by left|].
    assert (Hst : StronglySorted (cmp_le cmp) ((i, x) :: t)) by (rewrite <- E; apply sort_sorted; apply _).
    apply StronglySorted_inv in Hst as [_ Hf]. pose proof (proj1 (Forall_forall _ _) Hf p Hp) as Hc. unfold cmp_le in Hc.
    destruct (cmp (i, x) p) eqn:Ec; [|by right|done]. left. symmetry. by apply (cmp_eq (i, x) p). }
  assert (Hin : (i, x) ∈ tagged rs) by (rewrite <- (sort_perm cmp), E; left). apply elem_of_tagged in Hin as (l & Hl & Hx).
  destruct l as [|y l]; [by apply not_elem_of_nil in Hx|]. assert (y = x) as ->.
  { apply elem_of_cons in Hx as [-> |Hx]; [done|]. destruct (Hle (i, y)) as [[= ->]|Hlt]; [apply elem_of_tagged; eexists; split; [done|left]|done|].
    exfalso. apply Hs, StronglySorted_inv in Hl as [_ Hf]. pose proof (proj1 (Forall_forall _ _) Hf x Hx) as Hyx. cbv beta in Hyx.
    rewrite (cmp_opp (i, y) (i, x)), Hyx in Hlt. done. }
  exists l. split; [done|]. split; [by exists l|]. intros j y l' Hj. apply Hle, elem_of_tagged. eexists. split; [done|left].
Qed.

(** Runs alike in their first [k] rows are merged alike that far. *)
Lemma merge_agree k : forall rs rs', runs_sorted rs -> runs_sorted rs' ->
  (forall i, take k (default [] (rs !! i)) = take k (default [] (rs' !! i))) ->
  take k (TopK.sort cmp (tagged rs)) = take k (TopK.sort cmp (tagged rs')).
Proof.
  induction k as [|k IH]; intros rs rs' Hs Hs' Ha; [done|].
  assert (Hheads : forall i x l, rs !! i = Some (x :: l) -> exists l', rs' !! i = Some (x :: l') /\ take k l = take k l').
  { intros i x l Hi. pose proof (Ha i) as E. rewrite Hi in E. destruct (rs' !! i) as [[|y l']|]; simpl in E; [done| |done]. injection E as <- E. eauto. }
  assert (Hheads' : forall i x l, rs' !! i = Some (x :: l) -> exists l', rs !! i = Some (x :: l') /\ take k l = take k l').
  { intros i x l Hi. pose proof (Ha i) as E. rewrite Hi in E. destruct (rs !! i) as [[|y l']|]; simpl in E; [done| |done]. injection E as -> E. eauto. }
  destruct (TopK.sort cmp (tagged rs)) as [|[i x] t] eqn:E.
  - destruct (TopK.sort cmp (tagged rs')) as [|[i x] t] eqn:E'; [done|]. exfalso.
    destruct (sort_head_inv rs' i x t Hs' E') as (l & Hl & _). apply Hheads' in Hl as (l' & Hl' & _).
    assert (Hin : (i, x) ∈ tagged rs) by (apply elem_of_tagged; eexists; split; [done|left]). rewrite <- (sort_perm cmp), E in Hin. by apply not_elem_of_nil in Hin.
  - destruct (sort_head_inv rs i x t Hs E) as (l & Hl & Hm). destruct (Hheads i x l Hl) as (l' & Hl' & Etl).
    assert (Hm' : least_head rs' i x) by (split; [eauto|]; intros j y l0 Hj; apply Hheads' in Hj as (? & Hj & _); by eapply Hm).
    rewrite (sort_head rs i x l Hs Hm Hl) in E. injection E as <-. rewrite (sort_head rs' i x l' Hs' Hm' Hl'). simpl. f_equal. apply IH.
    + by apply (runs_sorted_take rs i x).
    + by apply (runs_sorted_take rs' i x).
    + intros j. destruct (decide (i = j)) as [<- |Hne].
      * rewrite !list_lookup_insert_eq by (by eapply lookup_lt_Some). done.
      * rewrite !list_lookup_insert_ne by done. specialize (Ha j). destruct (default [] (rs !! j)), (default [] (rs' !! j)); simpl in Ha; try done.
        injection Ha as -> Ha. change (take (S k) (?y :: ?u)) with (y :: take k u) in Ha.
        assert (Ek : forall (u w : list A), take k u = take k w -> take k (a0 :: u) = take k (a0 :: w)).
        { intros u w Euw. destruct k as [|k']; [done|]. simpl. f_equal. apply (f_equal (take k')) in Euw.
          rewrite !take_take, !Nat.min_l in Euw by lia. done. }
        by apply Ek.
Qed.

(** A run in order, cut short, is in order. *)
Lemma run_sorted_cut i k l : run_sorted i l -> run_sorted i (take k l).
Proof. unfold run_sorted. intros Hs. revert k. induction Hs as [|x l Hs IH Hx]; intros [|k]; simpl; try constructor; [apply IH|by apply Forall_take]. Qed.

Lemma merge_cut k rs : runs_sorted rs -> take k (TopK.sort cmp (tagged (take k <$> rs))) = take k (TopK.sort cmp (tagged rs)).
Proof.
  intros Hs. apply merge_agree; [|done|].
  - intros i l (l' & -> & Hl')%list_lookup_fmap_Some. by apply run_sorted_cut, Hs.
  - intros i. rewrite list_lookup_fmap. destruct (rs !! i); simpl; [|done]. by rewrite firstn_firstn, Nat.min_id.
Qed.

(** All rows, when the runs are parts of what each volume has. *)
Lemma sort_tagged_perm rs rs' : Forall2 (≡ₚ) rs rs' -> TopK.sort cmp (tagged rs) = TopK.sort cmp (tagged rs').
Proof.
  intros HF. apply sort_unique; [done|apply sort_sorted; apply _|]. rewrite sort_perm. unfold tagged.
  assert (Hg : forall k, concat (imap (fun i l => pair (k + i)%nat <$> l) rs') ≡ₚ concat (imap (fun i l => pair (k + i)%nat <$> l) rs)).
  { induction HF as [|l l' rs rs' Hl HF IH]; intros k; [done|]. cbn [imap concat]. apply Permutation_app; [by rewrite Hl|].
    by rewrite !tag_shift. }
  apply (Hg 0%nat).
Qed.
End merge.
