(* ===== verification/Stream.v ===== *)
(** The pages of a reply, merged over the volumes: [Run], [next_head],
    [cmp_heads], [volumes_in_turn] and the page loop of [stream_query_binary],
    from [crates/goz-daemon/src/server.rs].

    Each page is built under read locks taken for it, so what it sees of a
    volume's index may differ from page to page: [guards_at n] are the indexes
    the [n]-th page is built under, and [emit n] is whether its consumer took
    it.  Reading an index out of range is a panic, [None]. *)

From stdpp Require Import gmap.
From stdpp Require Import base option list sets sorting.
From Stdlib Require Import NArith ZArith Lia.
From S2P Require Import Prelude Types Fold NameStore NameOrder EntryTable Volume Binary TopK Page.

Section stream.
Context `{Unicode, Hasher}.

(** What reading an index gives. *)
Definition look {A} (v : VolumeIndex) (m : ST VolumeIndex A) : option A := fst <$> m v.

(** [EntryView::name]. *)
Definition entry_name (idx : N) : ST VolumeIndex (list N) := id <- ent (name_id idx) ;; raw_name id.

(** ** One volume's share *)

Definition PAGE_BYTE_BUDGET : N := MAX_SERVER_FRAME / 2.
Definition PATH_MEMO_CAP_BYTES : N := N.shiftl 32 20.

Record Run := {
  r_refs : list HitRef;
  r_pos : N;
  r_head_key : option (list N);
  r_memo : gmap N (option (list N));
  r_memo_generation : N;
  r_memo_bytes : N
}.

Definition run_new (refs : list HitRef) : Run :=
  {| r_refs := refs; r_pos := 0; r_head_key := None; r_memo := ∅; r_memo_generation := u64_max; r_memo_bytes := 0 |}.

Definition run_head (r : Run) : option HitRef := getN (r_pos r) (r_refs r).

(** [take_head]: the slice index panics past the end. *)
Definition take_head (r : Run) : option (HitRef * Run) :=
  h ← getN (r_pos r) (r_refs r);
  Some (h, {| r_refs := r_refs r; r_pos := r_pos r + 1; r_head_key := None; r_memo := r_memo r;
              r_memo_generation := r_memo_generation r; r_memo_bytes := r_memo_bytes r |}).

Definition with_head_key (k : list N) (r : Run) : Run :=
  {| r_refs := r_refs r; r_pos := r_pos r; r_head_key := Some k; r_memo := r_memo r;
     r_memo_generation := r_memo_generation r; r_memo_bytes := r_memo_bytes r |}.

Definition with_memo (m : gmap N (option (list N))) (g bytes : N) (r : Run) : Run :=
  {| r_refs := r_refs r; r_pos := r_pos r; r_head_key := r_head_key r; r_memo := m;
     r_memo_generation := g; r_memo_bytes := bytes |}.

Definition ensure_head_key (v : VolumeIndex) (prefix : list N) (r : Run) : option Run :=
  match r_head_key r with
  | Some _ => Some r
  | None =>
      h ← getN (r_pos r) (r_refs r);
      par ← look v (ent (parent (h_idx h)));
      built ← look v (path_of par []);
      name ← look v (entry_name (h_idx h));
      Some (with_head_key (fold (prefix ++ built.2) ++ [0] ++ fold name) r)
  end.

(** [row_path]: the path when the row can be shown. *)
Definition row_path (v : VolumeIndex) (par : N) (name prefix : list N) (r : Run) : option (option (list N) * Run) :=
  let r := if negb (r_memo_generation r =? Volume.generation v) || (PATH_MEMO_CAP_BYTES <? r_memo_bytes r)
           then with_memo ∅ (Volume.generation v) 0 r else r in
  '(parent_path, r) ← match r_memo r !! par with
    | Some known => Some (known, r)
    | None =>
        status ← look v (path_of par []);
        let built := match status with (PathOk, buf) => Some buf | _ => None end in
        Some (built, with_memo (<[par := built]> (r_memo r)) (r_memo_generation r) (r_memo_bytes r + len (default [] built)) r)
    end;
  Some (match parent_path with
        | None => None
        | Some pp => Some (prefix ++ (match pp with [] => [] | _ => pp ++ [0x5C] end) ++ name)
        end, r).

(** ** The next row *)

(** A run past the heads whose entry is gone. *)
Fixpoint skip_gone (fuel : nat) (v : VolumeIndex) (r : Run) (consumed : N) : option (Run * N) :=
  match run_head r with
  | None => Some (r, consumed)
  | Some h =>
      found ← look v (entry_if_frn (h_idx h) (h_frn h));
      match found, fuel with
      | Some _, _ => Some (r, consumed)
      | None, O => None
      | None, S fuel => '(_, r) ← take_head r; skip_gone fuel v r (consumed + 1)
      end
  end.

Fixpoint skip_all (runs : list Run) (guards : list VolumeIndex) (consumed : N) : option (list Run * N) :=
  match runs, guards with
  | [], _ => Some ([], consumed)
  | _ :: _, [] => None
  | r :: runs, v :: guards =>
      '(r, consumed) ← skip_gone (length (r_refs r)) v r consumed;
      '(runs, consumed) ← skip_all runs guards consumed;
      Some (r :: runs, consumed)
  end.

Definition by_name (ia ib : VolumeIndex) (a b : HitRef) : option comparison :=
  fa ← look ia (folded_name (h_idx a));
  fb ← look ib (folded_name (h_idx b));
  Some (bytes_cmp fa fb).

(** [then_with]: the second comparison is made only on a tie. *)
Definition then_with (c : comparison) (next : option comparison) : option comparison :=
  match c with Eq => next | c => Some c end.

(** [Ord] of [Option]. *)
Definition option_cmp {A} (cmp : A -> A -> comparison) (a b : option A) : comparison :=
  match a, b with
  | None, None => Eq
  | None, Some _ => Lt
  | Some _, None => Gt
  | Some a, Some b => cmp a b
  end.

(** [cmp_heads], with the runs whose keys it built. *)
Definition cmp_heads (runs : list Run) (a b : nat) (guards : list VolumeIndex) (prefixes : list (list N)) (sort : SortSpec)
  : option (comparison * list Run) :=
  ia ← guards !! a; ib ← guards !! b;
  ra ← runs !! a; rb ← runs !! b;
  ha ← getN (r_pos ra) (r_refs ra); hb ← getN (r_pos rb) (r_refs rb);
  '(base, runs) ← match key sort with
    | Name => c ← by_name ia ib ha hb; Some (c, runs)
    | Size =>
        sa ← look ia (view_size (h_idx ha)); sb ← look ib (view_size (h_idx hb));
        c ← then_with (N.compare (size_key sa (dir sort)) (size_key sb (dir sort))) (by_name ia ib ha hb); Some (c, runs)
    | DateModified =>
        ta ← look ia (view_mtime (h_idx ha)); tb ← look ib (view_mtime (h_idx hb));
        c ← then_with (N.compare (mtime_key ta (dir sort)) (mtime_key tb (dir sort))) (by_name ia ib ha hb); Some (c, runs)
    | Path =>
        pa ← prefixes !! a; ra ← ensure_head_key ia pa ra;
        let runs := <[a := ra]> runs in
        pb ← prefixes !! b; rb ← runs !! b; rb ← ensure_head_key ib pb rb;
        let runs := <[b := rb]> runs in
        Some (option_cmp bytes_cmp (r_head_key ra) (r_head_key rb), runs)
    end;
  Some (match dir sort with Desc => CompOpp base | Asc => base end, runs).

(** The run whose head comes first, of those numbered [todo]. *)
Fixpoint best_head (todo : list nat) (best : option nat) (runs : list Run) (guards : list VolumeIndex) (prefixes : list (list N)) (sort : SortSpec)
  : option (option nat * list Run) :=
  match todo with
  | [] => Some (best, runs)
  | ri :: todo =>
      r ← runs !! ri;
      match run_head r, best with
      | None, _ => best_head todo best runs guards prefixes sort
      | Some _, None => best_head todo (Some ri) runs guards prefixes sort
      | Some _, Some bi =>
          '(c, runs) ← cmp_heads runs ri bi guards prefixes sort;
          best_head todo (Some (match c with Lt => ri | _ => bi end)) runs guards prefixes sort
      end
  end.

(** [find] over the turn. *)
Fixpoint first_with_head (turn : list nat) (runs : list Run) : option (option nat) :=
  match turn with
  | [] => Some None
  | ri :: turn => r ← runs !! ri; match run_head r with Some _ => Some (Some ri) | None => first_with_head turn runs end
  end.

Definition next_head (runs : list Run) (guards : list VolumeIndex) (prefixes : list (list N)) (sort : SortSpec) (turn : option (list nat)) (consumed : N)
  : option (option nat * list Run * N) :=
  '(runs, consumed) ← skip_all runs guards consumed;
  match turn with
  | Some turn => ri ← first_with_head turn runs; Some (ri, runs, consumed)
  | None => '(ri, runs) ← best_head (seq 0 (length runs)) None runs guards prefixes sort; Some (ri, runs, consumed)
  end.

(** [volumes_in_turn].  A stable sort of numbers by their folded prefix is the
    sort by prefix, then number. *)
Definition ends_with (suffix l : list N) : bool := bool_decide (suffix `suffix_of` l).
Definition starts_with (prefix l : list N) : bool := bool_decide (prefix `prefix_of` l).

Definition by_prefix (folded : list (list N)) (a b : nat) : comparison :=
  thenc (bytes_cmp (default [] (folded !! a)) (default [] (folded !! b))) (Nat.compare a b).

Definition volumes_in_turn (prefixes : list (list N)) (d : SortDir) : option (list nat) :=
  let folded := fold <$> prefixes in
  let numbered := zip (seq 0 (length folded)) folded in
  let nested := existsb (fun '(i, a) =>
    negb (ends_with [0x5C] a) || existsb (fun '(j, b) => negb (i =? j)%nat && starts_with a b) numbered) numbered in
  if nested then None
  else
    let order := TopK.sort (by_prefix folded) (seq 0 (length folded)) in
    Some (match d with Desc => reverse order | Asc => order end).

(** ** A page *)

Record Asked := { a_sort : SortSpec; a_want_size : bool; a_want_mtime : bool }.

(** Rows into [out], at most [room] taken.  Of a row before [start] only its
    place counts. *)
Fixpoint fill (room : nat) (q : Asked) (guards : list VolumeIndex) (prefixes : list (list N)) (turn : option (list nat)) (start stop : N)
    (out : list N) (count : N) (runs : list Run) (consumed : N) : option (list N * N * list Run * N) :=
  match room with
  | O => Some (out, count, runs, consumed)
  | S room =>
      if (consumed <? stop) && (len out <? PAGE_BYTE_BUDGET) then
        '(ri, runs, consumed) ← next_head runs guards prefixes (a_sort q) turn consumed;
        match ri with
        | None => Some (out, count, runs, consumed)
        | Some ri =>
            r ← runs !! ri;
            '(href, r) ← take_head r;
            let consumed := consumed + 1 in
            if consumed <=? start then fill room q guards prefixes turn start stop out count (<[ri := r]> runs) consumed
            else
              v ← guards !! ri; prefix ← prefixes !! ri;
              par ← look v (ent (parent (h_idx href)));
              name ← look v (entry_name (h_idx href));
              '(path, r) ← row_path v par name prefix r;
              match path with
              | None => fill room q guards prefixes turn start stop out count (<[ri := r]> runs) consumed
              | Some path =>
                  size ← (if a_want_size q then look v (view_size (h_idx href)) else Some None);
                  mtime ← (if a_want_mtime q then look v (view_mtime (h_idx href)) else Some None);
                  fl ← look v (ent (flags (h_idx href)));
                  fill room q guards prefixes turn start stop (push_item out path (contains fl DIR) size mtime) (count + 1) (<[ri := r]> runs) consumed
              end
        end
      else Some (out, count, runs, consumed)
  end.

(** What every page's header says. *)
Record Header := { hd_total : N; hd_incomplete : bool; hd_pending : bool; hd_total_size : option N }.

(** One frame: its length is written over the placeholder. *)
Definition build_page (q : Asked) (hd : Header) (guards : list VolumeIndex) (prefixes : list (list N)) (turn : option (list nat)) (start stop : N)
    (runs : list Run) (consumed : N) : option (list N * list Run * N) :=
  let out := push_results_header [0; 0; 0; 0] (hd_total hd) 0 false (hd_incomplete hd) (hd_pending hd) (hd_total_size hd) 0 in
  '(out, count, runs, consumed) ← fill (N.to_nat PAGE_ROWS) q guards prefixes turn start stop out 0 runs consumed;
  payload ← patch_results_header (drop 4 out) (consumed <? stop) count;
  Some (le_encode 4 (as_u32 (len out - 4)) ++ payload, runs, consumed).

(** ** The reply *)

Section loop.
Context (q : Asked) (hd : Header) (prefixes : list (list N)) (turn : option (list nat)) (start stop : N).
Context (guards_at : nat -> list VolumeIndex) (emit : nat -> bool).

Fixpoint stream_pages (fuel page : nat) (runs : list Run) (consumed : N) : option (list (list N)) :=
  match fuel with
  | O => None
  | S fuel =>
      '(out, runs, consumed) ← build_page q hd (guards_at page) prefixes turn start stop runs consumed;
      if negb (emit page) || negb (consumed <? stop) then Some [out]
      else rest ← stream_pages fuel (S page) runs consumed; Some (out :: rest)
  end.
End loop.

(** The rows of the reply: [start..end] of the merged runs. *)
Definition row_bounds (n_total offset : N) (limit : option N) : N * N :=
  let start := N.min offset n_total in
  (start, match limit with Some l => N.min (start + l) n_total | None => n_total end).

(** [stream_query_binary] from the merge on.  One page consumes at least one
    row, so as many pages as rows, and one, are enough. *)
Definition stream_rows (q : Asked) (hd : Header) (prefixes : list (list N)) (offset : N) (limit : option N)
    (guards_at : nat -> list VolumeIndex) (emit : nat -> bool) (found : list (list HitRef)) : option (list (list N)) :=
  let runs := run_new <$> found in
  let turn := match key (a_sort q) with Path => volumes_in_turn prefixes (dir (a_sort q)) | _ => None end in
  let n_total := len (concat found) in
  let '(start, stop) := row_bounds n_total offset limit in
  stream_pages q hd prefixes turn start stop guards_at emit (S (N.to_nat n_total)) 0 runs 0.
End stream.
