(* ===== verification/StreamRead.v ===== *)
(** What the page loop reads from an index, in terms of its view: every read
    of a live entry succeeds, and the keys it compares heads by order rows as
    the engine sorted them. *)

From stdpp Require Import gmap.
From stdpp Require Import base option list sets sorting.
From Stdlib Require Import NArith ZArith Lia.
From S2P Require Import Prelude Types Wtf8 Fold Text Compiled FrnMap NameStore NameOrder EntryTable Chain Volume VolumeInv VolumeOps VolumeEdit VolumeLinks VolumeRead VolumeNew FolderPaths TopK Engine FolderRank FolderTree EngineView Binary Page Stream.

Section reads.
Context `{Unicode, Hasher}.
Context (v : VolumeIndex) (Hv : vol_ok v).
Notation V := (view_of v).

Lemma look_run {A} (m : ST VolumeIndex A) a v' d : m v = Some (a, v') -> look v m = Some (run v d m).
Proof. unfold look, run. by intros ->. Qed.

Lemma look_wp {A} (m : ST VolumeIndex A) P : wp m (fun a _ => P a) v -> exists a, look v m = Some a /\ P a.
Proof. intros (a & v' & E & HP)%wp_run. exists a. unfold look. by rewrite E. Qed.

Lemma look_ok {A} (m : ST VolumeIndex A) d : wp m (fun _ _ => True) v -> look v m = Some (run v d m).
Proof. intros (a & v' & E & _)%wp_run. by eapply look_run. Qed.

(** Every column of a live entry is there. *)
Lemma wp_col {A} (col : EntryTable -> list A) e (Q : A -> VolumeIndex -> Prop) : alive v e -> len (col (entries v)) = cap v -> (forall x, getN e (col (entries v)) = Some x -> Q x v) ->
  wp (ent (st_read (fun t => getN e (col t)))) Q v.
Proof.
  intros Ha Hlen HQ. destruct Hv as [I _]. pose proof (alive_lt _ _ _ _ _ _ _ _ I Ha) as Hlt.
  destruct (getN_is_Some e (col (entries v))) as [x Hx]; [lia|]. eapply wp_ent_read; [exact Hx|]. by apply HQ.
Qed.

Ltac col c e := eapply (wp_col c e); [done|pose proof (i_cols _ _ _ _ _ _ _ (proj1 Hv)); unfold cols_ok, cap in *; lia|intros x Hx].

Lemma look_parent e : alive v e -> look v (ent (parent e)) = Some (v_parent V e).
Proof. intros Ha. apply look_ok. by col c_parent e. Qed.
Lemma look_size e : alive v e -> look v (view_size e) = Some (v_size V e).
Proof. intros Ha. apply look_ok. unfold view_size. apply wp_bind. col c_size e. by apply wp_ret. Qed.
Lemma look_mtime e : alive v e -> look v (view_mtime e) = Some (v_mtime V e).
Proof. intros Ha. apply look_ok. unfold view_mtime. apply wp_bind. col c_mtime e. by apply wp_ret. Qed.
Lemma look_dir e : alive v e -> exists fl, look v (ent (flags e)) = Some fl /\ contains fl DIR = v_is_dir V e.
Proof.
  intros Ha. destruct (look_wp (ent (flags e)) (fun fl => contains fl DIR = v_is_dir V e)) as (fl & E & Ef); [|by exists fl].
  col c_flags e. symmetry. simpl. eapply run_eq. unfold st_bind, ent, st_zoom, flags, st_read. rewrite Hx, with_entries_id. done.
Qed.

Lemma live_name e : alive v e -> exists id bs, getN e (c_name_id (entries v)) = Some id /\ v_name_id V e = id /\ raw_bytes (names v) id = Some bs /\
  FolderPaths.v_raw V id = bs /\ folded_bytes_of (names v) id = Some (FolderPaths.v_folded V id).
Proof.
  intros Ha. destruct (name_of_live v e Hv) as (id & Hid & En & Hl & Ef & Ev); [by apply in_live|].
  destruct Hv as [I _]. destruct (i_ns _ _ _ _ _ _ _ I) as [gs R]. destruct (live_slot _ _ _ R Hl) as [g Hg]. pose proof (raw_bytes_slot _ _ _ _ R Hg) as Er.
  exists id. eexists. split_and!; [done|done|exact Er| |by rewrite Ev]. simpl. unfold name_or_nil. by rewrite decide_True, Er by done.
Qed.

Lemma look_name e : alive v e -> look v (entry_name e) = Some (FolderPaths.v_raw V (v_name_id V e)).
Proof.
  intros Ha. destruct (live_name e Ha) as (id & bs & Hid & -> & Hb & -> & _). destruct (look_wp (entry_name e) (eq bs)) as (x & E & <-); [|done].
  unfold entry_name. apply wp_bind. eapply wp_ent_read; [exact Hid|]. by eapply wp_nam_read.
Qed.

Lemma look_folded e : alive v e -> look v (folded_name e) = Some (FolderPaths.v_folded V (v_name_id V e)).
Proof.
  intros Ha. destruct (live_name e Ha) as (id & bs & Hid & -> & _ & _ & Hf). destruct (look_wp (folded_name e) (eq (FolderPaths.v_folded V id))) as (x & E & <-); [|done].
  unfold folded_name. apply wp_bind. eapply wp_ent_read; [exact Hid|]. by eapply wp_nam_read.
Qed.

(** The slot of a row still holds it, whatever the row was taken from. *)
Lemma look_frn e f : look v (entry_if_frn e f) = Some (if bool_decide (alive v e) && (v_frn V e =? f) then Some e else None).
Proof.
  pose proof (i_cols _ _ _ _ _ _ _ (proj1 Hv)) as Hc. unfold cols_ok in Hc.
  destruct (look_wp (entry_if_frn e f) (eq (if bool_decide (alive v e) && (v_frn V e =? f) then Some e else None))) as (x & E & <-); [|done].
  unfold entry_if_frn. apply wp_bind, wp_get. unfold capacity. destruct (N.leb_spec (len (c_frn (entries v))) e) as [Hge|Hlt].
  { apply wp_ret. rewrite bool_decide_eq_false_2; [done|]. intros Ha. pose proof (alive_lt _ _ _ _ _ _ _ _ (proj1 Hv) Ha). unfold cap in *. lia. }
  apply wp_bind, VolumeLinks.wp_is_tombstone; [lia|]. case_bool_decide as Hd.
  { apply wp_ret. by rewrite bool_decide_eq_false_2. }
  assert (Ha : alive v e) by (destruct (decide (alive v e)); tauto). rewrite bool_decide_eq_true_2 by done. apply wp_bind. col c_frn e. apply wp_ret.
  assert (Ef : v_frn V e = x); [|by rewrite Ef]. simpl. eapply run_eq. unfold ent, st_zoom, EntryTable.frn, st_read. by rewrite Hx.
Qed.

(** Paths. *)
Lemma look_path e : alive v e -> exists st buf, look v (path_of e []) = Some (st, buf) /\ v_path_of V e = match st with PathOk => Some buf | _ => None end.
Proof.
  intros Ha. destruct (look_wp (path_of e []) (fun r => v_path_of V e = match r with (PathOk, p) => Some p | _ => None end)) as ([st buf] & E & Ep).
  - assert (Hw : wp (path_of e []) (fun _ _ => True) v).
    { eapply wp_path_of; [exact Hv|by eapply alive_lt; [apply Hv|]|done]. }
    apply wp_run in Hw as (r & v' & E & _). apply wp_run. exists r, v'. split; [done|]. simpl. unfold run. by rewrite E.
  - exists st, buf. split; [done|]. by rewrite Ep.
Qed.
End reads.

(** ** Paths by names *)

Section paths.
Context `{Unicode, !UnicodeAscii, !UnicodeText, Hasher}.
Context (v : VolumeIndex) (Hv : vol_ok v).
Notation V := (view_of v).

Lemma abs_view e a : abs v e = Some a -> v_parent V e = a_parent a /\ name_bytes V false e = a_name a.
Proof.
  intros (Ha & _ & Hp & _ & _ & id & Hid & Hn)%abs_inv. split; [by apply parent_col|].
  destruct (live_name v Hv e Ha) as (id' & bs & Hid' & E & Hb & Er & _). unfold name_bytes. rewrite E, Er. congruence.
Qed.

(** Walking up meets the ancestry. *)
Lemma walk_ancestry e l : ancestry v e l -> forall n, (length l <= n)%nat ->
  FolderPaths.walk V n e = if default 0 (fst <$> last l) =? lost_found v then None else Some (l.*1).
Proof.
  induction 1 as [e a Ha Hp|e a l Ha Hp Hl IH]; intros n Hn; destruct n as [|n]; try (simpl in Hn; lia); cbn [FolderPaths.walk];
    destruct (abs_view e a Ha) as [-> _].
  - rewrite Hp, N.eqb_refl. done.
  - rewrite (proj2 (N.eqb_neq _ _) Hp), (IH n) by (simpl in Hn; lia). destruct (ancestry_head _ _ _ Hl) as [Hne [t Ht]].
    rewrite last_cons, Ht. simpl. by destruct (t.1 =? lost_found v).
Qed.

Lemma walk_has_ancestry n : forall e c, alive v e -> FolderPaths.walk V n e = Some c -> exists l, ancestry v e l /\ (length l <= n)%nat.
Proof.
  induction n as [|n IH]; intros e c Ha Hw; [done|]. cbn [FolderPaths.walk] in Hw. destruct (abs_total _ _ _ Hv Ha) as [a Hab].
  destruct (abs_view e a Hab) as [E _]. rewrite E in Hw. destruct (N.eqb_spec (a_parent a) NIL) as [Hp|Hp].
  - exists [(e, a_name a)]. split; [by constructor|simpl; lia].
  - apply bind_Some in Hw as (c' & Hc' & _). destruct (abs_parent _ _ _ _ Hv Hab) as [?|Hpa]; [done|].
    destruct (IH _ _ Hpa Hc') as (l & Hl & Hlen). exists ((e, a_name a) :: l). split; [by constructor|simpl; lia].
Qed.

Lemma rel_path_text_of e l : ancestry v e l -> path_text (root v) l [] = rel_path V false (l.*1).
Proof.
  induction 1 as [e a Ha Hp|e a l Ha Hp Hl IH]; cbn [fmap list_fmap fst rel_path]; destruct (abs_view e a Ha) as [_ ->]; change (v_root V) with (root v).
  - unfold path_text. cbn [reverse rev_append]. destruct (N.eqb_spec e (root v)) as [->|Hne].
    + by rewrite filter_cons_False by (simpl; tauto).
    + by rewrite filter_cons_True by done.
  - unfold path_text in *. rewrite reverse_cons, filter_app. destruct (N.eqb_spec e (root v)) as [->|Hne].
    + rewrite filter_cons_False by (simpl; tauto). rewrite filter_nil, app_nil_r. exact IH.
    + rewrite filter_cons_True by done. rewrite filter_nil, map_app, fold_left_app, IH. cbn [map fold_left snd]. unfold push_component.
      by destruct (rel_path V false l.*1).
Qed.

(** A folder's path is the joined names of its chain. *)
Lemma view_path e : alive v e -> v_path_of V e = rel_path V false <$> folder_chain V e.
Proof.
  intros Ha. destruct (look_path v Hv e Ha) as (st & buf & _ & _).
  assert (Hw : wp (path_of e []) (fun r _ => path_post v e [] r) v).
  { eapply wp_path_of; [exact Hv|by eapply alive_lt; [apply Hv|]|done]. }
  apply wp_run in Hw as (r & v' & E & Hpost).
  assert (Er : v_path_of V e = match r with (PathOk, p) => Some p | _ => None end) by (simpl; unfold run; by rewrite E).
  assert (Hne : e <> NIL) by (destruct (live_parent v Hv e Ha) as (_ & _ & _ & ?); lia).
  rewrite Er. unfold folder_chain. rewrite (proj2 (N.eqb_neq _ _) Hne). revert Hpost. unfold path_post. generalize (N.to_nat MAX_PATH_HOPS) as hops.
  intros hops [[? _]|[(_ & l & top & Hl & Hlen & Hlast & ->)|(_ & Hno & ->)]]; [done| |].
  - rewrite (walk_ancestry e l Hl hops Hlen), Hlast. simpl. destruct (top.1 =? lost_found v); [done|]. simpl. f_equal. by apply (rel_path_text_of e).
  - destruct (FolderPaths.walk V hops e) as [c|] eqn:Ew; [|done]. exfalso. destruct (walk_has_ancestry hops e c Ha Ew) as (l & Hl & Hlen). apply Hno in Hl. lia.
Qed.

(** Folding a path folds its names. *)
Lemma folded_path_empty c : (forall x, x ∈ c -> x <> root v -> name_bytes V true x <> []) -> rel_path V true c = [] -> rel_path V false c = [].
Proof.
  induction c as [|x c IH]; [done|]. intros Hp. cbn [rel_path]. change (v_root V) with (root v). destruct (N.eqb_spec x (root v)) as [->|Hne].
  - apply IH. intros y Hy. apply Hp. by right.
  - intros [_ E]%app_eq_nil. exfalso. by apply (Hp x); [left| |].
Qed.

Lemma fold_rel_path c : (forall id, text (FolderPaths.v_raw V id)) -> (forall x, x ∈ c -> x <> root v -> name_bytes V true x <> []) ->
  fold (rel_path V false c) = rel_path V true c.
Proof.
  intros Ht. induction c as [|x c IH]; intros Hp; [done|]. cbn [rel_path]. change (v_root V) with (root v).
  assert (Hp' : forall y, y ∈ c -> y <> root v -> name_bytes V true y <> []) by (intros y Hy; apply Hp; by right). specialize (IH Hp').
  destruct (N.eqb_spec x (root v)) as [->|Hne]; [done|].
  assert (Hx : fold (name_bytes V false x) = name_bytes V true x) by (symmetry; apply (view_folded v Hv)).
  assert (Htext : text (rel_path V false c)) by (apply rel_path_text; intros; apply Ht).
  destruct (rel_path V false c) as [|y r] eqn:Er; [rewrite <- IH; done|].
  destruct (rel_path V true c) as [|z f] eqn:Ef; [by rewrite (folded_path_empty c Hp' Ef) in Er|].
  rewrite <- !app_assoc. cbn [app]. change (y :: r ++ 0x5C :: name_bytes V false x) with ((y :: r) ++ 0x5C :: name_bytes V false x).
  rewrite fold_break by (done || by right). by rewrite Hx, IH.
Qed.
End paths.
