(* ===== verification/StreamMerge.v ===== *)
(** The next row of a reply is the least of the rows left, whichever way it is
    picked, while the indexes stay as they were searched. *)

From stdpp Require Import gmap.
From stdpp Require Import base option list sets sorting.
From Stdlib Require Import NArith ZArith Lia.
From S2P Require Import Prelude Types Wtf8 Fold Text Compiled FrnMap NameStore NameOrder EntryTable Volume VolumeInv VolumeNew FolderPaths TopK Engine FolderRank FolderTree EngineView NameRows Binary Page Merge Stream StreamRead.

(** ** Bytes *)

Lemma bytes_cmp_same p a b : bytes_cmp (p ++ a) (p ++ b) = bytes_cmp a b.
Proof. induction p as [|x p IH]; [done|]. simpl. by rewrite N.compare_refl. Qed.

Lemma bytes_cmp_nul a : forall b n m, 0 ∉ a -> 0 ∉ b -> bytes_cmp (a ++ 0 :: n) (b ++ 0 :: m) = thenc (bytes_cmp a b) (bytes_cmp n m).
Proof.
  induction a as [|x a IH]; intros b n m Ha Hb; destruct b as [|y b]; cbn [app bytes_cmp].
  - by rewrite N.compare_refl.
  - apply not_elem_of_cons in Hb as [? _]. rewrite (proj2 (N.compare_lt_iff 0 y)) by lia. done.
  - apply not_elem_of_cons in Ha as [? _]. rewrite (proj2 (N.compare_gt_iff x 0)) by lia. done.
  - apply not_elem_of_cons in Ha as [_ ?], Hb as [_ ?]. rewrite IH by done. by destruct (N.compare x y).
Qed.

Lemma bytes_cmp_apart p : forall q a b, ~ p `prefix_of` q -> ~ q `prefix_of` p -> bytes_cmp (p ++ a) (q ++ b) = bytes_cmp p q /\ bytes_cmp p q <> Eq.
Proof.
  induction p as [|x p IH]; intros q a b Hp Hq.
  - destruct Hp. apply prefix_nil.
  - destruct q as [|y q]; [destruct Hq; apply prefix_nil|]. cbn [app bytes_cmp]. destruct (N.compare_spec x y) as [->|?|?]; [|done..].
    apply IH; intros Hx; [apply Hp|apply Hq]; by apply prefix_cons.
Qed.

(** ** Rows and volumes *)

Section fits.
Context `{Unicode, Hasher}.

(** A row of a result set: a live entry in a folder with a path. *)
Record row_ok (v : VolumeIndex) (h : HitRef) : Prop := {
  rw_live : alive v (h_idx h);
  rw_frn : h_frn h = v_frn (view_of v) (h_idx h);
  rw_parent : alive v (v_parent (view_of v) (h_idx h));
  rw_path : is_Some (v_path_of (view_of v) (v_parent (view_of v) (h_idx h)))
}.

(** What a volume is to satisfy: its index in order, its mount a folder's
    text, and no NUL in a name. *)
Record volume_fits (v : VolumeIndex) (mount : list N) : Prop := {
  vf_ok : vol_ok v;
  vf_fits : index_fits v;
  vf_mount : exists m, text m /\ mount = m ++ [0x5C];
  vf_mount_nul : 0 ∉ fold mount;
  vf_nul id : 0 ∉ FolderPaths.v_folded (view_of v) id
}.
End fits.

Section merging.
Context `{Unicode, !UnicodeAscii, !UnicodeText, Hasher}.
Context (n : nat) (W : nat -> VolumeIndex) (P : nat -> list N) (sort : SortSpec).
Notation Vf i := (view_of (W i)).
Notation d := (dir sort).

(** The folded path of a row's folder, its folded name, and its key. *)
Definition row_folder (p : nat * N) : list N := fold (P p.1 ++ default [] (v_path_of (Vf p.1) (v_parent (Vf p.1) p.2))).
Definition row_name (p : nat * N) : list N := FolderPaths.v_folded (Vf p.1) (v_name_id (Vf p.1) p.2).
Definition head_key (p : nat * N) : list N := row_folder p ++ [0] ++ row_name p.

(** What a sort means for the rows of several volumes: the key asked for, rows
    without a size or a date last; then the folded name. *)
Definition head_cmp (p q : nat * N) : comparison :=
  match key sort with
  | Name => directed d (bytes_cmp (row_name p) (row_name q))
  | Path => directed d (thenc (bytes_cmp (row_folder p) (row_folder q)) (bytes_cmp (row_name p) (row_name q)))
  | Size => thenc (known_first (fun x y => directed d (N.compare x y)) (v_size (Vf p.1) p.2) (v_size (Vf q.1) q.2))
              (directed d (bytes_cmp (row_name p) (row_name q)))
  | DateModified => thenc (known_first (fun x y => directed d (Z.compare x y)) (v_mtime (Vf p.1) p.2) (v_mtime (Vf q.1) q.2))
              (directed d (bytes_cmp (row_name p) (row_name q)))
  end.

(** Ties: the volume that comes first, then the entry. *)
Definition merged_cmp (p q : nat * N) : comparison :=
  thenc (head_cmp p q) (thenc (Nat.compare p.1 q.1) (directed d (N.compare p.2 q.2))).

Lemma weak_nat : WeakCmp Nat.compare.
Proof. split; [intros; apply Nat.compare_antisym|]. intros a b c. rewrite !Nat.compare_le_iff. lia. Qed.

Lemma weak_head : WeakCmp head_cmp.
Proof.
  assert (Hn : WeakCmp (fun p q => bytes_cmp (row_name p) (row_name q))) by apply (weak_comap bytes_cmp row_name weak_bytes).
  assert (Hf : WeakCmp (fun p q => bytes_cmp (row_folder p) (row_folder q))) by apply (weak_comap bytes_cmp row_folder weak_bytes).
  unfold head_cmp. destruct (key sort).
  - by apply weak_directed.
  - by apply weak_directed, weak_thenc.
  - apply weak_thenc; [|by apply weak_directed].
    apply (weak_known (fun x y => directed d (N.compare x y)) (fun p : nat * N => v_size (Vf p.1) p.2)), weak_directed, weak_N.
  - apply weak_thenc; [|by apply weak_directed].
    apply (weak_known (fun x y => directed d (Z.compare x y)) (fun p : nat * N => v_mtime (Vf p.1) p.2)), weak_directed, weak_Z.
Qed.

Lemma head_refl p : head_cmp p p = Eq.
Proof. pose proof weak_head as W0. pose proof (wc_opp p p) as E. by destruct (head_cmp p p). Qed.

#[export] Instance merged_total : TotalCmp merged_cmp.
Proof.
  apply weak_total.
  - apply weak_thenc; [apply weak_head|]. apply weak_thenc; [apply (weak_comap Nat.compare fst weak_nat)|].
    apply (weak_directed (fun p q => N.compare p.2 q.2)), (weak_comap N.compare snd weak_N).
  - intros [i a] [j b]. unfold merged_cmp. rewrite !thenc_eq, directed_eq, Nat.compare_eq_iff, N.compare_eq_iff. simpl. split.
    + by intros (_ & -> & ->).
    + intros [= -> ->]. split; [apply head_refl|done].
Qed.

(** ** Rows *)

Context (Hfits : forall i, (i < n)%nat -> volume_fits (W i) (P i)).

Lemma fold_mount i pp : (i < n)%nat -> fold (P i ++ pp) = fold (P i) ++ fold pp.
Proof.
  intros Hi. destruct (vf_mount _ _ (Hfits i Hi)) as (m & Hm & ->). rewrite <- app_assoc. cbn [app].
  rewrite !fold_break by (done || by right). rewrite <- app_assoc. by rewrite fold_nil.
Qed.

Lemma raw_text i id : (i < n)%nat -> text (FolderPaths.v_raw (Vf i) id).
Proof.
  intros Hi. destruct (Hfits i Hi) as [_ Hf _ _ _]. simpl. unfold name_or_nil. case_decide as Hl; [|apply text_nil].
  destruct (raw_bytes (names (W i)) id) as [bs|] eqn:E; [|apply text_nil]. by eapply fit_names.
Qed.

Lemma walk_live i m : forall e c, (i < n)%nat -> e ∈ v_live (Vf i) -> FolderPaths.walk (Vf i) m e = Some c -> forall x, x ∈ c -> x ∈ v_live (Vf i).
Proof.
  induction m as [|m IH]; intros e c Hi He Hw x Hx; [done|]. cbn [FolderPaths.walk] in Hw. destruct (N.eqb_spec (v_parent (Vf i) e) NIL) as [Hp|Hp].
  - destruct (e =? _); [done|]. injection Hw as <-. by apply list_elem_of_singleton in Hx as ->.
  - apply bind_Some in Hw as (c' & Hc' & [= <-]). apply elem_of_cons in Hx as [->|Hx]; [done|].
    destruct (view_parent (W i) (vf_ok _ _ (Hfits i Hi)) e He) as [?|Hpl]; [done|]. by eapply IH.
Qed.

(** The folder of a row, by the names above it. *)
Lemma row_folder_eq i h : (i < n)%nat -> row_ok (W i) h -> exists f, parent_folded (Vf i) (h_idx h) = Some f /\ row_folder (i, h_idx h) = fold (P i) ++ f.
Proof.
  intros Hi [Hl _ Hp Hs]. pose proof (Hfits i Hi) as [Hok Hf _ _ _]. unfold row_folder, parent_folded. cbn [fst snd].
  destruct Hs as [pp Hs]. rewrite Hs. cbn [default]. rewrite fold_mount by done. rewrite (view_path (W i) Hok _ Hp) in Hs.
  apply fmap_Some in Hs as (c & Hc & ->). rewrite Hc. eexists. split; [done|]. f_equal. apply (fold_rel_path (W i) Hok).
  - intros id. by apply raw_text.
  - intros x Hx Hne. pose proof (view_sorts (W i) Hok Hf) as Hso. refine (proj2 (po_plain x _ Hne)).
    unfold folder_chain in Hc. destruct (v_parent (Vf i) (h_idx h) =? NIL); [injection Hc as <-; by apply not_elem_of_nil in Hx|].
    eapply walk_live; [done| |exact Hc|done]. by apply in_live.
Qed.

Lemma rel_path_nul i c : (i < n)%nat -> 0 ∉ rel_path (Vf i) true c.
Proof.
  intros Hi. pose proof (vf_nul _ _ (Hfits i Hi)) as Hn. induction c as [|x c IH]; cbn [rel_path]; [apply not_elem_of_nil|]. destruct (x =? _); [done|].
  rewrite elem_of_app. intros [Hx|Hx]; [|by apply Hn in Hx]. destruct (rel_path (Vf i) true c); [by apply not_elem_of_nil in Hx|].
  apply elem_of_app in Hx as [?|Hx]; [done|]. by apply list_elem_of_singleton in Hx.
Qed.

Lemma row_folder_nul i h : (i < n)%nat -> row_ok (W i) h -> 0 ∉ row_folder (i, h_idx h).
Proof.
  intros Hi Hr. destruct (row_folder_eq i h Hi Hr) as (f & Hf & ->). unfold parent_folded in Hf. apply fmap_Some in Hf as (c & _ & ->).
  rewrite elem_of_app. intros [Hx|Hx]; [by apply (vf_mount_nul _ _ (Hfits i Hi))|by apply rel_path_nul in Hx].
Qed.

(** Comparing head keys is comparing folders, then names. *)
Lemma head_key_cmp i h j h' : (i < n)%nat -> (j < n)%nat -> row_ok (W i) h -> row_ok (W j) h' ->
  bytes_cmp (head_key (i, h_idx h)) (head_key (j, h_idx h'))
  = thenc (bytes_cmp (row_folder (i, h_idx h)) (row_folder (j, h_idx h'))) (bytes_cmp (row_name (i, h_idx h)) (row_name (j, h_idx h'))).
Proof. intros Hi Hj Hh Hh'. apply bytes_cmp_nul; by apply row_folder_nul. Qed.

(** Within a volume, rows are ordered as the engine sorts them. *)
Lemma merged_same i h h' : (i < n)%nat -> row_ok (W i) h -> row_ok (W i) h' ->
  merged_cmp (i, h_idx h) (i, h_idx h') = row_cmp (Vf i) sort (h_idx h) (h_idx h').
Proof.
  intros Hi Hh Hh'. unfold merged_cmp. cbn [fst snd]. rewrite Nat.compare_refl. cbn [thenc]. unfold head_cmp, row_cmp. destruct (key sort); cbn [fst snd].
  - by rewrite directed_thenc.
  - destruct (row_folder_eq i h Hi Hh) as (f & -> & ->), (row_folder_eq i h' Hi Hh') as (f' & -> & ->). cbn [known_first].
    by rewrite bytes_cmp_same, <- thenc_assoc, (directed_thenc d (thenc _ _)).
  - by rewrite thenc_assoc, directed_thenc.
  - by rewrite thenc_assoc, directed_thenc.
Qed.

(** ** The runs while the indexes stand still *)

Definition guards : list VolumeIndex := W <$> seq 0 n.
Definition prefixes : list (list N) := P <$> seq 0 n.

Lemma guards_at i : (i < n)%nat -> guards !! i = Some (W i).
Proof. intros Hi. unfold guards. rewrite list_lookup_fmap, lookup_seq_lt by done. done. Qed.
Lemma prefixes_at i : (i < n)%nat -> prefixes !! i = Some (P i).
Proof. intros Hi. unfold prefixes. rewrite list_lookup_fmap, lookup_seq_lt by done. done. Qed.

(** The rows a run has left. *)
Definition todo (r : Run) : list N := h_idx <$> drop (N.to_nat (r_pos r)) (r_refs r).

Record run_ok (i : nat) (r : Run) : Prop := {
  ro_rows : Forall (row_ok (W i)) (r_refs r);
  ro_key k : r_head_key r = Some k -> exists h, run_head r = Some h /\ k = head_key (i, h_idx h);
  ro_memo par pp : r_memo_generation r = Volume.generation (W i) -> r_memo r !! par = Some pp -> pp = v_path_of (Vf i) par
}.

Record runs_ok (runs : list Run) : Prop := {
  rs_len : length runs = n;
  rs_each i r : runs !! i = Some r -> run_ok i r
}.

Lemma run_new_ok i refs : (i < n)%nat -> Forall (row_ok (W i)) refs -> run_ok i (run_new refs).
Proof. intros Hi Hr. split; [done|done|]. intros par pp _ Hl. cbn in Hl. by rewrite lookup_empty in Hl. Qed.

Lemma todo_head r : list.head (todo r) = h_idx <$> run_head r.
Proof.
  unfold todo, run_head, getN. rewrite <- (Nat.add_0_r (N.to_nat (r_pos r))) at 2. rewrite <- lookup_drop.
  by destruct (drop (N.to_nat (r_pos r)) (r_refs r)).
Qed.

Lemma run_head_todo r h : run_head r = Some h -> exists r', take_head r = Some (h, r') /\ todo r = h_idx h :: todo r' /\
  r_refs r' = r_refs r /\ r_head_key r' = None /\ r_memo r' = r_memo r /\ r_memo_generation r' = r_memo_generation r /\ r_memo_bytes r' = r_memo_bytes r.
Proof.
  intros Hh. unfold take_head. unfold run_head in Hh. rewrite Hh. cbn [mbind option_bind]. eexists. split; [done|]. cbn. split_and!; try done.
  unfold todo. cbn. unfold getN in Hh. rewrite (drop_S _ h _ Hh). replace (N.to_nat (r_pos r + 1)) with (S (N.to_nat (r_pos r))) by lia. done.
Qed.

Lemma head_row i r h : run_ok i r -> run_head r = Some h -> row_ok (W i) h.
Proof. intros Hr Hh. apply (Forall_lookup_1 _ _ _ _ (ro_rows i r Hr) Hh). Qed.

Lemma take_head_ok i r h r' : run_ok i r -> take_head r = Some (h, r') -> run_ok i r'.
Proof.
  intros [Hrows _ Hmemo]. unfold take_head. intros (h' & _ & [= -> <-])%bind_Some. split; [done|done|exact Hmemo].
Qed.

(** No row is gone. *)
Lemma skip_gone_none i r fuel consumed : (i < n)%nat -> run_ok i r -> skip_gone fuel (W i) r consumed = Some (r, consumed).
Proof.
  intros Hi Hr. destruct fuel; cbn [skip_gone]; destruct (run_head r) as [h|] eqn:Eh; try done;
    destruct (head_row i r h Hr Eh) as [Hl Hf _ _]; rewrite (look_frn (W i) (vf_ok _ _ (Hfits i Hi))); rewrite bool_decide_eq_true_2, Hf, N.eqb_refl by done; done.
Qed.

Lemma skip_all_none runs consumed : runs_ok runs -> skip_all runs guards consumed = Some (runs, consumed).
Proof.
  intros [Hlen Hr]. unfold guards. assert (Hg : forall k, (k + length runs = n)%nat -> (forall i r, runs !! i = Some r -> run_ok (k + i) r) ->
    skip_all runs (W <$> seq k (length runs)) consumed = Some (runs, consumed)).
  { clear Hlen Hr. induction runs as [|r runs IH]; intros k Hk Hr; [done|]. cbn [length seq fmap list_fmap skip_all]. simpl in Hk.
    rewrite skip_gone_none; [|lia|rewrite <- (Nat.add_0_r k); by apply Hr]. cbn [mbind option_bind].
    rewrite IH; [done|lia|]. intros i r' Hi. rewrite Nat.add_succ_comm. by apply (Hr (S i)). }
  rewrite <- Hlen. apply Hg; [lia|]. intros i r Hi. by apply Hr.
Qed.

(** A head key is built as the row has it. *)
Lemma ensure_ok i r h : (i < n)%nat -> run_ok i r -> run_head r = Some h ->
  exists r', ensure_head_key (W i) (P i) r = Some r' /\ run_ok i r' /\ r_head_key r' = Some (head_key (i, h_idx h)) /\ r_pos r' = r_pos r /\ r_refs r' = r_refs r.
Proof.
  intros Hi Hr Hh. pose proof (Hfits i Hi) as [Hok _ _ _ _]. unfold ensure_head_key. destruct (r_head_key r) as [k|] eqn:Ek.
  { exists r. destruct (ro_key i r Hr k Ek) as (h' & Hh' & ->). rewrite Hh in Hh'. injection Hh' as <-. done. }
  destruct (head_row i r h Hr Hh) as [Hl _ Hp [pp Hs]]. unfold run_head in Hh. rewrite Hh. cbn [mbind option_bind].
  rewrite (look_parent (W i) Hok) by done. cbn [mbind option_bind]. destruct (look_path (W i) Hok _ Hp) as (st & buf & -> & Est). cbn [mbind option_bind].
  rewrite (look_name (W i) Hok) by done. cbn [mbind option_bind snd]. rewrite Hs in Est. destruct st; try done. injection Est as <-.
  assert (Ek' : fold (P i ++ pp) ++ [0] ++ fold (FolderPaths.v_raw (Vf i) (v_name_id (Vf i) (h_idx h))) = head_key (i, h_idx h)).
  { unfold head_key, row_folder, row_name. cbn [fst snd]. by rewrite Hs, (view_folded (W i) Hok). }
  rewrite Ek'. eexists. split; [done|]. split; [|done].
  destruct Hr as [Hrows _ Hmemo]. split; [done| |exact Hmemo]. cbn [with_head_key r_head_key]. intros k [= <-]. by exists h.
Qed.

(** Where a run stands. *)
Definition place (r : Run) : N * list HitRef := (r_pos r, r_refs r).

Lemma place_head r r' : place r' = place r -> run_head r' = run_head r /\ todo r' = todo r.
Proof. unfold place, run_head, todo. by intros [= -> ->]. Qed.

Lemma runs_ok_insert runs i r r' : runs_ok runs -> runs !! i = Some r -> run_ok i r' -> runs_ok (<[i := r']> runs).
Proof.
  intros [Hlen Hr] Hi Hr'. split; [by rewrite length_insert|]. intros j r0 [(<- & <- & _)|[_ Hj]]%list_lookup_insert_Some; [done|by apply Hr].
Qed.

Lemma place_insert (runs : list Run) i r r' : runs !! i = Some r -> place r' = place r -> place <$> <[i := r']> runs = place <$> runs.
Proof. intros Hi Hp. rewrite list_fmap_insert. apply list_insert_id. by rewrite list_lookup_fmap, Hi, Hp. Qed.

Lemma place_lookup (runs runs' : list Run) i r : place <$> runs' = place <$> runs -> runs !! i = Some r -> exists r', runs' !! i = Some r' /\ place r' = place r.
Proof.
  intros E Hi. assert (Hp : (place <$> runs') !! i = Some (place r)) by (rewrite E, list_lookup_fmap, Hi; done).
  apply list_lookup_fmap_Some in Hp as (r' & -> & Hr'). eauto.
Qed.

Lemma runs_lt runs i r : runs_ok runs -> runs !! i = Some r -> (i < n)%nat.
Proof. intros [Hlen _] Hi. apply lookup_lt_Some in Hi. lia. Qed.

(** Names, sizes and dates of live rows. *)
Lemma by_name_spec i h j h' : (i < n)%nat -> (j < n)%nat -> row_ok (W i) h -> row_ok (W j) h' ->
  by_name (W i) (W j) h h' = Some (bytes_cmp (row_name (i, h_idx h)) (row_name (j, h_idx h'))).
Proof.
  intros Hi Hj Hh Hh'. unfold by_name. rewrite (look_folded (W i)), (look_folded (W j)); [done|..]; try apply Hfits; try done; [apply Hh'|apply Hh].
Qed.

Lemma then_with_thenc a b : then_with a (Some b) = Some (thenc a b).
Proof. by destruct a. Qed.

Lemma directed_match (c : comparison) : match d with Desc => CompOpp c | Asc => c end = directed d c.
Proof. done. Qed.

Lemma cmp_heads_spec runs a b ra rb ha hb : runs_ok runs -> a <> b -> runs !! a = Some ra -> runs !! b = Some rb -> run_head ra = Some ha -> run_head rb = Some hb ->
  exists runs', cmp_heads runs a b guards prefixes sort = Some (head_cmp (a, h_idx ha) (b, h_idx hb), runs') /\ runs_ok runs' /\ place <$> runs' = place <$> runs.
Proof.
  intros Hok Hab Ha Hb Eha Ehb. pose proof (runs_lt _ _ _ Hok Ha) as Hla. pose proof (runs_lt _ _ _ Hok Hb) as Hlb.
  pose proof (rs_each _ Hok _ _ Ha) as Hra. pose proof (rs_each _ Hok _ _ Hb) as Hrb.
  pose proof (head_row _ _ _ Hra Eha) as Hrowa. pose proof (head_row _ _ _ Hrb Ehb) as Hrowb.
  pose proof (view_sorts _ (vf_ok _ _ (Hfits a Hla)) (vf_fits _ _ (Hfits a Hla))) as Sa. pose proof (view_sorts _ (vf_ok _ _ (Hfits b Hlb)) (vf_fits _ _ (Hfits b Hlb))) as Sb.
  assert (La : h_idx ha ∈ v_live (Vf a)) by (apply in_live; [apply Hfits, Hla|apply Hrowa]).
  assert (Lb : h_idx hb ∈ v_live (Vf b)) by (apply in_live; [apply Hfits, Hlb|apply Hrowb]).
  unfold cmp_heads. rewrite !guards_at by done. cbn [mbind option_bind]. rewrite Ha, Hb. cbn [mbind option_bind].
  unfold run_head in Eha, Ehb. rewrite Eha, Ehb. cbn [mbind option_bind]. unfold head_cmp. destruct (key sort).
  - rewrite by_name_spec by done. cbn [mbind option_bind]. eauto.
  - rewrite !prefixes_at by done. cbn [mbind option_bind]. destruct (ensure_ok a ra ha Hla Hra Eha) as (ra' & -> & Hra' & Ka & Pa & Ra). cbn [mbind option_bind].
    rewrite list_lookup_insert_ne, Hb by done. cbn [mbind option_bind]. destruct (ensure_ok b rb hb Hlb Hrb Ehb) as (rb' & -> & Hrb' & Kb & Pb & Rb).
    cbn [mbind option_bind]. rewrite Ka, Kb. cbn [option_cmp]. rewrite head_key_cmp by done. eexists. split; [done|].
    assert (Hb' : <[a := ra']> runs !! b = Some rb) by (by rewrite list_lookup_insert_ne). split.
    + eapply runs_ok_insert; [by eapply runs_ok_insert|exact Hb'|done].
    + rewrite (place_insert _ b rb rb' Hb'), (place_insert _ a ra ra' Ha); [done|..]; unfold place; congruence.
  - rewrite (look_size _ (vf_ok _ _ (Hfits a Hla)) _ (rw_live _ _ Hrowa)), (look_size _ (vf_ok _ _ (Hfits b Hlb)) _ (rw_live _ _ Hrowb)).
    cbn [mbind option_bind]. rewrite by_name_spec by done. rewrite then_with_thenc. cbn [mbind option_bind]. rewrite directed_match, directed_thenc, size_key_cmp; eauto.
    + intros s. by apply po_size.
    + intros s. by apply po_size.
  - rewrite (look_mtime _ (vf_ok _ _ (Hfits a Hla)) _ (rw_live _ _ Hrowa)), (look_mtime _ (vf_ok _ _ (Hfits b Hlb)) _ (rw_live _ _ Hrowb)).
    cbn [mbind option_bind]. rewrite by_name_spec by done. rewrite then_with_thenc. cbn [mbind option_bind]. rewrite directed_match, directed_thenc, mtime_key_cmp; eauto.
    + intros s. by apply po_mtime.
    + intros s. by apply po_mtime.
Qed.

(** ** The next row *)

Notation todos runs := (todo <$> (runs : list Run)).

Lemma place_todos runs runs' : place <$> runs' = place <$> runs -> todos runs' = todos runs.
Proof.
  intros E. change todo with ((fun p : N * list HitRef => h_idx <$> drop (N.to_nat p.1) p.2) ∘ place). by rewrite !list_fmap_compose, E.
Qed.

Lemma todo_cons r h : run_head r = Some h -> exists l, todo r = h_idx h :: l.
Proof. intros Hh. destruct (run_head_todo r h Hh) as (r' & _ & -> & _). eauto. Qed.
Lemma todo_nil r : run_head r = None -> todo r = [].
Proof. intros Hh. pose proof (todo_head r) as E. rewrite Hh in E. by destruct (todo r). Qed.

(** The best of the first [k] runs. *)
Definition best_of (T : list (list N)) (k : nat) (best : option nat) : Prop :=
  match best with
  | None => forall j l, (j < k)%nat -> T !! j = Some l -> l = []
  | Some bi => (bi < k)%nat /\ exists x l, T !! bi = Some (x :: l) /\
      forall j y l', (j < k)%nat -> T !! j = Some (y :: l') -> (j, y) = (bi, x) \/ merged_cmp (bi, x) (j, y) = Lt
  end.

Lemma best_of_skip T k best : best_of T k best -> T !! k = Some [] -> best_of T (S k) best.
Proof.
  intros Hb Hk. destruct best as [bi|]; simpl in *.
  - destruct Hb as (Hlt & x & l & Hx & Hall). split; [lia|]. exists x, l. split; [done|]. intros j y l' Hj Hy.
    destruct (decide (j = k)) as [->|]; [congruence|]. apply (Hall j y l'); [lia|done].
  - intros j l Hj Hl. destruct (decide (j = k)) as [->|]; [congruence|]. apply (Hb j l); [lia|done].
Qed.

Lemma best_of_first T k x l : best_of T k None -> T !! k = Some (x :: l) -> best_of T (S k) (Some k).
Proof.
  intros Hb Hk. split; [lia|]. exists x, l. split; [done|]. intros j y l' Hj Hy. destruct (decide (j = k)) as [->|]; [left; congruence|].
  exfalso. assert (y :: l' = []) by (apply (Hb j); [lia|done]). done.
Qed.

Lemma best_of_step T k bi x l b lb : best_of T k (Some bi) -> T !! bi = Some (b :: lb) -> T !! k = Some (x :: l) ->
  best_of T (S k) (Some (match head_cmp (k, x) (bi, b) with Lt => k | _ => bi end)).
Proof.
  intros (Hlt & b' & lb' & Hb & Hall) Hb' Hk. rewrite Hb in Hb'. injection Hb' as <- <-. pose proof merged_total as T0. pose proof weak_head as W0.
  destruct (head_cmp (k, x) (bi, b')) eqn:Ec.
  1,3: split; [lia|]; exists b', lb'; split; [done|]; intros j y l' Hj Hy; destruct (decide (j = k)) as [->|]; [|apply (Hall j y l'); [lia|done]];
    rewrite Hk in Hy; injection Hy as <- <-; right; unfold merged_cmp; rewrite (wc_opp (k, x) (bi, b')), Ec; cbn [CompOpp thenc fst];
    first [done | by rewrite (proj2 (Nat.compare_lt_iff bi k))].
  split; [lia|]. exists x, l. split; [done|]. assert (Hm : merged_cmp (k, x) (bi, b') = Lt) by (unfold merged_cmp; by rewrite Ec).
  intros j y l' Hj Hy. destruct (decide (j = k)) as [->|]; [left; congruence|]. right.
  destruct (Hall j y l') as [[= -> ->]|?]; [lia|done|done|]. by eapply cmp_lt_trans.
Qed.

Lemma best_head_spec m : forall k best runs, (k + m = n)%nat -> runs_ok runs -> best_of (todos runs) k best ->
  exists best' runs', best_head (seq k m) best runs guards prefixes sort = Some (best', runs') /\ runs_ok runs' /\
    place <$> runs' = place <$> runs /\ best_of (todos runs) n best'.
Proof.
  induction m as [|m IH]; intros k best runs Hk Hok Hb; cbn [seq best_head].
  { assert (k = n) as -> by lia. by exists best, runs. }
  destruct (lookup_lt_is_Some_2 runs k) as [r Hr]; [rewrite (rs_len _ Hok); lia|]. rewrite Hr. cbn [mbind option_bind].
  assert (HT : todos runs !! k = Some (todo r)) by (by rewrite list_lookup_fmap, Hr). destruct (run_head r) as [h|] eqn:Eh.
  2: { rewrite (todo_nil r Eh) in HT. apply IH; [lia|done|by apply best_of_skip]. }
  destruct (todo_cons r h Eh) as [l El]. rewrite El in HT. destruct best as [bi|].
  2: { apply IH; [lia|done|by eapply best_of_first]. }
  pose proof Hb as (Hbi & b & lb & Hbx & _). apply list_lookup_fmap_Some in Hbx as (rb & Erb & Hrb).
  destruct (run_head rb) as [hb|] eqn:Ehb; [|by rewrite (todo_nil rb Ehb) in Erb]. destruct (todo_cons rb hb Ehb) as [lb' El']. rewrite El' in Erb. injection Erb as -> <-.
  destruct (cmp_heads_spec runs k bi r rb h hb Hok ltac:(lia) Hr Hrb Eh Ehb) as (runs' & -> & Hok' & Hpl). cbn [mbind option_bind].
  destruct (IH (S k) (Some (match head_cmp (k, h_idx h) (bi, h_idx hb) with Lt => k | _ => bi end)) runs') as (best' & runs'' & E & Hok'' & Hpl'' & Hb''); [lia|done| |].
  { rewrite (place_todos _ _ Hpl). eapply best_of_step; [exact Hb| |exact HT]. by rewrite list_lookup_fmap, Hrb, <- El'. }
  exists best', runs''. split; [exact E|]. split; [done|]. split; [by rewrite Hpl''|]. by rewrite <- (place_todos _ _ Hpl).
Qed.

(** What picking the next row gives. *)
Definition picked (T : list (list N)) (ri : option nat) : Prop :=
  match ri with
  | None => tagged T = []
  | Some i => exists x, least_head merged_cmp T i x
  end.

Lemma best_of_picked T best : length T = n -> best_of T n best -> picked T best.
Proof.
  intros Hlen Hb. destruct best as [bi|]; simpl in *.
  - destruct Hb as (_ & x & l & Hx & Hall). exists x. split; [eauto|]. intros j y l' Hy. apply (Hall j y l'); [|done]. apply lookup_lt_Some in Hy. lia.
  - apply tagged_nil, Forall_lookup. intros j l Hl. apply (Hb j l); [|done]. apply lookup_lt_Some in Hl. lia.
Qed.

(** *** Volumes one after another *)

#[local] Instance by_prefix_total folded : TotalCmp (by_prefix folded).
Proof.
  apply weak_total.
  - apply (weak_thenc (fun a b => bytes_cmp (default [] (folded !! a)) (default [] (folded !! b))) Nat.compare); [|apply weak_nat].
    apply (weak_comap bytes_cmp (fun a => default [] (folded !! a)) weak_bytes).
  - intros a b. unfold by_prefix. rewrite thenc_eq, Nat.compare_eq_iff. split; [by intros [_ ?]|]. intros ->. by rewrite bytes_cmp_eq.
Qed.

Lemma folded_at i : (i < n)%nat -> (fold <$> prefixes) !! i = Some (fold (P i)).
Proof. intros Hi. by rewrite list_lookup_fmap, prefixes_at. Qed.

Lemma length_prefixes : length (fold <$> prefixes) = n.
Proof. unfold prefixes. by rewrite !length_fmap, length_seq. Qed.

(** What a turn is: every volume, ordered by prefixes none of which starts
    another. *)
Record turn_ok (turn : list nat) : Prop := {
  tu_all : turn ≡ₚ seq 0 n;
  tu_sorted : StronglySorted (fun i j => directed d (bytes_cmp (fold (P i)) (fold (P j))) = Lt) turn;
  tu_apart i j : (i < n)%nat -> (j < n)%nat -> i <> j -> ~ fold (P i) `prefix_of` fold (P j)
}.

Lemma sorted_mono {A} (R R' : relation A) l : (forall a b, a ∈ l -> b ∈ l -> R a b -> R' a b) -> StronglySorted R l -> StronglySorted R' l.
Proof.
  intros Hr Hs. induction Hs as [|x l Hs IH Hx]; [constructor|]. apply StronglySorted_cons. split.
  - apply Forall_forall. intros y Hy. apply Hr; [left|by right|]. by apply (proj1 (Forall_forall _ _) Hx).
  - apply IH. intros a b Ha Hb. apply Hr; by right.
Qed.

Lemma sorted_strict {A} (R : relation A) l : NoDup l -> StronglySorted R l -> StronglySorted (fun a b => R a b /\ a <> b) l.
Proof.
  intros Hn Hs. induction Hs as [|x l Hs IH Hx]; [constructor|]. apply NoDup_cons in Hn as [Hnx Hn]. apply StronglySorted_cons. split; [|by apply IH].
  apply Forall_forall. intros y Hy. split; [by apply (proj1 (Forall_forall _ _) Hx)|]. by intros ->.
Qed.

Lemma turn_spec turn : volumes_in_turn prefixes d = Some turn -> turn_ok turn.
Proof.
  unfold volumes_in_turn. rewrite length_prefixes. set (folded := fold <$> prefixes). set (numbered := zip (seq 0 n) folded).
  destruct (existsb _ numbered) eqn:En; [done|]. intros [= <-].
  assert (Hnum : forall i, (i < n)%nat -> (i, fold (P i)) ∈ numbered).
  { intros i Hi. apply (list_elem_of_lookup_2 _ i). unfold numbered. rewrite lookup_zip_with, lookup_seq_lt by done. cbn [mbind option_bind].
    unfold folded. by rewrite folded_at. }
  assert (Hapart : forall i j, (i < n)%nat -> (j < n)%nat -> i <> j -> ~ fold (P i) `prefix_of` fold (P j)).
  { intros i j Hi Hj Hne Hpre. apply not_true_iff_false in En. apply En. apply existsb_exists. exists (i, fold (P i)).
    split; [by apply list_elem_of_In, Hnum|]. apply orb_true_iff. right. apply existsb_exists. exists (j, fold (P j)).
    split; [by apply list_elem_of_In, Hnum|]. rewrite (proj2 (Nat.eqb_neq _ _) Hne). by apply bool_decide_eq_true. }
  set (order := TopK.sort (by_prefix folded) (seq 0 n)).
  assert (Hperm : order ≡ₚ seq 0 n) by apply sort_perm.
  assert (Hin : forall i, i ∈ order -> (i < n)%nat) by (intros i; rewrite Hperm; intros [_ ?]%elem_of_seq; lia).
  assert (Hs : StronglySorted (fun i j => bytes_cmp (fold (P i)) (fold (P j)) = Lt) order).
  { eapply sorted_mono; [|apply sorted_strict; [rewrite Hperm; apply NoDup_seq|apply sort_sorted; apply _]].
    intros i j Hi%Hin Hj%Hin [Hle Hne]. unfold cmp_le, by_prefix in Hle. unfold folded in Hle. rewrite !folded_at in Hle by done. cbn in Hle.
    destruct (bytes_cmp (fold (P i)) (fold (P j))) eqn:Ec; [|done|done]. exfalso. apply bytes_cmp_eq in Ec. apply (Hapart i j Hi Hj Hne). by rewrite Ec. }
  split; [|  |done].
  - destruct d; [done|]. by rewrite reverse_Permutation.
  - destruct d; [done|]. eapply sorted_mono; [|by apply sorted_reverse]. intros i j _ _ Hlt. cbn [directed]. rewrite (bytes_cmp_antisym (fold (P j))). by rewrite Hlt.
Qed.

Lemma turn_before i h j h' : key sort = Path -> (forall a b, (a < n)%nat -> (b < n)%nat -> a <> b -> ~ fold (P a) `prefix_of` fold (P b)) ->
  (i < n)%nat -> (j < n)%nat -> i <> j -> row_ok (W i) h -> row_ok (W j) h' ->
  directed d (bytes_cmp (fold (P i)) (fold (P j))) = Lt -> merged_cmp (i, h_idx h) (j, h_idx h') = Lt.
Proof.
  intros Hk Hap Hi Hj Hne Hh Hh' Hlt. unfold merged_cmp, head_cmp. rewrite Hk.
  destruct (row_folder_eq i h Hi Hh) as (f & _ & ->), (row_folder_eq j h' Hj Hh') as (f' & _ & ->).
  destruct (bytes_cmp_apart (fold (P i)) (fold (P j)) f f') as [-> Hneq]; [by apply Hap|by apply Hap|]. rewrite directed_thenc, Hlt. done.
Qed.

Lemma first_with_head_spec turn runs : key sort = Path -> turn_ok turn -> runs_ok runs -> exists ri, first_with_head turn runs = Some ri /\ picked (todos runs) ri.
Proof.
  intros Hk [Hall Hs Hap] Hok.
  assert (Hg : forall done_ rest, done_ ++ rest ≡ₚ seq 0 n -> StronglySorted (fun i j => directed d (bytes_cmp (fold (P i)) (fold (P j))) = Lt) rest ->
    (forall i r, i ∈ done_ -> runs !! i = Some r -> todo r = []) -> exists ri, first_with_head rest runs = Some ri /\ picked (todos runs) ri).
  { intros done_ rest. revert done_. induction rest as [|i rest IH]; intros done_ Hp Hst Hd; cbn [first_with_head].
    - exists None. split; [done|]. apply tagged_nil, Forall_fmap, Forall_lookup. intros j r Hj. apply (Hd j r); [|done]. rewrite app_nil_r in Hp. rewrite Hp.
      apply elem_of_seq. pose proof (runs_lt _ _ _ Hok Hj). lia.
    - assert (Hi : (i < n)%nat) by (assert (Hin : i ∈ seq 0 n) by (rewrite <- Hp; apply elem_of_app; right; left); apply elem_of_seq in Hin; lia).
      destruct (lookup_lt_is_Some_2 runs i) as [r Hr]; [rewrite (rs_len _ Hok); lia|]. rewrite Hr. cbn [mbind option_bind].
      apply StronglySorted_inv in Hst as [Hst Hf]. destruct (run_head r) as [h|] eqn:Eh.
      + exists (Some i). split; [done|]. destruct (todo_cons r h Eh) as [l El]. exists (h_idx h). split; [exists l; by rewrite list_lookup_fmap, Hr, <- El|].
        intros j y l' Hy. apply list_lookup_fmap_Some in Hy as (rj & Ej & Hj). pose proof (runs_lt _ _ _ Hok Hj) as Hjn.
        destruct (decide (j = i)) as [->|Hne]; [rewrite Hr in Hj; injection Hj as <-; rewrite El in Ej; left; congruence|]. right.
        destruct (run_head rj) as [hj|] eqn:Ehj; [|by rewrite (todo_nil rj Ehj) in Ej]. destruct (todo_cons rj hj Ehj) as [lj Elj]. rewrite Elj in Ej. injection Ej as -> _.
        assert (Hjr : j ∈ rest).
        { assert (Hin : j ∈ done_ ++ i :: rest) by (rewrite Hp; apply elem_of_seq; lia). apply elem_of_app in Hin as [Hin|Hin].
          - rewrite (Hd j rj Hin Hj) in Elj. done.
          - apply elem_of_cons in Hin as [?|?]; done. }
        apply turn_before; try done; [by eapply head_row; [eapply rs_each|]|by eapply head_row; [eapply rs_each|]|].
        by apply (proj1 (Forall_forall _ _) Hf).
      + apply (IH (done_ ++ [i])); [by rewrite <- app_assoc|done|]. intros j rj [Hj|Hj]%elem_of_app Hrj; [by apply (Hd j)|].
        apply list_elem_of_singleton in Hj as ->. rewrite Hr in Hrj. injection Hrj as <-. by apply todo_nil. }
  apply (Hg [] turn); [done|done|]. intros i r Hi. by apply not_elem_of_nil in Hi.
Qed.

(** The next row is the least left. *)
Definition turn_fits (turn : option (list nat)) : Prop := forall t, turn = Some t -> key sort = Path /\ turn_ok t.

Lemma next_head_spec runs turn consumed : runs_ok runs -> turn_fits turn ->
  exists ri runs', next_head runs guards prefixes sort turn consumed = Some (ri, runs', consumed) /\ runs_ok runs' /\ todos runs' = todos runs /\ picked (todos runs) ri.
Proof.
  intros Hok Ht. unfold next_head. rewrite skip_all_none by done. cbn [mbind option_bind]. destruct turn as [t|].
  - destruct (Ht t eq_refl) as [Hk Hto]. destruct (first_with_head_spec t runs Hk Hto Hok) as (ri & -> & Hp). cbn [mbind option_bind]. eauto 10.
  - rewrite (rs_len _ Hok). destruct (best_head_spec n 0 None runs) as (ri & runs' & -> & Hok' & Hpl & Hb); [done|done|intros j l Hj; lia|]. cbn [mbind option_bind].
    exists ri, runs'. split; [done|]. split; [done|]. split; [by apply place_todos|]. apply best_of_picked; [|done]. by rewrite length_fmap, (rs_len _ Hok).
Qed.
End merging.
