(* ===== verification/StreamPages.v ===== *)
(** The pages of a reply hold the merged rows, each once and in order, and end
    with the one page that says no more follow. *)

From stdpp Require Import gmap.
From stdpp Require Import base option list sets sorting.
From Stdlib Require Import NArith ZArith Lia.
From S2P Require Import Prelude Types Wtf8 Fold Text Compiled FrnMap NameStore NameOrder EntryTable Volume VolumeInv VolumeNew FolderPaths TopK Engine FolderRank FolderTree EngineView NameRows Frame Binary Page Merge Stream StreamRead StreamMerge.

Section pages.
Context `{Unicode, !UnicodeAscii, !UnicodeText, Hasher}.
Context (n : nat) (W : nat -> VolumeIndex) (P : nat -> list N) (q : Asked).
Notation Vf i := (view_of (W i)).
Notation todos runs := (todo <$> (runs : list Run)).
Context (Hfits : forall i, (i < n)%nat -> volume_fits (W i) (P i)).

(** What a page says of a row. *)
Definition raw_row (p : nat * N) : option RawItem :=
  pp ← v_path_of (Vf p.1) (v_parent (Vf p.1) p.2);
  Some {| ri_path := P p.1 ++ (match pp with [] => [] | _ => pp ++ [0x5C] end) ++ FolderPaths.v_raw (Vf p.1) (v_name_id (Vf p.1) p.2);
          ri_is_dir := v_is_dir (Vf p.1) p.2;
          ri_size := if a_want_size q then v_size (Vf p.1) p.2 else None;
          ri_mtime := if a_want_mtime q then v_mtime (Vf p.1) p.2 else None |}.

Notation runs_ok := (runs_ok n W P).
Notation run_ok := (run_ok W P).
Notation gcmp := (merged_cmp W P (a_sort q)).
Notation rows runs := (TopK.sort gcmp (tagged (todos runs))).

(** The memo gives the path of the folder as the index has it. *)
Lemma row_path_spec i r par name : (i < n)%nat -> run_ok i r -> alive (W i) par ->
  exists r', row_path (W i) par name (P i) r
    = Some ((fun pp => P i ++ (match pp with [] => [] | _ => pp ++ [0x5C] end) ++ name) <$> v_path_of (Vf i) par, r') /\
    run_ok i r' /\ place r' = place r.
Proof.
  intros Hi Hr Hp. pose proof (Hfits i Hi) as [Hok _ _ _ _]. unfold row_path.
  set (r1 := if _ || _ then _ else r).
  assert (Hr1 : run_ok i r1 /\ place r1 = place r /\ r_memo_generation r1 = Volume.generation (W i)).
  { subst r1. destruct (N.eqb_spec (r_memo_generation r) (Volume.generation (W i))) as [E|E]; cbn [negb orb]; [destruct (_ <? _)|]; cbn [with_memo place r_pos r_refs r_memo_generation].
    - split; [|done]. destruct Hr as [Ha Hb _]. split; [done|done|]. cbn [with_memo r_memo]. intros p pp _ Hl. by rewrite lookup_empty in Hl.
    - done.
    - split; [|done]. destruct Hr as [Ha Hb _]. split; [done|done|]. cbn [with_memo r_memo]. intros p pp _ Hl. by rewrite lookup_empty in Hl. }
  clearbody r1. destruct Hr1 as ([Ha Hb Hm] & Hpl & Hg). destruct (r_memo r1 !! par) as [pp|] eqn:El; cbn [mbind option_bind].
  - rewrite <- (Hm par pp Hg El). exists r1. split; [by destruct pp|]. done.
  - destruct (look_path (W i) Hok par Hp) as (st & buf & -> & Est). cbn [mbind option_bind]. eexists. split.
    + rewrite <- Est. reflexivity.
    + split; [|exact Hpl]. split; [exact Ha|exact Hb|]. cbn [with_memo r_memo r_memo_generation]. intros p pp _ [[<- <-]|[_ Hl]]%lookup_insert_Some; [done|].
      by apply (Hm p pp Hg).
Qed.

(** Taking the row that was picked. *)
Lemma take_picked runs i x r : runs_ok runs -> least_head gcmp (todos runs) i x -> runs !! i = Some r ->
  exists h r', take_head r = Some (h, r') /\ h_idx h = x /\ run_ok i r' /\ row_ok (W i) h /\ todos (<[i := r']> runs) = <[i := todo r']> (todos runs) /\
    todos runs !! i = Some (x :: todo r').
Proof.
  intros Hok [[l Hl] _] Hr. rewrite list_lookup_fmap, Hr in Hl. injection Hl as El. destruct (run_head r) as [h|] eqn:Eh; [|by rewrite (todo_nil r Eh) in El].
  destruct (run_head_todo r h Eh) as (r' & Et & Etd & _). rewrite Etd in El. injection El as <- <-. exists h, r'.
  split; [done|]. split; [done|]. split; [by eapply take_head_ok; [eapply rs_each|]|]. split; [by eapply head_row; [eapply rs_each|]|].
  split; [by rewrite list_fmap_insert|]. by rewrite list_lookup_fmap, Hr, <- Etd.
Qed.

Lemma read_if_wanted {A} (b : bool) (o : option A) (m : option (option A)) : m = Some o -> (if b then m else Some None) = Some (if b then o else None).
Proof. intros ->. by destruct b. Qed.

Definition page_rows (start consumed : N) (taken : list (nat * N)) : list RawItem := omap raw_row (drop (N.to_nat (start - consumed)) taken).

(** What filling a page from [k] rows leaves. *)
Record filled (start stop consumed M : N) (out : list N) (count : N) (runs : list Run) (room k : nat) (out' : list N) (count' : N) (runs' : list Run) : Prop := {
  fl_room : (k <= room)%nat;
  fl_stop : (k <= N.to_nat (stop - consumed))%nat;
  fl_rows : (k <= length (rows runs))%nat;
  fl_ok : runs_ok runs';
  fl_sorted : runs_sorted gcmp (todos runs');
  fl_left : rows runs' = drop k (rows runs);
  fl_out : out' = out ++ items_bytes (page_rows start consumed (take k (rows runs)));
  fl_count : count' = count + len (page_rows start consumed (take k (rows runs)));
  fl_len : len out' <= N.max (len out) (PAGE_BYTE_BUDGET + M);
  fl_some : (0 < room)%nat -> consumed < stop -> len out < PAGE_BYTE_BUDGET -> rows runs <> [] -> (0 < k)%nat
}.

Lemma page_rows_cons start consumed p l : page_rows start consumed (p :: l)
  = (if consumed + 1 <=? start then [] else match raw_row p with Some w => [w] | None => [] end) ++ page_rows start (consumed + 1) l.
Proof.
  unfold page_rows. destruct (N.leb_spec (consumed + 1) start).
  - replace (N.to_nat (start - consumed)) with (S (N.to_nat (start - (consumed + 1)))) by lia. done.
  - replace (N.to_nat (start - consumed)) with 0%nat by lia. replace (N.to_nat (start - (consumed + 1))) with 0%nat by lia. rewrite !drop_0. cbn [omap list_omap].
    by destruct (raw_row p).
Qed.

Lemma filled_none start stop consumed M out count runs runs' room : runs_ok runs' -> todos runs' = todos runs -> runs_sorted gcmp (todos runs) ->
  ((0 < room)%nat -> consumed < stop -> len out < PAGE_BYTE_BUDGET -> rows runs = []) ->
  filled start stop consumed M out count runs room 0 out count runs'.
Proof.
  intros Hok Et Hs Hn. assert (E0 : page_rows start consumed (take 0 (rows runs)) = []) by (unfold page_rows; by rewrite take_0, drop_nil).
  split; rewrite ?E0; [lia|lia|lia|done|by rewrite Et|by rewrite Et, drop_0|by rewrite app_nil_r|unfold len; cbn [length]; lia|lia|].
  intros Hr Hc Hb Hne. exfalso. by apply Hne, Hn.
Qed.

(** One more row in front. *)
Lemma filled_cons start stop consumed M out out1 count count1 runs runs1 room k out' count' runs' p ws :
  filled start stop (consumed + 1) M out1 count1 runs1 room k out' count' runs' ->
  consumed < stop -> rows runs = p :: rows runs1 -> ws = (if consumed + 1 <=? start then [] else match raw_row p with Some w => [w] | None => [] end) ->
  out1 = out ++ items_bytes ws -> count1 = count + len ws -> len out1 <= N.max (len out) (PAGE_BYTE_BUDGET + M) ->
  filled start stop consumed M out count runs (S room) (S k) out' count' runs'.
Proof.
  intros [F1 F2 F3 F4 F5 F6 F7 F8 F9 _] Hlt Er Ew Eo Ec El. split; rewrite ?Er; cbn [take drop length]; try done; try lia.
  - rewrite page_rows_cons, <- Ew, F7, Eo. unfold items_bytes. by rewrite map_app, concat_app, app_assoc.
  - rewrite page_rows_cons, <- Ew, F8, Ec, len_app. lia.
Qed.

Lemma rows_nonempty runs i x : least_head gcmp (todos runs) i x -> rows runs <> [].
Proof.
  intros [[l Hl] _] E. assert (Hin : (i, x) ∈ tagged (todos runs)) by (apply elem_of_tagged; eexists; split; [done|left]).
  rewrite <- (sort_perm gcmp), E in Hin. by apply not_elem_of_nil in Hin.
Qed.

(** A page's rows. *)
Lemma fill_spec turn start stop M : turn_fits n P (a_sort q) turn -> (forall p w, (p.1 < n)%nat -> alive (W p.1) p.2 -> raw_row p = Some w -> len (pushed w) <= M) ->
  forall room out count runs consumed, runs_ok runs -> runs_sorted gcmp (todos runs) ->
  exists k out' count' runs', fill room q (guards n W) (prefixes n P) turn start stop out count runs consumed = Some (out', count', runs', consumed + N.of_nat k) /\
    filled start stop consumed M out count runs room k out' count' runs'.
Proof.
  intros Ht HM. induction room as [|room IH]; intros out count runs consumed Hok Hs; cbn [fill].
  { exists 0%nat, out, count, runs. rewrite N.add_0_r. split; [done|]. apply filled_none; [done..|lia]. }
  destruct (N.ltb_spec consumed stop) as [Hlt|Hge]; cbn [andb].
  2: { exists 0%nat, out, count, runs. rewrite N.add_0_r. split; [done|]. apply filled_none; [done..|]. intros; lia. }
  destruct (N.ltb_spec (len out) PAGE_BYTE_BUDGET) as [Hb|Hb].
  2: { exists 0%nat, out, count, runs. rewrite N.add_0_r. split; [done|]. apply filled_none; [done..|]. intros; lia. }
  destruct (next_head_spec n W P (a_sort q) Hfits runs turn consumed Hok Ht) as (ri & runs1 & -> & Hok1 & Et & Hp). cbn [mbind option_bind].
  destruct ri as [i|].
  2: { exists 0%nat, out, count, runs1. rewrite N.add_0_r. split; [done|]. apply filled_none; [done..|]. intros _ _ _. simpl in Hp. by rewrite Hp. }
  destruct Hp as [x Hx]. pose proof Hx as Hx1. rewrite <- Et in Hx1. pose proof Hx1 as [[l Hl] _]. apply list_lookup_fmap_Some in Hl as (r & _ & Hr). rewrite Hr. cbn [mbind option_bind].
  destruct (take_picked runs1 i x r Hok1 Hx1 Hr) as (h & r' & -> & Eh & Hr' & Hrow & Etd & Hlk). cbn [mbind option_bind]. pose proof (runs_lt _ _ _ _ _ _ Hok1 Hr) as Hi.
  pose proof (Hfits i Hi) as [Hvok _ _ _ _]. rewrite Et in Etd, Hlk.
  (** The state with the row taken, in any of its forms. *)
  assert (Hnext : forall r'', run_ok i r'' -> place r'' = place r' -> let runs2 := <[i := r'']> runs1 in
    runs_ok runs2 /\ runs_sorted gcmp (todos runs2) /\ rows runs = (i, x) :: rows runs2).
  { intros r'' Hr'' Hpl. cbv zeta. assert (Etd' : todos (<[i := r'']> runs1) = <[i := todo r']> (todos runs)).
    { rewrite list_fmap_insert, Et. f_equal. by apply place_head. }
    split; [by eapply runs_ok_insert|]. rewrite Etd'. split; [by eapply runs_sorted_take|]. apply (sort_head gcmp); [exact Hs|exact Hx|exact Hlk]. }
  destruct (N.leb_spec (consumed + 1) start) as [Hst|Hst].
  { destruct (Hnext r' Hr' eq_refl) as (Hok2 & Hs2 & Er). destruct (IH out count _ (consumed + 1) Hok2 Hs2) as (k & out' & count' & runs' & -> & F).
    exists (S k), out', count', runs'. split; [f_equal; f_equal; lia|]. eapply filled_cons; [exact F|done|exact Er|done|..].
    all: rewrite ?(proj2 (N.leb_le _ _)) by lia; unfold items_bytes, len; cbn [map concat length]; rewrite ?app_nil_r; (done || lia). }
  rewrite guards_at, prefixes_at by done. cbn [mbind option_bind]. rewrite (look_parent (W i) Hvok) by apply Hrow. cbn [mbind option_bind].
  rewrite (look_name (W i) Hvok) by apply Hrow. cbn [mbind option_bind].
  destruct (row_path_spec i r' (v_parent (Vf i) (h_idx h)) (FolderPaths.v_raw (Vf i) (v_name_id (Vf i) (h_idx h))) Hi Hr' (rw_parent _ _ Hrow)) as (r'' & -> & Hr'' & Hpl).
  cbn [mbind option_bind]. destruct (rw_path _ _ Hrow) as [pp Hpp]. rewrite Hpp. cbn [fmap option_fmap option_map].
  rewrite (read_if_wanted _ _ _ (look_size (W i) Hvok _ (rw_live _ _ Hrow))), (read_if_wanted _ _ _ (look_mtime (W i) Hvok _ (rw_live _ _ Hrow))). cbn [mbind option_bind].
  destruct (look_dir (W i) Hvok _ (rw_live _ _ Hrow)) as (fl & -> & Efl). cbn [mbind option_bind]. rewrite Efl, Eh.
  destruct (Hnext r'' Hr'' Hpl) as (Hok2 & Hs2 & Er).
  destruct (raw_row (i, x)) as [w|] eqn:Ew; [|unfold raw_row in Ew; cbn [fst snd] in Ew; rewrite Eh in Hpp; by rewrite Hpp in Ew].
  match goal with |- context [fill room q _ _ _ _ _ ?o] => assert (Eo : o = out ++ items_bytes [w]) end.
  { unfold raw_row in Ew. cbn [fst snd] in Ew. rewrite Eh in Hpp. rewrite Hpp in Ew. injection Ew as <-. unfold items_bytes. cbn [map concat]. by rewrite app_nil_r. }
  rewrite Eo. destruct (IH (out ++ items_bytes [w]) (count + 1) _ (consumed + 1) Hok2 Hs2) as (k & out' & count' & runs' & -> & F).
  exists (S k), out', count', runs'. split; [f_equal; f_equal; lia|]. eapply filled_cons; [exact F|done|exact Er|done|..].
  all: rewrite ?(proj2 (N.leb_gt _ _)) by lia; rewrite ?Ew; try done.
  pose proof (HM (i, x) w Hi ltac:(cbn [fst snd]; rewrite <- Eh; apply Hrow) Ew). unfold items_bytes. cbn [map concat]. rewrite app_nil_r, len_app. lia.
Qed.

(** ** Frames *)

Context (hd : Header).

(** The payload of a page of these rows. *)
Definition page_payload (mo : bool) (ws : list RawItem) : list N :=
  push_results_header [] (hd_total hd) 0 mo (hd_incomplete hd) (hd_pending hd) (hd_total_size hd) (len ws) ++ items_bytes ws.

Lemma header_len t mo vi mp ts c : len (push_results_header [] t 0 mo vi mp ts c) <= 30.
Proof. unfold push_results_header. destruct ts; cbn [app]; autorewrite with goz_len; lia. Qed.

Lemma page_rows_length start consumed l : (length (page_rows start consumed l) <= length l)%nat.
Proof.
  unfold page_rows. transitivity (length (drop (N.to_nat (start - consumed)) l)); [|rewrite length_drop; lia]. generalize (drop (N.to_nat (start - consumed)) l) as k. clear.
  induction k as [|x k IH]; [done|]. cbn [omap list_omap]. destruct (raw_row x); cbn [length]; lia.
Qed.

Lemma page_rows_app start consumed a b : page_rows start consumed (a ++ b) = page_rows start consumed a ++ page_rows start (consumed + len a) b.
Proof. unfold page_rows. rewrite drop_app, omap_app. do 3 f_equal. unfold len. lia. Qed.

Lemma build_page_spec turn start stop M runs consumed :
  turn_fits n P (a_sort q) turn -> (forall p w, (p.1 < n)%nat -> alive (W p.1) p.2 -> raw_row p = Some w -> len (pushed w) <= M) -> PAGE_BYTE_BUDGET + M <= MAX_SERVER_FRAME ->
  runs_ok runs -> runs_sorted gcmp (todos runs) ->
  exists k runs', let ws := page_rows start consumed (take k (rows runs)) in let payload := page_payload (consumed + N.of_nat k <? stop) ws in
    build_page q hd (guards n W) (prefixes n P) turn start stop runs consumed = Some (frame_bytes payload, runs', consumed + N.of_nat k) /\
    len payload <= MAX_SERVER_FRAME /\ len ws <= PAGE_ROWS /\ (k <= N.to_nat (stop - consumed))%nat /\ (k <= length (rows runs))%nat /\
    runs_ok runs' /\ runs_sorted gcmp (todos runs') /\ rows runs' = drop k (rows runs) /\ (consumed < stop -> rows runs <> [] -> (0 < k)%nat).
Proof.
  intros Ht HM Hmax Hok Hs. unfold build_page. set (out0 := push_results_header [0; 0; 0; 0] _ _ _ _ _ _ _).
  destruct (fill_spec turn start stop M Ht HM (N.to_nat PAGE_ROWS) out0 0 runs consumed Hok Hs) as (k & out' & count' & runs' & -> & [F1 F2 F3 F4 F5 F6 F7 F8 F9 F10]).
  cbn [mbind option_bind]. exists k, runs'. cbv zeta. set (ws := page_rows start consumed (take k (rows runs))) in *.
  assert (E0 : out0 = [0; 0; 0; 0] ++ push_results_header [] (hd_total hd) 0 false (hd_incomplete hd) (hd_pending hd) (hd_total_size hd) 0) by done.
  assert (Ed : drop 4 out' = push_results_header [] (hd_total hd) 0 false (hd_incomplete hd) (hd_pending hd) (hd_total_size hd) 0 ++ items_bytes ws) by (rewrite F7, E0; done).
  rewrite Ed, patch_results_header_spec. cbn [mbind option_bind]. rewrite F8, N.add_0_l. fold (page_payload (consumed + N.of_nat k <? stop) ws).
  assert (El0 : len out0 <= 34) by (rewrite E0, len_app; pose proof (header_len (hd_total hd) false (hd_incomplete hd) (hd_pending hd) (hd_total_size hd) 0); unfold len at 1; cbn [length]; lia).
  assert (Elen : len out' = 4 + len (page_payload (consumed + N.of_nat k <? stop) ws)).
  { rewrite F7, E0, <- app_assoc, len_app. unfold page_payload. rewrite !(len_app (push_results_header _ _ _ _ _ _ _ _)). unfold len at 1. cbn [length].
    assert (Eh : forall mo c, len (push_results_header [] (hd_total hd) 0 mo (hd_incomplete hd) (hd_pending hd) (hd_total_size hd) c) = 22 + len (match hd_total_size hd with Some s => le_encode 8 s | None => [] end)).
    { intros mo c. unfold push_results_header. cbn [app]. autorewrite with goz_len. lia. }
    rewrite !Eh. lia. }
  assert (Hb : PAGE_BYTE_BUDGET = 8388608) by reflexivity. assert (Hm : MAX_SERVER_FRAME = 16777216) by reflexivity.
  split_and!; try done.
  - unfold frame_bytes, as_u32. rewrite N.mod_small by lia. replace (len out' - 4) with (len (page_payload (consumed + N.of_nat k <? stop) ws)) by lia. done.
  - lia.
  - pose proof (page_rows_length start consumed (take k (rows runs))) as Hl. fold ws in Hl. rewrite length_take in Hl. unfold len. lia.
  - intros Hlt Hne. apply F10; [unfold PAGE_ROWS; lia|done|lia|done].
Qed.

(** The pages of a reply that is read to its end. *)
Lemma stream_pages_spec turn start stop M :
  turn_fits n P (a_sort q) turn -> (forall p w, (p.1 < n)%nat -> alive (W p.1) p.2 -> raw_row p = Some w -> len (pushed w) <= M) -> PAGE_BYTE_BUDGET + M <= MAX_SERVER_FRAME ->
  forall fuel page runs consumed, runs_ok runs -> runs_sorted gcmp (todos runs) -> stop <= consumed + len (rows runs) -> (N.to_nat (stop - consumed) < fuel)%nat ->
  exists wss ws, stream_pages q hd (prefixes n P) turn start stop (fun _ => guards n W) (fun _ => true) fuel page runs consumed
      = Some ((frame_bytes ∘ page_payload true <$> wss) ++ [frame_bytes (page_payload false ws)]) /\
    concat wss ++ ws = page_rows start consumed (take (N.to_nat (stop - consumed)) (rows runs)) /\
    Forall (fun ws => len ws <= PAGE_ROWS /\ len (page_payload true ws) <= MAX_SERVER_FRAME) wss /\
    len ws <= PAGE_ROWS /\ len (page_payload false ws) <= MAX_SERVER_FRAME.
Proof.
  intros Ht HM Hmax. induction fuel as [|fuel IH]; intros page runs consumed Hok Hs Hstop Hf; [lia|]. cbn [stream_pages].
  destruct (build_page_spec turn start stop M runs consumed Ht HM Hmax Hok Hs) as (k & runs' & -> & Hp & Hr & Hk & Hkr & Hok' & Hs' & El & Hpos). cbn [mbind option_bind negb orb].
  destruct (N.ltb_spec (consumed + N.of_nat k) stop) as [Hlt|Hge]; cbn [negb].
  - assert (Hk0 : (0 < k)%nat) by (apply Hpos; [lia|]; intros E; rewrite E in Hstop; unfold len in Hstop; cbn in Hstop; lia).
    destruct (IH (S page) runs' (consumed + N.of_nat k) Hok' Hs') as (wss & ws & -> & Ec & Hall & Hlast & Hlast').
    { rewrite El. unfold len in *. rewrite length_drop. lia. }
    { lia. }
    cbn [mbind option_bind]. exists (page_rows start consumed (take k (rows runs)) :: wss), ws. split; [done|]. split.
    + cbn [concat]. rewrite <- app_assoc, Ec, El.
      replace (N.to_nat (stop - consumed)) with (k + N.to_nat (stop - (consumed + N.of_nat k)))%nat by lia.
      rewrite <- take_take_drop, page_rows_app. do 2 f_equal. unfold len. rewrite length_take. lia.
    + split; [by constructor|done].
  - exists [], (page_rows start consumed (take k (rows runs))). cbn [fmap list_fmap app concat].
    replace k with (N.to_nat (stop - consumed)) in * by lia. done.
Qed.
End pages.

(** ** How long a row can be *)

Section lengths.
Context `{Unicode, Hasher}.

(** NTFS names have at most 255 UTF-16 units, of at most three bytes each. *)
Record names_short (v : VolumeIndex) (mount : list N) : Prop := {
  ns_name id : len (FolderPaths.v_raw (view_of v) id) <= 765;
  ns_mount : len mount <= 98304
}.

Lemma rel_path_len V c : (forall id, len (FolderPaths.v_raw V id) <= 765) -> len (rel_path V false c) <= 766 * len c.
Proof.
  intros Hn. induction c as [|x c IH]; [done|]. cbn [rel_path]. rewrite len_cons. destruct (x =? v_root V); [lia|].
  rewrite len_app. pose proof (Hn (v_name_id V x)) as Hx. unfold name_bytes. destruct (rel_path V false c) as [|y r]; [change (len (@nil N)) with 0; lia|].
  rewrite len_app. change (len [0x5C]) with 1. lia.
Qed.

(** The row that crosses a page's byte budget still fits a frame. *)
Lemma row_fits v mount e pp sz mt d : vol_ok v -> names_short v mount -> alive v e -> v_path_of (view_of v) e = Some pp -> forall id,
  len (push_item [] (mount ++ (match pp with [] => [] | _ => pp ++ [0x5C] end) ++ FolderPaths.v_raw (view_of v) id) d sz mt) <= 4194304.
Proof.
  intros Hv [Hn Hm] Ha Hp id. rewrite (view_path v Hv e Ha) in Hp. apply fmap_Some in Hp as (c & Hc & ->).
  assert (Hlc : len c <= MAX_PATH_HOPS).
  { unfold folder_chain in Hc. destruct (e =? NIL); [injection Hc as <-; done|]. apply walk_len in Hc as [Hc _]. unfold len. lia. }
  pose proof (rel_path_len (view_of v) c Hn) as Hr. pose proof (Hn id) as Hi. unfold MAX_PATH_HOPS in Hlc.
  assert (Hs : len (match rel_path (view_of v) false c with [] => [] | _ => rel_path (view_of v) false c ++ [0x5C] end) <= 766 * len c + 1).
  { destruct (rel_path _ _ _); [change (len (@nil N)) with 0; lia|]. rewrite len_app. change (len [0x5C]) with 1. lia. }
  unfold push_item. cbn [app]. rewrite !len_app, len_cons, len_app.
  assert (Hl : forall k x, len (le_encode k x) = N.of_nat k) by (intros; unfold len; by rewrite length_le_encode). rewrite Hl.
  destruct sz, mt; rewrite ?Hl; change (len (@nil N)) with 0; lia.
Qed.
End lengths.

(** ** The reply as the client reads it *)

Section reply.
Context `{Unicode, !UnicodeAscii, !UnicodeText, Hasher}.

Definition client_reads (payload : list N) (r : QueryResults) : Prop :=
  exists body, payload = RESP_TAG_RESULTS :: body /\ decode_results_payload body = Some (Ok r).

(** Rows [offset] to [offset + limit]. *)
Definition cut {A} (offset : N) (limit : option N) (l : list A) : list A :=
  let rest := drop (N.to_nat offset) l in match limit with Some k => take (N.to_nat k) rest | None => rest end.

Lemma cut_bounds {A} offset limit (l : list A) start stop : row_bounds (len l) offset limit = (start, stop) ->
  drop (N.to_nat start) (take (N.to_nat stop) l) = cut offset limit l /\ start <= stop <= len l.
Proof.
  unfold row_bounds, cut, len. intros [= <- <-]. split; [|destruct limit; lia]. destruct (N.le_gt_cases (N.of_nat (length l)) offset) as [Hge|Hlt].
  - rewrite !(drop_ge l) by lia. rewrite drop_ge by (rewrite length_take; destruct limit; lia). destruct limit; [by rewrite take_nil|done].
  - rewrite (N.min_l offset) by lia. destruct limit as [k|]; [|by rewrite take_ge by lia].
    rewrite take_drop_commute. destruct (N.le_gt_cases (offset + k) (N.of_nat (length l))).
    + do 2 f_equal. lia.
    + rewrite !take_ge by lia. done.
Qed.

#[local] Instance volume_inhabited : Inhabited VolumeIndex := populate with_a.

Context (vs : list VolumeIndex) (mounts : list (list N)) (q : Asked) (hd : Header).
Notation n := (length vs).
Notation W := (fun i => vs !!! i).
Notation P := (fun i => mounts !!! i).

(** All rows of the volumes, in the order of the sort. *)
Definition merged_rows (alls : list (list N)) : list (nat * N) := TopK.sort (merged_cmp W P (a_sort q)) (tagged alls).

(** How a row is shown. *)
Definition shown_row (p : nat * N) : option ResultItem := shown <$> raw_row W P q p.

(** What is asked of the volumes and of the rows found on them: [alls] are all
    matches of each, [found] the first [K] in order. *)
Record searched (K : nat) (alls : list (list N)) (found : list (list HitRef)) : Prop := {
  sd_mounts : length mounts = n;
  sd_alls : length alls = n;
  sd_fits i v p : vs !! i = Some v -> mounts !! i = Some p -> volume_fits v p /\ names_short v p;
  sd_rows i v all : vs !! i = Some v -> alls !! i = Some all -> NoDup all /\ Forall (fun e => row_ok v (hit_ref (view_of v) e)) all;
  sd_found : found = zip_with (fun v all => hit_ref (view_of v) <$> take K (sorted_rows (view_of v) (a_sort q) all)) vs alls
}.

Lemma list_of_total {A} `{Inhabited A} (l : list A) : (fun i => l !!! i) <$> seq 0 (length l) = l.
Proof.
  apply list_eq. intros i. rewrite list_lookup_fmap. destruct (decide (i < length l)%nat) as [Hi|Hi].
  - rewrite lookup_seq_lt by done. simpl. symmetry. by apply list_lookup_lookup_total_lt.
  - rewrite lookup_seq_ge, (lookup_ge_None_2 l) by lia. done.
Qed.

Section searched.
Context (K : nat) (alls : list (list N)) (found : list (list HitRef)) (Hs : searched K alls found).

Lemma sd_volume i : (i < n)%nat -> volume_fits (W i) (P i) /\ names_short (W i) (P i).
Proof.
  intros Hi. apply (sd_fits K alls found Hs i); apply list_lookup_lookup_total_lt; [done|]. by rewrite (sd_mounts _ _ _ Hs).
Qed.

(** The runs, as lists of entries. *)
Definition cut_runs : list (list N) := imap (fun i all => take K (sorted_rows (view_of (W i)) (a_sort q) all)) alls.
Definition full_runs : list (list N) := imap (fun i all => sorted_rows (view_of (W i)) (a_sort q) all) alls.

Lemma found_at i refs : found !! i = Some refs -> exists all, alls !! i = Some all /\ (i < n)%nat /\
  refs = hit_ref (view_of (W i)) <$> take K (sorted_rows (view_of (W i)) (a_sort q) all) /\ NoDup all /\ Forall (fun e => row_ok (W i) (hit_ref (view_of (W i)) e)) all.
Proof.
  rewrite (sd_found _ _ _ Hs), lookup_zip_with. intros (v & Hv & (all & Ha & [= <-])%bind_Some)%bind_Some. exists all.
  pose proof (lookup_lt_Some _ _ _ Hv) as Hi. rewrite (list_lookup_total_correct _ _ _ Hv). split; [done|]. split; [done|]. split; [done|]. by apply (sd_rows _ _ _ Hs i).
Qed.

Lemma start_runs : runs_ok n W P (run_new <$> found) /\ todo <$> (run_new <$> found) = cut_runs.
Proof.
  assert (Hlen : length found = n) by (rewrite (sd_found _ _ _ Hs), length_zip_with, (sd_alls _ _ _ Hs); lia). split.
  - split; [by rewrite length_fmap|]. intros i r (refs & -> & Hr)%list_lookup_fmap_Some. destruct (found_at i refs Hr) as (all & Ha & Hi & -> & _ & Hrow).
    apply (run_new_ok n W P); [done|]. apply Forall_fmap. apply Forall_take. rewrite Forall_forall in *. intros e He. apply Hrow.
    unfold sorted_rows in He. by rewrite merge_sort_Permutation in He.
  - unfold cut_runs. apply list_eq. intros i. rewrite !list_lookup_fmap, list_lookup_imap. destruct (alls !! i) as [all|] eqn:Ea; simpl.
    + destruct (lookup_lt_is_Some_2 found i) as [refs Hr]; [apply lookup_lt_Some in Ea; rewrite (sd_alls _ _ _ Hs) in Ea; lia|]. rewrite Hr. simpl. f_equal.
      destruct (found_at i refs Hr) as (all' & Ha & _ & -> & _). rewrite Ea in Ha. injection Ha as <-. unfold todo. cbn [run_new r_pos r_refs]. change (N.to_nat 0) with 0%nat.
      rewrite drop_0, <- list_fmap_compose. apply list_fmap_id.
    + apply lookup_ge_None_1 in Ea. rewrite (lookup_ge_None_2 found) by (rewrite (sd_alls _ _ _ Hs) in Ea; lia). done.
Qed.

Lemma full_sorted : runs_sorted (merged_cmp W P (a_sort q)) full_runs.
Proof.
  intros i l. unfold full_runs. rewrite list_lookup_imap. intros (all & Ha & ->)%fmap_Some.
  assert (Hi : (i < n)%nat) by (apply lookup_lt_Some in Ha; by rewrite (sd_alls _ _ _ Hs) in Ha).
  destruct (sd_rows _ _ _ Hs i (W i) all) as [Hnd Hrow]; [by apply list_lookup_lookup_total_lt|done|]. set (V := view_of (vs !!! i)) in *.
  assert (Hperm : sorted_rows V (a_sort q) all ≡ₚ all) by apply merge_sort_Permutation.
  unfold run_sorted. apply (sorted_mono (fun a b => cmp_le (row_cmp V (a_sort q)) a b /\ a <> b)).
  2: { apply sorted_strict; [by rewrite Hperm|]. apply (sort_sorted (row_cmp V (a_sort q))). }
  intros a b Ha' Hb' [Hle Hne]. cbv beta.
  rewrite Hperm in Ha', Hb'. rewrite Forall_forall in Hrow.
  rewrite (merged_same n W P (a_sort q) (fun i Hi => proj1 (sd_volume i Hi)) i (hit_ref V a) (hit_ref V b) Hi (Hrow a Ha') (Hrow b Hb') : merged_cmp W P (a_sort q) (i, a) (i, b) = _).
  unfold cmp_le in Hle. change (h_idx (hit_ref V a)) with a. change (h_idx (hit_ref V b)) with b. fold V.
  destruct (row_cmp V (a_sort q) a b) eqn:Ec; [|done|done]. by apply (cmp_eq a b) in Ec.
Qed.

Lemma cut_sorted : runs_sorted (merged_cmp W P (a_sort q)) cut_runs.
Proof.
  intros i l. unfold cut_runs. rewrite list_lookup_imap. intros (all & Ha & ->)%fmap_Some. apply run_sorted_cut, full_sorted.
  unfold full_runs. by rewrite list_lookup_imap, Ha.
Qed.

Lemma full_merged : TopK.sort (merged_cmp W P (a_sort q)) (tagged full_runs) = merged_rows alls.
Proof.
  unfold merged_rows. apply (sort_tagged_perm (merged_cmp W P (a_sort q))). unfold full_runs. apply Forall2_same_length_lookup. split; [by rewrite length_imap|].
  intros i l all. rewrite list_lookup_imap. intros (all0 & -> & ->)%fmap_Some [= <-]. apply merge_sort_Permutation.
Qed.

(** The runs hold enough rows for the reply. *)
Lemma cut_enough offset limit : (forall all, all ∈ alls -> (length all <= K)%nat) \/ (exists l, limit = Some l /\ (N.to_nat (offset + l) <= K)%nat) ->
  cut offset limit (TopK.sort (merged_cmp W P (a_sort q)) (tagged cut_runs)) = cut offset limit (merged_rows alls).
Proof.
  rewrite <- full_merged. intros [Hfit|(l & -> & Hk)].
  - do 3 f_equal. unfold cut_runs, full_runs. apply imap_ext. intros i all Ha. apply take_ge. rewrite (merge_sort_Permutation _ all : Permutation (sorted_rows _ _ _) _). apply Hfit. by eapply list_elem_of_lookup_2.
  - unfold cut. rewrite !take_drop_commute. f_equal. pose proof (merge_cut (merged_cmp W P (a_sort q)) K full_runs full_sorted) as E.
    assert (Ec : take K <$> full_runs = cut_runs).
    { unfold full_runs, cut_runs. apply list_eq. intros i. rewrite list_lookup_fmap, !list_lookup_imap. by destruct (alls !! i). }
    rewrite Ec in E. apply (f_equal (take (N.to_nat offset + N.to_nat l))) in E. rewrite !take_take, !Nat.min_l in E by lia. exact E.
Qed.

Notation Hvol := (fun i Hi => proj1 (sd_volume i Hi)).

Lemma no_path_of_nil v : vol_ok v -> v_path_of (view_of v) NIL = None.
Proof.
  intros [I _]. pose proof (i_cols _ _ _ _ _ _ _ I) as Hc. unfold cols_ok in Hc.
  assert (E : getN NIL (c_flags (entries v)) = None) by (unfold getN; apply lookup_ge_None_2; unfold len in Hc; lia).
  simpl. unfold run, path_of, st_bind, ent, st_zoom, is_tombstone, st_bind, flags, st_read. by rewrite E.
Qed.

Lemma row_short p w : (p.1 < n)%nat -> alive (W p.1) p.2 -> raw_row W P q p = Some w -> len (pushed w) <= 4194304.
Proof.
  intros Hi Ha. destruct (sd_volume p.1 Hi) as [[Hok _ _ _ _] Hsh]. unfold raw_row. intros (pp & Hpp & [= <-])%bind_Some. unfold pushed. cbn [ri_path ri_is_dir ri_size ri_mtime].
  eapply row_fits; [exact Hok|exact Hsh| |exact Hpp]. destruct (view_parent _ Hok p.2) as [Hn|Hp]; [by apply in_live| |by apply in_live].
  exfalso. cbv beta in Hpp. rewrite Hn, no_path_of_nil in Hpp; done.
Qed.

Lemma row_raw_ok p w : (p.1 < n)%nat -> alive (W p.1) p.2 -> raw_row W P q p = Some w -> raw_ok w.
Proof.
  intros Hi Ha Hw. pose proof (row_short p w Hi Ha Hw) as Hl. destruct (sd_volume p.1 Hi) as [[Hok Hf _ _ _] _]. pose proof (view_sorts _ Hok Hf) as Hso.
  unfold raw_row in Hw. apply bind_Some in Hw as (pp & _ & [= <-]). unfold raw_ok, pushed, push_item in *. cbn [ri_path ri_is_dir ri_size ri_mtime] in *. split_and!.
  - cbn [app] in Hl. rewrite !len_app in Hl. rewrite !len_app. lia.
  - destruct (a_want_size q); [|done]. intros s Hs'. assert (s < u64_max) by (apply (po_size p.2 s); [by apply in_live|done]). unfold u64_max in *. lia.
  - destruct (a_want_mtime q); [|done]. intros t Ht'. assert ((i64_min < t <= i64_max)%Z) by (apply (po_mtime p.2 t); [by apply in_live|done]). unfold in_i64. lia.
Qed.

Lemma cut_run_row p : p ∈ tagged cut_runs -> (p.1 < n)%nat /\ alive (W p.1) p.2.
Proof.
  destruct p as [i x]. intros (l & Hl & Hx)%elem_of_tagged. unfold cut_runs in Hl. rewrite list_lookup_imap in Hl. apply fmap_Some in Hl as (all & Ha & ->).
  assert (Hi : (i < n)%nat) by (apply lookup_lt_Some in Ha; by rewrite (sd_alls _ _ _ Hs) in Ha). split; [done|].
  destruct (sd_rows _ _ _ Hs i (W i) all) as [_ Hrow]; [by apply list_lookup_lookup_total_lt|done|]. rewrite Forall_forall in Hrow.
  apply (rw_live _ _ (Hrow x ltac:(apply subseteq_take in Hx; by rewrite (merge_sort_Permutation _ all : Permutation (sorted_rows _ _ _) _) in Hx))).
Qed.

(** The page of these rows, as its reader has it. *)
Definition page_results (mo : bool) (ws : list RawItem) : QueryResults :=
  {| Binary.total := hd_total hd; items := shown <$> ws; more := mo; volumes_incomplete := hd_incomplete hd; metadata_pending := hd_pending hd;
     Binary.generation := 0; Binary.total_size := hd_total_size hd |}.

Lemma page_reads mo ws : hd_total hd < 18446744073709551616 -> (forall s, hd_total_size hd = Some s -> s < 18446744073709551616) ->
  Forall raw_ok ws -> len ws <= PAGE_ROWS -> len (page_payload hd mo ws) <= MAX_SERVER_FRAME ->
  client_reads (page_payload hd mo ws) (page_results mo ws) /\ payload_ok MAX_SERVER_FRAME (page_payload hd mo ws).
Proof.
  intros Ht Hts Hws Hl Hp. assert (Hm : MAX_SERVER_FRAME = 16777216) by reflexivity. split.
  - unfold client_reads, page_payload, page_results in *. apply decode_pushed; try done; [unfold PAGE_ROWS in Hl; lia|unfold usize_max, u64_max; lia].
  - split; [unfold u32_max; lia|done].
Qed.

Lemma length_concat_fmap {A B} (f : A -> B) (ls : list (list A)) : length (concat (map (map f) ls)) = length (concat ls).
Proof. induction ls as [|l ls IH]; [done|]. cbn [map concat]. by rewrite !length_app, length_map, IH. Qed.

Lemma cut_runs_found : cut_runs = map (map h_idx) found.
Proof.
  destruct start_runs as [_ <-]. rewrite <- list_fmap_compose. apply list_fmap_ext. intros i refs _. unfold compose, todo. cbn [run_new r_pos r_refs].
  change (N.to_nat 0) with 0%nat. by rewrite drop_0.
Qed.

Lemma omap_raw_ok (l : list (nat * N)) : (forall p, p ∈ l -> p ∈ tagged cut_runs) -> Forall raw_ok (omap (raw_row W P q) l).
Proof.
  intros Hl. apply Forall_forall. intros w (p & Hp & Hw)%list_elem_of_omap. destruct (cut_run_row p (Hl p Hp)) as [Hi Ha]. by apply (row_raw_ok p).
Qed.

Lemma omap_shown (l : list (nat * N)) : shown <$> omap (raw_row W P q) l = omap shown_row l.
Proof. induction l as [|p l IH]; [done|]. cbn [omap list_omap]. unfold shown_row at 1. destruct (raw_row W P q p); [cbn; f_equal|]; exact IH. Qed.

Lemma reply_spec offset limit :
  (forall all, all ∈ alls -> (length all <= K)%nat) \/ (exists l, limit = Some l /\ (N.to_nat (offset + l) <= K)%nat) ->
  hd_total hd < 18446744073709551616 -> (forall s, hd_total_size hd = Some s -> s < 18446744073709551616) ->
  exists payloads results, stream_rows q hd mounts offset limit (fun _ => vs) (fun _ => true) found = Some (frame_bytes <$> payloads) /\
    Forall (payload_ok MAX_SERVER_FRAME) payloads /\ Forall2 client_reads payloads results /\
    concat (items <$> results) = omap shown_row (cut offset limit (merged_rows alls)) /\
    more <$> results = replicate (pred (length results)) true ++ [false] /\
    Forall (fun r => Binary.total r = hd_total hd /\ Binary.total_size r = hd_total_size hd /\ volumes_incomplete r = hd_incomplete hd /\
      metadata_pending r = hd_pending hd /\ len (items r) <= PAGE_ROWS) results /\
    Forall (fun r => Binary.generation r = 0 /\ Forall (fun i => forall s, Binary.size i = Some s -> s < 18446744073709551616) (items r)) results.
Proof.
  intros Henough Ht Hts. unfold stream_rows. destruct start_runs as [Hok Etd]. set (R := TopK.sort (merged_cmp W P (a_sort q)) (tagged cut_runs)).
  assert (Ens : len (concat found) = len R).
  { unfold len, R. by rewrite length_sort, length_tagged, cut_runs_found, length_concat_fmap. }
  rewrite Ens. destruct (row_bounds (len R) offset limit) as [start stop] eqn:Eb. destruct (cut_bounds offset limit R start stop Eb) as [Ecut Hbd].
  set (turn := match key (a_sort q) with Path => _ | _ => None end).
  assert (Em : prefixes n P = mounts) by (unfold prefixes; rewrite <- (sd_mounts _ _ _ Hs); apply list_of_total).
  assert (Eg : guards n W = vs) by apply list_of_total.
  assert (Htf : turn_fits n P (a_sort q) turn).
  { intros t Et. subst turn. destruct (key (a_sort q)) eqn:Ek; try done. split; [done|]. apply (turn_spec n W P). rewrite Em. exact Et. }
  destruct (stream_pages_spec n W P q Hvol hd turn start stop 4194304 Htf row_short ltac:(vm_compute; discriminate) (S (N.to_nat (len R))) 0 (run_new <$> found) 0)
    as (wss & ws & E & Ec & Hall & Hlast & Hlast'); [done|rewrite Etd; apply cut_sorted|rewrite Etd; fold R; lia|lia|].
  rewrite Em, Eg in E. rewrite Etd in Ec. fold R in Ec. unfold page_rows in Ec. rewrite !N.sub_0_r, Ecut in Ec.
  assert (Hraw : Forall raw_ok (concat wss ++ ws)).
  { rewrite Ec. apply omap_raw_ok. intros p Hp. rewrite <- Ecut in Hp. apply subseteq_drop, subseteq_take in Hp. unfold R in Hp. by rewrite sort_perm in Hp. }
  apply Forall_app in Hraw as [Hraw Hraww]. apply Forall_concat in Hraw.
  exists ((page_payload hd true <$> wss) ++ [page_payload hd false ws]), ((page_results true <$> wss) ++ [page_results false ws]).
  destruct (page_reads false ws Ht Hts Hraww Hlast Hlast') as [Hr Hpo].
  assert (Hboth : Forall (fun ws => client_reads (page_payload hd true ws) (page_results true ws) /\ payload_ok MAX_SERVER_FRAME (page_payload hd true ws)) wss).
  { rewrite Forall_forall in *. intros w Hw. destruct (Hall w Hw). by apply page_reads; [..|apply Hraw| |]. }
  split; [rewrite E, fmap_app, <- list_fmap_compose; done|]. split_and!.
  - apply Forall_app. split; [|by apply Forall_singleton]. apply Forall_fmap. eapply Forall_impl; [exact Hboth|]. by intros w [_ ?].
  - apply Forall2_app; [|constructor; [done|constructor]]. apply Forall2_fmap, Forall_Forall2_diag. eapply Forall_impl; [exact Hboth|]. by intros w [? _].
  - rewrite <- (cut_enough offset limit Henough). fold R. rewrite <- omap_shown, <- Ec, !fmap_app, <- list_fmap_compose. cbn [fmap list_fmap items page_results].
    rewrite concat_app. cbn [concat]. rewrite app_nil_r. f_equal. clear. induction wss as [|w wss IH]; [done|]. cbn [fmap list_fmap concat]. by rewrite fmap_app, <- IH.
  - rewrite fmap_app, <- list_fmap_compose, length_app, length_fmap. cbn [length]. rewrite Nat.add_1_r. cbn [pred]. f_equal.
    clear. induction wss as [|w wss IH]; [done|]. cbn [fmap list_fmap length replicate]. by rewrite <- IH.
  - assert (Hl : forall mo w, len w <= PAGE_ROWS -> len (items (page_results mo w)) <= PAGE_ROWS) by (intros mo w; cbn [items page_results]; unfold len; by rewrite length_fmap).
    apply Forall_app. split; [|apply Forall_singleton; split_and!; try done; by apply Hl]. apply Forall_fmap. eapply Forall_impl; [exact Hall|]. intros w [Hw _].
    unfold compose. split_and!; try done. by apply Hl.
  - assert (Hz : forall mo ws, Forall raw_ok ws -> Binary.generation (page_results mo ws) = 0 /\
      Forall (fun i => forall s, Binary.size i = Some s -> s < 18446744073709551616) (items (page_results mo ws))).
    { intros mo w Hw. split; [done|]. apply Forall_fmap. eapply Forall_impl; [exact Hw|]. by intros x (_ & Hx & _). }
    apply Forall_app. split; [|apply Forall_singleton; by apply Hz]. apply Forall_fmap. eapply Forall_impl; [exact Hraw|]. intros w Hw. by apply Hz.
Qed.
End searched.
End reply.
