(* ===== verification/Server.v ===== *)
(** The query server: which volumes a request reaches, their scopes, the search
    of each and the reply, from [crates/goz-daemon/src/server.rs], and the
    volumes it serves, from [crates/goz-daemon/src/volume_state.rs].

    A query reads each volume at its own time: [volumes] holds each volume as it
    is when its turn comes, [world] what the checks of its search see, [began]
    when it started; [later n i] is volume [i]'s index while page [n] is built. *)

From stdpp Require Import gmap.
From stdpp Require Import base option list sets sorting.
From Stdlib Require Ascii String.
From Stdlib Require Import NArith ZArith Lia.
From S2P Require Import Prelude Types Wtf8 Fold Text Dates Budget Query FrnMap NameStore NameOrder EntryTable Volume Scope Prefilter Compiled FolderPaths TopK Engine FolderRank NameLevel EngineView Frame Binary Proto Output Page Stream.
Import String.StringSyntax.

(** ** Volumes *)

Record ScopeCache := { sc_rel : list N; sc_entry : N }.

Record VolumeState := {
  guid : list N;
  mounts : list (list N);
  index : VolumeIndex;
  phase : VolumePhase;
  st_metadata_pending : bool;
  journal_max_bytes : option N;
  indexed : bool;
  scope_cache : option ScopeCache
}.

Definition mount_prefix (v : VolumeState) : list N := match mounts v with m :: _ => m | [] => guid v end.
Definition with_scope_cache (c : option ScopeCache) (v : VolumeState) : VolumeState :=
  {| guid := guid v; mounts := mounts v; index := index v; phase := phase v; st_metadata_pending := st_metadata_pending v;
     journal_max_bytes := journal_max_bytes v; indexed := indexed v; scope_cache := c |}.

(** [VolumeState::found]. *)
Definition found_volume `{Unicode, Hasher} (g : list N) (ms : list (list N)) : option VolumeState :=
  i ← Volume.new NTFS_ROOT_FRN FrnMap.sparse;
  Some {| guid := g; mounts := ms; index := i; phase := Bootstrapping; st_metadata_pending := false; journal_max_bytes := None;
          indexed := false; scope_cache := None |}.

(** ** Scopes *)

Definition is_sep (b : N) : bool := (b =? 0x5C) || (b =? 0x2F).

(** [trim_end_matches] of separators, and [trim_start_matches]. *)
Fixpoint trim_start (s : list N) : list N := match s with b :: s' => if is_sep b then trim_start s' else s | [] => [] end.
Definition trim_end (s : list N) : list N := reverse (trim_start (reverse s)).

Definition starts_with_ci (haystack prefix : list N) : bool :=
  (len prefix <=? len haystack) &&
  bool_decide (map Fold.to_ascii_lowercase (take (length prefix) haystack) = map Fold.to_ascii_lowercase prefix).

Definition scope_under (path prefix : list N) : option N :=
  let folder := trim_end prefix in
  if negb (starts_with_ci path folder) then None
  else match getN (len folder) path with
       | None => Some (len folder)
       | Some b => if is_sep b then Some (len folder) else None
       end.

Inductive VolScope := All | Rel (rel : list N).

(** [max_by_key]: the last of the greatest. *)
Fixpoint max_by_at (best : option (nat * N)) (l : list (nat * N)) : option (nat * N) :=
  match l with
  | [] => best
  | (i, at_) :: l => max_by_at (match best with Some (_, b) => if at_ <? b then best else Some (i, at_) | None => Some (i, at_) end) l
  end.

(** The first byte that is no separator, and the last. *)
Fixpoint first_plain (s : list N) (i : N) : option N :=
  match s with [] => None | b :: s => if is_sep b then first_plain s (i + 1) else Some i end.
Fixpoint last_plain (s : list N) (i : N) : option N :=
  match s with
  | [] => None
  | b :: s => match last_plain s (i + 1) with Some j => Some j | None => if is_sep b then None else Some i end
  end.

(** [targets]: the volumes by their number in the set. *)
Definition targets (volumes : list VolumeState) (scope : option (list N)) : list (nat * VolScope) :=
  match scope with
  | None => (fun i => (i, All)) <$> seq 0 (length volumes)
  | Some path =>
      let under := omap (fun '(i, v) => (fun at_ => (i, at_)) <$> scope_under path (mount_prefix v)) (zip (seq 0 (length volumes)) volumes) in
      match max_by_at None under with
      | None => []
      | Some (i, at_) =>
          let raw := drop (N.to_nat at_) path in
          let start := default (len raw) (first_plain raw 0) in
          let stop := match last_plain raw 0 with Some j => j + 1 | None => start end in
          [(i, Rel (slice start (stop - start) raw))]
      end
  end.

Section scopes.
Context `{Unicode, Hasher}.

Definition scope_entry_valid (v : VolumeIndex) (entry : N) (rel : list N) : option bool :=
  r ← look v (path_of entry []);
  Some (match r with (PathOk, buf) => bool_decide (fold buf = fold rel) | _ => false end).

(** [resolve_scope_cached], with the volume's cache after it. *)
Definition resolve_scope_cached (vol : VolumeState) (rel : list N) (match_case : bool) : option (option N * VolumeState) :=
  let fresh :=
    e ← look (index vol) (resolve_scope rel match_case);
    Some (e, match e with
             | Some e => if match_case then vol else with_scope_cache (Some {| sc_rel := rel; sc_entry := e |}) vol
             | None => vol
             end) in
  match scope_cache vol with
  | Some sc =>
      if negb match_case && bool_decide (sc_rel sc = rel) then
        ok ← scope_entry_valid (index vol) (sc_entry sc) rel;
        if (ok : bool) then Some (Some (sc_entry sc), vol) else fresh
      else fresh
  | None => fresh
  end.
End scopes.

(** ** A query *)

(** [QueryError]'s messages. *)
Definition display_query_error (e : QueryError) : list N :=
  match e with
  | UnsupportedOperator c =>
      str "operator '" ++ encode_code_point c ++ str "' is not supported yet; quote it to search for it literally (e.g. " ++ [QUOTE] ++ str "a" ++
      encode_code_point c ++ str "b" ++ [QUOTE] ++ str ")"
  | Malformed what detail => str "malformed " ++ what ++ str ": " ++ detail
  | TooManyTerms n => str "the query has " ++ dec (N.of_nat n) ++ str " terms; a query may have at most " ++ dec (N.of_nat MAX_QUERY_TERMS)
  | UnknownFunction f =>
      str "unknown search function '" ++ f ++ str "'; goz supports ext:, size:, dm:, path:, file:, folder:, dir:, case: and matchpath:"
  | NoClock => str "dm: needs a clock to resolve dates against, and this query was parsed without one"
  end.

Definition stopped_message (prefix : list N) (secs : N) : list N :=
  str "the query was stopped after searching " ++ prefix ++ str " for " ++ dec secs ++ str " s, the most one query may search a volume".

(** What a search of the volumes has found so far. *)
Record Found := {
  f_refs : list (list HitRef);
  f_vols : list nat;
  f_total : N;
  f_size : option N;
  f_incomplete : bool;
  f_pending : bool
}.

Inductive Search := Complete (f : Found) | StoppedOn (i : nat).

Section query.
Context `{Unicode, Hasher} {M : Memchr} {Sel : Select} {Srt : SortUnstable} {Pl : Pool} {J : SerdeJson}.
Context (world : nat -> Env) (began : nat -> N).

(** The scope's entry on a volume: [None] when the volume has no such folder. *)
Definition scope_entry (parsed : ParsedQuery) (scope : VolScope) (vol : VolumeState) : option (option (option N) * VolumeState) :=
  match scope with
  | All => Some (Some None, vol)
  | Rel rel => 
      match resolve_scope_cached vol rel (match_case parsed) with Some (e, vol) => Some (option_map Some e, vol) | None => None end
  end.

Definition add_outcome (i : nat) (o : RefOutcome) (f : Found) : Found :=
  let some := match refs o with [] => false | _ => true end in
  {| f_refs := if some then f_refs f ++ [refs o] else f_refs f;
     f_vols := if some then f_vols f ++ [i] else f_vols f;
     f_total := f_total f + Page.total o;
     f_size := match f_size f, Page.total_size o with
               | Some sum, Some size => Some (saturating_add sum size)
               | sum, _ => sum
               end;
     f_incomplete := f_incomplete f; f_pending := f_pending f |}.

Definition with_flags (vol : VolumeState) (f : Found) : Found :=
  {| f_refs := f_refs f; f_vols := f_vols f; f_total := f_total f; f_size := f_size f;
     f_incomplete := f_incomplete f || negb (is_complete (phase vol)); f_pending := f_pending f || st_metadata_pending vol |}.

(** One volume: its flags, its scope and its matches. *)
Definition search_volume (q : QueryRequest) (parsed : ParsedQuery) (budget : N) (per_vol_limit : option N) (i : nat) (scope : VolScope)
    (vol : VolumeState) (f : Found) : option (result Stopped Found * VolumeState) :=
  let f := with_flags vol f in
  r ← scope_entry parsed scope vol;
  let '(entry, vol) := r in
  match entry with
  | None => Some (Ok f, vol)
  | Some entry =>
      a ← run_query_refs (E := world i) (view_of (index vol)) (mount_prefix vol) parsed entry (qr_sort q) 0 per_vol_limit (qr_want_total_size q)
        (until (began i + budget));
      match a.1 with
      | Err s => Some (Err s, vol)
      | Ok o => Some (Ok (add_outcome i o f), vol)
      end
  end.

Fixpoint search_loop (q : QueryRequest) (parsed : ParsedQuery) (budget : N) (per_vol_limit : option N) (ts : list (nat * VolScope))
    (volumes : list VolumeState) (f : Found) : option (Search * list VolumeState) :=
  match ts with
  | [] => Some (Complete f, volumes)
  | (i, scope) :: ts =>
      vol ← volumes !! i;
      '(r, vol) ← search_volume q parsed budget per_vol_limit i scope vol f;
      let volumes := <[i := vol]> volumes in
      match r with
      | Err _ => Some (StoppedOn i, volumes)
      | Ok f => search_loop q parsed budget per_vol_limit ts volumes f
      end
  end.

Definition found_start (q : QueryRequest) : Found :=
  {| f_refs := []; f_vols := []; f_total := 0; f_size := if qr_want_total_size q then Some 0 else None; f_incomplete := false; f_pending := false |}.

Definition asked (q : QueryRequest) : Asked := {| a_sort := qr_sort q; a_want_size := qr_want_size q; a_want_mtime := qr_want_mtime q |}.
Definition header_of (f : Found) : Header :=
  {| hd_total := f_total f; hd_incomplete := f_incomplete f; hd_pending := f_pending f; hd_total_size := f_size f |}.

(** Rows each volume is asked for: [u32::saturating_add]. *)
Definition volume_limit (q : QueryRequest) : option N := (fun l => N.min (qr_offset q + l) u32_max) <$> qr_limit q.

(** [stream_query_binary], as the frames it emits.  [cancelled] is whether the
    client had gone when a search stopped. *)
Definition stream_query_binary (clock : LocalClock) (volumes : list VolumeState) (q : QueryRequest) (budget : N) (cancelled : bool)
    (later : nat -> nat -> VolumeIndex) (emit : nat -> bool) : option (list (list N) * list VolumeState) :=
  match parse_query_at (qr_query q) (qr_match_case q) clock with
  | Err e => out ← encode_response_frame (Error BadQuery (display_query_error e)) []; Some ([out], volumes)
  | Ok parsed =>
      '(r, volumes) ← search_loop q parsed budget (volume_limit q) (targets volumes (qr_scope q)) volumes (found_start q);
      match r with
      | StoppedOn i =>
          if cancelled then Some ([], volumes)
          else
            vol ← volumes !! i;
            out ← encode_response_frame (Error BadQuery (stopped_message (mount_prefix vol) budget)) [];
            Some ([out], volumes)
      | Complete f =>
          prefixes ← mapM (fun i => mount_prefix <$> (volumes !! i : option VolumeState)) (f_vols f);
          frames ← stream_rows (asked q) (header_of f) prefixes (qr_offset q) (qr_limit q) (fun page => later page <$> f_vols f) emit (f_refs f);
          Some (frames, volumes)
      end
  end.
End query.

(** ** Other requests *)

Section requests.
Context `{Unicode, Hasher}.

(** What the allocator and the system say of memory. *)
Class MemoryReport := { index_memory : VolumeIndex -> VolumeMemory; self_memory : option (N * N) }.
Context {Mem : MemoryReport}.

Definition all_volumes_live (volumes : list VolumeState) : bool := forallb (fun v => is_complete (phase v)) volumes.

(** [hello]; [version] is the package's version. *)
Definition hello (version : list N) (volumes : list VolumeState) (proto_min proto_max : N) : Response :=
  if (PROTO_VERSION <? proto_min) || (proto_max <? PROTO_VERSION) then
    Error Unsupported (str "client speaks protocol " ++ dec proto_min ++ str "..=" ++ dec proto_max ++ str "; this daemon speaks " ++ dec PROTO_VERSION)
  else Hello PROTO_VERSION (str "gozd " ++ version) (all_volumes_live volumes).

Definition volume_status (v : VolumeState) : option VolumeStatus :=
  orphans ← look (index v) has_orphans;
  let s := stats (index v) in
  Some {| vs_guid := guid v; vs_mounts := mounts v; vs_phase := phase v; vs_entries := vlen (index v); vs_generation := Volume.generation (index v);
          vs_metadata_pending := st_metadata_pending v; vs_journal_max_bytes := journal_max_bytes v; vs_has_orphans := orphans;
          vs_has_parent_cycle := has_parent_cycle (index v); vs_names_waiting := len (unranked (names (index v)));
          vs_placeholders_created := placeholders_created s; vs_delete_of_unknown := delete_of_unknown s; vs_stale_slots := stale_slots s;
          vs_link_reconciles_dropped := link_reconciles_dropped s; vs_memory := Some (index_memory (index v)) |}.

Definition build_status (volumes : list VolumeState) : option DaemonStatus :=
  vols ← mapM volume_status volumes;
  Some {| ds_volumes := vols; ds_volumes_incomplete := existsb (fun v => negb (is_complete (phase v))) volumes;
          ds_process_working_set := match self_memory with Some (w, _) => w | None => 0 end;
          ds_process_private_bytes := match self_memory with Some (_, p) => p | None => 0 end |}.

(** [handle_request]: a query does not come here. *)
Definition handle_request (version : list N) (volumes : list VolumeState) (req : Request) : option Response :=
  match req with
  | RHello lo hi _ => Some (hello version volumes lo hi)
  | RStatus => Status <$> build_status volumes
  | RQuery _ => None
  end.
End requests.

(** ** Counting log lines *)

Record Throttle := { t_period : N; t_since_line : N; t_last_line : option N }.
Definition throttle_new (period : N) : Throttle := {| t_period := period; t_since_line := 0; t_last_line := None |}.

(** [hit]: [Instant::duration_since] stops at zero. *)
Definition hit_throttle (now : N) (t : Throttle) : option N * Throttle :=
  let since := t_since_line t + 1 in
  if match t_last_line t with Some l => now - l <? t_period t | None => false end
  then (None, {| t_period := t_period t; t_since_line := since; t_last_line := t_last_line t |})
  else (Some since, {| t_period := t_period t; t_since_line := 0; t_last_line := Some now |}).

Definition flush_throttle (now : N) (t : Throttle) : option N * Throttle :=
  if t_since_line t =? 0 then (None, t)
  else (Some (t_since_line t), {| t_period := t_period t; t_since_line := 0; t_last_line := Some now |}).
