(* ===== verification/ServerQuery.v ===== *)
(** A query over all volumes answers exactly their matches: the search of each
    volume, the merge of the runs and the pages composed. *)

From stdpp Require Import gmap.
From stdpp Require Import base option list sets sorting.
From Stdlib Require Import NArith ZArith Lia.
From S2P Require Import Prelude Types Wtf8 Fold Text Dates Budget Wildcard Query FrnMap NameStore NameOrder EntryTable Volume VolumeInv VolumeNew Scope Prefilter Compiled FolderPaths TopK Engine FolderRank FolderTree NameLevel EngineView Frame Binary Proto Page Merge Stream StreamRead StreamMerge StreamPages Server.

Section answers.
Context `{Unicode, !UnicodeAscii, !UnicodeText, Hasher} {M : Memchr} {Mok : MemchrOk M} {Sel : Select} {Sell : SelectOk Sel}.
Context {Srt : SortUnstable} {Sok : SortUnstableOk Srt} {Pl : Pool} {Pool_ok : PoolOk Pl} {J : SerdeJson}.
Notation view vol := (view_of (index vol)).

(** What a volume is to satisfy for a query. *)
Record served (parsed : ParsedQuery) (vol : VolumeState) : Prop := {
  sv_fits : volume_fits (index vol) (mount_prefix vol);
  sv_short : names_short (index vol) (mount_prefix vol);
  sv_query : query_fits (view vol) parsed (mount_prefix vol);
  sv_paths e : v_may_have_unpresentable (view vol) = false -> alive (index vol) e -> v_synthetic (view vol) e = false ->
    is_Some (v_path_of (view vol) (v_parent (view vol) e))
}.

(** The matches of a query on a volume. *)
Definition matches (parsed : ParsedQuery) (vol : VolumeState) (scope : option N) (e : N) : Prop :=
  hit (view vol) parsed (mount_prefix vol) (real_scope (view vol) scope) e.

Definition all_matches (parsed : ParsedQuery) (vol : VolumeState) (scope : option N) (all : list N) : Prop :=
  NoDup all /\ forall e, e ∈ all <-> e ∈ v_live (view vol) /\ matches parsed vol scope e.

Lemma match_row parsed vol scope all : served parsed vol -> all_matches parsed vol scope all ->
  Forall (fun e => row_ok (index vol) (hit_ref (view vol) e)) all.
Proof.
  intros [[Hok Hf _ _ _] _ Hq Hpath] [_ Hall]. apply Forall_forall. intros e [Hl Hh]%Hall.
  pose proof (view_promises _ Hok Hf) as Vok. pose proof (view_sorts _ Hok Hf) as Pok.
  assert (Hp : v_parent (view vol) e ∈ v_live (view vol)) by (by eapply hit_parent).
  split; cbn [hit_ref h_idx h_frn]; [by apply in_live|done|by apply in_live|].
  destruct Hh as (Hsy & _ & _ & _ & Hpo). unfold path_ok in Hpo. destruct (tests_paths _ _).
  - destruct Hpo as (full & Hfull & _). unfold entry_path in Hfull. apply bind_Some in Hfull as (c & Hc & _).
    rewrite (view_path _ Hok) by (by apply in_live). by rewrite Hc.
  - destruct (v_may_have_unpresentable (view vol)) eqn:Em; [by apply Hpo|]. apply Hpath; [done|by apply in_live|done].
Qed.

(** No volume has more matches than a 32-bit limit asks for. *)
Lemma nodup_below l (n : N) : NoDup l -> Forall (fun e => e < n) l -> len l <= n.
Proof.
  intros Hn Hl. assert (Hs : l ⊆ (N.of_nat <$> seq 0 (N.to_nat n))).
  { intros e He. rewrite Forall_forall in Hl. specialize (Hl e He). apply list_elem_of_fmap. exists (N.to_nat e). split; [lia|]. apply elem_of_seq. lia. }
  apply NoDup_submseteq, submseteq_length in Hs; [|done]. rewrite length_fmap, length_seq in Hs. unfold len. lia.
Qed.

Lemma matches_small parsed vol scope all : served parsed vol -> all_matches parsed vol scope all -> len all <= u32_max.
Proof.
  intros [[Hok Hf _ _ _] _ _ _] [Hn Hall]. apply nodup_below; [done|]. apply Forall_forall. intros e [Hl _]%Hall.
  pose proof (view_sorts _ Hok Hf) as Pok. apply (po_small e Hl).
Qed.

(** ** The search of one volume *)

Context (world : nat -> Env) (began : nat -> N) (q : QueryRequest) (parsed : ParsedQuery) (budget : N).

Definition search_run (i : nat) (vol : VolumeState) (scope : option N) : option (result Stopped RefOutcome * Budget) :=
  run_query_refs (E := world i) (view vol) (mount_prefix vol) parsed scope (qr_sort q) 0 (volume_limit q) (qr_want_total_size q) (until (began i + budget)).

(** How many rows of a volume are kept. *)
Definition kept_rows (all : list N) : list N := match volume_limit q with Some k => take (N.to_nat k) all | None => all end.

Lemma search_run_spec i vol scope : served parsed vol -> scope_valid (view vol) (real_scope (view vol) scope) ->
  exists r b', search_run i vol scope = Some (r, b') /\
    match r with
    | Err _ => is_spent (E := world i) b' = true
    | Ok o => forall all, all_matches parsed vol scope all ->
        Page.total o = len all /\ Page.total_size o = (if qr_want_total_size q then Some (files_size (view vol) all) else None) /\
        refs o = hit_ref (view vol) <$> kept_rows (sorted_rows (view vol) (qr_sort q) all)
    end.
Proof.
  intros [[Hok Hf _ _ _] _ Hq _] Hsc. unfold search_run, run_query_refs.
  pose proof (view_promises _ Hok Hf) as Vok. pose proof (view_sorts _ Hok Hf) as Pok. pose proof (view_names _ Hok Hf) as Nok.
  destruct (page_refs_spec (E := world i) (view vol) (mount_prefix vol) parsed scope (qr_sort q) 0 (volume_limit q) (qr_want_total_size q) true (until (began i + budget)) Hq Hsc)
    as (r & b' & E & Hr). exists r, b'. split; [exact E|]. destruct r as [o|]; [|exact Hr]. intros all [Hn Hall].
  destruct (Hr all Hn Hall) as (-> & -> & Hrefs). split; [done|]. split; [done|]. unfold page_bounds in Hrefs. unfold kept_rows, page_of in *.
  assert (Hlen : length (sorted_rows (view vol) (qr_sort q) all) = length all) by (unfold sorted_rows; by rewrite merge_sort_Permutation).
  destruct (volume_limit q) as [k|]; rewrite Hrefs; f_equal; unfold len.
  - replace (N.min 0 (N.of_nat (length all))) with 0 by lia. change (N.to_nat 0) with 0%nat. rewrite drop_0.
    destruct (N.le_gt_cases k (N.of_nat (length all))).
    + f_equal. lia.
    + rewrite !take_ge by lia. done.
  - replace (N.min 0 (N.of_nat (length all))) with 0 by lia. change (N.to_nat 0) with 0%nat. rewrite drop_0. apply take_ge. lia.
Qed.

(** ** The search of all of them *)

(** A target: its volume, and its matches unless the scope's folder is absent. *)
Record Target := { tg_i : nat; tg_vol : VolumeState; tg_all : option (list N) }.

Definition target_ok (volumes : list VolumeState) (t : nat * VolScope) (g : Target) : Prop :=
  tg_i g = t.1 /\ volumes !! t.1 = Some (tg_vol g) /\ served parsed (tg_vol g) /\
  exists entry vol', scope_entry parsed t.2 (tg_vol g) = Some (entry, vol') /\
    match entry, tg_all g with
    | None, None => True
    | Some e, Some all => scope_valid (view (tg_vol g)) (real_scope (view (tg_vol g)) e) /\ all_matches parsed (tg_vol g) e all
    | _, _ => False
    end.

(** What a volume's search answers. *)
Definition outcome_of (vol : VolumeState) (all : list N) : RefOutcome :=
  {| Page.total := len all; refs := hit_ref (view vol) <$> kept_rows (sorted_rows (view vol) (qr_sort q) all);
     Page.total_size := if qr_want_total_size q then Some (files_size (view vol) all) else None |}.

Definition add_target (f : Found) (g : Target) : Found :=
  let f := with_flags (tg_vol g) f in
  match tg_all g with Some all => add_outcome (tg_i g) (outcome_of (tg_vol g) all) f | None => f end.

(** Volumes that differ in their scope caches only. *)
Definition same_volume (a b : VolumeState) : Prop := index a = index b /\ guid a = guid b /\ mounts a = mounts b.

Lemma same_prefix a b : same_volume a b -> mount_prefix a = mount_prefix b.
Proof. intros (_ & Hg & Hm). unfold mount_prefix. by rewrite Hg, Hm. Qed.

Lemma scope_entry_same scope vol entry vol' : scope_entry parsed scope vol = Some (entry, vol') -> same_volume vol' vol.
Proof.
  destruct scope as [|rel]; simpl; [by intros [= _ <-]|]. destruct (resolve_scope_cached vol rel (match_case parsed)) as [[e v1]|] eqn:E; [|done]. intros [= _ <-].
  unfold resolve_scope_cached in E. assert (Hf : forall (o : option (option N)),
    (e0 ← o; Some (e0, match e0 with Some e1 => if match_case parsed then vol else with_scope_cache (Some {| sc_rel := rel; sc_entry := e1 |}) vol | None => vol end)) = Some (e, v1) ->
    same_volume v1 vol).
  { intros o (e0 & _ & [= <- <-])%bind_Some. destruct e0 as [e0|]; [destruct (match_case parsed)|]; done. }
  destruct (scope_cache vol) as [sc|]; [|by apply Hf in E]. destruct (_ && _); [|by apply Hf in E].
  apply bind_Some in E as ([|] & _ & E); [by injection E as <- <-|by apply Hf in E].
Qed.

Lemma search_volume_spec i scope vol g f : tg_i g = i -> tg_vol g = vol -> served parsed vol ->
  (exists entry vol', scope_entry parsed scope vol = Some (entry, vol') /\
    match entry, tg_all g with
    | None, None => True
    | Some e, Some all => scope_valid (view vol) (real_scope (view vol) e) /\ all_matches parsed vol e all
    | _, _ => False
    end) ->
  exists r vol', search_volume world began q parsed budget (volume_limit q) i scope vol f = Some (r, vol') /\ same_volume vol' vol /\
    match r with
    | Ok f' => f' = add_target f g
    | Err _ => exists e b', search_run i vol e = Some (Err stopped, b') /\ is_spent (E := world i) b' = true
    end.
Proof.
  intros <- <- Hs (entry & vol' & Ee & Hm). unfold search_volume, add_target. rewrite Ee. cbn [mbind option_bind].
  pose proof (scope_entry_same _ _ _ _ Ee) as Hsame. destruct Hsame as (Ei & Eg & Em). assert (Ep : mount_prefix vol' = mount_prefix (tg_vol g)) by (by apply same_prefix).
  destruct entry as [e|].
  - destruct (tg_all g) as [all|]; [|done]. destruct Hm as [Hsc Hall]. rewrite Ei, Ep.
    destruct (search_run_spec (tg_i g) (tg_vol g) e Hs Hsc) as (r & b' & E & Hr). unfold search_run in E. rewrite E. cbn [mbind option_bind fst].
    destruct r as [o|[]]; eexists _, _; (split; [done|]); (split; [done|]).
    + destruct (Hr all Hall) as (H1' & H2' & H3'). f_equal. unfold outcome_of. destruct o; simpl in *. by rewrite H1', H2', H3'.
    + exists e, b'. done.
  - destruct (tg_all g); [done|]. eexists _, _. done.
Qed.

(** The volumes as they were, caches aside. *)
Definition same_volumes (a b : list VolumeState) : Prop := Forall2 same_volume a b.

Lemma same_refl l : same_volumes l l.
Proof. induction l; by constructor. Qed.

Lemma same_volumes_insert a b i vol vol' : same_volumes a b -> b !! i = Some vol -> same_volume vol' vol -> same_volumes (<[i := vol']> a) b.
Proof. intros Hab Hi Hv. unfold same_volumes. rewrite <- (list_insert_id b i vol Hi). by apply Forall2_insert. Qed.

Lemma search_loop_spec ts gs : forall volumes f, NoDup ts.*1 -> Forall2 (target_ok volumes) ts gs ->
  exists r volumes', search_loop world began q parsed budget (volume_limit q) ts volumes f = Some (r, volumes') /\ same_volumes volumes' volumes /\
    match r with
    | Complete f' => f' = fold_left add_target gs f
    | StoppedOn i => exists vol e b', volumes !! i = Some vol /\ search_run i vol e = Some (Err stopped, b') /\ is_spent (E := world i) b' = true
    end.
Proof.
  revert gs. induction ts as [|[i scope] ts IH]; intros gs volumes f Hnd HF; inversion HF as [|? g ? gs' Hg HF']; subst; cbn [search_loop].
  { exists (Complete f), volumes. split; [done|]. split; [apply same_refl|done]. }
  destruct Hg as (Eg & Hv & Hs & Hent). cbn [fst snd] in *. rewrite Hv. cbn [mbind option_bind].
  destruct (search_volume_spec i scope (tg_vol g) g f Eg eq_refl Hs Hent) as (r & vol' & -> & Hsame & Hr). cbn [mbind option_bind].
  cbn [fmap list_fmap fst] in Hnd. apply NoDup_cons in Hnd as [Hni Hnd].
  pose proof (same_refl volumes) as Hself.
  destruct r as [f'|].
  2: { eexists _, _. split; [done|]. split; [by eapply same_volumes_insert|]. destruct Hr as (e1 & b1 & E1 & Hb1). by exists (tg_vol g), e1, b1. }
  subst f'. destruct (IH gs' (<[i := vol']> volumes) (add_target f g) Hnd) as (r & volumes' & E & Hsv & Hr).
  { apply Forall2_same_length_lookup. pose proof (proj1 (Forall2_same_length_lookup _ _ _) HF') as [Hl Hk]. split; [done|].
    intros k t g' Ht Hg'. destruct (Hk k t g' Ht Hg') as (? & Hlk & ?). split; [done|]. split; [|done]. rewrite list_lookup_insert_ne; [done|].
    intros Heq. apply Hni. apply list_elem_of_fmap. exists t. split; [done|]. by eapply list_elem_of_lookup_2. }
  exists r, volumes'. split; [exact E|].
  assert (Hsv' : same_volumes volumes' volumes).
  { eapply Forall2_trans; [|exact Hsv|by eapply same_volumes_insert]. intros x y z (?&?&?) (?&?&?). split_and!; congruence. }
  split; [done|]. destruct r as [f'|j]; [done|]. destruct Hr as (vol & e & b' & Hj & Er & Hb).
  destruct (decide (i = j)) as [<-|Hne].
  - rewrite list_lookup_insert_eq in Hj by (by eapply lookup_lt_Some). injection Hj as <-. exists (tg_vol g), e, b'. split; [done|]. split; [|done].
    destruct Hsame as (Ei & ? & ?). unfold search_run in *. rewrite Ei in Er. by rewrite (same_prefix vol' (tg_vol g)) in Er by done.
  - rewrite list_lookup_insert_ne in Hj by done. by exists vol, e, b'.
Qed.

(** ** What was found *)

(** The volumes with rows to send, with all their matches. *)
Definition share (g : Target) : option (Target * list N) :=
  match tg_all g with
  | Some all => match kept_rows all with [] => None | _ => Some (g, all) end
  | None => None
  end.
Definition shares (gs : list Target) : list (Target * list N) := omap share gs.

(** The matches of all volumes, and their size, stopping at [u64::MAX]. *)
Definition total_matches (gs : list Target) : N := fold_left (fun n g => n + len (default [] (tg_all g))) gs 0.
Definition total_bytes (gs : list Target) : N :=
  fold_left (fun sum g => match tg_all g with Some all => saturating_add sum (files_size (view (tg_vol g)) all) | None => sum end) gs 0.

Lemma kept_nil vol all : kept_rows (sorted_rows (view vol) (qr_sort q) all) = [] <-> kept_rows all = [].
Proof.
  assert (Hlen : length (kept_rows (sorted_rows (view vol) (qr_sort q) all)) = length (kept_rows all)).
  { unfold kept_rows. destruct (volume_limit q); [rewrite !length_take|]; unfold sorted_rows; by rewrite merge_sort_Permutation. }
  rewrite <- !length_zero_iff_nil. lia.
Qed.

Definition run_of (s : Target * list N) : list HitRef := hit_ref (view (tg_vol s.1)) <$> kept_rows (sorted_rows (view (tg_vol s.1)) (qr_sort q) s.2).

Lemma add_target_fields f g :
  f_refs (add_target f g) = f_refs f ++ (run_of <$> shares [g]) /\ f_vols (add_target f g) = f_vols f ++ (tg_i ∘ fst <$> shares [g]) /\
  f_total (add_target f g) = f_total f + len (default [] (tg_all g)) /\
  f_incomplete (add_target f g) = f_incomplete f || negb (is_complete (phase (tg_vol g))) /\
  f_pending (add_target f g) = f_pending f || st_metadata_pending (tg_vol g) /\
  f_size (add_target f g) = match f_size f with
    | Some sum => Some (match tg_all g with Some all => if qr_want_total_size q then saturating_add sum (files_size (view (tg_vol g)) all) else sum | None => sum end)
    | None => None
    end.
Proof.
  unfold add_target, shares, share. destruct (tg_all g) as [all|] eqn:Ea; cbn [omap list_omap]; rewrite ?Ea.
  - unfold add_outcome, outcome_of. cbn [refs Page.total Page.total_size with_flags f_refs f_vols f_total f_size f_incomplete f_pending].
    pose proof (kept_nil (tg_vol g) all) as Hk. split_and!; try done.
    + destruct (kept_rows all) as [|y l] eqn:Ek; [rewrite (proj2 Hk eq_refl); cbn; by rewrite app_nil_r|].
      destruct (kept_rows (sorted_rows _ _ _)) eqn:Es; [by destruct Hk as [Hk _]; discriminate (Hk eq_refl)|]. unfold run_of. cbn [fmap list_fmap fst snd]. by rewrite Es.
    + destruct (kept_rows all) as [|y l] eqn:Ek; [rewrite (proj2 Hk eq_refl); cbn; by rewrite app_nil_r|].
      destruct (kept_rows (sorted_rows _ _ _)) eqn:Es; [by destruct Hk as [Hk _]; discriminate (Hk eq_refl)|]. done.
    + destruct (f_size f); [|done]. by destruct (qr_want_total_size q).
  - cbn [with_flags f_refs f_vols f_total f_size f_incomplete f_pending fmap list_fmap default]. rewrite !app_nil_r. split_and!; try done; [unfold len; cbn; lia|by destruct (f_size f)].
Qed.

Lemma found_fields gs : forall f, let f' := fold_left add_target gs f in
  f_refs f' = f_refs f ++ (run_of <$> shares gs) /\ f_vols f' = f_vols f ++ (tg_i ∘ fst <$> shares gs) /\
  f_total f' = fold_left (fun n g => n + len (default [] (tg_all g))) gs (f_total f) /\
  f_incomplete f' = f_incomplete f || existsb (fun g => negb (is_complete (phase (tg_vol g)))) gs /\
  f_pending f' = f_pending f || existsb (fun g => st_metadata_pending (tg_vol g)) gs /\
  (f_size f' = if qr_want_total_size q then match f_size f with Some s => Some (fold_left (fun sum g => match tg_all g with Some all => saturating_add sum (files_size (view (tg_vol g)) all) | None => sum end) gs s) | None => None end
    else f_size f).
Proof.
  induction gs as [|g gs IH]; intros f; cbn [fold_left existsb].
  { cbn. rewrite !app_nil_r, !orb_false_r. split_and!; try done. by destruct (qr_want_total_size q), (f_size f). }
  destruct (IH (add_target f g)) as (E1 & E2 & E3 & E4 & E5 & E6). destruct (add_target_fields f g) as (D1 & D2 & D3 & D4 & D5 & D6).
  rewrite E1, E2, E3, E4, E5, E6, D1, D2, D3, D4, D5, D6. assert (Es : shares (g :: gs) = shares [g] ++ shares gs) by (unfold shares; cbn; by destruct (share g)).
  rewrite Es, !fmap_app, !app_assoc, !orb_assoc. split_and!; try done. destruct (qr_want_total_size q), (f_size f), (tg_all g); done.
Qed.

Lemma total_bytes_bound gs : total_bytes gs <= u64_max.
Proof.
  unfold total_bytes. assert (Hg : forall s, s <= u64_max -> fold_left (fun sum g => match tg_all g with Some all => saturating_add sum (files_size (view (tg_vol g)) all) | None => sum end) gs s <= u64_max).
  { induction gs as [|g gs IH]; intros s Hs; cbn [fold_left]; [done|]. apply IH. destruct (tg_all g); [|done]. unfold saturating_add. lia. }
  apply Hg. unfold u64_max. lia.
Qed.

(** The volumes with matches. *)
Definition matched (gs : list Target) : list (Target * list N) :=
  omap (fun g => match tg_all g with Some (x :: l) => Some (g, x :: l) | _ => None end) gs.

Definition indexes (S : list (Target * list N)) : list VolumeIndex := index ∘ tg_vol ∘ fst <$> S.
Definition prefixes_of (S : list (Target * list N)) : list (list N) := mount_prefix ∘ tg_vol ∘ fst <$> S.

(** All matches of all volumes in the order of the sort, as they are shown. *)
Definition all_rows (gs : list Target) : list (nat * N) := merged_rows (indexes (matched gs)) (prefixes_of (matched gs)) (asked q) (matched gs).*2.
Definition row_of (gs : list Target) : nat * N -> option ResultItem := shown_row (indexes (matched gs)) (prefixes_of (matched gs)) (asked q).

Lemma shares_matched gs : volume_limit q <> Some 0 -> shares gs = matched gs.
Proof.
  intros Hk. assert (Hs : forall g, share g = match tg_all g with Some (x :: l) => Some (g, x :: l) | _ => None end).
  { intros g. unfold share. destruct (tg_all g) as [all|]; [|done].
    unfold kept_rows. destruct (volume_limit q) as [k|]; [|by destruct all]. destruct all as [|x l]; [by rewrite take_nil|].
    destruct (N.to_nat k) eqn:Ek; [|done]. exfalso. apply Hk. f_equal. lia. }
  unfold shares, matched. induction gs as [|g gs IH]; [done|]. cbn [omap list_omap]. rewrite Hs. destruct (tg_all g) as [[|x l]|]; [exact IH|f_equal; exact IH|exact IH].
Qed.

Lemma shares_ok volumes ts gs s : Forall2 (target_ok volumes) ts gs -> s ∈ shares gs ->
  volumes !! tg_i s.1 = Some (tg_vol s.1) /\ served parsed (tg_vol s.1) /\ exists e, all_matches parsed (tg_vol s.1) e s.2.
Proof.
  intros HF (g & Hg & Hs)%list_elem_of_omap. apply list_elem_of_lookup in Hg as [k Hk].
  destruct (Forall2_lookup_r _ _ _ _ _ HF Hk) as (t & _ & Ei & Hv & Hsv & entry & vol' & _ & Hm).
  unfold share in Hs. destruct (tg_all g) as [all|]; [|done]. destruct (kept_rows all); [done|]. injection Hs as <-. cbn [fst snd]. rewrite Ei.
  split; [done|]. split; [done|]. destruct entry as [e|]; [|done]. exists e. apply Hm.
Qed.

(** The bound the runs are cut at. *)
Definition cut_at (gs : list Target) : nat := match volume_limit q with Some k => N.to_nat k | None => length (concat (shares gs).*2) end.

Lemma kept_cut gs all vol : all ∈ (shares gs).*2 -> kept_rows (sorted_rows (view vol) (qr_sort q) all) = take (cut_at gs) (sorted_rows (view vol) (qr_sort q) all).
Proof.
  intros Hin. unfold kept_rows, cut_at. destruct (volume_limit q); [done|]. symmetry. apply take_ge. unfold sorted_rows. rewrite merge_sort_Permutation.
  apply list_elem_of_split in Hin as (l1 & l2 & ->). rewrite concat_app. cbn [concat]. rewrite !length_app. lia.
Qed.

Lemma shares_searched volumes ts gs : Forall2 (target_ok volumes) ts gs ->
  searched (indexes (shares gs)) (prefixes_of (shares gs)) (asked q) (cut_at gs) (shares gs).*2 (run_of <$> shares gs).
Proof.
  intros HF. unfold indexes, prefixes_of. split.
  - by rewrite !length_fmap.
  - by rewrite !length_fmap.
  - intros i v p (s & -> & Hs)%list_lookup_fmap_Some Hp. rewrite list_lookup_fmap, Hs in Hp. injection Hp as <-.
    destruct (shares_ok volumes ts gs s HF) as (_ & [Hfit Hsh _ _] & _); [by eapply list_elem_of_lookup_2|]. done.
  - intros i v all (s & -> & Hs)%list_lookup_fmap_Some Ha. rewrite list_lookup_fmap, Hs in Ha. injection Ha as <-.
    destruct (shares_ok volumes ts gs s HF) as (_ & Hsv & e & Hm); [by eapply list_elem_of_lookup_2|]. split; [apply Hm|]. by eapply match_row.
  - apply list_eq. intros i. rewrite list_lookup_fmap, lookup_zip_with, !list_lookup_fmap. destruct (shares gs !! i) as [s|] eqn:Es; [|done]. simpl. f_equal.
    unfold run_of. f_equal. apply kept_cut. apply list_elem_of_fmap. exists s. split; [done|]. by eapply list_elem_of_lookup_2.
Qed.

Lemma runs_enough volumes ts gs : Forall2 (target_ok volumes) ts gs ->
  (forall all, all ∈ (shares gs).*2 -> (length all <= cut_at gs)%nat) \/ (exists l, qr_limit q = Some l /\ (N.to_nat (qr_offset q + l) <= cut_at gs)%nat).
Proof.
  intros HF. unfold cut_at, volume_limit. destruct (qr_limit q) as [l|] eqn:El; cbn [fmap option_fmap option_map].
  - destruct (N.le_gt_cases (qr_offset q + l) u32_max) as [Hle|Hgt].
    + right. exists l. split; [done|]. lia.
    + left. intros all (s & -> & Hs)%list_elem_of_fmap. destruct (shares_ok volumes ts gs s HF Hs) as (_ & Hsv & e & Hm).
      pose proof (matches_small _ _ _ _ Hsv Hm) as Hl. unfold len in Hl. lia.
  - left. intros all Hin. apply list_elem_of_split in Hin as (l1 & l2 & ->). rewrite concat_app. cbn [concat]. rewrite !length_app. lia.
Qed.

Lemma total_bound volumes ts gs : Forall2 (target_ok volumes) ts gs -> len gs < 2 ^ 32 -> total_matches gs < 18446744073709551616.
Proof.
  intros HF Hlen. assert (Hg : forall n, fold_left (fun n g => n + len (default [] (tg_all g))) gs n <= n + len gs * u32_max).
  { clear Hlen. revert ts HF. induction gs as [|g gs IH]; intros ts HF n; cbn [fold_left]; [unfold len; cbn; lia|].
    inversion HF as [|t ? ts' ? Hg HF']; subst. specialize (IH ts' HF' (n + len (default [] (tg_all g)))). rewrite len_cons.
    assert (Hs : len (default [] (tg_all g)) <= u32_max).
    { destruct Hg as (_ & _ & Hsv & entry & vol' & _ & Hm). destruct (tg_all g) as [all|]; [|unfold len; cbn; lia]. destruct entry; [|done].
      eapply matches_small; [done|]. apply Hm. }
    cbn [default] in *. lia. }
  specialize (Hg 0). unfold total_matches. change (2 ^ 32) with 4294967296 in Hlen. unfold u32_max in *. nia.
Qed.

(** ** The reply *)

Lemma max_by_at_in l : forall best i at_, max_by_at best l = Some (i, at_) -> best = Some (i, at_) \/ (i, at_) ∈ l.
Proof.
  induction l as [|[j b] l IH]; intros best i at_ E; simpl in E; [by left|]. apply IH in E as [E|?]; [|right; by right].
  destruct best as [[k c]|]; [destruct (b <? c); [by left|]|]; injection E as <- <-; right; left.
Qed.

Lemma targets_nodup volumes scope : NoDup (targets volumes scope).*1.
Proof.
  unfold targets. destruct scope as [path|].
  - destruct (max_by_at None _) as [[i at_]|]; [|constructor]. cbn. apply NoDup_singleton.
  - rewrite <- list_fmap_compose. apply NoDup_fmap; [by intros ? ? ?|apply NoDup_seq].
Qed.

Lemma stream_pages_ext asked_ hd ps turn start stop g g' emit fuel : (forall p, g p = g' p) -> forall page runs consumed,
  stream_pages asked_ hd ps turn start stop g emit fuel page runs consumed = stream_pages asked_ hd ps turn start stop g' emit fuel page runs consumed.
Proof. intros Hg. induction fuel as [|fuel IH]; intros page runs consumed; [done|]. cbn [stream_pages]. rewrite Hg. destruct (build_page _ _ _ _ _ _ _ _ _) as [[[? ?] ?]|]; [|done]. cbn. by rewrite IH. Qed.

Lemma stream_rows_ext asked_ hd ps offset limit g g' emit found : (forall p, g p = g' p) ->
  stream_rows asked_ hd ps offset limit g emit found = stream_rows asked_ hd ps offset limit g' emit found.
Proof. intros Hg. unfold stream_rows. destruct (row_bounds _ _ _). by apply stream_pages_ext. Qed.

(** What the client makes of the frames of a whole reply. *)
Record replied (gs : list Target) (frames : list (list N)) (results : list QueryResults) : Prop := {
  rp_frames : exists payloads, frames = frame_bytes <$> payloads /\ Forall (payload_ok MAX_SERVER_FRAME) payloads /\
    Forall2 (fun p r => decode_response_frame p = Some (Ok (Results r))) payloads results;
  rp_rows : concat (items <$> results) = omap (row_of gs) (cut (qr_offset q) (qr_limit q) (all_rows gs));
  rp_more : more <$> results = replicate (pred (length results)) true ++ [false];
  rp_each : Forall (fun r => Binary.total r = total_matches gs /\
      Binary.total_size r = (if qr_want_total_size q then Some (total_bytes gs) else None) /\
      volumes_incomplete r = existsb (fun g => negb (is_complete (phase (tg_vol g)))) gs /\
      metadata_pending r = existsb (fun g => st_metadata_pending (tg_vol g)) gs /\ len (items r) <= PAGE_ROWS) results;
  rp_sizes : Forall (fun r => Binary.generation r = 0 /\ Forall (fun i => forall s, Binary.size i = Some s -> s < 18446744073709551616) (items r)) results
}.

Lemma found_prefixes volumes volumes' ts gs : Forall2 (target_ok volumes) ts gs -> same_volumes volumes' volumes ->
  mapM (fun i => mount_prefix <$> (volumes' !! i : option VolumeState)) (tg_i ∘ fst <$> shares gs) = Some (prefixes_of (shares gs)).
Proof.
  intros HF Hsame. apply mapM_Some_2. unfold prefixes_of. apply Forall2_fmap, Forall_Forall2_diag, Forall_forall. intros s Hs.
  destruct (shares_ok volumes ts gs s HF Hs) as (Hv & _). unfold compose. destruct (Forall2_lookup_r _ _ _ _ _ Hsame Hv) as (vol' & -> & Hsv). simpl. f_equal. by apply same_prefix.
Qed.

Lemma reply_of_found volumes ts gs later : Forall2 (target_ok volumes) ts gs -> len gs < 2 ^ 32 ->
  (forall page i vol, volumes !! i = Some vol -> later page i = index vol) ->
  let f := fold_left add_target gs (found_start q) in
  exists frames results, stream_rows (asked q) (header_of f) (prefixes_of (shares gs)) (qr_offset q) (qr_limit q) (fun page => later page <$> f_vols f) (fun _ => true) (f_refs f) = Some frames /\
    replied gs frames results.
Proof.
  intros HF Hlen Hlater f. destruct (found_fields gs (found_start q)) as (E1 & E2 & E3 & E4 & E5 & E6). fold f in E1, E2, E3, E4, E5, E6.
  cbn [found_start f_refs f_vols f_total f_size f_incomplete f_pending app orb] in *. rewrite E1, E2.
  assert (Hg : forall page, later page <$> (tg_i ∘ fst <$> shares gs) = indexes (shares gs)).
  { intros page. unfold indexes. rewrite <- list_fmap_compose. apply list_fmap_ext. intros i s Hs. unfold compose. apply Hlater.
    by apply (shares_ok volumes ts gs s HF), list_elem_of_lookup_2 with i. }
  rewrite (stream_rows_ext _ _ _ _ _ _ (fun _ => indexes (shares gs)) _ _ Hg).
  destruct (reply_spec (indexes (shares gs)) (prefixes_of (shares gs)) (asked q) (header_of f) (cut_at gs) (shares gs).*2 (run_of <$> shares gs)
    (shares_searched volumes ts gs HF) (qr_offset q) (qr_limit q) (runs_enough volumes ts gs HF)) as (payloads & results & -> & Hp & Hr & Hi & Hm & He & Hsz).
  { cbn [header_of hd_total]. rewrite E3. by eapply total_bound. }
  { cbn [header_of hd_total_size]. rewrite E6. destruct (qr_want_total_size q); [|done]. intros s [= <-]. pose proof (total_bytes_bound gs) as Hb. unfold total_bytes, u64_max in *. lia. }
  exists (frame_bytes <$> payloads), results. split; [done|]. split.
  - exists payloads. split; [done|]. split; [done|]. eapply Forall2_impl; [exact Hr|]. intros p r (body & -> & Hd). by eapply page_frame_read.
  - rewrite Hi. destruct (decide (volume_limit q = Some 0)) as [Hz|Hz].
    + unfold volume_limit in Hz. destruct (qr_limit q) as [l|]; [|done]. injection Hz as Hz. assert (l = 0) as -> by (unfold u32_max in Hz; lia).
      unfold cut. change (N.to_nat 0) with 0%nat. by rewrite !take_0.
    + unfold all_rows, row_of. by rewrite (shares_matched gs Hz).
  - done.
  - eapply Forall_impl; [exact He|]. cbn [header_of hd_total hd_total_size hd_incomplete hd_pending]. rewrite E3, E4, E5, E6.
    intros r (-> & -> & -> & -> & ?). split_and!; try done. by destruct (qr_want_total_size q).
  - done.
Qed.
End answers.

(** Binding a value, as an equation: the two sides are too large to compare by
    computing. *)
Lemma some_bind {A B} (x : A) (f : A -> option B) : Some x ≫= f = f x.
Proof. done. Qed.

Section frames_of.
Context `{Unicode, Hasher} {M : Memchr} {Sel : Select} {Srt : SortUnstable} {Pl : Pool} {J : SerdeJson}.

Lemma stream_query_stopped world began clock volumes q parsed budget later emit i volumes' vol frame :
  parse_query_at (qr_query q) (qr_match_case q) clock = Ok parsed ->
  search_loop world began q parsed budget (volume_limit q) (targets volumes (qr_scope q)) volumes (found_start q) = Some (StoppedOn i, volumes') ->
  volumes' !! i = Some vol -> encode_response_frame (Error BadQuery (stopped_message (mount_prefix vol) budget)) [] = Some frame ->
  stream_query_binary world began clock volumes q budget false later emit = Some ([frame], volumes').
Proof.
  intros E1 E2 E3 E4. unfold stream_query_binary. rewrite E1, E2, some_bind. cbv iota beta. rewrite E3, some_bind. cbv beta. rewrite E4. reflexivity.
Qed.

Lemma stream_query_gone world began clock volumes q parsed budget later emit i volumes' :
  parse_query_at (qr_query q) (qr_match_case q) clock = Ok parsed ->
  search_loop world began q parsed budget (volume_limit q) (targets volumes (qr_scope q)) volumes (found_start q) = Some (StoppedOn i, volumes') ->
  stream_query_binary world began clock volumes q budget true later emit = Some ([], volumes').
Proof. intros E1 E2. unfold stream_query_binary. by rewrite E1, E2, some_bind. Qed.

Lemma stream_query_found world began clock volumes q parsed budget cancelled later emit f volumes' prefixes frames :
  parse_query_at (qr_query q) (qr_match_case q) clock = Ok parsed ->
  search_loop world began q parsed budget (volume_limit q) (targets volumes (qr_scope q)) volumes (found_start q) = Some (Complete f, volumes') ->
  mapM (fun i => mount_prefix <$> (volumes' !! i : option VolumeState)) (f_vols f) = Some prefixes ->
  stream_rows (asked q) (header_of f) prefixes (qr_offset q) (qr_limit q) (fun page => later page <$> f_vols f) emit (f_refs f) = Some frames ->
  stream_query_binary world began clock volumes q budget cancelled later emit = Some (frames, volumes').
Proof.
  intros E1 E2 E3 E4. unfold stream_query_binary. rewrite E1, E2, some_bind. cbv iota beta. rewrite E3, some_bind. cbv beta. rewrite E4. reflexivity.
Qed.
End frames_of.

(** A whole query; the theorem below says it in words. *)
Lemma stream_query_spec `{Unicode, !UnicodeAscii, !UnicodeText, Hasher} {M : Memchr} {Mok : MemchrOk M} {Sel : Select} {Sell : SelectOk Sel}
    {Srt : SortUnstable} {Sok : SortUnstableOk Srt} {Pl : Pool} {Pool_ok : PoolOk Pl} {J : SerdeJson}
    world began clock volumes q parsed budget cancelled later gs :
  parse_query_at (qr_query q) (qr_match_case q) clock = Ok parsed ->
  Forall2 (target_ok parsed volumes) (targets volumes (qr_scope q)) gs -> len gs < 2 ^ 32 ->
  (forall page i vol, volumes !! i = Some vol -> later page i = index vol) ->
  (forall vol, vol ∈ volumes -> len (response_payload (Error BadQuery (stopped_message (mount_prefix vol) budget))) <= u32_max) ->
  exists frames volumes', stream_query_binary world began clock volumes q budget cancelled later (fun _ => true) = Some (frames, volumes') /\ same_volumes volumes' volumes /\
    ((exists i vol e b', volumes !! i = Some vol /\ search_run world began q parsed budget i vol e = Some (Err stopped, b') /\ is_spent (E := world i) b' = true /\
        frames = (if cancelled : bool then [] else [frame_bytes (response_payload (Error BadQuery (stopped_message (mount_prefix vol) budget)))]))
     \/ exists results, replied q gs frames results).
Proof.
  intros Hparse HF Hlen Hlater Hmsg.
  destruct (search_loop_spec world began q parsed budget (targets volumes (qr_scope q)) gs volumes (found_start q) (targets_nodup _ _) HF) as (r & volumes' & Es & Hsame & Hr).
  destruct r as [f|i].
  - subst f. destruct (reply_of_found q parsed volumes _ gs later HF Hlen Hlater) as (frames & results & E & Hrep). exists frames, volumes'.
    split; [|split; [done|right; eauto]]. eapply stream_query_found; [done|exact Es| |exact E].
    destruct (found_fields q gs (found_start q)) as (_ & E2 & _). rewrite E2. by eapply found_prefixes.
  - destruct Hr as (vol & e & b' & Hv & Er & Hb). destruct (Forall2_lookup_r _ _ _ _ _ Hsame Hv) as (vol' & Hv' & Hsv). destruct cancelled.
    + exists [], volumes'. split; [by eapply stream_query_gone|]. split; [done|]. left. exists i, vol, e, b'. by split_and!.
    + set (err := Error BadQuery (stopped_message (mount_prefix vol) budget)). exists [frame_bytes (response_payload err)], volumes'.
      split; [|split; [done|]].
      * eapply stream_query_stopped; [done|exact Es|exact Hv'|]. rewrite (same_prefix _ _ Hsv). apply encode_response_bytes, Hmsg. by eapply list_elem_of_lookup_2.
      * left. exists i, vol, e, b'. by split_and!.
Qed.

(** C2: a query is answered with exactly the matches of the volumes it reaches.
    For every request that parses, over volumes in order, whose indexes stand
    still while the reply is read to its end: either the budget of some volume's
    search was spent, and the client gets one error that says so (nothing, when
    it is gone); or it gets a series of frames, each under its limit, each read
    back as a page of results, [more] set on all but the last, at most
    [PAGE_ROWS] rows in each, whose rows together are rows [offset] to
    [offset + limit] of all matches of all volumes in the order of the sort, ties
    going to the earlier volume, with their paths, sizes and dates as the indexes
    have them; every page says how many matches there are, what they weigh, and
    whether some volume is incomplete or its sizes pending.  Asking each volume
    for only [offset + limit] rows loses none, nor does taking whole volumes one
    after another in a sort by path. *)
Theorem stream_query_correct `{Unicode, !UnicodeAscii, !UnicodeText, Hasher} {M : Memchr} {Mok : MemchrOk M} {Sel : Select} {Sell : SelectOk Sel}
    {Srt : SortUnstable} {Sok : SortUnstableOk Srt} {Pl : Pool} {Pool_ok : PoolOk Pl} {J : SerdeJson}
    world began clock volumes q parsed budget cancelled later gs :
  parse_query_at (qr_query q) (qr_match_case q) clock = Ok parsed ->
  Forall2 (target_ok parsed volumes) (targets volumes (qr_scope q)) gs -> len gs < 2 ^ 32 ->
  (forall page i vol, volumes !! i = Some vol -> later page i = index vol) ->
  (forall vol, vol ∈ volumes -> len (response_payload (Error BadQuery (stopped_message (mount_prefix vol) budget))) <= u32_max) ->
  exists frames volumes', stream_query_binary world began clock volumes q budget cancelled later (fun _ => true) = Some (frames, volumes') /\ same_volumes volumes' volumes /\
    ((exists i vol e b', volumes !! i = Some vol /\ search_run world began q parsed budget i vol e = Some (Err stopped, b') /\ is_spent (E := world i) b' = true /\
        frames = (if cancelled : bool then [] else [frame_bytes (response_payload (Error BadQuery (stopped_message (mount_prefix vol) budget)))]))
     \/ exists results, replied q gs frames results).
Proof. apply stream_query_spec. Qed.

(** *** One volume with one file *)

#[local] Existing Instance one_bucket.

(** A printer that prints nothing: no reply of the example is an error. *)
Definition mute : SerdeJson := {| JsonError := unit; request_json := fun _ => []; response_json := fun _ => [];
  request_of_json := fun _ => Err tt; response_of_json := fun _ => Err tt |}.

Definition volume_c : VolumeState :=
  {| guid := [0x3F]; mounts := [drive_c]; index := with_a; phase := Live; st_metadata_pending := false; journal_max_bytes := None; indexed := true; scope_cache := None |}.
Definition ask_a : QueryRequest :=
  {| qr_query := [0x61]; qr_scope := None; qr_sort := {| key := Path; dir := Asc |}; qr_offset := 0; qr_limit := Some 5; qr_want_size := true;
     qr_want_mtime := false; qr_match_case := false; qr_want_total_size := true |}.

Lemma volume_c_fits : volume_fits with_a drive_c.
Proof.
  split; [apply with_a_ok|apply with_a_fits| | |].
  - exists [0x43; 0x3A]. split; [|done]. exists [0x43; 0x3A]. split; [repeat constructor; vm_compute; congruence|by vm_compute].
  - assert (E : fold drive_c = [0x63; 0x3A; 0x5C]) by (vm_compute; reflexivity). rewrite E, !elem_of_cons, elem_of_nil. lia.
  - intros id. destruct (with_a_folded id) as [-> |[-> | ->]]; rewrite ?elem_of_cons, elem_of_nil; lia.
Qed.

Lemma with_a_raw id : len (FolderPaths.v_raw (view_of with_a) id) <= 10.
Proof. simpl. unfold name_or_nil. case_decide as Hl; [|vm_compute; congruence]. apply with_a_names in Hl as [-> |[-> | ->]]; vm_compute; congruence. Qed.

Lemma volume_c_served : served (M := naive) query_a volume_c.
Proof.
  split; [apply volume_c_fits| |apply query_a_fits|].
  - split; [intros id; pose proof (with_a_raw id); cbn [index volume_c]; lia|vm_compute; congruence].
  - intros e _ He Hs. apply with_a_entries in He as [-> |[-> | ->]]; [by vm_compute in Hs|by vm_compute in Hs|].
    assert (E : v_path_of (view_of with_a) (v_parent (view_of with_a) 2) = Some []) by (vm_compute; reflexivity). exists []. exact E.
Qed.

Lemma volume_c_matches : all_matches (M := naive) query_a volume_c None [2].
Proof.
  split; [apply NoDup_singleton|]. intros e. rewrite list_elem_of_singleton. cbn [index volume_c]. rewrite (in_live with_a with_a_ok). split.
  - intros ->. split; [by vm_compute|]. unfold matches, hit. split; [by vm_compute|]. split; [by vm_compute|]. split; [|split; [done|]].
    + split; [|split; [|done]].
      * intros t Ht. apply list_elem_of_singleton in Ht as ->. exists [], []. by vm_compute.
      * intros w Hw. by apply not_elem_of_nil in Hw.
    + intros Hm. vm_compute in Hm. discriminate Hm.
  - intros [He (Hs & _)]. apply with_a_entries in He as [-> |[-> | ->]]; [by vm_compute in Hs|by vm_compute in Hs|done].
Qed.

Lemma stream_query_correct_witness :
  exists frames volumes', stream_query_binary (M := naive) (Sel := sort_select) (Pl := one_thread) (J := mute) (fun _ => quiet) (fun _ => 0) (fixed_clock 0 0 0) [volume_c] ask_a 10
    false (fun _ _ => with_a) (fun _ => true) = Some (frames, volumes') /\ same_volumes volumes' [volume_c].
Proof.
  destruct (stream_query_correct (M := naive) (Sel := sort_select) (Pl := one_thread) (J := mute) (fun _ => quiet) (fun _ => 0) (fixed_clock 0 0 0) [volume_c] ask_a query_a 10
    false (fun _ _ => with_a) [{| tg_i := 0; tg_vol := volume_c; tg_all := Some [2] |}]) as (frames & volumes' & E & Hs & _).
  - vm_compute. reflexivity.
  - constructor; [|constructor]. split; [done|]. split; [done|]. split; [apply volume_c_served|]. exists (Some None), volume_c. split; [done|].
    split; [|apply volume_c_matches]. intros root Hr. discriminate Hr.
  - vm_compute. reflexivity.
  - intros page i vol Hi. apply list_lookup_singleton_Some in Hi as [_ <-]. done.
  - intros vol _. vm_compute. congruence.
  - exists frames, volumes'. split; [exact E|exact Hs].
Defined.

(** The rows of two volumes that hold the same file, by path, descending. *)
Definition volume_d : VolumeState :=
  {| guid := [0x3E]; mounts := [[0x44; 0x3A; 0x5C]]; index := with_a; phase := Rescanning; st_metadata_pending := false; journal_max_bytes := None; indexed := true; scope_cache := None |}.

Definition read_reply (r : option (list (list N) * list VolumeState)) : list (option (list (list N) * bool * bool)) :=
  match r with
  | Some (frames, _) => (fun f => match decode_results_payload (drop 5 f) with Some (Ok p) => Some (Binary.path <$> items p, more p, volumes_incomplete p) | _ => None end) <$> frames
  | None => []
  end.

Example two_volumes :
  read_reply (stream_query_binary (M := naive) (Sel := sort_select) (Pl := one_thread) (J := mute) (fun _ => quiet) (fun _ => 1) (fixed_clock 0 0 0) [volume_c; volume_d]
    {| qr_query := [0x61]; qr_scope := None; qr_sort := {| key := Path; dir := Desc |}; qr_offset := 0; qr_limit := None; qr_want_size := true;
       qr_want_mtime := false; qr_match_case := false; qr_want_total_size := true |} 10 false (fun _ _ => with_a) (fun _ => true))
  = [Some ([[0x44; 0x3A; 0x5C; 0x61]; [0x43; 0x3A; 0x5C; 0x61]], false, true)].
Proof. vm_compute. reflexivity. Qed.
