(* ===== verification/Registry.v ===== *)
(** The registry of indexed volumes, from
    [crates/goz-daemon/src/volume_state.rs], and why the order of its snapshots
    keeps queries from waiting for each other.

    A query read-locks the indexes of its volumes in the order of its snapshot,
    one after another, and holds them for a page.  A reader waits behind a
    waiting writer, so two queries that took two locks in opposite orders could
    wait for ever. *)

From stdpp Require Import gmap.
From stdpp Require Import base option list sets relations sorting.
From Stdlib Require Import NArith Lia.
From S2P Require Import Prelude Types Fold Dates Budget Query NameStore Volume Prefilter TopK NameLevel FolderRank FolderTree Frame Proto EngineView Page Server ServerQuery.

(** [Arc<VolumeState>]: a volume by its allocation. *)
Record Arc := { arc_id : N; arc_volume : VolumeState }.

Definition VolumeSet : Type := list Arc.

(** The set behind the registry's lock: each change swaps it whole, so a
    snapshot that was taken never changes. *)
Record VolumeRegistry := { registry_set : VolumeSet }.

Definition current (r : VolumeRegistry) : VolumeSet := registry_set r.
Definition add (volume : Arc) (r : VolumeRegistry) : VolumeRegistry := {| registry_set := registry_set r ++ [volume] |}.
Definition remove_volume (g : list N) (r : VolumeRegistry) : VolumeRegistry :=
  {| registry_set := filter (fun v => guid (arc_volume v) <> g) (registry_set r) |}.

(** ** What the supervisor does over time *)

Inductive change := Added (v : Arc) | Removed (g : list N).

Definition changed (c : change) (r : VolumeRegistry) : VolumeRegistry :=
  match c with Added v => add v r | Removed g => remove_volume g r end.

(** The registry after some changes, newest first. *)
Fixpoint registry_after (cs : list change) : VolumeRegistry :=
  match cs with [] => {| registry_set := [] |} | c :: cs => changed c (registry_after cs) end.

(** The volumes ever added, oldest first. *)
Fixpoint ever_added (cs : list change) : list Arc :=
  match cs with [] => [] | Added v :: cs => ever_added cs ++ [v] | Removed _ :: cs => ever_added cs end.

(** A volume is added under an allocation of its own. *)
Definition own_allocations (cs : list change) : Prop := NoDup (arc_id <$> ever_added cs).

(** A moment of a history: what had happened by then. *)
Definition moment (past cs : list change) : Prop := past `suffix_of` cs.

(** ** The order of snapshots *)

Lemma registry_sublist cs : registry_set (registry_after cs) `sublist_of` ever_added cs.
Proof.
  induction cs as [|[v|g] cs IH]; simpl; [done|by apply sublist_app|]. etrans; [apply sublist_filter|exact IH].
Qed.

Lemma ever_added_moment past cs : moment past cs -> ever_added past `sublist_of` ever_added cs.
Proof. intros [later ->]. induction later as [|[v|g] later IH]; simpl; [done| |done]. by apply sublist_inserts_r. Qed.

Lemma sublist_map {A B} (f : A -> B) l k : l `sublist_of` k -> f <$> l `sublist_of` f <$> k.
Proof. induction 1; by constructor. Qed.

Lemma sublist_two {A} (a b : A) l : [a; b] `sublist_of` l -> exists i j, (i < j)%nat /\ l !! i = Some a /\ l !! j = Some b.
Proof.
  intros (k1 & k2 & -> & Hb)%sublist_cons_l. destruct (list_elem_of_lookup_1 k2 b) as [j Hj].
  { eapply sublist_subseteq; [exact Hb|]. by left. }
  exists (length k1), (length k1 + S j)%nat. split; [lia|]. split; [by rewrite list_lookup_middle|]. by rewrite lookup_app_r, Nat.add_comm, Nat.add_sub by lia.
Qed.

(** What elements [ps] of a list come to, when they are in order. *)
Lemma picked_sublist {A} (l : list A) ps m : StronglySorted lt ps -> (forall i, i ∈ ps -> (m <= i)%nat) -> omap (l !!.) ps `sublist_of` drop m l.
Proof.
  revert m. induction ps as [|i ps IH]; intros m Hs Hm; [apply sublist_nil_l|]. apply StronglySorted_inv in Hs as [Hs Hlt].
  assert (Hrest : omap (l !!.) ps `sublist_of` drop (S i) l).
  { apply IH; [done|]. intros j Hj. rewrite Forall_forall in Hlt. by apply Hlt. }
  assert (Hi : (m <= i)%nat) by (apply Hm; by left).
  assert (E : drop m l = drop m (take i l) ++ drop i l).
  { rewrite <- (take_drop i l) at 1. destruct (decide (i <= length l)%nat) as [Hle|Hgt].
    - rewrite drop_app_le by (rewrite length_take; lia). done.
    - rewrite (drop_ge l i) by lia. by rewrite !app_nil_r. }
  rewrite E. apply sublist_inserts_l. cbn [omap list_omap]. destruct (l !! i) as [x|] eqn:Ei.
  - rewrite (drop_S l x i Ei). by constructor.
  - etrans; [exact Hrest|]. rewrite (drop_ge l (S i)); [apply sublist_nil_l|]. apply lookup_ge_None in Ei. lia.
Qed.

(** ** The order a query locks in *)

Section locks.
Context `{Unicode, Hasher} {M : Memchr} {Sel : Select} {Srt : SortUnstable} {Pl : Pool}.

Lemma sorted_seq m n : StronglySorted lt (seq m n).
Proof. revert m. induction n as [|n IH]; intros m; constructor; [done|]. apply Forall_forall. intros i Hi%elem_of_seq. lia. Qed.

Lemma sorted_app_pick (l k : list nat) i (some : bool) : StronglySorted lt (l ++ i :: k) -> StronglySorted lt ((if some then l ++ [i] else l) ++ k).
Proof.
  intros Hs. destruct some; [by rewrite <- app_assoc|]. induction l as [|j l IH]; [by apply StronglySorted_inv in Hs as [Hs _]|].
  simpl in *. apply StronglySorted_inv in Hs as [Hs Hj]. constructor; [by apply IH|]. rewrite !Forall_app, Forall_cons in *. tauto.
Qed.

Lemma search_loop_order world began q parsed budget lim ts : forall volumes f f' volumes',
  search_loop world began q parsed budget lim ts volumes f = Some (Complete f', volumes') -> StronglySorted lt (f_vols f ++ ts.*1) -> StronglySorted lt (f_vols f').
Proof.
  induction ts as [|[i scope] ts IH]; intros volumes f f' volumes'; cbn [search_loop].
  - intros [= -> _]. by rewrite app_nil_r.
  - intros (vol & _ & ([r vol'] & Hv & E)%bind_Some)%bind_Some Hs. destruct r as [f1|s]; [|done]. refine (IH _ _ _ _ E _).
    unfold search_volume in Hv. apply bind_Some in Hv as ([[entry|] vol1] & _ & Hv).
    + apply bind_Some in Hv as ([[o|s] ?] & _ & Hv); cbn in Hv; [|done]. injection Hv as <- _. cbn. by apply sorted_app_pick.
    + injection Hv as <- _. exact (sorted_app_pick (f_vols f) _ i false Hs).
Qed.

Lemma targets_order volumes scope : StronglySorted lt (targets volumes scope).*1.
Proof.
  unfold targets. destruct scope as [path|]; [|rewrite <- list_fmap_compose, (list_fmap_ext _ id), list_fmap_id by done; apply sorted_seq].
  destruct (max_by_at None _) as [[i at_]|]; repeat constructor.
Qed.

(** Some query of the history takes the lock of [b] while it holds [a]'s: it
    was answered on a snapshot whose volumes were, as their turns came,
    [volumes], and both are among those it found rows on, [a] first. *)
Definition locked_before (cs : list change) (a b : N) : Prop :=
  exists past world began q parsed budget volumes f volumes', moment past cs /\ length volumes = length (current (registry_after past)) /\
    search_loop world began q parsed budget (volume_limit q) (targets volumes (qr_scope q)) volumes (found_start q) = Some (Complete f, volumes') /\
    exists before between after, arc_id <$> omap (current (registry_after past) !!.) (f_vols f) = before ++ a :: between ++ b :: after.

Lemma locked_in_order cs a b : own_allocations cs -> locked_before cs a b ->
  exists i j, (i < j)%nat /\ (arc_id <$> ever_added cs) !! i = Some a /\ (arc_id <$> ever_added cs) !! j = Some b.
Proof.
  intros Hown (past & world & began & q & parsed & budget & volumes & f & volumes' & Hm & _ & Hq & before & between & after & E).
  apply sublist_two. apply search_loop_order in Hq; [|apply targets_order].
  assert (Hp : omap (current (registry_after past) !!.) (f_vols f) `sublist_of` ever_added cs).
  { etrans; [apply (picked_sublist _ _ 0 Hq); lia|]. rewrite drop_0. etrans; [apply registry_sublist|]. by apply ever_added_moment. }
  apply (sublist_map arc_id) in Hp. rewrite E in Hp. etrans; [|exact Hp]. apply sublist_inserts_l. constructor. apply sublist_inserts_l. constructor. apply sublist_nil_l.
Qed.

(** C3: queries never lock two volumes in opposite orders, whatever is found and
    removed between them: over any history of the registry in which each volume
    is added under an allocation of its own, the relation "some query takes the
    lock of b while it holds a's" has no cycle. *)
Theorem lock_order_acyclic cs : own_allocations cs -> forall a, ~ tc (locked_before cs) a a.
Proof.
  intros Hown a Ha.
  assert (Hpos : forall x y, tc (locked_before cs) x y -> exists i j, (i < j)%nat /\ (arc_id <$> ever_added cs) !! i = Some x /\ (arc_id <$> ever_added cs) !! j = Some y).
  { induction 1 as [x y Hxy|x y z Hxy _ (j & k & Hjk & Hj & Hk)]; [by apply locked_in_order|].
    destruct (locked_in_order _ _ _ Hown Hxy) as (i & j' & Hij & Hi & Hj'). exists i, k. split; [|done].
    pose proof (NoDup_lookup _ _ _ _ Hown Hj Hj') as ->. lia. }
  destruct (Hpos a a Ha) as (i & j & Hij & Hi & Hj). pose proof (NoDup_lookup _ _ _ _ Hown Hi Hj) as ->. lia.
Qed.
End locks.

(** *** Two volumes found, one after the other *)

#[local] Existing Instance one_bucket.

Definition found_c_then_d : list change := [Added {| arc_id := 1; arc_volume := volume_d |}; Added {| arc_id := 0; arc_volume := volume_c |}].

Definition ask_both : QueryRequest :=
  {| qr_query := [0x61]; qr_scope := None; qr_sort := {| key := Name; dir := Asc |}; qr_offset := 0; qr_limit := None; qr_want_size := true;
     qr_want_mtime := false; qr_match_case := false; qr_want_total_size := true |}.

(** A query over both holds the first while it takes the second; never the
    other way round. *)
Lemma lock_order_acyclic_witness :
  locked_before (M := naive) (Sel := sort_select) (Pl := one_thread) found_c_then_d 0 1 /\
  ~ tc (locked_before (M := naive) (Sel := sort_select) (Pl := one_thread) found_c_then_d) 0 0.
Proof.
  split.
  - exists found_c_then_d, (fun _ => quiet), (fun _ => 0), ask_both, query_a, 10, [volume_c; volume_d]. do 2 eexists. split; [by exists []|]. split; [done|]. split.
    + vm_compute. reflexivity.
    + exists [], [], []. reflexivity.
  - apply (lock_order_acyclic (M := naive) (Sel := sort_select) (Pl := one_thread)). unfold own_allocations. vm_compute. repeat constructor; set_solver.
Defined.
