(* ===== verification/Pulse.v ===== *)
(** The liveness a tail reports about itself in one word, and what the supervisor
    makes of it, from [crates/goz-daemon/src/pulse.rs] and
    [crates/goz-daemon/src/supervisor.rs]. *)

From stdpp Require Import base option list.
From Stdlib Require Import NArith Lia String.
From S2P Require Import Prelude Types.
Open Scope N_scope.

(** ** The word *)

Definition TAG_SHIFT : N := 62.
Definition SECS_MASK : N := N.shiftl 1 TAG_SHIFT - 1.
Definition TAG_BEAT : N := 0.
Definition TAG_BUSY : N := 1.
Definition TAG_RETIRED : N := 2.

Inductive Pulse := Beat (at_ : N) | Busy (since : N) | Retired.

#[export] Instance Pulse_eq_dec : EqDecision Pulse.
Proof. solve_decision. Defined.

Definition pack (tag secs : N) : N := N.lor (N.shiftl tag TAG_SHIFT) (N.land secs SECS_MASK).

(** [TailPulse::load]. *)
Definition load (word : N) : Pulse :=
  let secs := N.land word SECS_MASK in
  let tag := N.shiftr word TAG_SHIFT in
  if tag =? TAG_BUSY then Busy secs else if tag =? TAG_RETIRED then Retired else Beat secs.

(** What is stored at [secs] awake: by a beat (and by a new pulse), on the way
    into a rebuild, on the way out of it, and when the thread ends. *)
Definition beat (secs : N) : N := pack TAG_BEAT secs.
Definition busy_scope (secs : N) : N := pack TAG_BUSY secs.
Definition drop_busy (secs : N) : N := beat secs.
Definition drop_retire : N := pack TAG_RETIRED 0.

(** ** The verdict *)

Definition BEAT_STALL : N := 300.
Definition BUSY_STALL : N := 30 * 60.
Definition MAX_REVIVES : N := 3.
Definition HEALTHY_AFTER : N := 10 * 60.
Definition BEAT_FRESH : N := 60.

Inductive Action :=
| Nothing
| ResetBudget
| CancelIo (stalled_secs : N)
| Revive
| GiveUp
| Release.

#[export] Instance Action_eq_dec : EqDecision Action.
Proof. solve_decision. Defined.

Definition assess (pulse : Pulse) (now revive_attempts : N) (proven_healthy snapshot : bool) : Action :=
  match pulse with
  | Retired => if snapshot then Release else if MAX_REVIVES <=? revive_attempts then GiveUp else Revive
  | Busy since => let stalled_secs := now - since in if BUSY_STALL <=? stalled_secs then CancelIo stalled_secs else Nothing
  | Beat at_ =>
      let stalled_secs := now - at_ in
      if BEAT_STALL <=? stalled_secs then CancelIo stalled_secs
      else if (0 <? revive_attempts) && proven_healthy then ResetBudget else Nothing
  end.

(** A fresh beat of a volume that is live. *)
Definition healthy (pulse : Pulse) (live : bool) (now : N) : bool :=
  match pulse with Beat at_ => live && (now - at_ <? BEAT_FRESH) | _ => false end.

Definition accrue_health (prev : option N) (pulse : Pulse) (live : bool) (now : N) : option N :=
  if healthy pulse live now then Some (default now prev) else None.

Definition given_up (phase : VolumePhase) : option VolumePhase :=
  match phase with
  | Bootstrapping => Some (Failed "never indexed: its tail kept stopping")
  | Live | Rescanning => Some (Failed "tail thread kept dying; live updates stopped")
  | Snapshot | Offline | Failed _ => None
  end.

(** ** The word read back *)

Lemma pack_parts tag secs : N.shiftr (pack tag secs) TAG_SHIFT = tag /\ N.land (pack tag secs) SECS_MASK = N.land secs SECS_MASK.
Proof.
  change SECS_MASK with (N.ones 62). unfold pack. change SECS_MASK with (N.ones 62). change TAG_SHIFT with 62. rewrite !N.land_ones. split; apply N.bits_inj; intros i.
  - rewrite N.shiftr_spec, N.lor_spec by lia. rewrite N.shiftl_spec_high' by lia. rewrite N.mod_pow2_bits_high by lia. rewrite orb_false_r. f_equal. lia.
  - destruct (N.lt_ge_cases i 62) as [Hi|Hi].
    + rewrite !N.mod_pow2_bits_low, N.lor_spec, N.shiftl_spec_low, N.mod_pow2_bits_low by done. done.
    + by rewrite !N.mod_pow2_bits_high by done.
Qed.

Lemma load_beat secs : secs < 2 ^ 62 -> load (beat secs) = Beat secs.
Proof.
  intros Hs. unfold load, beat. destruct (pack_parts TAG_BEAT secs) as [-> ->]. cbn. change SECS_MASK with (N.ones 62). by rewrite N.land_ones, N.mod_small.
Qed.

Lemma load_busy secs : secs < 2 ^ 62 -> load (busy_scope secs) = Busy secs.
Proof.
  intros Hs. unfold load, busy_scope. destruct (pack_parts TAG_BUSY secs) as [-> ->]. cbn. change SECS_MASK with (N.ones 62). by rewrite N.land_ones, N.mod_small.
Qed.

Lemma load_retired : load drop_retire = Retired.
Proof. vm_compute. reflexivity. Qed.

(** A clock that has run over its 62 bits still says which kind it is. *)
Lemma load_tag tag secs : load (pack tag secs) = if tag =? TAG_BUSY then Busy (N.land secs SECS_MASK) else if tag =? TAG_RETIRED then Retired else Beat (N.land secs SECS_MASK).
Proof. unfold load. by destruct (pack_parts tag secs) as [-> ->]. Qed.
