(* ===== verification/Supervisor.v ===== *)
(** The supervision of volumes, from [crates/goz-daemon/src/supervisor.rs]: which
    volumes are indexed, the tails that are started, watched, revived and stopped
    on them, and the removal of disks.

    The supervisor runs on one thread.  What it asks of the machine (the words
    its tails publish, whether a thread has ended, what a worker reports) is a
    class [Machine], by the time of asking; other threads may change the phase of
    a volume and raise the stop flag between its steps.  What it does to the
    outside (starting workers and hearing from them, cancelling I/O, stopping
    tails, answering queries, the lines it logs) is a list of effects, newest
    first. *)

From Stdlib Require Import String.
From stdpp Require Import gmap.
From stdpp Require Import base option list sets.
From Stdlib Require Import NArith Lia.
From S2P Require Import Prelude Types Fold NameStore Volume Server Registry Pulse.
Open Scope N_scope.
Open Scope list_scope.

(** ** Times, in milliseconds *)

Definition SCAN_INTERVAL : N := 30000.
Definition LISTING_WAIT : N := 2000.
Definition RELEASE_WAIT : N := 12000.
Definition REMOVAL_OUTCOME_WAIT : N := 60000.
Definition TEARDOWN_POLL : N := 250.
Definition TEARDOWN_WAIT : N := 5000.
Definition PENDING_DRAIN_WAIT : N := 3000.
Definition RELEASE_MAX : N := PENDING_DRAIN_WAIT + TEARDOWN_WAIT + TEARDOWN_POLL.
Definition SUPERVISOR_JOIN_WAIT : N := RELEASE_MAX * 2 + 3500.

(** ** Volumes of the machine *)

Record VolumeInfo := { guid_path : list N; vi_mounts : list (list N); is_fixed : bool; is_ntfs : bool }.

Definition indexable (vol : VolumeInfo) : bool := is_fixed vol && is_ntfs vol.

Record VolumeChanges := { found : list VolumeInfo; gone : list (list N) }.

Definition diff_volumes (indexed : list (list N)) (listed : list VolumeInfo) : VolumeChanges :=
  {| found := filter (fun v => guid_path v ∉ indexed /\ indexable v = true) listed;
     gone := filter (fun g => g ∉ (guid_path <$> listed)) indexed |}.

(** ** Removals *)

Inductive DeviceEvent := QueryRemove | QueryRemoveFailed | DeviceRemoved.

Record Removal := { rm_guid : list N; rm_event : DeviceEvent }.

(** [done] is the callback that waits for the answer to a query. *)
Record Posted := { po_removal : Removal; po_done : option N }.

(** ** What is owned *)

(** A tail and the notification that came with it, as a worker hands them back. *)
Record Started := { started_tail : N; started_notification : option N }.

Record PendingRevival := { pr_worker : N; pr_io : bool; reported_blocked : bool }.

Record Supervised := {
  sv_state : Arc;
  sv_tail : option N;
  sv_notification : option N;
  revive_attempts : N;
  beating_since : option N;
  sv_pending : option PendingRevival
}.

Record Removing := { notifications : list N; rg_since : N }.

Inductive Effect :=
| Launched (arc worker : N)
| HandedOver (worker tail : N)
| StartEnded (worker : N)
| Reviving (arc : N)
| Refunded (arc : N)
| GaveUp (arc : N)
| Released (arc : N)
| CancelledTail (tail : N)
| CancelledStart (worker : N)
| SignalledTail (tail : N)
| JoinedTail (tail : N)
| AbandonedTail (tail : N)
| AbandonedStart (worker : N)
| Unregistered (notification : N)
| Answered (callback : N)
| Settled.

(** [volumes] is the registry, whose entries carry the state they were found
    with and of which only the identity and the GUID are read; [shared] is what
    the allocations hold now.  [looks] is the stop flag: how many more times it
    will be found unset, if it is ever to be set.  [signals] are posted
    removals. *)
Record Fleet := {
  volumes : VolumeRegistry;
  shared : gmap N VolumeState;
  supervised : list Supervised;
  listing : option (N * N);
  starting : option N;
  removing : gmap (list N) Removing;
  removed : list (list N * N);
  posted : list Posted;
  tails_stopped : bool;
  looks : option nat;
  next_scan : N;
  clock : N;
  next_id : N;
  effects : list Effect
}.

Definition with_volumes (x : VolumeRegistry) (f : Fleet) : Fleet :=
  {| volumes := x; shared := shared f; supervised := supervised f; listing := listing f; starting := starting f; removing := removing f; removed := removed f;
     posted := posted f; tails_stopped := tails_stopped f; looks := looks f; next_scan := next_scan f; clock := clock f; next_id := next_id f; effects := effects f |}.
Definition with_shared (x : gmap N VolumeState) (f : Fleet) : Fleet :=
  {| volumes := volumes f; shared := x; supervised := supervised f; listing := listing f; starting := starting f; removing := removing f; removed := removed f;
     posted := posted f; tails_stopped := tails_stopped f; looks := looks f; next_scan := next_scan f; clock := clock f; next_id := next_id f; effects := effects f |}.
Definition with_supervised (x : list Supervised) (f : Fleet) : Fleet :=
  {| volumes := volumes f; shared := shared f; supervised := x; listing := listing f; starting := starting f; removing := removing f; removed := removed f;
     posted := posted f; tails_stopped := tails_stopped f; looks := looks f; next_scan := next_scan f; clock := clock f; next_id := next_id f; effects := effects f |}.
Definition with_listing (x : option (N * N)) (f : Fleet) : Fleet :=
  {| volumes := volumes f; shared := shared f; supervised := supervised f; listing := x; starting := starting f; removing := removing f; removed := removed f;
     posted := posted f; tails_stopped := tails_stopped f; looks := looks f; next_scan := next_scan f; clock := clock f; next_id := next_id f; effects := effects f |}.
Definition with_starting (x : option N) (f : Fleet) : Fleet :=
  {| volumes := volumes f; shared := shared f; supervised := supervised f; listing := listing f; starting := x; removing := removing f; removed := removed f;
     posted := posted f; tails_stopped := tails_stopped f; looks := looks f; next_scan := next_scan f; clock := clock f; next_id := next_id f; effects := effects f |}.
Definition with_removing (x : gmap (list N) Removing) (f : Fleet) : Fleet :=
  {| volumes := volumes f; shared := shared f; supervised := supervised f; listing := listing f; starting := starting f; removing := x; removed := removed f;
     posted := posted f; tails_stopped := tails_stopped f; looks := looks f; next_scan := next_scan f; clock := clock f; next_id := next_id f; effects := effects f |}.
Definition with_removed (x : list (list N * N)) (f : Fleet) : Fleet :=
  {| volumes := volumes f; shared := shared f; supervised := supervised f; listing := listing f; starting := starting f; removing := removing f; removed := x;
     posted := posted f; tails_stopped := tails_stopped f; looks := looks f; next_scan := next_scan f; clock := clock f; next_id := next_id f; effects := effects f |}.
Definition with_signals (p : list Posted) (s : bool) (l : option nat) (f : Fleet) : Fleet :=
  {| volumes := volumes f; shared := shared f; supervised := supervised f; listing := listing f; starting := starting f; removing := removing f; removed := removed f;
     posted := p; tails_stopped := s; looks := l; next_scan := next_scan f; clock := clock f; next_id := next_id f; effects := effects f |}.
Definition with_time (scan now : N) (f : Fleet) : Fleet :=
  {| volumes := volumes f; shared := shared f; supervised := supervised f; listing := listing f; starting := starting f; removing := removing f; removed := removed f;
     posted := posted f; tails_stopped := tails_stopped f; looks := looks f; next_scan := scan; clock := now; next_id := next_id f; effects := effects f |}.
Definition with_trace (id : N) (es : list Effect) (f : Fleet) : Fleet :=
  {| volumes := volumes f; shared := shared f; supervised := supervised f; listing := listing f; starting := starting f; removing := removing f; removed := removed f;
     posted := posted f; tails_stopped := tails_stopped f; looks := looks f; next_scan := next_scan f; clock := clock f; next_id := id; effects := es |}.

(** ** What is asked of the machine *)

Inductive WorkerReport := Reported (r : result string Started) | NotYet | WorkerDied.
Inductive ListingReport := Listed (r : result string (list VolumeInfo)) | ListingSlow | ListingDied.

(** By the time of asking: the word of a tail and whether its thread has ended;
    what receiving from a worker or a listing gives within a time, and how long
    it took; whether a thread can be started and a handle to it duplicated; the
    seconds awake; and how much longer than asked a sleep takes. *)
Class Machine := {
  m_pulse : N -> N -> N;
  m_finished : N -> N -> bool;
  m_recv : N -> N -> N -> WorkerReport * N;
  m_list : N -> N -> N -> ListingReport * N;
  m_spawns : N -> bool;
  m_handle : N -> bool;
  m_awake : N -> N;
  m_late : N -> N
}.

Section ops.
Context `{Unicode, Hasher} {Mc : Machine}.

(** ** Steps everything is made of *)

Definition effect (e : Effect) : ST Fleet unit := st_modify (fun f => with_trace (next_id f) (e :: effects f) f).
Definition fresh_id : ST Fleet N := fun f => Some (next_id f, with_trace (next_id f + 1) (effects f) f).
Definition sleep (d : N) : ST Fleet unit := st_modify (fun f => with_time (next_scan f) (clock f + d) f).
Definition instant : ST Fleet N := st_get clock.

(** [Signals::stopping]: one look at the flag. *)
Definition stopping : ST Fleet bool := fun f =>
  match looks f with
  | None => Some (false, f)
  | Some O => Some (true, f)
  | Some (S n) => Some (false, with_signals (posted f) (tails_stopped f) (Some n) f)
  end.

Definition with_phase (p : VolumePhase) (v : VolumeState) : VolumeState :=
  {| guid := guid v; mounts := mounts v; index := index v; phase := p; st_metadata_pending := st_metadata_pending v;
     journal_max_bytes := journal_max_bytes v; indexed := indexed v; scope_cache := scope_cache v |}.

Definition volume_at (s : Arc) : ST Fleet VolumeState := st_read (fun f => shared f !! arc_id s).
Definition set_phase (s : Arc) (p : VolumePhase) : ST Fleet unit := st_modify (fun f => with_shared (alter (with_phase p) (arc_id s) (shared f)) f).

Definition retire (ns : list N) : ST Fleet unit := st_for (fun n => effect (Unregistered n)) ns.

(** [Vec::swap_remove]. *)
Definition swap_remove {A} (i : nat) (l : list A) : option (A * list A) :=
  x ← l !! i; y ← last l; Some (x, take (pred (length l)) (<[i := y]> l)).

(** ** Stopping tails *)

(** One pass over the tails: those whose threads have ended are joined. *)
Fixpoint sweep (fuel i : nat) (tails : list N) : ST Fleet (list N) :=
  match fuel with
  | O => st_ret tails
  | S fuel =>
      match tails !! i with
      | None => st_ret tails
      | Some t =>
          now <- instant ;;
          if m_finished now t then
            rest <- st_read (fun _ => snd <$> swap_remove i tails) ;;
            effect (JoinedTail t) ;;; sweep fuel i rest
          else sweep fuel (S i) tails
      end
  end.

Fixpoint stop_loop (fuel : nat) (deadline : N) (grace : bool) (tails : list N) : ST Fleet unit :=
  match fuel with
  | O => st_fail
  | S fuel =>
      tails <- sweep (length tails) 0 tails ;;
      match tails with
      | [] => st_ret tt
      | _ =>
          now <- instant ;;
          if deadline <=? now then st_for (fun t => effect (AbandonedTail t)) tails
          else
            st_when (negb grace) (st_for (fun t => effect (CancelledTail t)) tails) ;;;
            sleep (TEARDOWN_POLL + m_late now) ;;;
            stop_loop fuel deadline false tails
      end
  end.

(** Rounds that are enough. *)
Definition stop_rounds : nat := N.to_nat (TEARDOWN_WAIT / TEARDOWN_POLL) + 2.

Definition stop_tails (tails : list N) : ST Fleet unit :=
  st_for (fun t => effect (SignalledTail t)) tails ;;;
  now <- instant ;;
  stop_loop stop_rounds (now + TEARDOWN_WAIT) true tails.

(** ** Starting a tail *)

Definition with_pending (p : option PendingRevival) (s : Supervised) : Supervised :=
  {| sv_state := sv_state s; sv_tail := sv_tail s; sv_notification := sv_notification s; revive_attempts := revive_attempts s; beating_since := beating_since s; sv_pending := p |}.
Definition with_budget (n : N) (b : option N) (s : Supervised) : Supervised :=
  {| sv_state := sv_state s; sv_tail := sv_tail s; sv_notification := sv_notification s; revive_attempts := n; beating_since := b; sv_pending := sv_pending s |}.
Definition with_tail (t : Started) (s : Supervised) : Supervised :=
  {| sv_state := sv_state s; sv_tail := Some (started_tail t); sv_notification := started_notification t; revive_attempts := revive_attempts s;
     beating_since := beating_since s; sv_pending := None |}.

Definition launch (s : Supervised) : ST Fleet Supervised :=
  now <- instant ;;
  if m_spawns now then
    w <- fresh_id ;;
    effect (Launched (arc_id (sv_state s)) w) ;;;
    st_ret (with_pending (Some {| pr_worker := w; pr_io := m_handle now; reported_blocked := false |}) s)
  else st_ret s.

(** [Supervised::start]. *)
Definition start (state : Arc) : ST Fleet Supervised :=
  launch {| sv_state := state; sv_tail := None; sv_notification := None; revive_attempts := 0; beating_since := None; sv_pending := None |}.

Definition launch_revival (s : Supervised) : ST Fleet Supervised :=
  v <- volume_at (sv_state s) ;;
  match phase v with
  | Live | Rescanning => set_phase (sv_state s) Offline
  | _ => st_ret tt
  end ;;;
  effect (Reviving (arc_id (sv_state s))) ;;;
  launch (with_budget (revive_attempts s + 1) None s).

(** A start that failed is said at once on a volume that has no index. *)
Definition start_failed (state : Arc) (e : string) : ST Fleet unit :=
  v <- volume_at state ;; st_when (negb (indexed v)) (set_phase state (Failed e)).

Definition poll_revival (s : Supervised) : ST Fleet Supervised :=
  match sv_pending s with
  | None => st_ret s
  | Some p =>
      now <- instant ;;
      match (m_recv now (pr_worker p) 0).1 with
      | Reported (Ok t) =>
          effect (HandedOver (pr_worker p) (started_tail t)) ;;;
          st_for (fun old => effect (JoinedTail old)) (option_list (sv_tail s)) ;;;
          retire (option_list (sv_notification s)) ;;;
          st_ret (with_tail t s)
      | Reported (Err e) => effect (StartEnded (pr_worker p)) ;;; start_failed (sv_state s) e ;;; st_ret (with_pending None s)
      | NotYet =>
          st_when (pr_io p) (effect (CancelledStart (pr_worker p))) ;;;
          st_ret (with_pending (Some {| pr_worker := pr_worker p; pr_io := pr_io p; reported_blocked := true |}) s)
      | WorkerDied => effect (StartEnded (pr_worker p)) ;;; st_ret (with_pending None s)
      end
  end.

Definition abandon (s : Supervised) : ST Fleet unit :=
  effect (GaveUp (arc_id (sv_state s))) ;;;
  v <- volume_at (sv_state s) ;;
  match given_up (phase v) with Some failed => set_phase (sv_state s) failed | None => st_ret tt end.

(** [Supervised::scan]; false when supervision should end. *)
Definition scan (now : N) (s : Supervised) : ST Fleet (bool * Supervised) :=
  match sv_pending s with
  | Some _ => s <- poll_revival s ;; st_ret (true, s)
  | None =>
      time <- instant ;;
      v <- volume_at (sv_state s) ;;
      let pulse := match sv_tail s with Some t => load (m_pulse time t) | None => Retired end in
      let snapshot := bool_decide (pulse = Retired) && bool_decide (phase v = Snapshot) in
      let s := if 0 <? revive_attempts s
               then with_budget (revive_attempts s) (accrue_health (beating_since s) pulse (bool_decide (phase v = Live)) now) s else s in
      let proven_healthy := match beating_since s with Some since => HEALTHY_AFTER <=? now - since | None => false end in
      match assess pulse now (revive_attempts s) proven_healthy snapshot with
      | Nothing => st_ret (true, s)
      | ResetBudget => effect (Refunded (arc_id (sv_state s))) ;;; st_ret (true, with_budget 0 None s)
      | CancelIo _ => st_for (fun t => effect (CancelledTail t)) (option_list (sv_tail s)) ;;; st_ret (true, s)
      | Revive => s <- launch_revival s ;; st_ret (true, s)
      | GiveUp => abandon s ;;; st_ret (false, s)
      | Release => effect (Released (arc_id (sv_state s))) ;;; st_ret (false, s)
      end
  end.

(** ** Letting go of a volume *)

Definition drain_pending (p : PendingRevival) (deadline : N) : ST Fleet (option Started) :=
  st_when (pr_io p) (effect (CancelledStart (pr_worker p))) ;;;
  now <- instant ;;
  let '(r, waited) := m_recv now (pr_worker p) (deadline - now) in
  sleep waited ;;;
  match r with
  | Reported (Ok t) => effect (HandedOver (pr_worker p) (started_tail t)) ;;; st_ret (Some t)
  | Reported (Err _) => effect (StartEnded (pr_worker p)) ;;; st_ret None
  | NotYet | WorkerDied => effect (AbandonedStart (pr_worker p)) ;;; st_ret None
  end.

Definition into_parts (s : Supervised) (deadline : N) : ST Fleet (list N * list N) :=
  fresh <- match sv_pending s with Some p => drain_pending p deadline | None => st_ret None end ;;
  st_ret (option_list (started_tail <$> fresh) ++ option_list (sv_tail s), option_list (fresh ≫= started_notification) ++ option_list (sv_notification s)).

Definition position_of (g : list N) (l : list Supervised) : option nat := fst <$> list_find (fun s => guid (arc_volume (sv_state s)) = g) l.

Definition release (g : list N) : ST Fleet (list N) :=
  st_modify (fun f => with_volumes (remove_volume g (volumes f)) f) ;;;
  l <- st_get supervised ;;
  match position_of g l with
  | None => st_ret []
  | Some i =>
      x <- st_read (fun _ => swap_remove i l) ;;
      st_modify (with_supervised x.2) ;;;
      now <- instant ;;
      parts <- into_parts x.1 (now + PENDING_DRAIN_WAIT) ;;
      stop_tails parts.1 ;;;
      st_ret parts.2
  end.

(** [Fleet::remove]. *)
Definition remove (g : list N) : ST Fleet unit := ns <- release g ;; retire ns.

(** ** In step with the machine *)

Definition guids (f : Fleet) : list (list N) := (fun v => guid (arc_volume v)) <$> current (volumes f).

(** A volume listed and not indexed. *)
Definition take_up (vol : VolumeInfo) : ST Fleet unit :=
  f <- st_get id ;;
  if bool_decide (is_Some (removing f !! guid_path vol)) || existsb (fun r => bool_decide (r.1 = guid_path vol)) (removed f) then st_ret tt
  else
    v <- st_read (fun _ => found_volume (guid_path vol) (vi_mounts vol)) ;;
    a <- fresh_id ;;
    st_modify (fun f => with_shared (<[a := v]> (shared f)) (with_volumes (add {| arc_id := a; arc_volume := v |} (volumes f)) f)) ;;;
    s <- start {| arc_id := a; arc_volume := v |} ;;
    st_modify (fun f => with_supervised (supervised f ++ [s]) f).

(** The volumes gone from the listing, unless shutdown begins; whether it has. *)
Fixpoint remove_gone (gs : list (list N)) : ST Fleet bool :=
  match gs with
  | [] => stopping
  | g :: gs => stop <- stopping ;; if (stop : bool) then st_ret true else remove g ;;; remove_gone gs
  end.

Definition reconcile (listed : list VolumeInfo) (taken : N) : ST Fleet unit :=
  st_modify (fun f => with_removed (filter (fun r => taken < r.2) (removed f)) f) ;;;
  indexed <- st_get guids ;;
  let changes := diff_volumes indexed listed in
  stop <- remove_gone (gone changes) ;;
  if (stop : bool) then st_ret tt else st_for take_up (found changes).

Definition discover : ST Fleet unit :=
  f <- st_get id ;;
  l <- match listing f with
       | Some l => st_modify (with_listing None) ;;; st_ret (Some l)
       | None => now <- instant ;; if m_spawns now then w <- fresh_id ;; st_ret (Some (w, now)) else st_ret None
       end ;;
  match l with
  | None => st_ret tt
  | Some (w, taken) =>
      now <- instant ;;
      let '(r, waited) := m_list now w LISTING_WAIT in
      sleep waited ;;;
      match r with
      | Listed (Ok listed) => reconcile listed taken
      | ListingSlow => st_modify (with_listing (Some (w, taken)))
      | Listed (Err _) | ListingDied => st_ret tt
      end
  end.

(** ** Removals *)

Definition on_removal (r : Removal) : ST Fleet bool :=
  let g := rm_guid r in
  f <- st_get id ;;
  let indexed := bool_decide (g ∈ guids f) in
  match rm_event r with
  | QueryRemove =>
      ns <- (if indexed then release g else st_ret []) ;;
      st_modify (fun f =>
        let entry := default {| notifications := []; rg_since := clock f |} (removing f !! g) in
        with_removing (<[g := {| notifications := notifications entry ++ ns; rg_since := rg_since entry |}]> (removing f)) f) ;;;
      st_ret false
  | QueryRemoveFailed =>
      match removing f !! g with
      | None => st_ret false
      | Some r => st_modify (with_removing (delete g (removing f))) ;;; retire (notifications r) ;;; st_ret true
      end
  | DeviceRemoved =>
      ns <- (if indexed then release g else st_ret []) ;;
      f <- st_get id ;;
      let rest := match removing f !! g with Some r => notifications r | None => [] end in
      st_modify (with_removing (delete g (removing f))) ;;;
      retire (ns ++ rest) ;;;
      st_modify (fun f => with_removed (filter (fun r => r.1 <> g) (removed f) ++ [(g, clock f)]) f) ;;;
      st_ret false
  end.

(** [Signals::hand_back]. *)
Definition hand_back (rest : list Posted) : ST Fleet unit :=
  st_modify (fun f => with_signals (posted f ++ rest) (tails_stopped f) (looks f) f).

Fixpoint act_loop (ps : list Posted) (relist : bool) : ST Fleet (option bool) :=
  match ps with
  | [] => stop <- stopping ;; st_ret (if (stop : bool) then None else Some relist)
  | p :: rest =>
      stop <- stopping ;;
      if (stop : bool) then hand_back (p :: rest) ;;; st_ret None
      else
        again <- on_removal (po_removal p) ;;
        st_for (fun c => effect (Answered c)) (option_list (po_done p)) ;;;
        act_loop rest (relist || again)
  end.

Definition act_on (ps : list Posted) : ST Fleet (option bool) := act_loop ps false.

Definition expire (g : list N) : ST Fleet unit :=
  f <- st_get id ;;
  match removing f !! g with
  | Some r => st_modify (with_removing (delete g (removing f))) ;;; retire (notifications r)
  | None => st_ret tt
  end.

Definition expire_removing : ST Fleet unit :=
  f <- st_get id ;;
  st_for expire (map_to_list (filter (fun '(_, r) => REMOVAL_OUTCOME_WAIT <= clock f - rg_since r) (removing f))).*1.

(** ** The scans *)

Definition settle_once_indexed : ST Fleet unit :=
  f <- st_get id ;;
  match starting f with
  | None => st_ret tt
  | Some _ =>
      vs <- st_map volume_at (current (volumes f)) ;;
      if existsb (fun v => bool_decide (phase v = Bootstrapping)) vs then st_ret tt
      else effect Settled ;;; st_modify (with_starting None)
  end.

(** Every supervised volume, the ones done with swapped out. *)
Fixpoint scan_all (fuel i : nat) (now : N) : ST Fleet unit :=
  match fuel with
  | O => st_ret tt
  | S fuel =>
      l <- st_get supervised ;;
      match l !! i with
      | None => st_ret tt
      | Some s =>
          r <- scan now s ;;
          st_modify (fun f => with_supervised (<[i := r.2]> (supervised f)) f) ;;;
          if r.1 : bool then scan_all fuel (S i) now
          else
            x <- st_read (fun f => swap_remove i (supervised f)) ;;
            st_modify (with_supervised x.2) ;;;
            retire (option_list (sv_notification x.1)) ;;;
            st_for (fun t => effect (JoinedTail t)) (option_list (sv_tail x.1)) ;;;
            scan_all fuel i now
      end
  end.

(** [Signals::wait], once it is over; [None] when shutdown has begun. *)
Definition wait : ST Fleet (option (list Posted)) :=
  stop <- stopping ;;
  if (stop : bool) then st_ret None
  else ps <- st_get posted ;; st_modify (fun f => with_signals [] (tails_stopped f) (looks f) f) ;;; st_ret (Some ps).

(** One turn of [scan_loop]; false when it returns. *)
Definition scan_turn : ST Fleet bool :=
  ps <- wait ;;
  match ps with
  | None => st_ret false
  | Some ps =>
      relist <- act_on ps ;;
      match relist with
      | None => st_ret false
      | Some relist =>
          st_when relist (discover ;;; st_modify (fun f => with_time (clock f + SCAN_INTERVAL) (clock f) f)) ;;;
          f <- st_get id ;;
          if clock f <? next_scan f then st_ret true
          else
            scan_all (length (supervised f)) 0 (m_awake (clock f)) ;;;
            expire_removing ;;;
            discover ;;;
            settle_once_indexed ;;;
            st_modify (fun f => with_time (clock f + SCAN_INTERVAL) (clock f) f) ;;;
            st_ret true
      end
  end.

(** [Fleet::stop_all], with [Signals::tails_stopped]: the queries still posted
    are let go of by dropping them. *)
Definition stop_all : ST Fleet unit :=
  now <- instant ;;
  l <- st_get supervised ;;
  parts <- st_map (fun s => into_parts s (now + PENDING_DRAIN_WAIT)) l ;;
  st_modify (with_supervised []) ;;;
  stop_tails (concat parts.*1) ;;;
  f <- st_get id ;;
  st_modify (with_signals [] true (Some O)) ;;;
  st_for (fun c => effect (Answered c)) (omap po_done (posted f)) ;;;
  retire (concat parts.*2) ;;;
  retire (concat ((fun x => notifications x.2) <$> map_to_list (removing f))).

(** ** From outside the thread *)

(** [Signals::post], by the thread of a notification. *)
Definition post (g : list N) (e : DeviceEvent) (callback : N) (f : Fleet) : Fleet :=
  match looks f with
  | Some O => f
  | _ =>
      let p := {| po_removal := {| rm_guid := g; rm_event := e |}; po_done := match e with QueryRemove => Some callback | _ => None end |} in
      with_signals (posted f ++ [p]) (tails_stopped f) (looks f) f
  end.

(** [Supervisor::shutdown] raises the flag. *)
Definition shutdown (f : Fleet) : Fleet := with_signals (posted f) (tails_stopped f) (Some O) f.

(** [Supervisor::spawn], up to the thread. *)
Definition spawn (now : N) (listed : list VolumeInfo) (registry : VolumeRegistry) (memory : gmap N VolumeState) (id : N) : option Fleet :=
  let fleet := {| volumes := registry; shared := memory; supervised := []; listing := None; starting := Some now; removing := ∅; removed := []; posted := [];
    tails_stopped := false; looks := None; next_scan := now + SCAN_INTERVAL; clock := now; next_id := id; effects := [] |} in
  snd <$> reconcile listed now fleet.
End ops.
