(* ===== verification/SupervisorOk.v ===== *)
(** The invariant of the supervision: whatever the machine answers and whatever
    other threads do between its steps, every volume is indexed once, has at most
    one tail or one start under way, and is left alone while its disk is being
    removed. *)

From Stdlib Require Import String.
From stdpp Require Import gmap.
From stdpp Require Import base option list sets relations.
From Stdlib Require Import NArith Lia.
From S2P Require Import Prelude Types Fold FrnMap NameStore Volume VolumeInv VolumeNew Server Registry Pulse Supervisor.
Open Scope N_scope.
Open Scope list_scope.

(** ** Steps that only watch *)

(** What a step leaves when it neither indexes nor lets go of a volume. *)
Record kept (f f' : Fleet) : Prop := {
  k_volumes : volumes f' = volumes f;
  k_supervised : supervised f' = supervised f;
  k_removing : removing f' = removing f;
  k_removed : removed f' = removed f;
  k_posted : posted f' = posted f;
  k_id : next_id f <= next_id f';
  k_clock : clock f <= clock f';
  k_shared : forall a, guid <$> shared f' !! a = guid <$> shared f !! a;
  k_effects : effects f `suffix_of` effects f';
  k_looks : looks f = None -> looks f' = None;
  k_stopped : tails_stopped f' = tails_stopped f
}.

#[export] Instance kept_preorder : PreOrder kept.
Proof.
  split.
  - intros f. split; done || lia.
  - intros f g h [? ? ? ? ? ? ? Hs ? ? ?] [? ? ? ? ? ? ? Hs' ? ? ?]. split; try congruence; try lia; [by etrans|auto].
Qed.

(** [quiet P m R]: on a fleet whose memory has the allocations [P], [m] returns
    something in [R] and keeps everything. *)
Definition quiet {A} (P : list N) (m : ST Fleet A) (R : A -> Prop) : Prop :=
  forall f, (forall a, a ∈ P -> is_Some (shared f !! a)) -> wp m (fun x f' => kept f f' /\ R x) f.

Lemma kept_has f f' a : kept f f' -> is_Some (shared f !! a) -> is_Some (shared f' !! a).
Proof. intros Hk [v E]. pose proof (k_shared _ _ Hk a) as Es. rewrite E in Es. destruct (shared f' !! a); [by eexists|done]. Qed.

Lemma quiet_bind {A B} P (m : ST Fleet A) (k : A -> ST Fleet B) R Q : quiet P m R -> (forall x, R x -> quiet P (k x) Q) -> quiet P (st_bind m k) Q.
Proof.
  intros Hm Hk f Hf. apply wp_bind. eapply wp_mono; [by apply Hm|]. intros x f' [Hff HR]. eapply wp_mono; [apply Hk; [done|]|].
  - intros a Ha. eapply kept_has; [exact Hff|by apply Hf].
  - intros y f'' [Hff' HQ]. split; [by etrans|done].
Qed.

Lemma quiet_ret {A} P (x : A) (R : A -> Prop) : R x -> quiet P (st_ret x) R.
Proof. intros HR f _. by apply wp_ret. Qed.

Lemma quiet_weaken {A} P (m : ST Fleet A) (R Q : A -> Prop) : quiet P m R -> (forall x, R x -> Q x) -> quiet P m Q.
Proof. intros Hm HRQ f Hf. eapply wp_mono; [by apply Hm|]. intros x f' [? ?]. auto. Qed.

Lemma quiet_get {A} P (g : Fleet -> A) (R : A -> Prop) : (forall f, R (g f)) -> quiet P (st_get g) R.
Proof. intros HR f _. by apply wp_get. Qed.

Lemma quiet_for {A} P (g : A -> ST Fleet unit) l : (forall x, x ∈ l -> quiet P (g x) (fun _ => True)) -> quiet P (st_for g l) (fun _ => True).
Proof.
  induction l as [|x l IH]; intros Hg; cbn [st_for]; [by apply quiet_ret|]. eapply quiet_bind; [apply Hg; by left|]. intros _ _. apply IH. intros y Hy. apply Hg. by right.
Qed.

Lemma quiet_when P (b : bool) m : quiet P m (fun _ => True) -> quiet P (st_when b m) (fun _ => True).
Proof. intros Hm. destruct b; [done|by apply quiet_ret]. Qed.

(** A step that changes nothing of it. *)
Ltac keeps := split; try done; cbn; try lia.

Section quiet_ops.
Context `{Unicode, Hasher} {Mc : Machine}.

Lemma quiet_effect P e : quiet P (effect e) (fun _ => True).
Proof. intros f _. apply wp_modify. split; [|done]. keeps. by apply suffix_cons_r. Qed.

Lemma quiet_fresh P : quiet P fresh_id (fun _ => True).
Proof. intros f _. cbn. split; [|done]. keeps. Qed.

Lemma quiet_sleep P d : quiet P (sleep d) (fun _ => True).
Proof. intros f _. apply wp_modify. split; [|done]. keeps. Qed.

Lemma quiet_instant P : quiet P instant (fun _ => True).
Proof. by apply quiet_get. Qed.

Lemma quiet_stopping P : quiet P stopping (fun _ => True).
Proof. intros f _. unfold stopping, wp. destruct (looks f) as [[|n]|] eqn:El; (split; [|done]); keeps; congruence. Qed.

Lemma quiet_volume_at s : quiet [arc_id s] (volume_at s) (fun _ => True).
Proof. intros f Hf. destruct (Hf (arc_id s)) as [v Hv]; [by left|]. eapply wp_read; [exact Hv|done]. Qed.

Lemma quiet_set_phase P s p : quiet P (set_phase s p) (fun _ => True).
Proof.
  intros f _. apply wp_modify. split; [|done]. keeps. intros a. destruct (decide (a = arc_id s)) as [->|Hne].
  - rewrite lookup_alter_eq. by destruct (shared f !! arc_id s).
  - by rewrite lookup_alter_ne.
Qed.

Lemma quiet_retire P ns : quiet P (retire ns) (fun _ => True).
Proof. apply quiet_for. intros. apply quiet_effect. Qed.
End quiet_ops.

(** ** Lists *)

Lemma swap_remove_spec {A} i (l : list A) x : l !! i = Some x -> exists l', swap_remove i l = Some (x, l') /\ l ≡ₚ x :: l'.
Proof.
  intros Hx. unfold swap_remove. rewrite Hx. cbn [mbind option_bind]. destruct l as [|y l] using rev_ind; [done|]. clear IHl.
  rewrite last_snoc. cbn [mbind option_bind]. eexists. split; [done|]. rewrite length_app, Nat.add_1_r. cbn [pred length].
  destruct (decide (i = length l)) as [->|Hne].
  - rewrite list_lookup_middle in Hx by done. injection Hx as ->. rewrite insert_app_r_alt by done. rewrite take_app_length. by rewrite Permutation_app_comm.
  - assert (Hi : (i < length l)%nat) by (apply lookup_lt_Some in Hx; rewrite length_app in Hx; cbn in Hx; lia).
    rewrite insert_app_l, take_app_le, take_ge by (rewrite ?length_insert; lia). rewrite lookup_app_l in Hx by done.
    rewrite <- (take_drop_middle l i x Hx) at 1. rewrite insert_take_drop by done. rewrite <- !app_assoc. cbn.
    rewrite <- Permutation_middle. f_equiv. apply Permutation_app_head. by rewrite Permutation_app_comm.
Qed.

Lemma filter_agree {A} (P Q : A -> Prop) `{!forall x, Decision (P x), !forall x, Decision (Q x)} (l : list A) : (forall x, x ∈ l -> P x <-> Q x) -> filter P l = filter Q l.
Proof.
  induction l as [|x l IH]; intros Hl; [done|]. rewrite !filter_cons. rewrite IH by (intros y Hy; apply Hl; by right). pose proof (Hl x ltac:(by left)). repeat case_decide; tauto.
Qed.

Lemma filter_whole {A} (P : A -> Prop) `{!forall x, Decision (P x)} (l : list A) : (forall x, x ∈ l -> P x) -> filter P l = l.
Proof. induction l as [|x l IH]; intros Hl; [done|]. rewrite filter_cons_True by (apply Hl; by left). f_equal. apply IH. intros y Hy. apply Hl. by right. Qed.

(** ** Stopping tails *)

Definition done_with (t : N) (es : list Effect) : Prop := JoinedTail t ∈ es \/ AbandonedTail t ∈ es.

Lemma suffix_elem {A} (x : A) l k : l `suffix_of` k -> x ∈ l -> x ∈ k.
Proof. intros [k' ->] Hx. apply elem_of_app. by right. Qed.

Lemma done_with_later t l k : l `suffix_of` k -> done_with t l -> done_with t k.
Proof. intros Hs [Hd|Hd]; [left|right]; by eapply suffix_elem. Qed.

Section stopping_tails.
Context `{Unicode, Hasher} {Mc : Machine}.

Lemma wp_effect e (Q : unit -> Fleet -> Prop) f : Q tt (with_trace (next_id f) (e :: effects f) f) -> wp (effect e) Q f.
Proof. intros HQ. by apply wp_modify. Qed.

Lemma kept_effect e f : kept f (with_trace (next_id f) (e :: effects f) f).
Proof. keeps. by apply suffix_cons_r. Qed.

Lemma sweep_spec fuel : forall i tails f,
  wp (sweep fuel i tails) (fun rest f' => kept f f' /\ clock f' = clock f /\ forall t, t ∈ tails -> t ∈ rest \/ done_with t (effects f')) f.
Proof.
  induction fuel as [|fuel IH]; intros i tails f; cbn [sweep]; [apply wp_ret; split_and!; [done|done|auto]|]. destruct (tails !! i) as [t|] eqn:Et; [|apply wp_ret; split_and!; [done|done|auto]].
  apply wp_bind, wp_get. destruct (m_finished _ _); [|by apply IH]. destruct (swap_remove_spec _ _ _ Et) as (rest & Er & Hp).
  apply wp_bind. eapply wp_read; [by rewrite Er|]. apply wp_bind, wp_effect. eapply wp_mono; [apply IH|]. intros rest' f' (Hk & Hc & Hall).
  split; [etrans; [apply kept_effect|exact Hk]|]. split; [done|]. intros u Hu. rewrite Hp in Hu. apply elem_of_cons in Hu as [->|Hu]; [|by apply Hall].
  right. left. eapply suffix_elem; [apply Hk|]. by left.
Qed.

Lemma effects_each (g : N -> Effect) ts : forall f, wp (st_for (fun t => effect (g t)) ts) (fun _ f' => kept f f' /\ clock f' = clock f /\ forall t, t ∈ ts -> g t ∈ effects f') f.
Proof.
  induction ts as [|t ts IH]; intros f; cbn [st_for]; [apply wp_ret; split; [done|]; split; [done|]; by intros t Ht%elem_of_nil|].
  apply wp_bind, wp_effect. eapply wp_mono; [apply IH|]. intros _ f' (Hk & Hc & Hall). split; [etrans; [apply kept_effect|exact Hk]|]. split; [done|].
  intros u [->|Hu]%elem_of_cons; [|by apply Hall]. eapply suffix_elem; [apply Hk|]. by left.
Qed.

Lemma stop_loop_spec deadline : forall fuel grace tails f, deadline <= clock f + TEARDOWN_POLL * (N.of_nat fuel - 1) ->
  (1 <= fuel)%nat -> wp (stop_loop fuel deadline grace tails) (fun _ f' => kept f f' /\ forall t, t ∈ tails -> done_with t (effects f')) f.
Proof.
  induction fuel as [|fuel IH]; intros grace tails f Hd Hf; [lia|]. cbn [stop_loop]. apply wp_bind. eapply wp_mono; [apply sweep_spec|].
  intros rest f1 (Hk & Hc & Hall). destruct rest as [|r rest].
  { apply wp_ret. split; [done|]. intros t Ht. destruct (Hall t Ht) as [Hin|]; [by apply elem_of_nil in Hin|done]. }
  apply wp_bind, wp_get. destruct (N.leb_spec deadline (clock f1)) as [Hle|Hgt].
  - eapply wp_mono; [apply effects_each|]. intros _ f2 (Hk2 & _ & Heach). split; [by etrans|]. intros t Ht. destruct (Hall t Ht) as [Hin|Hdone]; [by right; apply Heach|].
    eapply done_with_later; [apply Hk2|done].
  - apply wp_bind. eapply wp_mono with (Q := fun _ f2 => kept f1 f2 /\ clock f2 = clock f1).
    { apply wp_when; [|done]. intros _. eapply wp_mono; [apply effects_each|]. by intros _ f2 (? & ? & _). }
    intros _ f2 [Hk2 Hc2]. apply wp_bind, wp_modify. unfold TEARDOWN_POLL in *. eapply wp_mono; [apply IH; cbn; lia|].
    intros _ f3 [Hk3 Hall3]. assert (Hkk : kept f f3) by (etrans; [exact Hk|]; etrans; [exact Hk2|]; etrans; [|exact Hk3]; keeps). split; [done|].
    intros t Ht. destruct (Hall t Ht) as [Hin|Hdone]; [by apply Hall3|]. eapply done_with_later; [|exact Hdone]. etrans; [apply Hk2|]. apply Hk3.
Qed.

Lemma stop_tails_spec tails f : wp (stop_tails tails) (fun _ f' => kept f f' /\ forall t, t ∈ tails -> done_with t (effects f')) f.
Proof.
  unfold stop_tails. apply wp_bind. eapply wp_mono; [apply effects_each|]. intros _ f1 (Hk & Hc & _). apply wp_bind, wp_get.
  eapply wp_mono; [apply stop_loop_spec; unfold stop_rounds, TEARDOWN_WAIT, TEARDOWN_POLL; vm_compute (5000 / 250); cbn; lia|].
  intros _ f2 [Hk2 Hall]. split; [by etrans|done].
Qed.
End stopping_tails.

(** ** Starting and watching *)

#[export] Hint Resolve quiet_effect quiet_fresh quiet_sleep quiet_instant quiet_stopping quiet_volume_at quiet_set_phase quiet_retire : quiet.
#[export] Hint Extern 1 (quiet _ (st_for _ _) _) => apply quiet_for; intros; apply quiet_effect : quiet.
#[export] Hint Extern 1 (quiet _ (st_when _ _) _) => apply quiet_when : quiet.
Ltac quiet_step := eapply quiet_bind; [solve [auto with quiet]|intros].
Ltac quiet_end := apply quiet_ret; done.

Section watching.
Context `{Unicode, Hasher} {Mc : Machine}.

Lemma quiet_launch P s : quiet P (launch s) (fun s' => sv_state s' = sv_state s).
Proof. unfold launch. quiet_step. destruct (m_spawns _); [|quiet_end]. do 2 quiet_step. quiet_end. Qed.

Lemma quiet_start P a : quiet P (start a) (fun s => sv_state s = a).
Proof. apply quiet_launch. Qed.

Lemma quiet_launch_revival s : quiet [arc_id (sv_state s)] (launch_revival s) (fun s' => sv_state s' = sv_state s).
Proof.
  unfold launch_revival. eapply quiet_bind; [apply quiet_volume_at|]. intros v _. eapply quiet_bind with (R := fun _ => True); [destruct (phase v); auto using quiet_ret with quiet|].
  intros _ _. quiet_step. apply (quiet_launch _ (with_budget _ _ s)).
Qed.

Lemma quiet_start_failed a e : quiet [arc_id a] (start_failed a e) (fun _ => True).
Proof. unfold start_failed. eapply quiet_bind; [apply quiet_volume_at|]. intros v _. apply quiet_when, quiet_set_phase. Qed.

Lemma quiet_poll s : quiet [arc_id (sv_state s)] (poll_revival s) (fun s' => sv_state s' = sv_state s).
Proof.
  unfold poll_revival. destruct (sv_pending s) as [p|]; [|quiet_end]. quiet_step. destruct (m_recv _ _ _).1 as [[t|e]| |].
  - do 3 quiet_step. quiet_end.
  - quiet_step. eapply quiet_bind; [apply quiet_start_failed|]. intros _ _. quiet_end.
  - quiet_step. quiet_end.
  - quiet_step. quiet_end.
Qed.

Lemma quiet_abandon s : quiet [arc_id (sv_state s)] (abandon s) (fun _ => True).
Proof. unfold abandon. quiet_step. eapply quiet_bind; [apply quiet_volume_at|]. intros v _. destruct (given_up _); auto using quiet_ret with quiet. Qed.

Lemma quiet_scan now s : quiet [arc_id (sv_state s)] (scan now s) (fun r => sv_state r.2 = sv_state s).
Proof.
  unfold scan. destruct (sv_pending s) as [p|].
  { eapply quiet_bind; [apply quiet_poll|]. intros s' Es. apply quiet_ret. exact Es. }
  quiet_step. eapply quiet_bind; [apply quiet_volume_at|]. intros v _. cbn zeta.
  set (s1 := if 0 <? revive_attempts s then _ else s). assert (Es : sv_state s1 = sv_state s) by (unfold s1; by destruct (0 <? _)).
  rewrite <- Es. destruct (assess _ _ _ _ _).
  - apply quiet_ret. done.
  - quiet_step. apply quiet_ret. done.
  - quiet_step. apply quiet_ret. done.
  - eapply quiet_bind; [apply quiet_launch_revival|]. intros s' Es'. apply quiet_ret. exact Es'.
  - eapply quiet_bind; [apply quiet_abandon|]. intros _ _. apply quiet_ret. done.
  - quiet_step. apply quiet_ret. done.
Qed.

Lemma quiet_drain P p deadline : quiet P (drain_pending p deadline) (fun _ => True).
Proof.
  unfold drain_pending. do 2 quiet_step. destruct (m_recv _ _ _) as [r waited]. quiet_step. destruct r as [[]| |]; quiet_step; quiet_end.
Qed.

Lemma quiet_into_parts P s deadline : quiet P (into_parts s deadline) (fun parts => forall t, sv_tail s = Some t -> t ∈ parts.1).
Proof.
  unfold into_parts. eapply quiet_bind with (R := fun _ => True); [destruct (sv_pending s); [apply quiet_drain|by apply quiet_ret]|].
  intros fresh _. apply quiet_ret. intros t ->. cbn. apply elem_of_app. right. by left.
Qed.

(** ** The invariant *)

Definition sv_guid (s : Supervised) : list N := guid (arc_volume (sv_state s)).

Record fleet_ok (f : Fleet) : Prop := {
  fo_guids : NoDup (guids f);
  fo_fresh : forall v, v ∈ current (volumes f) -> arc_id v < next_id f;
  fo_shared : forall v, v ∈ current (volumes f) -> guid <$> shared f !! arc_id v = Some (guid (arc_volume v));
  fo_arcs : NoDup (arc_id <$> current (volumes f));
  fo_once : NoDup (sv_guid <$> supervised f);
  fo_member : forall s, s ∈ supervised f -> sv_state s ∈ current (volumes f);
  fo_removing : forall g, is_Some (removing f !! g) -> g ∉ guids f;
  fo_removed : forall g t, (g, t) ∈ removed f -> g ∉ guids f
}.

Lemma kept_guids f f' : kept f f' -> guids f' = guids f.
Proof. intros Hk. unfold guids. by rewrite (k_volumes _ _ Hk). Qed.

Lemma fleet_ok_kept f f' : fleet_ok f -> kept f f' -> fleet_ok f'.
Proof.
  intros [H1 H2 H3 H4 H5 H6 H7 H8] Hk. pose proof (kept_guids _ _ Hk) as Eg. destruct Hk as [Ev Es Er Ed _ Hid _ Hsh _ _]. split; rewrite ?Eg, ?Ev, ?Es, ?Er, ?Ed; try done.
  - intros v Hv. specialize (H2 v Hv). lia.
  - intros v Hv. rewrite Hsh. by apply H3.
Qed.

(** A quiet step, on a fleet in order. *)
Lemma quiet_ok {A} P (m : ST Fleet A) R f : quiet P m R -> fleet_ok f -> (forall a, a ∈ P -> is_Some (shared f !! a)) ->
  wp m (fun x f' => fleet_ok f' /\ kept f f' /\ R x) f.
Proof. intros Hq Hf HP. eapply wp_mono; [by apply Hq|]. intros x f' [Hk HR]. split; [by eapply fleet_ok_kept|done]. Qed.

Lemma member_shared f s : fleet_ok f -> s ∈ supervised f -> is_Some (shared f !! arc_id (sv_state s)).
Proof. intros Hf Hs. pose proof (fo_shared _ Hf _ (fo_member _ Hf _ Hs)) as E. by destruct (shared f !! _). Qed.
End watching.

(** ** Letting go *)

(** Nothing is left of a volume, and its tail is stopped. *)
Record let_go (g : list N) (f f' : Fleet) : Prop := {
  lg_ok : fleet_ok f';
  lg_guids : guids f' = filter (fun h => h <> g) (guids f);
  lg_others : forall s, s ∈ supervised f' <-> s ∈ supervised f /\ sv_guid s <> g;
  lg_removing : removing f' = removing f;
  lg_removed : removed f' = removed f;
  lg_posted : posted f' = posted f;
  lg_clock : clock f <= clock f';
  lg_effects : effects f `suffix_of` effects f';
  lg_looks : looks f = None -> looks f' = None;
  lg_tail : forall s t, s ∈ supervised f -> sv_guid s = g -> sv_tail s = Some t -> done_with t (effects f')
}.

Lemma let_go_kept g f f1 f2 : let_go g f f1 -> kept f1 f2 -> let_go g f f2.
Proof.
  intros [H1 H2 H3 H4 H5 H6 H7 H8 Hlk H9] Hk. pose proof (fleet_ok_kept _ _ H1 Hk) as Hok. pose proof (kept_guids _ _ Hk) as Eg. destruct Hk as [Ev Es Er Ed Ep Hid Hcl Hsh He Hl].
  split; rewrite ?Eg, ?Es, ?Er, ?Ed, ?Ep; auto; [lia|by etrans|]. intros s t Hs Hg Ht. eapply done_with_later; [exact He|by eapply H9].
Qed.

Lemma guids_removed g f : guids (with_volumes (remove_volume g (volumes f)) f) = filter (fun h => h <> g) (guids f).
Proof.
  unfold guids, current, remove_volume. cbn [volumes with_volumes registry_set]. induction (registry_set (volumes f)) as [|v l IH]; [done|]. 
  rewrite fmap_cons, filter_cons. cbn [filter list_filter]. case_decide; [|exact IH]. rewrite fmap_cons. by f_equal.
Qed.

Section letting_go.
Context `{Unicode, Hasher} {Mc : Machine}.

Lemma fleet_ok_without g f sv : fleet_ok f -> NoDup (sv_guid <$> sv) -> (forall s, s ∈ sv -> s ∈ supervised f /\ sv_guid s <> g) ->
  fleet_ok (with_supervised sv (with_volumes (remove_volume g (volumes f)) f)).
Proof.
  intros [H1 H2 H3 H4 H5 H6 H7 H8] Hnd Hsv. pose proof (guids_removed g f) as Eg.
  assert (Eg' : guids (with_supervised sv (with_volumes (remove_volume g (volumes f)) f)) = filter (fun h => h <> g) (guids f)) by exact Eg.
  assert (Hin : forall v, v ∈ current (remove_volume g (volumes f)) -> v ∈ current (volumes f)) by (intros v [_ Hv]%list_elem_of_filter; done).
  split; rewrite ?Eg'; cbn; auto using NoDup_filter.
  - eapply sublist_NoDup; [exact H4|]. apply (sublist_map arc_id). apply (sublist_filter (A := Arc)).
  - intros s Hs. destruct (Hsv s Hs) as [Hm Hne]. apply list_elem_of_filter. split; [done|by apply H6].
  - intros h Hh. rewrite list_elem_of_filter. intros [_ Hg]. by eapply H7.
  - intros h t Hh. rewrite list_elem_of_filter. intros [_ Hg]. by eapply H8.
Qed.

Lemma release_spec g f : fleet_ok f -> wp (release g) (fun _ f' => let_go g f f') f.
Proof.
  intros Hf. unfold release. apply wp_bind, wp_modify, wp_bind, wp_get. cbn [supervised with_volumes]. unfold position_of.
  destruct (list_find _ (supervised f)) as [[i s]|] eqn:Ef; cbn [fmap option_fmap option_map].
  - apply list_find_Some in Ef as (Es & Eg & _). destruct (swap_remove_spec _ _ _ Es) as (l' & Er & Hp). apply wp_bind. eapply wp_read; [exact Er|].
    apply wp_bind, wp_modify, wp_bind, wp_get. cbn [fst snd]. set (f1 := with_supervised l' _).
    assert (Hothers : forall x, x ∈ l' <-> x ∈ supervised f /\ sv_guid x <> g).
    { pose proof (fo_once _ Hf) as Hnd. rewrite Hp in Hnd. apply NoDup_cons in Hnd as [Hn _]. intros x. rewrite Hp, elem_of_cons. split.
      - intros Hx. split; [by right|]. intros E. apply Hn. rewrite (Eg : sv_guid s = g), <- E. by apply list_elem_of_fmap_2.
      - intros [[->|Hx] Hne]; [|done]. by destruct Hne. }
    assert (Hok1 : fleet_ok f1).
    { apply fleet_ok_without; [done| |by intros x Hx; apply Hothers]. pose proof (fo_once _ Hf) as Hnd. rewrite Hp in Hnd. by apply NoDup_cons in Hnd as [_ ?]. }
    apply wp_bind. eapply wp_mono; [apply (quiet_into_parts [] s); by intros a Ha%elem_of_nil|]. intros parts f2 [Hk2 Ht]. apply wp_bind.
    eapply wp_mono; [apply stop_tails_spec|]. intros _ f3 [Hk3 Hall]. apply wp_ret. assert (Hk : kept f1 f3) by (by etrans).
    pose proof (kept_guids _ _ Hk) as Eg3. pose proof (fleet_ok_kept _ _ Hok1 Hk) as Hok3. destruct Hk as [Ev Esv Erm Ed Epo Hid Hcl Hsh He Hlk].
    split; rewrite ?Eg3, ?Esv, ?Erm, ?Ed, ?Epo; try done; [apply guids_removed|].
    intros x t Hx Hg Htx. apply Hall. assert (x = s) as ->; [|by apply Ht].
    rewrite Hp, elem_of_cons in Hx. destruct Hx as [->|Hx]; [done|]. by apply Hothers in Hx as [_ []].
  - apply wp_ret. apply list_find_None in Ef. rewrite Forall_forall in Ef.
    assert (Hok : fleet_ok (with_volumes (remove_volume g (volumes f)) f)).
    { apply (fleet_ok_without g f (supervised f)); [done|apply Hf|]. intros s Hs. split; [done|]. by apply Ef. }
    split; try done; [apply guids_removed| |].
    + intros s. cbn. split; [|by intros [? _]]. intros Hs. split; [done|]. by apply Ef.
    + intros s t Hs Hg _. by destruct (Ef s Hs).
Qed.

Lemma let_go_gone g f f' : let_go g f f' -> g ∉ guids f' /\ g ∉ (sv_guid <$> supervised f').
Proof.
  intros Hl. split.
  - rewrite (lg_guids _ _ _ Hl), list_elem_of_filter. by intros [? _].
  - intros (s & E & Hs)%list_elem_of_fmap. apply (lg_others _ _ _ Hl) in Hs as [_ Hne]. by apply Hne.
Qed.

Lemma remove_spec g f : fleet_ok f -> wp (remove g) (fun _ f' => let_go g f f') f.
Proof.
  intros Hf. unfold remove. apply wp_bind. eapply wp_mono; [by apply release_spec|]. intros ns f1 Hl.
  eapply wp_mono; [apply (quiet_retire []); by intros a Ha%elem_of_nil|]. intros _ f2 [Hk _]. exact (let_go_kept _ _ _ _ Hl Hk).
Qed.
End letting_go.
