(* ===== verification/SupervisorTails.v ===== *)
(** The books of the supervisor: every start it launched is under way, was heard
    of, or was given up on, and every tail a worker handed over is held, joined,
    or given up on, each exactly once.  A token stands for a start under way or
    a tail; the log of effects opens and closes tokens, and what was opened is
    what was closed and what is held. *)

From Stdlib Require Import String.
From stdpp Require Import gmap.
From stdpp Require Import base option list sets.
From Stdlib Require Import NArith Lia.
From S2P Require Import Prelude Types Fold NameStore Volume Server Registry Pulse Supervisor SupervisorOk.
Open Scope N_scope.
Open Scope list_scope.

Inductive Token := Starting (worker : N) | Running (tail : N).

Definition opened_by (e : Effect) : list Token :=
  match e with Launched _ w => [Starting w] | HandedOver _ t => [Running t] | _ => [] end.
Definition closed_by (e : Effect) : list Token :=
  match e with
  | HandedOver w _ | StartEnded w | AbandonedStart w => [Starting w]
  | JoinedTail t | AbandonedTail t => [Running t]
  | _ => []
  end.
Definition opened (es : list Effect) : list Token := es ≫= opened_by.
Definition closed (es : list Effect) : list Token := es ≫= closed_by.

(** What is open by the log is [h]. *)
Definition tally (es : list Effect) (h : list Token) : Prop := opened es ≡ₚ h ++ closed es.

#[export] Instance tally_proper es : Proper ((≡ₚ) ==> iff) (tally es).
Proof. intros h h' E. unfold tally. by rewrite E. Qed.

Definition tokens (s : Supervised) : list Token := option_list (Starting ∘ pr_worker <$> sv_pending s) ++ option_list (Running <$> sv_tail s).
Definition held (f : Fleet) : list Token := supervised f ≫= tokens.
Definition accounted (f : Fleet) : Prop := tally (effects f) (held f).

(** So a tail a worker handed over was joined or given up on, or is a supervised
    volume's. *)
Lemma accounted_tail f w t : accounted f -> HandedOver w t ∈ effects f -> done_with t (effects f) \/ exists s, s ∈ supervised f /\ sv_tail s = Some t.
Proof.
  intros Hf Ht. assert (Hin : Running t ∈ opened (effects f)) by (apply list_elem_of_bind; exists (HandedOver w t); split; [by left|done]).
  unfold accounted, tally in Hf. rewrite Hf, elem_of_app in Hin. destruct Hin as [(s & Hs & Hm)%list_elem_of_bind|(e & He & Hm)%list_elem_of_bind].
  - right. exists s. split; [done|]. unfold tokens in Hs. rewrite elem_of_app in Hs. destruct (sv_pending s), (sv_tail s); cbn in Hs; destruct Hs as [Hs|Hs];
    try (by apply elem_of_nil in Hs); apply list_elem_of_singleton in Hs; congruence.
  - left. destruct e; cbn in He; try (by apply elem_of_nil in He); apply list_elem_of_singleton in He as [= ->]; [by left|by right].
Qed.

(** [carries i m o]: [m] leaves the list of supervised volumes alone, takes the
    tokens [i] and leaves [o]. *)
Definition carries {A} (i : list Token) (m : ST Fleet A) (o : A -> list Token) : Prop :=
  forall f x f', m f = Some (x, f') -> supervised f' = supervised f /\ forall h, tally (effects f) (i ++ h) -> tally (effects f') (o x ++ h).

Lemma carries_ret {A} (x : A) o : carries (o x) (st_ret x) o.
Proof. intros f y f' [= <- <-]. done. Qed.

Lemma carries_bind {A B} i (m : ST Fleet A) o (k : A -> ST Fleet B) o' : carries i m o -> (forall x, carries (o x) (k x) o') -> carries i (st_bind m k) o'.
Proof.
  intros Hm Hk f y f'. unfold st_bind. destruct (m f) as [[x f1]|] eqn:E; [|done]. intros E'. destruct (Hm _ _ _ E) as [Es Ht], (Hk _ _ _ _ E') as [Es' Ht'].
  split; [congruence|]. intros h Hh. by apply Ht', Ht.
Qed.

Lemma carries_perm {A} i i' (m : ST Fleet A) o o' : i ≡ₚ i' -> (forall x, o x ≡ₚ o' x) -> carries i m o -> carries i' m o'.
Proof.
  intros Ei Eo Hm f x f' E. destruct (Hm _ _ _ E) as [Es Ht]. split; [done|]. intros h Hh. rewrite <- Eo. apply Ht. by rewrite Ei.
Qed.

Lemma carries_frame {A} r i (m : ST Fleet A) o : carries i m o -> carries (i ++ r) m (fun x => o x ++ r).
Proof. intros Hm f x f' E. destruct (Hm _ _ _ E) as [Es Ht]. split; [done|]. intros h. rewrite <- !app_assoc. apply Ht. Qed.

(** A step that has nothing to do with them. *)
Definition idle {A} (m : ST Fleet A) : Prop := carries [] m (fun _ => []).

Lemma idle_keeps {A} r (m : ST Fleet A) : idle m -> carries r m (fun _ => r).
Proof. intros Hm. apply (carries_frame r) in Hm. exact Hm. Qed.

Lemma idle_bind {A B} (m : ST Fleet A) (k : A -> ST Fleet B) : idle m -> (forall x, idle (k x)) -> idle (st_bind m k).
Proof. intros Hm Hk. by eapply carries_bind. Qed.

Lemma idle_ret {A} (x : A) : idle (st_ret x).
Proof. apply (carries_ret x (fun _ => [])). Qed.

(** First an idle step. *)
Lemma carries_after {A B} i (m : ST Fleet A) (k : A -> ST Fleet B) o : idle m -> (forall x, carries i (k x) o) -> carries i (st_bind m k) o.
Proof. intros Hm Hk. eapply carries_bind; [by apply idle_keeps|exact Hk]. Qed.

Lemma carries_effect e : carries (closed_by e) (effect e) (fun _ => opened_by e).
Proof.
  intros f [] f' [= <-]. split; [done|]. intros h. unfold tally. cbn [effects with_trace]. change (opened (e :: effects f)) with (opened_by e ++ opened (effects f)).
  change (closed (e :: effects f)) with (closed_by e ++ closed (effects f)). intros ->. rewrite <- !app_assoc. apply Permutation_app_head.
  rewrite !app_assoc. apply Permutation_app_tail, Permutation_app_comm.
Qed.

(** First an effect that closes [i] and opens [o]. *)
Lemma carries_event {B} e r (k : unit -> ST Fleet B) o : (forall x, carries (opened_by e ++ r) (k x) o) -> carries (closed_by e ++ r) (st_bind (effect e) k) o.
Proof. intros Hk. eapply carries_bind; [apply carries_frame, carries_effect|exact Hk]. Qed.

Lemma idle_for {A} (g : A -> ST Fleet unit) l : (forall x, idle (g x)) -> idle (st_for g l).
Proof. intros Hg. induction l as [|x l IH]; [apply idle_ret|]. apply idle_bind; [apply Hg|]. intros _. exact IH. Qed.

Lemma idle_when (b : bool) m : idle m -> idle (st_when b m).
Proof. intros Hm. destruct b; [done|apply idle_ret]. Qed.

(** Effects that each close one token. *)
Lemma carries_each (g : N -> Effect) (tok : N -> Token) ts :
  (forall t, closed_by (g t) = [tok t]) -> (forall t, opened_by (g t) = []) -> carries (tok <$> ts) (st_for (fun t => effect (g t)) ts) (fun _ => []).
Proof.
  intros Hc Ho. induction ts as [|t ts IH]; [apply idle_ret|]. cbn [st_for fmap list_fmap]. pose proof (carries_event (B := unit) (g t) (tok <$> ts)) as He. rewrite Hc, Ho in He. by apply He.
Qed.

Section steps.
Context `{Unicode, Hasher} {Mc : Machine}.

Lemma idle_effect e : opened_by e = [] -> closed_by e = [] -> idle (effect e).
Proof. intros Ho Hc. pose proof (carries_effect e) as He. rewrite Ho, Hc in He. exact He. Qed.

Lemma idle_get {A} (g : Fleet -> A) : idle (st_get g).
Proof. by intros f x f' [= <- <-]. Qed.

Lemma idle_read {A} (g : Fleet -> option A) : idle (st_read g).
Proof. intros f x f'. unfold st_read. destruct (g f); [|done]. by intros [= <- <-]. Qed.

Lemma idle_sleep d : idle (sleep d).
Proof. by intros f x f' [= <- <-]. Qed.

Lemma idle_fresh : idle fresh_id.
Proof. by intros f x f' [= <- <-]. Qed.

Lemma idle_set_phase s p : idle (set_phase s p).
Proof. by intros f x f' [= <- <-]. Qed.

Lemma idle_stopping : idle stopping.
Proof. intros f x f'. unfold stopping. destruct (looks f) as [[|n]|]; by intros [= <- <-]. Qed.

Lemma idle_retire ns : idle (retire ns).
Proof. apply idle_for. intros n. by apply idle_effect. Qed.

Lemma carries_launch s : sv_pending s = None -> carries (tokens s) (launch s) tokens.
Proof.
  intros Hp. unfold launch. apply carries_after; [apply idle_get|]. intros now. destruct (m_spawns now); [|apply (carries_ret s)].
  apply carries_after; [apply idle_fresh|]. intros w. unfold tokens at 1. rewrite Hp. cbn [fmap option_fmap option_map option_list app].
  refine (carries_event (Launched (arc_id (sv_state s)) w) _ _ _ _). intros _. cbn [opened_by].
  exact (carries_ret (with_pending (Some {| pr_worker := w; pr_io := m_handle now; reported_blocked := false |}) s) tokens).
Qed.

Lemma carries_launch_revival s : sv_pending s = None -> carries (tokens s) (launch_revival s) tokens.
Proof.
  intros Hp. unfold launch_revival. apply carries_after; [apply idle_read|]. intros v. apply carries_after; [destruct (phase v); auto using idle_ret, idle_set_phase|]. intros _.
  apply carries_after; [by apply idle_effect|]. intros _. by apply (carries_launch (with_budget (revive_attempts s + 1) None s)).
Qed.

Lemma idle_start_failed a e : idle (start_failed a e).
Proof. apply idle_bind; [apply idle_read|]. intros v. apply idle_when, idle_set_phase. Qed.

Lemma joins_old (o : option N) : carries (option_list (Running <$> o)) (st_for (fun t => effect (JoinedTail t)) (option_list o)) (fun _ => []).
Proof. pose proof (carries_each JoinedTail Running (option_list o) (fun _ => eq_refl) (fun _ => eq_refl)) as Hc. by destruct o. Qed.

Lemma carries_poll s : carries (tokens s) (poll_revival s) tokens.
Proof.
  unfold poll_revival. destruct (sv_pending s) as [p|] eqn:Hp; [|apply (carries_ret s)]. apply carries_after; [apply idle_get|]. intros now.
  unfold tokens at 1. rewrite Hp. cbn [fmap option_fmap option_map option_list app compose]. destruct (m_recv _ _ _).1 as [[t|e]| |].
  - refine (carries_event (HandedOver (pr_worker p) (started_tail t)) _ _ _ _). intros _. cbn [opened_by].
    eapply carries_bind with (o := fun _ => [Running (started_tail t)]).
    { apply (carries_perm (option_list (Running <$> sv_tail s) ++ [Running (started_tail t)]) _ _ (fun _ => [Running (started_tail t)])); [apply Permutation_app_comm|done|].
      apply (carries_frame [Running (started_tail t)] _ _ (fun _ => [])), joins_old. }
    intros _. apply carries_after; [apply idle_retire|]. intros _. exact (carries_ret (with_tail t s) tokens).
  - refine (carries_event (StartEnded (pr_worker p)) _ _ _ _). intros _. apply carries_after; [apply idle_start_failed|]. intros _. exact (carries_ret (with_pending None s) tokens).
  - apply carries_after; [apply idle_when; by apply idle_effect|]. intros _.
    exact (carries_ret (with_pending (Some {| pr_worker := pr_worker p; pr_io := pr_io p; reported_blocked := true |}) s) tokens).
  - refine (carries_event (StartEnded (pr_worker p)) _ _ _ _). intros _. exact (carries_ret (with_pending None s) tokens).
Qed.

(** A volume supervision ends for has no start under way. *)
Definition scan_tokens (r : bool * Supervised) : list Token := if r.1 then tokens r.2 else option_list (Running <$> sv_tail r.2).

Lemma carries_scan now s : carries (tokens s) (scan now s) scan_tokens.
Proof.
  unfold scan. destruct (sv_pending s) as [p|] eqn:Hp.
  { eapply carries_bind; [apply carries_poll|]. intros s'. exact (carries_ret (true, s') scan_tokens). }
  apply carries_after; [apply idle_get|]. intros time. apply carries_after; [apply idle_read|]. intros v. cbn zeta.
  set (s1 := if 0 <? revive_attempts s then _ else s).
  assert (E : tokens s = tokens s1 /\ sv_pending s1 = None) by (unfold s1; destruct (0 <? revive_attempts s); done). destruct E as [-> Hp1].
  assert (Hend : tokens s1 = scan_tokens (false, s1)) by (unfold tokens; by rewrite Hp1).
  destruct (assess _ _ _ _ _).
  - exact (carries_ret (true, s1) scan_tokens).
  - apply carries_after; [by apply idle_effect|]. intros _. exact (carries_ret (true, with_budget 0 None s1) scan_tokens).
  - apply carries_after; [apply idle_for; intros t; by apply idle_effect|]. intros _. exact (carries_ret (true, s1) scan_tokens).
  - eapply carries_bind; [by apply carries_launch_revival|]. intros s'. exact (carries_ret (true, s') scan_tokens).
  - apply carries_after.
    { apply idle_bind; [by apply idle_effect|]. intros _. apply idle_bind; [apply idle_read|]. intros w. destruct (given_up _); auto using idle_ret, idle_set_phase. }
    intros _. rewrite Hend. exact (carries_ret (false, s1) scan_tokens).
  - apply carries_after; [by apply idle_effect|]. intros _. rewrite Hend. exact (carries_ret (false, s1) scan_tokens).
Qed.

(** ** Letting go *)

Lemma carries_drain p deadline : carries [Starting (pr_worker p)] (drain_pending p deadline) (fun o => option_list (Running ∘ started_tail <$> o)).
Proof.
  unfold drain_pending. apply carries_after; [apply idle_when; by apply idle_effect|]. intros _. apply carries_after; [apply idle_get|]. intros now.
  destruct (m_recv _ _ _) as [r waited]. apply carries_after; [apply idle_sleep|]. intros _.
  set (o := fun t : option Started => option_list (Running ∘ started_tail <$> t)).
  destruct r as [[t|e]| |].
  - refine (carries_event (HandedOver (pr_worker p) (started_tail t)) [] _ _ _). intros _. exact (carries_ret (Some t) o).
  - refine (carries_event (StartEnded (pr_worker p)) [] _ _ _). intros _. exact (carries_ret None o).
  - refine (carries_event (AbandonedStart (pr_worker p)) [] _ _ _). intros _. exact (carries_ret None o).
  - refine (carries_event (AbandonedStart (pr_worker p)) [] _ _ _). intros _. exact (carries_ret None o).
Qed.

(** Both the tail a start in flight hands over and the one held. *)
Lemma carries_into_parts s deadline : carries (tokens s) (into_parts s deadline) (fun parts => Running <$> parts.1).
Proof.
  unfold into_parts, tokens. eapply carries_bind with (o := fun o => option_list (Running ∘ started_tail <$> o) ++ option_list (Running <$> sv_tail s)).
  - apply (carries_frame (option_list (Running <$> sv_tail s))). destruct (sv_pending s) as [p|]; [apply carries_drain|].
    exact (carries_ret None (fun o : option Started => option_list (Running ∘ started_tail <$> o))).
  - intros fresh. intros f x f' [= <- <-]. split; [done|]. intros h. cbn [fst]. rewrite fmap_app. by destruct fresh, (sv_tail s).
Qed.

Lemma carries_sweep fuel : forall i tails, carries (Running <$> tails) (sweep fuel i tails) (fun rest => Running <$> rest).
Proof.
  induction fuel as [|fuel IH]; intros i tails; cbn [sweep]; [apply (carries_ret tails (fun rest => Running <$> rest))|].
  destruct (tails !! i) as [t|] eqn:Et; [|apply (carries_ret tails (fun rest => Running <$> rest))]. apply carries_after; [apply idle_get|]. intros now.
  destruct (m_finished now t); [|apply IH]. destruct (swap_remove_spec _ _ _ Et) as (rest & Er & Hp). intros f x f' E. unfold st_bind at 1, st_read in E. rewrite Er in E. cbn in E.
  assert (Hc : carries (Running <$> t :: rest) (effect (JoinedTail t) ;;; sweep fuel i rest) (fun rest => Running <$> rest)).
  { refine (carries_event (JoinedTail t) _ _ _ _). intros _. apply IH. }
  destruct (Hc _ _ _ E) as [Es Ht]. split; [done|]. intros h. rewrite Hp. apply Ht.
Qed.

Lemma carries_stop_loop deadline : forall fuel grace tails, carries (Running <$> tails) (stop_loop fuel deadline grace tails) (fun _ => []).
Proof.
  induction fuel as [|fuel IH]; intros grace tails; cbn [stop_loop]; [by intros f x f'|]. eapply carries_bind; [apply carries_sweep|]. intros rest.
  destruct rest as [|r rest]; [apply idle_ret|]. apply carries_after; [apply idle_get|]. intros now. destruct (deadline <=? now); [by apply carries_each|].
  apply carries_after; [apply idle_when, idle_for; intros t; by apply idle_effect|]. intros _. apply carries_after; [apply idle_sleep|]. intros _. apply IH.
Qed.

Lemma carries_stop_tails tails : carries (Running <$> tails) (stop_tails tails) (fun _ => []).
Proof.
  unfold stop_tails. apply carries_after; [apply idle_for; intros t; by apply idle_effect|]. intros _. apply carries_after; [apply idle_get|]. intros now. apply carries_stop_loop.
Qed.

Lemma carries_map_parts deadline l : carries (l ≫= tokens) (st_map (fun s => into_parts s deadline) l) (fun parts => Running <$> concat parts.*1).
Proof.
  induction l as [|s l IH]; cbn [st_map]; [exact (carries_ret [] (fun parts : list (list N * list N) => Running <$> concat parts.*1))|].
  change ((s :: l) ≫= tokens) with (tokens s ++ (l ≫= tokens)). eapply carries_bind; [apply (carries_frame (l ≫= tokens)), carries_into_parts|].
  intros parts. cbn beta. eapply carries_bind with (o := fun rest => (Running <$> concat rest.*1) ++ (Running <$> parts.1)).
  - apply (carries_perm ((l ≫= tokens) ++ (Running <$> parts.1)) _ _ (fun rest => (Running <$> concat rest.*1) ++ (Running <$> parts.1))); [apply Permutation_app_comm|done|].
    apply (carries_frame (Running <$> parts.1) _ _ (fun rest => Running <$> concat rest.*1)), IH.
  - intros rest f x f' [= <- <-]. split; [done|]. intros h. cbn [fmap list_fmap concat]. rewrite fmap_app. by rewrite (Permutation_app_comm (Running <$> parts.1)).
Qed.
End steps.

(** ** The books of a fleet *)

Definition accounts {A} (m : ST Fleet A) : Prop := forall f x f', m f = Some (x, f') -> accounted f -> accounted f'.

Lemma accounts_bind {A B} (m : ST Fleet A) (k : A -> ST Fleet B) : accounts m -> (forall x, accounts (k x)) -> accounts (st_bind m k).
Proof. intros Hm Hk f y f'. unfold st_bind. destruct (m f) as [[x f1]|] eqn:E; [|done]. intros E' Hf. eapply Hk; [exact E'|]. by eapply Hm. Qed.

Lemma accounts_idle {A} (m : ST Fleet A) : idle m -> accounts m.
Proof. intros Hm f x f' E Hf. destruct (Hm _ _ _ E) as [Es Ht]. unfold accounted, held. rewrite Es. by apply (Ht (held f)). Qed.

Lemma accounts_modify g : (forall f, supervised (g f) = supervised f /\ effects (g f) = effects f) -> accounts (st_modify g).
Proof. intros Hg f x f' [= <- <-]. unfold accounted, held. destruct (Hg f) as [-> ->]. done. Qed.

Lemma accounts_ret {A} (x : A) : accounts (st_ret x).
Proof. apply accounts_idle, idle_ret. Qed.

Lemma accounts_for {A} (g : A -> ST Fleet unit) l : (forall x, accounts (g x)) -> accounts (st_for g l).
Proof. intros Hg. induction l as [|x l IH]; [apply accounts_ret|]. apply accounts_bind; [apply Hg|]. intros _. exact IH. Qed.

Lemma accounts_when (b : bool) m : accounts m -> accounts (st_when b m).
Proof. intros Hm. destruct b; [done|apply accounts_ret]. Qed.

(** Tokens taken out of the fleet and carried through. *)
Lemma carries_out {A} i (m : ST Fleet A) o f x f' l : carries i m o -> m (with_supervised l f) = Some (x, f') -> held f ≡ₚ i ++ (l ≫= tokens) -> accounted f ->
  supervised f' = l /\ tally (effects f') (o x ++ (l ≫= tokens)).
Proof. intros Hm E Hh Hf. destruct (Hm _ _ _ E) as [Es Ht]. split; [exact Es|]. apply Ht. unfold accounted in Hf. by rewrite Hh in Hf. Qed.

Create HintDb books.
#[export] Hint Resolve accounts_ret accounts_bind accounts_for accounts_when idle_ret idle_bind idle_for idle_when : books.
#[export] Hint Resolve idle_get idle_read idle_sleep idle_fresh idle_set_phase idle_stopping idle_retire : books.
#[export] Hint Extern 3 (accounts (st_modify _)) => apply accounts_modify; done : books.
#[export] Hint Extern 3 (idle (effect _)) => by apply idle_effect : books.
#[export] Hint Extern 9 (accounts _) => apply accounts_idle : books.

Section fleets.
Context `{Unicode, Hasher} {Mc : Machine}.

Lemma held_perm l l' : l ≡ₚ l' -> l ≫= tokens ≡ₚ l' ≫= tokens.
Proof. intros E. by rewrite E. Qed.

Lemma accounts_release g : accounts (release g).
Proof.
  unfold release. apply accounts_bind; [by apply accounts_modify|]. intros _ f x f' E Hf. unfold st_bind at 1, st_get in E.
  destruct (position_of g (supervised f)) as [i|] eqn:Ep; [|by injection E as <- <-].
  unfold position_of in Ep. apply fmap_Some in Ep as ([j s] & Ep & ->). apply list_find_Some in Ep as (Es & _ & _). cbn in E.
  destruct (swap_remove_spec _ _ _ Es) as (l' & Er & Hp). unfold st_bind at 1, st_read in E. rewrite Er in E. cbn in E. unfold st_bind at 1, st_modify in E.
  assert (Hc : carries (tokens s) (now <- instant ;; parts <- into_parts s (now + PENDING_DRAIN_WAIT) ;; stop_tails parts.1 ;;; st_ret parts.2) (fun _ => [])).
  { apply carries_after; [apply idle_get|]. intros now. eapply carries_bind; [apply carries_into_parts|]. intros parts. eapply carries_bind with (o := fun _ => []); [apply carries_stop_tails|]. intros _. apply idle_ret. }
  destruct (carries_out _ _ _ f x f' l' Hc E) as [Es' Ht]; [exact (held_perm _ _ Hp)|done|]. unfold accounted, held. by rewrite Es'.
Qed.

Lemma accounts_remove g : accounts (remove g).
Proof. apply accounts_bind; [apply accounts_release|]. intros ns. auto with books. Qed.

Lemma accounts_take_up vol : accounts (take_up vol).
Proof.
  unfold take_up. apply accounts_bind; [auto with books|]. intros f0. destruct (_ || _); [apply accounts_ret|]. apply accounts_bind; [auto with books|]. intros v.
  apply accounts_bind; [auto with books|]. intros a. apply accounts_bind; [by apply accounts_modify|]. intros _ f x f' E Hf. unfold st_bind in E.
  destruct (start _ f) as [[s f1]|] eqn:Es; [|done]. injection E as <- <-. assert (Hc : carries [] (start {| arc_id := a; arc_volume := v |}) tokens).
  { exact (carries_launch {| sv_state := {| arc_id := a; arc_volume := v |}; sv_tail := None; sv_notification := None; revive_attempts := 0; beating_since := None; sv_pending := None |} eq_refl). }
  destruct (Hc _ _ _ Es) as [Esv Ht]. unfold accounted, held. cbn [supervised with_supervised effects]. rewrite Esv, bind_app. cbn [mbind list_bind]. rewrite app_nil_r, Permutation_app_comm.
  by apply Ht.
Qed.

Lemma accounts_remove_gone gs : accounts (remove_gone gs).
Proof.
  induction gs as [|g gs IH]; cbn [remove_gone]; [auto with books|]. apply accounts_bind; [auto with books|]. intros [|]; [apply accounts_ret|].
  apply accounts_bind; [apply accounts_remove|]. intros _. exact IH.
Qed.

Lemma accounts_reconcile listed taken : accounts (reconcile listed taken).
Proof.
  unfold reconcile. apply accounts_bind; [by apply accounts_modify|]. intros _. apply accounts_bind; [auto with books|]. intros indexed. cbn zeta.
  apply accounts_bind; [apply accounts_remove_gone|]. intros [|]; [apply accounts_ret|]. apply accounts_for, accounts_take_up.
Qed.

Lemma accounts_discover : accounts discover.
Proof.
  unfold discover. apply accounts_bind; [auto with books|]. intros f0. apply accounts_bind.
  { destruct (listing f0) as [l|]; [apply accounts_bind; [by apply accounts_modify|]; intros _; apply accounts_ret|].
    apply accounts_bind; [apply accounts_idle, idle_get|]. intros now. destruct (m_spawns now); [|apply accounts_ret].
    apply accounts_bind; [apply accounts_idle, idle_fresh|]. intros w. apply accounts_ret. }
  intros [[w taken]|]; [|apply accounts_ret]. apply accounts_bind; [apply accounts_idle, idle_get|]. intros now. destruct (m_list _ _ _) as [r waited].
  apply accounts_bind; [auto with books|]. intros _. destruct r as [[listed|e]| |]; [apply accounts_reconcile|apply accounts_ret|by apply accounts_modify|apply accounts_ret].
Qed.

Lemma accounts_on_removal r : accounts (on_removal r).
Proof.
  unfold on_removal. apply accounts_bind; [auto with books|]. intros f0. cbn zeta.
  assert (Hrel : accounts (if bool_decide (rm_guid r ∈ guids f0) then release (rm_guid r) else st_ret [])) by (case_bool_decide; [apply accounts_release|apply accounts_ret]).
  destruct (rm_event r).
  - apply accounts_bind; [exact Hrel|]. intros ns. apply accounts_bind; [by apply accounts_modify|]. intros _. apply accounts_ret.
  - destruct (removing f0 !! rm_guid r); [|apply accounts_ret]. apply accounts_bind; [by apply accounts_modify|]. intros _. auto with books.
  - apply accounts_bind; [exact Hrel|]. intros ns. apply accounts_bind; [auto with books|]. intros f1. apply accounts_bind; [by apply accounts_modify|]. intros _.
    apply accounts_bind; [auto with books|]. intros _. apply accounts_bind; [by apply accounts_modify|]. intros _. apply accounts_ret.
Qed.

Lemma accounts_answer (cs : list N) : accounts (st_for (fun c => effect (Answered c)) cs).
Proof. auto with books. Qed.

Lemma accounts_act_loop ps : forall relist, accounts (act_loop ps relist).
Proof.
  induction ps as [|p ps IH]; intros relist; cbn [act_loop]; apply accounts_bind; auto with books; intros [|]; auto with books.
  - apply accounts_bind; [by apply accounts_modify|]. intros _. apply accounts_ret.
  - apply accounts_bind; [apply accounts_on_removal|]. intros again. apply accounts_bind; [apply accounts_answer|]. intros _. apply IH.
Qed.

Lemma accounts_expire g : accounts (expire g).
Proof. unfold expire. apply accounts_bind; [auto with books|]. intros f0. destruct (removing f0 !! g); [|apply accounts_ret]. apply accounts_bind; [by apply accounts_modify|]. intros _. auto with books. Qed.

Lemma idle_map_volumes l : idle (st_map volume_at l).
Proof. induction l as [|v l IH]; [apply idle_ret|]. cbn [st_map]. apply idle_bind; [apply idle_read|]. intros x. apply idle_bind; [exact IH|]. intros ys. apply idle_ret. Qed.

Lemma accounts_settle : accounts settle_once_indexed.
Proof.
  unfold settle_once_indexed. apply accounts_bind; [auto with books|]. intros f0. destruct (starting f0); [|apply accounts_ret].
  apply accounts_bind; [apply accounts_idle, idle_map_volumes|]. intros vs. destruct (existsb _ vs); [apply accounts_ret|]. apply accounts_bind; [auto with books|]. intros _. by apply accounts_modify.
Qed.

Lemma accounts_scan_all now fuel : forall i, accounts (scan_all fuel i now).
Proof.
  induction fuel as [|fuel IH]; intros i; cbn [scan_all]; [apply accounts_ret|]. intros f x f' E Hf. unfold st_bind at 1, st_get in E.
  destruct (supervised f !! i) as [s|] eqn:Es; [|by injection E as <- <-]. unfold st_bind at 1 in E. destruct (scan now s f) as [[r f1]|] eqn:Er; [|done].
  unfold st_bind at 1, st_modify in E. destruct (carries_scan now s _ _ _ Er) as [Esv Ht].
  assert (Hin : supervised f ≡ₚ s :: delete i (supervised f)) by (by apply delete_Permutation).
  assert (Hout : <[i := r.2]> (supervised f) ≡ₚ r.2 :: delete i (supervised f)).
  { rewrite insert_take_drop by (by eapply lookup_lt_Some). rewrite delete_take_drop. by rewrite Permutation_middle. }
  assert (Ht1 : tally (effects f1) (scan_tokens r ++ (delete i (supervised f) ≫= tokens))).
  { apply Ht. unfold accounted, held in Hf. by rewrite Hin in Hf. }
  rewrite Esv in E. unfold scan_tokens in Ht1. destruct r as [[|] s']; cbn [fst snd] in *.
  - eapply IH; [exact E|]. unfold accounted, held. cbn [supervised with_supervised effects]. by rewrite Hout.
  - unfold st_bind at 1, st_read in E. cbn [supervised with_supervised] in E.
    assert (Ei : <[i := s']> (supervised f) !! i = Some s') by (apply list_lookup_insert_eq; by eapply lookup_lt_Some).
    destruct (swap_remove_spec _ _ _ Ei) as (l' & Ew & Hp). rewrite Ew in E. cbn [fmap option_fmap option_map fst snd] in E. unfold st_bind at 1, st_modify in E.
    assert (El : l' ≡ₚ delete i (supervised f)) by (apply (Permutation_cons_inv (a := s')); by rewrite <- Hp).
    unfold st_bind at 1 in E. destruct (retire _ _) as [[[] f2]|] eqn:E2; [|done]. destruct (idle_retire _ _ _ _ E2) as [Es2 Ht2].
    unfold st_bind at 1 in E. destruct (st_for _ _ f2) as [[[] f3]|] eqn:E3; [|done]. destruct (joins_old _ _ _ _ E3) as [Es3 Ht3].
    assert (Hend : tally (effects f3) (l' ≫= tokens)).
    { cbn [app] in Ht2, Ht3. apply (Ht3 (l' ≫= tokens)), (Ht2 (option_list (Running <$> sv_tail s') ++ (l' ≫= tokens))). cbn [effects with_supervised]. by rewrite El. }
    eapply IH; [exact E|]. unfold accounted, held. by rewrite Es3, Es2.
Qed.

Lemma accounts_scan_turn : accounts scan_turn.
Proof.
  unfold scan_turn. apply accounts_bind.
  { unfold wait. apply accounts_bind; [auto with books|]. intros [|]; [apply accounts_ret|]. apply accounts_bind; [auto with books|]. intros ps. apply accounts_bind; [by apply accounts_modify|]. intros _. apply accounts_ret. }
  intros [ps|]; [|apply accounts_ret]. apply accounts_bind; [apply accounts_act_loop|]. intros [relist|]; [|apply accounts_ret].
  apply accounts_bind; [apply accounts_when, accounts_bind; [apply accounts_discover|]; intros _; by apply accounts_modify|]. intros _. apply accounts_bind; [auto with books|]. intros f0.
  destruct (clock f0 <? next_scan f0); [apply accounts_ret|]. apply accounts_bind; [apply accounts_scan_all|]. intros _.
  apply accounts_bind; [apply accounts_bind; [auto with books|]; intros f1; apply accounts_for, accounts_expire|]. intros _. apply accounts_bind; [apply accounts_discover|]. intros _.
  apply accounts_bind; [apply accounts_settle|]. intros _. apply accounts_bind; [by apply accounts_modify|]. intros _. apply accounts_ret.
Qed.
End fleets.
