(* ===== verification/SupervisorRun.v ===== *)
(** What the supervision does over time: it keeps the indexed volumes in step
    with the machine, answers a removal only when it has let go of the disk, and
    stops reviving a tail that keeps dying. *)

From Stdlib Require Import String.
From stdpp Require Import gmap.
From stdpp Require Import base option list sets relations.
From Stdlib Require Import NArith Lia.
From S2P Require Import Prelude Types Fold FrnMap NameStore Volume VolumeInv VolumeNew Server Registry Pulse Supervisor SupervisorOk SupervisorTails.
Open Scope N_scope.
Open Scope list_scope.

(** A listing names every volume once. *)
Class MachineOk (Mc : Machine) : Prop := {
  list_once t w d listed waited : m_list t w d = (Listed (Ok listed), waited) -> NoDup (guid_path <$> listed)
}.

(** ** In step with the machine *)

(** What taking volumes up and letting go of them leaves alone. *)
Record stays (f f' : Fleet) : Prop := {
  s_ok : fleet_ok f';
  s_removing : removing f' = removing f;
  s_posted : posted f' = posted f;
  s_clock : clock f <= clock f';
  s_effects : effects f `suffix_of` effects f';
  s_looks : looks f = None -> looks f' = None
}.

Lemma stays_refl f : fleet_ok f -> stays f f.
Proof. intros Hf. split; done || lia. Qed.

Lemma stays_trans f g h : stays f g -> stays g h -> stays f h.
Proof. intros [] []. split; try congruence; try lia; auto. by etrans. Qed.

Lemma stays_kept f g : fleet_ok f -> kept f g -> stays f g.
Proof. intros Hf Hk. pose proof (fleet_ok_kept _ _ Hf Hk). destruct Hk. by split. Qed.

Lemma stays_let_go g f f' : let_go g f f' -> stays f f'.
Proof. intros []. by split. Qed.

(** A volume that is left alone when it is listed. *)
Definition blocked (f : Fleet) (g : list N) : bool :=
  bool_decide (is_Some (removing f !! g)) || existsb (fun r => bool_decide (r.1 = g)) (removed f).

Lemma not_blocked f g : blocked f g = false -> removing f !! g = None /\ forall t, (g, t) ∉ removed f.
Proof.
  intros [Hr Hd]%orb_false_iff. apply bool_decide_eq_false in Hr. split; [by apply eq_None_not_Some|]. intros t Ht.
  apply not_true_iff_false in Hd. apply Hd, existsb_exists. exists (g, t). split; [by apply list_elem_of_In|]. by apply bool_decide_eq_true.
Qed.

Section running.
Context `{Unicode, Hasher} {Mc : Machine}.

Lemma found_volume_new g ms : exists v, found_volume g ms = Some v /\ guid v = g.
Proof.
  destruct (new_runs NTFS_ROOT_FRN sparse) as (i & E & _); [done|done|]. unfold found_volume. rewrite E. by eexists.
Qed.

(** A volume registered under an allocation of its own. *)
Definition registered (v : VolumeState) (f : Fleet) : Fleet :=
  let a := {| arc_id := next_id f; arc_volume := v |} in
  with_shared (<[next_id f := v]> (shared f)) (with_volumes (add a (volumes f)) (with_trace (next_id f + 1) (effects f) f)).

Lemma registered_guids v f : guids (registered v f) = guids f ++ [guid v].
Proof. unfold guids, registered, current, add. cbn. by rewrite fmap_app. Qed.

Lemma registered_ok v f : fleet_ok f -> blocked f (guid v) = false -> guid v ∉ guids f -> fleet_ok (registered v f).
Proof.
  intros [H1 H2 H3 H4 H5 H6 H7 H8] [Hr Hd]%not_blocked Hg. split; rewrite ?registered_guids; unfold registered, current, add in *; cbn in *.
  - apply NoDup_app. split; [done|]. split; [|apply NoDup_singleton]. intros x Hx ->%list_elem_of_singleton. done.
  - intros w [Hw| ->%list_elem_of_singleton]%elem_of_app; [specialize (H2 w Hw); lia|cbn; lia].
  - intros w [Hw| ->%list_elem_of_singleton]%elem_of_app; cbn; [|by rewrite lookup_insert_eq]. specialize (H2 w Hw). rewrite lookup_insert_ne by lia. by apply H3.
  - rewrite fmap_app. apply NoDup_app. split; [done|]. split; [|apply NoDup_singleton]. intros x (w & -> & Hw)%list_elem_of_fmap Hx%list_elem_of_singleton. cbn in Hx.
    specialize (H2 w Hw). lia.
  - done.
  - intros s Hs. apply elem_of_app. left. by apply H6.
  - intros g Hs [Hin| ->%list_elem_of_singleton]%elem_of_app; [by eapply H7|]. rewrite Hr in Hs. by destruct Hs.
  - intros g t Ht [Hin| ->%list_elem_of_singleton]%elem_of_app; [by eapply H8|]. by eapply Hd.
Qed.

Lemma take_up_spec vol f : fleet_ok f -> guid_path vol ∉ guids f ->
  wp (take_up vol) (fun _ f' => stays f f' /\ removed f' = removed f /\ guids f' = guids f ++ (if blocked f (guid_path vol) then [] else [guid_path vol])) f.
Proof.
  intros Hf Hg. unfold take_up. apply wp_bind, wp_get. change (bool_decide _ || _) with (blocked f (guid_path vol)). destruct (blocked f (guid_path vol)) eqn:Eb.
  { apply wp_ret. split; [by apply stays_refl|]. by rewrite app_nil_r. }
  destruct (found_volume_new (guid_path vol) (vi_mounts vol)) as (v & Ev & Egv). apply wp_bind. eapply wp_read; [exact Ev|].
  apply wp_bind. unfold fresh_id, wp at 1. apply wp_bind, wp_modify. rewrite <- Egv in *. fold (registered v f).
  pose proof (registered_ok v f Hf Eb Hg) as Hok. pose proof (registered_guids v f) as Er. set (a := {| arc_id := next_id f; arc_volume := v |}).
  change (with_shared _ _) with (registered v f). set (f2 := registered v f) in *.
  apply wp_bind. eapply wp_mono; [apply (quiet_start [] a); by intros b Hb%elem_of_nil|]. intros s f3 [Hk Es]. apply wp_modify.
  pose proof (kept_guids _ _ Hk) as Eg3. pose proof (fleet_ok_kept _ _ Hok Hk) as Hok3.
  assert (Hin : a ∈ current (volumes f3)) by (rewrite (k_volumes _ _ Hk); unfold f2, registered, current, add; cbn; apply elem_of_app; right; by left).
  split; [|split; [exact (k_removed _ _ Hk)|by rewrite <- Er, <- Eg3]].
  assert (Hs : stays f f3) by (destruct Hk; by split). destruct Hs as [_ T2 T3 T4 T5 T6]. split; try done. destruct Hok3 as [H1 H2 H3 H4 H5 H6 H7 H8]. split; try done; cbn.
  - rewrite fmap_app. apply NoDup_app. split; [done|]. split; [|apply NoDup_singleton]. intros g (x & -> & Hx)%list_elem_of_fmap Hg'%list_elem_of_singleton.
    rewrite (k_supervised _ _ Hk) in Hx. cbn in Hx. apply (fo_member _ Hf) in Hx. apply Hg. unfold sv_guid in Hg'. rewrite Es in Hg'. cbn in Hg'. rewrite <- Hg'.
    unfold guids. apply (list_elem_of_fmap_2 (fun v => guid (arc_volume v))). exact Hx.
  - intros x [Hx| ->%list_elem_of_singleton]%elem_of_app; [by apply H6|]. by rewrite Es.
Qed.

Lemma take_up_all vols : forall f, fleet_ok f -> NoDup (guid_path <$> vols) -> (forall v, v ∈ vols -> guid_path v ∉ guids f) ->
  wp (st_for take_up vols) (fun _ f' => stays f f' /\ removed f' = removed f /\
    guids f' = guids f ++ filter (fun g => blocked f g = false) (guid_path <$> vols)) f.
Proof.
  induction vols as [|v vols IH]; intros f Hf Hnd Hg; cbn [st_for].
  { apply wp_ret. split; [by apply stays_refl|]. by rewrite app_nil_r. }
  apply NoDup_cons in Hnd as [Hv Hnd]. apply wp_bind. eapply wp_mono; [apply take_up_spec; [done|apply Hg; by left]|]. intros _ f1 (Hs & Hr & Eg).
  assert (Hb : forall g, blocked f1 g = blocked f g) by (intros g; unfold blocked; by rewrite (s_removing _ _ Hs), Hr).
  eapply wp_mono; [apply IH; [apply Hs|done|]|].
  - intros w Hw. rewrite Eg, elem_of_app. intros [Hin|Hin]; [by eapply Hg; [right; exact Hw|]|]. destruct (blocked f (guid_path v)); [by apply elem_of_nil in Hin|].
    apply list_elem_of_singleton in Hin. apply Hv. rewrite <- Hin. by apply list_elem_of_fmap_2.
  - intros _ f2 (Hs2 & Hr2 & Eg2). split; [by eapply stays_trans|]. split; [congruence|]. rewrite Eg2, Eg, <- app_assoc, fmap_cons, filter_cons. f_equal.
    rewrite (list_filter_iff (fun g => blocked f1 g = false) (fun g => blocked f g = false)) by (intros g; by rewrite Hb).
    destruct (blocked f (guid_path v)); case_decide; done.
Qed.

Lemma stopping_spec f : wp stopping (fun stop f' => kept f f' /\ (looks f = None -> stop = false)) f.
Proof. unfold wp, stopping. destruct (looks f) as [[|n]|] eqn:El; (split; [keeps|]); congruence. Qed.

Lemma remove_gone_spec gs : forall f, fleet_ok f ->
  wp (remove_gone gs) (fun stop f' => stays f f' /\ removed f' = removed f /\ (stop = false -> guids f' = filter (fun g => g ∉ gs) (guids f)) /\
    (looks f = None -> stop = false)) f.
Proof.
  induction gs as [|g gs IH]; intros f Hf; cbn [remove_gone].
  - eapply wp_mono; [apply stopping_spec|]. intros stop f' [Hk Hl]. split; [by apply stays_kept|]. split; [apply Hk|]. split; [|done]. intros _.
    rewrite (kept_guids _ _ Hk). symmetry. apply filter_whole. intros. apply not_elem_of_nil.
  - apply wp_bind. eapply wp_mono; [apply stopping_spec|]. intros stop f1 [Hk Hl]. pose proof (stays_kept _ _ Hf Hk) as Hs1. destruct stop.
    { apply wp_ret. split; [done|]. split; [apply Hk|]. split; [done|]. by intros ?%Hl. }
    apply wp_bind. eapply wp_mono; [by apply remove_spec, (s_ok _ _ Hs1)|]. intros [] f2 Hlg. eapply wp_mono; [apply IH, Hlg|]. intros stop f3 (Hs3 & Hr3 & Hg3 & Hl3).
    split; [eapply stays_trans; [exact Hs1|]; eapply stays_trans; [by eapply stays_let_go|exact Hs3]|].
    split; [by rewrite Hr3, (lg_removed _ _ _ Hlg), (k_removed _ _ Hk)|]. split.
    + intros E%Hg3. rewrite E, (lg_guids _ _ _ Hlg), (kept_guids _ _ Hk), list_filter_filter. apply list_filter_iff. intros h. rewrite elem_of_cons. tauto.
    + intros E. by apply Hl3, Hlg, Hk.
Qed.

(** After a listing, the indexed volumes are the listed ones: those that were
    indexed and are still there, then those found, but for the ones left alone. *)
Definition in_step (listed : list VolumeInfo) (taken : N) (f : Fleet) : list (list N) :=
  filter (fun g => g ∈ guid_path <$> listed) (guids f) ++
  filter (fun g => blocked (with_removed (filter (fun r => taken < r.2) (removed f)) f) g = false)
    (guid_path <$> filter (fun v => guid_path v ∉ guids f /\ indexable v = true) listed).

Lemma fleet_ok_forget f (P : list N * N -> Prop) `{!forall r, Decision (P r)} : fleet_ok f -> fleet_ok (with_removed (filter P (removed f)) f).
Proof. intros [F1 F2 F3 F4 F5 F6 F7 F8]. split; try done. cbn. intros g t [_ Ht]%list_elem_of_filter. by eapply F8. Qed.

Lemma reconcile_spec listed taken f : fleet_ok f -> NoDup (guid_path <$> listed) ->
  wp (reconcile listed taken) (fun _ f' => stays f f' /\ (looks f = None -> guids f' = in_step listed taken f)) f.
Proof.
  intros Hf Hnd. unfold reconcile. apply wp_bind, wp_modify, wp_bind, wp_get. set (f1 := with_removed _ f). assert (Hf1 : fleet_ok f1) by (by apply fleet_ok_forget).
  apply wp_bind. eapply wp_mono; [by apply remove_gone_spec|]. intros stop f2 (Hs & Hr & Hg & Hl).
  assert (Hs0 : stays f f2) by (destruct Hs; by split).
  destruct stop; [apply wp_ret; split; [done|]; by intros ?%Hl|]. specialize (Hg eq_refl). change (guids f1) with (guids f) in *. cbn [diff_volumes found gone] in *.
  assert (Eg : guids f2 = filter (fun g => g ∈ guid_path <$> listed) (guids f)).
  { rewrite Hg. apply filter_agree. intros g Hin. rewrite list_elem_of_filter. destruct (decide (g ∈ guid_path <$> listed)); tauto. }
  eapply wp_mono; [apply take_up_all; [apply Hs| |]|].
  - eapply sublist_NoDup; [exact Hnd|]. apply sublist_map, sublist_filter.
  - intros v [[Hv _] _]%list_elem_of_filter. rewrite Eg, list_elem_of_filter. by intros [_ ?].
  - intros _ f3 (Hs3 & _ & Eg3). split; [by eapply stays_trans|]. intros _. rewrite Eg3, Eg. unfold in_step. f_equal. apply list_filter_iff. intros g.
    unfold blocked. cbn [removing removed with_removed]. by rewrite (s_removing _ _ Hs), Hr.
Qed.

Lemma discover_spec {Mok : MachineOk Mc} f : fleet_ok f -> wp discover (fun _ f' => stays f f') f.
Proof.
  intros Hf. unfold discover. apply wp_bind, wp_get, wp_bind. change (id f) with f. eapply wp_mono with (Q := fun _ f1 => stays f f1).
  { destruct (listing f) as [l|]; [apply wp_bind, wp_modify, wp_ret, stays_kept; [done|keeps]|]. apply wp_bind, wp_get. destruct (m_spawns _); [|by apply wp_ret, stays_refl].
    apply wp_bind. eapply wp_mono; [apply (quiet_fresh []); by intros a Ha%elem_of_nil|]. intros w f1 [Hk _]. by apply wp_ret, stays_kept. }
  intros [[w taken]|] f1 Hs; [|by apply wp_ret]. apply wp_bind, wp_get. destruct (m_list _ _ _) as [r waited] eqn:El. apply wp_bind, wp_modify. set (f2 := with_time _ _ f1).
  assert (Hs2 : stays f f2) by (eapply stays_trans; [exact Hs|]; apply stays_kept; [apply Hs|keeps]). destruct r as [[listed|e]| |].
  - eapply wp_mono; [apply reconcile_spec; [apply Hs2|by eapply list_once]|]. intros _ f3 [Hs3 _]. by eapply stays_trans.
  - by apply wp_ret.
  - apply wp_modify. eapply stays_trans; [exact Hs2|]. apply stays_kept; [apply Hs2|keeps].
  - by apply wp_ret.
Qed.

(** ** Removals *)

(** What acting on a removal event of [g] does. *)
Record acted (g : list N) (f f' : Fleet) : Prop := {
  a_ok : fleet_ok f';
  a_posted : posted f' = posted f;
  a_clock : clock f <= clock f';
  a_effects : effects f `suffix_of` effects f';
  a_looks : looks f = None -> looks f' = None;
  a_guids : forall h, h ∈ guids f' -> h ∈ guids f;
  a_supervised : forall s, s ∈ supervised f' -> s ∈ supervised f;
  a_tails : forall s t, s ∈ supervised f -> sv_tail s = Some t -> s ∈ supervised f' \/ done_with t (effects f');
  a_removing : forall h, h <> g -> removing f' !! h = removing f !! h
}.

Lemma acted_refl g f : fleet_ok f -> acted g f f.
Proof. intros Hf. split; auto; done || lia. Qed.

Lemma acted_kept g f f1 f2 : acted g f f1 -> kept f1 f2 -> acted g f f2.
Proof.
  intros [A1 A2 A3 A4 A5 A6 A7 A8 A9] Hk. pose proof (fleet_ok_kept _ _ A1 Hk) as Hok. pose proof (kept_guids _ _ Hk) as Eg. destruct Hk as [Ev Es Er Ed Ep Hid Hcl Hsh He Hl].
  split; rewrite ?Eg, ?Es, ?Er, ?Ep; auto; [lia|by etrans|]. intros s t Hs Ht. destruct (A8 s t Hs Ht) as [?|Hd]; [by left|right; by eapply done_with_later].
Qed.

Lemma acted_let_go g f f' : let_go g f f' -> acted g f f'.
Proof.
  intros [L1 L2 L3 L4 L5 L6 L7 L8 L9 L10]. split; auto; rewrite ?L2, ?L4; try done.
  - by intros h [_ ?]%list_elem_of_filter.
  - by intros s [? _]%L3.
  - intros s t Hs Ht. destruct (decide (sv_guid s = g)) as [E|E]; [right; by eapply L10|left; by apply L3].
Qed.

(** The volume of an event is let go of, if it is indexed. *)
Lemma release_indexed g f : fleet_ok f ->
  wp (if bool_decide (g ∈ guids f) then release g else st_ret []) (fun _ f' => acted g f f' /\ removing f' = removing f /\ removed f' = removed f /\
    g ∉ guids f' /\ g ∉ (sv_guid <$> supervised f')) f.
Proof.
  intros Hf. case_bool_decide as Hg.
  - eapply wp_mono; [by apply release_spec|]. intros ns f' Hl. destruct (let_go_gone _ _ _ Hl). split; [by apply acted_let_go|]. by destruct Hl.
  - apply wp_ret. split; [by apply acted_refl|]. split; [done|]. split; [done|]. split; [done|]. intros (s & -> & Hs)%list_elem_of_fmap. apply Hg. unfold guids.
    apply (list_elem_of_fmap_2 (fun v => guid (arc_volume v))). by apply Hf.
Qed.

Lemma on_removal_spec r f : let g := rm_guid r in fleet_ok f -> wp (on_removal r) (fun _ f' => acted g f f' /\
  (rm_event r = QueryRemove -> g ∉ guids f' /\ g ∉ (sv_guid <$> supervised f') /\ exists e, removing f' !! g = Some e /\ rg_since e = default (clock f') (rg_since <$> removing f !! g))) f.
Proof.
  intros g Hf. unfold on_removal. fold g. apply wp_bind, wp_get. change (id f) with f. destruct (rm_event r).
  - apply wp_bind. eapply wp_mono; [by apply release_indexed|]. intros ns f1 (Ha & Er & Ed & Hg & Hs). apply wp_bind, wp_modify, wp_ret.
    destruct Ha as [A1 A2 A3 A4 A5 A6 A7 A8 A9]. split.
    + split; try done; [|by intros h Hh; cbn; rewrite lookup_insert_ne, Er by done]. destruct A1 as [F1 F2 F3 F4 F5 F6 F7 F8]. split; try done. cbn. intros h Hh.
      destruct (decide (h = g)) as [->|Hne]; [done|]. rewrite lookup_insert_ne in Hh by done. by apply F7.
    + intros _. split; [done|]. split; [done|]. cbn. eexists. split; [by rewrite lookup_insert_eq|]. cbn. rewrite Er. by destruct (removing f !! g).
  - destruct (removing f !! g) as [e|] eqn:Ee; [|apply wp_ret; split; [by apply acted_refl|done]]. apply wp_bind, wp_modify, wp_bind.
    eapply wp_mono; [apply (quiet_retire []); by intros a Ha%elem_of_nil|]. intros _ f2 [Hk _]. apply wp_ret. split; [|done]. refine (acted_kept _ _ _ _ _ Hk).
    destruct Hf as [F1 F2 F3 F4 F5 F6 F7 F8]. split; auto; try done; [|by intros h Hh; cbn; rewrite lookup_delete_ne by done]. split; try done. cbn. intros h Hh.
    destruct (decide (h = g)) as [->|Hne]; [by rewrite lookup_delete_eq in Hh; destruct Hh|]. rewrite lookup_delete_ne in Hh by done. by apply F7.
  - apply wp_bind. eapply wp_mono; [by apply release_indexed|]. intros ns f1 (Ha & Er & Ed & Hg & Hs). apply wp_bind, wp_get, wp_bind, wp_modify, wp_bind. change (id f1) with f1. set (f2 := with_removing _ _).
    assert (Ha2 : acted g f f2).
    { destruct Ha as [A1 A2 A3 A4 A5 A6 A7 A8 A9]. split; try done; [|by intros h Hh; cbn; rewrite lookup_delete_ne, Er by done]. destruct A1 as [F1 F2 F3 F4 F5 F6 F7 F8].
      split; try done. cbn. intros h Hh. destruct (decide (h = g)) as [->|Hne]; [done|]. rewrite lookup_delete_ne in Hh by done. by apply F7. }
    eapply wp_mono; [apply (quiet_retire []); by intros a Ha3%elem_of_nil|]. intros _ f3 [Hk _]. apply wp_bind, wp_modify, wp_ret. split; [|done].
    pose proof (acted_kept _ _ _ _ Ha2 Hk) as [A1 A2 A3 A4 A5 A6 A7 A8 A9]. split; try done. destruct A1 as [F1 F2 F3 F4 F5 F6 F7 F8]. split; try done. cbn.
    intros h t [[_ Hh]%list_elem_of_filter|Hh%list_elem_of_singleton]%elem_of_app; [by eapply F8|]. injection Hh as -> _.
    change (g ∉ guids f3). rewrite (kept_guids _ _ Hk). exact Hg.
Qed.

(** The fleet once [e] is logged. *)
Definition logged (e : Effect) (f : Fleet) : Fleet := with_trace (next_id f) (e :: effects f) f.

(** The fleet a query of the volume [g] is answered on: the volume is neither
    indexed nor supervised, the tail it had is stopped, and every start and every
    tail that is not another volume's is accounted for. *)
Record free (g : list N) (f at_answer : Fleet) : Prop := {
  fr_guids : g ∉ guids at_answer;
  fr_supervised : g ∉ (sv_guid <$> supervised at_answer);
  fr_effects : effects f `suffix_of` effects at_answer;
  fr_tail : forall s t, s ∈ supervised f -> sv_guid s = g -> sv_tail s = Some t -> done_with t (effects at_answer);
  fr_accounted : accounted f -> accounted at_answer
}.

(** A query is answered in a run of the removals from [f] to [f']: its callback
    is told on a fleet that is free of the volume, and what is left of the run
    goes on from there. *)
Record answered (p : Posted) (f : Fleet) (run : option (option bool * Fleet)) (f' : Fleet) : Prop := {
  an_guids : rm_guid (po_removal p) ∉ guids f';
  an_supervised : rm_guid (po_removal p) ∉ (sv_guid <$> supervised f');
  an_order : forall c, po_done p = Some c -> exists at_answer rest relist, free (rm_guid (po_removal p)) f at_answer /\
    run = act_loop rest relist (logged (Answered c) at_answer) /\ (Answered c :: effects at_answer) `suffix_of` effects f'
}.

(** What a whole batch of removals comes to, the events of [ps] acted on. *)
Record removals (ps : list Posted) (f : Fleet) (run : option (option bool * Fleet)) (f' : Fleet) : Prop := {
  r_ok : fleet_ok f';
  r_clock : clock f <= clock f';
  r_effects : effects f `suffix_of` effects f';
  r_guids : forall h, h ∈ guids f' -> h ∈ guids f;
  r_supervised : forall s, s ∈ supervised f' -> s ∈ supervised f;
  r_tails : forall s t, s ∈ supervised f -> sv_tail s = Some t -> s ∈ supervised f' \/ done_with t (effects f');
  r_removing : forall h e, removing f !! h = Some e -> (forall p, p ∈ ps -> rm_guid (po_removal p) = h -> rm_event (po_removal p) = QueryRemove) ->
    exists e', removing f' !! h = Some e' /\ rg_since e' = rg_since e;
  r_answers : forall p, p ∈ ps -> rm_event (po_removal p) = QueryRemove -> answered p f run f'
}.

Lemma acted_trans g f f1 f2 : acted g f f1 -> acted g f1 f2 -> acted g f f2.
Proof.
  intros [A1 A2 A3 A4 A5 A6 A7 A8 A9] [B1 B2 B3 B4 B5 B6 B7 B8 B9]. split; try congruence; try lia; auto; [by etrans| |intros h Hh; by rewrite B9, A9].
  intros s t Hs Ht. destruct (A8 s t Hs Ht) as [Hs1|Hd]; [by apply B8|right; by eapply done_with_later].
Qed.

Lemma free_earlier g f f1 f2 : (exists h, acted h f f1) -> (accounted f -> accounted f1) -> free g f1 f2 -> free g f f2.
Proof.
  intros [h [A1 A2 A3 A4 A5 A6 A7 A8 A9]] Hacc [F1 F2 F3 F4 F5].
  split; auto; [by etrans|]. intros s t Hs Hg Ht. destruct (A8 s t Hs Ht) as [Hs1|Hd]; [by eapply F4|by eapply done_with_later].
Qed.

Lemma removals_cons p handled f f3 f4 run : acted (rm_guid (po_removal p)) f f3 -> (accounted f -> accounted f3) ->
  (rm_event (po_removal p) = QueryRemove -> answered p f run f3 /\
     forall e, removing f !! rm_guid (po_removal p) = Some e -> exists e', removing f3 !! rm_guid (po_removal p) = Some e' /\ rg_since e' = rg_since e) ->
  removals handled f3 run f4 -> removals (p :: handled) f run f4.
Proof.
  intros Ha Hacc Hq [R1 R2 R3 R4 R5 R6 R7 R8]. pose proof Ha as [A1 A2 A3 A4 A5 A6 A7 A8 A9]. split; auto; [lia|by etrans| | |].
  - intros s t Hs Ht. destruct (A8 s t Hs Ht) as [Hs1|Hd]; [by apply R6|right; by eapply done_with_later].
  - intros h e He Hall. assert (Hh : exists e', removing f3 !! h = Some e' /\ rg_since e' = rg_since e).
    { destruct (decide (h = rm_guid (po_removal p))) as [->|Hne]; [|exists e; by rewrite A9]. apply Hq; [|done]. apply Hall; [by left|done]. }
    destruct Hh as (e' & He' & <-). apply R7; [done|]. intros q Hin. apply Hall. by right.
  - intros q [->|Hin]%elem_of_cons Hev.
    + destruct (Hq Hev) as [[N1 N2 N3] _]. split; [by intros ?%R4|intros (s & E & Hs)%list_elem_of_fmap; apply N2; rewrite E; by apply list_elem_of_fmap_2, R5|].
      intros c Hc. destruct (N3 c Hc) as (f2 & rest & relist & Hfree & E & Hsuf). exists f2, rest, relist. split_and!; [done|done|by etrans].
    + destruct (R8 q Hin Hev) as [N1 N2 N3]. split; [done|done|]. intros c Hc. destruct (N3 c Hc) as (f2 & rest & relist & Hfree & E & Hsuf). exists f2, rest, relist.
      split_and!; [|done|done]. eapply free_earlier; [by eexists|exact Hacc|exact Hfree].
Qed.

Lemma answer_spec (c : option N) f : wp (st_for (fun c => effect (Answered c)) (option_list c)) (fun _ f' => kept f f' /\ f' = from_option (fun c => logged (Answered c) f) f c) f.
Proof. destruct c as [c|]; cbn; (split; [|done]); [apply kept_effect|done]. Qed.

(** What a step does, and that it was the step. *)
Lemma wp_eqn {A} (m : ST Fleet A) Q f : wp m Q f -> wp m (fun x f' => Q x f' /\ m f = Some (x, f')) f.
Proof. unfold wp. by destruct (m f) as [[x f']|]. Qed.

Lemma act_loop_turn p ps relist f f1 again f2 f3 : stopping f = Some (false, f1) -> on_removal (po_removal p) f1 = Some (again, f2) ->
  st_for (fun c => effect (Answered c)) (option_list (po_done p)) f2 = Some (tt, f3) -> act_loop (p :: ps) relist f = act_loop ps (relist || again) f3.
Proof. intros E1 E2 E3. cbn [act_loop]. unfold st_bind. by rewrite E1, E2, E3. Qed.

Lemma act_loop_spec ps : forall relist f, fleet_ok f -> wp (act_loop ps relist) (fun r f' => exists handled rest, ps = handled ++ rest /\
  (r <> None -> rest = []) /\ posted f' = posted f ++ rest /\ removals handled f (act_loop ps relist f) f') f.
Proof.
  induction ps as [|p ps IH]; intros relist f Hf.
  - cbn [act_loop]. apply wp_bind. eapply wp_mono; [apply stopping_spec|]. intros stop f1 [Hk _]. apply wp_ret. exists [], []. split; [done|]. split; [done|].
    split; [by rewrite app_nil_r, (k_posted _ _ Hk)|]. pose proof (fleet_ok_kept _ _ Hf Hk) as Hok. pose proof (kept_guids _ _ Hk) as Eg. destruct Hk as [Ev Es Er Ed Ep Hid Hcl Hsh He Hl].
    split; rewrite ?Eg, ?Es, ?Er; auto; [by intros h e -> _; eexists|by intros q Hq%elem_of_nil].
  - set (run := act_loop (p :: ps) relist f). cbn [act_loop]. apply wp_bind. eapply wp_mono; [apply wp_eqn, stopping_spec|]. intros stop f1 [[Hk _] E1].
    pose proof (acted_kept (rm_guid (po_removal p)) _ _ _ (acted_refl _ _ Hf) Hk) as Ha1. destruct stop.
    { apply wp_bind, wp_modify, wp_ret. exists [], (p :: ps). split; [done|]. split; [done|]. split; [cbn; by rewrite (k_posted _ _ Hk)|].
      destruct Ha1 as [A1 A2 A3 A4 A5 A6 A7 A8 A9]. split; try done; [by destruct A1|by intros h e E _; exists e; cbn; rewrite (k_removing _ _ Hk)|by intros q Hq%elem_of_nil]. }
    apply wp_bind. eapply wp_mono; [apply wp_eqn, on_removal_spec; apply Ha1|]. intros again f2 [[Ha2 Hq] E2]. apply wp_bind.
    eapply wp_mono; [apply wp_eqn, answer_spec|]. intros [] f3 [(Hk3 & Ef3) E3].
    assert (Hacc : accounted f -> accounted f2) by (intros Hacc; eapply accounts_on_removal; [exact E2|]; by eapply (accounts_idle _ idle_stopping)).
    assert (Erun : run = act_loop ps (relist || again) f3) by (by eapply act_loop_turn).
    eapply wp_mono; [apply IH; eapply fleet_ok_kept; [apply Ha2|exact Hk3]|]. intros r f4 (handled & rest & -> & Hrest & Hpo & Hr). rewrite <- Erun in Hr.
    exists (p :: handled), rest. split; [done|]. split; [done|]. split; [by rewrite Hpo, (k_posted _ _ Hk3), (a_posted _ _ _ Ha2), (k_posted _ _ Hk)|].
    refine (removals_cons p handled f f3 f4 _ _ _ _ Hr).
    + eapply acted_kept; [|exact Hk3]. by eapply acted_trans.
    + intros Hf2%Hacc. eapply accounts_answer; [exact E3|exact Hf2].
    + intros Hev. destruct (Hq Hev) as (Hg & Hs & e' & He' & Hsince). split.
      * split; [by rewrite (kept_guids _ _ Hk3)|by rewrite (k_supervised _ _ Hk3)|]. intros c Hc. rewrite Hc in Ef3. cbn in Ef3. exists f2, (handled ++ rest), (relist || again).
        split; [|split; [by rewrite <- Ef3|by rewrite Ef3]]. split; [done|done|etrans; [apply Hk|apply Ha2]| |exact Hacc]. intros s t Hin Hsg Ht. rewrite <- (k_supervised _ _ Hk) in Hin.
        destruct (a_tails _ _ _ Ha2 s t Hin Ht) as [Hin2|]; [|done]. destruct Hs. rewrite <- Hsg. by apply list_elem_of_fmap_2.
      * intros e He. exists e'. rewrite (k_removing _ _ Hk3). split; [done|]. rewrite Hsince, (k_removing _ _ Hk), He. done.
Qed.

(** ** A turn *)

(** What scanning and giving up leaves of everything else. *)
Record scanned (f f' : Fleet) : Prop := {
  sc_ok : fleet_ok f';
  sc_volumes : volumes f' = volumes f;
  sc_removing : removing f' = removing f;
  sc_posted : posted f' = posted f;
  sc_clock : clock f <= clock f'
}.

Lemma scanned_trans f g h : scanned f g -> scanned g h -> scanned f h.
Proof. intros [] []. split; try congruence. lia. Qed.

Lemma scanned_kept f g : fleet_ok f -> kept f g -> scanned f g.
Proof. intros Hf Hk. pose proof (fleet_ok_kept _ _ Hf Hk). destruct Hk. by split. Qed.

Lemma fleet_ok_supervised sv f : fleet_ok f -> NoDup (sv_guid <$> sv) -> (forall s, s ∈ sv -> sv_state s ∈ current (volumes f)) -> fleet_ok (with_supervised sv f).
Proof. intros [F1 F2 F3 F4 F5 F6 F7 F8] Hnd Hm. by split. Qed.

Lemma scan_all_spec now fuel : forall i f, fleet_ok f -> wp (scan_all fuel i now) (fun _ f' => scanned f f') f.
Proof.
  induction fuel as [|fuel IH]; intros i f Hf; cbn [scan_all]; [by apply wp_ret, scanned_kept|]. apply wp_bind, wp_get.
  destruct (supervised f !! i) as [s|] eqn:Es; [|by apply wp_ret, scanned_kept]. assert (Hin : s ∈ supervised f) by (by eapply list_elem_of_lookup_2).
  apply wp_bind. eapply wp_mono; [apply (quiet_scan now s); intros a Ha%list_elem_of_singleton; subst a; by apply member_shared|]. intros [go s'] f1 [Hk E]. cbn [fst snd] in E |- *.
  apply wp_bind, wp_modify. pose proof (scanned_kept _ _ Hf Hk) as Hs1. set (f2 := with_supervised _ f1).
  assert (Esv : sv_guid <$> supervised f2 = sv_guid <$> supervised f).
  { unfold f2. cbn. rewrite (k_supervised _ _ Hk), list_fmap_insert. apply list_insert_id. rewrite list_lookup_fmap, Es. cbn. unfold sv_guid. by rewrite E. }
  assert (Hs2 : scanned f f2).
  { destruct Hs1 as [S1 S2 S3 S4 S5]. split; try done. apply fleet_ok_supervised; [done| |].
    - change (NoDup (sv_guid <$> supervised f2)). rewrite Esv. apply Hf.
    - intros x Hx. rewrite (k_supervised _ _ Hk) in Hx. apply list_elem_of_lookup_1 in Hx as [j Hj].
      apply list_lookup_insert_Some in Hj as [(_ & <- & _)|[_ Hj]]; rewrite S2; [rewrite E; by apply Hf|]. apply Hf. by eapply list_elem_of_lookup_2. }
  destruct go; [eapply wp_mono; [apply IH, Hs2|]; intros [] f3 Hs3; by eapply scanned_trans|].
  assert (Ei : supervised f2 !! i = Some s').
  { unfold f2. cbn. rewrite (k_supervised _ _ Hk), list_lookup_insert_eq; [done|]. by eapply lookup_lt_Some. }
  destruct (swap_remove_spec _ _ _ Ei) as (l' & Er & Hp). apply wp_bind. eapply wp_read; [exact Er|]. apply wp_bind, wp_modify. cbn [fst snd]. set (f3 := with_supervised l' f2).
  assert (Hs3 : scanned f f3).
  { destruct Hs2 as [S1 S2 S3 S4 S5]. split; try done. apply fleet_ok_supervised; [done| |].
    - pose proof (fo_once _ S1) as Hnd. rewrite Hp in Hnd. by apply NoDup_cons in Hnd as [_ ?].
    - intros x Hx. apply (fo_member _ S1). rewrite Hp. by right. }
  apply wp_bind. eapply wp_mono; [apply (quiet_retire []); by intros a Ha%elem_of_nil|]. intros _ f4 [Hk4 _]. apply wp_bind. eapply wp_mono; [apply effects_each|]. intros _ f5 (Hk5 & _).
  assert (Hs5 : scanned f f5) by (eapply scanned_trans; [exact Hs3|]; apply scanned_kept; [apply Hs3|by etrans]).
  eapply wp_mono; [apply IH, Hs5|]. intros [] f6 Hs6. by eapply scanned_trans.
Qed.

Lemma settle_spec f : fleet_ok f -> wp settle_once_indexed (fun _ f' => kept f f') f.
Proof.
  intros Hf. unfold settle_once_indexed. apply wp_bind, wp_get. change (id f) with f. destruct (starting f); [|by apply wp_ret]. apply wp_bind.
  assert (Hall : forall v, v ∈ current (volumes f) -> is_Some (shared f !! arc_id v)).
  { intros v Hv. pose proof (fo_shared _ Hf v Hv) as E. by destruct (shared f !! arc_id v). }
  eapply wp_mono with (Q := fun _ f' => f' = f).
  { induction (current (volumes f)) as [|v l IH]; cbn [st_map]; [by apply wp_ret|]. destruct (Hall v) as [w Hw]; [by left|]. apply wp_bind. eapply wp_read; [exact Hw|].
    apply wp_bind. eapply wp_mono; [apply IH; intros u Hu; apply Hall; by right|]. intros ws f' ->. by apply wp_ret. }
  intros vs f' ->. destruct (existsb _ vs); [by apply wp_ret|]. apply wp_bind, wp_effect, wp_modify. etrans; [apply (kept_effect Settled)|]. keeps.
Qed.

(** What happens to the removals while they are looked over. *)
Record expired (l : list (list N)) (f f' : Fleet) : Prop := {
  e_ok : fleet_ok f';
  e_volumes : volumes f' = volumes f;
  e_clock : clock f' = clock f;
  e_posted : posted f' = posted f;
  e_removing : forall h, h ∉ l -> removing f' !! h = removing f !! h
}.

Lemma expire_all l : forall f, fleet_ok f -> wp (st_for expire l) (fun _ f' => expired l f f') f.
Proof.
  induction l as [|g l IH]; intros f Hf; cbn [st_for]; [apply wp_ret; by split|]. apply wp_bind.
  eapply wp_mono with (Q := fun _ f' => expired [g] f f').
  - unfold expire. apply wp_bind, wp_get. change (id f) with f. destruct (removing f !! g) as [e|]; [|by apply wp_ret]. apply wp_bind, wp_modify.
    eapply wp_mono; [apply effects_each|]. intros _ f1 (Hk & Hc & _). assert (Hok : fleet_ok (with_removing (delete g (removing f)) f)).
    { destruct Hf as [F1 F2 F3 F4 F5 F6 F7 F8]. split; try done. cbn. intros h Hh. destruct (decide (h = g)) as [->|Hne]; [by rewrite lookup_delete_eq in Hh; destruct Hh|].
      rewrite lookup_delete_ne in Hh by done. by apply F7. }
    split; [by eapply fleet_ok_kept|apply Hk|done|apply Hk|]. intros h Hh%not_elem_of_cons. rewrite (k_removing _ _ Hk). cbn. rewrite lookup_delete_ne by (intros ->; by destruct Hh). done.
  - intros [] f1 [E1 E2 E3 E4 E5]. eapply wp_mono; [by apply IH|]. intros [] f2 [G1 G2 G3 G4 G5]. split; try congruence. intros h [Hh Hl]%not_elem_of_cons.
    rewrite G5 by done. apply E5. by rewrite list_elem_of_singleton.
Qed.

Lemma expire_removing_spec f : fleet_ok f -> wp expire_removing (fun _ f' => fleet_ok f' /\ volumes f' = volumes f /\ clock f' = clock f /\ posted f' = posted f /\
  forall h e, removing f !! h = Some e -> removing f' !! h = Some e \/ rg_since e + REMOVAL_OUTCOME_WAIT <= clock f) f.
Proof.
  intros Hf. unfold expire_removing. apply wp_bind, wp_get. change (id f) with f. eapply wp_mono; [by apply expire_all|]. intros _ f' [E1 E2 E3 E4 E5].
  do 4 (split; [done|]). intros h e He. destruct (N.le_gt_cases (rg_since e + REMOVAL_OUTCOME_WAIT) (clock f)) as [Hle|Hgt]; [by right|left].
  rewrite E5; [done|]. intros ([h' e'] & -> & Hx)%list_elem_of_fmap. apply elem_of_map_to_list, map_lookup_filter_Some in Hx as [Hx Hp]. cbn in Hx, He.
  rewrite Hx in He. injection He as ->. unfold REMOVAL_OUTCOME_WAIT in *. lia.
Qed.

(** A removal that is under way is remembered, unless its end was posted or
    never told for too long. *)
Definition remembers (f f' : Fleet) : Prop := forall h e, removing f !! h = Some e ->
  (forall p, p ∈ posted f -> rm_guid (po_removal p) = h -> rm_event (po_removal p) = QueryRemove) ->
  clock f' < rg_since e + REMOVAL_OUTCOME_WAIT -> exists e', removing f' !! h = Some e' /\ rg_since e' = rg_since e.

Lemma wait_spec f : fleet_ok f -> wp wait (fun ps f' => fleet_ok f' /\ removing f' = removing f /\ clock f' = clock f /\ supervised f' = supervised f /\
  effects f' = effects f /\ guids f' = guids f /\ match ps with Some ps => ps = posted f /\ posted f' = [] | None => posted f' = posted f end) f.
Proof.
  intros Hf. assert (Hsig : forall p s l, fleet_ok (with_signals p s l f)) by (intros; destruct Hf; by split).
  unfold wait. apply wp_bind. unfold wp at 1, stopping. destruct (looks f) as [[|n]|]; [by apply wp_ret|apply wp_bind, wp_get, wp_bind, wp_modify, wp_ret; destruct Hf; by repeat split..].
Qed.

Lemma scan_turn_spec {Mok : MachineOk Mc} f : fleet_ok f -> wp scan_turn (fun _ f' => fleet_ok f' /\ clock f <= clock f' /\ remembers f f' /\ forall p, p ∈ posted f' -> p ∈ posted f) f.
Proof.
  intros Hf. unfold scan_turn. apply wp_bind. eapply wp_mono; [by apply wait_spec|]. intros ps f1 (Hf1 & Er1 & Ec1 & _ & _ & _ & Hps).
  destruct ps as [ps|]; [destruct Hps as [-> Hp1]|].
  2: { apply wp_ret. split; [done|]. split; [lia|]. split; [|by rewrite Hps]. intros h e He _ _. exists e. by rewrite Er1. }
  apply wp_bind. eapply wp_mono; [by apply act_loop_spec|]. intros relist f2 (handled & rest & Eps & Hrest & Hp2 & [R1 R2 R3 R4 R5 R6 R7 R8]).
  assert (Hmem2 : forall h e, removing f !! h = Some e -> (forall p, p ∈ posted f -> rm_guid (po_removal p) = h -> rm_event (po_removal p) = QueryRemove) ->
    exists e', removing f2 !! h = Some e' /\ rg_since e' = rg_since e).
  { intros h e He Hall. apply R7; [by rewrite Er1|]. intros p Hp. apply Hall. rewrite Eps. apply elem_of_app. by left. }
  assert (Hpost2 : forall p, p ∈ posted f2 -> p ∈ posted f) by (intros p; rewrite Hp2, Hp1, Eps; cbn; intros Hp; apply elem_of_app; by right).
  destruct relist as [relist|]; [|apply wp_ret; split; [done|]; split; [lia|]; split; [|done]; intros h e He Hall _; by apply Hmem2].
  apply wp_bind. eapply wp_mono with (Q := fun _ f3 => fleet_ok f3 /\ clock f2 <= clock f3 /\ removing f3 = removing f2 /\ posted f3 = posted f2).
  { apply wp_when; [|intros _; by split_and!]. intros _. apply wp_bind. eapply wp_mono; [by apply discover_spec|]. intros [] f3 [S1 S2 S3 S4 S5 S6]. apply wp_modify. split; [by destruct S1|]. by split_and!. }
  intros [] f3 (Hf3 & Hc3 & Er3 & Ep3). apply wp_bind, wp_get. change (id f3) with f3. destruct (clock f3 <? next_scan f3).
  { apply wp_ret. split; [done|]. split; [lia|]. split; [|by rewrite Ep3]. intros h e He Hall _. rewrite Er3. by apply Hmem2. }
  apply wp_bind. eapply wp_mono; [by apply scan_all_spec|]. intros [] f4 [S1 S2 S3 S4 S5]. apply wp_bind. eapply wp_mono; [by apply expire_removing_spec|].
  intros [] f5 (Hf5 & Ev5 & Ec5 & Ep5 & Hexp). apply wp_bind. eapply wp_mono; [by apply discover_spec|]. intros [] f6 [D1 D2 D3 D4 D5 D6].
  apply wp_bind. eapply wp_mono; [by apply settle_spec|]. intros [] f7 Hk7. apply wp_bind, wp_modify, wp_ret. pose proof (fleet_ok_kept _ _ D1 Hk7) as Hf7.
  pose proof (k_clock _ _ Hk7) as Hc7. split; [by destruct Hf7|]. split; [cbn; lia|]. split.
  - intros h e He Hall Hlt. cbn in Hlt |- *. destruct (Hmem2 h e He Hall) as (e' & He' & Hsince). exists e'. split; [|done]. rewrite (k_removing _ _ Hk7), D2.
    destruct (Hexp h e') as [->|Hle]; [by rewrite S3, Er3|done|]. lia.
  - cbn. intros p. rewrite (k_posted _ _ Hk7), D3, Ep5, S4, Ep3. apply Hpost2.
Qed.

Lemma map_parts_spec deadline l : forall f, wp (st_map (fun s => into_parts s deadline) l) (fun parts f' => kept f f' /\ forall s t, s ∈ l -> sv_tail s = Some t -> t ∈ concat parts.*1) f.
Proof.
  induction l as [|s l IH]; intros f; cbn [st_map]; [apply wp_ret; split; [done|]; by intros s t Hs%elem_of_nil|].
  apply wp_bind. eapply wp_mono; [apply (quiet_into_parts [] s); by intros a Ha%elem_of_nil|]. intros parts f1 [Hk Ht]. apply wp_bind. eapply wp_mono; [apply IH|].
  intros rest f2 [Hk2 Hall]. apply wp_ret. split; [by etrans|]. intros u t [->|Hu]%elem_of_cons Hut; cbn; apply elem_of_app; [left; by apply Ht|right; by eapply Hall].
Qed.

(** Nothing of what was ever started is left: each start that was launched was
    heard of or given up on, each tail handed over joined or given up on. *)
Definition all_stopped (es : list Effect) : Prop := opened es ≡ₚ closed es.

(** What the thread leaves behind at its end.  The log splits where the waiting
    queries begin to be let go of. *)
Record shut_down (f f' : Fleet) : Prop := {
  sd_stopped : tails_stopped f' = true;
  sd_posted : posted f' = [];
  sd_supervised : supervised f' = [];
  sd_order : exists after es, effects f' = after ++ es /\ effects f `suffix_of` es /\ all_stopped es /\
    (forall s t, s ∈ supervised f -> sv_tail s = Some t -> done_with t es) /\ (forall p c, p ∈ posted f -> po_done p = Some c -> Answered c ∈ after)
}.

Lemma effects_after (g : N -> Effect) ts f : wp (st_for (fun t => effect (g t)) ts) (fun _ f' => kept f f' /\ effects f' = reverse (g <$> ts) ++ effects f) f.
Proof.
  revert f. induction ts as [|t ts IH]; intros f; cbn [st_for]; [by apply wp_ret|]. apply wp_bind, wp_effect. eapply wp_mono; [apply IH|]. intros _ f' [Hk E].
  split; [etrans; [apply kept_effect|exact Hk]|]. rewrite E, fmap_cons, reverse_cons, <- app_assoc. done.
Qed.

Lemma stop_all_spec f : accounted f -> wp stop_all (fun _ f' => shut_down f f') f.
Proof.
  intros Hf. unfold stop_all. apply wp_bind, wp_get, wp_bind, wp_get, wp_bind. eapply wp_mono; [apply wp_eqn, map_parts_spec|]. intros parts f1 [[Hk1 Ht] E1]. apply wp_bind, wp_modify, wp_bind.
  eapply wp_mono; [apply wp_eqn, stop_tails_spec|]. intros [] f2 [[Hk2 Hdone] E2]. apply wp_bind, wp_get. change (id f2) with f2. apply wp_bind, wp_modify, wp_bind.
  eapply wp_mono; [apply effects_after|]. intros _ f3 [Hk3 Ea3]. apply wp_bind. eapply wp_mono; [apply effects_after|]. intros _ f4 [Hk4 Ea4].
  eapply wp_mono; [apply effects_after|]. intros _ f5 [Hk5 Ea5].
  assert (Hk : kept (with_signals [] true (Some O) f2) f5) by (by etrans; [|etrans]). split.
  - exact (k_stopped _ _ Hk).
  - exact (k_posted _ _ Hk).
  - rewrite (k_supervised _ _ Hk). exact (k_supervised _ _ Hk2).
  - rewrite Ea5, Ea4, Ea3. rewrite !app_assoc. eexists _, (effects f2). split; [reflexivity|]. split_and!.
    + etrans; [apply Hk1|apply Hk2].
    + unfold all_stopped. destruct (carries_map_parts _ _ _ _ _ E1) as [_ Ht1], (carries_stop_tails _ _ _ _ E2) as [_ Ht2]. apply (Ht2 []), (Ht1 []).
      rewrite app_nil_r. exact Hf.
    + intros s t Hs Hst. apply Hdone. by eapply Ht.
    + intros p c Hp Hc. rewrite !elem_of_app. right. rewrite elem_of_reverse. apply list_elem_of_fmap_2, list_elem_of_omap. exists p. split; [|done].
      rewrite (k_posted _ _ Hk2). cbn. by rewrite (k_posted _ _ Hk1).
Qed.
End running.

(** ** Over time *)

(** What happens to a fleet: a turn of its thread; a removal event posted; the
    stop flag raised; and what other threads do meanwhile to the volumes, to the
    flag and to the time. *)
Inductive moved `{Unicode, Hasher} {Mc : Machine} (may_post : list N -> DeviceEvent -> Prop) : Fleet -> Fleet -> Prop :=
| turned go f f' : scan_turn f = Some (go, f') -> moved may_post f f'
| told g e c f : may_post g e -> moved may_post f (post g e c f)
| halted f : moved may_post f (shutdown f)
| others f memory now l : clock f <= now -> (forall a, guid <$> memory !! a = guid <$> shared f !! a) ->
    moved may_post f (with_signals (posted f) (tails_stopped f) l (with_time (next_scan f) now (with_shared memory f))).

Definition nothing_yet : VolumeRegistry := {| registry_set := [] |}.

Section over_time.
Context `{Unicode, Hasher} {Mc : Machine} {Mok : MachineOk Mc}.

Lemma fleet_ok_signals p s l f : fleet_ok f -> fleet_ok (with_signals p s l f).
Proof. intros []. by split. Qed.

Lemma moved_ok may_post f f' : fleet_ok f -> moved may_post f f' -> fleet_ok f'.
Proof.
  intros Hf Hm. destruct Hm as [go f f' E|g e c f _|f|f memory now l Hc Hg].
  - pose proof (scan_turn_spec f Hf) as Hw. unfold wp in Hw. rewrite E in Hw. apply Hw.
  - unfold post. destruct (looks f) as [[|n]|]; [done|by apply fleet_ok_signals..].
  - by apply fleet_ok_signals.
  - apply fleet_ok_signals. destruct Hf as [F1 F2 F3 F4 F5 F6 F7 F8]. split; try done. cbn. intros v Hv. rewrite Hg. by apply F3.
Qed.

Lemma moves_ok may_post f f' : rtc (moved may_post) f f' -> fleet_ok f -> fleet_ok f'.
Proof. induction 1 as [|f g h Hm _ IH]; intros Hf; [done|]. apply IH. by eapply moved_ok. Qed.

Lemma moved_accounted may_post f f' : moved may_post f f' -> accounted f -> accounted f'.
Proof.
  intros Hm Hf. destruct Hm as [go f f' E|g e c f _|f|f memory now l Hc Hg]; try done; [by eapply accounts_scan_turn|]. unfold post. by destruct (looks f) as [[|n]|].
Qed.

Lemma moves_accounted may_post f f' : rtc (moved may_post) f f' -> accounted f -> accounted f'.
Proof. induction 1 as [|f g h Hm _ IH]; intros Hf; [done|]. apply IH. by eapply moved_accounted. Qed.

(** A removal under way, and no word of its end posted. *)
Definition under_way (g : list N) (since : N) (f : Fleet) : Prop :=
  (exists e, removing f !! g = Some e /\ rg_since e = since) /\ forall p, p ∈ posted f -> rm_guid (po_removal p) = g -> rm_event (po_removal p) = QueryRemove.

Definition only_queries (g : list N) (h : list N) (e : DeviceEvent) : Prop := h = g -> e = QueryRemove.

Lemma moved_clock may_post f f' : fleet_ok f -> moved may_post f f' -> clock f <= clock f'.
Proof.
  intros Hf Hm. destruct Hm as [go f f' E|g e c f _|f|f memory now l Hc Hg]; try done.
  - pose proof (scan_turn_spec f Hf) as Hw. unfold wp in Hw. rewrite E in Hw. apply Hw.
  - unfold post. by destruct (looks f) as [[|n]|].
Qed.

Lemma moved_under_way g since f f' : fleet_ok f -> moved (only_queries g) f f' -> under_way g since f -> clock f' < since + REMOVAL_OUTCOME_WAIT -> under_way g since f'.
Proof.
  intros Hf Hm [(e & He & Hs) Hp] Hlt. destruct Hm as [go f f' E|h ev c f Hev|f|f memory now l Hc Hg]; try (by split; [exists e|]).
  - pose proof (scan_turn_spec f Hf) as Hw. unfold wp in Hw. rewrite E in Hw. destruct Hw as (_ & _ & Hrem & Hpost). split.
    + destruct (Hrem g e He Hp) as (e' & He' & Hs'); [by rewrite Hs|]. exists e'. split; [done|by rewrite Hs'].
    + intros p Hin. by apply Hp, Hpost.
  - unfold post. destruct (looks f) as [[|n]|]; (split; [by exists e|]); try done; cbn; intros p [Hin| ->%list_elem_of_singleton]%elem_of_app; [by apply Hp|exact Hev|by apply Hp|exact Hev].
Qed.

Lemma moves_clock may_post f f' : rtc (moved may_post) f f' -> fleet_ok f -> clock f <= clock f'.
Proof.
  induction 1 as [|f g h Hm _ IH]; intros Hf; [done|]. pose proof (moved_clock _ _ _ Hf Hm). pose proof (IH (moved_ok _ _ _ Hf Hm)). lia.
Qed.
End over_time.
