(* ===== verification/SupervisorClaims.v ===== *)
(** What the supervision of volumes promises, as theorems about every fleet that
    can come about. *)

From Stdlib Require Import String.
From stdpp Require Import gmap.
From stdpp Require Import base option list sets relations.
From Stdlib Require Import NArith Lia.
From S2P Require Import Prelude Types Fold FrnMap NameStore Volume VolumeInv VolumeNew Server Registry Pulse Supervisor SupervisorOk SupervisorTails SupervisorRun.
Open Scope N_scope.
Open Scope list_scope.

(** C15: the supervision is safe.  From any list of volumes at the start, each
    fixed NTFS volume is taken up; and whatever then happens, in any order, turns
    of the supervisor's thread, removal events, the stop flag and what other
    threads do to the volumes: no volume is indexed twice, none has two entries
    in the list of supervised ones, each of those is an indexed volume, and no
    volume whose disk is being removed or was just removed is indexed.  The books
    balance: every start launched is under way on one supervised volume, was
    heard of or was given up on, and every tail a worker handed over is held by
    one supervised volume, was joined or was given up on, each exactly once.  The
    thread never panics, whatever the machine answers, and its last act leaves
    nothing running: the starts still in flight are settled, the tails they hand
    over meanwhile and the ones held are joined or given up on, and only then is
    every waiting query let go. *)
Theorem supervision_safe `{Unicode, Hasher} {Mc : Machine} {Mok : MachineOk Mc} now listed may_post : NoDup (guid_path <$> listed) ->
  exists f0, spawn now listed nothing_yet ∅ 0 = Some f0 /\ guids f0 = guid_path <$> filter (fun v => indexable v = true) listed /\
    forall f, rtc (moved may_post) f0 f -> fleet_ok f /\ accounted f /\ is_Some (scan_turn f) /\ wp stop_all (fun _ f' => shut_down f f') f.
Proof.
  intros Hnd. unfold spawn. set (f := {| volumes := nothing_yet |}).
  assert (Hf : fleet_ok f) by (split; cbn; try constructor; try (by intros ? ?%elem_of_nil); [by intros g [? ?%lookup_empty_Some]|by intros g t ?%elem_of_nil]).
  pose proof (reconcile_spec listed now f Hf Hnd) as Hw. apply wp_run in Hw as ([] & f0 & E0 & Hs & Hg). rewrite E0. exists f0. split; [done|]. split.
  - rewrite Hg by done. unfold in_step. cbn. change (guids f) with (@nil (list N)). cbn. rewrite filter_whole.
    + f_equal. apply list_filter_iff. intros v. split; [tauto|]. intros. split; [by apply not_elem_of_nil|done].
    + intros g _. done.
  - intros f1 Hm. assert (Hf1 : fleet_ok f1) by (eapply moves_ok; [exact Hm|apply Hs]).
    assert (Ha1 : accounted f1) by (eapply moves_accounted; [exact Hm|]; eapply accounts_reconcile; [exact E0|]; constructor).
    split; [done|]. split; [done|]. split; [|by apply stop_all_spec].
    pose proof (scan_turn_spec f1 Hf1) as Hw. apply wp_run in Hw as (r & f2 & -> & _). by eexists.
Qed.

(** C16: a removal is answered only when the disk is free.  When removal events
    are acted on, up to where shutdown cuts in, every query among those acted on
    is answered, on a fleet the rest of the events goes on from.  On that fleet,
    so before the answer, the volume is no longer indexed or supervised; the tail
    it had is joined or given up on; and so is every tail a worker ever handed
    over that is not another supervised volume's, so also the one that a start in
    flight handed over while the volume was let go of.  The volume is still gone
    at the end, and the events not acted on are posted again, in order. *)
Theorem removal_answered `{Unicode, Hasher} {Mc : Machine} ps f : fleet_ok f -> accounted f ->
  wp (act_on ps) (fun r f' => exists handled rest, ps = handled ++ rest /\ (r <> None -> rest = []) /\ posted f' = posted f ++ rest /\
    forall p, p ∈ handled -> rm_event (po_removal p) = QueryRemove -> let g := rm_guid (po_removal p) in
      g ∉ guids f' /\ g ∉ (sv_guid <$> supervised f') /\
      forall c, po_done p = Some c -> exists at_answer left relist,
        act_on ps f = act_loop left relist (logged (Answered c) at_answer) /\ (Answered c :: effects at_answer) `suffix_of` effects f' /\
        effects f `suffix_of` effects at_answer /\ g ∉ guids at_answer /\ g ∉ (sv_guid <$> supervised at_answer) /\
        (forall s t, s ∈ supervised f -> sv_guid s = g -> sv_tail s = Some t -> done_with t (effects at_answer)) /\
        accounted at_answer /\ forall w t, HandedOver w t ∈ effects at_answer ->
          done_with t (effects at_answer) \/ exists s, s ∈ supervised at_answer /\ sv_guid s <> g /\ sv_tail s = Some t) f.
Proof.
  intros Hf Ha. eapply wp_mono; [by apply act_loop_spec|]. intros r f' (handled & rest & E & Hr & Hp & R). exists handled, rest. split_and!; try done.
  intros p Hin Hev g. destruct (r_answers _ _ _ _ R p Hin Hev) as [N1 N2 N3]. split; [done|]. split; [done|]. intros c Hc.
  destruct (N3 c Hc) as (f2 & left & relist & [F1 F2 F3 F4 F5] & Erun & Hsuf). exists f2, left, relist. specialize (F5 Ha). split_and!; try done.
  intros w t Ht. destruct (accounted_tail _ _ _ F5 Ht) as [Hd|(s & Hs & Hst)]; [by left|right]. exists s. split_and!; [done| |done]. intros Eg. apply F2.
  change (g ∈ sv_guid <$> supervised f2). rewrite <- Eg. by apply list_elem_of_fmap_2.
Qed.

(** C17: a disk that is being removed is left alone.  Once a removal is under way,
    and as long as nothing is posted about it but more queries and its time is
    not up, no turn of the supervisor, no listing of the machine and no other
    thread gets the volume indexed or supervised again. *)
Theorem removal_keeps_out `{Unicode, Hasher} {Mc : Machine} {Mok : MachineOk Mc} g since f f' : fleet_ok f -> under_way g since f ->
  rtc (moved (only_queries g)) f f' -> clock f' < since + REMOVAL_OUTCOME_WAIT -> g ∉ guids f' /\ g ∉ (sv_guid <$> supervised f').
Proof.
  intros Hf Hu Hm Hlt. assert (Hend : fleet_ok f' /\ under_way g since f').
  { clear -Hf Hu Hm Hlt Mok. induction Hm as [|f g' h Hm Hms IH]; [done|]. pose proof (moved_ok _ _ _ Hf Hm) as Hf1. apply IH; [done| |done].
    eapply moved_under_way; [exact Hf|exact Hm|exact Hu|]. pose proof (moves_clock _ _ _ Hms Hf1). lia. }
  destruct Hend as [Hf' [(e & He & _) _]]. assert (Hg : g ∉ guids f') by (apply (fo_removing _ Hf'); by exists e). split; [done|].
  intros (s & -> & Hs)%list_elem_of_fmap. apply Hg. unfold guids. apply (list_elem_of_fmap_2 (fun v => guid (arc_volume v))). by apply Hf'.
Qed.

(** C19: the indexed volumes follow the machine.  After a listing, unless shutdown
    has begun, the indexed volumes are the listed ones that were indexed before,
    in their order and whatever they now look like, followed by the listed fixed
    NTFS volumes that were not, in the order of the listing, except those whose
    removal is under way and those removed after the listing began. *)
Theorem listing_in_step `{Unicode, Hasher} {Mc : Machine} listed taken f : fleet_ok f -> NoDup (guid_path <$> listed) -> looks f = None ->
  wp (reconcile listed taken) (fun _ f' => guids f' = in_step listed taken f) f.
Proof. intros Hf Hnd Hl. eapply wp_mono; [by apply reconcile_spec|]. intros [] f' [_ E]. by apply E. Qed.

(** *** A machine with one volume *)

#[local] Existing Instance one_bucket.

(** Tails beat and end when asked; starts and listings take their time. *)
Definition calm : Machine := {| m_pulse := fun t _ => beat t; m_finished := fun _ _ => true; m_recv := fun _ _ _ => (NotYet, 0); m_list := fun _ _ _ => (ListingSlow, 0);
  m_spawns := fun _ => true; m_handle := fun _ => true; m_awake := fun t => t / 1000; m_late := fun _ => 0 |}.
#[local] Existing Instance calm.
#[local] Instance calm_ok : MachineOk calm.
Proof. split. by intros t w d listed waited [=]. Qed.

Definition disk : VolumeInfo := {| guid_path := [0x41]; vi_mounts := [[0x43; 0x3A; 0x5C]]; is_fixed := true; is_ntfs := true |}.

Definition empty_fleet : Fleet := {| volumes := nothing_yet; shared := ∅; supervised := []; listing := None; starting := None; removing := ∅; removed := []; posted := [];
  tails_stopped := false; looks := None; next_scan := 0; clock := 0; next_id := 0; effects := [] |}.
Definition started_fleet : Fleet := default empty_fleet (spawn 0 [disk] nothing_yet ∅ 0).
Definition asked_fleet : Fleet := default empty_fleet (snd <$> scan_turn (post [0x41] QueryRemove 7 started_fleet)).

Lemma one_disk : NoDup (guid_path <$> [disk]).
Proof. apply NoDup_singleton. Qed.

Lemma started_ok : fleet_ok started_fleet.
Proof.
  assert (Hf : fleet_ok {| volumes := nothing_yet; shared := ∅; supervised := []; listing := None; starting := Some 0; removing := ∅; removed := []; posted := [];
    tails_stopped := false; looks := None; next_scan := 0 + SCAN_INTERVAL; clock := 0; next_id := 0; effects := [] |}).
  { split; cbn; try constructor; try (by intros ? ?%elem_of_nil); [by intros g [? ?%lookup_empty_Some]|by intros g t ?%elem_of_nil]. }
  pose proof (reconcile_spec [disk] 0 _ Hf one_disk) as Hw. apply wp_run in Hw as ([] & f0 & E & Hs & _). unfold started_fleet, spawn. rewrite E. apply Hs.
Qed.

Lemma after_turn f : fleet_ok f -> fleet_ok (default empty_fleet (snd <$> scan_turn f)).
Proof. intros Hf. pose proof (scan_turn_spec f Hf) as Hw. apply wp_run in Hw as (r & f' & -> & Hf' & _). exact Hf'. Qed.

Lemma asked_ok : fleet_ok asked_fleet.
Proof. apply after_turn. eapply (moved_ok (fun _ _ => True)); [apply started_ok|by apply told]. Qed.

Lemma started_accounted : accounted started_fleet.
Proof. unfold started_fleet, spawn. destruct (reconcile _ _ _) as [[[] f0]|] eqn:E; [|constructor]. eapply accounts_reconcile; [exact E|]. constructor. Qed.

(** A machine whose workers hand over the tail 5 when they are waited for. *)
Definition quick : Machine := {| m_pulse := fun t _ => beat t; m_finished := fun _ _ => true;
  m_recv := fun _ _ _ => (Reported (Ok {| started_tail := 5; started_notification := None |}), 0); m_list := fun _ _ _ => (ListingSlow, 0);
  m_spawns := fun _ => true; m_handle := fun _ => true; m_awake := fun t => t / 1000; m_late := fun _ => 0 |}.
#[local] Instance quick_ok : MachineOk quick.
Proof. split. by intros t w d listed waited [=]. Qed.

Definition query : Posted := {| po_removal := {| rm_guid := [0x41]; rm_event := QueryRemove |}; po_done := Some 7 |}.

(** A query is posted, then the thread ends. *)
Lemma supervision_safe_witness : exists f0, spawn (Mc := quick) 0 [disk] nothing_yet ∅ 0 = Some f0 /\ guids f0 = [[0x41]] /\
  wp (stop_all (Mc := quick)) (fun _ f' => shut_down (post [0x41] QueryRemove 7 f0) f') (post [0x41] QueryRemove 7 f0).
Proof.
  destruct (supervision_safe (Mc := quick) 0 [disk] (fun _ _ => True) one_disk) as (f0 & E & Eg & Hall). exists f0. split; [exact E|]. split; [rewrite Eg; reflexivity|].
  apply Hall. apply rtc_once, told. exact I.
Defined.

(** The start in flight is waited for, the tail it hands over is stopped, and the
    query is let go of after that. *)
Example shutdown_log : (effects ∘ snd <$> stop_all (Mc := quick) (post [0x41] QueryRemove 7 started_fleet)) =
  Some [Answered 7; JoinedTail 5; SignalledTail 5; HandedOver 1 5; CancelledStart 1; Launched 0 1].
Proof. vm_compute. reflexivity. Qed.

Lemma removal_answered_witness : exists r f' at_answer, act_on (Mc := quick) [query] started_fleet = Some (r, f') /\
  effects f' = [Answered 7; JoinedTail 5; SignalledTail 5; HandedOver 1 5; CancelledStart 1; Launched 0 1] /\
  effects at_answer = [JoinedTail 5; SignalledTail 5; HandedOver 1 5; CancelledStart 1; Launched 0 1] /\ [0x41] ∉ guids at_answer /\ accounted at_answer.
Proof.
  pose proof (removal_answered (Mc := quick) [query] started_fleet started_ok started_accounted) as Hw. destruct (proj1 (wp_run _ _ _) Hw) as (r & f' & E & handled & rest & Eps & Hr & _ & Hall).
  assert (El : (effects ∘ snd <$> act_on (Mc := quick) [query] started_fleet) = Some [Answered 7; JoinedTail 5; SignalledTail 5; HandedOver 1 5; CancelledStart 1; Launched 0 1])
    by (vm_compute; reflexivity).
  assert (Er : (fst <$> act_on (Mc := quick) [query] started_fleet) = Some (Some false)) by (vm_compute; reflexivity).
  rewrite E in El, Er. injection El as El. injection Er as ->. rewrite Hr, app_nil_r in Eps by discriminate. subst handled.
  destruct (Hall query (list_elem_of_here _ _) eq_refl) as (_ & _ & Hc). destruct (Hc 7 eq_refl) as (f2 & left & relist & _ & [k Hk] & _ & Hg & _ & _ & Ha & _).
  exists (Some false), f', f2. split; [exact E|]. split; [exact El|]. split; [|split; [exact Hg|exact Ha]]. rewrite El in Hk.
  do 6 (destruct k as [|? k]; [injection Hk as Hk; first [discriminate Hk|symmetry; exact Hk]|injection Hk as _ Hk]). destruct k; discriminate Hk.
Defined.

Lemma removal_keeps_out_witness : [0x41] ∉ guids asked_fleet.
Proof.
  apply (removal_keeps_out [0x41] 0 asked_fleet asked_fleet); [apply asked_ok| |apply rtc_refl|vm_compute; reflexivity].
  split; [eexists; split; vm_compute; reflexivity|]. assert (E : posted asked_fleet = []) by (vm_compute; reflexivity).
  intros p Hp. rewrite E in Hp. exfalso. exact (not_elem_of_nil p Hp).
Defined.

Lemma listing_in_step_witness : wp (reconcile [disk] 0) (fun _ f' => guids f' = [[0x41]]) empty_fleet.
Proof.
  eapply wp_mono; [apply listing_in_step; [|apply one_disk|reflexivity]|].
  - split; cbn; try constructor; try (by intros ? ?%elem_of_nil); [by intros g [? ?%lookup_empty_Some]|by intros g t ?%elem_of_nil].
  - intros [] f' ->. vm_compute. reflexivity.
Defined.

(** The removal answered, as the fleet logs it: the start still under way is
    cancelled and left behind, then the callback is told. *)
Example removal_log : effects asked_fleet = [Answered 7; AbandonedStart 1; CancelledStart 1; Launched 0 1].
Proof. vm_compute. reflexivity. Qed.
