(* ===== verification/SupervisorBudget.v ===== *)
(** The revivals of a tail that keeps dying are bounded, and what refunds them is
    health that was really seen. *)

From Stdlib Require Import String.
From stdpp Require Import gmap.
From stdpp Require Import base option list sets.
From Stdlib Require Import NArith Lia.
From S2P Require Import Prelude Types Fold FrnMap NameStore Volume VolumeNew Server Registry Pulse Supervisor.
Open Scope N_scope.
Open Scope list_scope.

(** ** What one scan saw and did *)

Record Seen := { seen_now : N; seen_health : bool; seen_log : list Effect }.

Section seeing.
Context `{Unicode, Hasher} {Mc : Machine}.

Definition pulse_of (s : Supervised) (f : Fleet) : Pulse := match sv_tail s with Some t => load (m_pulse (clock f) t) | None => Retired end.

Definition phase_at (s : Supervised) (f : Fleet) : option VolumePhase := phase <$> shared f !! arc_id (sv_state s).

(** What a scan adds to the log. *)
Definition logged (f f' : Fleet) : list Effect := take (length (effects f') - length (effects f)) (effects f').

Definition seen (now : N) (s : Supervised) (f f' : Fleet) : Seen :=
  {| seen_now := now; seen_health := healthy (pulse_of s f) (bool_decide (phase_at s f = Some Live)) now; seen_log := logged f f' |}.

Definition is_reviving (e : Effect) : bool := match e with Reviving _ => true | _ => false end.
Definition is_refund (e : Effect) : bool := match e with Refunded _ => true | _ => false end.
Definition revived (o : Seen) : bool := existsb is_reviving (seen_log o).
Definition refunded (o : Seen) : bool := existsb is_refund (seen_log o).

(** The scans of one volume, one after another, each on whatever fleet there is
    by then. *)
Inductive watched (a : Arc) : list Seen -> Supervised -> Prop :=
| watched_start f s f' : start a f = Some (s, f') -> watched a [] s
| watched_scan obs s now f s' f' : watched a obs s -> scan now s f = Some ((true, s'), f') -> watched a (obs ++ [seen now s f f']) s'.

(** The revivals since the last refund. *)
Definition revivals (obs : list Seen) : N := fold_left (fun n o => if refunded o then 0 else if revived o then n + 1 else n) obs 0.

Lemma revivals_snoc obs o : revivals (obs ++ [o]) = if refunded o then 0 else if revived o then revivals obs + 1 else revivals obs.
Proof. unfold revivals. by rewrite fold_left_app. Qed.

(** ** What a scan does, branch by branch *)

Lemma logged_app new f f' : effects f' = new ++ effects f -> logged f f' = new.
Proof. intros E. unfold logged. rewrite E, length_app, Nat.add_sub. apply take_app_length. Qed.

(** A computation that adds effects of which none is [bad]. *)
Definition adds {A} (bad : Effect -> bool) (m : ST Fleet A) : Prop := forall f x f', m f = Some (x, f') -> exists new, effects f' = new ++ effects f /\ existsb bad new = false.

Lemma adds_ret {A} bad (x : A) : adds bad (st_ret x).
Proof. intros f y f' [= <- <-]. by exists []. Qed.

Lemma adds_bind {A B} bad (m : ST Fleet A) (k : A -> ST Fleet B) : adds bad m -> (forall x, adds bad (k x)) -> adds bad (st_bind m k).
Proof.
  intros Hm Hk f y f'. unfold st_bind. destruct (m f) as [[x f1]|] eqn:E; [|done]. intros E2. destruct (Hm _ _ _ E) as (n1 & E1 & B1). destruct (Hk x _ _ _ E2) as (n2 & -> & B2).
  exists (n2 ++ n1). rewrite E1, app_assoc. split; [done|]. by rewrite existsb_app, B1, B2.
Qed.

Lemma adds_same {A} bad (m : ST Fleet A) : (forall f x f', m f = Some (x, f') -> effects f' = effects f) -> adds bad m.
Proof. intros Hm f x f' E. exists []. split; [by eapply Hm|done]. Qed.

Lemma adds_effect (bad : Effect -> bool) e : bad e = false -> adds bad (effect e).
Proof. intros Hb f x f' [= <- <-]. exists [e]. split; [done|]. cbn. by rewrite Hb. Qed.

Lemma adds_for {A} bad (g : A -> ST Fleet unit) l : (forall x, adds bad (g x)) -> adds bad (st_for g l).
Proof. intros Hg. induction l as [|x l IH]; cbn [st_for]; [apply adds_ret|]. by apply adds_bind. Qed.

Lemma adds_when bad (b : bool) m : adds bad m -> adds bad (st_when b m).
Proof. intros Hm. destruct b; [done|apply adds_ret]. Qed.

Lemma adds_instant bad : adds bad instant.
Proof. apply adds_same. by intros f x f' [= <- <-]. Qed.

Lemma adds_volume_at bad a : adds bad (volume_at a).
Proof. apply adds_same. intros f x f'. unfold volume_at, st_read. destruct (shared f !! arc_id a); [by intros [= <- <-]|done]. Qed.

Lemma adds_set_phase bad a p : adds bad (set_phase a p).
Proof. apply adds_same. by intros f x f' [= <- <-]. Qed.

Lemma adds_fresh bad : adds bad fresh_id.
Proof. apply adds_same. by intros f x f' [= <- <-]. Qed.
End seeing.

#[export] Hint Resolve adds_ret adds_instant adds_volume_at adds_set_phase adds_fresh : adds.
#[export] Hint Extern 1 (adds _ (effect _)) => by apply adds_effect : adds.
#[export] Hint Extern 2 (adds _ (st_bind _ _)) => apply adds_bind; [|intros] : adds.
#[export] Hint Extern 2 (adds _ (st_for _ _)) => apply adds_for; intros : adds.
#[export] Hint Extern 2 (adds _ (st_when _ _)) => apply adds_when : adds.

Section budget.
Context `{Unicode, Hasher} {Mc : Machine}.

Definition marks (e : Effect) : bool := is_reviving e || is_refund e.

Lemma adds_launch bad s : (forall a w, bad (Launched a w) = false) -> adds bad (launch s).
Proof. intros Hb. unfold launch. apply adds_bind; [auto with adds|]. intros now. destruct (m_spawns now); [|auto with adds]. apply adds_bind; [auto with adds|]. intros w. apply adds_bind; [by apply adds_effect|]. auto with adds. Qed.

Lemma adds_poll s : adds marks (poll_revival s).
Proof.
  unfold poll_revival. destruct (sv_pending s) as [p|]; [|auto with adds]. apply adds_bind; [auto with adds|]. intros now. destruct (m_recv _ _ _).1 as [[t|e]| |]; unfold retire, start_failed; eauto 10 with adds.
Qed.

(** The decision of a scan, and what is left of the supervised volume before it is acted on. *)
Definition aged (now : N) (s : Supervised) (f : Fleet) : Supervised :=
  if 0 <? revive_attempts s
  then with_budget (revive_attempts s) (accrue_health (beating_since s) (pulse_of s f) (bool_decide (phase_at s f = Some Live)) now) s else s.

Definition proven (now : N) (s : Supervised) : bool := match beating_since s with Some since => HEALTHY_AFTER <=? now - since | None => false end.

Definition verdict (now : N) (s : Supervised) (f : Fleet) : Action :=
  assess (pulse_of s f) now (revive_attempts (aged now s f)) (proven now (aged now s f)) (bool_decide (pulse_of s f = Retired) && bool_decide (phase_at s f = Some Snapshot)).

Definition carry_out (a : Action) (s : Supervised) : ST Fleet (bool * Supervised) :=
  match a with
  | Nothing => st_ret (true, s)
  | ResetBudget => effect (Refunded (arc_id (sv_state s))) ;;; st_ret (true, with_budget 0 None s)
  | CancelIo _ => st_for (fun t => effect (CancelledTail t)) (option_list (sv_tail s)) ;;; st_ret (true, s)
  | Revive => s <- launch_revival s ;; st_ret (true, s)
  | GiveUp => abandon s ;;; st_ret (false, s)
  | Release => effect (Released (arc_id (sv_state s))) ;;; st_ret (false, s)
  end.

Lemma aged_attempts now s f : revive_attempts (aged now s f) = revive_attempts s.
Proof. unfold aged. by destruct (0 <? revive_attempts s). Qed.

Lemma bool_decide_some {A} `{EqDecision A} (x y : A) : bool_decide (Some x = Some y) = bool_decide (x = y).
Proof. apply bool_decide_ext. split; congruence. Qed.

Lemma scan_eq now s f : sv_pending s = None -> is_Some (shared f !! arc_id (sv_state s)) -> scan now s f = carry_out (verdict now s f) (aged now s f) f.
Proof.
  intros Hp [v Hv]. unfold scan. rewrite Hp. unfold st_bind at 1, instant, st_get. unfold st_bind at 1, volume_at, st_read. rewrite Hv. cbn [mbind option_bind fmap option_fmap option_map]. cbv zeta.
  unfold carry_out, verdict, proven, aged, phase_at, pulse_of. rewrite Hv. cbn [fmap option_fmap option_map]. rewrite !bool_decide_some. reflexivity.
Qed.

(** ** Scans that keep the count *)

(** A run of healthy scans, from [t] on, that ends the list. *)
Definition well_since (t : N) (obs : list Seen) : Prop := exists earlier first run, obs = earlier ++ first :: run /\ seen_now first = t /\
  forall o, o ∈ first :: run -> seen_health o = true /\ revived o = false.

Lemma well_since_snoc t obs o : well_since t obs -> seen_health o = true -> revived o = false -> well_since t (obs ++ [o]).
Proof.
  intros (earlier & first & run & -> & Ht & Hall) Ho Hr. exists earlier, first, (run ++ [o]). split; [by rewrite <- app_assoc|]. split; [done|].
  intros x. rewrite app_comm_cons, elem_of_app, list_elem_of_singleton. intros [Hx | ->]; auto.
Qed.

Lemma well_since_one obs o : seen_health o = true -> revived o = false -> well_since (seen_now o) (obs ++ [o]).
Proof. intros Ho Hr. exists obs, o, []. split; [done|]. split; [done|]. by intros x ->%list_elem_of_singleton. Qed.

Record budget_ok (obs : list Seen) (s : Supervised) : Prop := {
  b_count : revive_attempts s = revivals obs;
  b_bound : revive_attempts s <= MAX_REVIVES;
  b_pending : is_Some (sv_pending s) -> beating_since s = None;
  b_zero : revive_attempts s = 0 -> beating_since s = None;
  b_run : forall t, beating_since s = Some t -> well_since t obs
}.

Definition same_budget (s s' : Supervised) : Prop := revive_attempts s' = revive_attempts s /\ beating_since s' = beating_since s.

Lemma bind_inv {A B} (m : ST Fleet A) (k : A -> ST Fleet B) f y f' : st_bind m k f = Some (y, f') -> exists x f1, m f = Some (x, f1) /\ k x f1 = Some (y, f').
Proof. unfold st_bind. destruct (m f) as [[x f1]|]; [|done]. intros E. by exists x, f1. Qed.

Lemma launch_budget s f s' f' : launch s f = Some (s', f') -> same_budget s s'.
Proof. intros (now & f1 & _ & E)%bind_inv. destruct (m_spawns now); [|by injection E as <- _]. apply bind_inv in E as (w & f2 & _ & E). apply bind_inv in E as (x & f3 & _ & E). by injection E as <- _. Qed.

Lemma poll_budget s f s' f' : poll_revival s f = Some (s', f') -> same_budget s s'.
Proof.
  unfold poll_revival. destruct (sv_pending s) as [p|]; [|by intros [= <- _]]. intros (now & f1 & _ & E)%bind_inv. destruct (m_recv _ _ _).1 as [[t|e]| |].
  - do 3 (apply bind_inv in E as (? & ? & _ & E)). by injection E as <- _.
  - do 2 (apply bind_inv in E as (? & ? & _ & E)). by injection E as <- _.
  - apply bind_inv in E as (x & f2 & _ & E). by injection E as <- _.
  - apply bind_inv in E as (x & f2 & _ & E). by injection E as <- _.
Qed.

Lemma launch_revival_budget s f s' f' : launch_revival s f = Some (s', f') -> revive_attempts s' = revive_attempts s + 1 /\ beating_since s' = None /\
  exists new, effects f' = new ++ effects f /\ existsb is_reviving new = true /\ existsb is_refund new = false.
Proof.
  intros (v & f1 & E1 & E)%bind_inv. apply bind_inv in E as (x & f2 & E2 & E). apply bind_inv in E as (y & f3 & E3 & E). destruct (launch_budget _ _ _ _ E) as [Ha Hb]. split; [exact Ha|].
  split; [exact Hb|]. destruct (adds_volume_at is_refund (sv_state s) _ _ _ E1) as (n1 & G1 & B1).
  assert (A2 : adds is_refund (match phase v with Live | Rescanning => set_phase (sv_state s) Offline | _ => st_ret tt end)) by (destruct (phase v); auto with adds).
  destruct (A2 _ _ _ E2) as (n2 & G2 & B2). injection E3 as <- <-. destruct (adds_launch is_refund _ ltac:(done) _ _ _ E) as (n4 & G4 & B4). cbn in G4.
  exists (n4 ++ Reviving (arc_id (sv_state s)) :: n2 ++ n1). split; [|split].
  - rewrite G4, G2, G1, <- app_assoc. cbn. by rewrite <- app_assoc.
  - rewrite existsb_app. cbn. by rewrite orb_true_r.
  - rewrite existsb_app. cbn. by rewrite existsb_app, B1, B2, B4.
Qed.

Lemma scan_shared now s f r f' : sv_pending s = None -> scan now s f = Some (r, f') -> is_Some (shared f !! arc_id (sv_state s)).
Proof.
  intros Hp. unfold scan. rewrite Hp. intros (t & f1 & E1 & E)%bind_inv. injection E1 as <- <-. apply bind_inv in E as (v & f2 & E2 & _). unfold volume_at, st_read in E2.
  by destruct (shared f !! arc_id (sv_state s)).
Qed.

Lemma no_marks o : existsb marks (seen_log o) = false -> revived o = false /\ refunded o = false.
Proof.
  unfold revived, refunded. induction (seen_log o) as [|e l IH]; [done|]. cbn. intros [[-> ->]%orb_false_iff Hl]%orb_false_iff. destruct (IH Hl) as [-> ->]. done.
Qed.

Lemma marks_logged {A} (m : ST Fleet A) f x f' : adds marks m -> m f = Some (x, f') -> existsb marks (logged f f') = false.
Proof. intros Hm E. destruct (Hm _ _ _ E) as (new & En & Hb). by rewrite (logged_app new). Qed.

(** The anchor of health after one more observation. *)
Lemma aged_run now s f f' obs : budget_ok obs s -> revived (seen now s f f') = false -> forall t, beating_since (aged now s f) = Some t ->
  seen_health (seen now s f f') = true /\ well_since t (obs ++ [seen now s f f']).
Proof.
  intros [B1 B2 B3 B4 B5] Hr t. unfold aged. destruct (N.ltb_spec 0 (revive_attempts s)) as [Hpos|Hz]; [|rewrite B4 by lia; done]. cbn. unfold accrue_health.
  destruct (healthy _ _ _) eqn:Eh; [|done]. intros [= Et]. assert (Hh : seen_health (seen now s f f') = true) by exact Eh. split; [done|].
  destruct (beating_since s) as [t0|] eqn:Eb; cbn in Et; subst t; [apply well_since_snoc; auto|]. by apply well_since_one.
Qed.

Lemma idle_step now s f f' obs : budget_ok obs s -> sv_pending s = None -> existsb marks (logged f f') = false -> budget_ok (obs ++ [seen now s f f']) (aged now s f).
Proof.
  intros Hb Hp Hm. destruct (no_marks (seen now s f f') Hm) as [Hr Hf]. pose proof (aged_run now s f f' obs Hb Hr) as Hrun. destruct Hb as [B1 B2 B3 B4 B5].
  split; rewrite ?aged_attempts, ?revivals_snoc, ?Hr, ?Hf; try done.
  - intros [p Hs]. unfold aged in Hs. destruct (0 <? revive_attempts s); cbn in Hs; congruence.
  - intros Ez. unfold aged. rewrite Ez. by apply B4.
  - intros t Ht. by apply Hrun.
Qed.

(** What a refund rests on. *)
Definition earned (obs : list Seen) (o : Seen) : Prop := refunded o = true -> exists t, well_since t (obs ++ [o]) /\ HEALTHY_AFTER <= seen_now o - t.

Lemma scan_step now s f s' f' obs : budget_ok obs s -> scan now s f = Some ((true, s'), f') -> budget_ok (obs ++ [seen now s f f']) s' /\ earned obs (seen now s f f').
Proof.
  intros Hb E. destruct (sv_pending s) as [p|] eqn:Ep.
  - unfold scan in E. rewrite Ep in E. apply bind_inv in E as (s1 & f1 & E1 & E). injection E as <- <-. pose proof (marks_logged _ _ _ _ (adds_poll s) E1) as Hm.
    destruct (no_marks (seen now s f f1) Hm) as [Hr Hf]. destruct (poll_budget _ _ _ _ E1) as [Ha Hs]. destruct Hb as [B1 B2 B3 B4 B5].
    assert (Hnone : beating_since s = None) by (apply B3; by eexists). split; [|intros Hx; by rewrite Hf in Hx].
    split; rewrite ?Ha, ?Hs, ?Hnone, ?revivals_snoc, ?Hr, ?Hf; done.
  - rewrite (scan_eq now s f Ep (scan_shared _ _ _ _ _ Ep E)) in E. destruct (verdict now s f) eqn:Ev; cbn [carry_out] in E.
    + injection E as <- <-. assert (Hm : existsb marks (logged f f) = false) by (unfold logged; by rewrite Nat.sub_diag).
      split; [by apply idle_step|]. intros Hx. destruct (no_marks (seen now s f f) Hm) as [_ Hf]. by rewrite Hf in Hx.
    + apply bind_inv in E as (x & f1 & E1 & E). injection E as <- <-. injection E1 as <- <-.
      assert (El : seen_log (seen now s f (with_trace (next_id f) (Refunded (arc_id (sv_state (aged now s f))) :: effects f) f)) = [Refunded (arc_id (sv_state (aged now s f)))]).
      { by apply logged_app. }
      set (o := seen _ _ _ _) in *. assert (Hr : revived o = false) by (unfold revived; by rewrite El). assert (Hf : refunded o = true) by (unfold refunded; by rewrite El).
      split; [split; rewrite ?revivals_snoc, ?Hf; try done; cbn; lia|]. intros _.
      assert (Hp : proven now (aged now s f) = true).
      { unfold verdict, assess in Ev. destruct (pulse_of s f); [|by destruct (_ <=? _)|by destruct (bool_decide _ && _); [|destruct (_ <=? _)]].
        destruct (_ <=? _); [done|]. destruct (proven now (aged now s f)); [done|]. by rewrite andb_false_r in Ev. }
      unfold proven in Hp. destruct (beating_since (aged now s f)) as [t|] eqn:Eb; [|done]. apply N.leb_le in Hp. exists t. split; [|exact Hp].
      by apply (aged_run now s f _ obs Hb Hr t Eb).
    + apply bind_inv in E as (x & f1 & E1 & E). injection E as <- <-.
      assert (Hm : existsb marks (logged f f1) = false) by (eapply marks_logged; [|exact E1]; apply adds_for; intros; by apply adds_effect).
      split; [by apply idle_step|]. intros Hx. destruct (no_marks (seen now s f f1) Hm) as [_ Hf]. by rewrite Hf in Hx.
    + apply bind_inv in E as (s1 & f1 & E1 & E). injection E as <- <-. destruct (launch_revival_budget _ _ _ _ E1) as (Ha & Hs & new & En & Hr & Hf).
      assert (El : seen_log (seen now s f f1) = new) by (by apply logged_app). set (o := seen now s f f1) in *.
      assert (Hro : revived o = true) by (unfold revived; by rewrite El). assert (Hfo : refunded o = false) by (unfold refunded; by rewrite El).
      assert (Hlt : revive_attempts (aged now s f) < MAX_REVIVES).
      { unfold verdict, assess in Ev. destruct (pulse_of s f); [by destruct (_ <=? _); [|destruct (_ && _)]|by destruct (_ <=? _)|].
        destruct (bool_decide _ && _); [done|]. by destruct (N.leb_spec MAX_REVIVES (revive_attempts (aged now s f))). }
      rewrite aged_attempts in Ha, Hlt. destruct Hb as [B1 B2 B3 B4 B5]. split; [|intros Hx; by rewrite Hfo in Hx].
      split; rewrite ?revivals_snoc, ?Hro, ?Hfo, ?Ha, ?Hs; try done; [by rewrite B1|lia].
    + apply bind_inv in E as (x & f1 & _ & E). done.
    + apply bind_inv in E as (x & f1 & _ & E). done.
Qed.

Lemma watched_ok a obs s : watched a obs s -> budget_ok obs s /\ forall pre o post, obs = pre ++ o :: post -> earned pre o.
Proof.
  induction 1 as [f s f' E|obs s now f s' f' Hw [Hb He] E].
  - destruct (launch_budget _ _ _ _ E) as [Ha Hs]. cbn in Ha, Hs. split; [split; rewrite ?Ha, ?Hs; done || cbn; try done; lia|]. by intros [|] o post.
  - destruct (scan_step _ _ _ _ _ _ Hb E) as [Hb' He']. split; [done|]. intros pre o post Eo. destruct post as [|x post] using rev_ind.
    + apply app_inj_tail in Eo as [-> <-]. exact He'.
    + clear IHpost. rewrite app_comm_cons, app_assoc in Eo. apply app_inj_tail in Eo as [-> _]. by eapply He.
Qed.

(** ** The end of supervision *)

Lemma abandon_phase s f x f' : abandon s f = Some (x, f') -> exists p, phase_at s f' = Some p /\ p <> Bootstrapping /\ p <> Live /\ p <> Rescanning.
Proof.
  intros (y & f1 & E1 & E)%bind_inv. injection E1 as <- <-. apply bind_inv in E as (v & f2 & E2 & E). unfold volume_at, st_read in E2. cbn in E2.
  destruct (shared f !! arc_id (sv_state s)) as [w|] eqn:Ew; [|done]. injection E2 as <- <-. unfold phase_at. destruct (phase w) eqn:Eph; cbn in E; injection E as <- <-; cbn;
    rewrite ?lookup_alter_eq, Ew; cbn; rewrite ?Eph; eexists; split; try done; by rewrite Eph.
Qed.

Lemma scan_ends now s f s' f' : scan now s f = Some ((false, s'), f') -> exists p, phase_at s f' = Some p /\ p <> Bootstrapping /\ p <> Live /\ p <> Rescanning.
Proof.
  intros E. destruct (sv_pending s) as [p|] eqn:Ep; [unfold scan in E; rewrite Ep in E; by apply bind_inv in E as (s1 & f1 & _ & E)|].
  assert (Hst : sv_state (aged now s f) = sv_state s) by (unfold aged; by destruct (0 <? _)).
  rewrite (scan_eq now s f Ep (scan_shared _ _ _ _ _ Ep E)) in E. destruct (verdict now s f) eqn:Ev; cbn [carry_out] in E; try (by apply bind_inv in E as (? & ? & _ & E)); [done| |].
  - apply bind_inv in E as (x & f1 & E1 & E). injection E as <- <-. apply abandon_phase in E1. unfold phase_at in *. by rewrite Hst in E1.
  - apply bind_inv in E as (x & f1 & E1 & E). injection E as <- <-. injection E1 as <- <-. exists Snapshot. split; [|done].
    unfold verdict, assess in Ev. destruct (pulse_of s f); [by destruct (_ <=? _); [|destruct (_ && _)]|by destruct (_ <=? _)|].
    destruct (bool_decide (Retired = Retired) && bool_decide (phase_at s f = Some Snapshot)) eqn:Eb; [|by destruct (_ <=? _)]. apply andb_true_iff in Eb as [_ Eb]. by apply bool_decide_eq_true in Eb.
Qed.

Lemma spent_ends now s f r f' : sv_pending s = None -> pulse_of s f = Retired -> revive_attempts s = MAX_REVIVES -> scan now s f = Some (r, f') -> r.1 = false.
Proof.
  intros Hp Hret Ha E. rewrite (scan_eq now s f Hp (scan_shared _ _ _ _ _ Hp E)) in E. unfold verdict in E. rewrite Hret, aged_attempts, Ha in E. cbn [assess] in E.
  destruct (_ && _); cbn in E; [by injection E as <- _|]. apply bind_inv in E as (x & f1 & _ & E). by injection E as <- _.
Qed.
End budget.

(** C18: a tail that keeps dying is not revived for ever.  Over any series of scans
    of one volume, each on whatever the daemon has become by then: at most three
    revivals come without a refund between them; a refund is given only at the
    end of an unbroken run of scans that each saw a fresh beat of a live volume,
    over ten minutes awake and with no revival among them; once the three are
    spent and no tail runs, the next scan ends the supervision; and when it ends,
    the volume does not claim to be live, rescanning or still to be indexed. *)
Theorem revivals_bounded `{Unicode, Hasher} {Mc : Machine} a obs s : watched a obs s ->
  revivals obs <= MAX_REVIVES /\
  (forall pre o post, obs = pre ++ o :: post -> refunded o = true -> exists earlier first run, pre ++ [o] = earlier ++ first :: run /\
     HEALTHY_AFTER <= seen_now o - seen_now first /\ forall x, x ∈ first :: run -> seen_health x = true /\ revived x = false) /\
  forall now f r f', scan now s f = Some (r, f') ->
    (sv_pending s = None -> pulse_of s f = Retired -> revivals obs = MAX_REVIVES -> r.1 = false) /\
    (r.1 = false -> exists p, phase_at s f' = Some p /\ p <> Bootstrapping /\ p <> Live /\ p <> Rescanning).
Proof.
  intros [Hb He]%watched_ok. pose proof (b_count _ _ Hb) as Hc. split; [rewrite <- Hc; apply Hb|]. split.
  - intros pre o post E Hr. destruct (He pre o post E Hr) as (t & (earlier & first & run & Eo & <- & Hall) & Ht). by exists earlier, first, run.
  - intros now f [go s'] f' E. split.
    + intros Hp Hret Hm. eapply spent_ends; [exact Hp|exact Hret|by rewrite Hc|exact E].
    + cbn. intros ->. by eapply scan_ends.
Qed.

(** *** A volume whose tails all die *)

#[local] Existing Instance one_bucket.

(** Every start succeeds, and the tail is gone by the next scan. *)
Definition dying : Machine := {| m_pulse := fun _ _ => drop_retire; m_finished := fun _ _ => true; m_recv := fun _ w _ => (Reported (Ok {| started_tail := w; started_notification := None |}), 0);
  m_list := fun _ _ _ => (ListingSlow, 0); m_spawns := fun _ => true; m_handle := fun _ => true; m_awake := fun t => t / 1000; m_late := fun _ => 0 |}.
#[local] Existing Instance dying.

Definition sick : VolumeState := {| guid := [0x41]; mounts := []; index := fresh; phase := Live; st_metadata_pending := false; journal_max_bytes := None; indexed := true; scope_cache := None |}.
Definition sick_arc : Arc := {| arc_id := 0; arc_volume := sick |}.
Definition sick_fleet : Fleet := {| volumes := {| registry_set := [sick_arc] |}; shared := {[0 := sick]}; supervised := []; listing := None; starting := None; removing := ∅; removed := [];
  posted := []; tails_stopped := false; looks := None; next_scan := 0; clock := 0; next_id := 1; effects := [] |}.
Definition sick_start : Supervised := {| sv_state := sick_arc; sv_tail := None; sv_notification := None; revive_attempts := 0; beating_since := None;
  sv_pending := Some {| pr_worker := 1; pr_io := true; reported_blocked := false |} |}.

Lemma revivals_bounded_witness : watched sick_arc [] sick_start /\ revivals [] <= MAX_REVIVES.
Proof.
  assert (Hw : watched sick_arc [] sick_start) by (eapply (watched_start sick_arc sick_fleet); reflexivity). split; [exact Hw|]. apply (revivals_bounded sick_arc [] sick_start Hw).
Defined.

(** Scans until supervision ends, and how many there were. *)
Fixpoint scans (n : nat) (s : Supervised) (f : Fleet) : option (nat * Fleet) :=
  match n with
  | O => None
  | S n => '((go, s), f) ← scan 0 s f; if go : bool then '(k, f) ← scans n s f; Some (S k, f) else Some (O, f)
  end.

(** A scan takes the start, three revivals take two each, and the eighth scan ends
    it, with the volume left offline. *)
Example given_up_after_eight :
  (fun '(k, f) => (k, length (filter (fun e => is_reviving e = true) (effects f)), phase <$> shared f !! 0)) <$> scans 20 sick_start sick_fleet = Some (7%nat, 3%nat, Some Offline).
Proof. vm_compute. reflexivity. Qed.
