(* ===== verification/Winfs.v ===== *)
(** The volume I/O of [crates/goz-winfs]: the control codes behind the journal,
    the enumeration and the file layout ([journal.rs], [file_layout.rs]), the
    size and date of one file ([file_stat.rs]) and the walk over the hard links
    of a file ([links.rs]).

    What Windows itself answers is a class [Win] over a type of worlds: each call
    gives an answer and the world after it, and an error is its code. *)

From Stdlib Require Import String.
From stdpp Require Import base option list.
From Stdlib Require Import NArith ZArith Lia.
From S2P Require Import Prelude Types.
Open Scope N_scope.
Open Scope list_scope.

(** ** Error codes *)

Definition ERROR_HANDLE_EOF : N := 38.
Definition ERROR_INVALID_PARAMETER : N := 87.
Definition ERROR_INSUFFICIENT_BUFFER : N := 122.
Definition ERROR_MORE_DATA : N := 234.
Definition ERROR_TOO_MANY_LINKS : N := 1142.
Definition ERROR_JOURNAL_DELETE_IN_PROGRESS : N := 1178.
Definition ERROR_JOURNAL_NOT_ACTIVE : N := 1179.
Definition ERROR_JOURNAL_ENTRY_DELETED : N := 1181.

Record WinError := { code : N; context : string }.

Definition map_err {E F A} (f : E -> F) (r : result E A) : result F A :=
  match r with Ok a => Ok a | Err e => Err (f e) end.

(** ** What is sent to a volume *)

Record UsnJournalDataV0 := {
  ud_journal_id : N; ud_first_usn : Z; ud_next_usn : Z; ud_lowest_valid_usn : Z; ud_max_usn : Z; ud_maximum_size : N; ud_allocation_delta : N }.

Inductive Fsctl :=
| EnumUsnData (start_file_reference_number : N) (low_usn high_usn : Z)
| ReadUsnJournal (start_usn : Z) (reason_mask return_only_on_close timeout bytes_to_wait_for usn_journal_id : N)
| QueryFileLayout (filter_entry_count flags filter_type reserved : N) (filter : N * N).

Record FileInformation := { nFileSizeHigh : N; nFileSizeLow : N; dwHighDateTime : N; dwLowDateTime : N; dwFileAttributes : N }.

(** Windows, by the world each call is made in.  [ctl] is a control code that
    fills a buffer of at most so many bytes; the calls on open files take the
    handle; the two searches get the capacity of the name buffer and answer the
    buffer they filled, or a code and the length they need.  [now] is
    [Instant::now] and [sleep] a sleep, in milliseconds; [awake] the seconds the
    machine has been awake; [stopped] one look at the stop flag of the thread. *)
Class Win (W : Type) := {
  ctl : Fsctl -> N -> W -> result N (list N) * W;
  ctl_query : W -> result N UsnJournalDataV0 * W;
  ctl_create : N -> N -> W -> result N unit * W;
  total_bytes : list N -> W -> result N N * W;
  open_by_id : N -> W -> result N N * W;
  file_information : N -> W -> result N FileInformation * W;
  final_path_length : N -> W -> result N N * W;
  final_path_text : N -> N -> W -> result N (N * list N) * W;
  close_handle : N -> W -> W;
  find_first : list N -> N -> W -> result (N * N) (N * list N) * W;
  find_next : N -> N -> W -> result (N * N) (list N) * W;
  find_close : N -> W -> W;
  now : W -> N * W;
  sleep : N -> W -> W;
  awake : W -> N;
  stopped : W -> bool * W
}.

Section calls.
Context {W : Type} {Wn : Win W}.

(** ** The journal *)

Record JournalInfo := {
  journal_id : N; first_usn : Z; next_usn : Z; lowest_valid_usn : Z; max_usn : Z; maximum_size : N }.

Inductive JournalQuery := JActive (i : JournalInfo) | JNotActive | JDeleteInProgress.

Definition query_usn_journal (w : W) : result WinError JournalQuery * W :=
  let '(r, w) := ctl_query w in
  (match r with
   | Ok d => Ok (JActive {| journal_id := ud_journal_id d; first_usn := ud_first_usn d; next_usn := ud_next_usn d;
                            lowest_valid_usn := ud_lowest_valid_usn d; max_usn := ud_max_usn d; maximum_size := ud_maximum_size d |})
   | Err c =>
       if c =? ERROR_JOURNAL_NOT_ACTIVE then Ok JNotActive
       else if c =? ERROR_JOURNAL_DELETE_IN_PROGRESS then Ok JDeleteInProgress
       else Err {| code := c; context := "FSCTL_QUERY_USN_JOURNAL" |}
   end, w).

Definition create_usn_journal (maximum_size allocation_delta : N) (w : W) : result WinError unit * W :=
  let '(r, w) := ctl_create maximum_size allocation_delta w in
  (map_err (fun c => {| code := c; context := "FSCTL_CREATE_USN_JOURNAL" |}) r, w).

(** A page of a scan that ends with [ERROR_HANDLE_EOF]. *)
Definition page_or_end (what : string) (r : result N (list N)) : result WinError (option (list N)) :=
  match r with
  | Ok buf => Ok (Some buf)
  | Err c => if c =? ERROR_HANDLE_EOF then Ok None else Err {| code := c; context := what |}
  end.

Definition enum_usn_data (start_file_reference_number cap : N) (w : W) : result WinError (option (list N)) * W :=
  let '(r, w) := ctl (EnumUsnData start_file_reference_number 0 i64_max) cap w in
  (page_or_end "FSCTL_ENUM_USN_DATA" r, w).

Definition read_usn_journal (start_usn : Z) (journal_id reason_mask bytes_to_wait_for cap : N) (w : W) : result WinError (list N) * W :=
  let '(r, w) := ctl (ReadUsnJournal start_usn reason_mask 0 0 bytes_to_wait_for journal_id) cap w in
  (map_err (fun c => {| code := c; context := "FSCTL_READ_USN_JOURNAL" |}) r, w).

(** ** The file layout *)

Definition QUERY_FILE_LAYOUT_RESTART : N := 1.
Definition FILTER_TYPE_NONE : N := 0.

Definition query_file_layout_raw (flags : N) (restart : bool) (filter_type filter_entry_count : N) (filter : N * N) (cap : N) (w : W)
  : result WinError (option (list N)) * W :=
  let '(r, w) := ctl (QueryFileLayout filter_entry_count (N.lor flags (if restart then QUERY_FILE_LAYOUT_RESTART else 0)) filter_type 0 filter) cap w in
  (page_or_end "FSCTL_QUERY_FILE_LAYOUT" r, w).

Definition query_file_layout (flags : N) (restart : bool) (cap : N) (w : W) : result WinError (option (list N)) * W :=
  query_file_layout_raw flags restart FILTER_TYPE_NONE 0 (0, 0) cap w.

(** ** One file *)

Definition FILE_ATTRIBUTE_DIRECTORY : N := 0x10.

Record FileStat := { fs_size : N; fs_mtime_ft : Z; fs_is_dir : bool }.

Definition stat_of (info : FileInformation) : FileStat :=
  {| fs_size := N.lor (N.shiftl (nFileSizeHigh info) 32) (nFileSizeLow info);
     fs_mtime_ft := i64_of_bits (N.lor (N.shiftl (dwHighDateTime info) 32) (dwLowDateTime info));
     fs_is_dir := negb (N.land (dwFileAttributes info) FILE_ATTRIBUTE_DIRECTORY =? 0) |}.

Definition stat_file (frn : N) (w : W) : result WinError (option FileStat) * W :=
  let '(r, w) := open_by_id frn w in
  match r with
  | Err _ => (Ok None, w)
  | Ok handle =>
      let '(info, w) := file_information handle w in
      (match info with
       | Ok info => Ok (Some (stat_of info))
       | Err c => Err {| code := c; context := "GetFileInformationByHandle" |}
       end, close_handle handle w)
  end.

(** ** The hard links of a file *)

Definition NAME_BUF_UNITS : N := 512.
Definition MAX_LINKS : N := 4096.

Definition take_name (buf : list N) : list N :=
  match list_find (fun c => c = 0) buf with Some (i, _) => take i buf | None => buf end.

(** The buffer length a call asks for when it was too short, if it is one that
    can be given. *)
Definition longer (capacity : N) (e : N * N) : option N :=
  let '(c, needed) := e in if (c =? ERROR_MORE_DATA) && (capacity <? needed) then Some needed else None.

Definition final_path (file : N) (w : W) : result WinError (list N) * W :=
  let '(r, w) := final_path_length file w in
  match r with
  | Err c => (Err {| code := c; context := "GetFinalPathNameByHandleW" |}, w)
  | Ok needed =>
      let '(r, w) := final_path_text file needed w in
      (match r with
       | Err c => Err {| code := c; context := "GetFinalPathNameByHandleW" |}
       | Ok (written, text) =>
           if needed <=? written then Err {| code := ERROR_INSUFFICIENT_BUFFER; context := "GetFinalPathNameByHandleW" |}
           else Ok (take (N.to_nat written + 1) text)
       end, w)
  end.

(** The loops ask again with a longer buffer; [None] is out of fuel. *)
Fixpoint drain_links (fuel : nat) (find : N) (links : list (list N)) (capacity : N) (w : W) : option (result WinError (list (list N)) * W) :=
  match fuel with
  | O => None
  | S fuel =>
      let '(r, w) := find_next find capacity w in
      match r with
      | Ok buf =>
          if len links =? MAX_LINKS then Some (Err {| code := ERROR_TOO_MANY_LINKS; context := "FindNextFileNameW" |}, w)
          else drain_links fuel find (links ++ [take_name buf]) capacity w
      | Err e =>
          if e.1 =? ERROR_HANDLE_EOF then Some (Ok links, w)
          else match longer capacity e with
               | Some needed => drain_links fuel find links needed w
               | None => Some (Err {| code := e.1; context := "FindNextFileNameW" |}, w)
               end
      end
  end.

Fixpoint first_link (fuel : nat) (anchor : list N) (capacity : N) (w : W) : option (result WinError (N * list N * N) * W) :=
  match fuel with
  | O => None
  | S fuel =>
      let '(r, w) := find_first anchor capacity w in
      match r with
      | Ok (find, buf) => Some (Ok (find, buf, capacity), w)
      | Err e =>
          match longer capacity e with
          | Some needed => first_link fuel anchor needed w
          | None => Some (Err {| code := e.1; context := "FindFirstFileNameW" |}, w)
          end
      end
  end.

Definition walk_links (fuel : nat) (anchor : list N) (w : W) : option (result WinError (list (list N)) * W) :=
  '(r, w) ← first_link fuel anchor NAME_BUF_UNITS w;
  match r with
  | Err e => Some (Err e, w)
  | Ok (find, buf, capacity) =>
      '(walked, w) ← drain_links fuel find [take_name buf] capacity w;
      Some (walked, find_close find w)
  end.

Definition link_paths (fuel : nat) (frn : N) (w : W) : option (result WinError (option (list (list N))) * W) :=
  let '(r, w) := open_by_id frn w in
  match r with
  | Err c => Some ((if c =? ERROR_INVALID_PARAMETER then Ok None else Err {| code := c; context := "OpenFileById" |}), w)
  | Ok file =>
      let '(anchor, w) := final_path file w in
      let w := close_handle file w in
      match anchor with
      | Err e => Some (Err e, w)
      | Ok anchor =>
          '(walked, w) ← walk_links fuel anchor w;
          Some (match walked with Ok l => Ok (Some l) | Err e => Err e end, w)
      end
  end.
End calls.
