(* ===== verification/WinfsLinks.v ===== *)
(** The walk over the hard links of a file, from
    [crates/goz-winfs/src/links.rs]: what Windows promises of the handles and
    searches it uses, and that the walk ends, gives back every handle it
    opened, and answers the whole link set or an error. *)

From Stdlib Require Import String.
From stdpp Require Import gmap.
From stdpp Require Import base option list sets.
From Stdlib Require Import NArith ZArith Lia.
From S2P Require Import Prelude Types Winfs.
Open Scope N_scope.
Open Scope list_scope.

(** Files and searches on a volume nobody changes.  A handle given out is not
    one in use; the path of an open file, when it fits, leads back to the file;
    a search reports the names of the file its path leads to one at a time, and
    ends after the last one; a call that fails takes no name off it. *)
Class Searches (W : Type) {Wn : Win W} := {
  in_use : W -> gset (N + N);
  file_of : W -> N -> N;
  leads_to : list N -> N;
  link_set : N -> list (list N);
  remaining : W -> N -> list (list N);
  opens frn w r w' : open_by_id frn w = (r, w') ->
    match r with
    | Ok h => inl h ∉ in_use w /\ in_use w' = {[inl h]} ∪ in_use w /\ file_of w' h = frn
    | Err _ => in_use w' = in_use w
    end;
  measures h w r w' : final_path_length h w = (r, w') -> in_use w' = in_use w /\ file_of w' h = file_of w h;
  tells_path h n w r w' : final_path_text h n w = (r, w') ->
    in_use w' = in_use w /\ forall written text, r = Ok (written, text) -> written < n -> leads_to (take (N.to_nat written + 1) text) = file_of w h;
  closes h w : in_use (close_handle h w) = in_use w ∖ {[inl h]};
  finds_first anchor n w r w' : find_first anchor n w = (r, w') ->
    match r with
    | Ok (find, buf) => inr find ∉ in_use w /\ in_use w' = {[inr find]} ∪ in_use w /\ link_set (leads_to anchor) = take_name buf :: remaining w' find
    | Err (_, needed) => in_use w' = in_use w /\ needed <= u32_max
    end;
  finds_next find n w r w' : find_next find n w = (r, w') ->
    in_use w' = in_use w /\
    match r with
    | Ok buf => remaining w find = take_name buf :: remaining w' find
    | Err (c, needed) => remaining w' find = remaining w find /\ needed <= u32_max /\ (c = ERROR_HANDLE_EOF -> remaining w find = [])
    end;
  ends_search find w : in_use (find_close find w) = in_use w ∖ {[inr find]}
}.

Section walk.
Context {W : Type} {Wn : Win W} {Sr : Searches W}.

Lemma longer_bound capacity e needed : longer capacity e = Some needed -> needed = e.2 /\ capacity < needed.
Proof. destruct e as [c n]. unfold longer. intros E. case_match eqn:Eb; [|done]. injection E as <-. simpl_cmp. done. Qed.

(** Every turn reads one more link or gives the name a longer buffer. *)
Lemma drain_links_total find : forall fuel links capacity w,
  len links <= MAX_LINKS -> (MAX_LINKS - len links) + (u32_max - capacity) < N.of_nat fuel ->
  exists r w', drain_links fuel find links capacity w = Some (r, w') /\ in_use w' = in_use w /\
    forall l, r = Ok l -> l = links ++ remaining w find /\ len l <= MAX_LINKS.
Proof.
  induction fuel as [|fuel IH]; intros links capacity w Hl Hf; [lia|]. cbn [drain_links].
  destruct (find_next find capacity w) as [r w1] eqn:E. destruct (finds_next _ _ _ _ _ E) as [Hu Hr]. destruct r as [buf|[c needed]].
  - destruct (N.eqb_spec (len links) MAX_LINKS) as [Em|Em]; [by eexists _, w1|].
    assert (El : len (links ++ [take_name buf]) = len links + 1) by (rewrite len_app; done).
    destruct (IH (links ++ [take_name buf]) capacity w1) as (r & w' & E' & Hu' & Hw); [lia|lia|]. exists r, w'. split; [done|]. split; [congruence|].
    intros l ->. destruct (Hw l eq_refl) as [-> ?]. split; [|done]. by rewrite Hr, <- app_assoc.
  - destruct Hr as (Hr & Hn & He). cbn [fst]. destruct (N.eqb_spec c ERROR_HANDLE_EOF) as [-> |Hc].
    + exists (Ok links), w1. split; [done|]. split; [done|]. intros l [= <-]. by rewrite He, app_nil_r.
    + destruct (longer capacity (c, needed)) as [n|] eqn:En; [|by eexists _, w1]. apply longer_bound in En as [-> En]. cbn in En.
      destruct (IH links needed w1) as (r & w' & E' & Hu' & Hw); [done|cbn; lia|]. exists r, w'. split; [done|]. split; [congruence|]. intros l ->.
      by rewrite <- Hr; apply Hw.
Qed.

Lemma first_link_total anchor : forall fuel capacity w,
  u32_max - capacity < N.of_nat fuel ->
  exists r w', first_link fuel anchor capacity w = Some (r, w') /\
    match r with
    | Ok (find, buf, _) => inr find ∉ in_use w /\ in_use w' = {[inr find]} ∪ in_use w /\ link_set (leads_to anchor) = take_name buf :: remaining w' find
    | Err _ => in_use w' = in_use w
    end.
Proof.
  induction fuel as [|fuel IH]; intros capacity w Hf; [lia|]. cbn [first_link].
  destruct (find_first anchor capacity w) as [r w1] eqn:E. pose proof (finds_first _ _ _ _ _ E) as Hr. destruct r as [[find buf]|[c needed]].
  - by eexists _, w1.
  - destruct Hr as [Hu Hn]. destruct (longer capacity (c, needed)) as [n|] eqn:En; [|by eexists _, w1]. apply longer_bound in En as [-> En]. cbn in En.
    destruct (IH needed w1) as (r & w' & E' & Hw); [lia|]. exists r, w'. split; [done|]. by rewrite <- Hu.
Qed.

Lemma walk_links_total anchor fuel w :
  MAX_LINKS + u32_max < N.of_nat fuel ->
  exists r w', walk_links fuel anchor w = Some (r, w') /\ in_use w' = in_use w /\
    forall l, r = Ok l -> l = link_set (leads_to anchor) /\ l <> [] /\ len l <= MAX_LINKS.
Proof.
  intros Hf. unfold walk_links. destruct (first_link_total anchor fuel NAME_BUF_UNITS w) as (r & w1 & E & Hr); [lia|]. rewrite E. cbn.
  destruct r as [[[find buf] capacity]|e]; [|by eexists _, w1]. destruct Hr as (Hnew & Hu & Hset).
  destruct (drain_links_total find fuel [take_name buf] capacity w1) as (r & w2 & E2 & Hu2 & Hw); [done|change (len [take_name buf]) with 1; lia|].
  rewrite E2. cbn. exists r, (find_close find w2). split; [done|]. split; [rewrite ends_search; set_solver|].
  intros l ->. destruct (Hw l eq_refl) as [-> Hl]. by rewrite Hset.
Qed.

Lemma final_path_leads h w r w' : final_path h w = (r, w') -> in_use w' = in_use w /\ forall anchor, r = Ok anchor -> leads_to anchor = file_of w h.
Proof.
  unfold final_path. destruct (final_path_length h w) as [rl w1] eqn:E1. destruct (measures _ _ _ _ E1) as [U1 F1].
  destruct rl as [needed|c]; [|by intros [= <- <-]]. destruct (final_path_text h needed w1) as [rt w2] eqn:E2.
  destruct (tells_path _ _ _ _ _ E2) as [U2 F2]. intros [= <- <-]. split; [congruence|]. intros anchor Ea. destruct rt as [[written text]|c]; [|done].
  destruct (N.leb_spec needed written); [done|]. injection Ea as <-. rewrite <- F1. by apply F2.
Qed.

(** C14: Asking Windows for the hard links of a file always ends, and every file
    and search it opened is closed again, however the walk goes.  On a volume at
    rest the answer is the whole link set, never a part of it, never empty and
    never more than 4096 links; [None] only when the file ID itself does not
    open any more; an error otherwise.  The fuel covers a longer buffer for
    every length a 32-bit count can ask for. *)
Theorem link_paths_whole frn w fuel :
  MAX_LINKS + u32_max < N.of_nat fuel ->
  exists r w', link_paths fuel frn w = Some (r, w') /\ in_use w' = in_use w /\
    match r with
    | Ok (Some l) => l = link_set frn /\ l <> [] /\ len l <= MAX_LINKS
    | Ok None => fst (open_by_id frn w) = Err ERROR_INVALID_PARAMETER
    | Err _ => True
    end.
Proof.
  intros Hf. unfold link_paths. destruct (open_by_id frn w) as [ro w1] eqn:E1. pose proof (opens _ _ _ _ E1) as Ho. destruct ro as [h|c].
  - destruct Ho as (Hnew & U1 & F1). destruct (final_path h w1) as [ra w2] eqn:E2. destruct (final_path_leads _ _ _ _ E2) as [U2 Ha].
    assert (U3 : in_use (close_handle h w2) = in_use w) by (rewrite closes; set_solver). destruct ra as [anchor|e]; [|by eexists _, (close_handle h w2)].
    destruct (walk_links_total anchor fuel (close_handle h w2) Hf) as (r & w4 & E4 & U4 & Hw). rewrite E4. cbn. eexists _, w4. split; [done|]. split; [congruence|].
    destruct r as [l|e]; [|done]. destruct (Hw l eq_refl) as [-> ?]. split; [|done]. by rewrite (Ha anchor eq_refl), F1.
  - eexists _, w1. split; [done|]. split; [done|]. by destruct (N.eqb_spec c ERROR_INVALID_PARAMETER) as [-> |].
Qed.
End walk.

(** *** Witness *)

(** A volume with one file, 78, linked as \a and \b, whose second name is handed
    out only into a longer buffer.  The world is what is open and how many names
    the search has reported. *)
Definition two_names : list (list N) := [[0x5C; 0x61]; [0x5C; 0x62]].

#[local] Instance desk : Win (gset (N + N) * nat) := {|
  ctl _ _ w := (Err 1, w);
  ctl_query w := (Err 1, w);
  ctl_create _ _ w := (Err 1, w);
  total_bytes _ w := (Err 5, w);
  open_by_id frn w :=
    if frn =? 78 then if decide (inl 8 ∈ w.1) then (Err 5, w) else (Ok 8, ({[inl 8]} ∪ w.1, w.2)) else (Err ERROR_INVALID_PARAMETER, w);
  file_information _ w := (Err 5, w);
  final_path_length _ w := (Ok 3, w);
  final_path_text _ _ w := (Ok (2, [0x5C; 0x61; 0]), w);
  close_handle h w := (w.1 ∖ {[inl h]}, w.2);
  find_first _ _ w := if decide (inr 9 ∈ w.1) then (Err (5, 0), w) else (Ok (9, [0x5C; 0x61; 0]), ({[inr 9]} ∪ w.1, 1%nat));
  find_next _ capacity w :=
    if capacity <? 600 then (Err (ERROR_MORE_DATA, 600), w)
    else match drop w.2 two_names with
         | n :: _ => (Ok (n ++ [0]), (w.1, S w.2))
         | [] => (Err (ERROR_HANDLE_EOF, 0), w)
         end;
  find_close find w := (w.1 ∖ {[inr find]}, w.2);
  now w := (0, w);
  sleep _ w := w;
  awake _ := 0;
  stopped w := (false, w)
|}.

#[local, program] Instance desk_searches : Searches (gset (N + N) * nat) := {|
  in_use w := w.1;
  file_of _ _ := 78;
  leads_to _ := 78;
  link_set _ := two_names;
  remaining w _ := drop w.2 two_names
|}.
Next Obligation.
  intros frn w r w' E. cbn in E. destruct (N.eqb_spec frn 78) as [-> |]; [|by injection E as <- <-]. case_decide; injection E as <- <-; [done|]. by split_and!.
Qed.
Next Obligation. intros h w r w' E. cbn in E. by injection E as <- <-. Qed.
Next Obligation. intros h n w r w' E. cbn in E. by injection E as <- <-. Qed.
Next Obligation. intros h w. done. Qed.
Next Obligation. intros a n w r w' E. cbn in E. case_decide; injection E as <- <-; [split; [done|unfold u32_max; lia]|]. by split_and!. Qed.
Next Obligation.
  intros find n [s k] r w' E. cbn in E. destruct (n <? 600); [injection E as <- <-; split_and!; done|].
  destruct k as [|[|[|k]]]; cbn in E; injection E as <- <-; split_and!; done.
Qed.
Next Obligation. intros find w. done. Qed.

Example desk_answers : link_paths 5 78 (∅, O) = Some (Ok (Some two_names), (∅, 2%nat)).
Proof. vm_compute. reflexivity. Qed.

Lemma link_paths_whole_witness :
  exists r w', link_paths (N.to_nat (MAX_LINKS + u32_max + 1)) 78 (∅, O) = Some (r, w') /\ in_use w' = ∅ /\
    match r with Ok (Some l) => l = two_names | _ => True end.
Proof.
  destruct (link_paths_whole 78 (∅, O) (N.to_nat (MAX_LINKS + u32_max + 1))) as (r & w' & E & U & Hr).
  { rewrite N2Nat.id. apply N.lt_add_pos_r. done. }
  exists r, w'. split; [exact E|]. split; [exact U|]. destruct r as [[l|]|e]; [apply Hr|done|done].
Defined.
