(* ===== verification/Bootstrap.v ===== *)
(** The build of an index from the volume itself and the setup of its journal,
    from [crates/goz-daemon/src/bootstrap.rs].

    A build reads pages until the volume says there are no more, so its loops
    have no bound of their own: they get a number of turns, and a run that uses
    them up is [None], a thread still at work.  What is proved of such a run
    holds for every number of turns. *)

From Stdlib Require Import String.
From stdpp Require Import gmap.
From stdpp Require Import base option list.
From Stdlib Require Import NArith ZArith Lia.
From S2P Require Import Prelude Types Fold FrnMap NameStore UsnRecord LayoutParse Volume Winfs.
Open Scope N_scope.
Open Scope list_scope.

Definition JOURNAL_MIN_SIZE : N := 64 * 1024 * 1024.
Definition JOURNAL_MAX_SIZE : N := 1024 * 1024 * 1024.
Definition JOURNAL_ALLOC_DELTA : N := 8 * 1024 * 1024.
Definition IO_BUFFER_BYTES : N := 1024 * 1024.

(** What the hash map behind a sparse FRN map has allocated. *)
Class Allocator := { map_capacity : FrnMap -> N }.

(** ** Runs that may still be going on *)

(** [None] as a result: the turns given are used up. *)
Definition Task (S A : Type) : Type := ST S (option A).
Definition t_ret {S A} (a : A) : Task S A := st_ret (Some a).
Definition paused {S A} : Task S A := st_ret None.
Definition t_bind {S A B} (m : Task S A) (f : A -> Task S B) : Task S B :=
  o <- m ;; match o with Some a => f a | None => paused end.
Notation "x <~ m ;; k" := (t_bind m (fun x => k)) (at level 100, m at next level, right associativity) : goz_scope.

(** One call into the world. *)
Definition call {W A} (f : W -> A * W) : ST W A := fun w => Some (f w).

(** A run of an index operation on an index of one's own. *)
Definition on_own {S} (m : ST VolumeIndex unit) (v : VolumeIndex) : ST S VolumeIndex := st_read (fun _ => snd <$> m v).

(** ** The journal *)

Definition journal_target_bytes (volume_bytes : option N) : N :=
  N.min (N.max (match volume_bytes with Some bytes => bytes / 4096 | None => JOURNAL_MIN_SIZE end) JOURNAL_MIN_SIZE) JOURNAL_MAX_SIZE.

Definition create_refused (c : N) : bool := bool_decide (c ∈ [1; 5; 19; 50; 87]).

Inductive JournalSetup := Active (i : JournalInfo) | Refused | Unavailable.

Definition cursor (j : JournalSetup) : option JournalInfo := match j with Active c => Some c | Refused | Unavailable => None end.

Definition built_phase (j : JournalSetup) : VolumePhase :=
  match j with Active _ => Live | Refused => Snapshot | Unavailable => Offline end.

Definition setup_journal {S} (target : N) (query : ST S (result WinError JournalQuery)) (create : N -> ST S (result WinError unit)) : ST S JournalSetup :=
  q <- query ;;
  match q with
  | Ok (JActive info) =>
      if target <=? maximum_size info then st_ret (Active info)
      else
        c <- create target ;;
        match c with
        | Err _ => st_ret (Active info)
        | Ok _ =>
            q <- query ;;
            match q with Ok (JActive grown) => st_ret (Active grown) | _ => st_ret (Active info) end
        end
  | Ok JNotActive =>
      c <- create target ;;
      match c with
      | Ok _ =>
          q <- query ;;
          match q with Ok (JActive info) => st_ret (Active info) | _ => st_ret Unavailable end
      | Err e => st_ret (if create_refused (code e) then Refused else Unavailable)
      end
  | Ok JDeleteInProgress => st_ret Unavailable
  | Err _ => st_ret Unavailable
  end.

Section build.
Context `{Unicode, Hasher} {W : Type} {Wn : Win W} {Al : Allocator}.

Definition ensure_journal (guid_path : list N) : ST W JournalSetup :=
  total <- call (total_bytes guid_path) ;;
  let target := journal_target_bytes (match total with Ok b => Some b | Err _ => None end) in
  setup_journal target (call query_usn_journal) (fun size => call (create_usn_journal size JOURNAL_ALLOC_DELTA)).

(** ** The build *)

Inductive BuildError := BadLayout (e : LayoutWalkError) | EnumFailed (e : WinError) | BadEnum (e : WalkError).

Record BuiltIndex := { built_index : VolumeIndex; enumerated : bool; metadata_pending : bool }.

(** How a pass ended: the stop flag was seen, a page did not parse, or the scan
    is over, with the index and whether every page was read. *)
Inductive Pass := Aborted | Broken (e : BuildError) | Through (index : VolumeIndex) (complete : bool).

(** [stop.is_some_and(load)]. *)
Definition cancelled (stop : bool) : ST W bool := if stop then call stopped else st_ret false.

Fixpoint layout_pass (turns : nat) (stop restart : bool) (index : VolumeIndex) : Task W Pass :=
  match turns with
  | O => paused
  | S turns =>
      c <- cancelled stop ;;
      if (c : bool) then t_ret Aborted
      else
        page <- call (query_file_layout RECOMMENDED_LAYOUT_FLAGS restart IO_BUFFER_BYTES) ;;
        match page with
        | Ok (Some buf) =>
            walk <- st_read (fun _ => walk_layout_buffer buf) ;;
            match walk with
            | Err e => t_ret (Broken (BadLayout e))
            | Ok files => index <- on_own (st_for insert_layout files) index ;; layout_pass turns stop false index
            end
        | Ok None => t_ret (Through index true)
        | Err _ => t_ret (Through index false)
        end
  end.

Fixpoint enum_pass (turns : nat) (stop : bool) (next_frn : N) (index : VolumeIndex) : Task W Pass :=
  match turns with
  | O => paused
  | S turns =>
      c <- cancelled stop ;;
      if (c : bool) then t_ret Aborted
      else
        page <- call (enum_usn_data next_frn IO_BUFFER_BYTES) ;;
        match page with
        | Err e => t_ret (Broken (EnumFailed e))
        | Ok None => t_ret (Through index true)
        | Ok (Some buf) =>
            walk <- st_read (fun _ => walk_enum_buffer buf) ;;
            match walk with
            | Err e => t_ret (Broken (BadEnum e))
            | Ok walk =>
                index <- on_own (st_for insert_enum (enum_records walk)) index ;;
                if (next_start_frn walk =? next_frn) && (match enum_records walk with [] => true | _ => false end)
                then t_ret (Through index true)
                else enum_pass turns stop (next_start_frn walk) index
            end
        end
  end.

(** [Ok None] is a build the stop flag aborted. *)
Definition finish_build (index : VolumeIndex) (layout_complete : bool) : ST W (result BuildError (option BuiltIndex)) :=
  index <- on_own (optimize_storage (map_capacity (by_frn index))) index ;;
  st_ret (Ok (Some {| built_index := index; enumerated := negb layout_complete; metadata_pending := negb layout_complete |})).

Definition build_index (turns : nat) (stop : bool) : Task W (result BuildError (option BuiltIndex)) :=
  index <- st_read (fun _ => new NTFS_ROOT_FRN sparse) ;;
  p <~ layout_pass turns stop true index ;;
  match p with
  | Aborted => t_ret (Ok None)
  | Broken e => t_ret (Err e)
  | Through index true => r <- finish_build index true ;; t_ret r
  | Through index false =>
      p <~ enum_pass turns stop 0 index ;;
      match p with
      | Aborted => t_ret (Ok None)
      | Broken e => t_ret (Err e)
      | Through index _ => r <- finish_build index false ;; t_ret r
      end
  end.

(** ** A one-shot scan *)

Record BootstrappedVolume := { bv_guid : list N; bv_mounts : list (list N); bv_enumerated : bool; bv_journal : JournalSetup; bv_index : VolumeIndex }.

(** [bootstrap_volume] once the volume is open; the [expect] of a build that
    was given no stop flag is the panic. *)
Definition bootstrap_volume (turns : nat) (guid_path : list N) (mounts : list (list N)) : Task W (result BuildError BootstrappedVolume) :=
  journal <- ensure_journal guid_path ;;
  r <~ build_index turns false ;;
  match r with
  | Err e => t_ret (Err e)
  | Ok None => st_fail
  | Ok (Some built) =>
      t_ret (Ok {| bv_guid := guid_path; bv_mounts := mounts; bv_enumerated := enumerated built; bv_journal := journal; bv_index := built_index built |})
  end.
End build.
