(* ===== verification/BootstrapBuild.v ===== *)
(** The build of an index from the layout pages of a volume, from
    [build_index] of [crates/goz-daemon/src/bootstrap.rs]: it ends when the
    volume has no more pages, and the index it built holds the listing. *)

From Stdlib Require Import String.
From stdpp Require Import gmap.
From stdpp Require Import base option list sets.
From Stdlib Require Import NArith ZArith Lia.
From S2P Require Import Prelude Types UsnRecord LayoutParse Fold FrnMap NameStore EntryTable Volume VolumeInv VolumeOps VolumeEdit VolumeNew VolumeBuild VolumeListing Winfs Bootstrap.
Open Scope N_scope.
Open Scope list_scope.

Section build.
Context {U : Unicode} {Hs : Hasher} {W : Type} {Wn : Win W} {Al : Allocator}.

(** From the world [w] the volume hands out [n] pages that list [files], without
    an error, and then says there are no more; no look at the stop flag finds it
    raised. *)
Inductive scanned (stop : bool) : bool -> W -> nat -> list LayoutFile -> W -> Prop :=
| sc_end restart w w1 w2 :
    cancelled stop w = Some (false, w1) -> query_file_layout RECOMMENDED_LAYOUT_FLAGS restart IO_BUFFER_BYTES w1 = (Ok None, w2) ->
    scanned stop restart w 0 [] w2
| sc_page restart w w1 w2 buf files n more w' :
    cancelled stop w = Some (false, w1) -> query_file_layout RECOMMENDED_LAYOUT_FLAGS restart IO_BUFFER_BYTES w1 = (Ok (Some buf), w2) ->
    walk_layout_buffer buf = Some (Ok files) -> scanned stop false w2 n more w' ->
    scanned stop restart w (S n) (files ++ more) w'.

Lemma st_for_app {S A} (f : A -> ST S unit) l1 l2 s s' :
  st_for f (l1 ++ l2) s = Some (tt, s') -> exists s1, st_for f l1 s = Some (tt, s1) /\ st_for f l2 s1 = Some (tt, s').
Proof.
  revert s. induction l1 as [|x l1 IH]; intros s E; [by exists s|]. cbn [app st_for] in *. unfold st_bind in *.
  destruct (f x s) as [[[] s1]|]; [|done]. by apply IH.
Qed.

(** The pages one by one are the listing as a whole. *)
Lemma layout_pass_scanned stop restart w n files w' :
  scanned stop restart w n files w' -> forall turns index v, (n < turns)%nat -> st_for insert_layout files index = Some (tt, v) ->
  layout_pass turns stop restart index w = Some (Some (Through v true), w').
Proof.
  induction 1 as [restart w w1 w2 Hc Hq|restart w w1 w2 buf files n more w' Hc Hq Hb _ IH]; intros turns index v Ht E;
    (destruct turns as [|turns]; [lia|]); cbn [layout_pass]; unfold st_bind at 1; rewrite Hc; unfold st_bind at 1, call; rewrite Hq.
  - injection E as <-. done.
  - apply st_for_app in E as (v1 & E1 & E2). unfold st_bind at 1, st_read. rewrite Hb. cbn.
    unfold st_bind, on_own, st_read. rewrite E1. cbn. apply IH; [lia|done].
Qed.

Lemma same_link v v' g e : (forall e, abs v' e = abs v e) -> lost_found v' = lost_found v -> link_of v g e -> link_of v' g e.
Proof. intros Ha Hl (Hlf & a & Hae & Hf). split; [congruence|]. exists a. by rewrite Ha. Qed.

(** What is read of an index through its entries is kept with them. *)
Lemma same_holds v v' root_frn files : (forall e, abs v' e = abs v e) -> lost_found v' = lost_found v -> holds v root_frn files -> holds v' root_frn files.
Proof.
  intros Ha Hl [H1 H2]. split.
  - intros file n Hf Hr Hn. destruct (H1 file n Hf Hr Hn) as (e & a & L1 & A & En & L2 & M1 & M2). exists e, a.
    split_and!; [by eapply same_link|by rewrite Ha|done|by eapply same_link|done|done].
  - intros file Hf Hr Hn e a Hle Hae. assert (Hle' : link_of v (lf_frn file) e) by (eapply same_link; [symmetry; apply Ha|done|exact Hle]).
    destruct (H2 file Hf Hr Hn e a Hle') as (n & Hin & En & Hp); [by rewrite <- Ha|]. exists n. split_and!; [done..|]. by eapply same_link.
Qed.

(** C13: Building the index of a volume that lists [files] and then ends, with
    no error and no stop, ends too, having read the pages once, and reports a
    complete layout: not enumerated, nothing pending.  The index is well formed
    and holds the listing exactly: every name of every file (the first one of a
    directory) has an entry in the folder it is listed in, with the file's size
    and date, whatever the order in which files and folders were listed; a
    listed file has no other entry; and no file is indexed that the listing
    does not speak of. *)
Theorem build_lists stop w n files w' turns :
  scanned stop true w n files w' -> (n < turns)%nat -> listing_ok NTFS_ROOT_FRN files ->
  (forall v, new NTFS_ROOT_FRN sparse = Some v -> roomy files v) ->
  exists v, build_index turns stop w = Some (Some (Ok (Some {| built_index := v; enumerated := false; metadata_pending := false |})), w') /\
    vol_ok v /\ holds v NTFS_ROOT_FRN files /\
    forall e a, abs v e = Some a -> e <> lost_found v -> a_frn a ∈ spoken_of NTFS_ROOT_FRN files.
Proof.
  intros Hsc Ht Hok Hroom. destruct (new_halfway NTFS_ROOT_FRN sparse files) as (v0 & E0 & Hw0 & _); [done|done|].
  assert (Wl : wp (st_for insert_layout files) (fun _ v => halfway (fun f => f ∈ spoken_of NTFS_ROOT_FRN files) v NTFS_ROOT_FRN files []) v0).
  { eapply (wp_listing NTFS_ROOT_FRN files Hok files []); [done|exact Hw0|by apply Hroom|auto]. }
  apply wp_run in Wl as ([] & v1 & E1 & [Hv1 Hin1 _ _ Hh1]).
  assert (Wo : wp (optimize_storage (map_capacity (by_frn v1))) (fun _ v => vol_ok v /\ (forall e, abs v e = abs v1 e) /\ lost_found v = lost_found v1) v1).
  { apply wp_optimize; [done|]. intros v Hv Ha Hf. split_and!; [done..|apply Hf]. }
  apply wp_run in Wo as ([] & v & E2 & Hv & Ha & Hlf). exists v. split.
  - unfold build_index. unfold st_bind at 1, st_read. rewrite E0. cbn [fmap option_fmap option_map]. unfold t_bind at 1, st_bind at 1.
    rewrite (layout_pass_scanned _ _ _ _ _ _ Hsc turns v0 v1 Ht E1). unfold st_bind at 1, finish_build. unfold st_bind at 1, on_own, st_read. by rewrite E2.
  - split; [done|]. split; [by eapply same_holds|]. intros e a Hae Hne. rewrite Ha in Hae. apply (Hin1 e a Hae). congruence.
Qed.
End build.

(** *** Witness *)

#[local] Existing Instance one_bucket.

(** A page with one file, named "ab": header, entry, name, stream and info. *)
Definition one_file (frn attributes parent : N) : list N :=
  le_encode 4 1 ++ le_encode 4 16 ++ le_encode 4 1 ++ le_encode 4 0 ++
  le_encode 4 1 ++ le_encode 4 0 ++ le_encode 4 0 ++ le_encode 4 attributes ++
  le_encode 8 frn ++ le_encode 4 40 ++ le_encode 4 72 ++ le_encode 4 120 ++ le_encode 4 0 ++
  le_encode 4 0 ++ le_encode 4 FILE_LAYOUT_NAME_ENTRY_PRIMARY ++ le_encode 8 parent ++
  le_encode 4 4 ++ le_encode 4 0 ++ [0x61; 0; 0x62; 0] ++ le_encode 4 0 ++
  le_encode 4 1 ++ le_encode 4 0 ++ le_encode 4 0 ++ le_encode 4 0 ++ le_encode 8 4096 ++ le_encode 8 1234 ++
  le_encode 4 0 ++ le_encode 4 0 ++ le_encode 4 0 ++ le_encode 4 0 ++
  le_encode 8 1 ++ le_encode 8 2 ++ le_encode 8 133000000000000000 ++ le_encode 32 0.

(** A disk with a file in a folder; the file is listed first.  The world is the
    number of pages handed out. *)
Definition disk : Win N := {|
  ctl c cap w :=
    match c with
    | QueryFileLayout _ flags _ _ _ =>
        if negb (N.land flags QUERY_FILE_LAYOUT_RESTART =? 0) then (Ok (one_file 48 0x20 49), 1)
        else if w =? 1 then (Ok (one_file 49 0x10 NTFS_ROOT_FRN), 2) else (Err ERROR_HANDLE_EOF, w)
    | _ => (Err 1, w)
    end;
  ctl_query w := (Err 1, w);
  ctl_create _ _ w := (Err 1, w);
  total_bytes _ w := (Err 5, w);
  open_by_id _ w := (Err 5, w);
  file_information _ w := (Err 5, w);
  final_path_length _ w := (Err 5, w);
  final_path_text _ _ w := (Err 5, w);
  close_handle _ w := w;
  find_first _ _ w := (Err (5, 0), w);
  find_next _ _ w := (Err (5, 0), w);
  find_close _ w := w;
  now w := (w, w);
  sleep _ w := w;
  awake w := w;
  stopped w := (false, w)
|}.
#[local] Existing Instance disk.
#[local] Instance no_slack : Allocator := {| map_capacity _ := 0 |}.

Definition ab_in (parent : N) : LayoutName := {| ln_parent_frn := parent; ln_name := [0x61; 0x62]; ln_name_lossy := false; dos_only := false |}.
Definition disk_file : LayoutFile :=
  {| lf_frn := 48; lf_attributes := 0x20; lf_size := Some 1234; lf_mtime_ft := Some 133000000000000000%Z; lf_names := [ab_in 49] |}.
Definition disk_folder : LayoutFile :=
  {| lf_frn := 49; lf_attributes := 0x10; lf_size := None; lf_mtime_ft := Some 133000000000000000%Z; lf_names := [ab_in NTFS_ROOT_FRN] |}.

Lemma disk_scanned : scanned true true 0 2 [disk_file; disk_folder] 2.
Proof.
  apply (sc_page true true 0 0 1 (one_file 48 0x20 49) [disk_file] 1 [disk_folder]); [done|done|by vm_compute|].
  apply (sc_page true false 1 1 2 (one_file 49 0x10 NTFS_ROOT_FRN) [disk_folder] 0 []); [done|done|by vm_compute|].
  by apply (sc_end true false 2 2 2).
Qed.

Lemma disk_listing : listing_ok NTFS_ROOT_FRN [disk_file; disk_folder].
Proof.
  split.
  - intros f g Hf Hg. change (f ∈ [NTFS_ROOT_FRN; 48; 49; 49; NTFS_ROOT_FRN]) in Hf. change (g ∈ [NTFS_ROOT_FRN; 48; 49; 49; NTFS_ROOT_FRN]) in Hg. intros E. rewrite !elem_of_cons, elem_of_nil in Hf, Hg. destruct_or!; subst; done.
  - change (NoDup [48; 49]). apply NoDup_cons. split; [|apply NoDup_singleton]. by intros ?%list_elem_of_singleton.
  - intros file Hf. rewrite !elem_of_cons, elem_of_nil in Hf. destruct_or!; subst; try done; (apply Forall_cons_2; [split; by vm_compute|by apply Forall_nil_2]).
  - intros file n Hf Hn E. rewrite !elem_of_cons, elem_of_nil in Hf. destruct_or!; subst; try done; apply list_elem_of_singleton in Hn as ->; done.
Qed.

Lemma build_lists_witness :
  exists v, build_index 3 true 0 = Some (Some (Ok (Some {| built_index := v; enumerated := false; metadata_pending := false |})), 2) /\
    vol_ok v /\ placed v disk_file (ab_in 49) /\ placed v disk_folder (ab_in NTFS_ROOT_FRN).
Proof.
  destruct (build_lists true 0 2 [disk_file; disk_folder] 2 3 disk_scanned ltac:(lia) disk_listing) as (v & E & Hv & [Hh _] & _).
  - intros v E. destruct (new_halfway NTFS_ROOT_FRN sparse [disk_file; disk_folder]) as (v0 & E0 & Hw & Hsp); [done|done|].
    assert (v = v0) as -> by congruence. eapply (space_roomy _ _ disk_listing _ []); [done|exact Hw|]. apply Hsp. vm_compute. congruence.
  - exists v. split; [exact E|]. split; [exact Hv|]. split; apply Hh; [left|done|left|right; left|done|left].
Defined.
