(* ===== verification/Tail.v ===== *)
(** The thread that keeps one volume's index live, from
    [crates/goz-daemon/src/tail.rs]: it builds the index, reads the change
    journal from the cursor it took before the build, applies each batch, and
    rebuilds when it can no longer prove that nothing was missed.

    The state is the world (Windows, the clock, the stop flag), the volume the
    thread shares with the queries, of which it is the only writer but for the
    scope cache, the word of its pulse, and a list of what it did, newest first.
    The thread runs until it is stopped: its loops get a number of turns, as the
    build's do. *)

From Stdlib Require Import String.
From stdpp Require Import gmap.
From stdpp Require Import base option list sorting.
From Stdlib Require Import NArith ZArith Lia.
From S2P Require Import Prelude Types Wtf8 Fold FrnMap NameStore NameOrder Volume Scope Server Pulse UsnOps UsnRecord LayoutParse Winfs Bootstrap.
Open Scope N_scope.
Open Scope list_scope.

Definition REASON_MASK : N :=
  N.lor USN_REASON_FILE_CREATE (N.lor USN_REASON_FILE_DELETE (N.lor USN_REASON_RENAME_OLD_NAME (N.lor USN_REASON_RENAME_NEW_NAME
    (N.lor USN_REASON_HARD_LINK_CHANGE (N.lor USN_REASON_BASIC_INFO_CHANGE (N.lor USN_REASON_DATA_OVERWRITE
      (N.lor USN_REASON_DATA_EXTEND (N.lor USN_REASON_DATA_TRUNCATION USN_REASON_CLOSE)))))))).

(** Times are in milliseconds. *)
Definition READ_BUFFER_BYTES : N := 512 * 1024.
Definition IDLE_POLL : N := 50.
Definition DEGRADE_AFTER : N := 5000.
Definition ESCALATE_AFTER : N := 30000.
Definition RETRY_BACKOFF_MIN : N := 500.
Definition RETRY_BACKOFF_MAX : N := 30000.
Definition JOURNAL_WAIT_MAX : N := 5 * 60 * 1000.
Definition MAX_RESCANS : N := 3.

(** ** The state *)

(** What went wrong, as the text of a failure is made of. *)
Inductive Detail :=
| OfRead (e : WinError)
| OfWalk (e : WalkError)
| TooManyRescans (d : Detail)
| FirstBuildFailed (e : BuildError)
| RebuildFailed (e : BuildError).

Inductive Event :=
| Stamped (word : N)
| PhaseSet (p : VolumePhase)
| AskedJournal (j : JournalSetup)
| BuildBegan
| Published (j : JournalSetup) (i : VolumeIndex)
| Charged (rescans : N) (reason : RescanReason)
| ReadAt (start : Z) (journal : N)
| Consumed (journal : N) (start next : Z) (records : list ParsedUsnRecord)
| Statted (stats : list (N * N * Z))
| Reconciled (walked : list (N * list (list N)))
| NotedDropped (n : N)
| Compacted
| Looked (t : N)
| SawStop
| Slept (d : N).

Record Tail (W : Type) := { world : W; state : VolumeState; pulse : N; trace : list Event }.
Arguments world {_}.
Arguments state {_}.
Arguments pulse {_}.
Arguments trace {_}.

(** The text of a failure: [format!] of the reason and the detail. *)
Class FailText := { fail_text : RescanReason -> Detail -> string }.

Definition with_index (i : VolumeIndex) (v : VolumeState) : VolumeState :=
  {| guid := guid v; mounts := mounts v; index := i; phase := phase v; st_metadata_pending := st_metadata_pending v;
     journal_max_bytes := journal_max_bytes v; indexed := indexed v; scope_cache := scope_cache v |}.
Definition with_phase (p : VolumePhase) (v : VolumeState) : VolumeState :=
  {| guid := guid v; mounts := mounts v; index := index v; phase := p; st_metadata_pending := st_metadata_pending v;
     journal_max_bytes := journal_max_bytes v; indexed := indexed v; scope_cache := scope_cache v |}.

(** ** Splitting a path, walking links *)

(** [rposition] of a separator. *)
Definition is_separator (b : N) : bool := (b =? 0x5C) || (b =? 0x2F).

Fixpoint last_separator (path : list N) (at_ : nat) : option nat :=
  match path with
  | [] => None
  | b :: path =>
      match last_separator path (S at_) with
      | Some i => Some i
      | None => if is_separator b then Some at_ else None
      end
  end.

Definition split_parent (path : list N) : list N * list N :=
  match last_separator path 0 with
  | Some i => (take i path, drop (S i) path)
  | None => ([], path)
  end.

Definition LinkPaths : Type := list (list N).

(** One walk per distinct FRN, in the order first seen; [Ok None] of the walk is
    [ControlFlow::Break]. *)
Fixpoint walk_each_once {S} (walk : N -> Task S (option (option LinkPaths))) (frns : list N) (walks : gmap N (option LinkPaths))
  : Task S (option (gmap N (option LinkPaths))) :=
  match frns with
  | [] => t_ret (Some walks)
  | frn :: frns =>
      match walks !! frn with
      | Some _ => walk_each_once walk frns walks
      | None =>
          r <~ walk frn ;;
          match r with
          | None => t_ret None
          | Some links => walk_each_once walk frns (<[frn := links]> walks)
          end
      end
  end.

Definition in_batch_order (frns : list N) (walks : gmap N (option LinkPaths)) : list (N * LinkPaths) :=
  omap (fun frn => l ← walks !! frn; links ← l; Some (frn, links)) frns.

Section tail.
Context `{Unicode, Hasher} {W : Type} {Wn : Win W} {Al : Allocator} {Ft : FailText}.

(** The folders of one file's links, unless one of them is not indexed. *)
Fixpoint link_targets (links : LinkPaths) : ST VolumeIndex (option (list LinkTarget)) :=
  match links with
  | [] => st_ret (Some [])
  | wide :: links =>
      let '(bytes, clean) := from_utf16 wide [] in
      let '(dir, name) := split_parent bytes in
      parent <- resolve_scope dir false ;;
      match parent with
      | None => st_ret None
      | Some parent =>
          rest <- link_targets links ;;
          st_ret (rest ← rest; Some ({| tparent := parent; tname := {| wbytes := name; wlossy := negb clean |} |} :: rest))
      end
  end.

(** The files left unreconciled so far, and at the end their number. *)
Fixpoint apply_walks (walked : list (N * LinkPaths)) (unreconciled : gset N) : ST VolumeIndex (gset N) :=
  match walked with
  | [] => st_ret unreconciled
  | (frn, links) :: walked =>
      targets <- link_targets links ;;
      match targets with
      | None | Some [] => apply_walks walked ({[frn]} ∪ unreconciled)
      | Some targets => reconcile_links frn targets ;;; apply_walks walked unreconciled
      end
  end.

Definition apply_link_walks (walked : list (N * LinkPaths)) : ST VolumeIndex N :=
  unreconciled <- apply_walks walked ∅ ;; st_ret (N.of_nat (base.size unreconciled)).

(** ** Steps everything is made of *)

Definition ask {A} (f : W -> A * W) : ST (Tail W) A := fun t =>
  let '(a, w) := f (world t) in Some (a, {| world := w; state := state t; pulse := pulse t; trace := trace t |}).
Definition ask_st {A} (m : ST W A) : ST (Tail W) A :=
  st_zoom world (fun w t => {| world := w; state := state t; pulse := pulse t; trace := trace t |}) m.
Definition event (e : Event) : ST (Tail W) unit := st_modify (fun t => {| world := world t; state := state t; pulse := pulse t; trace := e :: trace t |}).
Definition stamp (word : N -> N) : ST (Tail W) unit :=
  st_modify (fun t => let x := word (awake (world t)) in {| world := world t; state := state t; pulse := x; trace := Stamped x :: trace t |}).
Definition on_state (f : VolumeState -> VolumeState) : ST (Tail W) unit :=
  st_modify (fun t => {| world := world t; state := f (state t); pulse := pulse t; trace := trace t |}).
Definition on_index {A} (m : ST VolumeIndex A) : ST (Tail W) A :=
  st_zoom (fun t => index (state t)) (fun i t => {| world := world t; state := with_index i (state t); pulse := pulse t; trace := trace t |}) m.
Definition set_phase (p : VolumePhase) : ST (Tail W) unit := on_state (with_phase p) ;;; event (PhaseSet p).
Definition beat_now : ST (Tail W) unit := stamp beat.
Definition sleep_for (d : N) : ST (Tail W) unit := ask (fun w => (tt, sleep d w)) ;;; event (Slept d).
Definition stopping : ST (Tail W) bool := stop <- ask stopped ;; st_when stop (event SawStop) ;;; st_ret stop.

Definition mark_failed (reason : RescanReason) (detail : Detail) : ST (Tail W) unit := set_phase (Failed (fail_text reason detail)).

(** [sleep_unless_stopped]. *)
Fixpoint nap (turns : nat) (deadline : N) : Task (Tail W) unit :=
  match turns with
  | O => paused
  | S turns =>
      stop <- stopping ;;
      if (stop : bool) then t_ret tt
      else
        t <- ask now ;;
        let left := deadline - t in
        if left =? 0 then t_ret tt
        else sleep_for (N.min left 50) ;;; nap turns deadline
  end.

Definition sleep_unless_stopped (turns : nat) (total : N) : Task (Tail W) unit := t <- ask now ;; nap turns (t + total).

(** ** Publishing a build *)

Definition publish (built : BuiltIndex) (journal : JournalSetup) (v : VolumeState) : VolumeState :=
  {| guid := guid v; mounts := mounts v; index := built_index built; phase := phase v; st_metadata_pending := metadata_pending built;
     journal_max_bytes := maximum_size <$> cursor journal; indexed := true; scope_cache := None |}.

Definition install (built : BuiltIndex) (journal : JournalSetup) : ST (Tail W) (option JournalInfo) :=
  on_state (publish built journal) ;;; event (Published journal (built_index built)) ;;;
  set_phase (built_phase journal) ;;;
  st_ret (cursor journal).

Definition ask_journal : ST (Tail W) JournalSetup :=
  g <- st_get (fun t => guid (state t)) ;;
  j <- ask_st (ensure_journal g) ;;
  event (AskedJournal j) ;;; st_ret j.

(** [build_index] on the world of the thread, with its stop flag. *)
Definition build (turns : nat) : Task (Tail W) (result BuildError (option BuiltIndex)) :=
  event BuildBegan ;;;
  r <~ ask_st (build_index turns true) ;;
  st_when (match r with Ok None => true | _ => false end) (event SawStop) ;;; t_ret r.

(** The wait between two asks, in steps that beat: [None] when the stop flag
    was seen. *)
Fixpoint wait_out (turns : nat) (left : N) : Task (Tail W) (option unit) :=
  match turns with
  | O => paused
  | S turns =>
      if left =? 0 then t_ret (Some tt)
      else
        beat_now ;;;
        let step := N.min left RETRY_BACKOFF_MAX in
        _u <~ sleep_unless_stopped turns step ;;
        stop <- stopping ;;
        if (stop : bool) then t_ret None else wait_out turns (left - step)
  end.

(** The loop of [wait_for_journal]. *)
Fixpoint wait_for_journal (turns : nat) (wait : N) (waited : bool) : Task (Tail W) (option JournalSetup) :=
  match turns with
  | O => paused
  | S turns =>
      journal <- ask_journal ;;
      match journal with
      | Unavailable =>
          st_when (negb waited) (set_phase Offline) ;;;
          w <~ wait_out turns wait ;;
          match w with
          | None => t_ret None
          | Some _ => wait_for_journal turns (N.min (wait * 2) JOURNAL_WAIT_MAX) true
          end
      | _ => t_ret (Some journal)
      end
  end.

(** The rebuild of [rescan], inside its busy scope. *)
Definition rebuild (turns : nat) (reason : RescanReason) (journal : JournalSetup) : Task (Tail W) (option JournalInfo) :=
  set_phase Rescanning ;;;
  r <~ build turns ;;
  match r with
  | Ok (Some built) => c <- install built journal ;; t_ret c
  | Ok None => t_ret None
  | Err e => mark_failed reason (RebuildFailed e) ;;; t_ret None
  end.

Definition rescan (turns : nat) (reason : RescanReason) : Task (Tail W) (option JournalInfo) :=
  j <~ wait_for_journal turns RETRY_BACKOFF_MIN false ;;
  match j with
  | None => t_ret None
  | Some journal =>
      stamp busy_scope ;;;
      c <~ rebuild turns reason journal ;;
      stamp drop_busy ;;; t_ret c
  end.

Definition first_build (turns : nat) : Task (Tail W) (option JournalInfo) :=
  journal <- ask_journal ;;
  stamp busy_scope ;;;
  set_phase Bootstrapping ;;;
  r <~ build turns ;;
  match r with
  | Ok None => stamp drop_busy ;;; t_ret None
  | Err e => mark_failed NoCursor (FirstBuildFailed e) ;;; stamp drop_busy ;;; t_ret None
  | Ok (Some built) =>
      stamp drop_busy ;;;
      c <- install built journal ;;
      match journal with Unavailable => rescan turns NoCursor | _ => t_ret c end
  end.

(** The counter after it, and the cursor to go on from. *)
Definition bounded_rescan (turns : nat) (reason : RescanReason) (detail : Detail) (rescans : N) : Task (Tail W) (N * option JournalInfo) :=
  let rescans := rescans + 1 in
  event (Charged rescans reason) ;;;
  if MAX_RESCANS <? rescans then mark_failed reason (TooManyRescans detail) ;;; t_ret (rescans, None)
  else c <~ rescan turns reason ;; t_ret (rescans, c).

(** ** What a batch leaves to do *)

Definition compact_index : ST (Tail W) unit :=
  plan <- st_read (fun t => plan_compaction (index (state t))) ;;
  match plan with None => st_ret tt | Some plan => on_index (apply_compaction plan) ;;; event Compacted end.

Definition set_stats (stats : list (N * N * Z)) : ST VolumeIndex unit := st_for (fun '(frn, size, mtime) => set_stat frn size mtime) stats.

(** The stats gathered before the stop flag was seen. *)
Fixpoint gather_stats (frns : list N) : ST (Tail W) (list (N * N * Z)) :=
  match frns with
  | [] => st_ret []
  | frn :: frns =>
      stop <- stopping ;;
      if (stop : bool) then st_ret []
      else
        beat_now ;;;
        s <- ask (stat_file frn) ;;
        rest <- gather_stats frns ;;
        st_ret (match s with Ok (Some s) => (frn, fs_size s, fs_mtime_ft s) :: rest | _ => rest end)
  end.

Definition enrich_stats (frns : list N) : ST (Tail W) unit :=
  stats <- gather_stats frns ;;
  on_index (set_stats stats) ;;; event (Statted stats).

(** One walk of [reconcile_links]; the state carries how many failed. *)
Definition walk_one (turns : nat) (frn : N) : Task (N * Tail W) (option (option LinkPaths)) := fun s =>
  let '(dropped, t) := s in
  '(stop, t) ← stopping t;
  if (stop : bool) then Some (Some None, (dropped, t))
  else
    '(_, t) ← beat_now t;
    match link_paths turns frn (world t) with
    | None => Some (None, (dropped, t))
    | Some (r, w) =>
        let t := {| world := w; state := state t; pulse := pulse t; trace := trace t |} in
        match r with
        | Ok (Some (l :: ls)) => Some (Some (Some (Some (l :: ls))), (dropped, t))
        | Ok _ => Some (Some (Some None), (dropped, t))
        | Err _ => Some (Some (Some None), (dropped + 1, t))
        end
    end.

(** The walks of a batch, and how many of them failed. *)
Definition walk_batch (turns : nat) (frns : list N) : ST (Tail W) (option (option (gmap N (option LinkPaths))) * N) := fun t =>
  '(r, (dropped, t)) ← walk_each_once (walk_one turns) frns ∅ (0, t); Some ((r, dropped), t).

(** The part of [reconcile_links] under the lock. *)
Definition reconcile_walked (walked : list (N * LinkPaths)) (dropped : N) : ST (Tail W) unit :=
  st_when (negb ((match walked with [] => true | _ => false end) && (dropped =? 0))) (
    more <- on_index (apply_link_walks walked) ;;
    event (Reconciled walked) ;;;
    let dropped := dropped + more in
    st_when (0 <? dropped) (on_index (note_link_reconciles_dropped dropped) ;;; event (NotedDropped dropped))).

(** [reconcile_links] of the tail. *)
Definition reconcile_batch (turns : nat) (frns : list N) : Task (Tail W) unit :=
  r <- walk_batch turns frns ;;
  let '(walks, dropped) := r in
  match walks with
  | None => paused
  | Some None => t_ret tt
  | Some (Some walks) => reconcile_walked (in_batch_order frns walks) dropped ;;; t_ret tt
  end.

(** [Vec::dedup]: runs of equal elements become one. *)
Fixpoint dedup (l : list N) : list N :=
  match l with
  | x :: ((y :: _) as l') => if x =? y then dedup l' else x :: dedup l'
  | l => l
  end.

(** [sort_unstable] then [dedup]. *)
Definition sorted_once (l : list N) : list N := dedup (merge_sort N.le l).

(** ** The loop *)

Record Loop := {
  rescans : N; start_usn : Z; lp_journal : N; failing_since : option N; backoff : N; degraded : bool }.

Definition loop_from (r : N) (c : JournalInfo) : Loop :=
  {| rescans := r; start_usn := next_usn c; lp_journal := journal_id c; failing_since := None; backoff := RETRY_BACKOFF_MIN; degraded := false |}.

(** The rest of a batch once it is read. *)
Definition apply_walk (turns : nat) (l : Loop) (walk : JournalWalk) : Task (Tail W) Loop :=
  let l' := {| rescans := rescans l; start_usn := UsnRecord.next_usn walk; lp_journal := lp_journal l;
               failing_since := None; backoff := RETRY_BACKOFF_MIN; degraded := false |} in
  let consumed := event (Consumed (lp_journal l) (start_usn l) (UsnRecord.next_usn walk) (journal_records walk)) in
  match journal_records walk with
  | [] => consumed ;;; sleep_for IDLE_POLL ;;; t_ret l'
  | records =>
      outcome <- on_index (apply_batch records) ;;
      consumed ;;;
      enrich_stats (sorted_once (needs_stat outcome ++ needs_link_reconcile outcome)) ;;;
      _u <~ reconcile_batch turns (needs_link_reconcile outcome) ;;
      st_when (wants_compact outcome) compact_index ;;;
      t_ret {| rescans := 0; start_usn := UsnRecord.next_usn walk; lp_journal := lp_journal l;
               failing_since := None; backoff := RETRY_BACKOFF_MIN; degraded := false |}
  end.

(** A rescan out of the loop: the loop it goes on with, if it does. *)
Definition rescan_and_go_on (turns : nat) (l : Loop) (reason : RescanReason) (detail : Detail) : Task (Tail W) (option Loop) :=
  r <~ bounded_rescan turns reason detail (rescans l) ;;
  t_ret (loop_from r.1 <$> r.2).

(** A look at the clock because of a failed read. *)
Definition look : ST (Tail W) N := t <- ask now ;; event (Looked t) ;;; st_ret t.

(** A read that failed for another reason, as long as it may be tried again. *)
Definition retry_later (turns : nat) (l : Loop) (since : N) : Task (Tail W) Loop :=
  degrade <- (if degraded l then st_ret false else t <- look ;; st_ret (DEGRADE_AFTER <=? t - since)) ;;
  st_when degrade (set_phase Offline) ;;;
  _u <~ sleep_unless_stopped turns (backoff l) ;;
  t_ret {| rescans := rescans l; start_usn := start_usn l; lp_journal := lp_journal l;
           failing_since := Some since; backoff := N.min (backoff l * 2) RETRY_BACKOFF_MAX; degraded := degraded l || degrade |}.

Definition read_failed (turns : nat) (l : Loop) (e : WinError) : Task (Tail W) (option Loop) :=
  if code e =? ERROR_JOURNAL_ENTRY_DELETED then rescan_and_go_on turns l EntryDeletedError (OfRead e)
  else if code e =? ERROR_JOURNAL_NOT_ACTIVE then rescan_and_go_on turns l JournalNotActive (OfRead e)
  else if code e =? ERROR_JOURNAL_DELETE_IN_PROGRESS then rescan_and_go_on turns l JournalDeleteInProgress (OfRead e)
  else
    since <- match failing_since l with Some since => st_ret since | None => look end ;;
    t <- look ;;
    if ESCALATE_AFTER <=? t - since then rescan_and_go_on turns l ReadsKeptFailing (OfRead e)
    else
      l' <~ retry_later turns l since ;; t_ret (Some l').

(** One turn of the loop: [None] ends the thread. *)
Definition turn (turns : nat) (l : Loop) : Task (Tail W) (option Loop) :=
  stop <- stopping ;;
  if (stop : bool) then t_ret None
  else
    beat_now ;;;
    event (ReadAt (start_usn l) (lp_journal l)) ;;;
    r <- ask (read_usn_journal (start_usn l) (lp_journal l) REASON_MASK 0 READ_BUFFER_BYTES) ;;
    match r with
    | Err e => read_failed turns l e
    | Ok buf =>
        st_when (degraded l) (set_phase Live) ;;;
        walk <- st_read (fun _ => walk_journal_buffer buf) ;;
        match walk with
        | Err e => rescan_and_go_on turns l ParserAnomaly (OfWalk e)
        | Ok walk => l' <~ apply_walk turns l walk ;; t_ret (Some l')
        end
    end.

Fixpoint turns_of (turns n : nat) (l : Loop) : Task (Tail W) unit :=
  match n with
  | O => paused
  | S n => l' <~ turn turns l ;; match l' with None => t_ret tt | Some l' => turns_of turns n l' end
  end.

(** The thread of a tail: the build, the loop, and the retirement its guard
    publishes on every way out. *)
Definition tail_loop (turns n : nat) : Task (Tail W) unit :=
  indexed <- st_get (fun t => indexed (state t)) ;;
  first <~ (if (indexed : bool) then rescan turns NoCursor else first_build turns) ;;
  match first with
  | None => t_ret tt
  | Some cursor => turns_of turns n (loop_from 0 cursor)
  end.

Definition thread (turns n : nat) : Task (Tail W) unit :=
  _u <~ tail_loop turns n ;; stamp (fun _ => drop_retire) ;;; t_ret tt.
End tail.
