(* ===== verification/TailSpec.v ===== *)
(** What a tail promises, as a language of traces.

    [View] is what can be read off a trace: where in which journal the thread
    stands, the cursor it asked for and the one its build in progress belongs
    to, the phase, the first look at the clock in the current streak of failed
    reads and the phase that is true of the volume by it, whether there was such a
    look or a success since the last read, the rescans and builds since the last batch that had records, and the sleep
    asked for since the last stamp.  [allowed] says which event may come next;
    a trace is [legal] when each of its events was allowed. *)

From stdpp Require Import gmap.
From stdpp Require Import base option list sorting.
From Stdlib Require Import NArith ZArith Lia.
From S2P Require Import Prelude Types Fold NameStore Volume Server UsnOps UsnRecord Winfs Bootstrap Tail.
Open Scope N_scope.
Open Scope list_scope.

(** The records of a journal between two positions. *)
Definition between (j : list ParsedUsnRecord) (s n : Z) : list ParsedUsnRecord := filter (fun r => (s <= usn r < n)%Z) j.

(** What the thread relies on: the clock runs forward, and a sleep lasts at least
    as long as asked; a read of a journal that succeeds and parses gives the
    records of that journal (those of the reasons asked for) from the position asked for to the one it names. *)
Class WinOk (W : Type) {Wn : Win W} := {
  time : W -> N;
  journal : N -> list ParsedUsnRecord;
  journal_sorted id : StronglySorted (fun r r' => (usn r <= usn r')%Z) (journal id);
  now_reads w : (now w).1 = time w;
  now_time w : time w <= time (now w).2;
  stopped_time w : time w <= time (stopped w).2;
  sleep_time d w : time w + d <= time (sleep d w);
  read_slice w w' s id buf walk :
    read_usn_journal s id REASON_MASK 0 READ_BUFFER_BYTES w = (Ok buf, w') -> walk_journal_buffer buf = Some (Ok walk) ->
    (s <= UsnRecord.next_usn walk)%Z /\ journal_records walk = between (journal id) s (UsnRecord.next_usn walk)
}.

Record View := {
  v_position : option (N * Z);
  v_asked : option JournalSetup;
  v_building : option JournalSetup;
  v_phase : VolumePhase;
  v_tracking : VolumePhase;
  v_first : option N;
  v_looked : bool;
  v_charges : N;
  v_builds : N;
  v_slept : N;
  v_stopped : bool
}.

Definition start_view (p : VolumePhase) : View :=
  {| v_position := None; v_asked := None; v_building := None; v_phase := p; v_tracking := p; v_first := None; v_looked := false; v_charges := 0; v_builds := 0; v_slept := 0; v_stopped := false |}.

(** The phase that is true of the volume while it is read: [Offline] once a look
    at the clock came five seconds after the first one of the streak. *)
Definition tracking_after (elapsed : N) (p : VolumePhase) : VolumePhase := if DEGRADE_AFTER <=? elapsed then Offline else p.

Definition view_step (e : Event) (v : View) : View :=
  match e with
  | Stamped _ =>
      {| v_position := v_position v; v_asked := v_asked v; v_building := v_building v; v_phase := v_phase v; v_tracking := v_tracking v;
         v_first := v_first v; v_looked := v_looked v; v_charges := v_charges v; v_builds := v_builds v; v_slept := 0; v_stopped := v_stopped v |}
  | PhaseSet p =>
      {| v_position := v_position v; v_asked := v_asked v; v_building := v_building v; v_phase := p; v_tracking := v_tracking v;
         v_first := v_first v; v_looked := v_looked v; v_charges := v_charges v; v_builds := v_builds v; v_slept := v_slept v; v_stopped := v_stopped v |}
  | AskedJournal j =>
      {| v_position := v_position v; v_asked := Some j; v_building := None; v_phase := v_phase v; v_tracking := v_tracking v;
         v_first := v_first v; v_looked := v_looked v; v_charges := v_charges v; v_builds := v_builds v; v_slept := v_slept v; v_stopped := v_stopped v |}
  | BuildBegan =>
      {| v_position := v_position v; v_asked := None; v_building := v_asked v; v_phase := v_phase v; v_tracking := v_tracking v;
         v_first := v_first v; v_looked := v_looked v; v_charges := v_charges v; v_builds := v_builds v + 1; v_slept := v_slept v; v_stopped := v_stopped v |}
  | Published j _ =>
      {| v_position := (fun c => (journal_id c, next_usn c)) <$> cursor j; v_asked := None; v_building := None; v_phase := v_phase v;
         v_tracking := built_phase j; v_first := None; v_looked := true; v_charges := v_charges v; v_builds := v_builds v; v_slept := v_slept v; v_stopped := v_stopped v |}
  | Charged n _ =>
      {| v_position := v_position v; v_asked := v_asked v; v_building := v_building v; v_phase := v_phase v; v_tracking := v_tracking v;
         v_first := v_first v; v_looked := v_looked v; v_charges := n; v_builds := v_builds v; v_slept := v_slept v; v_stopped := v_stopped v |}
  | Consumed id _ n records =>
      {| v_position := Some (id, n); v_asked := None; v_building := None; v_phase := v_phase v; v_tracking := Live;
         v_first := None; v_looked := true; v_charges := (match records with [] => v_charges v | _ => 0 end);
         v_builds := (match records with [] => v_builds v | _ => 0 end); v_slept := v_slept v; v_stopped := v_stopped v |}
  | Looked t =>
      {| v_position := v_position v; v_asked := v_asked v; v_building := v_building v; v_phase := v_phase v;
         v_tracking := tracking_after (t - default t (v_first v)) (v_tracking v); v_first := Some (default t (v_first v)); v_looked := true; v_charges := v_charges v; v_builds := v_builds v; v_slept := v_slept v; v_stopped := v_stopped v |}
  | SawStop =>
      {| v_position := v_position v; v_asked := v_asked v; v_building := v_building v; v_phase := v_phase v; v_tracking := v_tracking v;
         v_first := v_first v; v_looked := v_looked v; v_charges := v_charges v; v_builds := v_builds v; v_slept := v_slept v; v_stopped := true |}
  | Slept d =>
      {| v_position := v_position v; v_asked := v_asked v; v_building := v_building v; v_phase := v_phase v; v_tracking := v_tracking v;
         v_first := v_first v; v_looked := v_looked v; v_charges := v_charges v; v_builds := v_builds v; v_slept := v_slept v + d; v_stopped := v_stopped v |}
  | ReadAt _ _ =>
      {| v_position := v_position v; v_asked := v_asked v; v_building := v_building v; v_phase := v_phase v; v_tracking := v_tracking v;
         v_first := v_first v; v_looked := false; v_charges := v_charges v; v_builds := v_builds v; v_slept := v_slept v; v_stopped := v_stopped v |}
  | Statted _ | Reconciled _ | NotedDropped _ | Compacted => v
  end.

Definition view (p : VolumePhase) (l : list Event) : View := foldr view_step (start_view p) l.

Section spec.
Context `{Unicode, Hasher} {W : Type} {Wn : Win W} {WO : WinOk W}.

Definition allowed (e : Event) (v : View) : Prop :=
  match e with
  | PhaseSet p => p = Live -> is_Some (v_position v)
  | BuildBegan => is_Some (v_asked v) /\ v_charges v <= MAX_RESCANS /\ v_builds v < v_charges v + 2
  | Published j _ => v_building v = Some j
  | Charged n _ => n = v_charges v + 1 /\ n <= MAX_RESCANS + 1
  | ReadAt s id => v_position v = Some (id, s) /\ v_phase v = v_tracking v /\ v_looked v = true
  | Consumed id s n records => v_position v = Some (id, s) /\ (s <= n)%Z /\ records = between (journal id) s n
  | Slept d => v_slept v + d <= RETRY_BACKOFF_MAX
  | _ => True
  end.

Fixpoint legal (p : VolumePhase) (l : list Event) : Prop :=
  match l with [] => True | e :: l => legal p l /\ allowed e (view p l) end.

(** What each event does to the index. *)
Definition index_step (e : Event) (i : VolumeIndex) : option VolumeIndex :=
  match e with
  | Published _ i' => Some i'
  | Consumed _ _ _ (r :: rs) => snd <$> apply_batch (r :: rs) i
  | Statted stats => snd <$> set_stats stats i
  | Reconciled walked => snd <$> apply_link_walks walked i
  | NotedDropped n => snd <$> note_link_reconciles_dropped n i
  | Compacted => plan ← plan_compaction i; plan ← plan; snd <$> apply_compaction plan i
  | _ => Some i
  end.

Definition index_after (i : VolumeIndex) (l : list Event) : option VolumeIndex := foldr (fun e o => o ≫= index_step e) (Some i) l.

(** The records a trace consumed since its last publication, oldest first, with
    the cursor published. *)
Fixpoint stretch (l : list Event) : option (JournalInfo * list ParsedUsnRecord) :=
  match l with
  | [] => None
  | Published j _ :: _ => (fun c => (c, [])) <$> cursor j
  | Consumed _ _ _ records :: l => '(c, past) ← stretch l; Some (c, past ++ records)
  | _ :: l => stretch l
  end.
End spec.
