(* ===== verification/TailOk.v ===== *)
(** The thread of a tail keeps to the language of [TailSpec]: every step it takes
    is allowed, whatever Windows answers and however long it has run. *)

From stdpp Require Import gmap.
From stdpp Require Import base option list.
From Stdlib Require Import NArith ZArith Lia.
From S2P Require Import Prelude Types Fold NameStore Volume Server Pulse UsnOps UsnRecord Winfs Bootstrap Tail TailSpec.
Open Scope N_scope.
Open Scope list_scope.

(** Partial correctness: what is true of the result when there is one. *)
Definition pwp {S A} (m : ST S A) (Q : A -> S -> Prop) (s : S) : Prop := match m s with Some (a, s') => Q a s' | None => True end.

Lemma pwp_ret {S A} (a : A) Q (s : S) : Q a s -> pwp (st_ret a) Q s.
Proof. done. Qed.

Lemma pwp_bind {S A B} (m : ST S A) (f : A -> ST S B) Q s : pwp m (fun a => pwp (f a) Q) s -> pwp (st_bind m f) Q s.
Proof. unfold pwp, st_bind. destruct (m s) as [[a s1]|]; done. Qed.

Lemma pwp_mono {S A} (m : ST S A) (Q R : A -> S -> Prop) s : pwp m Q s -> (forall a s', Q a s' -> R a s') -> pwp m R s.
Proof. unfold pwp. destruct (m s) as [[a s']|]; auto. Qed.

Lemma pwp_read {S A} (f : S -> option A) Q s : (forall a, f s = Some a -> Q a s) -> pwp (st_read f) Q s.
Proof. intros HQ. unfold pwp, st_read. destruct (f s) as [a|] eqn:E; [by apply HQ|done]. Qed.

Lemma pwp_run {S A} (m : ST S A) Q s a s' : pwp m Q s -> m s = Some (a, s') -> Q a s'.
Proof. unfold pwp. intros Hm E. by rewrite E in Hm. Qed.

(** A task: [I] when its turns are used up, [R] of its result otherwise. *)
Definition ends {S A} (I : S -> Prop) (R : A -> S -> Prop) (o : option A) (s : S) : Prop := match o with Some a => R a s | None => I s end.

Lemma pwp_task {S A B} (m : Task S A) (f : A -> Task S B) I R s :
  pwp m (ends I (fun a => pwp (f a) (ends I R))) s -> pwp (t_bind m f) (ends I R) s.
Proof. intros Hm. apply pwp_bind. eapply pwp_mono; [exact Hm|]. by intros [a|] s'. Qed.

Section ok.
Context `{Unicode, Hasher} {W : Type} {Wn : Win W} {WO : WinOk W} {Al : Allocator} {Ft : FailText}.
Variables (v0 : VolumeIndex) (p0 : VolumePhase).

Abbreviation T := (Tail W).
Abbreviation seen := (fun t : T => view p0 (trace t)).

(** What holds at every moment of a run. *)
Record running (t : T) : Prop := {
  r_legal : legal p0 (trace t);
  r_index : index_after v0 (trace t) = Some (index (state t));
  r_phase : v_phase (view p0 (trace t)) = phase (state t)
}.

(** *** Steps *)

Lemma ask_ok {A} (f : W -> A * W) Q t :
  running t -> (forall t', running t' -> trace t' = trace t -> world t' = (f (world t)).2 -> Q (f (world t)).1 t') -> pwp (ask f) Q t.
Proof.
  intros [Hl Hi Hp] HQ. unfold pwp, ask. destruct (f (world t)) as [a w]. apply HQ; [by split|done|done].
Qed.

Lemma ask_st_ok {A} (m : ST W A) Q t :
  running t -> (forall a t', running t' -> trace t' = trace t -> Q a t') -> pwp (ask_st m) Q t.
Proof.
  intros [Hl Hi Hp] HQ. unfold pwp, ask_st, st_zoom. destruct (m (world t)) as [[a w]|]; [|done]. apply HQ; [by split|done].
Qed.

(** An event that leaves the index and the phase alone. *)
Definition plain (e : Event) : Prop := (forall i, index_step e i = Some i) /\ (forall v, v_phase (view_step e v) = v_phase v).

Lemma event_ok e Q t :
  running t -> plain e -> allowed e (seen t) ->
  (forall t', running t' -> trace t' = e :: trace t -> world t' = world t -> Q tt t') -> pwp (event e) Q t.
Proof.
  intros [Hl Hi Hp] [Pi Pp] Ha HQ. apply HQ; [|done..]. split; cbn; [done| |].
  - change (index_after v0 (trace t) ≫= index_step e = Some (index (state t))). rewrite Hi. apply Pi.
  - by rewrite Pp.
Qed.

Lemma stamp_ok word Q t :
  running t -> (forall t' x, running t' -> trace t' = Stamped x :: trace t -> world t' = world t -> Q tt t') -> pwp (stamp word) Q t.
Proof.
  intros [Hl Hi Hp] HQ. eapply HQ; [|done..]. split; cbn; [done| |done].
  change (index_after v0 (trace t) ≫= Some = Some (index (state t))). by rewrite Hi.
Qed.

Lemma set_phase_ok p Q t :
  running t -> (p = Live -> is_Some (v_position (seen t))) ->
  (forall t', running t' -> trace t' = PhaseSet p :: trace t -> world t' = world t -> Q tt t') -> pwp (set_phase p) Q t.
Proof.
  intros [Hl Hi Hp] Ha HQ. eapply HQ; [|done..]. split; cbn; [done| |done].
  change (index_after v0 (trace t) ≫= Some = Some (index (state t))). by rewrite Hi.
Qed.

Lemma stopping_ok Q t :
  running t ->
  (forall t', running t' -> trace t' = trace t -> world t' = (stopped (world t)).2 -> Q false t') ->
  (forall t', running t' -> trace t' = SawStop :: trace t -> Q true t') -> pwp stopping Q t.
Proof.
  intros Hr H1 H2. apply pwp_bind, ask_ok; [done|]. intros t1 Hr1 E1 Ew1. destruct (stopped (world t)).1.
  - apply pwp_bind, event_ok; [done..|]. intros t2 Hr2 E2 _. apply H2; [done|]. by rewrite E2, E1.
  - by apply H1.
Qed.

(** A step of the index and the event that records it. *)
Lemma index_event_ok {A B} (m : ST VolumeIndex A) e (k : A -> ST T B) Q t :
  running t -> (forall a i, m (index (state t)) = Some (a, i) -> index_step e (index (state t)) = Some i) ->
  (forall v, v_phase (view_step e v) = v_phase v) -> allowed e (seen t) ->
  (forall a t', running t' -> trace t' = e :: trace t -> pwp (k a) Q t') ->
  pwp (a <- on_index m ;; event e ;;; k a) Q t.
Proof.
  intros [Hl Hi Hp] Hm Hv Ha HQ. unfold pwp, st_bind, on_index, st_zoom, event, st_modify.
  destruct (m (index (state t))) as [[a i]|] eqn:E; [|done]. apply HQ; [|done]. split; cbn; [done| |by rewrite Hv].
  change (index_after v0 (trace t) ≫= index_step e = Some i). rewrite Hi. cbn. by eapply Hm.
Qed.

(** *** Sleeping *)

(** The same but for sleep and the stop flag. *)
Record rested (v v' : View) : Prop := {
  rs_position : v_position v' = v_position v;
  rs_asked : v_asked v' = v_asked v;
  rs_building : v_building v' = v_building v;
  rs_phase : v_phase v' = v_phase v;
  rs_tracking : v_tracking v' = v_tracking v;
  rs_first : v_first v' = v_first v;
  rs_looked : v_looked v' = v_looked v;
  rs_charges : v_charges v' = v_charges v;
  rs_builds : v_builds v' = v_builds v
}.

Lemma rested_refl v : rested v v.
Proof. done. Qed.

Lemma rested_trans v1 v2 v3 : rested v1 v2 -> rested v2 v3 -> rested v1 v3.
Proof. intros [] []. split; congruence. Qed.

Lemma sleep_for_ok d Q t :
  running t -> v_slept (seen t) + d <= RETRY_BACKOFF_MAX ->
  (forall t', running t' -> trace t' = Slept d :: trace t -> world t' = sleep d (world t) -> Q tt t') -> pwp (sleep_for d) Q t.
Proof.
  intros Hr Hd HQ. apply pwp_bind, ask_ok; [done|]. intros t1 Hr1 E1 Ew1. apply event_ok; [done..|by rewrite E1|].
  intros t2 Hr2 E2 Ew2. apply HQ; [done|by rewrite E2, E1|by rewrite Ew2, Ew1].
Qed.

Lemma nap_ok turns : forall deadline t,
  running t -> v_slept (seen t) + (deadline - time (world t)) <= RETRY_BACKOFF_MAX ->
  pwp (nap turns deadline) (ends running (fun _ t' => running t' /\ rested (seen t) (seen t'))) t.
Proof.
  induction turns as [|turns IH]; intros deadline t Hr Hs; [done|]. cbn [nap]. apply pwp_bind, stopping_ok; [done| |].
  - intros t1 Hr1 E1 Ew1. apply pwp_bind, ask_ok; [done|]. intros t2 Hr2 E2 Ew2. rewrite now_reads.
    pose proof (stopped_time (world t)) as M1. pose proof (now_time (world t1)) as M2. rewrite <- Ew1 in M1. rewrite <- Ew2 in M2.
    destruct (N.eqb_spec (deadline - time (world t1)) 0); [apply pwp_ret; split; [done|]; by rewrite E2, E1|].
    apply pwp_bind, sleep_for_ok; [done|rewrite E2, E1; lia|]. intros t3 Hr3 E3 Ew3.
    pose proof (sleep_time (N.min (deadline - time (world t1)) 50) (world t2)) as M3. rewrite <- Ew3 in M3.
    eapply pwp_mono; [apply IH; [done|]|].
    + rewrite E3, E2, E1. cbn. fold (view p0 (trace t)). lia.
    + intros [[]|] t4; [|done]. intros [Hr4 Hv]. split; [done|]. eapply rested_trans; [|exact Hv]. by rewrite E3, E2, E1.
  - intros t1 Hr1 E1. apply pwp_ret. split; [done|]. by rewrite E1.
Qed.

Lemma sleep_ok turns total t :
  running t -> v_slept (seen t) + total <= RETRY_BACKOFF_MAX ->
  pwp (sleep_unless_stopped turns total) (ends running (fun _ t' => running t' /\ rested (seen t) (seen t'))) t.
Proof.
  intros Hr Hs. apply pwp_bind, ask_ok; [done|]. intros t1 Hr1 E1 Ew1. rewrite now_reads. pose proof (now_time (world t)) as M. rewrite <- Ew1 in M.
  eapply pwp_mono; [apply nap_ok; [done|rewrite E1; lia]|]. intros [[]|] t2; [|done]. by rewrite E1.
Qed.

(** *** The journal *)

(** The thread ends by order, or leaves the volume in a phase that says so. *)
Definition over (v : View) : Prop := v_stopped v = true \/ v_phase v = Snapshot \/ exists r, v_phase v = Failed r.

Lemma wait_out_ok turns : forall left t,
  running t ->
  pwp (wait_out turns left) (ends running (fun o t' => running t' /\ match o with Some _ => rested (seen t) (seen t') | None => over (seen t') end)) t.
Proof.
  induction turns as [|turns IH]; intros left t Hr; [done|]. cbn [wait_out]. destruct (left =? 0); [done|].
  apply pwp_bind, stamp_ok; [done|]. intros t1 x Hr1 E1 _. apply pwp_task.
  eapply pwp_mono; [apply sleep_ok; [done|]|]. { rewrite E1. cbn. lia. }
  intros [[]|] t2; [|done]. intros [Hr2 Hv2]. apply pwp_bind, stopping_ok; [done| |].
  - intros t3 Hr3 E3 _. eapply pwp_mono; [by apply IH|]. intros [[u|]|] t4; [|done..]. intros [Hr4 Hv4]. split; [done|].
    eapply rested_trans; [|exact Hv4]. rewrite E3. eapply rested_trans; [|exact Hv2]. by rewrite E1.
  - intros t3 Hr3 E3. split; [done|]. left. by rewrite E3.
Qed.

(** The same but for the phase, the sleep and what was asked. *)
Record waited (v v' : View) : Prop := {
  wa_position : v_position v' = v_position v;
  wa_tracking : v_tracking v' = v_tracking v;
  wa_charges : v_charges v' = v_charges v;
  wa_builds : v_builds v' = v_builds v
}.

Lemma ask_journal_ok Q t :
  running t -> (forall j t', running t' -> trace t' = AskedJournal j :: trace t -> Q j t') -> pwp ask_journal Q t.
Proof.
  intros Hr HQ. apply pwp_bind. cbn. apply pwp_bind, ask_st_ok; [done|]. intros j t1 Hr1 E1.
  apply pwp_bind, event_ok; [done..|]. intros t2 Hr2 E2 _. apply HQ; [done|by rewrite E2, E1].
Qed.

Lemma wait_for_journal_ok turns : forall wait w t,
  running t ->
  pwp (wait_for_journal turns wait w) (ends running (fun o t' => running t' /\
    match o with Some j => j <> Unavailable /\ v_asked (seen t') = Some j /\ waited (seen t) (seen t') | None => over (seen t') end)) t.
Proof.
  induction turns as [|turns IH]; intros wait w t Hr; [done|]. cbn [wait_for_journal]. apply pwp_bind, ask_journal_ok; [done|].
  intros j t1 Hr1 E1.
  assert (Hgot : v_asked (seen t1) = Some j /\ waited (seen t) (seen t1)) by (by rewrite E1).
  destruct j as [i| |]; [apply pwp_ret; split; [done|]; split; [done|]; exact Hgot..|].
  assert (Hoff : forall Q, (forall t2, running t2 -> waited (seen t) (seen t2) -> Q tt t2) -> pwp (st_when (negb w) (set_phase Offline)) Q t1).
  { intros Q HQ. destruct w; [apply HQ; [done|apply Hgot]|]. apply set_phase_ok; [done..|]. intros t2 Hr2 E2 _. apply HQ; [done|]. by rewrite E2, E1. }
  apply pwp_bind, Hoff. intros t2 Hr2 Hv2. apply pwp_task. eapply pwp_mono; [by apply wait_out_ok|].
  intros [[u|]|] t3; [|done..]. intros [Hr3 Hv3]. eapply pwp_mono; [by apply IH|]. intros [[j|]|] t4; [|done..].
  intros [Hr4 (Hj & Ha & Hv4)]. split; [done|]. split; [done|]. split; [done|]. destruct Hv2, Hv3, Hv4. split; congruence.
Qed.

(** *** Builds *)

Lemma build_ok turns t :
  running t -> is_Some (v_asked (seen t)) -> v_charges (seen t) <= MAX_RESCANS -> v_builds (seen t) < v_charges (seen t) + 2 ->
  pwp (build turns) (ends running (fun r t' => running t' /\
    (r = Ok None -> v_stopped (seen t') = true) /\ v_building (seen t') = v_asked (seen t) /\ v_charges (seen t') = v_charges (seen t) /\
    v_builds (seen t') = v_builds (seen t) + 1)) t.
Proof.
  intros Hr Ha Hm Hb. apply pwp_bind, event_ok; [done..|]. intros t1 Hr1 E1 _. apply pwp_task. apply ask_st_ok; [done|].
  intros [r|] t2 Hr2 E2; [|done]. destruct r as [[b|]|e].
  - apply pwp_ret. split; [done|]. by rewrite E2, E1.
  - apply pwp_bind, event_ok; [done..|]. intros t3 Hr3 E3 _. apply pwp_ret. split; [done|]. by rewrite E3, E2, E1.
  - apply pwp_ret. split; [done|]. by rewrite E2, E1.
Qed.

(** A build is published, with the cursor that was asked for before it. *)
Record published (n : N) (v : View) (j : JournalSetup) (v' : View) : Prop := {
  pu_position : v_position v' = (fun c => (journal_id c, next_usn c)) <$> cursor j;
  pu_phase : v_phase v' = built_phase j;
  pu_tracking : v_tracking v' = built_phase j;
  pu_first : v_first v' = None;
  pu_looked : v_looked v' = true;
  pu_charges : v_charges v' = v_charges v;
  pu_builds : v_builds v' = v_builds v + n
}.

Lemma on_state_publish b j Q t :
  running t -> v_building (seen t) = Some j ->
  (forall t', running t' -> trace t' = Published j (built_index b) :: trace t -> Q tt t') ->
  pwp (on_state (publish b j) ;;; event (Published j (built_index b))) Q t.
Proof. intros [Hl Hi Hp] Hb HQ. apply HQ; [|done]. split; cbn; [done| |done]. unfold index_after in Hi. by rewrite Hi. Qed.

Lemma pwp_assoc {S A B C} (m : ST S A) (f : A -> ST S B) (g : B -> ST S C) Q s :
  pwp (st_bind (st_bind m f) g) Q s -> pwp (st_bind m (fun a => st_bind (f a) g)) Q s.
Proof. unfold pwp, st_bind. by destruct (m s) as [[a s1]|]. Qed.

Lemma install_ok b j t :
  running t -> v_building (seen t) = Some j ->
  pwp (install b j) (fun c t' => running t' /\ c = cursor j /\ published 0 (seen t) j (seen t') /\ v_stopped (seen t') = v_stopped (seen t)) t.
Proof.
  intros Hr Hb. apply pwp_assoc, pwp_bind, on_state_publish; [done..|]. intros t1 Hr1 E1.
  apply pwp_bind, set_phase_ok; [done| |].
  - destruct j; [|done..]. intros _. rewrite E1. by eexists.
  - intros t2 Hr2 E2 _. apply pwp_ret. split; [done|]. split; [done|]. rewrite E2, E1. split; [|done]. split; cbn; [done..|by rewrite N.add_0_r].
Qed.

Lemma mark_failed_ok reason d t : running t -> pwp (mark_failed reason d) (fun _ t' => running t' /\ over (seen t')) t.
Proof.
  intros Hr. apply set_phase_ok; [done..|]. intros t1 Hr1 E1 _. split; [done|]. right. right. rewrite E1. by eexists.
Qed.

(** What a build of the index leaves: a cursor to go on from, or the end. *)
Definition rebuilt (n : N) (v : View) (o : option JournalInfo) (v' : View) : Prop :=
  match o with Some c => published n v (Active c) v' | None => over v' end.

Lemma rescan_ok turns reason t :
  running t -> v_charges (seen t) <= MAX_RESCANS -> v_builds (seen t) < v_charges (seen t) + 2 ->
  pwp (rescan turns reason) (ends running (fun o t' => running t' /\ rebuilt 1 (seen t) o (seen t'))) t.
Proof.
  intros Hr Hm Hb. apply pwp_task. eapply pwp_mono; [by apply wait_for_journal_ok|]. intros [[j|]|] t1; [|done..].
  intros [Hr1 (Hj & Ha & [_ _ Wc Wb])]. apply pwp_bind, stamp_ok; [done|]. intros t2 x Hr2 E2 _.
  apply pwp_task. unfold rebuild. apply pwp_bind, set_phase_ok; [done..|]. intros t3 Hr3 E3 _.
  assert (V3 : v_asked (seen t3) = Some j /\ v_charges (seen t3) = v_charges (seen t) /\ v_builds (seen t3) = v_builds (seen t)).
  { rewrite E3, E2. cbn. by rewrite <- Wc, <- Wb, <- Ha. }
  destruct V3 as (V3a & V3c & V3b).
  apply pwp_task. eapply pwp_mono; [apply build_ok; [done|by rewrite V3a|by rewrite V3c|by rewrite V3b, V3c]|]. intros [r|] t4; [|done].
  intros (Hr4 & Hstop & Hbu & Hc & Hn). rewrite V3c in Hc. rewrite V3b in Hn. rewrite V3a in Hbu.
  assert (Hend : forall o t5, running t5 -> rebuilt 1 (seen t) o (seen t5) ->
    ends running (fun c => pwp (stamp drop_busy ;;; t_ret c) (ends running (fun o t' => running t' /\ rebuilt 1 (seen t) o (seen t')))) (Some o) t5).
  { intros o t5 Hr5 Hb5. apply pwp_bind, stamp_ok; [done|]. intros t6 y Hr6 E6 _. apply pwp_ret. split; [done|]. rewrite E6. destruct o; [destruct Hb5; by split|exact Hb5]. }
  destruct r as [[b|]|e].
  - apply pwp_bind. eapply pwp_mono; [by apply install_ok|]. intros c t5 (Hr5 & -> & Hp & _). apply Hend; [done|]. destruct Hp as [P1 P2 P3 Pf Pk P4 P5].
    destruct j as [i| |]; [|right; by left|done]. split; [done..|congruence|]. rewrite P5, Hn. lia.
  - apply Hend; [done|]. left. by apply Hstop.
  - apply pwp_bind. eapply pwp_mono; [by apply mark_failed_ok|]. intros [] t5 [Hr5 Ho]. by apply Hend.
Qed.

Lemma first_build_ok turns t :
  running t -> v_builds (seen t) = 0 -> v_charges (seen t) = 0 ->
  pwp (first_build turns) (ends running (fun o t' => running t' /\
    match o with Some c => exists n, n <= 2 /\ published n (seen t) (Active c) (seen t') | None => over (seen t') end)) t.
Proof.
  intros Hr Hb Hc. apply pwp_bind, ask_journal_ok; [done|]. intros j t1 Hr1 E1. apply pwp_bind, stamp_ok; [done|]. intros t2 x Hr2 E2 _.
  apply pwp_bind, set_phase_ok; [done..|]. intros t3 Hr3 E3 _.
  assert (V3 : v_asked (seen t3) = Some j /\ v_charges (seen t3) = v_charges (seen t) /\ v_builds (seen t3) = v_builds (seen t)) by (by rewrite E3, E2, E1).
  destruct V3 as (V3a & V3c & V3b).
  apply pwp_task. eapply pwp_mono; [apply build_ok; [done|by rewrite V3a|by rewrite V3c, Hc|rewrite V3b, V3c, Hb, Hc; lia]|]. intros [r|] t4; [|done].
  intros (Hr4 & Hstop & Hbu & Hc4 & Hn). rewrite V3c in Hc4. rewrite V3b in Hn. rewrite V3a in Hbu. destruct r as [[b|]|e].
  - apply pwp_bind, stamp_ok; [done|]. intros t5 y Hr5 E5 _.
    apply pwp_bind. eapply pwp_mono; [apply install_ok; [done|by rewrite E5]|]. rewrite E5. intros c t6 (Hr6 & -> & [P1 P2 P3 Pf Pk P4 P5] & _).
    cbn in P4, P5. fold (view p0 (trace t4)) in P4, P5. destruct j as [i| |].
    + split; [done|]. exists 1. split; [lia|]. split; [done..|congruence|]. rewrite P5. rewrite Hn. lia.
    + split; [done|]. right. by left.
    + eapply pwp_mono; [apply rescan_ok; [done|by rewrite P4, Hc4, Hc|]|]. { rewrite P4, P5, Hc4, Hn, Hb, Hc. lia. }
      intros [[c|]|] t7; [|done..]. intros (Hr7 & [R1 R2 R3 Rf Rk R4 R5]). split; [done|]. exists 2. split; [lia|]. split; [done..|congruence|].
      rewrite R5, P5, Hn, Hb. lia.
  - apply pwp_bind, stamp_ok; [done|]. intros t5 y Hr5 E5 _. apply pwp_ret. split; [done|]. left. rewrite E5. cbn. by apply Hstop.
  - apply pwp_bind. eapply pwp_mono; [by apply mark_failed_ok|]. intros [] t5 [Hr5 Ho].
    apply pwp_bind, stamp_ok; [done|]. intros t6 y Hr6 E6 _. apply pwp_ret. split; [done|]. by rewrite E6.
Qed.

(** *** After a batch *)

Lemma rested_step e v v' : rested v v' -> (forall w, rested w (view_step e w)) -> rested v (view_step e v').
Proof. intros Hv He. eapply rested_trans; [exact Hv|apply He]. Qed.

Lemma gather_stats_ok frns : forall t, running t -> pwp (gather_stats frns) (fun _ t' => running t' /\ rested (seen t) (seen t')) t.
Proof.
  induction frns as [|frn frns IH]; intros t Hr; [done|]. cbn [gather_stats]. apply pwp_bind, stopping_ok; [done| |].
  - intros t1 Hr1 E1 _. apply pwp_bind, stamp_ok; [done|]. intros t2 x Hr2 E2 _. apply pwp_bind, ask_ok; [done|]. intros t3 Hr3 E3 _.
    apply pwp_bind. eapply pwp_mono; [by apply IH|]. intros l t4 [Hr4 Hv]. apply pwp_ret. split; [done|].
    eapply rested_trans; [|exact Hv]. by rewrite E3, E2, E1.
  - intros t1 Hr1 E1. apply pwp_ret. split; [done|]. by rewrite E1.
Qed.

Lemma step_last (m : ST VolumeIndex unit) e (Q : unit -> T -> Prop) t :
  running t -> (forall a i, m (index (state t)) = Some (a, i) -> index_step e (index (state t)) = Some i) ->
  (forall v, v_phase (view_step e v) = v_phase v) -> allowed e (seen t) ->
  (forall t', running t' -> trace t' = e :: trace t -> Q tt t') -> pwp (on_index m ;;; event e) Q t.
Proof.
  intros Hr Hm Hv Ha HQ. assert (Hb : pwp (a <- on_index m ;; event e ;;; st_ret tt) Q t).
  { apply index_event_ok; [done..|]. intros [] t' Hr' E'. by apply HQ. }
  unfold pwp, st_bind in *. destruct (on_index m t) as [[[] t1]|]; [|done]. exact Hb.
Qed.

Lemma enrich_stats_ok frns t : running t -> pwp (enrich_stats frns) (fun _ t' => running t' /\ rested (seen t) (seen t')) t.
Proof.
  intros Hr. apply pwp_bind. eapply pwp_mono; [by apply gather_stats_ok|]. intros stats t1 [Hr1 Hv1].
  apply step_last; [done| |done..|].
  - intros a i E. cbn. by rewrite E.
  - intros t2 Hr2 E2. split; [done|]. by rewrite E2.
Qed.

Lemma compact_index_ok t : running t -> pwp compact_index (fun _ t' => running t' /\ rested (seen t) (seen t')) t.
Proof.
  intros Hr. apply pwp_bind, pwp_read. intros [plan|] Hp; [|done]. apply step_last; [done| |done..|].
  - intros a i E. cbn. rewrite Hp. cbn. by rewrite E.
  - intros t2 Hr2 E2. split; [done|]. by rewrite E2.
Qed.

(** While files are walked. *)
Definition walking (v : View) (s : N * T) : Prop := running s.2 /\ rested v (seen s.2).

Lemma walk_one_ok turns frn v s : walking v s -> pwp (walk_one turns frn) (fun _ => walking v) s.
Proof.
  destruct s as [d t]. intros [Hr Hv]. cbn in Hr, Hv. unfold pwp, walk_one. 
  pose proof (stopping_ok (fun b t1 => running t1 /\ rested v (seen t1) /\ (b = true \/ b = false)) t Hr) as Hs.
  unfold pwp in Hs. destruct (stopping t) as [[stop t1]|]; [|done]. cbn. destruct Hs as (Hr1 & Hv1 & _).
  { intros t' Hr' E' _. rewrite E'. auto. }
  { intros t' Hr' E'. rewrite E'. split; [done|]. split; [|auto]. by apply rested_step. }
  destruct stop; [done|]. unfold beat_now, stamp, st_modify. cbn.
  assert (Hr2 : forall w, running {| world := w; state := state t1; pulse := beat (awake (world t1)); trace := Stamped (beat (awake (world t1))) :: trace t1 |}).
  { intros w. destruct Hr1 as [Hl Hi Hp]. split; cbn; [done| |done]. unfold index_after in Hi. by rewrite Hi. }
  destruct (link_paths turns frn (world t1)) as [[r w]|]; [|split; [apply Hr2|by apply rested_step]].
  destruct r as [[[|l ls]|]|e]; (split; [apply Hr2|by apply rested_step]).
Qed.

Lemma walk_each_once_ok {S} (P : S -> Prop) (walk : N -> Task S (option (option LinkPaths))) frns : forall walks s,
  (forall frn s, P s -> pwp (walk frn) (fun _ => P) s) -> P s -> pwp (walk_each_once walk frns walks) (fun _ => P) s.
Proof.
  induction frns as [|frn frns IH]; intros walks s Hw Hs; [done|]. cbn [walk_each_once]. destruct (walks !! frn); [by apply IH|].
  apply pwp_bind. eapply pwp_mono; [by apply Hw|]. intros [[links|]|] s1 Hs1; [by apply IH|done..].
Qed.

Lemma walk_batch_ok turns frns t : running t -> pwp (walk_batch turns frns) (fun _ t' => running t' /\ rested (seen t) (seen t')) t.
Proof.
  intros Hr. assert (Hw : pwp (walk_each_once (walk_one turns) frns ∅) (fun _ => walking (seen t)) (0, t)).
  { apply walk_each_once_ok; [|split; [done|apply rested_refl]]. intros frn s. apply walk_one_ok. }
  unfold pwp, walk_batch in *. by destruct (walk_each_once (walk_one turns) frns ∅ (0, t)) as [[r [dropped t1]]|].
Qed.

Lemma reconcile_walked_ok walked dropped t : running t -> pwp (reconcile_walked walked dropped) (fun _ t' => running t' /\ rested (seen t) (seen t')) t.
Proof.
  intros Hr. unfold reconcile_walked. destruct (negb _); [|done]. cbn [st_when].
  apply index_event_ok; [done|intros a i E; unfold index_step; by rewrite E|done..|]. intros more t2 Hr2 E2. cbn zeta.
  destruct (0 <? dropped + more); cbn [st_when].
  - apply step_last; [done|intros a i E; unfold index_step; by rewrite E|done..|]. intros t3 Hr3 E3. split; [done|]. by rewrite E3, E2.
  - apply pwp_ret. split; [done|]. by rewrite E2.
Qed.

Lemma reconcile_batch_ok turns frns t :
  running t -> pwp (reconcile_batch turns frns) (ends running (fun _ t' => running t' /\ rested (seen t) (seen t'))) t.
Proof.
  intros Hr. apply pwp_bind. eapply pwp_mono; [by apply walk_batch_ok|]. intros [[[walks|]|] dropped] t1 [Hr1 Hv1]; [|done..].
  apply pwp_bind. eapply pwp_mono; [by apply reconcile_walked_ok|]. intros [] t2 [Hr2 Hv2]. apply pwp_ret. split; [done|]. by eapply rested_trans.
Qed.

(** *** The loop *)

(** What the loop's variables say, at the top of a turn. *)
Record tracks (l : Loop) (v : View) : Prop := {
  tr_position : v_position v = Some (lp_journal l, start_usn l);
  tr_phase : v_phase v = v_tracking v;
  tr_tracking : v_tracking v = if degraded l then Offline else Live;
  tr_since : v_first v = failing_since l;
  tr_charges : v_charges v = rescans l;
  tr_rescans : rescans l <= MAX_RESCANS;
  tr_builds : v_builds v <= rescans l + 2;
  tr_backoff : backoff l <= RETRY_BACKOFF_MAX
}.

(** The same, after a look at the clock or a success. *)
Definition poised (l : Loop) (v : View) : Prop := tracks l v /\ v_looked v = true.

Lemma tracks_from n v c v' : published n v (Active c) v' -> v_charges v <= MAX_RESCANS -> v_builds v + n <= v_charges v + 2 -> poised (loop_from (v_charges v) c) v'.
Proof.
  intros [P1 P2 P3 Pf Pk P4 P5] Hc Hb. split; [|done]. split; cbn; [done|congruence|done|done|done|done|lia|by vm_compute].
Qed.

(** The loop goes on, or is over. *)
Definition turned (o : option Loop) (v : View) : Prop := match o with Some l => poised l v | None => over v end.

Lemma rescan_and_go_on_ok turns l reason d t :
  running t -> v_charges (seen t) = rescans l -> rescans l <= MAX_RESCANS -> v_builds (seen t) <= rescans l + 2 ->
  pwp (rescan_and_go_on turns l reason d) (ends running (fun o t' => running t' /\ turned o (seen t'))) t.
Proof.
  intros Hr Hc Hl Hb. apply pwp_task. unfold bounded_rescan. apply pwp_bind, event_ok; [done..| |].
  { cbn. rewrite Hc. split; [done|lia]. }
  intros t1 Hr1 E1 _. destruct (N.ltb_spec MAX_RESCANS (rescans l + 1)) as [Hm|Hm].
  - apply pwp_bind. eapply pwp_mono; [by apply mark_failed_ok|]. intros [] t2 [Hr2 Ho]. by apply pwp_ret.
  - assert (V1 : v_charges (seen t1) = rescans l + 1 /\ v_builds (seen t1) = v_builds (seen t)) by (by rewrite E1).
    destruct V1 as [V1c V1b]. apply pwp_task. eapply pwp_mono; [apply rescan_ok; [done|by rewrite V1c|rewrite V1c, V1b; lia]|].
    intros [[c|]|] t2; [|done..]. intros [Hr2 Hp]. split; [done|]. cbn [fst snd]. rewrite <- V1c.
    eapply tracks_from; [exact Hp|lia|lia].
Qed.

Lemma at_look Q t :
  running t ->
  (forall t', running t' -> trace t' = Looked (time (world t)) :: trace t -> time (world t) <= time (world t') -> Q (time (world t)) t') -> pwp look Q t.
Proof.
  intros Hr HQ. apply pwp_bind, ask_ok; [done|]. intros t1 Hr1 E1 Ew1. rewrite now_reads. pose proof (now_time (world t)) as M. rewrite <- Ew1 in M.
  apply pwp_bind, event_ok; [done..|]. intros t2 Hr2 E2 Ew2. apply pwp_ret, HQ; [done|by rewrite E2, E1|by rewrite Ew2].
Qed.

(** After the look [u] of a failed read: the phase of before, and whether that
    look found the streak five seconds old. *)
Record failing (l : Loop) (since u : N) (v : View) : Prop := {
  fa_position : v_position v = Some (lp_journal l, start_usn l);
  fa_phase : v_phase v = if degraded l then Offline else Live;
  fa_tracking : v_tracking v = if degraded l then Offline else if DEGRADE_AFTER <=? u - since then Offline else Live;
  fa_first : v_first v = Some since;
  fa_looked : v_looked v = true;
  fa_charges : v_charges v = rescans l;
  fa_rescans : rescans l <= MAX_RESCANS;
  fa_builds : v_builds v <= rescans l + 2;
  fa_backoff : backoff l <= RETRY_BACKOFF_MAX
}.

Lemma retry_later_ok turns l since u t :
  running t -> failing l since u (seen t) -> u <= time (world t) -> v_slept (seen t) = 0 ->
  pwp (retry_later turns l since) (ends running (fun l' t' => running t' /\ poised l' (seen t'))) t.
Proof.
  intros Hr Hf Hu Hs. apply pwp_bind.
  set (Q := fun (degrade : bool) t1 => running t1 /\ v_slept (seen t1) = 0 /\ v_looked (seen t1) = true /\
    tracks {| rescans := rescans l; start_usn := start_usn l; lp_journal := lp_journal l; failing_since := Some since;
              backoff := N.min (backoff l * 2) RETRY_BACKOFF_MAX; degraded := degraded l || degrade |} (view_step (PhaseSet (if degraded l || degrade then Offline else Live)) (seen t1)) /\
    (degrade = false -> v_phase (seen t1) = if degraded l then Offline else Live)).
  assert (HQ : pwp (if degraded l then st_ret false else x <- look ;; st_ret (DEGRADE_AFTER <=? x - since)) Q t).
  { destruct Hf as [P1 P2 P3 P4 Pk P5 P6 P7 P8]. destruct (degraded l) eqn:Ed.
    - apply pwp_ret. unfold Q. cbn. split_and!; [done|done|done| |done]. split; cbn; [done|done|done|done|done|done|done|lia].
    - apply pwp_bind, at_look; [done|]. intros t1 Hr1 E1 M1. apply pwp_ret. unfold Q. cbn [orb]. rewrite E1. do 3 (split; [done|]).
      cbn. fold (view p0 (trace t)). rewrite P4. cbn. unfold tracking_after. split; [|by intros _].
      assert (Hor : (DEGRADE_AFTER <=? time (world t) - since) = false -> (DEGRADE_AFTER <=? u - since) = false) by (rewrite !N.leb_gt; lia).
      destruct (DEGRADE_AFTER <=? time (world t) - since) eqn:Eg; split; cbn; try done; try lia; rewrite P3, Hor; done. }
  eapply pwp_mono; [exact HQ|]. intros degrade t1 (Hr1 & Hs1 & Hk1 & Ht1 & Hph).
  assert (Hset : pwp (st_when degrade (set_phase Offline)) (fun _ t2 => running t2 /\ v_slept (seen t2) = 0 /\ v_looked (seen t2) = true /\
      tracks {| rescans := rescans l; start_usn := start_usn l; lp_journal := lp_journal l; failing_since := Some since;
                backoff := N.min (backoff l * 2) RETRY_BACKOFF_MAX; degraded := degraded l || degrade |} (seen t2)) t1).
  { destruct degrade.
    - apply set_phase_ok; [done..|]. intros t2 Hr2 E2 _. rewrite E2. do 3 (split; [done|]). rewrite orb_true_r in Ht1 |- *. exact Ht1.
    - apply pwp_ret. do 3 (split; [done|]). rewrite orb_false_r in *. destruct Ht1 as [P1 P2 P3 P4 P5 P6 P7 P8]. cbn in *. split; cbn; try done. by rewrite Hph. }
  apply pwp_bind. eapply pwp_mono; [exact Hset|]. intros [] t2 (Hr2 & Hs2 & Hk2 & [Q1 Q2 Q3 Qf Q4 Q5 Q6 Q7]). apply pwp_task.
  eapply pwp_mono; [apply sleep_ok; [done|]|]. { rewrite Hs2. destruct Hf. lia. }
  intros [[]|] t3; [|done]. intros [Hr3 [V1 V2 V3 V4 V5 Vf Vk V6 V7]]. apply pwp_ret. split; [done|]. split; [|congruence]. split; cbn in *; congruence.
Qed.

Lemma read_failed_ok turns l e t :
  running t -> tracks l (seen t) -> v_slept (seen t) = 0 ->
  pwp (read_failed turns l e) (ends running (fun o t' => running t' /\ turned o (seen t'))) t.
Proof.
  intros Hr Ht Hs. assert (Hre : forall t1 reason d, running t1 -> v_charges (seen t1) = rescans l -> v_builds (seen t1) <= rescans l + 2 ->
    pwp (rescan_and_go_on turns l reason d) (ends running (fun o t' => running t' /\ turned o (seen t'))) t1).
  { intros t1 reason d Hr1 E1 E2. apply rescan_and_go_on_ok; [done|done|apply Ht|done]. }
  unfold read_failed. do 3 (destruct (code e =? _); [by apply Hre; [|apply Ht..]|]).
  set (ask_since := match failing_since l with Some since => st_ret since | None => look end).
  assert (Hsince : forall Q, (forall since t1, running t1 -> v_slept (seen t1) = 0 ->
      tracks {| rescans := rescans l; start_usn := start_usn l; lp_journal := lp_journal l; failing_since := Some since; backoff := backoff l; degraded := degraded l |} (seen t1) ->
      Q since t1) -> pwp ask_since Q t).
  { intros Q HQ. unfold ask_since. destruct Ht as [P1 P2 P3 P4 P5 P6 P7 P8]. destruct (failing_since l) as [since|]; [by apply pwp_ret, HQ|].
    apply at_look; [done|]. intros t1 Hr1 E1 _. apply HQ; [done|by rewrite E1|]. rewrite E1. cbn. fold (view p0 (trace t)).
    split; cbn; fold (view p0 (trace t)); rewrite ?P4; cbn; try done; unfold tracking_after; by rewrite N.sub_diag. }
  apply pwp_bind, Hsince. intros since t1 Hr1 Hs1 Ht1. apply pwp_bind, at_look; [done|]. intros t2 Hr2 E2 M2.
  destruct Ht1 as [P1 P2 P3 P4 P5 P6 P7 P8]. cbn in P1, P2, P3, P4, P5, P6, P7, P8.
  destruct (_ <=? _); [apply Hre; [done|by rewrite E2..]|].
  apply pwp_task. eapply pwp_mono; [apply (retry_later_ok _ _ _ (time (world t1))); [done| |done|by rewrite E2]|by intros [l'|] t3].
  rewrite E2. split; cbn; fold (view p0 (trace t1)); rewrite ?P4; cbn; try done; [congruence|]. unfold tracking_after. rewrite P3. by destruct (degraded l), (_ <=? _).
Qed.

Lemma apply_walk_ok turns l walk t :
  running t -> v_position (seen t) = Some (lp_journal l, start_usn l) -> v_phase (seen t) = Live -> v_slept (seen t) = 0 ->
  v_charges (seen t) = rescans l -> rescans l <= MAX_RESCANS -> v_builds (seen t) <= rescans l + 2 ->
  (start_usn l <= UsnRecord.next_usn walk)%Z -> journal_records walk = between (journal (lp_journal l)) (start_usn l) (UsnRecord.next_usn walk) ->
  pwp (apply_walk turns l walk) (ends running (fun l' t' => running t' /\ poised l' (seen t'))) t.
Proof.
  intros Hr Hp Hph Hs Hc Hl Hb Hn Hrec. unfold apply_walk. destruct (journal_records walk) as [|r rs].
  - apply pwp_bind, event_ok; [done..|]. intros t1 Hr1 E1 _. apply pwp_bind, sleep_for_ok; [done|rewrite E1; cbn; fold (view p0 (trace t)); by rewrite Hs|].
    intros t2 Hr2 E2 _. apply pwp_ret. split; [done|]. rewrite E2, E1. by split.
  - apply index_event_ok; [done|intros a i E; unfold index_step; by rewrite E|done..|]. intros out t1 Hr1 E1.
    apply pwp_bind. eapply pwp_mono; [by apply enrich_stats_ok|]. intros [] t2 [Hr2 V2].
    apply pwp_task. eapply pwp_mono; [by apply reconcile_batch_ok|]. intros [[]|] t3; [|done]. intros [Hr3 V3].
    assert (Hk : pwp (st_when (wants_compact out) compact_index) (fun _ t' => running t' /\ rested (seen t3) (seen t')) t3).
    { destruct (wants_compact out); [by apply compact_index_ok|by apply pwp_ret]. }
    apply pwp_bind. eapply pwp_mono; [exact Hk|]. intros [] t4 [Hr4 V4]. apply pwp_ret. split; [done|].
    pose proof (rested_trans _ _ _ V2 (rested_trans _ _ _ V3 V4)) as [R1 R2 R3 R4 R5 Rf Rk R6 R7]. rewrite E1 in *.
    split; [|by rewrite Rk]. split; [done|by rewrite R4, R5|by rewrite R5|by rewrite Rf|by rewrite R6|done|by rewrite R7|by vm_compute].
Qed.

Lemma turn_ok turns l t :
  running t -> poised l (seen t) -> pwp (turn turns l) (ends running (fun o t' => running t' /\ turned o (seen t'))) t.
Proof.
  intros Hr [Ht Hk]. apply pwp_bind, stopping_ok; [done| |].
  2: { intros t1 Hr1 E1. apply pwp_ret. split; [done|]. left. by rewrite E1. }
  intros t1 Hr1 E1 _. apply pwp_bind, stamp_ok; [done|]. intros t2 x Hr2 E2 _.
  apply pwp_bind, event_ok; [done..| |]. { rewrite E2, E1. split; [apply (tr_position _ _ Ht)|]. split; [apply (tr_phase _ _ Ht)|exact Hk]. }
  intros t3 Hr3 E3 _. assert (V3 : tracks l (seen t3) /\ v_slept (seen t3) = 0).
  { rewrite E3, E2, E1. split; [|done]. destruct Ht. by split. }
  destruct V3 as [Ht3 Hs3]. destruct Ht as [].
  apply pwp_bind. unfold pwp at 1, ask. destruct (read_usn_journal _ _ _ _ _ (world t3)) as [r w] eqn:Eread.
  set (t4 := {| world := w; state := state t3; pulse := pulse t3; trace := trace t3 |}).
  assert (Hr4 : running t4) by (by destruct Hr3). destruct r as [buf|e]; [|by apply read_failed_ok].
  assert (Hset : pwp (st_when (degraded l) (set_phase Live)) (fun _ t5 => running t5 /\ v_phase (seen t5) = Live /\ v_position (seen t5) = v_position (seen t3) /\
     v_slept (seen t5) = 0 /\ v_charges (seen t5) = rescans l /\ v_builds (seen t5) <= rescans l + 2) t4).
  { destruct Ht3 as [P1 P2 P3 Pf P4 P5 P6 P7]. destruct (degraded l).
    - apply set_phase_ok; [done| |]. { intros _. exists (lp_journal l, start_usn l). exact P1. }
      intros t5 Hr5 E5 _. by rewrite E5.
    - apply pwp_ret. split_and!; [done|exact (eq_trans P2 P3)|done..]. }
  apply pwp_bind. eapply pwp_mono; [exact Hset|]. intros [] t5 (Hr5 & Hp5 & Hpos5 & Hs5 & Hc5 & Hb5). rewrite (tr_position _ _ Ht3) in Hpos5.
  apply pwp_bind, pwp_read. intros [walk|e] Hwalk; [|by apply rescan_and_go_on_ok].
  destruct (read_slice _ _ _ _ _ _ Eread Hwalk) as [Hn Hrec].
  apply pwp_task. eapply pwp_mono; [by apply apply_walk_ok|]. by intros [l'|] t6.
Qed.

Lemma turns_ok turns n : forall l t,
  running t -> poised l (seen t) -> pwp (turns_of turns n l) (ends running (fun _ t' => running t' /\ over (seen t'))) t.
Proof.
  induction n as [|n IH]; intros l t Hr Ht; [done|]. cbn [turns_of]. apply pwp_task. eapply pwp_mono; [by apply turn_ok|].
  intros [[l'|]|] t1; [|done..]. intros [Hr1 Ht1]. by apply IH.
Qed.

Lemma tail_loop_ok turns n t : running t -> trace t = [] -> pwp (tail_loop turns n) (ends running (fun _ t' => running t' /\ over (seen t'))) t.
Proof.
  intros Hr Et. assert (V : v_builds (seen t) = 0 /\ v_charges (seen t) = 0) by (by rewrite Et). destruct V as [Vb Vc].
  apply pwp_bind. cbn. apply pwp_task. destruct (indexed (state t)).
  - eapply pwp_mono; [apply rescan_ok; [done|by rewrite Vc|lia]|]. intros [[c|]|] t1; [|done..]. intros [Hr1 Hp].
    apply turns_ok; [done|]. rewrite <- Vc. eapply tracks_from; [exact Hp|lia|lia].
  - eapply pwp_mono; [by apply first_build_ok|]. intros [[c|]|] t1; [|done..]. intros [Hr1 (k & Hk & Hp)].
    apply turns_ok; [done|]. rewrite <- Vc. eapply tracks_from; [exact Hp|lia|lia].
Qed.

Lemma thread_ok turns n t : running t -> trace t = [] -> pwp (thread turns n) (ends running (fun _ t' => running t' /\ over (seen t') /\ pulse t' = drop_retire)) t.
Proof.
  intros Hr Et. apply pwp_task. eapply pwp_mono; [by apply tail_loop_ok|]. intros [[]|] t1; [|done]. intros [Hr1 Ho].
  cbv [stamp st_modify]. unfold pwp, st_bind, t_ret, st_ret. cbn. split; [|done]. destruct Hr1 as [Hl Hi Hp]. split; cbn; [done| |done].
  unfold index_after in Hi. by rewrite Hi.
Qed.
End ok.
