(* ===== verification/TailClaims.v ===== *)
(** What the language of a tail's traces promises: the journal is replayed without
    a gap, the phase tells the truth, rebuilds are bounded, and a tail that waits
    is never taken for a stuck one.  The witnesses run a tail on a small machine. *)

From Stdlib Require Import String.
From stdpp Require Import gmap.
From stdpp Require Import base option list sorting.
From Stdlib Require Import NArith ZArith Lia.
From S2P Require Import Prelude Types Fold FrnMap NameStore Volume VolumeNew Server Pulse UsnOps UsnRecord Winfs Bootstrap Tail TailSpec TailOk.
Open Scope N_scope.
Open Scope list_scope.

(** ** Reading traces *)

Lemma between_split j s m n : (s <= m <= n)%Z -> StronglySorted (fun r r' => (usn r <= usn r')%Z) j -> between j s m ++ between j m n = between j s n.
Proof.
  intros Hm Hs. induction Hs as [|r j Hs IH Hr]; [done|]. unfold between in *. rewrite !filter_cons.
  destruct (decide (usn r < m)%Z) as [Hl|Hl].
  - rewrite (decide_False (P := (m <= usn r < n)%Z)) by lia. destruct (decide (s <= usn r)%Z).
    + rewrite !decide_True by lia. cbn. by f_equal.
    + rewrite !decide_False by lia. done.
  - assert (Hnil : filter (fun r => (s <= usn r < m)%Z) j = []).
    { destruct (filter _ j) as [|r' j'] eqn:E; [done|]. assert (Hin : r' ∈ filter (fun r => (s <= usn r < m)%Z) j) by (rewrite E; by left).
      apply list_elem_of_filter in Hin as [Hr' Hin]. rewrite Forall_forall in Hr. specialize (Hr r' Hin). lia. }
    rewrite Hnil in *. rewrite (decide_False (P := (s <= usn r < m)%Z)) by lia. cbn in *. destruct (decide (usn r < n)%Z).
    + rewrite !decide_True by lia. by f_equal.
    + rewrite !decide_False by lia. done.
Qed.

Lemma between_empty j s : between j s s = [].
Proof. unfold between. induction j as [|r j IH]; [done|]. rewrite filter_cons, decide_False by lia. exact IH. Qed.

(** A read that worked, or an index published, ends a streak of failed reads. *)
Definition is_success (e : Event) : bool := match e with Consumed _ _ _ _ | Published _ _ => true | _ => false end.

(** What the clock said, newest first, at the looks since the last success. *)
Fixpoint looks (l : list Event) : list N :=
  match l with
  | [] => []
  | (Consumed _ _ _ _ | Published _ _) :: _ => []
  | Looked t :: l => t :: looks l
  | _ :: l => looks l
  end.

(** Some look came five seconds after the first one of the streak. *)
Definition aged (ts : list N) : bool := match last ts with Some t0 => existsb (fun t => DEGRADE_AFTER <=? t - t0) ts | None => false end.

Lemma last_cons_default (x : N) l : last (x :: l) = Some (default x (last l)).
Proof. rewrite last_cons. by destruct (last l). Qed.

Lemma aged_cons t ts : aged (t :: ts) = (DEGRADE_AFTER <=? t - default t (last ts)) || aged ts.
Proof. unfold aged. rewrite last_cons_default. cbn. destruct ts as [|u ts]; [done|]. by rewrite last_cons_default. Qed.

Lemma looks_first p l : v_first (view p l) = last (looks l).
Proof.
  induction l as [|e l IH]; [done|]. destruct e as [x|ph|j| |j i|n r|s id|id s n rs|sts|wk|k| |t| |d]; try exact IH; try done.
  cbn. fold (view p l). by rewrite IH, <- last_cons_default.
Qed.

Lemma looks_tracking p l : is_Some (v_position (view p l)) -> v_tracking (view p l) = if aged (looks l) then Offline else Live.
Proof.
  induction l as [|e l IH]; [by intros []|]. intros Hp.
  destruct e as [x|ph|j| |j i|n r|s id|id s n rs|sts|wk|k| |t| |d]; try exact (IH Hp); [| |].
  - cbn in *. destruct j; [done|by destruct Hp..].
  - done.
  - cbn [looks]. rewrite aged_cons. cbn. fold (view p l). rewrite looks_first. unfold tracking_after. destruct (DEGRADE_AFTER <=? _); [done|]. exact (IH Hp).
Qed.

(** A look after the last read. *)
Lemma looked_since p mid s id l :
  Forall (fun e => is_success e = false) mid -> v_looked (view p (mid ++ ReadAt s id :: l)) = true -> exists t, Looked t ∈ mid.
Proof.
  induction 1 as [|e mid He Hm IH]; [done|]. intros Hk.
  destruct e as [x|ph|j| |j i|n r|s1 id1|id1 s1 n rs|sts|wk|k| |t| |d]; try done; try (destruct (IH Hk) as [t Ht]; exists t; by right).
  exists t. left.
Qed.

Definition is_build (e : Event) : bool := match e with BuildBegan => true | _ => false end.
Definition has_records (e : Event) : bool := match e with Consumed _ _ _ (_ :: _) => true | _ => false end.
Definition is_stamp (e : Event) : bool := match e with Stamped _ => true | _ => false end.
Definition sleep_of (e : Event) : N := match e with Slept d => d | _ => 0 end.
Definition builds_in (l : list Event) : N := len (filter (fun e => is_build e = true) l).
Definition sleep_in (l : list Event) : N := foldr (fun e n => sleep_of e + n) 0 l.

Lemma builds_over p mid l : Forall (fun e => has_records e = false) mid -> v_builds (view p (mid ++ l)) = builds_in mid + v_builds (view p l).
Proof.
  induction 1 as [|e mid He Hm IH]; [done|]. unfold builds_in in *. rewrite filter_cons.
  destruct e as [x|ph|j| |j i|n r|s id|id s n [|rc rs]|sts|wk|k| |u| |d]; try exact IH; [|done].
  rewrite decide_True by done. rewrite len_cons. cbn [app view foldr view_step v_builds]. fold (view p (mid ++ l)). rewrite IH. lia.
Qed.

Lemma sleep_over p mid l : Forall (fun e => is_stamp e = false) mid -> v_slept (view p (mid ++ l)) = sleep_in mid + v_slept (view p l).
Proof.
  induction 1 as [|e mid He Hm IH]; [done|].
  destruct e as [x|ph|j| |j i|n r|s id|id s n rs|sts|wk|k| |u| |d]; try exact IH; [done|].
  cbn [app view foldr view_step v_slept sleep_in sleep_of]. fold (view p (mid ++ l)). fold (sleep_in mid). rewrite IH. lia.
Qed.

Section promises.
Context `{Unicode, Hasher} {W : Type} {Wn : Win W} {WO : WinOk W} {Al : Allocator} {Ft : FailText}.

Lemma legal_moment p later l : legal p (later ++ l) -> legal p l.
Proof. induction later as [|e later IH]; [done|]. intros [Hl _]. by apply IH. Qed.

Lemma stretch_replays p l c rs :
  legal p l -> stretch l = Some (c, rs) ->
  exists n, v_position (view p l) = Some (journal_id c, n) /\ (next_usn c <= n)%Z /\ rs = between (journal (journal_id c)) (next_usn c) n.
Proof.
  revert rs. induction l as [|e l IH]; [done|]. intros rs [Hl Ha] Hs.
  destruct e as [x|ph|j| |j i|n r|s id|id s n recs|sts|wk|k| |u| |d]; try exact (IH rs Hl Hs).
  - cbn in Hs. destruct (cursor j) as [c'|] eqn:Ej; [|done]. injection Hs as -> <-. exists (next_usn c). cbn. rewrite Ej. split; [done|]. split; [lia|].
    by rewrite between_empty.
  - cbn in Hs. destruct (stretch l) as [[c' past]|] eqn:El; [|done]. injection Hs as -> <-. destruct (IH past Hl eq_refl) as (m & Hm & Hle & ->).
    destruct Ha as (Hp & Hn & ->). rewrite Hm in Hp. injection Hp as <- <-. exists n. split; [done|]. split; [lia|]. apply between_split; [lia|apply journal_sorted].
Qed.

Lemma legal_builds p l : legal p l -> v_builds (view p l) <= MAX_RESCANS + 2.
Proof.
  induction l as [|e l IH]; [by vm_compute|]. intros [Hl Ha]. specialize (IH Hl).
  destruct e as [x|ph|j| |j i|n r|s id|id s n [|rc rs]|sts|wk|k| |u| |d]; try exact IH; [|by vm_compute].
  cbn in *. fold (view p l) in *. lia.
Qed.

Lemma legal_sleep p l : legal p l -> v_slept (view p l) <= RETRY_BACKOFF_MAX.
Proof.
  induction l as [|e l IH]; [by vm_compute|]. intros [Hl Ha]. specialize (IH Hl).
  destruct e as [x|ph|j| |j i|n r|s id|id s n rs|sts|wk|k| |u| |d]; try exact IH; [by vm_compute|exact Ha].
Qed.

Lemma run_legal turns n t o t' :
  trace t = [] -> thread turns n t = Some (o, t') ->
  running (index (state t)) (phase (state t)) t' /\ (o = Some tt -> over (view (phase (state t)) (trace t')) /\ pulse t' = drop_retire).
Proof.
  intros Et E. assert (Hr : running (index (state t)) (phase (state t)) t) by (split; by rewrite Et).
  pose proof (pwp_run _ _ _ _ _ (thread_ok (index (state t)) (phase (state t)) turns n t Hr Et) E) as Hend.
  destruct o as [[]|]; [|done]. destruct Hend as (Hr' & Ho & Hp). done.
Qed.

(** C8: a tail's thread keeps to the language of its traces, whatever Windows
    answers and however long it runs: every step was allowed when it was taken
    (a build is published only with the cursor that was asked for before it
    began; a read and a batch start where the last one ended); its index is
    exactly the last one published with the batches, stats, link sets and
    compactions of the trace applied since, and its phase is the last one set.
    A thread that ends was told to, or leaves the volume a snapshot or failed,
    and its pulse says retired. *)
Theorem tail_refines turns n t o t' :
  trace t = [] -> thread turns n t = Some (o, t') ->
  legal (phase (state t)) (trace t') /\ index_after (index (state t)) (trace t') = Some (index (state t')) /\
  v_phase (view (phase (state t)) (trace t')) = phase (state t') /\
  (o = Some tt -> over (view (phase (state t)) (trace t')) /\ load (pulse t') = Retired).
Proof.
  intros Et E. destruct (run_legal _ _ _ _ _ Et E) as [[Hl Hi Hp] Ho]. split_and!; [done..|]. intros Hd. destruct (Ho Hd) as [? ->]. split; [done|apply load_retired].
Qed.

(** C9: no journal record is missed or applied twice: at every moment of a run,
    the records consumed since an index was published with a cursor are exactly
    the records of that journal from the cursor to the position the next read
    starts at, in order. *)
Theorem replays_journal turns n t o t' later l c rs :
  trace t = [] -> thread turns n t = Some (o, t') -> trace t' = later ++ l -> stretch l = Some (c, rs) ->
  exists upto, v_position (view (phase (state t)) l) = Some (journal_id c, upto) /\ (next_usn c <= upto)%Z /\
    rs = between (journal (journal_id c)) (next_usn c) upto.
Proof.
  intros Et E El Hs. destruct (run_legal _ _ _ _ _ Et E) as [[Hl _ _] _]. rewrite El in Hl. by eapply stretch_replays; [eapply legal_moment|].
Qed.

(** C10: the phase never claims more than the thread can know: whenever it reads
    the journal, the volume is [Offline] if some look at the clock since the last
    success (a batch read or an index published) came five seconds or more after
    the first look since then, and [Live] otherwise; and no two reads follow each
    other without a success or such a look between them. *)
Theorem phase_honest turns n t o t' later l s id :
  trace t = [] -> thread turns n t = Some (o, t') -> trace t' = later ++ ReadAt s id :: l ->
  v_phase (view (phase (state t)) l) = (if aged (looks l) then Offline else Live) /\
  forall mid s' id' l', l = mid ++ ReadAt s' id' :: l' -> Forall (fun e => is_success e = false) mid -> exists u, Looked u ∈ mid.
Proof.
  intros Et E El. destruct (run_legal _ _ _ _ _ Et E) as [[Hl _ _] _]. rewrite El in Hl. apply legal_moment in Hl as [_ (Hp & -> & Hk)].
  split; [apply looks_tracking; rewrite Hp; by eexists|]. intros mid s' id' l' -> Hm. by eapply looked_since.
Qed.

(** C11: rebuilds are bounded: as long as no batch with records arrives, a tail
    reads the whole volume at most five times, two for its start and three for
    the rescans it is allowed. *)
Theorem rebuilds_bounded turns n t o t' later mid l :
  trace t = [] -> thread turns n t = Some (o, t') -> trace t' = later ++ mid ++ l -> Forall (fun e => has_records e = false) mid ->
  builds_in mid <= MAX_RESCANS + 2.
Proof.
  intros Et E El Hm. destruct (run_legal _ _ _ _ _ Et E) as [[Hl _ _] _]. rewrite El in Hl. apply legal_moment, legal_builds in Hl.
  rewrite builds_over in Hl by done. lia.
Qed.

(** C12: a tail that waits is never taken for a stuck one: the sleep it asks for
    between two stamps of its pulse is at most thirty seconds in all, and a
    supervisor that finds its last beat that old (in whole seconds) does not
    cancel its I/O. *)
Theorem waits_within_a_beat turns n t o t' later mid l at_ attempts proven snapshot secs :
  trace t = [] -> thread turns n t = Some (o, t') -> trace t' = later ++ mid ++ l -> Forall (fun e => is_stamp e = false) mid ->
  sleep_in mid <= RETRY_BACKOFF_MAX /\ assess (Beat at_) (at_ + sleep_in mid / 1000) attempts proven snapshot <> CancelIo secs.
Proof.
  intros Et E El Hm. destruct (run_legal _ _ _ _ _ Et E) as [[Hl _ _] _]. rewrite El in Hl. apply legal_moment, legal_sleep in Hl.
  rewrite sleep_over in Hl by done. assert (Hs : sleep_in mid <= RETRY_BACKOFF_MAX) by lia. split; [done|].
  unfold assess. assert (Hd : sleep_in mid / 1000 <= 30) by (apply N.Div0.div_le_upper_bound; unfold RETRY_BACKOFF_MAX in Hs; lia).
  destruct (N.leb_spec BEAT_STALL (at_ + sleep_in mid / 1000 - at_)) as [Hb|_]; [unfold BEAT_STALL in Hb; lia|]. by destruct (_ && _).
Qed.
End promises.

(** ** A small machine

    A tail is run on it: an empty volume whose journal has one record, and reads
    that fail once it is read until the stop flag is raised. *)

#[local] Existing Instance one_bucket.

Definition lab_wire : Wire :=
  {| w_ids := IdsV2; w_minor := 0; w_source := 0; w_security := 0; w_frn := 78; w_parent := NTFS_ROOT_FRN; w_usn := 4096; w_timestamp := 0;
     w_reason := USN_REASON_FILE_CREATE; w_attributes := 0; w_units := [0x61] |}.

Definition lab_page : list N := Eval vm_compute in le_encode 8 5000 ++ encode_wire lab_wire.
Definition lab_record : ParsedUsnRecord := decoded lab_wire.

(** The world is the time in milliseconds; a sleep lasts about ten seconds. *)
#[local] Instance lab : Win N := {|
  ctl c cap w :=
    match c with
    | ReadUsnJournal s _ _ _ _ id => if (s =? 4096)%Z && (id =? 7) then (Ok lab_page, w) else (Err 21, w)
    | EnumUsnData _ _ _ | QueryFileLayout _ _ _ _ _ => (Err ERROR_HANDLE_EOF, w)
    end;
  ctl_query w := (Ok {| ud_journal_id := 7; ud_first_usn := 0; ud_next_usn := 4096; ud_lowest_valid_usn := 0; ud_max_usn := 0;
                        ud_maximum_size := JOURNAL_MAX_SIZE; ud_allocation_delta := 0 |}, w);
  ctl_create _ _ w := (Ok tt, w);
  total_bytes _ w := (Err 5, w);
  open_by_id _ w := (Err 5, w);
  file_information _ w := (Err 5, w);
  final_path_length _ w := (Err 5, w);
  final_path_text _ _ w := (Err 5, w);
  close_handle _ w := w;
  find_first _ _ w := (Err (5, 0), w);
  find_next _ _ w := (Err (5, 0), w);
  find_close _ w := w;
  now w := (w, w);
  sleep d w := w + d + 9950;
  awake w := w / 1000;
  stopped w := (25000 <=? w, w)
|}.

#[local] Instance lab_alloc : Allocator := {| map_capacity _ := 0 |}.
#[local] Instance lab_text : FailText := {| fail_text _ _ := EmptyString |}.

#[export, program] Instance lab_ok : WinOk N := {|
  time w := w;
  journal id := if id =? 7 then [lab_record] else []
|}.
Next Obligation. intros id. cbn. destruct (id =? 7); repeat constructor. Qed.
Next Obligation. intros w. reflexivity. Qed.
Next Obligation. intros w. cbn. lia. Qed.
Next Obligation. intros w. cbn. lia. Qed.
Next Obligation. intros d w. cbn. lia. Qed.
Next Obligation.
  intros w w' s id buf walk Hread Hwalk. unfold read_usn_journal in Hread. cbn in Hread.
  destruct (Z.eqb_spec s 4096) as [-> |]; [|done]. destruct (N.eqb_spec id 7) as [-> |]; [|done]. cbn in Hread. injection Hread as <- <-.
  assert (E : walk_journal_buffer lab_page = Some (Ok {| UsnRecord.next_usn := 5000; journal_records := [lab_record]; journal_skipped := {| v4 := 0; unknown_version := 0 |} |})).
  { vm_compute. reflexivity. }
  rewrite E in Hwalk. injection Hwalk as <-. split; [cbn; lia|]. vm_compute. reflexivity.
Qed.

Definition lab_volume : VolumeState :=
  {| guid := []; mounts := []; index := fresh; phase := Bootstrapping; st_metadata_pending := false; journal_max_bytes := None; indexed := false; scope_cache := None |}.
Definition lab_start : Tail N := {| world := 0; state := lab_volume; pulse := 0; trace := [] |}.

(** Three reads: the record, a failure at once, one ten seconds later. *)
Definition lab_end : option unit * Tail N := Eval vm_compute in default (None, lab_start) (thread 3 6 lab_start).

Lemma lab_runs : thread 3 6 lab_start = Some lab_end.
Proof. vm_compute. reflexivity. Qed.

(** *** Witnesses *)

Lemma tail_refines_witness :
  legal Bootstrapping (trace lab_end.2) /\ over (view Bootstrapping (trace lab_end.2)) /\ load (pulse lab_end.2) = Retired /\ phase (state lab_end.2) = Offline.
Proof.
  destruct (tail_refines 3 6 lab_start lab_end.1 lab_end.2 eq_refl lab_runs) as (Hl & _ & Hp & Ho).
  destruct (Ho eq_refl) as [Hov Hre]. split_and!; [exact Hl|exact Hov|exact Hre|vm_compute; reflexivity].
Defined.

(** The cursor the build was given, and the record after it. *)
Definition lab_cursor : JournalInfo :=
  {| journal_id := 7; first_usn := 0; next_usn := 4096; lowest_valid_usn := 0; max_usn := 0; maximum_size := JOURNAL_MAX_SIZE |}.

Lemma replays_journal_witness :
  exists upto, v_position (view Bootstrapping (trace lab_end.2)) = Some (7, upto) /\ (4096 <= upto)%Z /\ [lab_record] = between (journal 7) 4096 upto.
Proof.
  apply (replays_journal 3 6 lab_start lab_end.1 lab_end.2 [] (trace lab_end.2) lab_cursor [lab_record]);
    [reflexivity|exact lab_runs|reflexivity|vm_compute; reflexivity].
Defined.

(** The last of three reads: two looks at the clock ten seconds apart. *)
Lemma phase_honest_witness :
  exists later l, trace lab_end.2 = later ++ ReadAt 5000 7 :: l /\ aged (looks l) = true /\ v_phase (view Bootstrapping l) = Offline.
Proof.
  exists (take 5 (trace lab_end.2)), (drop 6 (trace lab_end.2)). assert (E : trace lab_end.2 = take 5 (trace lab_end.2) ++ ReadAt 5000 7 :: drop 6 (trace lab_end.2)).
  { vm_compute. reflexivity. }
  split; [exact E|]. split; [vm_compute; reflexivity|].
  refine (eq_trans (proj1 (phase_honest 3 6 lab_start lab_end.1 lab_end.2 _ _ 5000 7 eq_refl lab_runs E)) _). vm_compute. reflexivity.
Defined.

Lemma rebuilds_bounded_witness : builds_in (take 13 (trace lab_end.2)) <= MAX_RESCANS + 2.
Proof.
  apply (rebuilds_bounded 3 6 lab_start lab_end.1 lab_end.2 [] (take 13 (trace lab_end.2)) (drop 13 (trace lab_end.2)));
    [reflexivity|exact lab_runs|vm_compute; reflexivity|]. repeat apply Forall_cons_2; try reflexivity. apply Forall_nil_2.
Defined.

Lemma waits_within_a_beat_witness :
  sleep_in (take 3 (drop 1 (trace lab_end.2))) = 50 /\ assess (Beat 20) 20 0 false false <> CancelIo 0.
Proof.
  split; [vm_compute; reflexivity|].
  apply (waits_within_a_beat 3 6 lab_start lab_end.1 lab_end.2 (take 1 (trace lab_end.2)) (take 3 (drop 1 (trace lab_end.2))) (drop 4 (trace lab_end.2)) 20 0 false false 0);
    [reflexivity|exact lab_runs|vm_compute; reflexivity|]. repeat apply Forall_cons_2; try reflexivity. apply Forall_nil_2.
Defined.
