(* ===== verification/ClientRun.v ===== *)
(** From a plan to the bytes it prints: the client, the pipe and the daemon
    together. *)

From stdpp Require Import gmap.
From stdpp Require Import base option list sets sorting strings.
From Stdlib Require Import NArith ZArith Lia.
From S2P Require Import Prelude Types Wtf8 Fold Text Dates Budget Wildcard Query FrnMap NameStore NameOrder EntryTable Volume VolumeInv VolumeNew Scope Prefilter Compiled FolderPaths TopK Engine FolderRank FolderTree NameLevel EngineView Frame Binary Proto Output Page Merge Stream StreamRead StreamMerge StreamPages Server ServerQuery.
From S2P Require Import EsSwitches Argv ArgvRead Client ClientRead.
Open Scope N_scope.
Open Scope list_scope.

(** ** A file or a console that takes everything *)

#[export] Instance collecting : Sink (list N) := {| write_all bs w := (Ok tt, w ++ bs); flush w := (Ok tt, w) |}.

(** ** Pages written as they come *)

Definition sizes_fit (r : QueryResults) : Prop := Forall (fun i => forall s, Binary.size i = Some s -> s < 18446744073709551616) (items r).

Definition writer_fits (s : State) : Prop := match s with SPlain o => exists ts gr, p_grouping o = from_locale ts gr | _ => True end.

Section writing.
Context {Sj : Serde} (date : Z -> list N).

Lemma plain_rows_total o ts gr rows : p_grouping o = from_locale ts gr -> Forall (fun row => forall s, r_size row = Some s -> s < 18446744073709551616) rows ->
  is_Some (mapM (write_plain_row o) rows).
Proof.
  intros Eg Hs. apply mapM_is_Some_2. eapply Forall_impl; [exact Hs|]. intros row Hr. unfold compose, write_plain_row. rewrite Eg.
  destruct (plain_cells_layout ts gr row (p_columns o) 0 0) as (cells & E & _); [|done|].
  2: { change (0 - 0) with 0 in E. rewrite E. by eexists. }
  unfold file_size. intros s. destruct (r_is_dir row); [done|]. intros ?%Hr. unfold u64_max. lia.
Qed.

Lemma writer_page_total s r : writer_fits s -> sizes_fit r -> exists out s', writer_page date s r = Some (out, s') /\ writer_fits s'.
Proof.
  intros Hw Hr. destruct s as [o|o started|l|j]; cbn [writer_page].
  - destruct Hw as (ts & gr & Eg). destruct (plain_rows_total o ts gr (rows_of date (p_columns o) (items r)) Eg) as [rows ->]; [|cbn; eexists _, _; split; [done|]; by exists ts, gr].
    unfold rows_of. apply Forall_fmap. eapply Forall_impl; [exact Hr|]. done.
  - by eexists _, _.
  - destruct (list_page l r) as [out l']. by eexists _, _.
  - destruct (json_page j r) as [out j']. by eexists _, _.
Qed.

Lemma writer_pages_total pages : forall s, writer_fits s -> Forall sizes_fit pages -> exists out, writer_pages date s pages = Some out.
Proof.
  induction pages as [|r pages IH]; intros s Hw Hp; cbn [writer_pages]; [by eexists|]. apply Forall_cons in Hp as [Hr Hp].
  destruct (writer_page_total s r Hw Hr) as (out & s' & -> & Hw'). cbn [mbind option_bind]. destruct (IH s' Hw' Hp) as [rest ->]. by eexists.
Qed.

Lemma pages_as_one page pages f : write_results date f (page :: pages) = write_results date f [fold_left merge2 pages page].
Proof. unfold write_results. revert page. induction pages as [|q pages IH]; intros page; [done|]. by rewrite writer_pages_merge, IH. Qed.
End writing.

Lemma output_format_fits locale plan : writer_fits (writer_new (output_format locale plan)).
Proof.
  unfold output_format. destruct (pl_format plan) as [[]|]; try done. destruct (pl_json plan); [done|]. cbn. case_bool_decide; [by exists locale.1, locale.2|by exists None, None].
Qed.

(** ** A reply taken page by page *)

Section streaming.
Context {J : SerdeJson} {Sj : Serde}.
Context (absolutize : list N -> list N) (format_date_local : Z -> list N) (locale : option (list N) * option (list N)) (busy : QueryResults -> Wire -> Wire).
Context (Hbusy : forall r w, w_arrivals (busy r w) = w_arrivals w /\ w_now w <= w_now (busy r w)).
Context (plan : EsPlan).
Notation date := (stream_date format_date_local locale plan).
Notation fmt := (output_format locale plan).

(** What a page leaves. *)
Definition taken (r : QueryResults) (p : Streaming (W := list N)) : Streaming :=
  match writer_page date (st_writer p) r with
  | None => {| st_writer := st_writer p; st_out := st_out p; st_total := Binary.total r; st_panicked := true |}
  | Some (buf, w) => {| st_writer := w; st_out := st_out p ++ buf; st_total := Binary.total r; st_panicked := st_panicked p |}
  end.

Lemma stream_page_taken r p w : exists w', stream_page format_date_local locale busy plan r p w = (Ok tt, taken r p, w') /\ w_arrivals w' = w_arrivals w /\ w_now w <= w_now w'.
Proof.
  unfold stream_page, taken. destruct (writer_page date (st_writer p) r) as [[buf s]|]; [|exists w; split; [done|]; split; [done|lia]].
  cbn [write_all collecting]. exists (busy r w). by destruct (Hbusy r w).
Qed.

Lemma taken_all results : forall p, writer_fits (st_writer p) -> Forall sizes_fit results -> exists out,
  writer_pages date (st_writer p) results = Some out /\ let p' := fold_left (fun p r => taken r p) results p in
  st_out p' ++ writer_finish (st_writer p') = st_out p ++ out /\ st_panicked p' = st_panicked p /\ st_total p' = default (st_total p) (Binary.total <$> last results).
Proof.
  induction results as [|r results IH]; intros p Hw Hr; cbn [fold_left writer_pages]; [by eexists|]. apply Forall_cons in Hr as [Hr Hrs].
  destruct (writer_page_total date (st_writer p) r Hw Hr) as (buf & s & E & Hs). rewrite E. cbn [mbind option_bind].
  assert (Et : taken r p = {| st_writer := s; st_out := st_out p ++ buf; st_total := Binary.total r; st_panicked := st_panicked p |}) by (unfold taken; by rewrite E).
  destruct (IH (taken r p)) as (rest & Er & Eo & Ep & El); [by rewrite Et|done|]. rewrite Et in Er, Eo, Ep, El. rewrite Et. cbn [st_writer st_out st_total st_panicked] in Er, Eo, Ep, El.
  rewrite Er. cbn [mbind option_bind]. eexists. split; [done|]. rewrite Eo, Ep, El, <- app_assoc. split; [done|]. split; [done|]. rewrite last_cons. by destruct (last results).
Qed.

(** The stream of a reply that comes in time is written out in full. *)
Lemma stream_replied payloads results q fuel out w : len (request_json (RQuery q)) <= u32_max -> Forall (payload_ok MAX_SERVER_FRAME) payloads ->
  Forall2 (fun p r => decode_response_frame p = Some (Ok (Results r))) payloads results -> more <$> results = replicate (pred (length results)) true ++ [false] ->
  Forall sizes_fit results -> coming w = stream_of payloads -> in_time (w_now w) (w_arrivals w) -> (turns w + length results < fuel)%nat ->
  exists bytes, write_results date fmt results = Some bytes /\
    stream format_date_local locale busy fuel plan q out w
      = Some (if pl_no_result_error plan && (default 0 (Binary.total <$> last results) =? 0) then NoResults else Success, out ++ bytes).
Proof.
  intros Hreq Hp HF Hm Hs Hc Ht Hf. unfold stream. set (p0 := {| st_writer := writer_new fmt; st_out := out; st_total := 0; st_panicked := false |}).
  destruct (taken_all results p0 (output_format_fits locale plan) Hs) as (bytes & Eb & Eo & Ep & El). exists bytes. split; [exact Eb|].
  unfold client_query, encode_request. rewrite encode_frame_bytes by done. cbn [mbind option_bind pipe_send wire_io negb].
  set (w1 := {| w_now := w_now w; w_arrivals := w_arrivals w; w_sent := _ |}).
  destruct (query_replies_pages (fun e => StopClient (client_error e)) (stream_page format_date_local locale busy plan) taken stream_page_taken payloads results Hp HF Hm fuel (new MAX_SERVER_FRAME) w1 (w_now w) p0)
    as (w2 & ->); [|exact Hf|].
  { split; [apply decoder_ok_new|done|done| |done|done]. unfold unconsumed. cbn. exact Hc. }
  cbn [mbind option_bind]. rewrite Ep. cbn [st_panicked p0]. cbn [write_all flush collecting]. rewrite Eo, El. done.
Qed.

(** A query that is refused prints nothing. *)
Lemma stream_refused payload code m q fuel out w : len (request_json (RQuery q)) <= u32_max -> payload_ok MAX_SERVER_FRAME payload ->
  decode_response_frame payload = Some (Ok (Error code m)) -> coming w = frame_bytes payload -> in_time (w_now w) (w_arrivals w) -> (turns w + 1 < fuel)%nat ->
  stream format_date_local locale busy fuel plan q out w = Some (BadParam, out).
Proof.
  intros Hreq Hp Hdec Hc Ht Hf. unfold stream. set (p0 := {| st_writer := writer_new fmt; st_out := out; st_total := 0; st_panicked := false |}).
  unfold client_query, encode_request. rewrite encode_frame_bytes by done. cbn [mbind option_bind pipe_send wire_io negb].
  set (w1 := {| w_now := w_now w; w_arrivals := w_arrivals w; w_sent := _ |}).
  destruct (query_replies_refused (fun e => StopClient (client_error e)) (stream_page format_date_local locale busy plan) payload code m fuel (new MAX_SERVER_FRAME) w1 (w_now w) p0 Hp Hdec)
    as (w2 & ->); [|exact Hf|done].
  split; [apply decoder_ok_new|done|done| |done|done]. unfold unconsumed. cbn. exact Hc.
Qed.
End streaming.

(** ** The whole way *)

(** A line with one number, on a console or in a file. *)
Definition number_text (plan : EsPlan) (to_file : bool) (n : N) : list N :=
  if to_file then (if wants_bom plan then BOM else []) ++ dec n ++ [0x0D; 0x0A] else dec n ++ [0x0A].

(** The text goes to the export file if there is one, to the console otherwise. *)
Definition put (file : option (list N)) (stdout text : list N) : option (list N) * list N :=
  match file with Some f => (Some (f ++ text), stdout) | None => (None, stdout ++ text) end.

Section numbers.
Context {J : SerdeJson}.

(** A count keeps the first page. *)
Lemma keep_first_taken r (p : option QueryResults) (w : Wire) : exists w', keep_first r p w = (Ok tt, match p with Some h => Some h | None => Some r end, w') /\ w_arrivals w' = w_arrivals w /\ w_now w <= w_now w'.
Proof. exists w. split; [done|]. split; [done|lia]. Qed.

Lemma first_kept (results : list QueryResults) r0 : fold_left (fun p r => match p with Some h => Some h | None => Some r end) results (Some r0) = Some r0.
Proof. induction results as [|r results IH]; [done|]. apply IH. Qed.

Lemma query_number payloads results q fuel w r0 rs : results = r0 :: rs -> len (request_json (RQuery q)) <= u32_max -> Forall (payload_ok MAX_SERVER_FRAME) payloads ->
  Forall2 (fun p r => decode_response_frame p = Some (Ok (Results r))) payloads results -> more <$> results = replicate (pred (length results)) true ++ [false] ->
  coming w = stream_of payloads -> in_time (w_now w) (w_arrivals w) -> (turns w + length results < fuel)%nat ->
  exists w', client_query id keep_first fuel q None w = Some (Ok tt, Some r0, w').
Proof.
  intros -> Hreq Hp HF Hm Hc Ht Hf. unfold client_query, encode_request. rewrite encode_frame_bytes by done. cbn [mbind option_bind pipe_send wire_io negb].
  set (w1 := {| w_now := w_now w; w_arrivals := w_arrivals w; w_sent := _ |}).
  destruct (query_replies_pages (fun e => id (client_error e)) keep_first (fun r p => match p with Some h => Some h | None => Some r end) keep_first_taken payloads (r0 :: rs) Hp HF Hm
    fuel (new MAX_SERVER_FRAME) w1 (w_now w) None) as (w2 & ->); [|exact Hf|].
  { split; [apply decoder_ok_new|done|done| |done|done]. unfold unconsumed. cbn. exact Hc. }
  exists w2. cbn [fold_left]. by rewrite first_kept.
Qed.

Lemma query_number_refused payload code m q fuel w : len (request_json (RQuery q)) <= u32_max -> payload_ok MAX_SERVER_FRAME payload ->
  decode_response_frame payload = Some (Ok (Error code m)) -> coming w = frame_bytes payload -> in_time (w_now w) (w_arrivals w) -> (turns w + 1 < fuel)%nat ->
  exists w', client_query id keep_first fuel q None w = Some (Err (QueryRefused m), None, w').
Proof.
  intros Hreq Hp Hdec Hc Ht Hf. unfold client_query, encode_request. rewrite encode_frame_bytes by done. cbn [mbind option_bind pipe_send wire_io negb].
  set (w1 := {| w_now := w_now w; w_arrivals := w_arrivals w; w_sent := _ |}).
  apply (query_replies_refused (fun e => id (client_error e)) keep_first payload code m fuel (new MAX_SERVER_FRAME) w1 (w_now w) None Hp Hdec); [|exact Hf].
  split; [apply decoder_ok_new|done|done| |done|done]. unfold unconsumed. cbn. exact Hc.
Qed.
End numbers.

(** Pages that agree, as one. *)
Lemma merged_pages (t : N) (ts : option N) (vi mp : bool) results r0 : Forall (fun r => Binary.total r = t /\ Binary.total_size r = ts /\ volumes_incomplete r = vi /\ metadata_pending r = mp /\ Binary.generation r = 0) (r0 :: results) ->
  fold_left merge2 results r0 = {| Binary.total := t; items := concat (items <$> (r0 :: results)); more := default (more r0) (more <$> last results);
    volumes_incomplete := vi; metadata_pending := mp; Binary.generation := 0; Binary.total_size := ts |}.
Proof.
  revert r0. induction results as [|r results IH]; intros r0 Hall; cbn [fold_left].
  - apply Forall_singleton in Hall as (<- & <- & <- & <- & E). destruct r0. cbn in *. by rewrite app_nil_r, E.
  - apply Forall_cons in Hall as [(E1 & E2 & E3 & E4 & E5) Hall]. apply Forall_cons in Hall as [(F1 & F2 & F3 & F4 & F5) Hall]. rewrite IH.
    + cbn [fmap list_fmap concat items merge2 more]. rewrite <- app_assoc. f_equal. rewrite last_cons. by destruct (last results).
    + constructor; [|done]. cbn. rewrite E1, E2, E3, E4, F3, F4, F5. by destruct vi, mp.
Qed.

Section whole.
Context `{Unicode, !UnicodeAscii, !UnicodeText, Hasher} {M : Memchr} {Mok : MemchrOk M} {Sel : Select} {Sell : SelectOk Sel}.
Context {Srt : SortUnstable} {Sok : SortUnstableOk Srt} {Pl : Pool} {Pool_ok : PoolOk Pl} {J : SerdeJson} {Sj : Serde}.
Context (absolutize : list N -> list N) (format_date_local : Z -> list N) (locale : option (list N) * option (list N)) (busy : QueryResults -> Wire -> Wire).
Context (Hbusy : forall r w, w_arrivals (busy r w) = w_arrivals w /\ w_now w <= w_now (busy r w)).

(** All that a query asks for, on one page. *)
Definition whole_page (q : QueryRequest) (gs : list Target) : QueryResults :=
  {| Binary.total := total_matches gs; items := omap (row_of q gs) (cut (qr_offset q) (qr_limit q) (all_rows q gs)); more := false;
     volumes_incomplete := existsb (fun g => negb (is_complete (phase (tg_vol g)))) gs; metadata_pending := existsb (fun g => st_metadata_pending (tg_vol g)) gs;
     Binary.generation := 0; Binary.total_size := if qr_want_total_size q then Some (total_bytes gs) else None |}.

(** What a plan prints, given the matches: a number, or the rows in its format. *)
Definition prints (plan : EsPlan) (gs : list Target) (to_file : bool) (text : list N) : Prop :=
  if pl_result_count plan then text = number_text plan to_file (total_matches gs)
  else if pl_total_size plan then text = number_text plan to_file (total_bytes gs)
  else write_results (stream_date format_date_local locale plan) (output_format locale plan) [whole_page (build_query absolutize plan) gs] = Some text.

Definition search_exit (plan : EsPlan) (gs : list Target) : Exit := if pl_no_result_error plan && (total_matches gs =? 0) then NoResults else Success.

Lemma run_replied plan gs frames results fuel file stdout w : let q := build_query absolutize plan in
  replied q gs frames results -> len (request_json (RQuery q)) <= u32_max -> coming w = concat frames -> in_time (w_now w) (w_arrivals w) -> (turns w + length frames < fuel)%nat ->
  exists text, prints plan gs (is_some file) text /\
    run_search absolutize format_date_local locale busy fuel plan file stdout w = Some (search_exit plan gs, (put file stdout text).1, (put file stdout text).2).
Proof.
  intros q [(payloads & -> & Hp & HF) Hrows Hmore Heach Hsz] Hreq Hc Ht Hf. rewrite length_fmap, (Forall2_length _ _ _ HF) in Hf.
  destruct results as [|r0 rs]; [done|]. assert (Hs : Forall sizes_fit (r0 :: rs)) by (eapply Forall_impl; [exact Hsz|]; by intros r [_ ?]).
  unfold run_search, prints, search_exit. fold q. destruct (pl_result_count plan) eqn:Ec; cbn [negb andb]; [|destruct (pl_total_size plan) eqn:Es; cbn [negb andb]].
  1, 2: destruct (query_number payloads (r0 :: rs) q fuel w r0 rs eq_refl Hreq Hp HF Hmore Hc Ht Hf) as (w' & ->); cbn [mbind option_bind]; apply Forall_cons in Heach as [(E1 & E2 & _) _].
  - rewrite E1. eexists. split; [done|]. by destruct file as [file|].
  - assert (Eq : qr_want_total_size q = true) by (unfold q, build_query; cbn; by rewrite Ec, Es). rewrite E2, Eq, E1. eexists. split; [done|]. by destruct file as [file|].
  - assert (Hone : write_results (stream_date format_date_local locale plan) (output_format locale plan) (r0 :: rs)
      = write_results (stream_date format_date_local locale plan) (output_format locale plan) [whole_page q gs]).
    { rewrite pages_as_one. do 2 f_equal.
      rewrite (merged_pages (total_matches gs) (if qr_want_total_size q then Some (total_bytes gs) else None) (existsb (fun g => negb (is_complete (phase (tg_vol g)))) gs)
        (existsb (fun g => st_metadata_pending (tg_vol g)) gs)).
      - unfold whole_page. rewrite Hrows. f_equal. cbn [length pred] in Hmore. apply (f_equal last) in Hmore. rewrite last_snoc, fmap_last in Hmore. rewrite last_cons in Hmore.
        by destruct (last rs); injection Hmore.
      - apply Forall_forall. intros r Hr. rewrite Forall_forall in Heach, Hsz. destruct (Heach r Hr) as (E1 & E2 & E3 & E4 & _). by destruct (Hsz r Hr) as [E5 _]. }
    assert (Htot : default 0 (Binary.total <$> last (r0 :: rs)) = total_matches gs).
    { rewrite Forall_forall in Heach. destruct (last (r0 :: rs)) as [r|] eqn:El; [|by apply last_None in El]. apply last_Some_elem_of in El. by destruct (Heach r El) as [E _]. }
    assert (Hgo : forall out, exists text, write_results (stream_date format_date_local locale plan) (output_format locale plan) [whole_page q gs] = Some text /\
      stream format_date_local locale busy fuel plan q out w = Some (if pl_no_result_error plan && (total_matches gs =? 0) then NoResults else Success, out ++ text)).
    { intros out. destruct (stream_replied format_date_local locale busy Hbusy plan payloads (r0 :: rs) q fuel out w Hreq Hp HF Hmore Hs Hc Ht Hf) as (bytes & Eb & Er).
      exists bytes. rewrite <- Hone, <- Htot. done. }
    destruct file as [file|]; [destruct (Hgo file) as (text & Etext & ->)|destruct (Hgo stdout) as (text & Etext & ->)]; by exists text.
Qed.

Lemma run_refused plan payload code m fuel file stdout w : let q := build_query absolutize plan in
  payload_ok MAX_SERVER_FRAME payload -> decode_response_frame payload = Some (Ok (Error code m)) -> len (request_json (RQuery q)) <= u32_max ->
  coming w = frame_bytes payload -> in_time (w_now w) (w_arrivals w) -> (turns w + 1 < fuel)%nat ->
  run_search absolutize format_date_local locale busy fuel plan file stdout w = Some (BadParam, file, stdout).
Proof.
  intros q Hp Hdec Hreq Hc Ht Hf. unfold run_search. fold q. destruct (negb (pl_result_count plan) && negb (pl_total_size plan)).
  - destruct file as [file|]; by erewrite stream_refused.
  - destruct (query_number_refused payload code m q fuel w Hreq Hp Hdec Hc Ht Hf) as (w' & ->). done.
Qed.
End whole.

(** The answer to a query whose budget is spent. *)
Definition refusal (budget : N) (vol : VolumeState) : Response := Error BadQuery (stopped_message (mount_prefix vol) budget).

(** C4: the program prints exactly the matches.  Take a plan and the request it
    makes, volumes in order that stand still, and the daemon's answer to that
    request; let the pipe hand the bytes of the answer over in whatever pieces it
    likes, none later than the deadline after the one before.  Then the client
    ends within the turns its clock and the bytes allow.  Either a search budget
    was spent, the exit code says a bad parameter and nothing is written; or the
    exit code is success (no results, when the plan wants that told and there are
    none) and what goes to the export file, or to the console if there is none,
    is the count, or the total size, or the rows [offset] to [offset + limit] of
    all matches in the order of the sort, as the plan's format writes one page of
    them; the other of the two is not touched. *)
Theorem search_prints_matches `{Unicode, !UnicodeAscii, !UnicodeText, Hasher} {M : Memchr} {Mok : MemchrOk M} {Sel : Select} {Sell : SelectOk Sel}
    {Srt : SortUnstable} {Sok : SortUnstableOk Srt} {Pl : Pool} {Pool_ok : PoolOk Pl} {J : SerdeJson} {Sj : Serde}
    absolutize format_date_local locale busy plan world began clock volumes parsed budget later gs :
  let q := build_query absolutize plan in
  (forall r w, w_arrivals (busy r w) = w_arrivals w /\ w_now w <= w_now (busy r w)) ->
  len (request_json (RQuery q)) <= u32_max ->
  parse_query_at (qr_query q) (qr_match_case q) clock = Ok parsed ->
  Forall2 (target_ok parsed volumes) (targets volumes (qr_scope q)) gs -> len gs < 2 ^ 32 ->
  (forall page i vol, volumes !! i = Some vol -> later page i = index vol) ->
  (forall vol, vol ∈ volumes -> payload_ok MAX_SERVER_FRAME (response_payload (refusal budget vol)) /\
     decode_response_frame (response_payload (refusal budget vol)) = Some (Ok (refusal budget vol))) ->
  exists frames volumes', stream_query_binary world began clock volumes q budget false later (fun _ => true) = Some (frames, volumes') /\
    forall fuel file stdout w, coming w = concat frames -> in_time (w_now w) (w_arrivals w) -> (turns w + length frames < fuel)%nat ->
      ((exists i vol e b', volumes !! i = Some vol /\ search_run world began q parsed budget i vol e = Some (Err stopped, b') /\ is_spent (E := world i) b' = true) /\
         run_search absolutize format_date_local locale busy fuel plan file stdout w = Some (BadParam, file, stdout))
      \/ exists text, prints absolutize format_date_local locale plan gs (is_some file) text /\
           run_search absolutize format_date_local locale busy fuel plan file stdout w = Some (search_exit plan gs, (put file stdout text).1, (put file stdout text).2).
Proof.
  intros q Hbusy Hreq Hparse HF Hlen Hlater Hmsg.
  destruct (stream_query_spec world began clock volumes q parsed budget false later gs Hparse HF Hlen Hlater) as (frames & volumes' & E & _ & Hor).
  { intros vol Hv. by destruct (Hmsg vol Hv) as [[? _] _]. }
  exists frames, volumes'. split; [exact E|]. intros fuel file stdout w Hc Ht Hf.
  destruct Hor as [(i & vol & e & b' & Hv & Hrun & Hspent & ->)|[results Hrep]]; [left|right].
  - split; [by exists i, vol, e, b'|]. destruct (Hmsg vol (list_elem_of_lookup_2 _ _ _ Hv)) as [Hp Hdec]. cbn [concat] in Hc. rewrite app_nil_r in Hc.
    eapply run_refused; [exact Hp|exact Hdec|done|exact Hc|done|exact Hf].
  - eapply run_replied; [exact Hbusy|exact Hrep|done|exact Hc|done|exact Hf].
Qed.

(** *** A console, one volume and one file *)

#[local] Existing Instance one_bucket.

(** A printer that writes the message of an error. *)
Definition plain_words : SerdeJson := {| JsonError := unit; request_json := fun _ => [];
  response_json := fun r => match r with Error _ m => m | _ => [] end;
  request_of_json := fun _ => Err tt; response_of_json := fun bs => Ok (Error BadQuery bs) |}.

Definition plain_strings : Serde := {| json_string := id; json_pretty := fun i => Binary.path i |}.

(** [es -n 5 a]. *)
Definition plan_a : EsPlan := set_limit (Some 5) (set_query [0x61] plan_default).

Definition answer_a : option (list (list N) * list VolumeState) :=
  stream_query_binary (M := naive) (Sel := sort_select) (Pl := one_thread) (J := plain_words) (fun _ => quiet) (fun _ => 0) (fixed_clock 0 0 0) [volume_c]
    (build_query id plan_a) 10 false (fun _ _ => with_a) (fun _ => true).

Lemma search_prints_matches_witness : exists frames volumes', answer_a = Some (frames, volumes') /\
  forall w, coming w = concat frames -> in_time (w_now w) (w_arrivals w) ->
    is_Some (run_search (J := plain_words) (Sj := plain_strings) id (fun _ => []) (None, None) (fun _ w => w) (S (turns w + length frames)) plan_a None [] w).
Proof.
  destruct (search_prints_matches (M := naive) (Sel := sort_select) (Pl := one_thread) (J := plain_words) (Sj := plain_strings) id (fun _ => []) (None, None) (fun _ w => w) plan_a
    (fun _ => quiet) (fun _ => 0) (fixed_clock 0 0 0) [volume_c] query_a 10 (fun _ _ => with_a) [{| tg_i := 0; tg_vol := volume_c; tg_all := Some [2] |}]) as (frames & volumes' & E & Hall).
  - intros r w. split; [done|lia].
  - vm_compute. congruence.
  - vm_compute. reflexivity.
  - constructor; [|constructor]. split; [done|]. split; [done|]. split; [apply volume_c_served|]. exists (Some None), volume_c. split; [done|].
    split; [|apply volume_c_matches]. intros root Hr. discriminate Hr.
  - vm_compute. reflexivity.
  - intros page i vol Hi. apply list_lookup_singleton_Some in Hi as [_ <-]. done.
  - intros vol ->%list_elem_of_singleton. split; [split; vm_compute; congruence|vm_compute; reflexivity].
  - exists frames, volumes'. split; [exact E|]. intros w Hc Ht. destruct (Hall (S (turns w + length frames)) None [] w Hc Ht) as [[_ ->]|(text & _ & ->)]; [lia|by eexists..].
Defined.

(** The daemon's answer in one piece, ten milliseconds late, and what the console
    then shows: the path of the file, on a line of its own. *)
Example console_shows_a :
  (fun '(frames, _) => run_search (J := plain_words) (Sj := plain_strings) id (fun _ => []) (None, None) (fun _ w => w) 100 plan_a None []
     {| w_now := 0; w_arrivals := [(10, concat frames)]; w_sent := [] |}) <$> answer_a
  = Some (Some (Success, None, [0x43; 0x3A; 0x5C; 0x61; 0x0A])).
Proof. vm_compute. reflexivity. Qed.
